(* ===== verification/_CoqProject ===== *)
-Q . S2P
Prelude.v
Ranges.v
OrderedMap.v
WaitKeys.v
HandleTable.v
Objects.v
Clock.v
Scheduler.v
SchedulerInv.v
SchedulerProps.v
WakeAll.v
SemaphoreService.v
EventFlagService.v
CxaGuard.v
EventQueues.v
EventQueueProps.v
LittleEndian.v
SharedBacking.v
FreeList.v
DirectMemory.v
GuestMemory.v
GuestMemoryMap.v
GuestMemoryOps.v
GuestMemoryData.v
GuestMemoryWrite.v
GuestMemoryCopy.v
GuestMemoryInit.v
GuestMemoryRuns.v
ResourceCoherence.v
GuestBlocks.v
Ampr.v
Pthread.v
PthreadLocks.v
PthreadRwlocks.v
PthreadConditions.v
PthreadInv.v
PthreadObjects.v
PthreadReachable.v
PthreadProps.v
PthreadSpecs.v
ProcessLifecycle.v
Elf.v
SceSymbol.v
ModulePlan.v
Launch.v
StaticTls.v
Relocator.v
ModuleExports.v
StaticTlsInstance.v
ElfReader.v
ElfParser.v
ElfLoad.v
ElfReaderProps.v
ElfParserProps.v
ElfEncode.v
ElfLoadPlan.v
ElfLoadProps.v
ElfInterfaces.v
Words32.v
Formats.v
TileBlocks.v
TileTextures.v
TileTextureProps.v
LinearImages.v
TileVolumes.v
ImageLayout.v
Detile.v
ImageLayoutProps.v
CommandProcessor.v
CommandProcessorProps.v
SubmissionQueue.v
PacketWriter.v
GpuActions.v
LibcHeap.v
LibcHeapProps.v
Witnesses.v
PthreadWitnesses.v
LoaderWitnesses.v
ElfWitnesses.v
GpuWitnesses.v
