(* ===== verification/Prelude.v ===== *)
(** * A verification library of KajPS5

    KajPS5 is a PlayStation 5 emulator in C++20.  This library models the parts
    of it that own guest state and decide what guest code, guest memory and
    guest images mean: the kernel services of [src/kernel], the memory of
    [src/core/memory], the executable loader of [src/loader], and of [src/gpu] the
    command processor with its queues and packet writers, the image layouts and
    the resource tracking.  Definitions are executable
    translations of the C++; theorems are about these definitions.

    ** How the program is put together

    - [HandleTable] (handle_table.cpp) gives kernel objects their handles.
    - [GuestScheduler] (guest_scheduler.cpp) runs one guest thread at a time,
      over the handle table and [KernelClockService] (clock.cpp).  A thread
      blocks on a string key, possibly with a deadline, and is woken by key.
    - The semaphore, event-flag, event-queue and static-guard services
      (semaphore.cpp, event_flag.cpp, event_queue.cpp, cxa_guard.cpp) and the
      POSIX-threads service (pthread.cpp) keep their objects in tables of handles
      and block and wake threads through the scheduler with keys of their own.
    - [GuestMemory] (guest_memory.cpp) is the address space of a guest: regions
      with protections, mapping generations, private bytes, and windows onto
      [SharedMemoryBacking] objects (shared_memory_backing.cpp), with an event
      for every mutation.
    - [DirectMemoryService] (direct_memory.cpp) allocates physical ranges of one
      backing and records where the guest has mapped them.
      [LibcHeapService] (libc_heap.cpp) implements malloc and mspaces over a
      [GuestMemory]; AMPR command buffers (ampr_command_buffer.cpp) are records
      in guest memory that the service appends and executes.
    - The loader parses an executable (elf.cpp), maps it into guest memory,
      resolves its imports (sce_symbol.cpp, module_export_registry.cpp,
      layered_import_resolver.cpp), relocates it (relocator.cpp), lays out
      thread-local storage (static_tls_layout.cpp, static_tls_instance.cpp) and
      plans the start of modules (module_plan.cpp, launch_metadata.cpp,
      lifecycle_plan.cpp); process_lifecycle.cpp keeps what exit has to run.
    - The GPU code knows image formats (format.cpp), computes how tiled images
      lie in guest memory (tile_layout.cpp, image_layout.cpp), copies them to
      linear staging buffers (detile.cpp), and observes the write events of
      guest memory to know which resources are stale (resource_coherence.cpp).
    - The guest writes packets into command buffers through the runtime
      (runtime.cpp) and submits the buffers to queues (submission_queue.cpp).
      Draining a queue resumes the command processor (command_processor.cpp) on
      the buffer at its front: it decodes packets, keeps the register files,
      waits for guest memory, enters nested buffers, and delivers actions to a
      chain of sinks that store to guest memory, trigger events and record.

    ** Files

    - [Prelude]: 64-bit unsigned arithmetic with its wrap-around (scope [u64]),
      tactics ([split_match], [u64_lia]), powers of two and alignment, status
      codes, [std::find_if] updates of vectors.  [Words32]: the same for 32-bit
      words, arrays of fixed size, xor-linear maps.  [LittleEndian]: byte images
      of words.
    - [Ranges]: half-open ranges in ordered vectors (class [Interval]), the
      search idioms, and the loop that removes a window from a vector of ranges
      ([carve], classes [Carve] and [CarveLaws]), shared by direct memory and
      guest memory.  [OrderedMap]: [std::map] as a sorted association list;
      [FreeList]: such a map used as a free list or a table of allocations.
    - Kernel: [WaitKeys] (the key strings of all services and their
      injectivity), [HandleTable], [Clock], [Objects] (semaphores, event flags,
      event queues), [Scheduler] (operations), [SchedulerInv] (invariant,
      reachability), [SchedulerProps] (fairness, wake-ups, timeouts, join),
      [WakeAll] (what waking a key does, as the services use it),
      [SemaphoreService], [EventFlagService], [CxaGuard], [EventQueues]
      (operations and the invariant of one queue), [EventQueueProps].
    - POSIX threads: [Pthread] (data and operations), [PthreadLocks],
      [PthreadRwlocks], [PthreadConditions], [PthreadInv], [PthreadObjects],
      [PthreadReachable] (the invariant, by kind of object), [PthreadProps],
      [PthreadSpecs] (what the calls do).
    - Memory: [SharedBacking], [DirectMemory], [GuestMemory] (operations),
      [GuestMemoryMap] (invariant, queries), [GuestMemoryOps] (map, protect,
      unmap), [GuestMemoryData] (locations and the bytes a guest sees),
      [GuestMemoryWrite], [GuestMemoryCopy], [GuestMemoryInit] (the loader's
      stores), [GuestMemoryRuns] (creation and runs), [GuestBlocks] (what a
      client that maps a window or stores to memory relies on), [LibcHeap]
      (operations), [LibcHeapProps] (mspaces and [malloc]), [Ampr].
    - Loader: [Elf] (data), [SceSymbol], [ModulePlan], [Launch], [StaticTls],
      [StaticTlsInstance], [Relocator], [ModuleExports], [ProcessLifecycle];
      [ElfReader], [ElfParser], [ElfLoad] (operations), [ElfReaderProps],
      [ElfParserProps], [ElfEncode] (a printer and the round
      trip), [ElfLoadPlan], [ElfLoadProps], [ElfInterfaces] (what the parser
      promises to its clients).
    - GPU: [Formats], [TileBlocks] (addresses in a block), [TileTextures] (mip
      chains, sizes, pitches, volumes), [TileTextureProps],
      [LinearImages], [TileVolumes], [ImageLayout], [ImageLayoutProps],
      [Detile], [ResourceCoherence]; [CommandProcessor] (the decoder as a state
      monad, the cursor operations and the sinks, class [SubmissionSink]),
      [CommandProcessorProps] (safety and accounting, for every sink of class
      [SinkKeepsMemory]), [SubmissionQueue], [PacketWriter] (the packet writers
      and the round trip through the decoder), [GpuActions] (the ring of actions
      and the render state of draws).
    - [Witnesses], [PthreadWitnesses], [LoaderWitnesses], [ElfWitnesses],
      [GpuWitnesses]: concrete instances of the properties.

    ** How state and code correspond

    A C++ object is a record with the fields' names; a method is a function from
    the state to the new state and its result, with the method's guards in the
    method's order.  [std::uint64_t] is [Z] with [add64], [sub64], [mul64]
    wherever the code computes, so a wrap-around is visible; hypotheses
    [is_u64] say that arguments have the width; the GPU code uses the 32-bit
    operations of scope [u32].  [std::map] is [OrderedMap], [std::vector] and
    [std::deque] are lists, [std::unordered_map] is [gmap].  A shared pointer to
    a queue or a backing is a reference into a table (a handle, which is never
    reused, or a key of [backings]), so that all holders see one object.  The
    services that call the scheduler act on one [Kernel] record: handle table,
    scheduler, clock.  Each public method runs under its object's mutex and is
    one atomic step here; step relations ([sched_step], [eqs_step], [dm_step],
    [gm_step], [heap_step], [malloc_step], [cs_step] and others) interleave such
    steps freely ([malloc_step] except that the guest does not protect or unmap a
    live block).  Accesses that the language leaves undefined (a byte outside an
    image or a span, an array index out of range, a shift that is too wide) are
    a separate outcome of the model, and theorems show that it does not occur.

    Parameters: the readings of the host clock (class [ClockSource], with the
    width and monotonicity of the readings as [ClockSourceLaws]), the success
    of the host's page-protection calls (class [HostMemory], unconstrained), and
    the import resolvers a relocation asks (a record of their two functions).

    ** What the theorems show

    - Handles and keys: no handle is issued twice; keys of different objects
      differ.
    - Scheduler: the ready queue is exactly the ready threads in every reachable
      state; round-robin progress; which threads a wake-up readies and in which
      order; when a timed wait expires; exit and join.
    - Synchronisation: semaphore counts are conserved over every history; waits
      acquire or park, signals leave no waiter behind; event flags accept
      exactly the documented encodings and have the documented semantics; at
      most one thread initialises a guarded object; event queues never hold
      stale or duplicate events, triggers lose no wake-up and deliver edge
      events once and in order, deletion completes every waiter, deadlines
      saturate.
    - POSIX threads: locks, queues, condition accounts, the guest arena and
      thread-specific values are consistent in every reachable state; a mutex is
      exclusive and handed over in order; condition waits, read-write locks,
      keys and deadlines behave as their branches say.
    - Memory: the paged backing is a flat array; direct memory is partitioned
      into allocations and coalesced free ranges, allocation is a complete first
      fit, release and unregistration act on exactly their range; guest memory
      keeps its tables consistent over every run, map, protect and unmap refine
      an abstract view from addresses to protections and generations, reads,
      writes and fills are exact on the bytes a guest sees through every
      alias, and mutation events cover what changed; mapping tokens identify
      mappings; mspaces are partitioned exactly and allocation in them is a
      complete first fit; [malloc] blocks stay apart and accessible over every
      run in which the guest itself protects or unmaps no live block, and
      reallocation keeps their contents; appended AMPR commands are executed
      exactly, up to the first that cannot be.  Copies are exact up to one chunk of
      4096 bytes, and beyond it where the windows do not alias each other.
    - Loader: no image makes the parser read outside it, accepted metadata is
      well formed and agrees with the image, printing and parsing are a round
      trip; loading puts the bytes where they belong with the right protections
      or leaves everything alone; relocation writes the value of the
      psABI formula for each field it writes, with the loader's symbol values, which
      are the psABI's for ordinary symbols; the start plan respects the needs of
      every module that leads to no cycle; exports, life-cycle calls and thread-local storage
      meet their reference definitions.
    - GPU: offsets in a tile block are a bijection; mip chains and volumes are
      laid out without overlap; staging a render target reads every texel from
      its own place, in bounds; linear layouts are contiguous and bounded; an
      acknowledged upload is current but for bytes whose write callback has still
      to run.
    - GPU commands: whatever its words, a command buffer is processed without an
      access out of range and within its limits, and over all its blocks and
      resumptions every word is processed, and again only when the sink blocked its
      packet; the queues keep their counts and order, and a drain within its limit
      of passes goes on until every queue starts with a blocked buffer; an appended
      packet is read back unless its memory aliases itself, and the decoder does
      what the arguments of the call asked for, except for the packets with a
      damaged header that the writers accept; the ring is the list of the latest
      actions; a draw is marked ready only with the state its execution needs, its
      depth attachment apart.
    - [ContainsAllocatedRange_wraps] shows that the allocation check of direct
      memory accepts unallocated ranges, [readers_do_not_share] that a read lock
      is refused while another thread reads, [ready_render_state] that a draw
      is marked ready although a depth register was never written,
      [written_packets_decode] that writers accept packets the decoder misreads,
      and [command_words_processed_once] that a packet the sink blocks is charged to
      the limit of dwords again.

    ** Fuel

    Loops over containers recurse on the container.  The other loops have fuel
    that their lemmas show to be enough: a loop that consumes bytes has one unit
    per byte (or per page), the carving and merging loops one per element, the
    copy of a heap block one per chunk, the execution of an AMPR buffer one per
    byte of records; number printing has 64 units for 64-bit values.  The mip
    loops run over at most the sixteen levels the arrays hold.  The loop over the
    frames of a command buffer has [frames_fuel]: every round processes a word,
    of which the limits allow a bounded number, or ends one of the frames.

    ** Not modelled

    Failures of [operator new] inside containers; data races, that is the
    interleaving inside a method (mutexes exclude it); test-only fault and
    synchronisation hooks; which host pages a protection call touches (only its
    success matters to the tables); the texts of diagnostics and traces.
    Outside the library: files, the virtual file system and JSON values, which
    are host file access; module discovery; HLE dispatch; native CPU execution;
    shader registration and the shader recompiler; the Vulkan back end, the bridge
    that feeds it and the calls of the runtime that forward to it, which end in
    calls to the driver; the application. *)
From Stdlib Require Export ZArith Lia.
From stdpp Require Export base numbers list gmap strings sorting.

#[global] Open Scope Z_scope.
#[global] Set Default Goal Selector "!".

Declare Scope u64_scope.
Delimit Scope u64_scope with u64.

(** ** Machine-width integers *)

(** [std::numeric_limits<std::uint64_t>::max()]; [std::size_t] has the same
    width on every supported host. *)
Definition u64_modulus : Z := 2 ^ 64.
Definition u64_max : Z := u64_modulus - 1.
Definition is_u64 (x : Z) : Prop := 0 <= x <= u64_max.

(** Unsigned 64-bit arithmetic wraps. *)
Definition add64 (a b : Z) : Z := (a + b) mod u64_modulus.
Definition sub64 (a b : Z) : Z := (a - b) mod u64_modulus.
Definition mul64 (a b : Z) : Z := (a * b) mod u64_modulus.
Definition not64 (a : Z) : Z := u64_max - a.

Infix "+" := add64 : u64_scope.
Infix "-" := sub64 : u64_scope.
Infix "*" := mul64 : u64_scope.

#[global] Instance is_u64_dec x : Decision (is_u64 x).
Proof. unfold is_u64. apply _. Defined.

Lemma u64_max_eq : u64_max = 18446744073709551615.
Proof. reflexivity. Qed.

Lemma u64_modulus_eq : u64_modulus = 18446744073709551616.
Proof. reflexivity. Qed.

Lemma add64_small a b : 0 <= a + b <= u64_max -> add64 a b = a + b.
Proof. intros H. unfold add64. apply Z.mod_small. unfold u64_max in H. lia. Qed.

Lemma sub64_small a b : 0 <= a - b <= u64_max -> sub64 a b = a - b.
Proof. intros H. unfold sub64. apply Z.mod_small. unfold u64_max in H. lia. Qed.

Lemma mul64_small a b : 0 <= a * b <= u64_max -> mul64 a b = a * b.
Proof. intros H. unfold mul64. apply Z.mod_small. unfold u64_max in H. lia. Qed.

Lemma is_u64_add64 a b : is_u64 (add64 a b).
Proof.
  unfold is_u64, add64, u64_max.
  pose proof (Z.mod_pos_bound (a + b) u64_modulus eq_refl). lia.
Qed.

Lemma is_u64_sub64 a b : is_u64 (sub64 a b).
Proof.
  unfold is_u64, sub64, u64_max.
  pose proof (Z.mod_pos_bound (a - b) u64_modulus eq_refl). lia.
Qed.

#[global] Opaque u64_max u64_modulus.

(** ** Automation shared by every component *)

Create HintDb ranges.
Create HintDb kernel.

(** Split the scrutinee of the first [match] or [if], remembering it. *)
Ltac split_match :=
  match goal with
  | |- context [ match ?x with _ => _ end ] =>
      lazymatch x with
      | context [ match _ with _ => _ end ] => fail
      | _ => let E := fresh "E" in destruct x eqn:E
      end
  end.

Ltac split_match_in H :=
  match type of H with
  | context [ match ?x with _ => _ end ] =>
      lazymatch x with
      | context [ match _ with _ => _ end ] => fail
      | _ => let E := fresh "E" in destruct x eqn:E
      end
  end.

(** Linear arithmetic over bounded words. *)
Ltac u64_lia := unfold is_u64 in *; rewrite ?u64_max_eq, ?u64_modulus_eq in *; lia.

(** Remove wrap-around whose operands are known to stay in range. *)
Ltac unwrap64 :=
  repeat first
    [ rewrite add64_small by u64_lia
    | rewrite sub64_small by u64_lia
    | rewrite mul64_small by u64_lia ].

Ltac unwrap64_in H :=
  repeat first
    [ rewrite add64_small in H by u64_lia
    | rewrite sub64_small in H by u64_lia
    | rewrite mul64_small in H by u64_lia ].

(** ** Powers of two and alignment *)

(** [(value & (value - 1)) == 0] with [value != 0]. *)
Definition is_power_of_two (v : Z) : bool :=
  negb (v =? 0) && (Z.land v (v - 1)%u64 =? 0).

(** The power-of-two round-up written [(value + mask) & ~mask]; [Z.ldiff x m]
    is [x & ~m]. *)
Definition align_up_mask (value alignment : Z) : Z :=
  let mask := (alignment - 1)%u64 in Z.ldiff (value + mask)%u64 mask.

Lemma land_pred_pow2 v : 0 < v -> Z.land v (v - 1) = 0 -> v = 2 ^ Z.log2 v.
Proof.
  intros Hv Hland. set (k := Z.log2 v).
  destruct (Z.log2_spec v Hv) as [Hlo Hhi]. fold k in Hlo, Hhi.
  assert (0 <= k) by apply Z.log2_nonneg.
  destruct (Z.eq_dec v (2 ^ k)) as [|Hne]; [done|].
  assert (Hb : Z.testbit (Z.land v (v - 1)) k = true).
  { rewrite Z.land_spec. apply andb_true_intro.
    rewrite Z.pow_succ_r in Hhi by done.
    rewrite !Z.testbit_true by done.
    replace (v / 2 ^ k) with 1 by (apply Z.div_unique with (v - 2 ^ k); lia).
    replace ((v - 1) / 2 ^ k) with 1
      by (apply Z.div_unique with (v - 1 - 2 ^ k); lia).
    done. }
  rewrite Hland, Z.bits_0 in Hb. done.
Qed.

Lemma is_power_of_two_spec v :
  is_u64 v -> is_power_of_two v = true -> exists k, 0 <= k /\ v = 2 ^ k.
Proof.
  intros Hv H. unfold is_power_of_two in H.
  apply andb_true_iff in H as [Hnz Hl].
  assert (v <> 0) by lia. rewrite sub64_small in Hl by u64_lia.
  exists (Z.log2 v). split; [apply Z.log2_nonneg|].
  apply land_pred_pow2; [u64_lia | lia].
Qed.

Lemma is_power_of_two_pow k : 0 <= k < 64 -> is_power_of_two (2 ^ k) = true.
Proof.
  intros Hk. unfold is_power_of_two.
  pose proof (Z.pow_pos_nonneg 2 k ltac:(lia) ltac:(lia)).
  assert (2 ^ k <= 2 ^ 63) by (apply Z.pow_le_mono_r; lia).
  change (2 ^ 63) with 9223372036854775808 in *.
  rewrite sub64_small by u64_lia.
  apply andb_true_iff. split; [lia|].
  apply Z.eqb_eq. rewrite Z.sub_1_r, <- Z.ones_equiv.
  rewrite Z.land_ones by lia. apply Z.mod_same. lia.
Qed.

(** Rounding up gives the least multiple of the alignment at or above the
    value, whenever the addition does not wrap. *)
Lemma align_up_mask_spec value k :
  0 <= k -> 0 <= value -> value + (2 ^ k - 1) <= u64_max ->
  let r := align_up_mask value (2 ^ k) in
  value <= r < value + 2 ^ k /\ r mod 2 ^ k = 0.
Proof.
  intros Hk Hv Hle. pose proof (Z.pow_pos_nonneg 2 k ltac:(lia) Hk) as Hp.
  unfold align_up_mask. cbn zeta.
  rewrite sub64_small by u64_lia. rewrite add64_small by u64_lia.
  rewrite Z.sub_1_r, <- Z.ones_equiv, Z.ldiff_ones_r by done.
  rewrite Z.shiftl_mul_pow2, Z.shiftr_div_pow2 by done.
  rewrite Z.ones_equiv in *.
  set (p := 2 ^ k) in *.
  pose proof (Z.div_mod (value + Z.pred p) p ltac:(lia)) as Hdm.
  pose proof (Z.mod_pos_bound (value + Z.pred p) p Hp) as Hb.
  split; [nia|]. apply Z.mod_mul. lia.
Qed.

Lemma align_up_mask_least value k m :
  0 <= k -> 0 <= value -> value + (2 ^ k - 1) <= u64_max ->
  value <= m -> m mod 2 ^ k = 0 -> align_up_mask value (2 ^ k) <= m.
Proof.
  intros Hk Hv Hle Hm Hmod.
  destruct (align_up_mask_spec value k Hk Hv Hle) as [[Hlo Hhi] Hr].
  cbn zeta in *. pose proof (Z.pow_pos_nonneg 2 k ltac:(lia) Hk) as Hp.
  set (r := align_up_mask value (2 ^ k)) in *. set (p := 2 ^ k) in *.
  apply Z.mod_divide in Hmod as [x Hx]; [|lia].
  apply Z.mod_divide in Hr as [y Hy]; [|lia].
  assert (y < x + 1) by (apply (Z.mul_lt_mono_pos_r p); lia).
  rewrite Hx, Hy. apply Z.mul_le_mono_nonneg_r; lia.
Qed.

(** ** Kernel results *)

(** [enum class KernelStatus]. *)
Inductive KernelStatus : Type :=
| kOk | kInvalidArgument | kNotFound | kNoSuchEntry | kBusy | kWouldBlock
| kPermissionDenied | kNoResources | kTimedOut.

#[global] Instance KernelStatus_eq_dec : EqDecision KernelStatus.
Proof. solve_decision. Defined.

Definition status_eqb (a b : KernelStatus) : bool := bool_decide (a = b).

(** [KernelHandle] is a [std::uint64_t]; zero is never a live handle. *)
Abbreviation KernelHandle := Z (only parsing).
Definition kInvalidKernelHandle : Z := 0.

(** ** Vectors searched with [std::find_if] *)

Section first_match.
Context {A : Type}.

(** Assignment through the iterator returned by [std::find_if]. *)
Fixpoint update_first (p : A -> bool) (f : A -> A) (l : list A) : list A :=
  match l with
  | [] => []
  | x :: t => if p x then f x :: t else x :: update_first p f t
  end.

(** [erase] of the iterator returned by [std::find_if]. *)
Fixpoint erase_first (p : A -> bool) (l : list A) : list A :=
  match l with
  | [] => []
  | x :: t => if p x then t else x :: erase_first p t
  end.

Lemma update_first_elem p f l y :
  y ∈ update_first p f l -> y ∈ l \/ exists x, x ∈ l /\ p x = true /\ y = f x.
Proof.
  induction l as [|x l IH]; simpl; [by left|].
  destruct (p x) eqn:E.
  - intros [->|Hy]%elem_of_cons.
    + right. exists x. split_and!; [apply list_elem_of_here|done|done].
    + left. apply elem_of_cons. by right.
  - intros [->|Hy]%elem_of_cons; [left; apply list_elem_of_here|].
    destruct (IH Hy) as [Hl|(x' & Hx' & Hp & ->)].
    + left. apply elem_of_cons. by right.
    + right. exists x'. split_and!; [apply elem_of_cons; by right|done|done].
Qed.

Lemma erase_first_elem p l y : y ∈ erase_first p l -> y ∈ l.
Proof.
  induction l as [|x l IH]; simpl; [done|]. destruct (p x).
  - intros. apply elem_of_cons. by right.
  - intros [->|Hy]%elem_of_cons; [apply list_elem_of_here|].
    apply elem_of_cons. right. auto.
Qed.

Lemma erase_first_sublist p l : erase_first p l `sublist_of` l.
Proof.
  induction l as [|x l IH]; simpl; [done|]. destruct (p x).
  - by apply sublist_cons.
  - by apply sublist_skip.
Qed.

Lemma update_first_fmap {B} (g : A -> B) p f l :
  (forall x, p x = true -> g (f x) = g x) -> g <$> update_first p f l = g <$> l.
Proof.
  intros Hg. induction l as [|x l IH]; simpl; [done|].
  destruct (p x) eqn:E; simpl; f_equal; auto.
Qed.

Lemma find_elem p (l : list A) x : find p l = Some x -> x ∈ l /\ p x = true.
Proof. intros [H1 H2]%find_some. by rewrite list_elem_of_In. Qed.

Lemma find_none_elem p (l : list A) x : find p l = None -> x ∈ l -> p x = false.
Proof. intros Hf Hx. rewrite list_elem_of_In in Hx. by apply (find_none p l). Qed.

Lemma find_is_Some p (l : list A) x : x ∈ l -> p x = true -> is_Some (find p l).
Proof.
  intros Hx Hp. destruct (find p l) as [y|] eqn:E; [eauto|].
  apply (find_none_elem p l x) in E; [congruence|done].
Qed.
End first_match.

Lemma filter_sublist {A} (p : A -> bool) l : List.filter p l `sublist_of` l.
Proof.
  induction l as [|x l IH]; simpl; [done|]. destruct (p x);
    [by apply sublist_skip|by apply sublist_cons].
Qed.
