(* ===== verification/Ranges.v ===== *)
(** Address ranges kept in address order.

    The program stores address ranges in two shapes: vectors of records kept in
    address order ([GuestMemory::regions_], [mapping_identity_regions_],
    [shared_mappings_]) and [std::map]s keyed by the first address
    ([DirectMemoryService::allocations_], [free_ranges_], the mspace maps of
    [LibcHeapService]).  Both are lists here.  The class [Interval] reads the
    first address and the size of an element, [ranges_ok] is the invariant the
    program keeps (ordered, disjoint, non-empty, inside bounds) and [range_at]
    is the abstract content: which element owns an address. *)
From S2P Require Import Prelude.

(** ** Splitting at a partition point *)

Section split_while.
Context {A : Type}.

(** [std::lower_bound], [std::map::lower_bound] and [upper_bound] return the
    partition point of a predicate; an iterator is the pair of the elements
    before it and the elements from it on. *)
Fixpoint split_while (p : A -> bool) (l : list A) : list A * list A :=
  match l with
  | [] => ([], [])
  | r :: t =>
      if p r then let '(b, e) := split_while p t in (r :: b, e) else ([], l)
  end.

Lemma split_while_app p l : (split_while p l).1 ++ (split_while p l).2 = l.
Proof.
  induction l as [|r t IH]; simpl; [done|].
  destruct (p r); [|done]. destruct (split_while p t) as [b e]. simpl in *.
  by rewrite IH.
Qed.

Lemma split_while_fst p l : Forall (fun r => p r = true) (split_while p l).1.
Proof.
  induction l as [|r t IH]; simpl; [constructor|].
  destruct (p r) eqn:E; [|constructor].
  destruct (split_while p t) as [b e]. simpl in *. by constructor.
Qed.

Lemma split_while_snd p l r t : (split_while p l).2 = r :: t -> p r = false.
Proof.
  induction l as [|x l IH]; simpl; [done|].
  destruct (p x) eqn:E.
  - destruct (split_while p l) as [b e]. simpl in *. exact IH.
  - simpl. by intros [= <- <-].
Qed.
End split_while.

(** ** Intervals *)

Class Interval (A : Type) := { istart : A -> Z; isize : A -> Z }.

Section intervals.
Context {A : Type} `{Interval A}.
Implicit Types (r : A) (l : list A).

Definition iend r : Z := istart r + isize r.

(** The end of a range as the program computes it. *)
Definition iend64 r : Z := (istart r + isize r)%u64.

Definition inside r (a : Z) : Prop := istart r <= a < iend r.
Definition insideb r (a : Z) : bool := (istart r <=? a) && (a <? iend r).

Definition before r1 r2 : Prop := iend r1 <= istart r2.
Definition valid_in (lo hi : Z) r : Prop :=
  lo <= istart r /\ 0 < isize r /\ iend r <= hi.

Record ranges_ok (lo hi : Z) l : Prop := {
  ro_sorted : StronglySorted before l;
  ro_valid : Forall (valid_in lo hi) l
}.

(** The element that owns an address. *)
Definition range_at l (a : Z) : option A := find (fun r => insideb r a) l.

(** The elements before and from [std::lower_bound] of an address. *)
Definition lower_split (x : Z) l := split_while (fun r => istart r <? x) l.
Definition upper_split (x : Z) l := split_while (fun r => istart r <=? x) l.

#[global] Instance inside_dec r a : Decision (inside r a).
Proof. unfold inside. apply _. Defined.

Lemma insideb_true r a : insideb r a = true <-> inside r a.
Proof. unfold insideb, inside. rewrite andb_true_iff. lia. Qed.

Lemma iend64_ok r : 0 <= istart r -> 0 <= isize r -> iend r <= u64_max -> iend64 r = iend r.
Proof. intros. unfold iend64, iend in *. apply add64_small. lia. Qed.

Lemma ro_valid_elem lo hi l r : ranges_ok lo hi l -> r ∈ l -> valid_in lo hi r.
Proof. intros [_ Hv] Hr. rewrite Forall_forall in Hv. auto. Qed.

Lemma ranges_ok_nil lo hi : ranges_ok lo hi (@nil A).
Proof. split; constructor. Qed.

Lemma ranges_ok_app lo hi l1 l2 :
  ranges_ok lo hi (l1 ++ l2) <->
  ranges_ok lo hi l1 /\ ranges_ok lo hi l2 /\
  (forall r1 r2, r1 ∈ l1 -> r2 ∈ l2 -> before r1 r2).
Proof.
  split.
  - intros [Hs Hv]. apply Forall_app in Hv as [Hv1 Hv2].
    split; [split; [by eapply StronglySorted_app_1_l | done]|].
    split; [split; [by eapply StronglySorted_app_1_r | done]|].
    intros r1 r2 H1 H2. by eapply StronglySorted_app_1_elem_of.
  - intros ([Hs1 Hv1] & [Hs2 Hv2] & Hb). split; [|by apply Forall_app].
    apply StronglySorted_app_2; auto.
Qed.

Lemma ranges_ok_cons lo hi r l :
  ranges_ok lo hi (r :: l) <->
  valid_in lo hi r /\ ranges_ok lo hi l /\ (forall r2, r2 ∈ l -> before r r2).
Proof.
  rewrite (ranges_ok_app lo hi [r] l). split.
  - intros (H1 & H2 & H3). split_and!; [|done|].
    + by apply (ro_valid_elem _ _ _ r H1), list_elem_of_here.
    + intros r2 Hr2. apply H3; [apply list_elem_of_here|done].
  - intros (H1 & H2 & H3). split_and!; [|done|].
    + split; repeat constructor; try done; apply H1.
    + intros r1 r2 ->%list_elem_of_singleton. auto.
Qed.

Lemma ranges_ok_weaken lo hi lo' hi' l :
  lo' <= lo -> hi <= hi' -> ranges_ok lo hi l -> ranges_ok lo' hi' l.
Proof.
  intros Hlo Hhi [Hs Hv]. split; [done|]. eapply Forall_impl; [done|].
  unfold valid_in. intros; lia.
Qed.

Lemma ranges_ok_disjoint lo hi l r1 r2 a :
  ranges_ok lo hi l -> r1 ∈ l -> r2 ∈ l -> inside r1 a -> inside r2 a -> r1 = r2.
Proof.
  intros Hok. induction l as [|r l IH]; [by intros ?%elem_of_nil|].
  apply ranges_ok_cons in Hok as (Hv & Hok & Hb).
  intros [->|H1]%elem_of_cons [->|H2]%elem_of_cons I1 I2; [done| | |by auto].
  - specialize (Hb _ H2). unfold before, inside in *. lia.
  - specialize (Hb _ H1). unfold before, inside in *. lia.
Qed.

Lemma range_at_Some l a r : range_at l a = Some r -> r ∈ l /\ inside r a.
Proof.
  unfold range_at. intros Hf. apply find_some in Hf as [Hin Hb].
  split; [by apply list_elem_of_In | by apply insideb_true].
Qed.

Lemma range_at_None l a r : range_at l a = None -> r ∈ l -> inside r a -> False.
Proof.
  unfold range_at. intros Hf Hin Hi.
  apply list_elem_of_In in Hin. apply (find_none _ _ Hf) in Hin.
  apply insideb_true in Hi. congruence.
Qed.

Lemma range_at_elem lo hi l a r :
  ranges_ok lo hi l -> r ∈ l -> inside r a -> range_at l a = Some r.
Proof.
  intros Hok Hr Hi. destruct (range_at l a) as [r'|] eqn:E.
  - apply range_at_Some in E as [Hr' Hi']. f_equal.
    by eapply ranges_ok_disjoint.
  - exfalso. by eapply range_at_None.
Qed.

Lemma range_at_absent l a :
  (forall r, r ∈ l -> ~ inside r a) -> range_at l a = None.
Proof.
  intros Hno. destruct (range_at l a) as [r|] eqn:E; [|done].
  apply range_at_Some in E as [Hr Hi]. by destruct (Hno r).
Qed.

Lemma range_at_app l1 l2 a :
  range_at (l1 ++ l2) a =
  match range_at l1 a with Some r => Some r | None => range_at l2 a end.
Proof.
  unfold range_at. induction l1 as [|r l1 IH]; simpl; [done|].
  by destruct (insideb r a).
Qed.

Lemma range_at_cons r l a :
  range_at (r :: l) a = if decide (inside r a) then Some r else range_at l a.
Proof.
  unfold range_at. simpl. destruct (decide (inside r a)) as [Hi|Hi].
  - by apply insideb_true in Hi as ->.
  - destruct (insideb r a) eqn:E; [|done]. by apply insideb_true in E.
Qed.

Lemma range_at_outside lo hi l a :
  ranges_ok lo hi l -> ~ (lo <= a < hi) -> range_at l a = None.
Proof.
  intros Hok Ha. apply range_at_absent. intros r Hr Hi.
  apply (ro_valid_elem _ _ _ _ Hok) in Hr. unfold valid_in, inside in *. lia.
Qed.

(** Two well-formed range lists with the same elements denote the same map. *)
Lemma range_at_ext lo hi lo' hi' l l' a :
  ranges_ok lo hi l -> ranges_ok lo' hi' l' ->
  (forall r, inside r a -> r ∈ l <-> r ∈ l') -> range_at l a = range_at l' a.
Proof.
  intros Hok Hok' Heq. destruct (range_at l a) as [r|] eqn:E.
  - apply range_at_Some in E as [Hr Hi]. symmetry.
    eapply range_at_elem; [done| |done]. by apply Heq.
  - symmetry. apply range_at_absent. intros r Hr Hi.
    eapply range_at_None; [done| |done]. by apply Heq.
Qed.
End intervals.

Arguments ranges_ok {A _} lo hi l.
#[export] Hint Resolve ranges_ok_nil : ranges.

(** ** Rewriting every range in place *)

Section flat_map.
Context {A : Type} `{Interval A}.
Implicit Types (r : A) (l : list A).

(** Replacing each range by pieces of itself. *)
Definition pieces_ok (f : A -> list A) (r : A) : Prop :=
  ranges_ok (istart r) (iend r) (f r).

Lemma flat_map_elem (f : A -> list A) l x :
  x ∈ flat_map f l <-> exists r, r ∈ l /\ x ∈ f r.
Proof.
  rewrite list_elem_of_In, in_flat_map. by setoid_rewrite list_elem_of_In.
Qed.

Lemma piece_inside (f : A -> list A) r x a :
  pieces_ok f r -> x ∈ f r -> inside x a -> inside r a.
Proof.
  intros Hp Hx Hi. apply (ro_valid_elem _ _ _ _ Hp) in Hx.
  unfold valid_in, inside in *. lia.
Qed.

Lemma ranges_ok_flat_map lo hi (f : A -> list A) l :
  ranges_ok lo hi l -> (forall r, r ∈ l -> pieces_ok f r) ->
  ranges_ok lo hi (flat_map f l).
Proof.
  intros Hok Hf. induction l as [|r l IH]; simpl; [auto with ranges|].
  apply ranges_ok_cons in Hok as (Hv & Hok & Hb).
  pose proof (Hf r (list_elem_of_here _ _)) as Hr.
  apply ranges_ok_app. split_and!.
  - eapply ranges_ok_weaken; [| |exact Hr]; unfold valid_in in Hv; lia.
  - apply IH; [done|]. intros r' Hr'. apply Hf. by apply elem_of_cons; right.
  - intros x y Hx (r2 & Hr2 & Hy)%flat_map_elem.
    apply (ro_valid_elem _ _ _ _ Hr) in Hx.
    assert (Hp2 : pieces_ok f r2) by (apply Hf, elem_of_cons; by right).
    apply (ro_valid_elem _ _ _ _ Hp2) in Hy.
    specialize (Hb _ Hr2). unfold before, valid_in, iend in *. lia.
Qed.

Lemma range_at_flat_map lo hi (f : A -> list A) l a :
  ranges_ok lo hi l -> (forall r, r ∈ l -> pieces_ok f r) ->
  range_at (flat_map f l) a = range_at l a ≫= fun r => range_at (f r) a.
Proof.
  intros Hok Hf. induction l as [|r l IH]; [done|].
  apply ranges_ok_cons in Hok as (Hv & Hok & Hb).
  pose proof (Hf r (list_elem_of_here _ _)) as Hr.
  assert (Hf' : forall r', r' ∈ l -> pieces_ok f r')
    by (intros r' Hr'; apply Hf, elem_of_cons; by right).
  simpl flat_map. rewrite range_at_app, range_at_cons.
  destruct (decide (inside r a)) as [Hi|Hi].
  - simpl. destruct (range_at (f r) a) eqn:E; [done|].
    apply range_at_absent. intros x (r2 & Hr2 & Hx)%flat_map_elem Hix.
    pose proof (piece_inside f r2 x a (Hf' _ Hr2) Hx Hix) as Hi2.
    specialize (Hb _ Hr2). unfold before, inside in *. lia.
  - rewrite (range_at_outside (istart r) (iend r)) by done. by apply IH.
Qed.
End flat_map.

(** ** Inserting and removing one range *)

Section insertion.
Context {A : Type} `{Interval A}.
Implicit Types (r : A) (l : list A).

(** [vector.insert(lower_bound(address), x)]. *)
Definition range_insert (x : A) l : list A :=
  let '(b, e) := lower_split (istart x) l in b ++ x :: e.

Definition disjoint_from (x r : A) : Prop := iend x <= istart r \/ iend r <= istart x.

Lemma range_insert_elem x l r : r ∈ range_insert x l <-> r = x \/ r ∈ l.
Proof.
  unfold range_insert, lower_split.
  pose proof (split_while_app (fun r => istart r <? istart x) l) as Happ.
  destruct (split_while _ l) as [b e]. simpl in Happ. subst l.
  rewrite !elem_of_app, elem_of_cons. tauto.
Qed.

Lemma lower_split_spec lo hi x l :
  ranges_ok lo hi l ->
  (lower_split x l).1 ++ (lower_split x l).2 = l /\
  (forall r, r ∈ (lower_split x l).1 -> istart r < x) /\
  (forall r, r ∈ (lower_split x l).2 -> x <= istart r).
Proof.
  intros Hok. unfold lower_split. set (p := fun r => istart r <? x).
  pose proof (split_while_app p l) as Happ. split_and!; [done| |].
  - intros r Hr. pose proof (split_while_fst p l) as Hf.
    rewrite Forall_forall in Hf. apply Hf in Hr. subst p. simpl in Hr. lia.
  - intros r Hr. destruct (split_while p l).2 as [|r0 t] eqn:E; [by apply elem_of_nil in Hr|].
    pose proof (split_while_snd p l r0 t E) as Hp. subst p. simpl in Hp.
    rewrite <- Happ in Hok. apply ranges_ok_app in Hok as (_ & Hok & _).
    apply ranges_ok_cons in Hok as (Hv & _ & Hb).
    apply elem_of_cons in Hr as [->|Hr]; [lia|].
    specialize (Hb _ Hr). unfold before, valid_in, iend in *. lia.
Qed.

Lemma upper_split_spec lo hi x l :
  ranges_ok lo hi l ->
  (upper_split x l).1 ++ (upper_split x l).2 = l /\
  (forall r, r ∈ (upper_split x l).1 -> istart r <= x) /\
  (forall r, r ∈ (upper_split x l).2 -> x < istart r).
Proof.
  intros Hok. unfold upper_split. set (p := fun r => istart r <=? x).
  pose proof (split_while_app p l) as Happ. split_and!; [done| |].
  - intros r Hr. pose proof (split_while_fst p l) as Hf.
    rewrite Forall_forall in Hf. apply Hf in Hr. subst p. simpl in Hr. lia.
  - intros r Hr. destruct (split_while p l).2 as [|r0 t] eqn:E; [by apply elem_of_nil in Hr|].
    pose proof (split_while_snd p l r0 t E) as Hp. subst p. simpl in Hp.
    rewrite <- Happ in Hok. apply ranges_ok_app in Hok as (_ & Hok & _).
    apply ranges_ok_cons in Hok as (Hv & _ & Hb).
    apply elem_of_cons in Hr as [->|Hr]; [lia|].
    specialize (Hb _ Hr). unfold before, valid_in, iend in *. lia.
Qed.

Lemma range_insert_ok lo hi x l :
  ranges_ok lo hi l -> valid_in lo hi x ->
  (forall r, r ∈ l -> disjoint_from x r) -> ranges_ok lo hi (range_insert x l).
Proof.
  intros Hok Hx Hd. unfold range_insert.
  destruct (lower_split_spec lo hi (istart x) l Hok) as (Happ & Hb & He).
  destruct (lower_split (istart x) l) as [b e]. simpl in *. subst l.
  pose proof (ranges_ok_app lo hi b e) as [Hsplit _].
  destruct (Hsplit Hok) as (Hokb & Hoke & Hbe).
  apply ranges_ok_app. split_and!; [done| |].
  - apply ranges_ok_cons. split_and!; [done|done|].
    intros r Hr. destruct (Hd r) as [|Hlt]; [apply elem_of_app; by right|done|].
    specialize (He _ Hr). apply (ro_valid_elem _ _ _ _ Hoke) in Hr.
    unfold valid_in, before, iend in *. lia.
  - intros r1 r2 Hr1 [->|Hr2]%elem_of_cons; [|by apply Hbe].
    destruct (Hd r1) as [Hlt|]; [apply elem_of_app; by left| |done].
    specialize (Hb _ Hr1). unfold valid_in, before, iend in *. lia.
Qed.

Lemma range_at_insert lo hi x l a :
  ranges_ok lo hi l -> valid_in lo hi x ->
  (forall r, r ∈ l -> disjoint_from x r) ->
  range_at (range_insert x l) a =
  if decide (inside x a) then Some x else range_at l a.
Proof.
  intros Hok Hx Hd. pose proof (range_insert_ok _ _ _ _ Hok Hx Hd) as Hok'.
  destruct (decide (inside x a)) as [Hi|Hi].
  - eapply range_at_elem; [done| |done]. apply range_insert_elem. by left.
  - eapply range_at_ext; [done|done|]. intros r Hr. rewrite range_insert_elem.
    split; [intros [->|]; done | by right].
Qed.
End insertion.

(** ** Cutting an address window out of a vector of ranges *)

(** What a range says about the addresses it owns (a protection, a mapping
    generation, a position in a backing object). *)
Class Denote (A B : Type) := imean : A -> Z -> B.

(** The in-place edits made by the carving loops of
    [GuestMemory::Unmap] and [DirectMemoryService::UnregisterMappings]. *)
Class Carve (A : Type) `{Interval A} := {
  advance_to : A -> Z -> A;
  shrink_to : A -> Z -> A;
  suffix_from : A -> Z -> A
}.

Class CarveLaws (A B : Type) `{Carve A, Denote A B} : Prop := {
  advance_ok r x : 0 <= istart r -> iend r <= u64_max -> inside r x ->
    istart (advance_to r x) = x /\ iend (advance_to r x) = iend r /\
    forall a, inside r a -> imean (advance_to r x) a = imean r a;
  shrink_ok r x : 0 <= istart r -> iend r <= u64_max -> inside r x ->
    istart (shrink_to r x) = istart r /\ iend (shrink_to r x) = x /\
    forall a, inside r a -> imean (shrink_to r x) a = imean r a;
  suffix_ok r x : 0 <= istart r -> iend r <= u64_max -> inside r x ->
    istart (suffix_from r x) = x /\ iend (suffix_from r x) = iend r /\
    forall a, inside r a -> imean (suffix_from r x) a = imean r a
}.

Section carve.
Context {A : Type} `{Carve A}.

(** The loop as written: [index] walks a vector that shrinks and grows. *)
Fixpoint carve_loop (fuel : nat) (lo hi : Z) (index : nat) (v : list A) : list A :=
  match fuel with
  | O => v
  | S f =>
      match v !! index with
      | None => v
      | Some m =>
          let m_end := iend64 m in
          let overlap_start := Z.max lo (istart m) in
          let overlap_end := Z.min hi m_end in
          if overlap_end <=? overlap_start then carve_loop f lo hi (S index) v
          else if (overlap_start =? istart m) && (overlap_end =? m_end) then
            carve_loop f lo hi index (delete index v)
          else if overlap_start =? istart m then
            carve_loop f lo hi (S index) (<[index := advance_to m overlap_end]> v)
          else if overlap_end =? m_end then
            carve_loop f lo hi (S index) (<[index := shrink_to m overlap_start]> v)
          else
            carve_loop f lo hi (S (S index))
              (take index v ++ shrink_to m overlap_start
                 :: suffix_from m overlap_end :: drop (S index) v)
      end
  end.

(** The loop makes one pass, so the initial length bounds its iterations. *)
Definition carve (lo hi : Z) (v : list A) : list A :=
  carve_loop (length v) lo hi 0 v.

(** What happens to one range. *)
Definition carve_one (lo hi : Z) (m : A) : list A :=
  let m_end := iend64 m in
  let overlap_start := Z.max lo (istart m) in
  let overlap_end := Z.min hi m_end in
  if overlap_end <=? overlap_start then [m]
  else if (overlap_start =? istart m) && (overlap_end =? m_end) then []
  else if overlap_start =? istart m then [advance_to m overlap_end]
  else if overlap_end =? m_end then [shrink_to m overlap_start]
  else [shrink_to m overlap_start; suffix_from m overlap_end].

Lemma carve_loop_eq lo hi fuel pre rest :
  (length rest <= fuel)%nat ->
  carve_loop fuel lo hi (length pre) (pre ++ rest) =
  pre ++ flat_map (carve_one lo hi) rest.
Proof.
  revert pre rest. induction fuel as [|f IH]; intros pre rest Hf.
  { destruct rest; [done|]. simpl in Hf. lia. }
  destruct rest as [|m rest].
  { simpl carve_loop. rewrite lookup_ge_None_2; [done|]. rewrite app_nil_r. lia. }
  simpl in Hf. cbn [carve_loop]. rewrite list_lookup_middle by done. cbn zeta.
  cbn [flat_map]. unfold carve_one at 1. cbn zeta.
  repeat split_match.
  - change (m :: rest) with ([m] ++ rest). rewrite app_assoc.
    replace (S (length pre)) with (length (pre ++ [m])) by (rewrite length_app; simpl; lia).
    rewrite IH by lia. by rewrite <- app_assoc.
  - rewrite delete_middle. rewrite IH by lia. done.
  - rewrite insert_app_r_alt, Nat.sub_diag by lia. cbn [insert list_insert].
    set (y := advance_to _ _).
    change (y :: rest) with ([y] ++ rest). rewrite app_assoc.
    replace (S (length pre)) with (length (pre ++ [y])) by (rewrite length_app; simpl; lia).
    rewrite IH by lia. by rewrite <- app_assoc.
  - rewrite insert_app_r_alt, Nat.sub_diag by lia. cbn [insert list_insert].
    set (y := shrink_to _ _).
    change (y :: rest) with ([y] ++ rest). rewrite app_assoc.
    replace (S (length pre)) with (length (pre ++ [y])) by (rewrite length_app; simpl; lia).
    rewrite IH by lia. by rewrite <- app_assoc.
  - rewrite take_app_length. set (y := shrink_to _ _). set (z := suffix_from _ _).
    replace (drop (S (length pre)) (pre ++ m :: rest)) with rest
      by (rewrite drop_app_ge by lia; replace (_ - _)%nat with 1%nat by lia; done).
    change (y :: z :: rest) with ([y; z] ++ rest). rewrite app_assoc.
    replace (S (S (length pre))) with (length (pre ++ [y; z]))
      by (rewrite length_app; simpl; lia).
    rewrite IH by lia. by rewrite <- app_assoc.
Qed.

Lemma carve_eq lo hi v : carve lo hi v = flat_map (carve_one lo hi) v.
Proof. apply (carve_loop_eq lo hi (length v) [] v). lia. Qed.
End carve.

Section carve_laws.
Context {A B : Type} `{CarveLaws A B}.

(** The abstract content of a list of ranges. *)
Definition content (l : list A) (a : Z) : option B :=
  (fun r => imean r a) <$> range_at l a.

Lemma carve_one_ok lo hi (wlo whi : Z) (m : A) :
  0 <= lo -> hi <= u64_max -> valid_in lo hi m -> wlo < whi ->
  pieces_ok (carve_one wlo whi) m /\
  forall a, inside m a ->
    content (carve_one wlo whi m) a =
    if decide (wlo <= a < whi) then None else Some (imean m a).
Proof.
  intros Hlo Hhi (Hs & Hsz & He) Hw. unfold pieces_ok, content, carve_one.
  rewrite !(iend64_ok m) by lia.
  assert (Hpos : 0 <= istart m) by lia. assert (Hle : iend m <= u64_max) by lia.
  assert (Hself : forall a, inside m a -> range_at [m] a = Some m).
  { intros a Ha. rewrite range_at_cons, decide_True; done. }
  repeat split_match; cbn [fmap option_fmap option_map].
  - split; [apply ranges_ok_cons; split_and!; [unfold valid_in, iend in *; lia|auto with ranges|by intros ? ?%elem_of_nil]|].
    intros a Ha. rewrite Hself by done. simpl. unfold inside in Ha.
    rewrite decide_False by lia. done.
  - split; [auto with ranges|]. intros a Ha. unfold inside in Ha.
    rewrite decide_True by lia. done.
  - destruct (advance_ok m (whi `min` iend m)) as (Q1 & Q2 & Q3); [done|done|unfold inside; lia|].
    set (y := advance_to _ _) in *.
    split; [apply ranges_ok_cons; split_and!; [unfold valid_in, iend in *; lia|auto with ranges|by intros ? ?%elem_of_nil]|].
    intros a Ha. rewrite range_at_cons. unfold inside in *.
    repeat (case_decide; [| ]); simpl; first [lia | by rewrite ?Q3 | done].
  - destruct (shrink_ok m (wlo `max` istart m)) as (Q1 & Q2 & Q3); [done|done|unfold inside; lia|].
    set (y := shrink_to _ _) in *.
    split; [apply ranges_ok_cons; split_and!; [unfold valid_in, iend in *; lia|auto with ranges|by intros ? ?%elem_of_nil]|].
    intros a Ha. rewrite range_at_cons. unfold inside in *.
    repeat (case_decide; [| ]); simpl; first [lia | by rewrite ?Q3 | done].
  - destruct (shrink_ok m (wlo `max` istart m)) as (Q1 & Q2 & Q3); [done|done|unfold inside; lia|].
    destruct (suffix_ok m (whi `min` iend m)) as (Q4 & Q5 & Q6); [done|done|unfold inside; lia|].
    set (y := shrink_to _ _) in *. set (z := suffix_from _ _) in *.
    split.
    + apply ranges_ok_cons; split_and!; [unfold valid_in, iend in *; lia| |].
      * apply ranges_ok_cons; split_and!; [unfold valid_in, iend in *; lia|auto with ranges|by intros ? ?%elem_of_nil].
      * intros r ->%list_elem_of_singleton. unfold before. lia.
    + intros a Ha. rewrite !range_at_cons. unfold inside in *.
      repeat (case_decide; [| ]); simpl; first [lia | by rewrite ?Q3, ?Q6 | done].
Qed.

Lemma carve_ok lo hi wlo whi l :
  0 <= lo -> hi <= u64_max -> wlo < whi -> ranges_ok lo hi l ->
  ranges_ok lo hi (carve wlo whi l).
Proof.
  intros Hlo Hhi Hw Hok. rewrite carve_eq. apply ranges_ok_flat_map; [done|].
  intros r Hr. eapply carve_one_ok; [done|done| |done]. by eapply ro_valid_elem.
Qed.

Lemma carve_content lo hi wlo whi l a :
  0 <= lo -> hi <= u64_max -> wlo < whi -> ranges_ok lo hi l ->
  content (carve wlo whi l) a =
  if decide (wlo <= a < whi) then None else content l a.
Proof.
  intros Hlo Hhi Hw Hok. rewrite carve_eq. unfold content at 1.
  rewrite (range_at_flat_map lo hi); [|done|].
  2:{ intros r Hr. eapply carve_one_ok; [done|done| |done]. by eapply ro_valid_elem. }
  unfold content at 1. destruct (range_at l a) as [r|] eqn:E; simpl.
  - apply range_at_Some in E as [Hr Hi].
    destruct (carve_one_ok lo hi wlo whi r) as [_ Hc]; [done|done|by eapply ro_valid_elem|done|].
    by apply Hc.
  - by case_decide.
Qed.
End carve_laws.
