(* ===== verification/OrderedMap.v ===== *)
(** [std::map] with integer keys.

    A [std::map<std::uint64_t, T>] is the list of its entries in key order, so
    that iteration order, which several services depend on, is part of the
    model.  [om_sorted] is the container's own invariant. *)
From S2P Require Import Prelude Ranges.

Section ordered_map.
Context {V : Type}.
Implicit Types (m : list (Z * V)) (k : Z) (v : V).

Definition key_lt (a b : Z * V) : Prop := a.1 < b.1.
Definition om_sorted m : Prop := StronglySorted key_lt m.

(** [find(k)], dereferenced. *)
Definition om_find k m : option V := snd <$> find (fun e => e.1 =? k) m.

(** [emplace(k, v)]: an existing entry is kept. *)
Definition om_emplace k v m : list (Z * V) :=
  match om_find k m with
  | Some _ => m
  | None => let '(b, e) := split_while (fun x => x.1 <? k) m in b ++ (k, v) :: e
  end.

(** [erase(k)]. *)
Definition om_erase k m : list (Z * V) := filter (fun e => e.1 <> k) m.

(** Assignment through an iterator or reference to the entry of [k]. *)
Definition om_update k (f : V -> V) m : list (Z * V) :=
  (fun e => if e.1 =? k then (e.1, f e.2) else e) <$> m.

(** [m[k] = v]. *)
Definition om_set k v m : list (Z * V) :=
  match om_find k m with
  | Some _ => om_update k (fun _ => v) m
  | None => om_emplace k v m
  end.

Lemma om_sorted_nil : om_sorted [].
Proof. constructor. Qed.

Lemma om_sorted_cons e m :
  om_sorted (e :: m) <-> om_sorted m /\ forall e', e' ∈ m -> e.1 < e'.1.
Proof.
  unfold om_sorted. split.
  - intros Hs. apply StronglySorted_inv in Hs as [Hs Hf]. split; [done|].
    rewrite Forall_forall in Hf. exact Hf.
  - intros [Hs Hf]. constructor; [done|]. by rewrite Forall_forall.
Qed.

Lemma om_find_nil k : om_find k [] = None.
Proof. done. Qed.

Lemma om_find_cons k e m :
  om_find k (e :: m) = if decide (e.1 = k) then Some e.2 else om_find k m.
Proof.
  unfold om_find. simpl. destruct (e.1 =? k) eqn:E; case_decide; simpl; first [done | lia].
Qed.

Lemma om_find_elem k v m : om_find k m = Some v -> (k, v) ∈ m.
Proof.
  induction m as [|[k' v'] m IH]; [done|]. rewrite om_find_cons. simpl.
  case_decide as Hk; [intros [= ->]; subst; apply list_elem_of_here|].
  intros Hm. apply elem_of_cons. right. auto.
Qed.

Lemma om_elem_find k v m : om_sorted m -> (k, v) ∈ m -> om_find k m = Some v.
Proof.
  induction m as [|[k' v'] m IH]; [by intros _ ?%elem_of_nil|].
  intros [Hs Hlt]%om_sorted_cons. rewrite om_find_cons. simpl.
  intros [[= -> ->]|Hin]%elem_of_cons; [by rewrite decide_True|].
  rewrite decide_False; [auto|]. apply Hlt in Hin. simpl in Hin. lia.
Qed.

Lemma om_find_iff k v m : om_sorted m -> om_find k m = Some v <-> (k, v) ∈ m.
Proof. split; [apply om_find_elem | by apply om_elem_find]. Qed.

Lemma om_find_None k m : om_find k m = None <-> forall e, e ∈ m -> e.1 <> k.
Proof.
  induction m as [|e m IH]; [split; [by intros _ ? ?%elem_of_nil|done]|].
  rewrite om_find_cons. case_decide as Hk.
  - split; [done|]. intros Hno. by destruct (Hno e (list_elem_of_here _ _)).
  - rewrite IH. split.
    + intros Hno x [->|Hx]%elem_of_cons; auto.
    + intros Hno x Hx. apply Hno, elem_of_cons. by right.
Qed.

Lemma om_split_eq k m :
  (split_while (fun x : Z * V => x.1 <? k) m).1 ++
  (split_while (fun x : Z * V => x.1 <? k) m).2 = m.
Proof. apply split_while_app. Qed.

Lemma om_emplace_elem k v m e :
  om_find k m = None -> e ∈ om_emplace k v m <-> e = (k, v) \/ e ∈ m.
Proof.
  intros Hn. unfold om_emplace. rewrite Hn.
  pose proof (om_split_eq k m) as Happ.
  destruct (split_while _ m) as [b r]. simpl in Happ. subst m.
  rewrite !elem_of_app, elem_of_cons. tauto.
Qed.

Lemma om_split_ge k m e :
  om_sorted m -> e ∈ (split_while (fun x : Z * V => x.1 <? k) m).2 -> k <= e.1.
Proof.
  intros Hs Hin. pose proof (om_split_eq k m) as Happ.
  destruct (split_while _ m).2 as [|e0 t] eqn:E; [by apply elem_of_nil in Hin|].
  pose proof (split_while_snd _ m e0 t E) as Hp. simpl in Hp.
  rewrite <- Happ in Hs. apply StronglySorted_app_1_r in Hs.
  apply om_sorted_cons in Hs as [_ Hlt].
  apply elem_of_cons in Hin as [->|Hin]; [lia|]. apply Hlt in Hin. lia.
Qed.

Lemma om_split_lt k m e :
  e ∈ (split_while (fun x : Z * V => x.1 <? k) m).1 -> e.1 < k.
Proof.
  intros Hin. pose proof (split_while_fst (fun x : Z * V => x.1 <? k) m) as Hf.
  rewrite Forall_forall in Hf. apply Hf in Hin. lia.
Qed.

Lemma om_emplace_sorted k v m : om_sorted m -> om_sorted (om_emplace k v m).
Proof.
  intros Hs. unfold om_emplace. destruct (om_find k m) eqn:Hn; [done|].
  rewrite om_find_None in Hn.
  pose proof (om_split_eq k m) as Happ.
  pose proof (om_split_ge k m) as Hge. pose proof (om_split_lt k m) as Hlt.
  destruct (split_while _ m) as [b r]. simpl in *. subst m.
  apply StronglySorted_app in Hs as (Hbr & Hb & Hr).
  apply StronglySorted_app_2.
  - intros x y Hx [->|Hy]%elem_of_cons; [apply Hlt; done|by apply Hbr].
  - done.
  - apply om_sorted_cons. split; [done|]. intros e He. simpl.
    assert (k <= e.1) by (apply Hge; [by apply StronglySorted_app_2|done]).
    assert (e.1 <> k) by (apply Hn, elem_of_app; by right). lia.
Qed.

Lemma om_find_emplace k v m k' :
  om_sorted m -> om_find k m = None ->
  om_find k' (om_emplace k v m) = if decide (k' = k) then Some v else om_find k' m.
Proof.
  intros Hs Hn. pose proof (om_emplace_sorted k v m Hs) as Hs'.
  case_decide as Hk.
  - subst k'. apply om_elem_find; [done|]. apply om_emplace_elem; auto.
  - destruct (om_find k' m) as [v'|] eqn:E.
    + apply om_elem_find; [done|]. apply om_emplace_elem; [done|].
      right. by apply om_find_elem.
    + rewrite om_find_None in E |- *. intros e [->|He]%om_emplace_elem; [by simpl| |done].
      auto.
Qed.

Lemma om_erase_elem k m e : e ∈ om_erase k m <-> e.1 <> k /\ e ∈ m.
Proof. unfold om_erase. by rewrite list_elem_of_filter. Qed.

Lemma om_erase_sorted k m : om_sorted m -> om_sorted (om_erase k m).
Proof.
  induction m as [|e m IH]; [done|]. intros [Hs Hlt]%om_sorted_cons.
  unfold om_erase. rewrite filter_cons. case_decide; [|by apply IH].
  apply om_sorted_cons. split; [by apply IH|].
  intros e' [_ He']%list_elem_of_filter. auto.
Qed.

Lemma om_find_erase k k' m :
  om_find k' (om_erase k m) = if decide (k' = k) then None else om_find k' m.
Proof.
  induction m as [|e m IH]; [by case_decide|].
  unfold om_erase in *. rewrite filter_cons. rewrite om_find_cons.
  destruct (decide (e.1 <> k)) as [Hne|Heq%dec_stable].
  - rewrite om_find_cons. rewrite IH. repeat case_decide; congruence.
  - rewrite IH. repeat case_decide; congruence.
Qed.

Lemma om_update_keys k f m : (om_update k f m).*1 = m.*1.
Proof.
  unfold om_update. rewrite <- list_fmap_compose. apply list_fmap_ext.
  intros i [k' v'] _. simpl. by destruct (k' =? k).
Qed.

Lemma om_update_sorted k f m : om_sorted m -> om_sorted (om_update k f m).
Proof.
  induction m as [|e m IH]; [done|]. intros [Hs Hlt]%om_sorted_cons.
  unfold om_update. rewrite fmap_cons. apply om_sorted_cons. split; [by apply IH|].
  intros e' (e0 & -> & He0)%list_elem_of_fmap. apply Hlt in He0.
  by destruct (e.1 =? k), (e0.1 =? k).
Qed.

Lemma om_find_update k f k' m :
  om_find k' (om_update k f m) =
  if decide (k' = k) then f <$> om_find k' m else om_find k' m.
Proof.
  induction m as [|e m IH]; [by case_decide|].
  unfold om_update in *. rewrite fmap_cons, !om_find_cons, IH.
  destruct (e.1 =? k) eqn:E; simpl; repeat case_decide; first [done | lia | congruence].
Qed.

Lemma om_update_length k f m : length (om_update k f m) = length m.
Proof. apply length_fmap. Qed.

(** A loop over the map that changes values in place; the change may depend on
    the key. *)
Definition om_relk (R : Z -> V -> V -> Prop) (m m' : list (Z * V)) : Prop :=
  Forall2 (fun p p' => p.1 = p'.1 /\ R p.1 p.2 p'.2) m m'.

Definition om_rel (R : V -> V -> Prop) := om_relk (fun _ => R).

Lemma om_relk_find R m m' :
  om_relk R m m' -> forall k, option_Forall2 (R k) (om_find k m) (om_find k m').
Proof.
  intros Hr k. induction Hr as [|[k1 v1] [k2 v2] m m' [Hk Hv] _ IH]; [constructor|].
  simpl in *. subst k2. rewrite !om_find_cons. simpl. repeat split_match; try done.
  assert (k1 = k) as -> by (try lia; congruence). by constructor.
Qed.

Lemma om_rel_find R m m' : om_rel R m m' -> forall k, option_Forall2 R (om_find k m) (om_find k m').
Proof. apply (om_relk_find (fun _ => R)). Qed.

Lemma om_rel_keys R m m' : om_rel R m m' -> m'.*1 = m.*1.
Proof.
  induction 1 as [|[k1 v1] [k2 v2] m m' [Hk _] _ IH]; [done|].
  rewrite !fmap_cons. simpl in *. by rewrite Hk, IH.
Qed.

Lemma om_sorted_keys m m' : m'.*1 = m.*1 -> om_sorted m -> om_sorted m'.
Proof.
  unfold om_sorted. revert m'. induction m as [|e m IH]; intros [|e' m'] Hk Hs; try done.
  rewrite !fmap_cons in Hk. injection Hk as He Hk. apply StronglySorted_inv in Hs as [Hs Hall].
  constructor; [by apply IH|]. rewrite Forall_forall in *. intros x Hx.
  assert (Hin : x.1 ∈ m.*1) by (rewrite <- Hk; by apply list_elem_of_fmap_2).
  apply list_elem_of_fmap in Hin as (y & Hxy & Hy). apply Hall in Hy.
  unfold key_lt in *. simpl in *. lia.
Qed.
Lemma om_set_sorted k v m : om_sorted m -> om_sorted (om_set k v m).
Proof.
  intros Hs. unfold om_set. destruct (om_find k m);
    [by apply om_update_sorted|by apply om_emplace_sorted].
Qed.

Lemma om_find_set k v m k' :
  om_sorted m -> om_find k' (om_set k v m) = if decide (k' = k) then Some v else om_find k' m.
Proof.
  intros Hs. unfold om_set. destruct (om_find k m) eqn:E.
  - rewrite om_find_update. case_decide as Hd; [|done]. subst k'. by rewrite E.
  - by apply om_find_emplace.
Qed.

(** ** The entries up to order *)

Lemma om_erase_fresh k m : om_find k m = None -> om_erase k m = m.
Proof.
  induction m as [|e m IH]; [done|]. rewrite om_find_cons. unfold om_erase in *.
  rewrite filter_cons. case_decide as Hd; [done|]. intros Hn. by rewrite decide_True, IH.
Qed.

Lemma om_update_fresh k f m : om_find k m = None -> om_update k f m = m.
Proof.
  induction m as [|e m IH]; [done|]. rewrite om_find_cons. unfold om_update in *.
  rewrite fmap_cons. case_decide as Hd; [done|]. intros Hn. rewrite IH by done.
  replace (e.1 =? k) with false by lia. done.
Qed.

Lemma om_update_perm k f v m :
  om_sorted m -> om_find k m = Some v -> om_update k f m ≡ₚ (k, f v) :: om_erase k m.
Proof.
  induction m as [|e m IH]; [done|]. intros [Hs Hlt]%om_sorted_cons.
  rewrite om_find_cons. unfold om_update, om_erase in *. rewrite fmap_cons, filter_cons.
  case_decide as Hd.
  - intros [= <-]. subst k. rewrite Z.eqb_refl, decide_False by (by intros []).
    assert (Hn : om_find e.1 m = None).
    { apply om_find_None. intros x Hx. specialize (Hlt x Hx). lia. }
    fold (om_update e.1 f m) (om_erase e.1 m). by rewrite om_update_fresh, om_erase_fresh.
  - intros Hf. replace (e.1 =? k) with false by lia. rewrite decide_True by done.
    rewrite (IH Hs Hf). apply Permutation_swap.
Qed.

Lemma om_erase_perm k v m :
  om_sorted m -> om_find k m = Some v -> m ≡ₚ (k, v) :: om_erase k m.
Proof.
  intros Hs Hf. rewrite <- (om_update_perm k id v m Hs Hf). unfold om_update.
  rewrite <- (list_fmap_id m) at 1. apply reflexive_eq, list_fmap_ext.
  intros i [k' v'] _. simpl. by destruct (k' =? k).
Qed.

Lemma om_emplace_perm k v m : om_find k m = None -> om_emplace k v m ≡ₚ (k, v) :: m.
Proof.
  intros Hn. unfold om_emplace. rewrite Hn. pose proof (om_split_eq k m) as Happ.
  destruct (split_while _ m) as [b r]. simpl in Happ. subst m.
  symmetry. apply Permutation_middle.
Qed.

Lemma om_erase_emplace k v m : om_find k m = None -> om_erase k (om_emplace k v m) = m.
Proof.
  intros Hn. rewrite <- (om_erase_fresh k m Hn) at 2. unfold om_emplace. rewrite Hn.
  pose proof (om_split_eq k m) as Happ. destruct (split_while _ m) as [b r]. simpl in Happ.
  subst m. unfold om_erase. rewrite !filter_app, filter_cons, decide_False; [done|by intros []].
Qed.

Lemma om_erase_update k f m : om_erase k (om_update k f m) = om_erase k m.
Proof.
  unfold om_erase, om_update. induction m as [|e m IH]; [done|]. rewrite fmap_cons, !filter_cons, IH.
  destruct (e.1 =? k) eqn:E; cbn; [|done]. by rewrite !decide_False by (intros H; lia || (apply H; lia)).
Qed.

Lemma om_set_perm k v m : om_sorted m -> om_set k v m ≡ₚ (k, v) :: om_erase k m.
Proof.
  intros Hs. unfold om_set. destruct (om_find k m) as [v0|] eqn:E.
  - by rewrite (om_update_perm k _ v0).
  - by rewrite om_emplace_perm, om_erase_fresh.
Qed.
Lemma om_sorted_nodup m : om_sorted m -> NoDup m.*1.
Proof.
  induction m as [|e m IH]; [constructor|]. intros [Hs Hlt]%om_sorted_cons. simpl. constructor; [|by apply IH].
  intros (x & E & Hx)%list_elem_of_fmap. specialize (Hlt x Hx). lia.
Qed.
End ordered_map.

Arguments om_sorted {V} m.
#[export] Hint Resolve om_sorted_nil om_emplace_sorted om_erase_sorted
  om_update_sorted om_set_sorted : kernel.
