(* ===== verification/WaitKeys.v ===== *)
(** Scheduler wait keys.

    Services name the object a guest thread waits for with a string built from
    a prefix and a number: [std::to_chars(..., handle, 16)] or
    [std::to_string].  The numerals are modelled digit by digit, with a decoder
    that shows they are injective; keys of different objects, and keys of
    different services, are therefore different strings and a wake-up cannot
    reach the wrong waiters. *)
From S2P Require Import Prelude.
From Stdlib Require Import Ascii String.
Local Open Scope Z_scope.

Definition digit_char (d : Z) : ascii :=
  match d with
  | 0 => "0" | 1 => "1" | 2 => "2" | 3 => "3" | 4 => "4" | 5 => "5"
  | 6 => "6" | 7 => "7" | 8 => "8" | 9 => "9" | 10 => "a" | 11 => "b"
  | 12 => "c" | 13 => "d" | 14 => "e" | _ => "f"
  end%char.

Definition char_digit (c : ascii) : Z :=
  let n := Z.of_N (N_of_ascii c) in if n <? 97 then n - 48 else n - 87.

(** Digits are produced least significant first and written right to left. *)
Fixpoint to_digits (fuel : nat) (base v : Z) (acc : string) : string :=
  match fuel with
  | O => acc
  | S f =>
      let acc' := String (digit_char (v mod base)) acc in
      if v <? base then acc' else to_digits f base (v / base) acc'
  end.

(** A 64-bit value has at most 64 digits in any base of at least two. *)
Definition to_chars (base v : Z) : string := to_digits 64 base v EmptyString.

(** [std::to_string]. *)
Definition to_string (v : Z) : string := to_chars 10 v.

Fixpoint from_digits (base acc : Z) (s : string) : Z :=
  match s with
  | EmptyString => acc
  | String c s' => from_digits base (acc * base + char_digit c) s'
  end.

Lemma char_digit_char d : 0 <= d < 16 -> char_digit (digit_char d) = d.
Proof.
  intros Hd.
  assert (Hc : d ∈ seqZ 0 16) by (apply elem_of_seqZ; lia).
  clear Hd. revert d Hc. apply Forall_forall. repeat constructor.
Qed.

Lemma to_digits_decode base fuel v acc :
  2 <= base <= 16 -> 0 <= v < 2 ^ Z.of_nat fuel ->
  from_digits base 0 (to_digits fuel base v acc) = from_digits base v acc.
Proof.
  intros Hb. revert v acc. induction fuel as [|f IH]; intros v acc Hv.
  { assert (v = 0) as -> by (change (2 ^ Z.of_nat 0) with 1 in Hv; lia). done. }
  cbn [to_digits].
  pose proof (Z.mod_pos_bound v base ltac:(lia)) as Hm.
  destruct (v <? base) eqn:E.
  - cbn [from_digits]. rewrite char_digit_char by lia.
    rewrite Z.mod_small by lia. f_equal.
  - rewrite IH.
    + cbn [from_digits]. rewrite char_digit_char by lia. f_equal.
      pose proof (Z.div_mod v base ltac:(lia)). lia.
    + rewrite Nat2Z.inj_succ, Z.pow_succ_r in Hv by lia.
      split; [apply Z.div_pos; lia|]. apply Z.div_lt_upper_bound; [lia|]. nia.
Qed.

Lemma to_chars_decode base v :
  2 <= base <= 16 -> is_u64 v -> from_digits base 0 (to_chars base v) = v.
Proof.
  intros Hb Hv. unfold to_chars. rewrite to_digits_decode; [done|done|].
  change (2 ^ Z.of_nat 64) with 18446744073709551616. u64_lia.
Qed.

Lemma to_chars_inj base v w :
  2 <= base <= 16 -> is_u64 v -> is_u64 w -> to_chars base v = to_chars base w -> v = w.
Proof.
  intros Hb Hv Hw Heq. rewrite <- (to_chars_decode base v), Heq by done.
  by apply to_chars_decode.
Qed.

#[global] Opaque to_chars.

Lemma append_inj_prefix (p a b : string) : String.append p a = String.append p b -> a = b.
Proof. induction p as [|c p IH]; simpl; [done|]. intros [= Heq]. auto. Qed.

(** ** Two numerals separated by a colon *)

Fixpoint no_colon (s : string) : bool :=
  match s with
  | EmptyString => true
  | String c s' => negb (Ascii.eqb c ":") && no_colon s'
  end.

Lemma digit_char_no_colon d : Ascii.eqb (digit_char d) ":" = false.
Proof.
  unfold digit_char. destruct d as [|p|p]; try done.
  do 4 (destruct p as [p|p|]; try done).
Qed.

Lemma to_digits_no_colon fuel base v acc :
  no_colon acc = true -> no_colon (to_digits fuel base v acc) = true.
Proof.
  revert v acc. induction fuel as [|f IH]; intros v acc Ha; cbn [to_digits]; [done|].
  assert (no_colon (String (digit_char (v mod base)) acc) = true).
  { cbn [no_colon]. by rewrite digit_char_no_colon, Ha. }
  destruct (v <? base); auto.
Qed.

Lemma to_string_no_colon v : no_colon (to_string v) = true.
Proof. unfold to_string. Transparent to_chars. by apply to_digits_no_colon. Opaque to_chars. Qed.

Lemma append_colon_inj (a b x y : string) :
  no_colon a = true -> no_colon b = true ->
  String.append a (String ":" x) = String.append b (String ":" y) -> a = b /\ x = y.
Proof.
  revert b. induction a as [|c a IH]; intros [|d b] Ha Hb; cbn [String.append].
  - by intros [= ->].
  - intros [= <- Hx]. cbn [no_colon] in Hb. by rewrite Ascii.eqb_refl in Hb.
  - intros [= -> Hx]. cbn [no_colon] in Ha. by rewrite Ascii.eqb_refl in Ha.
  - intros [= -> Hx]. cbn [no_colon] in Ha, Hb.
    apply andb_true_iff in Ha as [_ Ha], Hb as [_ Hb].
    by destruct (IH b Ha Hb Hx) as [-> ->].
Qed.

(** [std::to_string(a) + ":" + std::to_string(b)]. *)
Definition colon_pair (a b : Z) : string :=
  String.append (to_string a) (String ":" (to_string b)).

Lemma colon_pair_inj a b a' b' :
  is_u64 a -> is_u64 b -> is_u64 a' -> is_u64 b' ->
  colon_pair a b = colon_pair a' b' -> a = a' /\ b = b'.
Proof.
  intros Ha Hb Ha' Hb' Heq.
  apply append_colon_inj in Heq as [H1 H2]; [|apply to_string_no_colon..].
  split; by apply (to_chars_inj 10).
Qed.

(** The keys of every service in [src/kernel]. *)
Inductive WaitKey :=
| ThreadExitKey (handle : Z)
| SemaphoreKey (handle : Z)
| EventFlagKey (handle : Z)
| EventQueueKey (handle : Z)
| CxaGuardKey (address : Z)
| PthreadMutexKey (handle thread : Z)
| PthreadConditionKey (handle thread : Z)
| PthreadRwlockKey (handle thread : Z).

Definition ThreadExitWaitKey (handle : Z) : string :=
  String.append "thread-exit:" (to_string handle).
Definition SemaphoreService_MakeWaitKey (handle : Z) : string :=
  String.append "semaphore:" (to_chars 16 handle).
Definition EventFlagService_MakeWaitKey (handle : Z) : string :=
  String.append "event_flag:" (to_chars 16 handle).
Definition EventQueueService_MakeWaitKey (handle : Z) : string :=
  String.append "event_queue:" (to_chars 16 handle).
Definition CxaGuardService_WaitKey (address : Z) : string :=
  String.append "cxa-guard:" (to_string address).
Definition MutexWaitKey (mutex_handle thread_handle : Z) : string :=
  String.append "pthread-mutex:" (colon_pair mutex_handle thread_handle).
Definition ConditionWaitKey (condition_handle thread_handle : Z) : string :=
  String.append "pthread-condition:" (colon_pair condition_handle thread_handle).
Definition RwlockWaitKey (rwlock_handle thread_handle : Z) : string :=
  String.append "pthread-rwlock:" (colon_pair rwlock_handle thread_handle).

Definition key_string (k : WaitKey) : string :=
  match k with
  | ThreadExitKey h => ThreadExitWaitKey h
  | SemaphoreKey h => SemaphoreService_MakeWaitKey h
  | EventFlagKey h => EventFlagService_MakeWaitKey h
  | EventQueueKey h => EventQueueService_MakeWaitKey h
  | CxaGuardKey a => CxaGuardService_WaitKey a
  | PthreadMutexKey h t => MutexWaitKey h t
  | PthreadConditionKey h t => ConditionWaitKey h t
  | PthreadRwlockKey h t => RwlockWaitKey h t
  end.

(** Every number in the key is a 64-bit word. *)
Definition key_u64 (k : WaitKey) : Prop :=
  match k with
  | ThreadExitKey h | SemaphoreKey h | EventFlagKey h | EventQueueKey h => is_u64 h
  | CxaGuardKey a => is_u64 a
  | PthreadMutexKey h t | PthreadConditionKey h t | PthreadRwlockKey h t => is_u64 h /\ is_u64 t
  end.

Lemma key_string_inj (k1 k2 : WaitKey) :
  key_u64 k1 -> key_u64 k2 -> key_string k1 = key_string k2 -> k1 = k2.
Proof.
  intros H1 H2 Heq.
  destruct k1, k2; simpl in H1, H2, Heq; try discriminate Heq;
    apply append_inj_prefix in Heq;
    first [ apply to_chars_inj in Heq; [by subst|lia|done|done]
          | apply colon_pair_inj in Heq as [-> ->]; tauto ].
Qed.

(** Two wait keys built by the kernel services are the same string exactly
    when they name the same object (and, for the POSIX thread objects, the same
    waiting thread) of the same service, for every 64-bit handle or address: a
    wake-up by key can never reach a waiter of another object. *)
Theorem wait_keys_injective (k1 k2 : WaitKey) :
  key_u64 k1 -> key_u64 k2 -> key_string k1 = key_string k2 <-> k1 = k2.
Proof. intros H1 H2. split; [by apply key_string_inj | by intros ->]. Qed.

Lemma key_string_nonempty k : key_string k <> EmptyString.
Proof. by destruct k. Qed.
#[export] Hint Resolve key_string_nonempty : kernel.
