(* ===== verification/HandleTable.v ===== *)
(** [kernel::HandleTable] ([src/kernel/handle_table.cpp], [object.h]).

    The table maps 64-bit handles to kernel objects.  Its operations hold
    [mutex_] for their whole body, so each is one atomic state transition.
    The table is polymorphic in the representation of objects; the class
    [KernelObject] is the [type()] accessor of the C++ base class. *)
From S2P Require Import Prelude.

(** [enum class KernelObjectType]. *)
Inductive KernelObjectType : Type :=
| kDirectory | kEventQueue | kEventFlag | kFile | kSemaphore | kThread | kTimer.

#[global] Instance KernelObjectType_eq_dec : EqDecision KernelObjectType.
Proof. solve_decision. Defined.

Class KernelObject (O : Type) := object_type : O -> KernelObjectType.

Record HandleTable (O : Type) := mkHandleTable {
  objects_ : gmap Z O;
  next_handle_ : Z;
  exhausted_ : bool
}.
Arguments mkHandleTable {O} _ _ _.
Arguments objects_ {O} _.
Arguments next_handle_ {O} _.
Arguments exhausted_ {O} _.

(** The default member initialisers. *)
Definition HandleTable_init (O : Type) : HandleTable O := mkHandleTable ∅ 1 false.

Section operations.
Context {O : Type} `{KernelObject O}.
Implicit Types (t : HandleTable O).

(** [Insert]: a null object is refused, an exhausted table is refused, and
    otherwise the next handle is consumed. *)
Definition Insert (object : option O) t : HandleTable O * option Z :=
  match object with
  | None => (t, None)
  | Some o =>
      if exhausted_ t then (t, None)
      else
        let handle := next_handle_ t in
        let at_max := next_handle_ t =? u64_max in
        let next := if at_max then next_handle_ t else (next_handle_ t + 1)%u64 in
        (* emplace keeps an existing entry *)
        let objects := match objects_ t !! handle with
                       | Some _ => objects_ t
                       | None => <[handle := o]> (objects_ t)
                       end in
        (mkHandleTable objects next at_max, Some handle)
  end.

Definition Find (handle : Z) (expected : KernelObjectType) t : option O :=
  if handle =? kInvalidKernelHandle then None
  else match objects_ t !! handle with
       | None => None
       | Some o => if bool_decide (object_type o = expected) then Some o else None
       end.

Definition Remove (handle : Z) (expected : KernelObjectType) t
    : HandleTable O * option O :=
  if handle =? kInvalidKernelHandle then (t, None)
  else match objects_ t !! handle with
       | None => (t, None)
       | Some o =>
           if bool_decide (object_type o = expected)
           then (mkHandleTable (delete handle (objects_ t)) (next_handle_ t) (exhausted_ t),
                 Some o)
           else (t, None)
       end.

Definition HandleTable_size t : nat := size (objects_ t).

(** A method call through the shared pointer held in the table: the object is
    changed in place, the table itself is not. *)
Definition Modify (handle : Z) (o : O) t : HandleTable O :=
  mkHandleTable (<[handle := o]> (objects_ t)) (next_handle_ t) (exhausted_ t).

(** Live handles are non-zero 64-bit values that were all issued before the
    next one. *)
Record table_ok t : Prop := {
  ht_next : 1 <= next_handle_ t <= u64_max;
  ht_exhausted : exhausted_ t = true -> next_handle_ t = u64_max;
  ht_live h o : objects_ t !! h = Some o ->
    1 <= h <= u64_max /\ (exhausted_ t = false -> h < next_handle_ t)
}.

Lemma table_ok_init : table_ok (HandleTable_init O).
Proof. split; simpl; [u64_lia | done | done]. Qed.

Lemma next_handle_fresh t :
  table_ok t -> exhausted_ t = false -> objects_ t !! next_handle_ t = None.
Proof.
  intros Hok He. destruct (objects_ t !! next_handle_ t) as [o|] eqn:E; [|done].
  apply (ht_live _ Hok) in E as [_ Hlt]. specialize (Hlt He). lia.
Qed.

Lemma Insert_ok object t : table_ok t -> table_ok (Insert object t).1.
Proof.
  intros Hok. destruct object as [o|]; [|done]. simpl.
  destruct (exhausted_ t) eqn:He; [done|]. simpl.
  rewrite (next_handle_fresh t Hok He). pose proof (ht_next _ Hok).
  split; simpl.
  - destruct (_ =? _) eqn:E; [lia|]. unwrap64. u64_lia.
  - intros Heq. rewrite Heq. lia.
  - intros h o'. rewrite lookup_insert. case_decide as Hh.
    + intros _. subst h. split; [lia|]. intros Heq. rewrite Heq. unwrap64. lia.
    + intros Hl%(ht_live _ Hok). destruct Hl as [Hr Hlt]. split; [done|].
      intros Heq. rewrite Heq. specialize (Hlt He). unwrap64. lia.
Qed.

Lemma Remove_ok h ty t : table_ok t -> table_ok (Remove h ty t).1.
Proof.
  intros Hok. unfold Remove. repeat split_match; simpl; try done.
  split; simpl; [apply Hok | apply Hok|].
  intros h' o' [_ Hl]%lookup_delete_Some. by eapply ht_live.
Qed.

Lemma Modify_ok h o o' t :
  table_ok t -> objects_ t !! h = Some o -> table_ok (Modify h o' t).
Proof.
  intros Hok Hh. split; simpl; [apply Hok | apply Hok|].
  intros h' x. rewrite lookup_insert. case_decide as Heq.
  - subst h'. intros _. by eapply ht_live.
  - by apply ht_live.
Qed.

Lemma Find_Some h ty t o :
  Find h ty t = Some o <-> h <> 0 /\ objects_ t !! h = Some o /\ object_type o = ty.
Proof.
  unfold Find, kInvalidKernelHandle. destruct (h =? 0) eqn:E.
  { split; [done|]. lia. }
  destruct (objects_ t !! h) as [o'|]; [|split; [done|naive_solver]].
  case_bool_decide as Hty; split.
  - intros [= ->]. split_and!; [lia|done|done].
  - intros (_ & [= ->] & _). done.
  - done.
  - intros (_ & [= ->] & Ht). done.
Qed.

Lemma Insert_Find object t h ty :
  table_ok t -> (Insert object t).2 = Some h ->
  Find h ty (Insert object t).1 =
  o ← object; if bool_decide (object_type o = ty) then Some o else None.
Proof.
  intros Hok. destruct object as [o|]; [|done]. simpl.
  destruct (exhausted_ t) eqn:He; [done|]. simpl. intros [= <-].
  rewrite (next_handle_fresh t Hok He). unfold Find, kInvalidKernelHandle. simpl.
  pose proof (ht_next _ Hok). destruct (_ =? 0) eqn:E; [lia|].
  by rewrite lookup_insert_eq.
Qed.

Lemma Insert_frame object t h' :
  (Insert object t).2 <> Some h' ->
  objects_ (Insert object t).1 !! h' = objects_ t !! h'.
Proof.
  destruct object as [o|]; [|done]. simpl.
  destruct (exhausted_ t); [done|]. simpl. intros Hne.
  destruct (objects_ t !! next_handle_ t); [done|].
  rewrite lookup_insert_ne; [done|]. congruence.
Qed.

Lemma Remove_lookup h ty t h' :
  objects_ (Remove h ty t).1 !! h' =
  if bool_decide (h' = h /\ is_Some (Find h ty t)) then None else objects_ t !! h'.
Proof.
  unfold Remove, Find, kInvalidKernelHandle.
  destruct (h =? 0) eqn:E; simpl.
  { case_bool_decide as Hd; [destruct Hd as [_ [? ?]]; done|done]. }
  destruct (objects_ t !! h) as [o|] eqn:Ho; simpl.
  2:{ case_bool_decide as Hd; [destruct Hd as [_ [? ?]]; done|done]. }
  case_bool_decide as Hty; simpl.
  - rewrite lookup_delete. case_decide as Heq; case_bool_decide as Hd; try done.
    + exfalso. apply Hd. split; [done|eauto].
    + destruct Hd as [-> _]. done.
  - case_bool_decide as Hd; [destruct Hd as [_ [? ?]]; done|done].
Qed.
End operations.

#[export] Hint Resolve table_ok_init Insert_ok Remove_ok : kernel.

(** ** Handles are never issued twice *)

Section traces.
Context {O : Type} `{KernelObject O}.

Inductive table_op := OpInsert (o : option O) | OpRemove (h : Z) (ty : KernelObjectType).

(** Run a sequence of operations, collecting the handles that were issued. *)
Fixpoint run_ops (ops : list table_op) (t : HandleTable O) : HandleTable O * list Z :=
  match ops with
  | [] => (t, [])
  | OpInsert o :: rest =>
      let '(t1, r) := Insert o t in
      let '(t2, hs) := run_ops rest t1 in
      (t2, match r with Some h => h :: hs | None => hs end)
  | OpRemove h ty :: rest => run_ops rest (Remove h ty t).1
  end.

(** The least handle a table can still issue. *)
Definition issue_floor (t : HandleTable O) : Z :=
  if exhausted_ t then u64_max + 1 else next_handle_ t.

Lemma Insert_issue o (t : HandleTable O) :
  table_ok t ->
  match (Insert o t).2 with
  | Some h => h = issue_floor t /\ issue_floor (Insert o t).1 = h + 1 /\ h <= u64_max
  | None => issue_floor (Insert o t).1 = issue_floor t
  end.
Proof.
  intros Hok. pose proof (ht_next _ Hok). unfold issue_floor.
  destruct o as [o|]; simpl; [|done]. destruct (exhausted_ t) eqn:He; simpl; [by rewrite He|].
  destruct (_ =? _) eqn:E; split_and!; try done; try lia. unwrap64. lia.
Qed.

Lemma Remove_issue h ty (t : HandleTable O) :
  issue_floor (Remove h ty t).1 = issue_floor t.
Proof. unfold Remove. by repeat split_match. Qed.

Lemma run_ops_issued ops (t : HandleTable O) :
  table_ok t ->
  StronglySorted Z.lt (run_ops ops t).2 /\
  Forall (fun h => issue_floor t <= h <= u64_max) (run_ops ops t).2.
Proof.
  revert t. induction ops as [|[o|h ty] ops IH]; intros t Hok; [by split; constructor| |].
  - simpl. pose proof (Insert_issue o t Hok) as Hi.
    pose proof (Insert_ok o t Hok) as Hok'.
    destruct (Insert o t) as [t1 r]. simpl in *.
    destruct (IH t1 Hok') as [Hs Hf]. destruct (run_ops ops t1) as [t2 hs]. simpl in *.
    destruct r as [h|].
    + destruct Hi as (-> & Hfl & Hmax). rewrite Hfl in Hf. split; constructor; try done.
      * eapply Forall_impl; [exact Hf|]. simpl. intros; lia.
      * eapply Forall_impl; [exact Hf|]. simpl. intros; lia.
    + by rewrite Hi in Hf.
  - simpl. pose proof (IH (Remove h ty t).1 (Remove_ok h ty t Hok)) as Hr.
    by rewrite Remove_issue in Hr.
Qed.

(** Handles issued by any interleaving of insertions and removals are
    strictly increasing, non-zero 64-bit values: none is ever reused. *)
Theorem handles_never_reused (ops : list table_op) :
  StronglySorted Z.lt (run_ops ops (HandleTable_init O)).2 /\
  Forall (fun h => 1 <= h <= u64_max) (run_ops ops (HandleTable_init O)).2.
Proof. apply (run_ops_issued ops (HandleTable_init O)), table_ok_init. Qed.
End traces.
