(* ===== verification/Objects.v ===== *)
(** The kernel objects reached through handles: [Semaphore], [EventFlag] and
    [EventQueue] ([src/kernel/semaphore.cpp], [event_flag.cpp],
    [event_queue.cpp]).  Each method runs under the object's own mutex and is
    one function on the object's record. *)
From S2P Require Import Prelude HandleTable.

(** ** Semaphore *)

Definition is_int32 (x : Z) : Prop := - 2 ^ 31 <= x < 2 ^ 31.

Record Semaphore := mkSemaphore {
  sem_name_ : string;
  sem_attributes_ : Z;
  sem_maximum_count_ : Z;
  sem_count_ : Z
}.

Definition sem_set_count (s : Semaphore) (c : Z) : Semaphore :=
  mkSemaphore (sem_name_ s) (sem_attributes_ s) (sem_maximum_count_ s) c.

Definition Semaphore_Signal (s : Semaphore) (count : Z) : Semaphore * KernelStatus :=
  if count <=? 0 then (s, kInvalidArgument)
  else if count >? sem_maximum_count_ s - sem_count_ s then (s, kInvalidArgument)
  else (sem_set_count s (sem_count_ s + count), kOk).

(** The third component is the [remaining_count] out-parameter; it is left
    alone (zero in the only caller) when the request is invalid. *)
Definition Semaphore_TryAcquire (s : Semaphore) (count : Z)
    : Semaphore * KernelStatus * Z :=
  if (count <=? 0) || (count >? sem_maximum_count_ s) then (s, kInvalidArgument, 0)
  else if sem_count_ s <? count then (s, kBusy, sem_count_ s)
  else
    let left := sem_count_ s - count in (sem_set_count s left, kOk, left).

Record sem_ok (s : Semaphore) : Prop := {
  sem_max_pos : 0 < sem_maximum_count_ s < 2 ^ 31;
  sem_in_range : 0 <= sem_count_ s <= sem_maximum_count_ s
}.

Lemma Semaphore_Signal_ok s c : sem_ok s -> sem_ok (Semaphore_Signal s c).1.
Proof.
  intros [Hm Hr]. unfold Semaphore_Signal.
  repeat split_match; split; simpl; lia.
Qed.

Lemma Semaphore_TryAcquire_ok s c : sem_ok s -> sem_ok (Semaphore_TryAcquire s c).1.1.
Proof.
  intros [Hm Hr]. unfold Semaphore_TryAcquire.
  repeat split_match; split; simpl; lia.
Qed.

(** ** Event flag *)

Inductive EventFlagWaitCondition := kWaitAll | kWaitAny.
Inductive EventFlagClearMode := kClearNone | kClearAll | kClearPattern.

Record EventFlag := mkEventFlag {
  ef_name_ : string;
  ef_attributes_ : Z;
  ef_bits_ : Z
}.

Definition ef_set_bits (e : EventFlag) (b : Z) : EventFlag :=
  mkEventFlag (ef_name_ e) (ef_attributes_ e) b.

Definition EventFlag_Set (e : EventFlag) (pattern : Z) : EventFlag :=
  ef_set_bits e (Z.lor (ef_bits_ e) pattern).

Definition EventFlag_Clear (e : EventFlag) (mask : Z) : EventFlag :=
  ef_set_bits e (Z.land (ef_bits_ e) mask).

(** The result pair is [EventFlagStateResult{satisfied, observed_pattern}]. *)
Definition EventFlag_Poll (e : EventFlag) (pattern : Z)
    (condition : EventFlagWaitCondition) (clear_mode : EventFlagClearMode)
    : EventFlag * (bool * Z) :=
  let observed := ef_bits_ e in
  let satisfied :=
    match condition with
    | kWaitAll => Z.land (ef_bits_ e) pattern =? pattern
    | kWaitAny => negb (Z.land (ef_bits_ e) pattern =? 0)
    end in
  if negb satisfied then (e, (false, observed))
  else
    let bits := match clear_mode with
                | kClearNone => ef_bits_ e
                | kClearAll => 0
                | kClearPattern => Z.ldiff (ef_bits_ e) pattern
                end in
    (ef_set_bits e bits, (true, observed)).

(** ** Event queue *)

Definition kEventFilterGraphics : Z := -14.
Definition kEventFilterVideoOut : Z := -13.
Definition kEventFilterUser : Z := -11.
Definition kEventAdd : Z := 0x01.
Definition kEventClear : Z := 0x20.

Record KernelEvent := mkKernelEvent {
  ev_ident : Z; ev_filter : Z; ev_flags : Z; ev_fflags : Z; ev_data : Z; ev_user_data : Z
}.

Record RegisteredKernelEvent := mkRegisteredKernelEvent {
  rk_event : KernelEvent;
  rk_generation : Z;
  rk_persistent : bool
}.

Record Registration := mkRegistration {
  reg_ident : Z; reg_filter : Z; reg_flags : Z; reg_user_data : Z; reg_generation : Z
}.

Record EventQueue := mkEventQueue {
  eq_name_ : string;
  registrations_ : list Registration;
  pending_events_ : list RegisteredKernelEvent;
  next_generation_ : Z;
  generation_exhausted_ : bool
}.

Definition EventQueue_init (name : string) : EventQueue :=
  mkEventQueue name [] [] 1 false.

Definition reg_matches (ident filter : Z) (r : Registration) : bool :=
  (reg_ident r =? ident) && (reg_filter r =? filter).

Definition pending_matches (ident filter : Z) (q : RegisteredKernelEvent) : bool :=
  (ev_ident (rk_event q) =? ident) && (ev_filter (rk_event q) =? filter).

(** [std::erase_if(pending_events_, same ident and filter)]. *)
Definition erase_pending (ident filter : Z) (l : list RegisteredKernelEvent) :=
  List.filter (fun q => negb (pending_matches ident filter q)) l.

(** The result pair is [EventRegistrationResult{status, generation}]. *)
Definition EventQueue_RegisterEvent (q : EventQueue) (ident filter flags user_data : Z)
    : EventQueue * (KernelStatus * Z) :=
  let found := find (reg_matches ident filter) (registrations_ q) in
  let unchanged := match found with
                   | Some r => (reg_flags r =? flags) && (reg_user_data r =? user_data)
                   | None => false
                   end in
  if unchanged then (q, (kOk, from_option reg_generation 0 found))
  else if generation_exhausted_ q then (q, (kNoResources, 0))
  else
    let generation := next_generation_ q in
    let at_max := next_generation_ q =? u64_max in
    let next := if at_max then next_generation_ q else (next_generation_ q + 1)%u64 in
    let fresh := mkRegistration ident filter flags user_data generation in
    let registrations :=
      match found with
      | Some _ => update_first (reg_matches ident filter) (fun _ => fresh) (registrations_ q)
      | None => registrations_ q ++ [fresh]
      end in
    (mkEventQueue (eq_name_ q) registrations
       (erase_pending ident filter (pending_events_ q)) next at_max,
     (kOk, generation)).

Definition EventQueue_DeleteEvent (q : EventQueue) (ident filter : Z)
    : EventQueue * KernelStatus :=
  match find (reg_matches ident filter) (registrations_ q) with
  | None => (q, kNoSuchEntry)
  | Some _ =>
      (mkEventQueue (eq_name_ q)
         (erase_first (reg_matches ident filter) (registrations_ q))
         (erase_pending ident filter (pending_events_ q))
         (next_generation_ q) (generation_exhausted_ q), kOk)
  end.

Definition EventQueue_AddUserEvent (q : EventQueue) (ident : Z) (edge : bool)
    : EventQueue * KernelStatus :=
  let '(q', (status, _)) :=
    EventQueue_RegisterEvent q ident kEventFilterUser
      (Z.lor kEventAdd (if edge then kEventClear else 0)) 0 in
  (q', status).

Definition EventQueue_DeleteUserEvent (q : EventQueue) (ident : Z)
    : EventQueue * KernelStatus :=
  EventQueue_DeleteEvent q ident kEventFilterUser.

Definition set_pending (q : EventQueue) (p : list RegisteredKernelEvent) : EventQueue :=
  mkEventQueue (eq_name_ q) (registrations_ q) p (next_generation_ q)
    (generation_exhausted_ q).

(** A queued event of exactly this registration. *)
Definition pending_of (r : Registration) (q : RegisteredKernelEvent) : bool :=
  pending_matches (reg_ident r) (reg_filter r) q && (rk_generation q =? reg_generation r).

Definition EventQueue_TriggerUserEvent (q : EventQueue) (ident user_data : Z)
    : EventQueue * KernelStatus :=
  match find (reg_matches ident kEventFilterUser) (registrations_ q) with
  | None => (q, kNoSuchEntry)
  | Some r =>
      let event := mkKernelEvent (reg_ident r) (reg_filter r) (reg_flags r) 0 0 user_data in
      match find (pending_of r) (pending_events_ q) with
      | Some _ =>
          (set_pending q
             (update_first (pending_of r)
                (fun p => mkRegisteredKernelEvent event (rk_generation p) (rk_persistent p))
                (pending_events_ q)), kOk)
      | None =>
          (set_pending q
             (pending_events_ q ++
                [mkRegisteredKernelEvent event (reg_generation r)
                   (Z.land (reg_flags r) kEventClear =? 0)]), kOk)
      end
  end.

Definition EventQueue_TriggerFirstByFilter (q : EventQueue) (filter data : Z)
    : EventQueue * bool :=
  match find (fun r => reg_filter r =? filter) (registrations_ q) with
  | None => (q, false)
  | Some r =>
      let event :=
        mkRegisteredKernelEvent
          (mkKernelEvent (reg_ident r) (reg_filter r) 0 1 data (reg_user_data r))
          (reg_generation r) false in
      match find (pending_of r) (pending_events_ q) with
      | Some _ =>
          (set_pending q (update_first (pending_of r) (fun _ => event) (pending_events_ q)),
           true)
      | None => (set_pending q (pending_events_ q ++ [event]), true)
      end
  end.

(** The first [maximum_count] events are taken; persistent ones are queued
    again behind the rest. *)
Definition EventQueue_Poll (q : EventQueue) (maximum_count : Z)
    : EventQueue * list RegisteredKernelEvent :=
  let count := Z.to_nat (Z.min maximum_count (Z.of_nat (length (pending_events_ q)))) in
  let events := take count (pending_events_ q) in
  (set_pending q (drop count (pending_events_ q) ++ List.filter rk_persistent events),
   events).

Definition EventQueue_IsCurrent (q : EventQueue) (e : RegisteredKernelEvent) : bool :=
  existsb (fun r => (reg_ident r =? ev_ident (rk_event e)) &&
                    (reg_filter r =? ev_filter (rk_event e)) &&
                    (reg_generation r =? rk_generation e)) (registrations_ q).

(** ** The object behind a handle *)

(** A [GuestThread] is shared between the handle table and the scheduler's
    [threads_]; every access to its fields goes through the scheduler, which
    holds its state, so the table side carries no payload.  Files, directories
    and timers are opaque here. *)
Inductive kobject :=
| OSemaphore (s : Semaphore)
| OEventFlag (e : EventFlag)
| OEventQueue (q : EventQueue)
| OThread
| OFile
| ODirectory
| OTimer.

#[global] Instance kobject_type : KernelObject kobject := fun o =>
  match o with
  | OSemaphore _ => kSemaphore
  | OEventFlag _ => kEventFlag
  | OEventQueue _ => kEventQueue
  | OThread => kThread
  | OFile => kFile
  | ODirectory => kDirectory
  | OTimer => kTimer
  end.

(** [std::static_pointer_cast] after a type-checked [Find]. *)
Definition as_semaphore (o : kobject) : option Semaphore :=
  match o with OSemaphore s => Some s | _ => None end.
Definition as_event_flag (o : kobject) : option EventFlag :=
  match o with OEventFlag e => Some e | _ => None end.
Definition as_event_queue (o : kobject) : option EventQueue :=
  match o with OEventQueue q => Some q | _ => None end.
