(* ===== verification/Clock.v ===== *)
(** [kernel::KernelClockService] ([src/kernel/clock.cpp]).

    The time source is the abstract C++ interface [KernelClockSource]; the host
    implementation reads [std::chrono].  It is the class [ClockSource]: a
    sequence of readings.  The service state counts the readings made so far,
    so two reads in one operation can see different times, as they can in the
    program. *)
From S2P Require Import Prelude.

(** The interface [KernelClockSource]: the [n]-th reading of either clock. *)
Class ClockSource := {
  source_realtime : nat -> Z;
  source_monotonic : nat -> Z
}.

(** What the interface documents: 64-bit values, and monotonic readings that do
    not go backwards. *)
Class ClockSourceLaws `{ClockSource} : Prop := {
  realtime_int64 n : - 2 ^ 63 <= source_realtime n < 2 ^ 63;
  monotonic_u64 n : is_u64 (source_monotonic n);
  monotonic_mono n m : (n <= m)%nat -> source_monotonic n <= source_monotonic m
}.

Definition kClockRealtime : Z := 0.
Definition kClockMonotonic : Z := 4.
Definition kClockUptime : Z := 5.
Definition kClockUptimePrecise : Z := 7.
Definition kClockUptimeFast : Z := 8.
Definition kClockRealtimePrecise : Z := 9.
Definition kClockRealtimeFast : Z := 10.
Definition kClockMonotonicPrecise : Z := 11.
Definition kClockMonotonicFast : Z := 12.
Definition kClockSecond : Z := 13.
Definition kClockProcessTime : Z := 15.
Definition kClockExternalNetwork : Z := 16.
Definition kClockExternalDebugNetwork : Z := 17.
Definition kClockExternalAdNetwork : Z := 18.
Definition kClockExternalRawNetwork : Z := 19.

Record KernelTimespec := mkTimespec { ts_seconds : Z; ts_nanoseconds : Z }.
Record KernelTimeval := mkTimeval { tv_seconds : Z; tv_microseconds : Z }.

Record KernelClockService := mkClock {
  process_start_nanoseconds_ : Z;
  clock_reads : nat
}.

Section clock.
Context `{ClockSource}.
Implicit Types (c : KernelClockService).

Definition kNanosecondsPerSecond : Z := 1000000000.

(** One call of the source; both clocks are read through the same counter. *)
Definition read_realtime c : KernelClockService * Z :=
  (mkClock (process_start_nanoseconds_ c) (S (clock_reads c)),
   source_realtime (clock_reads c)).

Definition MonotonicNanoseconds c : KernelClockService * Z :=
  (mkClock (process_start_nanoseconds_ c) (S (clock_reads c)),
   source_monotonic (clock_reads c)).

(** The constructor samples the monotonic clock once. *)
Definition KernelClockService_init : KernelClockService :=
  mkClock (source_monotonic 0) 1.

(** C++ signed division truncates towards zero. *)
Definition SignedNanosecondsToTimespec (nanoseconds : Z) : KernelTimespec :=
  let seconds := Z.quot nanoseconds kNanosecondsPerSecond in
  let remainder := Z.rem nanoseconds kNanosecondsPerSecond in
  if remainder <? 0
  then mkTimespec (seconds - 1) (remainder + kNanosecondsPerSecond)
  else mkTimespec seconds remainder.

Definition UnsignedNanosecondsToTimespec (nanoseconds : Z) : KernelTimespec :=
  mkTimespec (nanoseconds / kNanosecondsPerSecond) (nanoseconds mod kNanosecondsPerSecond).

Definition ProcessNanoseconds c : KernelClockService * Z :=
  let '(c', now) := MonotonicNanoseconds c in
  (c', if now >=? process_start_nanoseconds_ c
       then (now - process_start_nanoseconds_ c)%u64 else 0).

Definition GetProcessTimeCounter c : KernelClockService * Z := ProcessNanoseconds c.

Definition GetProcessTimeMicroseconds c : KernelClockService * Z :=
  let '(c', ns) := ProcessNanoseconds c in (c', ns / 1000).

Definition is_realtime_clock (clock_id : Z) : bool :=
  (clock_id =? kClockRealtime) || (clock_id =? kClockRealtimePrecise)
  || (clock_id =? kClockRealtimeFast).

Definition is_monotonic_clock (clock_id : Z) : bool :=
  (clock_id =? kClockMonotonic) || (clock_id =? kClockUptime)
  || (clock_id =? kClockUptimePrecise) || (clock_id =? kClockUptimeFast)
  || (clock_id =? kClockMonotonicPrecise) || (clock_id =? kClockMonotonicFast)
  || (clock_id =? kClockExternalNetwork) || (clock_id =? kClockExternalDebugNetwork)
  || (clock_id =? kClockExternalAdNetwork) || (clock_id =? kClockExternalRawNetwork).

Definition ClockGettime c (clock_id : Z)
    : KernelClockService * (KernelStatus * KernelTimespec) :=
  if is_realtime_clock clock_id then
    let '(c', ns) := read_realtime c in (c', (kOk, SignedNanosecondsToTimespec ns))
  else if clock_id =? kClockSecond then
    let '(c', ns) := read_realtime c in
    (c', (kOk, mkTimespec (ts_seconds (SignedNanosecondsToTimespec ns)) 0))
  else if is_monotonic_clock clock_id then
    let '(c', ns) := MonotonicNanoseconds c in (c', (kOk, UnsignedNanosecondsToTimespec ns))
  else if clock_id =? kClockProcessTime then
    let '(c', ns) := ProcessNanoseconds c in (c', (kOk, UnsignedNanosecondsToTimespec ns))
  else (c, (kInvalidArgument, mkTimespec 0 0)).

Definition Gettimeofday c : KernelClockService * KernelTimeval :=
  let '(c', ns) := read_realtime c in
  let time := SignedNanosecondsToTimespec ns in
  (c', mkTimeval (ts_seconds time) (Z.quot (ts_nanoseconds time) 1000)).

(** A timespec is normalised and denotes exactly the nanoseconds it came from. *)
Definition timespec_denotes (t : KernelTimespec) (ns : Z) : Prop :=
  0 <= ts_nanoseconds t < kNanosecondsPerSecond /\
  ts_seconds t * kNanosecondsPerSecond + ts_nanoseconds t = ns.

Lemma SignedNanosecondsToTimespec_spec ns :
  timespec_denotes (SignedNanosecondsToTimespec ns) ns.
Proof.
  unfold timespec_denotes, SignedNanosecondsToTimespec, kNanosecondsPerSecond.
  pose proof (Z.quot_rem ns 1000000000 ltac:(lia)).
  assert (- 1000000000 < Z.rem ns 1000000000 < 1000000000).
  { pose proof (Z.rem_bound_abs ns 1000000000 ltac:(lia)). lia. }
  destruct (Z.rem ns 1000000000 <? 0) eqn:E; simpl; lia.
Qed.

Lemma UnsignedNanosecondsToTimespec_spec ns :
  timespec_denotes (UnsignedNanosecondsToTimespec ns) ns.
Proof.
  unfold timespec_denotes, UnsignedNanosecondsToTimespec, kNanosecondsPerSecond. simpl.
  pose proof (Z.mod_pos_bound ns 1000000000 ltac:(lia)).
  pose proof (Z.div_mod ns 1000000000 ltac:(lia)). lia.
Qed.

Lemma Unsigned_seconds_mono a b :
  0 <= a <= b ->
  ts_seconds (UnsignedNanosecondsToTimespec a) <= ts_seconds (UnsignedNanosecondsToTimespec b).
Proof. intros Hab. simpl. apply Z.div_le_mono; unfold kNanosecondsPerSecond; lia. Qed.

Lemma ProcessNanoseconds_eq `{!ClockSourceLaws} c :
  is_u64 (process_start_nanoseconds_ c) ->
  (ProcessNanoseconds c).2 =
  Z.max 0 (source_monotonic (clock_reads c) - process_start_nanoseconds_ c).
Proof.
  intros Hs. unfold ProcessNanoseconds. simpl.
  pose proof (monotonic_u64 (clock_reads c)).
  destruct (_ >=? _) eqn:E; [unwrap64|]; lia.
Qed.

Lemma realtime_seconds_floor ns :
  let s := ts_seconds (SignedNanosecondsToTimespec ns) in
  s * kNanosecondsPerSecond <= ns < (s + 1) * kNanosecondsPerSecond.
Proof. pose proof (SignedNanosecondsToTimespec_spec ns) as [Hb Heq]. simpl. lia. Qed.

(** [ClockGettime] accepts exactly the listed clock ids and its result is a
    normalised timespec (nanoseconds in [0, 10^9)) that denotes exactly the
    reading: the realtime clocks the signed realtime reading (also before the
    epoch), the second clock its floor in whole seconds, the monotonic family
    the monotonic reading, and the process clock the time since the service
    started, clamped at zero. *)
Theorem ClockGettime_exact `{!ClockSourceLaws} c clock_id :
  is_u64 (process_start_nanoseconds_ c) ->
  let n := clock_reads c in
  let '(c', (st, t)) := ClockGettime c clock_id in
  if is_realtime_clock clock_id then st = kOk /\ timespec_denotes t (source_realtime n)
  else if clock_id =? kClockSecond then
    st = kOk /\ ts_nanoseconds t = 0 /\
    ts_seconds t * kNanosecondsPerSecond <= source_realtime n
      < (ts_seconds t + 1) * kNanosecondsPerSecond
  else if is_monotonic_clock clock_id then
    st = kOk /\ timespec_denotes t (source_monotonic n)
  else if clock_id =? kClockProcessTime then
    st = kOk /\
    timespec_denotes t (Z.max 0 (source_monotonic n - process_start_nanoseconds_ c))
  else st = kInvalidArgument /\ c' = c.
Proof.
  intros Hs. cbn zeta. unfold ClockGettime, read_realtime, MonotonicNanoseconds.
  destruct (is_realtime_clock clock_id).
  { split; [done|]. apply SignedNanosecondsToTimespec_spec. }
  destruct (clock_id =? kClockSecond).
  { split_and!; [done|done| |]; simpl; apply realtime_seconds_floor. }
  destruct (is_monotonic_clock clock_id).
  { split; [done|]. apply UnsignedNanosecondsToTimespec_spec. }
  destruct (clock_id =? kClockProcessTime); [|done].
  pose proof (ProcessNanoseconds_eq c Hs) as Hp.
  destruct (ProcessNanoseconds c) as [c' ns]. simpl in Hp. subst ns.
  split; [done|]. apply UnsignedNanosecondsToTimespec_spec.
Qed.
End clock.

(** A deterministic source, as the tests inject: one microsecond passes between
    readings. *)
Definition test_clock : ClockSource := {|
  source_realtime n := (1700000000000000000 + 1000 * Z.of_nat n) `min` (2 ^ 63 - 1);
  source_monotonic n := (1000 * Z.of_nat n) `min` u64_max
|}.

#[export] Instance test_clock_laws : @ClockSourceLaws test_clock.
Proof.
  pose proof u64_max_eq. split; intros; unfold is_u64, source_realtime, source_monotonic,
    test_clock; lia.
Qed.

Lemma ClockGettime_exact_witness :
  timespec_denotes (@ClockGettime test_clock (mkClock 0 5) kClockMonotonic).2.2 5000.
Proof.
  pose proof (@ClockGettime_exact test_clock _ (mkClock 0 5) kClockMonotonic
                ltac:(simpl; u64_lia)) as Hw.
  exact (proj2 Hw).
Defined.
