(* ===== verification/Scheduler.v ===== *)
(** [kernel::GuestScheduler] ([src/kernel/guest_scheduler.cpp]).

    One cooperative scheduler owns every guest thread.  All operations hold
    [mutex_], so each is one transition of the kernel core: the handle table,
    the scheduler and the clock that all services share. *)
From S2P Require Import Prelude Ranges OrderedMap WaitKeys HandleTable Objects.
From S2P Require Import Clock.

Definition kMaximumGuestThreadNameLength : nat := 31.

Inductive GuestThreadState := kReady | kRunning | kBlocked | kExited.

#[global] Instance GuestThreadState_eq_dec : EqDecision GuestThreadState.
Proof. solve_decision. Defined.

Record GuestThread := mkGuestThread {
  th_name : string;
  th_priority : Z;
  th_state : GuestThreadState;
  th_wait_key : string;
  th_exit_value : Z;
  th_entry_address : Z;
  th_argument : Z;
  th_wait_deadline : option Z;
  th_timed_out_wait_key : string
}.

Record GuestScheduler := mkScheduler {
  threads_ : list (Z * GuestThread);
  ready_threads_ : list Z;
  current_thread_ : option Z
}.

(** The state the kernel services share. *)
Record Kernel := mkKernel {
  handles_ : HandleTable kobject;
  scheduler_ : GuestScheduler;
  clock_ : KernelClockService
}.

Definition with_handles (k : Kernel) h := mkKernel h (scheduler_ k) (clock_ k).
Definition with_scheduler (k : Kernel) s := mkKernel (handles_ k) s (clock_ k).
Definition with_clock (k : Kernel) c := mkKernel (handles_ k) (scheduler_ k) c.

(** ** Field assignments *)

(** state = kReady; wait_key, deadline and timed-out key cleared. *)
Definition make_woken (t : GuestThread) : GuestThread :=
  mkGuestThread (th_name t) (th_priority t) kReady EmptyString (th_exit_value t)
    (th_entry_address t) (th_argument t) None EmptyString.

(** state = kReady; timed_out_wait_key = wait_key; wait_key, deadline cleared. *)
Definition make_expired (t : GuestThread) : GuestThread :=
  mkGuestThread (th_name t) (th_priority t) kReady EmptyString (th_exit_value t)
    (th_entry_address t) (th_argument t) None (th_wait_key t).

Definition make_blocked (key : string) (deadline : option Z) (t : GuestThread) : GuestThread :=
  mkGuestThread (th_name t) (th_priority t) kBlocked key (th_exit_value t)
    (th_entry_address t) (th_argument t) deadline EmptyString.

Definition set_state (st : GuestThreadState) (t : GuestThread) : GuestThread :=
  mkGuestThread (th_name t) (th_priority t) st (th_wait_key t) (th_exit_value t)
    (th_entry_address t) (th_argument t) (th_wait_deadline t) (th_timed_out_wait_key t).

Definition make_exited (exit_value : Z) (t : GuestThread) : GuestThread :=
  mkGuestThread (th_name t) (th_priority t) kExited EmptyString exit_value
    (th_entry_address t) (th_argument t) None EmptyString.

Definition clear_timed_out (t : GuestThread) : GuestThread :=
  mkGuestThread (th_name t) (th_priority t) (th_state t) (th_wait_key t) (th_exit_value t)
    (th_entry_address t) (th_argument t) (th_wait_deadline t) EmptyString.

Definition new_thread (name : string) (priority entry argument : Z) : GuestThread :=
  mkGuestThread name priority kReady EmptyString 0 entry argument None EmptyString.

Definition state_is (st : GuestThreadState) (t : GuestThread) : bool :=
  bool_decide (th_state t = st).

Definition blocked_on (key : string) (t : GuestThread) : bool :=
  state_is kBlocked t && bool_decide (th_wait_key t = key).

Definition expired_at (now : Z) (t : GuestThread) : bool :=
  state_is kBlocked t &&
  match th_wait_deadline t with Some d => d <=? now | None => false end.

(** ** Loops over [threads_] in handle order *)

(** [for (auto &[handle, thread] : threads_)]: threads that satisfy [p] are
    changed by [f] and pushed on the ready queue; an optional limit stops the
    loop.  Returns the new map and the handles pushed, in order. *)
Fixpoint wake_loop (p : GuestThread -> bool) (f : GuestThread -> GuestThread)
    (maximum : option Z) (count : Z) (ts : list (Z * GuestThread))
    : list (Z * GuestThread) * list Z :=
  match ts with
  | [] => ([], [])
  | (h, t) :: rest =>
      if (match maximum with Some m => count =? m | None => false end) then (ts, [])
      else if p t then
        let '(rest', woken) := wake_loop p f maximum (count + 1) rest in
        ((h, f t) :: rest', h :: woken)
      else
        let '(rest', woken) := wake_loop p f maximum count rest in
        ((h, t) :: rest', woken)
  end.

Definition wake_threads p f maximum (s : GuestScheduler) : GuestScheduler * list Z :=
  let '(ts, woken) := wake_loop p f maximum 0 (threads_ s) in
  (mkScheduler ts (ready_threads_ s ++ woken) (current_thread_ s), woken).

Section operations.
Context `{ClockSource}.
Implicit Types (k : Kernel) (s : GuestScheduler).

Definition WakeExpiredThreadsLocked (now : Z) s : GuestScheduler :=
  (wake_threads (expired_at now) make_expired None s).1.

(** [WakeExpiredThreadsLocked(clock_.MonotonicNanoseconds())]. *)
Definition wake_expired_now k : Kernel :=
  let '(c, now) := MonotonicNanoseconds (clock_ k) in
  mkKernel (handles_ k) (WakeExpiredThreadsLocked now (scheduler_ k)) c.

Definition CreateThread (name : string) (priority entry_address argument : Z) k
    : Kernel * (KernelStatus * Z) :=
  if (kMaximumGuestThreadNameLength <? String.length name)%nat
  then (k, (kInvalidArgument, kInvalidKernelHandle))
  else
    let '(table, handle) := Insert (Some OThread) (handles_ k) in
    match handle with
    | None => (with_handles k table, (kNoResources, kInvalidKernelHandle))
    | Some h =>
        let s := scheduler_ k in
        let thread := new_thread name priority entry_address argument in
        (mkKernel table
           (mkScheduler (om_emplace h thread (threads_ s)) (ready_threads_ s ++ [h])
              (current_thread_ s)) (clock_ k),
         (kOk, h))
    end.

Definition DiscardReadyThread (handle : Z) k : Kernel * bool :=
  let s := scheduler_ k in
  match om_find handle (threads_ s) with
  | None => (k, false)
  | Some t =>
      if negb (state_is kReady t) then (k, false)
      else
        let '(table, removed) := Remove handle kThread (handles_ k) in
        match removed with
        | None => (with_handles k table, false)
        | Some _ =>
            (mkKernel table
               (mkScheduler (om_erase handle (threads_ s))
                  (List.filter (fun h => negb (h =? handle)) (ready_threads_ s))
                  (current_thread_ s)) (clock_ k), true)
        end
  end.

(** [while (!ready_threads_.empty())]: stale entries are dropped. *)
Fixpoint select_loop (ts : list (Z * GuestThread)) (ready : list Z)
    : list (Z * GuestThread) * list Z * option Z :=
  match ready with
  | [] => (ts, [], None)
  | h :: rest =>
      match om_find h ts with
      | Some t =>
          if state_is kReady t then (om_update h (set_state kRunning) ts, rest, Some h)
          else select_loop ts rest
      | None => select_loop ts rest
      end
  end.

Definition SelectNext k : Kernel * option Z :=
  match current_thread_ (scheduler_ k) with
  | Some _ => (k, None)
  | None =>
      let k' := wake_expired_now k in
      let s := scheduler_ k' in
      let '(ts, ready, picked) := select_loop (threads_ s) (ready_threads_ s) in
      (with_scheduler k' (mkScheduler ts ready picked), picked)
  end.

(** The running thread and its record, when there is one. *)
Definition running_thread s : option (Z * GuestThread) :=
  match current_thread_ s with
  | None => None
  | Some h =>
      match om_find h (threads_ s) with
      | Some t => if state_is kRunning t then Some (h, t) else None
      | None => None
      end
  end.

Definition YieldCurrent k : Kernel * bool :=
  let s := scheduler_ k in
  match running_thread s with
  | None => (k, false)
  | Some (h, _) =>
      (with_scheduler k
         (mkScheduler (om_update h (set_state kReady) (threads_ s))
            (ready_threads_ s ++ [h]) None), true)
  end.

Definition BlockCurrentLocked (wait_key : string) (deadline : option Z) k : Kernel * bool :=
  let s := scheduler_ k in
  if bool_decide (wait_key = EmptyString) then (k, false)
  else
    match running_thread s with
    | None => (k, false)
    | Some (h, _) =>
        (with_scheduler k
           (mkScheduler (om_update h (make_blocked wait_key deadline) (threads_ s))
              (ready_threads_ s) None), true)
    end.

Definition BlockCurrent (wait_key : string) k := BlockCurrentLocked wait_key None k.

Definition BlockCurrentUntil (wait_key : string) (deadline : Z) k :=
  BlockCurrentLocked wait_key (Some deadline) k.

Definition WakeBlockedThreads (wait_key : string) (maximum_count : Z) k : Kernel * Z :=
  if bool_decide (wait_key = EmptyString) || (maximum_count =? 0) then (k, 0)
  else
    let k' := wake_expired_now k in
    let '(s, woken) := wake_threads (blocked_on wait_key) make_woken (Some maximum_count)
                         (scheduler_ k') in
    (with_scheduler k' s, Z.of_nat (length woken)).

Definition WakeBlockedThread (handle : Z) (wait_key : string) k : Kernel * bool :=
  if (handle =? kInvalidKernelHandle) || bool_decide (wait_key = EmptyString)
  then (k, false)
  else
    let k' := wake_expired_now k in
    let s := scheduler_ k' in
    match om_find handle (threads_ s) with
    | Some t =>
        if blocked_on wait_key t then
          (with_scheduler k'
             (mkScheduler (om_update handle make_woken (threads_ s))
                (ready_threads_ s ++ [handle]) (current_thread_ s)), true)
        else (k', false)
    | None => (k', false)
    end.

(** The result pair is [GuestThreadJoinResult{status, exit_value}]. *)
Definition JoinThread (handle : Z) k : Kernel * (KernelStatus * Z) :=
  let s := scheduler_ k in
  match om_find handle (threads_ s) with
  | None => (k, (kNotFound, 0))
  | Some target =>
      if state_is kExited target then (k, (kOk, th_exit_value target))
      else match current_thread_ s with
      | None => (k, (kBusy, 0))
      | Some current =>
          if current =? handle then (k, (kInvalidArgument, 0))
          else match om_find current (threads_ s) with
          | Some caller =>
              if state_is kRunning caller then
                (with_scheduler k
                   (mkScheduler
                      (om_update current (make_blocked (ThreadExitWaitKey handle) None)
                         (threads_ s))
                      (ready_threads_ s) None), (kWouldBlock, 0))
              else (k, (kBusy, 0))
          | None => (k, (kBusy, 0))
          end
      end
  end.

Definition ExitCurrent (exit_value : Z) k : Kernel * bool :=
  let s := scheduler_ k in
  match running_thread s with
  | None => (k, false)
  | Some (h, _) =>
      let s1 := mkScheduler (om_update h (make_exited exit_value) (threads_ s))
                  (ready_threads_ s) (current_thread_ s) in
      let '(s2, _) := wake_threads (blocked_on (ThreadExitWaitKey h)) make_woken None s1 in
      (with_scheduler k (mkScheduler (threads_ s2) (ready_threads_ s2) None), true)
  end.

Definition CurrentThreadTimedOut (wait_key : string) k : bool :=
  if bool_decide (wait_key = EmptyString) then false
  else match running_thread (scheduler_ k) with
       | Some (_, t) => bool_decide (th_timed_out_wait_key t = wait_key)
       | None => false
       end.

Definition ConsumeCurrentThreadTimeout (wait_key : string) k : Kernel * bool :=
  let s := scheduler_ k in
  if bool_decide (wait_key = EmptyString) then (k, false)
  else match running_thread s with
       | Some (h, t) =>
           if bool_decide (th_timed_out_wait_key t = wait_key) then
             (with_scheduler k
                (mkScheduler (om_update h clear_timed_out (threads_ s)) (ready_threads_ s)
                   (current_thread_ s)), true)
           else (k, false)
       | None => (k, false)
       end.

(** [GuestThreadSnapshot]: the handle with the thread's public fields. *)
Definition Snapshot (handle : Z) k : option (Z * GuestThread) :=
  match om_find handle (threads_ (scheduler_ k)) with
  | Some t => Some (handle, t)
  | None => None
  end.

Definition SnapshotAll k : list (Z * GuestThread) := threads_ (scheduler_ k).
End operations.

Definition Scheduler_init : GuestScheduler := mkScheduler [] [] None.
