(* ===== verification/SchedulerInv.v ===== *)
(** The scheduler's invariant, preserved by every operation, and what it
    implies: one running thread, a ready queue that holds each ready thread
    exactly once, FIFO selection, wake-ups in handle order, join and exit. *)
From S2P Require Import Prelude Ranges OrderedMap WaitKeys HandleTable Objects.
From S2P Require Import Clock Scheduler.

(** ** The wake loop *)

Section wake_loop.
Implicit Types (ts : list (Z * GuestThread)).

(** Handles of the threads that satisfy [p], in handle order. *)
Definition matching (p : GuestThread -> bool) ts : list Z :=
  (List.filter (fun e => p e.2) ts).*1.

Lemma matching_elem p ts h :
  om_sorted ts -> h ∈ matching p ts <-> exists t, om_find h ts = Some t /\ p t = true.
Proof.
  intros Hs. unfold matching. rewrite list_elem_of_fmap. split.
  - intros ([h' t] & -> & Hin). rewrite list_elem_of_In, filter_In in Hin.
    destruct Hin as [Hin Hp]. exists t. split; [|done].
    apply om_find_iff; [done|]. by rewrite list_elem_of_In.
  - intros (t & Hf & Hp). exists (h, t). split; [done|].
    rewrite list_elem_of_In, filter_In. split; [|done].
    rewrite <- list_elem_of_In. by apply om_find_elem.
Qed.

Lemma sorted_keys_lt ts : om_sorted ts -> StronglySorted Z.lt ts.*1.
Proof.
  induction ts as [|e ts IH]; [constructor|]. intros [Hs Hlt]%om_sorted_cons.
  simpl. constructor; [by apply IH|]. rewrite Forall_forall.
  intros x (e' & -> & He')%list_elem_of_fmap. auto.
Qed.

Lemma StronglySorted_sublist {A} (R : relation A) (l1 l2 : list A) :
  l1 `sublist_of` l2 -> StronglySorted R l2 -> StronglySorted R l1.
Proof.
  induction 1 as [|x l1 l2 Hsub IH|x l1 l2 Hsub IH]; intros Hs.
  - done.
  - apply StronglySorted_inv in Hs as [Hs Hf]. constructor; [by apply IH|].
    rewrite Forall_forall in Hf |- *. intros y Hy. apply Hf.
    by eapply elem_of_sublist.
  - apply StronglySorted_inv in Hs as [Hs _]. auto.
Qed.

Lemma sublist_fmap_keys {A B} (g : A -> B) (l1 l2 : list A) :
  l1 `sublist_of` l2 -> (g <$> l1) `sublist_of` (g <$> l2).
Proof.
  induction 1; simpl; [done | by apply sublist_skip | by apply sublist_cons].
Qed.

Lemma matching_sorted p ts : om_sorted ts -> StronglySorted Z.lt (matching p ts).
Proof.
  intros Hs. eapply StronglySorted_sublist; [|by apply sorted_keys_lt].
  apply sublist_fmap_keys, filter_sublist.
Qed.

Lemma StronglySorted_lt_NoDup (l : list Z) : StronglySorted Z.lt l -> NoDup l.
Proof.
  induction 1 as [|x l Hs IH Hf]; constructor; [|done].
  rewrite Forall_forall in Hf. intros Hin. apply Hf in Hin. lia.
Qed.

(** How many of the matching threads the limit lets through. *)
Definition budget (maximum : option Z) (count : Z) (l : list Z) : list Z :=
  match maximum with None => l | Some m => take (Z.to_nat (m - count)) l end.

Lemma wake_loop_woken p f maximum count ts :
  match maximum with Some m => count <= m | None => True end ->
  (wake_loop p f maximum count ts).2 = budget maximum count (matching p ts).
Proof.
  revert count. induction ts as [|[h t] ts IH]; intros count Hle.
  { destruct maximum; [|done]. unfold budget, matching. simpl. by rewrite firstn_nil. }
  unfold matching in *. cbn [wake_loop List.filter].
  destruct maximum as [m|]; simpl in *.
  - destruct (count =? m) eqn:E.
    { simpl. replace (Z.to_nat (m - count)) with O by lia. done. }
    destruct (p t) eqn:Ep.
    + specialize (IH (count + 1) ltac:(lia)).
      destruct (wake_loop p f (Some m) (count + 1) ts) as [r w]. simpl in *. subst w.
      replace (Z.to_nat (m - count)) with (S (Z.to_nat (m - (count + 1)))) by lia. done.
    + specialize (IH count ltac:(lia)).
      destruct (wake_loop p f (Some m) count ts) as [r w]. simpl in *. done.
  - destruct (p t) eqn:Ep.
    + specialize (IH (count + 1) I).
      destruct (wake_loop p f None (count + 1) ts) as [r w]. simpl in *. by subst w.
    + specialize (IH count I).
      destruct (wake_loop p f None count ts) as [r w]. simpl in *. done.
Qed.

Lemma wake_loop_keys p f maximum count ts :
  (wake_loop p f maximum count ts).1.*1 = ts.*1 /\
  (wake_loop p f maximum count ts).2 `sublist_of` ts.*1.
Proof.
  revert count. induction ts as [|[h t] ts IH]; intros count; [done|].
  cbn [wake_loop].
  destruct (match maximum with Some m => count =? m | None => false end);
    [split; [done|apply sublist_nil_l]|].
  destruct (p t).
  - specialize (IH (count + 1)). destruct (wake_loop _ _ _ _ ts) as [r w]. simpl in *.
    destruct IH as [IH1 Hsub]. split; [by f_equal|by apply sublist_skip].
  - specialize (IH count). destruct (wake_loop _ _ _ _ ts) as [r w]. simpl in *.
    destruct IH as [IH1 Hsub]. split; [by f_equal|by apply sublist_cons].
Qed.

Lemma wake_loop_find p f maximum count ts h :
  om_sorted ts ->
  om_find h (wake_loop p f maximum count ts).1 =
  (fun t => if decide (h ∈ (wake_loop p f maximum count ts).2) then f t else t)
    <$> om_find h ts.
Proof.
  revert count. induction ts as [|[h' t] ts IH]; intros count Hs; [done|].
  apply om_sorted_cons in Hs as [Hs Hlt]. simpl in Hlt.
  assert (Hself : om_find h' ts = None).
  { apply om_find_None. intros e He. apply Hlt in He. lia. }
  cbn [wake_loop].
  destruct (match maximum with Some m => count =? m | None => false end).
  { cbn [fst snd]. destruct (om_find h ((h', t) :: ts)); done. }
  assert (Hw : forall c, h' ∉ (wake_loop p f maximum c ts).2).
  { intros c Hin. destruct (wake_loop_keys p f maximum c ts) as [_ Hsub].
    apply (elem_of_sublist _ _ _ Hin) in Hsub as ((k & v) & -> & He)%list_elem_of_fmap.
    apply Hlt in He. simpl in He. lia. }
  destruct (p t).
  - specialize (IH (count + 1) Hs). specialize (Hw (count + 1)).
    destruct (wake_loop _ _ _ _ ts) as [r w]. simpl in *.
    rewrite !om_find_cons. simpl. destruct (decide (h' = h)) as [->|Hne].
    + simpl. rewrite decide_True; [done|apply list_elem_of_here].
    + rewrite IH. destruct (om_find h ts); simpl; [|done]. f_equal.
      destruct (decide (h ∈ w)) as [Hin|Hin].
      * rewrite decide_True; [done|]. apply elem_of_cons. by right.
      * rewrite decide_False; [done|]. intros [->|]%elem_of_cons; done.
  - specialize (IH count Hs). specialize (Hw count).
    destruct (wake_loop _ _ _ _ ts) as [r w]. simpl in *.
    rewrite !om_find_cons. simpl. destruct (decide (h' = h)) as [->|Hne].
    + simpl. by rewrite decide_False.
    + exact IH.
Qed.

Lemma keys_sorted_om ts ts' : ts'.*1 = ts.*1 -> om_sorted ts -> om_sorted ts'.
Proof.
  revert ts. induction ts' as [|e' ts' IH]; intros [|e ts]; try done.
  rewrite !fmap_cons. intros [= He Hks] [Hs Hlt]%om_sorted_cons. apply om_sorted_cons.
  split; [by eapply IH|]. intros x Hx.
  assert (Hk : x.1 ∈ ts'.*1) by (apply list_elem_of_fmap; eauto).
  rewrite Hks in Hk. apply list_elem_of_fmap in Hk as (y & Hy & Hyin).
  rewrite Hy, He. auto.
Qed.
End wake_loop.

(** ** The invariant *)

Record thread_ok (t : GuestThread) : Prop := {
  to_blocked : th_state t = kBlocked <-> th_wait_key t <> EmptyString;
  to_deadline : th_wait_deadline t <> None -> th_state t = kBlocked;
  to_timeout : th_timed_out_wait_key t <> EmptyString ->
    th_state t = kReady \/ th_state t = kRunning
}.

Definition in_state (s : GuestScheduler) (h : Z) (st : GuestThreadState) : Prop :=
  exists t, om_find h (threads_ s) = Some t /\ th_state t = st.

Record sched_ok (s : GuestScheduler) : Prop := {
  so_sorted : om_sorted (threads_ s);
  so_nodup : NoDup (ready_threads_ s);
  so_ready h : h ∈ ready_threads_ s <-> in_state s h kReady;
  so_current h : current_thread_ s = Some h <-> in_state s h kRunning;
  so_thread h t : om_find h (threads_ s) = Some t -> thread_ok t
}.

Record kernel_ok (k : Kernel) : Prop := {
  ko_table : table_ok (handles_ k);
  ko_sched : sched_ok (scheduler_ k);
  ko_threads h : is_Some (om_find h (threads_ (scheduler_ k))) <->
                 objects_ (handles_ k) !! h = Some OThread
}.

Lemma thread_ok_woken t : thread_ok (make_woken t).
Proof. by split. Qed.

Lemma thread_ok_expired t : thread_ok (make_expired t).
Proof. split; simpl; [done|done|by left]. Qed.

Lemma thread_ok_blocked key d t : key <> EmptyString -> thread_ok (make_blocked key d t).
Proof. by split. Qed.

Lemma thread_ok_exited v t : thread_ok (make_exited v t).
Proof. by split. Qed.

Lemma thread_ok_new n p e a : thread_ok (new_thread n p e a).
Proof. by split. Qed.

Lemma thread_ok_set_ready t : th_state t = kRunning -> thread_ok t -> thread_ok (set_state kReady t).
Proof.
  intros Hr [H1 H2 H3]. split; simpl.
  - split; [done|]. intros Hk. apply H1 in Hk. congruence.
  - intros Hd. apply H2 in Hd. congruence.
  - by left.
Qed.

Lemma thread_ok_set_running t : th_state t = kReady -> thread_ok t -> thread_ok (set_state kRunning t).
Proof.
  intros Hr [H1 H2 H3]. split; simpl.
  - split; [done|]. intros Hk. apply H1 in Hk. congruence.
  - intros Hd. apply H2 in Hd. congruence.
  - by right.
Qed.

Lemma thread_ok_clear t : thread_ok t -> thread_ok (clear_timed_out t).
Proof. intros [H1 H2 H3]. by split. Qed.

#[export] Hint Resolve thread_ok_woken thread_ok_expired thread_ok_blocked
  thread_ok_exited thread_ok_new thread_ok_set_ready thread_ok_set_running
  thread_ok_clear : kernel.

Lemma state_is_true st t : state_is st t = true <-> th_state t = st.
Proof. apply bool_decide_eq_true. Qed.

Lemma running_thread_Some s h t :
  running_thread s = Some (h, t) <->
  current_thread_ s = Some h /\ om_find h (threads_ s) = Some t /\ th_state t = kRunning.
Proof.
  unfold running_thread. destruct (current_thread_ s) as [h'|]; [|naive_solver].
  destruct (om_find h' (threads_ s)) as [t'|] eqn:E; [|naive_solver].
  destruct (state_is kRunning t') eqn:Es.
  - apply state_is_true in Es. naive_solver.
  - assert (th_state t' <> kRunning) by (rewrite <- state_is_true; congruence).
    naive_solver.
Qed.

Lemma Scheduler_init_ok : sched_ok Scheduler_init.
Proof.
  split; simpl; [constructor|constructor| | |done].
  - intros h. split; [by intros ?%elem_of_nil|by intros (? & ? & _)].
  - intros h. split; [done|by intros (? & ? & _)].
Qed.

Section update.
Context (s : GuestScheduler) (Hok : sched_ok s).

Lemma in_state_fun h st st' : in_state s h st -> in_state s h st' -> st = st'.
Proof. unfold in_state. naive_solver. Qed.

(** Changing one thread from state [a] to state [b]. *)
Lemma update_in_state h f t b ready current h' st :
  om_find h (threads_ s) = Some t -> th_state (f t) = b ->
  in_state (mkScheduler (om_update h f (threads_ s)) ready current) h' st <->
  (if decide (h' = h) then st = b else in_state s h' st).
Proof.
  intros Hh Hb. unfold in_state. simpl. rewrite om_find_update.
  case_decide as Hd; [|done]. subst h'. rewrite Hh. simpl. naive_solver.
Qed.

Lemma update_ok h f t ready current :
  om_find h (threads_ s) = Some t -> thread_ok (f t) -> NoDup ready ->
  (forall h', h' ∈ ready <->
     if decide (h' = h) then kReady = th_state (f t) else in_state s h' kReady) ->
  (forall h', current = Some h' <->
     if decide (h' = h) then kRunning = th_state (f t) else in_state s h' kRunning) ->
  sched_ok (mkScheduler (om_update h f (threads_ s)) ready current).
Proof.
  intros Hh Hf Hnd Hr Hc. split; simpl.
  - apply om_update_sorted, Hok.
  - done.
  - intros h'. rewrite Hr. by rewrite (update_in_state h f t (th_state (f t))).
  - intros h'. rewrite Hc. by rewrite (update_in_state h f t (th_state (f t))).
  - intros h' t'. rewrite om_find_update. case_decide.
    + subst h'. rewrite Hh. simpl. intros [= <-]. done.
    + apply (so_thread _ Hok).
Qed.

Lemma running_not_ready h : in_state s h kRunning -> h ∉ ready_threads_ s.
Proof. intros Hr Hin%(so_ready _ Hok). by pose proof (in_state_fun _ _ _ Hr Hin). Qed.

(** Only the current thread runs. *)
Lemma running_unique h h' :
  current_thread_ s = Some h -> in_state s h' kRunning -> h' = h.
Proof. intros Hc Hr%(so_current _ Hok). congruence. Qed.
End update.

Lemma wake_threads_ok p f maximum s :
  sched_ok s ->
  (forall t, p t = true -> th_state t = kBlocked) ->
  (forall t, th_state (f t) = kReady) -> (forall t, thread_ok (f t)) ->
  match maximum with Some m => 0 <= m | None => True end ->
  sched_ok (wake_threads p f maximum s).1.
Proof.
  intros Hok Hp Hst Hf Hm. unfold wake_threads.
  pose proof (wake_loop_keys p f maximum 0 (threads_ s)) as [Hk _].
  pose proof (wake_loop_woken p f maximum 0 (threads_ s)) as Hw.
  pose proof (fun h => wake_loop_find p f maximum 0 (threads_ s) h (so_sorted _ Hok)) as Hfind.
  specialize (Hw ltac:(by destruct maximum)).
  destruct (wake_loop p f maximum 0 (threads_ s)) as [ts w]. simpl in *.
  assert (Hsub : w `sublist_of` matching p (threads_ s)).
  { rewrite Hw. unfold budget. destruct maximum; [apply sublist_take|done]. }
  assert (Hwb : forall h, h ∈ w -> in_state s h kBlocked).
  { intros h Hin. apply (elem_of_sublist _ _ _ Hin) in Hsub.
    apply matching_elem in Hsub as (t & Ht & Hpt); [|apply Hok].
    exists t. split; [done|by apply Hp]. }
  assert (Hnd : NoDup w).
  { eapply sublist_NoDup; [|exact Hsub].
    apply StronglySorted_lt_NoDup, matching_sorted, Hok. }
  assert (Hin : forall h st, in_state (mkScheduler ts (ready_threads_ s ++ w) (current_thread_ s)) h st
     <-> if decide (h ∈ w) then st = kReady else in_state s h st).
  { intros h st. unfold in_state. simpl. rewrite Hfind. case_decide as Hd.
    - destruct (Hwb h Hd) as (t & Ht & _). rewrite Ht. simpl. split.
      + intros (t' & [= <-] & <-). by rewrite Hst.
      + intros ->. exists (f t). by rewrite Hst.
    - destruct (om_find h (threads_ s)); simpl; naive_solver. }
  split.
  - simpl. eapply keys_sorted_om; [exact Hk|apply Hok].
  - simpl. apply NoDup_app. split_and!; [apply Hok| |done].
    intros h Hr%(so_ready _ Hok) Hw'%Hwb. by pose proof (in_state_fun _ _ _ _ Hr Hw').
  - intros h. rewrite Hin. simpl. rewrite elem_of_app, (so_ready _ Hok).
    case_decide as Hd; [naive_solver|]. naive_solver.
  - intros h. rewrite Hin. simpl. rewrite (so_current _ Hok).
    case_decide as Hd; [|done]. split; [|done].
    intros Hr. by pose proof (in_state_fun _ _ _ _ Hr (Hwb h Hd)).
  - intros h t. simpl. rewrite Hfind. destruct (om_find h (threads_ s)) as [t0|] eqn:E; [|done].
    simpl. intros [= <-]. case_decide; [apply Hf|]. by apply (so_thread _ Hok h).
Qed.

(** ** Every operation preserves the invariant *)

Lemma om_find_is_Some_keys (ts ts' : list (Z * GuestThread)) h :
  ts'.*1 = ts.*1 -> is_Some (om_find h ts') <-> is_Some (om_find h ts).
Proof.
  revert ts. induction ts' as [|e' ts' IH]; intros [|e ts]; try done.
  rewrite !fmap_cons. intros [= He Hks]. rewrite !om_find_cons, He.
  case_decide; [by split; eauto|]. by apply IH.
Qed.

Lemma with_scheduler_ok k c s :
  kernel_ok k -> sched_ok s ->
  (threads_ s).*1 = (threads_ (scheduler_ k)).*1 ->
  kernel_ok (mkKernel (handles_ k) s c).
Proof.
  intros Hk Hs Hkeys. split; simpl; [apply Hk|done|].
  intros h. rewrite <- (ko_threads _ Hk). by apply om_find_is_Some_keys.
Qed.

Section preservation.
Context `{ClockSource}.
Implicit Types (k : Kernel).

Lemma expired_blocked now t : expired_at now t = true -> th_state t = kBlocked.
Proof. unfold expired_at. intros [Hb _]%andb_true_iff. by apply state_is_true. Qed.

Lemma blocked_on_true key t :
  blocked_on key t = true <-> th_state t = kBlocked /\ th_wait_key t = key.
Proof.
  unfold blocked_on. rewrite andb_true_iff, state_is_true, bool_decide_eq_true. done.
Qed.

Lemma wake_threads_keys p f m s :
  (threads_ (wake_threads p f m s).1).*1 = (threads_ s).*1.
Proof.
  unfold wake_threads. pose proof (wake_loop_keys p f m 0 (threads_ s)) as [Hk _].
  by destruct (wake_loop p f m 0 (threads_ s)).
Qed.

Lemma wake_expired_now_ok k : kernel_ok k -> kernel_ok (wake_expired_now k).
Proof.
  intros Hk. unfold wake_expired_now. simpl. apply with_scheduler_ok; [done| |].
  - apply wake_threads_ok; [apply Hk|apply expired_blocked|done|auto with kernel|done].
  - apply wake_threads_keys.
Qed.

Lemma wake_woken_ok key m k :
  kernel_ok k -> match m with Some m => 0 <= m | None => True end ->
  kernel_ok (with_scheduler k (wake_threads (blocked_on key) make_woken m (scheduler_ k)).1).
Proof.
  intros Hk Hm. apply with_scheduler_ok; [done| |apply wake_threads_keys].
  apply wake_threads_ok; [apply Hk| |done|auto with kernel|done].
  by intros t [Hb _]%blocked_on_true.
Qed.

Lemma CreateThread_ok name pri entry arg k :
  kernel_ok k -> kernel_ok (CreateThread name pri entry arg k).1.
Proof.
  intros Hk. unfold CreateThread. split_match; [done|].
  pose proof (Insert_ok (Some OThread) _ (ko_table _ Hk)) as Hi.
  pose proof (Insert_frame (Some OThread) (handles_ k)) as Hfr.
  pose proof (fun h => Insert_Find (Some OThread) (handles_ k) h kThread (ko_table _ Hk)) as Hfnd.
  assert (Hfresh : forall h, (Insert (Some OThread) (handles_ k)).2 = Some h ->
            objects_ (handles_ k) !! h = None).
  { intros h. simpl. destruct (exhausted_ (handles_ k)) eqn:He; [done|].
    simpl. intros [= <-]. apply next_handle_fresh; [apply Hk|done]. }
  destruct (Insert (Some OThread) (handles_ k)) as [tbl [h|]] eqn:Ei; simpl in *.
  2:{ split; simpl; [done|apply Hk|]. intros h. rewrite (ko_threads _ Hk), Hfr; done. }
  specialize (Hfnd h eq_refl). apply Find_Some in Hfnd as (_ & Hl & _).
  assert (Hnone : om_find h (threads_ (scheduler_ k)) = None).
  { destruct (om_find h (threads_ (scheduler_ k))) eqn:E'; [|done].
    pose proof (proj1 (ko_threads _ Hk h) ltac:(eauto)) as Hl'. by rewrite Hfresh in Hl'. }
  pose proof (ko_sched _ Hk) as Hs.
  assert (Hnr : h ∉ ready_threads_ (scheduler_ k)).
  { intros (t & Ht & _)%(so_ready _ Hs). congruence. }
  split; simpl; [done| |].
  - split; simpl.
    + apply om_emplace_sorted, Hs.
    + apply NoDup_app. split_and!; [apply Hs| |apply NoDup_singleton].
      intros x Hx ->%list_elem_of_singleton. done.
    + intros h'. rewrite elem_of_app, list_elem_of_singleton, (so_ready _ Hs).
      unfold in_state. simpl. rewrite om_find_emplace by (apply Hs || done).
      case_decide as Hd; [subst h'|naive_solver].
      split; [|auto]. intros _. eexists. by split.
    + intros h'. rewrite (so_current _ Hs). unfold in_state. simpl.
      rewrite om_find_emplace by (apply Hs || done).
      case_decide as Hd; [subst h'|done]. rewrite Hnone. naive_solver.
    + intros h' t. rewrite om_find_emplace by (apply Hs || done).
      case_decide; [intros [= <-]; auto with kernel|apply (so_thread _ Hs)].
  - intros h'. rewrite om_find_emplace by (apply Hs || done). case_decide as Hd.
    + subst h'. split; [done|eauto].
    + rewrite (ko_threads _ Hk), Hfr; [done|congruence].
Qed.

Lemma DiscardReadyThread_ok h k : kernel_ok k -> kernel_ok (DiscardReadyThread h k).1.
Proof.
  intros Hk. unfold DiscardReadyThread. pose proof (ko_sched _ Hk) as Hs.
  destruct (om_find h (threads_ (scheduler_ k))) as [t|] eqn:Ht; [|done].
  destruct (negb (state_is kReady t)) eqn:Est; [done|].
  pose proof (Remove_ok h kThread _ (ko_table _ Hk)) as Hr.
  pose proof (Remove_lookup h kThread (handles_ k)) as Hl.
  assert (Hf : Find h kThread (handles_ k) = Some OThread).
  { apply Find_Some. assert (Hobj : objects_ (handles_ k) !! h = Some OThread)
      by (apply (ko_threads _ Hk); eauto).
    pose proof (ht_live _ (ko_table _ Hk) h _ Hobj). split_and!; [lia|done|done]. }
  assert (Hrem : (Remove h kThread (handles_ k)).2 = Some OThread).
  { unfold Remove, Find in *. repeat split_match_in Hf; simplify_eq. done. }
  destruct (Remove h kThread (handles_ k)) as [tbl r]. simpl in *. subst r. simpl.
  assert (Hready : th_state t = kReady).
  { apply state_is_true. by destruct (state_is kReady t). }
  split; simpl; [done| |].
  - split; simpl.
    + apply om_erase_sorted, Hs.
    + eapply sublist_NoDup; [apply Hs|apply filter_sublist].
    + intros h'. rewrite list_elem_of_In, filter_In, <- list_elem_of_In.
      rewrite (so_ready _ Hs). unfold in_state. simpl. rewrite om_find_erase.
      case_decide as Hd; [split; [intros [_ ?]; lia|by intros (? & ? & _)]|].
      split; [tauto|]. intros Hx. split; [done|lia].
    + intros h'. rewrite (so_current _ Hs). unfold in_state. simpl. rewrite om_find_erase.
      case_decide as Hd; [|done]. subst h'.
      split; [intros (t0 & Ht0 & Hr0); congruence|by intros (? & ? & _)].
    + intros h' t'. rewrite om_find_erase. case_decide; [done|apply (so_thread _ Hs)].
  - intros h'. rewrite om_find_erase, Hl. rewrite Hf.
    case_decide as Hd; case_bool_decide as Hb.
    + by split; [intros [? ?]|].
    + exfalso. apply Hb. split; [done|eauto].
    + destruct Hb as [-> _]. done.
    + apply (ko_threads _ Hk).
Qed.

Lemma YieldCurrent_ok k : kernel_ok k -> kernel_ok (YieldCurrent k).1.
Proof.
  intros Hk. unfold YieldCurrent. pose proof (ko_sched _ Hk) as Hs.
  destruct (running_thread (scheduler_ k)) as [[h t]|] eqn:E; [|done].
  apply running_thread_Some in E as (Hc & Ht & Hst).
  assert (Hrun : in_state (scheduler_ k) h kRunning) by (by exists t).
  apply with_scheduler_ok; [done| |apply om_update_keys].
  eapply update_ok; [done|done| | | |].
  - apply thread_ok_set_ready; [done|]. by eapply so_thread.
  - apply NoDup_app. split_and!; [apply Hs| |apply NoDup_singleton].
    intros x Hx ->%list_elem_of_singleton. by eapply running_not_ready.
  - intros h'. rewrite elem_of_app, list_elem_of_singleton, (so_ready _ Hs).
    case_decide; [by split; [|right]|]. split; [intros [|]; done|by left].
  - intros h'. case_decide as Hd; [done|]. split; [done|].
    intros Hr%(running_unique _ Hs h); done.
Qed.

Lemma block_update_ok k h t key d :
  kernel_ok k -> key <> EmptyString -> running_thread (scheduler_ k) = Some (h, t) ->
  kernel_ok (with_scheduler k
    (mkScheduler (om_update h (make_blocked key d) (threads_ (scheduler_ k)))
       (ready_threads_ (scheduler_ k)) None)).
Proof.
  intros Hk Hkey E. pose proof (ko_sched _ Hk) as Hs.
  apply running_thread_Some in E as (Hc & Ht & Hst).
  assert (Hrun : in_state (scheduler_ k) h kRunning) by (by exists t).
  apply with_scheduler_ok; [done| |apply om_update_keys].
  eapply update_ok; [done|done|auto with kernel|apply Hs| |].
  - intros h'. rewrite (so_ready _ Hs). case_decide as Hd; [|done]. subst h'.
    split; [|done]. intros Hr. by pose proof (in_state_fun _ _ _ _ Hr Hrun).
  - intros h'. case_decide as Hd; [done|]. split; [done|].
    intros Hr%(running_unique _ Hs h); done.
Qed.

Lemma BlockCurrentLocked_ok key d k : kernel_ok k -> kernel_ok (BlockCurrentLocked key d k).1.
Proof.
  intros Hk. unfold BlockCurrentLocked. case_bool_decide as Hkey; [done|].
  destruct (running_thread (scheduler_ k)) as [[h t]|] eqn:E; [|done].
  by eapply block_update_ok.
Qed.

Lemma WakeBlockedThreads_ok key m k :
  0 <= m -> kernel_ok k -> kernel_ok (WakeBlockedThreads key m k).1.
Proof.
  intros Hm Hk. unfold WakeBlockedThreads. split_match; [done|].
  pose proof (wake_woken_ok key (Some m) (wake_expired_now k)
                (wake_expired_now_ok k Hk) Hm) as Hw.
  by destruct (wake_threads _ _ _ _).
Qed.

Lemma WakeBlockedThread_ok h key k : kernel_ok k -> kernel_ok (WakeBlockedThread h key k).1.
Proof.
  intros Hk. unfold WakeBlockedThread. split_match; [done|]. clear E.
  pose proof (wake_expired_now_ok k Hk) as Hk'. set (k' := wake_expired_now k) in *.
  pose proof (ko_sched _ Hk') as Hs.
  destruct (om_find h (threads_ (scheduler_ k'))) as [t|] eqn:Ht; [|done].
  destruct (blocked_on key t) eqn:Hb; [|done]. apply blocked_on_true in Hb as [Hb _].
  assert (Hin : in_state (scheduler_ k') h kBlocked) by (by exists t).
  apply with_scheduler_ok; [done| |apply om_update_keys].
  eapply update_ok; [done|done|auto with kernel| | |].
  - apply NoDup_app. split_and!; [apply Hs| |apply NoDup_singleton].
    intros x Hx%(so_ready _ Hs) ->%list_elem_of_singleton.
    by pose proof (in_state_fun _ _ _ _ Hx Hin).
  - intros h'. rewrite elem_of_app, list_elem_of_singleton, (so_ready _ Hs).
    case_decide; [by split; [|right]|]. split; [intros [|]; done|by left].
  - intros h'. rewrite (so_current _ Hs). case_decide as Hd; [|done]. subst h'.
    split; [|done]. intros Hr. by pose proof (in_state_fun _ _ _ _ Hr Hin).
Qed.

Lemma JoinThread_ok h k : kernel_ok k -> kernel_ok (JoinThread h k).1.
Proof.
  intros Hk. unfold JoinThread.
  destruct (om_find h (threads_ (scheduler_ k))) as [t|] eqn:Ht; [|done].
  split_match; [done|].
  destruct (current_thread_ (scheduler_ k)) as [c|] eqn:Hc; [|done].
  split_match; [done|].
  destruct (om_find c (threads_ (scheduler_ k))) as [ct|] eqn:Hct; [|done].
  destruct (state_is kRunning ct) eqn:Hst; [|done]. apply state_is_true in Hst.
  eapply block_update_ok; [done|done|]. by apply running_thread_Some.
Qed.

Lemma ExitCurrent_ok v k : kernel_ok k -> kernel_ok (ExitCurrent v k).1.
Proof.
  intros Hk. unfold ExitCurrent. pose proof (ko_sched _ Hk) as Hs.
  destruct (running_thread (scheduler_ k)) as [[h t]|] eqn:E; [|done].
  apply running_thread_Some in E as (Hc & Ht & Hst).
  assert (Hrun : in_state (scheduler_ k) h kRunning) by (by exists t).
  set (s1 := mkScheduler (om_update h (make_exited v) (threads_ (scheduler_ k)))
               (ready_threads_ (scheduler_ k)) None).
  assert (Hs1 : sched_ok s1).
  { eapply update_ok; [done|done|auto with kernel|apply Hs| |].
    - intros h'. rewrite (so_ready _ Hs). case_decide as Hd; [|done]. subst h'.
      split; [|done]. intros Hr. by pose proof (in_state_fun _ _ _ _ Hr Hrun).
    - intros h'. case_decide as Hd; [done|]. split; [done|].
      intros Hr%(running_unique _ Hs h); done. }
  pose proof (wake_threads_ok (blocked_on (ThreadExitWaitKey h)) make_woken None s1 Hs1) as Hw.
  pose proof (wake_threads_keys (blocked_on (ThreadExitWaitKey h)) make_woken None s1) as Hkeys.
  unfold wake_threads in *. simpl in *.
  destruct (wake_loop _ _ _ _ _) as [ts w]. simpl in *.
  apply with_scheduler_ok; [done| |by etrans; [exact Hkeys|apply om_update_keys]].
  apply Hw; [by intros t' [Hb _]%blocked_on_true|done|auto with kernel|done].
Qed.

Lemma ConsumeCurrentThreadTimeout_ok key k :
  kernel_ok k -> kernel_ok (ConsumeCurrentThreadTimeout key k).1.
Proof.
  intros Hk. unfold ConsumeCurrentThreadTimeout. pose proof (ko_sched _ Hk) as Hs.
  case_bool_decide; [done|].
  destruct (running_thread (scheduler_ k)) as [[h t]|] eqn:E; [|done].
  apply running_thread_Some in E as (Hc & Ht & Hst).
  assert (Hrun : in_state (scheduler_ k) h kRunning) by (by exists t).
  case_bool_decide; [|done].
  apply with_scheduler_ok; [done| |apply om_update_keys].
  eapply update_ok; [done|done| |apply Hs| |].
  - apply thread_ok_clear. by eapply so_thread.
  - intros h'. rewrite (so_ready _ Hs). case_decide as Hd; [|done]. subst h'. simpl.
    rewrite Hst. split; [|done]. intros Hr. by pose proof (in_state_fun _ _ _ _ Hr Hrun).
  - intros h'. rewrite (so_current _ Hs). case_decide as Hd; [|done]. subst h'. simpl.
    by rewrite Hst.
Qed.
End preservation.

(** ** Selection *)

Section selection.
Context `{ClockSource}.
Implicit Types (k : Kernel).

(** On a consistent queue no entry is stale: the head is taken. *)
Lemma select_loop_head s :
  sched_ok s ->
  select_loop (threads_ s) (ready_threads_ s) =
  match ready_threads_ s with
  | [] => (threads_ s, [], None)
  | h :: rest => (om_update h (set_state kRunning) (threads_ s), rest, Some h)
  end.
Proof.
  intros Hs. destruct (ready_threads_ s) as [|h rest] eqn:E; [done|]. simpl.
  assert (Hin : h ∈ ready_threads_ s) by (rewrite E; apply list_elem_of_here).
  apply (so_ready _ Hs) in Hin as (t & Ht & Hst). rewrite Ht.
  by rewrite (proj2 (state_is_true kReady t) Hst).
Qed.

Lemma SelectNext_ok k : kernel_ok k -> kernel_ok (SelectNext k).1.
Proof.
  intros Hk. unfold SelectNext.
  destruct (current_thread_ (scheduler_ k)) eqn:Hc; [done|].
  pose proof (wake_expired_now_ok k Hk) as Hk'.
  assert (Hc' : current_thread_ (scheduler_ (wake_expired_now k)) = None).
  { unfold wake_expired_now, WakeExpiredThreadsLocked, wake_threads. simpl.
    by destruct (wake_loop _ _ _ _ _). }
  set (k' := wake_expired_now k) in *. pose proof (ko_sched _ Hk') as Hs.
  rewrite (select_loop_head _ Hs).
  destruct (ready_threads_ (scheduler_ k')) as [|h rest] eqn:E.
  - replace (with_scheduler k' _) with k'; [done|].
    destruct k' as [hd [ts rd cu] cl]. simpl in *. by subst.
  - assert (Hin : h ∈ ready_threads_ (scheduler_ k')) by (rewrite E; apply list_elem_of_here).
    apply (so_ready _ Hs) in Hin as Hin'. destruct Hin' as (t & Ht & Hst).
    pose proof (so_nodup _ Hs) as Hnd. rewrite E in Hnd. apply NoDup_cons in Hnd as [Hnin Hnd].
    apply with_scheduler_ok; [done| |apply om_update_keys].
    eapply update_ok; [done|done| |done| |].
    + apply thread_ok_set_running; [done|]. by eapply so_thread.
    + intros h'. pose proof (so_ready _ Hs h') as Hr. rewrite E, elem_of_cons in Hr.
      case_decide as Hd; [subst h'; by split|]. rewrite <- Hr. naive_solver.
    + intros h'. case_decide as Hd; [subst h'; by split|].
      rewrite <- (so_current _ Hs), Hc'. naive_solver.
Qed.

(** The ready queue after expired waits have been released: they go to the
    back, in handle order. *)
Definition ready_after_expiry k : list Z :=
  ready_threads_ (scheduler_ k) ++
  matching (expired_at (source_monotonic (clock_reads (clock_ k)))) (threads_ (scheduler_ k)).

Lemma wake_expired_ready k :
  ready_threads_ (scheduler_ (wake_expired_now k)) = ready_after_expiry k.
Proof.
  unfold wake_expired_now, WakeExpiredThreadsLocked, wake_threads, ready_after_expiry. simpl.
  pose proof (wake_loop_woken (expired_at (source_monotonic (clock_reads (clock_ k))))
    make_expired None 0 (threads_ (scheduler_ k)) I) as Hw.
  destruct (wake_loop _ _ _ _ _) as [ts w]. simpl in *. by subst w.
Qed.

Lemma wake_expired_find k h :
  kernel_ok k ->
  om_find h (threads_ (scheduler_ (wake_expired_now k))) =
  (fun t => if expired_at (source_monotonic (clock_reads (clock_ k))) t
            then make_expired t else t) <$> om_find h (threads_ (scheduler_ k)).
Proof.
  intros Hk. unfold wake_expired_now, WakeExpiredThreadsLocked, wake_threads. simpl.
  set (p := expired_at _). set (ts := threads_ (scheduler_ k)).
  assert (Hsrt : om_sorted ts) by apply Hk.
  pose proof (wake_loop_woken p make_expired None 0 ts I) as Hw.
  pose proof (wake_loop_find p make_expired None 0 ts h Hsrt) as Hf.
  destruct (wake_loop _ _ _ _ _) as [ts' w]. simpl in *. subst w. rewrite Hf.
  destruct (om_find h ts) as [t|] eqn:E; [|done]. simpl. f_equal.
  case_decide as Hd.
  - apply matching_elem in Hd as (t' & Ht' & Hp); [|done]. by simplify_eq; rewrite Hp.
  - destruct (p t) eqn:Hp; [|done]. destruct Hd. apply matching_elem; eauto.
Qed.

Lemma SelectNext_spec k :
  kernel_ok k -> current_thread_ (scheduler_ k) = None ->
  (SelectNext k).2 = head (ready_after_expiry k) /\
  ready_threads_ (scheduler_ (SelectNext k).1) = tail (ready_after_expiry k) /\
  current_thread_ (scheduler_ (SelectNext k).1) = head (ready_after_expiry k).
Proof.
  intros Hk Hc. unfold SelectNext. rewrite Hc.
  pose proof (ko_sched _ (wake_expired_now_ok k Hk)) as Hs.
  rewrite (select_loop_head _ Hs), wake_expired_ready.
  by destruct (ready_after_expiry k).
Qed.

Lemma SelectNext_running k h :
  kernel_ok k -> current_thread_ (scheduler_ k) = None ->
  (SelectNext k).2 = Some h -> in_state (scheduler_ (SelectNext k).1) h kRunning.
Proof.
  intros Hk Hc Hsel. destruct (SelectNext_spec k Hk Hc) as (H1 & _ & H3).
  apply (so_current _ (ko_sched _ (SelectNext_ok k Hk))). congruence.
Qed.
End selection.

(** ** Reachable states *)

Section reachability.
Context `{ClockSource}.

Definition Kernel_init : Kernel :=
  mkKernel (HandleTable_init kobject) Scheduler_init KernelClockService_init.

(** One call of the scheduler's interface. *)
Inductive sched_step : Kernel -> Kernel -> Prop :=
| StepCreate name pri entry arg k : sched_step k (CreateThread name pri entry arg k).1
| StepDiscard h k : sched_step k (DiscardReadyThread h k).1
| StepSelect k : sched_step k (SelectNext k).1
| StepYield k : sched_step k (YieldCurrent k).1
| StepBlock key k : sched_step k (BlockCurrent key k).1
| StepBlockUntil key d k : sched_step k (BlockCurrentUntil key d k).1
| StepWakeAll key m k : 0 <= m -> sched_step k (WakeBlockedThreads key m k).1
| StepWakeOne h key k : sched_step k (WakeBlockedThread h key k).1
| StepJoin h k : sched_step k (JoinThread h k).1
| StepExit v k : sched_step k (ExitCurrent v k).1
| StepConsume key k : sched_step k (ConsumeCurrentThreadTimeout key k).1.

Lemma Kernel_init_ok : kernel_ok Kernel_init.
Proof.
  split; simpl; [apply table_ok_init|apply Scheduler_init_ok|].
  intros h. split; [by intros [? ?]|done].
Qed.

Lemma sched_step_ok k k' : sched_step k k' -> kernel_ok k -> kernel_ok k'.
Proof.
  destruct 1; intros Hk.
  - by apply CreateThread_ok.
  - by apply DiscardReadyThread_ok.
  - by apply SelectNext_ok.
  - by apply YieldCurrent_ok.
  - by apply BlockCurrentLocked_ok.
  - by apply BlockCurrentLocked_ok.
  - by apply WakeBlockedThreads_ok.
  - by apply WakeBlockedThread_ok.
  - by apply JoinThread_ok.
  - by apply ExitCurrent_ok.
  - by apply ConsumeCurrentThreadTimeout_ok.
Qed.

Lemma sched_steps_ok k k' : rtc sched_step k k' -> kernel_ok k -> kernel_ok k'.
Proof. induction 1 as [|k1 k2 k3 Hs _ IH]; [done|]. intros Hk. by eapply IH, sched_step_ok. Qed.

(** C4: in every state reachable through the scheduler's interface, the ready
    queue holds exactly the ready threads, each once; the current thread is the
    one and only running thread; exactly the blocked threads have a wait key;
    and the handle table lists exactly the scheduler's threads. *)
Theorem scheduler_reachable_invariant (k : Kernel) :
  rtc sched_step Kernel_init k -> kernel_ok k.
Proof. intros Hr. exact (sched_steps_ok _ _ Hr Kernel_init_ok). Qed.

End reachability.
