(* ===== verification/SchedulerProps.v ===== *)
(** What the scheduler promises its clients: FIFO selection and round-robin
    progress, bounded wake-ups in handle order, timeouts kept apart from
    signals, and the join/exit protocol. *)
From S2P Require Import Prelude Ranges OrderedMap WaitKeys HandleTable Objects.
From S2P Require Import Clock Scheduler SchedulerInv.

Section properties.
Context `{ClockSource}.
Implicit Types (k : Kernel).

(** ** Round-robin progress *)

(** The running lane: pick a thread, let it yield. *)
Definition round k : Kernel := (YieldCurrent (SelectNext k).1).1.

Lemma YieldCurrent_ready k h :
  kernel_ok k -> current_thread_ (scheduler_ k) = Some h ->
  ready_threads_ (scheduler_ (YieldCurrent k).1) = ready_threads_ (scheduler_ k) ++ [h] /\
  current_thread_ (scheduler_ (YieldCurrent k).1) = None.
Proof.
  intros Hk Hc. pose proof (ko_sched _ Hk) as Hs.
  pose proof (proj1 (so_current _ Hs h) Hc) as (t & Ht & Hst).
  unfold YieldCurrent. rewrite (proj2 (running_thread_Some _ h t)); [done|done].
Qed.

Lemma round_spec k h rest :
  kernel_ok k -> current_thread_ (scheduler_ k) = None ->
  ready_after_expiry k = h :: rest ->
  kernel_ok (round k) /\ current_thread_ (scheduler_ (round k)) = None /\
  ready_threads_ (scheduler_ (round k)) = rest ++ [h].
Proof.
  intros Hk Hc Hr. unfold round.
  destruct (SelectNext_spec k Hk Hc) as (_ & H2 & H3). rewrite Hr in H2, H3.
  pose proof (SelectNext_ok k Hk) as Hk'.
  destruct (YieldCurrent_ready _ h Hk' H3) as [H4 H5].
  split; [by apply YieldCurrent_ok|]. split; [done|]. by rewrite H4, H2.
Qed.

Lemma ready_prefix k h n :
  ready_threads_ (scheduler_ k) !! n = Some h -> ready_after_expiry k !! n = Some h.
Proof. apply lookup_app_l_Some. Qed.

(** A ready thread is reached after exactly as many rounds as there are
    threads in front of it: waiting threads that expire on the way queue up
    behind it and cannot delay it. *)
Theorem round_robin_progress (n : nat) k h :
  kernel_ok k -> current_thread_ (scheduler_ k) = None ->
  ready_threads_ (scheduler_ k) !! n = Some h ->
  (SelectNext (Nat.iter n round k)).2 = Some h.
Proof.
  revert k h. induction n as [|n IH]; intros k h Hk Hc Hn.
  - simpl. destruct (SelectNext_spec k Hk Hc) as (-> & _ & _).
    apply ready_prefix in Hn. by destruct (ready_after_expiry k).
  - rewrite Nat.iter_succ_r.
    destruct (ready_after_expiry k) as [|h0 rest] eqn:Er.
    { apply ready_prefix in Hn. by rewrite Er in Hn. }
    destruct (round_spec k h0 rest Hk Hc Er) as (Hk' & Hc' & Hr').
    apply IH; [done|done|]. rewrite Hr'. apply lookup_app_l_Some.
    apply ready_prefix in Hn. rewrite Er in Hn. exact Hn.
Qed.

(** Selection is FIFO: with no current thread, [SelectNext] returns the head
    of the ready queue extended with the expired waits in handle order, makes
    it the running thread and leaves the rest of that queue in order; it
    returns nothing only when the queue is empty. *)
Theorem SelectNext_fifo k :
  kernel_ok k -> current_thread_ (scheduler_ k) = None ->
  let '(k', picked) := SelectNext k in
  picked = head (ready_after_expiry k) /\
  ready_threads_ (scheduler_ k') = tail (ready_after_expiry k) /\
  current_thread_ (scheduler_ k') = picked /\
  (forall h, picked = Some h -> in_state (scheduler_ k') h kRunning) /\
  (picked = None -> forall h, ~ in_state (scheduler_ k') h kReady).
Proof.
  intros Hk Hc. pose proof (SelectNext_spec k Hk Hc) as (H1 & H2 & H3).
  pose proof (SelectNext_running k) as Hrun. pose proof (SelectNext_ok k Hk) as Hk'.
  destruct (SelectNext k) as [k' picked] eqn:E. simpl in *.
  split_and!; [done|done|congruence| |].
  - intros h ->. by apply Hrun.
  - intros -> h Hr. apply (so_ready _ (ko_sched _ Hk')) in Hr. rewrite H2 in Hr.
    destruct (ready_after_expiry k); [by apply elem_of_nil in Hr|done].
Qed.

(** ** Wake-ups *)

Lemma wake_matching_expired key k :
  kernel_ok k ->
  matching (blocked_on key) (threads_ (scheduler_ (wake_expired_now k))) =
  matching (fun t => blocked_on key t &&
              negb (expired_at (source_monotonic (clock_reads (clock_ k))) t))
    (threads_ (scheduler_ k)).
Proof.
  intros Hk. pose proof (wake_expired_now_ok k Hk) as Hk'.
  set (q := fun t => _ && _).
  assert (Hkeys : (threads_ (scheduler_ (wake_expired_now k))).*1 =
                  (threads_ (scheduler_ k)).*1) by apply wake_threads_keys.
  assert (Hfind := fun h => wake_expired_find k h Hk).
  assert (Hset : forall h, h ∈ matching (blocked_on key) (threads_ (scheduler_ (wake_expired_now k)))
     <-> h ∈ matching q (threads_ (scheduler_ k))).
  { intros h. rewrite !matching_elem by (apply Hk || apply Hk').
    rewrite Hfind. destruct (om_find h (threads_ (scheduler_ k))) as [t|]; simpl; [|naive_solver].
    subst q. simpl. destruct (expired_at _ t) eqn:Ex; simpl.
    - split.
      + intros (t' & [= <-] & Hb). apply blocked_on_true in Hb as [Hb _]. done.
      + intros (t' & [= <-] & Hb). rewrite Ex, andb_false_r in Hb. done.
    - split; intros (t' & [= <-] & Hb); exists t; (split; [done|]).
      + by rewrite Hb, Ex.
      + by apply andb_true_iff in Hb as [? _]. }
  eapply (StronglySorted_unique_strong Z.lt).
  - intros x1 x2 _ _ H1 H2. lia.
  - apply matching_sorted, Hk'.
  - apply matching_sorted, Hk.
  - apply NoDup_Permutation; [| |done].
    + apply StronglySorted_lt_NoDup, matching_sorted, Hk'.
    + apply StronglySorted_lt_NoDup, matching_sorted, Hk.
Qed.

Lemma WakeBlockedThreads_effect (key : string) (m : Z) k :
  kernel_ok k -> key <> EmptyString -> 0 < m ->
  let now := source_monotonic (clock_reads (clock_ k)) in
  let woken := take (Z.to_nat m)
    (matching (fun t => blocked_on key t && negb (expired_at now t)) (threads_ (scheduler_ k))) in
  let '(k', n) := WakeBlockedThreads key m k in
  n = Z.of_nat (length woken) /\
  ready_threads_ (scheduler_ k') = ready_after_expiry k ++ woken /\
  (forall h t, om_find h (threads_ (scheduler_ k)) = Some t ->
     om_find h (threads_ (scheduler_ k')) =
     Some (if decide (h ∈ woken) then make_woken t
           else if expired_at now t then make_expired t else t)) /\
  handles_ k' = handles_ k.
Proof.
  intros Hk Hkey Hm. cbn zeta.
  pose proof (wake_matching_expired key k Hk) as Hmatch.
  set (now := source_monotonic _) in *. set (q := fun t => _ && _) in *.
  pose proof (wake_expired_now_ok k Hk) as Hk'.
  pose proof (wake_loop_woken (blocked_on key) make_woken (Some m) 0
                (threads_ (scheduler_ (wake_expired_now k))) ltac:(simpl; lia)) as Hw.
  pose proof (fun h => wake_loop_find (blocked_on key) make_woken (Some m) 0
                (threads_ (scheduler_ (wake_expired_now k))) h (so_sorted _ (ko_sched _ Hk'))) as Hf.
  rewrite Hmatch in Hw. unfold budget in Hw. rewrite Z.sub_0_r in Hw.
  unfold WakeBlockedThreads. rewrite (bool_decide_eq_false_2 _ Hkey). simpl orb.
  replace (m =? 0) with false by lia. unfold wake_threads.
  destruct (wake_loop _ _ _ _ _) as [ts w]. cbn [fst snd] in Hw, Hf.
  cbn [with_scheduler scheduler_ ready_threads_ threads_ handles_].
  split_and!; [by rewrite Hw|by rewrite Hw, wake_expired_ready| |done].
  intros h t Ht. rewrite Hf, (wake_expired_find k h Hk), Ht. simpl. f_equal. rewrite <- Hw.
  case_decide; [|done]. by case_match.
Qed.

(** [WakeBlockedThreads] first expires overdue waits, then readies the first
    [maximum_count] threads blocked on the key, in increasing handle order,
    behind everything already ready; it reports how many, never more than
    asked, touches no other thread, and a signalled thread carries no timeout
    mark. *)
Theorem WakeBlockedThreads_spec (key : string) (m : Z) k :
  kernel_ok k -> key <> EmptyString -> 0 < m ->
  let now := source_monotonic (clock_reads (clock_ k)) in
  let woken := take (Z.to_nat m)
    (matching (fun t => blocked_on key t && negb (expired_at now t)) (threads_ (scheduler_ k))) in
  let '(k', n) := WakeBlockedThreads key m k in
  n = Z.of_nat (length woken) /\ n <= m /\ StronglySorted Z.lt woken /\
  ready_threads_ (scheduler_ k') = ready_after_expiry k ++ woken /\
  (forall h t, om_find h (threads_ (scheduler_ k)) = Some t ->
     om_find h (threads_ (scheduler_ k')) =
     Some (if decide (h ∈ woken) then make_woken t
           else if expired_at now t then make_expired t else t)) /\
  handles_ k' = handles_ k.
Proof.
  intros Hk Hkey Hm. cbn zeta.
  pose proof (WakeBlockedThreads_effect key m k Hk Hkey Hm) as Hs. cbn zeta in Hs.
  destruct (WakeBlockedThreads key m k) as [k' n]. destruct Hs as (-> & Hr & Hf & Hh).
  split_and!; [done| | |done|done|done].
  - rewrite length_take. lia.
  - eapply StronglySorted_sublist; [apply sublist_take|]. apply matching_sorted, Hk.
Qed.

(** ** Timeouts *)

(** A timed wait that is still blocked when its deadline has passed is made
    ready by the next selection with its wait key moved to the timeout mark,
    one whose deadline has not passed stays blocked, and a wait without a
    deadline never times out. *)
Theorem SelectNext_timeout k h t :
  kernel_ok k -> current_thread_ (scheduler_ k) = None ->
  om_find h (threads_ (scheduler_ k)) = Some t -> th_state t = kBlocked ->
  let now := source_monotonic (clock_reads (clock_ k)) in
  let '(k', picked) := SelectNext k in
  match th_wait_deadline t with
  | Some d =>
      if d <=? now then
        exists t', om_find h (threads_ (scheduler_ k')) = Some t' /\
          th_timed_out_wait_key t' = th_wait_key t /\ th_wait_key t' = EmptyString /\
          th_state t' = (if decide (picked = Some h) then kRunning else kReady)
      else om_find h (threads_ (scheduler_ k')) = Some t
  | None => om_find h (threads_ (scheduler_ k')) = Some t
  end.
Proof.
  intros Hk Hc Ht Hst. cbn zeta. set (now := source_monotonic _).
  pose proof (wake_expired_find k h Hk) as Hf. rewrite Ht in Hf.
  cbn [fmap option_fmap option_map] in Hf. fold now in Hf.
  pose proof (ko_sched _ (wake_expired_now_ok k Hk)) as Hs.
  unfold SelectNext. rewrite Hc. rewrite (select_loop_head _ Hs).
  set (s := scheduler_ (wake_expired_now k)) in *.
  assert (Hexp : expired_at now t =
    match th_wait_deadline t with Some d => d <=? now | None => false end).
  { unfold expired_at. by rewrite (proj2 (state_is_true kBlocked t) Hst). }
  rewrite Hexp in Hf.
  assert (Hblk : om_find h (threads_ s) = Some t -> h ∉ ready_threads_ s).
  { intros Ht' Hin. apply (so_ready _ Hs) in Hin as (t' & ? & ?). congruence. }
  destruct (ready_threads_ s) as [|h0 rest] eqn:Er; cbn [fst snd with_scheduler scheduler_ threads_].
  - destruct (th_wait_deadline t) as [d|]; [destruct (d <=? now)|]; try done.
    exists (make_expired t). by split_and!.
  - rewrite om_find_update, Hf.
    destruct (decide (h = h0)) as [->|Hne].
    + rewrite decide_True by done. simpl.
      destruct (th_wait_deadline t) as [d|]; [destruct (d <=? now)|].
      * eexists. split; [reflexivity|]. by split_and!.
      * destruct (Hblk Hf). apply list_elem_of_here.
      * destruct (Hblk Hf). apply list_elem_of_here.
    + rewrite (decide_False (P := Some h0 = Some h)) by congruence.
      destruct (th_wait_deadline t) as [d|]; [destruct (d <=? now)|]; try done.
      eexists. split; [reflexivity|]. by split_and!.
Qed.

(** ** Join and exit *)

(** A thread whose state no operation may change: it has exited. *)
Definition exited_with (k : Kernel) (h : Z) (t : GuestThread) : Prop :=
  om_find h (threads_ (scheduler_ k)) = Some t /\ th_state t = kExited.

Lemma update_other_state (s : GuestScheduler) h0 f h t st :
  in_state s h0 st -> om_find h (threads_ s) = Some t -> th_state t <> st ->
  om_find h (om_update h0 f (threads_ s)) = Some t.
Proof.
  intros (t0 & Ht0 & Hst0) Ht Hst. rewrite om_find_update. case_decide; [|done].
  subst. congruence.
Qed.

Lemma wake_threads_exited p f m s h t :
  om_sorted (threads_ s) -> (forall t, p t = true -> th_state t = kBlocked) ->
  om_find h (threads_ s) = Some t -> th_state t = kExited ->
  match m with Some m => 0 <= m | None => True end ->
  om_find h (threads_ (wake_threads p f m s).1) = Some t.
Proof.
  intros Hs Hp Ht Hst Hm. unfold wake_threads.
  pose proof (wake_loop_find p f m 0 (threads_ s) h Hs) as Hf.
  pose proof (wake_loop_woken p f m 0 (threads_ s) ltac:(by destruct m)) as Hw.
  destruct (wake_loop p f m 0 (threads_ s)) as [ts w]. simpl in *.
  rewrite Hf, Ht. simpl. f_equal. case_decide as Hd; [|done].
  assert (Hin : h ∈ matching p (threads_ s)).
  { eapply elem_of_sublist; [exact Hd|]. rewrite Hw. unfold budget.
    destruct m; [apply sublist_take|done]. }
  apply matching_elem in Hin as (t' & Ht' & Hpt); [|done].
  apply Hp in Hpt. congruence.
Qed.

Lemma wake_expired_exited k h t :
  kernel_ok k -> exited_with k h t -> exited_with (wake_expired_now k) h t.
Proof.
  intros Hk [Ht Hst]. split; [|done].
  apply wake_threads_exited; [apply Hk|apply expired_blocked|done|done|done].
Qed.

(** Editing the running thread leaves an exited one alone. *)
Lemma running_update_exited k h t h0 t0 f :
  exited_with k h t -> running_thread (scheduler_ k) = Some (h0, t0) ->
  om_find h (om_update h0 f (threads_ (scheduler_ k))) = Some t.
Proof.
  intros [Ht Hst] (_ & Hf & Hr)%running_thread_Some.
  eapply update_other_state; [by exists t0|done|congruence].
Qed.

Lemma CreateThread_exited name pri entry arg k h t :
  kernel_ok k -> exited_with k h t -> exited_with (CreateThread name pri entry arg k).1 h t.
Proof.
  intros Hk [Ht Hst]. unfold CreateThread. split_match; [done|].
  destruct (Insert _ _) as [tbl [h0|]]; [|done]. split; [|done]. simpl.
  destruct (om_find h0 (threads_ (scheduler_ k))) eqn:E0.
  - unfold om_emplace. by rewrite E0.
  - rewrite om_find_emplace by (apply Hk || done). case_decide; [congruence|done].
Qed.

Lemma DiscardReadyThread_exited h0 k h t :
  exited_with k h t -> exited_with (DiscardReadyThread h0 k).1 h t.
Proof.
  intros [Ht Hst]. unfold DiscardReadyThread. destruct (om_find h0 _) as [t0|] eqn:E0; [|done].
  destruct (negb (state_is kReady t0)) eqn:En; [done|].
  destruct (Remove _ _ _) as [tbl [o|]]; [|done]. split; [|done]. simpl.
  rewrite om_find_erase. case_decide; [|done]. subst h0.
  assert (th_state t0 = kReady) by (apply state_is_true; by destruct (state_is kReady t0)).
  congruence.
Qed.

Lemma SelectNext_exited k h t :
  kernel_ok k -> exited_with k h t -> exited_with (SelectNext k).1 h t.
Proof.
  intros Hk [Ht Hst]. unfold SelectNext. destruct (current_thread_ _); [done|].
  destruct (wake_expired_exited k h t Hk (conj Ht Hst)) as [Ht' _].
  pose proof (ko_sched _ (wake_expired_now_ok k Hk)) as Hs.
  rewrite (select_loop_head _ Hs).
  destruct (ready_threads_ _) as [|h0 rest] eqn:Er; [done|]. split; [|done]. cbn.
  eapply (update_other_state _ _ _ _ _ kReady); [|done|congruence].
  apply (so_ready _ Hs). rewrite Er. apply list_elem_of_here.
Qed.

Lemma BlockCurrentLocked_exited key d k h t :
  exited_with k h t -> exited_with (BlockCurrentLocked key d k).1 h t.
Proof.
  intros He. unfold BlockCurrentLocked. case_bool_decide; [done|].
  destruct (running_thread _) as [[h0 t0]|] eqn:E; [|done].
  split; [by eapply running_update_exited|apply He].
Qed.

Lemma exited_step k k' h t :
  sched_step k k' -> kernel_ok k -> exited_with k h t -> exited_with k' h t.
Proof.
  intros Hstep Hk He. pose proof He as [Ht Hst].
  destruct Hstep as [ | | | |key k|key d k|key m k|h0 key k|h0 k|v k|key k].
  - by apply CreateThread_exited.
  - by apply DiscardReadyThread_exited.
  - by apply SelectNext_exited.
  - unfold YieldCurrent. destruct (running_thread _) as [[h0 t0]|] eqn:E; [|done].
    split; [by eapply running_update_exited|done].
  - by apply BlockCurrentLocked_exited.
  - by apply BlockCurrentLocked_exited.
  - unfold WakeBlockedThreads. split_match; [done|].
    destruct (wake_expired_exited k h t Hk He) as [Ht' _].
    pose proof (wake_threads_exited (blocked_on key) make_woken (Some m)
      (scheduler_ (wake_expired_now k)) h t (so_sorted _ (ko_sched _ (wake_expired_now_ok k Hk)))) as Hw.
    destruct (wake_threads _ _ _ _) as [s w]. split; [|done].
    apply Hw; [by intros t' [Hb _]%blocked_on_true|done|done|done].
  - unfold WakeBlockedThread. split_match; [done|].
    destruct (wake_expired_exited k h t Hk He) as [Ht' _].
    destruct (om_find h0 _) as [t0|] eqn:E0; [|done].
    destruct (blocked_on key t0) eqn:Eb; [|done]. apply blocked_on_true in Eb as [Eb _].
    split; [|done]. eapply update_other_state; [by exists t0|done|congruence].
  - unfold JoinThread. destruct (om_find h0 _) as [t0|] eqn:E0; [|done].
    split_match; [done|]. destruct (current_thread_ _) as [c|] eqn:Ec; [|done].
    split_match; [done|]. destruct (om_find c _) as [ct|] eqn:Ect; [|done].
    destruct (state_is kRunning ct) eqn:Es; [|done]. apply state_is_true in Es.
    split; [|done]. eapply update_other_state; [by exists ct|done|congruence].
  - unfold ExitCurrent. destruct (running_thread _) as [[h0 t0]|] eqn:E; [|done].
    set (s1 := mkScheduler _ _ _).
    pose proof (wake_threads_exited (blocked_on (ThreadExitWaitKey h0)) make_woken None s1 h t) as Hw.
    destruct (wake_threads _ _ _ _) as [s2 w]. split; [|done].
    apply Hw; [apply om_update_sorted, Hk|by intros t' [Hb _]%blocked_on_true| |done|done].
    by eapply running_update_exited.
  - unfold ConsumeCurrentThreadTimeout. case_bool_decide; [done|].
    destruct (running_thread _) as [[h0 t0]|] eqn:E; [|done].
    case_bool_decide; [|done]. split; [by eapply running_update_exited|done].
Qed.

Lemma exited_steps k k' h t :
  rtc sched_step k k' -> kernel_ok k -> exited_with k h t -> exited_with k' h t.
Proof.
  induction 1 as [|k1 k2 k3 Hs _ IH]; [done|]. intros Hk He.
  apply IH; [by eapply sched_step_ok|by eapply exited_step].
Qed.

Lemma ExitCurrent_find v k h t :
  kernel_ok k -> running_thread (scheduler_ k) = Some (h, t) ->
  forall h' t', om_find h' (threads_ (scheduler_ k)) = Some t' ->
  om_find h' (threads_ (scheduler_ (ExitCurrent v k).1)) =
  Some (if decide (h' = h) then make_exited v t'
        else if blocked_on (ThreadExitWaitKey h) t' then make_woken t' else t').
Proof.
  intros Hk Hr h' t' Ht'. unfold ExitCurrent. rewrite Hr.
  set (s1 := mkScheduler _ _ _).
  assert (Hs1 : om_sorted (threads_ s1)) by (apply om_update_sorted, Hk).
  pose proof (wake_loop_find (blocked_on (ThreadExitWaitKey h)) make_woken None 0 (threads_ s1) h' Hs1) as Hf.
  pose proof (wake_loop_woken (blocked_on (ThreadExitWaitKey h)) make_woken None 0 (threads_ s1) I) as Hw.
  unfold wake_threads. destruct (wake_loop _ _ _ _ _) as [ts w]. cbn [fst snd] in Hf, Hw.
  cbn [fst with_scheduler scheduler_ threads_ handles_]. rewrite Hf. subst w. unfold budget.
  assert (Hs1f : om_find h' (threads_ s1) = Some (if decide (h' = h) then make_exited v t' else t')).
  { simpl. rewrite om_find_update, Ht'. by destruct (decide (h' = h)). }
  rewrite Hs1f. simpl fmap. f_equal.
  assert (Hin : h' ∈ matching (blocked_on (ThreadExitWaitKey h)) (threads_ s1) <->
     blocked_on (ThreadExitWaitKey h) (if decide (h' = h) then make_exited v t' else t') = true).
  { rewrite matching_elem by done. rewrite Hs1f. naive_solver. }
  destruct (decide (h' = h)).
  - rewrite decide_False; [done|]. by intros [? _]%Hin%blocked_on_true.
  - destruct (blocked_on _ t'); [rewrite decide_True; [done|by apply Hin]|].
    rewrite decide_False; [done|]. by intros ?%Hin.
Qed.

(** The exit/join protocol: [ExitCurrent v] succeeds for the running thread,
    readies every thread that is blocked joining it, and from then on, after
    any further scheduler calls, joining it returns at once with [v]. *)
Theorem exit_join_protocol (v : Z) k h :
  kernel_ok k -> current_thread_ (scheduler_ k) = Some h ->
  let k' := (ExitCurrent v k).1 in
  (ExitCurrent v k).2 = true /\
  (forall h' t, om_find h' (threads_ (scheduler_ k)) = Some t ->
     th_state t = kBlocked -> th_wait_key t = ThreadExitWaitKey h ->
     in_state (scheduler_ k') h' kReady) /\
  (forall k'', rtc sched_step k' k'' -> JoinThread h k'' = (k'', (kOk, v))).
Proof.
  intros Hk Hc. cbn zeta.
  pose proof (proj1 (so_current _ (ko_sched _ Hk) h) Hc) as (t & Ht & Hst).
  assert (Hr : running_thread (scheduler_ k) = Some (h, t)) by (by apply running_thread_Some).
  pose proof (ExitCurrent_find v k h t Hk Hr) as Hf.
  split_and!.
  - unfold ExitCurrent. rewrite Hr. by destruct (wake_threads _ _ _ _).
  - intros h' t' Ht' Hb Hkey. exists (make_woken t'). split; [|done].
    rewrite (Hf h' t' Ht'). rewrite decide_False by congruence.
    by rewrite (proj2 (blocked_on_true _ t')).
  - intros k'' Hsteps.
    assert (He : exited_with (ExitCurrent v k).1 h (make_exited v t)).
    { split; [|done]. rewrite (Hf h t Ht). by rewrite decide_True. }
    destruct (exited_steps _ _ _ _ Hsteps (ExitCurrent_ok v k Hk) He) as [Hj Hst'].
    unfold JoinThread. rewrite Hj. by rewrite (proj2 (state_is_true kExited _)).
Qed.

(** Joining a live thread blocks the caller on that thread's exit key and
    frees the lane; a self-join and an unknown handle are refused without any
    change. *)
Theorem JoinThread_cases k h :
  kernel_ok k ->
  match om_find h (threads_ (scheduler_ k)), current_thread_ (scheduler_ k) with
  | None, _ => JoinThread h k = (k, (kNotFound, 0))
  | Some t, Some c =>
      th_state t <> kExited ->
      if c =? h then JoinThread h k = (k, (kInvalidArgument, 0))
      else
        (JoinThread h k).2 = (kWouldBlock, 0) /\
        current_thread_ (scheduler_ (JoinThread h k).1) = None /\
        exists ct, om_find c (threads_ (scheduler_ (JoinThread h k).1)) = Some ct /\
          th_state ct = kBlocked /\ th_wait_key ct = ThreadExitWaitKey h
  | Some t, None => th_state t <> kExited -> JoinThread h k = (k, (kBusy, 0))
  end.
Proof.
  intros Hk. unfold JoinThread.
  destruct (om_find h (threads_ (scheduler_ k))) as [t|] eqn:Ht; [|done].
  destruct (current_thread_ (scheduler_ k)) as [c|] eqn:Hc.
  - intros Hne.
    replace (state_is kExited t) with false
      by (symmetry; by apply bool_decide_eq_false_2).
    destruct (c =? h) eqn:E; [done|].
    pose proof (proj1 (so_current _ (ko_sched _ Hk) c) Hc) as (ct & Hct & Hst).
    rewrite Hct. rewrite (proj2 (state_is_true kRunning ct) Hst). simpl.
    split_and!; [done|done|]. rewrite om_find_update, decide_True, Hct by done. simpl.
    eexists. by split_and!.
  - intros Hne. unfold state_is. by rewrite (bool_decide_eq_false_2 _ Hne).
Qed.
End properties.
