(* ===== verification/WakeAll.v ===== *)
(** Waking every waiter of an object.

    Semaphores, event flags and static-initialisation guards all end a state
    change with [scheduler_.WakeBlockedThreads(key)], whose limit defaults to
    the largest [std::size_t].  The lemmas here say that this leaves nobody
    blocked on the key and disturbs nobody else; the services' theorems are
    proved from them. *)
From S2P Require Import Prelude Ranges OrderedMap WaitKeys HandleTable Objects Clock Scheduler.
From S2P Require Import SchedulerInv SchedulerProps.

(** The default argument of [WakeBlockedThreads]. *)
Definition WakeAll `{ClockSource} (key : string) (k : Kernel) : Kernel :=
  (WakeBlockedThreads key u64_max k).1.

Lemma sorted_length_bound (l : list Z) lo hi :
  StronglySorted Z.lt l -> Forall (fun x => lo <= x <= hi) l ->
  Z.of_nat (length l) <= Z.max 0 (hi - lo + 1).
Proof.
  intros Hs. revert lo. induction Hs as [|x l Hs IH Hx]; intros lo Hf; simpl; [lia|].
  apply Forall_cons in Hf as [Hx' Hf].
  specialize (IH (x + 1)). rewrite !Forall_forall in *.
  assert (Hl : forall y, y ∈ l -> x + 1 <= y <= hi).
  { intros y Hy. specialize (Hx y Hy). specialize (Hf y Hy). simpl in *. lia. }
  specialize (IH Hl). lia.
Qed.

Section wake_all.
Context `{ClockSource}.
Implicit Types (k : Kernel).

Lemma thread_count_bound p k :
  kernel_ok k -> Z.of_nat (length (matching p (threads_ (scheduler_ k)))) <= u64_max.
Proof.
  intros Hk.
  assert (Z.of_nat (length (matching p (threads_ (scheduler_ k)))) <= Z.max 0 (u64_max - 1 + 1)).
  { apply sorted_length_bound; [apply matching_sorted, Hk|].
    rewrite Forall_forall. intros h Hin.
    apply matching_elem in Hin as (t & Ht & _); [|apply Hk].
    assert (Ho : objects_ (handles_ k) !! h = Some OThread) by (apply (ko_threads _ Hk); eauto).
    apply (ht_live _ (ko_table _ Hk)) in Ho. lia. }
  u64_lia.
Qed.

Lemma WakeAll_ok key k : kernel_ok k -> kernel_ok (WakeAll key k).
Proof. apply WakeBlockedThreads_ok. u64_lia. Qed.

Lemma WakeAll_handles key k : handles_ (WakeAll key k) = handles_ k.
Proof.
  unfold WakeAll, WakeBlockedThreads. split_match; [done|].
  by destruct (wake_threads _ _ _ _).
Qed.

Lemma WakeAll_current key k :
  current_thread_ (scheduler_ (WakeAll key k)) = current_thread_ (scheduler_ k).
Proof.
  unfold WakeAll, WakeBlockedThreads. split_match; [done|].
  unfold wake_threads. destruct (wake_loop _ _ _ _ _) as [ts w].
  cbn [fst with_scheduler scheduler_ current_thread_].
  unfold wake_expired_now, WakeExpiredThreadsLocked, wake_threads. simpl.
  by destruct (wake_loop _ _ _ _ _).
Qed.

(** Every thread after the wake-up, from the thread before it. *)
Definition after_wake (key : string) (now : Z) (t : GuestThread) : GuestThread :=
  if expired_at now t then make_expired t
  else if blocked_on key t then make_woken t else t.

Lemma WakeAll_find key k h t :
  kernel_ok k -> key <> EmptyString ->
  om_find h (threads_ (scheduler_ k)) = Some t ->
  om_find h (threads_ (scheduler_ (WakeAll key k))) =
  Some (after_wake key (source_monotonic (clock_reads (clock_ k))) t).
Proof.
  intros Hk Hkey Ht. unfold WakeAll.
  pose proof (WakeBlockedThreads_effect key u64_max k Hk Hkey ltac:(u64_lia)) as Hspec.
  cbn zeta in Hspec. set (now := source_monotonic _) in *.
  destruct (WakeBlockedThreads key u64_max k) as [k' n].
  destruct Hspec as (_ & _ & Hf & _). rewrite take_ge in Hf.
  2:{ pose proof (thread_count_bound (fun t => blocked_on key t && negb (expired_at now t)) k Hk).
      lia. }
  simpl. rewrite (Hf h t Ht). f_equal. unfold after_wake. clear Hf.
  destruct (decide (h ∈ _)) as [Hd|Hd].
  - apply matching_elem in Hd as (t' & Ht' & Hp); [|apply Hk]. simplify_eq.
    apply andb_true_iff in Hp as [Hb He]. rewrite Hb.
    by destruct (expired_at now t).
  - destruct (expired_at now t) eqn:He; [done|]. destruct (blocked_on key t) eqn:Hb; [|done].
    destruct Hd. apply matching_elem; [apply Hk|]. exists t. by rewrite Hb, He.
Qed.

Lemma WakeAll_find_inv key k h t' :
  kernel_ok k -> om_find h (threads_ (scheduler_ (WakeAll key k))) = Some t' ->
  is_Some (om_find h (threads_ (scheduler_ k))).
Proof.
  intros Hk Ht'. apply (ko_threads _ Hk). rewrite <- (WakeAll_handles key k).
  apply (ko_threads _ (WakeAll_ok key k Hk)). eauto.
Qed.

(** Nobody is left waiting for the key. *)
Lemma WakeAll_none_blocked key k h t :
  kernel_ok k -> key <> EmptyString ->
  om_find h (threads_ (scheduler_ (WakeAll key k))) = Some t -> blocked_on key t = false.
Proof.
  intros Hk Hkey Ht. destruct (WakeAll_find_inv key k h t Hk Ht) as [t0 Ht0].
  rewrite (WakeAll_find key k h t0) in Ht by done. injection Ht as <-.
  unfold after_wake. repeat split_match; try done.
Qed.

(** Threads blocked elsewhere, with no deadline due, stay as they were. *)
Lemma WakeAll_frame key k h t :
  kernel_ok k -> key <> EmptyString ->
  om_find h (threads_ (scheduler_ k)) = Some t ->
  blocked_on key t = false ->
  expired_at (source_monotonic (clock_reads (clock_ k))) t = false ->
  om_find h (threads_ (scheduler_ (WakeAll key k))) = Some t.
Proof.
  intros Hk Hkey Ht Hb He. rewrite (WakeAll_find key k h t) by done.
  unfold after_wake. by rewrite He, Hb.
Qed.

(** Blocking the current thread touches nothing but the scheduler. *)
Lemma BlockCurrentLocked_handles key d k :
  handles_ (BlockCurrentLocked key d k).1 = handles_ k.
Proof.
  unfold BlockCurrentLocked. case_bool_decide; [done|].
  by destruct (running_thread (scheduler_ k)) as [[h t]|].
Qed.

Lemma BlockCurrentLocked_spec key d k h :
  kernel_ok k -> key <> EmptyString -> current_thread_ (scheduler_ k) = Some h ->
  (BlockCurrentLocked key d k).2 = true /\
  current_thread_ (scheduler_ (BlockCurrentLocked key d k).1) = None /\
  exists t, om_find h (threads_ (scheduler_ (BlockCurrentLocked key d k).1)) = Some t /\
    th_state t = kBlocked /\ th_wait_key t = key /\ th_wait_deadline t = d.
Proof.
  intros Hk Hkey Hc.
  pose proof (proj1 (so_current _ (ko_sched _ Hk) h) Hc) as (t & Ht & Hst).
  unfold BlockCurrentLocked. rewrite (bool_decide_eq_false_2 _ Hkey).
  rewrite (proj2 (running_thread_Some _ h t)) by done. simpl.
  split_and!; [done|done|]. rewrite om_find_update, decide_True, Ht by done.
  eexists. by split_and!.
Qed.

Lemma BlockCurrentLocked_none key d k :
  current_thread_ (scheduler_ k) = None -> BlockCurrentLocked key d k = (k, false).
Proof.
  intros Hc. unfold BlockCurrentLocked, running_thread. rewrite Hc.
  by case_bool_decide.
Qed.
End wake_all.

(** ** Changing an object in place *)

(** The kernel after a method changed the object behind a live handle. *)
Definition modify_object (h : Z) (o : kobject) (k : Kernel) : Kernel :=
  with_handles k (Modify h o (handles_ k)).

Lemma modify_object_ok h o o' k :
  kernel_ok k -> objects_ (handles_ k) !! h = Some o ->
  object_type o = object_type o' -> kernel_ok (modify_object h o' k).
Proof.
  intros Hk Ho Hty. split; simpl; [by eapply Modify_ok, Ho; apply Hk|apply Hk|].
  intros h'. rewrite (ko_threads _ Hk), lookup_insert. case_decide as Hd; [|done].
  subst h'. rewrite Ho. split; intros [= ->]; [|by destruct o].
  by destruct o'.
Qed.

(** Inserting or removing an object that is not a thread. *)
Lemma insert_object_ok o k tbl r :
  kernel_ok k -> object_type o <> kThread -> Insert (Some o) (handles_ k) = (tbl, r) ->
  kernel_ok (with_handles k tbl).
Proof.
  intros Hk Hty Hi.
  pose proof (Insert_ok (Some o) _ (ko_table _ Hk)) as Hok.
  pose proof (Insert_frame (Some o) (handles_ k)) as Hfr.
  pose proof (fun h => Insert_Find (Some o) (handles_ k) h (object_type o) (ko_table _ Hk)) as Hf.
  assert (Hfresh : forall h, r = Some h -> objects_ (handles_ k) !! h = None).
  { intros h ->. simpl in Hi. destruct (exhausted_ (handles_ k)) eqn:He; [done|].
    injection Hi as _ <-. apply next_handle_fresh; [apply Hk|done]. }
  rewrite Hi in *. simpl in *. split; simpl; [done|apply Hk|].
  intros h. rewrite (ko_threads _ Hk). destruct (decide (r = Some h)) as [->|Hne].
  - specialize (Hf h eq_refl). simpl in Hf. rewrite bool_decide_eq_true_2 in Hf by done.
    apply Find_Some in Hf as (_ & Hl & _). rewrite Hl, (Hfresh h eq_refl).
    split; [done|]. intros [= ->]. done.
  - by rewrite Hfr.
Qed.

Lemma remove_object_ok h ty k tbl r :
  kernel_ok k -> ty <> kThread -> Remove h ty (handles_ k) = (tbl, r) ->
  kernel_ok (with_handles k tbl).
Proof.
  intros Hk Hty Hr. pose proof (Remove_ok h ty _ (ko_table _ Hk)) as Hok.
  pose proof (Remove_lookup h ty (handles_ k)) as Hl. rewrite Hr in *. simpl in *.
  split; simpl; [done|apply Hk|]. intros h'. rewrite (ko_threads _ Hk), Hl.
  case_bool_decide as Hb; [|done]. destruct Hb as [-> [o Hf]].
  apply Find_Some in Hf as (_ & Ho & Ht). rewrite Ho. split; [|done]. intros [= ->]. done.
Qed.
#[export] Hint Resolve WakeAll_ok modify_object_ok : kernel.

(** Parked threads and the scheduler calls that leave them alone.

    A service that parks a thread on a key of its own relies on two facts about
    everybody else's calls: they do not make that thread runnable, and they do
    not block another thread on that key.  [quiet P k k'] says that going from
    [k] to [k'] has both properties for the keys in [P]; one lemma per
    scheduler operation discharges it. *)

Definition blocked_at (k : Kernel) (t : Z) (key : string) : Prop :=
  exists th, om_find t (threads_ (scheduler_ k)) = Some th /\
    th_state th = kBlocked /\ th_wait_key th = key.

(** Blocked with no deadline: only a wake-up by key releases the thread. *)
Definition parked (k : Kernel) (t : Z) (key : string) : Prop :=
  exists th, om_find t (threads_ (scheduler_ k)) = Some th /\
    th_state th = kBlocked /\ th_wait_key th = key /\ th_wait_deadline th = None.

Definition quiet (P : string -> Prop) (k k' : Kernel) : Prop :=
  (forall t key, P key -> parked k t key -> parked k' t key) /\
  (forall t key, P key -> blocked_at k' t key -> blocked_at k t key).

Lemma parked_blocked k t key : parked k t key -> blocked_at k t key.
Proof. intros (th & ? & ? & ? & _). by exists th. Qed.

Lemma blocked_at_fun k t key key' : blocked_at k t key -> blocked_at k t key' -> key = key'.
Proof. intros (a & Ha & _ & <-) (b & Hb & _ & <-). congruence. Qed.

Lemma quiet_refl P k : quiet P k k.
Proof. by split. Qed.

Lemma quiet_trans P k1 k2 k3 : quiet P k1 k2 -> quiet P k2 k3 -> quiet P k1 k3.
Proof. intros [A1 B1] [A2 B2]. split; auto. Qed.

Lemma quiet_weaken (P Q : string -> Prop) k k' :
  (forall s, Q s -> P s) -> quiet P k k' -> quiet Q k k'.
Proof. intros HPQ [A B]. split; auto. Qed.

(** Same threads. *)
Lemma quiet_threads P k k' :
  threads_ (scheduler_ k') = threads_ (scheduler_ k) -> quiet P k k'.
Proof. intros E. unfold quiet, parked, blocked_at. rewrite E. by split. Qed.

(** Pointwise: every thread keeps its record or changes from and to states other
    than blocked on a key of [P]. *)
Definition thread_quiet (P : string -> Prop) (a b : GuestThread) : Prop :=
  a = b \/
  (th_state a = kBlocked -> P (th_wait_key a) -> th_wait_deadline a = None -> False) /\
  (th_state b = kBlocked -> P (th_wait_key b) -> False).

Lemma quiet_pointwise P k k' :
  (forall t, option_Forall2 (thread_quiet P)
     (om_find t (threads_ (scheduler_ k))) (om_find t (threads_ (scheduler_ k')))) ->
  quiet P k k'.
Proof.
  intros Hp. split; intros t key Hkey; specialize (Hp t).
  - intros (th & Ht & Hs & Hw & Hd). rewrite Ht in Hp. inversion Hp as [? b Hq Hb|]; subst.
    destruct Hq as [->|[Ha _]]; [exists b; by split_and!|]. by destruct Ha.
  - intros (th & Ht & Hs & Hw). rewrite Ht in Hp. inversion Hp as [a ? Hq Hb|]; subst.
    destruct Hq as [->|[_ Ha]]; [by exists th|]. by destruct Ha.
Qed.

Lemma thread_quiet_refl P a : thread_quiet P a a.
Proof. by left. Qed.
#[export] Hint Resolve thread_quiet_refl quiet_refl : kernel.

Lemma option_quiet_refl P (o : option GuestThread) : option_Forall2 (thread_quiet P) o o.
Proof. destruct o; constructor. auto with kernel. Qed.
#[export] Hint Resolve option_quiet_refl : kernel.

(** One thread's record changes, and neither record is blocked on a key of [P]. *)
Lemma quiet_update P k k' h f t0 :
  om_find h (threads_ (scheduler_ k)) = Some t0 ->
  threads_ (scheduler_ k') = om_update h f (threads_ (scheduler_ k)) ->
  th_state t0 <> kBlocked ->
  (th_state (f t0) = kBlocked -> P (th_wait_key (f t0)) -> False) ->
  quiet P k k'.
Proof.
  intros Ht0 E Hs Hf. apply quiet_pointwise. intros t. rewrite E, om_find_update.
  case_decide as Hd; [subst t|auto with kernel]. rewrite Ht0. simpl. constructor.
  right. by split.
Qed.

Section quiet.
Context `{ClockSource}.
Implicit Types (k : Kernel) (P : string -> Prop).

Lemma wake_expired_quiet P k : kernel_ok k -> quiet P k (wake_expired_now k).
Proof.
  intros Hk. apply quiet_pointwise. intros t. rewrite (wake_expired_find k t Hk).
  destruct (om_find t (threads_ (scheduler_ k))) as [th|]; simpl; constructor.
  destruct (expired_at _ th) eqn:E; [|auto with kernel]. right. split; [|done].
  intros _ _ Hd. unfold expired_at in E. rewrite Hd in E. by rewrite andb_false_r in E.
Qed.

Lemma SelectNext_quiet P k : kernel_ok k -> quiet P k (SelectNext k).1.
Proof.
  intros Hk. unfold SelectNext. destruct (current_thread_ _) eqn:Hc; [auto with kernel|].
  eapply quiet_trans; [by apply wake_expired_quiet|].
  pose proof (wake_expired_now_ok k Hk) as Hk'. set (k1 := wake_expired_now k) in *.
  pose proof (ko_sched _ Hk') as Hs. rewrite (select_loop_head _ Hs).
  destruct (ready_threads_ (scheduler_ k1)) as [|h rest] eqn:Er; [by apply quiet_threads|].
  assert (Hin : h ∈ ready_threads_ (scheduler_ k1)) by (rewrite Er; apply list_elem_of_here).
  apply (so_ready _ Hs) in Hin as (t0 & Ht0 & Hst0).
  eapply quiet_update; [exact Ht0|reflexivity|congruence|done].
Qed.

Lemma running_update_quiet P k k' f h t0 :
  running_thread (scheduler_ k) = Some (h, t0) ->
  threads_ (scheduler_ k') = om_update h f (threads_ (scheduler_ k)) ->
  (th_state (f t0) = kBlocked -> P (th_wait_key (f t0)) -> False) ->
  quiet P k k'.
Proof.
  intros (Hc & Ht & Hst)%running_thread_Some E Hf.
  eapply quiet_update; [exact Ht|exact E|congruence|done].
Qed.

Lemma YieldCurrent_quiet P k : quiet P k (YieldCurrent k).1.
Proof.
  unfold YieldCurrent. destruct (running_thread _) as [[h t]|] eqn:E; [|auto with kernel].
  eapply running_update_quiet; [exact E|reflexivity|done].
Qed.

Lemma BlockCurrentLocked_quiet P key d k : ~ P key -> quiet P k (BlockCurrentLocked key d k).1.
Proof.
  intros Hn. unfold BlockCurrentLocked. case_bool_decide; [auto with kernel|].
  destruct (running_thread _) as [[h t]|] eqn:E; [|auto with kernel].
  eapply running_update_quiet; [exact E|reflexivity|done].
Qed.

Lemma ConsumeCurrentThreadTimeout_quiet P key k :
  quiet P k (ConsumeCurrentThreadTimeout key k).1.
Proof.
  unfold ConsumeCurrentThreadTimeout. case_bool_decide; [auto with kernel|].
  destruct (running_thread _) as [[h t]|] eqn:E; [|auto with kernel].
  case_bool_decide; [|auto with kernel].
  eapply running_update_quiet; [exact E|reflexivity|].
  apply running_thread_Some in E as (_ & _ & Hst). simpl. congruence.
Qed.

Lemma JoinThread_quiet P h k : ~ P (ThreadExitWaitKey h) -> quiet P k (JoinThread h k).1.
Proof.
  intros Hn. unfold JoinThread. destruct (om_find h _) as [target|]; [|auto with kernel].
  destruct (state_is kExited target); [auto with kernel|].
  destruct (current_thread_ _) as [cur|]; [|auto with kernel].
  destruct (cur =? h); [auto with kernel|].
  destruct (om_find cur _) as [caller|] eqn:Ec; [|auto with kernel].
  destruct (state_is kRunning caller) eqn:Es; [|auto with kernel].
  apply state_is_true in Es. eapply quiet_update; [exact Ec|reflexivity|congruence|done].
Qed.

Lemma CreateThread_quiet P name pri entry arg k :
  kernel_ok k -> quiet P k (CreateThread name pri entry arg k).1.
Proof.
  intros Hk. unfold CreateThread. split_match; [auto with kernel|].
  destruct (Insert _ _) as [tbl [h|]] eqn:Ei; [|by apply quiet_threads].
  assert (Hn : om_find h (threads_ (scheduler_ k)) = None).
  { destruct (om_find h (threads_ (scheduler_ k))) eqn:E'; [|done].
    pose proof (proj1 (ko_threads _ Hk h) ltac:(eauto)) as Hl. revert Ei. simpl.
    destruct (exhausted_ (handles_ k)) eqn:He; [done|]. intros [= <- <-].
    by rewrite next_handle_fresh in Hl by (apply Hk || done). }
  split; intros t key _; unfold parked, blocked_at; simpl;
    rewrite om_find_emplace by (apply Hk || done); case_decide as Hd; subst; try done.
  - rewrite Hn. by intros (? & ? & _).
  - by intros (th & [= <-] & ? & _).
Qed.

Lemma DiscardReadyThread_quiet P h k : quiet P k (DiscardReadyThread h k).1.
Proof.
  unfold DiscardReadyThread. destruct (om_find h _) as [t0|] eqn:E0; [|auto with kernel].
  destruct (negb (state_is kReady t0)) eqn:En; [auto with kernel|].
  assert (th_state t0 = kReady) by (apply state_is_true; by destruct (state_is kReady t0)).
  destruct (Remove _ _ _) as [tbl [o|]]; [|by apply quiet_threads].
  split; intros t key _; unfold parked, blocked_at; simpl;
    rewrite om_find_erase; case_decide as Hd; subst; try done.
  - intros (th & Ht & Hs & _). congruence.
  - by intros (? & ? & _).
Qed.

Lemma ExitCurrent_quiet P v k :
  kernel_ok k ->
  (forall h, current_thread_ (scheduler_ k) = Some h -> ~ P (ThreadExitWaitKey h)) ->
  quiet P k (ExitCurrent v k).1.
Proof.
  intros Hk Hn. destruct (running_thread (scheduler_ k)) as [[h t0]|] eqn:Er.
  2:{ unfold ExitCurrent. rewrite Er. auto with kernel. }
  pose proof (ExitCurrent_find v k h t0 Hk Er) as Hf.
  pose proof (ExitCurrent_ok v k Hk) as Hk'.
  apply running_thread_Some in Er as (Hc & Ht0 & Hst0). specialize (Hn h Hc).
  apply quiet_pointwise. intros t.
  destruct (om_find t (threads_ (scheduler_ k))) as [th|] eqn:Et.
  - rewrite (Hf t th Et). constructor. case_decide as Hd.
    + subst t. rewrite Ht0 in Et. injection Et as <-. right. split; [congruence|done].
    + destruct (blocked_on _ th) eqn:Eb; [|auto with kernel]. right. split; [|done].
      apply blocked_on_true in Eb as [_ Eb]. intros _ Hp _. rewrite Eb in Hp. done.
  - assert (om_find t (threads_ (scheduler_ (ExitCurrent v k).1)) = None) as ->; [|constructor].
    pose proof (ko_threads _ Hk t) as H1. pose proof (ko_threads _ Hk' t) as H2.
    destruct (om_find t (threads_ (scheduler_ (ExitCurrent v k).1))) eqn:E'; [|done].
    assert (Hh : handles_ (ExitCurrent v k).1 = handles_ k).
    { unfold ExitCurrent. destruct (running_thread _) as [[? ?]|]; [|done].
      by destruct (wake_threads _ _ _ _). }
    rewrite Hh in H2. rewrite Et in H1. destruct H1 as [_ H1], H2 as [H2 _].
    destruct (H1 (H2 ltac:(eauto))). congruence.
Qed.

(** ** Waking by key *)

Lemma WakeBlockedThreads_none key m k t :
  om_find t (threads_ (scheduler_ k)) = None ->
  om_find t (threads_ (scheduler_ (WakeBlockedThreads key m k).1)) = None.
Proof.
  intros Ht. unfold WakeBlockedThreads. split_match; [done|].
  pose proof (wake_threads_keys (blocked_on key) make_woken (Some m)
                (scheduler_ (wake_expired_now k))) as Hkeys.
  destruct (wake_threads _ _ _ _) as [s w]. simpl in *.
  destruct (om_find t (threads_ s)) eqn:Ef; [|done].
  apply (om_find_is_Some_keys _ _ t) in Hkeys.
  pose proof (wake_threads_keys (expired_at (source_monotonic (clock_reads (clock_ k))))
                make_expired None (scheduler_ k)) as Hkeys'.
  apply (om_find_is_Some_keys _ _ t) in Hkeys'.
  destruct (proj1 Hkeys' (proj1 Hkeys ltac:(eauto))). congruence.
Qed.

(** What a wake-up does to a thread: those it picks become ready, overdue ones
    are marked, the others keep their record. *)
Lemma WakeBlockedThreads_thread key m k t th :
  kernel_ok k -> key <> EmptyString -> 0 < m ->
  om_find t (threads_ (scheduler_ k)) = Some th ->
  exists th', om_find t (threads_ (scheduler_ (WakeBlockedThreads key m k).1)) = Some th' /\
    (th' = make_woken th /\ th_state th = kBlocked /\ th_wait_key th = key \/
     th' = make_expired th /\ th_wait_deadline th <> None \/ th' = th).
Proof.
  intros Hk Hkey Hm Ht. pose proof (WakeBlockedThreads_effect key m k Hk Hkey Hm) as He.
  cbn zeta in He. destruct (WakeBlockedThreads key m k) as [k' n].
  destruct He as (_ & _ & Hf & _). eexists. split; [by apply Hf|].
  case_decide as Hd.
  - left. split; [done|]. apply elem_of_take in Hd as (i & Hi & _).
    apply list_elem_of_lookup_2, matching_elem in Hi as (th' & Hth' & Hp); [|apply Hk].
    rewrite Ht in Hth'. injection Hth' as <-.
    apply andb_true_iff in Hp as [Hp _]. by apply blocked_on_true.
  - destruct (expired_at _ th) eqn:E; [right; left|by right; right]. split; [done|].
    intros Hd'. unfold expired_at in E. rewrite Hd' in E. by rewrite andb_false_r in E.
Qed.

Lemma WakeBlockedThreads_quiet P key m k :
  kernel_ok k -> 0 <= m -> ~ P key -> quiet P k (WakeBlockedThreads key m k).1.
Proof.
  intros Hk Hm Hn. destruct (decide (key = EmptyString \/ m = 0)) as [Hd|Hd].
  { unfold WakeBlockedThreads. destruct Hd as [->| ->].
    - rewrite bool_decide_eq_true_2 by done. auto with kernel.
    - rewrite orb_true_r. auto with kernel. }
  apply quiet_pointwise. intros t.
  destruct (om_find t (threads_ (scheduler_ k))) as [th|] eqn:Et.
  - destruct (WakeBlockedThreads_thread key m k t th) as (th' & -> & Hc);
      [done|tauto|lia|done|]. constructor.
    destruct Hc as [(-> & Hs & Hw)|[[-> Hd']| ->]]; [| |auto with kernel].
    + right. split; [|done]. rewrite Hw. tauto.
    + right. split; [|done]. tauto.
  - rewrite WakeBlockedThreads_none by done. constructor.
Qed.

Lemma WakeBlockedThreads_current key m k :
  current_thread_ (scheduler_ (WakeBlockedThreads key m k).1) = current_thread_ (scheduler_ k).
Proof.
  unfold WakeBlockedThreads, wake_expired_now, WakeExpiredThreadsLocked, wake_threads.
  split_match; [done|]. simpl. repeat split_match; simplify_eq; simpl. all: done.
Qed.

(** Waking one thread on a key only [t] can be blocked on readies [t]. *)
Lemma wake_one_ready key k t :
  kernel_ok k -> key <> EmptyString ->
  (forall u, blocked_at k u key -> u = t) -> parked k t key ->
  in_state (scheduler_ (WakeBlockedThreads key 1 k).1) t kReady.
Proof.
  intros Hk Hkey Hown (th & Ht & Hs & Hw & Hd).
  pose proof (WakeBlockedThreads_effect key 1 k Hk Hkey ltac:(lia)) as He. cbn zeta in He.
  destruct (WakeBlockedThreads key 1 k) as [k' n]. destruct He as (_ & _ & Hf & _).
  exists (make_woken th). split; [|done]. simpl. rewrite (Hf t th Ht). f_equal.
  set (q := fun x => _). assert (Hin : t ∈ matching q (threads_ (scheduler_ k))).
  { apply matching_elem; [apply Hk|]. exists th. split; [done|]. unfold q, expired_at.
    rewrite Hd, andb_false_r, (proj2 (blocked_on_true key th)); done. }
  assert (Hall : forall u, u ∈ matching q (threads_ (scheduler_ k)) -> u = t).
  { intros u (tu & Htu & Hq)%matching_elem; [|apply Hk]. apply Hown.
    apply andb_true_iff in Hq as [[Hb Hk2]%blocked_on_true _]. by exists tu. }
  destruct (matching q _) as [|u l]; [by apply elem_of_nil in Hin|].
  rewrite (Hall u) by apply list_elem_of_here. rewrite decide_True; [done|].
  simpl. apply list_elem_of_here.
Qed.
End quiet.
