(* ===== verification/SemaphoreService.v ===== *)
(** [kernel::SemaphoreService] ([src/kernel/semaphore.cpp]).

    [wait_mutex_] makes a wait's check and block one step against signals and
    deletion, so every operation is one transition of the kernel.  The service
    refines an abstract counter per handle, conserves counts, and leaves no
    waiter blocked after a signal. *)
From S2P Require Import Prelude Ranges OrderedMap WaitKeys HandleTable Objects.
From S2P Require Import Clock Scheduler SchedulerInv SchedulerProps WakeAll.

Definition kMaximumSemaphoreNameLength : nat := 128.
Definition kSemaphoreThreadFifo : Z := 0x01.
Definition kSemaphoreThreadPriority : Z := 0x02.

Definition Semaphore_IsValidAttributes (attributes : Z) : bool :=
  (attributes =? 0) || (attributes =? kSemaphoreThreadFifo)
  || (attributes =? kSemaphoreThreadPriority).

Section service.
Context `{ClockSource}.
Implicit Types (k : Kernel).

Definition Semaphore_Find (h : Z) k : option Semaphore :=
  Find h kSemaphore (handles_ k) ≫= as_semaphore.

Definition Semaphore_Create (name : string) (attributes initial_count maximum_count : Z) k
    : Kernel * (KernelStatus * Z) :=
  if (kMaximumSemaphoreNameLength <? String.length name)%nat
     || negb (Semaphore_IsValidAttributes attributes) || (initial_count <? 0)
     || (maximum_count <=? 0) || (initial_count >? maximum_count)
  then (k, (kInvalidArgument, kInvalidKernelHandle))
  else
    let '(table, handle) :=
      Insert (Some (OSemaphore (mkSemaphore name attributes maximum_count initial_count)))
        (handles_ k) in
    match handle with
    | None => (with_handles k table, (kNoResources, kInvalidKernelHandle))
    | Some h => (with_handles k table, (kOk, h))
    end.

Definition Semaphore_Delete (h : Z) k : Kernel * KernelStatus :=
  let '(table, removed) := Remove h kSemaphore (handles_ k) in
  match removed with
  | None => (with_handles k table, kNotFound)
  | Some _ => (WakeAll (SemaphoreService_MakeWaitKey h) (with_handles k table), kOk)
  end.

Definition SemaphoreService_Signal (h count : Z) k : Kernel * KernelStatus :=
  match Semaphore_Find h k with
  | None => (k, kNotFound)
  | Some s =>
      let '(s', status) := Semaphore_Signal s count in
      let k1 := modify_object h (OSemaphore s') k in
      if status_eqb status kOk
      then (WakeAll (SemaphoreService_MakeWaitKey h) k1, status)
      else (k1, status)
  end.

(** The result pair is [SemaphoreCountResult{status, remaining_count}]. *)
Definition Semaphore_Poll (h count : Z) k : Kernel * (KernelStatus * Z) :=
  match Semaphore_Find h k with
  | None => (k, (kNotFound, 0))
  | Some s =>
      let '(s', status, remaining) := Semaphore_TryAcquire s count in
      (modify_object h (OSemaphore s') k, (status, remaining))
  end.

Definition Semaphore_Wait (h count : Z) k : Kernel * (KernelStatus * Z) :=
  let '(k1, (status, remaining)) := Semaphore_Poll h count k in
  if negb (status_eqb status kBusy) then (k1, (status, remaining))
  else
    let '(k2, blocked) := BlockCurrent (SemaphoreService_MakeWaitKey h) k1 in
    if negb blocked then (k2, (status, remaining))
    else (k2, (kWouldBlock, remaining)).

Definition Semaphore_GetCount (h : Z) k : KernelStatus * Z :=
  match Semaphore_Find h k with
  | None => (kNotFound, 0)
  | Some s => (kOk, sem_count_ s)
  end.

(** ** The invariant *)

Definition sems_ok k : Prop :=
  forall h s, objects_ (handles_ k) !! h = Some (OSemaphore s) -> sem_ok s.

Record sem_kernel_ok k : Prop := {
  sk_kernel : kernel_ok k;
  sk_sems : sems_ok k
}.

Lemma Semaphore_Find_Some h k s :
  Semaphore_Find h k = Some s <-> h <> 0 /\ objects_ (handles_ k) !! h = Some (OSemaphore s).
Proof.
  unfold Semaphore_Find. split.
  - intros (o & (Hh & Ho & Hty)%Find_Some & Ha)%bind_Some.
    destruct o; try discriminate Ha. simpl in Ha. by simplify_eq.
  - intros [Hh Ho]. apply bind_Some. exists (OSemaphore s). split; [|done].
    by apply Find_Some.
Qed.

Lemma sems_ok_modify h s k : sems_ok k -> sem_ok s -> sems_ok (modify_object h (OSemaphore s) k).
Proof.
  intros Hk Hs h' s'. simpl. rewrite lookup_insert. case_decide; [intros [= <-]; done|apply Hk].
Qed.

Lemma sem_modify_ok h s s' k :
  sem_kernel_ok k -> Semaphore_Find h k = Some s -> sem_ok s' ->
  sem_kernel_ok (modify_object h (OSemaphore s') k).
Proof.
  intros [Hk Hs] [_ Ho]%Semaphore_Find_Some Hs'. split; [|by apply sems_ok_modify].
  by eapply modify_object_ok.
Qed.

Lemma WakeAll_sem_ok key k : sem_kernel_ok k -> sem_kernel_ok (WakeAll key k).
Proof.
  intros [Hk Hs]. split; [by apply WakeAll_ok|].
  unfold sems_ok. by rewrite WakeAll_handles.
Qed.

Lemma Block_sem_ok key d k : sem_kernel_ok k -> sem_kernel_ok (BlockCurrentLocked key d k).1.
Proof.
  intros [Hk Hs]. split; [by apply BlockCurrentLocked_ok|].
  unfold sems_ok. by rewrite BlockCurrentLocked_handles.
Qed.

Lemma Semaphore_Poll_ok h c k : sem_kernel_ok k -> sem_kernel_ok (Semaphore_Poll h c k).1.
Proof.
  intros Hk. unfold Semaphore_Poll. destruct (Semaphore_Find h k) as [s|] eqn:E; [|done].
  assert (Hs : sem_ok s) by (apply Semaphore_Find_Some in E as [_ E]; by eapply sk_sems).
  pose proof (Semaphore_TryAcquire_ok s c Hs) as Ht.
  destruct (Semaphore_TryAcquire s c) as [[s' st] r]. simpl. by eapply sem_modify_ok.
Qed.

Lemma Semaphore_Create_ok name a i m k :
  m < 2 ^ 31 -> sem_kernel_ok k -> sem_kernel_ok (Semaphore_Create name a i m k).1.
Proof.
  intros Hm [Hk Hs]. unfold Semaphore_Create. split_match; [done|].
  pose proof (Insert_frame (Some (OSemaphore (mkSemaphore name a m i))) (handles_ k)) as Hfr.
  pose proof (fun h => Insert_Find (Some (OSemaphore (mkSemaphore name a m i))) (handles_ k) h
    kSemaphore (ko_table _ Hk)) as Hf.
  destruct (Insert _ (handles_ k)) as [tbl r] eqn:Ei. simpl in *.
  assert (Hres : sem_kernel_ok (with_handles k tbl)).
  { split; [by eapply insert_object_ok; [done| |exact Ei]|]. intros h s. simpl.
    destruct (decide (r = Some h)) as [->|Hne]; [|rewrite Hfr by done; apply Hs].
    specialize (Hf h eq_refl).
    apply Find_Some in Hf as (_ & -> & _). intros [= <-]. split; simpl; lia. }
  by destruct r.
Qed.

Lemma Semaphore_Delete_ok h k : sem_kernel_ok k -> sem_kernel_ok (Semaphore_Delete h k).1.
Proof.
  intros [Hk Hs]. unfold Semaphore_Delete.
  pose proof (Remove_lookup h kSemaphore (handles_ k)) as Hl.
  destruct (Remove h kSemaphore (handles_ k)) as [tbl r] eqn:Er. simpl in Hl.
  assert (Hres : sem_kernel_ok (with_handles k tbl)).
  { split; [by eapply remove_object_ok; [done| |exact Er]|]. intros h' s. simpl. rewrite Hl.
    case_bool_decide; [done|apply Hs]. }
  destruct r; [|done]. by apply WakeAll_sem_ok.
Qed.

Lemma SemaphoreService_Signal_ok h c k :
  sem_kernel_ok k -> sem_kernel_ok (SemaphoreService_Signal h c k).1.
Proof.
  intros Hk. unfold SemaphoreService_Signal.
  destruct (Semaphore_Find h k) as [s|] eqn:E; [|done].
  assert (Hs : sem_ok s) by (apply Semaphore_Find_Some in E as [_ E]; by eapply sk_sems).
  pose proof (Semaphore_Signal_ok s c Hs) as Ht.
  destruct (Semaphore_Signal s c) as [s' st]. simpl in Ht.
  assert (sem_kernel_ok (modify_object h (OSemaphore s') k)) by (by eapply sem_modify_ok).
  split_match; [by apply WakeAll_sem_ok|done].
Qed.

Lemma Semaphore_Wait_ok h c k : sem_kernel_ok k -> sem_kernel_ok (Semaphore_Wait h c k).1.
Proof.
  intros Hk. unfold Semaphore_Wait. pose proof (Semaphore_Poll_ok h c k Hk) as Hp.
  destruct (Semaphore_Poll h c k) as [k1 [st r]]. simpl in Hp.
  split_match; [done|]. pose proof (Block_sem_ok (SemaphoreService_MakeWaitKey h) None k1 Hp) as Hb.
  unfold BlockCurrent. destruct (BlockCurrentLocked _ _ _) as [k2 b]. simpl in Hb. by destruct b.
Qed.
End service.

(** ** Histories of calls *)

(** Calls of the service by whatever thread is running, with context switches
    between them. *)
Inductive sem_op :=
| SemCreate (name : string) (attributes initial_count maximum_count : Z)
| SemDelete (h : Z)
| SemSignal (h count : Z)
| SemWait (h count : Z)
| SemPoll (h count : Z)
| SemSelect
| SemYield.

Section histories.
Context `{ClockSource}.
Implicit Types (k : Kernel).

Definition sem_step (op : sem_op) k : Kernel * KernelStatus :=
  match op with
  | SemCreate n a i m => let '(k', (st, _)) := Semaphore_Create n a i m k in (k', st)
  | SemDelete h => Semaphore_Delete h k
  | SemSignal h c => SemaphoreService_Signal h c k
  | SemWait h c => let '(k', (st, _)) := Semaphore_Wait h c k in (k', st)
  | SemPoll h c => let '(k', (st, _)) := Semaphore_Poll h c k in (k', st)
  | SemSelect => ((SelectNext k).1, kOk)
  | SemYield => ((YieldCurrent k).1, kOk)
  end.

(** Creation takes an [std::int32_t] maximum. *)
Definition sem_op_ok (op : sem_op) : Prop :=
  match op with SemCreate _ _ _ m => m < 2 ^ 31 | _ => True end.

(** The abstract state: a maximum and a count per live handle. *)
Definition sem_view k (h : Z) : option (Z * Z) :=
  (fun s => (sem_maximum_count_ s, sem_count_ s)) <$> Semaphore_Find h k.

Lemma sem_view_handles k k' h :
  objects_ (handles_ k') !! h = objects_ (handles_ k) !! h -> sem_view k' h = sem_view k h.
Proof. intros Heq. unfold sem_view, Semaphore_Find, Find. by rewrite Heq. Qed.

Lemma sem_view_modify k h s h' :
  h <> 0 ->
  sem_view (modify_object h (OSemaphore s) k) h' =
  if decide (h' = h) then Some (sem_maximum_count_ s, sem_count_ s) else sem_view k h'.
Proof.
  intros Hh. unfold sem_view, Semaphore_Find, Find, kInvalidKernelHandle. simpl.
  case_decide as Hd.
  - subst h'. replace (h =? 0) with false by lia. by rewrite lookup_insert_eq.
  - by rewrite lookup_insert_ne.
Qed.

Lemma SelectNext_handles k : handles_ (SelectNext k).1 = handles_ k.
Proof.
  unfold SelectNext. destruct (current_thread_ _); [done|].
  by destruct (select_loop _ _) as [[ts r] p].
Qed.

Lemma YieldCurrent_handles k : handles_ (YieldCurrent k).1 = handles_ k.
Proof. unfold YieldCurrent. by destruct (running_thread _) as [[h t]|]. Qed.

Lemma sem_step_ok op k : sem_op_ok op -> sem_kernel_ok k -> sem_kernel_ok (sem_step op k).1.
Proof.
  intros Hop Hk. destruct op; simpl in *.
  - pose proof (Semaphore_Create_ok name attributes initial_count maximum_count k Hop Hk).
    by destruct (Semaphore_Create _ _ _ _ k) as [k' [st r]].
  - by apply Semaphore_Delete_ok.
  - by apply SemaphoreService_Signal_ok.
  - pose proof (Semaphore_Wait_ok h count k Hk).
    by destruct (Semaphore_Wait _ _ k) as [k' [st r]].
  - pose proof (Semaphore_Poll_ok h count k Hk).
    by destruct (Semaphore_Poll _ _ k) as [k' [st r]].
  - destruct Hk as [Hk Hs]. split; [by apply SelectNext_ok|].
    unfold sems_ok. by rewrite SelectNext_handles.
  - destruct Hk as [Hk Hs]. split; [by apply YieldCurrent_ok|].
    unfold sems_ok. by rewrite YieldCurrent_handles.
Qed.

(** What a successful call does to the count of [h]. *)
Definition sem_delta (h : Z) (op : sem_op) (st : KernelStatus) : Z :=
  if status_eqb st kOk then
    match op with
    | SemSignal h' c => if h' =? h then c else 0
    | SemWait h' c | SemPoll h' c => if h' =? h then - c else 0
    | _ => 0
    end
  else 0.

Definition deletes (h : Z) (op : sem_op) : Prop :=
  match op with SemDelete h' => h' = h | _ => False end.

Lemma sem_view_live k h v : sem_view k h = Some v -> exists s, Semaphore_Find h k = Some s /\
  v = (sem_maximum_count_ s, sem_count_ s) /\ h <> 0 /\
  objects_ (handles_ k) !! h = Some (OSemaphore s).
Proof.
  unfold sem_view. intros (s & Hs & Hv)%fmap_Some. exists s.
  apply Semaphore_Find_Some in Hs as Hs'. by destruct Hs'.
Qed.

Lemma Semaphore_Poll_view h c k h' mx n :
  sem_view k h' = Some (mx, n) ->
  let '(k', (st, _)) := Semaphore_Poll h c k in
  sem_view k' h' = Some (mx, n + sem_delta h' (SemPoll h c) st).
Proof.
  intros Hv. destruct (sem_view_live _ _ _ Hv) as (s' & Hs' & Hvs & Hh' & Ho').
  unfold Semaphore_Poll. destruct (Semaphore_Find h k) as [s|] eqn:E.
  2:{ unfold sem_delta. simpl. by rewrite Z.add_0_r. }
  apply Semaphore_Find_Some in E as [Hh Ho].
  unfold Semaphore_TryAcquire, sem_delta.
  destruct (decide (h' = h)) as [->|Hne].
  - assert (s' = s) by congruence. subst s'. injection Hvs as -> ->. rewrite Z.eqb_refl.
    repeat split_match; simplify_eq; rewrite sem_view_modify, decide_True by done; simpl;
      repeat f_equal; lia.
  - replace (h =? h') with false by lia.
    repeat split_match; simplify_eq; rewrite sem_view_modify, decide_False by done; rewrite Hv;
      simpl; repeat f_equal; lia.
Qed.

Lemma sem_step_view op k h mx n :
  sem_kernel_ok k -> sem_view k h = Some (mx, n) -> ~ deletes h op ->
  sem_view (sem_step op k).1 h = Some (mx, n + sem_delta h op (sem_step op k).2).
Proof.
  intros Hk Hv Hnd. destruct (sem_view_live _ _ _ Hv) as (s & Hs & Hvs & Hh & Ho).
  destruct op as [nm a i m|h0|h0 c|h0 c|h0 c| |]; simpl sem_step.
  - unfold Semaphore_Create. split_match; [unfold sem_delta; simpl; by rewrite Z.add_0_r|].
    pose proof (Insert_frame (Some (OSemaphore (mkSemaphore nm a m i))) (handles_ k) h) as Hfr.
    assert (Hne : (Insert (Some (OSemaphore (mkSemaphore nm a m i))) (handles_ k)).2 <> Some h).
    { simpl. destruct (exhausted_ (handles_ k)) eqn:He; [done|]. simpl. intros [= <-].
      pose proof (next_handle_fresh _ (ko_table _ (sk_kernel _ Hk)) He). congruence. }
    specialize (Hfr Hne).
    destruct (Insert _ (handles_ k)) as [tbl [r|]]; simpl in *; unfold sem_delta; simpl;
      rewrite Z.add_0_r, <- Hv; by apply sem_view_handles.
  - unfold Semaphore_Delete. simpl in Hnd.
    pose proof (Remove_lookup h0 kSemaphore (handles_ k) h) as Hl.
    rewrite bool_decide_eq_false_2 in Hl by naive_solver.
    destruct (Remove h0 kSemaphore (handles_ k)) as [tbl [r|]]; simpl in *;
      unfold sem_delta; simpl; rewrite Z.add_0_r, <- Hv; apply sem_view_handles;
      rewrite ?WakeAll_handles; done.
  - unfold SemaphoreService_Signal. destruct (Semaphore_Find h0 k) as [s0|] eqn:E.
    2:{ unfold sem_delta. simpl. by rewrite Z.add_0_r. }
    apply Semaphore_Find_Some in E as [Hh0 Ho0]. unfold Semaphore_Signal, sem_delta.
    destruct (decide (h = h0)) as [->|Hne].
    + assert (s0 = s) by congruence. subst s0. injection Hvs as -> ->. rewrite Z.eqb_refl.
      repeat split_match; simplify_eq; simpl in *;
        rewrite (sem_view_handles (modify_object h0 _ k)) by (by rewrite ?WakeAll_handles);
        rewrite sem_view_modify, decide_True by done; simpl; repeat f_equal; try lia; done.
    + replace (h0 =? h) with false by lia.
      repeat split_match; simplify_eq; simpl in *;
        rewrite (sem_view_handles (modify_object h0 _ k)) by (by rewrite ?WakeAll_handles);
        rewrite sem_view_modify, decide_False by done; rewrite Hv; repeat f_equal; lia.
  - unfold Semaphore_Wait. pose proof (Semaphore_Poll_view h0 c k h mx n Hv) as Hp.
    destruct (Semaphore_Poll h0 c k) as [k1 [st r]].
    destruct (status_eqb st kBusy) eqn:Eb; simpl.
    + apply bool_decide_eq_true in Eb. subst st. unfold BlockCurrent.
      pose proof (BlockCurrentLocked_handles (SemaphoreService_MakeWaitKey h0) None k1) as Hbh.
      destruct (BlockCurrentLocked _ _ _) as [k2 b]. simpl in Hbh.
      assert (sem_view k2 h = Some (mx, n)).
      { rewrite (sem_view_handles k1 k2) by (by rewrite Hbh). rewrite Hp.
        unfold sem_delta. simpl. by rewrite Z.add_0_r. }
      destruct b; simpl; unfold sem_delta; simpl; by rewrite Z.add_0_r.
    + exact Hp.
  - pose proof (Semaphore_Poll_view h0 c k h mx n Hv) as Hp.
    by destruct (Semaphore_Poll h0 c k) as [k1 [st r]].
  - unfold sem_delta. simpl. rewrite Z.add_0_r, <- Hv. apply sem_view_handles.
    by rewrite SelectNext_handles.
  - unfold sem_delta. simpl. rewrite Z.add_0_r, <- Hv. apply sem_view_handles.
    by rewrite YieldCurrent_handles.
Qed.

(** Run a history; the log keeps each call with its status. *)
Fixpoint sem_run (ops : list sem_op) k : Kernel * list (sem_op * KernelStatus) :=
  match ops with
  | [] => (k, [])
  | op :: rest =>
      let '(k1, st) := sem_step op k in
      let '(k2, log) := sem_run rest k1 in (k2, (op, st) :: log)
  end.

Definition net_delta (h : Z) (log : list (sem_op * KernelStatus)) : Z :=
  foldr (fun e acc => sem_delta h e.1 e.2 + acc) 0 log.

Lemma sem_view_bounds k h mx n :
  sem_kernel_ok k -> sem_view k h = Some (mx, n) -> 0 <= n <= mx.
Proof.
  intros Hk Hv. destruct (sem_view_live _ _ _ Hv) as (s & _ & [= -> ->] & _ & Ho).
  by apply (sk_sems _ Hk) in Ho as [_ ?].
Qed.

(** Conservation of semaphore counts: over any history of service calls and
    context switches that does not delete the semaphore, its count is the
    initial count plus the units of the successful signals minus the units of
    the successful waits and polls, and it always lies between zero and the
    maximum. *)
Theorem semaphore_conservation (ops : list sem_op) k h mx n :
  sem_kernel_ok k -> Forall sem_op_ok ops -> sem_view k h = Some (mx, n) ->
  Forall (fun op => ~ deletes h op) ops ->
  let '(k', log) := sem_run ops k in
  sem_view k' h = Some (mx, n + net_delta h log) /\ 0 <= n + net_delta h log <= mx.
Proof.
  revert k n. induction ops as [|op ops IH]; intros k n Hk Hops Hv Hd.
  - simpl. rewrite Z.add_0_r. split; [done|by eapply sem_view_bounds].
  - apply Forall_cons in Hops as [Hop Hops]. apply Forall_cons in Hd as [Hd1 Hd].
    pose proof (sem_step_ok op k Hop Hk) as Hk'.
    pose proof (sem_step_view op k h mx n Hk Hv Hd1) as Hv'.
    simpl. destruct (sem_step op k) as [k1 st]. simpl in *.
    specialize (IH k1 _ Hk' Hops Hv' Hd).
    destruct (sem_run ops k1) as [k2 log]. simpl in *.
    replace (n + (sem_delta h op st + net_delta h log))
      with (n + sem_delta h op st + net_delta h log) by lia. exact IH.
Qed.

(** ** Blocking and waking *)

Lemma Signal_view_ok h c k mx n :
  sem_view k h = Some (mx, n) -> 0 < c <= mx - n ->
  exists s', SemaphoreService_Signal h c k =
    (WakeAll (SemaphoreService_MakeWaitKey h) (modify_object h (OSemaphore s') k), kOk) /\
    sem_maximum_count_ s' = mx /\ sem_count_ s' = n + c.
Proof.
  intros Hv Hc. destruct (sem_view_live _ _ _ Hv) as (s & Hs & [= -> ->] & _ & _).
  unfold SemaphoreService_Signal, Semaphore_Signal. rewrite Hs.
  replace (c <=? 0) with false by lia.
  replace (c >? sem_maximum_count_ s - sem_count_ s) with false by lia.
  eexists. by split_and!.
Qed.

(** A signal that fits under the maximum succeeds, adds its units and leaves
    no thread blocked on the semaphore: every thread that was waiting without a
    lapsed deadline is ready afterwards, and threads waiting for anything else
    whose deadline has not passed are untouched.  A signal that does not fit is
    refused and changes nothing. *)
Theorem Signal_wakes_all_waiters h c k mx n :
  sem_kernel_ok k -> sem_view k h = Some (mx, n) ->
  let key := SemaphoreService_MakeWaitKey h in
  let now := source_monotonic (clock_reads (clock_ k)) in
  let '(k', st) := SemaphoreService_Signal h c k in
  if (0 <? c) && (c <=? mx - n) then
    st = kOk /\ sem_view k' h = Some (mx, n + c) /\
    (forall h' t, om_find h' (threads_ (scheduler_ k')) = Some t -> blocked_on key t = false) /\
    (forall h' t, om_find h' (threads_ (scheduler_ k)) = Some t -> blocked_on key t = true ->
       in_state (scheduler_ k') h' kReady) /\
    (forall h' t, om_find h' (threads_ (scheduler_ k)) = Some t ->
       blocked_on key t = false -> expired_at now t = false ->
       om_find h' (threads_ (scheduler_ k')) = Some t)
  else st = kInvalidArgument /\ sem_view k' h = Some (mx, n) /\ scheduler_ k' = scheduler_ k.
Proof.
  intros Hk Hv. cbn zeta. set (key := SemaphoreService_MakeWaitKey h).
  assert (Hkey : key <> EmptyString) by done.
  destruct ((0 <? c) && (c <=? mx - n)) eqn:E.
  - destruct (Signal_view_ok h c k mx n Hv ltac:(lia)) as (s' & -> & Hmx & Hn).
    pose proof (sem_view_live _ _ _ Hv) as (s & Hs & _ & Hh & Ho).
    set (k1 := modify_object h (OSemaphore s') k).
    assert (Hk1 : kernel_ok k1) by (eapply modify_object_ok; [apply Hk|exact Ho|done]).
    split_and!; [done| | | |].
    + rewrite (sem_view_handles k1) by (by rewrite WakeAll_handles).
      unfold k1. rewrite sem_view_modify, decide_True by done. by rewrite Hmx, Hn.
    + intros h' t Ht. by eapply WakeAll_none_blocked.
    + intros h' t Ht Hb. eexists. split; [by apply (WakeAll_find key k1 h' t)|].
      unfold after_wake. fold key. rewrite Hb. by destruct (expired_at _ t).
    + intros h' t Ht Hb He. by apply WakeAll_frame.
  - destruct (sem_view_live _ _ _ Hv) as (s & Hs & [= -> ->] & Hh & Ho).
    unfold SemaphoreService_Signal, Semaphore_Signal. rewrite Hs.
    assert (Hk' : sem_view (modify_object h (OSemaphore s) k) h =
                  Some (sem_maximum_count_ s, sem_count_ s))
      by (rewrite sem_view_modify, decide_True; done).
    destruct (c <=? 0) eqn:E1; [by split_and!|].
    destruct (c >? _) eqn:E2; [by split_and!|]. lia.
Qed.

(** [Wait] takes the units at once when the count suffices, and otherwise
    leaves the count alone and parks the running thread on the semaphore's key
    with no deadline, freeing the lane; with no running thread it reports busy. *)
Theorem Wait_acquires_or_blocks h c k mx n :
  sem_kernel_ok k -> sem_view k h = Some (mx, n) -> 0 < c <= mx ->
  let '(k', (st, remaining)) := Semaphore_Wait h c k in
  if c <=? n then
    st = kOk /\ remaining = n - c /\ sem_view k' h = Some (mx, n - c) /\
    scheduler_ k' = scheduler_ k
  else
    remaining = n /\ sem_view k' h = Some (mx, n) /\
    match current_thread_ (scheduler_ k) with
    | None => st = kBusy /\ scheduler_ k' = scheduler_ k
    | Some me =>
        st = kWouldBlock /\ current_thread_ (scheduler_ k') = None /\
        exists t, om_find me (threads_ (scheduler_ k')) = Some t /\
          blocked_on (SemaphoreService_MakeWaitKey h) t = true /\ th_wait_deadline t = None
    end.
Proof.
  intros Hk Hv Hc.
  destruct (sem_view_live _ _ _ Hv) as (s & Hs & [= -> ->] & Hh & Ho).
  assert (Hmod : forall s', sem_view (modify_object h (OSemaphore s') k) h =
                  Some (sem_maximum_count_ s', sem_count_ s'))
    by (intros; rewrite sem_view_modify, decide_True; done).
  unfold Semaphore_Wait, Semaphore_Poll, Semaphore_TryAcquire. rewrite Hs.
  replace ((c <=? 0) || (c >? sem_maximum_count_ s)) with false by lia.
  destruct (sem_count_ s <? c) eqn:E; replace (c <=? sem_count_ s) with (negb (sem_count_ s <? c)) by lia;
    rewrite E; simpl negb; cbn iota; [|by split_and!].
  simpl (status_eqb kBusy kBusy). cbn iota. set (k1 := modify_object h (OSemaphore s) k).
  assert (Hk1 : kernel_ok k1) by (eapply modify_object_ok; [apply Hk|exact Ho|done]).
  unfold BlockCurrent. set (key := SemaphoreService_MakeWaitKey h).
  pose proof (BlockCurrentLocked_handles key None k1) as Hbh.
  destruct (current_thread_ (scheduler_ k)) as [me|] eqn:Hcur.
  - destruct (BlockCurrentLocked_spec key None k1 me Hk1 ltac:(done) Hcur) as (Hb & Hc' & t & Ht & Hst & Hwk & Hd).
    destruct (BlockCurrentLocked key None k1) as [k2 b]. simpl in *. subst b. simpl.
    split_and!; [done| |done|done|].
    + rewrite (sem_view_handles k1) by (by rewrite Hbh). apply Hmod.
    + exists t. split_and!; [done|by apply blocked_on_true|done].
  - rewrite (BlockCurrentLocked_none key None k1 Hcur). simpl.
    split_and!; [done|apply Hmod|done|done].
Qed.
End histories.
