(* ===== verification/EventFlagService.v ===== *)
(** [kernel::EventFlagService] ([src/kernel/event_flag.cpp]).

    Event flags are 64-bit patterns; setting ORs, clearing ANDs, and a wait is
    satisfied when all or any of the requested bits are set. *)
From S2P Require Import Prelude Ranges OrderedMap WaitKeys HandleTable Objects.
From S2P Require Import Clock Scheduler SchedulerInv SchedulerProps WakeAll.

Definition kMaximumEventFlagNameLength : nat := 31.
Definition kEventFlagThreadFifo : Z := 0x01.
Definition kEventFlagThreadPriority : Z := 0x02.
Definition kEventFlagSingle : Z := 0x10.
Definition kEventFlagMulti : Z := 0x20.
Definition kEventFlagWaitAll : Z := 0x01.
Definition kEventFlagWaitAny : Z := 0x02.
Definition kEventFlagClearAll : Z := 0x10.
Definition kEventFlagClearPattern : Z := 0x20.

Definition EventFlag_IsValidAttributes (attributes : Z) : bool :=
  let queue_mode := Z.land attributes 0x0f in
  let thread_mode := Z.land attributes 0xf0 in
  let queue_valid := (queue_mode =? 0) || (queue_mode =? kEventFlagThreadFifo)
                     || (queue_mode =? kEventFlagThreadPriority) in
  let thread_valid := (thread_mode =? 0) || (thread_mode =? kEventFlagSingle)
                      || (thread_mode =? kEventFlagMulti) in
  queue_valid && thread_valid && (Z.ldiff attributes 0x33 =? 0).

(** [false] from the C++ function is [None]; the out-parameters are the pair. *)
Definition DecodeWaitMode (wait_mode : Z)
    : option (EventFlagWaitCondition * EventFlagClearMode) :=
  let low := Z.land wait_mode 0x0f in
  let high := Z.land wait_mode 0xf0 in
  match (if low =? kEventFlagWaitAll then Some kWaitAll
         else if low =? kEventFlagWaitAny then Some kWaitAny else None) with
  | None => None
  | Some condition =>
      match (if high =? 0 then Some kClearNone
             else if high =? kEventFlagClearAll then Some kClearAll
             else if high =? kEventFlagClearPattern then Some kClearPattern
             else None) with
      | None => None
      | Some clear_mode =>
          if Z.ldiff wait_mode 0x33 =? 0 then Some (condition, clear_mode) else None
      end
  end.

Section service.
Context `{ClockSource}.
Implicit Types (k : Kernel).

Definition EventFlag_Find (h : Z) k : option EventFlag :=
  Find h kEventFlag (handles_ k) ≫= as_event_flag.

Definition EventFlag_Create (name : string) (attributes initial_pattern : Z) k
    : Kernel * (KernelStatus * Z) :=
  if (kMaximumEventFlagNameLength <? String.length name)%nat
     || negb (EventFlag_IsValidAttributes attributes)
  then (k, (kInvalidArgument, kInvalidKernelHandle))
  else
    let '(table, handle) :=
      Insert (Some (OEventFlag (mkEventFlag name attributes initial_pattern))) (handles_ k) in
    match handle with
    | None => (with_handles k table, (kNoResources, kInvalidKernelHandle))
    | Some h => (with_handles k table, (kOk, h))
    end.

Definition EventFlag_Delete (h : Z) k : Kernel * KernelStatus :=
  let '(table, removed) := Remove h kEventFlag (handles_ k) in
  match removed with
  | None => (with_handles k table, kNotFound)
  | Some _ => (WakeAll (EventFlagService_MakeWaitKey h) (with_handles k table), kOk)
  end.

Definition EventFlagService_Set (h pattern : Z) k : Kernel * KernelStatus :=
  match EventFlag_Find h k with
  | None => (k, kNotFound)
  | Some e =>
      (WakeAll (EventFlagService_MakeWaitKey h)
         (modify_object h (OEventFlag (EventFlag_Set e pattern)) k), kOk)
  end.

Definition EventFlagService_Clear (h mask : Z) k : Kernel * KernelStatus :=
  match EventFlag_Find h k with
  | None => (k, kNotFound)
  | Some e => (modify_object h (OEventFlag (EventFlag_Clear e mask)) k, kOk)
  end.

(** The result pair is [EventFlagPollResult{status, observed_pattern}]. *)
Definition EventFlagService_Poll (h pattern wait_mode : Z) k
    : Kernel * (KernelStatus * Z) :=
  match EventFlag_Find h k with
  | None => (k, (kNotFound, 0))
  | Some e =>
      match (if pattern =? 0 then None else DecodeWaitMode wait_mode) with
      | None => (k, (kInvalidArgument, 0))
      | Some (condition, clear_mode) =>
          let '(e', (satisfied, observed)) := EventFlag_Poll e pattern condition clear_mode in
          (modify_object h (OEventFlag e') k, (if satisfied then kOk else kBusy, observed))
      end
  end.

Definition EventFlagService_Wait (h pattern wait_mode : Z) k
    : Kernel * (KernelStatus * Z) :=
  let '(k1, (status, observed)) := EventFlagService_Poll h pattern wait_mode k in
  if negb (status_eqb status kBusy) then (k1, (status, observed))
  else
    let '(k2, blocked) := BlockCurrent (EventFlagService_MakeWaitKey h) k1 in
    if negb blocked then (k2, (status, observed))
    else (k2, (kWouldBlock, observed)).

(** ** Views and invariant *)

Lemma EventFlag_Find_Some h k e :
  EventFlag_Find h k = Some e <-> h <> 0 /\ objects_ (handles_ k) !! h = Some (OEventFlag e).
Proof.
  unfold EventFlag_Find. split.
  - intros (o & (Hh & Ho & Hty)%Find_Some & Ha)%bind_Some.
    destruct o; try discriminate Ha. simpl in Ha. by simplify_eq.
  - intros [Hh Ho]. apply bind_Some. exists (OEventFlag e). split; [|done].
    by apply Find_Some.
Qed.

(** The pattern behind a live handle. *)
Definition flag_view k (h : Z) : option Z := ef_bits_ <$> EventFlag_Find h k.

Lemma flag_view_live k h b : flag_view k h = Some b -> exists e,
  EventFlag_Find h k = Some e /\ b = ef_bits_ e /\ h <> 0 /\
  objects_ (handles_ k) !! h = Some (OEventFlag e).
Proof.
  unfold flag_view. intros (e & He & Hb)%fmap_Some. exists e.
  apply EventFlag_Find_Some in He as He'. by destruct He'.
Qed.

Lemma flag_view_handles k k' h :
  objects_ (handles_ k') !! h = objects_ (handles_ k) !! h -> flag_view k' h = flag_view k h.
Proof. intros Heq. unfold flag_view, EventFlag_Find, Find. by rewrite Heq. Qed.

Lemma flag_view_modify k h e h' :
  h <> 0 ->
  flag_view (modify_object h (OEventFlag e) k) h' =
  if decide (h' = h) then Some (ef_bits_ e) else flag_view k h'.
Proof.
  intros Hh. unfold flag_view, EventFlag_Find, Find, kInvalidKernelHandle. simpl.
  case_decide as Hd.
  - subst h'. replace (h =? 0) with false by lia. by rewrite lookup_insert_eq.
  - by rewrite lookup_insert_ne.
Qed.

(** When a request is satisfied, bit by bit. *)
Definition flag_satisfied (c : EventFlagWaitCondition) (bits pattern : Z) : Prop :=
  match c with
  | kWaitAll => forall i, 0 <= i -> Z.testbit pattern i = true -> Z.testbit bits i = true
  | kWaitAny => exists i, 0 <= i /\ Z.testbit pattern i = true /\ Z.testbit bits i = true
  end.

(** What a satisfied request leaves behind. *)
Definition flag_after (m : EventFlagClearMode) (bits pattern : Z) : Z :=
  match m with
  | kClearNone => bits
  | kClearAll => 0
  | kClearPattern => Z.ldiff bits pattern
  end.

Lemma land_all_iff bits pattern :
  Z.land bits pattern = pattern <->
  forall i, 0 <= i -> Z.testbit pattern i = true -> Z.testbit bits i = true.
Proof.
  split.
  - intros Heq i Hi Hp. rewrite <- Heq, Z.land_spec in Hp. by apply andb_true_iff in Hp as [? _].
  - intros Hall. apply Z.bits_inj'. intros i Hi. rewrite Z.land_spec.
    destruct (Z.testbit pattern i) eqn:E; [by rewrite Hall|by rewrite andb_false_r].
Qed.

Lemma land_any_iff bits pattern :
  Z.land bits pattern <> 0 <->
  exists i, 0 <= i /\ Z.testbit pattern i = true /\ Z.testbit bits i = true.
Proof.
  split.
  - intros Hne.
    destruct (decide (0 <= Z.land bits pattern)) as [Hpos|Hneg].
    + exists (Z.log2 (Z.land bits pattern)).
      pose proof (Z.bit_log2 (Z.land bits pattern) ltac:(lia)) as Hb.
      rewrite Z.land_spec in Hb. apply andb_true_iff in Hb as [Hb Hp].
      split_and!; [apply Z.log2_nonneg|done|done].
    + exists (Z.log2 (Z.lnot (Z.land bits pattern)) + 1).
      assert (0 <= Z.log2 (Z.lnot (Z.land bits pattern))) by apply Z.log2_nonneg.
      assert (Hb : Z.testbit (Z.land bits pattern)
                 (Z.log2 (Z.lnot (Z.land bits pattern)) + 1) = true).
      { rewrite <- (Z.lnot_involutive (Z.land bits pattern)) at 1.
        rewrite Z.lnot_spec by lia. rewrite Z.bits_above_log2; [done| |lia].
        rewrite Z.lnot_nonneg. lia. }
      rewrite Z.land_spec in Hb. apply andb_true_iff in Hb as [Hb Hp].
      split_and!; [lia|done|done].
  - intros (i & Hi & Hp & Hb) Heq.
    assert (Ht : Z.testbit (Z.land bits pattern) i = true) by (by rewrite Z.land_spec, Hb, Hp).
    by rewrite Heq, Z.bits_0 in Ht.
Qed.

Lemma EventFlag_Poll_spec e pattern c m :
  let '(e', (sat, observed)) := EventFlag_Poll e pattern c m in
  observed = ef_bits_ e /\
  (sat = true <-> flag_satisfied c (ef_bits_ e) pattern) /\
  ef_bits_ e' = if sat then flag_after m (ef_bits_ e) pattern else ef_bits_ e.
Proof.
  unfold EventFlag_Poll.
  assert (Hs : (match c with
                | kWaitAll => Z.land (ef_bits_ e) pattern =? pattern
                | kWaitAny => negb (Z.land (ef_bits_ e) pattern =? 0)
                end) = true <-> flag_satisfied c (ef_bits_ e) pattern).
  { destruct c; simpl; [rewrite Z.eqb_eq; apply land_all_iff|].
    rewrite negb_true_iff, Z.eqb_neq. apply land_any_iff. }
  destruct (match c with kWaitAll => _ | kWaitAny => _ end); simpl;
    split_and!; try done; by destruct m.
Qed.

(** ** Preservation of the kernel invariant *)

Lemma flag_modify_ok h e e' k :
  kernel_ok k -> EventFlag_Find h k = Some e -> kernel_ok (modify_object h (OEventFlag e') k).
Proof. intros Hk [_ Ho]%EventFlag_Find_Some. by eapply modify_object_ok. Qed.

Lemma EventFlag_Create_ok name a b k : kernel_ok k -> kernel_ok (EventFlag_Create name a b k).1.
Proof.
  intros Hk. unfold EventFlag_Create. split_match; [done|].
  destruct (Insert _ (handles_ k)) as [tbl r] eqn:Ei.
  assert (kernel_ok (with_handles k tbl)) by (by eapply insert_object_ok; [done| |exact Ei]).
  by destruct r.
Qed.

Lemma EventFlag_Delete_ok h k : kernel_ok k -> kernel_ok (EventFlag_Delete h k).1.
Proof.
  intros Hk. unfold EventFlag_Delete.
  destruct (Remove h kEventFlag (handles_ k)) as [tbl r] eqn:Er.
  assert (kernel_ok (with_handles k tbl)) by (by eapply remove_object_ok; [done| |exact Er]).
  destruct r; [by apply WakeAll_ok|done].
Qed.

Lemma EventFlagService_Set_ok h p k : kernel_ok k -> kernel_ok (EventFlagService_Set h p k).1.
Proof.
  intros Hk. unfold EventFlagService_Set. destruct (EventFlag_Find h k) eqn:E; [|done].
  apply WakeAll_ok. by eapply flag_modify_ok.
Qed.

Lemma EventFlagService_Clear_ok h p k : kernel_ok k -> kernel_ok (EventFlagService_Clear h p k).1.
Proof.
  intros Hk. unfold EventFlagService_Clear. destruct (EventFlag_Find h k) eqn:E; [|done].
  by eapply flag_modify_ok.
Qed.

Lemma EventFlagService_Poll_ok h p m k :
  kernel_ok k -> kernel_ok (EventFlagService_Poll h p m k).1.
Proof.
  intros Hk. unfold EventFlagService_Poll. destruct (EventFlag_Find h k) eqn:E; [|done].
  destruct (if p =? 0 then _ else _) as [[c cl]|]; [|done].
  destruct (EventFlag_Poll _ _ _ _) as [e' [sat ob]]. by eapply flag_modify_ok.
Qed.

Lemma EventFlagService_Wait_ok h p m k :
  kernel_ok k -> kernel_ok (EventFlagService_Wait h p m k).1.
Proof.
  intros Hk. unfold EventFlagService_Wait. pose proof (EventFlagService_Poll_ok h p m k Hk) as Hp.
  destruct (EventFlagService_Poll h p m k) as [k1 [st ob]]. simpl in Hp. split_match; [done|].
  unfold BlockCurrent.
  pose proof (BlockCurrentLocked_ok (EventFlagService_MakeWaitKey h) None k1 Hp) as Hb.
  destruct (BlockCurrentLocked _ _ _) as [k2 b]. simpl in Hb. by destruct b.
Qed.

(** ** Accepted arguments *)

Lemma ldiff_0x33_small m : 0 <= m -> Z.ldiff m 0x33 = 0 -> m < 64.
Proof.
  intros Hm Hd. assert (Heq : m = Z.land m 0x33).
  { apply Z.bits_inj'. intros i Hi. rewrite Z.land_spec.
    assert (Ht : Z.testbit (Z.ldiff m 0x33) i = false) by (rewrite Hd; apply Z.bits_0).
    rewrite Z.ldiff_spec in Ht. destruct (Z.testbit m i), (Z.testbit 0x33 i); done. }
  rewrite Heq.
  destruct (decide (Z.land m 0x33 = 0)) as [->|Hne]; [done|].
  assert (0 <= Z.land m 0x33) by lia.
  apply (Z.log2_lt_pow2 _ 6); [lia|]. pose proof (Z.log2_land m 0x33 Hm ltac:(done)) as Hl.
  change (Z.log2 0x33) with 5 in Hl. lia.
Qed.

Definition small_modes : list Z := Z.of_nat <$> seq 0 64.

Lemma small_modes_elem m : 0 <= m < 64 -> m ∈ small_modes.
Proof.
  intros Hm. apply list_elem_of_fmap. exists (Z.to_nat m). split; [lia|].
  apply elem_of_seq. lia.
Qed.

(** The encodings of the two enumerations in a wait mode. *)
Definition wait_condition_bits (c : EventFlagWaitCondition) : Z :=
  match c with kWaitAll => kEventFlagWaitAll | kWaitAny => kEventFlagWaitAny end.

Definition clear_mode_bits (m : EventFlagClearMode) : Z :=
  match m with
  | kClearNone => 0
  | kClearAll => kEventFlagClearAll
  | kClearPattern => kEventFlagClearPattern
  end.

Definition decode_agrees (m : Z) : bool :=
  match DecodeWaitMode m with
  | Some (c, cl) => m =? wait_condition_bits c + clear_mode_bits cl
  | None => true
  end.

Definition attributes_agree (a : Z) : bool :=
  negb (EventFlag_IsValidAttributes a)
  || existsb (fun q => existsb (fun t => a =? q + t) [0; 0x10; 0x20]) [0; 1; 2].

Lemma small_modes_checked :
  forallb decode_agrees small_modes && forallb attributes_agree small_modes = true.
Proof. reflexivity. Qed.

Lemma DecodeWaitMode_bits m r : DecodeWaitMode m = Some r -> Z.ldiff m 0x33 = 0.
Proof. unfold DecodeWaitMode. intros Hd. repeat split_match_in Hd; simplify_eq; lia. Qed.

(** The event-flag service accepts exactly the documented encodings: a wait
    mode decodes iff it is one of the two conditions plus one of the three
    clear modes, and decoding inverts that encoding; an attribute word is valid
    iff it is a queue mode (none, FIFO, priority) plus a thread mode (none,
    single, multi). *)
Theorem event_flag_encodings_exact (w : Z) :
  0 <= w < 2 ^ 32 ->
  (forall c cl, DecodeWaitMode w = Some (c, cl) <->
     w = wait_condition_bits c + clear_mode_bits cl) /\
  (EventFlag_IsValidAttributes w = true <->
     exists q t, w = q + t /\ q ∈ [0; kEventFlagThreadFifo; kEventFlagThreadPriority] /\
       t ∈ [0; kEventFlagSingle; kEventFlagMulti]).
Proof.
  intros Hw. pose proof small_modes_checked as [Hd Ha]%andb_true_iff.
  rewrite forallb_forall in Hd, Ha. split.
  - intros c cl. split; [|by intros ->; destruct c, cl]. intros Hdec.
    assert (Hs : w < 64) by (eapply ldiff_0x33_small; [lia|by eapply DecodeWaitMode_bits]).
    specialize (Hd w ltac:(apply list_elem_of_In, small_modes_elem; lia)).
    unfold decode_agrees in Hd. rewrite Hdec in Hd. lia.
  - split.
    + intros Hv. assert (Hs : w < 64).
      { apply ldiff_0x33_small; [lia|]. unfold EventFlag_IsValidAttributes in Hv. lia. }
      specialize (Ha w ltac:(apply list_elem_of_In, small_modes_elem; lia)).
      unfold attributes_agree in Ha. rewrite Hv in Ha. simpl negb in Ha. rewrite orb_false_l in Ha.
      apply existsb_exists in Ha as (q & Hq & (t & Ht & Heq)%existsb_exists).
      exists q, t. rewrite !list_elem_of_In. split_and!; [lia|done|done].
    + intros (q & t & -> & Hq & Ht). rewrite !elem_of_cons in Hq, Ht.
      destruct Hq as [->|[->|[->|[]%elem_of_nil]]];
        destruct Ht as [->|[->|[->|[]%elem_of_nil]]]; reflexivity.
Qed.

(** ** Setting and waiting *)

(** [Set] ORs its pattern into the flag, leaves every other flag alone and
    leaves no thread blocked on the flag: each waiter becomes ready, and a
    thread waiting for something else whose deadline has not passed is
    untouched. *)
Theorem EventFlag_Set_wakes_all h p k b :
  kernel_ok k -> flag_view k h = Some b ->
  let key := EventFlagService_MakeWaitKey h in
  let now := source_monotonic (clock_reads (clock_ k)) in
  let '(k', st) := EventFlagService_Set h p k in
  st = kOk /\ flag_view k' h = Some (Z.lor b p) /\
  (forall h', h' <> h -> flag_view k' h' = flag_view k h') /\
  (forall h' t, om_find h' (threads_ (scheduler_ k')) = Some t -> blocked_on key t = false) /\
  (forall h' t, om_find h' (threads_ (scheduler_ k)) = Some t -> blocked_on key t = true ->
     in_state (scheduler_ k') h' kReady) /\
  (forall h' t, om_find h' (threads_ (scheduler_ k)) = Some t ->
     blocked_on key t = false -> expired_at now t = false ->
     om_find h' (threads_ (scheduler_ k')) = Some t).
Proof.
  intros Hk Hv. cbn zeta. set (key := EventFlagService_MakeWaitKey h).
  assert (Hkey : key <> EmptyString) by done.
  destruct (flag_view_live _ _ _ Hv) as (e & He & -> & Hh & Ho).
  unfold EventFlagService_Set. rewrite He. fold key.
  set (k1 := modify_object h _ k).
  assert (Hk1 : kernel_ok k1) by (by eapply flag_modify_ok).
  assert (Hv1 : forall h', flag_view (WakeAll key k1) h' = flag_view k1 h')
    by (intros; apply flag_view_handles; by rewrite WakeAll_handles).
  split_and!.
  - done.
  - rewrite Hv1. unfold k1. by rewrite flag_view_modify, decide_True.
  - intros h' Hne. rewrite Hv1. unfold k1. by rewrite flag_view_modify, decide_False.
  - intros h' t Ht. by eapply WakeAll_none_blocked.
  - intros h' t Ht Hb. eexists. split; [by apply (WakeAll_find key k1 h' t)|].
    unfold after_wake. rewrite Hb. by destruct (expired_at _ t).
  - intros h' t Ht Hb Hx. by apply WakeAll_frame.
Qed.

(** Waiting on an event flag with a valid mode reports the pattern it
    observed; if all (any) of the requested bits are set it succeeds, applies
    the clear mode to exactly this flag and does not reschedule; otherwise the
    flag is unchanged and the running thread is parked on the flag's key
    without deadline (or the call is busy when no thread runs). *)
Theorem EventFlag_Wait_semantics h p m k b c cl :
  kernel_ok k -> flag_view k h = Some b -> p <> 0 -> DecodeWaitMode m = Some (c, cl) ->
  let '(k', (st, observed)) := EventFlagService_Wait h p m k in
  observed = b /\
  ((flag_satisfied c b p /\ st = kOk /\ flag_view k' h = Some (flag_after cl b p) /\
    scheduler_ k' = scheduler_ k) \/
   (~ flag_satisfied c b p /\ flag_view k' h = Some b /\
    match current_thread_ (scheduler_ k) with
    | None => st = kBusy /\ scheduler_ k' = scheduler_ k
    | Some me =>
        st = kWouldBlock /\ current_thread_ (scheduler_ k') = None /\
        exists t, om_find me (threads_ (scheduler_ k')) = Some t /\
          blocked_on (EventFlagService_MakeWaitKey h) t = true /\ th_wait_deadline t = None
    end)).
Proof.
  intros Hk Hv Hp Hm. destruct (flag_view_live _ _ _ Hv) as (e & He & -> & Hh & Ho).
  unfold EventFlagService_Wait, EventFlagService_Poll. rewrite He, Hm.
  replace (p =? 0) with false by lia. cbn iota.
  pose proof (EventFlag_Poll_spec e p c cl) as Hspec.
  destruct (EventFlag_Poll e p c cl) as [e' [sat ob]]. destruct Hspec as (-> & Hsat & Hbits).
  set (k1 := modify_object h (OEventFlag e') k).
  assert (Hk1 : kernel_ok k1) by (by eapply flag_modify_ok).
  assert (Hv1 : flag_view k1 h = Some (ef_bits_ e'))
    by (unfold k1; by rewrite flag_view_modify, decide_True).
  destruct sat; cbn iota.
  { simpl. split; [done|]. left. split_and!; [by apply Hsat|done|by rewrite Hv1, Hbits|done]. }
  simpl (status_eqb kBusy kBusy). simpl negb. cbn iota. unfold BlockCurrent.
  set (key := EventFlagService_MakeWaitKey h).
  assert (Hns : ~ flag_satisfied c (ef_bits_ e) p) by (intros Hs; by apply Hsat in Hs).
  pose proof (BlockCurrentLocked_handles key None k1) as Hbh.
  destruct (current_thread_ (scheduler_ k)) as [me|] eqn:Hcur.
  - destruct (BlockCurrentLocked_spec key None k1 me Hk1 ltac:(done) Hcur)
      as (Hb & Hc' & t & Ht & Hst & Hwk & Hd).
    destruct (BlockCurrentLocked key None k1) as [k2 bl]. simpl in *. subst bl. simpl.
    split; [done|]. right. split_and!; [done| |done|done|].
    + rewrite (flag_view_handles k1) by (by rewrite Hbh). by rewrite Hv1, Hbits.
    + exists t. split_and!; [done|by apply blocked_on_true|done].
  - rewrite (BlockCurrentLocked_none key None k1 Hcur). simpl.
    split; [done|]. right. split_and!; [done|by rewrite Hv1, Hbits|done|done].
Qed.
End service.
