(* ===== verification/CxaGuard.v ===== *)
(** [kernel::CxaGuardService] ([src/kernel/cxa_guard.cpp]).

    The guards of function-local statics: [Acquire] elects one initialising
    thread per guard address and parks the others; [Release] and [Abort] end the
    initialisation.  The service's own state is the map [owners_]; it acts on
    the shared kernel through the scheduler.  [Acquire] and [Complete] are
    called on behalf of the running guest thread, and there is one such thread
    at a time, so each call is one transition. *)
From S2P Require Import Prelude Ranges OrderedMap WaitKeys HandleTable Objects.
From S2P Require Import Clock Scheduler SchedulerInv SchedulerProps WakeAll.

Record CxaGuardService := mkCxaGuards {
  owners_ : list (Z * Z);
  cx_kernel : Kernel
}.

Definition with_owners (g : CxaGuardService) o := mkCxaGuards o (cx_kernel g).
Definition with_cx_kernel (g : CxaGuardService) k := mkCxaGuards (owners_ g) k.

Section guards.
Context `{ClockSource}.
Implicit Types (g : CxaGuardService) (address : Z).

(** The result pair is [CxaGuardAcquireResult{status, should_initialize}]. *)
Definition CxaGuard_Acquire address (initialized : bool) g
    : CxaGuardService * (KernelStatus * bool) :=
  if address =? 0 then (g, (kInvalidArgument, false))
  else match current_thread_ (scheduler_ (cx_kernel g)) with
  | None => (g, (kBusy, false))
  | Some current =>
      if initialized then (g, (kOk, false))
      else match om_find address (owners_ g) with
      | None => (with_owners g (om_emplace address current (owners_ g)), (kOk, true))
      | Some owner =>
          if owner =? current then (g, (kOk, false))
          else
            let '(k, blocked) := BlockCurrent (CxaGuardService_WaitKey address) (cx_kernel g) in
            (with_cx_kernel g k, (if blocked then kWouldBlock else kBusy, false))
      end
  end.

Definition CxaGuard_Complete address g : CxaGuardService * KernelStatus :=
  if address =? 0 then (g, kInvalidArgument)
  else match current_thread_ (scheduler_ (cx_kernel g)) with
  | None => (g, kBusy)
  | Some current =>
      match om_find address (owners_ g) with
      | Some owner =>
          if negb (owner =? current) then (g, kPermissionDenied)
          else (mkCxaGuards (om_erase address (owners_ g))
                  (WakeAll (CxaGuardService_WaitKey address) (cx_kernel g)), kOk)
      | None =>
          (with_cx_kernel g (WakeAll (CxaGuardService_WaitKey address) (cx_kernel g)), kOk)
      end
  end.

Definition CxaGuard_Release address g := CxaGuard_Complete address g.
Definition CxaGuard_Abort address g := CxaGuard_Complete address g.
Definition owned_count g : nat := length (owners_ g).

(** ** Invariant and histories *)

Record cxa_ok g : Prop := {
  cx_kernel_ok : kernel_ok (cx_kernel g);
  cx_sorted : om_sorted (owners_ g)
}.

Inductive cxa_op :=
| CxaAcquire (address : Z) (initialized : bool)
| CxaRelease (address : Z)
| CxaAbort (address : Z)
| CxaSelect
| CxaYield
| CxaExit (value : Z).

(** A call together with the thread that made it and its outcome; only
    [Acquire] can report [should_initialize]. *)
Record cxa_event := mkCxaEvent {
  ce_op : cxa_op; ce_thread : option Z; ce_status : KernelStatus; ce_initialize : bool
}.

Definition cxa_step (op : cxa_op) g : CxaGuardService * cxa_event :=
  let me := current_thread_ (scheduler_ (cx_kernel g)) in
  match op with
  | CxaAcquire a i => let '(g', (st, b)) := CxaGuard_Acquire a i g in (g', mkCxaEvent op me st b)
  | CxaRelease a => let '(g', st) := CxaGuard_Release a g in (g', mkCxaEvent op me st false)
  | CxaAbort a => let '(g', st) := CxaGuard_Abort a g in (g', mkCxaEvent op me st false)
  | CxaSelect => (with_cx_kernel g (SelectNext (cx_kernel g)).1, mkCxaEvent op me kOk false)
  | CxaYield => (with_cx_kernel g (YieldCurrent (cx_kernel g)).1, mkCxaEvent op me kOk false)
  | CxaExit v => (with_cx_kernel g (ExitCurrent v (cx_kernel g)).1, mkCxaEvent op me kOk false)
  end.

Fixpoint cxa_run (ops : list cxa_op) g : CxaGuardService * list cxa_event :=
  match ops with
  | [] => (g, [])
  | op :: rest =>
      let '(g1, e) := cxa_step op g in
      let '(g2, log) := cxa_run rest g1 in (g2, e :: log)
  end.

(** The event hands the initialisation of [a] to a thread. *)
Definition elects (a : Z) (e : cxa_event) : Prop :=
  ce_initialize e = true /\ exists i, ce_op e = CxaAcquire a i.

(** The event is [t]'s own completion of [a]. *)
Definition completes (a t : Z) (e : cxa_event) : Prop :=
  ce_thread e = Some t /\ (ce_op e = CxaRelease a \/ ce_op e = CxaAbort a).

Lemma CxaGuard_Acquire_ok a i g : cxa_ok g -> cxa_ok (CxaGuard_Acquire a i g).1.
Proof.
  intros [Hk Hs]. unfold CxaGuard_Acquire. split_match; [done|].
  destruct (current_thread_ _) as [cur|]; [|done]. destruct i; [done|].
  destruct (om_find a (owners_ g)) as [o|].
  2:{ split; simpl; [done|by apply om_emplace_sorted]. }
  split_match; [done|]. unfold BlockCurrent.
  pose proof (BlockCurrentLocked_ok (CxaGuardService_WaitKey a) None _ Hk) as Hb.
  destruct (BlockCurrentLocked _ _ _) as [k2 b]. by split.
Qed.

Lemma CxaGuard_Complete_ok a g : cxa_ok g -> cxa_ok (CxaGuard_Complete a g).1.
Proof.
  intros [Hk Hs]. unfold CxaGuard_Complete. repeat split_match; try done;
    split; simpl; try done; [by apply WakeAll_ok|by apply om_erase_sorted|by apply WakeAll_ok].
Qed.

Lemma cxa_step_ok op g : cxa_ok g -> cxa_ok (cxa_step op g).1.
Proof.
  intros Hg. destruct op as [a i|a|a| | |v]; simpl.
  - pose proof (CxaGuard_Acquire_ok a i g Hg). by destruct (CxaGuard_Acquire a i g) as [? [? ?]].
  - pose proof (CxaGuard_Complete_ok a g Hg). unfold CxaGuard_Release.
    by destruct (CxaGuard_Complete a g).
  - pose proof (CxaGuard_Complete_ok a g Hg). unfold CxaGuard_Abort.
    by destruct (CxaGuard_Complete a g).
  - split; simpl; [by apply SelectNext_ok, Hg|apply Hg].
  - split; simpl; [by apply YieldCurrent_ok, Hg|apply Hg].
  - split; simpl; [by apply ExitCurrent_ok, Hg|apply Hg].
Qed.

Lemma Complete_other_owner a a' t g :
  om_find a (owners_ g) = Some t ->
  (a' = a -> current_thread_ (scheduler_ (cx_kernel g)) <> Some t) ->
  om_find a (owners_ (CxaGuard_Complete a' g).1) = Some t.
Proof.
  intros Ho Hne. unfold CxaGuard_Complete. split_match; [done|].
  destruct (current_thread_ _) as [cur|]; [|done].
  destruct (om_find a' (owners_ g)) as [o|] eqn:Eo; [|done].
  destruct (o =? cur) eqn:Ec; simpl; [|done].
  assert (a <> a').
  { intros <-. rewrite Ho in Eo. injection Eo as <-. apply Hne; [done|]. f_equal. lia. }
  by rewrite om_find_erase, decide_False.
Qed.

(** While [t] owns [a], one step that is not [t]'s completion keeps the
    ownership and elects nobody for [a]. *)
Lemma cxa_step_owned op g a t :
  cxa_ok g -> om_find a (owners_ g) = Some t ->
  let '(g', e) := cxa_step op g in
  ~ completes a t e -> om_find a (owners_ g') = Some t /\ ~ elects a e.
Proof.
  intros Hg Ho. destruct op as [a' i|a'|a'| | |v]; simpl.
  - pose proof (cx_sorted _ Hg) as Hs. unfold CxaGuard_Acquire.
    destruct (a' =? 0); [by intros _; split; [|intros [? ?]]|].
    destruct (current_thread_ _) as [cur|]; [|by intros _; split; [|intros [? ?]]].
    destruct i; [by intros _; split; [|intros [? ?]]|].
    destruct (om_find a' (owners_ g)) as [o|] eqn:Eo.
    + destruct (o =? cur); [by intros _; split; [|intros [? ?]]|].
      destruct (BlockCurrent _ _) as [k b]. by intros _; split; [|intros [? ?]].
    + intros _. assert (a <> a') by congruence. split.
      * simpl. by rewrite om_find_emplace, decide_False.
      * intros [_ [i [= ->]]]. done.
  - pose proof (Complete_other_owner a a' t g Ho) as Hc. unfold CxaGuard_Release.
    destruct (CxaGuard_Complete a' g) as [g' st]. simpl in *. intros Hne.
    split; [|by intros [? _]]. apply Hc. intros -> Hcur. apply Hne. by split; [|left].
  - pose proof (Complete_other_owner a a' t g Ho) as Hc. unfold CxaGuard_Abort.
    destruct (CxaGuard_Complete a' g) as [g' st]. simpl in *. intros Hne.
    split; [|by intros [? _]]. apply Hc. intros -> Hcur. apply Hne. by split; [|right].
  - by intros _; split; [|intros [? ?]].
  - by intros _; split; [|intros [? ?]].
  - by intros _; split; [|intros [? ?]].
Qed.

(** Mutual exclusion of static initialisation: once a thread has been told
    to initialise the object behind a guard, then over any history of guard
    calls and scheduling in which that thread has not released or aborted the
    guard, nobody is told to initialise it again and the thread stays the
    owner. *)
Theorem cxa_guard_mutual_exclusion (ops : list cxa_op) g a t :
  cxa_ok g ->
  current_thread_ (scheduler_ (cx_kernel g)) = Some t ->
  (CxaGuard_Acquire a false g).2 = (kOk, true) ->
  let '(g', log) := cxa_run ops (CxaGuard_Acquire a false g).1 in
  Forall (fun e => ~ completes a t e) log ->
  om_find a (owners_ g') = Some t /\ Forall (fun e => ~ elects a e) log.
Proof.
  intros Hg Hcur Hacq.
  assert (Ho : om_find a (owners_ (CxaGuard_Acquire a false g).1) = Some t).
  { revert Hacq. pose proof (cx_sorted _ Hg). unfold CxaGuard_Acquire. rewrite Hcur.
    repeat split_match; simpl; intros; simplify_eq. by rewrite om_find_emplace, decide_True. }
  pose proof (CxaGuard_Acquire_ok a false g Hg) as Hg0. revert Hg0 Ho.
  generalize (CxaGuard_Acquire a false g).1. clear g Hg Hcur Hacq.
  induction ops as [|op ops IH]; intros g Hg Ho; simpl; [done|].
  pose proof (cxa_step_owned op g a t Hg Ho) as Hst. pose proof (cxa_step_ok op g Hg) as Hg'.
  destruct (cxa_step op g) as [g1 e]. simpl in Hg'. specialize (IH g1 Hg').
  destruct (cxa_run ops g1) as [g2 log]. intros [He Hlog]%Forall_cons.
  destruct (Hst He) as [Ho1 Hne]. destruct (IH Ho1 Hlog). split; [done|by constructor].
Qed.

(** The end of an initialisation, and contention.  A thread other than the
    owner that reaches the guard is parked on it; it cannot complete the guard;
    and when the owner completes it, the guard is free again and no thread is
    left blocked on it. *)
Theorem cxa_guard_handover g a owner me :
  cxa_ok g -> a <> 0 -> om_find a (owners_ g) = Some owner ->
  current_thread_ (scheduler_ (cx_kernel g)) = Some me ->
  let key := CxaGuardService_WaitKey a in
  if decide (me = owner) then
    let '(g', st) := CxaGuard_Complete a g in
    st = kOk /\ om_find a (owners_ g') = None /\
    (forall h t, om_find h (threads_ (scheduler_ (cx_kernel g'))) = Some t ->
       blocked_on key t = false) /\
    (forall h t, om_find h (threads_ (scheduler_ (cx_kernel g))) = Some t ->
       blocked_on key t = true -> in_state (scheduler_ (cx_kernel g')) h kReady)
  else
    CxaGuard_Complete a g = (g, kPermissionDenied) /\
    let '(g', r) := CxaGuard_Acquire a false g in
    r = (kWouldBlock, false) /\ owners_ g' = owners_ g /\
    current_thread_ (scheduler_ (cx_kernel g')) = None /\
    exists t, om_find me (threads_ (scheduler_ (cx_kernel g'))) = Some t /\
      blocked_on key t = true /\ th_wait_deadline t = None.
Proof.
  intros Hg Ha Ho Hcur. cbn zeta. set (key := CxaGuardService_WaitKey a).
  assert (Hkey : key <> EmptyString) by done. pose proof (cx_kernel_ok _ Hg) as Hk.
  unfold CxaGuard_Complete, CxaGuard_Acquire. fold key. rewrite Hcur, Ho.
  replace (a =? 0) with false by lia. destruct (decide (me = owner)) as [->|Hne].
  - rewrite Z.eqb_refl. simpl. split_and!; [done| | |].
    + rewrite om_find_erase. by rewrite decide_True.
    + intros h t Ht. by eapply WakeAll_none_blocked.
    + intros h t Ht Hb. eexists. split; [by apply WakeAll_find|].
      unfold after_wake. rewrite Hb. by destruct (expired_at _ t).
  - replace (owner =? me) with false by lia. simpl. split; [done|]. unfold BlockCurrent.
    destruct (BlockCurrentLocked_spec key None (cx_kernel g) me Hk Hkey Hcur)
      as (Hb & Hc' & t & Ht & Hst & Hwk & Hd).
    destruct (BlockCurrentLocked key None (cx_kernel g)) as [k2 b]. simpl in *. subst b.
    split_and!; [done|done|done|]. exists t. split_and!; [done|by apply blocked_on_true|done].
Qed.
End guards.
