(* ===== verification/EventQueues.v ===== *)
(** The event-queue object ([kernel::EventQueue] of [src/kernel/event_queue.cpp]):
    its invariant and the life of registration generations.

    The operations are in [Objects]; this file proves that every method keeps
    the queue well formed, that pending events are coalesced per registration,
    and that an event captured under a registration which was since replaced or
    deleted can never pass [IsCurrent] again. *)
From S2P Require Import Prelude Ranges OrderedMap WaitKeys HandleTable Objects Clock Scheduler.
From S2P Require Import SchedulerInv SchedulerProps WakeAll.

Definition reg_id (r : Registration) : Z * Z := (reg_ident r, reg_filter r).
Definition ev_id (e : RegisteredKernelEvent) : Z * Z :=
  (ev_ident (rk_event e), ev_filter (rk_event e)).

(** Generations handed out so far. *)
Definition issued (q : EventQueue) (g : Z) : Prop :=
  1 <= g /\ if generation_exhausted_ q then g <= next_generation_ q else g < next_generation_ q.

Record eq_ok (q : EventQueue) : Prop := {
  eq_next : 1 <= next_generation_ q <= u64_max;
  eq_issued : forall r, r ∈ registrations_ q -> issued q (reg_generation r);
  eq_ids : NoDup (reg_id <$> registrations_ q);
  eq_generations : NoDup (reg_generation <$> registrations_ q);
  eq_pending_ids : NoDup (ev_id <$> pending_events_ q);
  eq_pending_current : forall e, e ∈ pending_events_ q -> EventQueue_IsCurrent q e = true
}.

(** One call of a method of the queue. *)
Inductive eq_step : EventQueue -> EventQueue -> Prop :=
| EqRegister q i f fl ud : eq_step q (EventQueue_RegisterEvent q i f fl ud).1
| EqDelete q i f : eq_step q (EventQueue_DeleteEvent q i f).1
| EqAddUser q i edge : eq_step q (EventQueue_AddUserEvent q i edge).1
| EqDeleteUser q i : eq_step q (EventQueue_DeleteUserEvent q i).1
| EqTriggerUser q i ud : eq_step q (EventQueue_TriggerUserEvent q i ud).1
| EqTriggerFilter q f d : eq_step q (EventQueue_TriggerFirstByFilter q f d).1
| EqPoll q n : eq_step q (EventQueue_Poll q n).1.

(** ** Helpers *)

Lemma reg_matches_id i f r : reg_matches i f r = true <-> reg_id r = (i, f).
Proof.
  unfold reg_matches, reg_id. rewrite andb_true_iff, !Z.eqb_eq.
  split; [intros [-> ->]; done|intros [= -> ->]; done].
Qed.

Lemma pending_matches_id i f e : pending_matches i f e = true <-> ev_id e = (i, f).
Proof.
  unfold pending_matches, ev_id. rewrite andb_true_iff, !Z.eqb_eq.
  split; [intros [-> ->]; done|intros [= -> ->]; done].
Qed.

Lemma pending_of_iff r e :
  pending_of r e = true <-> ev_id e = reg_id r /\ rk_generation e = reg_generation r.
Proof. unfold pending_of. by rewrite andb_true_iff, pending_matches_id, Z.eqb_eq. Qed.

Lemma IsCurrent_iff q e :
  EventQueue_IsCurrent q e = true <->
  exists r, r ∈ registrations_ q /\ reg_id r = ev_id e /\ reg_generation r = rk_generation e.
Proof.
  unfold EventQueue_IsCurrent. rewrite existsb_exists. unfold reg_id, ev_id.
  split; intros (r & Hr & Hp); exists r; rewrite list_elem_of_In in *.
  - split_and!; [done| |lia]. f_equal; lia.
  - destruct Hp as [[= -> ->] ->]. by rewrite !Z.eqb_refl.
Qed.

Lemma update_first_keep {A} (p : A -> bool) f l x :
  x ∈ l -> p x = false -> x ∈ update_first p f l.
Proof.
  induction l as [|y l IH]; simpl; [done|]. intros [->|Hx]%elem_of_cons Hp.
  - rewrite Hp. apply list_elem_of_here.
  - destruct (p y); apply elem_of_cons; right; auto.
Qed.

Lemma erase_first_keep {A} (p : A -> bool) l x : x ∈ l -> p x = false -> x ∈ erase_first p l.
Proof.
  induction l as [|y l IH]; simpl; [done|]. intros [->|Hx]%elem_of_cons Hp.
  - rewrite Hp. apply list_elem_of_here.
  - destruct (p y); [done|]. apply elem_of_cons. right. auto.
Qed.

Lemma update_first_NoDup {A B} (g : A -> B) (p : A -> bool) y l :
  NoDup (g <$> l) -> g y ∉ (g <$> l) -> NoDup (g <$> update_first p (fun _ => y) l).
Proof.
  intros Hnd Hy. induction l as [|x l IH]; simpl; [constructor|].
  rewrite fmap_cons in Hnd, Hy. apply NoDup_cons in Hnd as [Hx Hnd].
  apply not_elem_of_cons in Hy as [Hyx Hy]. destruct (p x).
  - rewrite fmap_cons. by constructor.
  - rewrite fmap_cons. constructor; [|by apply IH]. intros (z & Hz & Hzl)%list_elem_of_fmap.
    apply update_first_elem in Hzl as [Hzl|(? & _ & _ & ->)]; [|done].
    apply Hx, list_elem_of_fmap. eauto.
Qed.

Lemma NoDup_fmap_elem {A B} (g : A -> B) l x y :
  NoDup (g <$> l) -> x ∈ l -> y ∈ l -> g x = g y -> x = y.
Proof.
  induction l as [|z l IH]; [by intros _ ?%elem_of_nil|].
  rewrite fmap_cons. intros [Hz Hnd]%NoDup_cons [->|Hx]%elem_of_cons [->|Hy]%elem_of_cons Hg;
    try done; [..|by apply IH]; destruct Hz; apply list_elem_of_fmap; eauto.
Qed.

Lemma erase_pending_elem i f l e :
  e ∈ erase_pending i f l <-> e ∈ l /\ ev_id e <> (i, f).
Proof.
  unfold erase_pending. rewrite !list_elem_of_In, filter_In.
  rewrite negb_true_iff, <- (pending_matches_id i f e).
  destruct (pending_matches i f e); naive_solver.
Qed.

(** ** Preservation *)

Lemma Register_new q i f fl ud :
  eq_ok q -> generation_exhausted_ q = false ->
  let fresh := mkRegistration i f fl ud (next_generation_ q) in
  let at_max := next_generation_ q =? u64_max in
  let next := if at_max then next_generation_ q else (next_generation_ q + 1)%u64 in
  forall regs,
    (forall r, r ∈ regs -> r ∈ registrations_ q \/ r = fresh) ->
    (forall r, r ∈ registrations_ q -> reg_id r <> (i, f) -> r ∈ regs) ->
    NoDup (reg_id <$> regs) -> NoDup (reg_generation <$> regs) ->
    eq_ok (mkEventQueue (eq_name_ q) regs (erase_pending i f (pending_events_ q)) next at_max).
Proof.
  intros Hq He fresh at_max next regs Hin Hkeep Hids Hgens.
  pose proof (eq_next _ Hq) as Hn.
  assert (Hnext : 1 <= next <= u64_max /\
            (if at_max then next = next_generation_ q else next = next_generation_ q + 1)).
  { unfold next, at_max in *. destruct (_ =? u64_max) eqn:E; [lia|]. unwrap64. lia. }
  split; simpl; [lia| |done|done| |].
  - intros r [Hr| ->]%Hin; unfold issued; simpl.
    + apply (eq_issued _ Hq) in Hr as [H1 H2]. rewrite He in H2.
      destruct at_max; lia.
    + destruct at_max; lia.
  - eapply sublist_NoDup; [apply (eq_pending_ids _ Hq)|]. apply fmap_sublist, filter_sublist.
  - intros e [He' Hne]%erase_pending_elem.
    apply (eq_pending_current _ Hq), IsCurrent_iff in He' as (r & Hr & Hid & Hg).
    apply IsCurrent_iff. exists r. split_and!; [|done|done]. apply Hkeep; congruence.
Qed.

(** The registrations after a registration with a new generation. *)
Definition registered q i f fl ud : list Registration :=
  let fresh := mkRegistration i f fl ud (next_generation_ q) in
  match find (reg_matches i f) (registrations_ q) with
  | Some _ => update_first (reg_matches i f) (fun _ => fresh) (registrations_ q)
  | None => registrations_ q ++ [fresh]
  end.

Lemma RegisterEvent_cases q i f fl ud :
  (EventQueue_RegisterEvent q i f fl ud).1 = q \/
  generation_exhausted_ q = false /\
  let at_max := next_generation_ q =? u64_max in
  (EventQueue_RegisterEvent q i f fl ud).1 =
    mkEventQueue (eq_name_ q) (registered q i f fl ud) (erase_pending i f (pending_events_ q))
      (if at_max then next_generation_ q else (next_generation_ q + 1)%u64) at_max.
Proof.
  unfold EventQueue_RegisterEvent, registered.
  destruct (find _ _) as [r|]; cbn zeta iota; [destruct (_ && _); [by left|]|];
    (destruct (generation_exhausted_ q); [by left|by right]).
Qed.

Lemma RegisterEvent_ok q i f fl ud : eq_ok q -> eq_ok (EventQueue_RegisterEvent q i f fl ud).1.
Proof.
  intros Hq. destruct (RegisterEvent_cases q i f fl ud) as [->|[He ->]]; [done|].
  assert (Hfresh : next_generation_ q ∉ (reg_generation <$> registrations_ q)).
  { intros (r & Heq & Hr)%list_elem_of_fmap. apply (eq_issued _ Hq) in Hr as [_ Hr].
    rewrite He in Hr. lia. }
  apply (Register_new q i f fl ud Hq He); unfold registered; destruct (find _ _) as [r0|] eqn:Ef.
  - intros r [Hr|(x & _ & _ & ->)]%update_first_elem; [by left|by right].
  - intros r [Hr|Hr%list_elem_of_singleton]%elem_of_app; [by left|by right].
  - intros r Hr Hne. apply update_first_keep; [done|].
    apply not_true_iff_false. by rewrite reg_matches_id.
  - intros r Hr _. apply elem_of_app. by left.
  - rewrite update_first_fmap; [apply Hq|]. by intros x ->%reg_matches_id.
  - rewrite fmap_app. apply NoDup_app. split_and!; [apply Hq| |apply NoDup_singleton].
    intros p (r & -> & Hr)%list_elem_of_fmap Hp%list_elem_of_singleton.
    apply (find_none_elem _ _ r) in Ef; [|done]. apply not_true_iff_false in Ef.
    by rewrite reg_matches_id in Ef.
  - apply update_first_NoDup; [apply Hq|done].
  - rewrite fmap_app. apply NoDup_app. split_and!; [apply Hq| |apply NoDup_singleton].
    intros g Hg Hs%list_elem_of_singleton. by subst g.
Qed.

Lemma DeleteEvent_ok q i f : eq_ok q -> eq_ok (EventQueue_DeleteEvent q i f).1.
Proof.
  intros Hq. unfold EventQueue_DeleteEvent. split_match; [|done].
  split; simpl; [apply Hq| | | | |].
  - intros r' Hr%erase_first_elem. by apply Hq.
  - eapply sublist_NoDup; [apply (eq_ids _ Hq)|]. apply fmap_sublist, erase_first_sublist.
  - eapply sublist_NoDup; [apply (eq_generations _ Hq)|]. apply fmap_sublist, erase_first_sublist.
  - eapply sublist_NoDup; [apply (eq_pending_ids _ Hq)|]. apply fmap_sublist, filter_sublist.
  - intros e [He' Hne]%erase_pending_elem.
    apply (eq_pending_current _ Hq), IsCurrent_iff in He' as (r' & Hr & Hid & Hg).
    apply IsCurrent_iff. exists r'. split_and!; [|done|done]. simpl.
    apply erase_first_keep; [done|]. apply not_true_iff_false. rewrite reg_matches_id. congruence.
Qed.

(** Replacing the pending list. *)
Lemma set_pending_ok q p :
  eq_ok q -> NoDup (ev_id <$> p) -> (forall e, e ∈ p -> EventQueue_IsCurrent q e = true) ->
  eq_ok (set_pending q p).
Proof. intros Hq Hnd Hc. by split; try apply Hq. Qed.

(** Queueing an event of registration [r], or overwriting the queued one. *)
Lemma queue_event_ok q r (mk : RegisteredKernelEvent -> RegisteredKernelEvent) e :
  eq_ok q -> r ∈ registrations_ q ->
  (forall x, pending_of r x = true -> pending_of r (mk x) = true) -> pending_of r e = true ->
  eq_ok (match find (pending_of r) (pending_events_ q) with
         | Some _ => set_pending q (update_first (pending_of r) mk (pending_events_ q))
         | None => set_pending q (pending_events_ q ++ [e])
         end).
Proof.
  intros Hq Hr Hmk He.
  assert (Hcur : forall x, pending_of r x = true -> EventQueue_IsCurrent q x = true).
  { intros x [Hid Hg]%pending_of_iff. apply IsCurrent_iff. by exists r. }
  destruct (find _ _) as [p|] eqn:Ef; apply set_pending_ok; try done.
  - rewrite update_first_fmap; [apply Hq|]. intros x Hx. pose proof (Hmk x Hx) as Hx'.
    apply pending_of_iff in Hx as [Hx _]. apply pending_of_iff in Hx' as [Hx' _]. congruence.
  - intros x [Hx|(y & _ & Hy & ->)]%update_first_elem; [by apply Hq|]. by apply Hcur, Hmk.
  - rewrite fmap_app. apply NoDup_app. split_and!; [apply Hq| |apply NoDup_singleton].
    intros p (x & -> & Hx)%list_elem_of_fmap Hp%list_elem_of_singleton.
    apply pending_of_iff in He as [Hid _].
    pose proof (eq_pending_current _ Hq x Hx) as (r' & Hr' & Hid' & Hg')%IsCurrent_iff.
    assert (r' = r) as -> by (eapply NoDup_fmap_elem; [apply Hq|done|done|congruence]).
    apply (find_none_elem _ _ x) in Ef; [|done]. apply not_true_iff_false in Ef.
    apply Ef, pending_of_iff. by split.
  - intros x [Hx| ->%list_elem_of_singleton]%elem_of_app; [by apply Hq|by apply Hcur].
Qed.

Lemma TriggerUserEvent_ok q i ud : eq_ok q -> eq_ok (EventQueue_TriggerUserEvent q i ud).1.
Proof.
  intros Hq. unfold EventQueue_TriggerUserEvent.
  destruct (find _ (registrations_ q)) as [r|] eqn:Er; [|done].
  apply find_elem in Er as [Hr Hm%reg_matches_id].
  set (ev := mkKernelEvent _ _ _ _ _ _).
  pose proof (queue_event_ok q r
    (fun p => mkRegisteredKernelEvent ev (rk_generation p) (rk_persistent p))
    (mkRegisteredKernelEvent ev (reg_generation r) (Z.land (reg_flags r) kEventClear =? 0))
    Hq Hr) as Hok.
  destruct (find (pending_of r) _); simpl; apply Hok;
    try (intros x [_ Hg]%pending_of_iff); by apply pending_of_iff.
Qed.

Lemma TriggerFirstByFilter_ok q f d : eq_ok q -> eq_ok (EventQueue_TriggerFirstByFilter q f d).1.
Proof.
  intros Hq. unfold EventQueue_TriggerFirstByFilter.
  destruct (find _ (registrations_ q)) as [r|] eqn:Er; [|done].
  apply find_elem in Er as [Hr _].
  set (e := mkRegisteredKernelEvent _ _ _).
  pose proof (queue_event_ok q r (fun _ => e) e Hq Hr) as Hok.
  destruct (find (pending_of r) _); simpl; apply Hok; by intros; apply pending_of_iff.
Qed.

Lemma Poll_elem q n e : e ∈ (EventQueue_Poll q n).2 -> e ∈ pending_events_ q.
Proof. simpl. intros He. eapply elem_of_sublist; [done|apply sublist_take]. Qed.

Lemma Poll_ok q n : eq_ok q -> eq_ok (EventQueue_Poll q n).1.
Proof.
  intros Hq. unfold EventQueue_Poll. simpl. set (c := Z.to_nat _).
  assert (Hsub : drop c (pending_events_ q) ++ List.filter rk_persistent (take c (pending_events_ q))
                 `sublist_of` drop c (pending_events_ q) ++ take c (pending_events_ q))
    by (apply sublist_app; [done|apply filter_sublist]).
  assert (Hperm : drop c (pending_events_ q) ++ take c (pending_events_ q) ≡ₚ pending_events_ q)
    by (rewrite Permutation_app_comm; by rewrite take_drop).
  apply set_pending_ok; [done| |].
  - eapply sublist_NoDup; [|by apply fmap_sublist].
    rewrite Hperm. apply Hq.
  - intros e He. apply Hq. rewrite <- Hperm. by eapply elem_of_sublist.
Qed.

Lemma eq_step_ok q q' : eq_step q q' -> eq_ok q -> eq_ok q'.
Proof.
  destruct 1; intros Hq.
  - by apply RegisterEvent_ok.
  - by apply DeleteEvent_ok.
  - unfold EventQueue_AddUserEvent.
    pose proof (RegisterEvent_ok q i kEventFilterUser
                  (Z.lor kEventAdd (if edge then kEventClear else 0)) 0 Hq).
    by destruct (EventQueue_RegisterEvent _ _ _ _ _) as [? [? ?]].
  - by apply DeleteEvent_ok.
  - by apply TriggerUserEvent_ok.
  - by apply TriggerFirstByFilter_ok.
  - by apply Poll_ok.
Qed.

Lemma eq_init_ok name : eq_ok (EventQueue_init name).
Proof.
  split; simpl; [u64_lia|by intros ? ?%elem_of_nil|constructor|constructor|constructor|].
  by intros ? ?%elem_of_nil.
Qed.

(** ** Generations *)

Lemma IsCurrent_regs q q' e :
  registrations_ q' = registrations_ q -> EventQueue_IsCurrent q' e = EventQueue_IsCurrent q e.
Proof. unfold EventQueue_IsCurrent. by intros ->. Qed.

Lemma RegisterEvent_stale q i f fl ud e :
  eq_ok q -> issued q (rk_generation e) -> EventQueue_IsCurrent q e = false ->
  let q' := (EventQueue_RegisterEvent q i f fl ud).1 in
  issued q' (rk_generation e) /\ EventQueue_IsCurrent q' e = false.
Proof.
  intros Hq Hi Hc. cbn zeta.
  destruct (RegisterEvent_cases q i f fl ud) as [->|[He ->]]; [done|].
  unfold issued in *. rewrite He in Hi. simpl. pose proof (eq_next _ Hq). split.
  - destruct (_ =? u64_max) eqn:Em; [lia|]. unwrap64. lia.
  - apply not_true_iff_false. intros (r & Hr & Hid & Hg)%IsCurrent_iff. simpl in Hr.
    apply not_true_iff_false in Hc. apply Hc, IsCurrent_iff.
    unfold registered in Hr. destruct (find _ _).
    + apply update_first_elem in Hr as [Hr|(x & _ & _ & ->)]; [by exists r|]. simpl in Hg. lia.
    + apply elem_of_app in Hr as [Hr| ->%list_elem_of_singleton]; [by exists r|].
      simpl in Hg. lia.
Qed.

Lemma eq_step_stale q q' e :
  eq_step q q' -> eq_ok q -> issued q (rk_generation e) -> EventQueue_IsCurrent q e = false ->
  issued q' (rk_generation e) /\ EventQueue_IsCurrent q' e = false.
Proof.
  destruct 1; intros Hq Hi Hc.
  - by apply RegisterEvent_stale.
  - unfold EventQueue_DeleteEvent. split_match; [|done]. split; [done|].
    apply not_true_iff_false. intros (r' & Hr%erase_first_elem & Hid & Hg)%IsCurrent_iff.
    apply not_true_iff_false in Hc. apply Hc, IsCurrent_iff. by exists r'.
  - unfold EventQueue_AddUserEvent.
    pose proof (RegisterEvent_stale q i kEventFilterUser
                  (Z.lor kEventAdd (if edge then kEventClear else 0)) 0 e Hq Hi Hc) as Hr.
    by destruct (EventQueue_RegisterEvent _ _ _ _ _) as [? [? ?]].
  - unfold EventQueue_DeleteUserEvent, EventQueue_DeleteEvent. split_match; [|done]. split; [done|].
    apply not_true_iff_false. intros (r' & Hr%erase_first_elem & Hid & Hg)%IsCurrent_iff.
    apply not_true_iff_false in Hc. apply Hc, IsCurrent_iff. by exists r'.
  - unfold EventQueue_TriggerUserEvent. by repeat split_match.
  - unfold EventQueue_TriggerFirstByFilter. by repeat split_match.
  - done.
Qed.

Lemma eq_step_issued q q' g : eq_step q q' -> eq_ok q -> issued q g -> issued q' g.
Proof.
  assert (Hreg : forall i f fl ud, eq_ok q -> issued q g ->
            issued (EventQueue_RegisterEvent q i f fl ud).1 g).
  { intros i f fl ud Hq Hi. destruct (RegisterEvent_cases q i f fl ud) as [->|[He ->]]; [done|].
    unfold issued in *. rewrite He in Hi. simpl. pose proof (eq_next _ Hq).
    destruct (_ =? u64_max) eqn:Em; [lia|]. unwrap64. lia. }
  destruct 1; intros Hq Hi; auto.
  - unfold EventQueue_DeleteEvent. by split_match.
  - unfold EventQueue_AddUserEvent.
    pose proof (Hreg i kEventFilterUser (Z.lor kEventAdd (if edge then kEventClear else 0)) 0 Hq Hi).
    by destruct (EventQueue_RegisterEvent _ _ _ _ _) as [? [? ?]].
  - unfold EventQueue_DeleteUserEvent, EventQueue_DeleteEvent. by split_match.
  - unfold EventQueue_TriggerUserEvent. by repeat split_match.
  - unfold EventQueue_TriggerFirstByFilter. by repeat split_match.
Qed.

(** In every state an event queue can reach, registrations are unique per
    (ident, filter) and per generation, every pending event belongs to a
    registration as it is now (its generation matches), and at most one event
    is pending per registration, so the queue never holds more events than
    registrations. *)
Theorem event_queue_reachable name q :
  rtc eq_step (EventQueue_init name) q ->
  eq_ok q /\ (length (pending_events_ q) <= length (registrations_ q))%nat.
Proof.
  intros Hr. assert (Hq : eq_ok q).
  { revert Hr. generalize (eq_init_ok name). generalize (EventQueue_init name).
    induction 2 as [|? ? ? Hs _ IH]; [done|]. by eapply IH, eq_step_ok. }
  split; [done|]. rewrite <- (length_fmap ev_id), <- (length_fmap reg_id).
  apply submseteq_length, NoDup_submseteq; [apply Hq|].
  intros p (e & -> & He)%list_elem_of_fmap.
  apply (eq_pending_current _ Hq), IsCurrent_iff in He as (r & Hr' & <- & _).
  by apply list_elem_of_fmap_2.
Qed.

(** An event whose registration has been replaced or deleted stays stale:
    once [IsCurrent] rejects an event of an issued generation, no sequence of
    queue operations, including registering the same ident and filter again,
    makes it current. *)
Theorem stale_events_stay_stale q q' e :
  eq_ok q -> issued q (rk_generation e) -> EventQueue_IsCurrent q e = false ->
  rtc eq_step q q' -> EventQueue_IsCurrent q' e = false.
Proof.
  intros Hq Hi Hc Hr. induction Hr as [|q q1 q2 Hs _ IH]; [done|].
  destruct (eq_step_stale _ _ _ Hs Hq Hi Hc). apply IH; [by eapply eq_step_ok|done|done].
Qed.

(** [kernel::EventQueueService] ([src/kernel/event_queue.cpp]).

    The service adds to the queues a map of waiters: a thread that finds its
    queue empty registers a waiter and blocks; a trigger hands pending events to
    waiters (reserving them) and wakes their threads; deleting a queue completes
    its waiters.  A resumed thread calls [Wait] again, which completes from the
    waiter.  [wait_mutex_] makes every public call one transition.

    A [std::shared_ptr<EventQueue>] is a reference to the one object; the object
    store is the kernel's handle table, and a pointer kept in [queues_] is the
    handle under which the object was inserted. *)

Definition kMaximumEventQueueNameLength : nat := 31.

Inductive WaitCompletion := kWaiting | kReserved | kDeleted.

#[global] Instance WaitCompletion_eq_dec : EqDecision WaitCompletion.
Proof. solve_decision. Defined.

Record Waiter := mkWaiter {
  w_queue_handle : Z;
  w_maximum_count : Z;
  w_deadline : option Z;
  w_completion : WaitCompletion;
  w_events : list RegisteredKernelEvent
}.

Definition complete_with (c : WaitCompletion) (ev : list RegisteredKernelEvent) (w : Waiter) :=
  mkWaiter (w_queue_handle w) (w_maximum_count w) (w_deadline w) c ev.

Record EventQueueService := mkEventQueueService {
  waiters_ : list (Z * Waiter);
  queues_ : list (Z * Z);
  eqs_kernel : Kernel
}.

Definition with_waiters (s : EventQueueService) w := mkEventQueueService w (queues_ s) (eqs_kernel s).
Definition with_eqs_kernel (s : EventQueueService) k := mkEventQueueService (waiters_ s) (queues_ s) k.

Section service.
Context `{ClockSource}.
Implicit Types (s : EventQueueService) (k : Kernel) (handle : Z).

Definition is_waiting (handle : Z) (w : Waiter) : bool :=
  (w_queue_handle w =? handle) && bool_decide (w_completion w = kWaiting).

(** The object behind a shared pointer. *)
Definition queue_at (ref : Z) k : option EventQueue :=
  objects_ (handles_ k) !! ref ≫= as_event_queue.

Definition EventQueue_Find handle k : option EventQueue :=
  Find handle kEventQueue (handles_ k) ≫= as_event_queue.

Definition store_queue (ref : Z) (q : EventQueue) s : EventQueueService :=
  with_eqs_kernel s (modify_object ref (OEventQueue q) (eqs_kernel s)).

Definition CurrentEvents (q : EventQueue) (events : list RegisteredKernelEvent)
    : list KernelEvent :=
  rk_event <$> List.filter (EventQueue_IsCurrent q) events.

(** The loop of [ReserveWaitingThreadsLocked] over [waiters_]; the clock is
    read only for a waiter with a deadline. *)
Fixpoint reserve_loop handle (wait_key : string) (ws : list (Z * Waiter))
    (q : EventQueue) k : list (Z * Waiter) * EventQueue * Kernel :=
  match ws with
  | [] => ([], q, k)
  | (th, w) :: rest =>
      let skip k1 := let '(rest', q', k') := reserve_loop handle wait_key rest q k1 in
                     ((th, w) :: rest', q', k') in
      if negb (is_waiting handle w) then skip k
      else
        let '(k1, lapsed) :=
          match w_deadline w with
          | Some d => let '(c, now) := MonotonicNanoseconds (clock_ k) in
                      (with_clock k c, d <=? now)
          | None => (k, false)
          end in
        if lapsed then skip k1
        else
          let '(q1, events) := EventQueue_Poll q (w_maximum_count w) in
          match events with
          | [] => (ws, q1, k1)
          | _ =>
              let '(k2, _) := WakeBlockedThread th wait_key k1 in
              let '(rest', q', k') := reserve_loop handle wait_key rest q1 k2 in
              ((th, complete_with kReserved events w) :: rest', q', k')
          end
  end.

Definition ReserveWaitingThreadsLocked handle (ref : Z) (q : EventQueue) s : EventQueueService :=
  let '(ws, q', k) := reserve_loop handle (EventQueueService_MakeWaitKey handle) (waiters_ s) q
                        (eqs_kernel s) in
  store_queue ref q' (mkEventQueueService ws (queues_ s) k).

Definition EventQueue_Create (name : string) s : EventQueueService * (KernelStatus * Z) :=
  if (kMaximumEventQueueNameLength <? String.length name)%nat
  then (s, (kInvalidArgument, kInvalidKernelHandle))
  else
    let k := eqs_kernel s in
    let '(table, handle) := Insert (Some (OEventQueue (EventQueue_init name))) (handles_ k) in
    match handle with
    | None => (with_eqs_kernel s (with_handles k table), (kNoResources, kInvalidKernelHandle))
    | Some h =>
        (mkEventQueueService (waiters_ s) (om_emplace h h (queues_ s)) (with_handles k table),
         (kOk, h))
    end.

(** The loop of [Delete] over [waiters_]. *)
Fixpoint delete_loop handle (wait_key : string) (ws : list (Z * Waiter)) k
    : list (Z * Waiter) * Kernel :=
  match ws with
  | [] => ([], k)
  | (th, w) :: rest =>
      if negb (w_queue_handle w =? handle) then
        let '(rest', k') := delete_loop handle wait_key rest k in ((th, w) :: rest', k')
      else
        let k1 := if bool_decide (w_completion w = kWaiting)
                  then (WakeBlockedThread th wait_key k).1 else k in
        let '(rest', k') := delete_loop handle wait_key rest k1 in
        ((th, complete_with kDeleted [] w) :: rest', k')
  end.

Definition EventQueue_Delete handle s : EventQueueService * KernelStatus :=
  let k := eqs_kernel s in
  let '(table, removed) := Remove handle kEventQueue (handles_ k) in
  match removed with
  | None => (with_eqs_kernel s (with_handles k table), kNotFound)
  | Some _ =>
      let '(ws, k') := delete_loop handle (EventQueueService_MakeWaitKey handle) (waiters_ s)
                         (with_handles k table) in
      (mkEventQueueService ws (om_erase handle (queues_ s)) k', kOk)
  end.

(** A method call through [Find(handle)]; [kNotFound] without an object. *)
Definition on_queue handle (m : EventQueue -> EventQueue * KernelStatus) s
    : EventQueueService * KernelStatus :=
  match EventQueue_Find handle (eqs_kernel s) with
  | None => (s, kNotFound)
  | Some q => let '(q', st) := m q in (store_queue handle q' s, st)
  end.

Definition EQS_AddUserEvent handle (ident : Z) (edge : bool) s :=
  on_queue handle (fun q => EventQueue_AddUserEvent q ident edge) s.

Definition EQS_DeleteUserEvent handle (ident : Z) s :=
  on_queue handle (fun q => EventQueue_DeleteUserEvent q ident) s.

Definition EQS_TriggerUserEvent handle (ident user_data : Z) s
    : EventQueueService * KernelStatus :=
  match EventQueue_Find handle (eqs_kernel s) with
  | None => (s, kNotFound)
  | Some q =>
      let '(q', status) := EventQueue_TriggerUserEvent q ident user_data in
      let s1 := store_queue handle q' s in
      if status_eqb status kOk then (ReserveWaitingThreadsLocked handle handle q' s1, status)
      else (s1, status)
  end.

Definition register_status (filter ident user_data : Z) (q : EventQueue) :=
  let '(q', (st, _)) := EventQueue_RegisterEvent q ident filter 0 user_data in (q', st).

Definition EQS_AddGraphicsEvent handle (ident user_data : Z) s :=
  on_queue handle (register_status kEventFilterGraphics ident user_data) s.

Definition EQS_DeleteGraphicsEvent handle (ident : Z) s :=
  on_queue handle (fun q => EventQueue_DeleteEvent q ident kEventFilterGraphics) s.

Definition EQS_AddVideoOutEvent handle (ident user_data : Z) s :=
  on_queue handle (register_status kEventFilterVideoOut ident user_data) s.

Definition EQS_DeleteVideoOutEvent handle (ident : Z) s :=
  on_queue handle (fun q => EventQueue_DeleteEvent q ident kEventFilterVideoOut) s.

(** [for (const auto &[handle, queue] : queues_)] with [TriggerFirstByFilter]. *)
Fixpoint trigger_loop (filter data : Z) (qs : list (Z * Z)) (triggered : Z) s
    : EventQueueService * Z :=
  match qs with
  | [] => (s, triggered)
  | (h, ref) :: rest =>
      match queue_at ref (eqs_kernel s) with
      | None => trigger_loop filter data rest triggered s
      | Some q =>
          let '(q', hit) := EventQueue_TriggerFirstByFilter q filter data in
          let s1 := store_queue ref q' s in
          if negb hit then trigger_loop filter data rest triggered s1
          else trigger_loop filter data rest (triggered + 1)
                 (ReserveWaitingThreadsLocked h ref q' s1)
      end
  end.

Definition TriggerGraphicsEvents (data : Z) s :=
  trigger_loop kEventFilterGraphics data (queues_ s) 0 s.

Definition TriggerVideoOutEvents (data : Z) s :=
  trigger_loop kEventFilterVideoOut data (queues_ s) 0 s.

(** The result pair is [EventQueuePollResult{status, events}]. *)
Definition EQS_PollLocked handle (maximum_count : Z) s
    : EventQueueService * (KernelStatus * list KernelEvent) :=
  if maximum_count =? 0 then (s, (kInvalidArgument, []))
  else match EventQueue_Find handle (eqs_kernel s) with
  | None => (s, (kNotFound, []))
  | Some q =>
      let '(q', events) := EventQueue_Poll q maximum_count in
      let s1 := store_queue handle q' s in
      match events with
      | [] => (s1, (kBusy, []))
      | _ => match CurrentEvents q' events with
             | [] => (s1, (kBusy, []))
             | current => (s1, (kOk, current))
             end
      end
  end.

Definition EQS_Poll := EQS_PollLocked.

(** [timeout_microseconds] to an absolute deadline, saturating twice. *)
Definition wait_deadline (timeout now : Z) : Z :=
  let duration := if timeout >? u64_max / 1000 then u64_max else (timeout * 1000)%u64 in
  if duration >? (u64_max - now)%u64 then u64_max else (now + duration)%u64.

Definition block_on (wait_key : string) (deadline : option Z) s : EventQueueService * bool :=
  let '(k, blocked) := match deadline with
                       | Some d => BlockCurrentUntil wait_key d (eqs_kernel s)
                       | None => BlockCurrent wait_key (eqs_kernel s)
                       end in
  (with_eqs_kernel s k, blocked).

(** [Wait] of a thread that already has a waiter on this queue, after the
    checks of its completion: timeout, then poll, then block again. *)
Definition resume_waiting handle (me : Z) (w : Waiter) s
    : EventQueueService * (KernelStatus * list KernelEvent) :=
  let wait_key := EventQueueService_MakeWaitKey handle in
  let '(k1, timed_out) := ConsumeCurrentThreadTimeout wait_key (eqs_kernel s) in
  let s1 := with_eqs_kernel s k1 in
  if timed_out then (with_waiters s1 (om_erase me (waiters_ s1)), (kTimedOut, []))
  else
    let '(s2, (status, events)) := EQS_PollLocked handle (w_maximum_count w) s1 in
    if negb (status_eqb status kBusy)
    then (with_waiters s2 (om_erase me (waiters_ s2)), (status, events))
    else
      let '(s3, blocked) := block_on wait_key (w_deadline w) s2 in
      (s3, if blocked then (kWouldBlock, []) else (status, events)).

(** [Wait] with the waiter found for the running thread. *)
Definition resume handle (me : Z) (w : Waiter) s
    : EventQueueService * (KernelStatus * list KernelEvent) :=
  let erased := with_waiters s (om_erase me (waiters_ s)) in
  if negb (w_queue_handle w =? handle) then (s, (kBusy, []))
  else match w_completion w with
  | kDeleted => (erased, (kPermissionDenied, []))
  | kReserved =>
      match EventQueue_Find handle (eqs_kernel s) with
      | None => (erased, (kPermissionDenied, []))
      | Some q =>
          match CurrentEvents q (w_events w) with
          | [] =>
              resume_waiting handle me w
                (with_waiters s (om_update me (complete_with kWaiting []) (waiters_ s)))
          | events => (erased, (kOk, events))
          end
      end
  | kWaiting => resume_waiting handle me w s
  end.

(** [Wait] of a thread without a waiter. *)
Definition wait_fresh handle (maximum_count : Z) (timeout : option Z) (current : option Z) s
    : EventQueueService * (KernelStatus * list KernelEvent) :=
  let '(s1, (status, events)) := EQS_PollLocked handle maximum_count s in
  if negb (status_eqb status kBusy) then (s1, (status, events))
  else if (match timeout with Some t => t =? 0 | None => false end)
  then (s1, (kTimedOut, []))
  else match current with
  | None => (s1, (status, events))
  | Some me =>
      let '(s2, deadline) :=
        match timeout with
        | Some t =>
            let '(c, now) := MonotonicNanoseconds (clock_ (eqs_kernel s1)) in
            (with_eqs_kernel s1 (with_clock (eqs_kernel s1) c), Some (wait_deadline t now))
        | None => (s1, None)
        end in
      let s3 := with_waiters s2
                  (om_emplace me (mkWaiter handle maximum_count deadline kWaiting [])
                     (waiters_ s2)) in
      let '(s4, blocked) := block_on (EventQueueService_MakeWaitKey handle) deadline s3 in
      if negb blocked
      then (with_waiters s4 (om_erase me (waiters_ s4)), (status, events))
      else (s4, (kWouldBlock, []))
  end.

Definition EQS_Wait handle (maximum_count : Z) (timeout : option Z) s
    : EventQueueService * (KernelStatus * list KernelEvent) :=
  if maximum_count =? 0 then (s, (kInvalidArgument, []))
  else
    let current := current_thread_ (scheduler_ (eqs_kernel s)) in
    match (match current with Some me => om_find me (waiters_ s) | None => None end), current with
    | Some w, Some me => resume handle me w s
    | _, _ => wait_fresh handle maximum_count timeout current s
    end.
(** ** The reservation loop *)

Definition tick k : Kernel := with_clock k (MonotonicNanoseconds (clock_ k)).1.

(** The cases of one round of the loop, as an induction principle. *)
Lemma reserve_loop_ind handle key
    (P : list (Z * Waiter) -> EventQueue -> Kernel ->
         list (Z * Waiter) -> EventQueue -> Kernel -> Prop) :
  (forall q k, P [] q k [] q k) ->
  (forall th w rest q k k1 rest' q' k',
     (is_waiting handle w = false /\ k1 = k \/
      exists d, w_deadline w = Some d /\ d <= source_monotonic (clock_reads (clock_ k)) /\
        k1 = tick k) ->
     P rest q k1 rest' q' k' -> P ((th, w) :: rest) q k ((th, w) :: rest') q' k') ->
  (forall th w rest q k k1,
     is_waiting handle w = true -> k1 = k \/ k1 = tick k ->
     (EventQueue_Poll q (w_maximum_count w)).2 = [] ->
     P ((th, w) :: rest) q k ((th, w) :: rest) (EventQueue_Poll q (w_maximum_count w)).1 k1) ->
  (forall th w rest q k k1 rest' q' k',
     is_waiting handle w = true -> k1 = k \/ k1 = tick k ->
     (EventQueue_Poll q (w_maximum_count w)).2 <> [] ->
     P rest (EventQueue_Poll q (w_maximum_count w)).1 (WakeBlockedThread th key k1).1
       rest' q' k' ->
     P ((th, w) :: rest) q k
       ((th, complete_with kReserved (EventQueue_Poll q (w_maximum_count w)).2 w) :: rest') q' k') ->
  forall ws q k,
    P ws q k (reserve_loop handle key ws q k).1.1 (reserve_loop handle key ws q k).1.2
      (reserve_loop handle key ws q k).2.
Proof.
  intros Hnil Hskip Hbreak Hres ws. induction ws as [|[th w] rest IH]; intros q k.
  { apply Hnil. }
  cbn [reserve_loop]. destruct (is_waiting handle w) eqn:Hw; cbn [negb].
  2:{ specialize (IH q k). destruct (reserve_loop _ _ rest q k) as [[rest' q'] k'].
      eapply Hskip; [by left|done]. }
  set (dl := match w_deadline w with Some d => _ | None => _ end).
  assert (Hdl : (dl.2 = true /\ exists d, w_deadline w = Some d /\
                   d <= source_monotonic (clock_reads (clock_ k)) /\ dl.1 = tick k) \/
                (dl.2 = false /\ (dl.1 = k \/ dl.1 = tick k))).
  { unfold dl. destruct (w_deadline w) as [d|]; simpl; [|by right; split; [|left]].
    destruct (d <=? _) eqn:Ed; [left|right; by split; [|right]].
    split; [done|]. exists d. split_and!; [done|lia|done]. }
  clearbody dl. destruct dl as [k1 lapsed]. simpl in Hdl.
  destruct Hdl as [[-> Hd]|[-> Hk1]].
  - specialize (IH q k1). destruct (reserve_loop _ _ rest q k1) as [[rest' q'] k'].
    eapply Hskip; [by right|done].
  - pose proof (Hbreak th w rest q k k1 Hw Hk1) as Hbr.
    pose proof (fun r' => Hres th w rest q k k1 r') as Hre.
    destruct (EventQueue_Poll q (w_maximum_count w)) as [q1 events] eqn:Ep. simpl in *.
    destruct events as [|e es] eqn:Ee; [by apply Hbr|].
    destruct (WakeBlockedThread th key k1) as [k2 b]. simpl in *.
    specialize (IH q1 k2). destruct (reserve_loop _ _ rest q1 k2) as [[rest' q'] k'].
    by apply Hre.
Qed.

Lemma wake_expired_now_handles k : handles_ (wake_expired_now k) = handles_ k.
Proof. done. Qed.

Lemma WakeBlockedThread_handles h key k : handles_ (WakeBlockedThread h key k).1 = handles_ k.
Proof. unfold WakeBlockedThread. by repeat split_match. Qed.

Lemma tick_ok k : kernel_ok k -> kernel_ok (tick k).
Proof. intros Hk. by split; apply Hk. Qed.

(** The kernel side of the loop. *)
Lemma reserve_loop_kernel handle key ws q k :
  kernel_ok k ->
  kernel_ok (reserve_loop handle key ws q k).2 /\
  handles_ (reserve_loop handle key ws q k).2 = handles_ k.
Proof.
  revert ws q k.
  apply (reserve_loop_ind handle key (fun _ _ k _ _ k' =>
    kernel_ok k -> kernel_ok k' /\ handles_ k' = handles_ k)).
  - done.
  - intros th w rest q k k1 rest' q' k' Hk1 IH Hk.
    destruct Hk1 as [[_ ->]|(d & _ & _ & ->)]; [by apply IH|].
    destruct (IH (tick_ok k Hk)) as [? ->]. done.
  - intros th w rest q k k1 _ [->| ->] _ Hk; split; try done. by apply tick_ok.
  - intros th w rest q k k1 rest' q' k' _ Hk1 _ IH Hk.
    assert (kernel_ok k1 /\ handles_ k1 = handles_ k) as [Hok Hh].
    { destruct Hk1 as [->| ->]; [done|]. split; [by apply tick_ok|done]. }
    destruct (IH (WakeBlockedThread_ok th key k1 Hok)) as [? ->].
    by rewrite WakeBlockedThread_handles.
Qed.

(** The queue side: registrations and generations do not change. *)
Definition same_registrations (q q' : EventQueue) : Prop :=
  registrations_ q' = registrations_ q /\ next_generation_ q' = next_generation_ q /\
  generation_exhausted_ q' = generation_exhausted_ q.

Lemma same_registrations_issued q q' g : same_registrations q q' -> issued q' g <-> issued q g.
Proof. unfold issued. by intros (_ & -> & ->). Qed.

Lemma same_registrations_trans q1 q2 q3 :
  same_registrations q1 q2 -> same_registrations q2 q3 -> same_registrations q1 q3.
Proof. unfold same_registrations. intros (?&?&?) (?&?&?). split_and!; congruence. Qed.

Lemma reserve_loop_queue handle key ws q k :
  same_registrations q (reserve_loop handle key ws q k).1.2 /\
  (eq_ok q -> eq_ok (reserve_loop handle key ws q k).1.2).
Proof.
  revert ws q k.
  apply (reserve_loop_ind handle key (fun _ q _ _ q' _ =>
    same_registrations q q' /\ (eq_ok q -> eq_ok q'))).
  - done.
  - done.
  - intros. split; [done|apply Poll_ok].
  - intros th w rest q k k1 rest' q' k' _ _ _ [Hs Hok]. split.
    + eapply same_registrations_trans; [|exact Hs]. done.
    + intros Hq. by apply Hok, Poll_ok.
Qed.

(** What the loop does to a waiter. *)
Definition reserves handle (q : EventQueue) (w w' : Waiter) : Prop :=
  w' = w \/
  is_waiting handle w = true /\ exists ev, ev <> [] /\
    Forall (fun e => EventQueue_IsCurrent q e = true) ev /\ w' = complete_with kReserved ev w.

Lemma reserve_loop_waiters handle key ws q k :
  eq_ok q ->
  om_rel (reserves handle q) ws (reserve_loop handle key ws q k).1.1.
Proof.
  revert ws q k.
  apply (reserve_loop_ind handle key (fun ws q _ ws' _ _ =>
    eq_ok q -> om_rel (reserves handle q) ws ws')).
  - constructor.
  - intros th w rest q k k1 rest' q' k' _ IH Hq. constructor; [by split; [|left]|by apply IH].
  - intros th w rest q k k1 _ _ _ Hq. apply Forall_Forall2_diag, Forall_forall.
    intros x _. by split; [|left].
  - intros th w rest q k k1 rest' q' k' Hw _ Hne IH Hq. constructor.
    + split; [done|]. right. split; [done|]. eexists. split_and!; [done| |done].
      apply Forall_forall. intros e He. apply Hq. by eapply Poll_elem.
    + by apply IH, Poll_ok.
Qed.

(** ** The invariant *)

Record waiter_ok k (w : Waiter) : Prop := {
  wo_count : 0 < w_maximum_count w;
  wo_reserved : w_completion w = kReserved ->
    exists q, objects_ (handles_ k) !! w_queue_handle w = Some (OEventQueue q) /\
      Forall (fun e => issued q (rk_generation e)) (w_events w);
  wo_empty : w_completion w <> kReserved -> w_events w = []
}.

Record eqs_ok s : Prop := {
  es_kernel : kernel_ok (eqs_kernel s);
  es_waiters : om_sorted (waiters_ s);
  es_queues_sorted : om_sorted (queues_ s);
  es_queues : forall h ref, om_find h (queues_ s) = Some ref <->
    ref = h /\ exists q, objects_ (handles_ (eqs_kernel s)) !! h = Some (OEventQueue q);
  es_queue_ok : forall h q,
    objects_ (handles_ (eqs_kernel s)) !! h = Some (OEventQueue q) -> eq_ok q;
  es_waiter_ok : forall th w, om_find th (waiters_ s) = Some w -> waiter_ok (eqs_kernel s) w
}.

Lemma EventQueue_Find_Some h k q :
  EventQueue_Find h k = Some q <-> h <> 0 /\ objects_ (handles_ k) !! h = Some (OEventQueue q).
Proof.
  unfold EventQueue_Find. split.
  - intros (o & (Hh & Ho & Hty)%Find_Some & Ha)%bind_Some.
    destruct o; try discriminate Ha. simpl in Ha. by simplify_eq.
  - intros [Hh Ho]. apply bind_Some. exists (OEventQueue q). split; [|done].
    by apply Find_Some.
Qed.

Lemma queue_at_Some h k q :
  queue_at h k = Some q <-> objects_ (handles_ k) !! h = Some (OEventQueue q).
Proof.
  unfold queue_at. split; [|by intros ->].
  intros (o & Ho & Ha)%bind_Some. destruct o; try discriminate Ha. simpl in Ha. by simplify_eq.
Qed.

(** A change of the kernel that leaves the event queues alone. *)
Definition same_queues k k' : Prop := forall h q,
  objects_ (handles_ k') !! h = Some (OEventQueue q) <->
  objects_ (handles_ k) !! h = Some (OEventQueue q).

Lemma same_queues_handles k k' : handles_ k' = handles_ k -> same_queues k k'.
Proof. unfold same_queues. by intros ->. Qed.

Lemma waiter_ok_kernel k k' w : same_queues k k' -> waiter_ok k w -> waiter_ok k' w.
Proof.
  intros Hs [Hc Hr He]. split; [done| |done]. intros (q & Ho & Hq)%Hr. exists q.
  by rewrite (Hs _ q).
Qed.

Lemma eqs_ok_kernel s k :
  eqs_ok s -> kernel_ok k -> same_queues (eqs_kernel s) k -> eqs_ok (with_eqs_kernel s k).
Proof.
  intros [Hk Hw Hqs Hq Hqo Hwo] Hk' Hsame. split; simpl; try done.
  - intros h ref. rewrite Hq. split; intros [-> [q Ho]]; (split; [done|exists q; by apply Hsame]).
  - intros h q Ho%Hsame. by eapply Hqo.
  - intros th w Hf. by eapply waiter_ok_kernel, Hwo.
Qed.

Lemma eqs_ok_waiters s ws :
  eqs_ok s -> om_sorted ws ->
  (forall th w, om_find th ws = Some w -> waiter_ok (eqs_kernel s) w) ->
  eqs_ok (with_waiters s ws).
Proof. intros [Hk Hw Hqs Hq Hqo Hwo] Hs Hf. by split. Qed.

Lemma eqs_ok_erase s th : eqs_ok s -> eqs_ok (with_waiters s (om_erase th (waiters_ s))).
Proof.
  intros Hs. apply eqs_ok_waiters; [done|apply om_erase_sorted, Hs|].
  intros th' w. rewrite om_find_erase. case_decide; [done|]. apply Hs.
Qed.

Lemma store_queue_ok h q q' s :
  eqs_ok s -> objects_ (handles_ (eqs_kernel s)) !! h = Some (OEventQueue q) ->
  eq_ok q' -> (forall g, issued q g -> issued q' g) -> eqs_ok (store_queue h q' s).
Proof.
  intros [Hk Hw Hqs Hq Hqo Hwo] Ho Hq' Hi. split; simpl; try done.
  - by eapply modify_object_ok.
  - intros h' ref. rewrite Hq, lookup_insert. case_decide as Hd; [subst h'|done].
    split; intros [-> [q0 Hq0]]; (split; [done|by eexists]).
  - intros h' q0. rewrite lookup_insert. case_decide; [by intros [= <-]|apply Hqo].
  - intros th w [Hc Hr He]%Hwo. split; [done| |done]. intros (q0 & Ho0 & Hall)%Hr. simpl.
    rewrite lookup_insert. case_decide as Hd; [|by exists q0]. subst h. exists q'. split; [done|].
    assert (q0 = q) as -> by congruence.
    eapply Forall_impl; [exact Hall|]. intros e. apply Hi.
Qed.

Lemma store_step_ok h q q' s :
  eqs_ok s -> objects_ (handles_ (eqs_kernel s)) !! h = Some (OEventQueue q) ->
  eq_step q q' -> eqs_ok (store_queue h q' s).
Proof.
  intros Hs Ho Hst. pose proof (es_queue_ok _ Hs _ _ Ho) as Hq.
  eapply store_queue_ok; [done|done|by eapply eq_step_ok|].
  intros g. by eapply eq_step_issued.
Qed.

Lemma on_queue_ok h m s :
  (forall q, eq_step q (m q).1) -> eqs_ok s -> eqs_ok (on_queue h m s).1.
Proof.
  intros Hm Hs. unfold on_queue. destruct (EventQueue_Find h _) as [q|] eqn:E; [|done].
  apply EventQueue_Find_Some in E as [_ Ho]. specialize (Hm q).
  destruct (m q) as [q' st]. by eapply store_step_ok.
Qed.

Lemma Reserve_ok h q s :
  eqs_ok s -> objects_ (handles_ (eqs_kernel s)) !! h = Some (OEventQueue q) ->
  eqs_ok (ReserveWaitingThreadsLocked h h q s).
Proof.
  intros Hs Ho. unfold ReserveWaitingThreadsLocked.
  pose proof (es_queue_ok _ Hs _ _ Ho) as Hq.
  set (key := EventQueueService_MakeWaitKey h).
  pose proof (reserve_loop_kernel h key (waiters_ s) q (eqs_kernel s) (es_kernel _ Hs)) as [Hk Hh].
  pose proof (reserve_loop_queue h key (waiters_ s) q (eqs_kernel s)) as [Hsr Hqo].
  pose proof (reserve_loop_waiters h key (waiters_ s) q (eqs_kernel s) Hq) as Hw.
  destruct (reserve_loop h key (waiters_ s) q (eqs_kernel s)) as [[ws q'] k]. simpl in *.
  eapply (store_queue_ok h q); [|simpl; by rewrite Hh|by apply Hqo|].
  2:{ intros g. by apply same_registrations_issued. }
  assert (Hsame : same_queues (eqs_kernel s) k) by (by apply same_queues_handles).
  pose proof (eqs_ok_kernel s k Hs Hk Hsame) as Hs'.
  apply (eqs_ok_waiters (with_eqs_kernel s k) ws Hs'); simpl.
  { eapply om_sorted_keys; [by eapply om_rel_keys|apply Hs]. }
  intros th w' Hf. pose proof (om_rel_find _ _ _ Hw th) as Hrel. rewrite Hf in Hrel.
  inversion Hrel as [w ? Hr Hfw| ]; subst. symmetry in Hfw.
  pose proof (es_waiter_ok _ Hs' _ _ Hfw) as Hwo. simpl in Hwo.
  destruct Hr as [->|(Hwait & ev & Hne & Hcur & ->)]; [done|].
  split; simpl; [apply Hwo| |done]. intros _. exists q.
  apply andb_true_iff in Hwait as [Hqh _].
  replace (w_queue_handle w) with h by lia. rewrite Hh. split; [done|].
  eapply Forall_impl; [done|]. simpl. intros e (r & Hr & _ & <-)%IsCurrent_iff. by apply Hq.
Qed.

Lemma TriggerUserEvent_service_ok h i ud s : eqs_ok s -> eqs_ok (EQS_TriggerUserEvent h i ud s).1.
Proof.
  intros Hs. unfold EQS_TriggerUserEvent.
  destruct (EventQueue_Find h _) as [q|] eqn:E; [|done].
  apply EventQueue_Find_Some in E as [_ Ho].
  pose proof (store_step_ok h q _ s Hs Ho (EqTriggerUser q i ud)) as Hs1.
  destruct (EventQueue_TriggerUserEvent q i ud) as [q' st]. simpl in Hs1.
  split_match; [|done]. apply Reserve_ok; [done|]. simpl. by rewrite lookup_insert_eq.
Qed.

Lemma trigger_loop_ok f d qs n s :
  (forall h ref, (h, ref) ∈ qs -> ref = h) -> eqs_ok s -> eqs_ok (trigger_loop f d qs n s).1.
Proof.
  revert n s. induction qs as [|[h ref] qs IH]; intros n s Hqs Hs; [done|]. simpl.
  assert (ref = h) as -> by (apply Hqs, list_elem_of_here).
  assert (Hqs' : forall h ref, (h, ref) ∈ qs -> ref = h)
    by (intros; apply Hqs, elem_of_cons; by right).
  destruct (queue_at h _) as [q|] eqn:E; [|by apply IH].
  apply queue_at_Some in E as Ho.
  pose proof (store_step_ok h q _ s Hs Ho (EqTriggerFilter q f d)) as Hs1.
  destruct (EventQueue_TriggerFirstByFilter q f d) as [q' hit]. simpl in Hs1.
  destruct hit; simpl; apply IH; try done. apply Reserve_ok; [done|].
  simpl. by rewrite lookup_insert_eq.
Qed.

Lemma trigger_all_ok f d s : eqs_ok s -> eqs_ok (trigger_loop f d (queues_ s) 0 s).1.
Proof.
  intros Hs. apply trigger_loop_ok; [|done]. intros h ref Hin.
  apply om_elem_find in Hin; [|apply Hs]. by apply (es_queues _ Hs) in Hin as [-> _].
Qed.

Lemma PollLocked_ok h n s : eqs_ok s -> eqs_ok (EQS_PollLocked h n s).1.
Proof.
  intros Hs. unfold EQS_PollLocked. split_match; [done|].
  destruct (EventQueue_Find h _) as [q|] eqn:Eq; [|done].
  apply EventQueue_Find_Some in Eq as [_ Ho].
  pose proof (store_step_ok h q _ s Hs Ho (EqPoll q n)) as Hs1.
  destruct (EventQueue_Poll q n) as [q' [|e es]]; [done|]. by split_match.
Qed.

Lemma EventQueue_Create_ok name s : eqs_ok s -> eqs_ok (EventQueue_Create name s).1.
Proof.
  intros Hs. unfold EventQueue_Create. split_match; [done|].
  pose proof (es_kernel _ Hs) as Hk. set (o := OEventQueue _).
  pose proof (Insert_frame (Some o) (handles_ (eqs_kernel s))) as Hfr.
  pose proof (fun h => Insert_Find (Some o) (handles_ (eqs_kernel s)) h kEventQueue
    (ko_table _ Hk)) as Hf.
  assert (Hfresh : forall h, (Insert (Some o) (handles_ (eqs_kernel s))).2 = Some h ->
            objects_ (handles_ (eqs_kernel s)) !! h = None).
  { intros h. simpl. destruct (exhausted_ _) eqn:He; [done|]. intros [= <-].
    apply next_handle_fresh; [apply Hk|done]. }
  destruct (Insert (Some o) (handles_ (eqs_kernel s))) as [tbl r] eqn:Ei. simpl in *.
  assert (Hk' : kernel_ok (with_handles (eqs_kernel s) tbl))
    by (by eapply insert_object_ok; [done| |exact Ei]).
  destruct r as [h|].
  2:{ apply eqs_ok_kernel; [done|done|]. intros h q. simpl. by rewrite Hfr. }
  specialize (Hf h eq_refl). apply Find_Some in Hf as (Hh & Hl & _).
  specialize (Hfresh h eq_refl).
  assert (Hnf : om_find h (queues_ s) = None).
  { destruct (om_find h (queues_ s)) as [ref|] eqn:Ef; [|done].
    apply (es_queues _ Hs) in Ef as (_ & q & Hq). congruence. }
  destruct Hs as [_ Hw Hqs Hq Hqo Hwo]. split; simpl; try done.
  - by apply om_emplace_sorted.
  - intros h' ref. rewrite om_find_emplace by done. case_decide as Hd; [subst h'|].
    + rewrite Hl. split; [intros [= <-]; by eauto|intros [-> _]; done].
    + rewrite Hq, Hfr by congruence. done.
  - intros h' q. destruct (decide (h' = h)) as [->|Hne].
    + rewrite Hl. intros [= <-]. apply eq_init_ok.
    + rewrite Hfr by congruence. apply Hqo.
  - intros th w [Hc Hr He]%Hwo. split; [done| |done]. intros (q & Ho & Hall)%Hr. exists q.
    split; [|done]. simpl. rewrite Hfr; [done|]. intros [= ->]. congruence.
Qed.
End service.
