(* ===== verification/EventQueueProps.v ===== *)
(** Properties of [kernel::EventQueueService]: the invariant over all its calls
    and the scheduler's, delivery of events to waiters, deletion and deadlines. *)
From S2P Require Import Prelude Ranges OrderedMap WaitKeys HandleTable Objects.
From S2P Require Import Clock Scheduler SchedulerInv SchedulerProps WakeAll EventQueues.
From S2P Require Import EventQueues.

Section props.
Context `{ClockSource}.
Implicit Types (s : EventQueueService) (k : Kernel).

(** ** Deletion *)

Lemma delete_loop_kernel h key ws k :
  kernel_ok k ->
  kernel_ok (delete_loop h key ws k).2 /\ handles_ (delete_loop h key ws k).2 = handles_ k.
Proof.
  revert k. induction ws as [|[th w] ws IH]; intros k Hk; [done|]. simpl.
  destruct (w_queue_handle w =? h); simpl.
  - set (k1 := if bool_decide _ then _ else _).
    assert (kernel_ok k1 /\ handles_ k1 = handles_ k) as [Hk1 Hh1].
    { unfold k1. case_bool_decide; [|done].
      split; [by apply WakeBlockedThread_ok|apply WakeBlockedThread_handles]. }
    specialize (IH k1 Hk1). destruct (delete_loop h key ws k1) as [ws' k']. simpl in *.
    destruct IH as [? ->]. done.
  - specialize (IH k Hk). by destruct (delete_loop h key ws k) as [ws' k'].
Qed.

Definition deleted_waiter (h : Z) (w w' : Waiter) : Prop :=
  w' = if w_queue_handle w =? h then complete_with kDeleted [] w else w.

Lemma delete_loop_waiters h key ws k : om_rel (deleted_waiter h) ws (delete_loop h key ws k).1.
Proof.
  revert k. induction ws as [|[th w] ws IH]; intros k; [constructor|]. simpl.
  unfold deleted_waiter in *. destruct (w_queue_handle w =? h) eqn:E; simpl.
  - set (k1 := if bool_decide _ then _ else _). specialize (IH k1).
    destruct (delete_loop h key ws k1). constructor; [|done]. simpl. by rewrite E.
  - specialize (IH k). destruct (delete_loop h key ws k). constructor; [|done]. simpl. by rewrite E.
Qed.

Lemma EventQueue_Delete_ok h s : eqs_ok s -> eqs_ok (EventQueue_Delete h s).1.
Proof.
  intros Hs. pose proof (es_kernel _ Hs) as Hk. unfold EventQueue_Delete.
  pose proof (Remove_lookup h kEventQueue (handles_ (eqs_kernel s))) as Hl.
  destruct (Remove h kEventQueue (handles_ (eqs_kernel s))) as [tbl r] eqn:Er. simpl in Hl.
  assert (Hk1 : kernel_ok (with_handles (eqs_kernel s) tbl))
    by (by eapply remove_object_ok; [done| |exact Er]).
  assert (Hr : r = Find h kEventQueue (handles_ (eqs_kernel s))).
  { revert Er. unfold Remove, Find. by repeat split_match; intros [= _ <-]. }
  destruct r as [o|].
  2:{ apply eqs_ok_kernel; [done|done|]. intros h' q. simpl. rewrite Hl.
      rewrite bool_decide_eq_false_2; [done|]. intros [_ [x Hx]]. congruence. }
  symmetry in Hr. assert (Hdel : forall h', objects_ tbl !! h' =
      if decide (h' = h) then None else objects_ (handles_ (eqs_kernel s)) !! h').
  { intros h'. rewrite Hl. case_bool_decide as Hb; case_decide; naive_solver. }
  pose proof (delete_loop_kernel h (EventQueueService_MakeWaitKey h) (waiters_ s) _ Hk1) as [Hk2 Hh2].
  pose proof (delete_loop_waiters h (EventQueueService_MakeWaitKey h) (waiters_ s)
                (with_handles (eqs_kernel s) tbl)) as Hw.
  destruct (delete_loop _ _ _ _) as [ws k']. simpl in *.
  destruct Hs as [_ Hws Hqs Hq Hqo Hwo]. split; simpl; rewrite ?Hh2; try done.
  - eapply om_sorted_keys; [by eapply om_rel_keys|done].
  - by apply om_erase_sorted.
  - intros h' ref. rewrite om_find_erase, Hdel. case_decide as Hd; [|apply Hq].
    split; [done|]. by intros (_ & q & ?).
  - intros h' q. rewrite Hdel. case_decide; [done|apply Hqo].
  - intros th w' Hf. pose proof (om_rel_find _ _ _ Hw th) as Hrel. rewrite Hf in Hrel.
    destruct (om_find th (waiters_ s)) as [w|] eqn:Hfw; [|by inversion Hrel].
    assert (Hd : deleted_waiter h w w') by (by inversion Hrel).
    apply Hwo in Hfw as [Hc Hres He]. rewrite Hd. destruct (w_queue_handle w =? h) eqn:Eh; split; simpl; try done.
    intros (q & Ho & Hall)%Hres. exists q. rewrite Hh2, Hdel, decide_False by lia. done.
Qed.

(** ** Waiting *)

Lemma block_on_ok key d s : eqs_ok s -> eqs_ok (block_on key d s).1.
Proof.
  intros Hs. unfold block_on, BlockCurrentUntil, BlockCurrent.
  assert (Hgen : forall d0, eqs_ok (with_eqs_kernel s (BlockCurrentLocked key d0 (eqs_kernel s)).1)).
  { intros d0. apply eqs_ok_kernel; [done|apply BlockCurrentLocked_ok, Hs|].
    apply same_queues_handles, BlockCurrentLocked_handles. }
  destruct d as [d|]; [specialize (Hgen (Some d))|specialize (Hgen None)];
    by destruct (BlockCurrentLocked _ _ _).
Qed.

Lemma Consume_handles key k : handles_ (ConsumeCurrentThreadTimeout key k).1 = handles_ k.
Proof. unfold ConsumeCurrentThreadTimeout. by repeat split_match. Qed.

Lemma resume_waiting_ok h me w s : eqs_ok s -> eqs_ok (resume_waiting h me w s).1.
Proof.
  intros Hs. unfold resume_waiting. set (key := EventQueueService_MakeWaitKey h).
  assert (Hs1 : eqs_ok (with_eqs_kernel s (ConsumeCurrentThreadTimeout key (eqs_kernel s)).1)).
  { apply eqs_ok_kernel; [done|apply ConsumeCurrentThreadTimeout_ok, Hs|].
    apply same_queues_handles, Consume_handles. }
  destruct (ConsumeCurrentThreadTimeout key (eqs_kernel s)) as [k1 b]. simpl in Hs1.
  destruct b; [by apply (eqs_ok_erase (with_eqs_kernel s k1))|].
  pose proof (PollLocked_ok h (w_maximum_count w) _ Hs1) as Hs2.
  destruct (EQS_PollLocked _ _ _) as [s2 [st ev]]. simpl in Hs2.
  split_match; [by apply eqs_ok_erase|].
  pose proof (block_on_ok key (w_deadline w) s2 Hs2). by destruct (block_on key (w_deadline w) s2).
Qed.

Lemma resume_ok h me w s :
  eqs_ok s -> om_find me (waiters_ s) = Some w -> eqs_ok (resume h me w s).1.
Proof.
  intros Hs Hw. unfold resume. split_match; [done|].
  destruct (w_completion w).
  - by apply resume_waiting_ok.
  - destruct (EventQueue_Find h _); [|by apply eqs_ok_erase].
    destruct (CurrentEvents _ _); [|by apply eqs_ok_erase].
    apply resume_waiting_ok, eqs_ok_waiters; [done|apply om_update_sorted, Hs|].
    intros th w'. rewrite om_find_update. case_decide; [|apply Hs]. subst th.
    rewrite Hw. intros [= <-]. apply (es_waiter_ok _ Hs) in Hw as [Hc _ _]. by split.
  - by apply eqs_ok_erase.
Qed.

Lemma wait_fresh_ok h n t cur s :
  0 < n -> (forall me, cur = Some me -> om_find me (waiters_ s) = None) ->
  eqs_ok s -> eqs_ok (wait_fresh h n t cur s).1.
Proof.
  intros Hn Hcur Hs. unfold wait_fresh.
  pose proof (PollLocked_ok h n s Hs) as Hs1.
  assert (Hw1 : waiters_ (EQS_PollLocked h n s).1 = waiters_ s).
  { unfold EQS_PollLocked. destruct (n =? 0); [done|]. destruct (EventQueue_Find h _); [|done].
    destruct (EventQueue_Poll _ _) as [q' [|ev0 es]]; [done|].
    by destruct (CurrentEvents _ _). }
  destruct (EQS_PollLocked h n s) as [s1 [st ev]]. simpl in Hs1, Hw1.
  split_match; [done|]. destruct (match t with Some _ => _ | None => _ end); [done|].
  destruct cur as [me|]; [|done]. specialize (Hcur me eq_refl). rewrite <- Hw1 in Hcur.
  set (dl := match t with Some _ => _ | None => _ end).
  assert (eqs_ok dl.1 /\ waiters_ dl.1 = waiters_ s1) as [Hs2 Hw2].
  { unfold dl. destruct t; [|done]. simpl. split; [|done]. apply eqs_ok_kernel; [done| |done].
    by apply tick_ok, Hs1. }
  clearbody dl. destruct dl as [s2 d]. simpl in Hs2, Hw2.
  set (s3 := with_waiters s2 _).
  assert (Hs3 : eqs_ok s3).
  { apply eqs_ok_waiters; [done|apply om_emplace_sorted; [apply Hs2]|].
    intros th w. rewrite om_find_emplace by (try apply Hs2; by rewrite Hw2).
    case_decide; [|apply Hs2]. intros [= <-]. by split. }
  pose proof (block_on_ok (EventQueueService_MakeWaitKey h) d s3 Hs3) as Hs4.
  destruct (block_on _ d s3) as [s4 b]. simpl in Hs4.
  destruct b; [done|]. by apply eqs_ok_erase.
Qed.

Lemma EQS_Wait_ok h n t s : 0 <= n -> eqs_ok s -> eqs_ok (EQS_Wait h n t s).1.
Proof.
  intros Hn Hs. unfold EQS_Wait. destruct (n =? 0) eqn:E; [done|].
  destruct (current_thread_ _) as [me|] eqn:Hc.
  - destruct (om_find me (waiters_ s)) as [w|] eqn:Hw; [by apply resume_ok|].
    apply wait_fresh_ok; [lia| |done]. by intros ? [= <-].
  - by apply wait_fresh_ok; [lia| |].
Qed.

(** ** Every call of the service and of the scheduler *)

Inductive eqs_step : EventQueueService -> EventQueueService -> Prop :=
| SCreate name s : eqs_step s (EventQueue_Create name s).1
| SDelete h s : eqs_step s (EventQueue_Delete h s).1
| SAddUser h i edge s : eqs_step s (EQS_AddUserEvent h i edge s).1
| SDeleteUser h i s : eqs_step s (EQS_DeleteUserEvent h i s).1
| STriggerUser h i ud s : eqs_step s (EQS_TriggerUserEvent h i ud s).1
| SAddGraphics h i ud s : eqs_step s (EQS_AddGraphicsEvent h i ud s).1
| SDeleteGraphics h i s : eqs_step s (EQS_DeleteGraphicsEvent h i s).1
| STriggerGraphics d s : eqs_step s (TriggerGraphicsEvents d s).1
| SAddVideoOut h i ud s : eqs_step s (EQS_AddVideoOutEvent h i ud s).1
| SDeleteVideoOut h i s : eqs_step s (EQS_DeleteVideoOutEvent h i s).1
| STriggerVideoOut d s : eqs_step s (TriggerVideoOutEvents d s).1
| SPoll h n s : 0 <= n -> eqs_step s (EQS_Poll h n s).1
| SWait h n t s : 0 <= n -> eqs_step s (EQS_Wait h n t s).1
| SSched k' s : sched_step (eqs_kernel s) k' -> eqs_step s (with_eqs_kernel s k').

Lemma sched_step_queues k k' : sched_step k k' -> kernel_ok k -> same_queues k k'.
Proof.
  destruct 1; intros Hk; try (apply same_queues_handles; done).
  - unfold CreateThread. split_match; [done|].
    pose proof (Insert_frame (Some OThread) (handles_ k)) as Hfr.
    pose proof (fun h => Insert_Find (Some OThread) (handles_ k) h kThread (ko_table _ Hk)) as Hf.
    assert (Hfresh : forall h, (Insert (Some OThread) (handles_ k)).2 = Some h ->
              objects_ (handles_ k) !! h = None).
    { intros h. simpl. destruct (exhausted_ _) eqn:He; [done|]. intros [= <-].
      apply next_handle_fresh; [apply Hk|done]. }
    destruct (Insert (Some OThread) (handles_ k)) as [tbl [h|]]; simpl in *; intros h' q; simpl.
    + destruct (decide (h' = h)) as [->|]; [|by rewrite Hfr by congruence].
      specialize (Hf h eq_refl). apply Find_Some in Hf as (_ & Hl & _).
      by rewrite Hl, (Hfresh h eq_refl).
    + by rewrite Hfr.
  - unfold DiscardReadyThread. destruct (om_find h _) as [t|]; [|done]. split_match; [done|].
    pose proof (Remove_lookup h kThread (handles_ k)) as Hl.
    destruct (Remove h kThread (handles_ k)) as [tbl r]. simpl in Hl.
    assert (Hs : forall h' q, objects_ tbl !! h' = Some (OEventQueue q) <->
                   objects_ (handles_ k) !! h' = Some (OEventQueue q)).
    { intros h' q. rewrite Hl. case_bool_decide as Hb; [|done].
      destruct Hb as [-> [o (_ & Ho & Ht)%Find_Some]]. rewrite Ho.
      split; [done|]. by intros [= ->]. }
    by destruct r.
  - apply same_queues_handles. unfold SelectNext. destruct (current_thread_ _); [done|].
    by destruct (select_loop _ _) as [[ts r] p].
  - apply same_queues_handles. unfold YieldCurrent. by destruct (running_thread _) as [[h t]|].
  - apply same_queues_handles, BlockCurrentLocked_handles.
  - apply same_queues_handles, BlockCurrentLocked_handles.
  - apply same_queues_handles. unfold WakeBlockedThreads. split_match; [done|].
    by destruct (wake_threads _ _ _ _).
  - apply same_queues_handles, WakeBlockedThread_handles.
  - apply same_queues_handles. unfold JoinThread. by repeat split_match.
  - apply same_queues_handles. unfold ExitCurrent.
    destruct (running_thread _) as [[h t]|]; [|done]. by destruct (wake_threads _ _ _ _).
  - apply same_queues_handles, Consume_handles.
Qed.

Lemma eqs_step_ok s s' : eqs_step s s' -> eqs_ok s -> eqs_ok s'.
Proof.
  destruct 1; intros Hs;
    try (by apply EventQueue_Create_ok || by apply EventQueue_Delete_ok
         || by apply TriggerUserEvent_service_ok || by apply trigger_all_ok
         || by apply PollLocked_ok || by apply EQS_Wait_ok).
  - apply on_queue_ok; [intros; constructor|done].
  - apply on_queue_ok; [intros; constructor|done].
  - apply on_queue_ok; [|done]. intros q. unfold register_status.
    pose proof (EqRegister q i kEventFilterGraphics 0 ud) as Hr.
    by destruct (EventQueue_RegisterEvent _ _ _ _ _) as [? [? ?]].
  - apply on_queue_ok; [intros; constructor|done].
  - apply on_queue_ok; [|done]. intros q. unfold register_status.
    pose proof (EqRegister q i kEventFilterVideoOut 0 ud) as Hr.
    by destruct (EventQueue_RegisterEvent _ _ _ _ _) as [? [? ?]].
  - apply on_queue_ok; [intros; constructor|done].
  - apply eqs_ok_kernel; [done|by eapply sched_step_ok; [|apply Hs]|].
    apply sched_step_queues; [done|apply Hs].
Qed.

Definition EventQueueService_init : EventQueueService := mkEventQueueService [] [] Kernel_init.

Lemma EventQueueService_init_ok : eqs_ok EventQueueService_init.
Proof.
  split; simpl; try done; [apply Kernel_init_ok|constructor|constructor|].
  intros h ref. split; [done|]. intros (_ & q & Hq). by rewrite lookup_empty in Hq.
Qed.

(** C21: in every state reachable through the event-queue service and the
    scheduler, the service's queue map lists exactly the live event queues,
    every queue is well formed, and a waiter that holds reserved events belongs
    to a live queue, holds only generations that queue issued, and no other
    waiter holds events. *)
Theorem event_queue_service_invariant s :
  rtc eqs_step EventQueueService_init s -> eqs_ok s.
Proof.
  generalize EventQueueService_init_ok. generalize EventQueueService_init. intros s0 Hs0.
  induction 1 as [|? ? ? Hs _ IH]; [done|]. by eapply IH, eqs_step_ok.
Qed.

(** ** Delivery to waiters *)

Lemma Poll_edge q n :
  Forall (fun e => rk_persistent e = false) (pending_events_ q) ->
  (EventQueue_Poll q n).2 ++ pending_events_ (EventQueue_Poll q n).1 = pending_events_ q /\
  Forall (fun e => rk_persistent e = false) (pending_events_ (EventQueue_Poll q n).1).
Proof.
  intros Hall. simpl. set (c := Z.to_nat _). rewrite <- (take_drop c (pending_events_ q)) in Hall.
  apply Forall_app in Hall as [Ht Hd].
  assert (Hf : List.filter rk_persistent (take c (pending_events_ q)) = []).
  { clear Hd. induction Ht as [|e l He _ IH]; [done|]. simpl. by rewrite He. }
  rewrite Hf, app_nil_r. split; [apply take_drop|done].
Qed.

Lemma Poll_empty q n :
  0 < n -> (EventQueue_Poll q n).2 = [] -> pending_events_ (EventQueue_Poll q n).1 = [].
Proof.
  intros Hn. simpl. destruct (pending_events_ q) as [|e l] eqn:E; simpl; [by rewrite drop_nil, take_nil|].
  destruct (Z.to_nat _) eqn:Ec; [lia|done].
Qed.

(** The events a trigger handed out, in the order of the waiters. *)
Definition newly_reserved (h : Z) (ws ws' : list (Z * Waiter)) : list RegisteredKernelEvent :=
  concat (zip_with (fun p p' => if is_waiting h p.2 then w_events p'.2 else []) ws ws').

Lemma reserve_loop_fifo h key ws q k :
  Forall (fun e => rk_persistent e = false) (pending_events_ q) ->
  Forall (fun p => w_completion p.2 <> kReserved -> w_events p.2 = []) ws ->
  newly_reserved h ws (reserve_loop h key ws q k).1.1 ++
    pending_events_ (reserve_loop h key ws q k).1.2 = pending_events_ q.
Proof.
  revert ws q k. unfold newly_reserved.
  apply (reserve_loop_ind h key (fun ws q _ ws' q' _ =>
    Forall (fun e => rk_persistent e = false) (pending_events_ q) ->
    Forall (fun p => w_completion p.2 <> kReserved -> w_events p.2 = []) ws ->
    concat (zip_with (fun p p' => if is_waiting h p.2 then w_events p'.2 else []) ws ws') ++
      pending_events_ q' = pending_events_ q)).
  - done.
  - intros th w rest q k k1 rest' q' k' _ IH He [Hw Hws]%Forall_cons. simpl.
    destruct (is_waiting h w) eqn:E; [|by apply IH]. simpl in Hw.
    apply andb_true_iff in E as [_ Hc%bool_decide_eq_true]. rewrite Hw by (by rewrite Hc).
    by apply IH.
  - intros th w rest q k k1 Hw _ Hp He Hws.
    assert (Hz : concat (zip_with (fun p p' : Z * Waiter =>
              if is_waiting h p.2 then w_events p'.2 else []) ((th, w) :: rest) ((th, w) :: rest)) = []).
    { clear -Hws. induction Hws as [|[th' w'] l Hw _ IH]; [done|]. simpl in *. rewrite IH.
      destruct (is_waiting h w') eqn:E; [|done].
      apply andb_true_iff in E as [_ Hc%bool_decide_eq_true]. by rewrite Hw by (by rewrite Hc). }
    rewrite Hz. destruct (Poll_edge q (w_maximum_count w) He) as [Heq _].
    by rewrite Hp in Heq.
  - intros th w rest q k k1 rest' q' k' Hw _ Hne IH He [_ Hws]%Forall_cons.
    destruct (Poll_edge q (w_maximum_count w) He) as [Heq He1].
    rewrite <- Heq, <- (IH He1 Hws). simpl. rewrite Hw. by rewrite <- app_assoc.
Qed.

Lemma WakeBlockedThread_clock h key k :
  (clock_reads (clock_ k) <= clock_reads (clock_ (WakeBlockedThread h key k).1))%nat.
Proof.
  unfold WakeBlockedThread. split_match; [done|]. clear E.
  repeat split_match; simpl; lia.
Qed.

Lemma reserve_loop_clock h key ws q k :
  (clock_reads (clock_ k) <= clock_reads (clock_ (reserve_loop h key ws q k).2))%nat.
Proof.
  revert ws q k. apply (reserve_loop_ind h key (fun _ _ k _ _ k' =>
    (clock_reads (clock_ k) <= clock_reads (clock_ k'))%nat)).
  - done.
  - intros th w rest q k k1 rest' q' k' [[_ ->]|(d & _ & _ & ->)] IH; simpl in *; lia.
  - intros th w rest q k k1 _ [->| ->] _; simpl; lia.
  - intros th w rest q k k1 rest' q' k' _ Hk1 _ IH.
    pose proof (WakeBlockedThread_clock th key k1).
    assert ((clock_reads (clock_ k) <= clock_reads (clock_ k1))%nat)
      by (destruct Hk1 as [->| ->]; simpl; lia). lia.
Qed.

(** The waiter's deadline had passed at one of the readings made between two
    states of the clock. *)
Definition lapsed_between k k' (w : Waiter) : Prop :=
  exists d n, w_deadline w = Some d /\ d <= source_monotonic n /\
    (clock_reads (clock_ k) <= n < clock_reads (clock_ k'))%nat.

Lemma lapsed_earlier k k1 k' w :
  (clock_reads (clock_ k) <= clock_reads (clock_ k1))%nat ->
  lapsed_between k1 k' w -> lapsed_between k k' w.
Proof. intros Hle (d & n & Hd & Hn & Hr). exists d, n. split_and!; try done; lia. Qed.

Lemma reserve_loop_complete h key ws q k :
  Forall (fun p => 0 < w_maximum_count p.2) ws ->
  pending_events_ (reserve_loop h key ws q k).1.2 = [] \/
  Forall (fun p => is_waiting h p.2 = true -> lapsed_between k (reserve_loop h key ws q k).2 p.2)
    (reserve_loop h key ws q k).1.1.
Proof.
  intros Hws.
  cut ((clock_reads (clock_ k) <= clock_reads (clock_ (reserve_loop h key ws q k).2))%nat /\
    (pending_events_ (reserve_loop h key ws q k).1.2 = [] \/
     Forall (fun p => is_waiting h p.2 = true ->
        lapsed_between k (reserve_loop h key ws q k).2 p.2) (reserve_loop h key ws q k).1.1)).
  { by intros [_ ?]. }
  revert ws q k Hws. apply (reserve_loop_ind h key (fun ws q k ws' q' k' =>
    Forall (fun p => 0 < w_maximum_count p.2) ws ->
    (clock_reads (clock_ k) <= clock_reads (clock_ k'))%nat /\
    (pending_events_ q' = [] \/
     Forall (fun p => is_waiting h p.2 = true -> lapsed_between k k' p.2) ws'))).
  - split; [done|by right].
  - intros th w rest q k k1 rest' q' k' Hk1 IH [_ Hws]%Forall_cons.
    destruct (IH Hws) as [Hclk Hall].
    assert (Hle1 : (clock_reads (clock_ k) <= clock_reads (clock_ k1))%nat).
    { destruct Hk1 as [[_ ->]|(? & _ & _ & ->)]; simpl; lia. }
    split; [lia|]. destruct Hall as [?|Hall]; [by left|right]. constructor.
    + simpl. intros Hw. destruct Hk1 as [[Hf _]|(d & Hd & Hle & ->)]; [congruence|].
      exists d, (clock_reads (clock_ k)). by split_and!.
    + eapply Forall_impl; [exact Hall|]. intros p Hp Hw. by eapply lapsed_earlier, Hp.
  - intros th w rest q k k1 Hw Hk1 Hp [Hn _]%Forall_cons. split.
    + destruct Hk1 as [->| ->]; simpl; lia.
    + left. by apply Poll_empty.
  - intros th w rest q k k1 rest' q' k' Hw Hk1 _ IH [_ Hws]%Forall_cons.
    destruct (IH Hws) as [Hclk Hall].
    assert (Hle1 : (clock_reads (clock_ k) <=
                    clock_reads (clock_ (WakeBlockedThread th key k1).1))%nat).
    { pose proof (WakeBlockedThread_clock th key k1). destruct Hk1 as [->| ->]; simpl in *; lia. }
    split; [lia|]. destruct Hall as [?|Hall]; [by left|right]. constructor.
    + simpl. unfold is_waiting. simpl. by rewrite andb_false_r.
    + eapply Forall_impl; [exact Hall|]. intros p Hp Hw'. by eapply lapsed_earlier, Hp.
Qed.

(** ** Waking the served threads *)

Lemma no_thread_zero k t : kernel_ok k -> om_find 0 (threads_ (scheduler_ k)) <> Some t.
Proof.
  intros Hk Ht. assert (Ho : objects_ (handles_ k) !! 0 = Some OThread)
    by (apply (ko_threads _ Hk); eauto).
  apply (ht_live _ (ko_table _ Hk)) in Ho. lia.
Qed.

(** [WakeBlockedThread] leaves its target off the key and parks nobody. *)
Lemma WakeBlockedThread_find h key k h' t' :
  kernel_ok k -> key <> EmptyString ->
  om_find h' (threads_ (scheduler_ (WakeBlockedThread h key k).1)) = Some t' ->
  blocked_on key t' = true ->
  h' <> h /\ exists t, om_find h' (threads_ (scheduler_ k)) = Some t /\ blocked_on key t = true.
Proof.
  intros Hk Hkey. unfold WakeBlockedThread. rewrite (bool_decide_eq_false_2 _ Hkey), orb_false_r.
  unfold kInvalidKernelHandle. destruct (h =? 0) eqn:E0.
  { intros Ht Hb. split; [|by exists t']. intros ->. assert (h = 0) as -> by lia.
    by eapply no_thread_zero. }
  pose proof (wake_expired_find k h' Hk) as Hf.
  assert (Hback : forall t1, om_find h' (threads_ (scheduler_ (wake_expired_now k))) = Some t1 ->
            blocked_on key t1 = true ->
            exists t, om_find h' (threads_ (scheduler_ k)) = Some t /\ blocked_on key t = true).
  { intros t1 Ht1 Hb. rewrite Hf in Ht1. apply fmap_Some in Ht1 as (t & Ht & ->). exists t.
    split; [done|]. by destruct (expired_at _ t). }
  destruct (om_find h (threads_ (scheduler_ (wake_expired_now k)))) as [t|] eqn:Eh.
  2:{ cbn [fst]. intros Ht Hb. split; [congruence|by eapply Hback]. }
  destruct (blocked_on key t) eqn:Eb; cbn [fst with_scheduler scheduler_ threads_]; intros Ht Hb.
  - rewrite om_find_update in Ht. case_decide as Hd.
    + subst h'. rewrite Eh in Ht. simpl in Ht. injection Ht as <-.
      apply blocked_on_true in Hb as [Hb _]. done.
    + split; [done|by eapply Hback].
  - split; [congruence|by eapply Hback].
Qed.

Lemma reserve_loop_woken h key ws q k h' t' :
  key <> EmptyString -> kernel_ok k ->
  om_find h' (threads_ (scheduler_ (reserve_loop h key ws q k).2)) = Some t' ->
  blocked_on key t' = true ->
  (exists t, om_find h' (threads_ (scheduler_ k)) = Some t /\ blocked_on key t = true) /\
  om_relk (fun th w w' => th = h' -> is_waiting h w = true -> w_completion w' <> kReserved)
    ws (reserve_loop h key ws q k).1.1.
Proof.
  intros Hkey Hk Ht Hb. revert ws q k Hk Ht. unfold om_relk.
  apply (reserve_loop_ind h key (fun ws q k ws' q' k' =>
    kernel_ok k -> om_find h' (threads_ (scheduler_ k')) = Some t' ->
    (exists t, om_find h' (threads_ (scheduler_ k)) = Some t /\ blocked_on key t = true) /\
    Forall2 (fun p p' => p.1 = p'.1 /\
      (p.1 = h' -> is_waiting h p.2 = true -> w_completion p'.2 <> kReserved)) ws ws')).
  - intros q k _ Ht. split; [by exists t'|constructor].
  - intros th w rest q k k1 rest' q' k' Hk1 IH Hk Ht.
    assert (Hw : is_waiting h w = true -> w_completion w <> kReserved).
    { intros [_ ->%bool_decide_eq_true]%andb_true_iff. done. }
    destruct Hk1 as [[_ ->]|(d & _ & _ & ->)].
    + destruct (IH Hk Ht) as [? ?]. split; [done|]. by constructor.
    + destruct (IH (tick_ok k Hk) Ht) as [? ?]. split; [done|]. by constructor.
  - intros th w rest q k k1 _ Hk1 _ Hk Ht. split; [destruct Hk1 as [->| ->]; by exists t'|].
    apply Forall_Forall2_diag, Forall_forall. intros p _. split; [done|].
    intros _ [_ ->%bool_decide_eq_true]%andb_true_iff. done.
  - intros th w rest q k k1 rest' q' k' _ Hk1 _ IH Hk Ht.
    assert (Hok : kernel_ok k1) by (destruct Hk1 as [->| ->]; [done|by apply tick_ok]).
    destruct (IH (WakeBlockedThread_ok th key k1 Hok) Ht) as [(t1 & Ht1 & Hb1) Hrest].
    destruct (WakeBlockedThread_find th key k1 h' t1 Hok Hkey Ht1 Hb1) as [Hne (t & Htk & Hbk)].
    split; [exists t; by destruct Hk1 as [->| ->]|]. constructor; [|done].
    split; [done|]. simpl. congruence.
Qed.

(** ** The effect of a trigger *)

Lemma Reserve_spec h q s :
  eqs_ok s -> h <> 0 -> objects_ (handles_ (eqs_kernel s)) !! h = Some (OEventQueue q) ->
  let s' := ReserveWaitingThreadsLocked h h q s in
  exists q', EventQueue_Find h (eqs_kernel s') = Some q' /\
    (pending_events_ q' = [] \/
     forall th w, om_find th (waiters_ s') = Some w -> is_waiting h w = true ->
       lapsed_between (eqs_kernel s) (eqs_kernel s') w) /\
    (Forall (fun e => rk_persistent e = false) (pending_events_ q) ->
     newly_reserved h (waiters_ s) (waiters_ s') ++ pending_events_ q' = pending_events_ q) /\
    (forall th w w' t, om_find th (waiters_ s) = Some w -> is_waiting h w = true ->
       om_find th (waiters_ s') = Some w' -> w_completion w' = kReserved ->
       om_find th (threads_ (scheduler_ (eqs_kernel s'))) = Some t ->
       blocked_on (EventQueueService_MakeWaitKey h) t = false).
Proof.
  intros Hs Hh Ho. cbn zeta. unfold ReserveWaitingThreadsLocked.
  set (key := EventQueueService_MakeWaitKey h).
  pose proof (es_waiters _ Hs) as Hsrt. pose proof (es_waiter_ok _ Hs) as Hwo.
  assert (Hall : forall p, p ∈ waiters_ s -> waiter_ok (eqs_kernel s) p.2).
  { intros [th w] Hin%om_elem_find; [|done]. by eapply Hwo. }
  pose proof (reserve_loop_complete h key (waiters_ s) q (eqs_kernel s)
    ltac:(apply Forall_forall; intros p Hp; by apply Hall)) as Hcomplete.
  pose proof (fun He => reserve_loop_fifo h key (waiters_ s) q (eqs_kernel s) He
    ltac:(apply Forall_forall; intros p Hp; by apply Hall)) as Hfifo.
  pose proof (fun h' t' => reserve_loop_woken h key (waiters_ s) q (eqs_kernel s) h' t'
    ltac:(done) (es_kernel _ Hs)) as Hwoken.
  destruct (reserve_loop h key (waiters_ s) q (eqs_kernel s)) as [[ws q'] k'].
  cbn [fst snd] in *. exists q'. split_and!.
  - apply EventQueue_Find_Some. split; [done|]. simpl. by rewrite lookup_insert_eq.
  - destruct Hcomplete as [?|Hc]; [by left|right]. intros th w Hf%om_find_elem Hw.
    rewrite Forall_forall in Hc. exact (Hc (th, w) Hf Hw).
  - exact Hfifo.
  - intros th w w' t Hf Hw Hf' Hres Ht. apply not_true_iff_false. intros Hb.
    destruct (Hwoken th t Ht Hb) as [_ Hrel]. apply (om_relk_find _ _ _) with (k := th) in Hrel.
    cbn [waiters_ store_queue with_eqs_kernel] in Hf'. rewrite Hf, Hf' in Hrel.
    inversion Hrel as [? ? Hx|]; subst. by apply Hx.
Qed.

(** C5: a trigger of a registered user event succeeds and serves the waiters:
    afterwards either no event is pending on the queue, or every waiter still
    waiting had a deadline that passed before the trigger looked at it, so no
    wake-up is lost; with edge events the events handed out, in waiter order,
    followed by what remains pending are exactly the pending events, so each is
    delivered once and in order; and no thread that was handed events is left
    blocked on the queue. *)
Theorem trigger_serves_waiters h ident user_data s q r :
  eqs_ok s -> EventQueue_Find h (eqs_kernel s) = Some q ->
  find (reg_matches ident kEventFilterUser) (registrations_ q) = Some r ->
  let q1 := (EventQueue_TriggerUserEvent q ident user_data).1 in
  let '(s', st) := EQS_TriggerUserEvent h ident user_data s in
  st = kOk /\
  exists q', EventQueue_Find h (eqs_kernel s') = Some q' /\
    (pending_events_ q' = [] \/
     forall th w, om_find th (waiters_ s') = Some w -> is_waiting h w = true ->
       lapsed_between (eqs_kernel s) (eqs_kernel s') w) /\
    (Forall (fun e => rk_persistent e = false) (pending_events_ q1) ->
     newly_reserved h (waiters_ s) (waiters_ s') ++ pending_events_ q' = pending_events_ q1) /\
    (forall th w w' t, om_find th (waiters_ s) = Some w -> is_waiting h w = true ->
       om_find th (waiters_ s') = Some w' -> w_completion w' = kReserved ->
       om_find th (threads_ (scheduler_ (eqs_kernel s'))) = Some t ->
       blocked_on (EventQueueService_MakeWaitKey h) t = false).
Proof.
  intros Hs Hq Hr. cbn zeta. unfold EQS_TriggerUserEvent. rewrite Hq.
  apply EventQueue_Find_Some in Hq as [Hh Ho].
  assert (Hst : (EventQueue_TriggerUserEvent q ident user_data).2 = kOk).
  { unfold EventQueue_TriggerUserEvent. rewrite Hr. by split_match. }
  pose proof (store_step_ok h q _ s Hs Ho (EqTriggerUser q ident user_data)) as Hs1.
  destruct (EventQueue_TriggerUserEvent q ident user_data) as [q1 st]. simpl in Hst. subst st.
  cbn [fst] in *. simpl (status_eqb kOk kOk). cbn iota. split; [done|].
  apply (Reserve_spec h q1 (store_queue h q1 s) Hs1 Hh). simpl. by rewrite lookup_insert_eq.
Qed.

(** ** Deletion completes the waiters *)

Lemma delete_loop_woken h key ws k h' t' :
  key <> EmptyString -> kernel_ok k ->
  om_find h' (threads_ (scheduler_ (delete_loop h key ws k).2)) = Some t' ->
  blocked_on key t' = true ->
  (exists t, om_find h' (threads_ (scheduler_ k)) = Some t /\ blocked_on key t = true) /\
  Forall (fun p => p.1 = h' -> is_waiting h p.2 = false) ws.
Proof.
  intros Hkey Hk Ht Hb. revert k Hk Ht. induction ws as [|[th w] ws IH]; intros k Hk Ht; simpl in Ht.
  { split; [by exists t'|constructor]. }
  unfold is_waiting in *. destruct (w_queue_handle w =? h) eqn:E; simpl in Ht.
  - set (k1 := if bool_decide _ then _ else _) in Ht.
    assert (Hk1 : kernel_ok k1)
      by (unfold k1; case_bool_decide; [by apply WakeBlockedThread_ok|done]).
    specialize (IH k1 Hk1). destruct (delete_loop h key ws k1) as [ws' k']. simpl in *.
    destruct (IH Ht) as [(t1 & Ht1 & Hb1) Hall]. unfold k1 in Ht1.
    case_bool_decide as Hc.
    + destruct (WakeBlockedThread_find th key k h' t1 Hk Hkey Ht1 Hb1) as [Hne Hex].
      split; [done|]. constructor; [|done]. simpl. congruence.
    + split; [by exists t1|]. constructor; [|done]. simpl. intros _.
      by rewrite (bool_decide_eq_false_2 _ Hc), andb_false_r.
  - specialize (IH k Hk). destruct (delete_loop h key ws k) as [ws' k']. simpl in *.
    destruct (IH Ht) as [Hex Hall]. split; [done|]. constructor; [|done]. simpl. by rewrite E.
Qed.

(** Deleting a live event queue succeeds, invalidates its handle, marks every
    waiter of the queue deleted (dropping events reserved for it) and leaves
    every other waiter alone; no thread that was waiting stays blocked on the
    queue; and when such a thread runs and waits again, the call reports the
    deletion and forgets the waiter. *)
Theorem Delete_completes_waiters h s q :
  eqs_ok s -> EventQueue_Find h (eqs_kernel s) = Some q ->
  let '(s', st) := EventQueue_Delete h s in
  st = kOk /\ EventQueue_Find h (eqs_kernel s') = None /\
  (forall th w, om_find th (waiters_ s) = Some w ->
     om_find th (waiters_ s') =
       Some (if w_queue_handle w =? h then complete_with kDeleted [] w else w)) /\
  (forall th w t, om_find th (waiters_ s) = Some w -> is_waiting h w = true ->
     om_find th (threads_ (scheduler_ (eqs_kernel s'))) = Some t ->
     blocked_on (EventQueueService_MakeWaitKey h) t = false) /\
  (forall th w n timeout s2, om_find th (waiters_ s2) = Some w ->
     w_queue_handle w = h -> w_completion w = kDeleted -> 0 < n ->
     current_thread_ (scheduler_ (eqs_kernel s2)) = Some th ->
     EQS_Wait h n timeout s2 =
       (with_waiters s2 (om_erase th (waiters_ s2)), (kPermissionDenied, []))).
Proof.
  intros Hs Hq. pose proof (es_kernel _ Hs) as Hk.
  apply EventQueue_Find_Some in Hq as [Hh Ho].
  unfold EventQueue_Delete. pose proof (Remove_lookup h kEventQueue (handles_ (eqs_kernel s)) h) as Hl.
  rewrite bool_decide_eq_true_2 in Hl
    by (split; [done|]; exists (OEventQueue q); by apply Find_Some).
  assert (Hrem : (Remove h kEventQueue (handles_ (eqs_kernel s))).2 = Some (OEventQueue q)).
  { unfold Remove, kInvalidKernelHandle. replace (h =? 0) with false by lia. by rewrite Ho. }
  destruct (Remove h kEventQueue (handles_ (eqs_kernel s))) as [tbl r] eqn:Er.
  simpl in Hl, Hrem. subst r.
  assert (Hk1 : kernel_ok (with_handles (eqs_kernel s) tbl))
    by (by eapply remove_object_ok; [done| |exact Er]).
  set (key := EventQueueService_MakeWaitKey h).
  pose proof (delete_loop_kernel h key (waiters_ s) _ Hk1) as [_ Hh2].
  pose proof (delete_loop_waiters h key (waiters_ s) (with_handles (eqs_kernel s) tbl)) as Hw.
  pose proof (fun h' t' => delete_loop_woken h key (waiters_ s) _ h' t' ltac:(done) Hk1) as Hwoken.
  destruct (delete_loop _ _ _ _) as [ws k']. simpl in *. split_and!.
  - done.
  - destruct (EventQueue_Find h k') as [q0|] eqn:E0; [|done].
    apply EventQueue_Find_Some in E0 as [_ E0]. rewrite Hh2 in E0. congruence.
  - intros th w Hf. pose proof (om_rel_find _ _ _ Hw th) as Hrel. rewrite Hf in Hrel.
    by inversion Hrel as [? w' Hd|]; subst; rewrite Hd.
  - intros th w t Hf Hwait Ht. apply not_true_iff_false. intros Hb.
    destruct (Hwoken th t Ht Hb) as [_ Hall]. rewrite Forall_forall in Hall.
    apply om_find_elem in Hf. specialize (Hall (th, w) Hf eq_refl). simpl in Hall. congruence.
  - intros th w n timeout s2 Hf Hqh Hc Hn Hcur. unfold EQS_Wait.
    replace (n =? 0) with false by lia. rewrite Hcur, Hf. unfold resume.
    by rewrite Hqh, Z.eqb_refl, Hc.
Qed.

(** ** Deadlines *)

Lemma wait_deadline_eq t now :
  is_u64 t -> is_u64 now -> wait_deadline t now = Z.min u64_max (now + 1000 * t).
Proof.
  intros Ht Hnow. unfold wait_deadline.
  pose proof (Z.div_mod u64_max 1000 ltac:(lia)).
  pose proof (Z.mod_pos_bound u64_max 1000 ltac:(lia)). unfold is_u64 in *.
  destruct (t >? u64_max / 1000) eqn:E.
  - unwrap64. destruct (u64_max >? u64_max - now) eqn:E2; [lia|]. unwrap64. lia.
  - rewrite mul64_small by lia. rewrite sub64_small by lia.
    destruct (t * 1000 >? u64_max - now) eqn:E2; [lia|]. rewrite add64_small by lia. lia.
Qed.

Lemma block_on_parks key d s me :
  kernel_ok (eqs_kernel s) -> key <> EmptyString ->
  current_thread_ (scheduler_ (eqs_kernel s)) = Some me ->
  exists k', block_on key d s = (with_eqs_kernel s k', true) /\
    current_thread_ (scheduler_ k') = None /\
    exists t, om_find me (threads_ (scheduler_ k')) = Some t /\
      blocked_on key t = true /\ th_wait_deadline t = d.
Proof.
  intros Hk Hkey Hcur. unfold block_on, BlockCurrentUntil, BlockCurrent.
  destruct (BlockCurrentLocked_spec key d (eqs_kernel s) me Hk Hkey Hcur)
    as (Hb & Hc' & t & Ht & Hst & Hwk & Hd).
  exists (BlockCurrentLocked key d (eqs_kernel s)).1. split_and!; [|done|].
  - destruct d; destruct (BlockCurrentLocked key _ _) as [k3 b]; simpl in *; by subst b.
  - exists t. split_and!; [done|by apply blocked_on_true|done].
Qed.

(** Waiting on an empty queue with a non-zero timeout parks the running
    thread on the queue with the deadline now + timeout in nanoseconds,
    saturated at the largest 64-bit value (no wrap-around), and registers a
    waiter that will be resumed with the same deadline; without a timeout the
    deadline is absent; with a zero timeout the call times out at once and
    parks nobody. *)
Theorem Wait_parks_with_deadline `{!ClockSourceLaws} h n timeout me s q :
  eqs_ok s -> EventQueue_Find h (eqs_kernel s) = Some q -> pending_events_ q = [] ->
  current_thread_ (scheduler_ (eqs_kernel s)) = Some me -> om_find me (waiters_ s) = None ->
  0 < n -> (forall t, timeout = Some t -> is_u64 t) ->
  let now := source_monotonic (clock_reads (clock_ (eqs_kernel s))) in
  let deadline := (fun t => Z.min u64_max (now + 1000 * t)) <$> timeout in
  let '(s', r) := EQS_Wait h n timeout s in
  if decide (timeout = Some 0) then
    r = (kTimedOut, []) /\ waiters_ s' = waiters_ s /\
    scheduler_ (eqs_kernel s') = scheduler_ (eqs_kernel s)
  else
    r = (kWouldBlock, []) /\
    om_find me (waiters_ s') = Some (mkWaiter h n deadline kWaiting []) /\
    current_thread_ (scheduler_ (eqs_kernel s')) = None /\
    exists t, om_find me (threads_ (scheduler_ (eqs_kernel s'))) = Some t /\
      blocked_on (EventQueueService_MakeWaitKey h) t = true /\ th_wait_deadline t = deadline.
Proof.
  intros Hs Hq Hp Hcur Hnw Hn Ht. cbn zeta. pose proof (es_kernel _ Hs) as Hk.
  unfold EQS_Wait. replace (n =? 0) with false by lia. rewrite Hcur, Hnw.
  unfold wait_fresh, EQS_PollLocked. replace (n =? 0) with false by lia. rewrite Hq.
  assert (Hpoll : (EventQueue_Poll q n).2 = []) by (simpl; by rewrite Hp, take_nil).
  apply EventQueue_Find_Some in Hq as [Hh Ho].
  pose proof (store_step_ok h q _ s Hs Ho (EqPoll q n)) as Hs1.
  destruct (EventQueue_Poll q n) as [q' ev]. simpl in Hpoll, Hs1. subst ev.
  simpl (status_eqb kBusy kBusy). cbn iota. simpl negb. cbn iota.
  set (s1 := store_queue h q' s) in *. set (key := EventQueueService_MakeWaitKey h).
  assert (Hsc : scheduler_ (eqs_kernel s1) = scheduler_ (eqs_kernel s)) by done.
  destruct timeout as [t|].
  - specialize (Ht t eq_refl). destruct (t =? 0) eqn:Et.
    { assert (t = 0) as -> by lia. by rewrite decide_True. }
    destruct (decide (Some t = Some 0)) as [[= ->]|_]; [done|].
    cbn [MonotonicNanoseconds fst snd fmap option_fmap option_map].
    change (clock_reads (clock_ (eqs_kernel s1))) with (clock_reads (clock_ (eqs_kernel s))).
    rewrite wait_deadline_eq by (try done; apply monotonic_u64).
    set (d := Z.min _ _). set (s3 := with_waiters _ _).
    destruct (block_on_parks key (Some d) s3 me (tick_ok _ (es_kernel _ Hs1)) ltac:(done) Hcur)
      as (k' & -> & Hc & Hth).
    cbn [negb]. split_and!; [done| |done|done].
    unfold s3, s1. cbn [waiters_ with_waiters with_eqs_kernel store_queue].
    rewrite om_find_emplace, decide_True; try done. apply Hs.
  - destruct (decide (None = Some 0)) as [|_]; [done|]. set (s3 := with_waiters _ _).
    destruct (block_on_parks key None s3 me (es_kernel _ Hs1) ltac:(done) Hcur)
      as (k' & -> & Hc & Hth).
    cbn [negb]. split_and!; [done| |done|done].
    unfold s3, s1. cbn [waiters_ with_waiters with_eqs_kernel store_queue].
    rewrite om_find_emplace, decide_True; try done. apply Hs.
Qed.
End props.
