(* ===== verification/LittleEndian.v ===== *)
(** Little-endian byte images of fixed-width words.

    The host objects the program copies to and from guest memory
    ([std::as_bytes], [std::memcpy], [std::bit_cast]) are read and written in
    the byte order of the x86-64 host.  [le_bytes n v] is the [n]-byte image of
    [v]; [le_value] reads an image back. *)
From S2P Require Import Prelude.

Definition is_byte (b : Z) : Prop := 0 <= b < 256.

Fixpoint le_bytes (n : nat) (v : Z) : list Z :=
  match n with
  | O => []
  | S n' => v mod 256 :: le_bytes n' (v / 256)
  end.

Fixpoint le_value (l : list Z) : Z :=
  match l with
  | [] => 0
  | b :: l' => b + 256 * le_value l'
  end.

Lemma le_bytes_length n v : length (le_bytes n v) = n.
Proof. revert v. induction n as [|n IH]; intros v; simpl; [done|by rewrite IH]. Qed.

Lemma le_bytes_are_bytes n v : Forall is_byte (le_bytes n v).
Proof.
  revert v. induction n as [|n IH]; intros v; simpl; constructor; [|done].
  unfold is_byte. apply Z.mod_pos_bound. lia.
Qed.

Lemma pow256_succ n : 256 ^ Z.of_nat (S n) = 256 * 256 ^ Z.of_nat n.
Proof. rewrite Nat2Z.inj_succ, Z.pow_succ_r by lia. done. Qed.

(** Reading an image back gives the word reduced to the image's width. *)
Lemma le_value_bytes n v : le_value (le_bytes n v) = v mod 256 ^ Z.of_nat n.
Proof.
  revert v. induction n as [|n IH]; intros v; cbn [le_bytes le_value].
  - by rewrite Z.pow_0_r, Z.mod_1_r.
  - rewrite IH, pow256_succ.
    pose proof (Z.pow_pos_nonneg 256 (Z.of_nat n) ltac:(lia) ltac:(lia)).
    rewrite Z.rem_mul_r by lia. done.
Qed.

Lemma le_value_bound l : Forall is_byte l -> 0 <= le_value l < 256 ^ Z.of_nat (length l).
Proof.
  induction 1 as [|b l Hb Hl IH]; cbn [le_value length]; [by rewrite Z.pow_0_r|].
  rewrite pow256_succ. unfold is_byte in Hb. lia.
Qed.

(** Writing the value of an image gives the image. *)
Lemma le_bytes_value l : Forall is_byte l -> le_bytes (length l) (le_value l) = l.
Proof.
  induction 1 as [|b l Hb Hl IH]; cbn [le_value length le_bytes]; [done|].
  unfold is_byte in Hb.
  rewrite (Z.mul_comm 256), Z.mod_add, Z.div_add, Z.mod_small, Z.div_small by lia.
  by rewrite Z.add_0_l, IH.
Qed.

Lemma le_bytes_mod n v : le_bytes n (v mod 256 ^ Z.of_nat n) = le_bytes n v.
Proof.
  rewrite <- le_value_bytes.
  rewrite <- (le_bytes_length n v) at 1. apply le_bytes_value, le_bytes_are_bytes.
Qed.

Lemma le_bytes_roundtrip n v :
  0 <= v < 256 ^ Z.of_nat n -> le_value (le_bytes n v) = v.
Proof. intros Hv. by rewrite le_value_bytes, Z.mod_small. Qed.

(** The byte-wise encoder loops of the sources. *)
Lemma land_byte v k : 0 <= k -> Z.land (Z.shiftr v k) 0xff = v / 2 ^ k mod 256.
Proof. intros Hk. change 0xff with (Z.ones 8). by rewrite Z.land_ones, Z.shiftr_div_pow2 by lia. Qed.

Lemma le_bytes_map n : forall v,
  le_bytes n v = map (fun i => Z.land (Z.shiftr v (Z.of_nat i * 8)) 0xff) (seq 0 n).
Proof.
  induction n as [|n IH]; intros v; [done|]. cbn [le_bytes seq map]. f_equal.
  - rewrite land_byte by lia. by rewrite Z.div_1_r.
  - rewrite IH, <- seq_shift, map_map. apply map_ext. intros i.
    rewrite !land_byte by lia. f_equal. rewrite Z.div_div by lia. f_equal.
    rewrite Nat2Z.inj_succ. replace (Z.succ (Z.of_nat i) * 8) with (8 + Z.of_nat i * 8) by lia.
    rewrite Z.pow_add_r by lia. done.
Qed.
