(* ===== verification/SharedBacking.v ===== *)
(** [memory::SharedMemoryBacking] ([src/core/memory/shared_memory_backing.cpp]).

    A sparse byte array of fixed size: pages of 16 KiB are allocated on the
    first write and an absent page reads as zero.  The loops go page by page;
    the theorem of this file is that they implement a flat byte array.  A byte
    is an integer; failures of the host allocator are not modelled, so
    [EnsurePagesLocked] always succeeds. *)
From S2P Require Import Prelude.

Definition kSharedMemoryBackingPageSize : Z := 0x4000.
Abbreviation kPage := kSharedMemoryBackingPageSize.

Definition zero_page : list Z := replicate (Z.to_nat kPage) 0.

Record SharedMemoryBacking := mkBacking {
  bk_size_ : Z;
  bk_pages_ : gmap Z (list Z)
}.

Definition Backing_init (size : Z) : SharedMemoryBacking := mkBacking size ∅.

Implicit Types (b : SharedMemoryBacking) (pages : gmap Z (list Z)).

Definition Backing_Contains b (offset length : Z) : bool :=
  (offset <=? bk_size_ b) && (length <=? (bk_size_ b - offset)%u64).

(** [copy_n]/[fill_n] into a page at an offset. *)
Definition page_store (page : list Z) (page_offset : Z) (bytes : list Z) : list Z :=
  take (Z.to_nat page_offset) page ++ bytes ++
  drop (Z.to_nat page_offset + length bytes) page.

(** [while (output_offset < destination.size())]; each round handles the rest
    of one page, so [rounds size] rounds suffice. *)
Definition rounds (size : Z) : nat := Z.to_nat (size / kPage + 2).

Fixpoint read_loop (fuel : nat) pages (offset size output_offset : Z) : list Z :=
  match fuel with
  | O => []
  | S f =>
      if negb (output_offset <? size) then []
      else
        let current := (offset + output_offset)%u64 in
        let page_index := current / kPage in
        let page_offset := current mod kPage in
        let chunk := Z.min (size - output_offset) (kPage - page_offset) in
        let bytes := match pages !! page_index with
                     | None => replicate (Z.to_nat chunk) 0
                     | Some page => take (Z.to_nat chunk) (drop (Z.to_nat page_offset) page)
                     end in
        bytes ++ read_loop f pages offset size (output_offset + chunk)
  end.

(** The destination after a successful read; [None] is [false]. *)
Definition Backing_Read b (offset size : Z) : option (list Z) :=
  if negb (Backing_Contains b offset size) then None
  else Some (read_loop (rounds size) (bk_pages_ b) offset size 0).

(** [for (page = first_page; page <= last_page; ++page)]. *)
Fixpoint ensure_loop (n : nat) (page : Z) pages : gmap Z (list Z) :=
  match n with
  | O => pages
  | S m =>
      ensure_loop m (page + 1)
        (match pages !! page with Some _ => pages | None => <[page := zero_page]> pages end)
  end.

Definition EnsurePagesLocked pages (offset length : Z) : gmap Z (list Z) :=
  if length =? 0 then pages
  else
    let first_page := offset / kPage in
    let last_page := ((offset + length)%u64 - 1)%u64 / kPage in
    ensure_loop (Z.to_nat (last_page - first_page + 1)) first_page pages.

(** [source] gives the bytes of each chunk: the input of [Write], the constant
    of [Fill].  [pages_.at] throws on an absent page; [EnsurePagesLocked] has
    made every page present, and the loop stops if one is not. *)
Fixpoint store_loop (fuel : nat) pages (offset size : Z) (source : Z -> Z -> list Z)
    (input_offset : Z) : gmap Z (list Z) :=
  match fuel with
  | O => pages
  | S f =>
      if negb (input_offset <? size) then pages
      else
        let current := (offset + input_offset)%u64 in
        let page_index := current / kPage in
        let page_offset := current mod kPage in
        let chunk := Z.min (size - input_offset) (kPage - page_offset) in
        match pages !! page_index with
        | None => pages
        | Some page =>
            store_loop f
              (<[page_index := page_store page page_offset (source input_offset chunk)]> pages)
              offset size source (input_offset + chunk)
        end
  end.

Definition slice (bytes : list Z) (input_offset chunk : Z) : list Z :=
  take (Z.to_nat chunk) (drop (Z.to_nat input_offset) bytes).

Definition Backing_Write b (offset : Z) (source : list Z) : SharedMemoryBacking * bool :=
  let size := Z.of_nat (length source) in
  if negb (Backing_Contains b offset size) then (b, false)
  else
    let pages := EnsurePagesLocked (bk_pages_ b) offset size in
    (mkBacking (bk_size_ b) (store_loop (rounds size) pages offset size (slice source) 0), true).

(** One page of [Clear]'s loop: kept, erased ([None]) or zeroed in part. *)
Definition clear_page (offset end_ : Z) (page_index : Z) (page : list Z) : option (list Z) :=
  let page_start := (page_index * kPage)%u64 in
  let page_end := (page_start + kPage)%u64 in
  let overlap_start := Z.max offset page_start in
  let overlap_end := Z.min end_ page_end in
  if overlap_end <=? overlap_start then Some page
  else if (overlap_start =? page_start) && (overlap_end =? page_end) then None
  else Some (page_store page (overlap_start - page_start)
               (replicate (Z.to_nat (overlap_end - overlap_start)) 0)).

Definition Backing_Clear b (offset length : Z) : SharedMemoryBacking :=
  if negb (Backing_Contains b offset length) || (length =? 0) then b
  else mkBacking (bk_size_ b) (map_imap (clear_page offset (offset + length)%u64) (bk_pages_ b)).

Definition Backing_Fill b (offset length value : Z) : SharedMemoryBacking * bool :=
  if negb (Backing_Contains b offset length) then (b, false)
  else if value =? 0 then (Backing_Clear b offset length, true)
  else
    let pages := EnsurePagesLocked (bk_pages_ b) offset length in
    (mkBacking (bk_size_ b)
       (store_loop (rounds length) pages offset length
          (fun _ chunk => replicate (Z.to_nat chunk) value) 0), true).

(** ** The flat byte array *)

Definition page_byte pages (a : Z) : Z :=
  match pages !! (a / kPage) with
  | None => 0
  | Some page => default 0 (page !! Z.to_nat (a mod kPage))
  end.

Definition backing_byte b (a : Z) : Z := page_byte (bk_pages_ b) a.

Definition pages_ok (size : Z) pages : Prop :=
  forall i page, pages !! i = Some page ->
    length page = Z.to_nat kPage /\ 0 <= i /\ i * kPage < size.

Record backing_ok b : Prop := {
  bo_size : 0 <= bk_size_ b <= 2 ^ 62;
  bo_pages : pages_ok (bk_size_ b) (bk_pages_ b)
}.

Definition full_pages pages : Prop := forall i page, pages !! i = Some page ->
  length page = Z.to_nat kPage.

Lemma kPage_eq : kPage = 16384.
Proof. done. Qed.
#[global] Opaque kSharedMemoryBackingPageSize.

Ltac page_facts x :=
  pose proof (Z.div_mod x kPage ltac:(rewrite kPage_eq; lia));
  pose proof (Z.mod_pos_bound x kPage ltac:(rewrite kPage_eq; lia)).

Lemma page_of x i o : 0 <= o < kPage -> x = i * kPage + o -> x / kPage = i /\ x mod kPage = o.
Proof.
  intros Ho ->. rewrite kPage_eq in *. split.
  - rewrite Z.div_add_l by lia. rewrite Z.div_small by lia. lia.
  - rewrite Z.add_comm, Z.mod_add by lia. by apply Z.mod_small.
Qed.

Lemma page_store_length page off bytes :
  (Z.to_nat off + length bytes <= length page)%nat ->
  length (page_store page off bytes) = length page.
Proof. intros Hle. unfold page_store. rewrite !length_app, length_take, length_drop. lia. Qed.

Lemma page_store_lookup page off bytes i :
  (Z.to_nat off + length bytes <= length page)%nat ->
  page_store page off bytes !! i =
  if decide (Z.to_nat off <= i < Z.to_nat off + length bytes)%nat
  then bytes !! (i - Z.to_nat off)%nat else page !! i.
Proof.
  intros Hle. unfold page_store. set (n := Z.to_nat off) in *.
  assert (Hn : length (take n page) = n) by (rewrite length_take; lia).
  case_decide as Hd.
  - rewrite lookup_app_r by lia. rewrite Hn. apply lookup_app_l. lia.
  - destruct (decide (i < n)%nat).
    + rewrite lookup_app_l by lia. by apply lookup_take_lt.
    + rewrite lookup_app_r by lia. rewrite lookup_app_r by lia. rewrite lookup_drop, Hn.
      f_equal. lia.
Qed.

(** Storing a chunk that stays inside one page. *)
Lemma page_byte_store pages x page bytes a :
  pages !! (x / kPage) = Some page -> length page = Z.to_nat kPage ->
  Z.of_nat (length bytes) <= kPage - x mod kPage ->
  page_byte (<[x / kPage := page_store page (x mod kPage) bytes]> pages) a =
  if decide (x <= a < x + Z.of_nat (length bytes))
  then default 0 (bytes !! Z.to_nat (a - x)) else page_byte pages a.
Proof.
  intros Hp Hl Hb. page_facts x. page_facts a. rewrite kPage_eq in *. unfold page_byte.
  rewrite kPage_eq. rewrite lookup_insert. case_decide as Hpg.
  - rewrite <- Hpg, Hp. rewrite page_store_lookup by lia.
    case_decide as Hd1; case_decide as Hd2; try done.
    + do 2 f_equal. lia.
    + exfalso. apply Hd2. rewrite Hpg in *. lia.
    + exfalso. apply Hd1. rewrite Hpg in *. lia.
  - rewrite decide_False; [done|]. intros Ha. apply Hpg.
    assert (a / 16384 <= x / 16384) by (assert (a <= x + 16384 - x mod 16384 - 1) by lia; nia).
    assert (x / 16384 <= a / 16384) by (apply Z.div_le_mono; lia). lia.
Qed.

Lemma full_store pages x page bytes :
  full_pages pages -> pages !! (x / kPage) = Some page ->
  Z.of_nat (length bytes) <= kPage - x mod kPage ->
  full_pages (<[x / kPage := page_store page (x mod kPage) bytes]> pages).
Proof.
  intros Hf Hp Hb i pg. page_facts x. rewrite lookup_insert. case_decide; [|apply Hf].
  intros [= <-]. pose proof (Hf _ _ Hp). rewrite page_store_length; [done|]. lia.
Qed.

(** A round ends at a page boundary or at the end of the range. *)
Lemma round_count x rest fuel :
  0 < rest -> (rest + x mod kPage) / kPage < Z.of_nat fuel ->
  let chunk := Z.min rest (kPage - x mod kPage) in
  0 < chunk /\
  (rest - chunk <= 0 \/
   ((rest - chunk) + (x + chunk) mod kPage) / kPage < Z.of_nat fuel - 1).
Proof.
  intros Hr Hf. page_facts x. rewrite kPage_eq in *. cbn zeta. split; [lia|].
  destruct (decide (rest <= 16384 - x mod 16384)); [left; lia|right].
  rewrite Z.min_r by lia.
  assert (Hm : (x + (16384 - x mod 16384)) mod 16384 = 0).
  { rewrite <- Zplus_mod_idemp_l.
    replace (x mod 16384 + (16384 - x mod 16384)) with 16384 by lia. done. }
  rewrite Hm.
  replace (rest - (16384 - x mod 16384) + 0) with (rest + x mod 16384 + (-1) * 16384) by lia.
  rewrite Z.div_add by lia. lia.
Qed.

Lemma rounds_enough x size : 0 <= size -> (size + x mod kPage) / kPage < Z.of_nat (rounds size).
Proof.
  intros Hs. page_facts x. page_facts size. unfold rounds. rewrite kPage_eq in *.
  rewrite Z2Nat.id by lia. apply Z.div_lt_upper_bound; lia.
Qed.

Lemma store_loop_spec fuel pages offset size source input :
  0 <= input -> 0 <= offset -> offset + size <= u64_max -> full_pages pages ->
  (forall i, offset + input <= i < offset + size -> is_Some (pages !! (i / kPage))) ->
  (forall i n, 0 <= i -> 0 <= n -> i + n <= size -> length (source i n) = Z.to_nat n) ->
  size - input <= 0 \/
    (size - input + (offset + input) mod kPage) / kPage < Z.of_nat fuel ->
  let pages' := store_loop fuel pages offset size source input in
  full_pages pages' /\ (forall i, is_Some (pages' !! i) <-> is_Some (pages !! i)) /\
  forall a,
    (~ offset + input <= a < offset + size -> page_byte pages' a = page_byte pages a) /\
    (offset + input <= a < offset + size -> exists i n,
       0 <= i /\ 0 < n /\ i + n <= size /\ offset + i <= a < offset + i + n /\
       page_byte pages' a = default 0 (source i n !! Z.to_nat (a - offset - i))).
Proof.
  intros Hi0 Ho Hu. revert pages input Hi0. induction fuel as [|f IH];
    intros pages input Hi0 Hfull Hpres Hsrc Hfuel; cbn zeta; cbn [store_loop].
  - split_and!; [done|done|]. intros a. split; [done|]. intros Ha. exfalso.
    destruct Hfuel as [|Hfuel]; [lia|]. page_facts (offset + input).
    assert (0 <= (size - input + (offset + input) mod kPage) / kPage)
      by (apply Z.div_pos; rewrite kPage_eq in *; lia). lia.
  - destruct (input <? size) eqn:E; cbn [negb].
    2:{ split_and!; [done|done|]. intros a. split; [done|]. lia. }
    rewrite !add64_small by lia. set (x := offset + input) in *.
    destruct Hfuel as [|Hfuel]; [lia|].
    destruct (round_count x (size - input) (S f) ltac:(lia) Hfuel) as [Hc Hnext].
    set (chunk := Z.min (size - input) (kPage - x mod kPage)) in *.
    destruct (Hpres x ltac:(lia)) as [page Hp]. rewrite Hp.
    assert (Hlen : length (source input chunk) = Z.to_nat chunk) by (apply Hsrc; lia).
    assert (Hfit : Z.of_nat (length (source input chunk)) <= kPage - x mod kPage) by lia.
    pose proof (page_byte_store pages x page (source input chunk)) as Hbyte.
    pose proof (full_store pages x page (source input chunk) Hfull Hp Hfit) as Hfull'.
    set (pages1 := <[x / kPage := _]> pages) in *.
    assert (Hdom : forall i, is_Some (pages1 !! i) <-> is_Some (pages !! i)).
    { intros i. unfold pages1. rewrite lookup_insert. case_decide as Hd; [|done]. subst i.
      rewrite Hp. split; intros _; eauto. }
    destruct (IH pages1 (input + chunk)) as (Hf2 & Hd2 & Hb2); [lia|done| |done| |].
    + intros i Hi. apply Hdom, Hpres. lia.
    + replace (size - (input + chunk)) with (size - input - chunk) by lia.
      replace (offset + (input + chunk)) with (x + chunk) by lia.
      destruct Hnext; [by left|right; lia].
    + split_and!; [done|intros i; rewrite Hd2; apply Hdom|]. intros a.
      specialize (Hb2 a) as [Hb2 Hb3]. specialize (Hbyte a Hp (Hfull _ _ Hp) Hfit).
      rewrite Hlen in Hbyte. split.
      * intros Ha. rewrite Hb2 by lia. rewrite Hbyte. apply decide_False. lia.
      * intros Ha. destruct (decide (a < x + chunk)).
        -- exists input, chunk. split_and!; try lia. rewrite Hb2 by lia.
           rewrite Hbyte, decide_True by lia. do 3 f_equal. lia.
        -- apply Hb3. lia.
Qed.

Lemma zero_page_length : length zero_page = Z.to_nat kPage.
Proof. apply length_replicate. Qed.

Lemma ensure_loop_lookup n first pages i :
  ensure_loop n first pages !! i =
  match pages !! i with
  | Some page => Some page
  | None => if decide (first <= i < first + Z.of_nat n) then Some zero_page else None
  end.
Proof.
  revert first pages. induction n as [|n IH]; intros first pages; cbn [ensure_loop].
  { rewrite decide_False by lia. by destruct (pages !! i). }
  rewrite IH. destruct (pages !! first) as [pg|] eqn:E.
  - destruct (pages !! i) eqn:Ei; [done|]. repeat case_decide; try done; try lia.
    assert (first = i) by lia. congruence.
  - rewrite lookup_insert. case_decide as Hd.
    + subst i. rewrite E, decide_True by lia. done.
    + destruct (pages !! i); [done|]. repeat case_decide; try done; lia.
Qed.

Lemma EnsurePages_spec pages offset len :
  0 <= offset -> 0 <= len -> offset + len <= u64_max -> full_pages pages ->
  let pages' := EnsurePagesLocked pages offset len in
  full_pages pages' /\ (forall a, page_byte pages' a = page_byte pages a) /\
  (forall a, offset <= a < offset + len -> is_Some (pages' !! (a / kPage))) /\
  (forall i, is_Some (pages' !! i) -> is_Some (pages !! i) \/
     exists a, offset <= a < offset + len /\ a / kPage = i).
Proof.
  intros Ho Hl Hu Hf. unfold EnsurePagesLocked. cbn zeta.
  destruct (len =? 0) eqn:E0; [split_and!; [done|done|intros; lia|by left]|].
  rewrite add64_small, sub64_small by lia.
  page_facts offset. page_facts (offset + len - 1).
  set (first := offset / kPage) in *. set (last := (offset + len - 1) / kPage) in *.
  assert (Hfl : first <= last) by (apply Z.div_le_mono; rewrite ?kPage_eq; lia).
  set (n := Z.to_nat (last - first + 1)).
  split_and!.
  - intros i pg. rewrite ensure_loop_lookup. destruct (pages !! i) as [p0|] eqn:E.
    + intros [= <-]. by eapply Hf.
    + case_decide; [|done]. intros [= <-]. apply zero_page_length.
  - intros a. unfold page_byte. rewrite ensure_loop_lookup.
    destruct (pages !! (a / kPage)); [done|]. case_decide; [|done].
    unfold zero_page. page_facts a. by rewrite lookup_replicate_2 by lia.
  - intros a Ha. rewrite ensure_loop_lookup. destruct (pages !! (a / kPage)); [done|].
    rewrite decide_True; [done|].
    assert (first <= a / kPage) by (apply Z.div_le_mono; rewrite ?kPage_eq; lia).
    assert (a / kPage <= last) by (apply Z.div_le_mono; rewrite ?kPage_eq; lia). lia.
  - intros i. rewrite ensure_loop_lookup. destruct (pages !! i) eqn:E; [by left|].
    case_decide as Hd; [|by intros [? ?]]. intros _. right.
    destruct (decide (i = first)) as [->|].
    + exists offset. split; [lia|done].
    + exists (i * kPage). split; [rewrite kPage_eq in *; nia|].
      apply Z.div_mul. by rewrite kPage_eq.
Qed.

Lemma read_loop_spec fuel pages offset size output :
  0 <= output -> 0 <= offset -> offset + size <= u64_max -> full_pages pages ->
  size - output <= 0 \/
    (size - output + (offset + output) mod kPage) / kPage < Z.of_nat fuel ->
  read_loop fuel pages offset size output =
  (fun i => page_byte pages (offset + output + Z.of_nat i)) <$> seq 0 (Z.to_nat (size - output)).
Proof.
  intros Hi0 Ho Hu Hfull. revert output Hi0.
  induction fuel as [|f IH]; intros output Hi0 Hfuel; cbn [read_loop].
  - replace (Z.to_nat (size - output)) with 0%nat; [done|].
    destruct Hfuel as [|Hfuel]; [lia|]. page_facts (offset + output).
    destruct (decide (size - output <= 0)); [lia|].
    assert (0 <= (size - output + (offset + output) mod kPage) / kPage)
      by (apply Z.div_pos; rewrite kPage_eq in *; lia). lia.
  - destruct (output <? size) eqn:E; cbn [negb].
    2:{ by replace (Z.to_nat (size - output)) with 0%nat by lia. }
    rewrite !add64_small by lia. set (x := offset + output) in *.
    destruct Hfuel as [|Hfuel]; [lia|].
    destruct (round_count x (size - output) (S f) ltac:(lia) Hfuel) as [Hc Hnext].
    set (chunk := Z.min (size - output) (kPage - x mod kPage)) in *.
    rewrite (IH (output + chunk)); [|lia|].
    2:{ replace (size - (output + chunk)) with (size - output - chunk) by lia.
        replace (offset + (output + chunk)) with (x + chunk) by lia.
        destruct Hnext; [by left|right; lia]. }
    replace (Z.to_nat (size - output))
      with (Z.to_nat chunk + Z.to_nat (size - (output + chunk)))%nat by lia.
    rewrite seq_app, fmap_app. f_equal.
    + page_facts x. apply list_eq. intros i. rewrite list_lookup_fmap.
      destruct (decide (i < Z.to_nat chunk)%nat) as [Hi|Hi].
      * rewrite lookup_seq_lt by done. simpl.
        destruct (page_of (x + Z.of_nat i) (x / kPage) (x mod kPage + Z.of_nat i)) as [Hq Hm];
          [lia|lia|].
        unfold page_byte. rewrite Hq, Hm. destruct (pages !! (x / kPage)) as [page|] eqn:Ep.
        -- rewrite lookup_take_lt, lookup_drop by done. pose proof (Hfull _ _ Ep).
           replace (Z.to_nat (x mod kPage + Z.of_nat i)) with (Z.to_nat (x mod kPage) + i)%nat by lia.
           destruct (lookup_lt_is_Some_2 page (Z.to_nat (x mod kPage) + i)%nat) as [v Hv]; [lia|].
           by rewrite Hv.
        -- by rewrite lookup_replicate_2.
      * rewrite lookup_seq_ge by lia. simpl. apply lookup_ge_None_2.
        destruct (pages !! (x / kPage)); [rewrite length_take|rewrite length_replicate]; lia.
    + apply list_eq. intros i. rewrite !list_lookup_fmap.
      destruct (decide (i < Z.to_nat (size - (output + chunk)))%nat).
      * rewrite !lookup_seq_lt by lia. simpl. do 2 f_equal. lia.
      * by rewrite !lookup_seq_ge by lia.
Qed.

Lemma pages_ok_full size pages : pages_ok size pages -> full_pages pages.
Proof. intros Hp i pg Hi. by apply Hp in Hi as [? _]. Qed.

Lemma Contains_iff b offset len :
  backing_ok b -> 0 <= offset -> 0 <= len ->
  Backing_Contains b offset len = true <-> offset + len <= bk_size_ b.
Proof.
  intros [Hs _] Ho Hl. unfold Backing_Contains. rewrite andb_true_iff, !Z.leb_le. split.
  - intros [H1 H2]. rewrite sub64_small in H2 by u64_lia. lia.
  - intros Hle. rewrite sub64_small by u64_lia. lia.
Qed.

(** A page inside the range is a page of the backing. *)
Lemma page_in_size size a : 0 <= a < size -> 0 <= a / kPage /\ a / kPage * kPage < size.
Proof. intros Ha. page_facts a. rewrite kPage_eq in *. split; [apply Z.div_pos; lia|lia]. Qed.

Lemma store_pages_ok size offset len pages pages' :
  0 <= offset -> offset + len <= size -> full_pages pages' -> pages_ok size pages ->
  (forall i, is_Some (pages' !! i) -> is_Some (pages !! i) \/
     exists a, offset <= a < offset + len /\ a / kPage = i) -> pages_ok size pages'.
Proof.
  intros Ho Hs Hf Hp Hdom i pg Hi. split; [by eapply Hf|].
  destruct (Hdom i) as [[p0 Hp0]|(a & Ha & <-)]; [by eauto| |].
  - by apply Hp in Hp0 as [_ ?].
  - apply page_in_size. lia.
Qed.

(** The common part of [Write] and [Fill]. *)
Lemma store_spec b offset size source :
  backing_ok b -> 0 <= offset -> 0 <= size -> offset + size <= bk_size_ b ->
  (forall i n, 0 <= i -> 0 <= n -> i + n <= size -> length (source i n) = Z.to_nat n) ->
  let b' := mkBacking (bk_size_ b)
    (store_loop (rounds size) (EnsurePagesLocked (bk_pages_ b) offset size) offset size source 0) in
  backing_ok b' /\
  forall a,
    (~ offset <= a < offset + size -> backing_byte b' a = backing_byte b a) /\
    (offset <= a < offset + size -> exists i n,
       0 <= i /\ 0 < n /\ i + n <= size /\ offset + i <= a < offset + i + n /\
       backing_byte b' a = default 0 (source i n !! Z.to_nat (a - offset - i))).
Proof.
  intros [Hs Hp] Ho Hsz Hle Hsrc. cbn zeta. pose proof (pages_ok_full _ _ Hp) as Hf.
  destruct (EnsurePages_spec (bk_pages_ b) offset size Ho Hsz ltac:(u64_lia) Hf)
    as (Hf1 & Hb1 & Hpr1 & Hd1).
  destruct (store_loop_spec (rounds size) (EnsurePagesLocked (bk_pages_ b) offset size)
    offset size source 0) as (Hf2 & Hd2 & Hb2); [done|done|u64_lia|done| |done| |].
  - intros i Hi. apply Hpr1. lia.
  - right. rewrite Z.sub_0_r. by apply rounds_enough.
  - split.
    + split; [done|]. eapply store_pages_ok; [exact Ho|exact Hle|done|done|].
      intros i Hi%Hd2. by apply Hd1.
    + intros a. destruct (Hb2 a) as [Hout Hin]. unfold backing_byte. simpl. split.
      * intros Ha. rewrite Hout by lia. apply Hb1.
      * intros Ha. apply Hin. lia.
Qed.

Lemma clear_page_spec offset end_ i page :
  0 <= offset -> offset < end_ -> end_ <= 2 ^ 62 -> 0 <= i -> i * kPage < 2 ^ 62 ->
  length page = Z.to_nat kPage ->
  match clear_page offset end_ i page with
  | None => forall o, 0 <= o < kPage -> offset <= i * kPage + o < end_
  | Some page' =>
      length page' = Z.to_nat kPage /\
      forall o, 0 <= o < kPage ->
        page' !! Z.to_nat o =
        if decide (offset <= i * kPage + o < end_) then Some 0 else page !! Z.to_nat o
  end.
Proof.
  intros Ho Hlt He Hi Hip Hl. unfold clear_page. rewrite kPage_eq in *.
  rewrite mul64_small by u64_lia. rewrite add64_small by u64_lia.
  destruct (_ <=? _) eqn:E1.
  { split; [done|]. intros o Hoo. by rewrite decide_False by lia. }
  destruct (_ && _) eqn:E2; [intros o Hoo; lia|].
  set (os := Z.max offset (i * 16384)) in *. set (oe := Z.min end_ (i * 16384 + 16384)) in *.
  assert (Hfit : (Z.to_nat (os - i * 16384) + length (replicate (Z.to_nat (oe - os)) 0%Z)
                  <= length page)%nat) by (rewrite length_replicate; lia).
  split; [rewrite page_store_length; [exact Hl|exact Hfit]|]. intros o Hoo.
  rewrite page_store_lookup by exact Hfit.
  rewrite length_replicate in *. case_decide as Hd1; case_decide as Hd2; try done; try lia.
  rewrite lookup_replicate_2 by lia. done.
Qed.

Lemma Clear_spec b offset len :
  backing_ok b -> 0 <= offset -> 0 <= len -> offset + len <= bk_size_ b ->
  backing_ok (Backing_Clear b offset len) /\
  forall a, 0 <= a < bk_size_ b -> backing_byte (Backing_Clear b offset len) a =
    if decide (offset <= a < offset + len) then 0 else backing_byte b a.
Proof.
  intros Hb Ho Hl Hle. unfold Backing_Clear.
  rewrite (proj2 (Contains_iff b offset len Hb Ho Hl) Hle). simpl.
  pose proof Hb as [Hs Hp]. destruct (len =? 0) eqn:E0.
  { split; [done|]. intros a Ha. by rewrite decide_False by lia. }
  rewrite add64_small by u64_lia.
  assert (Hpg : forall i page, bk_pages_ b !! i = Some page ->
    match clear_page offset (offset + len) i page with
    | None => forall o, 0 <= o < kPage -> offset <= i * kPage + o < offset + len
    | Some page' => length page' = Z.to_nat kPage /\
        forall o, 0 <= o < kPage -> page' !! Z.to_nat o =
          if decide (offset <= i * kPage + o < offset + len) then Some 0 else page !! Z.to_nat o
    end).
  { intros i page (Hlen & Hi & Hip)%Hp. apply clear_page_spec; try done; lia. }
  split.
  - split; [done|]. simpl. intros i pg. rewrite map_lookup_imap.
    intros (page & Hpage & Hcl)%bind_Some. specialize (Hpg _ _ Hpage). rewrite Hcl in Hpg.
    apply Hp in Hpage as [_ ?]. by destruct Hpg.
  - intros a Ha. unfold backing_byte, page_byte. simpl. rewrite map_lookup_imap.
    page_facts a. destruct (bk_pages_ b !! (a / kPage)) as [page|] eqn:Epg; simpl; [|by case_decide].
    specialize (Hpg _ _ Epg).
    destruct (clear_page _ _ _ _) as [page'|].
    + destruct Hpg as [_ Hpg]. rewrite Hpg by lia.
      replace (a / kPage * kPage + a mod kPage) with a by lia. by case_decide.
    + specialize (Hpg (a mod kPage) ltac:(lia)). by rewrite decide_True by lia.
Qed.

Lemma Backing_Write_spec b offset source :
  backing_ok b -> 0 <= offset -> offset + Z.of_nat (length source) <= bk_size_ b ->
  let '(b', ok) := Backing_Write b offset source in
  ok = true /\ backing_ok b' /\
  forall a, backing_byte b' a =
    if decide (offset <= a < offset + Z.of_nat (length source))
    then default 0 (source !! Z.to_nat (a - offset)) else backing_byte b a.
Proof.
  intros Hb Ho Hle. unfold Backing_Write. set (size := Z.of_nat (length source)) in *.
  rewrite (proj2 (Contains_iff b offset size Hb Ho ltac:(lia)) Hle). simpl.
  destruct (store_spec b offset size (slice source) Hb Ho ltac:(lia) Hle) as [Hb' Hbyte].
  { intros i n Hi Hn Hin. unfold slice. rewrite length_take, length_drop. lia. }
  split_and!; [done|done|]. intros a. destruct (Hbyte a) as [Hout Hin].
  case_decide as Hd; [|by apply Hout].
  destruct (Hin Hd) as (i & n & Hi & Hn & Hsz & Ha & ->). unfold slice.
  rewrite lookup_take_lt, lookup_drop by lia. do 2 f_equal. lia.
Qed.

Lemma Backing_Fill_spec b offset len value :
  backing_ok b -> 0 <= offset -> 0 <= len -> offset + len <= bk_size_ b ->
  let '(b', ok) := Backing_Fill b offset len value in
  ok = true /\ backing_ok b' /\
  forall a, 0 <= a < bk_size_ b -> backing_byte b' a =
    if decide (offset <= a < offset + len) then value else backing_byte b a.
Proof.
  intros Hb Ho Hl Hle. unfold Backing_Fill.
  rewrite (proj2 (Contains_iff b offset len Hb Ho Hl) Hle). simpl. destruct (value =? 0) eqn:Ev.
  { destruct (Clear_spec b offset len Hb Ho Hl Hle) as [Hb' Hbyte].
    assert (value = 0) as -> by lia. by split_and!. }
  destruct (store_spec b offset len (fun _ n => replicate (Z.to_nat n) value) Hb Ho Hl Hle)
    as [Hb' Hbyte]; [intros; apply length_replicate|].
  split_and!; [done|done|]. intros a _. destruct (Hbyte a) as [Hout Hin].
  case_decide as Hd; [|by apply Hout].
  destruct (Hin Hd) as (i & n & Hi & Hn & Hsz & Ha & ->). by rewrite lookup_replicate_2 by lia.
Qed.

Lemma Backing_Read_spec b offset len :
  backing_ok b -> 0 <= offset -> 0 <= len -> offset + len <= bk_size_ b ->
  Backing_Read b offset len =
    Some ((fun i => backing_byte b (offset + Z.of_nat i)) <$> seq 0 (Z.to_nat len)).
Proof.
  intros Hb Ho Hl Hle. unfold Backing_Read.
  rewrite (proj2 (Contains_iff b offset len Hb Ho Hl) Hle). simpl. f_equal.
  destruct Hb as [Hs Hp]. rewrite read_loop_spec; [|lia|done|u64_lia|by eapply pages_ok_full|].
  - rewrite Z.sub_0_r. apply list_fmap_ext. intros i y _. unfold backing_byte. f_equal. lia.
  - right. rewrite Z.sub_0_r. by apply rounds_enough.
Qed.

(** C22: the paged backing is a flat byte array of its size.  Inside the bounds a
    read returns the bytes of the range, a write stores its source bytes, a
    fill its value and a clear zeroes, each at every address of the range and
    nowhere else; outside the bounds every operation is refused and changes
    nothing. *)
Theorem shared_backing_is_flat_array b offset len value (source : list Z) :
  backing_ok b -> 0 <= offset -> 0 <= len -> Z.of_nat (length source) = len ->
  let in_range a := offset <= a < offset + len in
  if decide (offset + len <= bk_size_ b) then
    Backing_Read b offset len =
      Some ((fun i => backing_byte b (offset + Z.of_nat i)) <$> seq 0 (Z.to_nat len)) /\
    (let '(b', ok) := Backing_Write b offset source in
     ok = true /\ backing_ok b' /\
     Backing_Read b' offset len = Some source /\
     forall a, ~ in_range a -> backing_byte b' a = backing_byte b a) /\
    (let '(b', ok) := Backing_Fill b offset len value in
     ok = true /\ backing_ok b' /\
     forall a, 0 <= a < bk_size_ b ->
       backing_byte b' a = if decide (offset <= a < offset + len) then value else backing_byte b a) /\
    (backing_ok (Backing_Clear b offset len) /\
     forall a, 0 <= a < bk_size_ b -> backing_byte (Backing_Clear b offset len) a =
       if decide (offset <= a < offset + len) then 0 else backing_byte b a)
  else
    Backing_Read b offset len = None /\ Backing_Write b offset source = (b, false) /\
    Backing_Fill b offset len value = (b, false) /\ Backing_Clear b offset len = b.
Proof.
  intros Hb Ho Hl Hsrc. cbn zeta. destruct (decide (offset + len <= bk_size_ b)) as [Hle|Hgt].
  - split_and!; [by apply Backing_Read_spec| |by apply Backing_Fill_spec|by apply Clear_spec|by apply Clear_spec].
    pose proof (Backing_Write_spec b offset source Hb Ho ltac:(lia)) as Hw.
    assert (Hsz : bk_size_ (Backing_Write b offset source).1 = bk_size_ b)
      by (unfold Backing_Write; by destruct (negb _)).
    destruct (Backing_Write b offset source) as [b' ok]. simpl in Hsz.
    destruct Hw as (Hok & Hb' & Hbyte).
    split_and!; [done|done| |].
    + rewrite Backing_Read_spec by (try done; lia). f_equal. apply list_eq. intros i.
      rewrite list_lookup_fmap. destruct (decide (i < length source)%nat) as [Hi|Hi].
      * rewrite lookup_seq_lt by lia. simpl. rewrite Hbyte, decide_True by lia.
        replace (Z.to_nat (offset + Z.of_nat i - offset)) with i by lia.
        destruct (lookup_lt_is_Some_2 source i Hi) as [v Hv]. by rewrite Hv.
      * rewrite lookup_seq_ge by lia. simpl. symmetry. apply lookup_ge_None_2. lia.
    + intros a Ha. rewrite Hbyte. by rewrite decide_False by lia.
  - assert (Hc : Backing_Contains b offset len = false).
    { apply not_true_iff_false. by rewrite Contains_iff. }
    unfold Backing_Read, Backing_Write, Backing_Fill, Backing_Clear. by rewrite Hsrc, Hc.
Qed.
