(* ===== verification/FreeList.v ===== *)
(** Address maps: [std::map] from a range's first address to a value that
    carries its size, as kept by [DirectMemoryService] ([allocations_],
    [free_ranges_]) and by each mspace of [LibcHeapService].

    Two allocators carve and coalesce such maps with different code.  This file
    holds what they share: the invariant [fl_ok] (sorted, inside bounds, and at
    least [gap] addresses between any two ranges: 0 for allocations, 1 for free
    lists, which are fully coalesced), and the facts that every edit comes down
    to: replacing a range by pieces of itself, adding a range, and merging a
    window with the ranges it touches. *)
From S2P Require Import Prelude Ranges OrderedMap.

(** The size of the range an entry stands for. *)
Class Sized (V : Type) := size_of : V -> Z.

#[export] Instance Z_sized : Sized Z := fun z => z.

#[export] Instance keyed_interval {V} `{Sized V} : Interval (Z * V) :=
  {| istart := fst; isize e := size_of e.2 |}.

Section address_maps.
Context {V : Type} `{Sized V}.
Implicit Types (l : list (Z * V)) (r : Z * V).

Record fl_ok (gap lo hi : Z) l : Prop := {
  fl_sorted : om_sorted l;
  fl_valid : forall r, r ∈ l -> valid_in lo hi r;
  fl_gap : forall r1 r2, r1 ∈ l -> r2 ∈ l -> istart r1 < istart r2 -> iend r1 + gap <= istart r2
}.

(** Some range owns the address. *)
Definition covered l (a : Z) : Prop := exists r, r ∈ l /\ inside r a.

Lemma fl_ranges_ok g lo hi l : 0 <= g -> fl_ok g lo hi l -> ranges_ok lo hi l.
Proof.
  intros Hg0 [Hs Hv Hg]. split; [|by apply Forall_forall].
  induction Hs as [|r l Hs IH Hr]; constructor.
  - apply IH.
    + intros x Hx. apply Hv, elem_of_cons. by right.
    + intros x y Hx Hy. apply Hg; apply elem_of_cons; by right.
  - rewrite Forall_forall in *. intros x Hx. specialize (Hr x Hx). unfold key_lt in Hr.
    assert (iend r + g <= istart x)
      by (apply Hg; [apply list_elem_of_here|apply elem_of_cons; by right|done]).
    unfold before. lia.
Qed.

Lemma fl_unique g lo hi l r1 r2 :
  fl_ok g lo hi l -> r1 ∈ l -> r2 ∈ l -> istart r1 = istart r2 -> r1 = r2.
Proof.
  intros [Hs _ _] H1 H2 Heq. destruct r1 as [k1 v1], r2 as [k2 v2]. simpl in Heq. subst k2.
  apply om_elem_find in H1; [|done]. apply om_elem_find in H2; [|done]. congruence.
Qed.

Lemma fl_same g lo hi l r1 r2 a :
  0 <= g -> fl_ok g lo hi l -> r1 ∈ l -> r2 ∈ l -> inside r1 a -> inside r2 a -> r1 = r2.
Proof. intros Hg Hok. eapply ranges_ok_disjoint, fl_ranges_ok, Hok. done. Qed.

(** Any two different ranges keep the gap. *)
Lemma fl_apart g lo hi l r1 r2 :
  fl_ok g lo hi l -> r1 ∈ l -> r2 ∈ l -> istart r1 <> istart r2 ->
  iend r1 + g <= istart r2 \/ iend r2 + g <= istart r1.
Proof.
  intros Hok H1 H2 Hne. destruct (Z.lt_total (istart r1) (istart r2)) as [|[|]]; [|done|].
  - left. by apply (fl_gap _ _ _ _ Hok).
  - right. by apply (fl_gap _ _ _ _ Hok).
Qed.

Lemma fl_nil g lo hi : fl_ok g lo hi [].
Proof.
  split; [apply om_sorted_nil| |].
  - by intros ? ?%elem_of_nil.
  - by intros ? ? ?%elem_of_nil.
Qed.

Lemma fl_single g lo hi r : valid_in lo hi r -> fl_ok g lo hi [r].
Proof.
  intros Hv. split.
  - repeat constructor.
  - by intros x ->%list_elem_of_singleton.
  - intros x y ->%list_elem_of_singleton ->%list_elem_of_singleton. lia.
Qed.

Lemma fl_pair g lo hi r1 r2 :
  valid_in lo hi r1 -> valid_in lo hi r2 -> 0 <= g -> iend r1 + g <= istart r2 ->
  fl_ok g lo hi [r1; r2].
Proof.
  intros H1 H2 Hg0 Hg. unfold valid_in, iend in *. split.
  - apply om_sorted_cons. split; [apply om_sorted_cons; split; [apply om_sorted_nil|]|].
    + by intros ? ?%elem_of_nil.
    + intros e ->%list_elem_of_singleton. unfold key_lt. simpl in *. lia.
  - intros x [->|[->|[]%elem_of_nil]%elem_of_cons]%elem_of_cons; done.
  - intros x y [->|[->|[]%elem_of_nil]%elem_of_cons]%elem_of_cons
      [->|[->|[]%elem_of_nil]%elem_of_cons]%elem_of_cons; unfold iend; lia.
Qed.

(** A contiguous covered window of a coalesced map lies in one range. *)
Lemma fl_window g lo hi l x len :
  0 < g -> fl_ok g lo hi l -> 0 < len -> (forall a, x <= a < x + len -> covered l a) ->
  exists r, r ∈ l /\ istart r <= x /\ x + len <= iend r.
Proof.
  intros Hg Hok Hlen Hcov. destruct (Hcov x ltac:(lia)) as (r & Hr & Hin).
  exists r. split_and!; [done|unfold inside in Hin; lia|].
  destruct (decide (x + len <= iend r)) as [|Hgt]; [done|exfalso].
  destruct (Hcov (iend r)) as (r2 & Hr2 & Hin2); [unfold inside in Hin; lia|].
  destruct (decide (istart r = istart r2)) as [Heq|Hne].
  - pose proof (fl_unique _ _ _ _ _ _ Hok Hr Hr2 Heq). subst r2. unfold inside in *. lia.
  - destruct (fl_apart _ _ _ _ _ _ Hok Hr Hr2 Hne); unfold inside in *; lia.
Qed.

Lemma fl_erase_elem g lo hi l r e :
  fl_ok g lo hi l -> r ∈ l -> e ∈ om_erase (istart r) l <-> e ∈ l /\ istart e <> istart r.
Proof. intros Hok Hr. rewrite om_erase_elem. simpl. tauto. Qed.

Section edits.
Context (g lo hi : Z) (l : list (Z * V)) (Hg : 0 <= g) (Hok : fl_ok g lo hi l).

(** Replacing one range by pieces of itself. *)
Lemma fl_carve r (ps l' : list (Z * V)) :
  r ∈ l -> om_sorted l' ->
  (forall e, e ∈ l' <-> e ∈ l /\ istart e <> istart r \/ e ∈ ps) ->
  fl_ok g (istart r) (iend r) ps ->
  fl_ok g lo hi l' /\
  forall a, covered l' a <-> covered l a /\ ~ inside r a \/ covered ps a.
Proof.
  intros Hr Hs Hl' Hps. pose proof (fl_valid _ _ _ _ Hok r Hr) as Hvr.
  assert (Hp : forall e, e ∈ ps -> istart r <= istart e /\ 0 < isize e /\ iend e <= iend r)
    by (intros e He; by apply (fl_valid _ _ _ _ Hps)).
  split; [split; [done| |]|].
  - intros e [[He _]|He]%Hl'; [by apply Hok|]. apply Hp in He. unfold valid_in in *. lia.
  - intros r1 r2 [[H1 Hn1]|H1]%Hl' [[H2 Hn2]|H2]%Hl' Hlt.
    + by apply (fl_gap _ _ _ _ Hok).
    + apply Hp in H2. pose proof (fl_valid _ _ _ _ Hok r1 H1).
      destruct (fl_apart _ _ _ _ _ _ Hok H1 Hr Hn1); unfold valid_in, iend in *; lia.
    + apply Hp in H1. pose proof (fl_valid _ _ _ _ Hok r2 H2).
      destruct (fl_apart _ _ _ _ _ _ Hok H2 Hr Hn2); unfold valid_in, iend in *; lia.
    + by apply (fl_gap _ _ _ _ Hps).
  - intros a. split.
    + intros (e & [[He Hne]|He]%Hl' & Hin); [left|right; by exists e].
      split; [by exists e|].
      destruct (fl_apart _ _ _ _ _ _ Hok He Hr Hne); unfold inside in *; lia.
    + intros [[(e & He & Hin) Hnin]|(e & He & Hin)]; exists e; (split; [|done]); apply Hl'; [left|by right].
      split; [done|]. intros Heq.
      pose proof (fl_unique _ _ _ _ _ _ Hok He Hr Heq). by subst e.
Qed.

(** A range clear of every other one can be added. *)
Lemma fl_add (x : Z) (v : V) :
  valid_in lo hi (x, v) ->
  (forall e, e ∈ l -> iend e + g <= x \/ x + size_of v + g <= istart e) ->
  fl_ok g lo hi (om_emplace x v l) /\ om_find x l = None /\
  forall a, covered (om_emplace x v l) a <-> covered l a \/ inside (x, v) a.
Proof.
  intros Hv Hsep.
  assert (Hfresh : om_find x l = None).
  { apply om_find_None. intros e He. pose proof (fl_valid _ _ _ _ Hok e He) as Hve.
    destruct (Hsep e He); unfold valid_in, iend in *; simpl in *; lia. }
  assert (Hel : forall e, e ∈ om_emplace x v l <-> e = (x, v) \/ e ∈ l)
    by (intros e; by apply om_emplace_elem).
  split_and!; [split; [by apply om_emplace_sorted, Hok| |]|done|].
  - intros e [->|He]%Hel; [done|]. by apply Hok.
  - intros r1 r2 [->|H1]%Hel [->|H2]%Hel Hlt; [lia| | |by apply (fl_gap _ _ _ _ Hok)].
    + pose proof (fl_valid _ _ _ _ Hok r2 H2). destruct (Hsep r2 H2);
        unfold valid_in, iend in *; simpl in *; lia.
    + pose proof (fl_valid _ _ _ _ Hok r1 H1). destruct (Hsep r1 H1);
        unfold valid_in, iend in *; simpl in *; lia.
  - intros a. split.
    + intros (e & [->|He]%Hel & Ha); [by right|left; by exists e].
    + intros [(e & He & Ha)|Ha]; [exists e|exists (x, v)]; (split; [apply Hel|done]); auto.
Qed.
End edits.

(** Dropping ranges. *)
Lemma fl_sub g lo hi l l' :
  fl_ok g lo hi l -> om_sorted l' -> (forall e, e ∈ l' -> e ∈ l) -> fl_ok g lo hi l'.
Proof.
  intros Hok Hs Hsub. split; [done| |].
  - intros r Hr. by apply Hok, Hsub.
  - intros r1 r2 H1 H2. apply (fl_gap _ _ _ _ Hok); auto.
Qed.

(** Splitting a map at an address. *)
Lemma fl_split g lo hi l x :
  0 <= g -> fl_ok g lo hi l ->
  let '(b, e) := lower_split x l in
  l = b ++ e /\ (forall r, r ∈ b -> istart r < x) /\ (forall r, r ∈ e -> x <= istart r).
Proof.
  intros Hg Hok.
  destruct (lower_split_spec lo hi x l (fl_ranges_ok _ _ _ _ Hg Hok)) as (Happ & Hb & He).
  by destruct (lower_split x l) as [b e].
Qed.
End address_maps.

Arguments fl_ok {V _} gap lo hi l.

Lemma om_emplace_if {V} (c : bool) x (v : V) m e :
  (c = true -> om_find x m = None) ->
  e ∈ (if c then om_emplace x v m else m) <-> e ∈ m \/ (c = true /\ e = (x, v)).
Proof.
  intros Hn. destruct c; [rewrite om_emplace_elem by auto|]; naive_solver.
Qed.


(** The pieces left of a range after a window is cut out of it. *)
Definition leftovers {V} `{Sized V} (r : Z * V) (mk : Z -> V) (start len : Z) : list (Z * V) :=
  (if istart r <? start then [(istart r, mk (start - istart r))] else []) ++
  (if start + len <? iend r then [(start + len, mk (iend r - start - len))] else []).

Lemma leftovers_elem {V} `{Sized V} (r : Z * V) mk start len e :
  e ∈ leftovers r mk start len <->
  (istart r < start /\ e = (istart r, mk (start - istart r))) \/
  (start + len < iend r /\ e = (start + len, mk (iend r - start - len))).
Proof.
  unfold leftovers. rewrite elem_of_app.
  destruct (istart r <? start) eqn:E1, (start + len <? iend r) eqn:E2;
    rewrite ?list_elem_of_singleton, ?elem_of_nil; split; intros; naive_solver lia.
Qed.

(** Cutting a window out of one range of the map, the way both allocators do
    it: erase the range, put back what is left on either side. *)
Lemma carve_window {V} `{Sized V} g lo hi (l : list (Z * V)) (r : Z * V) (mk : Z -> V) start len :
  (forall n, size_of (mk n) = n) -> 0 <= g <= 1 ->
  fl_ok g lo hi l -> r ∈ l -> istart r <= start -> 0 < len -> start + len <= iend r ->
  let l1 := om_erase (istart r) l in
  let l2 := if istart r <? start then om_emplace (istart r) (mk (start - istart r)) l1 else l1 in
  let l3 := if start + len <? iend r
            then om_emplace (start + len) (mk (iend r - start - len)) l2 else l2 in
  fl_ok g lo hi l3 /\
  (forall a, covered l3 a <-> covered l a /\ ~ start <= a < start + len) /\
  (forall e, e ∈ l3 <-> e ∈ l /\ istart e <> istart r \/ e ∈ leftovers r mk start len).
Proof.
  intros Hmk Hg Hok Hr Hs Hlen He. cbn zeta.
  pose proof (fl_valid _ _ _ _ Hok r Hr) as (Hlo & Hsz & Hhi).
  set (l1 := om_erase (istart r) l). set (l2 := if istart r <? start then _ else _).
  set (l3 := if start + len <? iend r then _ else _).
  assert (Hs1 : om_sorted l1) by apply om_erase_sorted, Hok.
  assert (Hn1 : om_find (istart r) l1 = None) by (unfold l1; by rewrite om_find_erase, decide_True).
  assert (Hs2 : om_sorted l2) by (unfold l2; split_match; [by apply om_emplace_sorted|done]).
  assert (Hel2 : forall e, e ∈ l2 <-> e ∈ l /\ istart e <> istart r \/
            ((istart r <? start) = true /\ e = (istart r, mk (start - istart r)))).
  { intros e. unfold l2. rewrite om_emplace_if by done. unfold l1. rewrite om_erase_elem.
    simpl. tauto. }
  assert (Hn2 : (start + len <? iend r) = true -> om_find (start + len) l2 = None).
  { intros Hlt. apply om_find_None. intros e He' Heq. apply Hel2 in He' as [[Hef Hne]|[_ ->]].
    - pose proof (fl_valid _ _ _ _ Hok e Hef) as (Q1 & Q2 & Q3).
      change (e.1) with (istart e) in Heq.
      destruct (fl_apart _ _ _ _ _ _ Hok Hef Hr Hne); unfold iend in *; lia.
    - simpl in *. lia. }
  assert (Hel3 : forall e, e ∈ l3 <-> e ∈ l /\ istart e <> istart r \/ e ∈ leftovers r mk start len).
  { intros e. unfold l3. rewrite om_emplace_if by done. rewrite Hel2, leftovers_elem, !Z.ltb_lt. tauto. }
  destruct (fl_carve g lo hi l ltac:(lia) Hok r (leftovers r mk start len) l3) as [Hok' Hcov].
  - done.
  - unfold l3. split_match; [by apply om_emplace_sorted; auto|done].
  - done.
  - unfold leftovers. destruct (istart r <? start) eqn:E1, (start + len <? iend r) eqn:E2; simpl;
      [apply fl_pair|apply fl_single|apply fl_single|apply fl_nil];
      unfold valid_in, iend in *; simpl in *; rewrite ?Hmk; lia.
  - split_and!; [done| |done]. intros a. rewrite Hcov.
    assert (Hin : inside r a -> covered l a) by (intros Ha; by exists r).
    assert (Hps : covered (leftovers r mk start len) a <->
              istart r <= a < start \/ start + len <= a < iend r).
    { split.
      - intros (e & [[? ->]|[? ->]]%leftovers_elem & Ha); unfold inside, iend in *; simpl in *;
          rewrite Hmk in Ha; lia.
      - intros [Ha|Ha]; eexists; (split; [apply leftovers_elem|]);
          [left; split; [|done]; lia| |right; split; [|done]; lia|];
          unfold inside, iend in *; simpl in *; rewrite Hmk; lia. }
    rewrite Hps. unfold inside in *. split.
    + intros [[? ?]|[?|?]]; (split; [|lia]); [done|apply Hin; lia|apply Hin; lia].
    + intros [Hc Hn]. destruct (decide (istart r <= a < iend r)); [right; lia|by left].
Qed.

(** Merging a window with the free ranges [abs] it touches. *)
Lemma fl_merge g lo hi (l rest abs : list (Z * Z)) (m w : Z * Z) :
  0 <= g -> fl_ok g lo hi l ->
  (forall e, e ∈ l <-> e ∈ rest \/ e ∈ abs) -> om_sorted rest -> valid_in lo hi m ->
  (forall a, inside m a <-> inside w a \/ covered abs a) ->
  (forall e, e ∈ rest -> iend e + g <= istart m \/ iend m + g <= istart e) ->
  fl_ok g lo hi (om_emplace (istart m) (isize m) rest) /\
  forall a, covered (om_emplace (istart m) (isize m) rest) a <-> covered l a \/ inside w a.
Proof.
  intros Hg Hok Hl Hs Hm Hin Hsep.
  assert (Hrest : fl_ok g lo hi rest)
    by (eapply fl_sub; [exact Hok|done|]; intros e He; apply Hl; by left).
  destruct m as [x sz]. destruct (fl_add g lo hi rest Hg Hrest x sz Hm Hsep) as (Hok' & _ & Hcov).
  split; [done|]. intros a. rewrite Hcov, Hin. split.
  - intros [(e & He & Ha)|[Ha|(e & He & Ha)]]; [left|by right|left]; exists e;
      (split; [apply Hl; auto|done]).
  - intros [(e & [He|He]%Hl & Ha)|Ha]; [left; by exists e|right; right; by exists e|by right; left].
Qed.
