(* ===== verification/DirectMemory.v ===== *)
(** [kernel::DirectMemoryService] ([src/kernel/direct_memory.cpp]).

    The service hands out physical offsets of a 13.5 GiB direct-memory pool:
    [allocations_] and [free_ranges_] are maps keyed by the first offset,
    [mappings_] lists, in order of registration, which guest ranges are mapped
    to which physical ranges, and the bytes live in a shared backing. *)
From S2P Require Import Prelude Ranges OrderedMap SharedBacking FreeList.

Definition kDirectMemorySize : Z := 0x360000000.
Definition kMaximumDirectMemoryAllocations : Z := 262144.
Definition kMaximumDirectMemoryMappings : Z := 262144.

(** [DirectMemoryService::Allocation]. *)
Record Allocation := mkAllocation { al_size : Z; al_memory_type : Z }.

Record DirectMemoryMapping := mkMapping {
  dm_guest_address : Z; dm_physical_address : Z; dm_size : Z
}.

Record DirectMemoryService := mkDirectMemory {
  allocations_ : list (Z * Allocation);
  free_ranges_ : list (Z * Z);
  mappings_ : list DirectMemoryMapping;
  backing_ : SharedMemoryBacking
}.

#[export] Instance allocation_sized : Sized Allocation := al_size.

(** Mappings are ranges of guest addresses. *)
#[export] Instance mapping_interval : Interval DirectMemoryMapping :=
  {| istart := dm_guest_address; isize := dm_size |}.

(** The edits of [UnregisterMappings]. *)
#[export] Instance mapping_carve : Carve DirectMemoryMapping := {|
  advance_to m x :=
    let removed := (x - dm_guest_address m)%u64 in
    mkMapping x (dm_physical_address m + removed)%u64 (dm_size m - removed)%u64;
  shrink_to m x := mkMapping (dm_guest_address m) (dm_physical_address m)
                     (x - dm_guest_address m)%u64;
  suffix_from m x :=
    mkMapping x ((dm_physical_address m + x)%u64 - dm_guest_address m)%u64
      (iend64 m - x)%u64
|}.

Implicit Types (d : DirectMemoryService).

Definition DirectMemoryService_init : DirectMemoryService :=
  mkDirectMemory [] [(0, kDirectMemorySize)] [] (Backing_init kDirectMemorySize).

Definition DirectMemory_AlignUp (value alignment : Z) : option Z :=
  if alignment =? 0 then Some value
  else
    let remainder := value mod alignment in
    let increment := if remainder =? 0 then 0 else alignment - remainder in
    if increment >? u64_max - value then None else Some (value + increment)%u64.

(** The result triple is [DirectMemoryRangeResult{status, address, size}]. *)
Fixpoint available_loop (search_start bounded_end alignment : Z)
    (ranges : list (Z * Z)) (best_address best_size : Z) : Z * Z :=
  match ranges with
  | [] => (best_address, best_size)
  | (range_start, range_size) :: rest =>
      if range_start >=? bounded_end then (best_address, best_size)
      else
        let range_end := (range_start + range_size)%u64 in
        let lower_bound := Z.max range_start search_start in
        let clipped_end := Z.min range_end bounded_end in
        match DirectMemory_AlignUp lower_bound alignment with
        | None => available_loop search_start bounded_end alignment rest best_address best_size
        | Some aligned =>
            if (aligned <? lower_bound) || (aligned >=? clipped_end)
               || (clipped_end - aligned <=? best_size)
            then available_loop search_start bounded_end alignment rest best_address best_size
            else available_loop search_start bounded_end alignment rest aligned
                   (clipped_end - aligned)
        end
  end.

Definition Available (search_start search_end alignment : Z) d : KernelStatus * Z * Z :=
  if search_start >=? search_end then (kInvalidArgument, 0, 0)
  else
    let bounded_end := Z.min search_end kDirectMemorySize in
    if search_start >=? bounded_end then (kNoResources, 0, 0)
    else
      let '(best_address, best_size) :=
        available_loop search_start bounded_end alignment (free_ranges_ d) 0 0 in
      if best_size =? 0 then (kNoResources, 0, 0) else (kOk, best_address, best_size).

Definition ConsumeFreeRange (range : Z * Z) (start length : Z) (free : list (Z * Z))
    : list (Z * Z) :=
  let range_start := range.1 in
  let range_end := (range_start + range.2)%u64 in
  let f1 := om_erase range_start free in
  let f2 := if range_start <? start
            then om_emplace range_start (start - range_start)%u64 f1 else f1 in
  if (start + length)%u64 <? range_end
  then om_emplace (start + length)%u64 ((range_end - start)%u64 - length)%u64 f2 else f2.

(** [while (next != end && next->first <= end)]. *)
Fixpoint absorb (next : list (Z * Z)) (end_ : Z) : list (Z * Z) * Z :=
  match next with
  | [] => ([], end_)
  | (s, sz) :: rest =>
      if s <=? end_ then absorb rest (Z.max end_ (s + sz)%u64) else (next, end_)
  end.

Definition DirectMemory_AddFreeRange (start length : Z) (free : list (Z * Z)) : list (Z * Z) :=
  let end_ := (start + length)%u64 in
  let '(before_, next) := lower_split start free in
  let '(kept, start1, end1) :=
    match last before_ with
    | Some previous =>
        let previous_end := (previous.1 + previous.2)%u64 in
        if previous_end >=? start
        then (take (pred (List.length before_)) before_, previous.1, Z.max end_ previous_end)
        else (before_, start, end_)
    | None => (before_, start, end_)
    end in
  let '(next2, end2) := absorb next end1 in
  om_emplace start1 (end2 - start1)%u64 (kept ++ next2).

(** The range chosen by the loop of [Allocate], and the offset inside it. *)
Fixpoint allocate_loop (search_start bounded_end length alignment : Z)
    (ranges : list (Z * Z)) : option ((Z * Z) * Z) :=
  match ranges with
  | [] => None
  | (s, sz) :: rest =>
      if negb (s <? bounded_end) then None
      else
        let range_end := Z.min (s + sz)%u64 bounded_end in
        let lower_bound := Z.max s search_start in
        match DirectMemory_AlignUp lower_bound alignment with
        | None => allocate_loop search_start bounded_end length alignment rest
        | Some aligned =>
            if (aligned <? lower_bound) || (aligned >? range_end)
               || (length >? range_end - aligned)
            then allocate_loop search_start bounded_end length alignment rest
            else Some ((s, sz), aligned)
        end
  end.

(** [upper_bound(search_start)], stepped back once when possible. *)
Definition search_from (x : Z) (free : list (Z * Z)) : list (Z * Z) :=
  let '(before_, from) := upper_split x free in
  match last before_ with Some r => r :: from | None => from end.

Definition DirectMemory_Allocate (search_start search_end length alignment memory_type : Z) d
    : DirectMemoryService * (KernelStatus * Z * Z) :=
  if (length =? 0) || (search_start >=? search_end) then (d, (kInvalidArgument, 0, 0))
  else
    let bounded_end := Z.min search_end kDirectMemorySize in
    if search_start >=? bounded_end then (d, (kNoResources, 0, 0))
    else if Z.of_nat (List.length (allocations_ d)) >=? kMaximumDirectMemoryAllocations
    then (d, (kNoResources, 0, 0))
    else
      match allocate_loop search_start bounded_end length alignment
              (search_from search_start (free_ranges_ d)) with
      | None => (d, (kNoResources, 0, 0))
      | Some (range, selected) =>
          (mkDirectMemory
             (om_emplace selected (mkAllocation length memory_type) (allocations_ d))
             (ConsumeFreeRange range selected length (free_ranges_ d))
             (mappings_ d) (backing_ d),
           (kOk, selected, length))
      end.

(** The run of adjacent allocations of the same type. *)
Fixpoint query_run (memory_type end_ : Z) (following : list (Z * Allocation)) : Z :=
  match following with
  | [] => end_
  | (s, al) :: rest =>
      if (s =? end_) && (al_memory_type al =? memory_type)
      then query_run memory_type (end_ + al_size al)%u64 rest else end_
  end.

(** The result is [DirectMemoryQueryResult{status, start, end, memory_type}]. *)
Definition Query (offset flags : Z) d : KernelStatus * Z * Z * Z :=
  if (offset <? 0) || (negb (flags =? 0) && negb (flags =? 1)) then (kInvalidArgument, 0, 0, 0)
  else
    let address := offset in
    let '(before_, from) := upper_split address (allocations_ d) in
    let current :=
      match last before_ with
      | Some previous => if address <? iend64 previous then previous :: from else from
      | None => from
      end in
    let miss := match current with
                | [] => true
                | c :: _ => (flags =? 0) && ((address <? c.1) || (address >=? iend64 c))
                end in
    match miss, current with
    | false, c :: following =>
        (kOk, c.1, query_run (al_memory_type c.2) (iend64 c) following, al_memory_type c.2)
    | _, _ =>
        if (flags =? 1) && (address <? kDirectMemorySize)
        then (kOk, kDirectMemorySize, kDirectMemorySize, 0)
        else (kPermissionDenied, 0, 0, 0)
    end.

Definition HasMappedPhysicalOverlapLocked (start length : Z) d : bool :=
  let end_ := (start + length)%u64 in
  existsb (fun m => (start <? (dm_physical_address m + dm_size m)%u64)
                    && (dm_physical_address m <? end_)) (mappings_ d).

(** The last allocation that starts at or before [start]. *)
Definition owner_of (start : Z) d : option (Z * Allocation) :=
  last (upper_split start (allocations_ d)).1.

Definition DirectMemory_Release (start length : Z) d : DirectMemoryService * KernelStatus :=
  if (length =? 0) || (start >=? kDirectMemorySize)
     || (length >? (kDirectMemorySize - start)%u64)
  then (d, kInvalidArgument)
  else if HasMappedPhysicalOverlapLocked start length d then (d, kBusy)
  else
    match owner_of start d with
    | None => (d, kNotFound)
    | Some (owner_start, owner) =>
        let owner_end := (owner_start + al_size owner)%u64 in
        let release_end := (start + length)%u64 in
        if (start <? owner_start) || (release_end >? owner_end) then (d, kNotFound)
        else if (start >? owner_start) && (release_end <? owner_end)
                && (Z.of_nat (List.length (allocations_ d)) >=? kMaximumDirectMemoryAllocations)
        then (d, kNoResources)
        else
          let a1 := om_erase owner_start (allocations_ d) in
          let a2 := if owner_start <? start
                    then om_emplace owner_start
                           (mkAllocation (start - owner_start)%u64 (al_memory_type owner)) a1
                    else a1 in
          let a3 := if release_end <? owner_end
                    then om_emplace release_end
                           (mkAllocation (owner_end - release_end)%u64 (al_memory_type owner)) a2
                    else a2 in
          (mkDirectMemory a3 (DirectMemory_AddFreeRange start length (free_ranges_ d))
             (mappings_ d) (Backing_Clear (backing_ d) start length), kOk)
    end.

Definition ContainsAllocatedRangeLocked (start length : Z) d : bool :=
  match owner_of start d with
  | None => false
  | Some (s, al) => (start >=? s) && (length <=? ((s + al_size al)%u64 - start)%u64)
  end.

Definition ContainsAllocatedRange (start length : Z) d : bool :=
  if (length =? 0) || (start >=? kDirectMemorySize)
     || (length >? (kDirectMemorySize - start)%u64)
  then false else ContainsAllocatedRangeLocked start length d.

Definition RegisterMapping (guest_address physical_address length : Z) d
    : DirectMemoryService * KernelStatus :=
  if (guest_address =? 0) || (length =? 0) || (length >? (u64_max - guest_address)%u64)
     || (physical_address >=? kDirectMemorySize)
     || (length >? (kDirectMemorySize - physical_address)%u64)
  then (d, kInvalidArgument)
  else if negb (ContainsAllocatedRangeLocked physical_address length d) then (d, kNotFound)
  else if Z.of_nat (List.length (mappings_ d)) >=? kMaximumDirectMemoryMappings
  then (d, kNoResources)
  else
    let guest_end := (guest_address + length)%u64 in
    if existsb (fun m => (guest_address <? iend64 m) && (dm_guest_address m <? guest_end))
         (mappings_ d)
    then (d, kBusy)
    else (mkDirectMemory (allocations_ d) (free_ranges_ d)
            (mappings_ d ++ [mkMapping guest_address physical_address length]) (backing_ d), kOk).

Definition UnregisterMappings (guest_address length : Z) d : DirectMemoryService :=
  if (length =? 0) || (length >? (u64_max - guest_address)%u64) then d
  else
    let guest_end := (guest_address + length)%u64 in
    mkDirectMemory (allocations_ d) (free_ranges_ d)
      (carve guest_address guest_end (mappings_ d)) (backing_ d).

Definition allocation_count d : Z := Z.of_nat (List.length (allocations_ d)).
Definition mapping_count d : Z := Z.of_nat (List.length (mappings_ d)).

(** Properties of [kernel::DirectMemoryService]: the pool is always partitioned
    into allocations and coalesced free ranges, allocation is a complete
    first-fit search, and nothing mapped is ever released. *)

Implicit Types (free : list (Z * Z)).

Lemma kDirectMemorySize_eq : kDirectMemorySize = 14495514624.
Proof. done. Qed.
#[global] Opaque kDirectMemorySize.

Ltac dm_lia := rewrite ?kDirectMemorySize_eq in *; u64_lia.

(** Read intervals of the service's maps as numbers. *)
Ltac ivl_lia :=
  unfold inside, before, valid_in, iend in *; simpl in *; unfold size_of, Z_sized in *; lia.

(** ** Alignment *)

Definition aligned (alignment x : Z) : Prop := alignment = 0 \/ x mod alignment = 0.

Lemma AlignUp_spec v al :
  is_u64 v -> 0 <= al ->
  match DirectMemory_AlignUp v al with
  | Some x => v <= x <= u64_max /\ aligned al x /\ forall y, v <= y -> aligned al y -> x <= y
  | None => forall y, v <= y -> aligned al y -> u64_max < y
  end.
Proof.
  intros Hv Hal. unfold DirectMemory_AlignUp, is_u64, aligned in *.
  destruct (al =? 0) eqn:E; [split_and!; [lia|lia|left; lia|done]|].
  pose proof (Z.mod_pos_bound v al ltac:(lia)). pose proof (Z.div_mod v al ltac:(lia)).
  assert (Hleast : forall y, v <= y -> al = 0 \/ y mod al = 0 ->
            v + (if v mod al =? 0 then 0 else al - v mod al) <= y).
  { intros y Hy [|Hm]; [lia|]. destruct (v mod al =? 0) eqn:Ez; [lia|].
    pose proof (Z.div_mod y al ltac:(lia)). assert (v / al < y / al) by nia. nia. }
  destruct (_ >? _) eqn:Eo.
  - intros y Hy Hm. specialize (Hleast y Hy Hm). destruct (v mod al =? 0); lia.
  - rewrite add64_small by (destruct (v mod al =? 0); lia).
    split_and!; [destruct (v mod al =? 0); lia|lia| |done]. right.
    destruct (v mod al =? 0) eqn:Ez; [by rewrite Z.add_0_r; lia|].
    replace (v + (al - v mod al)) with ((v / al + 1) * al) by lia. apply Z.mod_mul. lia.
Qed.

(** ** The search of [Allocate] *)

Section search.
Context (search_start bounded_end len al : Z).
Context (Hss : 0 <= search_start < bounded_end) (Hbe : bounded_end <= kDirectMemorySize) (Hlen : 0 < len)
  (Hal : 0 <= al).

(** [x] is a place for the allocation inside the free range [r]. *)
Definition fits_in (r : Z * Z) (x : Z) : Prop :=
  istart r <= x /\ search_start <= x /\ x + len <= iend r /\ x + len <= bounded_end /\
  aligned al x.

Lemma allocate_loop_spec ranges :
  om_sorted ranges -> (forall r, r ∈ ranges -> valid_in 0 kDirectMemorySize r) ->
  (forall r1 r2, r1 ∈ ranges -> r2 ∈ ranges -> istart r1 < istart r2 -> iend r1 <= istart r2) ->
  match allocate_loop search_start bounded_end len al ranges with
  | Some (r, x) => r ∈ ranges /\ fits_in r x /\ forall r' y, r' ∈ ranges -> fits_in r' y -> x <= y
  | None => forall r y, r ∈ ranges -> ~ fits_in r y
  end.
Proof.
  induction ranges as [|[s sz] rest IH]; intros Hs Hv Hd; [by intros ? ? ?%elem_of_nil|].
  apply om_sorted_cons in Hs as [Hs Hlt]. cbn [allocate_loop].
  pose proof (Hv (s, sz) (list_elem_of_here _ _)) as Hvs. unfold valid_in, iend in Hvs. simpl in Hvs.
  assert (Hrest : match allocate_loop search_start bounded_end len al rest with
    | Some (r, x) => r ∈ rest /\ fits_in r x /\ forall r' y, r' ∈ rest -> fits_in r' y -> x <= y
    | None => forall r y, r ∈ rest -> ~ fits_in r y end).
  { apply IH; [done| |].
    - intros r Hr. apply Hv, elem_of_cons. by right.
    - intros r1 r2 H1 H2. apply Hd; apply elem_of_cons; by right. }
  clear IH.
  assert (Hskip : (forall y, ~ fits_in (s, sz) y) ->
    match allocate_loop search_start bounded_end len al rest with
    | Some (r, x) => r ∈ (s, sz) :: rest /\ fits_in r x /\
        forall r' y, r' ∈ (s, sz) :: rest -> fits_in r' y -> x <= y
    | None => forall r y, r ∈ (s, sz) :: rest -> ~ fits_in r y end).
  { intros Hno. destruct (allocate_loop _ _ _ _ rest) as [[r x]|].
    - destruct Hrest as (Hr & Hf & Hmin). split_and!; [apply elem_of_cons; by right|done|].
      intros r' y [->|Hr']%elem_of_cons Hf'; [by destruct (Hno y)|by eapply Hmin].
    - intros r y [->|Hr]%elem_of_cons; [apply Hno|by apply Hrest]. }
  unfold size_of, Z_sized in Hvs.
  destruct (s <? bounded_end) eqn:Eb; cbn [negb].
  2:{ intros r y [->|Hr]%elem_of_cons (H1 & H2 & H3 & H4 & _); simpl in *; [lia|].
      apply Hlt in Hr. simpl in Hr. lia. }
  rewrite add64_small by dm_lia.
  pose proof (AlignUp_spec (Z.max s search_start) al ltac:(split; dm_lia) Hal) as Ha.
  destruct (DirectMemory_AlignUp _ _) as [x|].
  2:{ apply Hskip. intros y (H1 & H2 & H3 & H4 & H5). simpl in *.
      specialize (Ha y ltac:(lia) H5). unfold iend in *. simpl in *. dm_lia. }
  destruct Ha as (Hx & Hax & Hleast).
  destruct (_ || _) eqn:Eg.
  - apply Hskip. intros y (H1 & H2 & H3 & H4 & H5). specialize (Hleast y ltac:(simpl in *; lia) H5).
    unfold iend in *. simpl in *. unfold size_of, Z_sized in *. lia.
  - assert (Hf : fits_in (s, sz) x).
    { unfold fits_in, iend. simpl. unfold size_of, Z_sized. split_and!; try done; lia. }
    split_and!; [apply list_elem_of_here|done|].
    intros r' y [->|Hr']%elem_of_cons (H1 & H2 & H3 & H4 & H5).
    + apply Hleast; [simpl in *; lia|done].
    + pose proof (Hlt r' Hr') as Hlt'. simpl in Hlt'.
      pose proof (Hd (s, sz) r' (list_elem_of_here _ _) ltac:(apply elem_of_cons; by right) Hlt').
      destruct Hf as (_ & _ & Hf & _). unfold istart in *. simpl in *. lia.
Qed.

Lemma last_app_take {A} (l : list A) x : last l = Some x -> l = take (pred (length l)) l ++ [x].
Proof.
  intros Hl. apply last_Some in Hl as [l' ->]. rewrite length_app. simpl.
  replace (pred (length l' + 1)) with (length l') by lia. by rewrite take_app_length.
Qed.

Lemma search_from_spec free :
  fl_ok 1 0 kDirectMemorySize free ->
  exists skipped, free = skipped ++ search_from search_start free /\
    forall r y, r ∈ skipped -> ~ fits_in r y.
Proof.
  intros Hok. unfold search_from.
  destruct (upper_split_spec 0 kDirectMemorySize search_start free
              (fl_ranges_ok 1 _ _ _ ltac:(lia) Hok)) as (Happ & Hb & He).
  destruct (upper_split search_start free) as [b e]. simpl in *.
  destruct (last b) as [r|] eqn:El.
  - pose proof (last_app_take b r El) as Hbr. exists (take (pred (length b)) b).
    split; [by rewrite <- Happ, Hbr at 1; rewrite <- app_assoc|].
    intros r' y Hr' (H1 & H2 & H3 & _).
    pose proof (fl_ranges_ok 1 _ _ _ ltac:(lia) Hok) as Hro. rewrite <- Happ, Hbr in Hro.
    apply ranges_ok_app in Hro as (Hro & _). apply ranges_ok_app in Hro as (_ & _ & Hbef).
    specialize (Hbef r' r Hr' ltac:(apply list_elem_of_here)).
    assert (istart r <= search_start) by (apply Hb; rewrite Hbr; apply elem_of_app; right; apply list_elem_of_here).
    unfold before in Hbef. lia.
  - exists []. apply last_None in El. subst b. split; [done|]. by intros ? ? ?%elem_of_nil.
Qed.
End search.

(** ** Carving and coalescing the free list *)

Lemma ConsumeFreeRange_spec free r start len :
  fl_ok 1 0 kDirectMemorySize free -> r ∈ free -> istart r <= start -> 0 < len ->
  start + len <= iend r ->
  let free' := ConsumeFreeRange r start len free in
  fl_ok 1 0 kDirectMemorySize free' /\
  forall a, covered free' a <-> covered free a /\ ~ start <= a < start + len.
Proof.
  intros Hok Hr Hs Hlen He. cbn zeta.
  pose proof (fl_valid _ _ _ _ Hok r Hr) as Hv.
  destruct (carve_window 1 0 kDirectMemorySize free r (fun n => n) start len ltac:(done) ltac:(lia)
    Hok Hr Hs Hlen He) as (Hok' & Hcov & _).
  unfold ConsumeFreeRange. destruct r as [rs rz].
  assert (Hmax : kDirectMemorySize <= u64_max) by dm_lia.
  assert (Hb : 0 <= rs /\ 0 < rz /\ rs + rz <= kDirectMemorySize /\ rs <= start /\
               start + len <= rs + rz) by ivl_lia.
  simpl. rewrite !add64_small by lia. rewrite (sub64_small (rs + rz) start) by lia.
  rewrite !sub64_small by lia. done.
Qed.

Lemma absorb_clear nx end_ : (forall r, r ∈ nx -> end_ < istart r) -> absorb nx end_ = (nx, end_).
Proof.
  intros Hc. destruct nx as [|[s sz] t]; [done|]. simpl.
  specialize (Hc _ (list_elem_of_here _ _)). simpl in Hc. by replace (s <=? end_) with false by lia.
Qed.

(** The loop absorbs at most the one range that starts at the end. *)
Lemma absorb_spec nx end_ :
  fl_ok 1 0 kDirectMemorySize nx -> (forall r, r ∈ nx -> end_ <= istart r) ->
  absorb nx end_ =
  match nx with
  | (s, sz) :: t => if s =? end_ then (t, s + sz) else (nx, end_)
  | [] => ([], end_)
  end.
Proof.
  intros Hok Hc. destruct nx as [|[s sz] t]; [done|]. cbn [absorb].
  pose proof (Hc _ (list_elem_of_here _ _)) as Hs. simpl in Hs.
  pose proof (fl_valid _ _ _ _ Hok _ (list_elem_of_here _ _)) as (Q1 & Q2 & Q3).
  unfold iend in Q3. simpl in *. unfold size_of, Z_sized in *.
  destruct (s =? end_) eqn:E.
  - replace (s <=? end_) with true by lia. rewrite add64_small by dm_lia.
    rewrite Z.max_r by lia. apply absorb_clear. intros r Hr.
    pose proof (fl_sorted _ _ _ _ Hok) as [_ Hlt]%om_sorted_cons.
    pose proof (fl_gap _ _ _ _ Hok (s, sz) r (list_elem_of_here _ _)
      ltac:(apply elem_of_cons; by right) (Hlt r Hr)) as Hg.
    unfold iend in Hg. simpl in Hg. unfold size_of, Z_sized in Hg. simpl. lia.
  - by replace (s <=? end_) with false by lia.
Qed.

(** The state of the free list around a window that is not free. *)
Lemma around_window free start len :
  fl_ok 1 0 kDirectMemorySize free -> 0 <= start -> 0 < len ->
  (forall r, r ∈ free -> iend r <= start \/ start + len <= istart r) ->
  let '(b, nx) := lower_split start free in
  free = b ++ nx /\ (forall r, r ∈ b -> iend r <= start) /\
  (forall r, r ∈ nx -> start + len <= istart r) /\ fl_ok 1 0 kDirectMemorySize nx.
Proof.
  intros Hok Hs Hlen Hd. pose proof (fl_split 1 _ _ free start ltac:(lia) Hok) as Hsp.
  destruct (lower_split start free) as [b nx]. destruct Hsp as (Happ & Hb & He).
  assert (Hv : forall r, r ∈ free -> 0 < isize r) by (intros r Hr; by apply Hok).
  split_and!; [done| | |].
  - intros r Hr. assert (Hrf : r ∈ free) by (rewrite Happ; apply elem_of_app; by left).
    destruct (Hd r Hrf); [done|]. specialize (Hb r Hr). specialize (Hv r Hrf). unfold iend in *. lia.
  - intros r Hr. assert (Hrf : r ∈ free) by (rewrite Happ; apply elem_of_app; by right).
    destruct (Hd r Hrf); [|done]. specialize (He r Hr). specialize (Hv r Hrf). unfold iend in *. lia.
  - eapply fl_sub; [exact Hok| |].
    + pose proof (fl_sorted _ _ _ _ Hok) as Hsr. rewrite Happ in Hsr.
      by eapply StronglySorted_app_1_r.
    + intros e Hin. rewrite Happ. apply elem_of_app. by right.
Qed.

Lemma om_sorted_middle {V} (b m e : list (Z * V)) : om_sorted (b ++ m ++ e) -> om_sorted (b ++ e).
Proof.
  unfold om_sorted. intros Hs. apply StronglySorted_app_2.
  - intros x y Hx Hy. eapply StronglySorted_app_1_elem_of; [exact Hs|done|].
    apply elem_of_app. by right.
  - by eapply StronglySorted_app_1_l.
  - apply StronglySorted_app_1_r in Hs. by eapply StronglySorted_app_1_r.
Qed.

(** One window added to the free list: [L] and [R] are the ranges that end
    and start at its borders, if any. *)
Lemma add_window free b L R nx start len :
  fl_ok 1 0 kDirectMemorySize free -> 0 <= start -> 0 < len -> start + len <= kDirectMemorySize ->
  free = b ++ L ++ R ++ nx ->
  (forall r, r ∈ b -> iend r < start) -> (forall r, r ∈ nx -> start + len < istart r) ->
  (L = [] \/ exists p, L = [p] /\ iend p = start) ->
  (R = [] \/ exists n, R = [n] /\ istart n = start + len) ->
  let s1 := match L with [] => start | p :: _ => istart p end in
  let e1 := match R with [] => start + len | n :: _ => iend n end in
  fl_ok 1 0 kDirectMemorySize (om_emplace s1 (e1 - s1) (b ++ nx)) /\
  forall a, covered (om_emplace s1 (e1 - s1) (b ++ nx)) a <->
    covered free a \/ start <= a < start + len.
Proof.
  intros Hok Hs Hlen Hhi Happ Hb Hnx HL HR. cbn zeta.
  set (s1 := match L with [] => _ | p :: _ => _ end).
  set (e1 := match R with [] => _ | n :: _ => _ end).
  assert (Hel : forall e, e ∈ free <-> e ∈ b ++ nx \/ e ∈ L ++ R)
    by (intros e; rewrite Happ, !elem_of_app; tauto).
  assert (HvL : forall p, p ∈ L -> valid_in 0 kDirectMemorySize p /\ iend p = start /\ istart p = s1).
  { intros p Hp. destruct HL as [->|(p0 & -> & Hp0)]; [by apply elem_of_nil in Hp|].
    apply list_elem_of_singleton in Hp as ->. split_and!; [apply Hok, Hel|done|done].
    right. apply elem_of_app. left. apply list_elem_of_here. }
  assert (HvR : forall n, n ∈ R -> valid_in 0 kDirectMemorySize n /\ istart n = start + len /\ iend n = e1).
  { intros n Hn. destruct HR as [->|(n0 & -> & Hn0)]; [by apply elem_of_nil in Hn|].
    apply list_elem_of_singleton in Hn as ->. split_and!; [apply Hok, Hel|done|done].
    right. apply elem_of_app. right. apply list_elem_of_here. }
  assert (Hs1 : 0 <= s1 <= start /\ (s1 = start \/ exists p, p ∈ L)).
  { unfold s1. destruct HL as [->|(p & -> & Hp)]; [split; [lia|by left]|].
    destruct (HvL p (list_elem_of_here _ _)) as ((Q1 & Q2 & Q3) & _). unfold iend in *.
    split; [lia|right; exists p; apply list_elem_of_here]. }
  assert (He1 : start + len <= e1 <= kDirectMemorySize /\ (e1 = start + len \/ exists n, n ∈ R)).
  { unfold e1. destruct HR as [->|(n & -> & Hn)]; [split; [lia|by left]|].
    destruct (HvR n (list_elem_of_here _ _)) as ((Q1 & Q2 & Q3) & _). unfold iend in *.
    split; [lia|right; exists n; apply list_elem_of_here]. }
  pose proof (fl_merge 1 0 kDirectMemorySize free (b ++ nx) (L ++ R) (s1, e1 - s1) (start, len)
    ltac:(lia) Hok Hel) as Hm.
  destruct Hm as [Hok' Hcov].
  - apply (om_sorted_middle b (L ++ R) nx). rewrite <- app_assoc, <- Happ. apply Hok.
  - unfold valid_in, iend. simpl. unfold size_of, Z_sized. lia.
  - intros a. unfold inside, iend, covered. simpl. unfold size_of, Z_sized. split.
    + intros Ha. destruct (decide (start <= a < start + len)) as [|Hout]; [by left|right].
      destruct (decide (a < start)) as [Hl|Hl].
      * destruct Hs1 as [_ [?|[p Hp]]]; [lia|]. exists p. split; [apply elem_of_app; by left|].
        destruct (HvL p Hp) as (_ & ? & ?). ivl_lia.
      * destruct He1 as [_ [?|[n Hn]]]; [lia|]. exists n. split; [apply elem_of_app; by right|].
        destruct (HvR n Hn) as (_ & ? & ?). ivl_lia.
    + intros [?|(r & [Hr|Hr]%elem_of_app & Ha)]; [lia| |].
      * destruct (HvL r Hr) as (_ & ? & ?). ivl_lia.
      * destruct (HvR r Hr) as (_ & ? & ?). ivl_lia.
  - intros e [He|He]%elem_of_app.
    + left. destruct Hs1 as [_ [Heq|[p Hp]]]; [specialize (Hb e He); ivl_lia|].
      destruct (HvL p Hp) as (Hvp & Hpe & Hps). cbn [istart keyed_interval fst].
      change (iend e + 1 <= s1). rewrite <- Hps.
      assert (Hef : e ∈ free) by (apply Hel; left; apply elem_of_app; by left).
      assert (Hpf : p ∈ free) by (apply Hel; right; apply elem_of_app; by left).
      assert (Hbp : before e p).
      { pose proof (fl_ranges_ok 1 _ _ _ ltac:(lia) Hok) as Hro. rewrite Happ in Hro.
        apply ranges_ok_app in Hro as (_ & _ & Hro). apply Hro; [done|]. apply elem_of_app. by left. }
      unfold before in Hbp. pose proof (fl_valid _ _ _ _ Hok e Hef) as (Q1 & Q2 & Q3).
      apply (fl_gap _ _ _ _ Hok); [done|done|]. unfold iend in *. lia.
    + right. destruct He1 as [_ [Heq|[n Hn]]]; [specialize (Hnx e He); ivl_lia|].
      destruct (HvR n Hn) as (Hvn & Hns & Hne).
      assert (Hef : e ∈ free) by (apply Hel; left; apply elem_of_app; by right).
      assert (Hnf : n ∈ free) by (apply Hel; right; apply elem_of_app; by right).
      pose proof (fl_gap _ _ _ _ Hok n e Hnf Hef ltac:(specialize (Hnx e He); lia)).
      assert (iend (s1, e1 - s1) = e1) by ivl_lia. lia.
  - split; [done|]. intros a. rewrite Hcov. unfold inside, iend. simpl.
    unfold size_of, Z_sized. tauto.
Qed.

Lemma split_next free b nx start len :
  fl_ok 1 0 kDirectMemorySize nx -> (forall r, r ∈ nx -> start + len <= istart r) ->
  free = b ++ nx ->
  exists R nx', nx = R ++ nx' /\ (forall r, r ∈ nx' -> start + len < istart r) /\
    (R = [] \/ exists n, R = [n] /\ istart n = start + len) /\
    absorb nx (start + len) = (nx', match R with [] => start + len | n :: _ => iend n end).
Proof.
  intros Hok Hge _. rewrite absorb_spec by done. destruct nx as [|[s sz] t].
  { exists [], []. split_and!; [done|by intros ? ?%elem_of_nil|by left|done]. }
  pose proof (fl_sorted _ _ _ _ Hok) as [_ Hlt]%om_sorted_cons.
  pose proof (Hge (s, sz) (list_elem_of_here _ _)) as Hs. simpl in Hs.
  destruct (s =? start + len) eqn:E.
  - exists [(s, sz)], t. split_and!; [done| |right; exists (s, sz); split; [done|simpl; lia]|done].
    intros r Hr. specialize (Hlt r Hr). simpl in *. lia.
  - exists [], ((s, sz) :: t). split_and!; [done| |by left|done].
    intros r [->|Hr]%elem_of_cons; [simpl; lia|]. specialize (Hlt r Hr). simpl in *. lia.
Qed.

Lemma AddFreeRange_spec free start len :
  fl_ok 1 0 kDirectMemorySize free -> 0 <= start -> 0 < len -> start + len <= kDirectMemorySize ->
  (forall r, r ∈ free -> iend r <= start \/ start + len <= istart r) ->
  let free' := DirectMemory_AddFreeRange start len free in
  fl_ok 1 0 kDirectMemorySize free' /\
  forall a, covered free' a <-> covered free a \/ start <= a < start + len.
Proof.
  intros Hok Hs Hlen Hhi Hd. cbn zeta. unfold DirectMemory_AddFreeRange.
  rewrite !add64_small by dm_lia.
  pose proof (around_window free start len Hok Hs Hlen Hd) as Haw.
  destruct (lower_split start free) as [b nx]. destruct Haw as (Happ & Hb & Hnx & Hoknx).
  destruct (split_next free b nx start len Hoknx Hnx Happ) as (R & nx' & HR1 & HR2 & HR3 & Habs).
  set (e1 := match R with [] => _ | n :: _ => _ end) in *.
  assert (He1 : start + len <= e1 <= kDirectMemorySize).
  { unfold e1. destruct HR3 as [->|(n & -> & Hn)]; [lia|].
    assert (valid_in 0 kDirectMemorySize n)
      by (apply Hoknx; rewrite HR1; apply list_elem_of_here). ivl_lia. }
  assert (Hno : (forall r, r ∈ b -> iend r < start) ->
    fl_ok 1 0 kDirectMemorySize (om_emplace start (e1 - start) (b ++ nx')) /\
    forall a, covered (om_emplace start (e1 - start) (b ++ nx')) a <->
      covered free a \/ start <= a < start + len).
  { intros Hb'. apply (add_window free b [] R nx'); try done; [by rewrite Happ, HR1|by left]. }
  destruct (last b) as [p|] eqn:El.
  2:{ rewrite Habs, sub64_small by dm_lia. apply Hno. apply last_None in El. subst b.
      by intros ? ?%elem_of_nil. }
  pose proof (last_app_take b p El) as Hbp.
  assert (Hpb : p ∈ b) by (rewrite Hbp; apply elem_of_app; right; apply list_elem_of_here).
  assert (Hpf : p ∈ free) by (rewrite Happ; apply elem_of_app; by left).
  pose proof (fl_valid _ _ _ _ Hok p Hpf) as Hvp. pose proof (Hb p Hpb) as Hpe.
  assert (Hle : forall r, r ∈ take (pred (length b)) b -> iend r < istart p).
  { intros r Hr. assert (Hrf : r ∈ free).
    { rewrite Happ, Hbp. apply elem_of_app. left. apply elem_of_app. by left. }
    assert (Hbef : before r p).
    { pose proof (fl_ranges_ok 1 _ _ _ ltac:(lia) Hok) as Hro. rewrite Happ, Hbp in Hro.
      apply ranges_ok_app in Hro as (Hro & _). apply ranges_ok_app in Hro as (_ & _ & Hro).
      apply Hro; [done|apply list_elem_of_here]. }
    pose proof (fl_valid _ _ _ _ Hok r Hrf).
    pose proof (fl_gap _ _ _ _ Hok r p Hrf Hpf ltac:(ivl_lia)). lia. }
  assert (Hmax : kDirectMemorySize <= u64_max) by dm_lia.
  rewrite add64_small by ivl_lia. change (p.1 + p.2) with (iend p). destruct (iend p >=? start) eqn:Eg.
  - assert (Hep : iend p = start) by lia. rewrite Hep, Z.max_l by lia. rewrite Habs.
    rewrite sub64_small by ivl_lia.
    apply (add_window free (take (pred (length b)) b) [p] R nx'); try done.
    + by rewrite Happ, HR1, Hbp at 1; rewrite <- app_assoc.
    + intros r Hr. specialize (Hle r Hr). ivl_lia.
    + right. by exists p.
  - rewrite Habs, sub64_small by dm_lia. apply Hno. intros r Hr. rewrite Hbp in Hr.
    apply elem_of_app in Hr as [Hr| ->%list_elem_of_singleton]; [|lia].
    specialize (Hle r Hr). ivl_lia.
Qed.

(** ** The invariant of the service *)

(** The mapping's physical window lies inside one allocation.  This holds as
    long as mappings are registered at allocated offsets. *)
Definition backed (allocs : list (Z * Allocation)) (m : DirectMemoryMapping) : Prop :=
  exists r, r ∈ allocs /\ istart r <= dm_physical_address m /\
    dm_physical_address m + dm_size m <= iend r.

Definition all_backed d : Prop := forall m, m ∈ mappings_ d -> backed (allocations_ d) m.

Record dm_ok d : Prop := {
  do_allocs : fl_ok 0 0 kDirectMemorySize (allocations_ d);
  do_free : fl_ok 1 0 kDirectMemorySize (free_ranges_ d);
  do_partition : forall a, 0 <= a < kDirectMemorySize ->
    covered (allocations_ d) a <-> ~ covered (free_ranges_ d) a;
  do_disjoint : StronglySorted disjoint_from (mappings_ d);
  do_mapped : forall m, m ∈ mappings_ d -> valid_in 1 u64_max m /\
    0 <= dm_physical_address m /\ dm_physical_address m + dm_size m <= kDirectMemorySize;
  do_backing : backing_ok (backing_ d) /\ bk_size_ (backing_ d) = kDirectMemorySize
}.

Lemma covered_dec_free free a : {covered free a} + {~ covered free a}.
Proof.
  destruct (range_at free a) as [r|] eqn:E.
  - left. apply range_at_Some in E as [? ?]. by exists r.
  - right. intros (r & Hr & Ha). exact (range_at_None free a r E Hr Ha).
Qed.

Lemma init_ok : dm_ok DirectMemoryService_init.
Proof.
  split; simpl.
  - apply fl_nil.
  - apply fl_single. pose proof kDirectMemorySize_eq. ivl_lia.
  - intros a Ha. split.
    + by intros (r & ?%elem_of_nil & _).
    + intros Hn. destruct Hn. exists (0, kDirectMemorySize). split; [apply list_elem_of_here|].
      ivl_lia.
  - constructor.
  - by intros ? ?%elem_of_nil.
  - split; [|done]. split; simpl; [dm_lia|]. intros i pg. by rewrite lookup_empty.
Qed.

(** Free windows and allocations keep apart. *)
Lemma free_alloc_apart d r x len :
  dm_ok d -> r ∈ allocations_ d -> 0 < len -> 0 <= x ->
  (forall a, x <= a < x + len -> covered (free_ranges_ d) a) ->
  iend r <= x \/ x + len <= istart r.
Proof.
  intros Hd Hr Hlen Hx Hf.
  destruct (decide (iend r <= x \/ x + len <= istart r)) as [|Hn]; [done|exfalso].
  pose proof (fl_valid _ _ _ _ (do_allocs _ Hd) r Hr) as (Q1 & Q2 & Q3).
  set (a := Z.max x (istart r)).
  assert (Ha : inside r a) by (unfold inside, iend in *; lia).
  apply (do_partition _ Hd a); [unfold inside, iend in *; lia|by exists r|].
  apply Hf. unfold inside, iend in *. lia.
Qed.

Lemma search_from_elem x free r : r ∈ search_from x free -> r ∈ free.
Proof.
  unfold search_from, upper_split.
  pose proof (split_while_app (fun r : Z * Z => istart r <=? x) free) as Happ.
  destruct (split_while _ free) as [b e]. simpl in Happ. subst free.
  destruct (last b) as [p|] eqn:El; [|intros; apply elem_of_app; by right].
  intros [->|Hr]%elem_of_cons; apply elem_of_app; [left|by right].
  rewrite (last_app_take b p El). apply elem_of_app. right. apply list_elem_of_here.
Qed.

(** The whole search: the least place in the free list, or none. *)
Lemma search_spec d ss be len al :
  dm_ok d -> 0 <= ss < be -> be <= kDirectMemorySize -> 0 < len -> 0 <= al ->
  match allocate_loop ss be len al (search_from ss (free_ranges_ d)) with
  | Some (r, x) => r ∈ free_ranges_ d /\ fits_in ss be len al r x /\
      forall r' y, r' ∈ free_ranges_ d -> fits_in ss be len al r' y -> x <= y
  | None => forall r y, r ∈ free_ranges_ d -> ~ fits_in ss be len al r y
  end.
Proof.
  intros Hd Hss Hbe Hlen Hal. pose proof (do_free _ Hd) as Hok.
  destruct (search_from_spec ss be len al Hlen (free_ranges_ d) Hok) as (sk & Happ & Hsk).
  pose proof (allocate_loop_spec ss be len al Hss Hbe Hlen Hal (search_from ss (free_ranges_ d))) as Hl.
  assert (Hin : forall r y, r ∈ free_ranges_ d -> fits_in ss be len al r y ->
            r ∈ search_from ss (free_ranges_ d)).
  { intros r y Hr Hf. rewrite Happ in Hr. apply elem_of_app in Hr as [Hr|Hr]; [|done].
    by destruct (Hsk r y Hr). }
  destruct (allocate_loop _ _ _ _ _) as [[r x]|].
  - destruct Hl as (Hr & Hf & Hmin).
    + pose proof (fl_sorted _ _ _ _ Hok) as Hs. rewrite Happ in Hs.
      by eapply StronglySorted_app_1_r.
    + intros r0 Hr0. by apply (fl_valid _ _ _ _ Hok), (search_from_elem ss).
    + intros r1 r2 H1%search_from_elem H2%search_from_elem Hlt.
      pose proof (fl_gap _ _ _ _ Hok r1 r2 H1 H2 Hlt). lia.
    + split_and!; [by eapply search_from_elem|done|]. intros r' y Hr' Hf'.
      eapply Hmin; [by eapply Hin|done].
  - intros r y Hr Hf. eapply Hl; [| | |by eapply Hin|exact Hf].
    + pose proof (fl_sorted _ _ _ _ Hok) as Hs. rewrite Happ in Hs.
      by eapply StronglySorted_app_1_r.
    + intros r0 Hr0. by apply (fl_valid _ _ _ _ Hok), (search_from_elem ss).
    + intros r1 r2 H1%search_from_elem H2%search_from_elem Hlt.
      pose proof (fl_gap _ _ _ _ Hok r1 r2 H1 H2 Hlt). lia.
Qed.

(** Taking a free window: the state after a successful allocation. *)
Lemma take_window_ok d r x len ty :
  dm_ok d -> r ∈ free_ranges_ d -> istart r <= x -> 0 < len -> x + len <= iend r ->
  let d' := mkDirectMemory (om_emplace x (mkAllocation len ty) (allocations_ d))
              (ConsumeFreeRange r x len (free_ranges_ d)) (mappings_ d) (backing_ d) in
  dm_ok d' /\ om_find x (allocations_ d) = None /\
  forall a, covered (free_ranges_ d') a <-> covered (free_ranges_ d) a /\ ~ x <= a < x + len.
Proof.
  intros Hd Hr Hx Hlen He. cbn zeta.
  pose proof (fl_valid _ _ _ _ (do_free _ Hd) r Hr) as Hvr.
  assert (Hcf : forall a, x <= a < x + len -> covered (free_ranges_ d) a).
  { intros a Ha. exists r. split; [done|]. ivl_lia. }
  destruct (ConsumeFreeRange_spec (free_ranges_ d) r x len (do_free _ Hd) Hr Hx Hlen He)
    as [Hf' Hcov].
  destruct (fl_add 0 0 kDirectMemorySize (allocations_ d) ltac:(lia) (do_allocs _ Hd) x
              (mkAllocation len ty)) as (Ha' & Hnone & Hca).
  { unfold valid_in, iend. simpl. unfold size_of, allocation_sized. simpl. ivl_lia. }
  { intros e Hin. rewrite !Z.add_0_r. unfold size_of, allocation_sized. simpl.
    apply (free_alloc_apart d); try done. ivl_lia. }
  split; [|done]. split; simpl; try done.
  - intros a Ha. rewrite Hca, Hcov. rewrite (do_partition _ Hd a Ha).
    unfold inside, iend. simpl. unfold size_of, allocation_sized. simpl.
    destruct (covered_dec_free (free_ranges_ d) a); [|naive_solver].
    split; [intros [|]; [done|]; by intros [_ ?]|]. intros Hn. right.
    destruct (decide (x <= a < x + len)); [done|]. by destruct Hn.
  - apply Hd.
  - apply Hd.
  - apply Hd.
Qed.

Lemma Allocate_ok d ss se len al ty :
  0 <= ss -> 0 <= len -> 0 <= al -> dm_ok d ->
  dm_ok (DirectMemory_Allocate ss se len al ty d).1.
Proof.
  intros Hss Hl Hal Hd. unfold DirectMemory_Allocate. split_match; [done|].
  split_match; [done|]. split_match; [done|].
  pose proof (search_spec d ss (Z.min se kDirectMemorySize) len al Hd ltac:(lia) ltac:(lia)
    ltac:(lia) Hal) as Hs.
  destruct (allocate_loop _ _ _ _ _) as [[r x]|]; [|done].
  destruct Hs as (Hr & (H1 & H2 & H3 & H4 & H5) & _).
  apply (take_window_ok d r x len ty); try done. lia.
Qed.

Lemma Allocate_backed d ss se len al ty :
  0 <= ss -> 0 <= len -> 0 <= al -> dm_ok d -> all_backed d ->
  all_backed (DirectMemory_Allocate ss se len al ty d).1.
Proof.
  intros Hss Hl Hal Hd Hb. unfold DirectMemory_Allocate. split_match; [done|].
  split_match; [done|]. split_match; [done|].
  pose proof (search_spec d ss (Z.min se kDirectMemorySize) len al Hd ltac:(lia) ltac:(lia)
    ltac:(lia) Hal) as Hs.
  destruct (allocate_loop _ _ _ _ _) as [[r x]|]; [|done].
  destruct Hs as (Hr & (H1 & H2 & H3 & H4 & H5) & _).
  destruct (take_window_ok d r x len ty Hd Hr H1 ltac:(lia) H3) as (_ & Hnone & _).
  intros m Hm. apply Hb in Hm as (r0 & Hr0 & Hin). exists r0. split; [|done].
  apply om_emplace_elem; [done|by right].
Qed.

(** A place for an allocation: aligned, inside the window, entirely free. *)
Definition feasible (ss be len al : Z) d (x : Z) : Prop :=
  ss <= x /\ x + len <= be /\ aligned al x /\
  forall a, x <= a < x + len -> covered (free_ranges_ d) a.

Lemma feasible_fits ss be len al d x :
  dm_ok d -> 0 < len -> feasible ss be len al d x <->
  exists r, r ∈ free_ranges_ d /\ fits_in ss be len al r x.
Proof.
  intros Hd Hlen. split.
  - intros (H1 & H2 & H3 & H4).
    destruct (fl_window 1 0 kDirectMemorySize _ x len ltac:(lia) (do_free _ Hd) Hlen H4)
      as (r & Hr & Hs & He). exists r. by split_and!.
  - intros (r & Hr & (H1 & H2 & H3 & H4 & H5)). split_and!; try done.
    intros a Ha. exists r. split; [done|]. ivl_lia.
Qed.

(** C3: [Allocate] is a complete first-fit search.  With valid arguments and
    room for another entry it returns the least aligned offset in the search
    window (clipped to the pool) whose whole range is free, records an
    allocation of exactly that length and type there, removes exactly that
    range from the free space and touches no mapping or byte; it reports no
    resources only when no such offset exists, and then changes nothing. *)
Theorem Allocate_first_fit d ss se len al ty :
  dm_ok d -> 0 <= ss < Z.min se kDirectMemorySize -> 0 < len -> 0 <= al ->
  Z.of_nat (length (allocations_ d)) < kMaximumDirectMemoryAllocations ->
  let be := Z.min se kDirectMemorySize in
  let '(d', (st, x, sz)) := DirectMemory_Allocate ss se len al ty d in
  if status_eqb st kOk then
    sz = len /\ feasible ss be len al d x /\ (forall y, feasible ss be len al d y -> x <= y) /\
    allocations_ d' = om_emplace x (mkAllocation len ty) (allocations_ d) /\
    om_find x (allocations_ d) = None /\
    (forall a, covered (free_ranges_ d') a <-> covered (free_ranges_ d) a /\ ~ x <= a < x + len) /\
    mappings_ d' = mappings_ d /\ backing_ d' = backing_ d
  else st = kNoResources /\ d' = d /\ forall y, ~ feasible ss be len al d y.
Proof.
  intros Hd Hss Hlen Hal Hroom. cbn zeta. unfold DirectMemory_Allocate.
  replace ((len =? 0) || (ss >=? se)) with false by lia.
  replace (ss >=? Z.min se kDirectMemorySize) with false by lia.
  replace (Z.of_nat (length (allocations_ d)) >=? kMaximumDirectMemoryAllocations) with false by lia.
  set (be := Z.min se kDirectMemorySize) in *.
  pose proof (search_spec d ss be len al Hd ltac:(lia) ltac:(lia) Hlen Hal) as Hs.
  destruct (allocate_loop _ _ _ _ _) as [[r x]|]; simpl.
  - destruct Hs as (Hr & Hf & Hmin). pose proof Hf as (H1 & H2 & H3 & H4 & H5).
    destruct (take_window_ok d r x len ty Hd Hr H1 Hlen H3) as (_ & Hnone & Hcov).
    split_and!; try done.
    + apply feasible_fits; [done|done|by exists r].
    + intros y (r' & Hr' & Hf')%feasible_fits; [|done|done]. by eapply Hmin.
  - split_and!; try done. intros y (r' & Hr' & Hf')%feasible_fits; [|done|done]. by eapply Hs.
Qed.

(** ** Releasing *)

Lemma owner_of_spec d x :
  fl_ok 0 0 kDirectMemorySize (allocations_ d) ->
  match owner_of x d with
  | Some r => r ∈ allocations_ d /\ istart r <= x /\
      forall r', r' ∈ allocations_ d -> istart r' <= x -> istart r' <> istart r ->
        iend r' <= istart r
  | None => forall r', r' ∈ allocations_ d -> x < istart r'
  end.
Proof.
  intros Hok. unfold owner_of.
  destruct (upper_split_spec 0 kDirectMemorySize x (allocations_ d)
              (fl_ranges_ok 0 _ _ _ ltac:(lia) Hok)) as (Happ & Hb & He).
  destruct (upper_split x (allocations_ d)) as [b e]. simpl in *.
  destruct (last b) as [r|] eqn:El.
  - pose proof (last_app_take b r El) as Hbr.
    assert (Hrb : r ∈ b) by (rewrite Hbr; apply elem_of_app; right; apply list_elem_of_here).
    split_and!; [rewrite <- Happ; apply elem_of_app; by left|by apply Hb|].
    intros r' Hr' Hx Hne. assert (Hr'b : r' ∈ b).
    { rewrite <- Happ in Hr'. apply elem_of_app in Hr' as [|Hr']; [done|].
      specialize (He r' Hr'). lia. }
    rewrite Hbr in Hr'b. apply elem_of_app in Hr'b as [Hin| ->%list_elem_of_singleton]; [|done].
    pose proof (fl_ranges_ok 0 _ _ _ ltac:(lia) Hok) as Hro. rewrite <- Happ, Hbr in Hro.
    apply ranges_ok_app in Hro as (Hro & _). apply ranges_ok_app in Hro as (_ & _ & Hro).
    apply (Hro r' r Hin). apply list_elem_of_here.
  - apply last_None in El. subst b. simpl in Happ. subst e. done.
Qed.


Lemma overlap_false d start len m :
  dm_ok d -> 0 <= start -> 0 <= len -> start + len <= kDirectMemorySize ->
  HasMappedPhysicalOverlapLocked start len d = false -> m ∈ mappings_ d ->
  dm_physical_address m + dm_size m <= start \/ start + len <= dm_physical_address m.
Proof.
  intros Hd Hs Hl0 Hl Ho Hm. unfold HasMappedPhysicalOverlapLocked in Ho.
  apply not_true_iff_false in Ho. rewrite existsb_exists in Ho.
  destruct (do_mapped _ Hd m Hm) as (Hv & Hp & Hpe).
  rewrite add64_small in Ho by dm_lia.
  destruct (decide (dm_physical_address m + dm_size m <= start \/ start + len <= dm_physical_address m));
    [done|exfalso]. apply Ho. exists m. rewrite <- list_elem_of_In. split; [done|].
  rewrite add64_small by (unfold valid_in, iend in Hv; simpl in Hv; dm_lia). lia.
Qed.

(** The successful case of [Release], from the owner it found. *)
Lemma release_window d r start len :
  dm_ok d -> r ∈ allocations_ d -> istart r <= start -> 0 < len -> start + len <= iend r ->
  let a1 := om_erase (istart r) (allocations_ d) in
  let a2 := if istart r <? start
            then om_emplace (istart r) (mkAllocation (start - istart r) (al_memory_type r.2)) a1
            else a1 in
  let a3 := if start + len <? iend r
            then om_emplace (start + len)
                   (mkAllocation (iend r - start - len) (al_memory_type r.2)) a2
            else a2 in
  let d' := mkDirectMemory a3 (DirectMemory_AddFreeRange start len (free_ranges_ d))
              (mappings_ d) (Backing_Clear (backing_ d) start len) in
  dm_ok d' /\
  (forall a, covered (free_ranges_ d') a <-> covered (free_ranges_ d) a \/ start <= a < start + len) /\
  (forall e, e ∈ a3 <-> e ∈ allocations_ d /\ istart e <> istart r \/
     e ∈ leftovers r (fun n => mkAllocation n (al_memory_type r.2)) start len).
Proof.
  intros Hd Hr Hs Hlen He. cbn zeta.
  pose proof (fl_valid _ _ _ _ (do_allocs _ Hd) r Hr) as (Q1 & Q2 & Q3).
  destruct (carve_window 0 0 kDirectMemorySize (allocations_ d) r
    (fun n => mkAllocation n (al_memory_type r.2)) start len ltac:(done) ltac:(lia)
    (do_allocs _ Hd) Hr Hs Hlen He) as (Ha & Hca & Hel).
  destruct (AddFreeRange_spec (free_ranges_ d) start len (do_free _ Hd)) as (Hf & Hcf);
    [lia|done|lia| |].
  { intros f Hf. pose proof (fl_valid _ _ _ _ (do_free _ Hd) f Hf) as (P1 & P2 & P3).
    destruct (free_alloc_apart d r (istart f) (isize f) Hd Hr P2 P1) as [Hx|Hx].
    - intros a Hin. exists f. split; [done|]. unfold inside, iend. lia.
    - right. unfold iend in *. lia.
    - left. unfold iend in *. lia. }
  destruct (do_backing _ Hd) as [Hb Hbs].
  split_and!; [|done|done]. split; cbn [allocations_ free_ranges_ mappings_ backing_]; try done.
  - intros a Hin. rewrite Hca, Hcf, (do_partition _ Hd a Hin).
    destruct (decide (start <= a < start + len)); [|tauto].
    split; [by intros [_ ?]|]. intros Hn. destruct Hn. by right.
  - apply Hd.
  - apply Hd.
  - split; [apply Clear_spec; try done; lia|]. unfold Backing_Clear. by split_match.
Qed.

(** [Release] either refuses and changes nothing, or frees a window of the
    allocation that owns it. *)
Lemma Release_cases d start len :
  dm_ok d -> 0 <= start -> 0 <= len ->
  ((DirectMemory_Release start len d).1 = d /\ (DirectMemory_Release start len d).2 <> kOk) \/
  exists r, r ∈ allocations_ d /\ istart r <= start /\ 0 < len /\ start + len <= iend r /\
    (forall m, m ∈ mappings_ d -> dm_physical_address m + dm_size m <= start \/
       start + len <= dm_physical_address m) /\
    (DirectMemory_Release start len d).2 = kOk /\
    (DirectMemory_Release start len d).1 =
      let a1 := om_erase (istart r) (allocations_ d) in
      let a2 := if istart r <? start
                then om_emplace (istart r) (mkAllocation (start - istart r) (al_memory_type r.2)) a1
                else a1 in
      let a3 := if start + len <? iend r
                then om_emplace (start + len)
                       (mkAllocation (iend r - start - len) (al_memory_type r.2)) a2
                else a2 in
      mkDirectMemory a3 (DirectMemory_AddFreeRange start len (free_ranges_ d))
        (mappings_ d) (Backing_Clear (backing_ d) start len).
Proof.
  intros Hd Hs Hl. unfold DirectMemory_Release.
  destruct ((len =? 0) || (start >=? kDirectMemorySize)) eqn:E1; [by left|]. simpl.
  rewrite sub64_small by dm_lia.
  destruct (len >? kDirectMemorySize - start) eqn:E2; [by left|].
  destruct (HasMappedPhysicalOverlapLocked start len d) eqn:Eo; [by left|].
  pose proof (owner_of_spec d start (do_allocs _ Hd)) as Hown.
  destruct (owner_of start d) as [[os o]|]; [|by left].
  destruct Hown as (Hr & Hos & _). simpl in Hos.
  pose proof (fl_valid _ _ _ _ (do_allocs _ Hd) _ Hr) as (Q1 & Q2 & Q3).
  assert (Hoe : iend (os, o) = os + al_size o) by done. rewrite Hoe in Q3. simpl in Q1, Q2.
  change (size_of o) with (al_size o) in Q2.
  rewrite !add64_small by dm_lia.
  destruct ((start <? os) || (start + len >? os + al_size o)) eqn:E3; [by left|].
  destruct ((start >? os) && _ && _) eqn:E4; [by left|]. right.
  exists (os, o). split_and!; [done|done|lia|rewrite Hoe; lia| |done|].
  - intros m Hm. apply (overlap_false d); try done. lia.
  - cbn zeta. rewrite Hoe. cbn [istart keyed_interval fst snd].
    rewrite (sub64_small start os) by dm_lia. rewrite (sub64_small (os + al_size o)) by dm_lia.
    replace (os + al_size o - (start + len)) with (os + al_size o - start - len) by lia. done.
Qed.

Lemma Release_ok d start len :
  dm_ok d -> 0 <= start -> 0 <= len -> dm_ok (DirectMemory_Release start len d).1.
Proof.
  intros Hd Hs Hl.
  destruct (Release_cases d start len Hd Hs Hl) as [[-> _]|(r & Hr & H1 & H2 & H3 & _ & _ & ->)];
    [done|]. by apply release_window.
Qed.

(** A mapping clear of the released window keeps an allocation around it. *)
Lemma Release_backed d start len :
  dm_ok d -> 0 <= start -> 0 <= len -> all_backed d ->
  all_backed (DirectMemory_Release start len d).1.
Proof.
  intros Hd Hs Hl Hb.
  destruct (Release_cases d start len Hd Hs Hl) as [[-> _]|(r & Hr & H1 & H2 & H3 & Hm & _ & ->)];
    [done|].
  destruct (release_window d r start len Hd Hr H1 H2 H3) as (_ & _ & Hel).
  intros m Hin. cbn [allocations_ mappings_] in *.
  destruct (do_mapped _ Hd m Hin) as (Hv & _).
  assert (Hsz : 0 < dm_size m) by (by destruct Hv as (_ & ? & _)).
  destruct (Hb m Hin) as (r0 & Hr0 & Hlo & Hhi).
  destruct (decide (istart r0 = istart r)) as [Heq|Hne].
  - pose proof (fl_unique _ _ _ _ _ _ (do_allocs _ Hd) Hr0 Hr Heq). subst r0.
    set (mk := fun n => mkAllocation n (al_memory_type r.2)) in *.
    destruct (Hm m Hin) as [Hle|Hge].
    + exists (istart r, mk (start - istart r)). split_and!.
      * apply Hel. right. apply leftovers_elem. left. split; [lia|done].
      * done.
      * unfold iend. simpl. change (size_of (mk (start - r.1))) with (start - r.1).
        simpl in *. lia.
    + exists (start + len, mk (iend r - start - len)). split_and!.
      * apply Hel. right. apply leftovers_elem. right. split; [lia|done].
      * done.
      * set (n := iend r - start - len).
        change (iend (start + len, mk n)) with (start + len + n). lia.
  - exists r0. split_and!; [|done|done]. apply Hel. by left.
Qed.

(** [Release] frees exactly what it is asked to or nothing.  It never
    releases memory that is mapped: it succeeds only for a non-empty range
    inside one allocation that no mapping overlaps, and then exactly that range
    becomes free, its bytes read as zero, what is left of the allocation keeps
    its type, and every other allocation, mapping and byte is unchanged.  A
    refusal changes nothing. *)
Theorem Release_exact d start len :
  dm_ok d -> 0 <= start -> 0 <= len ->
  let '(d', st) := DirectMemory_Release start len d in
  if status_eqb st kOk then
    exists r, r ∈ allocations_ d /\ istart r <= start /\ 0 < len /\ start + len <= iend r /\
      (forall m, m ∈ mappings_ d -> dm_physical_address m + dm_size m <= start \/
         start + len <= dm_physical_address m) /\
      (forall a, covered (free_ranges_ d') a <->
         covered (free_ranges_ d) a \/ start <= a < start + len) /\
      (forall e, e ∈ allocations_ d' <-> e ∈ allocations_ d /\ istart e <> istart r \/
         e ∈ leftovers r (fun n => mkAllocation n (al_memory_type r.2)) start len) /\
      (forall a, 0 <= a < kDirectMemorySize -> backing_byte (backing_ d') a =
         if decide (start <= a < start + len) then 0 else backing_byte (backing_ d) a) /\
      mappings_ d' = mappings_ d
  else d' = d.
Proof.
  intros Hd Hs Hl. pose proof (Release_cases d start len Hd Hs Hl) as Hc.
  destruct (DirectMemory_Release start len d) as [d' st]. simpl in Hc.
  destruct Hc as [[-> Hne]|(r & Hr & H1 & H2 & H3 & Hm & -> & ->)].
  - destruct (status_eqb st kOk) eqn:E; [|done]. by apply bool_decide_eq_true in E.
  - simpl (status_eqb kOk kOk). cbn iota.
    destruct (release_window d r start len Hd Hr H1 H2 H3) as (_ & Hcov & Hel).
    destruct (do_backing _ Hd) as [Hb Hbs].
    pose proof (fl_valid _ _ _ _ (do_allocs _ Hd) r Hr) as (Q1 & Q2 & Q3).
    exists r. split_and!; try done. intros a Ha. cbn [backing_].
    apply Clear_spec; try done; rewrite Hbs; lia.
Qed.

(** ** Mappings *)

(** The physical offset a guest address maps to. *)
#[export] Instance mapping_denote : Denote DirectMemoryMapping Z := fun m a =>
  (dm_physical_address m + (a - dm_guest_address m)) mod u64_modulus.

#[export] Instance mapping_carve_laws : CarveLaws DirectMemoryMapping Z.
Proof.
  assert (Hm : u64_modulus = u64_max + 1) by (rewrite u64_max_eq, u64_modulus_eq; done).
  split; intros r x Hs He Hx; destruct r as [g p sz]; unfold inside, iend in *; simpl in *;
    (assert (Hx' : 0 <= x - g <= sz) by lia).
  - rewrite (sub64_small x g) by lia. rewrite sub64_small by lia.
    split_and!; [done|lia|]. intros a Ha.
    unfold imean, mapping_denote. simpl. unfold add64. rewrite Zplus_mod_idemp_l. f_equal. lia.
  - rewrite sub64_small by lia. split_and!; [done|lia|]. done.
  - assert (Hie : iend64 (mkMapping g p sz) = g + sz)
      by (unfold iend64; simpl; apply add64_small; lia).
    rewrite Hie, sub64_small by lia. split_and!; [done|lia|]. intros a Ha.
    unfold imean, mapping_denote. simpl. unfold add64, sub64.
    rewrite Zminus_mod_idemp_l, Zplus_mod_idemp_l. f_equal. lia.
Qed.

Lemma disjoint_sym {A} `{Interval A} (x y : A) : disjoint_from x y -> disjoint_from y x.
Proof. unfold disjoint_from. tauto. Qed.

Lemma StronglySorted_weaken {A} (R S : relation A) l :
  (forall x y, R x y -> S x y) -> StronglySorted R l -> StronglySorted S l.
Proof.
  intros Hi. induction 1 as [|x l _ IH Hx]; constructor; [done|].
  eapply Forall_impl; [exact Hx|]. auto.
Qed.

(** Cutting a window out of ranges that are disjoint but in any order. *)
Lemma disjoint_carve {A B} `{CarveLaws A B} lo hi wlo whi (l : list A) :
  0 <= lo -> hi <= u64_max -> wlo < whi ->
  StronglySorted disjoint_from l -> (forall r, r ∈ l -> valid_in lo hi r) ->
  StronglySorted disjoint_from (carve wlo whi l) /\
  (forall r, r ∈ carve wlo whi l -> valid_in lo hi r) /\
  forall a, content (carve wlo whi l) a =
    if decide (wlo <= a < whi) then None else content l a.
Proof.
  intros Hlo Hhi Hw. rewrite carve_eq. induction l as [|r l IH]; intros Hs Hv; simpl flat_map.
  { split_and!; [constructor|by intros ? ?%elem_of_nil|]. intros a. by case_decide. }
  apply StronglySorted_inv in Hs as [Hs Hr]. rewrite Forall_forall in Hr.
  destruct IH as (Hs' & Hv' & Hc'); [done|intros x Hx; apply Hv, elem_of_cons; by right|].
  pose proof (Hv r (list_elem_of_here _ _)) as Hvr.
  destruct (carve_one_ok lo hi wlo whi r Hlo Hhi Hvr Hw) as [[Hps Hpv] Hpc].
  rewrite Forall_forall in Hpv.
  assert (Hpiece : forall x, x ∈ flat_map (carve_one wlo whi) l ->
            exists m, m ∈ l /\ valid_in (istart m) (iend m) x).
  { intros x (m & Hm & Hx)%flat_map_elem. exists m. split; [done|].
    destruct (carve_one_ok lo hi wlo whi m Hlo Hhi
      ltac:(apply Hv, elem_of_cons; by right) Hw) as [[_ Hmv] _].
    rewrite Forall_forall in Hmv. by apply Hmv. }
  split_and!.
  - apply StronglySorted_app_2; [| |done].
    + intros x y Hx Hy. apply Hpv in Hx. apply Hpiece in Hy as (m & Hm & Hy).
      specialize (Hr m Hm). unfold disjoint_from, valid_in in *. lia.
    + eapply StronglySorted_weaken; [|exact Hps]. unfold before, disjoint_from. auto.
  - intros x [Hx|Hx]%elem_of_app; [|by apply Hv']. apply Hpv in Hx. unfold valid_in in *. lia.
  - intros a. unfold content in *. rewrite range_at_app, range_at_cons.
    destruct (decide (inside r a)) as [Hin|Hin].
    + specialize (Hpc a Hin). destruct (range_at (carve_one wlo whi r) a) eqn:E.
      * simpl in *. rewrite Hpc. done.
      * simpl in *. case_decide; [|done]. rewrite range_at_absent; [done|].
        intros x Hx Hxa. apply Hpiece in Hx as (m & Hm & Hmx). specialize (Hr m Hm).
        unfold disjoint_from, valid_in, inside in *. lia.
    + rewrite (range_at_outside (istart r) (iend r)); [|by split; [|apply Forall_forall]|done].
      apply Hc'.
Qed.

Lemma carve_one_physical wlo whi m x :
  valid_in 1 u64_max m -> 0 <= dm_physical_address m ->
  dm_physical_address m + dm_size m <= kDirectMemorySize -> x ∈ carve_one wlo whi m ->
  dm_physical_address m <= dm_physical_address x /\
  dm_physical_address x + dm_size x <= dm_physical_address m + dm_size m.
Proof.
  intros Hv Hp Hpe. destruct m as [g p sz]. unfold valid_in, iend in Hv. simpl in *.
  assert (Hmax : kDirectMemorySize <= u64_max) by dm_lia.
  assert (Hie : iend64 (mkMapping g p sz) = g + sz)
    by (unfold iend64; simpl; apply add64_small; lia).
  unfold carve_one. rewrite Hie. simpl. rewrite ?Hie.
  set (os := Z.max wlo g). set (oe := Z.min whi (g + sz)).
  repeat split_match; rewrite ?elem_of_cons, ?elem_of_nil;
    intros Hx; repeat destruct Hx as [->|Hx]; try done; simpl.
  - rewrite (sub64_small oe g) by lia. rewrite add64_small, sub64_small by lia. lia.
  - rewrite sub64_small by lia. lia.
  - rewrite sub64_small by lia. lia.
  - destruct (decide (p + oe <= u64_max)).
    + rewrite (add64_small p oe) by lia. rewrite !sub64_small by lia. lia.
    + assert (Hw : ((p + oe)%u64 - g)%u64 = p + oe - g).
      { unfold add64, sub64. rewrite Zminus_mod_idemp_l. apply Z.mod_small.
        pose proof u64_max_eq. pose proof u64_modulus_eq. lia. }
      rewrite Hw, sub64_small by lia. lia.
Qed.

Lemma Unregister_spec d guest len :
  dm_ok d -> 0 <= guest -> 0 < len -> guest + len <= u64_max ->
  dm_ok (UnregisterMappings guest len d) /\
  forall a, content (mappings_ (UnregisterMappings guest len d)) a =
    if decide (guest <= a < guest + len) then None else content (mappings_ d) a.
Proof.
  intros Hd Hg Hl Hu. unfold UnregisterMappings.
  rewrite sub64_small by lia. rewrite !add64_small by lia.
  replace ((len =? 0) || (len >? u64_max - guest)) with false by lia.
  destruct (disjoint_carve 1 u64_max guest (guest + len) (mappings_ d) ltac:(lia) ltac:(lia)
    ltac:(lia) (do_disjoint _ Hd) ltac:(intros m Hm; by apply Hd)) as (Hs & Hv & Hc).
  split; [|exact Hc]. split; cbn [allocations_ free_ranges_ mappings_ backing_]; try apply Hd; [done|].
  intros x Hx. split; [by apply Hv|]. rewrite carve_eq in Hx.
  apply flat_map_elem in Hx as (m & Hm & Hx). destruct (do_mapped _ Hd m Hm) as (Hvm & Hp & Hpe).
  pose proof (carve_one_physical _ _ _ _ Hvm Hp Hpe Hx). lia.
Qed.

Lemma Unregister_ok d guest len :
  dm_ok d -> is_u64 guest -> 0 <= len -> dm_ok (UnregisterMappings guest len d).
Proof.
  intros Hd Hg Hl. unfold is_u64 in Hg.
  destruct (decide (0 < len /\ guest + len <= u64_max)) as [[H1 H2]|Hn].
  - apply Unregister_spec; try done; lia.
  - unfold UnregisterMappings. rewrite sub64_small by lia.
    by replace ((len =? 0) || (len >? u64_max - guest)) with true by lia.
Qed.

Lemma Unregister_backed d guest len :
  dm_ok d -> all_backed d -> all_backed (UnregisterMappings guest len d).
Proof.
  intros Hd Hb. unfold UnregisterMappings. split_match; [done|].
  intros x Hx. cbn [mappings_ allocations_] in *. rewrite carve_eq in Hx.
  apply flat_map_elem in Hx as (m & Hm & Hx). destruct (do_mapped _ Hd m Hm) as (Hvm & Hp & Hpe).
  pose proof (carve_one_physical _ _ _ _ Hvm Hp Hpe Hx).
  destruct (Hb m Hm) as (r & Hr & Hin). exists r. split; [done|]. lia.
Qed.

(** ** Checking that a range is allocated *)

(** What the check computes: the subtraction from the owner's end wraps when
    the range starts behind that end. *)
Lemma ContainsAllocatedLocked_iff d x len :
  dm_ok d -> 0 <= x -> 0 < len -> x + len <= kDirectMemorySize ->
  ContainsAllocatedRangeLocked x len d = true <->
  exists r, owner_of x d = Some r /\ (x + len <= iend r \/ iend r < x).
Proof.
  intros Hd Hx Hlen Hle. unfold ContainsAllocatedRangeLocked.
  pose proof (owner_of_spec d x (do_allocs _ Hd)) as Hown.
  destruct (owner_of x d) as [[s o]|]; [|split; [done|by intros (? & ? & _)]].
  destruct Hown as (Hr & Hs & _). simpl in Hs.
  pose proof (fl_valid _ _ _ _ (do_allocs _ Hd) _ Hr) as (Q1 & Q2 & Q3).
  assert (Hoe : iend (s, o) = s + al_size o) by done.
  change (isize (s, o)) with (al_size o) in Q2. simpl in Q1.
  assert (Hmax : kDirectMemorySize <= u64_max) by dm_lia.
  rewrite add64_small by lia. replace (x >=? s) with true by lia. simpl.
  assert (Heq : (exists r, Some (s, o) = Some r /\ (x + len <= iend r \/ iend r < x)) <->
            x + len <= s + al_size o \/ s + al_size o < x).
  { rewrite <- Hoe. split; [by intros (r & [= <-] & ?)|]. intros Hc. by exists (s, o). }
  rewrite Heq, Z.leb_le. destruct (decide (x <= s + al_size o)).
  - rewrite sub64_small by lia. lia.
  - unfold sub64. replace ((s + al_size o - x) mod u64_modulus) with (s + al_size o - x + u64_modulus).
    + pose proof u64_modulus_eq. dm_lia.
    + rewrite <- (Z.mod_add _ 1) by (rewrite u64_modulus_eq; lia). symmetry.
      rewrite Z.mul_1_l. apply Z.mod_small. pose proof u64_modulus_eq. dm_lia.
Qed.

Lemma ContainsAllocated_guard d x len :
  0 <= x -> 0 < len -> x + len <= kDirectMemorySize ->
  ContainsAllocatedRange x len d = ContainsAllocatedRangeLocked x len d.
Proof.
  intros Hx Hlen Hle. unfold ContainsAllocatedRange. rewrite sub64_small by dm_lia.
  by replace ((len =? 0) || (x >=? kDirectMemorySize) || (len >? kDirectMemorySize - x))
    with false by lia.
Qed.

(** The owner of an allocated offset is the allocation around it. *)
Lemma owner_of_covered d r x :
  dm_ok d -> r ∈ allocations_ d -> inside r x -> owner_of x d = Some r.
Proof.
  intros Hd Hr Hin. pose proof (owner_of_spec d x (do_allocs _ Hd)) as Hown.
  destruct (owner_of x d) as [r0|].
  - destruct Hown as (Hr0 & Hs & Hbefore). f_equal.
    destruct (decide (istart r0 = istart r)) as [Heq|Hne].
    + by apply (fl_unique _ _ _ _ _ _ (do_allocs _ Hd) Hr0 Hr).
    + specialize (Hbefore r Hr ltac:(unfold inside in Hin; lia) ltac:(done)).
      unfold inside in Hin. lia.
  - specialize (Hown r Hr). unfold inside in Hin. lia.
Qed.

(** For a range that starts at an allocated offset, the allocation check is
    exact: it holds iff the whole range lies inside the allocation that owns
    its first byte. *)
Theorem ContainsAllocatedRange_exact d r x len :
  dm_ok d -> r ∈ allocations_ d -> inside r x -> 0 < len -> x + len <= kDirectMemorySize ->
  ContainsAllocatedRange x len d = true <-> x + len <= iend r.
Proof.
  intros Hd Hr Hin Hlen Hle.
  pose proof (fl_valid _ _ _ _ (do_allocs _ Hd) r Hr) as (Q1 & _).
  assert (0 <= x) by (unfold inside in Hin; lia).
  rewrite ContainsAllocated_guard by done. rewrite ContainsAllocatedLocked_iff by done.
  rewrite (owner_of_covered d r x) by done. unfold inside in Hin. split.
  - intros (r0 & [= <-] & Hc). lia.
  - intros Hc. exists r. split; [done|by left].
Qed.

Lemma RegisterMapping_cases d g p len :
  dm_ok d -> is_u64 g -> 0 <= p -> 0 <= len ->
  ((RegisterMapping g p len d).1 = d) \/
  0 < g /\ 0 < len /\ g + len <= u64_max /\ p + len <= kDirectMemorySize /\
    ContainsAllocatedRangeLocked p len d = true /\
    (forall m, m ∈ mappings_ d -> disjoint_from (mkMapping g p len) m) /\
    (RegisterMapping g p len d).1 =
      mkDirectMemory (allocations_ d) (free_ranges_ d)
        (mappings_ d ++ [mkMapping g p len]) (backing_ d).
Proof.
  intros Hd Hg Hp Hl. unfold is_u64 in Hg. unfold RegisterMapping.
  rewrite (sub64_small u64_max g) by lia.
  destruct ((g =? 0) || (len =? 0) || (len >? u64_max - g) || (p >=? kDirectMemorySize)) eqn:E1;
    [by left|]. simpl. rewrite sub64_small by dm_lia.
  destruct (len >? kDirectMemorySize - p) eqn:E2; [by left|].
  destruct (ContainsAllocatedRangeLocked p len d) eqn:Ec; [|by left]. simpl.
  split_match; [by left|]. rewrite add64_small by lia.
  destruct (existsb _ _) eqn:Ex; [by left|]. right. split_and!; try done; try lia.
  intros m Hm. apply not_true_iff_false in Ex. rewrite existsb_exists in Ex.
  destruct (do_mapped _ Hd m Hm) as ((V1 & V2 & V3) & _).
  destruct (decide (disjoint_from (mkMapping g p len) m)) as [|Hn]; [done|exfalso].
  apply Ex. exists m. rewrite <- list_elem_of_In. split; [done|].
  rewrite iend64_ok by lia. unfold disjoint_from, iend in *. simpl in *. lia.
Qed.

Lemma RegisterMapping_ok d g p len :
  dm_ok d -> is_u64 g -> 0 <= p -> 0 <= len -> dm_ok (RegisterMapping g p len d).1.
Proof.
  intros Hd Hg Hp Hl.
  destruct (RegisterMapping_cases d g p len Hd Hg Hp Hl)
    as [->|(H1 & H2 & H3 & H4 & _ & Hdis & ->)]; [done|].
  split; cbn [allocations_ free_ranges_ mappings_ backing_]; try apply Hd.
  - apply StronglySorted_app_2; [|apply Hd|repeat constructor].
    intros x y Hx ->%list_elem_of_singleton. by apply disjoint_sym, Hdis.
  - intros m [Hm| ->%list_elem_of_singleton]%elem_of_app; [by apply Hd|].
    unfold valid_in, iend. simpl. lia.
Qed.

Lemma RegisterMapping_backed d g p len :
  dm_ok d -> is_u64 g -> 0 <= p -> 0 <= len -> covered (allocations_ d) p ->
  all_backed d -> all_backed (RegisterMapping g p len d).1.
Proof.
  intros Hd Hg Hp Hl (r & Hr & Hin) Hb.
  destruct (RegisterMapping_cases d g p len Hd Hg Hp Hl)
    as [->|(H1 & H2 & H3 & H4 & Hc & _ & ->)]; [done|].
  intros m [Hm| ->%list_elem_of_singleton]%elem_of_app; [by apply Hb|].
  exists r. rewrite (ContainsAllocatedLocked_iff d p len) in Hc by done.
  destruct Hc as (r0 & Hown & Hc). rewrite (owner_of_covered d r p) in Hown by done.
  injection Hown as <-. unfold inside in Hin.
  cbn [dm_physical_address dm_size]. split_and!; [done|lia|lia].
Qed.

(** C23: the allocation check accepts unallocated memory.  When a range starts
    behind the end of the nearest allocation below it, the subtraction of the
    check wraps around and the check succeeds, although no byte at the start of
    the range is allocated; a mapping of that range is then registered. *)
Theorem ContainsAllocatedRange_wraps d r x len g :
  dm_ok d -> owner_of x d = Some r -> iend r < x -> 0 < len -> x + len <= kDirectMemorySize ->
  0 < g -> g + len <= u64_max -> mappings_ d = [] ->
  ContainsAllocatedRange x len d = true /\ ~ covered (allocations_ d) x /\
  (RegisterMapping g x len d).2 = kOk /\ ~ all_backed (RegisterMapping g x len d).1.
Proof.
  intros Hd Hown Hlt Hlen Hle Hg Hgl Hm.
  pose proof (owner_of_spec d x (do_allocs _ Hd)) as Hspec. rewrite Hown in Hspec.
  destruct Hspec as (Hr & Hs & Hbefore).
  pose proof (fl_valid _ _ _ _ (do_allocs _ Hd) r Hr) as (Q1 & Q2 & Q3).
  assert (Hx : 0 <= x) by (unfold iend in *; lia).
  assert (Hc : ContainsAllocatedRangeLocked x len d = true)
    by (apply ContainsAllocatedLocked_iff; try done; exists r; split; [done|by right]).
  assert (Hnc : ~ covered (allocations_ d) x).
  { intros (r' & Hr' & Hin). rewrite (owner_of_covered d r' x) in Hown by done.
    injection Hown as ->. unfold inside in Hin. lia. }
  assert (Hreg : RegisterMapping g x len d =
    (mkDirectMemory (allocations_ d) (free_ranges_ d) [mkMapping g x len] (backing_ d), kOk)).
  { unfold RegisterMapping. rewrite (sub64_small u64_max g) by lia. rewrite sub64_small by dm_lia.
    replace ((g =? 0) || (len =? 0) || (len >? u64_max - g) || (x >=? kDirectMemorySize)
             || (len >? kDirectMemorySize - x)) with false by lia.
    by rewrite Hc, Hm. }
  split_and!; [by rewrite ContainsAllocated_guard|done|by rewrite Hreg|].
  rewrite Hreg. intros Hb. destruct (Hb _ (list_elem_of_here _ _)) as (r' & Hr' & H1 & H2).
  cbn [dm_physical_address dm_size allocations_] in *. apply Hnc. exists r'. split; [done|].
  unfold inside. lia.
Qed.

(** ** Every call of the service *)

(** With [careful = true], mappings are registered only at allocated offsets. *)
Inductive dm_step (careful : bool) : DirectMemoryService -> DirectMemoryService -> Prop :=
| DmAllocate ss se len al ty d :
    0 <= ss -> 0 <= len -> 0 <= al -> dm_step careful d (DirectMemory_Allocate ss se len al ty d).1
| DmRelease start len d :
    0 <= start -> 0 <= len -> dm_step careful d (DirectMemory_Release start len d).1
| DmRegister g p len d :
    is_u64 g -> 0 <= p -> 0 <= len -> (careful = true -> covered (allocations_ d) p) ->
    dm_step careful d (RegisterMapping g p len d).1
| DmUnregister g len d :
    is_u64 g -> 0 <= len -> dm_step careful d (UnregisterMappings g len d).

Lemma dm_step_ok careful d d' :
  dm_step careful d d' -> dm_ok d -> (careful = true -> all_backed d) ->
  dm_ok d' /\ (careful = true -> all_backed d').
Proof.
  destruct 1 as [ss se len al ty d|start len d|g p len d Hg Hp Hl Hc|g len d]; intros Hd Hb.
  - split; [by apply Allocate_ok|]. intros Hcar. apply Allocate_backed; auto.
  - split; [by apply Release_ok|]. intros Hcar. apply Release_backed; auto.
  - split; [by apply RegisterMapping_ok|]. intros Hcar. apply RegisterMapping_backed; auto.
  - split; [by apply Unregister_ok|]. intros Hcar. apply Unregister_backed; auto.
Qed.

(** C18: in every state the direct-memory service can reach, allocations and free
    ranges partition the pool exactly (each offset is in one allocation or in
    one free range, never both, never neither), free ranges are fully
    coalesced, and registered mappings are disjoint in guest space and inside
    the pool; and if mappings are registered at allocated offsets, every
    mapping stays backed by one allocation, so mapped memory is never free. *)
Theorem direct_memory_invariant careful d :
  rtc (dm_step careful) DirectMemoryService_init d ->
  dm_ok d /\ (careful = true -> all_backed d).
Proof.
  intros Hr. assert (Hi : dm_ok DirectMemoryService_init /\
    (careful = true -> all_backed DirectMemoryService_init)).
  { split; [apply init_ok|]. intros _ m Hm. by apply elem_of_nil in Hm. }
  revert Hr Hi. generalize DirectMemoryService_init. intros d0 Hr.
  induction Hr as [|d1 d2 d3 Hs _ IH]; [done|]. intros [H1 H2]. apply IH.
  by eapply dm_step_ok.
Qed.

(** Unregistering a guest range removes exactly that range from the
    translation from guest to physical addresses: inside it nothing is mapped
    any more, outside it every address translates as before, whatever number of
    mappings the range cuts, shortens or splits. *)
Theorem UnregisterMappings_exact d g len :
  dm_ok d -> 0 <= g -> 0 < len -> g + len <= u64_max ->
  forall a, content (mappings_ (UnregisterMappings g len d)) a =
    if decide (g <= a < g + len) then None else content (mappings_ d) a.
Proof. intros Hd Hg Hl Hu. by apply Unregister_spec. Qed.
