(* ===== verification/GuestMemory.v ===== *)
(** [memory::GuestMemory] ([src/core/memory/guest_memory.cpp], [guest_memory.h]).

    The guest address space: a window of bytes, a table of mapped regions with
    protections, a parallel table of mapping identities (generations), a table
    of mappings onto shared backings, and the coherence log of write events.
    This file holds the state and every operation; [GuestMemoryMap] proves the
    mapping operations correct and [GuestMemoryData] the data path.

    [mapping_mutex_] makes each operation one transition.  The host calls that
    change page protections ([mprotect], [VirtualProtect]) are the class
    [HostMemory]: the success of the n-th call.  The test-only fault and
    synchronisation hooks are off. *)
From S2P Require Import Prelude Ranges SharedBacking.

(** The host: does the [n]-th [ProtectHostMapping] call succeed? *)
Class HostMemory := host_protect : nat -> bool.

(** ** Protections and generations *)

(** [GuestMemoryProtection] is a byte of flags. *)
Definition kNone : Z := 0.
Definition kRead : Z := 1.
Definition kWrite : Z := 2.
Definition kExecute : Z := 4.
Definition kGpuRead : Z := 0x10.
Definition kGpuWrite : Z := 0x20.
Definition kAllProtectionBits : Z :=
  Z.lor (Z.lor (Z.lor (Z.lor kRead kWrite) kExecute) kGpuRead) kGpuWrite.

Definition IsValidProtection (protection : Z) : bool :=
  Z.ldiff protection kAllProtectionBits =? 0.

Record GuestMemoryGeneration := mkGeneration { gen_epoch : Z; gen_sequence : Z }.

#[global] Instance GuestMemoryGeneration_eq_dec : EqDecision GuestMemoryGeneration.
Proof. solve_decision. Defined.

(** [None] is the return value [false]; the generation is then unchanged. *)
Definition AdvanceGuestMemoryGeneration (g : GuestMemoryGeneration)
    : option GuestMemoryGeneration :=
  if negb (gen_sequence g =? u64_max)
  then Some (mkGeneration (gen_epoch g) (gen_sequence g + 1)%u64)
  else if gen_epoch g =? u64_max then None
  else Some (mkGeneration (gen_epoch g + 1)%u64 1).

(** The defaulted [operator<=>]: lexicographic. *)
Definition gen_ltb (a b : GuestMemoryGeneration) : bool :=
  (gen_epoch a <? gen_epoch b)
  || ((gen_epoch a =? gen_epoch b) && (gen_sequence a <? gen_sequence b)).

Definition gen_max (a b : GuestMemoryGeneration) : GuestMemoryGeneration :=
  if gen_ltb a b then b else a.

(** ** State *)

Record GuestMemoryRegion := mkRegion { rg_address : Z; rg_size : Z; rg_protection : Z }.

Record MappingIdentityRegion := mkIdentity {
  id_address : Z; id_size : Z; id_generation : GuestMemoryGeneration
}.

(** [sm_backing] is the shared pointer: a reference into the store of backings. *)
Record SharedMapping := mkShared {
  sm_address : Z; sm_size : Z; sm_backing_offset : Z; sm_backing : Z
}.

Record GuestMemoryWriteEvent := mkWriteEvent {
  we_address : Z; we_size : Z; we_generation : GuestMemoryGeneration; we_exhausted : bool
}.

Record GuestMemory := mkGuestMemory {
  base_address_ : Z;
  storage_size_ : Z;
  mapping_granularity_ : Z;
  host_mapped : bool;
  (** [bytes_], or the bytes of the host mapping *)
  bytes_ : list Z;
  regions_ : list GuestMemoryRegion;
  mapping_identity_regions_ : list MappingIdentityRegion;
  shared_mappings_ : list SharedMapping;
  (** the objects behind [SharedMapping::backing] *)
  backings : gmap Z SharedMemoryBacking;
  write_generation_ : GuestMemoryGeneration;
  next_mapping_generation_ : GuestMemoryGeneration;
  write_generation_exhausted_ : bool;
  mapping_generation_exhausted_ : bool;
  (** the events handed to the observer, in order *)
  events : list GuestMemoryWriteEvent;
  host_calls : nat
}.

#[export] Instance region_interval : Interval GuestMemoryRegion :=
  {| istart := rg_address; isize := rg_size |}.
#[export] Instance identity_interval : Interval MappingIdentityRegion :=
  {| istart := id_address; isize := id_size |}.
#[export] Instance shared_interval : Interval SharedMapping :=
  {| istart := sm_address; isize := sm_size |}.

(** The in-place edits of [Unmap]'s loops. *)
#[export] Instance identity_carve : Carve MappingIdentityRegion := {|
  advance_to r x := mkIdentity x (id_size r - (x - id_address r)%u64)%u64 (id_generation r);
  shrink_to r x := mkIdentity (id_address r) (x - id_address r)%u64 (id_generation r);
  suffix_from r x := mkIdentity x (iend64 r - x)%u64 (id_generation r)
|}.

#[export] Instance shared_carve : Carve SharedMapping := {|
  advance_to r x :=
    let removed := (x - sm_address r)%u64 in
    mkShared x (sm_size r - removed)%u64 (sm_backing_offset r + removed)%u64 (sm_backing r);
  shrink_to r x := mkShared (sm_address r) (x - sm_address r)%u64 (sm_backing_offset r)
                     (sm_backing r);
  suffix_from r x := mkShared x (iend64 r - x)%u64
                       (sm_backing_offset r + (x - sm_address r)%u64)%u64 (sm_backing r)
|}.

(** ** Coalescing *)

(** [CoalesceRegions] and [CoalesceMappingIdentityRegions] share one shape:
    [previous] grows over [current] when they touch and agree. *)
Class Coalesce (A : Type) `{Interval A} := {
  agree : A -> A -> bool;
  grow : A -> A -> A
}.

#[export] Instance region_coalesce : Coalesce GuestMemoryRegion := {|
  agree p c := rg_protection p =? rg_protection c;
  grow p c := mkRegion (rg_address p) (rg_size p + rg_size c)%u64 (rg_protection p)
|}.

#[export] Instance identity_coalesce : Coalesce MappingIdentityRegion := {|
  agree p c := bool_decide (id_generation p = id_generation c);
  grow p c := mkIdentity (id_address p) (id_size p + id_size c)%u64 (id_generation p)
|}.

Fixpoint coalesce_from {A} `{Coalesce A} (previous : A) (rest : list A) : list A :=
  match rest with
  | [] => [previous]
  | current :: rest' =>
      if (iend64 previous =? istart current) && agree previous current
      then coalesce_from (grow previous current) rest'
      else previous :: coalesce_from current rest'
  end.

Definition coalesce {A} `{Coalesce A} (l : list A) : list A :=
  match l with [] => [] | r :: rest => coalesce_from r rest end.

(** ** Record updates *)

Definition with_tables m r i s :=
  mkGuestMemory (base_address_ m) (storage_size_ m) (mapping_granularity_ m) (host_mapped m)
    (bytes_ m) r i s (backings m) (write_generation_ m) (next_mapping_generation_ m)
    (write_generation_exhausted_ m) (mapping_generation_exhausted_ m) (events m) (host_calls m).

Definition with_bytes m b :=
  mkGuestMemory (base_address_ m) (storage_size_ m) (mapping_granularity_ m) (host_mapped m)
    b (regions_ m) (mapping_identity_regions_ m) (shared_mappings_ m) (backings m)
    (write_generation_ m) (next_mapping_generation_ m)
    (write_generation_exhausted_ m) (mapping_generation_exhausted_ m) (events m) (host_calls m).

Definition with_backing m ref b :=
  mkGuestMemory (base_address_ m) (storage_size_ m) (mapping_granularity_ m) (host_mapped m)
    (bytes_ m) (regions_ m) (mapping_identity_regions_ m) (shared_mappings_ m)
    (<[ref := b]> (backings m)) (write_generation_ m) (next_mapping_generation_ m)
    (write_generation_exhausted_ m) (mapping_generation_exhausted_ m) (events m) (host_calls m).

Definition with_mapping_generation m g ex :=
  mkGuestMemory (base_address_ m) (storage_size_ m) (mapping_granularity_ m) (host_mapped m)
    (bytes_ m) (regions_ m) (mapping_identity_regions_ m) (shared_mappings_ m) (backings m)
    (write_generation_ m) g (write_generation_exhausted_ m) ex (events m) (host_calls m).

Definition with_write_event m g ex ev :=
  mkGuestMemory (base_address_ m) (storage_size_ m) (mapping_granularity_ m) (host_mapped m)
    (bytes_ m) (regions_ m) (mapping_identity_regions_ m) (shared_mappings_ m) (backings m)
    g (next_mapping_generation_ m) ex (mapping_generation_exhausted_ m) (events m ++ [ev])
    (host_calls m).

Definition with_host_calls m n :=
  mkGuestMemory (base_address_ m) (storage_size_ m) (mapping_granularity_ m) (host_mapped m)
    (bytes_ m) (regions_ m) (mapping_identity_regions_ m) (shared_mappings_ m) (backings m)
    (write_generation_ m) (next_mapping_generation_ m)
    (write_generation_exhausted_ m) (mapping_generation_exhausted_ m) (events m) n.

Implicit Types (m : GuestMemory) (address length : Z).

(** ** Queries of the map table *)

(** [AlignLengthToPage]; [None] is [false]. *)
Definition AlignLengthToPage length (page_size : Z) : option Z :=
  if (length =? 0) || (page_size =? 0) then None
  else
    let mask := (page_size - 1)%u64 in
    if negb (Z.land page_size mask =? 0) || (length >? (u64_max - mask)%u64) then None
    else Some (align_up_mask length page_size).

Definition end_address m : Z := (base_address_ m + storage_size_ m)%u64.

Definition Contains address length m : bool :=
  if address <? base_address_ m then false
  else
    let offset := (address - base_address_ m)%u64 in
    if offset >=? storage_size_ m then false
    else length <=? (storage_size_ m - offset)%u64.

(** The length a host-mapped memory really operates on: page-aligned requests
    only.  [None] is the early [return false]. *)
Definition effective_length address length m : option Z :=
  if host_mapped m then
    if (mapping_granularity_ m =? 0) || negb (address mod mapping_granularity_ m =? 0) then None
    else AlignLengthToPage length (mapping_granularity_ m)
  else Some length.

Definition CanMapLocked address length m : bool :=
  if length =? 0 then false
  else match effective_length address length m with
  | None => false
  | Some length' =>
      if negb (Contains address length' m) then false
      else
        let end_ := (address + length')%u64 in
        let '(before_, from) := lower_split address (regions_ m) in
        if (match last before_ with Some p => iend64 p >? address | None => false end) then false
        else match from with [] => true | n :: _ => end_ <=? rg_address n end
  end.

Definition CanMap := CanMapLocked.

(** [align_up] of [FindUnmappedRange]. *)
Definition align_up (alignment address : Z) : option Z :=
  let mask := (alignment - 1)%u64 in
  if address >? (u64_max - mask)%u64 then None else Some (align_up_mask address alignment).

Fixpoint find_unmapped_loop (alignment length candidate : Z) (rs : list GuestMemoryRegion) m
    : option Z :=
  match rs with
  | [] => if Contains candidate length m then Some candidate else None
  | r :: rest =>
      let region_end := iend64 r in
      if region_end <=? candidate then find_unmapped_loop alignment length candidate rest m
      else if (candidate <? rg_address r) && (length <=? (rg_address r - candidate)%u64)
      then Some candidate
      else match align_up alignment region_end with
           | None => None
           | Some c => find_unmapped_loop alignment length c rest m
           end
  end.

Definition FindUnmappedRange (search_start length alignment : Z) m : option Z :=
  if (length =? 0) || (alignment =? 0) || negb (Z.land alignment (alignment - 1)%u64 =? 0)
  then None
  else
    let request :=
      if host_mapped m then
        match AlignLengthToPage length (mapping_granularity_ m) with
        | None => None
        | Some l => Some (l, Z.max alignment (mapping_granularity_ m))
        end
      else Some (length, alignment) in
    match request with
    | None => None
    | Some (length', alignment') =>
        match align_up alignment' (Z.max search_start (base_address_ m)) with
        | None => None
        | Some candidate => find_unmapped_loop alignment' length' candidate (regions_ m) m
        end
    end.

(** The regions from [FindContainingRegion(address)] on; empty for
    [regions_.size()]. *)
Definition from_containing {A} `{Interval A} address (l : list A) : list A :=
  let '(before_, from) := lower_split address l in
  match from with
  | n :: _ => if istart n =? address then from else
      match last before_ with
      | Some p => if address <? iend64 p then p :: from else []
      | None => []
      end
  | [] => match last before_ with
          | Some p => if address <? iend64 p then p :: from else []
          | None => []
          end
  end.

Definition FindContainingRegion address m : option GuestMemoryRegion :=
  head (from_containing address (regions_ m)).

Definition FindSharedMapping address m : option SharedMapping :=
  head (from_containing address (shared_mappings_ m)).

Definition QueryRegion := FindContainingRegion.

Fixpoint access_loop (required : Z) (rs : list GuestMemoryRegion)
    (current_address remaining : Z) : bool :=
  match rs with
  | [] => false
  | r :: rest =>
      let region_end := iend64 r in
      if (current_address <? rg_address r) || (current_address >=? region_end) then false
      else if negb (Z.land (rg_protection r) required =? required) then false
      else if remaining =? 0 then true
      else
        let chunk := Z.min remaining (region_end - current_address)%u64 in
        let remaining' := (remaining - chunk)%u64 in
        if remaining' =? 0 then true
        else access_loop required rest (current_address + chunk)%u64 remaining'
  end.

Definition CanAccessLocked address length (required : Z) m : bool :=
  if negb (Contains address length m) then false
  else access_loop required (from_containing address (regions_ m)) address length.

Definition IsMappedLocked address length m : bool := CanAccessLocked address length kNone m.
Definition CanExecute address length m : bool := CanAccessLocked address length kExecute m.

(** The token pair is [GuestMemoryMappingToken{generation, exhausted}]. *)
Fixpoint token_loop (ids : list MappingIdentityRegion) (current_address remaining : Z)
    (newest : GuestMemoryGeneration) : option GuestMemoryGeneration :=
  match ids with
  | [] => None
  | r :: rest =>
      let identity_end := iend64 r in
      if (current_address <? id_address r) || (current_address >=? identity_end) then None
      else
        let newest' := gen_max newest (id_generation r) in
        let chunk := Z.min remaining (identity_end - current_address)%u64 in
        let remaining' := (remaining - chunk)%u64 in
        if remaining' =? 0 then Some newest'
        else token_loop rest (current_address + chunk)%u64 remaining' newest'
  end.

(** The identity records from [identity_index] on. *)
Definition token_start address (l : list MappingIdentityRegion) : list MappingIdentityRegion :=
  let '(before_, from) := lower_split address l in
  match from with
  | n :: _ => if id_address n =? address then from
              else match last before_ with Some p => p :: from | None => [] end
  | [] => match last before_ with Some p => p :: from | None => [] end
  end.

Definition CaptureMappingToken address length m : option (GuestMemoryGeneration * bool) :=
  if (length =? 0) || negb (IsMappedLocked address length m) then None
  else
    match token_loop (token_start address (mapping_identity_regions_ m)) address length
            (mkGeneration 0 0) with
    | None => None
    | Some g => Some (g, mapping_generation_exhausted_ m)
    end.

(** ** Changes of the map table *)

Section mapping.
Context `{HostMemory}.

Definition ProtectHostMapping m : GuestMemory * bool :=
  (with_host_calls m (S (host_calls m)), host_protect (host_calls m)).

Definition AllocateMappingGenerationLocked m : GuestMemory * option GuestMemoryGeneration :=
  if mapping_generation_exhausted_ m
  then (with_mapping_generation m (next_mapping_generation_ m) true, None)
  else match AdvanceGuestMemoryGeneration (next_mapping_generation_ m) with
  | None => (with_mapping_generation m (next_mapping_generation_ m) true, None)
  | Some g => (with_mapping_generation m g false, Some g)
  end.

Definition MapLocked address length (protection : Z) m : GuestMemory * bool :=
  if negb (IsValidProtection protection) || (length =? 0) then (m, false)
  else match effective_length address length m with
  | None => (m, false)
  | Some mapped_length =>
      if negb (CanMapLocked address mapped_length m) then (m, false)
      else
        let '(m1, generation) := AllocateMappingGenerationLocked m in
        match generation with
        | None => (m1, false)
        | Some g =>
            let '(m2, ok) := if host_mapped m1 then ProtectHostMapping m1 else (m1, true) in
            if negb ok then (m2, false)
            else
              (with_tables m2
                 (coalesce (range_insert (mkRegion address mapped_length protection) (regions_ m2)))
                 (coalesce (range_insert (mkIdentity address mapped_length g)
                              (mapping_identity_regions_ m2)))
                 (shared_mappings_ m2), true)
        end
  end.

Definition Map := MapLocked.

Definition MapShared address length (protection : Z) (backing : Z) (backing_offset : Z) m
    : GuestMemory * bool :=
  match backings m !! backing with
  | None => (m, false)
  | Some b =>
      if host_mapped m || negb (Backing_Contains b backing_offset length)
         || negb (IsValidProtection protection) || negb (CanMapLocked address length m)
      then (m, false)
      else
        let shared := range_insert (mkShared address length backing_offset backing)
                        (shared_mappings_ m) in
        let '(m1, ok) := MapLocked address length protection
                           (with_tables m (regions_ m) (mapping_identity_regions_ m) shared) in
        if ok then (m1, true)
        else (with_tables m1 (regions_ m1) (mapping_identity_regions_ m1) (shared_mappings_ m), false)
  end.

(** ** Creation *)

(** The members' initial values. *)
Definition blank_memory (base size granularity : Z) (host : bool) (calls : nat) : GuestMemory :=
  mkGuestMemory base size granularity host (replicate (Z.to_nat size) 0) [] [] [] ∅
    (mkGeneration 0 0) (mkGeneration 0 0) false false [] calls.

(** The constructor over a byte vector; [None] is one of its exceptions. *)
Definition GuestMemory_create (base_address size initial_protection : Z) : option GuestMemory :=
  if size >? (u64_max - base_address)%u64 then None
  else if negb (IsValidProtection initial_protection) then None
  else
    let m := blank_memory base_address size 1 false 0 in
    if negb (size =? 0) && negb (initial_protection =? kNone) then
      let '(m1, generation) := AllocateMappingGenerationLocked m in
      match generation with
      | None => None
      | Some g => Some (with_tables m1 [mkRegion base_address size initial_protection]
                          [mkIdentity base_address size g] [])
      end
    else Some m.

(** [page_size] is [HostPageSize()] and [mapping] the result of
    [AllocateHostMapping]. *)
Definition CreateHostMapped (page_size : Z) (mapping : option Z) (size initial_protection : Z)
    : option GuestMemory :=
  if (size =? 0) || negb (IsValidProtection initial_protection) || (page_size =? 0)
     || negb (Z.land page_size (page_size - 1)%u64 =? 0) || negb (size mod page_size =? 0)
  then None
  else match mapping with
  | None => None
  | Some base =>
      if size >? (u64_max - base)%u64 then None
      else if negb (host_protect 0) then None
      else
        let m := blank_memory base size page_size true 1 in
        if negb (initial_protection =? kNone) then
          let '(m1, ok) := Map base size initial_protection m in if ok then Some m1 else None
        else Some m
  end.

(** One region of [Protect]'s rebuilding loop. *)
Definition protect_one address (range_end protection : Z) (r : GuestMemoryRegion)
    : list GuestMemoryRegion :=
  let region_end := iend64 r in
  if (range_end <=? rg_address r) || (address >=? region_end) then [r]
  else
    let protected_start := Z.max (rg_address r) address in
    let protected_end := Z.min region_end range_end in
    (if rg_address r <? address
     then [mkRegion (rg_address r) (address - rg_address r)%u64 (rg_protection r)] else []) ++
    [mkRegion protected_start (protected_end - protected_start)%u64 protection] ++
    (if range_end <? region_end
     then [mkRegion range_end (region_end - range_end)%u64 (rg_protection r)] else []).

Definition Protect address length (protection : Z) m : GuestMemory * bool :=
  if (length =? 0) || negb (IsValidProtection protection) then (m, false)
  else match effective_length address length m with
  | None => (m, false)
  | Some protected_length =>
      if negb (IsMappedLocked address protected_length m) then (m, false)
      else
        let range_end := (address + protected_length)%u64 in
        let updated := flat_map (protect_one address range_end protection) (regions_ m) in
        let '(m1, ok) := if host_mapped m then ProtectHostMapping m else (m, true) in
        if negb ok then (m1, false)
        else (with_tables m1 (coalesce updated) (mapping_identity_regions_ m1)
                (shared_mappings_ m1), true)
  end.

(** One region of [Unmap]'s rebuilding loop. *)
Definition unmap_one address (range_end : Z) (r : GuestMemoryRegion) : list GuestMemoryRegion :=
  let region_end := iend64 r in
  if (range_end <=? rg_address r) || (address >=? region_end) then [r]
  else
    (if rg_address r <? address
     then [mkRegion (rg_address r) (address - rg_address r)%u64 (rg_protection r)] else []) ++
    (if range_end <? region_end
     then [mkRegion range_end (region_end - range_end)%u64 (rg_protection r)] else []).

(** [fill_n]/[memset]/[copy_n] into the byte window. *)
Definition store_bytes m (offset : Z) (data : list Z) : GuestMemory :=
  with_bytes m (page_store (bytes_ m) offset data).

Definition OffsetOf address m : Z := (address - base_address_ m)%u64.

Definition NotifyWrite address length m : GuestMemory :=
  if length =? 0 then m
  else
    let '(g, ex) :=
      if write_generation_exhausted_ m then (write_generation_ m, true)
      else match AdvanceGuestMemoryGeneration (write_generation_ m) with
           | Some g => (g, false)
           | None => (write_generation_ m, true)
           end in
    with_write_event m g ex (mkWriteEvent address length g ex).

(** The roll-back after a failed host protection: one call per region that
    overlaps the range; the results are ignored. *)
Definition reprotect_calls address (range_end : Z) m : nat :=
  List.length (List.filter (fun r => Z.max address (rg_address r)
                              <? Z.min range_end (iend64 r)) (regions_ m)).

Definition Unmap address length m : GuestMemory * bool :=
  if length =? 0 then (m, false)
  else match effective_length address length m with
  | None => (m, false)
  | Some unmapped_length =>
      if negb (IsMappedLocked address unmapped_length m) then (m, false)
      else
        let range_end := (address + unmapped_length)%u64 in
        let shared := carve address range_end (shared_mappings_ m) in
        let identities := carve address range_end (mapping_identity_regions_ m) in
        let updated := flat_map (unmap_one address range_end) (regions_ m) in
        let offset := OffsetOf address m in
        let commit m' := (with_tables m' (coalesce updated) (coalesce identities) shared, true) in
        if host_mapped m then
          let '(m1, ok1) := ProtectHostMapping m in
          if negb ok1 then (m1, false)
          else
            let m2 := store_bytes m1 offset (replicate (Z.to_nat unmapped_length) 0) in
            let '(m3, ok2) := ProtectHostMapping m2 in
            if negb ok2 then
              (NotifyWrite address unmapped_length
                 (with_host_calls m3 (host_calls m3 + reprotect_calls address range_end m3)), false)
            else commit m3
        else commit (store_bytes m offset (replicate (Z.to_nat length) 0))
  end.
End mapping.

(** ** Mutation reports *)

Record MutationRange := mkMutationRange { mr_address : Z; mr_size : Z }.

#[export] Instance mutation_interval : Interval MutationRange :=
  {| istart := mr_address; isize := mr_size |}.

Definition kMaximumExactRanges : nat := 64.

(** The first [count] entries of the array, and the fallback flag. *)
Record MutationReport := mkReport { mt_ranges : list MutationRange; mt_whole_memory : bool }.

Definition Report_init : MutationReport := mkReport [] false.

(** The merging loop of [Add]: an overlapping or touching entry is replaced by
    the last one and the same index is looked at again. *)
Fixpoint merge_loop (fuel : nat) (index : nat) (ranges : list MutationRange)
    (merged_start merged_end : Z) : list MutationRange * Z * Z :=
  match fuel with
  | O => (ranges, merged_start, merged_end)
  | S f =>
      match ranges !! index, last ranges with
      | Some existing, Some tail =>
          let existing_end := iend64 existing in
          if (mr_address existing >? merged_end) || (merged_start >? existing_end)
          then merge_loop f (S index) ranges merged_start merged_end
          else merge_loop f index
                 (take (pred (List.length ranges)) (<[index := tail]> ranges))
                 (Z.min merged_start (mr_address existing)) (Z.max merged_end existing_end)
      | _, _ => (ranges, merged_start, merged_end)
      end
  end.

(** Every round either advances or shortens the array: one per entry. *)
Definition Report_Add address (size : Z) (r : MutationReport) : MutationReport :=
  if mt_whole_memory r || (size =? 0) then r
  else
    let '(ranges, s, e) :=
      merge_loop (List.length (mt_ranges r)) 0 (mt_ranges r) address (address + size)%u64 in
    if (List.length ranges =? kMaximumExactRanges)%nat then mkReport [] true
    else mkReport (ranges ++ [mkMutationRange s (e - s)%u64]) false.

(** The part of [remaining] handled in one round outside shared mappings: up to
    the next shared mapping. *)
Definition private_chunk (current remaining : Z) m : Z :=
  match (lower_split current (shared_mappings_ m)).2 with
  | [] => remaining
  | n :: _ => Z.min remaining (sm_address n - current)%u64
  end.

(** The aliases of a written window of a backing. *)
Fixpoint alias_loop (ref : Z) (backing_start backing_end : Z) (aliases : list SharedMapping)
    (r : MutationReport) (reported : bool) : MutationReport * bool :=
  match aliases with
  | [] => (r, reported)
  | alias :: rest =>
      if negb (sm_backing alias =? ref)
      then alias_loop ref backing_start backing_end rest r reported
      else
        let alias_backing_end := (sm_backing_offset alias + sm_size alias)%u64 in
        let overlap_start := Z.max backing_start (sm_backing_offset alias) in
        let overlap_end := Z.min backing_end alias_backing_end in
        if overlap_start >=? overlap_end
        then alias_loop ref backing_start backing_end rest r reported
        else
          let r' := Report_Add ((sm_address alias + overlap_start)%u64 - sm_backing_offset alias)%u64
                      (overlap_end - overlap_start) r in
          if mt_whole_memory r' then (r', true)
          else alias_loop ref backing_start backing_end rest r' true
  end.

(** Every round handles at least one byte. *)
Fixpoint record_loop (fuel : nat) (current remaining : Z) m (r : MutationReport) : MutationReport :=
  match fuel with
  | O => r
  | S f =>
      if (remaining =? 0) || mt_whole_memory r then r
      else match FindSharedMapping current m with
      | None =>
          let chunk := private_chunk current remaining m in
          record_loop f (current + chunk)%u64 (remaining - chunk) m (Report_Add current chunk r)
      | Some source_mapping =>
          let source_offset := (current - sm_address source_mapping)%u64 in
          let chunk := Z.min remaining (sm_size source_mapping - source_offset)%u64 in
          let backing_start := (sm_backing_offset source_mapping + source_offset)%u64 in
          let backing_end := (backing_start + chunk)%u64 in
          let '(r1, reported_alias) :=
            alias_loop (sm_backing source_mapping) backing_start backing_end
              (shared_mappings_ m) r false in
          let r2 := if reported_alias then r1 else Report_Add current chunk r1 in
          record_loop f (current + chunk)%u64 (remaining - chunk) m r2
      end
  end.

Definition RecordActualWriteRangeLocked (r : MutationReport) address length m : MutationReport :=
  record_loop (Z.to_nat length) address length m r.

Definition NotifyMutationReport (r : MutationReport) m : GuestMemory :=
  if mt_whole_memory r then NotifyWrite (base_address_ m) (storage_size_ m) m
  else fold_left (fun acc x => NotifyWrite (mr_address x) (mr_size x) acc) (mt_ranges r) m.

(** ** Reading and writing bytes *)

(** [ReadBytes]; [None] is [false]. *)
Fixpoint read_bytes_loop (fuel : nat) address (size copied : Z) m : option (list Z) :=
  match fuel with
  | O => Some []
  | S f =>
      if negb (copied <? size) then Some []
      else
        let current := (address + copied)%u64 in
        match FindSharedMapping current m with
        | Some mapping =>
            let mapping_offset := (current - sm_address mapping)%u64 in
            let chunk := Z.min (size - copied) (sm_size mapping - mapping_offset)%u64 in
            match backings m !! sm_backing mapping ≫= fun b =>
                    Backing_Read b (sm_backing_offset mapping + mapping_offset)%u64 chunk with
            | None => None
            | Some data =>
                match read_bytes_loop f address size (copied + chunk) m with
                | None => None
                | Some rest => Some (data ++ rest)
                end
            end
        | None =>
            let chunk := private_chunk current (size - copied) m in
            let data := take (Z.to_nat chunk) (drop (Z.to_nat (OffsetOf current m)) (bytes_ m)) in
            match read_bytes_loop f address size (copied + chunk) m with
            | None => None
            | Some rest => Some (data ++ rest)
            end
        end
  end.

Definition ReadBytes address (size : Z) m : option (list Z) :=
  read_bytes_loop (Z.to_nat size) address size 0 m.

Definition Read address (size : Z) m : option (list Z) :=
  if negb (CanAccessLocked address size kRead m) then None else ReadBytes address size m.

(** The common loop of [WriteBytes] and [FillBytes]; [store] is the backing's
    [Write] or [Fill] of one chunk and [data] the bytes of the chunk.  Returns
    the memory, the report, the bytes written and the result. *)
Fixpoint write_bytes_loop (fuel : nat) address (size : Z)
    (store : SharedMemoryBacking -> Z -> Z -> Z -> SharedMemoryBacking * bool)
    (data : Z -> Z -> list Z) (copied : Z) m (r : MutationReport)
    : GuestMemory * MutationReport * Z * bool :=
  match fuel with
  | O => (m, r, copied, true)
  | S f =>
      if negb (copied <? size) then (m, r, copied, true)
      else
        let current := (address + copied)%u64 in
        match FindSharedMapping current m with
        | Some mapping =>
            let mapping_offset := (current - sm_address mapping)%u64 in
            let chunk := Z.min (size - copied) (sm_size mapping - mapping_offset)%u64 in
            match backings m !! sm_backing mapping with
            | None => (m, r, copied, false)
            | Some b =>
                let '(b', ok) := store b (sm_backing_offset mapping + mapping_offset)%u64 copied chunk in
                if negb ok then (m, r, copied, false)
                else
                  let m1 := with_backing m (sm_backing mapping) b' in
                  write_bytes_loop f address size store data (copied + chunk) m1
                    (RecordActualWriteRangeLocked r current chunk m1)
            end
        | None =>
            let chunk := private_chunk current (size - copied) m in
            let m1 := store_bytes m (OffsetOf current m) (data copied chunk) in
            write_bytes_loop f address size store data (copied + chunk) m1
              (RecordActualWriteRangeLocked r current chunk m1)
        end
  end.

Definition WriteBytes address (source : list Z) m (r : MutationReport) :=
  let size := Z.of_nat (List.length source) in
  write_bytes_loop (List.length source) address size
    (fun b off i n => Backing_Write b off (slice source i n)) (slice source) 0 m r.

Definition FillBytes address length (value : Z) m (r : MutationReport) :=
  write_bytes_loop (Z.to_nat length) address length
    (fun b off _ n => Backing_Fill b off n value) (fun _ n => replicate (Z.to_nat n) value) 0 m r.

Definition Write address (source : list Z) m : GuestMemory * bool :=
  if negb (CanAccessLocked address (Z.of_nat (List.length source)) kWrite m) then (m, false)
  else
    let '(m1, r, _, completed) := WriteBytes address source m Report_init in
    (NotifyMutationReport r m1, completed).

Definition Fill address length (value : Z) m : GuestMemory * bool :=
  if negb (CanAccessLocked address length kWrite m) then (m, false)
  else
    let '(m1, r, _, completed) := FillBytes address length value m Report_init in
    (NotifyMutationReport r m1, completed).

(** ** Copy *)

Definition kCopyChunkBytes : Z := 4096.

(** The forward copy; [None] in the chunk read ends it as failed. *)
Fixpoint copy_forward (fuel : nat) (destination source : Z) length (copied : Z) m (r : MutationReport)
    : GuestMemory * MutationReport * bool :=
  match fuel with
  | O => (m, r, copied =? length)
  | S f =>
      if negb (copied <? length) then (m, r, copied =? length)
      else
        let chunk := Z.min kCopyChunkBytes (length - copied) in
        match ReadBytes (source + copied)%u64 chunk m with
        | None => (m, r, false)
        | Some view =>
            let '(m1, r1, written, ok) := WriteBytes (destination + copied)%u64 view m r in
            if negb ok || negb (written =? chunk) then (m1, r1, false)
            else copy_forward f destination source length (copied + written) m1 r1
        end
  end.

(** The backward copy, for a destination that overlaps the source from above. *)
Fixpoint copy_backward (fuel : nat) (destination source : Z) (remaining : Z) m (r : MutationReport)
    : GuestMemory * MutationReport * bool :=
  match fuel with
  | O => (m, r, remaining =? 0)
  | S f =>
      if remaining =? 0 then (m, r, true)
      else
        let chunk := Z.min kCopyChunkBytes remaining in
        let offset := remaining - chunk in
        match ReadBytes (source + offset)%u64 chunk m with
        | None => (m, r, false)
        | Some view =>
            let '(m1, r1, written, ok) := WriteBytes (destination + offset)%u64 view m r in
            if negb ok || negb (written =? chunk) then (m1, r1, false)
            else copy_backward f destination source offset m1 r1
        end
  end.

Definition Copy (destination source : Z) length m : GuestMemory * bool :=
  if negb (CanAccessLocked source length kRead m)
     || negb (CanAccessLocked destination length kWrite m) then (m, false)
  else if (length =? 0) || (destination =? source) then (m, true)
  else
    let fuel := Z.to_nat (length / kCopyChunkBytes + 1) in
    let '(m1, r, completed) :=
      if host_mapped m || (match shared_mappings_ m with [] => true | _ => false end) then
        let data := take (Z.to_nat length) (drop (Z.to_nat (OffsetOf source m)) (bytes_ m)) in
        let m1 := store_bytes m (OffsetOf destination m) data in
        (m1, RecordActualWriteRangeLocked Report_init destination length m1, true)
      else if (destination >? source) && ((destination - source)%u64 <? length)
      then copy_backward fuel destination source length m Report_init
      else copy_forward fuel destination source length 0 m Report_init in
    (NotifyMutationReport r m1, completed).
