(* ===== verification/GuestMemoryMap.v ===== *)
(** The tables of [memory::GuestMemory]: their invariant [gm_ok], the queries
    over them ([CanAccess], [CanMap], [FindUnmappedRange]), and the coalescing
    and carving of ranges.

    The abstract state of the tables is a partial map from guest addresses to
    protections ([prot_view]) and one to mapping generations ([gen_view]); the
    operations of [GuestMemoryOps] update these pointwise. *)
From S2P Require Import Prelude Ranges SharedBacking GuestMemory.

Implicit Types (m : GuestMemory) (address length : Z).

#[export] Instance region_denote : Denote GuestMemoryRegion Z := fun r _ => rg_protection r.
#[export] Instance identity_denote : Denote MappingIdentityRegion GuestMemoryGeneration :=
  fun r _ => id_generation r.

(** The place of an address in its backing. *)
#[export] Instance shared_denote : Denote SharedMapping (Z * Z) := fun r a =>
  (sm_backing r, (sm_backing_offset r + (a - sm_address r)) mod u64_modulus).

#[export] Instance identity_carve_laws : CarveLaws MappingIdentityRegion GuestMemoryGeneration.
Proof.
  split; intros r x Hs He Hx; destruct r as [ad sz g]; unfold inside, iend in *; simpl in *.
  - rewrite (sub64_small x ad) by lia. rewrite sub64_small by lia. split_and!; [done|lia|done].
  - rewrite sub64_small by lia. split_and!; [done|lia|done].
  - assert (Hie : iend64 (mkIdentity ad sz g) = ad + sz)
      by (unfold iend64; simpl; apply add64_small; lia).
    rewrite Hie, sub64_small by lia. split_and!; [done|lia|done].
Qed.

#[export] Instance shared_carve_laws : CarveLaws SharedMapping (Z * Z).
Proof.
  split; intros r x Hs He Hx; destruct r as [ad sz off ref]; unfold inside, iend in *; simpl in *.
  - rewrite (sub64_small x ad) by lia. rewrite sub64_small by lia.
    split_and!; [done|lia|]. intros a Ha. unfold imean, shared_denote. simpl. f_equal.
    unfold add64. rewrite Zplus_mod_idemp_l. f_equal. lia.
  - rewrite sub64_small by lia. split_and!; [done|lia|done].
  - assert (Hie : iend64 (mkShared ad sz off ref) = ad + sz)
      by (unfold iend64; simpl; apply add64_small; lia).
    rewrite Hie, (sub64_small x ad), sub64_small by lia. split_and!; [done|lia|].
    intros a Ha. unfold imean, shared_denote. simpl. f_equal.
    unfold add64. rewrite Zplus_mod_idemp_l. f_equal. lia.
Qed.

(** ** Coalescing keeps the content *)

Class CoalesceLaws (A B : Type) `{Coalesce A, Denote A B} : Prop := {
  agree_ok (p c : A) a b : agree p c = true -> imean p a = imean c b;
  grow_ok (p c : A) : 0 <= istart p -> 0 < isize p -> 0 < isize c -> iend p = istart c ->
    iend c <= u64_max ->
    istart (grow p c) = istart p /\ iend (grow p c) = iend c /\
    forall a, imean (grow p c) a = imean p a;
  mean_const (p : A) a b : imean p a = imean p b
}.

#[export] Instance region_coalesce_laws : CoalesceLaws GuestMemoryRegion Z.
Proof.
  split.
  - intros p c a b Hag. simpl in Hag. unfold imean, region_denote. lia.
  - intros [pa ps pp] [ca cs cp]; unfold iend; simpl. intros.
    rewrite add64_small by lia. split_and!; [done|lia|done].
  - done.
Qed.

#[export] Instance identity_coalesce_laws :
  CoalesceLaws MappingIdentityRegion GuestMemoryGeneration.
Proof.
  split.
  - intros p c a b Hag. simpl in Hag. by apply bool_decide_eq_true in Hag.
  - intros [pa ps pp] [ca cs cp]; unfold iend; simpl. intros.
    rewrite add64_small by lia. split_and!; [done|lia|done].
  - done.
Qed.

Section coalesce.
Context {A B : Type} `{CoalesceLaws A B}.
Implicit Types (l : list A).

Lemma coalesce_from_spec lo hi (p : A) l :
  0 <= lo -> hi <= u64_max -> ranges_ok lo hi (p :: l) ->
  ranges_ok lo hi (coalesce_from p l) /\
  (forall r, r ∈ coalesce_from p l -> istart p <= istart r) /\
  forall a, content (coalesce_from p l) a = content (p :: l) a.
Proof.
  intros Hlo Hhi. revert p. induction l as [|c l IH]; intros p Hok; simpl coalesce_from.
  { split_and!; [done| |done]. by intros r ->%list_elem_of_singleton. }
  apply ranges_ok_cons in Hok as (Hvp & Hok & Hbp).
  pose proof Hok as (Hvc & Hokl & Hbc)%ranges_ok_cons.
  pose proof (Hbp c (list_elem_of_here _ _)) as Hpc. unfold before in Hpc.
  pose proof Hvp as (P1 & P2 & P3). pose proof Hvc as (C1 & C2 & C3).
  rewrite iend64_ok by (unfold iend in *; lia).
  destruct ((iend p =? istart c) && agree p c) eqn:E.
  - apply andb_true_iff in E as [Ee Ea].
    destruct (grow_ok p c) as (G1 & G2 & G3); [lia|done|done|lia|lia|].
    set (q := grow p c) in *.
    assert (Hokq : ranges_ok lo hi (q :: l)).
    { apply ranges_ok_cons. split_and!; [unfold valid_in, iend in *; lia|done|].
      intros r Hr. specialize (Hbc r Hr). unfold before in *. lia. }
    destruct (IH q Hokq) as (K1 & K2 & K3). split_and!; [done| |].
    + intros r Hr. specialize (K2 r Hr). lia.
    + intros a. rewrite K3. unfold content. rewrite !range_at_cons.
      destruct (decide (inside q a)) as [Hq|Hq].
      * simpl. rewrite G3. destruct (decide (inside p a)); [done|].
        rewrite decide_True; [simpl; f_equal; by apply agree_ok|].
        unfold inside in *. lia.
      * assert (~ inside p a) by (unfold inside, iend in *; lia).
        assert (~ inside c a) by (unfold inside, iend in *; lia).
        repeat case_decide; done.
  - destruct (IH c Hok) as (K1 & K2 & K3). split_and!.
    + apply ranges_ok_cons. split_and!; [done|done|]. intros r Hr. specialize (K2 r Hr).
      unfold before. lia.
    + intros r [->|Hr]%elem_of_cons; [done|]. specialize (K2 r Hr). unfold iend in *. lia.
    + intros a. unfold content in *. rewrite !range_at_cons.
      destruct (decide (inside p a)); [done|]. rewrite K3, range_at_cons. done.
Qed.

Lemma coalesce_ok lo hi l :
  0 <= lo -> hi <= u64_max -> ranges_ok lo hi l -> ranges_ok lo hi (coalesce l).
Proof. destruct l as [|p l]; [done|]. intros. by apply coalesce_from_spec. Qed.

Lemma coalesce_content lo hi l a :
  0 <= lo -> hi <= u64_max -> ranges_ok lo hi l -> content (coalesce l) a = content l a.
Proof. destruct l as [|p l]; [done|]. intros. by eapply coalesce_from_spec. Qed.
End coalesce.

(** ** The invariant *)

Definition gen_le (a b : GuestMemoryGeneration) : Prop := gen_ltb b a = false.

Definition gm_end m : Z := base_address_ m + storage_size_ m.

Definition prot_view m (a : Z) : option Z := content (regions_ m) a.
Definition gen_view m (a : Z) : option GuestMemoryGeneration :=
  content (mapping_identity_regions_ m) a.

Record gm_ok m : Prop := {
  go_window : 0 <= base_address_ m /\ 0 <= storage_size_ m /\ gm_end m <= u64_max;
  go_granularity : host_mapped m = true ->
    exists k, 0 <= k < 64 /\ mapping_granularity_ m = 2 ^ k;
  go_regions : ranges_ok (base_address_ m) (gm_end m) (regions_ m);
  go_identities : ranges_ok (base_address_ m) (gm_end m) (mapping_identity_regions_ m);
  go_same : forall a, is_Some (prot_view m a) <-> is_Some (gen_view m a);
  go_shared : ranges_ok (base_address_ m) (gm_end m) (shared_mappings_ m);
  go_shared_mapped : forall a, is_Some (range_at (shared_mappings_ m) a) -> is_Some (prot_view m a);
  go_generations : forall a g, gen_view m a = Some g ->
    gen_le g (next_mapping_generation_ m) /\ 0 <= gen_epoch g /\ 0 <= gen_sequence g;
  go_next : is_u64 (gen_epoch (next_mapping_generation_ m)) /\
            is_u64 (gen_sequence (next_mapping_generation_ m));
  go_write : is_u64 (gen_epoch (write_generation_ m)) /\
             is_u64 (gen_sequence (write_generation_ m));
  go_bytes : Z.of_nat (List.length (bytes_ m)) = storage_size_ m;
  (** [MapShared] refuses host mappings *)
  go_host_shared : host_mapped m = true -> shared_mappings_ m = [];
  go_backings : forall ref b, backings m !! ref = Some b -> backing_ok b;
  go_backed : forall s, s ∈ shared_mappings_ m ->
    exists b, backings m !! sm_backing s = Some b /\
      0 <= sm_backing_offset s /\ sm_backing_offset s + sm_size s <= bk_size_ b
}.

(** Every address of the range is mapped with the required bits. *)
Definition accessible m address length (required : Z) : Prop :=
  forall a, address <= a < address + length ->
    exists p, prot_view m a = Some p /\ Z.land p required = required.

Lemma GuestContains_iff m address length :
  gm_ok m -> is_u64 address -> 0 <= length ->
  Contains address length m = true <->
  base_address_ m <= address < gm_end m /\ address + length <= gm_end m.
Proof.
  intros Hm Ha Hl. destruct (go_window _ Hm) as (W1 & W2 & W3).
  unfold Contains, gm_end, is_u64 in *.
  destruct (address <? base_address_ m) eqn:E; [split; [done|lia]|].
  rewrite (sub64_small address) by lia.
  destruct (address - base_address_ m >=? storage_size_ m) eqn:E2; [split; [done|lia]|].
  rewrite sub64_small by lia. rewrite Z.leb_le. lia.
Qed.

(** ** Walking an ordered table *)

Section walking.
Context {A : Type} `{Interval A}.
Implicit Types (r : A) (l : list A).

(** The last range before [std::lower_bound] is the nearest one. *)
Lemma last_nearest lo hi l p r :
  ranges_ok lo hi l -> last l = Some p -> r ∈ l -> iend r <= iend p.
Proof.
  intros Hok (l' & ->)%last_Some Hr. apply ranges_ok_app in Hok as (_ & Hp & Hb).
  apply elem_of_app in Hr as [Hr| ->%list_elem_of_singleton]; [|done].
  specialize (Hb r p Hr (list_elem_of_here _ _)).
  apply (ro_valid_elem _ _ _ p) in Hp; [|apply list_elem_of_here].
  unfold before, valid_in, iend in *. lia.
Qed.

Lemma head_nearest lo hi n l r : ranges_ok lo hi (n :: l) -> r ∈ n :: l -> istart n <= istart r.
Proof.
  intros (Hv & _ & Hb)%ranges_ok_cons [->|Hr]%elem_of_cons; [done|].
  specialize (Hb _ Hr). unfold before, valid_in, iend in *. lia.
Qed.

(** The two neighbours decide whether a window is free. *)
Lemma neighbours_free lo hi l x y :
  0 <= lo -> hi <= u64_max -> ranges_ok lo hi l -> x < y ->
  ((match last (lower_split x l).1 with Some p => iend64 p >? x | None => false end) = false /\
   (match (lower_split x l).2 with [] => true | n :: _ => y <=? istart n end) = true) <->
  forall a, x <= a < y -> range_at l a = None.
Proof.
  intros Hlo Hhi Hok Hxy. destruct (lower_split_spec lo hi x l Hok) as (Happ & Hb & He).
  destruct (lower_split x l) as [b e]. simpl in *. subst l.
  pose proof (ranges_ok_app lo hi b e) as [Hs _]. destruct (Hs Hok) as (Hokb & Hoke & _).
  split.
  - intros [Hp Hn] a Ha. apply range_at_absent. intros r [Hr|Hr]%elem_of_app Hi; unfold inside in Hi.
    + destruct (last b) as [p|] eqn:El; [|apply last_None in El; subst b; by apply elem_of_nil in Hr].
      pose proof (last_nearest _ _ _ _ _ Hokb El Hr).
      apply last_Some_elem_of in El. apply (ro_valid_elem _ _ _ _ Hokb) in El as (V1 & V2 & V3).
      rewrite iend64_ok in Hp by lia. lia.
    + destruct e as [|n e]; [by apply elem_of_nil in Hr|].
      pose proof (head_nearest _ _ _ _ _ Hoke Hr). lia.
  - intros Hfree. split.
    + destruct (last b) as [p|] eqn:El; [|done]. apply last_Some_elem_of in El.
      pose proof (ro_valid_elem _ _ _ _ Hokb El) as (V1 & V2 & V3).
      rewrite iend64_ok by lia. destruct (iend p >? x) eqn:E; [exfalso|done].
      apply (range_at_None (b ++ e) x p); [apply Hfree; lia|apply elem_of_app; by left|].
      specialize (Hb _ El). unfold inside. lia.
    + destruct e as [|n e]; [done|]. destruct (y <=? istart n) eqn:E; [done|exfalso].
      pose proof (ro_valid_elem _ _ _ _ Hoke (list_elem_of_here _ _)) as (V1 & V2 & V3).
      specialize (He n (list_elem_of_here _ _)).
      apply (range_at_None (b ++ n :: e) (istart n) n); [apply Hfree; lia| |].
      * apply elem_of_app. right. apply list_elem_of_here.
      * unfold inside, iend in *. lia.
Qed.

Lemma range_at_suffix lo hi pre l a :
  ranges_ok lo hi (pre ++ l) -> (forall r, r ∈ pre -> iend r <= a) ->
  range_at (pre ++ l) a = range_at l a.
Proof.
  intros Hok Hpre. rewrite range_at_app, range_at_absent; [done|].
  intros r Hr Hi. specialize (Hpre r Hr). unfold inside in Hi. lia.
Qed.

(** [FindContainingRegion] and [FindSharedMapping]: the owner of the address
    and everything after it, or nothing. *)
Lemma from_containing_spec lo hi l x :
  0 <= lo -> hi <= u64_max -> ranges_ok lo hi l ->
  match range_at l x with
  | Some r => exists pre rest, l = pre ++ r :: rest /\ from_containing x l = r :: rest /\
                (forall r', r' ∈ pre -> iend r' <= istart r)
  | None => from_containing x l = []
  end.
Proof.
  intros Hlo Hhi Hok. destruct (lower_split_spec lo hi x l Hok) as (Happ & Hb & He).
  unfold from_containing. destruct (lower_split x l) as [b e]. simpl in *. subst l.
  pose proof (ranges_ok_app lo hi b e) as [Hs _]. destruct (Hs Hok) as (Hokb & Hoke & Hbe).
  assert (Hprev : (match e with n :: _ => istart n <> x | [] => True end) ->
    match range_at (b ++ e) x with
    | Some r => exists pre rest, b ++ e = pre ++ r :: rest /\
        match last b with Some p => if x <? iend64 p then p :: e else [] | None => [] end
          = r :: rest /\ (forall r', r' ∈ pre -> iend r' <= istart r)
    | None => match last b with Some p => if x <? iend64 p then p :: e else [] | None => [] end = []
    end).
  { intros Hne. assert (Hnone : range_at e x = None).
    { apply range_at_absent. intros r Hr Hi. destruct e as [|n e]; [by apply elem_of_nil in Hr|].
      pose proof (head_nearest _ _ _ _ _ Hoke Hr). specialize (He n (list_elem_of_here _ _)).
      unfold inside in Hi. lia. }
    rewrite range_at_app, Hnone. destruct (last b) as [p|] eqn:El.
    - pose proof El as (b' & ->)%last_Some. pose proof (last_Some_elem_of _ _ El) as Hp.
      pose proof (ro_valid_elem _ _ _ _ Hokb Hp) as (V1 & V2 & V3). specialize (Hb _ Hp).
      rewrite iend64_ok by lia. destruct (x <? iend p) eqn:E.
      + rewrite (range_at_elem lo hi _ x p) by (done || unfold inside; lia).
        exists b', e. split_and!; [by rewrite <- app_assoc|done|].
        intros r' Hr'. apply ranges_ok_app in Hokb as (_ & _ & Hbb).
        apply (Hbb r' p Hr'), list_elem_of_here.
      + rewrite range_at_absent; [done|]. intros r Hr Hi.
        pose proof (last_nearest _ _ _ _ _ Hokb El Hr). unfold inside in Hi. lia.
    - apply last_None in El. by subst b. }
  destruct e as [|n e]; [by apply Hprev|]. destruct (istart n =? x) eqn:E; [|apply Hprev; lia].
  pose proof (ro_valid_elem _ _ _ _ Hoke (list_elem_of_here _ _)) as (V1 & V2 & V3).
  rewrite (range_at_elem lo hi _ x n); [|done|apply elem_of_app; right; apply list_elem_of_here|].
  - exists b, e. split_and!; [done|done|]. intros r' Hr'. apply (Hbe r' n Hr'), list_elem_of_here.
  - unfold inside, iend in *. lia.
Qed.

Lemma from_containing_head lo hi l x :
  0 <= lo -> hi <= u64_max -> ranges_ok lo hi l -> head (from_containing x l) = range_at l x.
Proof.
  intros Hlo Hhi Hok. pose proof (from_containing_spec lo hi l x Hlo Hhi Hok) as Hs.
  destruct (range_at l x) as [r|]; [|by rewrite Hs]. by destruct Hs as (pre & rest & _ & -> & _).
Qed.
End walking.

(** ** Lengths and free windows *)

Lemma AlignLengthToPage_spec length k l' :
  0 <= k < 64 -> is_u64 length -> AlignLengthToPage length (2 ^ k) = Some l' ->
  0 < length <= l' /\ l' <= u64_max /\ l' mod 2 ^ k = 0 /\ l' < length + 2 ^ k.
Proof.
  intros Hk Hl. pose proof (Z.pow_pos_nonneg 2 k ltac:(lia) ltac:(lia)) as Hp.
  assert (2 ^ k <= 2 ^ 63) by (apply Z.pow_le_mono_r; lia).
  change (2 ^ 63) with 9223372036854775808 in *. unfold AlignLengthToPage.
  rewrite (sub64_small (2 ^ k) 1) by u64_lia. rewrite (sub64_small u64_max) by u64_lia.
  repeat split_match; [done|done|]. intros [= <-].
  apply orb_false_iff in E, E0. destruct E, E0.
  destruct (align_up_mask_spec length k) as [Q1 Q2]; [lia|u64_lia|lia|]. cbn zeta in *.
  split_and!; [u64_lia|lia| |done|lia].
  assert (Hld : is_u64 (align_up_mask length (2 ^ k))); [|u64_lia].
  unfold align_up_mask. rewrite (sub64_small (2 ^ k) 1) by u64_lia.
  rewrite add64_small by u64_lia. rewrite Z.sub_1_r, <- Z.ones_equiv, Z.ldiff_ones_r by lia.
  rewrite Z.shiftl_mul_pow2, Z.shiftr_div_pow2 by lia.
  pose proof (Z.mul_div_le (length + Z.ones k) (2 ^ k) Hp).
  rewrite Z.ones_equiv in *. unfold is_u64 in *. split; [|lia].
  apply Z.mul_nonneg_nonneg; [apply Z.div_pos; lia|lia].
Qed.

(** Aligning an aligned length changes nothing. *)
Lemma AlignLengthToPage_idem length k l' :
  0 <= k < 64 -> is_u64 length -> AlignLengthToPage length (2 ^ k) = Some l' ->
  AlignLengthToPage l' (2 ^ k) = Some l'.
Proof.
  intros Hk Hl Heq. destruct (AlignLengthToPage_spec _ _ _ Hk Hl Heq) as (H1 & H2 & H3 & H4).
  pose proof (Z.pow_pos_nonneg 2 k ltac:(lia) ltac:(lia)) as Hp.
  assert (2 ^ k <= 2 ^ 63) by (apply Z.pow_le_mono_r; lia).
  change (2 ^ 63) with 9223372036854775808 in *.
  assert (Hmax : l' + (2 ^ k - 1) <= u64_max).
  { apply Z.mod_divide in H3 as [q Hq]; [|lia].
    assert (Hm : u64_max + 1 = 2 ^ (64 - k) * 2 ^ k).
    { rewrite <- Z.pow_add_r by lia. replace (64 - k + k) with 64 by lia.
      rewrite u64_max_eq. reflexivity. }
    set (w := 2 ^ (64 - k)) in *. set (p := 2 ^ k) in *.
    assert (q < w) by (apply (Z.mul_lt_mono_pos_r p); lia).
    assert ((q + 1) * p <= w * p) by (apply Z.mul_le_mono_nonneg_r; lia). lia. }
  unfold AlignLengthToPage in Heq |- *.
  repeat split_match_in Heq; [done|done|]. apply orb_false_iff in E, E0.
  destruct E as [_ _], E0 as [Eland _].
  rewrite (sub64_small (2 ^ k) 1) in * by u64_lia. rewrite (sub64_small u64_max) in * by u64_lia.
  replace (l' =? 0) with false by lia. replace (2 ^ k =? 0) with false by lia. cbn [orb].
  rewrite Eland. replace (l' >? u64_max - (2 ^ k - 1)) with false by lia. cbn [orb]. f_equal.
  apply Z.le_antisymm.
  - apply align_up_mask_least; lia.
  - apply align_up_mask_spec; lia.
Qed.

Section lengths.
Context (m : GuestMemory) (Hm : gm_ok m).

Lemma effective_length_spec address length l' :
  is_u64 length -> 0 < length -> effective_length address length m = Some l' ->
  length <= l' <= u64_max /\ (host_mapped m = false -> l' = length) /\
  effective_length address l' m = Some l'.
Proof.
  intros Hl H0. unfold effective_length. destruct (host_mapped m) eqn:Eh.
  - destruct (go_granularity m Hm Eh) as (k & Hk & ->). split_match; [done|]. intros Ha.
    destruct (AlignLengthToPage_spec _ _ _ Hk Hl Ha) as (H1 & H2 & _).
    split_and!; [lia|lia|done|]. by eapply AlignLengthToPage_idem.
  - intros [= <-]. split_and!; [lia|u64_lia|done|done].
Qed.

(** [CanMap]: the aligned window lies in the memory and nothing is mapped there. *)
Lemma CanMapLocked_iff address length :
  is_u64 address -> is_u64 length ->
  CanMapLocked address length m = true <->
  0 < length /\ exists l', effective_length address length m = Some l' /\
    base_address_ m <= address /\ address + l' <= gm_end m /\
    forall a, address <= a < address + l' -> prot_view m a = None.
Proof.
  intros Ha Hl. pose proof Ha as [Ha0 _]. pose proof Hl as [Hl0 _].
  destruct (go_window m Hm) as (W1 & W2 & W3). unfold CanMapLocked.
  destruct (length =? 0) eqn:E0; [split; [done|intros [? _]; lia]|].
  destruct (effective_length address length m) as [l'|] eqn:El; [|naive_solver].
  destruct (effective_length_spec address length l' Hl ltac:(u64_lia) El) as (L1 & _ & _).
  pose proof (GuestContains_iff m address l' Hm Ha ltac:(lia)) as Hc.
  destruct (Contains address l' m); cbn [negb].
  2:{ split; [done|]. intros (_ & l2 & [= <-] & H1 & H2 & _).
      assert (false = true) by (apply Hc; u64_lia). done. }
  destruct Hc as [Hc _]. destruct (Hc eq_refl) as [C1 C2]. cbn zeta.
  rewrite add64_small by u64_lia.
  pose proof (neighbours_free (base_address_ m) (gm_end m) (regions_ m) address (address + l')
    ltac:(lia) ltac:(lia) (go_regions m Hm) ltac:(u64_lia)) as Hn.
  change (@istart GuestMemoryRegion region_interval) with rg_address in Hn.
  destruct (lower_split address (regions_ m)) as [b e]. cbn [fst snd] in Hn.
  assert (Hiff : (forall a, address <= a < address + l' -> prot_view m a = None) <->
                 (forall a, address <= a < address + l' -> range_at (regions_ m) a = None)).
  { unfold prot_view, content. by setoid_rewrite fmap_None. }
  rewrite <- Hn in Hiff.
  destruct (match last b with Some p => iend64 p >? address | None => false end).
  - split; [done|]. intros (_ & l2 & [= <-] & _ & _ & Hf). destruct Hiff as [Hi _].
    by destruct (Hi Hf).
  - split.
    + intros Ht. split; [u64_lia|]. exists l'. split_and!; [done|lia|lia|]. by apply Hiff.
    + intros (_ & l2 & [= <-] & _ & _ & Hf). destruct Hiff as [Hi _]. by destruct (Hi Hf).
Qed.
End lengths.

(** ** Access checks *)

(** One step of the walks over a table: the current address is owned by the
    first range, or by none of the rest. *)
Lemma walk_step {A} `{Interval A} lo hi (r : A) rest cur :
  ranges_ok lo hi (r :: rest) -> (forall r', r' ∈ r :: rest -> cur < iend r') ->
  if decide (istart r <= cur) then range_at (r :: rest) cur = Some r
  else range_at (r :: rest) cur = None.
Proof.
  intros Hok Hcur. pose proof (Hcur r (list_elem_of_here _ _)). case_decide.
  - rewrite range_at_cons, decide_True; [done|]. unfold inside. lia.
  - apply range_at_absent. intros r' Hr' Hi.
    pose proof (head_nearest _ _ _ _ _ Hok Hr'). unfold inside in Hi. lia.
Qed.

Lemma walk_rest {A} `{Interval A} lo hi (r : A) rest a :
  ranges_ok lo hi (r :: rest) -> iend r <= a -> range_at (r :: rest) a = range_at rest a.
Proof.
  intros Hok Ha. rewrite range_at_cons, decide_False; [done|]. unfold inside. lia.
Qed.

Lemma access_loop_iff lo hi required rs cur remaining :
  0 <= lo -> hi <= u64_max -> ranges_ok lo hi rs -> 0 <= remaining ->
  0 <= cur -> cur + remaining <= u64_max -> (forall r, r ∈ rs -> cur < iend r) ->
  access_loop required rs cur remaining = true <->
  forall a, cur <= a < cur + Z.max 1 remaining ->
    exists p, content rs a = Some p /\ Z.land p required = required.
Proof.
  intros Hlo Hhi. revert cur remaining.
  induction rs as [|r rest IH]; intros cur remaining Hok H0 Hc Hmax Hcur; simpl access_loop.
  { split; [done|]. intros Hall. destruct (Hall cur) as (p & Hp & _); [lia|done]. }
  pose proof (walk_step lo hi r rest cur Hok Hcur) as Hst.
  pose proof Hok as (Hv & Hokr & Hb)%ranges_ok_cons. pose proof Hv as (V1 & V2 & V3).
  pose proof (Hcur r (list_elem_of_here _ _)) as Hend.
  rewrite iend64_ok by lia. change (rg_address r) with (istart r).
  destruct (decide (istart r <= cur)) as [Hle|Hgt].
  2:{ replace (cur <? istart r) with true by lia. cbn [orb]. split; [done|].
      intros Hall. destruct (Hall cur) as (p & Hp & _); [lia|].
      unfold content in Hp. by rewrite Hst in Hp. }
  replace (cur <? istart r) with false by lia. replace (cur >=? iend r) with false by lia. cbn [orb].
  assert (Hin : forall a, cur <= a < iend r -> content (r :: rest) a = Some (rg_protection r)).
  { intros a Ha. unfold content. rewrite range_at_cons, decide_True; [done|]. unfold inside. lia. }
  destruct (Z.land (rg_protection r) required =? required) eqn:Ep; cbn [negb].
  2:{ split; [done|]. intros Hall. destruct (Hall cur) as (p & Hp & Hl); [lia|].
      rewrite Hin in Hp by lia. injection Hp as <-. lia. }
  rewrite (sub64_small (iend r)) by lia.
  destruct (remaining =? 0) eqn:Er.
  { split; [|done]. intros _ a Ha. exists (rg_protection r). split; [apply Hin|]; lia. }
  rewrite sub64_small by lia. destruct (remaining - _ =? 0) eqn:Er'.
  { split; [|done]. intros _ a Ha. exists (rg_protection r). split; [apply Hin|]; lia. }
  rewrite add64_small by lia. rewrite IH; [|done|lia|lia|lia|].
  2:{ intros r' Hr'. specialize (Hb r' Hr'). apply (ro_valid_elem _ _ _ _ Hokr) in Hr' as (?&?&?).
      unfold before, iend in *. lia. }
  split; intros Hall a Ha.
  - destruct (decide (a < iend r)) as [Hlt|Hge].
    + exists (rg_protection r). split; [apply Hin|]; lia.
    + unfold content. rewrite (walk_rest lo hi) by (done || lia). apply Hall. lia.
  - destruct (Hall a ltac:(lia)) as (p & Hp & Hl). exists p. split; [|done].
    unfold content in *. rewrite (walk_rest lo hi) in Hp by (done || lia). done.
Qed.

Lemma accessible_contained m address length required :
  gm_ok m -> 0 < length -> accessible m address length required ->
  base_address_ m <= address /\ address + length <= gm_end m.
Proof.
  intros Hm Hl Hac.
  assert (Hin : forall a, address <= a < address + length -> base_address_ m <= a < gm_end m).
  { intros a Ha. destruct (Hac a Ha) as (p & Hp & _). unfold prot_view, content in Hp.
    apply fmap_Some in Hp as (r & [Hr Hi]%range_at_Some & _).
    apply (ro_valid_elem _ _ _ _ (go_regions m Hm)) in Hr. unfold valid_in, inside in *. lia. }
  pose proof (Hin address ltac:(lia)). pose proof (Hin (address + length - 1) ltac:(lia)). lia.
Qed.

Lemma CanAccessLocked_iff m address length required :
  gm_ok m -> is_u64 address -> 0 <= length ->
  CanAccessLocked address length required m = true <->
  accessible m address (Z.max 1 length) required.
Proof.
  intros Hm Ha Hl. unfold CanAccessLocked. destruct (go_window m Hm) as (W1 & W2 & W3).
  pose proof (GuestContains_iff m address length Hm Ha Hl) as Hc.
  destruct (Contains address length m); cbn [negb].
  2:{ split; [done|]. intros Hac. apply accessible_contained in Hac; [|done|lia].
      assert (false = true) by (apply Hc; lia). done. }
  destruct Hc as [Hc _]. destruct (Hc eq_refl) as [C1 C2]. unfold is_u64 in Ha.
  pose proof (from_containing_spec _ _ (regions_ m) address W1 W3 (go_regions m Hm)) as Hf.
  destruct (range_at (regions_ m) address) as [r|] eqn:Er.
  - destruct Hf as (pre & rest & Heq & -> & Hpre). pose proof (go_regions m Hm) as Hok.
    rewrite Heq in Hok. pose proof Hok as (_ & Hok' & _)%ranges_ok_app.
    apply range_at_Some in Er as [Hr Hi]. unfold inside in Hi.
    rewrite (access_loop_iff (base_address_ m) (gm_end m)); [|lia|lia|done|lia|lia|lia|].
    + unfold accessible, prot_view. split; intros Hall a Haa; destruct (Hall a Haa) as (p & Hp & ?);
        exists p; (split; [|done]); unfold content in *; rewrite Heq in *;
        [rewrite (range_at_suffix (base_address_ m) (gm_end m))
        |rewrite (range_at_suffix (base_address_ m) (gm_end m)) in Hp]; try done;
        intros r' Hr'; specialize (Hpre r' Hr'); lia.
    + intros r' Hr'. pose proof (head_nearest _ _ _ _ _ Hok' Hr').
      apply elem_of_cons in Hr' as [->|Hr']; [lia|].
      apply ranges_ok_cons in Hok' as (_ & Hokr & Hb). specialize (Hb r' Hr').
      apply (ro_valid_elem _ _ _ _ Hokr) in Hr' as (?&?&?). unfold before, iend in *. lia.
  - rewrite Hf. simpl. split; [done|]. intros Hac. destruct (Hac address) as (p & Hp & _); [lia|].
    unfold prot_view, content in Hp. by rewrite Er in Hp.
Qed.

(** ** Searching for a free window *)

Lemma pow2_bounds k : 0 <= k < 64 -> 0 < 2 ^ k /\ 2 ^ k - 1 < u64_max.
Proof.
  intros Hk. pose proof (Z.pow_pos_nonneg 2 k ltac:(lia) ltac:(lia)).
  assert (2 ^ k <= 2 ^ 63) by (apply Z.pow_le_mono_r; lia).
  change (2 ^ 63) with 9223372036854775808 in *. u64_lia.
Qed.

Lemma align_up_spec k x :
  0 <= k < 64 -> is_u64 x ->
  match align_up (2 ^ k) x with
  | Some y => x <= y /\ is_u64 y /\ y mod 2 ^ k = 0 /\
              (forall c, x <= c -> c mod 2 ^ k = 0 -> y <= c)
  | None => forall c, x <= c -> c mod 2 ^ k = 0 -> u64_max < c
  end.
Proof.
  intros Hk [Hx0 Hx1]. destruct (pow2_bounds k Hk) as [Hp Hp1]. unfold align_up.
  rewrite (sub64_small (2 ^ k) 1) by lia. rewrite (sub64_small u64_max) by lia.
  destruct (x >? u64_max - (2 ^ k - 1)) eqn:E.
  - intros c Hc Hmod. apply Z.mod_divide in Hmod as [q ->]; [|lia].
    assert (Hm : u64_max + 1 = 2 ^ (64 - k) * 2 ^ k).
    { rewrite <- Z.pow_add_r by lia. replace (64 - k + k) with 64 by lia.
      rewrite u64_max_eq. reflexivity. }
    set (w := 2 ^ (64 - k)) in *. set (p := 2 ^ k) in *.
    assert (w < q + 1) by (apply (Z.mul_lt_mono_pos_r p); lia).
    assert (w * p <= q * p) by (apply Z.mul_le_mono_nonneg_r; lia). lia.
  - destruct (align_up_mask_spec x k) as [Q1 Q2]; [lia|lia|lia|]. cbn zeta in *.
    unfold is_u64. split_and!; [lia|lia|lia|done|].
    intros c Hc Hmod. apply align_up_mask_least; lia.
Qed.

Lemma mod_pow2_weaken c j k : 0 <= j <= k -> c mod 2 ^ k = 0 -> c mod 2 ^ j = 0.
Proof.
  intros Hjk Hc. apply Z.mod_divide in Hc as [q ->]; [|apply Z.pow_nonzero; lia].
  replace k with (k - j + j) by lia. rewrite Z.pow_add_r, Z.mul_assoc by lia.
  apply Z.mod_mul, Z.pow_nonzero; lia.
Qed.

(** A window of the memory clear of every region. *)
Definition free_window m address length : Prop :=
  base_address_ m <= address /\ address + length <= gm_end m /\
  forall r, r ∈ regions_ m -> address + length <= istart r \/ iend r <= address.

Lemma free_window_iff m address length :
  gm_ok m -> 0 < length ->
  free_window m address length <->
  base_address_ m <= address /\ address + length <= gm_end m /\
  forall a, address <= a < address + length -> prot_view m a = None.
Proof.
  intros Hm Hl. unfold free_window, prot_view, content.
  split; intros (H1 & H2 & H3); split_and!; try done.
  - intros a Ha. apply fmap_None, range_at_absent. intros r Hr Hi. unfold inside in Hi.
    destruct (H3 r Hr); lia.
  - intros r Hr. pose proof (ro_valid_elem _ _ _ _ (go_regions m Hm) Hr) as (V1 & V2 & V3).
    destruct (decide (address + length <= istart r)); [by left|].
    destruct (decide (iend r <= address)); [by right|exfalso].
    specialize (H3 (Z.max address (istart r))). rewrite fmap_None in H3.
    apply (range_at_None (regions_ m) (Z.max address (istart r)) r); [apply H3; lia|done|].
    unfold inside, iend in *. lia.
Qed.

Section search.
Context (m : GuestMemory) (Hm : gm_ok m) (k : Z) (Hk : 0 <= k < 64).
Context (length : Z) (Hl : 0 < length <= u64_max).

Definition least_free (from : Z) (result : option Z) : Prop :=
  match result with
  | Some c => from <= c /\ c mod 2 ^ k = 0 /\ free_window m c length /\
      forall c', from <= c' -> c' mod 2 ^ k = 0 -> free_window m c' length -> c <= c'
  | None => forall c', from <= c' -> c' mod 2 ^ k = 0 -> ~ free_window m c' length
  end.

(** The search can move on when nothing fits before. *)
Lemma least_free_skip from to result :
  from <= to -> (forall c', from <= c' -> c' mod 2 ^ k = 0 -> free_window m c' length -> to <= c') ->
  least_free to result -> least_free from result.
Proof.
  intros Hle Hskip. destruct result as [c|]; simpl.
  - intros (H1 & H2 & H3 & H4). split_and!; [lia|done|done|].
    intros c' Hc' Hmod Hf. apply H4; [|done|done]. by apply Hskip.
  - intros Hno c' Hc' Hmod Hf. apply (Hno c'); [|done|done]. by apply Hskip.
Qed.

Lemma find_unmapped_loop_spec passed rs candidate :
  regions_ m = passed ++ rs -> (forall r, r ∈ passed -> iend r <= candidate) ->
  base_address_ m <= candidate -> is_u64 candidate -> candidate mod 2 ^ k = 0 ->
  least_free candidate (find_unmapped_loop (2 ^ k) length candidate rs m).
Proof.
  destruct (go_window m Hm) as (W1 & W2 & W3).
  revert passed candidate. induction rs as [|r rs IH];
    intros passed candidate Heq Hpass Hbase Hu Hal; simpl find_unmapped_loop.
  { pose proof (GuestContains_iff m candidate length Hm Hu ltac:(lia)) as Hc.
    rewrite app_nil_r in Heq. destruct (Contains candidate length m).
    - destruct Hc as [Hc _]. destruct (Hc eq_refl). split_and!; [lia|done| |by intros].
      split_and!; [lia|lia|]. intros r Hr. right. apply Hpass. by rewrite <- Heq.
    - intros c' Hc' Hmod (F1 & F2 & F3). assert (false = true) by (apply Hc; lia). done. }
  assert (Heq' : regions_ m = (passed ++ [r]) ++ rs) by (rewrite Heq, <- app_assoc; done).
  assert (Hr : r ∈ regions_ m) by (rewrite Heq; apply elem_of_app; right; apply list_elem_of_here).
  pose proof (ro_valid_elem _ _ _ _ (go_regions m Hm) Hr) as (V1 & V2 & V3).
  rewrite iend64_ok by lia. change (rg_address r) with (istart r).
  assert (Hpass' : forall to, candidate <= to -> iend r <= to ->
            forall r', r' ∈ passed ++ [r] -> iend r' <= to).
  { intros to Hto Hrto r' [Hr'| ->%list_elem_of_singleton]%elem_of_app; [|done].
    specialize (Hpass r' Hr'). lia. }
  destruct (iend r <=? candidate) eqn:E1; [apply (IH (passed ++ [r])); auto with lia|].
  destruct Hu as [Hu0 Hu1]. assert (Hsub : candidate < istart r ->
    (istart r - candidate)%u64 = istart r - candidate) by (intros; apply sub64_small; unfold iend in *; lia).
  destruct ((candidate <? istart r) && _) eqn:E2.
  - apply andb_true_iff in E2 as [E2 E3]. rewrite Hsub in E3 by lia.
    split_and!; [lia|done| |by intros]. split_and!; [lia|unfold iend in *; lia|].
    intros r' Hr'. rewrite Heq in Hr'. apply elem_of_app in Hr' as [Hr'|Hr'].
    + right. by apply Hpass.
    + left. pose proof (go_regions m Hm) as Hok. rewrite Heq in Hok.
      apply ranges_ok_app in Hok as (_ & Hok & _).
      pose proof (head_nearest _ _ _ _ _ Hok Hr'). lia.
  - assert (Hskip : forall c', candidate <= c' -> free_window m c' length -> iend r <= c').
    { intros c' Hc' (F1 & F2 & F3). destruct (F3 r Hr) as [F|F]; [exfalso|done].
      rewrite Hsub in E2 by lia. lia. }
    assert (Hend : is_u64 (iend r)) by (unfold is_u64, iend in *; lia).
    pose proof (align_up_spec k (iend r) Hk Hend) as Ha.
    destruct (align_up (2 ^ k) (iend r)) as [to|].
    + destruct Ha as (A1 & A2 & A3 & A4). apply (least_free_skip _ to); [lia| |].
      * intros c' Hc' Hmod Hf. apply A4; [by apply Hskip|done].
      * apply (IH (passed ++ [r])); auto with lia.
    + intros c' Hc' Hmod Hf. pose proof (Ha c' (Hskip c' Hc' Hf) Hmod) as Hbig.
      destruct Hf as (F1 & F2 & F3). lia.
Qed.
End search.

(** What [FindUnmappedRange] really looks for. *)
Definition placement m length alignment : option (Z * Z) :=
  if host_mapped m then
    match AlignLengthToPage length (mapping_granularity_ m) with
    | None => None
    | Some l => Some (l, Z.max alignment (mapping_granularity_ m))
    end
  else Some (length, alignment).

Lemma placement_None m length alignment c :
  gm_ok m -> placement m length alignment = None -> CanMap c length m = false.
Proof.
  intros Hm Hp. unfold placement in Hp. unfold CanMap, CanMapLocked, effective_length.
  destruct (length =? 0); [done|]. destruct (host_mapped m); [|done].
  split_match_in Hp; [done|]. by destruct (_ || _).
Qed.

Lemma placement_Some m length k l' al' :
  gm_ok m -> is_u64 length -> 0 < length -> 0 <= k < 64 ->
  placement m length (2 ^ k) = Some (l', al') ->
  exists k', 0 <= k' < 64 /\ al' = 2 ^ k' /\ 0 < l' <= u64_max /\
  forall c, is_u64 c -> (c mod 2 ^ k = 0 /\ CanMap c length m = true) <->
    (c mod 2 ^ k' = 0 /\ free_window m c l').
Proof.
  intros Hm Hl H0 Hk Hp. unfold placement in Hp. destruct (host_mapped m) eqn:Eh.
  - destruct (go_granularity m Hm Eh) as (j & Hj & Hg). rewrite Hg in Hp.
    destruct (AlignLengthToPage length (2 ^ j)) as [l|] eqn:El; [|done]. injection Hp as <- <-.
    destruct (AlignLengthToPage_spec _ _ _ Hj Hl El) as (L1 & L2 & _).
    exists (Z.max k j). split_and!; [lia|lia| |lia|lia|].
    { destruct (Z.max_spec k j) as [[? ->]|[? ->]];
        [rewrite Z.max_r|rewrite Z.max_l]; [done| |done|]; apply Z.pow_le_mono_r; lia. }
    intros c Hc. unfold CanMap. rewrite CanMapLocked_iff, free_window_iff by (done || lia).
    unfold effective_length. rewrite Eh, Hg. destruct (pow2_bounds j Hj).
    replace (2 ^ j =? 0) with false by lia. cbn [orb]. split.
    + intros (Hck & _ & l2 & He & Hf). destruct (c mod 2 ^ j =? 0) eqn:Ej; [|done].
      rewrite El in He. injection He as <-. split; [|done].
      destruct (Z.max_spec k j) as [[? ->]|[? ->]]; [lia|done].
    + intros (Hmod & Hf). split; [apply (mod_pow2_weaken c k (Z.max k j)); [lia|done]|].
      split; [done|]. exists l. split; [|done].
      rewrite (mod_pow2_weaken c j (Z.max k j)) by (done || lia). done.
  - injection Hp as <- <-. exists k. unfold is_u64 in Hl. split_and!; [lia|lia|done|lia|lia|].
    intros c Hc. unfold CanMap. rewrite CanMapLocked_iff, free_window_iff by (done || lia).
    unfold effective_length. rewrite Eh. naive_solver.
Qed.

Lemma FindUnmappedRange_spec m search_start length alignment :
  gm_ok m -> is_u64 search_start -> is_u64 length -> 0 < length ->
  is_u64 alignment -> is_power_of_two alignment = true ->
  let fits c := search_start <= c <= u64_max /\ c mod alignment = 0 /\ CanMap c length m = true in
  match FindUnmappedRange search_start length alignment m with
  | Some c => fits c /\ forall c', fits c' -> c <= c'
  | None => forall c, ~ fits c
  end.
Proof.
  intros Hm Hs Hl H0 Ha Hpow fits. destruct (is_power_of_two_spec _ Ha Hpow) as (k & Hk0 & ->).
  assert (Hk : 0 <= k < 64).
  { split; [done|]. apply (Z.pow_lt_mono_r_iff 2); [lia|lia|].
    unfold is_u64 in Ha. rewrite u64_max_eq in Ha. change (2 ^ 64) with 18446744073709551616. lia. }
  unfold FindUnmappedRange. apply andb_true_iff in Hpow as [Hz ->].
  replace (length =? 0) with false by lia. apply negb_true_iff in Hz as ->. cbn [orb negb].
  change (if host_mapped m then _ else _) with (placement m length (2 ^ k)).
  destruct (placement m length (2 ^ k)) as [[l' al']|] eqn:Ep.
  2:{ intros c (_ & _ & Hc). by rewrite (placement_None _ _ _ c Hm Ep) in Hc. }
  destruct (placement_Some _ _ _ _ _ Hm Hl H0 Hk Ep) as (k' & Hk' & -> & Hl' & Hfits).
  destruct (go_window m Hm) as (W1 & W2 & W3). pose proof Hs as [Hs0 Hs1].
  pose proof (align_up_spec k' (Z.max search_start (base_address_ m)) Hk'
    ltac:(unfold is_u64, gm_end in *; lia)) as Hup.
  assert (Hiff : forall c, fits c <->
    (search_start <= c /\ c mod 2 ^ k' = 0 /\ free_window m c l')).
  { intros c. unfold fits. split.
    - intros ([Hc1 Hc2] & Hc3). apply Hfits in Hc3; [tauto|]. unfold is_u64. lia.
    - intros (Hc1 & Hc2). pose proof Hc2 as [_ (F1 & F2 & _)].
      apply Hfits in Hc2; [split; [lia|done]|]. unfold is_u64. lia. }
  destruct (align_up (2 ^ k') _) as [from|].
  - destruct Hup as (A1 & A2 & A3 & A4).
    pose proof (find_unmapped_loop_spec m Hm k' Hk' l' Hl' [] (regions_ m) from eq_refl) as Hloop.
    destruct (find_unmapped_loop _ _ _ _ _) as [c|]; simpl in Hloop.
    + destruct Hloop as (C1 & C2 & C3 & C4); [by intros ? ?%elem_of_nil|lia|done|done|].
      rewrite Hiff. split; [split_and!; [lia|done|done]|].
      intros c' (D1 & D2 & D3)%Hiff. pose proof D3 as [D4 _]. apply C4; [apply A4; [lia|done]|done|done].
    + intros c (D1 & D2 & D3)%Hiff. pose proof D3 as [D4 _].
      apply (Hloop ltac:(by intros ? ?%elem_of_nil) ltac:(lia) A2 A3 c); [apply A4; [lia|done]|done|done].
  - intros c (D1 & D2 & D3)%Hiff. destruct D3 as (D4 & D5 & _).
    specialize (Hup c ltac:(lia) D2). lia.
Qed.

(** [FindUnmappedRange] returns the least address, at or above the search
    start and a multiple of the requested alignment, at which [CanMap] accepts
    the requested length (page rounding and page alignment of a host-mapped
    memory included), and fails exactly when there is no such address. *)
Theorem FindUnmappedRange_least m search_start length alignment :
  gm_ok m -> is_u64 search_start -> is_u64 length -> 0 < length ->
  is_u64 alignment -> is_power_of_two alignment = true ->
  let fits c := search_start <= c <= u64_max /\ c mod alignment = 0 /\ CanMap c length m = true in
  match FindUnmappedRange search_start length alignment m with
  | Some c => fits c /\ forall c', fits c' -> c <= c'
  | None => forall c, ~ fits c
  end.
Proof. apply FindUnmappedRange_spec. Qed.
