(* ===== verification/GuestMemoryOps.v ===== *)
(** [Map], [MapShared], [Protect] and [Unmap] of [memory::GuestMemory]: each
    operation keeps the invariant and is a pointwise update of the views
    [prot_view] and [gen_view] of [GuestMemoryMap]. *)
From S2P Require Import Prelude Ranges SharedBacking GuestMemory GuestMemoryMap.

Implicit Types (m : GuestMemory) (address length : Z).

(** ** Generations *)

Lemma gen_ltb_trans a b c : gen_ltb a b = true -> gen_ltb b c = true -> gen_ltb a c = true.
Proof. unfold gen_ltb. lia. Qed.

Lemma gen_le_lt_trans a b c : gen_le a b -> gen_ltb b c = true -> gen_ltb a c = true.
Proof. unfold gen_le, gen_ltb. lia. Qed.

Lemma gen_lt_le a b : gen_ltb a b = true -> gen_le a b.
Proof. unfold gen_le, gen_ltb. lia. Qed.

Lemma gen_le_refl a : gen_le a a.
Proof. unfold gen_le, gen_ltb. lia. Qed.

#[local] Hint Resolve gen_le_refl : core.

Lemma gen_le_trans a b c : gen_le a b -> gen_le b c -> gen_le a c.
Proof. unfold gen_le, gen_ltb. lia. Qed.

Definition gen_u64 (g : GuestMemoryGeneration) : Prop :=
  is_u64 (gen_epoch g) /\ is_u64 (gen_sequence g).

(** Advancing gives a strictly newer generation; it fails only at the very end. *)
Lemma Advance_spec g :
  gen_u64 g ->
  match AdvanceGuestMemoryGeneration g with
  | Some g' => gen_ltb g g' = true /\ gen_u64 g'
  | None => gen_epoch g = u64_max /\ gen_sequence g = u64_max
  end.
Proof.
  intros [[E1 E2] [S1 S2]]. unfold AdvanceGuestMemoryGeneration, gen_u64, is_u64.
  repeat split_match; simpl; unfold gen_ltb; simpl.
  - rewrite add64_small by lia. lia.
  - lia.
  - rewrite add64_small by lia. rewrite u64_max_eq in *. lia.
Qed.

(** ** Preservation of the invariant, field by field *)

Lemma with_tables_ok m r i s :
  gm_ok m ->
  ranges_ok (base_address_ m) (gm_end m) r -> ranges_ok (base_address_ m) (gm_end m) i ->
  ranges_ok (base_address_ m) (gm_end m) s ->
  (forall a, is_Some (content r a) <-> is_Some (content i a)) ->
  (forall a, is_Some (range_at s a) -> is_Some (content r a)) ->
  (forall a g, content i a = Some g -> gen_le g (next_mapping_generation_ m) /\
     0 <= gen_epoch g /\ 0 <= gen_sequence g) ->
  (host_mapped m = true -> s = []) ->
  (forall x, x ∈ s -> exists b, backings m !! sm_backing x = Some b /\
     0 <= sm_backing_offset x /\ sm_backing_offset x + sm_size x <= bk_size_ b) ->
  gm_ok (with_tables m r i s).
Proof. intros []. by split. Qed.

Lemma host_calls_ok m n : gm_ok m -> gm_ok (with_host_calls m n).
Proof. intros []. by split. Qed.

(** An event is newer than everything reported before, until the generations
    run out. *)
Lemma NotifyWrite_spec address length m :
  gm_ok m -> length <> 0 ->
  exists g ex, NotifyWrite address length m = with_write_event m g ex (mkWriteEvent address length g ex) /\
    gen_u64 g /\ gen_le (write_generation_ m) g /\
    (ex = false -> gen_ltb (write_generation_ m) g = true).
Proof.
  intros Hm Hl. unfold NotifyWrite. replace (length =? 0) with false by lia.
  pose proof (Advance_spec (write_generation_ m) (go_write m Hm)) as Ha.
  destruct (write_generation_exhausted_ m).
  { exists (write_generation_ m), true. split_and!; try done. apply (go_write m Hm). }
  destruct (AdvanceGuestMemoryGeneration (write_generation_ m)) as [g|].
  - destruct Ha as [Hlt Hu]. exists g, false. split_and!; try done. by apply gen_lt_le.
  - exists (write_generation_ m), true. split_and!; try done. apply (go_write m Hm).
Qed.

Lemma NotifyWrite_ok address length m : gm_ok m -> gm_ok (NotifyWrite address length m).
Proof.
  intros Hm. destruct (decide (length = 0)) as [->|Hl]; [done|].
  destruct (NotifyWrite_spec address length m Hm Hl) as (g & ex & -> & Hu & _).
  destruct Hm. by split.
Qed.

Lemma with_bytes_ok m b :
  gm_ok m -> List.length b = List.length (bytes_ m) -> gm_ok (with_bytes m b).
Proof. intros [] Hl. split; try done. simpl. by rewrite Hl. Qed.

(** The tables of two memories are the same. *)
Record same_tables m m' : Prop := {
  st_regions : regions_ m' = regions_ m;
  st_identities : mapping_identity_regions_ m' = mapping_identity_regions_ m;
  st_shared : shared_mappings_ m' = shared_mappings_ m
}.

Lemma same_tables_views m m' :
  same_tables m m' ->
  (forall a, prot_view m' a = prot_view m a) /\ (forall a, gen_view m' a = gen_view m a).
Proof. intros [H1 H2 _]. unfold prot_view, gen_view. by rewrite H1, H2. Qed.

(** ** Mapping *)

Section mapping.
Context `{HostMemory}.

Lemma AllocateGeneration_spec m :
  gm_ok m ->
  let '(m1, og) := AllocateMappingGenerationLocked m in
  gm_ok m1 /\ same_tables m m1 /\ host_mapped m1 = host_mapped m /\
  base_address_ m1 = base_address_ m /\ storage_size_ m1 = storage_size_ m /\
  backings m1 = backings m /\ bytes_ m1 = bytes_ m /\
  match og with
  | Some g => gen_ltb (next_mapping_generation_ m) g = true /\ next_mapping_generation_ m1 = g
  | None => next_mapping_generation_ m1 = next_mapping_generation_ m
  end.
Proof.
  intros Hm. unfold AllocateMappingGenerationLocked.
  pose proof (Advance_spec (next_mapping_generation_ m) (go_next m Hm)) as Ha.
  assert (Hkeep : forall ex, gm_ok (with_mapping_generation m (next_mapping_generation_ m) ex))
    by (intros ex; by destruct Hm; split).
  destruct (mapping_generation_exhausted_ m); [by split_and!|].
  destruct (AdvanceGuestMemoryGeneration _) as [g|]; [|by split_and!].
  destruct Ha as [Hlt Hu]. split_and!; try done. destruct Hm. split; try done.
  intros a g' Hg'. destruct (go_generations _ _ Hg') as [Hle Hpos]. split; [|done].
  eapply gen_le_trans; [exact Hle|]. by apply gen_lt_le.
Qed.

(** Inserting a fresh range and coalescing: the content changes there only. *)
Lemma insert_coalesce {A B} `{CoalesceLaws A B} lo hi (x : A) l (v : B) :
  0 <= lo -> hi <= u64_max -> ranges_ok lo hi l -> valid_in lo hi x ->
  (forall a, imean x a = v) -> (forall a, inside x a -> range_at l a = None) ->
  ranges_ok lo hi (coalesce (range_insert x l)) /\
  forall a, content (coalesce (range_insert x l)) a =
    if decide (inside x a) then Some v else content l a.
Proof.
  intros Hlo Hhi Hok Hx Hv Hfree.
  assert (Hd : forall r, r ∈ l -> disjoint_from x r).
  { intros r Hr. pose proof (ro_valid_elem _ _ _ _ Hok Hr) as (V1 & V2 & V3).
    destruct Hx as (X1 & X2 & X3). unfold disjoint_from.
    destruct (decide (iend x <= istart r)); [by left|].
    destruct (decide (iend r <= istart x)); [by right|exfalso].
    apply (range_at_None l (Z.max (istart x) (istart r)) r); [apply Hfree|done|];
      unfold inside, iend in *; lia. }
  pose proof (range_insert_ok lo hi x l Hok Hx Hd) as Hins.
  split; [by apply coalesce_ok|]. intros a. rewrite (coalesce_content lo hi) by done.
  unfold content. rewrite (range_at_insert lo hi) by done. case_decide; [|done].
  simpl. by rewrite Hv.
Qed.

Definition in_range address length (a : Z) : Prop := address <= a < address + length.

#[global] Instance in_range_dec address length a : Decision (in_range address length a).
Proof. unfold in_range. apply _. Defined.


(** The parts of a memory that mapping leaves alone. *)
Record same_store m m' : Prop := {
  ss_base : base_address_ m' = base_address_ m;
  ss_size : storage_size_ m' = storage_size_ m;
  ss_granularity : mapping_granularity_ m' = mapping_granularity_ m;
  ss_host : host_mapped m' = host_mapped m;
  ss_backings : backings m' = backings m;
  ss_bytes : bytes_ m' = bytes_ m
}.

(** The table updates of [Map] on a memory where the window is free. *)
Lemma insert_tables_ok address l' protection g m :
  gm_ok m -> free_window m address l' -> 0 < l' -> next_mapping_generation_ m = g ->
  let m' := with_tables m
    (coalesce (range_insert (mkRegion address l' protection) (regions_ m)))
    (coalesce (range_insert (mkIdentity address l' g) (mapping_identity_regions_ m)))
    (shared_mappings_ m) in
  gm_ok m' /\
  (forall a, prot_view m' a =
     if decide (in_range address l' a) then Some protection else prot_view m a) /\
  (forall a, gen_view m' a = if decide (in_range address l' a) then Some g else gen_view m a).
Proof.
  intros Hm Hfree Hl Hg m'. destruct (go_window m Hm) as (W1 & W2 & W3).
  pose proof Hfree as (F1 & F2 & F3)%free_window_iff; [|done|done].
  assert (Hfg : forall a, address <= a < address + l' -> gen_view m a = None).
  { intros a Ha. apply eq_None_not_Some. rewrite <- (go_same m Hm). by rewrite F3. }
  destruct (insert_coalesce (base_address_ m) (gm_end m) (mkRegion address l' protection)
    (regions_ m) protection) as [R1 R2];
    [lia|lia|apply Hm|unfold valid_in, iend; simpl; lia|done| |].
  { intros a Ha. apply (fmap_None (fun r : GuestMemoryRegion => imean r a)), F3. exact Ha. }
  destruct (insert_coalesce (base_address_ m) (gm_end m) (mkIdentity address l' g)
    (mapping_identity_regions_ m) g) as [I1 I2];
    [lia|lia|apply Hm|unfold valid_in, iend; simpl; lia|done| |].
  { intros a Ha. apply (fmap_None (fun r : MappingIdentityRegion => imean r a)), Hfg. exact Ha. }
  split_and!; [|exact R2|exact I2].
  apply with_tables_ok; try done; try apply Hm.
  - intros a. rewrite R2, I2.
    change (inside (mkIdentity address l' g) a) with (inside (mkRegion address l' protection) a).
    destruct (decide _); [by split; eauto|]. apply (go_same m Hm).
  - intros a Ha. rewrite R2. case_decide; [eauto|]. by apply (go_shared_mapped m Hm).
  - intros a g'. rewrite I2. case_decide; [|apply (go_generations m Hm)].
    intros [= <-]. destruct (go_next m Hm) as [[? _] [? _]]. rewrite Hg in *.
    split; [apply gen_le_refl|done].
Qed.

Lemma MapLocked_spec address length protection m :
  gm_ok m -> is_u64 address -> is_u64 length ->
  let '(m', ok) := MapLocked address length protection m in
  gm_ok m' /\ same_store m m' /\ shared_mappings_ m' = shared_mappings_ m /\
  if ok then exists l' g,
    IsValidProtection protection = true /\ CanMap address length m = true /\
    effective_length address length m = Some l' /\ 0 < l' /\ free_window m address l' /\
    gen_ltb (next_mapping_generation_ m) g = true /\ next_mapping_generation_ m' = g /\
    (forall a, prot_view m' a =
       if decide (in_range address l' a) then Some protection else prot_view m a) /\
    (forall a, gen_view m' a = if decide (in_range address l' a) then Some g else gen_view m a)
  else same_tables m m' /\
    gen_le (next_mapping_generation_ m) (next_mapping_generation_ m').
Proof.
  intros Hm Ha Hl. unfold MapLocked.
  destruct (negb (IsValidProtection protection) || (length =? 0)) eqn:E0; [by split_and!|].
  apply orb_false_iff in E0 as [Hval%negb_false_iff Hnz].
  destruct (effective_length address length m) as [l'|] eqn:El; [|by split_and!].
  unfold is_u64 in Hl. destruct (effective_length_spec m Hm address length l' Hl ltac:(lia) El)
    as (L1 & L2 & L3).
  assert (Hcan : CanMapLocked address l' m = true <-> CanMap address length m = true).
  { unfold CanMap. rewrite !CanMapLocked_iff by (done || unfold is_u64; lia).
    rewrite L3, El. split; intros (_ & ?); (split; [lia|done]). }
  destruct (CanMapLocked address l' m) eqn:Ec; [|by split_and!]. cbn [negb].
  pose proof (AllocateGeneration_spec m Hm) as Hgen.
  destruct (AllocateMappingGenerationLocked m) as [m1 og] eqn:Eal.
  destruct Hgen as (Hm1 & [T1 T2 T3] & Hh & Hb & Hs & Hbk & Hby & Hog).
  assert (Hgr : mapping_granularity_ m1 = mapping_granularity_ m).
  { unfold AllocateMappingGenerationLocked in Eal.
    repeat split_match_in Eal; injection Eal as <- <-; done. }
  destruct og as [g|]; [|split_and!; try done; by rewrite Hog]. destruct Hog as [Hlt Hnext].
  rewrite CanMapLocked_iff in Ec by (done || unfold is_u64; lia).
  destruct Ec as (Hpos & l2 & E2 & Hfree). rewrite L3 in E2. injection E2 as <-.
  assert (Hfw : free_window m address l') by (by apply free_window_iff).
  set (step := if host_mapped m1 then ProtectHostMapping m1 else (m1, true)).
  assert (Hstep : exists n, step.1 = with_host_calls m1 n).
  { unfold step. destruct (host_mapped m1); [eexists; done|]. exists (host_calls m1). by destruct m1. }
  destruct step as [m2 ok2]. destruct Hstep as [n Hn]. simpl in Hn. subst m2.
  destruct ok2; cbn [negb].
  2:{ split_and!; try done; [by apply host_calls_ok|]. simpl. rewrite Hnext. by apply gen_lt_le. }
  destruct (insert_tables_ok address l' protection g (with_host_calls m1 n)) as (K1 & K2 & K3);
    [by apply host_calls_ok| |done|done|].
  { unfold free_window, gm_end. simpl. rewrite T1, Hb, Hs. exact Hfw. }
  split_and!; [exact K1|by split|done|]. exists l', g.
  split_and!; try done; [by apply Hcan| |].
  - intros a. rewrite K2. unfold prot_view. simpl. by rewrite T1.
  - intros a. rewrite K3. unfold gen_view. simpl. by rewrite T2.
Qed.

(** [MapLocked] does not look at the shared mappings. *)
Lemma MapLocked_shared address length protection m s :
  MapLocked address length protection
    (with_tables m (regions_ m) (mapping_identity_regions_ m) s) =
  let '(m1, ok) := MapLocked address length protection m in
  (with_tables m1 (regions_ m1) (mapping_identity_regions_ m1) s, ok).
Proof.
  unfold MapLocked.
  change (effective_length address length (with_tables m _ _ s)) with (effective_length address length m).
  destruct (_ || _); [done|]. destruct (effective_length address length m) as [l'|]; [|done].
  change (CanMapLocked address l' (with_tables m _ _ s)) with (CanMapLocked address l' m).
  destruct (CanMapLocked address l' m); [|done]. cbn [negb].
  unfold AllocateMappingGenerationLocked. cbn [with_tables mapping_generation_exhausted_
    next_mapping_generation_].
  destruct (mapping_generation_exhausted_ m); [done|].
  destruct (AdvanceGuestMemoryGeneration _) as [g|]; [|done]. simpl.
  destruct (host_mapped m); [|done]. simpl. by destruct (host_protect (host_calls m)).
Qed.

Lemma MapShared_spec address length protection backing offset m :
  gm_ok m -> is_u64 address -> is_u64 length -> is_u64 offset ->
  let '(m', ok) := MapShared address length protection backing offset m in
  gm_ok m' /\ same_store m m' /\
  if ok then exists b g, backings m !! backing = Some b /\ offset + length <= bk_size_ b /\
    host_mapped m = false /\ 0 < length /\
    IsValidProtection protection = true /\ CanMap address length m = true /\
    gen_ltb (next_mapping_generation_ m) g = true /\ next_mapping_generation_ m' = g /\
    (forall a, prot_view m' a =
       if decide (in_range address length a) then Some protection else prot_view m a) /\
    (forall a, gen_view m' a = if decide (in_range address length a) then Some g else gen_view m a) /\
    (forall a, content (shared_mappings_ m') a =
       if decide (in_range address length a) then Some (backing, offset + (a - address))
       else content (shared_mappings_ m) a)
  else same_tables m m' /\
    gen_le (next_mapping_generation_ m) (next_mapping_generation_ m').
Proof.
  intros Hm Ha Hl Ho. unfold MapShared.
  destruct (backings m !! backing) as [b|] eqn:Eb; [|by split_and!].
  pose proof (go_backings m Hm _ _ Eb) as Hb.
  destruct (_ || _ || _ || _) eqn:Eg; [by split_and!|].
  apply orb_false_iff in Eg as [Eg Hcan%negb_false_iff].
  apply orb_false_iff in Eg as [Eg Hval%negb_false_iff].
  apply orb_false_iff in Eg as [Hhost Hcon%negb_false_iff].
  unfold is_u64 in Ho, Hl. apply Contains_iff in Hcon; [|done|lia|lia].
  rewrite MapLocked_shared. pose proof (MapLocked_spec address length protection m Hm Ha Hl) as Hmap.
  destruct (MapLocked address length protection m) as [m1 ok] eqn:Emap.
  destruct Hmap as (Hm1 & Hst & Hsh & Hok). destruct ok.
  2:{ cbn [with_tables regions_ mapping_identity_regions_].
      assert (Heq : with_tables m1 (regions_ m1) (mapping_identity_regions_ m1) (shared_mappings_ m) = m1)
        by (rewrite <- Hsh; by destruct m1).
      unfold with_tables in *. cbn in *. rewrite Heq. destruct Hok. by split_and!. }
  destruct Hok as (l' & g & _ & _ & El & Hl0 & Hfree & Hlt & Hnext & Hp & Hg).
  unfold effective_length in El. rewrite Hhost in El. injection El as <-.
  destruct Hst as [S1 S2 S3 S4 S5 S6].
  destruct (go_window m Hm) as (W1 & W2 & W3). pose proof Hfree as (F1 & F2 & _).
  set (x := mkShared address length offset backing).
  assert (Hin : forall a, inside x a <-> in_range address length a) by done.
  assert (Hnone : forall a, inside x a -> range_at (shared_mappings_ m) a = None).
  { intros a Hax. apply eq_None_not_Some. intros Hs%(go_shared_mapped m Hm).
    apply free_window_iff in Hfree as (_ & _ & F3); [|done|done]. rewrite F3 in Hs; [|exact Hax].
    by destruct Hs. }
  assert (Hd : forall r, r ∈ shared_mappings_ m -> disjoint_from x r).
  { intros r Hr. pose proof (ro_valid_elem _ _ _ _ (go_shared m Hm) Hr) as (V1 & V2 & V3).
    unfold disjoint_from. destruct (decide (iend x <= istart r)); [by left|].
    destruct (decide (iend r <= istart x)); [by right|exfalso].
    apply (range_at_None (shared_mappings_ m) (Z.max (istart x) (istart r)) r); [apply Hnone|done|];
      unfold inside, iend in *; simpl in *; lia. }
  assert (Hx : valid_in (base_address_ m) (gm_end m) x) by (unfold valid_in, iend; simpl; lia).
  split_and!.
  - apply with_tables_ok; try done; try apply Hm1.
    + unfold gm_end. rewrite S1, S2. by apply range_insert_ok; [apply Hm| |].
    + intros a. rewrite (range_at_insert (base_address_ m) (gm_end m)); [|apply Hm|done|done].
      change (content (regions_ m1) a) with (prot_view m1 a). rewrite Hp.
      case_decide as Hi; [rewrite decide_True by done; eauto|].
      rewrite decide_False by (by rewrite <- Hin). apply (go_shared_mapped m Hm).
    + by rewrite S4, Hhost.
    + intros s [->|Hs]%range_insert_elem; rewrite S5; [exists b; simpl; split_and!; [done|lia|lia]|].
      by apply (go_backed m Hm).
  - by split.
  - exists b, g. split_and!; try done. intros a. simpl. unfold content.
    rewrite (range_at_insert (base_address_ m) (gm_end m)); [|apply Hm|done|done].
    destruct (decide (inside x a)) as [Hi|Hi]; [|by rewrite decide_False].
    rewrite decide_True by done. simpl. unfold imean, shared_denote. simpl. do 2 f_equal.
    apply Z.mod_small. destruct Hb as [Hsz _]. unfold inside, iend in Hi. simpl in Hi.
    rewrite u64_modulus_eq. change (2 ^ 62) with 4611686018427387904 in Hsz. lia.
Qed.

(** ** Rebuilding the region table *)

Lemma flat_map_content {A B} `{Interval A, Denote A B} lo hi (f : A -> list A) l a :
  ranges_ok lo hi l -> (forall r, r ∈ l -> pieces_ok f r) ->
  content (flat_map f l) a = range_at l a ≫= fun r => content (f r) a.
Proof.
  intros Hok Hf. unfold content. rewrite (range_at_flat_map lo hi) by done.
  by destruct (range_at l a).
Qed.

Section rebuild.
Context (lo hi : Z) (Hlo : 0 <= lo) (Hhi : hi <= u64_max).
Context (x y : Z) (Hxy : x < y) (Hx : 0 <= x) (Hy : y <= u64_max).

Lemma protect_one_ok protection r :
  valid_in lo hi r ->
  pieces_ok (protect_one x y protection) r /\
  forall a, inside r a -> content (protect_one x y protection r) a =
    Some (if decide (x <= a < y) then protection else rg_protection r).
Proof.
  intros (V1 & V2 & V3). unfold pieces_ok, protect_one. rewrite iend64_ok by lia.
  destruct r as [ad sz pr]. unfold iend, inside, content in *. simpl in *.
  destruct ((y <=? ad) || (x >=? ad + sz)) eqn:E.
  { split.
    - apply ranges_ok_cons. split_and!; [unfold valid_in, iend; simpl; lia|auto with ranges|].
      by intros ? ?%elem_of_nil.
    - intros a Ha. rewrite range_at_cons. unfold inside, iend in *. simpl in *.
      repeat case_decide; try lia; done. }
  rewrite (sub64_small (Z.min _ _)) by lia. split.
  - destruct (ad <? x) eqn:E1, (y <? ad + sz) eqn:E2; cbn [app];
      rewrite ?(sub64_small x), ?(sub64_small (ad + sz) y) by lia;
      repeat (apply ranges_ok_cons; split_and!);
      try apply ranges_ok_nil; try (unfold valid_in, iend; simpl; lia);
      intros r2 Hr2; rewrite ?elem_of_cons, ?elem_of_nil in Hr2;
      destruct_or? Hr2; subst; try done; unfold before, iend; simpl; lia.
  - intros a Ha. destruct (ad <? x) eqn:E1, (y <? ad + sz) eqn:E2; cbn [app];
      rewrite ?(sub64_small x), ?(sub64_small (ad + sz) y) by lia;
      rewrite !range_at_cons; unfold inside, iend in *; simpl in *;
      repeat case_decide; try lia; done.
Qed.

Lemma unmap_one_ok r :
  valid_in lo hi r ->
  pieces_ok (unmap_one x y) r /\
  forall a, inside r a -> content (unmap_one x y r) a =
    if decide (x <= a < y) then None else Some (rg_protection r).
Proof.
  intros (V1 & V2 & V3). unfold pieces_ok, unmap_one. rewrite iend64_ok by lia.
  destruct r as [ad sz pr]. unfold iend, inside, content in *. simpl in *.
  destruct ((y <=? ad) || (x >=? ad + sz)) eqn:E.
  { split.
    - apply ranges_ok_cons. split_and!; [unfold valid_in, iend; simpl; lia|auto with ranges|].
      by intros ? ?%elem_of_nil.
    - intros a Ha. rewrite range_at_cons. unfold inside, iend in *. simpl in *.
      repeat case_decide; try lia; done. }
  split.
  - destruct (ad <? x) eqn:E1, (y <? ad + sz) eqn:E2; cbn [app];
      rewrite ?(sub64_small x), ?(sub64_small (ad + sz) y) by lia;
      repeat (apply ranges_ok_cons; split_and!);
      try apply ranges_ok_nil; try (unfold valid_in, iend; simpl; lia);
      intros r2 Hr2; rewrite ?elem_of_cons, ?elem_of_nil in Hr2;
      destruct_or? Hr2; subst; try done; unfold before, iend; simpl; lia.
  - intros a Ha. destruct (ad <? x) eqn:E1, (y <? ad + sz) eqn:E2; cbn [app];
      rewrite ?(sub64_small x), ?(sub64_small (ad + sz) y) by lia;
      rewrite ?range_at_cons; unfold inside, iend in *; simpl in *;
      repeat case_decide; try lia; done.
Qed.
End rebuild.

(** The window of a table change is mapped, so it lies inside the memory. *)
Lemma mapped_window m address length :
  gm_ok m -> is_u64 address -> 0 < length -> IsMappedLocked address length m = true ->
  base_address_ m <= address /\ address + length <= gm_end m /\
  (forall a, in_range address length a -> is_Some (prot_view m a)).
Proof.
  intros Hm Ha Hl Hmap. unfold IsMappedLocked in Hmap. apply CanAccessLocked_iff in Hmap; [|done|done|lia].
  rewrite Z.max_r in Hmap by lia. destruct (accessible_contained _ _ _ _ Hm Hl Hmap).
  split_and!; [done|done|]. intros a Haa. destruct (Hmap a Haa) as (p & Hp & _). eauto.
Qed.

Lemma Protect_spec address length protection m :
  gm_ok m -> is_u64 address -> is_u64 length ->
  let '(m', ok) := Protect address length protection m in
  gm_ok m' /\ same_store m m' /\ shared_mappings_ m' = shared_mappings_ m /\
  mapping_identity_regions_ m' = mapping_identity_regions_ m /\
  next_mapping_generation_ m' = next_mapping_generation_ m /\
  if ok then exists l', effective_length address length m = Some l' /\
    IsValidProtection protection = true /\ IsMappedLocked address l' m = true /\ 0 < l' /\
    (forall a, prot_view m' a =
       if decide (in_range address l' a) then Some protection else prot_view m a)
  else same_tables m m'.
Proof.
  intros Hm Ha Hl. unfold Protect.
  destruct (_ || _) eqn:E0; [by split_and!|].
  apply orb_false_iff in E0 as [Hnz Hval%negb_false_iff].
  destruct (effective_length address length m) as [l'|] eqn:El; [|by split_and!].
  unfold is_u64 in Hl. destruct (effective_length_spec m Hm address length l' Hl ltac:(lia) El)
    as (L1 & L2 & L3).
  destruct (IsMappedLocked address l' m) eqn:Em; [|by split_and!]. cbn [negb].
  destruct (mapped_window m address l' Hm Ha ltac:(lia) Em) as (M1 & M2 & M3).
  destruct (go_window m Hm) as (W1 & W2 & W3). rewrite (add64_small address) by lia.
  set (f := protect_one address (address + l') protection).
  assert (Hf : forall r, r ∈ regions_ m -> pieces_ok f r /\ forall a, inside r a ->
     content (f r) a = Some (if decide (address <= a < address + l') then protection else rg_protection r)).
  { intros r Hr. apply (protect_one_ok (base_address_ m) (gm_end m)); try lia.
    by eapply ro_valid_elem; [apply Hm|]. }
  assert (Hok : ranges_ok (base_address_ m) (gm_end m) (flat_map f (regions_ m))).
  { apply ranges_ok_flat_map; [apply Hm|]. intros r Hr. by apply Hf. }
  assert (Hview : forall a, content (coalesce (flat_map f (regions_ m))) a =
     if decide (in_range address l' a) then Some protection else prot_view m a).
  { intros a. rewrite (coalesce_content (base_address_ m) (gm_end m)) by done.
    rewrite (flat_map_content (base_address_ m) (gm_end m)); [|apply Hm|intros r Hr; by apply Hf].
    unfold prot_view, content at 2. destruct (range_at (regions_ m) a) as [r|] eqn:Er; simpl.
    - apply range_at_Some in Er as [Hr Hi]. rewrite (proj2 (Hf r Hr) a Hi).
      change (in_range address l' a) with (address <= a < address + l'). by repeat case_decide.
    - case_decide as Hi; [|done]. apply M3 in Hi. unfold prot_view, content in Hi.
      rewrite Er in Hi. by destruct Hi. }
  set (step := if host_mapped m then ProtectHostMapping m else (m, true)).
  assert (Hstep : exists n, step.1 = with_host_calls m n).
  { unfold step. destruct (host_mapped m); [eexists; done|]. exists (host_calls m). by destruct m. }
  destruct step as [m2 ok2]. destruct Hstep as [n Hn]. simpl in Hn. subst m2.
  destruct ok2; cbn [negb]; [|split_and!; try done; by apply host_calls_ok].
  split_and!; try done.
  - apply with_tables_ok; try done; try apply Hm; [by apply host_calls_ok|by apply coalesce_ok| |].
    + intros a. rewrite Hview. case_decide as Hi; [|apply (go_same m Hm)].
      split; [intros _|eauto]. by apply (go_same m Hm), M3.
    + intros a Hs. rewrite Hview. case_decide; [eauto|]. by apply (go_shared_mapped m Hm).
  - exists l'. split_and!; try done. lia.
Qed.

(** ** Unmapping *)

Lemma carve_one_backed lo hi x y s s' :
  0 <= lo -> hi <= u64_max -> valid_in lo hi s -> x < y ->
  0 <= sm_backing_offset s -> sm_backing_offset s + sm_size s <= 2 ^ 62 ->
  s' ∈ carve_one x y s ->
  sm_backing s' = sm_backing s /\ 0 <= sm_backing_offset s' /\
  sm_backing_offset s' + sm_size s' <= sm_backing_offset s + sm_size s.
Proof.
  intros Hlo Hhi (V1 & V2 & V3) Hxy Ho Hsz. unfold carve_one. rewrite iend64_ok by lia.
  assert (H62 : 2 ^ 62 < u64_max) by (rewrite u64_max_eq; reflexivity).
  destruct s as [ad sz off ref]. unfold iend in *. simpl in *.
  assert (Hie : iend64 (mkShared ad sz off ref) = ad + sz)
    by (unfold iend64; simpl; apply add64_small; lia).
  repeat split_match; rewrite ?elem_of_cons, ?elem_of_nil; intros Hs'; destruct_or? Hs'; try done;
    subst s'; cbn [sm_backing sm_backing_offset sm_size]; rewrite ?Hie;
    rewrite ?(sub64_small _ ad) by lia; rewrite ?sub64_small by lia; rewrite ?add64_small by lia;
    split_and!; try done; lia.
Qed.

Lemma store_bytes_ok m offset data :
  gm_ok m -> 0 <= offset -> offset + Z.of_nat (List.length data) <= storage_size_ m ->
  gm_ok (store_bytes m offset data).
Proof.
  intros Hm Ho Hd. apply with_bytes_ok; [done|]. apply page_store_length.
  pose proof (go_bytes m Hm). lia.
Qed.

(** The tables after [Unmap]. *)
Lemma unmap_tables_ok m address l' :
  gm_ok m -> is_u64 address -> 0 < l' -> base_address_ m <= address ->
  address + l' <= gm_end m ->
  let m' := with_tables m
    (coalesce (flat_map (unmap_one address (address + l')) (regions_ m)))
    (coalesce (carve address (address + l') (mapping_identity_regions_ m)))
    (carve address (address + l') (shared_mappings_ m)) in
  gm_ok m' /\
  (forall a, prot_view m' a = if decide (in_range address l' a) then None else prot_view m a) /\
  (forall a, gen_view m' a = if decide (in_range address l' a) then None else gen_view m a) /\
  (forall a, content (shared_mappings_ m') a =
     if decide (in_range address l' a) then None else content (shared_mappings_ m) a).
Proof.
  intros Hm Ha Hl Hb He m'. destruct (go_window m Hm) as (W1 & W2 & W3). destruct Ha as [Ha0 Ha1].
  set (f := unmap_one address (address + l')) in *.
  assert (Hf : forall r, r ∈ regions_ m -> pieces_ok f r /\ forall a, inside r a ->
     content (f r) a = if decide (address <= a < address + l') then None else Some (rg_protection r)).
  { intros r Hr. apply (unmap_one_ok (base_address_ m) (gm_end m)); try lia.
    by eapply ro_valid_elem; [apply Hm|]. }
  assert (Hok : ranges_ok (base_address_ m) (gm_end m) (flat_map f (regions_ m))).
  { apply ranges_ok_flat_map; [apply Hm|]. intros r Hr. by apply Hf. }
  assert (Hview : forall a, prot_view m' a =
     if decide (in_range address l' a) then None else prot_view m a).
  { intros a. unfold m', prot_view. simpl.
    rewrite (coalesce_content (base_address_ m) (gm_end m)) by done.
    rewrite (flat_map_content (base_address_ m) (gm_end m)); [|apply Hm|intros r Hr; by apply Hf].
    unfold content at 2. destruct (range_at (regions_ m) a) as [r|] eqn:Er; simpl; [|by case_decide].
    apply range_at_Some in Er as [Hr Hi]. apply (proj2 (Hf r Hr) a Hi). }
  assert (Hci : ranges_ok (base_address_ m) (gm_end m)
                  (carve address (address + l') (mapping_identity_regions_ m)))
    by (apply carve_ok; try lia; apply Hm).
  assert (Hgen : forall a, gen_view m' a =
     if decide (in_range address l' a) then None else gen_view m a).
  { intros a. unfold m', gen_view. simpl.
    rewrite (coalesce_content (base_address_ m) (gm_end m)) by done.
    apply (carve_content (base_address_ m) (gm_end m)); try lia; apply Hm. }
  assert (Hsh : forall a, content (shared_mappings_ m') a =
     if decide (in_range address l' a) then None else content (shared_mappings_ m) a).
  { intros a. apply (carve_content (base_address_ m) (gm_end m)); try lia; apply Hm. }
  split_and!; [|done|done|done]. apply with_tables_ok; try done.
  - by apply coalesce_ok.
  - by apply coalesce_ok.
  - apply carve_ok; try lia; apply Hm.
  - intros a. change (is_Some (prot_view m' a) <-> is_Some (gen_view m' a)).
    rewrite Hview, Hgen. case_decide; [by split; intros []|]. apply (go_same m Hm).
  - intros a Hs. change (is_Some (prot_view m' a)). rewrite Hview.
    specialize (Hsh a). unfold content at 1 in Hsh.
    destruct Hs as [s Hs]. simpl in Hsh. rewrite Hs in Hsh. simpl in Hsh.
    case_decide; [done|]. apply (go_shared_mapped m Hm). unfold content in Hsh.
    destruct (range_at (shared_mappings_ m) a); [eauto|done].
  - intros a g. change (gen_view m' a = Some g -> gen_le g (next_mapping_generation_ m) /\
      0 <= gen_epoch g /\ 0 <= gen_sequence g).
    rewrite Hgen. case_decide; [done|]. apply (go_generations m Hm).
  - intros Hh. by rewrite (go_host_shared m Hm Hh).
  - intros s'. rewrite carve_eq. intros (s & Hs & Hs')%flat_map_elem.
    destruct (go_backed m Hm s Hs) as (b & Hbk & Ho & Hle).
    pose proof (go_backings m Hm _ _ Hbk) as [Hsz _].
    destruct (carve_one_backed (base_address_ m) (gm_end m) address (address + l') s s')
      as (Q1 & Q2 & Q3); try done; try lia; [by eapply ro_valid_elem; [apply Hm|]|].
    exists b. rewrite Q1. split_and!; [done|lia|lia].
Qed.

(** The shape of the memory: what no operation changes. *)
Record same_shape m m' : Prop := {
  sh_base : base_address_ m' = base_address_ m;
  sh_size : storage_size_ m' = storage_size_ m;
  sh_granularity : mapping_granularity_ m' = mapping_granularity_ m;
  sh_host : host_mapped m' = host_mapped m
}.

Definition zeroed m address length m' : Prop :=
  forall i, bytes_ m' !! i =
    if decide (in_range (address - base_address_ m) length (Z.of_nat i))
    then Some 0 else bytes_ m !! i.

Lemma store_zeros m address l' :
  gm_ok m -> 0 < l' -> base_address_ m <= address -> address + l' <= gm_end m ->
  gm_ok (store_bytes m (OffsetOf address m) (replicate (Z.to_nat l') 0)) /\
  zeroed m address l' (store_bytes m (OffsetOf address m) (replicate (Z.to_nat l') 0)).
Proof.
  intros Hm Hl Hb He. destruct (go_window m Hm) as (W1 & W2 & W3). unfold gm_end in *.
  unfold OffsetOf. rewrite sub64_small by lia. pose proof (go_bytes m Hm).
  assert (Hlen : List.length (replicate (Z.to_nat l') 0) = Z.to_nat l') by apply length_replicate.
  split; [apply store_bytes_ok; [done|lia|rewrite Hlen; lia]|].
  intros i. simpl. rewrite page_store_lookup by (rewrite Hlen; lia). rewrite Hlen. unfold in_range.
  repeat case_decide; try lia; [|done]. apply lookup_replicate_2. lia.
Qed.

Lemma Unmap_spec address length m :
  gm_ok m -> is_u64 address -> is_u64 length ->
  let '(m', ok) := Unmap address length m in
  gm_ok m' /\ same_shape m m' /\ backings m' = backings m /\
  next_mapping_generation_ m' = next_mapping_generation_ m /\
  if ok then exists l', effective_length address length m = Some l' /\ 0 < l' /\
    IsMappedLocked address l' m = true /\ zeroed m address l' m' /\
    (forall a, prot_view m' a = if decide (in_range address l' a) then None else prot_view m a) /\
    (forall a, gen_view m' a = if decide (in_range address l' a) then None else gen_view m a) /\
    (forall a, content (shared_mappings_ m') a =
       if decide (in_range address l' a) then None else content (shared_mappings_ m) a)
  else same_tables m m'.
Proof.
  intros Hm Ha Hl. unfold Unmap. destruct (length =? 0) eqn:Hnz; [by split_and!|].
  destruct (effective_length address length m) as [l'|] eqn:El; [|by split_and!].
  unfold is_u64 in Hl. destruct (effective_length_spec m Hm address length l' Hl ltac:(lia) El)
    as (L1 & L2 & L3).
  destruct (IsMappedLocked address l' m) eqn:Em; [|by split_and!]. cbn [negb].
  destruct (mapped_window m address l' Hm Ha ltac:(lia) Em) as (M1 & M2 & M3).
  destruct (go_window m Hm) as (W1 & W2 & W3). rewrite (add64_small address) by lia.
  assert (Hdone : forall n, let m1 := store_bytes (with_host_calls m n) (OffsetOf address m)
                                        (replicate (Z.to_nat l') 0) in
    gm_ok m1 /\ zeroed m address l' m1).
  { intros n. apply (store_zeros (with_host_calls m n) address l'); try done; try lia.
    by apply host_calls_ok. }
  assert (Hcommit : forall m1, gm_ok m1 -> same_shape m m1 -> same_tables m m1 ->
    let m' := with_tables m1 (coalesce (flat_map (unmap_one address (address + l')) (regions_ m)))
      (coalesce (carve address (address + l') (mapping_identity_regions_ m)))
      (carve address (address + l') (shared_mappings_ m)) in
    gm_ok m' /\
    (forall a, prot_view m' a = if decide (in_range address l' a) then None else prot_view m a) /\
    (forall a, gen_view m' a = if decide (in_range address l' a) then None else gen_view m a) /\
    (forall a, content (shared_mappings_ m') a =
       if decide (in_range address l' a) then None else content (shared_mappings_ m) a)).
  { intros m1 Hm1 [Q1 Q2 Q3 Q4] [T1 T2 T3].
    pose proof (unmap_tables_ok m1 address l' Hm1 Ha) as Hu. unfold gm_end in *.
    unfold prot_view, gen_view in *. rewrite Q1, Q2, T1, T2, T3 in Hu. apply Hu; lia. }
  destruct (host_mapped m) eqn:Hh.
  - cbn [ProtectHostMapping fst snd]. destruct (host_protect (host_calls m)); cbn [negb];
      [|split_and!; try done; by apply host_calls_ok].
    destruct (Hdone (S (host_calls m))) as [D1 D2]. cbn zeta in *.
    set (m2 := store_bytes _ _ _) in *. unfold ProtectHostMapping.
    destruct (host_protect (host_calls m2)); cbn [negb].
    + destruct (Hcommit (with_host_calls m2 (S (host_calls m2)))) as (C1 & C2 & C3 & C4);
        [by apply host_calls_ok|by split|by split|].
      split_and!; try done. exists l'. split_and!; try done. lia.
    + split_and!; [by apply NotifyWrite_ok, host_calls_ok, host_calls_ok| | | |];
        unfold NotifyWrite; repeat split_match; by split.
  - rewrite <- (L2 eq_refl). destruct (Hdone (host_calls m)) as [D1 D2].
    replace (with_host_calls m (host_calls m)) with m in * by (by destruct m). cbn zeta in *.
    set (m2 := store_bytes _ _ _) in *.
    destruct (Hcommit m2) as (C1 & C2 & C3 & C4); [done|by split|by split|].
    split_and!; try done. exists l'. split_and!; try done. lia.
Qed.
End mapping.

(** ** Mapping tokens *)

Lemma gen_max_le a b : gen_le a (gen_max a b) /\ gen_le b (gen_max a b) /\
  (gen_max a b = a \/ gen_max a b = b).
Proof. unfold gen_max. split_match; unfold gen_le, gen_ltb in *; split_and!; try lia; auto. Qed.

Lemma token_loop_spec lo hi ids cur remaining newest :
  0 <= lo -> hi <= u64_max -> ranges_ok lo hi ids -> 0 < remaining -> 0 <= cur ->
  cur + remaining <= u64_max -> (forall r, r ∈ ids -> cur < iend r) ->
  (forall a, in_range cur remaining a -> is_Some (content ids a)) ->
  exists g, token_loop ids cur remaining newest = Some g /\ gen_le newest g /\
    (g = newest \/ exists a, in_range cur remaining a /\ content ids a = Some g) /\
    (forall a x, in_range cur remaining a -> content ids a = Some x -> gen_le x g).
Proof.
  intros Hlo Hhi. revert cur remaining newest.
  induction ids as [|r rest IH]; intros cur remaining newest Hok H0 Hc Hmax Hcur Hall.
  { destruct (Hall cur) as [? [=]]. unfold in_range. lia. }
  pose proof (walk_step lo hi r rest cur Hok Hcur) as Hst.
  pose proof Hok as (Hv & Hokr & Hb)%ranges_ok_cons. pose proof Hv as (V1 & V2 & V3).
  pose proof (Hcur r (list_elem_of_here _ _)) as Hend.
  destruct (decide (istart r <= cur)) as [Hle|Hgt].
  2:{ destruct (Hall cur) as [? Hs]; [unfold in_range; lia|]. unfold content in Hs.
      by rewrite Hst in Hs. }
  simpl token_loop. rewrite iend64_ok by lia. change (id_address r) with (istart r).
  replace (cur <? istart r) with false by lia. replace (cur >=? iend r) with false by lia. cbn [orb].
  assert (Hin : forall a, cur <= a < iend r -> content (r :: rest) a = Some (id_generation r)).
  { intros a Ha. unfold content. rewrite range_at_cons, decide_True; [done|]. unfold inside. lia. }
  destruct (gen_max_le newest (id_generation r)) as (G1 & G2 & G3).
  set (nw := gen_max newest (id_generation r)) in *.
  rewrite (sub64_small (iend r)) by lia. rewrite sub64_small by lia.
  destruct (remaining - _ =? 0) eqn:Er.
  { exists nw. split_and!; [done|done| |].
    - destruct G3 as [->| ->]; [by left|right]. exists cur. unfold in_range.
      split; [lia|apply Hin; lia].
    - intros a x Ha. unfold in_range in Ha. rewrite Hin by lia. by intros [= <-]. }
  rewrite add64_small by lia.
  assert (Hrest : forall a, iend r <= a -> content (r :: rest) a = content rest a).
  { intros a Ha. unfold content. by rewrite (walk_rest lo hi). }
  destruct (IH (cur + Z.min remaining (iend r - cur)) (remaining - Z.min remaining (iend r - cur)) nw)
    as (g & Hg & Hge & Hex & Hup); [done|lia|lia|lia| | |].
  { intros r' Hr'. specialize (Hb r' Hr'). apply (ro_valid_elem _ _ _ _ Hokr) in Hr' as (?&?&?).
    unfold before, iend in *. lia. }
  { intros a Ha. unfold in_range in *. rewrite <- Hrest by lia. apply Hall. lia. }
  exists g. split_and!; [done|by eapply gen_le_trans| |].
  - destruct Hex as [->|(a & Ha & Hga)].
    + destruct G3 as [->| ->]; [by left|right]. exists cur. unfold in_range. split; [lia|apply Hin; lia].
    + right. exists a. unfold in_range in *. split; [lia|]. by rewrite Hrest by lia.
  - intros a x Ha Hx. destruct (decide (a < iend r)).
    + unfold in_range in Ha. rewrite Hin in Hx by lia. injection Hx as <-. by eapply gen_le_trans.
    + unfold in_range in *. apply (Hup a); [lia|]. rewrite <- Hrest by lia. done.
Qed.

Lemma token_start_containing address l r rest :
  from_containing address l = r :: rest -> token_start address l = r :: rest.
Proof.
  unfold from_containing, token_start. destruct (lower_split address l) as [b e].
  change (@istart MappingIdentityRegion identity_interval) with id_address.
  destruct e as [|n e].
  - destruct (last b) as [p|]; [|done]. by destruct (_ <? _).
  - destruct (id_address n =? address); [done|]. destruct (last b) as [p|]; [|done].
    by destruct (_ <? _).
Qed.

(** A token exists exactly for mapped windows and carries the newest generation
    of the window. *)
Lemma CaptureMappingToken_spec m address length :
  gm_ok m -> is_u64 address -> 0 < length ->
  match CaptureMappingToken address length m with
  | Some (g, ex) => ex = mapping_generation_exhausted_ m /\
      (forall a, in_range address length a -> exists x, gen_view m a = Some x /\ gen_le x g) /\
      (exists a, in_range address length a /\ gen_view m a = Some g)
  | None => exists a, in_range address length a /\ gen_view m a = None
  end.
Proof.
  intros Hm Ha Hl. destruct (go_window m Hm) as (W1 & W2 & W3). unfold CaptureMappingToken.
  replace (length =? 0) with false by lia. cbn [orb].
  destruct (IsMappedLocked address length m) eqn:Em; cbn [negb].
  2:{ destruct (Exists_dec (fun i => gen_view m (address + Z.of_nat i) = None)
        (seq 0 (Z.to_nat length))) as [Hex|Hno].
      - apply Exists_exists in Hex as (i & Hi%elem_of_seq & Hn).
        exists (address + Z.of_nat i). split; [unfold in_range; lia|done].
      - exfalso. enough (IsMappedLocked address length m = true) by congruence.
        apply CanAccessLocked_iff; [done|done|lia|]. intros a Haa.
        assert (Hsome : is_Some (gen_view m a)).
        { apply not_eq_None_Some. intros Hn. apply Hno, Exists_exists.
          exists (Z.to_nat (a - address)). split; [apply elem_of_seq; lia|].
          rewrite Z2Nat.id by lia. replace (address + (a - address)) with a by lia. done. }
        apply (go_same m Hm) in Hsome as [p Hp]. exists p. split; [done|]. by rewrite Z.land_0_r. }
  destruct (mapped_window m address length Hm Ha Hl Em) as (M1 & M2 & M3).
  assert (Hgv : forall a, in_range address length a -> is_Some (gen_view m a))
    by (intros a Haa; by apply (go_same m Hm), M3).
  set (ids := mapping_identity_regions_ m) in *. pose proof (go_identities m Hm) as Hok. fold ids in Hok.
  pose proof (from_containing_spec _ _ ids address W1 W3 Hok) as Hf.
  destruct (Hgv address) as [g0 Hg0]; [unfold in_range; lia|].
  unfold gen_view, content in Hg0. fold ids in Hg0.
  destruct (range_at ids address) as [r|] eqn:Er; [|done].
  destruct Hf as (pre & rest & Heq & Hfc & Hpre).
  rewrite (token_start_containing _ _ _ _ Hfc).
  pose proof Hok as Hok2. rewrite Heq in Hok2. pose proof Hok2 as (_ & Hok' & _)%ranges_ok_app.
  apply range_at_Some in Er as [Hr Hi]. unfold inside in Hi.
  assert (Hview : forall a, address <= a -> content (r :: rest) a = gen_view m a).
  { intros a Haa. unfold gen_view. fold ids. rewrite Heq. unfold content.
    rewrite (range_at_suffix (base_address_ m) (gm_end m)); [done|done|].
    intros r' Hr'. specialize (Hpre r' Hr'). lia. }
  destruct (token_loop_spec (base_address_ m) (gm_end m) (r :: rest) address length (mkGeneration 0 0))
    as (g & Hg & _ & Hex & Hup); [lia|lia|done|lia|lia|lia| | |].
  { intros r' Hr'. pose proof (head_nearest _ _ _ _ _ Hok' Hr').
    apply elem_of_cons in Hr' as [->|Hr']; [lia|].
    apply ranges_ok_cons in Hok' as (_ & Hokr & Hb). specialize (Hb r' Hr').
    apply (ro_valid_elem _ _ _ _ Hokr) in Hr' as (?&?&?). unfold before, iend in *. lia. }
  { intros a Haa. rewrite Hview by (unfold in_range in Haa; lia). by apply Hgv. }
  rewrite Hg. split_and!; [done| |].
  - intros a Haa. destruct (Hgv a Haa) as [x Hx]. exists x. split; [done|]. apply (Hup a); [done|].
    rewrite Hview by (unfold in_range in Haa; lia). done.
  - destruct Hex as [->|(a & Haa & Hga)].
    + (* every generation is at least the initial token *)
      exists address. split; [unfold in_range; lia|].
      destruct (Hgv address) as [x Hx]; [unfold in_range; lia|]. rewrite Hx.
      pose proof (Hup address x ltac:(unfold in_range; lia)) as Hle. rewrite Hview in Hle by lia.
      specialize (Hle Hx). destruct (go_generations m Hm _ _ Hx) as (_ & Hp1 & Hp2).
      destruct x as [xe xs]. unfold gen_le, gen_ltb in Hle.
      cbn [gen_epoch gen_sequence] in *. do 2 f_equal; lia.
    + exists a. split; [done|]. rewrite <- Hview by (unfold in_range in Haa; lia). done.
Qed.
