(* ===== verification/GuestMemoryData.v ===== *)
(** Locations and bytes of guest memory.

    A guest address denotes a location: a byte of the private window, or a byte
    of a shared backing.  Several addresses may denote one location (aliases).
    [ReadBytes] is shown to return the byte at the location of each address;
    writes are in [GuestMemoryWrite]. *)
From S2P Require Import Prelude Ranges SharedBacking GuestMemory GuestMemoryMap GuestMemoryOps.

Implicit Types (m : GuestMemory) (address length : Z).

(** ** Locations *)

Inductive loc := Private (a : Z) | Backed (ref off : Z).

#[global] Instance loc_eq_dec : EqDecision loc.
Proof. solve_decision. Defined.

Definition loc_of m (a : Z) : loc :=
  match content (shared_mappings_ m) a with
  | Some (ref, off) => Backed ref off
  | None => Private a
  end.

Definition byte_at m (l : loc) : Z :=
  match l with
  | Private a => default 0 (bytes_ m !! Z.to_nat (a - base_address_ m))
  | Backed ref off => match backings m !! ref with Some b => backing_byte b off | None => 0 end
  end.

Definition guest_byte m (a : Z) : Z := byte_at m (loc_of m a).

(** The locations that exist. *)
Definition valid_loc m (l : loc) : Prop :=
  match l with
  | Private a => base_address_ m <= a < gm_end m
  | Backed ref off => exists b, backings m !! ref = Some b /\ 0 <= off < bk_size_ b
  end.

Lemma loc_of_shared m a s :
  gm_ok m -> s ∈ shared_mappings_ m -> inside s a ->
  loc_of m a = Backed (sm_backing s) (sm_backing_offset s + (a - sm_address s)).
Proof.
  intros Hm Hs Hi. unfold loc_of, content.
  rewrite (range_at_elem _ _ _ _ _ (go_shared m Hm) Hs Hi). simpl. f_equal.
  destruct (go_backed m Hm s Hs) as (b & Hb & Ho & Hle).
  destruct (go_backings m Hm _ _ Hb) as [Hsz _]. unfold inside, iend in Hi. simpl in Hi.
  apply Z.mod_small. rewrite u64_modulus_eq. change (2 ^ 62) with 4611686018427387904 in Hsz. lia.
Qed.

Lemma loc_of_private m a : range_at (shared_mappings_ m) a = None -> loc_of m a = Private a.
Proof. intros Hn. unfold loc_of, content. by rewrite Hn. Qed.

(** An address denotes a backed location through the mapping that owns it. *)
Lemma loc_of_backed m a ref off :
  gm_ok m -> loc_of m a = Backed ref off ->
  exists s, s ∈ shared_mappings_ m /\ inside s a /\ sm_backing s = ref /\
    off = sm_backing_offset s + (a - sm_address s).
Proof.
  intros Hm Hl. destruct (range_at (shared_mappings_ m) a) as [s|] eqn:Er.
  - apply range_at_Some in Er as [Hs Hi]. rewrite (loc_of_shared m a s Hm Hs Hi) in Hl.
    injection Hl as <- <-. eauto.
  - by rewrite loc_of_private in Hl.
Qed.

Lemma FindSharedMapping_eq m a : gm_ok m -> FindSharedMapping a m = range_at (shared_mappings_ m) a.
Proof.
  intros Hm. destruct (go_window m Hm) as (W1 & W2 & W3).
  apply (from_containing_head (base_address_ m) (gm_end m)); [lia|lia|apply Hm].
Qed.

(** Outside the shared mappings a chunk reaches to the next one. *)
Lemma private_chunk_spec m current remaining :
  gm_ok m -> 0 <= current -> 0 < remaining -> current + remaining <= u64_max ->
  range_at (shared_mappings_ m) current = None ->
  let chunk := private_chunk current remaining m in
  0 < chunk <= remaining /\
  forall a, in_range current chunk a -> loc_of m a = Private a.
Proof.
  intros Hm Hc Hr Hmax Hnone. unfold private_chunk.
  destruct (go_window m Hm) as (W1 & W2 & W3). pose proof (go_shared m Hm) as Hok.
  destruct (lower_split_spec _ _ current _ Hok) as (Happ & Hb & He).
  pose proof (neighbours_free (base_address_ m) (gm_end m) (shared_mappings_ m) current)
    as Hfree.
  destruct (lower_split current (shared_mappings_ m)) as [b e]. cbn [fst snd] in *.
  assert (Hprev : (match last b with Some p => iend64 p >? current | None => false end) = false).
  { destruct (Hfree (current + 1)) as [_ Hf]; [lia|lia|done|lia|]. apply Hf.
    intros a Ha. replace a with current by lia. done. }
  assert (Hcase : forall y, current < y -> (match e with [] => true | n :: _ => y <=? istart n end) = true ->
            forall a, current <= a < y -> loc_of m a = Private a).
  { intros y Hy Hn a Ha. apply loc_of_private. destruct (Hfree y) as [Hf _]; [lia|lia|done|done|].
    apply Hf; [|done]. by split. }
  destruct e as [|n e]; [split; [lia|]; by apply Hcase; [lia|]|].
  assert (Hn : n ∈ shared_mappings_ m) by (rewrite <- Happ; apply elem_of_app; right; apply list_elem_of_here).
  pose proof (He n (list_elem_of_here _ _)) as Hge.
  pose proof (ro_valid_elem _ _ _ _ Hok Hn) as (V1 & V2 & V3).
  assert (Hne : istart n <> current).
  { intros Heq. apply (range_at_None _ current n Hnone Hn). unfold inside, iend in *. lia. }
  change (sm_address n) with (istart n). rewrite sub64_small by (unfold iend in *; lia).
  split; [lia|]. apply Hcase; lia.
Qed.

(** One round of a transfer: a chunk of consecutive addresses inside one shared
    mapping, or outside all of them. *)
Lemma transfer_round m current remaining :
  gm_ok m -> base_address_ m <= current -> 0 < remaining -> current + remaining <= gm_end m ->
  match FindSharedMapping current m with
  | Some s =>
      exists b, backings m !! sm_backing s = Some b /\ backing_ok b /\
      let off := (current - sm_address s)%u64 in
      let chunk := Z.min remaining (sm_size s - off)%u64 in
      let start := (sm_backing_offset s + off)%u64 in
      s ∈ shared_mappings_ m /\ off = current - sm_address s /\
      start = sm_backing_offset s + (current - sm_address s) /\
      0 < chunk <= remaining /\ current + chunk <= iend s /\ sm_address s <= current /\
      0 <= start /\ start + chunk <= bk_size_ b /\
      forall a, in_range current chunk a -> loc_of m a = Backed (sm_backing s) (start + (a - current))
  | None =>
      let chunk := private_chunk current remaining m in
      0 < chunk <= remaining /\ forall a, in_range current chunk a -> loc_of m a = Private a
  end.
Proof.
  intros Hm Hc Hr Hmax. destruct (go_window m Hm) as (W1 & W2 & W3).
  rewrite FindSharedMapping_eq by done. destruct (range_at _ current) as [s|] eqn:Er.
  - apply range_at_Some in Er as [Hs Hi]. destruct (go_backed m Hm s Hs) as (b & Hb & Ho & Hle).
    pose proof (go_backings m Hm _ _ Hb) as Hbo. pose proof Hbo as [Hsz _].
    assert (H62 : 2 ^ 62 < u64_max) by (rewrite u64_max_eq; reflexivity).
    exists b. split_and!; [done|done|]. cbn zeta. unfold inside, iend in Hi. simpl in Hi.
    rewrite (sub64_small current) by lia. rewrite sub64_small by lia. rewrite add64_small by lia.
    unfold iend. simpl. split_and!; try done; try lia.
    intros a Ha. unfold in_range in Ha. rewrite (loc_of_shared m a s Hm Hs); [f_equal; lia|].
    unfold inside, iend. simpl. lia.
  - apply private_chunk_spec; try done; lia.
Qed.

(** ** Reading *)

(** The bytes the guest sees from an address on. *)
Definition guest_bytes m address length : list Z :=
  (fun i => guest_byte m (address + Z.of_nat i)) <$> seq 0 (Z.to_nat length).

Lemma guest_bytes_length m address length : List.length (guest_bytes m address length) = Z.to_nat length.
Proof. unfold guest_bytes. by rewrite length_fmap, length_seq. Qed.

Lemma guest_bytes_lookup m address length i :
  (i < Z.to_nat length)%nat ->
  guest_bytes m address length !! i = Some (guest_byte m (address + Z.of_nat i)).
Proof. intros Hi. unfold guest_bytes. rewrite list_lookup_fmap, lookup_seq_lt by done. done. Qed.

Lemma guest_bytes_app m address n1 n2 :
  0 <= n1 -> 0 <= n2 ->
  guest_bytes m address (n1 + n2) = guest_bytes m address n1 ++ guest_bytes m (address + n1) n2.
Proof.
  intros H1 H2. unfold guest_bytes. rewrite Z2Nat.inj_add by done.
  rewrite seq_app, fmap_app. f_equal. rewrite Nat.add_0_l.
  rewrite <- (Nat.add_0_r (Z.to_nat n1)), <- fmap_add_seq, <- list_fmap_compose.
  apply list_fmap_ext. intros i x _. simpl. f_equal. lia.
Qed.

Lemma window_lookup m a :
  gm_ok m -> base_address_ m <= a < gm_end m ->
  bytes_ m !! Z.to_nat (a - base_address_ m) = Some (byte_at m (Private a)).
Proof.
  intros Hm Ha. simpl. destruct (lookup_lt_is_Some_2 (bytes_ m) (Z.to_nat (a - base_address_ m)))
    as [x Hx]; [pose proof (go_bytes m Hm); unfold gm_end in Ha; lia|]. by rewrite Hx.
Qed.

Lemma read_bytes_loop_spec fuel address size copied m :
  gm_ok m -> base_address_ m <= address -> address + size <= gm_end m ->
  0 <= copied <= size -> size - copied <= Z.of_nat fuel ->
  read_bytes_loop fuel address size copied m =
  Some (guest_bytes m (address + copied) (size - copied)).
Proof.
  intros Hm Hb He. destruct (go_window m Hm) as (W1 & W2 & W3). revert copied.
  assert (Hnil : forall a x, x <= 0 -> guest_bytes m a x = []).
  { intros a x Hx. unfold guest_bytes. by replace (Z.to_nat x) with 0%nat by lia. }
  induction fuel as [|f IH]; intros copied Hc Hf; simpl read_bytes_loop.
  { by rewrite Hnil by lia. }
  destruct (copied <? size) eqn:E; cbn [negb]; [|by rewrite Hnil by lia].
  rewrite add64_small by lia.
  pose proof (transfer_round m (address + copied) (size - copied) Hm ltac:(lia) ltac:(lia) ltac:(lia))
    as Hround.
  assert (Hjoin : forall chunk data, 0 < chunk <= size - copied ->
     data = guest_bytes m (address + copied) chunk ->
     match read_bytes_loop f address size (copied + chunk) m with
     | None => None | Some rest => Some (data ++ rest) end
     = Some (guest_bytes m (address + copied) (size - copied))).
  { intros chunk data Hch ->. rewrite IH by lia. f_equal.
    replace (size - copied) with (chunk + (size - (copied + chunk))) by lia.
    rewrite guest_bytes_app by lia. do 2 f_equal. lia. }
  destruct (FindSharedMapping (address + copied) m) as [s|].
  - destruct Hround as (b & Hbk & Hbo & R). cbn zeta in R.
    destruct R as (Hs & Eo & Es & Hch & _ & _ & H0 & Hfit & Hloc).
    set (start := (sm_backing_offset s + _)%u64) in *. set (chunk := Z.min _ _) in *.
    rewrite Hbk. simpl. rewrite Backing_Read_spec by (done || lia). apply Hjoin; [done|].
    apply list_fmap_ext. intros i x [-> Hi]%lookup_seq. unfold guest_byte.
    rewrite Hloc by (unfold in_range; lia). simpl. rewrite Hbk. f_equal. lia.
  - cbn zeta in Hround. destruct Hround as (Hch & Hloc). set (chunk := private_chunk _ _ _) in *.
    apply Hjoin; [done|]. unfold OffsetOf. rewrite sub64_small by lia.
    apply list_eq. intros i. destruct (decide (i < Z.to_nat chunk)%nat) as [Hi|Hi].
    + rewrite guest_bytes_lookup by done. rewrite lookup_take_lt, lookup_drop by lia.
      unfold guest_byte. rewrite Hloc by (unfold in_range; lia).
      rewrite <- window_lookup by (done || lia). f_equal. lia.
    + rewrite !lookup_ge_None_2; [done|rewrite guest_bytes_length; lia|].
      rewrite length_take. lia.
Qed.

Lemma ReadBytes_spec address size m :
  gm_ok m -> base_address_ m <= address -> 0 <= size -> address + size <= gm_end m ->
  ReadBytes address size m = Some (guest_bytes m address size).
Proof.
  intros Hm Hb Hs He. unfold ReadBytes. rewrite read_bytes_loop_spec by (done || lia).
  do 2 f_equal; lia.
Qed.

(** The mutation reports of [memory::GuestMemory]: [MutationReport::Add] and
    [RecordActualWriteRangeLocked].  A report either covers the whole memory or
    lists ranges; it is shown to cover exactly the addresses that denote a
    written location. *)

Implicit Types (r : MutationReport).

Definition range_ok (x : MutationRange) : Prop := valid_in 0 u64_max x.

Record report_ok r : Prop := {
  rp_ranges : forall x, x ∈ mt_ranges r -> range_ok x;
  rp_count : (List.length (mt_ranges r) <= kMaximumExactRanges)%nat
}.

Definition covers r (a : Z) : Prop :=
  mt_whole_memory r = true \/ exists x, x ∈ mt_ranges r /\ inside x a.

(** [r'] is [r] with the addresses of [P] added; nothing else is added unless
    the report falls back to the whole memory. *)
Record adds r (P : Z -> Prop) r' : Prop := {
  ad_ok : report_ok r';
  ad_covers : forall a, covers r a \/ P a -> covers r' a;
  ad_exact : mt_whole_memory r' = false ->
    mt_whole_memory r = false /\ forall a, covers r' a -> covers r a \/ P a
}.

Lemma adds_nothing r (P : Z -> Prop) : report_ok r -> (forall a, P a -> covers r a) -> adds r P r.
Proof. intros Hr HP. split; [done|naive_solver|naive_solver]. Qed.

Lemma adds_trans r P r1 Q r2 (R : Z -> Prop) :
  adds r P r1 -> adds r1 Q r2 -> (forall a, R a <-> P a \/ Q a) -> adds r R r2.
Proof.
  intros [A1 A2 A3] [B1 B2 B3] HR. split; [done| |].
  - intros a Ha. apply B2. rewrite HR in Ha. destruct Ha as [Ha|[Ha|Ha]]; auto.
  - intros Hw. destruct (B3 Hw) as [Hw1 HB]. destruct (A3 Hw1) as [Hw0 HA]. split; [done|].
    intros a Ha. rewrite HR. destruct (HB a Ha) as [Hc|Hc]; [destruct (HA a Hc); auto|auto].
Qed.

Lemma adds_ext r (P Q : Z -> Prop) r' : adds r P r' -> (forall a, P a <-> Q a) -> adds r Q r'.
Proof.
  intros [A1 A2 A3] HPQ. split; [done| |]; intros; [apply A2|]; naive_solver.
Qed.

(** ** [MutationReport::Add] *)

(** Moving the last entry into a hole removes the entry of the hole. *)
Lemma swap_remove {A} (l : list A) i (x t : A) :
  l !! i = Some x -> last l = Some t ->
  l ≡ₚ x :: take (pred (List.length l)) (<[i := t]> l).
Proof.
  intros Hi (l' & ->)%last_Some. rewrite length_app. simpl.
  replace (pred (List.length l' + 1)) with (List.length l') by lia.
  destruct (decide (i < List.length l')%nat) as [Hlt|Hge].
  - rewrite lookup_app_l in Hi by done. rewrite insert_app_l by done.
    rewrite take_app_le, take_ge by (rewrite length_insert; lia).
    rewrite insert_take_drop by done.
    rewrite <- (take_drop_middle l' i x Hi) at 1. solve_Permutation.
  - assert (i = List.length l') as ->.
    { apply lookup_lt_Some in Hi. rewrite length_app in Hi. simpl in Hi. lia. }
    rewrite list_lookup_middle in Hi by done. injection Hi as <-.
    rewrite insert_app_r_alt, Nat.sub_diag by lia. simpl.
    rewrite take_app_length. solve_Permutation.
Qed.

Definition union_at (l : list MutationRange) (s e a : Z) : Prop :=
  (exists x, x ∈ l /\ inside x a) \/ s <= a < e.

Lemma merge_loop_spec fuel index l s e :
  (forall x, x ∈ l -> range_ok x) -> 0 <= s < e -> e <= u64_max ->
  (List.length l - index <= fuel)%nat ->
  let '(l', s', e') := merge_loop fuel index l s e in
  (forall x, x ∈ l' -> range_ok x) /\ (List.length l' <= List.length l)%nat /\
  (0 <= s' < e' /\ e' <= u64_max) /\
  forall a, union_at l' s' e' a <-> union_at l s e a.
Proof.
  revert index l s e. induction fuel as [|f IH]; intros index l s e Hok Hse He Hf;
    cbn [merge_loop]; [by split_and!; try lia|].
  destruct (l !! index) as [x|] eqn:Ei; [|by split_and!; try lia].
  destruct (last l) as [t|] eqn:Et; [|by split_and!; try lia].
  assert (Hx : x ∈ l) by (by eapply list_elem_of_lookup_2).
  pose proof (Hok x Hx) as (V1 & V2 & V3). rewrite iend64_ok by lia.
  change (mr_address x) with (istart x).
  destruct ((istart x >? e) || (s >? iend x)) eqn:E.
  { apply IH; try done. lia. }
  pose proof (swap_remove l index x t Ei Et) as Hperm.
  set (l2 := take _ _) in *.
  assert (Hel : forall y, y ∈ l <-> y = x \/ y ∈ l2) by (intros y; by rewrite Hperm, elem_of_cons).
  assert (Hlen : List.length l = S (List.length l2)) by (by rewrite Hperm).
  specialize (IH index l2 (Z.min s (istart x)) (Z.max e (iend x))).
  destruct (merge_loop f index l2 _ _) as [[l' s'] e'].
  destruct IH as (I1 & I2 & I3 & I4).
  { intros y Hy. apply Hok, Hel. by right. }
  { lia. } { lia. } { lia. }
  split_and!; [done|lia|lia|lia|lia|]. intros a. rewrite I4. unfold union_at. split.
  - intros [(y & Hy & Hin)|Ha]; [left; exists y; rewrite Hel; auto|].
    destruct (decide (s <= a < e)); [by right|]. left. exists x. split; [done|].
    unfold inside. lia.
  - intros [(y & [->|Hy]%Hel & Hin)|Ha]; [right; unfold inside in Hin; lia|left; eauto|right; lia].
Qed.

Lemma Report_Add_adds address size r :
  report_ok r -> 0 <= address -> 0 <= size -> address + size <= u64_max ->
  adds r (in_range address size) (Report_Add address size r).
Proof.
  intros Hr Ha Hs He. unfold Report_Add.
  destruct (mt_whole_memory r) eqn:Ew.
  { apply adds_nothing; [done|]. intros. by left. }
  destruct (size =? 0) eqn:E0.
  { apply adds_nothing; [done|]. unfold in_range. intros. lia. }
  cbn [orb]. rewrite add64_small by lia.
  pose proof (merge_loop_spec (List.length (mt_ranges r)) 0 (mt_ranges r) address (address + size)
    (rp_ranges r Hr) ltac:(lia) He ltac:(lia)) as Hm.
  destruct (merge_loop _ _ _ _ _) as [[l s] e]. destruct Hm as (M1 & M2 & (M3 & M4) & M5).
  pose proof (rp_count r Hr) as Hcount.
  destruct (List.length l =? kMaximumExactRanges)%nat eqn:El.
  { split; [split; [by intros ? ?%elem_of_nil|simpl; unfold kMaximumExactRanges; lia]| |done].
    intros. by left. }
  apply Nat.eqb_neq in El. rewrite sub64_small by lia.
  assert (Hcov : forall a, covers (mkReport (l ++ [mkMutationRange s (e - s)]) false) a <->
                           covers r a \/ in_range address size a).
  { intros a. specialize (M5 a). unfold union_at in M5. unfold covers. simpl. rewrite Ew.
    assert (Hlast : inside (mkMutationRange s (e - s)) a <-> s <= a < e)
      by (unfold inside, iend; simpl; lia).
    setoid_rewrite elem_of_app. setoid_rewrite list_elem_of_singleton. unfold in_range.
    split.
    - intros [?|(x & [Hx| ->] & Hin)]; [done| |].
      + destruct M5 as [[?|?] _]; [left; eauto|naive_solver|naive_solver].
      + apply Hlast in Hin. destruct M5 as [[?|?] _]; [by right|naive_solver|naive_solver].
    - intros [[?|Hx]|Hx]; [done| |]; right; (destruct M5 as [_ [(y & Hy & Hin)|Hin]]; [naive_solver| |]).
      all: first [exists y; by split; [left|] | exists (mkMutationRange s (e - s)); split; [by right|by apply Hlast]]. }
  split; [split| |].
  - simpl. intros x [Hx| ->%list_elem_of_singleton]%elem_of_app; [by apply M1|].
    unfold range_ok, valid_in, iend. simpl. lia.
  - simpl. rewrite length_app. simpl. lia.
  - intros a. by rewrite Hcov.
  - intros _. split; [done|]. intros a. by rewrite Hcov.
Qed.

(** ** [RecordActualWriteRangeLocked] *)

(** The addresses that a mapping shows of a window of a backing. *)
Definition shows (s : SharedMapping) (ref bs be a : Z) : Prop :=
  sm_backing s = ref /\ inside s a /\ bs <= sm_backing_offset s + (a - sm_address s) < be.

Section record.
Context (m : GuestMemory) (Hm : gm_ok m).

Lemma alias_bounds s :
  s ∈ shared_mappings_ m ->
  0 <= sm_address s /\ 0 < sm_size s /\ sm_address s + sm_size s <= u64_max /\
  0 <= sm_backing_offset s /\ sm_backing_offset s + sm_size s <= 2 ^ 62.
Proof.
  intros Hs. destruct (go_backed m Hm s Hs) as (b & Hb & Ho & Hle).
  destruct (go_backings m Hm _ _ Hb) as [Hsz _]. destruct (go_window m Hm) as (W1 & W2 & W3).
  apply (ro_valid_elem _ _ _ _ (go_shared m Hm)) in Hs as (V1 & V2 & V3).
  unfold iend in *. simpl in *. lia.
Qed.

Lemma alias_loop_adds ref bs be aliases r reported :
  0 <= bs -> be <= 2 ^ 62 -> report_ok r -> (forall s, s ∈ aliases -> s ∈ shared_mappings_ m) ->
  let '(r', reported') := alias_loop ref bs be aliases r reported in
  adds r (fun a => exists s, s ∈ aliases /\ shows s ref bs be a) r' /\
  (reported' = true <-> reported = true \/ exists s a, s ∈ aliases /\ shows s ref bs be a).
Proof.
  intros Hbs Hbe. revert r reported.
  assert (H62 : 2 ^ 62 + 2 ^ 62 < u64_max) by (rewrite u64_max_eq; reflexivity).
  induction aliases as [|s rest IH]; intros r reported Hr Hsub; cbn [alias_loop].
  { split; [apply adds_nothing; [done|]|].
    - by intros a (? & ?%elem_of_nil & _).
    - split; [auto|]. by intros [?|(? & ? & ?%elem_of_nil & _)]. }
  assert (Hsub' : forall s', s' ∈ rest -> s' ∈ shared_mappings_ m)
    by (intros s' Hs'; apply Hsub, elem_of_cons; by right).
  destruct (alias_bounds s) as (B1 & B2 & B3 & B4 & B5); [apply Hsub, list_elem_of_here|].
  assert (Hskip : (forall a, ~ shows s ref bs be a) ->
    let '(r', reported') := alias_loop ref bs be rest r reported in
    adds r (fun a => exists s', s' ∈ s :: rest /\ shows s' ref bs be a) r' /\
    (reported' = true <-> reported = true \/ exists s' a, s' ∈ s :: rest /\ shows s' ref bs be a)).
  { intros Hno. specialize (IH r reported Hr Hsub').
    destruct (alias_loop ref bs be rest r reported) as [r' reported']. destruct IH as [I1 I2].
    assert (Hex : forall a, (exists s', s' ∈ rest /\ shows s' ref bs be a) <->
                            (exists s', s' ∈ s :: rest /\ shows s' ref bs be a)).
    { intros a. setoid_rewrite elem_of_cons. naive_solver. }
    split; [by eapply adds_ext|]. rewrite I2. split; (intros [?|(s' & a & Hs')]; [by left|right]).
    - destruct (Hex a) as [(s2 & ?) _]; eauto.
    - destruct (Hex a) as [_ (s2 & ?)]; eauto. }
  destruct (sm_backing s =? ref) eqn:Er; cbn [negb]; [|apply Hskip; intros a (Heq & _); lia].
  rewrite add64_small by lia. cbn zeta.
  destruct (_ >=? _) eqn:Eo.
  { apply Hskip. intros a (_ & Hin & Ha). unfold inside, iend in Hin. simpl in Hin. lia. }
  set (os := Z.max bs (sm_backing_offset s)) in *.
  set (oe := Z.min be (sm_backing_offset s + sm_size s)) in *.
  assert (Haddr : ((sm_address s + os)%u64 - sm_backing_offset s)%u64 =
                  sm_address s + (os - sm_backing_offset s)).
  { unfold add64, sub64. rewrite Zminus_mod_idemp_l. rewrite Z.mod_small; [lia|].
    rewrite u64_modulus_eq, u64_max_eq in *. lia. }
  rewrite Haddr.
  assert (Hshow : forall a, in_range (sm_address s + (os - sm_backing_offset s)) (oe - os) a <->
                            shows s ref bs be a).
  { intros a. unfold in_range, shows, inside, iend. simpl. lia. }
  pose proof (Report_Add_adds (sm_address s + (os - sm_backing_offset s)) (oe - os) r Hr
    ltac:(lia) ltac:(lia) ltac:(lia)) as Hadd.
  set (r1 := Report_Add _ _ r) in *.
  assert (Hhere : exists a, shows s ref bs be a).
  { exists (sm_address s + (os - sm_backing_offset s)). apply Hshow. unfold in_range. lia. }
  assert (Hrep : reported = true \/ (exists s' a, s' ∈ s :: rest /\ shows s' ref bs be a)).
  { right. destruct Hhere as [a Ha]. exists s, a. split; [apply list_elem_of_here|done]. }
  destruct (mt_whole_memory r1) eqn:Ew.
  { split; [|done]. split; [apply Hadd| |congruence]. intros. by left. }
  specialize (IH r1 true (ad_ok _ _ _ Hadd) Hsub').
  destruct (alias_loop ref bs be rest r1 true) as [r' reported']. destruct IH as [I1 I2].
  split; [|split; [done|intros _; apply I2; by left]].
  eapply adds_trans; [exact Hadd|exact I1|]. intros a. rewrite Hshow.
  setoid_rewrite elem_of_cons. naive_solver.
Qed.

(** The addresses that denote a location of the window. *)
Definition denotes_written address length (a : Z) : Prop :=
  exists x, in_range address length x /\ loc_of m a = loc_of m x.

Lemma record_loop_adds fuel current remaining r :
  report_ok r -> base_address_ m <= current -> 0 <= remaining ->
  current + remaining <= gm_end m -> remaining <= Z.of_nat fuel ->
  adds r (denotes_written current remaining) (record_loop fuel current remaining m r).
Proof.
  destruct (go_window m Hm) as (W1 & W2 & W3). revert current remaining r.
  induction fuel as [|f IH]; intros current remaining r Hr Hb H0 He Hf; cbn [record_loop].
  { apply adds_nothing; [done|]. intros a (x & Hx & _). unfold in_range in Hx. lia. }
  destruct (remaining =? 0) eqn:E0.
  { apply adds_nothing; [done|]. intros a (x & Hx & _). unfold in_range in Hx. lia. }
  destruct (mt_whole_memory r) eqn:Ew; cbn [orb].
  { apply adds_nothing; [done|]. intros. by left. }
  pose proof (transfer_round m current remaining Hm Hb ltac:(lia) He) as Hround.
  assert (Hnext : forall chunk r1, 0 < chunk <= remaining ->
    adds r (denotes_written current chunk) r1 ->
    adds r (denotes_written current remaining)
      (record_loop f (current + chunk)%u64 (remaining - chunk) m r1)).
  { intros chunk r1 Hch H1. rewrite add64_small by lia. eapply adds_trans; [exact H1| |].
    - apply (IH (current + chunk) (remaining - chunk) r1); [apply H1|lia|lia|lia|lia].
    - intros a. unfold denotes_written, in_range. split.
      + intros (x & Hx & Hl). destruct (decide (x < current + chunk)); [left|right]; exists x;
          (split; [lia|done]).
      + intros [(x & Hx & Hl)|(x & Hx & Hl)]; exists x; (split; [lia|done]). }
  destruct (FindSharedMapping current m) as [s|].
  - destruct Hround as (b & Hbk & Hbo & R). cbn zeta in R.
    destruct R as (Hs & Eo & Es & Hch & Hend & Hstart & Hpos & Hfit & Hloc).
    set (chunk := Z.min remaining _) in *. set (start := (sm_backing_offset s + _)%u64) in *.
    destruct Hbo as [Hsz _].
    assert (H62 : 2 ^ 62 < u64_max) by (rewrite u64_max_eq; reflexivity).
    rewrite (add64_small start chunk) by lia.
    pose proof (alias_loop_adds (sm_backing s) start (start + chunk) (shared_mappings_ m) r false
      Hpos ltac:(lia) Hr ltac:(done)) as Hal.
    destruct (alias_loop _ _ _ _ _ _) as [r1 reported]. destruct Hal as [Hal Hrep].
    assert (Hiff : forall a, (exists s', s' ∈ shared_mappings_ m /\
                shows s' (sm_backing s) start (start + chunk) a) <-> denotes_written current chunk a).
    { intros a. unfold denotes_written. split.
      - intros (s' & Hs' & Href & Hin & Hoff).
        exists (current + (sm_backing_offset s' + (a - sm_address s') - start)).
        unfold in_range. split; [lia|]. rewrite (loc_of_shared m a s' Hm Hs' Hin).
        rewrite Hloc by (unfold in_range; lia). rewrite Href. f_equal. lia.
      - intros (x & Hx & Hl). rewrite (Hloc x Hx) in Hl.
        destruct (loc_of_backed m a _ _ Hm Hl) as (s' & Hs' & Hin & Href & Hoff).
        exists s'. unfold in_range in Hx. unfold shows. split_and!; [done|done|done|lia|lia]. }
    assert (reported = true) as ->.
    { apply Hrep. right. destruct (Hiff current) as [_ (s' & ? & ?)]; [|eauto].
      exists current. split; [unfold in_range; lia|done]. }
    apply Hnext; [done|]. by eapply adds_ext.
  - cbn zeta in Hround. destruct Hround as (Hch & Hloc).
    set (chunk := private_chunk _ _ _) in *. apply Hnext; [done|].
    eapply adds_ext; [apply Report_Add_adds; [done|lia|lia|lia]|].
    intros a. unfold denotes_written. split.
    + intros Ha. exists a. done.
    + intros (x & Hx & Hl). rewrite (Hloc x Hx) in Hl. unfold loc_of in Hl.
      destruct (content _ a) as [[? ?]|]; [done|]. by injection Hl as ->.
Qed.
End record.
