(* ===== verification/GuestMemoryWrite.v ===== *)
(** [Read], [Write] and [Fill] of [memory::GuestMemory]: the bytes they move and
    the events they raise. *)
From S2P Require Import Prelude Ranges SharedBacking GuestMemory GuestMemoryMap GuestMemoryOps.
From S2P Require Import GuestMemoryData.

Implicit Types (m : GuestMemory) (address length : Z) (r : MutationReport).

(** ** What a transfer leaves alone *)

Record same_layout m m' : Prop := {
  sl_shape : same_shape m m';
  sl_tables : same_tables m m';
  sl_sizes : forall ref, bk_size_ <$> backings m' !! ref = bk_size_ <$> backings m !! ref;
  sl_next : next_mapping_generation_ m' = next_mapping_generation_ m;
  sl_write : write_generation_ m' = write_generation_ m;
  sl_exhausted : write_generation_exhausted_ m' = write_generation_exhausted_ m;
  sl_events : events m' = events m
}.

#[global] Instance same_layout_preorder : PreOrder same_layout.
Proof.
  split; [by intros m; split|].
  intros m1 m2 m3 [[A1 A2 A3 A4] [A5 A6 A7] A8 A9 A10 A11 A12]
    [[B1 B2 B3 B4] [B5 B6 B7] B8 B9 B10 B11 B12].
  split; [split|split|..]; intros; congruence.
Qed.

Lemma same_layout_loc m m' a : same_layout m m' -> loc_of m' a = loc_of m a.
Proof. intros [_ [_ _ Hs] _ _ _ _ _]. unfold loc_of. by rewrite Hs. Qed.

Lemma same_layout_valid m m' l : same_layout m m' -> valid_loc m l -> valid_loc m' l.
Proof.
  intros [[S1 S2 _ _] _ Hsz _ _ _ _]. destruct l as [a|ref off]; simpl.
  - unfold gm_end. by rewrite S1, S2.
  - intros (b & Hb & Ho). specialize (Hsz ref). rewrite Hb in Hsz. simpl in Hsz.
    apply fmap_Some in Hsz as (b' & Hb' & Heq). exists b'. split; [done|lia].
Qed.

Lemma with_backing_ok m ref b b' :
  gm_ok m -> backings m !! ref = Some b -> backing_ok b' -> bk_size_ b' = bk_size_ b ->
  gm_ok (with_backing m ref b') /\ same_layout m (with_backing m ref b').
Proof.
  intros Hm Hb Hb' Hsz. split.
  - destruct Hm. split; try done; simpl.
    + intros ref2 b2. rewrite lookup_insert. case_decide; [by intros [= <-]|by apply go_backings].
    + intros s Hs. destruct (go_backed s Hs) as (b2 & Hb2 & Ho & Hle). rewrite lookup_insert.
      case_decide as Hd; [|by exists b2]. exists b'. rewrite <- Hd, Hb in Hb2. injection Hb2 as <-.
      split_and!; [done|done|lia].
  - split; try done. intros ref2. simpl. rewrite lookup_insert. case_decide; [|done].
    subst ref2. rewrite Hb. simpl. by rewrite Hsz.
Qed.

(** A byte of a modified private window. *)
Lemma byte_at_store m offset data l :
  gm_ok m -> 0 <= offset -> offset + Z.of_nat (List.length data) <= storage_size_ m ->
  valid_loc m l ->
  byte_at (store_bytes m offset data) l =
  match l with
  | Private a => if decide (in_range (base_address_ m + offset) (Z.of_nat (List.length data)) a)
                 then default 0 (data !! Z.to_nat (a - base_address_ m - offset)) else byte_at m l
  | Backed _ _ => byte_at m l
  end.
Proof.
  intros Hm Ho Hle Hl. destruct l as [a|]; [|done]. simpl in *.
  pose proof (go_bytes m Hm). unfold gm_end, in_range in *.
  rewrite page_store_lookup by lia. repeat case_decide; try lia; try done. do 2 f_equal. lia.
Qed.

(** ** The transfer loop *)

Section transfer.
Context (size : Z) (d : Z -> Z).
Context (store : SharedMemoryBacking -> Z -> Z -> Z -> SharedMemoryBacking * bool).
Context (data : Z -> Z -> list Z).
Context (Hstore : forall b off i n, backing_ok b -> 0 <= off -> off + n <= bk_size_ b ->
  0 <= i -> 0 < n -> i + n <= size ->
  let '(b', ok) := store b off i n in
  ok = true /\ backing_ok b' /\ bk_size_ b' = bk_size_ b /\
  forall a, 0 <= a < bk_size_ b -> backing_byte b' a =
    if decide (off <= a < off + n) then d (i + (a - off)) else backing_byte b a).
Context (Hdata : forall i n, 0 <= i -> 0 < n -> i + n <= size ->
  Z.of_nat (List.length (data i n)) = n /\
  forall k, 0 <= k < n -> data i n !! Z.to_nat k = Some (d (i + k))).

(** The bytes [copied .. size) of the transfer have been stored, the last store
    to a location wins, and no other location changed. *)
Definition transferred m m' address (from to : Z) : Prop :=
  (forall l, valid_loc m l -> (forall i, from <= i < to -> loc_of m (address + i) <> l) ->
     byte_at m' l = byte_at m l) /\
  (forall i, from <= i < to ->
     (forall j, i < j < to -> loc_of m (address + j) <> loc_of m (address + i)) ->
     byte_at m' (loc_of m (address + i)) = d i).

Lemma transferred_trans m m1 m2 address from mid to :
  from <= mid <= to -> same_layout m m1 ->
  (forall i, from <= i < mid -> valid_loc m (loc_of m (address + i))) ->
  transferred m m1 address from mid -> transferred m1 m2 address mid to ->
  transferred m m2 address from to.
Proof.
  intros Hmid Hlay Hval [A1 A2] [B1 B2].
  assert (Hloc : forall x, loc_of m1 x = loc_of m x) by (intros; by apply same_layout_loc).
  setoid_rewrite Hloc in B1. setoid_rewrite Hloc in B2. split.
  - intros l Hl Hno. rewrite B1; [apply A1; [done|]|by eapply same_layout_valid|];
      intros i Hi; apply Hno; lia.
  - intros i Hi Hlast. destruct (decide (mid <= i)).
    + apply B2; [lia|]. intros j Hj. apply Hlast. lia.
    + rewrite B1; [apply A2; [lia|]|eapply same_layout_valid; [done|apply Hval; lia]|];
        intros j Hj; apply Hlast; lia.
Qed.

(** Every address of the memory denotes an existing location. *)
Lemma loc_of_valid m a : gm_ok m -> base_address_ m <= a < gm_end m -> valid_loc m (loc_of m a).
Proof.
  intros Hm Ha. destruct (loc_of m a) as [x|ref off] eqn:El; simpl.
  - unfold loc_of in El. destruct (content _ a) as [[? ?]|]; [done|]. by injection El as <-.
  - destruct (loc_of_backed m a ref off Hm El) as (s & Hs & Hin & <- & ->).
    destruct (go_backed m Hm s Hs) as (b & Hb & Ho & Hle). exists b. split; [done|].
    unfold inside, iend in Hin. simpl in Hin. lia.
Qed.

Lemma shared_round m address copied chunk ref b b' start :
  gm_ok m -> backings m !! ref = Some b -> 0 <= start -> start + chunk <= bk_size_ b ->
  (forall a, in_range (address + copied) chunk a ->
     loc_of m a = Backed ref (start + (a - (address + copied)))) ->
  (forall a, 0 <= a < bk_size_ b -> backing_byte b' a =
    if decide (start <= a < start + chunk) then d (copied + (a - start)) else backing_byte b a) ->
  transferred m (with_backing m ref b') address copied (copied + chunk).
Proof.
  intros Hm Hb H0 Hfit Hloc Hbyte. split.
  - intros l Hl Hno. destruct l as [a|ref2 off]; [done|]. destruct Hl as (b2 & Hb2 & Hoff). simpl.
    rewrite lookup_insert. case_decide as Hd; [|done]. subst ref2. rewrite Hb in *.
    injection Hb2 as <-. rewrite Hbyte by done. case_decide as Hin; [|done].
    destruct (Hno (copied + (off - start))); [lia|].
    rewrite Hloc by (unfold in_range; lia). f_equal. lia.
  - intros i Hi _. rewrite Hloc by (unfold in_range; lia). simpl.
    rewrite lookup_insert_eq. rewrite Hbyte by lia. rewrite decide_True by lia. f_equal. lia.
Qed.

Lemma private_round m address copied chunk bytes :
  gm_ok m -> base_address_ m <= address -> 0 <= copied -> 0 < chunk ->
  address + (copied + chunk) <= gm_end m ->
  (forall a, in_range (address + copied) chunk a -> loc_of m a = Private a) ->
  Z.of_nat (List.length bytes) = chunk ->
  (forall k, 0 <= k < chunk -> bytes !! Z.to_nat k = Some (d (copied + k))) ->
  let m1 := store_bytes m (OffsetOf (address + copied) m) bytes in
  gm_ok m1 /\ same_layout m m1 /\ transferred m m1 address copied (copied + chunk).
Proof.
  intros Hm Hb H0 Hch He Hloc Hlen Hk m1. destruct (go_window m Hm) as (W1 & W2 & W3).
  unfold m1, OffsetOf, gm_end in *. rewrite sub64_small by lia.
  set (off := address + copied - base_address_ m).
  assert (Hbyte : forall l, valid_loc m l -> _) by
    (intros l; apply (byte_at_store m off bytes l Hm ltac:(lia) ltac:(lia))).
  split_and!; [apply store_bytes_ok; [done|lia|lia]|by split|]. split.
  - intros l Hl Hno. rewrite Hbyte by done. destruct l as [a|]; [|done].
    case_decide as Hin; [|done]. unfold in_range in Hin.
    destruct (Hno (a - address)); [lia|]. replace (address + (a - address)) with a by lia.
    apply Hloc. unfold in_range. lia.
  - intros i Hi _. rewrite Hloc by (unfold in_range; lia). rewrite Hbyte by (simpl; unfold gm_end; lia).
    rewrite decide_True by (unfold in_range; lia).
    replace (address + i - base_address_ m - off) with (i - copied) by lia.
    rewrite Hk by lia. simpl. f_equal. lia.
Qed.

Lemma write_bytes_loop_spec fuel address copied m r :
  gm_ok m -> report_ok r -> base_address_ m <= address -> address + size <= gm_end m ->
  0 <= copied <= size -> size - copied <= Z.of_nat fuel ->
  let '(m', r', written, ok) := write_bytes_loop fuel address size store data copied m r in
  ok = true /\ written = size /\ gm_ok m' /\ same_layout m m' /\
  adds r (denotes_written m (address + copied) (size - copied)) r' /\
  transferred m m' address copied size.
Proof.
  intros Hm Hr Hb He. destruct (go_window m Hm) as (W1 & W2 & W3). revert m r Hm Hr Hb He W1 W2 W3 copied.
  induction fuel as [|f IH]; intros m r Hm Hr Hb He W1 W2 W3 copied Hc Hf; cbn [write_bytes_loop].
  { split_and!; [done|lia|done|done| |].
    - apply adds_nothing; [done|]. intros a (x & Hx & _). unfold in_range in Hx. lia.
    - split; intros; [done|lia]. }
  destruct (copied <? size) eqn:E; cbn [negb].
  2:{ split_and!; [done|lia|done|done| |].
    - apply adds_nothing; [done|]. intros a (x & Hx & _). unfold in_range in Hx. lia.
    - split; intros; [done|lia]. }
  rewrite add64_small by lia.
  assert (Hnext : forall chunk m1, 0 < chunk <= size - copied -> gm_ok m1 -> same_layout m m1 ->
    transferred m m1 address copied (copied + chunk) ->
    let '(m', r', written, ok) := write_bytes_loop f address size store data (copied + chunk) m1
      (RecordActualWriteRangeLocked r (address + copied) chunk m1) in
    ok = true /\ written = size /\ gm_ok m' /\ same_layout m m' /\
    adds r (denotes_written m (address + copied) (size - copied)) r' /\
    transferred m m' address copied size).
  { intros chunk m1 Hch Hm1 Hlay Htr. pose proof Hlay as [[S1 S2 _ _] _ _ _ _ _ _].
    assert (Hend : gm_end m1 = gm_end m) by (unfold gm_end; by rewrite S1, S2).
    pose proof (record_loop_adds m1 Hm1 (Z.to_nat chunk) (address + copied) chunk r Hr
      ltac:(lia) ltac:(lia) ltac:(lia) ltac:(lia)) as Hrec.
    specialize (IH m1 (record_loop (Z.to_nat chunk) (address + copied) chunk m1 r) Hm1
      (ad_ok _ _ _ Hrec) ltac:(lia) ltac:(lia) ltac:(lia) ltac:(lia) ltac:(lia)
      (copied + chunk) ltac:(lia) ltac:(lia)).
    unfold RecordActualWriteRangeLocked.
    destruct (write_bytes_loop f _ _ _ _ _ m1 _) as [[[m' r'] written] ok].
    destruct IH as (I1 & I2 & I3 & I4 & I5 & I6).
    split_and!; [done|done|done|by transitivity m1| |].
    - eapply adds_trans; [exact Hrec|exact I5|]. intros a. unfold denotes_written, in_range.
      setoid_rewrite (same_layout_loc m m1); [|done|done|done|done]. split.
      + intros (x & Hx & Hl). destruct (decide (x < address + copied + chunk)); [left|right];
          exists x; (split; [lia|done]).
      + intros [(x & Hx & Hl)|(x & Hx & Hl)]; exists x; (split; [lia|done]).
    - eapply (transferred_trans m m1 m' address copied (copied + chunk) size); try done; [lia|].
      intros i Hi. apply loc_of_valid; [done|lia]. }
  pose proof (transfer_round m (address + copied) (size - copied) Hm ltac:(lia) ltac:(lia) ltac:(lia))
    as Hround.
  destruct (FindSharedMapping (address + copied) m) as [s|].
  - destruct Hround as (b & Hbk & Hbo & R). cbn zeta in R.
    destruct R as (Hs & Eo & Es & Hch & _ & _ & H0 & Hfit & Hloc).
    set (chunk := Z.min _ _) in *. set (start := (sm_backing_offset s + _)%u64) in *.
    rewrite Hbk. pose proof (Hstore b start copied chunk Hbo H0 Hfit ltac:(lia) ltac:(lia) ltac:(lia))
      as Hst.
    destruct (store b start copied chunk) as [b' ok]. destruct Hst as (-> & Hbo' & Hsz & Hbyte).
    cbn [negb]. destruct (with_backing_ok m (sm_backing s) b b' Hm Hbk Hbo' Hsz) as [Hok1 Hlay1].
    apply Hnext; [done|done|done|]. by eapply shared_round.
  - cbn zeta in Hround. destruct Hround as (Hch & Hloc). set (chunk := private_chunk _ _ _) in *.
    destruct (Hdata copied chunk ltac:(lia) ltac:(lia) ltac:(lia)) as [Hlen Hk].
    destruct (private_round m address copied chunk (data copied chunk)) as (P1 & P2 & P3);
      try done; try lia. by apply Hnext.
Qed.
End transfer.

(** ** [WriteBytes] and [FillBytes] *)

Lemma Backing_Write_size b off source : bk_size_ (Backing_Write b off source).1 = bk_size_ b.
Proof. unfold Backing_Write. by destruct (negb _). Qed.

Lemma Backing_Fill_size b off len value : bk_size_ (Backing_Fill b off len value).1 = bk_size_ b.
Proof.
  unfold Backing_Fill, Backing_Clear. destruct (negb _); [done|]. destruct (value =? 0); [|done].
  by destruct (_ || _).
Qed.

Definition source_byte (source : list Z) (i : Z) : Z := default 0 (source !! Z.to_nat i).

Lemma slice_spec source i n :
  0 <= i -> 0 < n -> i + n <= Z.of_nat (List.length source) ->
  Z.of_nat (List.length (slice source i n)) = n /\
  forall k, 0 <= k < n -> slice source i n !! Z.to_nat k = Some (source_byte source (i + k)).
Proof.
  intros Hi Hn Hle. unfold slice, source_byte. split.
  - rewrite length_take, length_drop. lia.
  - intros k Hk. rewrite lookup_take_lt, lookup_drop by lia.
    destruct (lookup_lt_is_Some_2 source (Z.to_nat (i + k))) as [x Hx]; [lia|].
    replace (Z.to_nat i + Z.to_nat k)%nat with (Z.to_nat (i + k)) by lia. by rewrite Hx.
Qed.

(** The result of a completed transfer. *)
Definition transfer_completes (d : Z -> Z) m r address length
    (result : GuestMemory * MutationReport * Z * bool) : Prop :=
  let '(m', r', written, ok) := result in
  ok = true /\ written = length /\ gm_ok m' /\ same_layout m m' /\
  adds r (denotes_written m address length) r' /\ transferred d m m' address 0 length.

Lemma WriteBytes_spec address source m r :
  gm_ok m -> report_ok r -> base_address_ m <= address ->
  address + Z.of_nat (List.length source) <= gm_end m ->
  transfer_completes (source_byte source) m r address (Z.of_nat (List.length source))
    (WriteBytes address source m r).
Proof.
  intros Hm Hr Hb He. unfold WriteBytes, transfer_completes.
  assert (Hstore : forall b off i n, backing_ok b -> 0 <= off -> off + n <= bk_size_ b ->
    0 <= i -> 0 < n -> i + n <= Z.of_nat (List.length source) ->
    let '(b', ok) := Backing_Write b off (slice source i n) in
    ok = true /\ backing_ok b' /\ bk_size_ b' = bk_size_ b /\
    forall a, 0 <= a < bk_size_ b -> backing_byte b' a =
      if decide (off <= a < off + n) then source_byte source (i + (a - off)) else backing_byte b a).
  { intros b off i n Hbo H0 Hfit Hi Hn Hle. destruct (slice_spec source i n Hi Hn Hle) as [Hlen Hk].
    pose proof (Backing_Write_spec b off (slice source i n) Hbo H0 ltac:(lia)) as Hw.
    pose proof (Backing_Write_size b off (slice source i n)) as Hsz.
    destruct (Backing_Write b off (slice source i n)) as [b' ok]. destruct Hw as (Q1 & Q2 & Q3).
    split_and!; [done|done|done|]. intros a Ha. rewrite Q3, Hlen. repeat case_decide; try done.
    by rewrite Hk by lia. }
  pose proof (write_bytes_loop_spec _ _ _ _ Hstore (slice_spec source)
    (List.length source) address 0 m r Hm Hr Hb He ltac:(lia) ltac:(lia)) as Hloop.
  destruct (write_bytes_loop _ _ _ _ _ _ _ _) as [[[m' r'] written] ok].
  by rewrite Z.add_0_r, Z.sub_0_r in Hloop.
Qed.

Lemma FillBytes_spec address length value m r :
  gm_ok m -> report_ok r -> base_address_ m <= address -> 0 <= length ->
  address + length <= gm_end m ->
  transfer_completes (fun _ => value) m r address length (FillBytes address length value m r).
Proof.
  intros Hm Hr Hb Hl He. unfold FillBytes, transfer_completes.
  assert (Hstore : forall b off i n, backing_ok b -> 0 <= off -> off + n <= bk_size_ b ->
    0 <= i -> 0 < n -> i + n <= length ->
    let '(b', ok) := Backing_Fill b off n value in
    ok = true /\ backing_ok b' /\ bk_size_ b' = bk_size_ b /\
    forall a, 0 <= a < bk_size_ b -> backing_byte b' a =
      if decide (off <= a < off + n) then value else backing_byte b a).
  { intros b off i n Hbo H0 Hfit Hi Hn Hle.
    pose proof (Backing_Fill_spec b off n value Hbo H0 ltac:(lia) Hfit) as Hw.
    pose proof (Backing_Fill_size b off n value) as Hsz.
    destruct (Backing_Fill b off n value) as [b' ok]. destruct Hw as (Q1 & Q2 & Q3).
    by split_and!. }
  assert (Hdata : forall i n, 0 <= i -> 0 < n -> i + n <= length ->
    Z.of_nat (List.length (replicate (Z.to_nat n) value)) = n /\
    forall k, 0 <= k < n -> replicate (Z.to_nat n) value !! Z.to_nat k = Some value).
  { intros i n Hi Hn Hle. split; [rewrite length_replicate; lia|].
    intros k Hk. apply lookup_replicate_2. lia. }
  pose proof (write_bytes_loop_spec length (fun _ => value)
    (fun b off _ n => Backing_Fill b off n value) (fun _ n => replicate (Z.to_nat n) value)
    Hstore Hdata (Z.to_nat length) address 0 m r Hm Hr Hb He ltac:(lia) ltac:(lia)) as Hloop.
  destruct (write_bytes_loop _ _ _ _ _ _ _ _) as [[[m' r'] written] ok].
  by rewrite Z.add_0_r, Z.sub_0_r in Hloop.
Qed.

(** ** Events *)

(** Everything but the write log is the same. *)
Record same_content m m' : Prop := {
  sc_shape : same_shape m m';
  sc_tables : same_tables m m';
  sc_bytes : bytes_ m' = bytes_ m;
  sc_backings : backings m' = backings m;
  sc_next : next_mapping_generation_ m' = next_mapping_generation_ m
}.

#[global] Instance same_content_preorder : PreOrder same_content.
Proof.
  split; [by intros m; split|].
  intros m1 m2 m3 [[A1 A2 A3 A4] [A5 A6 A7] A8 A9 A10] [[B1 B2 B3 B4] [B5 B6 B7] B8 B9 B10].
  split; [split|split|..]; congruence.
Qed.

Lemma same_content_byte m m' l : same_content m m' -> byte_at m' l = byte_at m l.
Proof.
  intros [[S1 _ _ _] _ Hb Hbk _]. destruct l; simpl; [by rewrite S1, Hb|by rewrite Hbk].
Qed.

Definition event_covers (ev : GuestMemoryWriteEvent) (a : Z) : Prop :=
  in_range (we_address ev) (we_size ev) a.

(** Newer than a generation, or marked as exhausted. *)
Definition event_newer (g : GuestMemoryGeneration) (ev : GuestMemoryWriteEvent) : Prop :=
  gen_ltb g (we_generation ev) = true \/ we_exhausted ev = true.

(** A range of addresses that does not wrap around. *)
Definition event_ok (ev : GuestMemoryWriteEvent) : Prop :=
  0 <= we_address ev /\ 0 < we_size ev /\ we_address ev + we_size ev <= u64_max.

(** [m'] has the events [evs] more in its log: valid ranges, newer than
    everything before and not newer than the counter. *)
Record logged m m' (evs : list GuestMemoryWriteEvent) : Prop := {
  lg_events : events m' = events m ++ evs;
  lg_generation : gen_le (write_generation_ m) (write_generation_ m');
  lg_new : forall ev, ev ∈ evs -> event_ok ev /\ event_newer (write_generation_ m) ev /\
             gen_le (we_generation ev) (write_generation_ m')
}.

Lemma logged_nothing m m' :
  events m' = events m -> write_generation_ m' = write_generation_ m -> logged m m' [].
Proof.
  intros He Hg. split; [by rewrite app_nil_r|rewrite Hg; apply gen_le_refl|by intros ? ?%elem_of_nil].
Qed.

Lemma event_newer_le g g' ev : gen_le g g' -> event_newer g' ev -> event_newer g ev.
Proof. intros Hle [Hn|]; [left; by eapply gen_le_lt_trans|by right]. Qed.

Lemma logged_trans m1 m2 m3 evs evs' : logged m1 m2 evs -> logged m2 m3 evs' -> logged m1 m3 (evs ++ evs').
Proof.
  intros [A1 A2 A3] [B1 B2 B3]. split; [by rewrite B1, A1, app_assoc|by eapply gen_le_trans|].
  intros ev [Hev|Hev]%elem_of_app.
  - destruct (A3 ev Hev) as (? & ? & ?). split_and!; [done|done|by eapply gen_le_trans].
  - destruct (B3 ev Hev) as (? & ? & ?). split_and!; [done|by eapply event_newer_le|done].
Qed.

Lemma NotifyWrite_logged address length m :
  gm_ok m -> 0 <= address -> 0 < length -> address + length <= u64_max ->
  exists g ex, logged m (NotifyWrite address length m) [mkWriteEvent address length g ex] /\
    gm_ok (NotifyWrite address length m) /\ same_content m (NotifyWrite address length m).
Proof.
  intros Hm Ha Hl He. pose proof (NotifyWrite_ok address length m Hm) as Hm1.
  destruct (NotifyWrite_spec address length m Hm ltac:(lia)) as (g & ex & Heq & Hu & Hle & Hlt).
  rewrite Heq in *. exists g, ex. split_and!; [|done|by split]. split; [done|done|].
  intros ev ->%list_elem_of_singleton. unfold event_ok, event_newer. simpl.
  split_and!; [lia|lia|lia|destruct ex; auto|apply gen_le_refl].
Qed.

Lemma notify_ranges_spec ranges m :
  gm_ok m -> (forall x, x ∈ ranges -> range_ok x) ->
  let m' := fold_left (fun acc x => NotifyWrite (mr_address x) (mr_size x) acc) ranges m in
  exists evs, logged m m' evs /\ gm_ok m' /\ same_content m m' /\
    (forall a, (exists ev, ev ∈ evs /\ event_covers ev a) <-> exists x, x ∈ ranges /\ inside x a).
Proof.
  cbn zeta. revert m. induction ranges as [|x rest IH]; intros m Hm Hok; cbn [fold_left].
  { exists []. split_and!; [by apply logged_nothing|done|done|].
    intros a. by split; intros (? & ?%elem_of_nil & _). }
  destruct (Hok x (list_elem_of_here _ _)) as (V1 & V2 & V3). unfold iend in V3. simpl in V1, V2, V3.
  destruct (NotifyWrite_logged (mr_address x) (mr_size x) m Hm V1 V2 V3) as (g & ex & L1 & Hm1 & C1).
  destruct (IH _ Hm1) as (evs & L2 & E2 & E3 & E5).
  { intros y Hy. apply Hok, elem_of_cons. by right. }
  eexists (_ :: evs). split_and!; [exact (logged_trans _ _ _ _ _ L1 L2)|done|by etransitivity|].
  intros a. specialize (E5 a). setoid_rewrite elem_of_cons. split.
  - intros (ev & [->|Hev] & Hc); [exists x; split; [by left|exact Hc]|].
    destruct E5 as [(y & Hy & Hin) _]; [eauto|]. eauto.
  - intros (y & [->|Hy] & Hin); [eexists; split; [by left|exact Hin]|].
    destruct E5 as [_ (ev & Hev & Hc)]; [eauto|]. eauto.
Qed.

Lemma NotifyMutationReport_spec r m :
  gm_ok m -> report_ok r ->
  let m' := NotifyMutationReport r m in
  exists evs, logged m m' evs /\ gm_ok m' /\ same_content m m' /\
    (forall a, base_address_ m <= a < gm_end m -> covers r a ->
       exists ev, ev ∈ evs /\ event_covers ev a) /\
    if mt_whole_memory r
    then evs = [] \/ exists g ex, evs = [mkWriteEvent (base_address_ m) (storage_size_ m) g ex]
    else forall ev a, ev ∈ evs -> event_covers ev a -> covers r a.
Proof.
  intros Hm Hr. unfold NotifyMutationReport. destruct (mt_whole_memory r) eqn:Ew; cbn zeta.
  - destruct (go_window m Hm) as (W1 & W2 & W3). unfold gm_end in *.
    destruct (decide (storage_size_ m = 0)) as [Hz|Hnz].
    + rewrite Hz. exists []. split_and!; try done; [by apply logged_nothing|intros a Ha; lia|by left].
    + destruct (NotifyWrite_logged (base_address_ m) (storage_size_ m) m Hm ltac:(lia) ltac:(lia) ltac:(lia))
        as (g & ex & L & Hm1 & C). eexists. split_and!; [exact L|done|done| |eauto].
      intros a Ha _. eexists. split; [apply list_elem_of_here|]. unfold event_covers, in_range. simpl. lia.
  - destruct (notify_ranges_spec (mt_ranges r) m Hm (rp_ranges r Hr)) as (evs & E1 & E2 & E3 & E5).
    exists evs. split_and!; try done.
    + intros a _ [|Hx]; [congruence|]. by apply E5.
    + intros ev a Hev Hc. right. apply E5. eauto.
Qed.

(** ** Completed transfers *)

(** The events of a mutation: newer than everything before, covering every
    address of [P]; and only those, unless one event covers the whole memory. *)
Definition notified m m' (P : Z -> Prop) : Prop :=
  exists evs, logged m m' evs /\
    (forall a, base_address_ m <= a < gm_end m -> P a -> exists ev, ev ∈ evs /\ event_covers ev a) /\
    ((forall ev a, ev ∈ evs -> event_covers ev a -> P a) \/
     exists g ex, evs = [mkWriteEvent (base_address_ m) (storage_size_ m) g ex]).

Lemma covers_init a : ~ covers Report_init a.
Proof. intros [?|(x & ?%elem_of_nil & _)]; done. Qed.

Lemma notify_finish m m1 r (P : Z -> Prop) :
  gm_ok m1 -> same_layout m m1 -> adds Report_init P r ->
  let m' := NotifyMutationReport r m1 in
  gm_ok m' /\ same_content m1 m' /\ notified m m' P.
Proof.
  intros Hm1 [[S1 S2 _ _] _ _ _ Hw _ Hev] [R1 R2 R3] m'.
  destruct (NotifyMutationReport_spec r m1 Hm1 R1) as (evs & [L1 L2 L3] & E2 & E3 & E5 & E6).
  rewrite Hw in L2, L3. rewrite Hev in L1.
  assert (Hend : gm_end m1 = gm_end m) by (unfold gm_end; by rewrite S1, S2).
  split_and!; [done|done|]. exists evs. split_and!; [by split| |].
  - intros a Ha HP. apply E5; [lia|]. apply R2. by right.
  - destruct (mt_whole_memory r) eqn:Ew; [rewrite <- S1, <- S2; destruct E6 as [->|]; [left|by right]|left].
    + by intros ev a ?%elem_of_nil.
    + intros ev a Hev' Hc. destruct (R3 eq_refl) as [_ Hex].
      destruct (Hex a (E6 ev a Hev' Hc)) as [Hi|]; [by apply covers_init in Hi|done].
Qed.

(** The stores of a completed transfer of [length] bytes [d], as the guest sees
    them: through every alias; the last store to a location wins. *)
Definition stored (d : Z -> Z) m m' address length : Prop :=
  (forall a, base_address_ m <= a < gm_end m ->
     (forall i, 0 <= i < length -> loc_of m (address + i) <> loc_of m a) ->
     guest_byte m' a = guest_byte m a) /\
  (forall i a, 0 <= i < length -> loc_of m a = loc_of m (address + i) ->
     (forall j, i < j < length -> loc_of m (address + j) <> loc_of m (address + i)) ->
     guest_byte m' a = d i).

Lemma report_init_ok : report_ok Report_init.
Proof. split; [by intros ? ?%elem_of_nil|simpl; lia]. Qed.

Lemma finish_transfer d m address length result :
  gm_ok m -> transfer_completes d m Report_init address length result ->
  let '(m1, r, _, completed) := result in
  let m' := NotifyMutationReport r m1 in
  completed = true /\ gm_ok m' /\ same_shape m m' /\ same_tables m m' /\
  next_mapping_generation_ m' = next_mapping_generation_ m /\
  stored d m m' address length /\ notified m m' (denotes_written m address length).
Proof.
  destruct result as [[[m1 r] written] completed].
  intros Hm (-> & _ & Hm1 & Hlay & Hadd & T1 & T2) m'.
  destruct (notify_finish m m1 r _ Hm1 Hlay Hadd) as (N1 & N2 & N3). fold m' in N1, N2, N3.
  pose proof Hlay as [[S1 S2 S3 S4] [S5 S6 S7] _ S8 _ _ _].
  pose proof N2 as [[Q1 Q2 Q3 Q4] [Q5 Q6 Q7] _ _ Q8].
  assert (Hg : forall a, guest_byte m' a = byte_at m1 (loc_of m a)).
  { intros a. unfold guest_byte. rewrite (same_content_byte m1 m') by done. f_equal.
    unfold loc_of. by rewrite Q7, S7. }
  split_and!; [done|done|split; congruence|split; congruence|congruence| |done]. split.
  - intros a Ha Hno. rewrite Hg. apply T1; [by apply loc_of_valid|done].
  - intros i a Hi Hl Hlast. rewrite Hg, Hl. by apply T2.
Qed.

(** The results of [Write] and [Fill]. *)
Definition writes (d : Z -> Z) m address length (result : GuestMemory * bool) : Prop :=
  (result.2 = true <-> accessible m address (Z.max 1 length) kWrite) /\
  if result.2
  then gm_ok result.1 /\ same_shape m result.1 /\ same_tables m result.1 /\
       next_mapping_generation_ result.1 = next_mapping_generation_ m /\
       stored d m result.1 address length /\
       notified m result.1 (denotes_written m address length)
  else result.1 = m.

Lemma Write_spec address (source : list Z) m :
  gm_ok m -> is_u64 address ->
  writes (source_byte source) m address (Z.of_nat (List.length source)) (Write address source m).
Proof.
  intros Hm Ha. unfold Write, writes. rewrite <- CanAccessLocked_iff by (done || lia).
  destruct (CanAccessLocked address _ kWrite m) eqn:E; cbn [negb]; [|done].
  pose proof E as Hacc%CanAccessLocked_iff; [|done|done|lia].
  apply accessible_contained in Hacc as [Hb He]; [|done|lia].
  pose proof (finish_transfer _ _ _ _ _ Hm
    (WriteBytes_spec address source m Report_init Hm report_init_ok ltac:(lia) ltac:(lia))) as Hf.
  destruct (WriteBytes address source m Report_init) as [[[m1 r] w] completed].
  destruct Hf as (-> & Hf). done.
Qed.

Lemma Fill_spec address length value m :
  gm_ok m -> is_u64 address -> 0 <= length ->
  writes (fun _ => value) m address length (Fill address length value m).
Proof.
  intros Hm Ha Hl. unfold Fill, writes. rewrite <- CanAccessLocked_iff by (done || lia).
  destruct (CanAccessLocked address _ kWrite m) eqn:E; cbn [negb]; [|done].
  pose proof E as Hacc%CanAccessLocked_iff; [|done|done|lia].
  apply accessible_contained in Hacc as [Hb He]; [|done|lia].
  pose proof (finish_transfer _ _ _ _ _ Hm
    (FillBytes_spec address length value m Report_init Hm report_init_ok ltac:(lia) ltac:(lia) ltac:(lia)))
    as Hf.
  destruct (FillBytes address length value m Report_init) as [[[m1 r] w] completed].
  destruct Hf as (-> & Hf). done.
Qed.

(** C2: the guest-visible effect of [Write] and [Fill].  Both succeed exactly
    when every byte of the window is mapped writable, and otherwise change
    nothing.  On success every address that denotes a location of the window,
    aliases in other shared mappings included, shows the byte stored there last,
    and no other address changes; the map tables and the invariant are kept. *)
Theorem guest_write_exact address (source : list Z) length value m :
  gm_ok m -> is_u64 address -> 0 <= length ->
  (let '(m', ok) := Write address source m in
   let n := Z.of_nat (List.length source) in
   (ok = true <-> accessible m address (Z.max 1 n) kWrite) /\
   if ok then gm_ok m' /\ same_shape m m' /\ same_tables m m' /\
              stored (source_byte source) m m' address n
   else m' = m) /\
  (let '(m', ok) := Fill address length value m in
   (ok = true <-> accessible m address (Z.max 1 length) kWrite) /\
   if ok then gm_ok m' /\ same_shape m m' /\ same_tables m m' /\
              stored (fun _ => value) m m' address length
   else m' = m).
Proof.
  intros Hm Ha Hl. split.
  - destruct (Write_spec address source m Hm Ha) as [Hiff Hok].
    destruct (Write address source m) as [m' ok]. simpl in *. split; [done|].
    destruct ok; [|done]. naive_solver.
  - destruct (Fill_spec address length value m Hm Ha Hl) as [Hiff Hok].
    destruct (Fill address length value m) as [m' ok]. simpl in *. split; [done|].
    destruct ok; [|done]. naive_solver.
Qed.

(** The coherence events of [Write] and [Fill].  A successful write appends
    events newer than every earlier one (or marked exhausted once the
    generations run out) that cover every address whose contents the write
    could change, through whatever alias; and nothing but those addresses,
    unless more than 64 ranges were needed and one event covers the memory. *)
Theorem guest_write_notifies address (source : list Z) length value m m' :
  gm_ok m -> is_u64 address -> 0 <= length ->
  (Write address source m = (m', true) ->
   notified m m' (denotes_written m address (Z.of_nat (List.length source)))) /\
  (Fill address length value m = (m', true) ->
   notified m m' (denotes_written m address length)).
Proof.
  intros Hm Ha Hl. split; intros Heq.
  - destruct (Write_spec address source m Hm Ha) as [_ Hok]. rewrite Heq in Hok. naive_solver.
  - destruct (Fill_spec address length value m Hm Ha Hl) as [_ Hok]. rewrite Heq in Hok. naive_solver.
Qed.

Lemma Read_spec address size m :
  gm_ok m -> is_u64 address -> 0 <= size ->
  Read address size m =
    if CanAccessLocked address size kRead m then Some (guest_bytes m address size) else None.
Proof.
  intros Hm Ha Hs. unfold Read. destruct (CanAccessLocked address size kRead m) eqn:E; [|done].
  pose proof E as Hacc%CanAccessLocked_iff; [|done|done|done].
  apply accessible_contained in Hacc as [Hb He]; [|done|lia].
  cbn [negb]. by rewrite ReadBytes_spec by (done || lia).
Qed.

(** [Read] returns the bytes the guest sees, one per address of the window,
    exactly when every byte of the window is mapped readable. *)
Theorem guest_read_exact address size m :
  gm_ok m -> is_u64 address -> 0 <= size ->
  (is_Some (Read address size m) <-> accessible m address (Z.max 1 size) kRead) /\
  forall data, Read address size m = Some data -> data = guest_bytes m address size.
Proof.
  intros Hm Ha Hs. rewrite <- CanAccessLocked_iff, Read_spec by done.
  destruct (CanAccessLocked address size kRead m).
  - split; [by eauto|]. by intros data [= <-].
  - split; [|done]. split; [by intros []|done].
Qed.
