(* ===== verification/GuestMemoryCopy.v ===== *)
(** [GuestMemory::Copy]: a [memmove] between guest windows, in 4096-byte chunks
    when shared mappings are in play. *)
From S2P Require Import Prelude Ranges SharedBacking GuestMemory GuestMemoryMap GuestMemoryOps.
From S2P Require Import GuestMemoryData GuestMemoryWrite.

Implicit Types (m : GuestMemory) (r : MutationReport).

Section copy.
Context (m0 : GuestMemory) (Hm0 : gm_ok m0) (destination source length : Z).
Context (Hd : base_address_ m0 <= destination /\ destination + length <= gm_end m0).
Context (Hs : base_address_ m0 <= source /\ source + length <= gm_end m0).
Context (Hlen : 0 < length).

Definition in_windows (x : Z) : Prop :=
  in_range destination length x \/ in_range source length x.

(** No two addresses of the windows are aliases of each other. *)
Definition unaliased : Prop :=
  forall x y, in_windows x -> in_windows y -> loc_of m0 x = loc_of m0 y -> x = y.

(** No location but those of the indices of [I] changed. *)
Definition kept m (I : Z -> Prop) : Prop :=
  forall l, valid_loc m0 l -> (forall i, I i -> loc_of m0 (destination + i) <> l) ->
    byte_at m l = byte_at m0 l.

(** The copy reads every source byte before a store can change it: no two
    addresses of the windows are aliases, or a single chunk holds the copy. *)
Definition reads_first : Prop := unaliased \/ length <= kCopyChunkBytes.

(** Index [i] is the last one of the copy to store at its location. *)
Definition last_store (i : Z) : Prop :=
  forall j, i < j < length -> loc_of m0 (destination + j) <> loc_of m0 (destination + i).

(** The bytes of the copy at the indices of [I] are in place. *)
Definition moved m (I : Z -> Prop) : Prop :=
  forall i, I i -> last_store i ->
    byte_at m (loc_of m0 (destination + i)) = guest_byte m0 (source + i).

(** The state of the copy after the indices of [I]. *)
Record copy_state m r (I : Z -> Prop) : Prop := {
  cp_ok : gm_ok m;
  cp_layout : same_layout m0 m;
  cp_report : adds Report_init (fun a => exists i, I i /\ loc_of m0 a = loc_of m0 (destination + i)) r;
  cp_kept : kept m I;
  cp_moved : reads_first -> moved m I
}.

Lemma copy_state_ext m r (I J : Z -> Prop) :
  copy_state m r I -> (forall i, I i <-> J i) -> copy_state m r J.
Proof.
  intros [C1 C2 C3 C4 C5] HIJ. split; [done|done| | |].
  - eapply adds_ext; [exact C3|]. intros a. split; intros (i & Hi & Hl); exists i; (split; [by apply HIJ|done]).
  - intros l Hl Hn. apply C4; [done|]. intros i Hi. by apply Hn, HIJ.
  - intros Hun i Hi. by apply (C5 Hun), HIJ.
Qed.

(** One chunk: read, then write. *)
Lemma copy_chunk m r (I : Z -> Prop) from chunk :
  copy_state m r I -> 0 < chunk -> 0 <= from -> from + chunk <= length ->
  (forall i, I i -> 0 <= i < length /\ ~ from <= i < from + chunk) ->
  (forall i j, I i -> from <= j < from + chunk -> destination + i <> source + j) ->
  (length <= kCopyChunkBytes -> chunk = length) ->
  exists view m' r', ReadBytes (source + from)%u64 chunk m = Some view /\
    WriteBytes (destination + from)%u64 view m r = (m', r', chunk, true) /\
    copy_state m' r' (fun i => I i \/ from <= i < from + chunk).
Proof.
  intros [Hok Hlay Hrep M1 Hmv] Hc Hf Hfit HI Hsep Hone. destruct (go_window m0 Hm0) as (W1 & W2 & W3).
  pose proof Hlay as [[S1 S2 _ _] _ _ _ _ _ _].
  assert (Hend : gm_end m = gm_end m0) by (unfold gm_end; by rewrite S1, S2).
  rewrite !add64_small by lia. set (view := guest_bytes m (source + from) chunk).
  assert (Hvl : Z.of_nat (List.length view) = chunk) by (unfold view; rewrite guest_bytes_length; lia).
  pose proof (WriteBytes_spec (destination + from) view m r Hok (ad_ok _ _ _ Hrep) ltac:(lia) ltac:(lia))
    as Hw.
  destruct (WriteBytes (destination + from) view m r) as [[[m' r'] written] ok] eqn:Ew.
  destruct Hw as (-> & -> & Hok' & Hlay' & Hadd & Htr1 & Htr2). rewrite Hvl in *.
  exists view, m', r'. split_and!; [apply ReadBytes_spec; (done || lia)|done|].
  assert (Hloc : forall x, loc_of m x = loc_of m0 x) by (intros; by apply same_layout_loc).
  split; [done|by transitivity m| | |].
  - eapply adds_trans; [exact Hrep|exact Hadd|]. intros a. unfold denotes_written, in_range. split.
    + intros (i & [Hi|Hi] & Hl); [left; eauto|right]. exists (destination + i). rewrite !Hloc.
      split; [lia|done].
    + intros [(i & Hi & Hl)|(x & Hx & Hl)]; [eauto|]. rewrite !Hloc in Hl.
      exists (x - destination). split; [right; lia|].
      by replace (destination + (x - destination)) with x by lia.
  - intros l Hl Hno. rewrite Htr1; [apply M1; [done|]; intros i Hi; apply Hno; by left
      |by eapply same_layout_valid|].
    intros k Hk. rewrite Hloc. replace (destination + from + k) with (destination + (from + k)) by lia.
    apply Hno. right. lia.
  - intros Hun. pose proof (Hmv Hun) as M2.
    assert (Hshort : unaliased \/ forall i, ~ I i).
    { destruct Hun as [Hun|Hun]; [by left|right]. intros i Hi. pose proof (Hone Hun).
      destruct (HI i Hi). lia. }
    assert (Hview : forall j, from <= j < from + chunk ->
              source_byte view (j - from) = guest_byte m0 (source + j)).
    { intros j Hj. unfold source_byte, view. rewrite guest_bytes_lookup by lia. simpl.
      replace (source + from + Z.of_nat (Z.to_nat (j - from))) with (source + j) by lia.
      unfold guest_byte. rewrite Hloc. apply M1; [apply loc_of_valid; [done|lia]|].
      intros i Hi Heq. destruct Hshort as [Hu|Hno]; [|by destruct (Hno i)].
      apply (Hsep i j Hi Hj). destruct (HI i Hi).
      apply Hu; [left; unfold in_range; lia|right; unfold in_range; lia|done]. }
    intros i [Hi|Hi] Hlast.
    + destruct Hshort as [Hu|Hno]; [|by destruct (Hno i)]. destruct (HI i Hi) as [Hr1 Hr2].
      rewrite Htr1; [by apply M2|eapply same_layout_valid; [done|apply loc_of_valid; [done|lia]]|].
      intros k Hk. rewrite Hloc. replace (destination + from + k) with (destination + (from + k)) by lia.
      intros Heq. enough (destination + (from + k) = destination + i) by lia.
      apply Hu; [left; unfold in_range; lia|left; unfold in_range; lia|done].
    + rewrite <- Hview by done. specialize (Htr2 (i - from) ltac:(lia)).
      rewrite !Hloc in Htr2. replace (destination + from + (i - from)) with (destination + i) in Htr2 by lia.
      apply Htr2. intros j Hj. rewrite Hloc.
      replace (destination + from + j) with (destination + (from + j)) by lia.
      apply Hlast. lia.
Qed.

Lemma copy_forward_spec fuel copied m r :
  ~ (source < destination < source + length) -> copy_state m r (fun i => 0 <= i < copied) ->
  0 <= copied <= length -> (length <= kCopyChunkBytes -> copied = 0 \/ copied = length) ->
  length - copied <= Z.of_nat fuel * kCopyChunkBytes ->
  exists m' r', copy_forward fuel destination source length copied m r = (m', r', true) /\
    copy_state m' r' (fun i => 0 <= i < length).
Proof.
  intros Hno. revert copied m r. induction fuel as [|f IH]; intros copied m r Hst Hc Hone Hf; cbn [copy_forward].
  { assert (copied = length) as -> by lia. exists m, r. by rewrite Z.eqb_refl. }
  destruct (copied <? length) eqn:E; cbn [negb].
  2:{ assert (copied = length) as -> by lia. exists m, r. by rewrite Z.eqb_refl. }
  unfold kCopyChunkBytes in *. set (chunk := Z.min 4096 (length - copied)) in *.
  destruct (copy_chunk m r _ copied chunk Hst) as (view & m1 & r1 & E1 & E2 & Hst1);
    [lia|lia|lia|intros; lia|intros; lia|unfold kCopyChunkBytes; lia|].
  rewrite E1, E2, Z.eqb_refl. cbn [negb orb]. apply IH; [|lia|lia|lia].
  eapply copy_state_ext; [exact Hst1|]. intros i. cbv beta. lia.
Qed.

Lemma copy_backward_spec fuel remaining m r :
  source < destination -> copy_state m r (fun i => remaining <= i < length) ->
  0 <= remaining <= length -> (length <= kCopyChunkBytes -> remaining = 0 \/ remaining = length) ->
  remaining <= Z.of_nat fuel * kCopyChunkBytes ->
  exists m' r', copy_backward fuel destination source remaining m r = (m', r', true) /\
    copy_state m' r' (fun i => 0 <= i < length).
Proof.
  intros Hgt. revert remaining m r.
  induction fuel as [|f IH]; intros remaining m r Hst Hc Hone Hf; cbn [copy_backward].
  { assert (remaining = 0) as -> by lia. by exists m, r. }
  destruct (remaining =? 0) eqn:E.
  { assert (remaining = 0) as -> by lia. by exists m, r. }
  unfold kCopyChunkBytes in *. set (chunk := Z.min 4096 remaining) in *.
  destruct (copy_chunk m r _ (remaining - chunk) chunk Hst) as (view & m1 & r1 & E1 & E2 & Hst1);
    [lia|lia|lia|intros; lia|intros; lia|unfold kCopyChunkBytes; lia|].
  rewrite E1, E2, Z.eqb_refl. cbn [negb orb]. apply IH; [|lia|lia|lia].
  eapply copy_state_ext; [exact Hst1|]. intros i. cbv beta. lia.
Qed.
End copy.

(** The [memmove] path: no shared mapping exists. *)
Lemma copy_direct m destination source length :
  gm_ok m -> shared_mappings_ m = [] -> 0 < length ->
  (base_address_ m <= destination /\ destination + length <= gm_end m) ->
  (base_address_ m <= source /\ source + length <= gm_end m) ->
  let data := take (Z.to_nat length) (drop (Z.to_nat (OffsetOf source m)) (bytes_ m)) in
  let m1 := store_bytes m (OffsetOf destination m) data in
  copy_state m destination source length m1
    (RecordActualWriteRangeLocked Report_init destination length m1) (fun i => 0 <= i < length).
Proof.
  intros Hm Hsh Hl Hd Hs data m1. destruct (go_window m Hm) as (W1 & W2 & W3).
  assert (Hpriv : forall a, loc_of m a = Private a) by (intros a; unfold loc_of; by rewrite Hsh).
  assert (Hdl : Z.of_nat (List.length data) = length).
  { unfold data, OffsetOf. unfold gm_end in *. rewrite sub64_small by lia.
    rewrite length_take, length_drop. pose proof (go_bytes m Hm). lia. }
  assert (Hk : forall k, 0 <= k < length ->
    data !! Z.to_nat k = Some (guest_byte m (source + (0 + k)))).
  { intros k Hk. unfold data, OffsetOf. rewrite sub64_small by (unfold gm_end in *; lia).
    rewrite lookup_take_lt, lookup_drop by lia. unfold guest_byte. rewrite Hpriv.
    rewrite <- window_lookup by (done || lia). f_equal. lia. }
  destruct (private_round (fun i => guest_byte m (source + i)) m destination 0 length data)
    as (P1 & P2 & P3); try done; try lia.
  rewrite !Z.add_0_r, Z.add_0_l in *. fold m1 in P1, P2, P3. destruct P3 as [T1 T2].
  pose proof P2 as [[S1 S2 _ _] _ _ _ _ _ _].
  assert (Hend : gm_end m1 = gm_end m) by (unfold gm_end; by rewrite S1, S2).
  split; [done|done| |exact T1|].
  - eapply adds_ext; [apply (record_loop_adds m1 P1); [apply report_init_ok|lia|lia|lia|lia]|].
    intros a. unfold denotes_written, in_range.
    assert (Hloc : forall x, loc_of m1 x = loc_of m x) by (intros; by apply same_layout_loc).
    split.
    + intros (x & Hx & Hxl). exists (x - destination). rewrite !Hloc in Hxl. split; [lia|].
      by replace (destination + (x - destination)) with x by lia.
    + intros (i & Hi & Hil). exists (destination + i). rewrite !Hloc. split; [lia|done].
  - intros _ i Hi _. apply T2; [done|].
    intros j Hj. rewrite !Hpriv. intros [=]. lia.
Qed.

Lemma Copy_spec destination source length m :
  gm_ok m -> is_u64 destination -> is_u64 source -> 0 <= length ->
  let '(m', ok) := Copy destination source length m in
  (ok = true <-> accessible m source (Z.max 1 length) kRead /\
                 accessible m destination (Z.max 1 length) kWrite) /\
  gm_ok m' /\ same_shape m m' /\ same_tables m m' /\
  next_mapping_generation_ m' = next_mapping_generation_ m /\
  if decide (ok = true /\ length <> 0 /\ destination <> source)
  then exists m1 r, copy_state m destination source length m1 r (fun i => 0 <= i < length) /\
    m' = NotifyMutationReport r m1
  else m' = m.
Proof.
  intros Hm Hd Hs Hl. unfold Copy.
  pose proof (CanAccessLocked_iff m source length kRead Hm Hs Hl) as Ar.
  pose proof (CanAccessLocked_iff m destination length kWrite Hm Hd Hl) as Aw.
  destruct (CanAccessLocked source length kRead m) eqn:Er; cbn [negb orb].
  2:{ split; [naive_solver|]. split_and!; try done; case_decide; naive_solver. }
  destruct (CanAccessLocked destination length kWrite m) eqn:Ew; cbn [negb].
  2:{ split; [naive_solver|]. split_and!; try done; case_decide; naive_solver. }
  destruct (length =? 0) eqn:E0; cbn [orb].
  { split; [naive_solver|]. split_and!; try done; case_decide; [lia|done]. }
  destruct (destination =? source) eqn:Eds.
  { split; [naive_solver|]. split_and!; try done; case_decide; [lia|done]. }
  destruct Ar as [Hr _], Aw as [Hw _]. specialize (Hr eq_refl). specialize (Hw eq_refl).
  assert (Hboth : accessible m source (Z.max 1 length) kRead /\
                  accessible m destination (Z.max 1 length) kWrite) by done.
  apply accessible_contained in Hr; [|done|lia]. apply accessible_contained in Hw; [|done|lia].
  destruct (go_window m Hm) as (W1 & W2 & W3). rewrite Z.max_r in * by lia.
  set (fuel := Z.to_nat (length / kCopyChunkBytes + 1)).
  assert (Hfuel : length <= Z.of_nat fuel * kCopyChunkBytes).
  { unfold fuel, kCopyChunkBytes. pose proof (Z.div_mod length 4096 ltac:(lia)).
    pose proof (Z.mod_pos_bound length 4096 ltac:(lia)).
    assert (0 <= length / 4096) by (apply Z.div_pos; lia). lia. }
  assert (Hinit : forall I : Z -> Prop, (forall i, ~ I i) ->
            copy_state m destination source length m Report_init I).
  { intros I HI. split; [done|done| |done|].
    - apply adds_nothing; [apply report_init_ok|]. intros a (i & Hi & _). by destruct (HI i).
    - intros _ i Hi. by destruct (HI i). }
  set (step := if host_mapped m || _ then _ else _).
  assert (Hstep : exists m1 r, step = (m1, r, true) /\
            copy_state m destination source length m1 r (fun i => 0 <= i < length)).
  { unfold step.
    destruct (host_mapped m || match shared_mappings_ m with [] => true | _ => false end) eqn:Edir.
    - eexists _, _. split; [done|]. apply copy_direct; try done; try lia.
      apply orb_true_iff in Edir as [Hh|Hn]; [by apply (go_host_shared m Hm)|].
      by destruct (shared_mappings_ m).
    - destruct ((destination >? source) && ((destination - source)%u64 <? length)) eqn:Eov.
      + apply copy_backward_spec; try done; try lia. apply Hinit. intros i. lia.
      + apply copy_forward_spec; try done; try lia; [|apply Hinit; intros i; lia].
        intros Hin. rewrite sub64_small in Eov by lia. lia. }
  destruct Hstep as (m1 & r & -> & Hst). pose proof Hst as [C1 C2 C3 _ _].
  destruct (notify_finish m m1 r _ C1 C2 C3) as (N1 & N2 & _).
  pose proof C2 as [[S1 S2 S3 S4] [S5 S6 S7] _ S8 _ _ _].
  pose proof N2 as [[Q1 Q2 Q3 Q4] [Q5 Q6 Q7] _ _ Q8].
  split_and!; [done|done|split; congruence|split; congruence|congruence|].
  rewrite decide_True by (split_and!; (done || lia)). eauto.
Qed.

Lemma Copy_moves destination source length m :
  gm_ok m -> is_u64 destination -> is_u64 source -> 0 < length -> destination <> source ->
  let '(m', ok) := Copy destination source length m in
  (ok = true <-> accessible m source length kRead /\ accessible m destination length kWrite) /\
  gm_ok m' /\ same_shape m m' /\ same_tables m m' /\
  if ok then
    notified m m' (denotes_written m destination length) /\
    (forall a, base_address_ m <= a < gm_end m ->
       (forall i, 0 <= i < length -> loc_of m (destination + i) <> loc_of m a) ->
       guest_byte m' a = guest_byte m a) /\
    (unaliased m destination source length ->
     forall i, 0 <= i < length -> guest_byte m' (destination + i) = guest_byte m (source + i)) /\
    (length <= kCopyChunkBytes ->
     forall i, 0 <= i < length -> last_store m destination length i ->
     guest_byte m' (destination + i) = guest_byte m (source + i))
  else m' = m.
Proof.
  intros Hm Hd Hs Hl Hne. pose proof (Copy_spec destination source length m Hm Hd Hs ltac:(lia)) as Hc.
  rewrite Z.max_r in Hc by lia. destruct (Copy destination source length m) as [m' ok].
  destruct Hc as (Hiff & Hok & Hsh & Htab & _ & Hres). split_and!; [done|done|done|done|].
  destruct ok; [|by rewrite decide_False in Hres by naive_solver].
  rewrite decide_True in Hres by (split_and!; (done || lia)). destruct Hres as (m1 & r & Hst & ->).
  destruct Hst as [C1 C2 C3 C4 C5]. destruct (notify_finish m m1 r _ C1 C2 C3) as (_ & N2 & N3).
  assert (Hg : forall a, guest_byte (NotifyMutationReport r m1) a = byte_at m1 (loc_of m a)).
  { intros a. unfold guest_byte. rewrite (same_content_byte m1) by done. f_equal.
    unfold loc_of. by rewrite (st_shared _ _ Htab). }
  assert (HP : forall a, (exists i, (0 <= i < length) /\ loc_of m a = loc_of m (destination + i)) <->
                         denotes_written m destination length a).
  { intros a. unfold denotes_written, in_range. split.
    - intros (i & Hi & Hil). exists (destination + i). split; [lia|done].
    - intros (x & Hx & Hxl). exists (x - destination). split; [lia|].
      by replace (destination + (x - destination)) with x by lia. }
  split_and!.
  - destruct N3 as (evs & E1 & E3 & E4). exists evs. split_and!; [done| |].
    + intros a Ha HPa. apply E3; [done|]. by apply HP.
    + destruct E4 as [E4|]; [left|by right]. intros ev a Hev Hcov. apply HP. by eapply E4.
  - intros a Ha Hno. rewrite Hg. apply C4; [by apply loc_of_valid|]. intros i Hi. by apply Hno.
  - intros Hun i Hi. rewrite Hg. apply C5; [by left|done|]. intros j Hj Heq.
    enough (destination + j = destination + i) by lia.
    apply Hun; [left; unfold in_range; lia|left; unfold in_range; lia|done].
  - intros Hun i Hi Hlast. rewrite Hg. apply C5; [by right|done|done].
Qed.

(** C6: [Copy] is a [memmove] with protections.  It succeeds exactly when the
    source is readable and the destination writable, and keeps the invariant and
    the map tables.  No address that denotes a location outside the destination
    changes, and the events cover every address that shows a copied byte.  When
    no two addresses of the windows are aliases of each other, every destination
    byte becomes the old source byte, also when the windows overlap and whatever
    mixture of private and shared memory they cross.  A copy of at most one chunk
    (4096 bytes) does so whatever the aliases: each location of the destination
    gets the old source byte of the last index that stores there.  Longer copies
    between windows that alias each other have no such claim: a chunk may read
    what an earlier one stored. *)
Theorem Copy_memmove destination source length m :
  gm_ok m -> is_u64 destination -> is_u64 source -> 0 < length -> destination <> source ->
  let '(m', ok) := Copy destination source length m in
  (ok = true <-> accessible m source length kRead /\ accessible m destination length kWrite) /\
  gm_ok m' /\ same_tables m m' /\
  if ok then
    notified m m' (denotes_written m destination length) /\
    (forall a, base_address_ m <= a < gm_end m ->
       (forall i, 0 <= i < length -> loc_of m (destination + i) <> loc_of m a) ->
       guest_byte m' a = guest_byte m a) /\
    (unaliased m destination source length ->
     forall i, 0 <= i < length -> guest_byte m' (destination + i) = guest_byte m (source + i)) /\
    (length <= kCopyChunkBytes ->
     forall i, 0 <= i < length -> last_store m destination length i ->
     guest_byte m' (destination + i) = guest_byte m (source + i))
  else m' = m.
Proof.
  intros Hm Hd Hs Hl Hne. pose proof (Copy_moves destination source length m Hm Hd Hs Hl Hne) as Hc.
  destruct (Copy destination source length m) as [m' ok]. by destruct Hc as (? & ? & _ & ? & ?).
Qed.
