(* ===== verification/GuestMemoryInit.v ===== *)
(** [GuestMemory::Initialize] and [InitializeFill]: the loader's stores, which
    ignore the guest's protections.  On a host mapping each region is made
    writable for the copy and restored afterwards; either host call may fail,
    which leaves the copy incomplete. *)
From S2P Require Import Prelude Ranges SharedBacking GuestMemory GuestMemoryMap GuestMemoryOps.
From S2P Require Import GuestMemoryData GuestMemoryWrite.

Implicit Types (m : GuestMemory) (address length : Z) (r : MutationReport).

Section initialize.
Context `{HostMemory}.

(** The loop over the regions of the window; [data] is the source of a chunk.
    Returns the memory, the bytes copied and the result.  Every round handles at
    least one byte. *)
Fixpoint host_initialize_loop (fuel : nat) address (size : Z) (data : Z -> Z -> list Z) (copied : Z) m
    : GuestMemory * Z * bool :=
  match fuel with
  | O => (m, copied, true)
  | S f =>
      if negb (copied <? size) then (m, copied, true)
      else
        let current := (address + copied)%u64 in
        match FindContainingRegion current m with
        | None => (m, copied, false)
        | Some region =>
            let chunk := Z.min (size - copied) (iend64 region - current)%u64 in
            let '(m1, writable) := ProtectHostMapping m in
            if negb writable then (m1, copied, false)
            else
              let m2 := store_bytes m1 (OffsetOf current m1) (data copied chunk) in
              let '(m3, restored) := ProtectHostMapping m2 in
              if negb restored then (m3, copied + chunk, false)
              else host_initialize_loop f address size data (copied + chunk) m3
        end
  end.

Definition Initialize address (source : list Z) m : GuestMemory * bool :=
  let size := Z.of_nat (List.length source) in
  if negb (IsMappedLocked address size m) then (m, false)
  else if (size =? 0) || negb (host_mapped m) then
    let '(m1, r, _, completed) := WriteBytes address source m Report_init in
    (NotifyMutationReport r m1, completed)
  else
    let '(m1, copied, completed) :=
      host_initialize_loop (List.length source) address size (slice source) 0 m in
    (NotifyMutationReport (RecordActualWriteRangeLocked Report_init address copied m1) m1, completed).

Definition InitializeFill address length (value : Z) m : GuestMemory * bool :=
  if negb (IsMappedLocked address length m) then (m, false)
  else if (length =? 0) || negb (host_mapped m) then
    let '(m1, r, _, completed) := FillBytes address length value m Report_init in
    (NotifyMutationReport r m1, completed)
  else
    let '(m1, copied, completed) :=
      host_initialize_loop (Z.to_nat length) address length
        (fun _ n => replicate (Z.to_nat n) value) 0 m in
    (NotifyMutationReport (RecordActualWriteRangeLocked Report_init address copied m1) m1, completed).

(** ** The host loop *)

Lemma with_host_calls_layout m n : same_layout m (with_host_calls m n).
Proof. by split. Qed.

Lemma byte_at_host_calls m n l : byte_at (with_host_calls m n) l = byte_at m l.
Proof. done. Qed.

Lemma FindContainingRegion_eq m a : gm_ok m -> FindContainingRegion a m = range_at (regions_ m) a.
Proof.
  intros Hm. destruct (go_window m Hm) as (W1 & W2 & W3).
  by apply (from_containing_head _ _ _ a W1 W3 (go_regions m Hm)).
Qed.

(** All host calls succeed. *)
Definition host_never_fails : Prop := forall n, host_protect n = true.

Section loop.
Context (size : Z) (d : Z -> Z) (data : Z -> Z -> list Z).
Context (Hdata : forall i n, 0 <= i -> 0 < n -> i + n <= size ->
  Z.of_nat (List.length (data i n)) = n /\
  forall k, 0 <= k < n -> data i n !! Z.to_nat k = Some (d (i + k))).

Lemma host_initialize_loop_spec fuel address copied m :
  gm_ok m -> host_mapped m = true -> accessible m address size kNone ->
  base_address_ m <= address -> address + size <= gm_end m ->
  0 <= copied <= size -> size - copied <= Z.of_nat fuel ->
  let '(m', n, ok) := host_initialize_loop fuel address size data copied m in
  copied <= n <= size /\ (ok = true -> n = size) /\ (host_never_fails -> ok = true) /\
  gm_ok m' /\ same_layout m m' /\ transferred d m m' address copied n.
Proof.
  intros Hm Hh Hacc Hb He. revert m Hm Hh Hacc Hb He copied.
  induction fuel as [|f IH]; intros m Hm Hh Hacc Hb He copied Hc Hf; cbn [host_initialize_loop].
  { split_and!; try done; [lia|lia|]. split; intros; [done|lia]. }
  destruct (copied <? size) eqn:E; cbn [negb].
  2:{ split_and!; try done; [lia|lia|]. split; intros; [done|lia]. }
  destruct (go_window m Hm) as (W1 & W2 & W3). rewrite add64_small by lia.
  rewrite FindContainingRegion_eq by done.
  destruct (Hacc (address + copied) ltac:(lia)) as (prot & Hprot & _).
  destruct (range_at (regions_ m) (address + copied)) as [rg|] eqn:Er.
  2:{ exfalso. unfold prot_view, content in Hprot. by rewrite Er in Hprot. }
  apply range_at_Some in Er as [Hin Hi]. pose proof (ro_valid_elem _ _ _ _ (go_regions m Hm) Hin) as Hv.
  unfold inside, valid_in, iend in *. rewrite (iend64_ok rg) by (unfold iend; lia). unfold iend.
  rewrite sub64_small by lia. set (chunk := Z.min (size - copied) _).
  assert (Hch : 0 < chunk <= size - copied) by lia. cbn [ProtectHostMapping].
  set (m1 := with_host_calls m (S (host_calls m))).
  assert (Hm1 : gm_ok m1) by (by apply host_calls_ok).
  destruct (host_protect (host_calls m)) eqn:E1; cbn [negb].
  2:{ split_and!; [lia|lia|done| |done|done|split; intros; [done|lia]].
      intros Hn. by rewrite Hn in E1. }
  assert (Hloc : forall a, loc_of m1 a = Private a).
  { intros a. apply loc_of_private. change (shared_mappings_ m1) with (shared_mappings_ m).
    by rewrite (go_host_shared m Hm Hh). }
  destruct (Hdata copied chunk ltac:(lia) ltac:(lia) ltac:(lia)) as [Hlen Hk].
  destruct (private_round d m1 address copied chunk (data copied chunk)) as (P1 & P2 & P3);
    try done; try lia; [change (gm_end m1) with (gm_end m); lia|].
  set (m2 := store_bytes m1 _ _) in *. cbn [host_calls].
  assert (Hm3 : forall n, gm_ok (with_host_calls m2 n)) by (intros n; by apply host_calls_ok).
  assert (Hl3 : forall n, same_layout m (with_host_calls m2 n)).
  { intros n. transitivity m1; [apply with_host_calls_layout|]. transitivity m2; [done|].
    apply with_host_calls_layout. }
  destruct (host_protect (host_calls m2)) eqn:E2; cbn [negb].
  2:{ split_and!; [lia|lia|done| |apply Hm3|apply Hl3|exact P3]. intros Hn. by rewrite Hn in E2. }
  set (m3 := with_host_calls m2 (S (host_calls m2))).
  specialize (IH m3 (Hm3 _) Hh Hacc Hb He (copied + chunk) ltac:(lia) ltac:(lia)).
  destruct (host_initialize_loop f address size data (copied + chunk) m3) as [[m' n] ok].
  destruct IH as (I1 & I2 & I3 & I4 & I5 & I6).
  split_and!; [lia|lia|done|done|done|by transitivity m3|].
  eapply (transferred_trans d m m3 m' address copied (copied + chunk) n);
    [lia|apply Hl3| |exact P3|exact I6].
  intros i Hi'. apply loc_of_valid; [done|lia].
Qed.
End loop.

(** ** The operations *)

(** The window is mapped, with whatever protection; then [n] of its [length]
    bytes are initialised, all of them if no host call fails. *)
Definition initializes (d : Z -> Z) m address length (result : GuestMemory * bool) : Prop :=
  if IsMappedLocked address length m then
    exists n, 0 <= n <= length /\ (result.2 = true -> n = length) /\
      (host_mapped m = false \/ host_never_fails -> result.2 = true) /\
      gm_ok result.1 /\ same_shape m result.1 /\ same_tables m result.1 /\
      next_mapping_generation_ result.1 = next_mapping_generation_ m /\
      stored d m result.1 address n /\ notified m result.1 (denotes_written m address n)
  else result = (m, false).

(** The direct transfer of a memory that is not host mapped. *)
Lemma initializes_directly d m address length result :
  gm_ok m -> 0 <= length -> transfer_completes d m Report_init address length result ->
  let '(m1, r, _, completed) := result in
  exists n, 0 <= n <= length /\ (completed = true -> n = length) /\
    (host_mapped m = false \/ host_never_fails -> completed = true) /\
    gm_ok (NotifyMutationReport r m1) /\ same_shape m (NotifyMutationReport r m1) /\
    same_tables m (NotifyMutationReport r m1) /\
    next_mapping_generation_ (NotifyMutationReport r m1) = next_mapping_generation_ m /\
    stored d m (NotifyMutationReport r m1) address n /\
    notified m (NotifyMutationReport r m1) (denotes_written m address n).
Proof.
  intros Hm Hl Ht. pose proof (finish_transfer _ _ _ _ _ Hm Ht) as Hf.
  destruct result as [[[m1 r] w] completed]. destruct Hf as (-> & Hf). exists length. split_and!; try lia; try done; apply Hf.
Qed.

(** The transfer on a host mapping. *)
Lemma initializes_host d data m address length fuel :
  gm_ok m -> host_mapped m = true -> accessible m address length kNone ->
  base_address_ m <= address -> address + length <= gm_end m -> 0 <= length <= Z.of_nat fuel ->
  (forall i n, 0 <= i -> 0 < n -> i + n <= length ->
     Z.of_nat (List.length (data i n)) = n /\
     forall k, 0 <= k < n -> data i n !! Z.to_nat k = Some (d (i + k))) ->
  let '(m1, copied, completed) := host_initialize_loop fuel address length data 0 m in
  let m' := NotifyMutationReport (RecordActualWriteRangeLocked Report_init address copied m1) m1 in
  exists n, 0 <= n <= length /\ (completed = true -> n = length) /\
    (host_mapped m = false \/ host_never_fails -> completed = true) /\
    gm_ok m' /\ same_shape m m' /\ same_tables m m' /\
    next_mapping_generation_ m' = next_mapping_generation_ m /\
    stored d m m' address n /\ notified m m' (denotes_written m address n).
Proof.
  intros Hm Hh Hacc Hb He Hl Hdata.
  pose proof (host_initialize_loop_spec length d data Hdata fuel address 0 m Hm Hh Hacc Hb He
    ltac:(lia) ltac:(lia)) as Hloop.
  destruct (host_initialize_loop fuel address length data 0 m) as [[m1 n] ok].
  destruct Hloop as (Hn & Hok & Hnf & Hm1 & Hlay & Htr). cbv zeta.
  pose proof Hlay as [[S1 S2 _ _] _ _ _ _ _ _].
  assert (Hend : gm_end m1 = gm_end m) by (unfold gm_end; by rewrite S1, S2).
  assert (Hadd : adds Report_init (denotes_written m address n)
    (RecordActualWriteRangeLocked Report_init address n m1)).
  { eapply adds_ext; [apply (record_loop_adds m1 Hm1 (Z.to_nat n)); try lia; apply report_init_ok|].
    intros a. unfold denotes_written. by setoid_rewrite (same_layout_loc m m1). }
  set (r := RecordActualWriteRangeLocked Report_init address n m1) in *.
  pose proof (finish_transfer d m address n (m1, r, n, true) Hm
    (conj eq_refl (conj eq_refl (conj Hm1 (conj Hlay (conj Hadd Htr)))))) as (_ & Hf).
  exists n. split_and!; try lia; try done; try apply Hf. intros [?|?]; [congruence|by apply Hnf].
Qed.

Lemma initialized_window m address length :
  gm_ok m -> is_u64 address -> 0 <= length -> IsMappedLocked address length m = true ->
  accessible m address (Z.max 1 length) kNone /\ base_address_ m <= address /\ address + length <= gm_end m.
Proof.
  intros Hm Ha Hl E. apply CanAccessLocked_iff in E; [|done|done|lia].
  pose proof (accessible_contained m address (Z.max 1 length) kNone Hm ltac:(lia) E) as [Hb He].
  split_and!; [done|done|lia].
Qed.

Lemma same_tables_mapped m m' a n :
  gm_ok m -> gm_ok m' -> same_tables m m' -> is_u64 a -> 0 <= n -> IsMappedLocked a n m' = IsMappedLocked a n m.
Proof.
  intros Hm Hm' [Hr _ _] Ha Hn. apply eq_true_iff_eq. unfold IsMappedLocked.
  rewrite !CanAccessLocked_iff by done. unfold accessible, prot_view. by rewrite Hr.
Qed.

Lemma Initialize_spec address (source : list Z) m :
  gm_ok m -> is_u64 address ->
  initializes (source_byte source) m address (Z.of_nat (List.length source)) (Initialize address source m).
Proof.
  intros Hm Ha. unfold Initialize, initializes. cbv zeta.
  destruct (IsMappedLocked address _ m) eqn:E; cbn [negb]; [|done].
  destruct (initialized_window m address (Z.of_nat (List.length source)) Hm Ha ltac:(lia) E) as (Hacc & Hb & He).
  destruct (_ || _) eqn:Ed.
  - pose proof (initializes_directly _ _ _ _ _ Hm (Nat2Z.is_nonneg _)
      (WriteBytes_spec address source m Report_init Hm report_init_ok Hb He)) as Hf.
    by destruct (WriteBytes address source m Report_init) as [[[m1 r] w] completed].
  - apply orb_false_iff in Ed as [_ Eh%negb_false_iff].
    pose proof (initializes_host (source_byte source) (slice source) m address (Z.of_nat (List.length source))
      (List.length source) Hm Eh) as Hf.
    destruct (host_initialize_loop _ _ _ _ _ m) as [[m1 copied] completed].
    apply Hf; [|done|done|lia|apply slice_spec]. intros a Ha'. apply Hacc. lia.
Qed.

Lemma InitializeFill_spec address length value m :
  gm_ok m -> is_u64 address -> 0 <= length ->
  initializes (fun _ => value) m address length (InitializeFill address length value m).
Proof.
  intros Hm Ha Hl. unfold InitializeFill, initializes.
  destruct (IsMappedLocked address _ m) eqn:E; cbn [negb]; [|done].
  destruct (initialized_window m address length Hm Ha ltac:(lia) E) as (Hacc & Hb & He).
  destruct (_ || _) eqn:Ed.
  - pose proof (initializes_directly _ _ _ _ _ Hm Hl
      (FillBytes_spec address length value m Report_init Hm report_init_ok Hb Hl He)) as Hf.
    by destruct (FillBytes address length value m Report_init) as [[[m1 r] w] completed].
  - apply orb_false_iff in Ed as [_ Eh%negb_false_iff].
    pose proof (initializes_host (fun _ => value) (fun _ n => replicate (Z.to_nat n) value) m address length
      (Z.to_nat length) Hm Eh) as Hf.
    destruct (host_initialize_loop _ _ _ _ _ m) as [[m1 copied] completed].
    apply Hf; [|done|done|lia|].
    + intros a Ha'. apply Hacc. lia.
    + intros i n Hi Hn _. split; [rewrite length_replicate; lia|]. intros k Hk. apply lookup_replicate_2. lia.
Qed.
End initialize.
