(* ===== verification/GuestMemoryRuns.v ===== *)
(** Runs of a guest memory: every sequence of its operations keeps the
    invariant, mapping generations only grow, and a mapping token identifies the
    mappings it was captured from. *)
From S2P Require Import Prelude Ranges SharedBacking GuestMemory GuestMemoryMap GuestMemoryOps.
From S2P Require Import GuestMemoryData GuestMemoryWrite GuestMemoryCopy GuestMemoryInit.

Implicit Types (m : GuestMemory) (address length : Z).

Section runs.
Context `{HostMemory}.

(** One call of a public operation; [gs_attach] is the creation of a backing by
    another component. *)
Inductive gm_step m : GuestMemory -> Prop :=
| gs_attach ref b : backings m !! ref = None -> backing_ok b -> gm_step m (with_backing m ref b)
| gs_map a l p : is_u64 a -> is_u64 l -> gm_step m (Map a l p m).1
| gs_map_shared a l p ref off : is_u64 a -> is_u64 l -> is_u64 off ->
    gm_step m (MapShared a l p ref off m).1
| gs_protect a l p : is_u64 a -> is_u64 l -> gm_step m (Protect a l p m).1
| gs_unmap a l : is_u64 a -> is_u64 l -> gm_step m (Unmap a l m).1
| gs_write a source : is_u64 a -> gm_step m (Write a source m).1
| gs_fill a l v : is_u64 a -> is_u64 l -> gm_step m (Fill a l v m).1
| gs_copy dst src l : is_u64 dst -> is_u64 src -> is_u64 l -> gm_step m (Copy dst src l m).1
| gs_initialize a source : is_u64 a -> gm_step m (Initialize a source m).1
| gs_initialize_fill a l v : is_u64 a -> is_u64 l -> gm_step m (InitializeFill a l v m).1.

Inductive gm_run m : GuestMemory -> Prop :=
| gr_refl : gm_run m m
| gr_step m' m'' : gm_run m m' -> gm_step m' m'' -> gm_run m m''.

Inductive gm_created : GuestMemory -> Prop :=
| gc_vector base size p m : is_u64 base -> is_u64 size ->
    GuestMemory_create base size p = Some m -> gm_created m
| gc_host page_size mapping size p m : is_u64 page_size -> is_u64 size ->
    (forall base, mapping = Some base -> is_u64 base) ->
    CreateHostMapped page_size mapping size p = Some m -> gm_created m.

Lemma blank_ok base size granularity host calls :
  0 <= base -> 0 <= size -> base + size <= u64_max ->
  (host = true -> exists k, 0 <= k < 64 /\ granularity = 2 ^ k) ->
  gm_ok (blank_memory base size granularity host calls).
Proof.
  intros Hb Hs He Hg. split; simpl; try done; try apply ranges_ok_nil.
  - intros a. split; by intros [].
  - rewrite length_replicate. lia.
  - by intros s ?%elem_of_nil.
Qed.

Lemma created_ok m : gm_created m -> gm_ok m.
Proof.
  destruct 1 as [base size p m [Hb0 Hb1] [Hs0 Hs1] Hc|page_size mapping size p m Hp [Hs0 Hs1] Hmap Hc].
  - unfold GuestMemory_create in Hc. rewrite sub64_small in Hc by lia.
    destruct (size >? u64_max - base) eqn:Eo; [done|].
    destruct (IsValidProtection p) eqn:Ev; cbn [negb] in Hc; [|done].
    assert (Hblank : gm_ok (blank_memory base size 1 false 0)) by (apply blank_ok; lia || done).
    destruct (negb (size =? 0) && negb (p =? kNone)) eqn:Eg; [|by injection Hc as <-].
    pose proof (AllocateGeneration_spec _ Hblank) as Hgen.
    destruct (AllocateMappingGenerationLocked _) as [m1 og].
    destruct Hgen as (Hm1 & _ & Hh & Hb & Hsz & _ & _ & Hog).
    destruct og as [g|]; [|done]. injection Hc as <-. destruct Hog as [_ Hnext].
    simpl in Hb, Hsz, Hh.
    assert (Hend : gm_end m1 = base + size) by (unfold gm_end; by rewrite Hb, Hsz).
    assert (Hone : forall {A} `{Interval A} (x : A), istart x = base -> isize x = size ->
              ranges_ok (base_address_ m1) (gm_end m1) [x]).
    { intros A ? x Hx1 Hx2. apply ranges_ok_cons. rewrite Hb, Hend. unfold valid_in, iend.
      split_and!; [lia|lia|lia|apply ranges_ok_nil|by intros ? ?%elem_of_nil]. }
    apply with_tables_ok; try done; try (by apply Hone); try apply ranges_ok_nil.
    + intros a. unfold content. rewrite !range_at_cons. unfold inside, iend. simpl.
      destruct (decide _); [by split; eauto|]. split; by intros [].
    + by intros a [].
    + intros a g'. unfold content. rewrite range_at_cons. case_decide; [|done]. simpl.
      intros [= <-]. destruct (go_next m1 Hm1) as [[? _] [? _]]. unfold imean, identity_denote. simpl.
      rewrite Hnext in *. split; [apply gen_le_refl|done].
    + by intros s ?%elem_of_nil.
  - unfold CreateHostMapped in Hc. destruct (_ || _ || _ || _ || _) eqn:Eg; [done|].
    repeat (apply orb_false_iff in Eg as [Eg ?]).
    destruct mapping as [base|]; [|done]. destruct (Hmap base eq_refl) as [Hb0 Hb1].
    rewrite sub64_small in Hc by lia. destruct (size >? u64_max - base) eqn:Eo; [done|].
    destruct (host_protect 0); cbn [negb] in Hc; [|done].
    assert (Hblank : gm_ok (blank_memory base size page_size true 1)).
    { apply blank_ok; try lia. intros _.
      destruct (is_power_of_two_spec page_size Hp) as (k & Hk & ->).
      - unfold is_power_of_two. apply andb_true_iff. split; [lia|]. by apply negb_false_iff.
      - exists k. split; [|done]. split; [done|]. apply (Z.pow_lt_mono_r_iff 2); [lia|lia|].
        unfold is_u64 in Hp. rewrite u64_max_eq in Hp. change (2 ^ 64) with 18446744073709551616. lia. }
    destruct (negb (p =? kNone)); [|by injection Hc as <-].
    pose proof (MapLocked_spec base size p _ Hblank ltac:(done) ltac:(done)) as Hm.
    unfold Map in Hc. destruct (MapLocked base size p _) as [m1 ok]. destruct Hm as [Hm1 _].
    destruct ok; [|done]. by injection Hc as <-.
Qed.

(** Every mapping visible after a step was visible before, or is newer than
    everything handed out before. *)
Definition gen_advances m m' : Prop :=
  gen_le (next_mapping_generation_ m) (next_mapping_generation_ m') /\
  forall a x, gen_view m' a = Some x ->
    gen_view m a = Some x \/ gen_ltb (next_mapping_generation_ m) x = true.

Lemma gen_advances_tables m m' :
  same_tables m m' -> next_mapping_generation_ m' = next_mapping_generation_ m -> gen_advances m m'.
Proof.
  intros Ht Hn. split; [rewrite Hn; apply gen_le_refl|].
  intros a x. rewrite (proj2 (same_tables_views _ _ Ht)). by left.
Qed.

Lemma gen_advances_trans m1 m2 m3 : gen_advances m1 m2 -> gen_advances m2 m3 -> gen_advances m1 m3.
Proof.
  intros [A1 A2] [B1 B2]. split; [by eapply gen_le_trans|].
  intros a x [Hx|Hx]%B2; [by apply A2|right]. by eapply gen_le_lt_trans.
Qed.

(** Mapping a window with a newer generation. *)
Lemma gen_advances_map m m' address l' g :
  gen_ltb (next_mapping_generation_ m) g = true -> next_mapping_generation_ m' = g ->
  (forall a, gen_view m' a = if decide (in_range address l' a) then Some g else gen_view m a) ->
  gen_advances m m'.
Proof.
  intros Hlt Hn Hv. split; [rewrite Hn; by apply gen_lt_le|].
  intros a x. rewrite Hv. case_decide; [intros [= <-]; by right|by left].
Qed.

(** Tables and stores decide what an address shows. *)
Lemma store_guest_byte m m' a :
  same_store m m' -> content (shared_mappings_ m') a = content (shared_mappings_ m) a ->
  guest_byte m' a = guest_byte m a.
Proof.
  intros [S1 S2 S3 S4 S5 S6] Hc. unfold guest_byte, loc_of, byte_at. by rewrite Hc, S1, S5, S6.
Qed.

(** When [MapLocked] succeeds on a memory that is not host mapped. *)
Lemma MapLocked_result address length protection m :
  let '(m', ok) := MapLocked address length protection m in
  host_mapped m = false ->
  ok = IsValidProtection protection && CanMap address length m
       && bool_decide (is_Some (AllocateMappingGenerationLocked m).2).
Proof.
  unfold MapLocked, CanMap, CanMapLocked at 2, effective_length.
  destruct (IsValidProtection protection); cbn [negb orb andb]; [|done].
  destruct (length =? 0) eqn:E0; [done|].
  destruct (host_mapped m) eqn:Eh; [by repeat split_match|].
  unfold CanMapLocked, effective_length. rewrite E0, Eh.
  set (c := if negb (Contains address length m) then false else _).
  destruct c; cbn [negb andb]; [|done].
  unfold AllocateMappingGenerationLocked.
  destruct (mapping_generation_exhausted_ m); [by rewrite bool_decide_eq_false_2 by (by intros [])|].
  destruct (AdvanceGuestMemoryGeneration _) as [g|].
  - simpl. by rewrite Eh.
  - by rewrite bool_decide_eq_false_2 by (by intros []).
Qed.

Lemma Protect_result address length protection m :
  let '(m', ok) := Protect address length protection m in
  host_mapped m = false ->
  ok = negb (length =? 0) && IsValidProtection protection && IsMappedLocked address length m /\
  (ok = false -> m' = m).
Proof.
  unfold Protect, effective_length.
  destruct (length =? 0), (IsValidProtection protection), (host_mapped m); cbn [negb orb andb];
    try done; try (by repeat split_match). by destruct (IsMappedLocked address length m).
Qed.

Lemma Unmap_result address length m :
  let '(m', ok) := Unmap address length m in
  host_mapped m = false ->
  ok = negb (length =? 0) && IsMappedLocked address length m /\ (ok = false -> m' = m).
Proof.
  unfold Unmap, effective_length.
  destruct (length =? 0), (host_mapped m); cbn [negb orb andb];
    try done; try (by repeat split_match). by destruct (IsMappedLocked address length m).
Qed.

Lemma initializes_step d m address length result :
  gm_ok m -> initializes d m address length result -> gm_ok result.1 /\ gen_advances m result.1.
Proof.
  intros Hm. unfold initializes. destruct (IsMappedLocked address length m).
  - intros (n & _ & _ & _ & Hok & _ & Ht & Hn & _). split; [done|by apply gen_advances_tables].
  - intros ->. split; [done|by apply gen_advances_tables].
Qed.

Lemma step_spec m m' : gm_ok m -> gm_step m m' -> gm_ok m' /\ gen_advances m m'.
Proof.
  intros Hm. destruct 1 as [ref b Hnone Hb|a l p Ha Hl|a l p ref off Ha Hl Ho|a l p Ha Hl|a l Ha Hl
    |a source Ha|a l v Ha [Hl _]|dst src l Hd Hs [Hl _]|a source Ha|a l v Ha [Hl _]].
  - split; [|by apply gen_advances_tables]. destruct Hm. split; try done; simpl.
    + intros ref2 b2. rewrite lookup_insert. case_decide; [by intros [= <-]|by apply go_backings].
    + intros s Hs. destruct (go_backed s Hs) as (b2 & Hb2 & Hrest). exists b2.
      rewrite lookup_insert_ne by congruence. done.
  - pose proof (MapLocked_spec a l p m Hm Ha Hl) as Hmap. unfold Map.
    destruct (MapLocked a l p m) as [m' ok]. destruct Hmap as (Hok & _ & _ & Hres).
    split; [done|]. destruct ok.
    + destruct Hres as (l' & g & _ & _ & _ & _ & _ & Hlt & Hn & _ & Hv). by eapply gen_advances_map.
    + destruct Hres as [Ht Hn]. split; [done|]. intros x y. simpl.
      rewrite (proj2 (same_tables_views _ _ Ht)). by left.
  - pose proof (MapShared_spec a l p ref off m Hm Ha Hl Ho) as Hmap.
    destruct (MapShared a l p ref off m) as [m' ok]. destruct Hmap as (Hok & _ & Hres).
    split; [done|]. destruct ok.
    + destruct Hres as (b & g & _ & _ & _ & _ & _ & _ & Hlt & Hn & _ & Hv & _). by eapply gen_advances_map.
    + destruct Hres as [Ht Hn]. split; [done|]. intros x y. simpl.
      rewrite (proj2 (same_tables_views _ _ Ht)). by left.
  - pose proof (Protect_spec a l p m Hm Ha Hl) as Hp. destruct (Protect a l p m) as [m' ok].
    destruct Hp as (Hok & _ & _ & Hids & Hn & _). split; [done|].
    split; [simpl; rewrite Hn; apply gen_le_refl|]. intros x y. unfold gen_view. simpl. rewrite Hids. by left.
  - pose proof (Unmap_spec a l m Hm Ha Hl) as Hu. destruct (Unmap a l m) as [m' ok].
    destruct Hu as (Hok & _ & _ & Hn & Hres). split; [done|]. destruct ok; [|by apply gen_advances_tables].
    destruct Hres as (l' & _ & _ & _ & _ & _ & Hv & _).
    split; [simpl; rewrite Hn; apply gen_le_refl|]. intros x y. simpl. rewrite Hv. case_decide; [done|by left].
  - destruct (Write_spec a source m Hm Ha) as [_ Hres]. destruct (Write a source m) as [m' ok]. simpl in *.
    destruct ok; [|subst; split; [done|by apply gen_advances_tables]].
    destruct Hres as (Hok & _ & Ht & Hn & _). split; [done|by apply gen_advances_tables].
  - destruct (Fill_spec a l v m Hm Ha Hl) as [_ Hres]. destruct (Fill a l v m) as [m' ok]. simpl in *.
    destruct ok; [|subst; split; [done|by apply gen_advances_tables]].
    destruct Hres as (Hok & _ & Ht & Hn & _). split; [done|by apply gen_advances_tables].
  - pose proof (Copy_spec dst src l m Hm Hd Hs Hl) as Hc. destruct (Copy dst src l m) as [m' ok].
    destruct Hc as (_ & Hok & _ & Ht & Hn & _). split; [done|by apply gen_advances_tables].
  - by apply (initializes_step (source_byte source) m a (Z.of_nat (List.length source))), Initialize_spec.
  - by apply (initializes_step (fun _ => v) m a l), InitializeFill_spec.
Qed.

Lemma run_spec m m' : gm_ok m -> gm_run m m' -> gm_ok m' /\ gen_advances m m'.
Proof.
  intros Hm. induction 1 as [|m1 m2 _ [Hok Hadv] Hstep]; [split; [done|by apply gen_advances_tables]|].
  destruct (step_spec _ _ Hok Hstep) as [Hok2 Hadv2]. split; [done|]. by eapply gen_advances_trans.
Qed.

(** C1: every guest memory, however created, keeps its tables consistent along
    every sequence of maps, shared maps, protections, unmaps, writes, fills and
    copies, failed ones included: the regions, identities and shared mappings
    are ordered, disjoint, non-empty and inside the window, an address has a
    protection exactly when it has a mapping generation, every shared mapping
    covers mapped addresses only and stays inside its backing, and no
    generation is newer than the counter. *)
Theorem guest_memory_invariant m0 m : gm_created m0 -> gm_run m0 m -> gm_ok m.
Proof. intros Hc Hr. by apply (run_spec m0 m (created_ok m0 Hc) Hr). Qed.

(** Equal tokens at both ends of a run: the window kept its mappings in between. *)
Lemma token_keeps_views m0 m1 m2 address length g ex1 ex2 :
  gm_ok m0 -> gm_ok m2 -> is_u64 address -> 0 < length -> gen_advances m0 m1 -> gen_advances m1 m2 ->
  CaptureMappingToken address length m0 = Some (g, ex1) ->
  CaptureMappingToken address length m2 = Some (g, ex2) ->
  forall a, address <= a < address + length ->
    is_Some (gen_view m1 a) /\ gen_view m1 a = gen_view m0 a.
Proof.
  intros Hm0 Hm2 Ha Hl A01 A12 Ht0 Ht2 a Haa.
  destruct (gen_advances_trans _ _ _ A01 A12) as [_ A02].
  pose proof (CaptureMappingToken_spec m0 address length Hm0 Ha Hl) as S0. rewrite Ht0 in S0.
  destruct S0 as (_ & _ & b & Hb & Hgb). destruct (go_generations m0 Hm0 b g Hgb) as [Hgle _].
  pose proof (CaptureMappingToken_spec m2 address length Hm2 Ha Hl) as S2. rewrite Ht2 in S2.
  destruct S2 as (_ & Hall & _). destruct (Hall a Haa) as (x & Hx & Hxg).
  assert (Hold : gen_ltb (next_mapping_generation_ m0) x = false) by (by eapply gen_le_trans).
  destruct (A02 a x Hx) as [H0x|]; [|congruence].
  destruct A12 as [_ A12]. destruct (A12 a x Hx) as [H1x|Hnew]; [split; [eauto|congruence]|].
  destruct A01 as [A01 _]. apply (gen_le_lt_trans _ _ _ A01) in Hnew. congruence.
Qed.

(** A mapping token identifies the mappings it was captured from.  If the
    tokens of a window are equal at the two ends of a run, then at every moment
    in between every address of the window was mapped, by the very mapping it
    had at the start: nothing in the window was unmapped or remapped, whatever
    else the run did. *)
Theorem mapping_token_identifies m0 m1 m2 address length g ex1 ex2 :
  gm_ok m0 -> is_u64 address -> 0 < length -> gm_run m0 m1 -> gm_run m1 m2 ->
  CaptureMappingToken address length m0 = Some (g, ex1) ->
  CaptureMappingToken address length m2 = Some (g, ex2) ->
  forall a, address <= a < address + length ->
    is_Some (gen_view m1 a) /\ gen_view m1 a = gen_view m0 a.
Proof.
  intros Hm0 Ha Hl H01 H12 Ht0 Ht2.
  destruct (run_spec _ _ Hm0 H01) as [Hm1 A01]. destruct (run_spec _ _ Hm1 H12) as [Hm2 A12].
  by apply (token_keeps_views m0 m1 m2 address length g ex1 ex2).
Qed.

(** C16: [Map] adds exactly its window to the address space.  It succeeds, on a
    memory that is not host mapped, exactly when the protection is valid, the
    window is free ([CanMap]) and generations remain; then the page-rounded
    window gets the protection and a generation newer than all others, and
    every other address keeps both.  No call touches a byte, a backing or the
    shared mappings, so every address shows the byte it showed; a failed call
    leaves all three tables as they were, and at most uses up a mapping
    generation (the host refused the protection after it was drawn). *)
Theorem Map_refines address length protection m :
  gm_ok m -> is_u64 address -> is_u64 length ->
  let '(m', ok) := Map address length protection m in
  (host_mapped m = false ->
   ok = IsValidProtection protection && CanMap address length m
        && bool_decide (is_Some (AllocateMappingGenerationLocked m).2)) /\
  same_store m m' /\ shared_mappings_ m' = shared_mappings_ m /\
  (forall a, guest_byte m' a = guest_byte m a) /\
  if ok then exists l' g,
    effective_length address length m = Some l' /\ CanMap address length m = true /\
    (forall a x, gen_view m a = Some x -> gen_ltb x g = true) /\
    (forall a, prot_view m' a =
       if decide (in_range address l' a) then Some protection else prot_view m a) /\
    (forall a, gen_view m' a = if decide (in_range address l' a) then Some g else gen_view m a)
  else same_tables m m' /\ gen_le (next_mapping_generation_ m) (next_mapping_generation_ m').
Proof.
  intros Hm Ha Hl. pose proof (MapLocked_spec address length protection m Hm Ha Hl) as Hmap.
  pose proof (MapLocked_result address length protection m) as Hres. unfold Map.
  destruct (MapLocked address length protection m) as [m' ok]. destruct Hmap as (_ & Hst & Hsh & Hok).
  split_and!; [done|done|done|intros a; apply store_guest_byte; [done|by rewrite Hsh]|].
  destruct ok; [|done].
  destruct Hok as (l' & g & Hval & Hcan & El & _ & _ & Hlt & _ & Hp & Hg). exists l', g.
  split_and!; try done. intros a x Hx. destruct (go_generations m Hm a x Hx) as [Hle _].
  by eapply gen_le_lt_trans.
Qed.

(** C17: [Protect] and [Unmap] act on exactly their window.  On a memory that is
    not host mapped each succeeds exactly for a non-empty window that is mapped
    throughout (and, for [Protect], a valid protection), and otherwise changes
    nothing at all; on a host-mapped one the page-rounded window must be mapped
    and the host call succeed, and a failed call leaves all three tables as they
    were.  [Protect] replaces the protection there and keeps every mapping
    generation, the shared mappings and every byte; [Unmap] removes the window
    from the protections, the generations and the shared mappings and zeroes its
    private bytes.  Addresses outside keep everything. *)
Theorem Protect_Unmap_refine address length protection m :
  gm_ok m -> is_u64 address -> is_u64 length ->
  (let '(m', ok) := Protect address length protection m in
   (host_mapped m = false -> ok = negb (length =? 0) && IsValidProtection protection
                                  && IsMappedLocked address length m /\ (ok = false -> m' = m)) /\
   (forall a, gen_view m' a = gen_view m a) /\ same_store m m' /\
   shared_mappings_ m' = shared_mappings_ m /\
   mapping_identity_regions_ m' = mapping_identity_regions_ m /\
   (forall a, guest_byte m' a = guest_byte m a) /\
   if ok then exists l', effective_length address length m = Some l' /\
     accessible m address l' kNone /\
     (forall a, prot_view m' a =
        if decide (in_range address l' a) then Some protection else prot_view m a)
   else same_tables m m') /\
  (let '(m', ok) := Unmap address length m in
   (host_mapped m = false -> ok = negb (length =? 0) && IsMappedLocked address length m /\
                             (ok = false -> m' = m)) /\
   same_shape m m' /\ backings m' = backings m /\
   if ok then exists l', effective_length address length m = Some l' /\
     accessible m address l' kNone /\ zeroed m address l' m' /\
     (forall a, prot_view m' a = if decide (in_range address l' a) then None else prot_view m a) /\
     (forall a, gen_view m' a = if decide (in_range address l' a) then None else gen_view m a) /\
     (forall a, content (shared_mappings_ m') a =
        if decide (in_range address l' a) then None else content (shared_mappings_ m) a)
   else same_tables m m').
Proof.
  intros Hm Ha Hl.
  assert (Hacc : forall l', 0 < l' -> IsMappedLocked address l' m = true -> accessible m address l' kNone).
  { intros l' Hl' Hmap. apply CanAccessLocked_iff in Hmap; [|done|done|lia].
    by rewrite Z.max_r in Hmap by lia. }
  split.
  - pose proof (Protect_spec address length protection m Hm Ha Hl) as Hp.
    pose proof (Protect_result address length protection m) as Hr.
    destruct (Protect address length protection m) as [m' ok].
    destruct Hp as (_ & Hst & Hsh & Hids & _ & Hres).
    split_and!; [done|intros a; unfold gen_view; by rewrite Hids|done|done|done
      |intros a; apply store_guest_byte; [done|by rewrite Hsh]|].
    destruct ok; [|done].
    destruct Hres as (l' & El & _ & Hmap & H0 & Hv). exists l'. split_and!; auto.
  - pose proof (Unmap_spec address length m Hm Ha Hl) as Hu.
    pose proof (Unmap_result address length m) as Hr.
    destruct (Unmap address length m) as [m' ok]. destruct Hu as (_ & Hshp & Hbk & _ & Hres).
    split_and!; [done|done|done|]. destruct ok; [|done]. destruct Hres as (l' & El & H0 & Hmap & Hz & V1 & V2 & V3).
    exists l'. split_and!; auto.
Qed.
End runs.
