(* ===== verification/ResourceCoherence.v ===== *)
(** GPU resource coherence (gpu/resource_coherence.cpp): which GPU resources
    have to be uploaded again because the guest wrote to their memory.  The
    component observes the write events of [GuestMemory]; the theorems compose
    the two. *)
From S2P Require Import Prelude Ranges SharedBacking GuestMemory GuestMemoryMap GuestMemoryOps.
From S2P Require Import GuestMemoryData GuestMemoryWrite GuestMemoryCopy GuestMemoryInit.
From S2P Require Import GuestMemoryRuns.

Implicit Types (m : GuestMemory) (address size : Z).

(** ** Data *)

Definition GpuResourceId : Type := Z.

Record GpuResourceCoherenceState := mkCoherenceState {
  st_mapped : bool;
  st_mapping_changed : bool;
  st_needs_cpu_upload : bool;
  st_gpu_write_pending : bool;
  st_cpu_generation_precise : bool;
  st_cpu_write_generation : GuestMemoryGeneration
}.

(** [rr_mapping_token] is the generation of the mapping and the exhaustion flag. *)
Record ResourceRecord := mkRecord {
  rr_address : Z;
  rr_size : Z;
  rr_mapping_token : GuestMemoryGeneration * bool;
  rr_cpu_write_generation : GuestMemoryGeneration;
  rr_cpu_generation_precise : bool;
  rr_needs_cpu_upload : bool;
  rr_gpu_write_pending : bool
}.

(** [memory_] is passed to the operations that read it. *)
Record GpuResourceCoherence := mkCoherence {
  records_ : gmap GpuResourceId ResourceRecord;
  next_resource_id_ : Z
}.

Implicit Types (c : GpuResourceCoherence) (r : ResourceRecord) (ev : GuestMemoryWriteEvent)
  (resource : GpuResourceId).

Definition GpuResourceCoherence_init : GpuResourceCoherence := mkCoherence ∅ 1.

(** ** Helpers *)

Definition IsValidRange address size : bool :=
  negb (size =? 0) && (size <=? (u64_max - address)%u64).

Definition RangesOverlap (left_address left_size right_address right_size : Z) : bool :=
  (left_address <? (right_address + right_size)%u64) && (right_address <? (left_address + left_size)%u64).

Definition with_flags r (needs_cpu_upload gpu_write_pending : bool) : ResourceRecord :=
  mkRecord (rr_address r) (rr_size r) (rr_mapping_token r) (rr_cpu_write_generation r)
    (rr_cpu_generation_precise r) needs_cpu_upload gpu_write_pending.

Definition with_record c resource r : GpuResourceCoherence :=
  mkCoherence (<[resource := r]> (records_ c)) (next_resource_id_ c).

(** ** The observer slot of the memory *)

(** [write_observer_] is a weak pointer: the identity of an observer, dead once
    [alive] no longer holds of it. *)
Definition lock_observer (alive : Z -> bool) (observer : option Z) : option Z :=
  match observer with Some o => if alive o then Some o else None | None => None end.

(** The new slot and the result. *)
Definition SetWriteObserver (alive : Z -> bool) (observer slot : option Z) : option Z * bool :=
  match lock_observer alive observer with
  | None => (slot, false)
  | Some candidate =>
      match lock_observer alive slot with
      | Some existing => if negb (existing =? candidate) then (slot, false) else (Some candidate, true)
      | None => (Some candidate, true)
      end
  end.

Definition ClearWriteObserver (alive : Z -> bool) (observer slot : option Z) : option Z :=
  match observer with
  | None => slot
  | Some o =>
      match lock_observer alive slot with
      | Some existing => if existing =? o then None else slot
      | None => None
      end
  end.

(** [Create]; [None] is the exception. *)
Definition GpuResourceCoherence_Create (alive : Z -> bool) (self : Z) (slot : option Z)
    : option Z * option GpuResourceCoherence :=
  let '(slot', ok) := SetWriteObserver alive (Some self) slot in
  (slot', if ok then Some GpuResourceCoherence_init else None).

(** ** Operations *)

Definition RecordIsCurrent m r : bool :=
  match CaptureMappingToken (rr_address r) (rr_size r) m with
  | Some token => negb token.2 && bool_decide (token = rr_mapping_token r)
  | None => false
  end.

Definition RegisterResource address size m c : GpuResourceCoherence * option GpuResourceId :=
  if negb (IsValidRange address size) then (c, None)
  else match CaptureMappingToken address size m with
  | None => (c, None)
  | Some token =>
      if snd token then (c, None)
      else
        let resource := next_resource_id_ c in
        if resource =? 0 then (c, None)
        else match records_ c !! resource with
        | Some _ => (c, None)
        | None =>
            (mkCoherence
               (<[resource := mkRecord address size token (write_generation_ m)
                                (negb (write_generation_exhausted_ m)) true false]> (records_ c))
               (resource + 1)%u64, Some resource)
        end
  end.

Definition UnregisterResource resource c : GpuResourceCoherence * bool :=
  (mkCoherence (delete resource (records_ c)) (next_resource_id_ c),
   bool_decide (is_Some (records_ c !! resource))).

Definition Coherence_Query resource m c : option GpuResourceCoherenceState :=
  match records_ c !! resource with
  | None => None
  | Some record =>
      let mapping_token := CaptureMappingToken (rr_address record) (rr_size record) m in
      Some (mkCoherenceState
        (bool_decide (is_Some mapping_token))
        (match mapping_token with
         | None => true
         | Some token => snd token || negb (bool_decide (token = rr_mapping_token record))
         end)
        (rr_needs_cpu_upload record) (rr_gpu_write_pending record)
        (rr_cpu_generation_precise record) (rr_cpu_write_generation record))
  end.

Definition AcknowledgeCpuUpload resource (generation : GuestMemoryGeneration) m c
    : GpuResourceCoherence * bool :=
  match records_ c !! resource with
  | None => (c, false)
  | Some record =>
      if negb (RecordIsCurrent m record) then (c, false)
      else if negb (rr_needs_cpu_upload record) || negb (rr_cpu_generation_precise record)
              || negb (bool_decide (rr_cpu_write_generation record = generation)) then (c, false)
      else (with_record c resource (with_flags record false (rr_gpu_write_pending record)), true)
  end.

(** The common shape of [MarkGpuWrite] and [InvalidateGpuWrite]. *)
Definition set_gpu_write resource (pending : bool) m c : GpuResourceCoherence * bool :=
  match records_ c !! resource with
  | None => (c, false)
  | Some record =>
      if negb (RecordIsCurrent m record) then (c, false)
      else (with_record c resource (with_flags record (rr_needs_cpu_upload record) pending), true)
  end.

Definition MarkGpuWrite resource m c := set_gpu_write resource true m c.
Definition InvalidateGpuWrite resource m c := set_gpu_write resource false m c.

(** The result does not depend on the order in which the map is walked. *)
Definition HasGpuWritePendingOverlap address size c : bool :=
  if negb (IsValidRange address size) then true
  else existsb (fun entry : GpuResourceId * ResourceRecord =>
         rr_gpu_write_pending entry.2
         && RangesOverlap address size (rr_address entry.2) (rr_size entry.2)) (map_to_list (records_ c)).

(** The body of the loop of [OnGuestMemoryWrite]. *)
Definition observe_write ev r : ResourceRecord :=
  if negb (RangesOverlap (rr_address r) (rr_size r) (we_address ev) (we_size ev)) then r
  else
    let is_newer := gen_ltb (rr_cpu_write_generation r) (we_generation ev) in
    let generation := if is_newer then we_generation ev else rr_cpu_write_generation r in
    let precise := if we_exhausted ev then false else rr_cpu_generation_precise r in
    let needs := if is_newer || we_exhausted ev || negb precise then true else rr_needs_cpu_upload r in
    mkRecord (rr_address r) (rr_size r) (rr_mapping_token r) generation precise needs
      (rr_gpu_write_pending r).

Definition OnGuestMemoryWrite ev c : GpuResourceCoherence :=
  if negb (IsValidRange (we_address ev) (we_size ev)) then c
  else mkCoherence (observe_write ev <$> records_ c) (next_resource_id_ c).

(** ** What the memory reports *)

(** A byte that changes under an unchanged mapping is covered by an event. *)
Definition reported m m' (evs : list GuestMemoryWriteEvent) : Prop :=
  logged m m' evs /\
  forall a g, gen_view m a = Some g -> gen_view m' a = Some g ->
    guest_byte m' a <> guest_byte m a -> exists ev, ev ∈ evs /\ event_covers ev a.

Lemma gen_view_in_memory m a g : gm_ok m -> gen_view m a = Some g -> base_address_ m <= a < gm_end m.
Proof.
  intros Hm. unfold gen_view, content. destruct (range_at _ a) as [x|] eqn:E; [|done]. intros _.
  apply range_at_Some in E as [Hx Hi].
  destruct (ro_valid_elem _ _ _ _ (go_identities m Hm) Hx) as (? & ? & ?). unfold inside in Hi. lia.
Qed.

Lemma reported_bytes m m' :
  events m' = events m -> write_generation_ m' = write_generation_ m ->
  (forall a g, gen_view m a = Some g -> gen_view m' a = Some g -> guest_byte m' a = guest_byte m a) ->
  reported m m' [].
Proof. intros He Hg Hb. split; [by apply logged_nothing|]. intros a g H1 H2 []. by eapply Hb. Qed.

Lemma reported_kept m m' address length :
  gm_ok m -> notified m m' (denotes_written m address length) ->
  (forall a, base_address_ m <= a < gm_end m ->
     (forall i, 0 <= i < length -> loc_of m (address + i) <> loc_of m a) -> guest_byte m' a = guest_byte m a) ->
  exists evs, reported m m' evs.
Proof.
  intros Hm (evs & Hlog & Hcov & _) Hkept. exists evs. split; [done|].
  intros a g Hga _ Hne. pose proof (gen_view_in_memory m a g Hm Hga) as Hin. apply Hcov; [done|].
  destruct (Exists_dec (fun i => loc_of m a = loc_of m (address + Z.of_nat i)) (seq 0 (Z.to_nat length)))
    as [Hex|Hno].
  - apply Exists_exists in Hex as (i & Hi%elem_of_seq & Hl). exists (address + Z.of_nat i).
    unfold in_range. split; [lia|done].
  - destruct Hne. apply Hkept; [done|]. intros i Hi Heq. apply Hno. apply Exists_exists.
    exists (Z.to_nat i). rewrite elem_of_seq, Z2Nat.id by lia. split; [lia|done].
Qed.

Lemma reported_stored d m m' address length :
  gm_ok m -> stored d m m' address length -> notified m m' (denotes_written m address length) ->
  exists evs, reported m m' evs.
Proof. intros Hm [Hkept _] Hn. by eapply reported_kept. Qed.

Section reports.
Context `{HostMemory}.

Lemma MapLocked_log address length protection m :
  let m' := (MapLocked address length protection m).1 in
  events m' = events m /\ write_generation_ m' = write_generation_ m.
Proof.
  cbv zeta. unfold MapLocked, AllocateMappingGenerationLocked, ProtectHostMapping. by repeat split_match.
Qed.

Lemma reported_map address length protection m :
  gm_ok m -> is_u64 address -> is_u64 length -> reported m (Map address length protection m).1 [].
Proof.
  intros Hm Ha Hl. pose proof (MapLocked_spec address length protection m Hm Ha Hl) as Hs.
  destruct (MapLocked_log address length protection m) as [He Hg]. unfold Map.
  destruct (MapLocked address length protection m) as [m' ok]. simpl in *.
  destruct Hs as (_ & Hst & Hsh & _). apply reported_bytes; [done|done|].
  intros a g _ _. apply store_guest_byte; [done|by rewrite Hsh].
Qed.

Lemma reported_map_shared address length protection ref off m :
  gm_ok m -> is_u64 address -> is_u64 length -> is_u64 off ->
  reported m (MapShared address length protection ref off m).1 [].
Proof.
  intros Hm Ha Hl Ho. pose proof (MapShared_spec address length protection ref off m Hm Ha Hl Ho) as Hs.
  assert (Hlog : let m' := (MapShared address length protection ref off m).1 in
    events m' = events m /\ write_generation_ m' = write_generation_ m).
  { cbv zeta. unfold MapShared. repeat split_match; try done.
    all: match goal with E : MapLocked ?a ?l ?p ?m0 = (?m1, _) |- _ =>
           pose proof (MapLocked_log a l p m0) as [? ?]; rewrite E in *; simpl in * end; done. }
  destruct Hlog as [He Hg]. destruct (MapShared address length protection ref off m) as [m' ok]. simpl in *.
  destruct Hs as (_ & Hst & Hres). apply reported_bytes; [done|done|].
  intros a g H0 H1. apply store_guest_byte; [done|]. destruct ok; [|destruct Hres as [[_ _ ->] _]; done].
  destruct Hres as (b & g' & _ & _ & _ & _ & _ & _ & Hlt & _ & _ & Hv & Hc). rewrite Hc.
  case_decide as Hin; [|done]. rewrite Hv, decide_True in H1 by done. injection H1 as ->.
  destruct (go_generations m Hm a g H0) as [Hle _]. unfold gen_le in Hle. congruence.
Qed.

Lemma reported_protect address length protection m :
  gm_ok m -> is_u64 address -> is_u64 length -> reported m (Protect address length protection m).1 [].
Proof.
  intros Hm Ha Hl. pose proof (Protect_spec address length protection m Hm Ha Hl) as Hs.
  assert (Hlog : let m' := (Protect address length protection m).1 in
    events m' = events m /\ write_generation_ m' = write_generation_ m).
  { cbv zeta. unfold Protect, ProtectHostMapping. by repeat split_match. }
  destruct Hlog as [He Hg]. destruct (Protect address length protection m) as [m' ok]. simpl in *.
  destruct Hs as (_ & Hst & Hsh & _). apply reported_bytes; [done|done|].
  intros a g _ _. apply store_guest_byte; [done|by rewrite Hsh].
Qed.

(** A successful [Unmap] changes bytes of addresses it unmaps only; one that
    fails after it has cleared the window reports the window. *)
Lemma reported_unmap address length m :
  gm_ok m -> is_u64 address -> is_u64 length -> exists evs, reported m (Unmap address length m).1 evs.
Proof.
  intros Hm Ha Hl. pose proof (Unmap_spec address length m Hm Ha Hl) as Hs.
  assert (Hcase : let '(m', ok) := Unmap address length m in
    (events m' = events m /\ write_generation_ m' = write_generation_ m /\ (ok = false -> bytes_ m' = bytes_ m)) \/
    exists l' m1, effective_length address length m = Some l' /\ IsMappedLocked address l' m = true /\
      0 < l' /\ m' = NotifyWrite address l' m1 /\ gm_ok m1 /\ logged m m1 [] /\ zeroed m address l' m1 /\
      shared_mappings_ m1 = [] /\ same_shape m m1).
  { unfold Unmap. destruct (length =? 0) eqn:E0; [by left|].
    destruct (effective_length address length m) as [l'|] eqn:El; [|by left].
    destruct (IsMappedLocked address l' m) eqn:Em; cbn [negb]; [|by left].
    destruct (host_mapped m) eqn:Eh; [|by left]. unfold ProtectHostMapping at 1.
    destruct (host_protect (host_calls m)); cbn [negb]; [|by left]. unfold ProtectHostMapping.
    destruct (host_protect _); cbn [negb]; [by left|]. right.
    unfold is_u64 in Hl. destruct (effective_length_spec m Hm address length l' Hl ltac:(lia) El) as (L1 & L2 & L3).
    destruct (mapped_window m address l' Hm Ha ltac:(lia) Em) as (M1 & M2 & M3).
    destruct (store_zeros (with_host_calls m (S (host_calls m))) address l') as [Z1 Z2];
      [by apply host_calls_ok|lia|done|done|].
    eexists l', _. split_and!; [done|done|lia|reflexivity|by apply host_calls_ok, host_calls_ok
      |by apply logged_nothing|exact Z2|by apply (go_host_shared m Hm)|by split]. }
  destruct (Unmap address length m) as [m' ok]. simpl.
  destruct Hcase as [(He & Hg & Hb)|(l' & m1 & El & Em & Hpos & -> & Hm1 & Hlog & Hz & Hsh & Hshape)].
  - exists []. apply reported_bytes; [done|done|]. intros a g H0 H1.
    destruct Hs as (_ & [S1 S2 S3 S4] & Hbk & _ & Hs). destruct ok.
    + destruct Hs as (l' & _ & _ & _ & Hz & _ & Hv & Hc). rewrite Hv in H1. case_decide as Hout; [done|].
      unfold guest_byte, loc_of. rewrite Hc, decide_False by done.
      destruct (content _ a) as [[ref off]|]; simpl; [by rewrite Hbk|]. rewrite S1, Hz.
      rewrite decide_False; [done|]. pose proof (gen_view_in_memory m a g Hm H0).
      unfold in_range in *. rewrite Z2Nat.id by lia. lia.
    + destruct Hs as [_ _ T3]. unfold guest_byte, loc_of. rewrite T3.
      destruct (content _ a) as [[ref off]|]; simpl; [by rewrite Hbk|by rewrite S1, Hb].
  - destruct (mapped_window m address l' Hm Ha ltac:(lia) Em) as (M1 & M2 & M3).
    destruct (go_window m Hm) as (W1 & W2 & W3).
    destruct (NotifyWrite_logged address l' m1 Hm1 ltac:(lia) ltac:(lia) ltac:(lia)) as (g' & ex & L & _ & C).
    exists [mkWriteEvent address l' g' ex]. split; [exact (logged_trans _ _ _ _ _ Hlog L)|].
    intros a g H0 _ Hne. eexists. split; [apply list_elem_of_here|]. unfold event_covers. simpl.
    destruct (decide (in_range address l' a)) as [|Hout]; [done|]. destruct Hne.
    destruct Hs as (_ & _ & Hbk & _ & Hs). pose proof Hshape as [S1 _ _ _].
    assert (Hpriv : content (shared_mappings_ m) a = None).
    { destruct C as [_ [_ _ T3] _ _ _]. rewrite Hsh in T3. destruct ok.
      - destruct Hs as (l2 & E2 & _ & _ & _ & _ & _ & Hc). rewrite El in E2. injection E2 as <-.
        specialize (Hc a). rewrite decide_False in Hc by done. by rewrite <- Hc, T3.
      - destruct Hs as [_ _ T]. by rewrite <- T, T3. }
    unfold guest_byte. rewrite (same_content_byte m1) by done. unfold loc_of.
    destruct C as [_ [_ _ T3] _ _ _]. rewrite T3, Hsh, Hpriv. simpl. rewrite S1, Hz.
    rewrite decide_False; [done|]. pose proof (gen_view_in_memory m a g Hm H0).
    unfold in_range in *. rewrite Z2Nat.id by lia. lia.
Qed.

Lemma reported_initialized d m address length result :
  gm_ok m -> initializes d m address length result -> exists evs, reported m result.1 evs.
Proof.
  intros Hm. unfold initializes. destruct (IsMappedLocked address length m).
  - intros (n & _ & _ & _ & _ & _ & _ & _ & Hst & Hn). by eapply reported_stored.
  - intros ->. exists []. by apply reported_bytes.
Qed.

Lemma step_reported m m' : gm_ok m -> gm_step m m' -> exists evs, reported m m' evs.
Proof.
  intros Hm. destruct 1 as [ref b Hnone Hb|a l p Ha Hl|a l p ref off Ha Hl Ho|a l p Ha Hl|a l Ha Hl
    |a source Ha|a l v Ha [Hl _]|dst src l Hd Hs [Hl _]|a source Ha|a l v Ha [Hl _]].
  - exists []. apply reported_bytes; [done|done|]. intros a g _ _. unfold guest_byte. simpl.
    destruct (loc_of m a) as [x|ref' off] eqn:El; unfold loc_of in *; simpl; rewrite El; [done|]. simpl.
    rewrite lookup_insert_ne; [done|]. intros <-.
    destruct (loc_of_backed m a ref off Hm El) as (s & Hs & _ & Heq & _).
    destruct (go_backed m Hm s Hs) as (b' & Hb' & _). congruence.
  - eexists. by apply reported_map.
  - eexists. by apply reported_map_shared.
  - eexists. by apply reported_protect.
  - by apply reported_unmap.
  - destruct (Write_spec a source m Hm Ha) as [_ Hres]. destruct (Write a source m) as [m' ok]. simpl in *.
    destruct ok; [|subst; exists []; by apply reported_bytes].
    destruct Hres as (_ & _ & _ & _ & Hst & Hn). by eapply reported_stored.
  - destruct (Fill_spec a l v m Hm Ha Hl) as [_ Hres]. destruct (Fill a l v m) as [m' ok]. simpl in *.
    destruct ok; [|subst; exists []; by apply reported_bytes].
    destruct Hres as (_ & _ & _ & _ & Hst & Hn). by eapply reported_stored.
  - pose proof (Copy_spec dst src l m Hm Hd Hs Hl) as Hc.
    destruct (decide (l = 0 \/ dst = src)) as [Hsame|Hdiff].
    { destruct (Copy dst src l m) as [m' ok]. destruct Hc as (_ & _ & _ & _ & _ & Hc).
      rewrite decide_False in Hc by naive_solver. subst m'. exists []. by apply reported_bytes. }
    pose proof (Copy_moves dst src l m Hm Hd Hs ltac:(lia) ltac:(naive_solver)) as Hmv.
    destruct (Copy dst src l m) as [m' ok]. destruct Hmv as (_ & _ & _ & _ & Hmv).
    destruct ok; [|subst m'; exists []; by apply reported_bytes]. destruct Hmv as (Hn & Hkept & _).
    by apply (reported_kept m m' dst l).
  - apply (reported_initialized (source_byte source) m a (Z.of_nat (List.length source)));
      [done|by apply Initialize_spec].
  - apply (reported_initialized (fun _ => v) m a l); [done|by apply InitializeFill_spec].
Qed.
End reports.

(** ** The memory and its observer together *)

(** [cs_pending] holds the events whose callback has not run yet: several host
    threads can be between the write and the callback, so the callbacks may run
    in any order. *)
Record CoherentSystem := mkSystem {
  cs_memory : GuestMemory;
  cs_coherence : GpuResourceCoherence;
  cs_pending : list GuestMemoryWriteEvent
}.

Implicit Types (s : CoherentSystem).

Section system.
Context `{HostMemory}.

(** [acks] says which resources may be acknowledged in the step. *)
Inductive cs_step (acks : GpuResourceId -> Prop) s : CoherentSystem -> Prop :=
| cs_write m' evs : gm_step (cs_memory s) m' -> events m' = events (cs_memory s) ++ evs ->
    cs_step acks s (mkSystem m' (cs_coherence s) (cs_pending s ++ evs))
| cs_deliver before ev after : cs_pending s = before ++ ev :: after ->
    cs_step acks s (mkSystem (cs_memory s) (OnGuestMemoryWrite ev (cs_coherence s)) (before ++ after))
| cs_register address size : is_u64 address -> is_u64 size ->
    cs_step acks s (mkSystem (cs_memory s)
      (RegisterResource address size (cs_memory s) (cs_coherence s)).1 (cs_pending s))
| cs_unregister resource :
    cs_step acks s (mkSystem (cs_memory s) (UnregisterResource resource (cs_coherence s)).1 (cs_pending s))
| cs_acknowledge resource generation : acks resource ->
    cs_step acks s (mkSystem (cs_memory s)
      (AcknowledgeCpuUpload resource generation (cs_memory s) (cs_coherence s)).1 (cs_pending s))
| cs_gpu_write resource pending :
    cs_step acks s (mkSystem (cs_memory s)
      (set_gpu_write resource pending (cs_memory s) (cs_coherence s)).1 (cs_pending s)).

Inductive cs_run (acks : GpuResourceId -> Prop) s : CoherentSystem -> Prop :=
| cr_refl : cs_run acks s s
| cr_step s' s'' : cs_run acks s s' -> cs_step acks s' s'' -> cs_run acks s s''.

Definition any_ack : GpuResourceId -> Prop := fun _ => True.

(** An identifier that has been handed out. *)
Definition issued c resource : Prop := next_resource_id_ c = 0 \/ resource < next_resource_id_ c.

Record record_ok m r : Prop := {
  ro_range : 0 <= rr_address r /\ 0 < rr_size r /\ rr_address r + rr_size r <= u64_max;
  ro_generation : gen_le (rr_cpu_write_generation r) (write_generation_ m);
  ro_imprecise : rr_cpu_generation_precise r = false -> rr_needs_cpu_upload r = true
}.

Record cs_ok s : Prop := {
  co_memory : gm_ok (cs_memory s);
  co_next : is_u64 (next_resource_id_ (cs_coherence s));
  co_issued : forall resource r, records_ (cs_coherence s) !! resource = Some r ->
    issued (cs_coherence s) resource /\ record_ok (cs_memory s) r;
  co_pending : forall ev, ev ∈ cs_pending s ->
    event_ok ev /\ gen_le (we_generation ev) (write_generation_ (cs_memory s))
}.

(** ** Steps *)

Lemma gen_lt_le_trans g1 g2 g3 : gen_ltb g1 g2 = true -> gen_le g2 g3 -> gen_ltb g1 g3 = true.
Proof. unfold gen_le, gen_ltb. lia. Qed.

Lemma event_valid ev : event_ok ev -> IsValidRange (we_address ev) (we_size ev) = true.
Proof.
  intros (E1 & E2 & E3). unfold IsValidRange. rewrite sub64_small by u64_lia.
  apply andb_true_iff. split; [apply negb_true_iff|]; lia.
Qed.

Lemma overlap_covers m r ev a :
  record_ok m r -> event_ok ev -> in_range (rr_address r) (rr_size r) a -> event_covers ev a ->
  RangesOverlap (rr_address r) (rr_size r) (we_address ev) (we_size ev) = true.
Proof.
  intros [(R1 & R2 & R3) _ _] (E1 & E2 & E3) Hr He. unfold event_covers, in_range in *. unfold RangesOverlap.
  rewrite !add64_small by u64_lia. apply andb_true_iff. lia.
Qed.

(** What can happen to the record of a resource that keeps its identifier. *)
Record record_advances (acked : Prop) r r' : Prop := {
  ra_window : rr_address r' = rr_address r /\ rr_size r' = rr_size r /\
              rr_mapping_token r' = rr_mapping_token r;
  ra_generation : gen_le (rr_cpu_write_generation r) (rr_cpu_write_generation r');
  ra_precise : rr_cpu_generation_precise r' = true -> rr_cpu_generation_precise r = true;
  ra_clean : ~ acked -> rr_needs_cpu_upload r' = false ->
    rr_needs_cpu_upload r = false /\ rr_cpu_write_generation r' = rr_cpu_write_generation r /\
    rr_cpu_generation_precise r' = rr_cpu_generation_precise r
}.

Lemma record_advances_refl acked r : record_advances acked r r.
Proof. split; try done. apply gen_le_refl. Qed.

Lemma record_advances_trans (acked : Prop) r1 r2 r3 :
  record_advances acked r1 r2 -> record_advances acked r2 r3 -> record_advances acked r1 r3.
Proof.
  intros [(A1 & A2 & A3) A4 A5 A6] [(B1 & B2 & B3) B4 B5 B6]. split.
  - split_and!; congruence.
  - by eapply gen_le_trans.
  - auto.
  - intros Hn Hc. destruct (B6 Hn Hc) as (C1 & C2 & C3). destruct (A6 Hn C1) as (D1 & D2 & D3).
    split_and!; congruence.
Qed.

Lemma observe_write_spec acked ev r :
  record_advances acked r (observe_write ev r) /\
  (RangesOverlap (rr_address r) (rr_size r) (we_address ev) (we_size ev) = true ->
   gen_le (we_generation ev) (rr_cpu_write_generation (observe_write ev r)) /\
   (we_exhausted ev = true -> rr_cpu_generation_precise (observe_write ev r) = false)).
Proof.
  unfold observe_write. destruct (RangesOverlap _ _ _ _); cbn [negb].
  2:{ split; [apply record_advances_refl|done]. }
  destruct (gen_ltb (rr_cpu_write_generation r) (we_generation ev)) eqn:En; cbn [orb].
  - split; [|split; [apply gen_le_refl|simpl; by destruct (we_exhausted ev)]].
    split; simpl; try done; [by apply gen_lt_le|by destruct (we_exhausted ev)].
  - split; [|split; [done|simpl; by destruct (we_exhausted ev)]].
    split; simpl; try done; [apply gen_le_refl|by destruct (we_exhausted ev)|].
    intros _. by destruct (we_exhausted ev), (rr_cpu_generation_precise r).
Qed.

Lemma observe_write_ok m ev r :
  record_ok m r -> gen_le (we_generation ev) (write_generation_ m) -> record_ok m (observe_write ev r).
Proof.
  intros [R1 R2 R3] He. unfold observe_write. destruct (RangesOverlap _ _ _ _); cbn [negb]; [|done].
  split; simpl; [done|by destruct (gen_ltb _ _)|].
  destruct (gen_ltb _ _); cbn [orb]; [done|]. destruct (we_exhausted ev); cbn [orb]; [done|].
  by intros ->.
Qed.

Lemma record_ok_mono m m' r :
  gen_le (write_generation_ m) (write_generation_ m') -> record_ok m r -> record_ok m' r.
Proof. intros Hle [R1 R2 R3]. split; [done|by eapply gen_le_trans|done]. Qed.

(** The operations that change one record. *)
Lemma acknowledge_spec resource generation m c :
  let '(c', ok) := AcknowledgeCpuUpload resource generation m c in
  if ok then exists r, records_ c !! resource = Some r /\ RecordIsCurrent m r = true /\
    rr_cpu_generation_precise r = true /\ rr_cpu_write_generation r = generation /\
    rr_needs_cpu_upload r = true /\
    c' = with_record c resource (with_flags r false (rr_gpu_write_pending r))
  else c' = c.
Proof.
  unfold AcknowledgeCpuUpload. destruct (records_ c !! resource) as [r|]; [|done].
  destruct (RecordIsCurrent m r) eqn:E1; cbn [negb]; [|done].
  destruct (rr_needs_cpu_upload r) eqn:E2; cbn [negb orb]; [|done].
  destruct (rr_cpu_generation_precise r) eqn:E3; cbn [negb orb]; [|done].
  destruct (bool_decide (rr_cpu_write_generation r = generation)) eqn:E4; cbn [negb]; [|done].
  apply bool_decide_eq_true in E4. exists r. split_and!; done.
Qed.

Lemma set_gpu_write_spec resource pending m c :
  let '(c', ok) := set_gpu_write resource pending m c in
  if ok then exists r, records_ c !! resource = Some r /\
    c' = with_record c resource (with_flags r (rr_needs_cpu_upload r) pending)
  else c' = c.
Proof.
  unfold set_gpu_write. destruct (records_ c !! resource) as [r|]; [|done].
  destruct (RecordIsCurrent m r); cbn [negb]; [eauto|done].
Qed.

Lemma register_spec address size m c :
  is_u64 address -> is_u64 size ->
  let '(c', result) := RegisterResource address size m c in
  match result with
  | Some resource => 0 < size /\ address + size <= u64_max /\ resource = next_resource_id_ c /\
      resource <> 0 /\ records_ c !! resource = None /\ exists token,
      c' = mkCoherence (<[resource := mkRecord address size token (write_generation_ m)
                            (negb (write_generation_exhausted_ m)) true false]> (records_ c))
             (resource + 1)%u64
  | None => c' = c
  end.
Proof.
  intros Ha Hs. unfold RegisterResource. destruct (IsValidRange address size) eqn:Ev; cbn [negb]; [|done].
  destruct (CaptureMappingToken address size m) as [token|]; [|done]. destruct (snd token); [done|].
  destruct (next_resource_id_ c =? 0) eqn:E0; [done|].
  destruct (records_ c !! next_resource_id_ c) eqn:Er; [done|].
  unfold IsValidRange in Ev. rewrite sub64_small in Ev by (unfold is_u64 in *; lia).
  apply andb_true_iff in Ev as [Ev%negb_true_iff Ev2]. unfold is_u64 in *. split_and!; try done; [lia|lia|lia|eauto].
Qed.

Lemma step_ok acks s s' : cs_ok s -> cs_step acks s s' -> cs_ok s'.
Proof.
  intros [Hm Hn Hr Hp]. destruct 1 as [m' evs Hstep Hev|before ev after Hpend|address size Ha Hs
    |resource|resource generation Hack|resource pending].
  - destruct (step_spec _ _ Hm Hstep) as [Hm' _]. destruct (step_reported _ _ Hm Hstep) as (evs' & [L1 L2 L3] & _).
    assert (evs = evs') as -> by (rewrite L1 in Hev; by apply app_inv_head in Hev). split; simpl; try done.
    + intros resource r Hres. destruct (Hr resource r Hres) as [H1 H2]. split; [done|by eapply record_ok_mono].
    + intros ev [Hin|Hin]%elem_of_app.
      * destruct (Hp ev Hin) as [H1 H2]. split; [done|by eapply gen_le_trans].
      * destruct (L3 ev Hin) as (? & _ & ?). done.
  - assert (Hin : ev ∈ cs_pending s) by (rewrite Hpend; set_solver). destruct (Hp ev Hin) as [Hok Hge].
    unfold OnGuestMemoryWrite. rewrite (event_valid ev Hok). split; simpl; try done.
    + intros resource r. rewrite lookup_fmap. destruct (records_ _ !! resource) as [r0|] eqn:E; [|done].
      intros [= <-]. destruct (Hr resource r0 E) as [H1 H2]. split; [done|by apply observe_write_ok].
    + intros e He. apply Hp. rewrite Hpend. set_solver.
  - pose proof (register_spec address size (cs_memory s) (cs_coherence s) Ha Hs) as Hreg.
    destruct (RegisterResource address size _ _) as [c' [resource|]]; [|by subst]. simpl in *.
    destruct Hreg as (S1 & S2 & -> & S3 & S4 & token & ->). split; simpl; try done; [apply is_u64_add64|].
    intros resource r. set (next := next_resource_id_ (cs_coherence s)) in *.
    assert (Hiss : forall x, x = next \/ issued (cs_coherence s) x -> (next + 1)%u64 = 0 \/ x < (next + 1)%u64).
    { intros x Hx. destruct (decide (next = u64_max)) as [->|Hne]; [by left|right].
      rewrite add64_small by u64_lia. unfold issued in Hx. fold next in Hx. lia. }
    rewrite lookup_insert. case_decide as Heq.
    + subst. intros [= <-]. split; [by apply Hiss; left|]. split; simpl; [unfold is_u64 in *; lia|apply gen_le_refl|done].
    + intros Hres. destruct (Hr resource r Hres) as [H1 H2]. split; [by apply Hiss; right|done].
  - split; simpl; try done. intros x r. rewrite lookup_delete. case_decide; [done|apply Hr].
  - pose proof (acknowledge_spec resource generation (cs_memory s) (cs_coherence s)) as Hack'.
    destruct (AcknowledgeCpuUpload _ _ _ _) as [c' []]; simpl in *; [|by subst].
    destruct Hack' as (r & E & _ & Hprec & _ & _ & ->). split; simpl; try done.
    intros x r'. rewrite lookup_insert. case_decide as Heq; [|apply Hr]. subst. intros [= <-].
    destruct (Hr x r E) as [H1 [H2 H3 H4]]. split; [done|]. split; simpl; congruence.
  - pose proof (set_gpu_write_spec resource pending (cs_memory s) (cs_coherence s)) as Hset.
    destruct (set_gpu_write _ _ _ _) as [c' []]; simpl in *; [|by subst].
    destruct Hset as (r & E & ->). split; simpl; try done.
    intros x r'. rewrite lookup_insert. case_decide as Heq; [|apply Hr]. subst. intros [= <-].
    destruct (Hr x r E) as [H1 [H2 H3 H4]]. split; [done|]. by split.
Qed.

Lemma step_issued acks s s' resource :
  cs_ok s -> cs_step acks s s' -> issued (cs_coherence s) resource -> issued (cs_coherence s') resource.
Proof.
  intros [_ Hn _ _]. destruct 1 as [m' evs Hstep Hev|before ev after Hpend|address size Ha Hs
    |x|x generation Hack|x pending]; unfold issued; simpl; try done.
  - unfold OnGuestMemoryWrite. by destruct (IsValidRange _ _).
  - pose proof (register_spec address size (cs_memory s) (cs_coherence s) Ha Hs) as Hreg.
    destruct (RegisterResource address size _ _) as [c' [y|]]; [|by subst]. simpl in *.
    destruct Hreg as (_ & _ & -> & S3 & _ & token & ->). simpl. intros [?|Hlt]; [done|].
    destruct (decide (next_resource_id_ (cs_coherence s) = u64_max)) as [->|Hne]; [by left|right].
    rewrite add64_small by u64_lia. lia.
  - pose proof (acknowledge_spec x generation (cs_memory s) (cs_coherence s)) as Hack'.
    destruct (AcknowledgeCpuUpload _ _ _ _) as [c' []]; simpl in *; [|by subst].
    destruct Hack' as (r & _ & _ & _ & _ & _ & ->). done.
  - pose proof (set_gpu_write_spec x pending (cs_memory s) (cs_coherence s)) as Hset.
    destruct (set_gpu_write _ _ _ _) as [c' []]; simpl in *; [|by subst].
    by destruct Hset as (r & _ & ->).
Qed.

(** An identifier is never given to another resource. *)
Lemma step_record acks s s' resource r' :
  cs_ok s -> cs_step acks s s' -> issued (cs_coherence s) resource ->
  records_ (cs_coherence s') !! resource = Some r' ->
  exists r, records_ (cs_coherence s) !! resource = Some r /\ record_advances (acks resource) r r'.
Proof.
  intros [_ _ _ Hp]. destruct 1 as [m' evs Hstep Hev|before ev after Hpend|address size Ha Hs
    |x|x generation Hack|x pending]; intros Hiss; simpl.
  - intros Hr. exists r'. split; [done|apply record_advances_refl].
  - unfold OnGuestMemoryWrite. destruct (IsValidRange _ _); simpl.
    + rewrite lookup_fmap. destruct (records_ _ !! resource) as [r|]; [|done]. intros [= <-].
      exists r. split; [done|apply observe_write_spec].
    + intros Hr. exists r'. split; [done|apply record_advances_refl].
  - pose proof (register_spec address size (cs_memory s) (cs_coherence s) Ha Hs) as Hreg.
    destruct (RegisterResource address size _ _) as [c' [y|]]; simpl in *.
    2:{ subst. intros Hr. exists r'. split; [done|apply record_advances_refl]. }
    destruct Hreg as (_ & _ & -> & S3 & _ & token & ->). simpl. unfold issued in Hiss.
    rewrite lookup_insert_ne by lia. intros Hr. exists r'. split; [done|apply record_advances_refl].
  - rewrite lookup_delete. case_decide; [done|]. intros Hr. exists r'. split; [done|apply record_advances_refl].
  - pose proof (acknowledge_spec x generation (cs_memory s) (cs_coherence s)) as Hack'.
    destruct (AcknowledgeCpuUpload _ _ _ _) as [c' []]; simpl in *.
    2:{ subst. intros Hr. exists r'. split; [done|apply record_advances_refl]. }
    destruct Hack' as (r & E & _ & _ & _ & _ & ->). simpl. rewrite lookup_insert. case_decide as Heq.
    + subst. intros [= <-]. exists r. split; [done|]. split; simpl; try done. apply gen_le_refl.
    + intros Hr. exists r'. split; [done|apply record_advances_refl].
  - pose proof (set_gpu_write_spec x pending (cs_memory s) (cs_coherence s)) as Hset.
    destruct (set_gpu_write _ _ _ _) as [c' []]; simpl in *.
    2:{ subst. intros Hr. exists r'. split; [done|apply record_advances_refl]. }
    destruct Hset as (r & E & ->). simpl. rewrite lookup_insert. case_decide as Heq.
    + subst. intros [= <-]. exists r. split; [done|]. split; simpl; try done. apply gen_le_refl.
    + intros Hr. exists r'. split; [done|apply record_advances_refl].
Qed.

Lemma step_memory acks s s' :
  cs_ok s -> cs_step acks s s' -> gen_advances (cs_memory s) (cs_memory s') /\
    gen_le (write_generation_ (cs_memory s)) (write_generation_ (cs_memory s')).
Proof.
  intros [Hm _ _ _]. destruct 1 as [m' evs Hstep Hev| | | | |]; simpl;
    try (split; [by apply gen_advances_tables|apply gen_le_refl]).
  destruct (step_reported _ _ Hm Hstep) as (evs' & [L1 L2 L3] & _).
  split; [by apply (step_spec _ _ Hm Hstep)|done].
Qed.

(** ** Runs *)

Record run_facts (acks : GpuResourceId -> Prop) s s' : Prop := {
  rf_ok : cs_ok s';
  rf_memory : gen_advances (cs_memory s) (cs_memory s');
  rf_write : gen_le (write_generation_ (cs_memory s)) (write_generation_ (cs_memory s'));
  rf_issued : forall resource, issued (cs_coherence s) resource -> issued (cs_coherence s') resource;
  rf_record : forall resource r', issued (cs_coherence s) resource ->
    records_ (cs_coherence s') !! resource = Some r' ->
    exists r, records_ (cs_coherence s) !! resource = Some r /\ record_advances (acks resource) r r'
}.

Lemma run_facts_hold acks s s' : cs_ok s -> cs_run acks s s' -> run_facts acks s s'.
Proof.
  intros Hok. induction 1 as [|s1 s2 _ [F1 F2 F3 F4 F5] Hstep].
  - split; [done|by apply gen_advances_tables|apply gen_le_refl|done|].
    intros resource r' _ Hr. exists r'. split; [done|apply record_advances_refl].
  - destruct (step_memory _ _ _ F1 Hstep) as [M1 M2].
    split; [by eapply step_ok|by eapply gen_advances_trans|by eapply gen_le_trans| |].
    + intros resource Hi. eapply step_issued; [done|done|auto].
    + intros resource r' Hi Hr. destruct (step_record _ _ _ _ _ F1 Hstep (F4 _ Hi) Hr) as (r1 & Hr1 & A1).
      destruct (F5 _ _ Hi Hr1) as (r & Hr0 & A0). exists r. split; [done|by eapply record_advances_trans].
Qed.

Lemma run_trans acks s1 s2 s3 : cs_run acks s1 s2 -> cs_run acks s2 s3 -> cs_run acks s1 s3.
Proof. intros H1. induction 1; [done|by eapply cr_step]. Qed.

Lemma run_weaken (acks acks' : GpuResourceId -> Prop) s s' :
  (forall x, acks x -> acks' x) -> cs_run acks s s' -> cs_run acks' s s'.
Proof.
  intros Hw. induction 1 as [|s1 s2 _ IH Hstep]; [constructor|]. eapply cr_step; [exact IH|].
  destruct Hstep; econstructor; eauto.
Qed.

(** What a change of a byte leaves behind: an event newer than the start that
    covers the byte and is still to be delivered, or a record that has moved on. *)
Definition outstanding (s0 s : CoherentSystem) (a : Z) : Prop :=
  exists ev, ev ∈ cs_pending s /\ event_covers ev a /\ event_newer (write_generation_ (cs_memory s0)) ev.
Definition noticed (s0 s : CoherentSystem) resource (a : Z) : Prop :=
  outstanding s0 s a \/
  forall r, records_ (cs_coherence s) !! resource = Some r ->
    gen_ltb (write_generation_ (cs_memory s0)) (rr_cpu_write_generation r) = true \/
    rr_cpu_generation_precise r = false.

Lemma noticed_step acks s0 s s' resource r0 a :
  cs_ok s -> issued (cs_coherence s) resource -> cs_step acks s s' ->
  (forall r, records_ (cs_coherence s) !! resource = Some r ->
     rr_address r = rr_address r0 /\ rr_size r = rr_size r0) ->
  in_range (rr_address r0) (rr_size r0) a ->
  noticed s0 s resource a -> noticed s0 s' resource a.
Proof.
  intros Hok Hiss Hstep Hw Ha [(ev & Hev & Hc & Hn)|Hrec].
  - destruct Hstep as [m' evs _ _|before ev' after Hpend| | | |]; simpl;
      try (left; exists ev; split_and!; done).
    { left. exists ev. split_and!; [|done|done]. simpl. set_solver. }
    rewrite Hpend in Hev. assert (ev ∈ before ++ after \/ ev = ev') as [Hin|<-] by set_solver.
    { left. by exists ev. }
    right. intros r. unfold noticed. simpl. destruct (co_pending s Hok ev) as [He _];
      [rewrite Hpend; set_solver|]. unfold OnGuestMemoryWrite. rewrite (event_valid ev He). simpl.
    rewrite lookup_fmap. destruct (records_ _ !! resource) as [r1|] eqn:E; [|done]. intros [= <-].
    destruct (Hw r1 eq_refl) as [W1 W2]. destruct (co_issued s Hok resource r1 E) as [_ Hr1].
    destruct (observe_write_spec True ev r1) as [_ Hobs].
    destruct Hobs as [Hge Hex]; [by eapply (overlap_covers _ _ _ a Hr1 He); [rewrite W1, W2|]|].
    destruct Hn as [Hlt|Hx]; [left|right; by apply Hex]. by eapply gen_lt_le_trans.
  - right. intros r' Hr'. destruct (step_record _ _ _ _ _ Hok Hstep Hiss Hr') as (r & Hr & [A1 A2 A3 _]).
    destruct (Hrec r Hr) as [Hlt|Hp]; [left; by eapply gen_lt_le_trans|right].
    destruct (rr_cpu_generation_precise r') eqn:E; [|done]. rewrite A3 in Hp by done. done.
Qed.

(** Along a run, a byte that differs from the start was noticed. *)
Lemma run_noticed acks s0 s resource r0 a g :
  cs_ok s0 -> cs_run acks s0 s -> records_ (cs_coherence s0) !! resource = Some r0 ->
  in_range (rr_address r0) (rr_size r0) a -> gen_view (cs_memory s0) a = Some g ->
  gen_view (cs_memory s) a = Some g ->
  guest_byte (cs_memory s) a = guest_byte (cs_memory s0) a \/ noticed s0 s resource a.
Proof.
  intros Hok Hrun Hr0 Ha Hg0. induction Hrun as [|s1 s2 Hrun IH Hstep]; [by left|]. intros Hg2.
  destruct (run_facts_hold _ _ _ Hok Hrun) as [F1 F2 F3 F4 F5].
  destruct (co_issued s0 Hok _ _ Hr0) as [Hiss _].
  assert (Hg1 : gen_view (cs_memory s1) a = Some g).
  { destruct (step_memory _ _ _ F1 Hstep) as [[_ Hback] _]. destruct (Hback a g Hg2) as [|Hnew]; [done|].
    destruct (go_generations _ (co_memory s0 Hok) a g Hg0) as [Hle _]. destruct F2 as [Hnext _].
    pose proof (gen_le_trans _ _ _ Hle Hnext) as Hcontra. unfold gen_le in Hcontra. congruence. }
  destruct (IH Hg1) as [Heq|Hnot].
  2:{ right. eapply (noticed_step acks s0 s1 s2 resource r0 a); try done; [by apply F4|].
      intros r Hr. destruct (F5 _ _ Hiss Hr) as (r0' & Hr0' & [(A1 & A2 & _) _ _ _]).
      rewrite Hr0 in Hr0'. by injection Hr0' as <-. }
  destruct Hstep as [m' evs Hm' Hev| | | | |]; simpl in *; try (by left).
  destruct (step_reported _ _ (co_memory _ F1) Hm') as (evs' & [L1 L2 L3] & Hcov).
  assert (evs = evs') as -> by (rewrite L1 in Hev; by apply app_inv_head in Hev).
  destruct (decide (guest_byte m' a = guest_byte (cs_memory s1) a)) as [E|Hne]; [left; congruence|].
  right. left. destruct (Hcov a g Hg1 Hg2 Hne) as (ev & Hin & Hc). exists ev. simpl.
  destruct (L3 ev Hin) as (_ & Hnew & _). split_and!; [set_solver|done|by eapply event_newer_le].
Qed.

Lemma generation_identifies_bytes acks s0 s2 resource r0 r2 g ex0 ex2 :
  cs_ok s0 -> cs_run acks s0 s2 ->
  records_ (cs_coherence s0) !! resource = Some r0 -> records_ (cs_coherence s2) !! resource = Some r2 ->
  CaptureMappingToken (rr_address r0) (rr_size r0) (cs_memory s0) = Some (g, ex0) ->
  CaptureMappingToken (rr_address r0) (rr_size r0) (cs_memory s2) = Some (g, ex2) ->
  rr_cpu_generation_precise r2 = true -> rr_cpu_write_generation r2 = rr_cpu_write_generation r0 ->
  forall a, in_range (rr_address r0) (rr_size r0) a ->
  guest_byte (cs_memory s2) a = guest_byte (cs_memory s0) a \/ outstanding s0 s2 a.
Proof.
  intros Hok Hrun Hr0 Hr2 Ht0 Ht2 Hp Hg. destruct (co_issued s0 Hok _ _ Hr0) as [_ [(R1 & R2 & R3) R4 _]].
  destruct (run_facts_hold _ _ _ Hok Hrun) as [F1 F2 _ _ _].
  assert (Hviews : forall a, in_range (rr_address r0) (rr_size r0) a ->
    exists x, gen_view (cs_memory s0) a = Some x /\ gen_view (cs_memory s2) a = Some x).
  { intros a Ha. destruct (token_keeps_views (cs_memory s0) (cs_memory s2) (cs_memory s2) (rr_address r0)
      (rr_size r0) g ex0 ex2 (co_memory _ Hok) (co_memory _ F1) ltac:(unfold is_u64; lia) R2 F2
      (gen_advances_tables _ _ ltac:(done) eq_refl) Ht0 Ht2 a Ha) as [[x Hx] Heq]. exists x. by rewrite <- Heq. }
  intros a Ha. destruct (Hviews a Ha) as (x & Hx0 & Hx2).
  destruct (run_noticed acks s0 s2 resource r0 a x) as [|[Hout|Hrec]]; try done.
  - by left.
  - by right.
  - destruct (Hrec r2 Hr2) as [Hlt|]; [|congruence]. rewrite Hg in Hlt. unfold gen_le in R4. congruence.
Qed.

Lemma query_spec resource m c q :
  Coherence_Query resource m c = Some q ->
  exists r, records_ c !! resource = Some r /\ st_cpu_write_generation q = rr_cpu_write_generation r /\
    st_needs_cpu_upload q = rr_needs_cpu_upload r /\
    st_mapping_changed q = negb (RecordIsCurrent m r).
Proof.
  unfold Coherence_Query, RecordIsCurrent. destruct (records_ c !! resource) as [r|]; [|done].
  intros [= <-]. exists r. split_and!; try done. simpl.
  destruct (CaptureMappingToken _ _ _) as [[g ex]|]; [|done]. simpl. by destruct ex, (bool_decide _).
Qed.

Lemma current_token m r :
  RecordIsCurrent m r = true -> CaptureMappingToken (rr_address r) (rr_size r) m = Some (rr_mapping_token r).
Proof.
  unfold RecordIsCurrent. destruct (CaptureMappingToken _ _ _) as [token|]; [|done].
  intros [_ ->%bool_decide_eq_true]%andb_true_iff. done.
Qed.

(** C7: An acknowledged upload is current.  A backend queries a resource, copies
    the guest bytes of its window and acknowledges the generation of the query,
    while the guest keeps writing, mapping and unmapping through every operation
    of the memory and the write callbacks run late and in any order.  If the
    acknowledgement is accepted, every byte of the window is the one it was at
    the query, unless a callback for that very byte, of a write made after the
    query, has still to run.  From then on, until the resource is acknowledged
    again, a query that asks for no upload and reports no mapping change means
    the same: a byte that differs from the one uploaded is covered by a callback
    that has still to run.  No write, through whatever alias, and no remapping is
    missed once its callback has run. *)
Theorem acknowledged_upload_is_current s0 s1 resource q0 c1 :
  cs_ok s0 -> Coherence_Query resource (cs_memory s0) (cs_coherence s0) = Some q0 ->
  st_mapping_changed q0 = false -> cs_run any_ack s0 s1 ->
  AcknowledgeCpuUpload resource (st_cpu_write_generation q0) (cs_memory s1) (cs_coherence s1) = (c1, true) ->
  exists r, records_ (cs_coherence s0) !! resource = Some r /\
  let current s := forall a, in_range (rr_address r) (rr_size r) a ->
    guest_byte (cs_memory s) a = guest_byte (cs_memory s0) a \/ outstanding s0 s a in
  current s1 /\
  forall s2 q2, cs_run (fun x => x <> resource) (mkSystem (cs_memory s1) c1 (cs_pending s1)) s2 ->
    Coherence_Query resource (cs_memory s2) (cs_coherence s2) = Some q2 ->
    st_needs_cpu_upload q2 = false -> st_mapping_changed q2 = false -> current s2.
Proof.
  intros Hok Hq0 Hmap0 Hrun Hack.
  destruct (query_spec _ _ _ _ Hq0) as (r0 & Hr0 & Hg0 & _ & Hcur0). rewrite Hmap0 in Hcur0.
  symmetry in Hcur0. apply negb_false_iff in Hcur0. exists r0. split; [done|]. cbv zeta.
  destruct (run_facts_hold _ _ _ Hok Hrun) as [F1 _ _ F4 F5]. destruct (co_issued _ Hok _ _ Hr0) as [Hiss _].
  pose proof (acknowledge_spec resource (st_cpu_write_generation q0) (cs_memory s1) (cs_coherence s1)) as Hspec.
  rewrite Hack in Hspec. destruct Hspec as (r1 & Hr1 & Hcur1 & Hp1 & Hg1 & _ & Hc1).
  destruct (F5 _ _ Hiss Hr1) as (r & Hr & [(A1 & A2 & A3) _ _ _]). rewrite Hr0 in Hr. injection Hr as <-.
  assert (Hcurrent : forall m r', rr_address r' = rr_address r0 -> rr_size r' = rr_size r0 ->
    rr_mapping_token r' = rr_mapping_token r0 -> RecordIsCurrent m r' = true ->
    CaptureMappingToken (rr_address r0) (rr_size r0) m = Some (rr_mapping_token r0)).
  { intros m r' E1 E2 E3 Hcur. rewrite <- E1, <- E2, <- E3. by apply current_token. }
  destruct (rr_mapping_token r0) as [g ex] eqn:Etok. split.
  - apply (generation_identifies_bytes any_ack s0 s1 resource r0 r1 g ex ex); try done.
    + by apply (Hcurrent _ r0).
    + apply (Hcurrent _ r1); congruence.
    + congruence.
  - intros s2 q2 Hrun2 Hq2 Hclean Hmap2.
    destruct (query_spec _ _ _ _ Hq2) as (r2 & Hr2 & Hg2 & Hn2 & Hcur2). rewrite Hmap2 in Hcur2.
    symmetry in Hcur2. apply negb_false_iff in Hcur2.
    assert (Hstep : cs_run any_ack s0 (mkSystem (cs_memory s1) c1 (cs_pending s1))).
    { eapply cr_step; [exact Hrun|]. pose proof (cs_acknowledge any_ack s1 resource (st_cpu_write_generation q0) I) as Hs.
      by rewrite Hack in Hs. }
    destruct (run_facts_hold _ _ _ Hok Hstep) as [G1 _ _ G4 _].
    destruct (run_facts_hold _ _ _ G1 Hrun2) as [_ _ _ _ G5].
    destruct (G5 _ _ (G4 _ Hiss) Hr2) as (r1' & Hr1' & [(B1 & B2 & B3) _ _ B4]).
    rewrite Hc1 in Hr1'. simpl in Hr1'. rewrite lookup_insert_eq in Hr1'. injection Hr1' as <-. simpl in *.
    destruct B4 as (_ & Hge & Hpe); [intros Hne; by apply Hne|congruence|].
    apply (generation_identifies_bytes any_ack s0 s2 resource r0 r2 g ex ex); try done.
    + eapply run_trans; [exact Hstep|]. eapply run_weaken; [|exact Hrun2]. done.
    + by apply (Hcurrent _ r0).
    + apply (Hcurrent _ r2); congruence.
    + congruence.
    + congruence.
Qed.

Lemma initial_system_ok m : gm_ok m -> cs_ok (mkSystem m GpuResourceCoherence_init []).
Proof. intros Hm. split; simpl; [done|u64_lia|done|by intros ev ?%elem_of_nil]. Qed.

(** A range query answers no exactly when every record with an unresolved GPU
    write lies apart from the range. *)
Lemma pending_overlap_spec s address size :
  cs_ok s -> is_u64 address -> is_u64 size -> 0 < size -> address + size <= u64_max ->
  HasGpuWritePendingOverlap address size (cs_coherence s) = false <->
  forall resource r, records_ (cs_coherence s) !! resource = Some r -> rr_gpu_write_pending r = true ->
    forall a, in_range address size a -> ~ in_range (rr_address r) (rr_size r) a.
Proof.
  intros Hok Ha Hs H0 He. unfold HasGpuWritePendingOverlap, IsValidRange.
  rewrite sub64_small by (unfold is_u64 in *; lia).
  replace (negb (size =? 0) && (size <=? u64_max - address)) with true
    by (symmetry; apply andb_true_iff; split; [apply negb_true_iff|]; lia).
  assert (Hover : forall r, record_ok (cs_memory s) r ->
    RangesOverlap address size (rr_address r) (rr_size r) = true <->
    exists a, in_range address size a /\ in_range (rr_address r) (rr_size r) a).
  { intros r [(R1 & R2 & R3) _ _]. unfold RangesOverlap, is_u64 in *. rewrite !add64_small by u64_lia.
    rewrite andb_true_iff. unfold in_range. split.
    - intros [H1 H2]. exists (Z.max address (rr_address r)). lia.
    - intros (a & H1 & H2). lia. }
  cbn [negb]. rewrite <- not_true_iff_false, existsb_exists. split.
  - intros Hno resource r Hr Hp a H1 H2. apply Hno. exists (resource, r).
    split; [by apply list_elem_of_In, elem_of_map_to_list|]. simpl. rewrite Hp.
    apply Hover; [by apply (co_issued s Hok resource)|eauto].
  - intros Hall ([resource r] & Hin%list_elem_of_In%elem_of_map_to_list & Hb). simpl in Hb.
    apply andb_true_iff in Hb as [Hp Ho]. apply Hover in Ho as (a & H1 & H2); [|by apply (co_issued s Hok resource)].
    by apply (Hall resource r Hin Hp a).
Qed.
End system.

(** At most one live observer: a second one is refused. *)
Lemma one_observer alive self slot slot' c :
  GpuResourceCoherence_Create alive self slot = (slot', Some c) ->
  slot' = Some self /\ (lock_observer alive slot = None \/ lock_observer alive slot = Some self).
Proof.
  unfold GpuResourceCoherence_Create, SetWriteObserver.
  destruct (lock_observer alive (Some self)) as [x|] eqn:E; [|done].
  assert (x = self) as -> by (simpl in E; destruct (alive self); [by injection E as <-|done]).
  destruct (lock_observer alive slot) as [e|]; [|intros [= <- _]; auto].
  destruct (e =? self) eqn:Ee; cbn [negb]; [|done]. apply Z.eqb_eq in Ee as ->. intros [= <- _]. auto.
Qed.
