(* ===== verification/GuestBlocks.v ===== *)
(** Blocks of guest memory: what a client of [GuestMemory] relies on when it
    maps a free window readable and writable, clears it, fills it and gives it
    back.  The libc heap and the thread-local storage of the loader are built on
    these lemmas.  Also what a store leaves of a memory with the same mappings, as
    the command buffers of AMPR and of the GPU use it. *)
From S2P Require Import Prelude LittleEndian Ranges SharedBacking GuestMemory.
From S2P Require Import GuestMemoryMap GuestMemoryOps GuestMemoryData GuestMemoryWrite.
From S2P Require Import GuestMemoryCopy GuestMemoryInit GuestMemoryRuns.

Implicit Types (m : GuestMemory).

(** The protection of a block, [kRead | kWrite]. *)
Definition heap_protection : Z := Z.lor kRead kWrite.

(** ** Bytes under mapping operations *)

Section bytes.
Context `{HostMemory}.

Lemma Map_bytes address length protection m :
  gm_ok m -> is_u64 address -> is_u64 length ->
  forall x, guest_byte (Map address length protection m).1 x = guest_byte m x.
Proof.
  intros Hm Ha Hl x. pose proof (MapLocked_spec address length protection m Hm Ha Hl) as Hmap.
  unfold Map. destruct (MapLocked address length protection m) as [m' ok]. simpl.
  destruct Hmap as (_ & [S1 S2 S3 S4 S5 S6] & Hsh & _).
  unfold guest_byte, loc_of, byte_at. rewrite Hsh. by destruct (content _ x) as [[ref off]|]; rewrite ?S1, ?S5, ?S6.
Qed.

(** Whatever it returns, [Unmap] leaves the bytes alone or zeroes its window. *)
Lemma Unmap_store address length m :
  gm_ok m -> is_u64 address -> is_u64 length ->
  let m' := (Unmap address length m).1 in
  bytes_ m' = bytes_ m \/
  exists l', effective_length address length m = Some l' /\ zeroed m address l' m'.
Proof.
  intros Hm Ha Hl. unfold Unmap. destruct (length =? 0) eqn:Hnz; [by left|].
  destruct (effective_length address length m) as [l'|] eqn:El; [|by left].
  unfold is_u64 in Hl. destruct (effective_length_spec m Hm address length l' Hl ltac:(lia) El)
    as (L1 & L2 & L3).
  destruct (IsMappedLocked address l' m) eqn:Em; [|by left]. cbn [negb].
  destruct (mapped_window m address l' Hm Ha ltac:(lia) Em) as (M1 & M2 & M3).
  assert (Hdone : forall n, zeroed m address l'
    (store_bytes (with_host_calls m n) (OffsetOf address m) (replicate (Z.to_nat l') 0))).
  { intros n. apply (store_zeros (with_host_calls m n) address l'); try done; try lia.
    by apply host_calls_ok. }
  destruct (host_mapped m) eqn:Hh.
  - cbn [ProtectHostMapping fst snd]. destruct (host_protect (host_calls m)); cbn [negb]; [|by left].
    right. exists l'. split; [done|]. specialize (Hdone (S (host_calls m))).
    set (m2 := store_bytes _ _ _) in *. unfold ProtectHostMapping.
    destruct (host_protect (host_calls m2)); cbn [negb]; [exact Hdone|].
    unfold NotifyWrite. repeat split_match; exact Hdone.
  - right. exists l'. split; [done|]. rewrite <- (L2 eq_refl). specialize (Hdone (host_calls m)).
    by replace (with_host_calls m (host_calls m)) with m in * by (by destruct m).
Qed.

(** So no byte outside the window changes, failed calls included. *)
Lemma Unmap_bytes address length m :
  gm_ok m -> is_u64 address -> is_u64 length ->
  forall x, base_address_ m <= x ->
  (forall l', effective_length address length m = Some l' -> ~ in_range address l' x) ->
  guest_byte (Unmap address length m).1 x = guest_byte m x.
Proof.
  intros Hm Ha Hl x Hx Hout. pose proof (Unmap_spec address length m Hm Ha Hl) as Hu.
  pose proof (Unmap_store address length m Hm Ha Hl) as Hst.
  destruct (Unmap address length m) as [m' ok]. cbn [fst] in *.
  destruct Hu as (_ & [S1 _ _ _] & Hbk & _ & Htab).
  assert (Hc : content (shared_mappings_ m') x = content (shared_mappings_ m) x).
  { destruct ok.
    - destruct Htab as (l' & El & _ & _ & _ & _ & _ & ->). rewrite decide_False; [done|by apply Hout].
    - by rewrite (st_shared _ _ Htab). }
  unfold guest_byte, loc_of, byte_at. rewrite Hc.
  destruct (content (shared_mappings_ m) x) as [[ref off]|]; [by rewrite Hbk|].
  rewrite S1. destruct Hst as [->|(l' & El & Hz)]; [done|]. rewrite Hz, decide_False; [done|].
  specialize (Hout l' El). unfold in_range in *. lia.
Qed.

(** A write into private memory changes its window and nothing else. *)
Lemma stored_private d m m' address length :
  gm_ok m -> stored d m m' address length ->
  (forall x, in_range address length x -> content (shared_mappings_ m) x = None) ->
  (forall i, 0 <= i < length -> guest_byte m' (address + i) = d i) /\
  (forall x, base_address_ m <= x < gm_end m -> ~ in_range address length x ->
     guest_byte m' x = guest_byte m x).
Proof.
  intros Hm [Hs1 Hs2] Hpriv.
  assert (Hloc : forall i, 0 <= i < length -> loc_of m (address + i) = Private (address + i)).
  { intros i Hi. unfold loc_of. rewrite Hpriv; [done|]. unfold in_range. lia. }
  split.
  - intros i Hi. apply Hs2; [done|done|]. intros j Hj. rewrite !Hloc by lia. intros [= Heq]. lia.
  - intros x Hx Hout. apply Hs1; [done|]. intros i Hi. rewrite Hloc by done. unfold loc_of.
    destruct (content _ x) as [[ref off]|]; [done|]. intros [= Heq]. apply Hout. unfold in_range. lia.
Qed.

(** A write into a window none of whose addresses are aliases of each other
    stores every byte, and no address that denotes another location changes. *)
Definition distinct_locs m (address length : Z) : Prop :=
  forall i j, 0 <= i < length -> 0 <= j < length ->
    loc_of m (address + i) = loc_of m (address + j) -> i = j.

(** The address denotes no location of the window. *)
Definition outside m (address length x : Z) : Prop :=
  forall i, 0 <= i < length -> loc_of m (address + i) <> loc_of m x.

Lemma stored_distinct d m m' address length :
  stored d m m' address length -> distinct_locs m address length ->
  (forall i, 0 <= i < length -> guest_byte m' (address + i) = d i) /\
  (forall x, base_address_ m <= x < gm_end m -> outside m address length x ->
     guest_byte m' x = guest_byte m x).
Proof.
  intros [Hs1 Hs2] Hd. split; [|auto].
  intros i Hi. apply Hs2; [done|done|]. intros j Hj Heq. apply Hd in Heq; lia.
Qed.
End bytes.

(** Without shared mappings a window has no aliases. *)
Lemma private_distinct m address length :
  shared_mappings_ m = [] -> distinct_locs m address length.
Proof. intros Hs i j _ _. unfold loc_of. rewrite Hs. simpl. intros [= Heq]. lia. Qed.

Lemma distinct_sub m a n a' n' :
  distinct_locs m a n -> a <= a' -> a' + n' <= a + n -> distinct_locs m a' n'.
Proof.
  intros Hd H1 H2 i j Hi Hj Heq. enough (a' - a + i = a' - a + j) by lia. apply Hd; [lia|lia|].
  by replace (a + (a' - a + i)) with (a' + i) by lia; replace (a + (a' - a + j)) with (a' + j) by lia.
Qed.

(** ** Windows *)

Lemma accessible_sub m a n a' n' required :
  accessible m a n required -> a <= a' -> a' + n' <= a + n -> accessible m a' n' required.
Proof. intros Hacc H1 H2 x Hx. apply Hacc. lia. Qed.

Lemma accessible_tables m m' a n required :
  same_tables m m' -> accessible m a n required -> accessible m' a n required.
Proof.
  intros Ht Hacc x Hx. destruct (Hacc x Hx) as (p & Hp & Hr). exists p.
  by rewrite (proj1 (same_tables_views _ _ Ht)).
Qed.

(** ** Fresh blocks *)

(** What is mapped stays as it is, protections and bytes. *)
Record keeps m m' : Prop := {
  kp_ok : gm_ok m';
  kp_shape : same_shape m m';
  kp_prot : forall x p, prot_view m x = Some p -> prot_view m' x = Some p;
  kp_bytes : forall x p, prot_view m x = Some p -> guest_byte m' x = guest_byte m x
}.

(** A mapped address lies in the window of the memory. *)
Lemma prot_view_window m x p : gm_ok m -> prot_view m x = Some p -> base_address_ m <= x < gm_end m.
Proof.
  intros Hm Hp. destruct (accessible_contained m x 1 kNone Hm ltac:(lia)) as [H1 H2]; [|lia].
  intros y Hy. replace y with x by lia. exists p. by rewrite Z.land_0_r.
Qed.

Lemma unmapped_private m x : gm_ok m -> prot_view m x = None -> content (shared_mappings_ m) x = None.
Proof.
  intros Hm Hp. unfold content. apply fmap_None. apply eq_None_not_Some. intros Hs.
  apply (go_shared_mapped m Hm) in Hs. rewrite Hp in Hs. by destruct Hs.
Qed.

Lemma keeps_trans m m1 m2 : keeps m m1 -> keeps m1 m2 -> keeps m m2.
Proof.
  intros [A1 [S1 S2 S3 S4] A3 A4] [B1 [T1 T2 T3 T4] B3 B4]. split; [done|split; congruence| |].
  - intros x p Hp. by apply B3, A3.
  - intros x p Hp. rewrite (B4 x p) by by apply A3. by eapply A4.
Qed.

(** A window that was free is now a block of its own. *)
Record placed (a n l : Z) m m' : Prop := {
  pl_length : effective_length a n m = Some l;
  pl_bounds : 0 < n <= l /\ base_address_ m <= a /\ a + l <= gm_end m;
  pl_free : forall x, in_range a l x -> prot_view m x = None;
  pl_prot : forall x, prot_view m' x =
    if decide (in_range a l x) then Some heap_protection else prot_view m x;
  pl_shared : shared_mappings_ m' = shared_mappings_ m;
  pl_keeps : keeps m m'
}.

Section allocate.
Context `{HostMemory}.

(** Mapping a window: it was free, and nothing else changes. *)
Lemma map_block_spec a n prot m :
  gm_ok m -> is_u64 a -> is_u64 n -> 0 < n ->
  let '(m', ok) := Map a n prot m in
  keeps m m' /\ shared_mappings_ m' = shared_mappings_ m /\
  if ok then exists l, effective_length a n m = Some l /\ n <= l /\ base_address_ m <= a /\ a + l <= gm_end m /\
    (forall x, in_range a l x -> prot_view m x = None) /\
    (forall x, prot_view m' x = if decide (in_range a l x) then Some prot else prot_view m x)
  else forall x, prot_view m' x = prot_view m x.
Proof.
  intros Hm Ha Hn H0. pose proof (MapLocked_spec a n prot m Hm Ha Hn) as Hmap.
  pose proof (Map_bytes a n prot m Hm Ha Hn) as Hby. unfold Map in *.
  destruct (MapLocked a n prot m) as [m' ok]. cbn [fst] in Hby.
  destruct Hmap as (Hok & [S1 S2 S3 S4 S5 S6] & Hsh & Hres). destruct ok.
  - destruct Hres as (l & g & _ & _ & El & Hl & Hfree & _ & _ & Hp & _).
    destruct (effective_length_spec m Hm a n l Hn H0 El) as (L1 & _ & _).
    apply free_window_iff in Hfree as (F1 & F2 & F3); [|done|done].
    split_and!; [|done|exists l; split_and!; [done|lia|done|done|done|done]]. split; [done|by split| |by intros].
    intros x p Hx. rewrite Hp, decide_False; [done|]. intros Hin. by rewrite F3 in Hx.
  - destruct Hres as [Ht _]. apply same_tables_views in Ht as [Hv _].
    split_and!; [|done|done]. split; [done|by split|intros x p; by rewrite Hv|by intros].
Qed.

Lemma heap_map_spec a n m :
  gm_ok m -> is_u64 a -> is_u64 n -> 0 < n ->
  let '(m', ok) := Map a n heap_protection m in
  if ok then exists l, placed a n l m m' else keeps m m'.
Proof.
  intros Hm Ha Hn H0. pose proof (map_block_spec a n heap_protection m Hm Ha Hn H0) as Hmap.
  destruct (Map a n heap_protection m) as [m' ok]. destruct Hmap as (Hk & Hsh & Hres). destruct ok; [|done].
  destruct Hres as (l & El & Hl & F1 & F2 & F3 & Hp). exists l. split; try done; lia.
Qed.

Lemma placed_accessible a n l m m' required :
  placed a n l m m' -> required = kRead \/ required = kWrite -> accessible m' a n required.
Proof.
  intros [_ Hb _ Hp _ _] Hreq x Hx. exists heap_protection. rewrite Hp.
  rewrite decide_True by (unfold in_range; lia). by destruct Hreq as [-> | ->].
Qed.

Lemma placed_private a n l m m' x :
  gm_ok m -> placed a n l m m' -> in_range a l x -> content (shared_mappings_ m') x = None.
Proof.
  intros Hm Hpl Hx. rewrite (pl_shared _ _ _ _ _ Hpl).
  by apply unmapped_private, (pl_free _ _ _ _ _ Hpl).
Qed.

(** Changes inside a fresh block leave it a fresh block. *)
Lemma placed_changed a n l m m1 m2 :
  gm_ok m -> placed a n l m m1 -> gm_ok m2 -> same_shape m1 m2 -> same_tables m1 m2 ->
  (forall x, base_address_ m1 <= x < gm_end m1 -> ~ in_range a n x -> guest_byte m2 x = guest_byte m1 x) ->
  placed a n l m m2.
Proof.
  intros Hm [P1 P2 P3 P4 P5 [K1 K2 K3 K4]] G1 G2 G3 Hout.
  pose proof (same_tables_views _ _ G3) as [Hv _]. split; try done.
  - intros x. by rewrite Hv, P4.
  - by rewrite (st_shared _ _ G3).
  - split; [done|destruct K2, G2; split; congruence|intros x p Hx; rewrite Hv; by apply K3|].
    intros x p Hx. rewrite <- (K4 x p Hx). apply Hout.
    + apply (prot_view_window m1 x p K1). by apply K3.
    + intros Hin. rewrite P3 in Hx; [done|]. unfold in_range in *. lia.
Qed.

(** A store into a fresh block succeeds and changes exactly its window. *)
Lemma block_store d a n l m m1 address length result :
  gm_ok m -> placed a n l m m1 -> 0 < length -> a <= address -> address + length <= a + n ->
  writes d m1 address length result ->
  result.2 = true /\ placed a n l m result.1 /\
  (forall i, 0 <= i < length -> guest_byte result.1 (address + i) = d i) /\
  (forall x, base_address_ m1 <= x < gm_end m1 -> ~ in_range address length x ->
     guest_byte result.1 x = guest_byte m1 x).
Proof.
  intros Hm Hpl Hn H1 H2 [Hiff Hres]. rewrite Z.max_r in Hiff by lia.
  assert (Hacc : accessible m1 address length kWrite).
  { eapply accessible_sub; [by apply (placed_accessible a n l m m1 kWrite); [|right]|lia|lia]. }
  rewrite (proj2 Hiff Hacc) in *. destruct Hres as (G1 & G2 & G3 & _ & Hst & _).
  pose proof Hpl as [_ Hb _ _ _ [K1 _ _ _]].
  destruct (stored_private _ _ _ _ _ K1 Hst) as [B1 B2].
  { intros x Hx. apply (placed_private a n l m m1); [done|done|]. unfold in_range in *. lia. }
  split_and!; [done| |done|done]. eapply placed_changed; [done|exact Hpl|done|done|done|].
  intros x Hx Hout. apply B2; [done|]. unfold in_range in *. lia.
Qed.

(** The optional clearing cannot fail and stays inside the block. *)
Lemma heap_fill_spec a n l m m1 :
  gm_ok m -> is_u64 a -> placed a n l m m1 ->
  let '(m2, ok) := Fill a n 0 m1 in
  ok = true /\ placed a n l m m2 /\ forall x, in_range a n x -> guest_byte m2 x = 0.
Proof.
  intros Hm Ha Hpl. pose proof Hpl as [_ P2 _ _ _ [K1 _ _ _]].
  destruct (block_store (fun _ => 0) a n l m m1 a n (Fill a n 0 m1)) as (H1 & H2 & H3 & _); try done; try lia.
  { apply Fill_spec; [done|done|lia]. }
  destruct (Fill a n 0 m1) as [m2 ok]. split_and!; [done|done|].
  intros x Hx. replace x with (a + (x - a)) by lia. apply H3. unfold in_range in Hx. lia.
Qed.

(** Giving back what was free before disturbs nothing that was there. *)
Lemma undo_keeps a n l m m2 :
  gm_ok m -> is_u64 a -> is_u64 n -> keeps m m2 -> effective_length a n m = Some l ->
  (forall x, in_range a l x -> prot_view m x = None) -> keeps m (Unmap a n m2).1.
Proof.
  intros Hm Ha Hn [K1 K2 K3 K4] P1 P3.
  pose proof (Unmap_spec a n m2 K1 Ha Hn) as Hu. pose proof (Unmap_bytes a n m2 K1 Ha Hn) as Hby.
  assert (El2 : effective_length a n m2 = Some l).
  { rewrite <- P1. unfold effective_length. by rewrite (sh_host _ _ K2), (sh_granularity _ _ K2). }
  destruct (Unmap a n m2) as [m3 ok]. cbn [fst] in *. destruct Hu as (U1 & U2 & _ & _ & Hres).
  assert (Hout : forall x p, prot_view m x = Some p -> ~ in_range a l x).
  { intros x p Hx Hin. by rewrite P3 in Hx. }
  split; [done|destruct K2, U2; split; congruence| |].
  - intros x p Hx. destruct ok.
    + destruct Hres as (l' & El & _ & _ & _ & -> & _). rewrite El2 in El. injection El as <-.
      rewrite decide_False by by eapply Hout. by apply K3.
    + apply same_tables_views in Hres as [-> _]. by apply K3.
  - intros x p Hx. rewrite Hby; [by eapply K4| |].
    + rewrite (sh_base _ _ K2). apply (prot_view_window m x p Hm Hx).
    + intros l' El. rewrite El2 in El. injection El as <-. by eapply Hout.
Qed.

Lemma heap_undo_spec a n l m m2 :
  gm_ok m -> is_u64 a -> is_u64 n -> placed a n l m m2 -> keeps m (Unmap a n m2).1.
Proof. intros Hm Ha Hn [P1 P2 P3 P4 P5 Hk]. by eapply undo_keeps. Qed.

Lemma keeps_refl m : gm_ok m -> keeps m m.
Proof. intros Hm. by split. Qed.
End allocate.

(** ** Bytes *)

(** Every byte of the guest's window is a byte. *)
Definition holds_bytes m : Prop := forall a, base_address_ m <= a < gm_end m -> is_byte (guest_byte m a).

Lemma guest_bytes_are_bytes m a n :
  holds_bytes m -> (0 < n -> base_address_ m <= a /\ a + n <= gm_end m) -> Forall is_byte (guest_bytes m a n).
Proof.
  intros Hb Hw. unfold guest_bytes. apply Forall_fmap, Forall_forall. intros i Hi%elem_of_seq. apply Hb. lia.
Qed.

Lemma Read_bytes m a n data :
  gm_ok m -> holds_bytes m -> is_u64 a -> 0 <= n -> Read a n m = Some data ->
  Forall is_byte data /\ Z.of_nat (List.length data) = n.
Proof.
  intros Hm Hb Ha Hn. rewrite Read_spec by done. destruct (CanAccessLocked _ _ _ _) eqn:E; [|done].
  apply CanAccessLocked_iff in E; [|done|done|done]. intros [= <-]. split.
  - apply guest_bytes_are_bytes; [done|]. intros H0. rewrite Z.max_r in E by lia.
    by apply (accessible_contained m a n kRead).
  - rewrite guest_bytes_length. lia.
Qed.

(** After a store every byte is an old byte or one of the bytes stored. *)
Lemma stored_cases d m m' address length a :
  stored d m m' address length -> base_address_ m <= a < gm_end m ->
  guest_byte m' a = guest_byte m a \/ exists i, 0 <= i < length /\ guest_byte m' a = d i.
Proof.
  intros [Hkeep Hset] Ha.
  assert (Hlast : forall n : nat, Z.of_nat n <= length ->
    (forall j, length - Z.of_nat n <= j < length -> loc_of m (address + j) <> loc_of m a) \/
    exists i, 0 <= i < length /\ loc_of m (address + i) = loc_of m a /\
      forall j, i < j < length -> loc_of m (address + j) <> loc_of m a).
  { induction n as [|n IH]; intros Hn; [left; intros; lia|]. destruct IH as [IH|IH]; [lia| |by right].
    destruct (decide (loc_of m (address + (length - Z.of_nat (S n))) = loc_of m a)) as [E|E].
    - right. exists (length - Z.of_nat (S n)). split; [lia|]. split; [done|]. intros j Hj. apply IH. lia.
    - left. intros j Hj. destruct (decide (j = length - Z.of_nat (S n))) as [->|]; [done|]. apply IH. lia. }
  destruct (decide (0 <= length)); [|left; apply Hkeep; [done|intros; lia]].
  destruct (Hlast (Z.to_nat length) ltac:(lia)) as [Hnone|(i & Hi & E & Hl)].
  - left. apply Hkeep; [done|]. intros i Hi. apply Hnone. lia.
  - right. exists i. split; [done|]. apply Hset; [done|done|]. intros j Hj. rewrite E. by apply Hl.
Qed.

Lemma Write_holds_bytes address (bytes : list Z) m :
  gm_ok m -> is_u64 address -> Forall is_byte bytes -> holds_bytes m ->
  gm_ok (Write address bytes m).1 /\ holds_bytes (Write address bytes m).1.
Proof.
  intros Hm Ha Hs Hb. destruct (Write_spec address bytes m Hm Ha) as [_ Hres].
  destruct (Write address bytes m) as [m' []]; simpl in *; [|by subst].
  destruct Hres as (Hm' & [S1 S2 S3 S4] & _ & _ & Hst & _). split; [done|]. intros a Hin.
  assert (Hin' : base_address_ m <= a < gm_end m) by (unfold gm_end in *; by rewrite <- S1, <- S2).
  destruct (stored_cases _ _ _ _ _ a Hst Hin') as [->|(i & Hi & ->)]; [by apply Hb|].
  unfold source_byte. destruct (bytes !! Z.to_nat i) eqn:E; simpl; [|unfold is_byte; lia].
  by apply (Forall_lookup_1 _ _ _ _ Hs E).
Qed.

(** ** Memories with the same mappings *)

Section same_mappings.
Context (m0 : GuestMemory).

Record like m : Prop := {
  lk_ok : gm_ok m;
  lk_shape : same_shape m0 m;
  lk_tables : same_tables m0 m
}.

Lemma like_end m : like m -> base_address_ m = base_address_ m0 /\ gm_end m = gm_end m0.
Proof. intros [_ [S1 S2 _ _] _]. unfold gm_end. by rewrite S1, S2. Qed.

Lemma like_loc m x : like m -> loc_of m x = loc_of m0 x.
Proof. intros [_ _ [_ _ T]]. unfold loc_of. by rewrite T. Qed.

Lemma like_distinct m a n : like m -> distinct_locs m0 a n -> distinct_locs m a n.
Proof. intros Hl Hd i j Hi Hj Heq. rewrite !(like_loc m) in Heq by done. by apply Hd. Qed.

Lemma like_write m a (source : list Z) :
  like m -> is_u64 a -> accessible m0 a (Z.max 1 (Z.of_nat (length source))) kWrite ->
  exists m', Write a source m = (m', true) /\ like m' /\
    stored (source_byte source) m m' a (Z.of_nat (length source)).
Proof.
  intros [Hm Hsh Htab] Ha Hacc. destruct (Write_spec a source m Hm Ha) as [Hiff Hres].
  assert (Hok : (Write a source m).2 = true) by (by apply Hiff, (accessible_tables m0)).
  destruct (Write a source m) as [m' ok]. simpl in *. subst ok.
  destruct Hres as (G1 & [Q1 Q2 Q3 Q4] & [T1 T2 T3] & _ & Hst & _). exists m'. split_and!; [done| |done].
  destruct Hsh as [S1 S2 S3 S4], Htab as [U1 U2 U3]. split; [done|split; congruence|split; congruence].
Qed.

Lemma like_read m a n : like m -> is_u64 a -> 0 < n -> accessible m0 a n kRead -> Read a n m = Some (guest_bytes m a n).
Proof.
  intros [Hm _ Htab] Ha Hn Hacc. rewrite Read_spec by (done || lia).
  assert (E : CanAccessLocked a n kRead m = true).
  { apply CanAccessLocked_iff; [done|done|lia|]. rewrite Z.max_r by lia. by apply (accessible_tables m0). }
  by rewrite E.
Qed.
End same_mappings.
