(* ===== verification/Ampr.v ===== *)
(** AMPR command buffers (kernel/ampr_command_buffer.cpp): a header in guest
    memory names a buffer; records are appended to the buffer and executed by
    [Complete].  The service keeps a cursor per command buffer and loads it from
    the header when it does not know the buffer. *)
From S2P Require Import Prelude Ranges LittleEndian SharedBacking GuestMemory GuestMemoryMap.
From S2P Require Import GuestMemoryOps GuestMemoryData GuestMemoryWrite GuestMemoryCopy.
From S2P Require Import GuestMemoryInit GuestMemoryRuns GuestBlocks.

Implicit Types (m : GuestMemory).

(** ** Data *)

Definition kAmprCommandBufferHeaderSize : Z := 0x28.
Definition kAmprReadFileRecordSize : Z := 0x30.
Definition kAmprEventQueueRecordSize : Z := 0x30.
Definition kAmprWriteAddressRecordSize : Z := 0x20.
Definition kMaximumAmprCommandBuffers : Z := 4096.

Inductive AmprCommandBufferStatus :=
| ampr_kOk | ampr_kInvalidArgument | ampr_kMemoryFault | ampr_kNoResources | ampr_kBufferTooSmall
| ampr_kUnsupportedRecord.

#[export] Instance ampr_status_eq_dec : EqDecision AmprCommandBufferStatus.
Proof. solve_decision. Defined.

Record AmprState := mkAmprState {
  am_buffer : Z;
  am_size : Z;
  am_write_offset : Z;
  am_command_count : Z
}.

Record AmprCommandBufferSnapshot := mkAmprSnapshot {
  sn_status : AmprCommandBufferStatus;
  sn_buffer : Z;
  sn_size : Z;
  sn_write_offset : Z;
  sn_command_count : Z
}.

(** [states_] *)
Abbreviation AmprStates := (gmap Z AmprState).
Implicit Types (t : AmprStates) (command_buffer : Z).

Definition states_size t : Z := Z.of_nat (size t).

Definition kSelfOffset : Z := 0x00.
Definition kDataOffset : Z := 0x08.
Definition kSizeOffset : Z := 0x10.
Definition kAuxiliary0Offset : Z := 0x18.
Definition kAuxiliary1Offset : Z := 0x20.
Definition kReadFileRecordType : Z := 1.
Definition kEventQueueRecordType : Z := 2.
Definition kWriteAddressRecordType : Z := 3.

(** ** Byte helpers *)

Definition Ampr_Write64 (bytes : list Z) (offset value : Z) : list Z :=
  page_store bytes offset (map (fun i => Z.land (Z.shiftr value (Z.of_nat i * 8)) 0xff) (seq 0 8)).

Definition Ampr_Read32 (bytes : list Z) (offset : Z) : Z :=
  le_value (take 4 (drop (Z.to_nat offset) bytes)).
Definition Ampr_Read64 (bytes : list Z) (offset : Z) : Z :=
  le_value (take 8 (drop (Z.to_nat offset) bytes)).

(** [Add]; [None] is the overflow. *)
Definition Ampr_Add (left right : Z) : option Z :=
  if right >? (u64_max - left)%u64 then None else Some (left + right)%u64.

Definition zero_bytes (n : Z) : list Z := replicate (Z.to_nat n) 0.

Definition VisiblePointers command_buffer (buffer size : Z) : list Z :=
  Ampr_Write64 (Ampr_Write64 (Ampr_Write64 (zero_bytes 24) kSelfOffset command_buffer)
    kDataOffset buffer) kSizeOffset size.

(** ** Operations *)

(** [SetBuffer] and [Construct] end alike: they make room for the state, write
    the header and reset the cursor. *)
Definition install_state command_buffer (buffer size : Z) (header : list Z) m t
    : GuestMemory * AmprStates * AmprCommandBufferStatus :=
  let inserted := negb (bool_decide (is_Some (t !! command_buffer))) in
  if inserted && (states_size t >=? kMaximumAmprCommandBuffers) then (m, t, ampr_kNoResources)
  else
    let '(m', ok) := Write command_buffer header m in
    if negb ok then (m', t, ampr_kMemoryFault)
    else (m', <[command_buffer := mkAmprState buffer size 0 0]> t, ampr_kOk).

Definition Ampr_Construct command_buffer (buffer size auxiliary_0 auxiliary_1 : Z) (preserve_buffer : bool)
    m t : GuestMemory * AmprStates * AmprCommandBufferStatus :=
  if command_buffer =? 0 then (m, t, ampr_kInvalidArgument)
  else
    let finish header buffer size :=
      let header := Ampr_Write64 header kSelfOffset command_buffer in
      let header := Ampr_Write64 header kDataOffset buffer in
      let header := Ampr_Write64 header kSizeOffset size in
      let header := Ampr_Write64 header kAuxiliary0Offset auxiliary_0 in
      let header := Ampr_Write64 header kAuxiliary1Offset auxiliary_1 in
      install_state command_buffer buffer size header m t in
    if preserve_buffer then
      match Read command_buffer kAmprCommandBufferHeaderSize m with
      | None => (m, t, ampr_kMemoryFault)
      | Some header => finish header (Ampr_Read64 header kDataOffset) (Ampr_Read64 header kSizeOffset)
      end
    else finish (zero_bytes kAmprCommandBufferHeaderSize) buffer size.

Definition Ampr_Destroy command_buffer m t : GuestMemory * AmprStates * AmprCommandBufferStatus :=
  if command_buffer =? 0 then (m, t, ampr_kOk)
  else
    let '(m', ok) := Write command_buffer (VisiblePointers command_buffer 0 0) m in
    if negb ok then (m', t, ampr_kMemoryFault) else (m', delete command_buffer t, ampr_kOk).

Definition Ampr_DestroyApr command_buffer m t : GuestMemory * AmprStates * AmprCommandBufferStatus :=
  if command_buffer =? 0 then (m, t, ampr_kOk)
  else match Ampr_Add command_buffer kAuxiliary0Offset with
  | None => (m, t, ampr_kMemoryFault)
  | Some address =>
      let '(m', ok) := Write address (zero_bytes 16) m in
      (m', t, if ok then ampr_kOk else ampr_kMemoryFault)
  end.

Definition Ampr_SetBuffer command_buffer (buffer size : Z) m t
    : GuestMemory * AmprStates * AmprCommandBufferStatus :=
  if command_buffer =? 0 then (m, t, ampr_kInvalidArgument)
  else install_state command_buffer buffer size (VisiblePointers command_buffer buffer size) m t.

(** The states with the entry present, and the entry. *)
Definition LoadStateLocked command_buffer m t : AmprCommandBufferStatus + AmprStates * AmprState :=
  match t !! command_buffer with
  | Some state => inr (t, state)
  | None =>
      if states_size t >=? kMaximumAmprCommandBuffers then inl ampr_kNoResources
      else match Ampr_Add command_buffer kDataOffset with
      | None => inl ampr_kMemoryFault
      | Some address =>
          match Read address 16 m with
          | None => inl ampr_kMemoryFault
          | Some pointers =>
              let state := mkAmprState (Ampr_Read64 pointers 0) (Ampr_Read64 pointers 8) 0 0 in
              inr (<[command_buffer := state]> t, state)
          end
      end
  end.

Definition Ampr_Reset command_buffer m t : GuestMemory * AmprStates * AmprCommandBufferStatus :=
  if command_buffer =? 0 then (m, t, ampr_kInvalidArgument)
  else match LoadStateLocked command_buffer m t with
  | inl loaded => (m, t, loaded)
  | inr (t1, state) =>
      let '(m', ok) := Write command_buffer (VisiblePointers command_buffer (am_buffer state) (am_size state)) m in
      if negb ok then (m', t1, ampr_kMemoryFault)
      else (m', <[command_buffer := mkAmprState (am_buffer state) (am_size state) 0 0]> t1, ampr_kOk)
  end.

(** The last component is the value. *)
Definition Ampr_Clear command_buffer m t : GuestMemory * AmprStates * (AmprCommandBufferStatus * Z) :=
  if command_buffer =? 0 then (m, t, (ampr_kInvalidArgument, 0))
  else match LoadStateLocked command_buffer m t with
  | inl loaded => (m, t, (loaded, 0))
  | inr (t1, state) =>
      let '(m', ok) := Write command_buffer (VisiblePointers command_buffer 0 0) m in
      if negb ok then (m', t1, (ampr_kMemoryFault, 0))
      else (m', delete command_buffer t1, (ampr_kOk, am_buffer state))
  end.

Definition Ampr_Snapshot command_buffer m t : AmprStates * AmprCommandBufferSnapshot :=
  if command_buffer =? 0 then (t, mkAmprSnapshot ampr_kInvalidArgument 0 0 0 0)
  else match LoadStateLocked command_buffer m t with
  | inl loaded => (t, mkAmprSnapshot loaded 0 0 0 0)
  | inr (t1, state) =>
      (t1, mkAmprSnapshot ampr_kOk (am_buffer state) (am_size state) (am_write_offset state)
             (am_command_count state))
  end.

Definition Ampr_Append command_buffer (record : list Z) m t
    : GuestMemory * AmprStates * AmprCommandBufferStatus :=
  if (command_buffer =? 0) || (match record with [] => true | _ => false end)
  then (m, t, ampr_kInvalidArgument)
  else match LoadStateLocked command_buffer m t with
  | inl loaded => (m, t, loaded)
  | inr (t1, state) =>
      let record_size := Z.of_nat (length record) in
      if (am_buffer state =? 0) || (am_write_offset state >? am_size state)
         || (record_size >? (am_size state - am_write_offset state)%u64)
      then (m, t1, ampr_kBufferTooSmall)
      else match Ampr_Add (am_buffer state) (am_write_offset state) with
      | None => (m, t1, ampr_kMemoryFault)
      | Some write_address =>
          let '(m', ok) := Write write_address record m in
          if negb ok then (m', t1, ampr_kMemoryFault)
          else (m', <[command_buffer := mkAmprState (am_buffer state) (am_size state)
                        (am_write_offset state + record_size)%u64
                        (am_command_count state + 1)%u64]> t1, ampr_kOk)
      end
  end.

(** One record of [Complete]: the memory and the size of the record, or the
    error. *)
Definition complete_record (buffer write_offset offset : Z) m
    : GuestMemory * (AmprCommandBufferStatus + Z) :=
  match Ampr_Add buffer offset with
  | None => (m, inl ampr_kMemoryFault)
  | Some record_address =>
      match Read record_address 4 m with
      | None => (m, inl ampr_kMemoryFault)
      | Some type_bytes =>
          let type := Ampr_Read32 type_bytes 0 in
          let checked m' record_size :=
            if record_size >? (write_offset - offset)%u64 then (m', inl ampr_kMemoryFault)
            else (m', inr record_size) in
          if type =? kReadFileRecordType then checked m kAmprReadFileRecordSize
          else if type =? kEventQueueRecordType then (m, inl ampr_kUnsupportedRecord)
          else if type =? kWriteAddressRecordType then
            if kAmprWriteAddressRecordSize >? (write_offset - offset)%u64 then (m, inl ampr_kMemoryFault)
            else match Read record_address kAmprWriteAddressRecordSize m with
            | None => (m, inl ampr_kMemoryFault)
            | Some record =>
                let destination := Ampr_Read64 record 0x08 in
                let value := Ampr_Read64 record 0x10 in
                if destination =? 0 then (m, inl ampr_kMemoryFault)
                else
                  let '(m', ok) := Write destination (Ampr_Write64 (zero_bytes 8) 0 value) m in
                  if negb ok then (m', inl ampr_kMemoryFault) else checked m' kAmprWriteAddressRecordSize
            end
          else (m, inl ampr_kUnsupportedRecord)
      end
  end.

(** The loop of [Complete]; [None] means that the fuel ran out. *)
Fixpoint complete_loop (fuel : nat) (buffer write_offset offset : Z) m
    : option (GuestMemory * AmprCommandBufferStatus) :=
  if negb (offset <? write_offset) then Some (m, ampr_kOk)
  else match fuel with
  | O => None
  | S f =>
      match complete_record buffer write_offset offset m with
      | (m', inl status) => Some (m', status)
      | (m', inr record_size) => complete_loop f buffer write_offset (offset + record_size)%u64 m'
      end
  end.

Definition Ampr_Complete command_buffer m t : option (GuestMemory * AmprStates * AmprCommandBufferStatus) :=
  if command_buffer =? 0 then Some (m, t, ampr_kInvalidArgument)
  else match LoadStateLocked command_buffer m t with
  | inl loaded => Some (m, t, loaded)
  | inr (t1, state) =>
      match complete_loop (Z.to_nat (am_write_offset state)) (am_buffer state) (am_write_offset state) 0 m with
      | None => None
      | Some (m', status) => Some (m', t1, status)
      end
  end.

Definition Ampr_size t : Z := states_size t.

(** ** Completion ends *)

Lemma complete_record_size buffer write_offset offset m m' n :
  complete_record buffer write_offset offset m = (m', inr n) -> 0 <= offset < write_offset ->
  write_offset <= u64_max -> 0x20 <= n /\ offset + n <= write_offset.
Proof.
  unfold complete_record. intros E Ho Hw. repeat split_match_in E; try done;
    injection E as <- <-; rewrite sub64_small in * by u64_lia;
    unfold kAmprReadFileRecordSize, kAmprWriteAddressRecordSize in *; lia.
Qed.

Lemma complete_loop_total fuel buffer write_offset offset m :
  0 <= offset -> write_offset <= u64_max -> write_offset - offset <= Z.of_nat fuel ->
  is_Some (complete_loop fuel buffer write_offset offset m).
Proof.
  revert offset m. induction fuel as [|f IH]; intros offset m Ho Hw Hf; cbn [complete_loop];
    destruct (offset <? write_offset) eqn:E; cbn [negb]; try (by eexists); [lia|].
  destruct (complete_record buffer write_offset offset m) as [m' [status|n]] eqn:Er; [by eexists|].
  destruct (complete_record_size _ _ _ _ _ _ Er) as [H1 H2]; [lia|lia|].
  rewrite add64_small by lia. apply IH; lia.
Qed.

(** ** The invariant of the service *)

Record ampr_state_ok (s : AmprState) : Prop := {
  as_buffer : is_u64 (am_buffer s);
  as_size : is_u64 (am_size s);
  as_offset : 0 <= am_write_offset s <= am_size s;
  as_count : 0 <= am_command_count s <= am_write_offset s
}.

Definition ampr_ok t : Prop :=
  states_size t <= kMaximumAmprCommandBuffers /\ forall cb s, t !! cb = Some s -> ampr_state_ok s.

Lemma read64_u64 l off : Forall is_byte l -> is_u64 (Ampr_Read64 l off).
Proof.
  intros Hl. unfold Ampr_Read64. set (k := take 8 _).
  assert (Hk : Forall is_byte k) by (by apply Forall_take, Forall_drop).
  pose proof (le_value_bound k Hk) as Hb. assert (Hlen : (length k <= 8)%nat) by (unfold k; rewrite length_take; lia).
  assert (256 ^ Z.of_nat (length k) <= 256 ^ 8) by (apply Z.pow_le_mono_r; lia).
  change (256 ^ 8) with 18446744073709551616 in *. u64_lia.
Qed.

Lemma Ampr_Add_Some a b r : is_u64 a -> is_u64 b -> Ampr_Add a b = Some r -> r = a + b /\ is_u64 r.
Proof.
  intros Ha Hb. unfold Ampr_Add, is_u64 in *. rewrite sub64_small by lia.
  destruct (b >? u64_max - a) eqn:E; [done|]. intros [= <-]. rewrite add64_small by lia. lia.
Qed.

(** Adding or replacing a state. *)
Lemma ampr_ok_insert t cb s :
  ampr_ok t -> ampr_state_ok s ->
  (is_Some (t !! cb) \/ states_size t < kMaximumAmprCommandBuffers) -> ampr_ok (<[cb := s]> t).
Proof.
  intros [Hs Hall] Hok Hroom. unfold ampr_ok, states_size in *. split.
  - destruct (t !! cb) as [s0|] eqn:E.
    + rewrite map_size_insert_Some by (by eexists). done.
    + rewrite map_size_insert_None by done. destruct Hroom as [[? ?]|]; [done|lia].
  - intros cb' s'. rewrite lookup_insert. case_decide; [by intros [= <-]|apply Hall].
Qed.

Lemma ampr_ok_delete t cb : ampr_ok t -> ampr_ok (delete cb t).
Proof.
  intros [Hs Hall]. unfold ampr_ok, states_size in *. split.
  - rewrite map_size_delete. destruct (t !! cb); simpl; lia.
  - intros cb' s'. rewrite lookup_delete. case_decide; [done|apply Hall].
Qed.

Lemma fresh_state_ok buffer n : is_u64 buffer -> is_u64 n -> ampr_state_ok (mkAmprState buffer n 0 0).
Proof. intros Hb Hn. split; simpl; [done|done|unfold is_u64 in *; lia|lia]. Qed.

Lemma LoadStateLocked_ok cb m t t1 s :
  gm_ok m -> holds_bytes m -> is_u64 cb -> ampr_ok t -> LoadStateLocked cb m t = inr (t1, s) ->
  ampr_ok t1 /\ ampr_state_ok s /\ t1 !! cb = Some s.
Proof.
  intros Hm Hb Hcb Ht. unfold LoadStateLocked. destruct (t !! cb) as [s0|] eqn:E.
  { intros [= <- <-]. split_and!; [done|by apply (proj2 Ht cb)|done]. }
  destruct (_ >=? _) eqn:Eroom; [done|]. destruct (Ampr_Add cb kDataOffset) as [a|] eqn:Ea; [|done].
  apply Ampr_Add_Some in Ea as [_ Ha]; [|done|by unfold is_u64, kDataOffset; u64_lia].
  destruct (Read a 16 m) as [data|] eqn:Er; [|done]. apply Read_bytes in Er as [Er _]; [|done..].
  intros [= <- <-]. assert (Hs : ampr_state_ok (mkAmprState (Ampr_Read64 data 0) (Ampr_Read64 data 8) 0 0))
    by (apply fresh_state_ok; by apply read64_u64).
  split_and!; [|done|apply lookup_insert_eq]. apply ampr_ok_insert; [done|done|right; lia].
Qed.

Lemma install_state_ok cb buffer n header m t :
  ampr_ok t -> is_u64 buffer -> is_u64 n -> ampr_ok (install_state cb buffer n header m t).1.2.
Proof.
  intros Ht Hb Hn. unfold install_state.
  destruct (bool_decide (is_Some (t !! cb))) eqn:E; cbn [negb andb].
  - destruct (Write cb header m) as [m' []]; cbn [negb]; [|done]. apply bool_decide_eq_true in E.
    apply ampr_ok_insert; [done|by apply fresh_state_ok|by left].
  - destruct (_ >=? _) eqn:Er; [done|]. destruct (Write cb header m) as [m' []]; cbn [negb]; [|done].
    apply ampr_ok_insert; [done|by apply fresh_state_ok|right; lia].
Qed.

(** The operations of the service, by what they do to the table. *)
Inductive ampr_step m t : AmprStates -> Prop :=
| am_construct cb buffer n a0 a1 preserve : is_u64 cb -> is_u64 buffer -> is_u64 n ->
    ampr_step m t (Ampr_Construct cb buffer n a0 a1 preserve m t).1.2
| am_destroy cb : ampr_step m t (Ampr_Destroy cb m t).1.2
| am_destroy_apr cb : ampr_step m t (Ampr_DestroyApr cb m t).1.2
| am_set_buffer cb buffer n : is_u64 buffer -> is_u64 n ->
    ampr_step m t (Ampr_SetBuffer cb buffer n m t).1.2
| am_reset cb : is_u64 cb -> ampr_step m t (Ampr_Reset cb m t).1.2
| am_clear cb : is_u64 cb -> ampr_step m t (Ampr_Clear cb m t).1.2
| am_snapshot cb : is_u64 cb -> ampr_step m t (Ampr_Snapshot cb m t).1
| am_append cb record : is_u64 cb -> ampr_step m t (Ampr_Append cb record m t).1.2
| am_complete cb m' t' status : is_u64 cb -> Ampr_Complete cb m t = Some (m', t', status) ->
    ampr_step m t t'.

Lemma ampr_step_ok m t t' : gm_ok m -> holds_bytes m -> ampr_ok t -> ampr_step m t t' -> ampr_ok t'.
Proof.
  intros Hm Hb Ht. destruct 1 as [cb buffer n a0 a1 preserve Hcb Hbuf Hn|cb|cb|cb buffer n Hbuf Hn
    |cb Hcb|cb Hcb|cb Hcb|cb record Hcb|cb m' t' status Hcb Hc].
  - unfold Ampr_Construct. destruct (cb =? 0); [done|]. destruct preserve; [|by apply install_state_ok].
    destruct (Read cb _ m) as [header|] eqn:Er; [|done]. apply Read_bytes in Er as [Er _]; [|done..].
    apply install_state_ok; [done|by apply read64_u64|by apply read64_u64].
  - unfold Ampr_Destroy. destruct (cb =? 0); [done|]. destruct (Write _ _ m) as [m' []]; cbn [negb]; [|done].
    by apply ampr_ok_delete.
  - unfold Ampr_DestroyApr. destruct (cb =? 0); [done|]. destruct (Ampr_Add _ _); [|done].
    by destruct (Write _ _ m).
  - unfold Ampr_SetBuffer. destruct (cb =? 0); [done|]. by apply install_state_ok.
  - unfold Ampr_Reset. destruct (cb =? 0); [done|].
    destruct (LoadStateLocked cb m t) as [|[t1 s]] eqn:El; [done|].
    destruct (LoadStateLocked_ok _ _ _ _ _ Hm Hb Hcb Ht El) as (H1 & [S1 S2 _ _] & H3).
    destruct (Write _ _ m) as [m' []]; cbn [negb]; [|done].
    apply ampr_ok_insert; [done|by apply fresh_state_ok|left; by eexists].
  - unfold Ampr_Clear. destruct (cb =? 0); [done|].
    destruct (LoadStateLocked cb m t) as [|[t1 s]] eqn:El; [done|].
    destruct (LoadStateLocked_ok _ _ _ _ _ Hm Hb Hcb Ht El) as (H1 & _ & _).
    destruct (Write _ _ m) as [m' []]; cbn [negb]; [|done]. by apply ampr_ok_delete.
  - unfold Ampr_Snapshot. destruct (cb =? 0); [done|].
    destruct (LoadStateLocked cb m t) as [|[t1 s]] eqn:El; [done|].
    by destruct (LoadStateLocked_ok _ _ _ _ _ Hm Hb Hcb Ht El) as (H1 & _ & _).
  - unfold Ampr_Append. destruct (cb =? 0); [done|]. destruct record as [|b record]; [done|]. cbn [orb].
    destruct (LoadStateLocked cb m t) as [|[t1 s]] eqn:El; [done|].
    destruct (LoadStateLocked_ok _ _ _ _ _ Hm Hb Hcb Ht El) as (H1 & [S1 S2 S3 S4] & H3).
    set (k := Z.of_nat (length (b :: record))). assert (0 < k) by (unfold k; cbn [length]; lia).
    destruct (_ || _ || _) eqn:Efit; [done|]. destruct (Ampr_Add _ _); [|done].
    destruct (Write _ _ m) as [m' []]; cbn [negb]; [|done].
    apply ampr_ok_insert; [done| |left; by eexists]. unfold is_u64 in *.
    apply orb_false_iff in Efit as [_ Efit]. rewrite sub64_small in Efit by lia.
    split; cbn; [done|done| |]; rewrite !add64_small by lia; lia.
  - unfold Ampr_Complete in Hc. destruct (cb =? 0); [by injection Hc as <- <- <-|].
    destruct (LoadStateLocked cb m t) as [|[t1 s]] eqn:El; [by injection Hc as <- <- <-|].
    destruct (LoadStateLocked_ok _ _ _ _ _ Hm Hb Hcb Ht El) as (H1 & _ & _).
    destruct (complete_loop _ _ _ _ _) as [[m1 st]|]; [|done]. by injection Hc as <- <- <-.
Qed.

Lemma complete_total cb m t :
  gm_ok m -> holds_bytes m -> is_u64 cb -> ampr_ok t -> is_Some (Ampr_Complete cb m t).
Proof.
  intros Hm Hb Hcb Ht. unfold Ampr_Complete. destruct (cb =? 0); [by eexists|].
  destruct (LoadStateLocked cb m t) as [|[t1 s]] eqn:El; [by eexists|].
  destruct (LoadStateLocked_ok _ _ _ _ _ Hm Hb Hcb Ht El) as (_ & [S1 S2 S3 S4] & _). unfold is_u64 in *.
  destruct (complete_loop_total (Z.to_nat (am_write_offset s)) (am_buffer s) (am_write_offset s) 0 m)
    as [[m' st] ->]; [lia|lia|lia|by eexists].
Qed.

(** ** Appending and completing *)

Inductive ampr_command := ReadFile | QueueEvent | WriteAddress (destination value : Z).

(** The image of a command in the buffer; the fields that [Complete] does not
    look at are arbitrary. *)
Definition encodes (command : ampr_command) (record : list Z) : Prop :=
  Forall is_byte record /\
  match command with
  | ReadFile => Z.of_nat (length record) = kAmprReadFileRecordSize /\ Ampr_Read32 record 0 = kReadFileRecordType
  | QueueEvent =>
      Z.of_nat (length record) = kAmprEventQueueRecordSize /\ Ampr_Read32 record 0 = kEventQueueRecordType
  | WriteAddress destination value =>
      Z.of_nat (length record) = kAmprWriteAddressRecordSize /\ Ampr_Read32 record 0 = kWriteAddressRecordType /\
      Ampr_Read64 record 0x08 = destination /\ Ampr_Read64 record 0x10 = value
  end.

(** What the guest asked for: one store per write command, in order, up to the
    first command that cannot be executed. *)
Definition execute (command : ampr_command) m : GuestMemory * AmprCommandBufferStatus :=
  match command with
  | ReadFile => (m, ampr_kOk)
  | QueueEvent => (m, ampr_kUnsupportedRecord)
  | WriteAddress destination value =>
      if destination =? 0 then (m, ampr_kMemoryFault)
      else let '(m', ok) := Write destination (le_bytes 8 value) m in
           (m', if ok then ampr_kOk else ampr_kMemoryFault)
  end.
Fixpoint execute_all (commands : list ampr_command) m : GuestMemory * AmprCommandBufferStatus :=
  match commands with
  | [] => (m, ampr_kOk)
  | command :: rest =>
      match execute command m with
      | (m', ampr_kOk) => execute_all rest m'
      | stopped => stopped
      end
  end.

Fixpoint append_all command_buffer (records : list (list Z)) m t
    : GuestMemory * AmprStates * AmprCommandBufferStatus :=
  match records with
  | [] => (m, t, ampr_kOk)
  | record :: rest =>
      match Ampr_Append command_buffer record m t with
      | (m', t', ampr_kOk) => append_all command_buffer rest m' t'
      | failed => failed
      end
  end.

Section commands.
Context (command_buffer buffer capacity : Z) (m0 : GuestMemory).
Context (Hm0 : gm_ok m0) (Hcb : command_buffer <> 0) (Hbuffer : is_u64 buffer /\ buffer <> 0).
Context (Hcapacity : 0 <= capacity /\ buffer + capacity <= u64_max).

(** The buffer can be read and written and does not alias itself. *)
Context (Hread : accessible m0 buffer capacity kRead) (Hwrite : accessible m0 buffer capacity kWrite).
Context (Hdistinct : distinct_locs m0 buffer capacity).

Lemma buffer_window : 0 < capacity -> base_address_ m0 <= buffer /\ buffer + capacity <= gm_end m0.
Proof. intros Hc. apply (accessible_contained m0 buffer capacity kRead Hm0); [lia|done]. Qed.

Lemma bytes_at_split m off n1 n2 :
  0 <= n1 -> 0 <= n2 -> guest_bytes m (buffer + off) (n1 + n2)
  = guest_bytes m (buffer + off) n1 ++ guest_bytes m (buffer + (off + n1)) n2.
Proof. intros H1 H2. rewrite guest_bytes_app by done. by rewrite Z.add_assoc. Qed.

(** A store into the buffer at [off] keeps what is below and adds the bytes. *)
Lemma buffer_store m m' off (record : list Z) :
  like m0 m -> like m0 m' -> 0 <= off -> 0 < Z.of_nat (length record) -> off + Z.of_nat (length record) <= capacity ->
  stored (source_byte record) m m' (buffer + off) (Z.of_nat (length record)) ->
  guest_bytes m' buffer off = guest_bytes m buffer off /\
  guest_bytes m' (buffer + off) (Z.of_nat (length record)) = record.
Proof.
  intros Hm Hm' Ho Hl Hfit Hst. destruct (buffer_window ltac:(lia)) as [B1 B2].
  destruct (like_end m0 m Hm) as [E1 E2].
  destruct (stored_distinct (source_byte record) m m' (buffer + off) (Z.of_nat (length record)) Hst) as [P1 P2].
  { apply (like_distinct m0); [done|]. eapply distinct_sub; [exact Hdistinct|lia|lia]. }
  split.
  - unfold guest_bytes. apply map_ext_in. intros i Hi%list_elem_of_In%elem_of_seq. apply P2.
    + rewrite E1, E2. lia.
    + intros j Hj. rewrite !(like_loc m0 m) by done. rewrite <- Z.add_assoc. intros Heq%Hdistinct; lia.
  - apply list_eq. intros i. destruct (decide (i < length record)%nat) as [Hi|Hi].
    + rewrite guest_bytes_lookup by lia. rewrite P1 by lia. unfold source_byte. rewrite Nat2Z.id.
      destruct (record !! i) eqn:E; [done|]. apply lookup_ge_None_1 in E. lia.
    + rewrite !lookup_ge_None_2; [done|lia|rewrite guest_bytes_length; lia].
Qed.

Definition cursor (off count : Z) : AmprState := mkAmprState buffer capacity off count.

Lemma append_spec record m t off count :
  like m0 m -> t !! command_buffer = Some (cursor off count) -> 0 <= count <= off -> record <> [] ->
  off + Z.of_nat (length record) <= capacity ->
  exists m', Ampr_Append command_buffer record m t
      = (m', <[command_buffer := cursor (off + Z.of_nat (length record)) (count + 1)]> t, ampr_kOk)
    /\ like m0 m' /\ guest_bytes m' buffer (off + Z.of_nat (length record)) = guest_bytes m buffer off ++ record.
Proof.
  intros Hm Ht Hc Hne Hfit. destruct (buffer_window ltac:(destruct record; cbn [length] in *; [done|lia])) as [B1 B2].
  assert (Hl : 0 < Z.of_nat (length record)) by (destruct record; [done|cbn [length]; lia]).
  unfold is_u64 in *.
  destruct (like_write m0 m (buffer + off) record Hm ltac:(unfold is_u64; lia)) as (m' & Ew & Hm' & Hst).
  { rewrite Z.max_r by lia. eapply accessible_sub; [exact Hwrite|lia|lia]. }
  exists m'. split_and!; [|done|].
  - unfold Ampr_Append. rewrite (proj2 (Z.eqb_neq command_buffer 0)) by done.
    replace (match record with [] => true | _ => false end) with false by (by destruct record). cbn [orb].
    unfold LoadStateLocked. rewrite Ht. cbn [cursor am_buffer am_size am_write_offset am_command_count].
    rewrite (proj2 (Z.eqb_neq buffer 0)) by apply Hbuffer. rewrite sub64_small by lia.
    cbn [orb]. replace ((off >? capacity) || (Z.of_nat (length record) >? capacity - off)) with false by lia.
    unfold Ampr_Add. rewrite sub64_small by lia.
    replace (off >? u64_max - buffer) with false by lia. rewrite !add64_small by lia. rewrite Ew. done.
  - destruct (buffer_store m m' off record Hm Hm' ltac:(lia) Hl Hfit Hst) as [<- <-].
    rewrite <- (Z.add_0_r buffer) at 1. rewrite bytes_at_split, Z.add_0_r, Z.add_0_l by lia.
    rewrite guest_bytes_length. by rewrite Z2Nat.id by lia.
Qed.

Lemma append_all_spec records m t off count :
  like m0 m -> t !! command_buffer = Some (cursor off count) -> 0 <= count <= off ->
  Forall (fun record => record <> []) records -> off + Z.of_nat (length (concat records)) <= capacity ->
  exists m' t', append_all command_buffer records m t = (m', t', ampr_kOk) /\ like m0 m' /\
    t' !! command_buffer
      = Some (cursor (off + Z.of_nat (length (concat records))) (count + Z.of_nat (length records))) /\
    guest_bytes m' buffer (off + Z.of_nat (length (concat records))) = guest_bytes m buffer off ++ concat records.
Proof.
  revert m t off count. induction records as [|record rest IH]; intros m t off count Hm Ht Hc Hne Hfit.
  { exists m, t. cbn. rewrite app_nil_r, !Z.add_0_r. done. }
  apply Forall_cons in Hne as [Hrec Hne]. cbn [concat] in *. rewrite length_app, Nat2Z.inj_add in *.
  destruct (append_spec record m t off count Hm Ht Hc Hrec ltac:(lia)) as (m1 & E1 & Hm1 & Hb1).
  set (t1 := <[command_buffer := _]> t) in E1.
  destruct (IH m1 t1 (off + Z.of_nat (length record)) (count + 1) Hm1) as (m2 & t2 & E2 & Hm2 & Ht2 & Hb2);
    [apply lookup_insert_eq| |done|lia|].
  { assert (0 < Z.of_nat (length record)) by (destruct record; [done|cbn [length]; lia]). lia. }
  exists m2, t2. cbn [append_all]. rewrite E1. split_and!; [done|done| |].
  - rewrite Ht2. f_equal. cbn [length]. f_equal; lia.
  - rewrite Z.add_assoc, Hb2, Hb1. by rewrite app_assoc.
Qed.

(** The store of a write command, if it is one that can be made, leaves the
    buffer alone. *)
Definition apart_from_buffer (command : ampr_command) : Prop :=
  match command with
  | ReadFile | QueueEvent => True
  | WriteAddress destination _ =>
      accessible m0 destination 8 kWrite ->
      forall i, 0 <= i < capacity -> outside m0 destination 8 (buffer + i)
  end.

Lemma write64_bytes value : Ampr_Write64 (zero_bytes 8) 0 value = le_bytes 8 value.
Proof.
  unfold Ampr_Write64, page_store. rewrite <- le_bytes_map, le_bytes_length. cbn. done.
Qed.

(** A command keeps the mappings and the buffer, executed or not. *)
Lemma execute_keeps command record m :
  like m0 m -> encodes command record -> apart_from_buffer command ->
  like m0 (execute command m).1 /\ forall off n, 0 <= off -> 0 <= n -> off + n <= capacity ->
    guest_bytes (execute command m).1 (buffer + off) n = guest_bytes m (buffer + off) n.
Proof.
  intros Hm [Hb Henc] Hapart. destruct command as [| |destination value]; [done|done|].
  destruct Henc as (_ & _ & Hd & _). assert (Hu : is_u64 destination) by (rewrite <- Hd; by apply read64_u64).
  unfold execute. destruct (destination =? 0); [done|]. pose proof (le_bytes_length 8 value) as Hl.
  destruct (Write_spec destination (le_bytes 8 value) m (lk_ok _ _ Hm) Hu) as [Hiff Hres].
  destruct (Write destination (le_bytes 8 value) m) as [m1 ok] eqn:Ew. cbn [fst snd] in *.
  destruct ok; [|by subst]. rewrite Hl in Hiff. change (Z.max 1 (Z.of_nat 8)) with 8 in Hiff.
  assert (Hacc : accessible m0 destination 8 kWrite).
  { apply (accessible_tables m); [|by apply Hiff]. destruct (lk_tables _ _ Hm) as [T1 T2 T3]. by split. }
  destruct (like_write m0 m destination (le_bytes 8 value) Hm Hu) as (m' & E & Hm' & [Hst _]);
    [by rewrite Hl|]. rewrite Ew in E. injection E as <-. split; [done|]. intros off n Ho Hn Hfit.
  destruct (like_end m0 m Hm) as [E1 E2].
  unfold guest_bytes. apply map_ext_in. intros i Hi%list_elem_of_In%elem_of_seq. apply Hst.
  - destruct (buffer_window ltac:(lia)) as [B1 B2]. rewrite E1, E2. lia.
  - intros j Hj. rewrite Hl in Hj. rewrite !(like_loc m0 m) by done. rewrite <- Z.add_assoc.
    apply (Hapart Hacc); lia.
Qed.

Lemma bytes_prefix m off n k :
  0 <= k <= n -> guest_bytes m (buffer + off) k = take (Z.to_nat k) (guest_bytes m (buffer + off) n).
Proof.
  intros Hk. replace n with (k + (n - k)) at 1 by lia. rewrite bytes_at_split by lia.
  rewrite take_app_length'; [done|]. by rewrite guest_bytes_length.
Qed.

(** One record of [Complete] is one command. *)
Definition record_outcome (result : GuestMemory * AmprCommandBufferStatus) (n : Z)
    : GuestMemory * (AmprCommandBufferStatus + Z) :=
  (result.1, match result.2 with ampr_kOk => inr n | status => inl status end).

Lemma complete_record_spec command record m write_offset off :
  like m0 m -> encodes command record ->
  0 <= off -> off + Z.of_nat (length record) <= write_offset -> write_offset <= capacity ->
  guest_bytes m (buffer + off) (Z.of_nat (length record)) = record ->
  complete_record buffer write_offset off m
    = record_outcome (execute command m) (Z.of_nat (length record)).
Proof.
  intros Hm [Hbytes Henc] Ho Hfit Hcap Hrec. unfold is_u64 in *.
  assert (Hlen : 4 <= Z.of_nat (length record)).
  { destruct command; destruct Henc as [Hl _]; rewrite Hl; unfold kAmprReadFileRecordSize,
      kAmprEventQueueRecordSize, kAmprWriteAddressRecordSize; lia. }
  assert (Hread' : forall n, 0 < n <= Z.of_nat (length record) ->
    Read (buffer + off) n m = Some (take (Z.to_nat n) record)).
  { intros n Hn. rewrite (like_read m0); [|done|unfold is_u64; lia|lia|eapply accessible_sub; [exact Hread|lia|lia]].
    f_equal. rewrite (bytes_prefix m off (Z.of_nat (length record)) n) by lia. by rewrite Hrec. }
  unfold complete_record, Ampr_Add. rewrite sub64_small by lia.
  replace (off >? u64_max - buffer) with false by lia. rewrite add64_small by lia.
  rewrite Hread' by lia. change (Z.to_nat 4) with 4%nat.
  assert (Htype : Ampr_Read32 (take 4 record) 0 = Ampr_Read32 record 0).
  { unfold Ampr_Read32. change (Z.to_nat 0) with 0%nat. by rewrite !drop_0, take_take. }
  rewrite Htype, sub64_small by lia. destruct command as [| |destination value].
  - destruct Henc as [Hl ->]. rewrite <- Hl. cbn [Z.eqb kReadFileRecordType Pos.eqb].
    replace (Z.of_nat (length record) >? write_offset - off) with false by lia. done.
  - by destruct Henc as [_ ->].
  - destruct Henc as (Hl & -> & Hd & Hv).
    cbn [Z.eqb kReadFileRecordType kEventQueueRecordType kWriteAddressRecordType Pos.eqb].
    rewrite <- Hl. replace (Z.of_nat (length record) >? write_offset - off) with false by lia.
    rewrite Hread' by lia. rewrite Nat2Z.id, firstn_all, Hd, Hv. unfold execute, record_outcome.
    destruct (destination =? 0); [done|]. rewrite write64_bytes.
    by destruct (Write destination (le_bytes 8 value) m) as [m' []].
Qed.

Lemma complete_loop_spec commands records fuel m write_offset off :
  like m0 m -> Forall2 encodes commands records -> Forall apart_from_buffer commands ->
  0 <= off -> off + Z.of_nat (length (concat records)) = write_offset -> write_offset <= capacity ->
  guest_bytes m (buffer + off) (Z.of_nat (length (concat records))) = concat records ->
  (length commands <= fuel)%nat ->
  complete_loop fuel buffer write_offset off m = Some (execute_all commands m).
Proof.
  intros Hm Henc. revert fuel m off Hm.
  induction Henc as [|command record commands records Hone Henc IH]; intros fuel m off Hm Hrun Ho Hend Hcap Hrec Hf.
  { cbn in Hend. replace (off <? write_offset) with false by lia. destruct fuel; cbn [complete_loop];
      by replace (off <? write_offset) with false by lia. }
  apply Forall_cons in Hrun as [Hr Hrun]. cbn [concat] in *. rewrite length_app, Nat2Z.inj_add in *.
  destruct fuel as [|fuel]; [cbn [length] in Hf; lia|]. cbn [complete_loop].
  assert (Hlen : 0 < Z.of_nat (length record)).
  { destruct Hone as [_ Hone], command; destruct Hone as [-> _]; unfold kAmprReadFileRecordSize,
      kAmprEventQueueRecordSize, kAmprWriteAddressRecordSize; lia. }
  replace (off <? write_offset) with true by lia. cbn [negb].
  rewrite bytes_at_split in Hrec by lia. apply app_inj_1 in Hrec as [Hrec Hrest]; [|rewrite guest_bytes_length; lia].
  rewrite (complete_record_spec command record) by (done || lia).
  destruct (execute_keeps command record m Hm Hone Hr) as [Hm' Hkeep]. unfold is_u64 in *.
  unfold record_outcome. cbn [execute_all]. destruct (execute command m) as [m1 status]. cbn [fst snd] in *.
  destruct status; try done. rewrite add64_small by lia. apply IH; try done; try lia.
  - rewrite Hkeep by lia. done.
  - cbn [length] in Hf. lia.
Qed.

Lemma records_length commands records :
  Forall2 encodes commands records ->
  Forall (fun record => record <> []) records /\ Z.of_nat (length commands) <= Z.of_nat (length (concat records)).
Proof.
  induction 1 as [|command record commands records [_ Hone] _ [IH1 IH2]]; [done|].
  assert (Hlen : 0x20 <= Z.of_nat (length record)).
  { destruct command; destruct Hone as [-> _]; unfold kAmprReadFileRecordSize,
      kAmprEventQueueRecordSize, kAmprWriteAddressRecordSize; lia. }
  split; [constructor; [|done]; by destruct record|]. cbn [concat length]. rewrite length_app. lia.
Qed.
End commands.

(** C24: What is appended is executed.  Over an empty command buffer whose buffer
    is readable and writable memory, private or shared, that does not alias
    itself, appending the images of commands of the three record types that fit
    succeeds, and the buffer then holds them; the cursor counts the bytes and the
    commands.  When the stores that can be made do not touch the buffer,
    [Complete] ends, performs exactly the stores of the write commands, in order,
    each with its full 64-bit value, and stops at the first command that cannot
    be executed: an event-queue record ends it with the unsupported status, a
    store to a null or unwritable destination with the fault; otherwise it ends
    with success. *)
Theorem appended_commands_complete command_buffer buffer capacity commands records m t :
  gm_ok m -> command_buffer <> 0 -> is_u64 buffer -> buffer <> 0 -> 0 <= capacity -> buffer + capacity <= u64_max ->
  accessible m buffer capacity kRead -> accessible m buffer capacity kWrite ->
  distinct_locs m buffer capacity ->
  t !! command_buffer = Some (mkAmprState buffer capacity 0 0) ->
  Forall2 encodes commands records -> Z.of_nat (length (concat records)) <= capacity ->
  Forall (apart_from_buffer buffer capacity m) commands ->
  exists m1 t1, append_all command_buffer records m t = (m1, t1, ampr_kOk) /\
    t1 !! command_buffer = Some (mkAmprState buffer capacity (Z.of_nat (length (concat records)))
                                   (Z.of_nat (length records))) /\
    guest_bytes m1 buffer (Z.of_nat (length (concat records))) = concat records /\
    Ampr_Complete command_buffer m1 t1
      = Some ((execute_all commands m1).1, t1, (execute_all commands m1).2).
Proof.
  intros Hm Hcb Hb Hnz Hc He Hread Hwrite Hpriv Ht Henc Hfit Hrun.
  destruct (records_length _ _ Henc) as [Hne Hcount].
  assert (Hlike : like m m) by (by split).
  destruct (append_all_spec command_buffer buffer capacity m Hm Hcb (conj Hb Hnz) (conj Hc He) Hread Hwrite Hpriv
    records m t 0 0 Hlike Ht ltac:(lia) Hne ltac:(lia)) as (m1 & t1 & E1 & Hm1 & Ht1 & Hb1).
  rewrite Z.add_0_l in Ht1, Hb1. exists m1, t1. split_and!; [done|done|exact Hb1|].
  unfold Ampr_Complete. rewrite (proj2 (Z.eqb_neq command_buffer 0)) by done.
  unfold LoadStateLocked. rewrite Ht1. cbn [cursor am_write_offset am_buffer].
  rewrite (complete_loop_spec buffer capacity m Hm (conj Hb Hnz) (conj Hc He) Hread commands records);
    try done; try lia; [by destruct (execute_all commands m1)|by rewrite Z.add_0_r].
Qed.
