(* ===== verification/Pthread.v ===== *)
(** [kernel::PthreadService] ([src/kernel/pthread.cpp], [pthread.h]): data and
    operations.

    The service keeps the POSIX threads objects of the guest: thread attributes,
    mutexes, read-write locks, condition variables and thread-specific data.  It
    parks and wakes guest threads through the scheduler and keeps the guest
    image of a mutex or read-write lock in an arena of guest memory.  The state
    is the C++ object together with the kernel and the guest memory it holds
    references to; [guest_mutex_memory_] is [true] when the pointer is set.

    Every call that touches a lock is made on behalf of the one running guest
    thread, so each call is one transition, as in the other services.
    [std::size_t] counters of live waiters are natural numbers; the 32-bit
    recursion and reader counts keep their width. *)
From S2P Require Import Prelude Ranges OrderedMap WaitKeys HandleTable Objects.
From S2P Require Import Clock Scheduler LittleEndian SharedBacking GuestMemory.

(** ** Constants and data *)

Definition kPthreadDefaultAffinityMask : Z := 0x7f.
Definition kPthreadDefaultGuardSize : Z := 0x1000.
Definition kPthreadDefaultStackSize : Z := 0x100000.
Definition kPthreadMinimumStackSize : Z := 0x4000.
Definition kPthreadDefaultPriority : Z := 700.
Definition kMaximumPthreadKeys : nat := 256.
Definition kPthreadMutexErrorCheck : Z := 1.
Definition kPthreadMutexRecursive : Z := 2.
Definition kPthreadMutexNormal : Z := 3.
Definition kPthreadMutexAdaptive : Z := 4.
Definition kPthreadMutexObjectSize : Z := 0x100.
Definition kPthreadMutexObjectTypeOffset : Z := 0x20.
Definition kPthreadMutexObjectProtocolOffset : Z := 0x3c.
Definition kPthreadMutexArenaSize : Z := 1024 * 1024.
Definition kPthreadMutexArenaSlotCount : nat := Z.to_nat 4096.
#[global] Opaque kPthreadMutexArenaSlotCount kMaximumPthreadKeys.
Definition kSyntheticAttributeHandleBase : Z := 0x0000600400000000.
Definition kSyntheticMutexAttributeHandleBase : Z := 0x0000600500000000.
Definition kSyntheticMutexHandleBase : Z := 0x0000600600000000.
Definition kSyntheticConditionHandleBase : Z := 0x0000600700000000.

(** [std::numeric_limits<std::uint32_t>::max()]. *)
Definition u32_max : Z := 0xffffffff.

Record PthreadAttribute := mkPthreadAttribute {
  pa_affinity_mask : Z;
  pa_detach_state : Z;
  pa_stack_address : Z;
  pa_stack_size : Z;
  pa_guard_size : Z;
  pa_inherit_scheduler : Z;
  pa_scheduler_policy : Z;
  pa_priority : Z
}.

Definition PthreadAttribute_default : PthreadAttribute :=
  mkPthreadAttribute kPthreadDefaultAffinityMask 0 0 kPthreadDefaultStackSize
    kPthreadDefaultGuardSize 4 1 kPthreadDefaultPriority.

(** [PthreadThreadSnapshot{handle, attributes}]. *)
Record PthreadThreadSnapshot := mkThreadSnapshot {
  ps_handle : Z;
  ps_attributes : PthreadAttribute
}.

Record PthreadMutexAttribute := mkMutexAttribute { ma_type : Z; ma_protocol : Z }.
Definition PthreadMutexAttribute_default : PthreadMutexAttribute :=
  mkMutexAttribute kPthreadMutexErrorCheck 0.

Record MutexState := mkMutexState {
  mx_type : Z;
  mx_protocol : Z;
  mx_owner : Z;
  mx_recursion_count : Z;
  mx_waiters : list Z;
  mx_granted_waiters : gset Z;
  mx_condition_waiter_count : nat;
  mx_guest_object_slot : option nat
}.

Record ConditionWaiter := mkConditionWaiter {
  cw_thread : Z;
  cw_condition_handle : Z;
  cw_mutex_handle : Z;
  cw_deadline : option Z;
  cw_timed_out : bool
}.

Record ConditionState := mkConditionState {
  cv_waiters : list ConditionWaiter;
  cv_active_waiter_count : nat
}.

Record RwlockWaiter := mkRwlockWaiter { rq_thread : Z; rq_write : bool }.

Record RwlockState := mkRwlockState {
  rw_writer : Z;
  rw_readers : list (Z * Z);
  rw_waiters : list RwlockWaiter;
  rw_granted_readers : gset Z;
  rw_granted_writer : option Z;
  rw_guest_object_slot : nat
}.

Record PthreadService := mkPthreads {
  attributes_ : list (Z * PthreadAttribute);
  thread_attribute_snapshots_ : list (Z * PthreadAttribute);
  pthreads_ : list (Z * PthreadThreadSnapshot);
  mutex_attributes_ : list (Z * PthreadMutexAttribute);
  mutexes_ : list (Z * MutexState);
  rwlocks_ : list (Z * RwlockState);
  conditions_ : list (Z * ConditionState);
  completed_condition_waits_ : list (Z * ConditionWaiter);
  keys_ : list (option Z);
  specific_values_ : list (Z * list (Z * Z));
  guest_mutex_memory_ : bool;
  guest_mutex_arena_address_ : Z;
  guest_mutex_slots_ : list bool;
  next_attribute_id_ : Z;
  next_mutex_attribute_id_ : Z;
  next_mutex_id_ : Z;
  next_condition_id_ : Z;
  pt_kernel : Kernel;
  pt_memory : GuestMemory
}.

Definition PthreadService_init (k : Kernel) (m : GuestMemory) : PthreadService :=
  mkPthreads [] [] [] [] [] [] [] [] (replicate kMaximumPthreadKeys None) [] false 0
    (replicate kPthreadMutexArenaSlotCount false) 1 1 1 1 k m.

Definition pt_current (p : PthreadService) : option Z := current_thread_ (scheduler_ (pt_kernel p)).

Implicit Types (p : PthreadService) (mu : MutexState) (rw : RwlockState) (cv : ConditionState).

Section pthread.
Context `{ClockSource}.

(** [for (const auto& wake_key : wake_keys) WakeBlockedThreads(wake_key, 1)]. *)
Definition wake_each (wake_keys : list string) (k : Kernel) : Kernel :=
  foldl (fun k key => (WakeBlockedThreads key 1 k).1) k wake_keys.

(** ** Attributes and threads *)

Definition CreateAttribute p : PthreadService * (KernelStatus * Z) :=
  if (next_attribute_id_ p =? 0) || (next_attribute_id_ p >? u64_max - kSyntheticAttributeHandleBase)
  then (p, (kNoResources, 0))
  else
    let handle := (kSyntheticAttributeHandleBase + next_attribute_id_ p)%u64 in
    ({| p with attributes_ := om_emplace handle PthreadAttribute_default (attributes_ p);
               next_attribute_id_ := (next_attribute_id_ p + 1)%u64 |}, (kOk, handle)).

Definition DestroyAttribute (handle : Z) p : PthreadService * KernelStatus :=
  if handle =? 0 then (p, kInvalidArgument)
  else match om_find handle (attributes_ p) with
  | Some _ => ({| p with attributes_ := om_erase handle (attributes_ p) |}, kOk)
  | None =>
      match om_find handle (thread_attribute_snapshots_ p) with
      | Some _ =>
          ({| p with thread_attribute_snapshots_ :=
                om_erase handle (thread_attribute_snapshots_ p) |}, kOk)
      | None => (p, kNotFound)
      end
  end.

Definition SetAttributeStackSize (handle stack_size : Z) p : PthreadService * KernelStatus :=
  if stack_size <? kPthreadMinimumStackSize then (p, kInvalidArgument)
  else match om_find handle (attributes_ p) with
  | None => (p, kNotFound)
  | Some _ =>
      ({| p with attributes_ :=
            om_update handle (fun a => {| a with pa_stack_size := stack_size |}) (attributes_ p) |},
       kOk)
  end.

Definition GetAttribute (handle : Z) p : option PthreadAttribute :=
  match om_find handle (attributes_ p) with
  | Some a => Some a
  | None => om_find handle (thread_attribute_snapshots_ p)
  end.

Definition Pthread_CreateThread (name : string) (attribute_handle entry_address argument : Z) p
    : PthreadService * (KernelStatus * Z) :=
  if entry_address =? 0 then (p, (kInvalidArgument, kInvalidKernelHandle))
  else
    let attributes :=
      if attribute_handle =? 0 then PthreadAttribute_default
      else default PthreadAttribute_default (om_find attribute_handle (attributes_ p)) in
    let '(k, (status, handle)) :=
      CreateThread name (pa_priority attributes) entry_address argument (pt_kernel p) in
    let p1 := {| p with pt_kernel := k |} in
    if negb (status_eqb status kOk) then (p1, (status, kInvalidKernelHandle))
    else
      ({| p1 with pthreads_ :=
            om_emplace handle (mkThreadSnapshot handle attributes) (pthreads_ p1) |},
       (kOk, handle)).

Definition Pthread_DiscardReadyThread (handle : Z) p : PthreadService * bool :=
  let '(k, discarded) := DiscardReadyThread handle (pt_kernel p) in
  let p1 := {| p with pt_kernel := k |} in
  if negb discarded then (p1, false)
  else
    ({| p1 with pthreads_ := om_erase handle (pthreads_ p1);
                specific_values_ := om_erase handle (specific_values_ p1) |}, true).

Definition Pthread_JoinThread (handle : Z) p : PthreadService * (KernelStatus * Z) :=
  let '(k, r) := JoinThread handle (pt_kernel p) in ({| p with pt_kernel := k |}, r).

Definition GetThread (handle : Z) p : option PthreadThreadSnapshot := om_find handle (pthreads_ p).

Definition SetThreadStack (handle stack_address stack_size : Z) p : PthreadService * bool :=
  if (stack_address =? 0) || (stack_size <? kPthreadMinimumStackSize) then (p, false)
  else match om_find handle (pthreads_ p) with
  | None => (p, false)
  | Some _ =>
      ({| p with pthreads_ :=
            om_update handle (fun t => {| t with ps_attributes :=
              {| (ps_attributes t) with pa_stack_address := stack_address;
                                        pa_stack_size := stack_size |} |}) (pthreads_ p) |}, true)
  end.

Definition CreateThreadAttributeSnapshot (handle : Z) p : PthreadService * (KernelStatus * Z) :=
  match om_find handle (pthreads_ p) with
  | None => (p, (kNotFound, 0))
  | Some thread =>
      if (next_attribute_id_ p =? 0)
         || (next_attribute_id_ p >? u64_max - kSyntheticAttributeHandleBase)
      then (p, (kNoResources, 0))
      else
        let attribute := (kSyntheticAttributeHandleBase + next_attribute_id_ p)%u64 in
        ({| p with thread_attribute_snapshots_ :=
                     om_set attribute (ps_attributes thread) (thread_attribute_snapshots_ p);
                   next_attribute_id_ := (next_attribute_id_ p + 1)%u64 |}, (kOk, attribute))
  end.

(** ** Mutex attributes *)

Definition IsMutexTypeValid (type : Z) : bool :=
  (kPthreadMutexErrorCheck <=? type) && (type <=? kPthreadMutexAdaptive).

Definition IsMutexProtocolValid (protocol : Z) : bool := (0 <=? protocol) && (protocol <=? 2).

Definition CreateMutexAttribute p : PthreadService * (KernelStatus * Z) :=
  if (next_mutex_attribute_id_ p =? 0)
     || (next_mutex_attribute_id_ p >? u64_max - kSyntheticMutexAttributeHandleBase)
  then (p, (kNoResources, 0))
  else
    let handle := (kSyntheticMutexAttributeHandleBase + next_mutex_attribute_id_ p)%u64 in
    ({| p with mutex_attributes_ :=
                 om_emplace handle PthreadMutexAttribute_default (mutex_attributes_ p);
               next_mutex_attribute_id_ := (next_mutex_attribute_id_ p + 1)%u64 |}, (kOk, handle)).

Definition DestroyMutexAttribute (handle : Z) p : PthreadService * KernelStatus :=
  if handle =? 0 then (p, kInvalidArgument)
  else match om_find handle (mutex_attributes_ p) with
  | Some _ => ({| p with mutex_attributes_ := om_erase handle (mutex_attributes_ p) |}, kOk)
  | None => (p, kNotFound)
  end.

Definition SetMutexAttributeType (handle type : Z) p : PthreadService * KernelStatus :=
  if negb (IsMutexTypeValid type) then (p, kInvalidArgument)
  else match om_find handle (mutex_attributes_ p) with
  | None => (p, kNotFound)
  | Some _ =>
      ({| p with mutex_attributes_ :=
            om_update handle (fun a => {| a with ma_type := type |}) (mutex_attributes_ p) |}, kOk)
  end.

Definition SetMutexAttributeProtocol (handle protocol : Z) p : PthreadService * KernelStatus :=
  if negb (IsMutexProtocolValid protocol) then (p, kInvalidArgument)
  else match om_find handle (mutex_attributes_ p) with
  | None => (p, kNotFound)
  | Some _ =>
      ({| p with mutex_attributes_ :=
            om_update handle (fun a => {| a with ma_protocol := protocol |}) (mutex_attributes_ p) |},
       kOk)
  end.

Definition GetMutexAttribute (handle : Z) p : option PthreadMutexAttribute :=
  om_find handle (mutex_attributes_ p).

(** ** Mutex objects *)

Definition has_guest_mutex p : bool :=
  existsb (fun e => match mx_guest_object_slot e.2 with Some _ => true | None => false end)
    (mutexes_ p).

Definition no_rwlocks p : bool := match rwlocks_ p with [] => true | _ => false end.

Definition ConfigureGuestMutexArena (address : Z) p : PthreadService * bool :=
  if guest_mutex_memory_ p || has_guest_mutex p || negb (no_rwlocks p) || (address =? 0)
     || (address >? u64_max - kPthreadMutexArenaSize)
     || negb (CanAccessLocked address kPthreadMutexArenaSize kWrite (pt_memory p))
  then (p, false)
  else
    let '(m, filled) := Fill address kPthreadMutexArenaSize 0 (pt_memory p) in
    let p1 := {| p with pt_memory := m |} in
    if negb filled then (p1, false)
    else ({| p1 with guest_mutex_memory_ := true; guest_mutex_arena_address_ := address;
                     guest_mutex_slots_ := replicate kPthreadMutexArenaSlotCount false |}, true).

Definition ReleaseGuestMutexArena p : PthreadService * bool :=
  if negb (guest_mutex_memory_ p) || has_guest_mutex p || negb (no_rwlocks p) then (p, false)
  else ({| p with guest_mutex_memory_ := false; guest_mutex_arena_address_ := 0;
                  guest_mutex_slots_ := replicate kPthreadMutexArenaSlotCount false |}, true).

(** [slot * kPthreadMutexObjectSize], and the check that the object's address
    does not wrap. *)
Definition slot_offset (slot : nat) : Z := Z.of_nat slot * kPthreadMutexObjectSize.
Definition slot_wraps (slot : nat) p : bool :=
  guest_mutex_arena_address_ p >? u64_max - slot_offset slot.
Definition slot_address (slot : nat) p : Z :=
  (guest_mutex_arena_address_ p + slot_offset slot)%u64.

(** [for (std::size_t probes = 0;;)]: [remaining] is [maximum_probes - probes]. *)
Fixpoint probe_mutex_id (remaining : nat) (candidate_id : Z) p : option Z :=
  let handle := (kSyntheticMutexHandleBase + candidate_id)%u64 in
  match om_find handle (mutexes_ p), om_find handle (rwlocks_ p) with
  | None, None => Some candidate_id
  | _, _ =>
      if candidate_id =? u64_max - kSyntheticMutexHandleBase then None
      else match remaining with
      | O => None
      | S r => probe_mutex_id r (candidate_id + 1)%u64 p
      end
  end.

Definition CreateMutexLocked (attribute_handle static_type : Z) (guest_object_slot : option nat) p
    : PthreadService * (KernelStatus * Z) :=
  if negb (static_type =? 0) && negb (IsMutexTypeValid static_type)
  then (p, (kInvalidArgument, 0))
  else
    let supplied := default PthreadMutexAttribute_default
                      (om_find attribute_handle (mutex_attributes_ p)) in
    let type := if static_type =? 0 then ma_type supplied else static_type in
    let mutex := mkMutexState type (ma_protocol supplied) kInvalidKernelHandle 0 [] ∅ 0
                   guest_object_slot in
    match guest_object_slot with
    | Some slot =>
        if (length (guest_mutex_slots_ p) <=? slot)%nat || slot_wraps slot p
        then (p, (kNoResources, 0))
        else
          let handle := slot_address slot p in
          match om_find handle (mutexes_ p) with
          | Some _ => (p, (kNoResources, 0))
          | None => ({| p with mutexes_ := om_emplace handle mutex (mutexes_ p) |}, (kOk, handle))
          end
    | None =>
        let maximum_id := u64_max - kSyntheticMutexHandleBase in
        if (next_mutex_id_ p =? 0) || (next_mutex_id_ p >? maximum_id)
        then (p, (kNoResources, 0))
        else match probe_mutex_id (length (mutexes_ p) + length (rwlocks_ p))%nat
                     (next_mutex_id_ p) p with
        | None => (p, (kNoResources, 0))
        | Some candidate_id =>
            let handle := (kSyntheticMutexHandleBase + candidate_id)%u64 in
            ({| p with mutexes_ := om_emplace handle mutex (mutexes_ p);
                       next_mutex_id_ :=
                         if candidate_id =? maximum_id then 0 else (candidate_id + 1)%u64 |},
             (kOk, handle))
        end
    end.

Definition CreateMutex (attribute_handle static_type : Z) p :=
  CreateMutexLocked attribute_handle static_type None p.

(** [(void)guest_mutex_memory_->Fill(object_address, size, 0)]. *)
Definition clear_object (address : Z) p : PthreadService :=
  {| p with pt_memory := (Fill address kPthreadMutexObjectSize 0 (pt_memory p)).1 |}.

Definition set_memory (m : GuestMemory) p : PthreadService := {| p with pt_memory := m |}.

(** The body of the loop of [CreateGuestMutex] once a free slot is found. *)
Definition create_guest_mutex_at (attribute_handle static_type : Z) (slot : nat) p
    : PthreadService * (KernelStatus * Z) :=
  let object_address := slot_address slot p in
  let '(m1, filled) := Fill object_address kPthreadMutexObjectSize 0 (pt_memory p) in
  if negb filled then (set_memory m1 p, (kNoResources, 0))
  else
    let '(p2, (status, handle)) :=
      CreateMutexLocked attribute_handle static_type (Some slot) (set_memory m1 p) in
    if negb (status_eqb status kOk) then (clear_object object_address p2, (status, handle))
    else match om_find handle (mutexes_ p2) with
    | None => (clear_object object_address p2, (kNoResources, 0))
    | Some state =>
        let undo m := (clear_object object_address
                         {| p2 with mutexes_ := om_erase handle (mutexes_ p2); pt_memory := m |},
                       (kNoResources, 0)) in
        let '(m3, ok_type) :=
          Write (object_address + kPthreadMutexObjectTypeOffset)%u64 (le_bytes 4 (mx_type state))
            (pt_memory p2) in
        if negb ok_type then undo m3
        else
          let '(m4, ok_protocol) :=
            Write (object_address + kPthreadMutexObjectProtocolOffset)%u64
              (le_bytes 4 (mx_protocol state)) m3 in
          if negb ok_protocol then undo m4
          else ({| p2 with pt_memory := m4;
                           guest_mutex_slots_ := <[slot := true]> (guest_mutex_slots_ p2) |},
                (kOk, object_address))
    end.

(** [for (slot = 0; slot < guest_mutex_slots_.size(); ++slot)]; [slots] is the
    part of the slot table from [slot] on. *)
Fixpoint guest_mutex_loop (attribute_handle static_type : Z) (slot : nat) (slots : list bool) p
    : PthreadService * (KernelStatus * Z) :=
  match slots with
  | [] => (p, (kNoResources, 0))
  | used :: rest =>
      if used then guest_mutex_loop attribute_handle static_type (S slot) rest p
      else if slot_wraps slot p then (p, (kNoResources, 0))
      else match om_find (slot_address slot p) (mutexes_ p) with
      | Some _ => guest_mutex_loop attribute_handle static_type (S slot) rest p
      | None => create_guest_mutex_at attribute_handle static_type slot p
      end
  end.

Definition CreateGuestMutex (attribute_handle static_type : Z) p
    : PthreadService * (KernelStatus * Z) :=
  if negb (guest_mutex_memory_ p) then (p, (kNoResources, 0))
  else if negb (static_type =? 0) && negb (IsMutexTypeValid static_type)
  then (p, (kInvalidArgument, 0))
  else guest_mutex_loop attribute_handle static_type 0 (guest_mutex_slots_ p) p.

(** A mutex that may be destroyed: no owner, no waiter, no outstanding grant and
    no condition wait that will come back for it. *)
Definition mutex_idle mu : bool :=
  (mx_owner mu =? kInvalidKernelHandle) &&
  match mx_waiters mu with [] => true | _ => false end &&
  bool_decide (mx_granted_waiters mu = ∅) && (mx_condition_waiter_count mu =? 0)%nat.

Definition CanDestroyMutex (handle : Z) p : KernelStatus :=
  if handle =? 0 then kInvalidArgument
  else match om_find handle (mutexes_ p) with
  | None => kNotFound
  | Some mu => if mutex_idle mu then kOk else kBusy
  end.

Definition DestroyMutex (handle : Z) p : PthreadService * KernelStatus :=
  if handle =? 0 then (p, kInvalidArgument)
  else match om_find handle (mutexes_ p) with
  | None => (p, kNotFound)
  | Some mu =>
      if negb (mutex_idle mu) then (p, kBusy)
      else match mx_guest_object_slot mu with
      | None => ({| p with mutexes_ := om_erase handle (mutexes_ p) |}, kOk)
      | Some slot =>
          if (length (guest_mutex_slots_ p) <=? slot)%nat || slot_wraps slot p
          then (p, kNoResources)
          else if negb (guest_mutex_memory_ p) then (p, kNoResources)
          else
            let '(m, filled) :=
              Fill (slot_address slot p) kPthreadMutexObjectSize 0 (pt_memory p) in
            let p1 := {| p with pt_memory := m |} in
            if negb filled then (p1, kNoResources)
            else ({| p1 with guest_mutex_slots_ := <[slot := false]> (guest_mutex_slots_ p1);
                             mutexes_ := om_erase handle (mutexes_ p1) |}, kOk)
      end
  end.

(** ** Locking *)

(** The wake key is empty when nobody waits. *)
Definition GrantNextMutexWaiterLocked (mutex_handle : Z) mu : MutexState * string :=
  match mx_waiters mu with
  | [] => (mu, EmptyString)
  | next_thread :: rest =>
      ({| mu with mx_waiters := rest; mx_owner := next_thread; mx_recursion_count := 1;
                  mx_granted_waiters := {[next_thread]} ∪ mx_granted_waiters mu |},
       MutexWaitKey mutex_handle next_thread)
  end.

Definition set_mutex (handle : Z) mu p : PthreadService :=
  {| p with mutexes_ := om_update handle (fun _ => mu) (mutexes_ p) |}.

(** [++mutex.recursion_count], refused at the top of the 32-bit range. *)
Definition recurse_mutex (handle : Z) mu p : PthreadService * KernelStatus :=
  if mx_recursion_count mu =? u32_max then (p, kNoResources)
  else (set_mutex handle {| mu with mx_recursion_count := mx_recursion_count mu + 1 |} p, kOk).

Definition LockMutex (handle : Z) (try_only : bool) p : PthreadService * KernelStatus :=
  match pt_current p with
  | None => (p, kBusy)
  | Some current =>
      match om_find handle (mutexes_ p) with
      | None => (p, kNotFound)
      | Some mu =>
          if mx_owner mu =? kInvalidKernelHandle then
            (set_mutex handle {| mu with mx_owner := current; mx_recursion_count := 1 |} p, kOk)
          else if mx_owner mu =? current then
            if bool_decide (current ∈ mx_granted_waiters mu) then
              (set_mutex handle
                 {| mu with mx_granted_waiters := mx_granted_waiters mu ∖ {[current]} |} p, kOk)
            else if mx_type mu =? kPthreadMutexRecursive then recurse_mutex handle mu p
            else if (mx_type mu =? kPthreadMutexNormal) && negb try_only then
              recurse_mutex handle mu p
            else if (mx_type mu =? kPthreadMutexAdaptive) && negb try_only then (p, kOk)
            else (p, if try_only then kBusy else kInvalidArgument)
          else if try_only then (p, kBusy)
          else
            let waiters := if bool_decide (current ∈ mx_waiters mu) then mx_waiters mu
                           else mx_waiters mu ++ [current] in
            let p1 := set_mutex handle {| mu with mx_waiters := waiters |} p in
            let '(k, blocked) := BlockCurrent (MutexWaitKey handle current) (pt_kernel p1) in
            let p2 := {| p1 with pt_kernel := k |} in
            if blocked then (p2, kWouldBlock)
            else
              ({| p2 with mutexes_ :=
                    om_update handle (fun mu => {| mu with mx_waiters :=
                      List.filter (fun t => negb (t =? current)) (mx_waiters mu) |}) (mutexes_ p2) |},
               kBusy)
      end
  end.

Definition UnlockMutex (handle : Z) p : PthreadService * KernelStatus :=
  match pt_current p with
  | None => (p, kBusy)
  | Some current =>
      match om_find handle (mutexes_ p) with
      | None => (p, kNotFound)
      | Some mu =>
          if negb (mx_owner mu =? current) then (p, kPermissionDenied)
          else if mx_recursion_count mu =? 0 then (p, kInvalidArgument)
          else
            let count := mx_recursion_count mu - 1 in
            if negb (count =? 0) then
              (set_mutex handle {| mu with mx_recursion_count := count |} p, kOk)
            else
              let '(mu', wake_key) :=
                GrantNextMutexWaiterLocked handle
                  {| mu with mx_recursion_count := count; mx_owner := kInvalidKernelHandle;
                             mx_granted_waiters := mx_granted_waiters mu ∖ {[current]} |} in
              let p1 := set_mutex handle mu' p in
              if bool_decide (wake_key = EmptyString) then (p1, kOk)
              else ({| p1 with pt_kernel := (WakeBlockedThreads wake_key 1 (pt_kernel p1)).1 |}, kOk)
      end
  end.

(** [PthreadMutexSnapshot{handle, type, protocol, owner, recursion_count,
    waiter_count, condition_waiter_count}]. *)
Definition GetMutex (handle : Z) p : option (Z * Z * Z * Z * Z * nat * nat) :=
  match om_find handle (mutexes_ p) with
  | None => None
  | Some mu =>
      Some (handle, mx_type mu, mx_protocol mu, mx_owner mu, mx_recursion_count mu,
            length (mx_waiters mu), mx_condition_waiter_count mu)
  end.

Definition CurrentThreadOwnsMutex (handle : Z) p : option bool :=
  match pt_current p with
  | None => Some false
  | Some current =>
      match om_find handle (mutexes_ p) with
      | None => None
      | Some mu => Some (mx_owner mu =? current)
      end
  end.

(** ** Read-write locks *)

Fixpoint guest_rwlock_loop (slot : nat) (slots : list bool) p : PthreadService * (KernelStatus * Z) :=
  match slots with
  | [] => (p, (kNoResources, 0))
  | used :: rest =>
      if used then guest_rwlock_loop (S slot) rest p
      else if slot_wraps slot p then (p, (kNoResources, 0))
      else
        let handle := slot_address slot p in
        match om_find handle (mutexes_ p), om_find handle (rwlocks_ p) with
        | None, None =>
            let '(m, filled) := Fill handle kPthreadMutexObjectSize 0 (pt_memory p) in
            let p1 := {| p with pt_memory := m |} in
            if negb filled then guest_rwlock_loop (S slot) rest p1
            else
              ({| p1 with rwlocks_ :=
                            om_emplace handle (mkRwlockState kInvalidKernelHandle [] [] ∅ None slot)
                              (rwlocks_ p1);
                          guest_mutex_slots_ := <[slot := true]> (guest_mutex_slots_ p1) |},
               (kOk, handle))
        | _, _ => guest_rwlock_loop (S slot) rest p
        end
  end.

Definition CreateGuestRwlock p : PthreadService * (KernelStatus * Z) :=
  if negb (guest_mutex_memory_ p) then (p, (kNoResources, 0))
  else guest_rwlock_loop 0 (guest_mutex_slots_ p) p.

Definition rwlock_free rw : bool :=
  (rw_writer rw =? kInvalidKernelHandle) && match rw_readers rw with [] => true | _ => false end.

Definition no_rw_waiters rw : bool := match rw_waiters rw with [] => true | _ => false end.

Definition rwlock_idle rw : bool :=
  rwlock_free rw && no_rw_waiters rw && bool_decide (rw_granted_readers rw = ∅) &&
  match rw_granted_writer rw with None => true | Some _ => false end.

Definition CanDestroyRwlock (handle : Z) p : KernelStatus :=
  if handle =? 0 then kInvalidArgument
  else match om_find handle (rwlocks_ p) with
  | None => kNotFound
  | Some rw => if rwlock_idle rw then kOk else kBusy
  end.

Definition DestroyRwlock (handle : Z) p : PthreadService * KernelStatus :=
  match om_find handle (rwlocks_ p) with
  | None => (p, kNotFound)
  | Some rw =>
      if negb (rwlock_idle rw) then (p, kBusy)
      else
        let slot := rw_guest_object_slot rw in
        if (length (guest_mutex_slots_ p) <=? slot)%nat || negb (guest_mutex_memory_ p)
        then (p, kNoResources)
        else
          let '(m, filled) := Fill handle kPthreadMutexObjectSize 0 (pt_memory p) in
          let p1 := {| p with pt_memory := m |} in
          if negb filled then (p1, kNoResources)
          else ({| p1 with guest_mutex_slots_ := <[slot := false]> (guest_mutex_slots_ p1);
                           rwlocks_ := om_erase handle (rwlocks_ p1) |}, kOk)
  end.

Definition set_rwlock (handle : Z) rw p : PthreadService :=
  {| p with rwlocks_ := om_update handle (fun _ => rw) (rwlocks_ p) |}.

Definition drop_rw_waiter (thread : Z) rw : RwlockState :=
  {| rw with rw_waiters := List.filter (fun w => negb (rq_thread w =? thread)) (rw_waiters rw) |}.

Definition LockRwlock (handle : Z) (write try_only : bool) p : PthreadService * KernelStatus :=
  match pt_current p with
  | None => (p, kBusy)
  | Some current =>
      match om_find handle (rwlocks_ p) with
      | None => (p, kNotFound)
      | Some rw =>
          if write && (rw_writer rw =? current)
             && bool_decide (rw_granted_writer rw = Some current) then
            (set_rwlock handle {| rw with rw_granted_writer := None |} p, kOk)
          else if negb write && bool_decide (current ∈ rw_granted_readers rw) then
            (set_rwlock handle
               {| rw with rw_granted_readers := rw_granted_readers rw ∖ {[current]} |} p, kOk)
          else
            let reads := om_find current (rw_readers rw) in
            if write && ((rw_writer rw =? current) || bool_decide (is_Some reads))
            then (p, kInvalidArgument)
            else match (if write then None else reads) with
            | Some count =>
                if count =? u32_max then (p, kNoResources)
                else
                  (set_rwlock handle
                     {| rw with rw_readers := om_update current (fun c => c + 1) (rw_readers rw) |} p,
                   kOk)
            | None =>
                if negb write && (rw_writer rw =? current) then (p, kInvalidArgument)
                else if rwlock_free rw && no_rw_waiters rw then
                  (set_rwlock handle
                     (if write then {| rw with rw_writer := current |}
                      else {| rw with rw_readers := om_emplace current 1 (rw_readers rw) |}) p, kOk)
                else if try_only then (p, kBusy)
                else
                  let waiters :=
                    if existsb (fun w => rq_thread w =? current) (rw_waiters rw) then rw_waiters rw
                    else rw_waiters rw ++ [mkRwlockWaiter current write] in
                  let p1 := set_rwlock handle {| rw with rw_waiters := waiters |} p in
                  let '(k, blocked) := BlockCurrent (RwlockWaitKey handle current) (pt_kernel p1) in
                  let p2 := {| p1 with pt_kernel := k |} in
                  if blocked then (p2, kWouldBlock)
                  else ({| p2 with rwlocks_ :=
                             om_update handle (drop_rw_waiter current) (rwlocks_ p2) |}, kBusy)
            end
      end
  end.

(** The readers at the front of the queue, up to the first writer. *)
Fixpoint grant_readers (rwlock_handle : Z) (waiters : list RwlockWaiter) rw (wake_keys : list string)
    : RwlockState * list string :=
  match waiters with
  | w :: rest =>
      if rq_write w then ({| rw with rw_waiters := waiters |}, wake_keys)
      else
        grant_readers rwlock_handle rest
          {| rw with rw_readers := om_emplace (rq_thread w) 1 (rw_readers rw);
                     rw_granted_readers := {[rq_thread w]} ∪ rw_granted_readers rw |}
          (wake_keys ++ [RwlockWaitKey rwlock_handle (rq_thread w)])
  | [] => ({| rw with rw_waiters := [] |}, wake_keys)
  end.

Definition GrantRwlockWaitersLocked (rwlock_handle : Z) rw (wake_keys : list string)
    : RwlockState * list string :=
  if negb (rwlock_free rw) then (rw, wake_keys)
  else match rw_waiters rw with
  | [] => (rw, wake_keys)
  | w :: rest =>
      if rq_write w then
        ({| rw with rw_waiters := rest; rw_writer := rq_thread w;
                    rw_granted_writer := Some (rq_thread w) |},
         wake_keys ++ [RwlockWaitKey rwlock_handle (rq_thread w)])
      else grant_readers rwlock_handle (rw_waiters rw) rw wake_keys
  end.

(** [--reader->second] on a 32-bit count, erased at zero. *)
Definition release_reader (current count : Z) rw : RwlockState :=
  let count' := (count - 1) mod 2 ^ 32 in
  if count' =? 0 then {| rw with rw_readers := om_erase current (rw_readers rw) |}
  else {| rw with rw_readers := om_update current (fun _ => count') (rw_readers rw) |}.

Definition UnlockRwlock (handle : Z) p : PthreadService * KernelStatus :=
  match pt_current p with
  | None => (p, kBusy)
  | Some current =>
      match om_find handle (rwlocks_ p) with
      | None => (p, kNotFound)
      | Some rw =>
          let released :=
            if rw_writer rw =? current then Some {| rw with rw_writer := kInvalidKernelHandle |}
            else match om_find current (rw_readers rw) with
            | Some count => Some (release_reader current count rw)
            | None => None
            end in
          match released with
          | None => (p, kPermissionDenied)
          | Some rw1 =>
              let '(rw2, wake_keys) :=
                if rwlock_free rw1 then GrantRwlockWaitersLocked handle rw1 [] else (rw1, []) in
              let p1 := set_rwlock handle rw2 p in
              ({| p1 with pt_kernel := wake_each wake_keys (pt_kernel p1) |}, kOk)
          end
      end
  end.

(** [PthreadRwlockSnapshot{handle, writer, reader_count, waiter_count}]. *)
Definition GetRwlock (handle : Z) p : option (Z * Z * Z * nat) :=
  match om_find handle (rwlocks_ p) with
  | None => None
  | Some rw =>
      Some (handle, rw_writer rw, foldr Z.add 0 (rw_readers rw).*2, length (rw_waiters rw))
  end.

(** ** Condition variables *)

Definition CreateCondition p : PthreadService * (KernelStatus * Z) :=
  if (next_condition_id_ p =? 0) || (next_condition_id_ p >? u64_max - kSyntheticConditionHandleBase)
  then (p, (kNoResources, 0))
  else
    let handle := (kSyntheticConditionHandleBase + next_condition_id_ p)%u64 in
    ({| p with conditions_ := om_emplace handle (mkConditionState [] 0) (conditions_ p);
               next_condition_id_ := (next_condition_id_ p + 1)%u64 |}, (kOk, handle)).

Definition DestroyCondition (handle : Z) p : PthreadService * KernelStatus :=
  if handle =? 0 then (p, kInvalidArgument)
  else match om_find handle (conditions_ p) with
  | None => (p, kNotFound)
  | Some cv =>
      match cv_active_waiter_count cv, cv_waiters cv with
      | O, [] => ({| p with conditions_ := om_erase handle (conditions_ p) |}, kOk)
      | _, _ => (p, kBusy)
      end
  end.

Definition drop_active cv : ConditionState :=
  {| cv with cv_active_waiter_count := pred (cv_active_waiter_count cv) |}.
Definition drop_condition_waiter mu : MutexState :=
  {| mu with mx_condition_waiter_count := pred (mx_condition_waiter_count mu) |}.

Definition is_waiter_of (thread mutex_handle : Z) (w : ConditionWaiter) : bool :=
  (cw_thread w =? thread) && (cw_mutex_handle w =? mutex_handle).

(** How a call of [WaitConditionInternal] goes on after looking for a wait of
    this thread that has already ended. *)
Inductive wait_phase := WaitReturn (status : KernelStatus) | WaitCompleting | WaitFresh.

Definition wait_resume (condition_handle mutex_handle current : Z) (timeout_wakeup : bool) p
    : PthreadService * wait_phase :=
  match om_find current (completed_condition_waits_ p) with
  | Some completed =>
      if negb (cw_condition_handle completed =? condition_handle)
         || negb (cw_mutex_handle completed =? mutex_handle)
      then (p, WaitReturn kInvalidArgument) else (p, WaitCompleting)
  | None =>
      if negb timeout_wakeup then (p, WaitFresh)
      else match om_find condition_handle (conditions_ p) with
      | None => (p, WaitReturn kNotFound)
      | Some cv =>
          match find (is_waiter_of current mutex_handle) (cv_waiters cv) with
          | None => (p, WaitReturn kInvalidArgument)
          | Some waiter =>
              match cw_deadline waiter with
              | None => (p, WaitReturn kInvalidArgument)
              | Some deadline =>
                  let '(c, now) := MonotonicNanoseconds (clock_ (pt_kernel p)) in
                  let p1 := {| p with pt_kernel := with_clock (pt_kernel p) c |} in
                  if deadline >? now then (p1, WaitReturn kInvalidArgument)
                  else
                    ({| p1 with
                          completed_condition_waits_ :=
                            om_set current {| waiter with cw_timed_out := true |}
                              (completed_condition_waits_ p1);
                          conditions_ :=
                            om_update condition_handle (fun cv => {| cv with cv_waiters :=
                              erase_first (is_waiter_of current mutex_handle) (cv_waiters cv) |})
                              (conditions_ p1) |}, WaitCompleting)
              end
          end
      end
  end.

Definition wait_complete (condition_handle mutex_handle current : Z) p
    : PthreadService * KernelStatus :=
  let '(p1, lock_status) := LockMutex mutex_handle false p in
  if negb (status_eqb lock_status kOk) then (p1, lock_status)
  else match om_find current (completed_condition_waits_ p1) with
  | None => (p1, kInvalidArgument)
  | Some completed =>
      match om_find condition_handle (conditions_ p1), om_find mutex_handle (mutexes_ p1) with
      | Some cv, Some mu =>
          if (cv_active_waiter_count cv =? 0)%nat || (mx_condition_waiter_count mu =? 0)%nat
          then (p1, kInvalidArgument)
          else
            ({| p1 with
                  conditions_ := om_update condition_handle drop_active (conditions_ p1);
                  mutexes_ := om_update mutex_handle drop_condition_waiter (mutexes_ p1);
                  completed_condition_waits_ := om_erase current (completed_condition_waits_ p1) |},
             if cw_timed_out completed then kTimedOut else kOk)
      | _, _ => (p1, kInvalidArgument)
      end
  end.

(** Undo of a registration that could not block: the waiter entries of the
    thread go and both counters drop, at zero they stay. *)
Definition wait_undo (condition_handle mutex_handle current : Z) p : PthreadService :=
  {| p with
       conditions_ :=
         om_update condition_handle (fun cv => drop_active {| cv with cv_waiters :=
           List.filter (fun w => negb (cw_thread w =? current)) (cv_waiters cv) |}) (conditions_ p);
       mutexes_ := om_update mutex_handle drop_condition_waiter (mutexes_ p) |}.

Definition wait_register (condition_handle mutex_handle current : Z) (deadline : option Z) p
    : PthreadService :=
  {| p with
       conditions_ :=
         om_update condition_handle (fun cv => mkConditionState
           (cv_waiters cv ++
              [mkConditionWaiter current condition_handle mutex_handle deadline false])
           (S (cv_active_waiter_count cv))) (conditions_ p);
       mutexes_ :=
         om_update mutex_handle (fun mu => {| mu with mx_condition_waiter_count :=
           S (mx_condition_waiter_count mu) |}) (mutexes_ p) |}.

(** Register, release the mutex and block; the paths on which the release or
    the block fails undo the registration. *)
Definition condition_wait_fresh (condition_handle mutex_handle current : Z) (deadline : option Z) p
    : PthreadService * KernelStatus :=
  match om_find condition_handle (conditions_ p), om_find mutex_handle (mutexes_ p) with
  | Some cv, Some mu =>
      if negb (mx_owner mu =? current) then (p, kPermissionDenied)
      else if negb (mx_recursion_count mu =? 1) then (p, kInvalidArgument)
      else
        let p1 := wait_register condition_handle mutex_handle current deadline p in
        let '(p2, unlock_status) := UnlockMutex mutex_handle p1 in
        if negb (status_eqb unlock_status kOk) then
          (wait_undo condition_handle mutex_handle current p2, unlock_status)
        else
          let key := ConditionWaitKey condition_handle current in
          let '(k, blocked) :=
            match deadline with
            | Some d => BlockCurrentUntil key d (pt_kernel p2)
            | None => BlockCurrent key (pt_kernel p2)
            end in
          let p3 := {| p2 with pt_kernel := k |} in
          if blocked then (p3, kWouldBlock)
          else
            let '(p4, relock_status) :=
              LockMutex mutex_handle false (wait_undo condition_handle mutex_handle current p3) in
            (p4, if status_eqb relock_status kOk then kBusy else relock_status)
  | _, _ => (p, kNotFound)
  end.

Definition WaitConditionInternal (condition_handle mutex_handle : Z) (deadline : option Z) p
    : PthreadService * KernelStatus :=
  match pt_current p with
  | None => (p, kBusy)
  | Some current =>
      let '(k, timeout_wakeup) :=
        ConsumeCurrentThreadTimeout (ConditionWaitKey condition_handle current) (pt_kernel p) in
      let '(p1, phase) :=
        wait_resume condition_handle mutex_handle current timeout_wakeup
          {| p with pt_kernel := k |} in
      match phase with
      | WaitReturn status => (p1, status)
      | WaitCompleting => wait_complete condition_handle mutex_handle current p1
      | WaitFresh => condition_wait_fresh condition_handle mutex_handle current deadline p1
      end
  end.

Definition WaitCondition (condition_handle mutex_handle : Z) p :=
  WaitConditionInternal condition_handle mutex_handle None p.

(** [now + timeout] in nanoseconds, saturated at the top of the range. *)
Definition relative_deadline (now timeout_microseconds : Z) : Z :=
  let remaining := if timeout_microseconds >? u64_max / 1000 then u64_max
                   else (timeout_microseconds * 1000)%u64 in
  if remaining >? u64_max - now then u64_max else (now + remaining)%u64.

Definition WaitConditionFor (condition_handle mutex_handle timeout_microseconds : Z) p :=
  let '(c, now) := MonotonicNanoseconds (clock_ (pt_kernel p)) in
  WaitConditionInternal condition_handle mutex_handle
    (Some (relative_deadline now timeout_microseconds))
    {| p with pt_kernel := with_clock (pt_kernel p) c |}.

(** The nanoseconds from [now] to a later [deadline], saturated; [--] on the
    unsigned second count wraps. *)
Definition timespec_remaining (deadline now : KernelTimespec) : Z :=
  let seconds_delta :=
    if ts_seconds now >=? 0 then ts_seconds deadline - ts_seconds now
    else
      let negative_now := (Z.opp (ts_seconds now + 1)%Z + 1)%u64 in
      if ts_seconds deadline >? u64_max - negative_now then u64_max
      else (ts_seconds deadline + negative_now)%u64 in
  let borrow := ts_nanoseconds deadline <? ts_nanoseconds now in
  let seconds := if borrow then (seconds_delta - 1)%u64 else seconds_delta in
  let nanoseconds :=
    if borrow then kNanosecondsPerSecond - (ts_nanoseconds now - ts_nanoseconds deadline)
    else ts_nanoseconds deadline - ts_nanoseconds now in
  if seconds <=? u64_max / kNanosecondsPerSecond then
    let remaining := (seconds * kNanosecondsPerSecond)%u64 in
    if nanoseconds >? u64_max - remaining then u64_max else (remaining + nanoseconds)%u64
  else u64_max.

Definition RealtimeDeadlineToMonotonic (deadline : KernelTimespec) (c : KernelClockService)
    : KernelClockService * option Z :=
  if (ts_seconds deadline <? 0) || (ts_nanoseconds deadline <? 0)
     || (ts_nanoseconds deadline >=? kNanosecondsPerSecond)
  then (c, None)
  else
    let '(c1, (status, now)) := ClockGettime c kClockRealtime in
    if negb (status_eqb status kOk) then (c1, None)
    else
      let '(c2, monotonic_now) := MonotonicNanoseconds c1 in
      if (ts_seconds deadline <? ts_seconds now)
         || ((ts_seconds deadline =? ts_seconds now)
             && (ts_nanoseconds deadline <=? ts_nanoseconds now))
      then (c2, Some monotonic_now)
      else
        let remaining := timespec_remaining deadline now in
        (c2, Some (if remaining >? u64_max - monotonic_now then u64_max
                   else (monotonic_now + remaining)%u64)).

Definition WaitConditionUntilRealtime (condition_handle mutex_handle : Z) (deadline : KernelTimespec) p
    : PthreadService * KernelStatus :=
  let '(c, monotonic_deadline) := RealtimeDeadlineToMonotonic deadline (clock_ (pt_kernel p)) in
  let p1 := {| p with pt_kernel := with_clock (pt_kernel p) c |} in
  match monotonic_deadline with
  | None => (p1, kInvalidArgument)
  | Some d => WaitConditionInternal condition_handle mutex_handle (Some d) p1
  end.

(** [while (!waiters.empty())]: overdue waiters are completed as timed out and
    do not use up the signal.  Returns what is left of the queue, the completed
    waiters' map and the wake keys. *)
Fixpoint signal_loop (handle now : Z) (broadcast : bool) (waiters : list ConditionWaiter)
    (completed : list (Z * ConditionWaiter)) (wake_keys : list string)
    : list ConditionWaiter * list (Z * ConditionWaiter) * list string :=
  match waiters with
  | [] => ([], completed, wake_keys)
  | w :: rest =>
      let keys := wake_keys ++ [ConditionWaitKey handle (cw_thread w)] in
      if match cw_deadline w with Some d => d <=? now | None => false end then
        signal_loop handle now broadcast rest
          (om_set (cw_thread w) {| w with cw_timed_out := true |} completed) keys
      else
        let completed' := om_set (cw_thread w) w completed in
        if broadcast then signal_loop handle now broadcast rest completed' keys
        else (rest, completed', keys)
  end.

Definition SignalCondition (handle : Z) (broadcast : bool) p : PthreadService * KernelStatus :=
  match om_find handle (conditions_ p) with
  | None => (p, kNotFound)
  | Some cv =>
      let '(c, now) := MonotonicNanoseconds (clock_ (pt_kernel p)) in
      let k := with_clock (pt_kernel p) c in
      let '(rest, completed, wake_keys) :=
        signal_loop handle now broadcast (cv_waiters cv) (completed_condition_waits_ p) [] in
      ({| p with
            conditions_ := om_update handle (fun cv => {| cv with cv_waiters := rest |}) (conditions_ p);
            completed_condition_waits_ := completed;
            pt_kernel := wake_each wake_keys k |}, kOk)
  end.

(** [PthreadConditionSnapshot{handle, waiting_count, active_waiter_count}]. *)
Definition GetCondition (handle : Z) p : option (Z * nat * nat) :=
  match om_find handle (conditions_ p) with
  | None => None
  | Some cv => Some (handle, length (cv_waiters cv), cv_active_waiter_count cv)
  end.

(** ** Thread exit *)

Definition exit_completed_wait (current : Z) p : PthreadService :=
  match om_find current (completed_condition_waits_ p) with
  | None => p
  | Some completed =>
      {| p with
           conditions_ := om_update (cw_condition_handle completed) drop_active (conditions_ p);
           mutexes_ := om_update (cw_mutex_handle completed) drop_condition_waiter (mutexes_ p);
           completed_condition_waits_ := om_erase current (completed_condition_waits_ p) |}
  end.

(** [for (auto& [handle, mutex] : mutexes_)]. *)
Fixpoint exit_mutexes (current : Z) (ms : list (Z * MutexState)) : list (Z * MutexState) * list string :=
  match ms with
  | [] => ([], [])
  | (handle, mu) :: rest =>
      let '(rest', keys) := exit_mutexes current rest in
      if negb (mx_owner mu =? current) then ((handle, mu) :: rest', keys)
      else
        let '(mu', wake_key) :=
          GrantNextMutexWaiterLocked handle
            {| mu with mx_owner := kInvalidKernelHandle; mx_recursion_count := 0;
                       mx_granted_waiters := mx_granted_waiters mu ∖ {[current]} |} in
        ((handle, mu') :: rest',
         if bool_decide (wake_key = EmptyString) then keys else wake_key :: keys)
  end.

Definition exit_rwlock (current handle : Z) rw : RwlockState * list string :=
  let was_writer := rw_writer rw =? current in
  let rw1 := if was_writer
             then {| rw with rw_writer := kInvalidKernelHandle; rw_granted_writer := None |} else rw in
  let was_reader := bool_decide (is_Some (om_find current (rw_readers rw1))) in
  let rw2 := if was_reader
             then {| rw1 with rw_readers := om_erase current (rw_readers rw1);
                              rw_granted_readers := rw_granted_readers rw1 ∖ {[current]} |} else rw1 in
  let rw3 := drop_rw_waiter current rw2 in
  if (was_writer || was_reader) && rwlock_free rw3 then GrantRwlockWaitersLocked handle rw3 []
  else (rw3, []).

Fixpoint exit_rwlocks (current : Z) (rs : list (Z * RwlockState)) : list (Z * RwlockState) * list string :=
  match rs with
  | [] => ([], [])
  | (handle, rw) :: rest =>
      let '(rw', keys) := exit_rwlock current handle rw in
      let '(rest', keys') := exit_rwlocks current rest in
      ((handle, rw') :: rest', keys ++ keys')
  end.

Definition Pthread_ExitCurrent (exit_value : Z) p : PthreadService * bool :=
  match pt_current p with
  | None => (p, false)
  | Some current =>
      let p1 := exit_completed_wait current p in
      let '(ms, mutex_keys) := exit_mutexes current (mutexes_ p1) in
      let '(rs, rwlock_keys) := exit_rwlocks current (rwlocks_ p1) in
      let k := wake_each (mutex_keys ++ rwlock_keys) (pt_kernel p1) in
      let '(k', exited) := ExitCurrent exit_value k in
      ({| p1 with mutexes_ := ms; rwlocks_ := rs; pt_kernel := k' |}, exited)
  end.

(** ** Thread-specific data *)

Fixpoint create_key_loop (index : nat) (keys : list (option Z)) : option nat :=
  match keys with
  | [] => None
  | Some _ :: rest => create_key_loop (S index) rest
  | None :: _ => Some index
  end.

Definition CreateKey (destructor_address : Z) p : PthreadService * (KernelStatus * Z) :=
  match create_key_loop 0 (keys_ p) with
  | None => (p, (kNoResources, 0))
  | Some index =>
      ({| p with keys_ := <[index := Some destructor_address]> (keys_ p) |}, (kOk, Z.of_nat index))
  end.

(** [key >= keys_.size() || !keys_[key]] fails. *)
Definition key_live (key : Z) p : bool :=
  (key <? Z.of_nat (length (keys_ p))) &&
  match keys_ p !! Z.to_nat key with Some (Some _) => true | _ => false end.

(** The values of one deleted key go; a thread left without values goes too. *)
Definition purge_key (key : Z) (values : list (Z * list (Z * Z))) : list (Z * list (Z * Z)) :=
  List.filter (fun e => match e.2 with [] => false | _ => true end)
    (map (fun e => (e.1, om_erase key e.2)) values).

Definition DeleteKey (key : Z) p : PthreadService * KernelStatus :=
  if negb (key_live key p) then (p, kNotFound)
  else ({| p with keys_ := <[Z.to_nat key := None]> (keys_ p);
                  specific_values_ := purge_key key (specific_values_ p) |}, kOk).

Definition SetSpecific (key value : Z) p : PthreadService * KernelStatus :=
  match pt_current p with
  | None => (p, kBusy)
  | Some current =>
      if negb (key_live key p) then (p, kNotFound)
      else
        let values := default [] (om_find current (specific_values_ p)) in
        ({| p with specific_values_ :=
              om_set current (om_set key value values) (specific_values_ p) |}, kOk)
  end.

Definition GetSpecific (key : Z) p : KernelStatus * Z :=
  match pt_current p with
  | None => (kBusy, 0)
  | Some current =>
      if negb (key_live key p) then (kNotFound, 0)
      else match om_find current (specific_values_ p) with
      | None => (kOk, 0)
      | Some values => (kOk, default 0 (om_find key values))
      end
  end.

Definition attribute_count p : nat := length (attributes_ p).

Definition key_count p : nat :=
  length (List.filter (fun k => match k with Some _ => true | None => false end) (keys_ p)).
End pthread.
