(* ===== verification/PthreadLocks.v ===== *)
(** The lock invariant of [kernel::PthreadService].

    Mutexes and read-write locks are owned consistently, and every thread queued
    on one is parked in the scheduler on the key made of that lock and that
    thread.  The second half ties the service to the scheduler: a lock that is
    handed over wakes the thread it is handed to, and no wake-up is lost. *)
From S2P Require Import Prelude Ranges OrderedMap WaitKeys HandleTable Objects Clock Scheduler.
From S2P Require Import SchedulerInv SchedulerProps WakeAll SharedBacking GuestMemory Pthread.

Implicit Types (p : PthreadService) (mu : MutexState) (rw : RwlockState) (k : Kernel).

(** ** Wait keys and their threads *)

Definition pthread_key (key : WaitKey) : Prop :=
  match key with
  | PthreadMutexKey _ _ | PthreadConditionKey _ _ | PthreadRwlockKey _ _ => True
  | _ => False
  end.

Definition waits_as (key : WaitKey) (t : Z) : Prop :=
  match key with
  | PthreadMutexKey _ u | PthreadConditionKey _ u | PthreadRwlockKey _ u => u = t
  | _ => True
  end.

Definition pthread_string (s : string) : Prop :=
  exists key, key_u64 key /\ s = key_string key /\ pthread_key key.

(** A thread blocked on a POSIX-threads key is the thread the key names. *)
Definition own_keys k : Prop :=
  forall t key, key_u64 key -> blocked_at k t (key_string key) -> waits_as key t.

Lemma thread_u64 k t th :
  kernel_ok k -> om_find t (threads_ (scheduler_ k)) = Some th -> 1 <= t <= u64_max.
Proof.
  intros Hk Ht. pose proof (proj1 (ko_threads _ Hk t) ltac:(eauto)) as Hl.
  by apply (ht_live _ (ko_table _ Hk)) in Hl as [? _].
Qed.

Lemma parked_u64 k t key : kernel_ok k -> parked k t key -> 1 <= t <= u64_max.
Proof. intros Hk (th & Ht & _). by eapply thread_u64. Qed.

Lemma current_u64 k t :
  kernel_ok k -> current_thread_ (scheduler_ k) = Some t -> 1 <= t <= u64_max.
Proof.
  intros Hk (th & Ht & _)%(so_current _ (ko_sched _ Hk)). by eapply thread_u64.
Qed.

Lemma current_not_parked k t key :
  kernel_ok k -> current_thread_ (scheduler_ k) = Some t -> ~ parked k t key.
Proof.
  intros Hk (th & Ht & Hs)%(so_current _ (ko_sched _ Hk)) (th' & Ht' & Hs' & _). congruence.
Qed.

Lemma own_keys_quiet k k' : quiet pthread_string k k' -> own_keys k -> own_keys k'.
Proof.
  intros [_ Hq] Ho t key Hu Hb.
  destruct key; try done; apply Ho; try done; apply Hq; try done; eexists; by split_and!.
Qed.

Section locks.
Context `{ClockSource}.

Lemma own_keys_block key t d k :
  kernel_ok k -> own_keys k -> key_u64 key -> waits_as key t ->
  current_thread_ (scheduler_ k) = Some t ->
  own_keys (BlockCurrentLocked (key_string key) d k).1.
Proof.
  intros Hk Ho Hu Hw Hc u key' Hu' Hb.
  destruct (decide (key_string key = key_string key')) as [Heq|Hne].
  - apply key_string_inj in Heq as <-; [|done..].
    destruct (decide (u = t)) as [->|Hut]; [done|]. apply Ho; [done|]. revert Hb.
    unfold BlockCurrentLocked. case_bool_decide; [done|].
    destruct (running_thread _) as [[h th]|] eqn:E; [|done].
    apply running_thread_Some in E as (Hc' & _). assert (h = t) as -> by congruence.
    unfold blocked_at. simpl. rewrite om_find_update. by rewrite decide_False.
  - apply Ho; [done|].
    by apply (BlockCurrentLocked_quiet (eq (key_string key')) (key_string key) d k).
Qed.

Lemma WakeBlockedThreads_blocked key m k t key' :
  kernel_ok k -> 0 <= m ->
  blocked_at (WakeBlockedThreads key m k).1 t key' -> blocked_at k t key'.
Proof.
  intros Hk Hm (th' & Ht' & Hs & Hw).
  destruct (om_find t (threads_ (scheduler_ k))) as [th|] eqn:Et.
  2:{ by rewrite WakeBlockedThreads_none in Ht'. }
  destruct (decide (key = EmptyString \/ m = 0)) as [Hd|Hd].
  { revert Ht'. unfold WakeBlockedThreads. destruct Hd as [->| ->].
    - rewrite bool_decide_eq_true_2 by done. intros. by exists th'.
    - rewrite orb_true_r. intros. by exists th'. }
  destruct (WakeBlockedThreads_thread key m k t th) as (th1 & Ht1 & Hc); [done|tauto|lia|done|].
  rewrite Ht' in Ht1. injection Ht1 as <-.
  destruct Hc as [(-> & _)|[[-> _]| ->]]; try done. by exists th.
Qed.

Lemma wake_each_ok keys k : kernel_ok k -> kernel_ok (wake_each keys k).
Proof.
  unfold wake_each. revert k. induction keys as [|s keys IH]; intros k Hk; simpl; [done|].
  apply IH. by apply WakeBlockedThreads_ok.
Qed.

Lemma wake_each_current keys k :
  current_thread_ (scheduler_ (wake_each keys k)) = current_thread_ (scheduler_ k).
Proof.
  unfold wake_each. revert k. induction keys as [|s keys IH]; intros k; simpl; [done|].
  by rewrite IH, WakeBlockedThreads_current.
Qed.

Lemma wake_each_own keys k : kernel_ok k -> own_keys k -> own_keys (wake_each keys k).
Proof.
  unfold wake_each. revert k. induction keys as [|s keys IH]; intros k Hk Ho; simpl; [done|].
  apply IH; [by apply WakeBlockedThreads_ok|].
  intros t key Hu Hb. apply Ho; [done|]. by apply (WakeBlockedThreads_blocked s 1).
Qed.

Lemma wake_each_quiet (P : string -> Prop) keys k :
  kernel_ok k -> Forall (fun s => ~ P s) keys -> quiet P k (wake_each keys k).
Proof.
  unfold wake_each. intros Hk Hf. revert k Hk.
  induction Hf as [|s keys Hs _ IH]; intros k Hk; simpl; [auto with kernel|].
  eapply quiet_trans; [by apply (WakeBlockedThreads_quiet P s 1)|].
  apply IH. by apply WakeBlockedThreads_ok.
Qed.

(** Each thread whose key is woken becomes ready. *)
Lemma wake_each_ready keys k key t :
  kernel_ok k -> own_keys k -> key_u64 key -> pthread_key key -> waits_as key t ->
  key_string key ∈ keys -> parked k t (key_string key) ->
  in_state (scheduler_ (wake_each keys k)) t kReady.
Proof.
  unfold wake_each. intros Hk Ho Hu Hp Hw Hin. revert k Hk Ho.
  induction keys as [|s keys IH]; intros k Hk Ho Hpk; [by apply elem_of_nil in Hin|]. simpl.
  assert (Hk1 : kernel_ok (WakeBlockedThreads s 1 k).1) by (by apply WakeBlockedThreads_ok).
  destruct (decide (s = key_string key)) as [->|Hne].
  - assert (Hr : in_state (scheduler_ (WakeBlockedThreads (key_string key) 1 k).1) t kReady).
    { apply wake_one_ready; [done|by apply key_string_nonempty| |done].
      intros u Hb. apply Ho in Hb; [|done]. destruct key; simpl in *; first [done|congruence]. }
    clear IH Hin Hpk. revert Hr Hk1. generalize (WakeBlockedThreads (key_string key) 1 k).1.
    clear k Hk Ho. induction keys as [|s keys IH]; intros k Hr Hk; simpl; [done|].
    apply IH; [|by apply WakeBlockedThreads_ok]. destruct Hr as (th & Ht & Hs).
    destruct (decide (s = EmptyString)) as [->|Hse].
    { unfold WakeBlockedThreads. rewrite bool_decide_eq_true_2 by done. by exists th. }
    destruct (WakeBlockedThreads_thread s 1 k t th) as (th' & Ht' & Hc); [done|done|lia|done|].
    exists th'. split; [done|]. destruct Hc as [(-> & _)|[[-> _]| ->]]; done.
  - apply IH; [|done| |].
    + apply elem_of_cons in Hin as [Heq|Hin]; [congruence|done].
    + intros u key' Hu' Hb. apply Ho; [done|]. by apply (WakeBlockedThreads_blocked s 1).
    + by apply (WakeBlockedThreads_quiet (eq (key_string key)) s 1 k).
Qed.

(** ** One mutex *)

Record mutex_ok mu : Prop := {
  mo_count : 0 <= mx_recursion_count mu <= u32_max;
  mo_owned : mx_owner mu = 0 <-> mx_recursion_count mu = 0;
  mo_granted t : t ∈ mx_granted_waiters mu -> t = mx_owner mu /\ t <> 0;
  mo_nodup : NoDup (mx_waiters mu);
  mo_owner : mx_owner mu ∉ mx_waiters mu;
  mo_queue : mx_waiters mu <> [] -> mx_owner mu <> 0;
  mo_type : IsMutexTypeValid (mx_type mu) = true;
  mo_protocol : IsMutexProtocolValid (mx_protocol mu) = true
}.

(** ** One read-write lock *)

Record rwlock_ok rw : Prop := {
  ro_readers : om_sorted (rw_readers rw);
  ro_count t c : om_find t (rw_readers rw) = Some c -> 1 <= c <= u32_max /\ t <> 0;
  ro_exclusive : rw_writer rw <> 0 -> rw_readers rw = [];
  ro_nodup : NoDup (rq_thread <$> rw_waiters rw);
  ro_writer : rw_writer rw ∉ rq_thread <$> rw_waiters rw;
  ro_reader t : is_Some (om_find t (rw_readers rw)) -> t ∉ rq_thread <$> rw_waiters rw;
  ro_queue : rw_waiters rw <> [] -> rwlock_free rw = false
}.

(** ** Every lock *)

Record mutexes_ok (ms : list (Z * MutexState)) : Prop := {
  mso_sorted : om_sorted ms;
  mso_each h mu : om_find h ms = Some mu -> is_u64 h /\ mutex_ok mu
}.

Record rwlocks_ok (rs : list (Z * RwlockState)) : Prop := {
  rso_sorted : om_sorted rs;
  rso_each h rw : om_find h rs = Some rw -> is_u64 h /\ rwlock_ok rw
}.

(** [t] is queued on the lock whose wait key for [t] is [key]. *)
Inductive queued (ms : list (Z * MutexState)) (rs : list (Z * RwlockState)) : Z -> WaitKey -> Prop :=
| queued_mutex h mu t :
    om_find h ms = Some mu -> t ∈ mx_waiters mu -> queued ms rs t (PthreadMutexKey h t)
| queued_rwlock h rw t :
    om_find h rs = Some rw -> t ∈ (rq_thread <$> rw_waiters rw) ->
    queued ms rs t (PthreadRwlockKey h t).

Definition queues_parked ms rs k : Prop :=
  forall t key, queued ms rs t key -> parked k t (key_string key).

Record locks_ok ms rs k : Prop := {
  lo_kernel : kernel_ok k;
  lo_own : own_keys k;
  lo_mutexes : mutexes_ok ms;
  lo_rwlocks : rwlocks_ok rs;
  lo_parked : queues_parked ms rs k
}.

Definition queue_key ms rs (s : string) : Prop := exists t key, queued ms rs t key /\ s = key_string key.

Lemma queued_u64 ms rs k t key :
  kernel_ok k -> mutexes_ok ms -> rwlocks_ok rs -> queues_parked ms rs k ->
  queued ms rs t key -> key_u64 key /\ pthread_key key /\ waits_as key t.
Proof.
  intros Hk Hm Hr Hp Hq. pose proof (parked_u64 _ _ _ Hk (Hp _ _ Hq)).
  destruct Hq as [h mu t Hf _|h rw t Hf _]; split_and!; simpl; try done.
  - split; [by apply (mso_each _ Hm) in Hf as [? _]|u64_lia].
  - split; [by apply (rso_each _ Hr) in Hf as [? _]|u64_lia].
Qed.

Lemma queue_key_pthread ms rs k s : locks_ok ms rs k -> queue_key ms rs s -> pthread_string s.
Proof.
  intros [Hk _ Hm Hr Hp] (t & key & Hq & ->). exists key.
  destruct (queued_u64 _ _ _ _ _ Hk Hm Hr Hp Hq) as (? & ? & _). by split_and!.
Qed.

(** A kernel step that is quiet for every POSIX-threads key keeps the invariant. *)
Lemma locks_ok_kernel ms rs k k' :
  kernel_ok k' -> quiet pthread_string k k' -> locks_ok ms rs k -> locks_ok ms rs k'.
Proof.
  intros Hk' Hq Hl. pose proof Hl as [Hk Ho Hm Hr Hp]. split; try done.
  - by eapply own_keys_quiet.
  - intros t key Hqu. destruct Hq as [Hq _]. apply Hq; [|by apply Hp].
    eapply queue_key_pthread; [exact Hl|]. by exists t, key.
Qed.

(** Waking keys nobody is queued on keeps the invariant. *)
Lemma locks_ok_wake ms rs k keys :
  Forall (fun s => ~ queue_key ms rs s) keys -> locks_ok ms rs k -> locks_ok ms rs (wake_each keys k).
Proof.
  intros Hf [Hk Ho Hm Hr Hp]. split; try done.
  - by apply wake_each_ok.
  - by apply wake_each_own.
  - intros t key Hqu. destruct (wake_each_quiet (queue_key ms rs) keys k Hk Hf) as [Hq _].
    apply Hq; [by exists t, key|by apply Hp].
Qed.

(** Blocking the running thread on its own key leaves the others parked and
    parks it. *)
Lemma parked_block k t key u key' :
  kernel_ok k -> current_thread_ (scheduler_ k) = Some t -> key_string key <> EmptyString ->
  (u = t /\ key' = key_string key \/ parked k u key') ->
  parked (BlockCurrentLocked (key_string key) None k).1 u key'.
Proof.
  intros Hk Hc Hne Hor.
  pose proof (proj1 (so_current _ (ko_sched _ Hk) t) Hc) as (th & Ht & Hs).
  unfold BlockCurrentLocked. rewrite bool_decide_eq_false_2 by done.
  rewrite (proj2 (running_thread_Some _ t th)) by done. unfold parked. simpl.
  rewrite om_find_update. destruct Hor as [[-> ->]|Hp].
  - rewrite decide_True, Ht by done. simpl. eexists. by split_and!.
  - rewrite decide_False; [done|]. intros ->. by eapply current_not_parked.
Qed.
End locks.

(** Every lock operation of [kernel::PthreadService] preserves the lock
    invariant, with the effect of each on the branch that matters. *)


(** ** Changing one lock *)

Section one_lock.
Context (ms : list (Z * MutexState)) (rs : list (Z * RwlockState)) (k : Kernel).

Lemma mutexes_ok_update h f :
  mutexes_ok ms -> (forall mu, om_find h ms = Some mu -> mutex_ok mu -> mutex_ok (f mu)) ->
  mutexes_ok (om_update h f ms).
Proof.
  intros [Hs He] Hf. split; [by apply om_update_sorted|].
  intros h' mu'. rewrite om_find_update. case_decide as Hd; [|apply He]. subst h'.
  destruct (om_find h ms) as [mu|] eqn:E; [|done]. intros [= <-].
  destruct (He h mu E). split; [done|]. by apply Hf.
Qed.

Lemma rwlocks_ok_update h f :
  rwlocks_ok rs -> (forall rw, om_find h rs = Some rw -> rwlock_ok rw -> rwlock_ok (f rw)) ->
  rwlocks_ok (om_update h f rs).
Proof.
  intros [Hs He] Hf. split; [by apply om_update_sorted|].
  intros h' rw'. rewrite om_find_update. case_decide as Hd; [|apply He]. subst h'.
  destruct (om_find h rs) as [rw|] eqn:E; [|done]. intros [= <-].
  destruct (He h rw E). split; [done|]. by apply Hf.
Qed.

Lemma queued_update_mutex h f t key :
  queued (om_update h f ms) rs t key ->
  queued ms rs t key \/
  exists mu, om_find h ms = Some mu /\ key = PthreadMutexKey h t /\ t ∈ mx_waiters (f mu).
Proof.
  inversion 1 as [h' mu t' Hf Ht|h' rw t' Hf Ht]; subst; [|left; by econstructor].
  rewrite om_find_update in Hf. case_decide as Hd; [subst h'|left; by econstructor].
  destruct (om_find h ms) as [mu0|] eqn:E; [|done]. injection Hf as <-. right. eauto.
Qed.

Lemma queued_update_rwlock h f t key :
  queued ms (om_update h f rs) t key ->
  queued ms rs t key \/
  exists rw, om_find h rs = Some rw /\ key = PthreadRwlockKey h t /\
    t ∈ rq_thread <$> rw_waiters (f rw).
Proof.
  inversion 1 as [h' mu t' Hf Ht|h' rw t' Hf Ht]; subst; [left; by econstructor|].
  rewrite om_find_update in Hf. case_decide as Hd; [subst h'|left; by econstructor].
  destruct (om_find h rs) as [rw0|] eqn:E; [|done]. injection Hf as <-. right. eauto.
Qed.

(** A change that adds no waiter. *)
Lemma locks_update_mutex h f :
  locks_ok ms rs k ->
  (forall mu, om_find h ms = Some mu -> mutex_ok mu ->
     mutex_ok (f mu) /\ (forall t, t ∈ mx_waiters (f mu) -> t ∈ mx_waiters mu)) ->
  locks_ok (om_update h f ms) rs k.
Proof.
  intros [Hk Ho Hm Hr Hp] Hf. split; try done.
  - apply mutexes_ok_update; [done|]. intros mu E Hmu. by apply (Hf mu).
  - intros t key [Hq|(mu & E & -> & Ht)]%queued_update_mutex; apply Hp; [done|].
    econstructor; [exact E|]. destruct (mso_each _ Hm _ _ E) as [_ Hok]. by apply (Hf mu E Hok).
Qed.

Lemma locks_update_rwlock h f :
  locks_ok ms rs k ->
  (forall rw, om_find h rs = Some rw -> rwlock_ok rw ->
     rwlock_ok (f rw) /\
     (forall t, t ∈ rq_thread <$> rw_waiters (f rw) -> t ∈ rq_thread <$> rw_waiters rw)) ->
  locks_ok ms (om_update h f rs) k.
Proof.
  intros [Hk Ho Hm Hr Hp] Hf. split; try done.
  - apply rwlocks_ok_update; [done|]. intros rw E Hrw. by apply (Hf rw).
  - intros t key [Hq|(rw & E & -> & Ht)]%queued_update_rwlock; apply Hp; [done|].
    econstructor; [exact E|]. destruct (rso_each _ Hr _ _ E) as [_ Hok]. by apply (Hf rw E Hok).
Qed.

Lemma locks_find_mutex h mu :
  locks_ok ms rs k -> om_find h ms = Some mu -> is_u64 h /\ mutex_ok mu.
Proof. intros Hl. apply (mso_each _ (lo_mutexes _ _ _ Hl)). Qed.

Lemma locks_find_rwlock h rw :
  locks_ok ms rs k -> om_find h rs = Some rw -> is_u64 h /\ rwlock_ok rw.
Proof. intros Hl. apply (rso_each _ (lo_rwlocks _ _ _ Hl)). Qed.

(** The running thread is in no queue. *)
Lemma current_not_queued t key :
  locks_ok ms rs k -> current_thread_ (scheduler_ k) = Some t -> ~ queued ms rs t key.
Proof.
  intros Hl Hc Hq. eapply current_not_parked; [apply Hl|exact Hc|]. by apply Hl.
Qed.

Lemma waiter_u64 h mu t :
  locks_ok ms rs k -> om_find h ms = Some mu -> t ∈ mx_waiters mu -> 1 <= t <= u64_max.
Proof.
  intros Hl Hf Ht. eapply parked_u64; [apply Hl|]. apply Hl. by econstructor.
Qed.

Lemma rw_waiter_u64 h rw t :
  locks_ok ms rs k -> om_find h rs = Some rw -> t ∈ rq_thread <$> rw_waiters rw ->
  1 <= t <= u64_max.
Proof.
  intros Hl Hf Ht. eapply parked_u64; [apply Hl|]. apply Hl. by eapply queued_rwlock.
Qed.
End one_lock.

(** A key made of a lock and a thread is a queue key exactly when that thread is
    queued there. *)
Lemma queue_key_mutex ms rs k h t :
  locks_ok ms rs k -> is_u64 h -> is_u64 t ->
  queue_key ms rs (MutexWaitKey h t) ->
  exists mu, om_find h ms = Some mu /\ t ∈ mx_waiters mu.
Proof.
  intros Hl Hh Ht (u & key & Hq & Heq).
  destruct (queued_u64 ms rs k u key) as (Hu & _); [apply Hl..|done|].
  apply (key_string_inj (PthreadMutexKey h t)) in Heq; [|done..]. subst key.
  inversion Hq; subst. eauto.
Qed.

Lemma queue_key_rwlock ms rs k h t :
  locks_ok ms rs k -> is_u64 h -> is_u64 t ->
  queue_key ms rs (RwlockWaitKey h t) ->
  exists rw, om_find h rs = Some rw /\ t ∈ rq_thread <$> rw_waiters rw.
Proof.
  intros Hl Hh Ht (u & key & Hq & Heq).
  destruct (queued_u64 ms rs k u key) as (Hu & _); [apply Hl..|done|].
  apply (key_string_inj (PthreadRwlockKey h t)) in Heq; [|done..]. subst key.
  inversion Hq; subst. eauto.
Qed.

(** ** Handing a mutex over *)

(** A mutex nobody owns, as it is between the release and the grant. *)
Record released mu : Prop := {
  rl_owner : mx_owner mu = 0;
  rl_count : mx_recursion_count mu = 0;
  rl_granted : mx_granted_waiters mu = ∅;
  rl_nodup : NoDup (mx_waiters mu);
  rl_nonzero : 0 ∉ mx_waiters mu;
  rl_type : IsMutexTypeValid (mx_type mu) = true;
  rl_protocol : IsMutexProtocolValid (mx_protocol mu) = true
}.

Lemma Grant_ok h mu :
  released mu ->
  let '(mu', key) := GrantNextMutexWaiterLocked h mu in
  mutex_ok mu' /\ (forall t, t ∈ mx_waiters mu' -> t ∈ mx_waiters mu) /\
  match mx_waiters mu with
  | [] => mu' = mu /\ key = EmptyString
  | t :: rest => mx_owner mu' = t /\ mx_recursion_count mu' = 1 /\ mx_waiters mu' = rest /\
      mx_granted_waiters mu' = {[t]} /\ key = MutexWaitKey h t /\ t ∉ rest
  end.
Proof.
  intros [Ho Hc Hg Hnd Hnz Hty Hpr]. unfold GrantNextMutexWaiterLocked.
  destruct (mx_waiters mu) as [|t rest] eqn:Ew.
  - split_and!; [|by rewrite Ew|done|done].
    split; rewrite ?Ew, ?Hc, ?Ho, ?Hg; try done.
  - apply NoDup_cons in Hnd as [Hni Hnd]. apply not_elem_of_cons in Hnz as [Hnz _].
    rewrite Hg, (right_id_L ∅ (∪)). simpl.
    split_and!; try done.
    + split; simpl; try done; try (unfold u32_max; lia).
      intros u ->%elem_of_singleton. done.
    + intros u Hu. apply elem_of_cons. by right.
Qed.

(** The release of a mutex by its owner. *)
Lemma release_released current mu (c : Z) :
  mutex_ok mu -> mx_owner mu = current -> 0 ∉ mx_waiters mu -> c = 0 ->
  released {| mu with mx_recursion_count := c; mx_owner := kInvalidKernelHandle;
                      mx_granted_waiters := mx_granted_waiters mu ∖ {[current]} |}.
Proof.
  intros Hok Ho Hz Hc. split; simpl; try done; try apply Hok.
  apply set_eq. intros t. rewrite elem_of_difference, elem_of_singleton.
  split; [intros [[Ht _]%(mo_granted _ Hok) Hn]; congruence|set_solver].
Qed.

Section operations.
Context `{ClockSource}.

Definition locks p : Prop := locks_ok (mutexes_ p) (rwlocks_ p) (pt_kernel p).

Lemma zero_not_waiter ms rs k h mu :
  locks_ok ms rs k -> om_find h ms = Some mu -> 0 ∉ mx_waiters mu.
Proof. intros Hl Hf Hin. pose proof (waiter_u64 _ _ _ _ _ _ Hl Hf Hin). lia. Qed.

(** Giving a released mutex to the next waiter, and waking that waiter. *)
Lemma locks_grant ms rs k h mu mu1 :
  locks_ok ms rs k -> om_find h ms = Some mu -> released mu1 -> mx_waiters mu1 = mx_waiters mu ->
  let '(mu', key) := GrantNextMutexWaiterLocked h mu1 in
  locks_ok (om_update h (fun _ => mu') ms) rs
    (if bool_decide (key = EmptyString) then k else (WakeBlockedThreads key 1 k).1).
Proof.
  intros Hl Hf Hrel Hw. pose proof (Grant_ok h mu1 Hrel) as Hg.
  destruct (GrantNextMutexWaiterLocked h mu1) as [mu' key].
  destruct Hg as (Hok & Hsub & Hcase). rewrite Hw in Hsub, Hcase.
  assert (Hl1 : locks_ok (om_update h (fun _ => mu') ms) rs k).
  { apply locks_update_mutex; [done|]. intros mu0 E _. rewrite Hf in E. by injection E as <-. }
  case_bool_decide as Hkey; [done|].
  apply (locks_ok_wake _ _ _ [key]); [|done]. apply Forall_singleton. intros Hq.
  destruct (mx_waiters mu) as [|t rest] eqn:Ew; [by destruct Hcase|].
  destruct Hcase as (_ & _ & Hrest & _ & -> & Hni).
  pose proof (waiter_u64 _ _ _ _ _ t Hl Hf ltac:(rewrite Ew; apply list_elem_of_here)).
  destruct (locks_find_mutex _ _ _ _ _ Hl Hf) as [Hu _].
  apply (queue_key_mutex _ _ k) in Hq as (mu2 & E & Ht); [|done|done|u64_lia].
  rewrite om_find_update, decide_True, Hf in E by done. injection E as <-.
  by rewrite Hrest in Ht.
Qed.

Lemma set_mutex_locks h mu mu' p :
  locks p -> om_find h (mutexes_ p) = Some mu -> mutex_ok mu' ->
  (forall t, t ∈ mx_waiters mu' -> t ∈ mx_waiters mu) -> locks (set_mutex h mu' p).
Proof.
  intros Hl Hf Hok Hsub. apply locks_update_mutex; [done|].
  intros mu0 E _. rewrite Hf in E. by injection E as <-.
Qed.

Lemma recurse_mutex_locks h mu p :
  locks p -> om_find h (mutexes_ p) = Some mu -> mx_owner mu <> 0 ->
  locks (recurse_mutex h mu p).1.
Proof.
  intros Hl Hf Ho. unfold recurse_mutex. destruct (_ =? u32_max) eqn:E; [done|].
  destruct (locks_find_mutex _ _ _ _ _ Hl Hf) as [_ Hok]. pose proof (mo_count _ Hok).
  pose proof (mo_owned _ Hok). eapply set_mutex_locks; [done|done| |done].
  split; simpl; try apply Hok; try lia.
Qed.

(** Queueing the running thread on a mutex somebody else owns, and parking it. *)
Lemma lock_blocks h mu p current :
  locks p -> om_find h (mutexes_ p) = Some mu -> pt_current p = Some current ->
  mx_owner mu <> 0 -> mx_owner mu <> current ->
  LockMutex h false p =
    ({| (set_mutex h {| mu with mx_waiters := mx_waiters mu ++ [current] |} p) with
        pt_kernel := (BlockCurrent (MutexWaitKey h current) (pt_kernel p)).1 |}, kWouldBlock) /\
  locks (LockMutex h false p).1.
Proof.
  intros Hl Hf Hc Ho Hne. pose proof (lo_kernel _ _ _ Hl) as Hk.
  assert (Hni : current ∉ mx_waiters mu).
  { intros Hin. eapply current_not_queued; [exact Hl|exact Hc|]. by econstructor. }
  destruct (locks_find_mutex _ _ _ _ _ Hl Hf) as [Hu Hok].
  pose proof (current_u64 _ _ Hk Hc) as Hcu.
  assert (Hkey : MutexWaitKey h current <> EmptyString) by (apply (key_string_nonempty (PthreadMutexKey h current))).
  assert (Heq : LockMutex h false p =
    ({| (set_mutex h {| mu with mx_waiters := mx_waiters mu ++ [current] |} p) with
        pt_kernel := (BlockCurrent (MutexWaitKey h current) (pt_kernel p)).1 |}, kWouldBlock)).
  { unfold LockMutex. rewrite Hc, Hf. replace (mx_owner mu =? kInvalidKernelHandle) with false
      by (unfold kInvalidKernelHandle; lia). replace (mx_owner mu =? current) with false by lia.
    rewrite bool_decide_eq_false_2 by done. simpl pt_kernel. unfold BlockCurrent.
    pose proof (proj1 (so_current _ (ko_sched _ Hk) current) Hc) as (th & Ht & Hs).
    unfold BlockCurrentLocked. rewrite bool_decide_eq_false_2 by done.
    by rewrite (proj2 (running_thread_Some _ current th)). }
  split; [exact Heq|]. rewrite Heq. simpl fst.
  destruct Hl as [_ Hown Hm Hr Hp]. unfold locks. simpl. split; simpl.
  - by apply BlockCurrentLocked_ok.
  - eapply (own_keys_block (PthreadMutexKey h current)); try done. simpl. u64_lia.
  - apply mutexes_ok_update; [done|]. intros mu0 E _. rewrite Hf in E. injection E as <-.
    destruct Hok as [Hcnt How Hgr Hnd Hno Hqu Hty Hpr]. split; simpl; try done.
    + apply NoDup_app. split_and!; [done| |apply NoDup_singleton].
      intros x Hx ->%list_elem_of_singleton. done.
    + rewrite not_elem_of_app, not_elem_of_cons. split_and!; [done|done|apply not_elem_of_nil].
  - done.
  - intros t key Hq. apply (parked_block _ current (PthreadMutexKey h current)); try done.
    apply queued_update_mutex in Hq as [Hq|(mu0 & E & -> & Ht)]; [right; by apply Hp|].
    rewrite Hf in E. injection E as <-. simpl in Ht.
    apply elem_of_app in Ht as [Ht| ->%list_elem_of_singleton]; [right|by left].
    apply Hp. by econstructor.
Qed.

Lemma LockMutex_locks h try_only p : locks p -> locks (LockMutex h try_only p).1.
Proof.
  intros Hl. destruct (pt_current p) as [current|] eqn:Hc; [|by unfold LockMutex; rewrite Hc].
  destruct (om_find h (mutexes_ p)) as [mu|] eqn:Hf; [|by unfold LockMutex; rewrite Hc, Hf].
  destruct (locks_find_mutex _ _ _ _ _ Hl Hf) as [Hu Hok].
  pose proof (current_u64 _ _ (lo_kernel _ _ _ Hl) Hc) as Hcu.
  destruct (decide (mx_owner mu <> 0 /\ mx_owner mu <> current /\ try_only = false))
    as [(Ho & Hne & ->)|Hcase]; [by eapply lock_blocks|].
  unfold LockMutex. rewrite Hc, Hf. unfold kInvalidKernelHandle.
  destruct (mx_owner mu =? 0) eqn:E0.
  { eapply set_mutex_locks; [done|done| |done]. destruct Hok as [Hcnt How Hgr Hnd Hno Hqu Hty Hpr].
    split; simpl; try done; try (unfold u32_max; lia).
    - intros t Ht. destruct (Hgr t Ht). lia.
    - intros Hin. assert (mx_waiters mu <> []) as Hw by (by intros Hw; rewrite Hw in Hin; apply elem_of_nil in Hin).
      apply Hqu in Hw. lia. }
  destruct (mx_owner mu =? current) eqn:E1.
  - case_bool_decide as Hg.
    + eapply set_mutex_locks; [done|done| |done]. destruct Hok as [Hcnt How Hgr Hnd Hno Hqu Hty Hpr]. split; simpl; try done.
      intros t [Ht _]%elem_of_difference. by apply Hgr.
    + assert (mx_owner mu <> 0) by lia. pose proof (recurse_mutex_locks h mu p Hl Hf).
      repeat split_match; simpl; auto.
  - destruct try_only; [done|]. destruct Hcase. split_and!; [lia|lia|done].
Qed.

Lemma UnlockMutex_locks h p : locks p -> locks (UnlockMutex h p).1.
Proof.
  intros Hl. unfold UnlockMutex. destruct (pt_current p) as [current|] eqn:Hc; [|done].
  destruct (om_find h (mutexes_ p)) as [mu|] eqn:Hf; [|done].
  destruct (locks_find_mutex _ _ _ _ _ Hl Hf) as [Hu Hok].
  destruct (mx_owner mu =? current) eqn:E0; [|done]. simpl.
  destruct (mx_recursion_count mu =? 0) eqn:E1; [done|].
  destruct (mx_recursion_count mu - 1 =? 0) eqn:E2; simpl.
  - pose proof (locks_grant _ _ _ h mu
      {| mu with mx_recursion_count := mx_recursion_count mu - 1; mx_owner := kInvalidKernelHandle;
                 mx_granted_waiters := mx_granted_waiters mu ∖ {[current]} |} Hl Hf) as Hg.
    destruct (GrantNextMutexWaiterLocked _ _) as [mu' key].
    assert (Hl' : locks_ok (om_update h (fun _ => mu') (mutexes_ p)) (rwlocks_ p)
      (if bool_decide (key = EmptyString) then pt_kernel p
       else (WakeBlockedThreads key 1 (pt_kernel p)).1)).
    { apply Hg; [|done]. apply release_released; [done|lia|by eapply zero_not_waiter|lia]. }
    by case_bool_decide.
  - eapply set_mutex_locks; [done|done| |done]. pose proof (mo_count _ Hok).
    pose proof (mo_owned _ Hok). pose proof (current_u64 _ _ (lo_kernel _ _ _ Hl) Hc).
    split; simpl; try apply Hok; lia.
Qed.
End operations.
