(* ===== verification/PthreadRwlocks.v ===== *)
(** Read-write locks and thread exit: the lock invariant is preserved, and what
    a release does to the queue. *)
From S2P Require Import Prelude Ranges OrderedMap WaitKeys HandleTable Objects Clock Scheduler.
From S2P Require Import SchedulerInv SchedulerProps WakeAll SharedBacking GuestMemory Pthread.
From S2P Require Import PthreadLocks.

Implicit Types (p : PthreadService) (mu : MutexState) (rw : RwlockState) (k : Kernel).

(** ** One read-write lock *)

(** The queue's threads. *)
Definition rw_queue rw : list Z := rq_thread <$> rw_waiters rw.

(** [rwlock_ok] without the clause that a queue needs a holder, which does not
    hold between a release and the grant that follows it. *)
Record rwlock_pre rw : Prop := {
  rp_readers : om_sorted (rw_readers rw);
  rp_count t c : om_find t (rw_readers rw) = Some c -> 1 <= c <= u32_max /\ t <> 0;
  rp_exclusive : rw_writer rw <> 0 -> rw_readers rw = [];
  rp_nodup : NoDup (rw_queue rw);
  rp_writer : rw_writer rw ∉ rw_queue rw;
  rp_reader t : is_Some (om_find t (rw_readers rw)) -> t ∉ rw_queue rw
}.

Lemma rwlock_ok_pre rw : rwlock_ok rw -> rwlock_pre rw.
Proof. intros []. by split. Qed.

Lemma rwlock_pre_ok rw : rwlock_pre rw -> (rw_waiters rw <> [] -> rwlock_free rw = false) -> rwlock_ok rw.
Proof. intros []. by split. Qed.

Lemma rwlock_free_true rw : rwlock_free rw = true <-> rw_writer rw = 0 /\ rw_readers rw = [].
Proof.
  unfold rwlock_free, kInvalidKernelHandle. rewrite andb_true_iff, Z.eqb_eq.
  destruct (rw_readers rw); naive_solver.
Qed.

(** The threads at the front of the queue that ask to read, and the rest. *)
Fixpoint front_readers (ws : list RwlockWaiter) : list Z :=
  match ws with
  | w :: rest => if rq_write w then [] else rq_thread w :: front_readers rest
  | [] => []
  end.

Fixpoint behind_readers (ws : list RwlockWaiter) : list RwlockWaiter :=
  match ws with
  | w :: rest => if rq_write w then ws else behind_readers rest
  | [] => []
  end.

Lemma front_behind ws : rq_thread <$> ws = front_readers ws ++ (rq_thread <$> behind_readers ws).
Proof.
  induction ws as [|w ws IH]; [done|]. rewrite fmap_cons. cbn [front_readers behind_readers].
  destruct (rq_write w); [done|]. by rewrite IH.
Qed.

Lemma grant_readers_spec h ws rw keys :
  om_sorted (rw_readers rw) -> NoDup (front_readers ws) ->
  (forall t, t ∈ front_readers ws -> om_find t (rw_readers rw) = None) ->
  let '(rw', keys') := grant_readers h ws rw keys in
  keys' = keys ++ (RwlockWaitKey h <$> front_readers ws) /\
  rw_waiters rw' = behind_readers ws /\ rw_writer rw' = rw_writer rw /\
  rw_granted_writer rw' = rw_granted_writer rw /\
  rw_guest_object_slot rw' = rw_guest_object_slot rw /\
  om_sorted (rw_readers rw') /\
  (forall t, t ∈ rw_granted_readers rw' <-> t ∈ front_readers ws \/ t ∈ rw_granted_readers rw) /\
  (forall t, om_find t (rw_readers rw') =
     if decide (t ∈ front_readers ws) then Some 1 else om_find t (rw_readers rw)).
Proof.
  revert rw keys. induction ws as [|w ws IH]; intros rw keys Hs Hnd Hfresh; simpl.
  { split_and!; try done; [by rewrite app_nil_r|]. intros t. rewrite elem_of_nil. tauto. }
  destruct (rq_write w) eqn:Ew.
  { split_and!; try done; [by rewrite app_nil_r|]. intros t. rewrite elem_of_nil. tauto. }
  simpl in Hnd. rewrite Ew in Hnd. apply NoDup_cons in Hnd as [Hni Hnd]. simpl in Hfresh.
  rewrite Ew in Hfresh.
  assert (Hw : om_find (rq_thread w) (rw_readers rw) = None) by apply Hfresh, list_elem_of_here.
  match goal with |- context [grant_readers h ws ?r ?ks] => specialize (IH r ks) end.
  destruct (grant_readers h ws _ _) as [rw' keys']. simpl in IH.
  destruct IH as (-> & Hq & Hwr & Hgw & Hsl & Hs' & Hg & Hf).
  - by apply om_emplace_sorted.
  - done.
  - intros t Ht. rewrite om_find_emplace by done. rewrite decide_False by (by intros ->).
    apply Hfresh, elem_of_cons. by right.
  - split_and!; try done; try (by rewrite <- app_assoc).
    + intros t. rewrite Hg, elem_of_union, elem_of_singleton, elem_of_cons. tauto.
    + intros t. rewrite Hf, om_find_emplace by done.
      repeat case_decide; try done; set_solver.
Qed.

(** The effect of a grant on a free lock: a front writer, or every front reader,
    leaves the queue and holds the lock. *)
Lemma GrantRwlock_spec h rw keys :
  rwlock_pre rw -> rwlock_free rw = true -> 0 ∉ rw_queue rw ->
  let '(rw', keys') := GrantRwlockWaitersLocked h rw keys in
  rwlock_ok rw' /\
  exists granted, rw_queue rw = granted ++ rw_queue rw' /\
    keys' = keys ++ (RwlockWaitKey h <$> granted) /\
    match rw_waiters rw with
    | [] => rw' = rw
    | w :: rest =>
        if rq_write w then granted = [rq_thread w] /\ rw_writer rw' = rq_thread w /\
          rw_granted_writer rw' = Some (rq_thread w) /\ rw_readers rw' = []
        else granted = front_readers (rw_waiters rw) /\ rw_writer rw' = 0 /\
          (forall t, om_find t (rw_readers rw') = if decide (t ∈ granted) then Some 1 else None) /\
          (forall t, t ∈ granted -> t ∈ rw_granted_readers rw')
    end.
Proof.
  intros Hpre Hfree Hz. unfold GrantRwlockWaitersLocked. rewrite Hfree. simpl.
  apply rwlock_free_true in Hfree as [Hw Hr].
  destruct (rw_waiters rw) as [|w rest] eqn:Ew.
  { split; [apply rwlock_pre_ok; [done|by rewrite Ew]|]. exists []. unfold rw_queue.
    rewrite Ew. split_and!; [done|by rewrite app_nil_r|done]. }
  assert (Hq : rw_queue rw = rq_thread <$> (w :: rest)) by (unfold rw_queue; by rewrite Ew).
  pose proof (rp_nodup _ Hpre) as Hnd. rewrite Hq in Hnd, Hz.
  destruct (rq_write w) eqn:Eww.
  - simpl in Hnd, Hz. apply NoDup_cons in Hnd as [Hni Hnd]. apply not_elem_of_cons in Hz as [Hz _].
    split.
    + split; simpl; rewrite ?Hr; try done; [apply om_sorted_nil|by intros t [? ?]|].
      intros _. unfold rwlock_free. simpl. unfold kInvalidKernelHandle.
      replace (rq_thread w =? 0) with false by lia. done.
    + exists [rq_thread w]. split_and!; try done.
  - pose proof (grant_readers_spec h (w :: rest) rw keys) as Hg.
    rewrite Hr in Hg. specialize (Hg (om_sorted_nil)).
    pose proof (front_behind (w :: rest)) as Hfb. rewrite Hfb in Hnd, Hz.
    apply NoDup_app in Hnd as (Hnd1 & Hnd12 & Hnd2). apply not_elem_of_app in Hz as [Hz1 Hz2].
    specialize (Hg Hnd1 ltac:(intros; apply om_find_nil)).
    destruct (grant_readers h (w :: rest) rw keys) as [rw' keys'].
    destruct Hg as (-> & Hwt & Hwr & Hgw & Hsl & Hs' & Hgr & Hf).
    assert (Hfind : forall t, om_find t (rw_readers rw') =
       if decide (t ∈ front_readers (w :: rest)) then Some 1 else None).
    { intros t. rewrite Hf. by rewrite om_find_nil. }
    assert (Hne : rw_readers rw' <> []).
    { intros E. specialize (Hfind (rq_thread w)). rewrite E, om_find_nil in Hfind.
      simpl in Hfind. rewrite Eww, decide_True in Hfind by apply list_elem_of_here. done. }
    split.
    + apply rwlock_pre_ok.
      * split; unfold rw_queue; rewrite ?Hwr, ?Hwt, ?Hw; try done.
        -- intros t c. rewrite Hfind. case_decide as Hd; [|done]. intros [= <-].
           split; [unfold u32_max; lia|]. by intros ->.
        -- intros t [c Hc]. rewrite Hfind in Hc. case_decide as Hd; [|done]. by apply Hnd12.
      * intros _. unfold rwlock_free. rewrite Hwr, Hw. destruct (rw_readers rw'); [done|].
        by rewrite andb_false_r.
    + exists (front_readers (w :: rest)). split_and!; try done.
      * rewrite Hq, Hfb. unfold rw_queue. by rewrite Hwt.
      * by rewrite Hwr.
      * intros t Ht. apply Hgr. by left.
Qed.

Section operations.
Context `{ClockSource}.

Lemma zero_not_queued ms rs k h rw :
  locks_ok ms rs k -> om_find h rs = Some rw -> 0 ∉ rw_queue rw.
Proof. intros Hl Hf Hin. pose proof (rw_waiter_u64 _ _ _ _ _ _ Hl Hf Hin). lia. Qed.

(** A released lock [rw1] is granted to the front of the queue it had. *)
Lemma locks_rw_grant ms rs k h rw rw1 keys :
  locks_ok ms rs k -> om_find h rs = Some rw ->
  rwlock_pre rw1 -> rw_queue rw1 = rw_queue rw -> rwlock_free rw1 = true ->
  let '(rw', keys') := GrantRwlockWaitersLocked h rw1 keys in
  locks_ok ms (om_update h (fun _ => rw') rs) k /\
  exists granted, keys' = keys ++ (RwlockWaitKey h <$> granted) /\
    Forall (fun t => t ∈ rw_queue rw /\ t ∉ rw_queue rw') granted.
Proof.
  intros Hl Hf Hpre Hq Hfree.
  pose proof (zero_not_queued _ _ _ _ _ Hl Hf) as Hz. rewrite <- Hq in Hz.
  pose proof (GrantRwlock_spec h rw1 keys Hpre Hfree Hz) as Hg.
  destruct (GrantRwlockWaitersLocked h rw1 keys) as [rw' keys'].
  destruct Hg as (Hok & granted & Hsplit & Hkeys & _). rewrite Hq in Hsplit. split.
  - apply locks_update_rwlock; [done|]. intros rw0 E _. rewrite Hf in E. injection E as <-.
    split; [done|]. intros t Ht. fold (rw_queue rw). rewrite Hsplit. apply elem_of_app. by right.
  - exists granted. split; [done|]. pose proof (rp_nodup _ Hpre) as Hnd. rewrite Hq, Hsplit in Hnd.
    apply NoDup_app in Hnd as (_ & Hd & _). apply Forall_forall. intros t Ht. split; [|by apply Hd].
    rewrite Hsplit. apply elem_of_app. by left.
Qed.

Lemma set_rwlock_locks h rw rw' p :
  locks p -> om_find h (rwlocks_ p) = Some rw -> rwlock_ok rw' ->
  (forall t, t ∈ rw_queue rw' -> t ∈ rw_queue rw) -> locks (set_rwlock h rw' p).
Proof.
  intros Hl Hf Hok Hsub. apply locks_update_rwlock; [done|].
  intros rw0 E _. rewrite Hf in E. by injection E as <-.
Qed.

(** Keys of threads that are in no queue any more. *)
Lemma granted_not_queue_keys ms rs k h rw granted :
  locks_ok ms rs k -> om_find h rs = Some rw -> is_u64 h -> Forall is_u64 granted ->
  Forall (fun t => t ∉ rw_queue rw) granted ->
  Forall (fun s => ~ queue_key ms rs s) (RwlockWaitKey h <$> granted).
Proof.
  intros Hl Hf Hu Hgu Hg. apply Forall_fmap, Forall_forall. intros t Ht Hq.
  rewrite Forall_forall in Hg, Hgu. specialize (Hg t Ht). specialize (Hgu t Ht).
  apply (queue_key_rwlock _ _ k) in Hq as (rw0 & E & Hin); [|done..].
  rewrite Hf in E. by injection E as <-.
Qed.

(** Queueing the running thread and parking it. *)
Lemma rw_lock_blocks h rw write p current :
  locks p -> om_find h (rwlocks_ p) = Some rw -> pt_current p = Some current ->
  rw_writer rw <> current -> om_find current (rw_readers rw) = None ->
  rwlock_free rw && no_rw_waiters rw = false ->
  locks {| (set_rwlock h {| rw with rw_waiters := rw_waiters rw ++ [mkRwlockWaiter current write] |} p)
           with pt_kernel := (BlockCurrent (RwlockWaitKey h current) (pt_kernel p)).1 |} /\
  (BlockCurrent (RwlockWaitKey h current) (pt_kernel p)).2 = true /\
  current ∉ rw_queue rw.
Proof.
  intros Hl Hf Hc Hw Hr Hnf. pose proof (lo_kernel _ _ _ Hl) as Hk.
  assert (Hni : current ∉ rw_queue rw).
  { intros Hin. eapply current_not_queued; [exact Hl|exact Hc|]. by eapply queued_rwlock. }
  destruct (locks_find_rwlock _ _ _ _ _ Hl Hf) as [Hu Hok].
  pose proof (current_u64 _ _ Hk Hc) as Hcu.
  assert (Hkey : RwlockWaitKey h current <> EmptyString)
    by (apply (key_string_nonempty (PthreadRwlockKey h current))).
  split_and!; [| |done].
  2:{ unfold BlockCurrent, BlockCurrentLocked. rewrite bool_decide_eq_false_2 by done.
      pose proof (proj1 (so_current _ (ko_sched _ Hk) current) Hc) as (th & Ht & Hs).
      by rewrite (proj2 (running_thread_Some _ current th)). }
  destruct Hl as [_ Hown Hm Hrs Hp]. unfold locks. simpl. split; simpl.
  - by apply BlockCurrentLocked_ok.
  - eapply (own_keys_block (PthreadRwlockKey h current)); try done. simpl. u64_lia.
  - done.
  - apply rwlocks_ok_update; [done|]. intros rw0 E _. rewrite Hf in E. injection E as <-.
    destruct Hok as [Hrd Hct Hex Hnd Hwn Hrn Hq].
    split; simpl; try done; rewrite ?fmap_app; simpl.
    + apply NoDup_app. split_and!; [done| |apply NoDup_singleton].
      intros x Hx ->%list_elem_of_singleton. done.
    + rewrite not_elem_of_app, not_elem_of_cons. split_and!; [done|done|apply not_elem_of_nil].
    + intros t Ht. rewrite not_elem_of_app, not_elem_of_cons.
      split_and!; [by apply Hrn| |apply not_elem_of_nil]. intros ->. rewrite Hr in Ht. by destruct Ht.
    + intros _. change (rwlock_free rw = false). destruct (rwlock_free rw) eqn:Ef; [|done].
      simpl in Hnf. unfold no_rw_waiters in Hnf. destruct (rw_waiters rw) eqn:Ew; [done|].
      by apply Hq.
  - intros t key Hq. apply (parked_block _ current (PthreadRwlockKey h current)); try done.
    apply queued_update_rwlock in Hq as [Hq|(rw0 & E & -> & Ht)]; [right; by apply Hp|].
    rewrite Hf in E. injection E as <-. simpl in Ht. rewrite fmap_app in Ht.
    apply elem_of_app in Ht as [Ht| ->%list_elem_of_singleton]; [right|by left].
    apply Hp. by eapply queued_rwlock.
Qed.

Lemma LockRwlock_locks h write try_only p : locks p -> locks (LockRwlock h write try_only p).1.
Proof.
  intros Hl. unfold LockRwlock. destruct (pt_current p) as [current|] eqn:Hc; [|done].
  destruct (om_find h (rwlocks_ p)) as [rw|] eqn:Hf; [|done].
  destruct (locks_find_rwlock _ _ _ _ _ Hl Hf) as [Hu Hok].
  pose proof (current_u64 _ _ (lo_kernel _ _ _ Hl) Hc) as Hcu.
  destruct (write && _ && _).
  { eapply set_rwlock_locks; [done|done| |done]. destruct Hok. by split. }
  destruct (negb write && bool_decide _).
  { eapply set_rwlock_locks; [done|done| |done]. destruct Hok. by split. }
  cbv zeta. destruct (write && ((rw_writer rw =? current) || _)) eqn:Ewr; [done|].
  destruct (if write then None else om_find current (rw_readers rw)) as [count|] eqn:Ecnt.
  { destruct write; [done|]. destruct (count =? u32_max) eqn:Emax; [done|].
    eapply set_rwlock_locks; [done|done| |done]. destruct Hok as [Hrd Hct Hex Hnd Hwn Hrn Hq].
    split; simpl; try done.
    - by apply om_update_sorted.
    - intros t c. rewrite om_find_update. case_decide as Hd; [|apply Hct]. subst t.
      rewrite Ecnt. intros [= <-]. destruct (Hct _ _ Ecnt). lia.
    - intros Hw. rewrite (Hex Hw) in Ecnt. by rewrite om_find_nil in Ecnt.
    - intros t. rewrite om_find_update. case_decide as Hd; [|apply Hrn]. subst t.
      rewrite Ecnt. intros _. apply Hrn. eauto.
    - intros Hne. specialize (Hq Hne). revert Hq. unfold rwlock_free. simpl.
      destruct (rw_readers rw); [done|]. done. }
  destruct (negb write && (rw_writer rw =? current)) eqn:Ewc; [done|].
  assert (Hnr : om_find current (rw_readers rw) = None /\ rw_writer rw <> current).
  { destruct write; simpl in *; [|split; [done|lia]].
    apply orb_false_iff in Ewr as [? Hb]. split; [|lia]. apply bool_decide_eq_false in Hb.
    destruct (om_find current (rw_readers rw)); [|done]. destruct Hb. eauto. }
  destruct Hnr as [Hnr Hnw].
  destruct (rwlock_free rw && no_rw_waiters rw) eqn:Efree.
  { apply andb_true_iff in Efree as [Efree Enw]. apply rwlock_free_true in Efree as [Hw0 Hr0].
    assert (Hq0 : rw_waiters rw = []) by (unfold no_rw_waiters in Enw; by destruct (rw_waiters rw)).
    destruct Hok as [Hrd Hct Hex Hnd Hwn Hrn Hq]. rewrite Hq0 in *.
    eapply set_rwlock_locks; [done|exact Hf| |intros t Ht; destruct write; by apply elem_of_nil in Ht].
    destruct write; split; simpl; rewrite ?Hq0, ?Hr0; try done; simpl;
      try apply om_emplace_sorted; try apply om_sorted_nil; try (intros; apply not_elem_of_nil);
      try apply NoDup_nil_2.
    intros t c. rewrite om_find_emplace by (apply om_sorted_nil || apply om_find_nil).
    case_decide; [|by rewrite om_find_nil]. intros [= <-]. unfold u32_max. split; lia. }
  destruct try_only; [done|].
  destruct (rw_lock_blocks h rw write p current Hl Hf Hc Hnw Hnr Efree) as (Hl' & Hb & Hni).
  assert (existsb (fun w => rq_thread w =? current) (rw_waiters rw) = false) as ->.
  { destruct (existsb _ _) eqn:Ex; [|done]. apply existsb_exists in Ex as (w & Hw & Heq).
    destruct Hni. unfold rw_queue. apply list_elem_of_fmap. exists w.
    split; [lia|by apply list_elem_of_In]. }
  simpl pt_kernel. revert Hl' Hb. destruct (BlockCurrent _ _) as [k b]. simpl. by intros ? ->.
Qed.

(** Releasing a lock the thread holds. *)
Lemma release_reader_pre current count rw :
  rwlock_ok rw -> om_find current (rw_readers rw) = Some count ->
  rwlock_pre (release_reader current count rw) /\
  rw_queue (release_reader current count rw) = rw_queue rw.
Proof.
  intros [Hrd Hct Hex Hnd Hwn Hrn Hq] Hc. destruct (Hct _ _ Hc) as [Hb Hz]. unfold u32_max in Hb.
  unfold release_reader. rewrite Z.mod_small by lia.
  destruct (count - 1 =? 0) eqn:E; (split; [|done]); split; simpl; try done.
  - by apply om_erase_sorted.
  - intros t c. rewrite om_find_erase. case_decide; [done|apply Hct].
  - intros Hw. by rewrite (Hex Hw).
  - intros t. rewrite om_find_erase. case_decide; [by intros []|apply Hrn].
  - by apply om_update_sorted.
  - intros t c. rewrite om_find_update. case_decide as Hd; [|apply Hct]. subst t. rewrite Hc.
    intros [= <-]. unfold u32_max. lia.
  - intros Hw. by rewrite (Hex Hw).
  - intros t. rewrite om_find_update. case_decide as Hd; [|apply Hrn]. subst t. rewrite Hc.
    intros _. apply Hrn. eauto.
Qed.

Lemma release_writer_pre rw g :
  rwlock_ok rw -> 0 ∉ rw_queue rw ->
  rwlock_pre {| rw with rw_writer := kInvalidKernelHandle; rw_granted_writer := g |}.
Proof. intros [Hrd Hct Hex Hnd Hwn Hrn Hq] Hz. by split. Qed.

(** Storing a released lock, granted if it became free, and waking the grants. *)
Lemma locks_rw_release ms rs k h rw rw1 :
  locks_ok ms rs k -> om_find h rs = Some rw -> rwlock_pre rw1 -> rw_queue rw1 = rw_queue rw ->
  let '(rw2, keys) := if rwlock_free rw1 then GrantRwlockWaitersLocked h rw1 [] else (rw1, []) in
  locks_ok ms (om_update h (fun _ => rw2) rs) (wake_each keys k).
Proof.
  intros Hl Hf Hpre Hq. destruct (rwlock_free rw1) eqn:Efree.
  - pose proof (locks_rw_grant ms rs k h rw rw1 [] Hl Hf Hpre Hq Efree) as Hg.
    destruct (GrantRwlockWaitersLocked h rw1 []) as [rw2 keys].
    destruct Hg as (Hl1 & granted & -> & Hgr). simpl.
    apply locks_ok_wake; [|done]. destruct (locks_find_rwlock _ _ _ _ _ Hl Hf) as [Hu _].
    eapply granted_not_queue_keys; [exact Hl1| |done| |].
    + by rewrite om_find_update, decide_True, Hf.
    + eapply Forall_impl; [exact Hgr|]. intros t [Hin _].
      pose proof (rw_waiter_u64 _ _ _ _ _ _ Hl Hf Hin). u64_lia.
    + eapply Forall_impl; [exact Hgr|]. by intros t [_ ?].
  - simpl. apply locks_update_rwlock; [done|]. intros rw0 E _. rewrite Hf in E. injection E as <-.
    split; [by apply rwlock_pre_ok|]. intros t. fold (rw_queue rw1) (rw_queue rw). by rewrite Hq.
Qed.

Lemma UnlockRwlock_locks h p : locks p -> locks (UnlockRwlock h p).1.
Proof.
  intros Hl. unfold UnlockRwlock. destruct (pt_current p) as [current|] eqn:Hc; [|done].
  destruct (om_find h (rwlocks_ p)) as [rw|] eqn:Hf; [|done].
  destruct (locks_find_rwlock _ _ _ _ _ Hl Hf) as [Hu Hok].
  pose proof (zero_not_queued _ _ _ _ _ Hl Hf) as Hz. cbv zeta.
  destruct (if rw_writer rw =? current then _ else _) as [rw1|] eqn:Erel; [|done].
  assert (Hpre : rwlock_pre rw1 /\ rw_queue rw1 = rw_queue rw).
  { destruct (rw_writer rw =? current).
    - injection Erel as <-. split; [|done]. by apply (release_writer_pre rw (rw_granted_writer rw)).
    - destruct (om_find current (rw_readers rw)) as [count|] eqn:E; [|done].
      injection Erel as <-. by apply release_reader_pre. }
  destruct Hpre as [Hpre Hq].
  pose proof (locks_rw_release _ _ _ h rw rw1 Hl Hf Hpre Hq) as Hr.
  destruct (if rwlock_free rw1 then _ else _) as [rw2 keys]. exact Hr.
Qed.
End operations.

(** Thread exit ([PthreadService::ExitCurrent]): every lock the thread held is
    passed on, and the lock invariant is kept. *)


(** ** The two loops as maps *)

Definition map_values {V} (f : Z -> V -> V) (m : list (Z * V)) : list (Z * V) :=
  (fun e => (e.1, f e.1 e.2)) <$> m.

Lemma om_find_map_values {V} (f : Z -> V -> V) m h :
  om_find h (map_values f m) = f h <$> om_find h m.
Proof.
  induction m as [|e m IH]; [done|]. unfold map_values in *. rewrite fmap_cons, !om_find_cons, IH.
  simpl. case_decide as Hd; [|done]. by subst h.
Qed.

Lemma map_values_sorted {V} (f : Z -> V -> V) m : om_sorted m -> om_sorted (map_values f m).
Proof.
  apply om_sorted_keys. unfold map_values. rewrite <- list_fmap_compose. by apply list_fmap_ext.
Qed.

Definition exit_mutex (current h : Z) mu : MutexState * list string :=
  if negb (mx_owner mu =? current) then (mu, [])
  else
    let '(mu', wake_key) :=
      GrantNextMutexWaiterLocked h
        {| mu with mx_owner := kInvalidKernelHandle; mx_recursion_count := 0;
                   mx_granted_waiters := mx_granted_waiters mu ∖ {[current]} |} in
    (mu', if bool_decide (wake_key = EmptyString) then [] else [wake_key]).

Lemma exit_mutexes_eq current ms :
  exit_mutexes current ms =
  (map_values (fun h mu => (exit_mutex current h mu).1) ms,
   concat ((fun e => (exit_mutex current e.1 e.2).2) <$> ms)).
Proof.
  induction ms as [|[h mu] ms IH]; [done|]. unfold map_values in *.
  cbn [exit_mutexes]. rewrite !fmap_cons, IH. unfold exit_mutex. simpl.
  destruct (negb _); [done|]. destruct (GrantNextMutexWaiterLocked _ _) as [mu' key].
  by case_bool_decide.
Qed.

Lemma exit_rwlocks_eq current rs :
  exit_rwlocks current rs =
  (map_values (fun h rw => (exit_rwlock current h rw).1) rs,
   concat ((fun e => (exit_rwlock current e.1 e.2).2) <$> rs)).
Proof.
  induction rs as [|[h rw] rs IH]; [done|]. unfold map_values in *.
  cbn [exit_rwlocks]. rewrite !fmap_cons, IH. simpl. by destruct (exit_rwlock current h rw).
Qed.

(** ** One lock of the exiting thread *)

(** Each woken key belongs to a thread that left the queue. *)
Definition left_queue (make_key : Z -> string) (before after : list Z) (keys : list string) : Prop :=
  forall s, s ∈ keys -> exists t, s = make_key t /\ t ∈ before /\ t ∉ after.

Lemma exit_mutex_spec current h mu :
  mutex_ok mu -> 0 ∉ mx_waiters mu ->
  let '(mu', keys) := exit_mutex current h mu in
  mutex_ok mu' /\ (forall t, t ∈ mx_waiters mu' -> t ∈ mx_waiters mu) /\
  left_queue (MutexWaitKey h) (mx_waiters mu) (mx_waiters mu') keys /\
  (mx_owner mu <> current -> mu' = mu) /\
  (mx_owner mu = current ->
     mx_owner mu' = default 0 (head (mx_waiters mu)) /\ mx_waiters mu' = tail (mx_waiters mu) /\
     keys = MutexWaitKey h <$> take 1 (mx_waiters mu)).
Proof.
  intros Hok Hz. unfold exit_mutex. destruct (mx_owner mu =? current) eqn:E; simpl.
  2:{ split_and!; try done; [|lia]. intros s Hs. by apply elem_of_nil in Hs. }
  pose proof (Grant_ok h _ (release_released current mu 0 Hok ltac:(lia) Hz eq_refl)) as Hg.
  simpl in Hg.
  destruct (GrantNextMutexWaiterLocked _ _) as [mu' key].
  destruct Hg as (Hok' & Hsub & Hcase). split_and!; [done|done| |lia|].
  - destruct (mx_waiters mu) as [|t rest]; [destruct Hcase as [_ ->]; intros s Hs; by apply elem_of_nil in Hs|].
    destruct Hcase as (_ & _ & Hr & _ & -> & Hni). intros s Hs. exists t.
    rewrite bool_decide_eq_false_2 in Hs by (apply (key_string_nonempty (PthreadMutexKey h t))).
    apply list_elem_of_singleton in Hs. split_and!; [done|apply list_elem_of_here|by rewrite Hr].
  - intros _. destruct (mx_waiters mu) as [|t rest] eqn:Ew.
    + destruct Hcase as [-> ->]. done.
    + destruct Hcase as (-> & _ & -> & _ & -> & _). split_and!; [done|done|].
      rewrite bool_decide_eq_false_2; [done|]. apply (key_string_nonempty (PthreadMutexKey h t)).
Qed.

Lemma drop_rw_waiter_fresh t rw : t ∉ rw_queue rw -> drop_rw_waiter t rw = rw.
Proof.
  intros Hni. unfold drop_rw_waiter.
  assert (Hf : List.filter (fun w => negb (rq_thread w =? t)) (rw_waiters rw) = rw_waiters rw).
  { unfold rw_queue in Hni. induction (rw_waiters rw) as [|w ws IH]; [done|]. simpl.
    rewrite fmap_cons in Hni. apply not_elem_of_cons in Hni as [Hne Hni].
    replace (rq_thread w =? t) with false by lia. simpl. by rewrite IH. }
  rewrite Hf. by destruct rw.
Qed.

(** The lock after the thread's holds are dropped, before any grant. *)
Definition exit_release current rw : RwlockState :=
  let rw1 := if rw_writer rw =? current
             then {| rw with rw_writer := kInvalidKernelHandle; rw_granted_writer := None |} else rw in
  if bool_decide (is_Some (om_find current (rw_readers rw1)))
  then {| rw1 with rw_readers := om_erase current (rw_readers rw1);
                   rw_granted_readers := rw_granted_readers rw1 ∖ {[current]} |} else rw1.

Lemma exit_release_pre current rw :
  rwlock_ok rw -> 0 ∉ rw_queue rw ->
  rwlock_pre (exit_release current rw) /\ rw_queue (exit_release current rw) = rw_queue rw.
Proof.
  intros Hok Hz. unfold exit_release. cbv zeta.
  assert (Hpre : rwlock_pre (if rw_writer rw =? current
     then {| rw with rw_writer := kInvalidKernelHandle; rw_granted_writer := None |} else rw)).
  { destruct (_ =? current); [by apply release_writer_pre|by apply rwlock_ok_pre]. }
  assert (Hq : rw_queue (if rw_writer rw =? current
     then {| rw with rw_writer := kInvalidKernelHandle; rw_granted_writer := None |} else rw)
     = rw_queue rw) by (by destruct (_ =? current)).
  destruct (if rw_writer rw =? current then _ else _) as [w rd ws gr gw sl].
  case_bool_decide as Hb; [|done]. split; [|done].
  destruct Hpre as [Hrd Hct Hex Hnd Hwn Hrn]. simpl in *. split; simpl; try done.
  - by apply om_erase_sorted.
  - intros t c. rewrite om_find_erase. case_decide; [done|apply Hct].
  - intros Hw. by rewrite (Hex Hw).
  - intros t. rewrite om_find_erase. case_decide; [by intros []|apply Hrn].
Qed.

Lemma exit_rwlock_eq current h rw :
  current ∉ rw_queue rw ->
  exit_rwlock current h rw =
  if ((rw_writer rw =? current) || bool_decide (is_Some (om_find current (rw_readers rw))))
     && rwlock_free (exit_release current rw)
  then GrantRwlockWaitersLocked h (exit_release current rw) []
  else (exit_release current rw, []).
Proof.
  intros Hni. unfold exit_rwlock, exit_release. cbv zeta.
  destruct (rw_writer rw =? current); simpl; case_bool_decide;
    rewrite drop_rw_waiter_fresh by done; simpl; done.
Qed.

Lemma exit_rwlock_spec current h rw :
  rwlock_ok rw -> 0 ∉ rw_queue rw -> current ∉ rw_queue rw ->
  let '(rw', keys) := exit_rwlock current h rw in
  rwlock_ok rw' /\ (forall t, t ∈ rw_queue rw' -> t ∈ rw_queue rw) /\
  left_queue (RwlockWaitKey h) (rw_queue rw) (rw_queue rw') keys.
Proof.
  intros Hok Hz Hni. rewrite exit_rwlock_eq by done.
  destruct (exit_release_pre current rw Hok Hz) as [Hpre Hq].
  destruct (_ && _) eqn:E.
  - apply andb_true_iff in E as [_ Efree]. rewrite <- Hq in Hz.
    pose proof (GrantRwlock_spec h _ [] Hpre Efree Hz) as Hg.
    destruct (GrantRwlockWaitersLocked h _ []) as [rw' keys].
    destruct Hg as (Hok' & granted & Hsplit & -> & _). rewrite Hq in Hsplit.
    pose proof (rp_nodup _ Hpre) as Hnd. rewrite Hq, Hsplit in Hnd.
    apply NoDup_app in Hnd as (_ & Hd & _). split_and!; [done| |].
    + intros t Ht. rewrite Hsplit. apply elem_of_app. by right.
    + intros s (t & -> & Ht)%list_elem_of_fmap. exists t. split_and!; [done| |by apply Hd].
      rewrite Hsplit. apply elem_of_app. by left.
  - split_and!; [| |intros s Hs; by apply elem_of_nil in Hs].
    + apply rwlock_pre_ok; [done|]. intros Hne. apply andb_false_iff in E as [E|E]; [|done].
      apply orb_false_iff in E as [Ew Er]. apply bool_decide_eq_false in Er.
      assert (Heq : exit_release current rw = rw).
      { unfold exit_release. rewrite Ew. by rewrite bool_decide_eq_false_2. }
      rewrite Heq in *. by apply (ro_queue _ Hok).
    + intros t. by rewrite Hq.
Qed.

Section exit.
Context `{ClockSource}.

Lemma locks_map_values ms rs k f g :
  locks_ok ms rs k ->
  (forall h mu, om_find h ms = Some mu -> mutex_ok (f h mu) /\
     (forall t, t ∈ mx_waiters (f h mu) -> t ∈ mx_waiters mu)) ->
  (forall h rw, om_find h rs = Some rw -> rwlock_ok (g h rw) /\
     (forall t, t ∈ rw_queue (g h rw) -> t ∈ rw_queue rw)) ->
  locks_ok (map_values f ms) (map_values g rs) k.
Proof.
  intros [Hk Ho [Hsm Hm] [Hsr Hr] Hp] Hf Hg. split; try done.
  - split; [by apply map_values_sorted|]. intros h mu'. rewrite om_find_map_values.
    destruct (om_find h ms) as [mu|] eqn:E; [|done]. intros [= <-].
    split; [by apply (Hm h mu)|by apply Hf].
  - split; [by apply map_values_sorted|]. intros h rw'. rewrite om_find_map_values.
    destruct (om_find h rs) as [rw|] eqn:E; [|done]. intros [= <-].
    split; [by apply (Hr h rw)|by apply Hg].
  - intros t key Hq. apply Hp. inversion Hq as [h mu' t' E Ht|h rw' t' E Ht]; subst;
      rewrite om_find_map_values in E.
    + destruct (om_find h ms) as [mu|] eqn:E0; [|done]. injection E as <-.
      econstructor; [exact E0|]. by apply (Hf h mu E0).
    + destruct (om_find h rs) as [rw|] eqn:E0; [|done]. injection E as <-.
      eapply queued_rwlock; [exact E0|]. by apply (Hg h rw E0).
Qed.

Lemma thread_exit_not_pthread h : is_u64 h -> ~ pthread_string (ThreadExitWaitKey h).
Proof.
  intros Hu (key & Hk & Heq & Hp). apply (key_string_inj (ThreadExitKey h)) in Heq; [|done..].
  by subst key.
Qed.

(** Passing on the locks of the exiting thread and waking the grants. *)
Lemma exit_locks ms rs k current :
  locks_ok ms rs k -> current_thread_ (scheduler_ k) = Some current ->
  locks_ok (exit_mutexes current ms).1 (exit_rwlocks current rs).1
    (wake_each ((exit_mutexes current ms).2 ++ (exit_rwlocks current rs).2) k).
Proof.
  intros Hl Hc. rewrite exit_mutexes_eq, exit_rwlocks_eq. simpl.
  assert (Hm : forall h mu, om_find h ms = Some mu ->
    let '(mu', keys) := exit_mutex current h mu in
    mutex_ok mu' /\ (forall t, t ∈ mx_waiters mu' -> t ∈ mx_waiters mu) /\
    left_queue (MutexWaitKey h) (mx_waiters mu) (mx_waiters mu') keys).
  { intros h mu Hf. destruct (locks_find_mutex _ _ _ _ _ Hl Hf) as [_ Hok].
    pose proof (exit_mutex_spec current h mu Hok (zero_not_waiter _ _ _ _ _ Hl Hf)) as Hs.
    destruct (exit_mutex current h mu). by destruct Hs as (? & ? & ? & _). }
  assert (Hr : forall h rw, om_find h rs = Some rw ->
    let '(rw', keys) := exit_rwlock current h rw in
    rwlock_ok rw' /\ (forall t, t ∈ rw_queue rw' -> t ∈ rw_queue rw) /\
    left_queue (RwlockWaitKey h) (rw_queue rw) (rw_queue rw') keys).
  { intros h rw Hf. destruct (locks_find_rwlock _ _ _ _ _ Hl Hf) as [_ Hok].
    apply exit_rwlock_spec; [done|by eapply zero_not_queued|].
    intros Hin. eapply current_not_queued; [exact Hl|exact Hc|]. by eapply queued_rwlock. }
  assert (Hl' : locks_ok (map_values (fun h mu => (exit_mutex current h mu).1) ms)
                 (map_values (fun h rw => (exit_rwlock current h rw).1) rs) k).
  { apply locks_map_values; [done| |].
    - intros h mu Hf. specialize (Hm h mu Hf). destruct (exit_mutex current h mu).
      by destruct Hm as (? & ? & _).
    - intros h rw Hf. specialize (Hr h rw Hf). destruct (exit_rwlock current h rw).
      by destruct Hr as (? & ? & _). }
  apply locks_ok_wake; [|done]. apply Forall_app. split; apply Forall_forall.
  - intros s Hs Hq. apply list_elem_of_In, in_concat in Hs as (l & Hin & Hs).
    apply list_elem_of_In, list_elem_of_fmap in Hin as ([h mu] & -> & Hin). simpl in Hs.
    apply list_elem_of_In in Hs.
    apply (om_elem_find h mu) in Hin; [|apply Hl]. specialize (Hm h mu Hin).
    destruct (exit_mutex current h mu) as [mu' keys] eqn:Ex.
    destruct Hm as (_ & _ & Hlq). destruct (Hlq s Hs) as (t & -> & Ht & Hnt).
    pose proof (waiter_u64 _ _ _ _ _ t Hl Hin Ht).
    apply (queue_key_mutex _ _ k) in Hq as (mu2 & E & Ht2);
      [|done|by apply (locks_find_mutex _ _ _ _ _ Hl Hin)|u64_lia].
    rewrite om_find_map_values, Hin in E. injection E as <-. by rewrite Ex in Ht2.
  - intros s Hs Hq. apply list_elem_of_In, in_concat in Hs as (l & Hin & Hs).
    apply list_elem_of_In, list_elem_of_fmap in Hin as ([h rw] & -> & Hin). simpl in Hs.
    apply list_elem_of_In in Hs.
    apply (om_elem_find h rw) in Hin; [|apply Hl]. specialize (Hr h rw Hin).
    destruct (exit_rwlock current h rw) as [rw' keys] eqn:Ex.
    destruct Hr as (_ & _ & Hlq). destruct (Hlq s Hs) as (t & -> & Ht & Hnt).
    pose proof (rw_waiter_u64 _ _ _ _ _ t Hl Hin Ht).
    apply (queue_key_rwlock _ _ k) in Hq as (rw2 & E & Ht2);
      [|done|by apply (locks_find_rwlock _ _ _ _ _ Hl Hin)|u64_lia].
    rewrite om_find_map_values, Hin in E. injection E as <-. by rewrite Ex in Ht2.
Qed.

(** A change of a mutex that leaves the lock fields alone. *)
Lemma drop_condition_waiter_ok mu : mutex_ok mu -> mutex_ok (drop_condition_waiter mu).
Proof. intros []. by split. Qed.

Lemma locks_drop_waiter ms rs k h :
  locks_ok ms rs k -> locks_ok (om_update h drop_condition_waiter ms) rs k.
Proof.
  intros Hl. apply locks_update_mutex; [done|]. intros mu _ Hok.
  split; [by apply drop_condition_waiter_ok|done].
Qed.

Lemma exit_completed_locks current p : locks p -> locks (exit_completed_wait current p).
Proof.
  intros Hl. unfold exit_completed_wait. destruct (om_find current _) as [w|]; [|done].
  by apply locks_drop_waiter.
Qed.

Lemma Pthread_ExitCurrent_locks v p : locks p -> locks (Pthread_ExitCurrent v p).1.
Proof.
  intros Hl. unfold Pthread_ExitCurrent. destruct (pt_current p) as [current|] eqn:Hc; [|done].
  pose proof (exit_completed_locks current p Hl) as Hl1.
  assert (Hc1 : pt_current (exit_completed_wait current p) = Some current).
  { unfold exit_completed_wait. by destruct (om_find current _). }
  pose proof (exit_locks _ _ _ current Hl1 Hc1) as Hl2.
  destruct (exit_mutexes current _) as [ms mk]. destruct (exit_rwlocks current _) as [rs rk].
  cbn [fst snd] in Hl2.
  pose proof (lo_kernel _ _ _ Hl2) as Hk2.
  pose proof (ExitCurrent_ok v _ Hk2) as Hk3.
  pose proof (ExitCurrent_quiet pthread_string v _ Hk2) as Hq.
  destruct (ExitCurrent v _) as [k' b]. simpl. eapply locks_ok_kernel; [done| |exact Hl2].
  apply Hq. intros h. rewrite wake_each_current. intros Hcur.
  apply thread_exit_not_pthread.
  assert (Hl1k : kernel_ok (pt_kernel (exit_completed_wait current p))) by apply Hl1.
  pose proof (current_u64 _ _ Hl1k Hcur). u64_lia.
Qed.
End exit.
