(* ===== verification/PthreadConditions.v ===== *)
(** Condition variables of [kernel::PthreadService]: accounting.

    A wait is either queued on its condition or completed and on its way back to
    the mutex.  The condition's [active_waiter_count] and the mutex's
    [condition_waiter_count] are never below the number of those waits, so
    neither object can be destroyed under a waiter and a completed wait can
    always be finished. *)
From S2P Require Import Prelude Ranges OrderedMap WaitKeys HandleTable Objects Clock Scheduler.
From S2P Require Import SchedulerInv SchedulerProps WakeAll SharedBacking GuestMemory Pthread.
From S2P Require Import PthreadLocks PthreadRwlocks.

Implicit Types (p : PthreadService) (mu : MutexState) (cv : ConditionState) (k : Kernel).
Implicit Types (cs : list (Z * ConditionState)) (cm : list (Z * ConditionWaiter)).
Implicit Types (ms : list (Z * MutexState)) (ws : list (Z * Z)).

(** ** Tallies *)

Definition wait_ids (w : ConditionWaiter) : Z * Z := (cw_condition_handle w, cw_mutex_handle w).

Definition queue_waits cs : list (Z * Z) := cs ≫= fun e => wait_ids <$> cv_waiters e.2.
Definition completed_waits cm : list (Z * Z) := (fun e => wait_ids e.2) <$> cm.
Definition waits cs cm : list (Z * Z) := queue_waits cs ++ completed_waits cm.

Definition tally (f : Z * Z -> Z) (x : Z) ws : nat := length (filter (fun e => f e = x) ws).

Definition active_of (c : Z) cs : nat :=
  match om_find c cs with Some cv => cv_active_waiter_count cv | None => 0 end.
Definition mutex_waits_of (m : Z) ms : nat :=
  match om_find m ms with Some mu => mx_condition_waiter_count mu | None => 0 end.

Record balanced ws cs ms : Prop := {
  ba_active c : (tally fst c ws <= active_of c cs)%nat;
  ba_mutex m : (tally snd m ws <= mutex_waits_of m ms)%nat
}.

Lemma tally_cons f x e ws : tally f x (e :: ws) = ((if decide (f e = x) then 1 else 0) + tally f x ws)%nat.
Proof. unfold tally. rewrite filter_cons. by case_decide. Qed.

#[global] Instance tally_proper f x : Proper (Permutation ==> eq) (tally f x).
Proof. intros l1 l2 Hp. unfold tally. by rewrite Hp. Qed.

Lemma tally_submseteq f x l1 l2 : l1 ⊆+ l2 -> (tally f x l1 <= tally f x l2)%nat.
Proof.
  induction 1 as [|e l1 l2 _ IH|a b l|e l1 l2 _ IH|l1 l2 l3 _ IH1 _ IH2];
    rewrite ?tally_cons; try lia.
Qed.

Lemma balanced_perm ws ws' cs ms : ws ≡ₚ ws' -> balanced ws cs ms -> balanced ws' cs ms.
Proof. intros Hp [A B]. by split; intros x; rewrite <- Hp. Qed.

Lemma balanced_sub ws ws' cs ms : ws' ⊆+ ws -> balanced ws cs ms -> balanced ws' cs ms.
Proof.
  intros Hs [A B]. split; intros x.
  - etrans; [by apply tally_submseteq|apply A].
  - etrans; [by apply tally_submseteq|apply B].
Qed.

(** Other updates of the two maps do not matter. *)
Lemma balanced_same ws cs cs' ms ms' :
  (forall c, active_of c cs' = active_of c cs) ->
  (forall m, mutex_waits_of m ms' = mutex_waits_of m ms) ->
  balanced ws cs ms -> balanced ws cs' ms'.
Proof. intros Ha Hm [A B]. split; intros x; [rewrite Ha|rewrite Hm]; auto. Qed.

Lemma active_of_update c g cs c' :
  active_of c' (om_update c g cs) =
  match om_find c' cs with
  | Some cv => if decide (c' = c) then cv_active_waiter_count (g cv) else cv_active_waiter_count cv
  | None => 0%nat
  end.
Proof.
  unfold active_of. rewrite om_find_update. case_decide; by destruct (om_find c' cs).
Qed.

Lemma mutex_waits_of_update m g ms m' :
  mutex_waits_of m' (om_update m g ms) =
  match om_find m' ms with
  | Some mu => if decide (m' = m) then mx_condition_waiter_count (g mu) else mx_condition_waiter_count mu
  | None => 0%nat
  end.
Proof.
  unfold mutex_waits_of. rewrite om_find_update. case_decide; by destruct (om_find m' ms).
Qed.

Lemma balanced_add c m ws cs ms g f :
  is_Some (om_find c cs) -> is_Some (om_find m ms) ->
  (forall cv, cv_active_waiter_count (g cv) = S (cv_active_waiter_count cv)) ->
  (forall mu, mx_condition_waiter_count (f mu) = S (mx_condition_waiter_count mu)) ->
  balanced ws cs ms -> balanced ((c, m) :: ws) (om_update c g cs) (om_update m f ms).
Proof.
  intros [cv Hc] [mu Hm] Hg Hf [A B]. split; intros x; rewrite tally_cons; simpl.
  - specialize (A x). unfold active_of in A. rewrite active_of_update.
    repeat case_decide; subst; rewrite ?Hc in *; rewrite ?Hg; try congruence; lia.
  - specialize (B x). unfold mutex_waits_of in B. rewrite mutex_waits_of_update.
    repeat case_decide; subst; rewrite ?Hm in *; rewrite ?Hf; try congruence; lia.
Qed.

Lemma balanced_drop c m ws cs ms g :
  (forall cv, cv_active_waiter_count (g cv) = pred (cv_active_waiter_count cv)) ->
  balanced ((c, m) :: ws) cs ms ->
  balanced ws (om_update c g cs) (om_update m drop_condition_waiter ms).
Proof.
  intros Hg [A B]. split; intros x.
  - specialize (A x). rewrite tally_cons in A. simpl in A. unfold active_of in A.
    rewrite active_of_update. destruct (om_find x cs) eqn:E; [|lia].
    repeat case_decide; subst; rewrite ?Hg; try congruence; lia.
  - specialize (B x). rewrite tally_cons in B. simpl in B. unfold mutex_waits_of in B.
    rewrite mutex_waits_of_update. destruct (om_find x ms) eqn:E; [|lia].
    repeat case_decide; subst; simpl; try congruence; lia.
Qed.

(** ** The waits of the two tables *)

Section tables.
Context (cs : list (Z * ConditionState)) (Hsorted : om_sorted cs).

Lemma queue_waits_find c cv :
  om_find c cs = Some cv ->
  queue_waits cs ≡ₚ (wait_ids <$> cv_waiters cv) ++ queue_waits (om_erase c cs).
Proof.
  intros Hf. unfold queue_waits. rewrite (om_erase_perm c cv cs Hsorted Hf) at 1. done.
Qed.

Lemma queue_waits_update c g cv :
  om_find c cs = Some cv ->
  queue_waits (om_update c g cs) ≡ₚ (wait_ids <$> cv_waiters (g cv)) ++ queue_waits (om_erase c cs).
Proof.
  intros Hf. unfold queue_waits. rewrite (om_update_perm c g cv cs Hsorted Hf). done.
Qed.

Lemma queue_waits_keep c g :
  (forall cv, cv_waiters (g cv) = cv_waiters cv) ->
  queue_waits (om_update c g cs) ≡ₚ queue_waits cs.
Proof.
  intros Hg. destruct (om_find c cs) as [cv|] eqn:E.
  - by rewrite (queue_waits_update c g cv E), (queue_waits_find c cv E), Hg.
  - by rewrite om_update_fresh.
Qed.

Lemma queue_waits_emplace c :
  om_find c cs = None -> queue_waits (om_emplace c (mkConditionState [] 0) cs) ≡ₚ queue_waits cs.
Proof. intros E. unfold queue_waits. by rewrite om_emplace_perm. Qed.

Lemma queue_waits_erase c : queue_waits (om_erase c cs) ⊆+ queue_waits cs.
Proof.
  destruct (om_find c cs) as [cv|] eqn:E; [|by rewrite om_erase_fresh].
  rewrite (queue_waits_find c cv E). apply submseteq_inserts_l. done.
Qed.
End tables.

Section completed_table.
Context (cm : list (Z * ConditionWaiter)) (Hsorted : om_sorted cm).

Lemma completed_waits_find t w :
  om_find t cm = Some w -> completed_waits cm ≡ₚ wait_ids w :: completed_waits (om_erase t cm).
Proof.
  intros Hf. unfold completed_waits. rewrite (om_erase_perm t w cm Hsorted Hf) at 1. done.
Qed.

Lemma completed_waits_set t w :
  completed_waits (om_set t w cm) ≡ₚ wait_ids w :: completed_waits (om_erase t cm).
Proof. unfold completed_waits. by rewrite om_set_perm. Qed.

Lemma completed_waits_erase t : completed_waits (om_erase t cm) ⊆+ completed_waits cm.
Proof.
  destruct (om_find t cm) as [w|] eqn:E; [|by rewrite om_erase_fresh].
  rewrite (completed_waits_find t w E). by apply submseteq_cons.
Qed.
End completed_table.

(** ** The invariant *)

Record conditions_ok cs cm ms : Prop := {
  co_conditions : om_sorted cs;
  co_completed : om_sorted cm;
  co_waiter c cv w : om_find c cs = Some cv -> w ∈ cv_waiters cv -> cw_condition_handle w = c;
  co_thread t w : om_find t cm = Some w -> cw_thread w = t;
  co_balanced : balanced (waits cs cm) cs ms
}.

(** A completed wait finds both its objects, with positive counts. *)
Lemma completed_live cs cm ms t w :
  conditions_ok cs cm ms -> om_find t cm = Some w ->
  (0 < active_of (cw_condition_handle w) cs)%nat /\ (0 < mutex_waits_of (cw_mutex_handle w) ms)%nat.
Proof.
  intros [Hs Hsm _ _ [A B]] Hf. specialize (A (cw_condition_handle w)). specialize (B (cw_mutex_handle w)).
  unfold waits in A, B. rewrite (completed_waits_find cm Hsm t w Hf), <- Permutation_middle in A, B.
  rewrite tally_cons, decide_True in A by done. rewrite tally_cons, decide_True in B by done. lia.
Qed.

Definition conditions p : Prop :=
  conditions_ok (conditions_ p) (completed_condition_waits_ p) (mutexes_ p).

(** ** Lock operations leave the accounts alone *)

Definition same_object mu mu' : Prop :=
  mx_type mu' = mx_type mu /\ mx_protocol mu' = mx_protocol mu /\
  mx_condition_waiter_count mu' = mx_condition_waiter_count mu /\
  mx_guest_object_slot mu' = mx_guest_object_slot mu.

(** Only the lock fields of the mutexes, the read-write locks and the kernel
    differ. *)
Record only_locks p p' : Prop := {
  ol_mutexes m : option_Forall2 same_object (om_find m (mutexes_ p)) (om_find m (mutexes_ p'));
  ol_rest : p' = {| p with mutexes_ := mutexes_ p'; pt_kernel := pt_kernel p' |}
}.

Lemma same_object_refl mu : same_object mu mu.
Proof. by split_and!. Qed.

Lemma same_objects_refl (o : option MutexState) : option_Forall2 same_object o o.
Proof. destruct o; constructor. apply same_object_refl. Qed.
#[export] Hint Resolve same_object_refl same_objects_refl : kernel.

Lemma only_locks_refl p : only_locks p p.
Proof. split; [auto with kernel|by destruct p]. Qed.

Lemma only_locks_set h mu mu' p k :
  om_find h (mutexes_ p) = Some mu -> same_object mu mu' ->
  only_locks p {| (set_mutex h mu' p) with pt_kernel := k |}.
Proof.
  intros Hf Hs. split; [|done]. intros m. simpl. rewrite om_find_update.
  case_decide as Hd; [subst m|auto with kernel]. rewrite Hf. by constructor.
Qed.

Lemma only_locks_waits p p' m :
  only_locks p p' -> mutex_waits_of m (mutexes_ p') = mutex_waits_of m (mutexes_ p).
Proof.
  intros [Hm _]. specialize (Hm m). unfold mutex_waits_of.
  inversion Hm as [? ? (_ & _ & ? & _)|]; done.
Qed.

Lemma only_locks_conditions p p' : only_locks p p' -> conditions p -> conditions p'.
Proof.
  intros Ho [Hs Hsm Hw Ht Hb]. pose proof (ol_rest _ _ Ho) as Hr.
  assert (Hc : conditions_ p' = conditions_ p) by (by rewrite Hr).
  assert (Hcm : completed_condition_waits_ p' = completed_condition_waits_ p) by (by rewrite Hr).
  unfold conditions. rewrite Hc, Hcm. split; try done.
  eapply balanced_same; [done| |exact Hb]. intros m. by apply only_locks_waits.
Qed.

Section operations.
Context `{ClockSource}.

Lemma set_mutex_only_locks h mu mu' p :
  om_find h (mutexes_ p) = Some mu -> same_object mu mu' -> only_locks p (set_mutex h mu' p).
Proof. intros Hf Hs. by apply (only_locks_set h mu mu' p (pt_kernel p)). Qed.

Lemma LockMutex_only_locks h try_only p : locks p -> only_locks p (LockMutex h try_only p).1.
Proof.
  intros Hl. unfold LockMutex. destruct (pt_current p) as [current|] eqn:Hc; [|apply only_locks_refl].
  destruct (om_find h (mutexes_ p)) as [mu|] eqn:Hf; [|apply only_locks_refl].
  pose proof (set_mutex_only_locks h mu) as Hset.
  assert (Hrec : only_locks p (recurse_mutex h mu p).1).
  { unfold recurse_mutex. destruct (_ =? u32_max); [apply only_locks_refl|by apply Hset]. }
  destruct (mx_owner mu =? kInvalidKernelHandle) eqn:E0; [by apply Hset|].
  destruct (mx_owner mu =? current) eqn:E1.
  { repeat split_match; try apply only_locks_refl; try exact Hrec; by apply Hset. }
  destruct try_only; [apply only_locks_refl|].
  destruct (lock_blocks h mu p current Hl Hf Hc) as [Heq _];
    [unfold kInvalidKernelHandle in E0; lia|lia|].
  unfold LockMutex in Heq. rewrite Hc, Hf, E0, E1 in Heq. rewrite Heq. simpl.
  eapply only_locks_set; [exact Hf|by split_and!].
Qed.

Lemma Grant_same_object h mu : same_object mu (GrantNextMutexWaiterLocked h mu).1.
Proof. unfold GrantNextMutexWaiterLocked. destruct (mx_waiters mu); by split_and!. Qed.

Lemma UnlockMutex_only_locks h p : only_locks p (UnlockMutex h p).1.
Proof.
  unfold UnlockMutex. destruct (pt_current p) as [current|]; [|apply only_locks_refl].
  destruct (om_find h (mutexes_ p)) as [mu|] eqn:Hf; [|apply only_locks_refl].
  destruct (negb _); [apply only_locks_refl|]. destruct (_ =? 0); [apply only_locks_refl|].
  cbv zeta. destruct (negb _); [by eapply set_mutex_only_locks|].
  match goal with |- context [GrantNextMutexWaiterLocked h ?m] =>
    pose proof (Grant_same_object h m) as Hg end.
  destruct (GrantNextMutexWaiterLocked _ _) as [mu' key]. simpl in Hg.
  case_bool_decide; [by eapply set_mutex_only_locks|by eapply only_locks_set].
Qed.

(** ** Waiting *)

(** A fresh wait by the owner, held once: the thread is registered, the mutex is
    released and the thread blocks; the undo paths are not taken. *)
Lemma condition_wait_fresh_eq c m current deadline p :
  locks p -> pt_current p = Some current -> is_u64 c ->
  condition_wait_fresh c m current deadline p =
  match om_find c (conditions_ p), om_find m (mutexes_ p) with
  | Some cv, Some mu =>
      if negb (mx_owner mu =? current) then (p, kPermissionDenied)
      else if negb (mx_recursion_count mu =? 1) then (p, kInvalidArgument)
      else
        let p2 := (UnlockMutex m (wait_register c m current deadline p)).1 in
        ({| p2 with pt_kernel :=
              (BlockCurrentLocked (ConditionWaitKey c current) deadline (pt_kernel p2)).1 |},
         kWouldBlock)
  | _, _ => (p, kNotFound)
  end.
Proof.
  intros Hl Hc Hu. unfold condition_wait_fresh.
  destruct (om_find c (conditions_ p)) as [cv|]; [|done].
  destruct (om_find m (mutexes_ p)) as [mu|] eqn:Hf; [|done].
  destruct (mx_owner mu =? current) eqn:E0; [|done]. simpl.
  destruct (mx_recursion_count mu =? 1) eqn:E1; [|done]. cbn zeta.
  assert (Hun : exists p2, UnlockMutex m (wait_register c m current deadline p) = (p2, kOk) /\
                  pt_current p2 = Some current /\ kernel_ok (pt_kernel p2)).
  { assert (Hl1 : locks (wait_register c m current deadline p)).
    { apply locks_update_mutex; [done|]. intros mu0 _ []. split; [by split|done]. }
    pose proof (UnlockMutex_locks m _ Hl1) as Hl2. revert Hl2.
    unfold UnlockMutex. change (pt_current (wait_register c m current deadline p)) with (pt_current p).
    rewrite Hc. simpl. rewrite om_find_update, decide_True, Hf by done. simpl. rewrite E0.
    replace (mx_recursion_count mu =? 0) with false by lia.
    replace (mx_recursion_count mu - 1 =? 0) with true by lia. simpl.
    destruct (GrantNextMutexWaiterLocked _ _) as [mu' key]. case_bool_decide; intros Hl2;
      (eexists; split_and!; [done| |apply Hl2]); [done|].
    unfold pt_current in *. simpl. by rewrite WakeBlockedThreads_current. }
  destruct Hun as (p2 & Heq & Hc2 & Hk2). rewrite Heq. simpl.
  pose proof (proj1 (so_current _ (ko_sched _ Hk2) current) Hc2) as (th & Ht & Hs).
  unfold BlockCurrentUntil, BlockCurrent, BlockCurrentLocked.
  rewrite bool_decide_eq_false_2 by (apply (key_string_nonempty (PthreadConditionKey c current))).
  rewrite (proj2 (running_thread_Some _ current th)) by done. by destruct deadline.
Qed.

Lemma wait_register_locks c m current d p : locks p -> locks (wait_register c m current d p).
Proof.
  intros Hl. apply locks_update_mutex; [done|]. intros mu0 _ []. split; [by split|done].
Qed.

(** Blocking on a condition key does not disturb the lock queues. *)
Lemma block_condition_locks c current d p :
  locks p -> pt_current p = Some current -> is_u64 c ->
  locks {| p with pt_kernel :=
             (BlockCurrentLocked (ConditionWaitKey c current) d (pt_kernel p)).1 |}.
Proof.
  intros Hl Hc Hu. pose proof Hl as [Hk Ho Hm Hr Hp].
  pose proof (current_u64 _ _ Hk Hc) as Hcu. split; simpl; try done.
  - by apply BlockCurrentLocked_ok.
  - eapply (own_keys_block (PthreadConditionKey c current)); try done. simpl. u64_lia.
  - intros t key Hq. specialize (Hp t key Hq).
    apply (BlockCurrentLocked_quiet (eq (key_string key)) (ConditionWaitKey c current) d); try done.
    intros Heq. destruct (queued_u64 _ _ _ _ _ Hk Hm Hr (lo_parked _ _ _ Hl) Hq) as (Hku & _).
    apply (key_string_inj _ (PthreadConditionKey c current)) in Heq; [|done|simpl; u64_lia].
    subst key. inversion Hq.
Qed.

Lemma wait_fresh_locks c m current d p :
  locks p -> pt_current p = Some current -> is_u64 c -> locks (condition_wait_fresh c m current d p).1.
Proof.
  intros Hl Hc Hu. rewrite condition_wait_fresh_eq by done.
  destruct (om_find c (conditions_ p)); [|done]. destruct (om_find m (mutexes_ p)); [|done].
  destruct (negb _); [done|]. destruct (negb _); [done|]. simpl.
  pose proof (UnlockMutex_locks m _ (wait_register_locks c m current d p Hl)) as Hl2.
  pose proof (UnlockMutex_only_locks m (wait_register c m current d p)) as Ho.
  apply block_condition_locks; [done| |done].
  unfold UnlockMutex in *. unfold pt_current in *. simpl pt_kernel at 1. rewrite Hc.
  repeat split_match; simpl; try done. by rewrite WakeBlockedThreads_current.
Qed.

Lemma wait_register_conditions c m current d p :
  is_Some (om_find c (conditions_ p)) -> is_Some (om_find m (mutexes_ p)) ->
  conditions p -> conditions (wait_register c m current d p).
Proof.
  intros Hcs Hms [Hs Hsm Hw Ht Hb]. unfold conditions. split; simpl; try done.
  - by apply om_update_sorted.
  - intros c' cv' w. rewrite om_find_update. case_decide as Hd; [|apply Hw]. subst c'.
    destruct (om_find c (conditions_ p)) as [cv|] eqn:E; [|done]. intros [= <-]. simpl.
    intros [Hin| ->%list_elem_of_singleton]%elem_of_app; [by eapply Hw|done].
  - destruct Hcs as [cv Hcv]. eapply balanced_perm; [|apply (balanced_add c m); [by exists cv|exact Hms| | |exact Hb]].
    + unfold waits. rewrite (queue_waits_update _ Hs c _ cv Hcv). simpl.
      rewrite (queue_waits_find _ Hs c cv Hcv), fmap_app. simpl.
      rewrite <- !app_assoc. simpl. apply Permutation_middle.
    + done.
    + done.
Qed.

Lemma wait_fresh_conditions c m current d p :
  locks p -> pt_current p = Some current -> is_u64 c -> conditions p ->
  conditions (condition_wait_fresh c m current d p).1.
Proof.
  intros Hl Hc Hu Hco. rewrite condition_wait_fresh_eq by done.
  destruct (om_find c (conditions_ p)) eqn:E1; [|done].
  destruct (om_find m (mutexes_ p)) eqn:E2; [|done].
  destruct (negb _); [done|]. destruct (negb _); [done|]. simpl.
  apply (only_locks_conditions _ _ (UnlockMutex_only_locks m _)).
  apply wait_register_conditions; eauto.
Qed.
End operations.

(** Condition variables of [kernel::PthreadService]: completion, signalling and
    thread exit keep the accounts and the lock queues. *)


(** ** Signalling *)

Section signal.
Context (h now : Z) (broadcast : bool).

(** The waiters a signal releases: the overdue ones at the front, and then the
    first that is not, or all of them for a broadcast. *)
Definition overdue (w : ConditionWaiter) : bool :=
  match cw_deadline w with Some d => d <=? now | None => false end.

Fixpoint signalled (ws : list ConditionWaiter) : list ConditionWaiter :=
  match ws with
  | [] => []
  | w :: rest => if overdue w || broadcast then w :: signalled rest else [w]
  end.

Definition completed_as (w : ConditionWaiter) : ConditionWaiter :=
  if overdue w then {| w with cw_timed_out := true |} else w.

Definition complete_all (ws : list ConditionWaiter) cm : list (Z * ConditionWaiter) :=
  foldl (fun cm w => om_set (cw_thread w) (completed_as w) cm) cm ws.

Lemma signal_loop_eq (ws : list ConditionWaiter) cm keys :
  signal_loop h now broadcast ws cm keys =
  (drop (length (signalled ws)) ws, complete_all (signalled ws) cm,
   keys ++ ((fun w => ConditionWaitKey h (cw_thread w)) <$> signalled ws)).
Proof.
  revert cm keys. induction ws as [|w ws IH]; intros cm keys; cbn [signal_loop signalled].
  { by rewrite app_nil_r. }
  fold (overdue w). unfold complete_all in *.
  destruct (overdue w) eqn:Eo; simpl orb.
  - rewrite IH, fmap_cons. simpl. unfold completed_as. rewrite Eo. by rewrite <- app_assoc.
  - destruct broadcast eqn:Eb.
    + rewrite IH, fmap_cons. simpl. unfold completed_as. rewrite Eo. by rewrite <- app_assoc.
    + simpl. unfold completed_as. by rewrite Eo, drop_0.
Qed.

Lemma signalled_prefix (ws : list ConditionWaiter) : exists rest, ws = signalled ws ++ rest /\ drop (length (signalled ws)) ws = rest.
Proof.
  induction ws as [|w ws (rest & E1 & E2)]; [by exists []|]. cbn [signalled].
  destruct (_ || _); simpl; [|by exists ws; rewrite drop_0].
  exists rest. by rewrite E2, <- E1.
Qed.

Lemma complete_all_sorted (ws : list ConditionWaiter) cm : om_sorted cm -> om_sorted (complete_all ws cm).
Proof.
  unfold complete_all. revert cm. induction ws as [|w ws IH]; intros cm Hs; simpl; [done|].
  apply IH. by apply om_set_sorted.
Qed.

Lemma complete_all_thread (ws : list ConditionWaiter) cm t w :
  om_sorted cm -> (forall t w, om_find t cm = Some w -> cw_thread w = t) ->
  om_find t (complete_all ws cm) = Some w -> cw_thread w = t.
Proof.
  unfold complete_all. revert cm. induction ws as [|w' ws IH]; intros cm Hs Ht; simpl; [by apply Ht|].
  apply IH; [by apply om_set_sorted|]. intros t' x. rewrite om_find_set by done.
  case_decide as Hd; [|apply Ht]. subst t'. intros [= <-]. unfold completed_as. by destruct (overdue w').
Qed.

Lemma wait_ids_completed w : wait_ids (completed_as w) = wait_ids w.
Proof. unfold completed_as. by destruct (overdue w). Qed.

Lemma complete_all_waits (ws : list ConditionWaiter) cm :
  om_sorted cm -> completed_waits (complete_all ws cm) ⊆+ (wait_ids <$> ws) ++ completed_waits cm.
Proof.
  unfold complete_all. revert cm. induction ws as [|w ws IH]; intros cm Hs; simpl; [done|].
  etrans; [apply IH; by apply om_set_sorted|].
  rewrite (completed_waits_set cm Hs), wait_ids_completed. rewrite <- Permutation_middle.
  apply submseteq_skip, submseteq_skips_l. by apply completed_waits_erase.
Qed.

(** Every waiter a signal releases is in the table of completed waits. *)
Lemma complete_all_find (ws : list ConditionWaiter) cm t :
  om_sorted cm ->
  om_find t (complete_all ws cm) =
  match last (filter (fun w => cw_thread w = t) ws) with
  | Some w => Some (completed_as w)
  | None => om_find t cm
  end.
Proof.
  unfold complete_all. revert cm. induction ws as [|w ws IH]; intros cm Hs; simpl; [done|].
  rewrite IH by (by apply om_set_sorted). rewrite om_find_set by done. rewrite filter_cons.
  destruct (decide (t = cw_thread w)) as [->|Hne]; [|by rewrite decide_False].
  rewrite decide_True by done. destruct (filter _ ws) as [|x l]; [done|].
  rewrite last_cons_cons. destruct (last (x :: l)) eqn:El; [done|]. by apply last_None in El.
Qed.
End signal.

Section operations.
Context `{ClockSource}.

Lemma condition_key_not_queued ms rs c t : ~ queue_key ms rs (ConditionWaitKey c t).
Proof. intros (u & key & Hq & Heq). by destruct Hq. Qed.

Lemma locks_with_clock p c :
  locks p -> locks {| p with pt_kernel := with_clock (pt_kernel p) c |}.
Proof.
  intros Hl. apply (locks_ok_kernel _ _ (pt_kernel p)); [|by apply quiet_threads|exact Hl].
  destruct (lo_kernel _ _ _ Hl). by split.
Qed.

Lemma SignalCondition_locks h b p : locks p -> locks (SignalCondition h b p).1.
Proof.
  intros Hl. unfold SignalCondition. destruct (om_find h (conditions_ p)) as [cv|]; [|done].
  unfold MonotonicNanoseconds. rewrite signal_loop_eq. simpl.
  match goal with |- locks {| pt_kernel := wake_each _ (with_clock _ ?c) |} =>
    pose proof (locks_with_clock p c Hl) as Hl1 end.
  apply locks_ok_wake; [|exact Hl1]. apply Forall_fmap, Forall_forall.
  intros w _. apply condition_key_not_queued.
Qed.

Lemma SignalCondition_conditions h b p : conditions p -> conditions (SignalCondition h b p).1.
Proof.
  intros [Hs Hsm Hw Ht Hb]. unfold SignalCondition.
  destruct (om_find h (conditions_ p)) as [cv|] eqn:E; [|by split].
  unfold MonotonicNanoseconds. rewrite signal_loop_eq. simpl. set (now := source_monotonic _).
  destruct (signalled_prefix now b (cv_waiters cv)) as (rest & E1 & E2). rewrite E2.
  split; simpl.
  - by apply om_update_sorted.
  - by apply complete_all_sorted.
  - intros c' cv' w. rewrite om_find_update. case_decide as Hd; [|apply Hw]. subst c'. rewrite E.
    intros [= <-] Hin. apply (Hw h cv); [done|]. rewrite E1. apply elem_of_app. by right.
  - intros t w. by apply complete_all_thread.
  - eapply balanced_sub; [|eapply balanced_same; [| |exact Hb]].
    + unfold waits. rewrite (queue_waits_update _ Hs h _ cv E), (queue_waits_find _ Hs h cv E). simpl.
      rewrite E1 at 2. rewrite fmap_app, <- !app_assoc.
      rewrite (Permutation_app_comm (wait_ids <$> signalled _ _ _)), <- !app_assoc.
      apply submseteq_skips_l, submseteq_skips_l.
      rewrite (Permutation_app_comm (completed_waits (completed_condition_waits_ p))).
      by apply complete_all_waits.
    + intros c. rewrite active_of_update. unfold active_of. destruct (om_find c _); [by case_decide|done].
    + done.
Qed.

(** ** Finding a wait that has ended *)

Lemma consume_locks key p :
  locks p -> locks {| p with pt_kernel := (ConsumeCurrentThreadTimeout key (pt_kernel p)).1 |}.
Proof.
  intros Hl. apply (locks_ok_kernel _ _ (pt_kernel p));
    [|apply ConsumeCurrentThreadTimeout_quiet|exact Hl].
  by apply ConsumeCurrentThreadTimeout_ok, Hl.
Qed.

Lemma wait_resume_locks c m current b p : locks p -> locks (wait_resume c m current b p).1.
Proof.
  intros Hl. unfold wait_resume. repeat (split_match; try done); simpl;
    simplify_eq; by apply locks_with_clock.
Qed.

Lemma find_erase_first_perm {A} (f : A -> bool) l x : find f l = Some x -> l ≡ₚ x :: erase_first f l.
Proof.
  induction l as [|y l IH]; simpl; [done|]. destruct (f y); [by intros [= ->]|].
  intros Hf. rewrite (IH Hf) at 1. apply Permutation_swap.
Qed.

Lemma wait_resume_conditions c m current b p :
  conditions p -> conditions (wait_resume c m current b p).1.
Proof.
  intros Hco. unfold wait_resume.
  destruct (om_find current (completed_condition_waits_ p)) as [w|] eqn:Ec; [by split_match|].
  destruct (negb b); [done|].
  destruct (om_find c (conditions_ p)) as [cv|] eqn:E; [|done].
  destruct (find _ (cv_waiters cv)) as [w|] eqn:Ef; [|done].
  destruct (cw_deadline w) as [d|]; [|done]. unfold MonotonicNanoseconds.
  destruct (d >? _); [done|]. destruct Hco as [Hs Hsm Hw Ht Hb]. split; simpl.
  - by apply om_update_sorted.
  - by apply om_set_sorted.
  - intros c' cv' w'. rewrite om_find_update. case_decide as Hd; [|apply Hw]. subst c'. rewrite E.
    intros [= <-] Hin. apply (Hw c cv); [done|]. by eapply erase_first_elem.
  - intros t w'. rewrite om_find_set by done. case_decide as Hd; [|apply Ht]. subst t.
    intros [= <-]. simpl. apply find_elem in Ef as [_ Ew]. unfold is_waiter_of in Ew. lia.
  - eapply balanced_perm; [|eapply balanced_same; [| |exact Hb]].
    + unfold waits. rewrite (queue_waits_update _ Hs c _ cv E), (queue_waits_find _ Hs c cv E). simpl.
      rewrite (find_erase_first_perm _ _ _ Ef) at 1. rewrite fmap_cons.
      rewrite (completed_waits_set _ Hsm), (om_erase_fresh current) by done.
      rewrite <- !app_comm_cons. apply Permutation_middle.
    + intros c'. rewrite active_of_update. unfold active_of. destruct (om_find c' _); [by case_decide|done].
    + done.
Qed.

(** ** Finishing a wait *)

Lemma wait_complete_locks c m current p : locks p -> locks (wait_complete c m current p).1.
Proof.
  intros Hl. unfold wait_complete. pose proof (LockMutex_locks m false p Hl) as Hl1.
  destruct (LockMutex m false p) as [p1 st]. simpl in Hl1.
  repeat (split_match; try done); by apply locks_drop_waiter.
Qed.

(** The completed wait of the running thread is finished as soon as the mutex
    can be locked again: with [kTimedOut] if it timed out. *)
Lemma wait_complete_eq c m current w p :
  locks p -> conditions p -> om_find current (completed_condition_waits_ p) = Some w ->
  cw_condition_handle w = c -> cw_mutex_handle w = m ->
  wait_complete c m current p =
  let '(p1, st) := LockMutex m false p in
  if negb (status_eqb st kOk) then (p1, st)
  else ({| p1 with
             conditions_ := om_update c drop_active (conditions_ p1);
             mutexes_ := om_update m drop_condition_waiter (mutexes_ p1);
             completed_condition_waits_ := om_erase current (completed_condition_waits_ p1) |},
        if cw_timed_out w then kTimedOut else kOk).
Proof.
  intros Hl Hco Hf <- <-. unfold wait_complete.
  pose proof (LockMutex_only_locks (cw_mutex_handle w) false p Hl) as Hol.
  destruct (LockMutex _ false p) as [p1 st]. destruct (negb _); [done|]. simpl in Hol.
  pose proof (only_locks_conditions _ _ Hol Hco) as Hco1.
  assert (Hcm : completed_condition_waits_ p1 = completed_condition_waits_ p) by (by rewrite (ol_rest _ _ Hol)).
  rewrite Hcm, Hf. rewrite <- Hcm in Hf. destruct (completed_live _ _ _ _ _ Hco1 Hf) as [Ha Hm].
  unfold active_of, mutex_waits_of in Ha, Hm.
  destruct (om_find _ (conditions_ p1)) as [cv|]; [|lia].
  destruct (om_find _ (mutexes_ p1)) as [mu|]; [|lia].
  replace (cv_active_waiter_count cv =? 0)%nat with false by (symmetry; apply Nat.eqb_neq; lia).
  replace (mx_condition_waiter_count mu =? 0)%nat with false by (symmetry; apply Nat.eqb_neq; lia).
  done.
Qed.

(** Taking one completed wait off the accounts. *)
Lemma conditions_finish cs cm ms t w :
  conditions_ok cs cm ms -> om_find t cm = Some w ->
  conditions_ok (om_update (cw_condition_handle w) drop_active cs) (om_erase t cm)
    (om_update (cw_mutex_handle w) drop_condition_waiter ms).
Proof.
  intros [Hs Hsm Hw Ht Hb] Hf. split.
  - by apply om_update_sorted.
  - by apply om_erase_sorted.
  - intros c' cv' w'. rewrite om_find_update. case_decide as Hd; [|apply Hw]. subst c'.
    destruct (om_find (cw_condition_handle w) cs) as [cv|] eqn:E; [|done]. intros [= <-].
    by apply (Hw _ cv).
  - intros t' w'. rewrite om_find_erase. case_decide; [done|apply Ht].
  - apply balanced_drop; [done|]. eapply balanced_perm; [|exact Hb]. unfold waits.
    rewrite (queue_waits_keep cs Hs) by done.
    by rewrite (completed_waits_find cm Hsm t w Hf), <- Permutation_middle.
Qed.

Lemma wait_complete_conditions c m current p :
  locks p -> conditions p ->
  (forall w, om_find current (completed_condition_waits_ p) = Some w ->
     cw_condition_handle w = c /\ cw_mutex_handle w = m) ->
  conditions (wait_complete c m current p).1.
Proof.
  intros Hl Hco Hw. pose proof (LockMutex_only_locks m false p Hl) as Hol.
  destruct (om_find current (completed_condition_waits_ p)) as [w|] eqn:E.
  - destruct (Hw w eq_refl) as [<- <-]. rewrite (wait_complete_eq _ _ current w p) by done.
    destruct (LockMutex _ false p) as [p1 st]. simpl in Hol.
    pose proof (only_locks_conditions _ _ Hol Hco) as Hco1. destruct (negb _); [done|].
    apply conditions_finish; [exact Hco1|]. by rewrite (ol_rest _ _ Hol).
  - unfold wait_complete. destruct (LockMutex _ false p) as [p1 st]. simpl in Hol.
    pose proof (only_locks_conditions _ _ Hol Hco) as Hco1. destruct (negb _); [done|].
    by rewrite (ol_rest _ _ Hol); simpl; rewrite E, <- (ol_rest _ _ Hol).
Qed.

(** ** The whole wait *)

Lemma wait_resume_current c m current b p :
  pt_current (wait_resume c m current b p).1 = pt_current p.
Proof. unfold wait_resume. by repeat (split_match; try done). Qed.

Lemma consume_current key k :
  current_thread_ (scheduler_ (ConsumeCurrentThreadTimeout key k).1) = current_thread_ (scheduler_ k).
Proof. unfold ConsumeCurrentThreadTimeout. by repeat (split_match; try done). Qed.

Lemma wait_resume_completing c m current b p :
  conditions p -> (wait_resume c m current b p).2 = WaitCompleting ->
  forall w, om_find current (completed_condition_waits_ (wait_resume c m current b p).1) = Some w ->
  cw_condition_handle w = c /\ cw_mutex_handle w = m.
Proof.
  intros [Hs Hsm Hw Ht Hb]. unfold wait_resume.
  destruct (om_find current (completed_condition_waits_ p)) as [w|] eqn:E.
  { destruct (_ || _) eqn:Eo; [done|]. intros _ w'. simpl. rewrite E. intros [= <-].
    apply orb_false_iff in Eo. lia. }
  destruct (negb b); [done|]. destruct (om_find c (conditions_ p)) as [cv|] eqn:Ec; [|done].
  destruct (find _ (cv_waiters cv)) as [w|] eqn:Ef; [|done]. destruct (cw_deadline w); [|done].
  unfold MonotonicNanoseconds. destruct (_ >? _); [done|]. intros _ w'. simpl.
  rewrite om_find_set, decide_True by done. intros [= <-]. simpl.
  apply find_elem in Ef as [Hin Ew]. unfold is_waiter_of in Ew.
  split; [by eapply Hw|lia].
Qed.

Lemma WaitConditionInternal_ok c m d p :
  locks p -> conditions p -> is_u64 c ->
  locks (WaitConditionInternal c m d p).1 /\ conditions (WaitConditionInternal c m d p).1.
Proof.
  intros Hl Hco Hu. unfold WaitConditionInternal.
  destruct (pt_current p) as [current|] eqn:Hc; [|done].
  pose proof (consume_locks (ConditionWaitKey c current) p Hl) as Hl0.
  pose proof (consume_current (ConditionWaitKey c current) (pt_kernel p)) as Hc0.
  destruct (ConsumeCurrentThreadTimeout _ _) as [k b]. simpl in Hl0, Hc0.
  set (p0 := {| p with pt_kernel := k |}) in *. assert (Hco0 : conditions p0) by exact Hco.
  pose proof (wait_resume_locks c m current b p0 Hl0) as Hl1.
  pose proof (wait_resume_conditions c m current b p0 Hco0) as Hco1.
  pose proof (wait_resume_current c m current b p0) as Hc1.
  pose proof (wait_resume_completing c m current b p0 Hco0) as Hcp.
  destruct (wait_resume c m current b p0) as [p1 phase]. cbn [fst snd] in *.
  assert (Hcur : pt_current p1 = Some current).
  { rewrite Hc1. unfold pt_current, p0 in *. simpl. congruence. }
  destruct phase; [done| |].
  - split; [by apply wait_complete_locks|by apply wait_complete_conditions, Hcp].
  - split; [by apply wait_fresh_locks|by apply wait_fresh_conditions].
Qed.

Lemma exit_completed_conditions current p : conditions p -> conditions (exit_completed_wait current p).
Proof.
  intros Hco. unfold exit_completed_wait. destruct (om_find current _) as [w|] eqn:E; [|done].
  by apply conditions_finish.
Qed.

Lemma exit_mutex_same current h mu : same_object mu (exit_mutex current h mu).1.
Proof.
  unfold exit_mutex. destruct (negb _); [apply same_object_refl|].
  match goal with |- context [GrantNextMutexWaiterLocked h ?m] =>
    pose proof (Grant_same_object h m) as Hg end.
  by destruct (GrantNextMutexWaiterLocked _ _).
Qed.

Lemma Pthread_ExitCurrent_conditions v p : conditions p -> conditions (Pthread_ExitCurrent v p).1.
Proof.
  intros Hco. unfold Pthread_ExitCurrent. destruct (pt_current p) as [current|]; [|done].
  pose proof (exit_completed_conditions current p Hco) as [Hs Hsm Hw Ht Hb].
  rewrite exit_mutexes_eq, exit_rwlocks_eq. destruct (ExitCurrent _ _) as [k' b].
  unfold conditions. simpl. split; try done.
  eapply balanced_same; [done| |exact Hb]. intros m. unfold mutex_waits_of.
  rewrite om_find_map_values. destruct (om_find m _) as [mu|]; [|done]. simpl.
  by destruct (exit_mutex_same current m mu) as (_ & _ & -> & _).
Qed.
End operations.
