(* ===== verification/PthreadInv.v ===== *)
(** The invariant of [kernel::PthreadService] and its reachable states.

    Besides the locks and the condition accounts: the guest arena's slot table
    names exactly the guest objects, thread-specific values exist only for live
    keys, and synthetic handles are below the next one to be issued_handle. *)
From S2P Require Import Prelude Ranges OrderedMap WaitKeys HandleTable Objects Clock Scheduler.
From S2P Require Import SchedulerInv SchedulerProps WakeAll SharedBacking GuestMemory Pthread.
From S2P Require Import PthreadLocks PthreadRwlocks PthreadConditions.

Implicit Types (p : PthreadService) (mu : MutexState) (rw : RwlockState) (k : Kernel).
Implicit Types (ms : list (Z * MutexState)) (rs : list (Z * RwlockState)).

(** ** The guest object arena *)

Record arena_ok ms rs (attached : bool) (address : Z) (slots : list bool) : Prop := {
  ar_length : length slots = kPthreadMutexArenaSlotCount;
  ar_bounds : attached = true -> 1 <= address <= u64_max - kPthreadMutexArenaSize;
  ar_mutex h mu s : om_find h ms = Some mu -> mx_guest_object_slot mu = Some s ->
    attached = true /\ slots !! s = Some true /\ h = address + slot_offset s;
  ar_rwlock h rw : om_find h rs = Some rw ->
    attached = true /\ slots !! rw_guest_object_slot rw = Some true /\
    h = address + slot_offset (rw_guest_object_slot rw);
  ar_used s : slots !! s = Some true ->
    (exists mu, om_find (address + slot_offset s) ms = Some mu /\ mx_guest_object_slot mu = Some s) \/
    (exists rw, om_find (address + slot_offset s) rs = Some rw /\ rw_guest_object_slot rw = s);
  ar_disjoint h : om_find h ms = None \/ om_find h rs = None
}.

Definition arena p : Prop :=
  arena_ok (mutexes_ p) (rwlocks_ p) (guest_mutex_memory_ p) (guest_mutex_arena_address_ p)
    (guest_mutex_slots_ p).

Lemma slot_offset_inj s s' : slot_offset s = slot_offset s' -> s = s'.
Proof. unfold slot_offset, kPthreadMutexObjectSize. lia. Qed.

(** Only the set of objects and their slots matter. *)
Lemma arena_same ms ms' rs rs' a addr slots :
  (forall h, option_Forall2 (fun x y => mx_guest_object_slot y = mx_guest_object_slot x)
     (om_find h ms) (om_find h ms')) ->
  (forall h, option_Forall2 (fun x y => rw_guest_object_slot y = rw_guest_object_slot x)
     (om_find h rs) (om_find h rs')) ->
  arena_ok ms rs a addr slots -> arena_ok ms' rs' a addr slots.
Proof.
  intros Hm Hr [Hlen Hbd Hmu Hrw Hus Hdj]. split; try done.
  - intros h mu s Hf Hs. specialize (Hm h). rewrite Hf in Hm. inversion Hm as [x y Heq E1 E2|]; subst.
    eapply Hmu; [symmetry; exact E1|congruence].
  - intros h rw Hf. specialize (Hr h). rewrite Hf in Hr. inversion Hr as [x y Heq E1 E2|]; subst.
    rewrite Heq. by apply Hrw.
  - intros s Hs. destruct (Hus s Hs) as [(mu & Hf & Hsl)|(rw & Hf & Hsl)].
    + left. specialize (Hm (addr + slot_offset s)). rewrite Hf in Hm.
      inversion Hm as [x y Heq E1 E2|]; subst. exists y. split; [done|congruence].
    + right. specialize (Hr (addr + slot_offset s)). rewrite Hf in Hr.
      inversion Hr as [x y Heq E1 E2|]; subst. exists y. split; [done|congruence].
  - intros h. specialize (Hm h). specialize (Hr h). destruct (Hdj h) as [E|E]; rewrite E in *.
    + left. by inversion Hm.
    + right. by inversion Hr.
Qed.

(** ** Thread-specific data *)

Record tls_ok (keys : list (option Z)) (values : list (Z * list (Z * Z))) : Prop := {
  tl_length : length keys = kMaximumPthreadKeys;
  tl_sorted : om_sorted values;
  tl_each t vs : om_find t values = Some vs -> om_sorted vs /\ vs <> [] /\
    forall key v, om_find key vs = Some v -> 0 <= key /\ exists d, keys !! Z.to_nat key = Some (Some d)
}.

Definition tls p : Prop := tls_ok (keys_ p) (specific_values_ p).

(** ** Handles and attributes *)

(** Synthetic handles are [base + id] for ids issued_handle so far. *)
Definition issued_handle (base next h : Z) : Prop := base < h < base + next.
Definition next_ok (base next : Z) : Prop := 1 <= next <= u64_max - base + 1.

Record ids_ok p : Prop := {
  id_attributes : om_sorted (attributes_ p);
  id_snapshots : om_sorted (thread_attribute_snapshots_ p);
  id_mutex_attributes : om_sorted (mutex_attributes_ p);
  id_threads : om_sorted (pthreads_ p);
  id_next_attribute : next_ok kSyntheticAttributeHandleBase (next_attribute_id_ p);
  id_next_mutex_attribute : next_ok kSyntheticMutexAttributeHandleBase (next_mutex_attribute_id_ p);
  id_next_condition : next_ok kSyntheticConditionHandleBase (next_condition_id_ p);
  id_next_mutex : 0 <= next_mutex_id_ p <= u64_max - kSyntheticMutexHandleBase;
  id_attribute h : is_Some (om_find h (attributes_ p)) \/
      is_Some (om_find h (thread_attribute_snapshots_ p)) ->
    issued_handle kSyntheticAttributeHandleBase (next_attribute_id_ p) h;
  id_mutex_attribute h a : om_find h (mutex_attributes_ p) = Some a ->
    issued_handle kSyntheticMutexAttributeHandleBase (next_mutex_attribute_id_ p) h /\
    IsMutexTypeValid (ma_type a) = true /\ IsMutexProtocolValid (ma_protocol a) = true;
  id_condition h : is_Some (om_find h (conditions_ p)) ->
    issued_handle kSyntheticConditionHandleBase (next_condition_id_ p) h
}.

Record pthread_ok p : Prop := {
  po_locks : locks p;
  po_conditions : conditions p;
  po_arena : arena p;
  po_tls : tls p;
  po_ids : ids_ok p
}.

Lemma PthreadService_init_ok k m : kernel_ok k -> own_keys k -> pthread_ok (PthreadService_init k m).
Proof.
  intros Hk Ho. split; unfold locks, conditions, arena, tls.
  - split; simpl; try done; try by split; auto with kernel.
    intros t key Hq. by inversion Hq.
  - split; simpl; auto with kernel; try done.
  - split; simpl; try done; [|by left].
    intros s Hs%list_elem_of_lookup_2. by apply elem_of_replicate in Hs as [? _].
  - split; simpl; [apply length_replicate|auto with kernel|done].
  - split; simpl; auto with kernel; try done; try (unfold next_ok; u64_lia).
    all: intros h Hh; exfalso; destruct_or?; by destruct Hh.
Qed.

Section steps.
Context `{ClockSource} `{HostMemory}.

(** A call of the service's interface, or a call of another service that leaves
    POSIX-threads waiters alone, or any write to guest memory. *)
Inductive pthread_step : PthreadService -> PthreadService -> Prop :=
| PsCreateAttribute p : pthread_step p (CreateAttribute p).1
| PsDestroyAttribute h p : pthread_step p (DestroyAttribute h p).1
| PsSetStackSize h size p : pthread_step p (SetAttributeStackSize h size p).1
| PsCreateThread name a entry arg p : pthread_step p (Pthread_CreateThread name a entry arg p).1
| PsDiscard h p : pthread_step p (Pthread_DiscardReadyThread h p).1
| PsJoin h p : is_u64 h -> pthread_step p (Pthread_JoinThread h p).1
| PsExit v p : pthread_step p (Pthread_ExitCurrent v p).1
| PsSetThreadStack h a size p : pthread_step p (SetThreadStack h a size p).1
| PsThreadSnapshot h p : pthread_step p (CreateThreadAttributeSnapshot h p).1
| PsCreateMutexAttribute p : pthread_step p (CreateMutexAttribute p).1
| PsDestroyMutexAttribute h p : pthread_step p (DestroyMutexAttribute h p).1
| PsSetMutexType h ty p : pthread_step p (SetMutexAttributeType h ty p).1
| PsSetMutexProtocol h pr p : pthread_step p (SetMutexAttributeProtocol h pr p).1
| PsConfigure a p : is_u64 a -> pthread_step p (ConfigureGuestMutexArena a p).1
| PsRelease p : pthread_step p (ReleaseGuestMutexArena p).1
| PsCreateMutex a ty p : pthread_step p (CreateMutex a ty p).1
| PsCreateGuestMutex a ty p : pthread_step p (CreateGuestMutex a ty p).1
| PsDestroyMutex h p : pthread_step p (DestroyMutex h p).1
| PsLockMutex h b p : pthread_step p (LockMutex h b p).1
| PsUnlockMutex h p : pthread_step p (UnlockMutex h p).1
| PsCreateRwlock p : pthread_step p (CreateGuestRwlock p).1
| PsDestroyRwlock h p : pthread_step p (DestroyRwlock h p).1
| PsLockRwlock h w b p : pthread_step p (LockRwlock h w b p).1
| PsUnlockRwlock h p : pthread_step p (UnlockRwlock h p).1
| PsCreateCondition p : pthread_step p (CreateCondition p).1
| PsDestroyCondition h p : pthread_step p (DestroyCondition h p).1
| PsWait c m p : is_u64 c -> pthread_step p (WaitCondition c m p).1
| PsWaitFor c m us p : is_u64 c -> pthread_step p (WaitConditionFor c m us p).1
| PsWaitUntil c m d p : is_u64 c -> pthread_step p (WaitConditionUntilRealtime c m d p).1
| PsSignal h b p : pthread_step p (SignalCondition h b p).1
| PsCreateKey d p : pthread_step p (CreateKey d p).1
| PsDeleteKey key p : 0 <= key -> pthread_step p (DeleteKey key p).1
| PsSetSpecific key v p : 0 <= key -> pthread_step p (SetSpecific key v p).1
| PsOtherService k p : kernel_ok k -> quiet pthread_string (pt_kernel p) k ->
    pthread_step p {| p with pt_kernel := k |}
| PsGuestMemory m p : pthread_step p {| p with pt_memory := m |}.
End steps.

(** Every operation of [kernel::PthreadService] preserves its invariant. *)


(** ** Synchronisation calls keep the objects *)

Definition same_slot mu mu' : Prop := mx_guest_object_slot mu' = mx_guest_object_slot mu.
Definition same_rw_slot rw rw' : Prop := rw_guest_object_slot rw' = rw_guest_object_slot rw.

Record sync_frame p p' : Prop := {
  sf_mutexes h : option_Forall2 same_slot (om_find h (mutexes_ p)) (om_find h (mutexes_ p'));
  sf_rwlocks h : option_Forall2 same_rw_slot (om_find h (rwlocks_ p)) (om_find h (rwlocks_ p'));
  sf_conditions h : is_Some (om_find h (conditions_ p')) -> is_Some (om_find h (conditions_ p));
  sf_rest : p' = {| p with mutexes_ := mutexes_ p'; rwlocks_ := rwlocks_ p';
                           conditions_ := conditions_ p';
                           completed_condition_waits_ := completed_condition_waits_ p';
                           pt_kernel := pt_kernel p'; pt_memory := pt_memory p' |}
}.

#[global] Instance same_slot_trans : Transitive same_slot.
Proof. intros a b c. unfold same_slot. congruence. Qed.
#[global] Instance same_rw_slot_trans : Transitive same_rw_slot.
Proof. intros a b c. unfold same_rw_slot. congruence. Qed.

Lemma option_same_slot (o : option MutexState) : option_Forall2 same_slot o o.
Proof. destruct o; by constructor. Qed.
Lemma option_same_rw_slot (o : option RwlockState) : option_Forall2 same_rw_slot o o.
Proof. destruct o; by constructor. Qed.
#[export] Hint Resolve option_same_slot option_same_rw_slot : kernel.

Lemma sync_frame_refl p : sync_frame p p.
Proof. split; auto with kernel. by destruct p. Qed.
#[export] Hint Resolve sync_frame_refl : kernel.

Lemma sync_frame_trans p1 p2 p3 : sync_frame p1 p2 -> sync_frame p2 p3 -> sync_frame p1 p3.
Proof.
  intros [M1 R1 C1 E1] [M2 R2 C2 E2]. split.
  - intros h. etrans; [apply M1|apply M2].
  - intros h. etrans; [apply R1|apply R2].
  - auto.
  - rewrite E2, E1. done.
Qed.

Lemma sync_frame_ok p p' :
  sync_frame p p' -> locks p' -> conditions p' -> pthread_ok p -> pthread_ok p'.
Proof.
  intros [M R C E] Hl Hc [_ _ Ha Ht Hi]. split; try done.
  - unfold arena. rewrite E. simpl. by eapply arena_same.
  - unfold tls. rewrite E. exact Ht.
  - destruct Hi. rewrite E. split; simpl; try done. intros h Hh. eauto.
Qed.

Lemma only_locks_frame p p' : only_locks p p' -> sync_frame p p'.
Proof.
  intros [M E]. rewrite E. split; simpl; auto with kernel.
  intros h. specialize (M h). inversion M as [? ? (_ & _ & _ & ?)|]; by constructor.
Qed.

(** Updates of single objects. *)
Lemma frame_update_mutex p h f k :
  (forall mu, same_slot mu (f mu)) ->
  sync_frame p {| p with mutexes_ := om_update h f (mutexes_ p); pt_kernel := k |}.
Proof.
  intros Hf. split; simpl; auto with kernel. intros h'. rewrite om_find_update.
  case_decide; [|auto with kernel]. destruct (om_find h' _); constructor. apply Hf.
Qed.

Lemma frame_update_rwlock p h f k :
  (forall rw, om_find h (rwlocks_ p) = Some rw -> same_rw_slot rw (f rw)) ->
  sync_frame p {| p with rwlocks_ := om_update h f (rwlocks_ p); pt_kernel := k |}.
Proof.
  intros Hf. split; simpl; auto with kernel. intros h'. rewrite om_find_update.
  case_decide as Hd; [subst h'|auto with kernel].
  destruct (om_find h _) eqn:E; constructor. by apply Hf.
Qed.

Lemma om_find_update_Some {V} (m : list (Z * V)) (x y : Z) f :
  is_Some (om_find y (om_update x f m)) -> is_Some (om_find y m).
Proof. rewrite om_find_update. case_decide; [|done]. by rewrite fmap_is_Some. Qed.

Lemma frame_waits p c m f g cm :
  (forall mu, same_slot mu (g mu)) ->
  sync_frame p {| p with conditions_ := om_update c f (conditions_ p);
                         mutexes_ := om_update m g (mutexes_ p);
                         completed_condition_waits_ := cm |}.
Proof.
  intros Hg. split; simpl; auto with kernel; [|intros h; apply om_find_update_Some].
  intros h'. rewrite om_find_update. case_decide; [|auto with kernel].
  destruct (om_find h' _); constructor. apply Hg.
Qed.

Section operations.
Context `{ClockSource} `{HostMemory}.

Lemma LockRwlock_frame h w b p : sync_frame p (LockRwlock h w b p).1.
Proof.
  unfold LockRwlock. destruct (pt_current p) as [current|]; [|auto with kernel].
  destruct (om_find h (rwlocks_ p)) as [rw|] eqn:Hf; [|auto with kernel].
  assert (Hset : forall rw' k, same_rw_slot rw rw' ->
    sync_frame p {| (set_rwlock h rw' p) with pt_kernel := k |}).
  { intros rw' k Hs. apply (frame_update_rwlock p h (fun _ => rw') k). intros rw0 E. rewrite Hf in E. by injection E as <-. }
  assert (Hset0 : forall rw', same_rw_slot rw rw' -> sync_frame p (set_rwlock h rw' p)).
  { intros rw' Hs. by apply (Hset rw' (pt_kernel p)). }
  cbv zeta. destruct (w && _ && _); [by apply Hset0|].
  destruct (negb w && bool_decide _); [by apply Hset0|].
  destruct (w && (_ || _)); [auto with kernel|].
  destruct (if w then None else _) as [count|].
  { destruct (count =? u32_max); [auto with kernel|by apply Hset0]. }
  destruct (negb w && _); [auto with kernel|].
  destruct (rwlock_free rw && _); [apply Hset0; by destruct w|].
  destruct b; [auto with kernel|]. destruct (BlockCurrent _ _) as [k blocked].
  destruct blocked; [by apply Hset|].
  split; simpl; auto with kernel. intros h'. rewrite !om_find_update.
  case_decide as Hd; [subst h'|auto with kernel]. rewrite Hf. by constructor.
Qed.

Lemma grant_readers_slot h ws rw keys : same_rw_slot rw (grant_readers h ws rw keys).1.
Proof.
  revert rw keys. induction ws as [|w ws IH]; intros rw keys; simpl; [done|].
  destruct (rq_write w); [done|].
  match goal with |- context [grant_readers h ws ?r ?ks] => exact (IH r ks) end.
Qed.

Lemma GrantRwlock_slot h rw keys : same_rw_slot rw (GrantRwlockWaitersLocked h rw keys).1.
Proof.
  unfold GrantRwlockWaitersLocked. repeat (split_match; try done). apply grant_readers_slot.
Qed.

Lemma UnlockRwlock_frame h p : sync_frame p (UnlockRwlock h p).1.
Proof.
  unfold UnlockRwlock. destruct (pt_current p) as [current|]; [|auto with kernel].
  destruct (om_find h (rwlocks_ p)) as [rw|] eqn:Hf; [|auto with kernel]. cbv zeta.
  destruct (if rw_writer rw =? current then _ else _) as [rw1|] eqn:Erel; [|auto with kernel].
  assert (Hs : same_rw_slot rw rw1).
  { destruct (rw_writer rw =? current); [by injection Erel as <-|].
    destruct (om_find current _); [|done]. injection Erel as <-. unfold release_reader.
    by split_match. }
  pose proof (GrantRwlock_slot h rw1 []) as Hg.
  destruct (if rwlock_free rw1 then _ else _) as [rw2 keys] eqn:E2.
  apply (frame_update_rwlock p h (fun _ => rw2)). intros rw0 E. rewrite Hf in E. injection E as <-.
  unfold same_rw_slot in *. destruct (rwlock_free rw1).
  - rewrite E2 in Hg. simpl in Hg. congruence.
  - injection E2 as <- _. done.
Qed.

Lemma exit_rwlock_slot current h rw : same_rw_slot rw (exit_rwlock current h rw).1.
Proof.
  unfold exit_rwlock. cbv zeta.
  match goal with |- context [drop_rw_waiter current ?r] =>
    assert (Hs : same_rw_slot rw (drop_rw_waiter current r)) by (by repeat split_match);
    pose proof (GrantRwlock_slot h (drop_rw_waiter current r) []) as Hg end.
  destruct (_ && _); [|done]. unfold same_rw_slot in *. congruence.
Qed.

Lemma Exit_frame v p : sync_frame p (Pthread_ExitCurrent v p).1.
Proof.
  unfold Pthread_ExitCurrent. destruct (pt_current p) as [current|]; [|auto with kernel].
  rewrite exit_mutexes_eq, exit_rwlocks_eq. destruct (ExitCurrent _ _) as [k' b]. simpl.
  apply sync_frame_trans with (exit_completed_wait current p).
  { unfold exit_completed_wait. destruct (om_find current _); [|auto with kernel].
    by apply frame_waits. }
  split; simpl; auto; intros h; rewrite om_find_map_values; destruct (om_find h _) as [x|];
    constructor; [by destruct (exit_mutex_same current h x) as (_ & _ & _ & ?)|apply exit_rwlock_slot].
Qed.

Lemma Signal_frame h b p : sync_frame p (SignalCondition h b p).1.
Proof.
  unfold SignalCondition. destruct (om_find h (conditions_ p)); [|auto with kernel].
  unfold MonotonicNanoseconds. rewrite signal_loop_eq. split; simpl; auto with kernel.
  intros h'. apply om_find_update_Some.
Qed.

Lemma frame_kernel p k : sync_frame p {| p with pt_kernel := k |}.
Proof. split; simpl; auto with kernel. Qed.

Lemma wait_resume_frame c m current b p : sync_frame p (wait_resume c m current b p).1.
Proof.
  unfold wait_resume, MonotonicNanoseconds.
  repeat (split_match; try (by auto with kernel); try (by apply frame_kernel)); simplify_eq; simpl.
  split; simpl; auto with kernel. intros h'. apply om_find_update_Some.
Qed.

Lemma wait_complete_frame c m current p : locks p -> sync_frame p (wait_complete c m current p).1.
Proof.
  intros Hl. unfold wait_complete. pose proof (LockMutex_only_locks m false p Hl) as Ho.
  destruct (LockMutex m false p) as [p1 st]. apply only_locks_frame in Ho. simpl in Ho.
  repeat (split_match; try done); simpl; (eapply sync_frame_trans; [exact Ho|by apply frame_waits]).
Qed.

Lemma wait_fresh_frame c m current d p :
  locks p -> pt_current p = Some current -> is_u64 c -> sync_frame p (condition_wait_fresh c m current d p).1.
Proof.
  intros Hl Hc Hu. rewrite condition_wait_fresh_eq by done.
  destruct (om_find c (conditions_ p)); [|auto with kernel].
  destruct (om_find m (mutexes_ p)); [|auto with kernel].
  destruct (negb _); [auto with kernel|]. destruct (negb _); [auto with kernel|]. simpl.
  eapply sync_frame_trans; [|apply frame_kernel].
  eapply sync_frame_trans; [|apply only_locks_frame, UnlockMutex_only_locks].
  by apply (frame_waits p c m _ _ (completed_condition_waits_ p)).
Qed.

Lemma Wait_frame c m d p :
  locks p -> conditions p -> is_u64 c -> sync_frame p (WaitConditionInternal c m d p).1.
Proof.
  intros Hl Hco Hu. unfold WaitConditionInternal.
  destruct (pt_current p) as [current|] eqn:Hc; [|auto with kernel].
  pose proof (consume_locks (ConditionWaitKey c current) p Hl) as Hl0.
  pose proof (consume_current (ConditionWaitKey c current) (pt_kernel p)) as Hc0.
  destruct (ConsumeCurrentThreadTimeout _ _) as [k b]. simpl in Hl0, Hc0.
  set (p0 := {| p with pt_kernel := k |}) in *.
  pose proof (wait_resume_locks c m current b p0 Hl0) as Hl1.
  pose proof (wait_resume_current c m current b p0) as Hc1.
  assert (Hf : sync_frame p (wait_resume c m current b p0).1).
  { eapply sync_frame_trans; [apply frame_kernel|apply wait_resume_frame]. }
  destruct (wait_resume c m current b p0) as [p1 phase]. cbn [fst snd] in *.
  assert (Hcur : pt_current p1 = Some current).
  { rewrite Hc1. unfold pt_current, p0 in *. simpl. congruence. }
  destruct phase; [done| |].
  - eapply sync_frame_trans; [exact Hf|by apply wait_complete_frame].
  - eapply sync_frame_trans; [exact Hf|by apply wait_fresh_frame].
Qed.

(** ** The synchronisation calls *)

Lemma LockMutex_ok h b p : pthread_ok p -> pthread_ok (LockMutex h b p).1.
Proof.
  intros Hp. pose proof (LockMutex_only_locks h b p (po_locks _ Hp)) as Ho.
  eapply sync_frame_ok; [by apply only_locks_frame|by apply LockMutex_locks, Hp| |exact Hp].
  eapply only_locks_conditions; [exact Ho|apply Hp].
Qed.

Lemma UnlockMutex_ok h p : pthread_ok p -> pthread_ok (UnlockMutex h p).1.
Proof.
  intros Hp. pose proof (UnlockMutex_only_locks h p) as Ho.
  eapply sync_frame_ok; [by apply only_locks_frame|by apply UnlockMutex_locks, Hp| |exact Hp].
  eapply only_locks_conditions; [exact Ho|apply Hp].
Qed.

Lemma LockRwlock_ok h w b p : pthread_ok p -> pthread_ok (LockRwlock h w b p).1.
Proof.
  intros Hp. pose proof (LockRwlock_frame h w b p) as Hf.
  eapply sync_frame_ok; [done|by apply LockRwlock_locks, Hp| |exact Hp].
  unfold LockRwlock. repeat (split_match; try apply Hp).
Qed.

Lemma UnlockRwlock_ok h p : pthread_ok p -> pthread_ok (UnlockRwlock h p).1.
Proof.
  intros Hp. pose proof (UnlockRwlock_frame h p) as Hf.
  eapply sync_frame_ok; [done|by apply UnlockRwlock_locks, Hp| |exact Hp].
  unfold UnlockRwlock. cbv zeta. repeat (split_match; try apply Hp).
Qed.

Lemma WaitInternal_ok c m d p : is_u64 c -> pthread_ok p -> pthread_ok (WaitConditionInternal c m d p).1.
Proof.
  intros Hu Hp.
  destruct (WaitConditionInternal_ok c m d p (po_locks _ Hp) (po_conditions _ Hp) Hu) as [Hl Hc].
  eapply sync_frame_ok; [by apply Wait_frame; [apply Hp..|]|done|done|exact Hp].
Qed.

Lemma with_kernel_ok p k :
  kernel_ok k -> quiet pthread_string (pt_kernel p) k -> pthread_ok p ->
  pthread_ok {| p with pt_kernel := k |}.
Proof.
  intros Hk Hq Hp. eapply sync_frame_ok; [apply frame_kernel| |apply Hp|exact Hp].
  eapply locks_ok_kernel; [exact Hk|exact Hq|apply Hp].
Qed.

Lemma with_clock_ok p c : pthread_ok p -> pthread_ok {| p with pt_kernel := with_clock (pt_kernel p) c |}.
Proof.
  intros Hp. apply with_kernel_ok; [|by apply quiet_threads|done].
  destruct (lo_kernel _ _ _ (po_locks _ Hp)). by split.
Qed.

Lemma WaitFor_ok c m us p : is_u64 c -> pthread_ok p -> pthread_ok (WaitConditionFor c m us p).1.
Proof. intros Hu Hp. apply WaitInternal_ok; [done|]. by apply with_clock_ok. Qed.

Lemma WaitUntil_ok c m d p :
  is_u64 c -> pthread_ok p -> pthread_ok (WaitConditionUntilRealtime c m d p).1.
Proof.
  intros Hu Hp. unfold WaitConditionUntilRealtime.
  destruct (RealtimeDeadlineToMonotonic _ _) as [c' [d'|]];
    [apply WaitInternal_ok; [done|]|]; by apply with_clock_ok.
Qed.

Lemma SignalCondition_ok h b p : pthread_ok p -> pthread_ok (SignalCondition h b p).1.
Proof.
  intros Hp. eapply sync_frame_ok; [apply Signal_frame| | |exact Hp].
  - by apply SignalCondition_locks, Hp.
  - by apply SignalCondition_conditions, Hp.
Qed.

Lemma Exit_ok v p : pthread_ok p -> pthread_ok (Pthread_ExitCurrent v p).1.
Proof.
  intros Hp. eapply sync_frame_ok; [apply Exit_frame| | |exact Hp].
  - by apply Pthread_ExitCurrent_locks, Hp.
  - by apply Pthread_ExitCurrent_conditions, Hp.
Qed.

Lemma Pthread_JoinThread_ok h p : is_u64 h -> pthread_ok p -> pthread_ok (Pthread_JoinThread h p).1.
Proof.
  intros Hu Hp. unfold Pthread_JoinThread.
  pose proof (JoinThread_ok h _ (lo_kernel _ _ _ (po_locks _ Hp))) as Hk.
  pose proof (JoinThread_quiet pthread_string h (pt_kernel p) (thread_exit_not_pthread h Hu)) as Hq.
  destruct (JoinThread h (pt_kernel p)) as [k r]. by apply with_kernel_ok.
Qed.
End operations.
