(* ===== verification/PthreadObjects.v ===== *)
(** Creation and destruction of the POSIX-threads objects, thread-specific data,
    and the invariant of every reachable state of [kernel::PthreadService]. *)
From S2P Require Import Prelude Ranges OrderedMap WaitKeys HandleTable Objects.
From S2P Require Import Clock Scheduler SchedulerInv SchedulerProps WakeAll SharedBacking.
From S2P Require Import GuestMemory Pthread PthreadLocks PthreadRwlocks.
From S2P Require Import PthreadConditions PthreadInv.

Implicit Types (p : PthreadService) (mu : MutexState) (rw : RwlockState) (k : Kernel).
Implicit Types (ms : list (Z * MutexState)) (rs : list (Z * RwlockState)).

(** ** Handles *)

Lemma issue_next base next :
  next_ok base next -> 0 < base -> (next =? 0) || (next >? u64_max - base) = false ->
  add64 base next = base + next /\ add64 next 1 = next + 1 /\ next_ok base (next + 1) /\
  issued_handle base (next + 1) (base + next).
Proof.
  unfold next_ok, issued_handle. intros Hn Hb [? ?]%orb_false_iff. unwrap64. split_and!; lia.
Qed.

Lemma issued_mono base next h : issued_handle base next h -> issued_handle base (next + 1) h.
Proof. unfold issued_handle. lia. Qed.

(** The next handle is not in the table. *)
Lemma fresh_handle {V} base next (m : list (Z * V)) :
  (forall h, is_Some (om_find h m) -> issued_handle base next h) -> om_find (base + next) m = None.
Proof.
  intros Hi. destruct (om_find (base + next) m) eqn:E; [|done].
  destruct (Hi (base + next) ltac:(eauto)). lia.
Qed.

Ltac open_ids p Hp :=
  destruct Hp as [Hl Hc Ha Ht Hi];
  destruct Hi as [Ia Is Im It Na Nm Nc Nx Ha1 Hm1 Hc1].

Section attributes.

Lemma CreateAttribute_ok p : pthread_ok p -> pthread_ok (CreateAttribute p).1.
Proof.
  intros Hp. unfold CreateAttribute. destruct (_ || _) eqn:E; [done|]. simpl.
  open_ids p Hp. split; try done.
  destruct (issue_next _ _ Na ltac:(done) E) as (-> & -> & Hn & Hi).
  assert (Hfr : om_find (kSyntheticAttributeHandleBase + next_attribute_id_ p) (attributes_ p) = None).
  { apply fresh_handle. intros h Hh. apply Ha1. by left. }
  split; simpl; try done; auto with kernel.
  intros h Hh. rewrite om_find_emplace in Hh by done. case_decide; [by subst h|].
  apply issued_mono. auto.
Qed.

Lemma CreateThreadAttributeSnapshot_ok h p :
  pthread_ok p -> pthread_ok (CreateThreadAttributeSnapshot h p).1.
Proof.
  intros Hp. unfold CreateThreadAttributeSnapshot. destruct (om_find h _); [|done].
  destruct (_ || _) eqn:E; [done|]. simpl. open_ids p Hp. split; try done.
  destruct (issue_next _ _ Na ltac:(done) E) as (-> & -> & Hn & Hi).
  split; simpl; try done; auto with kernel.
  intros h' Hh. rewrite om_find_set in Hh by done.
  case_decide; [by subst h'|]. apply issued_mono. auto.
Qed.

Lemma DestroyAttribute_ok h p : pthread_ok p -> pthread_ok (DestroyAttribute h p).1.
Proof.
  intros Hp. unfold DestroyAttribute. destruct (h =? 0); [done|].
  destruct (om_find h (attributes_ p)); [|destruct (om_find h _); [|done]];
    open_ids p Hp; split; try done; split; simpl; try done; auto with kernel;
    intros h' Hh; apply Ha1; rewrite om_find_erase in Hh; case_decide; try done;
    destruct Hh as [Hh|Hh]; [by destruct Hh|by right|by left|by destruct Hh].
Qed.

Lemma SetAttributeStackSize_ok h s p : pthread_ok p -> pthread_ok (SetAttributeStackSize h s p).1.
Proof.
  intros Hp. unfold SetAttributeStackSize. destruct (_ <? _); [done|].
  destruct (om_find h _); [|done]. open_ids p Hp; split; try done; split; simpl; try done; auto with kernel.
  intros h' [Hh|Hh]; apply Ha1; [left|by right]. by eapply om_find_update_Some.
Qed.

Lemma SetThreadStack_ok h a s p : pthread_ok p -> pthread_ok (SetThreadStack h a s p).1.
Proof.
  intros Hp. unfold SetThreadStack. destruct (_ || _); [done|]. destruct (om_find h _); [|done].
  open_ids p Hp; split; try done; split; simpl; try done; auto with kernel.
Qed.

Lemma CreateMutexAttribute_ok p : pthread_ok p -> pthread_ok (CreateMutexAttribute p).1.
Proof.
  intros Hp. unfold CreateMutexAttribute. destruct (_ || _) eqn:E; [done|]. simpl.
  open_ids p Hp. split; try done.
  destruct (issue_next _ _ Nm ltac:(done) E) as (-> & -> & Hn & Hi).
  assert (Hfr : om_find (kSyntheticMutexAttributeHandleBase + next_mutex_attribute_id_ p)
                  (mutex_attributes_ p) = None).
  { apply fresh_handle. intros h [a Hh]. by apply (Hm1 h a). }
  split; simpl; try done; auto with kernel.
  intros h a Hh. rewrite om_find_emplace in Hh by done. case_decide; [subst h; by simplify_eq|].
  destruct (Hm1 _ _ Hh) as (? & ?). split; [by apply issued_mono|done].
Qed.

Lemma DestroyMutexAttribute_ok h p : pthread_ok p -> pthread_ok (DestroyMutexAttribute h p).1.
Proof.
  intros Hp. unfold DestroyMutexAttribute. destruct (h =? 0); [done|].
  destruct (om_find h _); [|done]. open_ids p Hp; split; try done; split; simpl; try done; auto with kernel.
  intros h' a Hh. apply Hm1. rewrite om_find_erase in Hh. by case_decide.
Qed.

Lemma update_mutex_attribute_ok h f p :
  (forall a, IsMutexTypeValid (ma_type a) = true -> IsMutexProtocolValid (ma_protocol a) = true ->
     IsMutexTypeValid (ma_type (f a)) = true /\ IsMutexProtocolValid (ma_protocol (f a)) = true) ->
  pthread_ok p -> pthread_ok {| p with mutex_attributes_ := om_update h f (mutex_attributes_ p) |}.
Proof.
  intros Hf Hp. open_ids p Hp; split; try done; split; simpl; try done; auto with kernel.
  intros h' a Hh. rewrite om_find_update in Hh. case_decide as Hd; [|by apply Hm1]. subst h'.
  destruct (om_find h _) as [a0|] eqn:E; [|done]. injection Hh as <-.
  destruct (Hm1 _ _ E) as (? & ? & ?). split; [done|by apply Hf].
Qed.

Lemma SetMutexAttributeType_ok h ty p : pthread_ok p -> pthread_ok (SetMutexAttributeType h ty p).1.
Proof.
  intros Hp. unfold SetMutexAttributeType. destruct (IsMutexTypeValid ty) eqn:E; [|done]. simpl.
  destruct (om_find h _); [|done]. by apply update_mutex_attribute_ok.
Qed.

Lemma SetMutexAttributeProtocol_ok h pr p : pthread_ok p -> pthread_ok (SetMutexAttributeProtocol h pr p).1.
Proof.
  intros Hp. unfold SetMutexAttributeProtocol. destruct (IsMutexProtocolValid pr) eqn:E; [|done]. simpl.
  destruct (om_find h _); [|done]. by apply update_mutex_attribute_ok.
Qed.
End attributes.

Section threads.
Context `{ClockSource}.

Lemma Pthread_CreateThread_ok name a entry arg p :
  pthread_ok p -> pthread_ok (Pthread_CreateThread name a entry arg p).1.
Proof.
  intros Hp. unfold Pthread_CreateThread. destruct (entry =? 0); [done|]. cbv zeta.
  set (pri := pa_priority _). pose proof (lo_kernel _ _ _ (po_locks _ Hp)) as Hk.
  pose proof (CreateThread_ok name pri entry arg _ Hk) as Hk'.
  pose proof (CreateThread_quiet pthread_string name pri entry arg _ Hk) as Hq.
  destruct (CreateThread _ _ _ _ _) as [k' [st h]]. simpl in Hk', Hq.
  pose proof (with_kernel_ok p k' Hk' Hq Hp) as Hp'. destruct (negb _); [done|].
  open_ids p Hp'; split; try done; split; simpl in *; try done; auto with kernel.
Qed.

Lemma Pthread_DiscardReadyThread_ok h p :
  pthread_ok p -> pthread_ok (Pthread_DiscardReadyThread h p).1.
Proof.
  intros Hp. unfold Pthread_DiscardReadyThread.
  pose proof (lo_kernel _ _ _ (po_locks _ Hp)) as Hk.
  pose proof (DiscardReadyThread_ok h _ Hk) as Hk'.
  pose proof (DiscardReadyThread_quiet pthread_string h (pt_kernel p)) as Hq.
  destruct (DiscardReadyThread _ _) as [k' b]. simpl in Hk', Hq.
  pose proof (with_kernel_ok p k' Hk' Hq Hp) as Hp'. destruct (negb _); [done|].
  open_ids p Hp'; split; try done; [|split; simpl in *; try done; auto with kernel].
  destruct Ht as [Hlen Hs He]. split; simpl in *; auto with kernel.
  intros t vs. rewrite om_find_erase. case_decide; [done|apply He].
Qed.
End threads.

(** ** Mutex objects *)

Lemma arena_slot_address p s :
  arena p -> guest_mutex_memory_ p = true -> (s < length (guest_mutex_slots_ p))%nat ->
  slot_address s p = guest_mutex_arena_address_ p + slot_offset s /\ slot_wraps s p = false /\
  0 <= slot_offset s <= kPthreadMutexArenaSize - kPthreadMutexObjectSize.
Proof.
  intros Ha Hm Hs. rewrite (ar_length _ _ _ _ _ Ha) in Hs.
  change kPthreadMutexArenaSlotCount with (Z.to_nat 4096) in Hs.
  pose proof (ar_bounds _ _ _ _ _ Ha Hm) as Hb.
  unfold slot_address, slot_wraps, slot_offset, kPthreadMutexArenaSize, kPthreadMutexObjectSize in *.
  unwrap64. split_and!; lia.
Qed.

(** A handle no lock uses, bound to a new idle mutex. *)
Definition new_mutex (ty pr : Z) (slot : option nat) : MutexState :=
  mkMutexState ty pr kInvalidKernelHandle 0 [] ∅ 0 slot.

Lemma new_mutex_ok ty pr slot :
  IsMutexTypeValid ty = true -> IsMutexProtocolValid pr = true -> mutex_ok (new_mutex ty pr slot).
Proof. intros. split; simpl; try done; [apply NoDup_nil_2|apply not_elem_of_nil]. Qed.

Lemma locks_add_mutex ms rs k h mu :
  locks_ok ms rs k -> om_find h ms = None -> is_u64 h -> mutex_ok mu -> mx_waiters mu = [] ->
  locks_ok (om_emplace h mu ms) rs k.
Proof.
  intros [Hk Ho [Hs Hm] Hr Hp] Hn Hu Hok Hw. split; try done.
  - split; [auto with kernel|]. intros h' mu'. rewrite om_find_emplace by done.
    case_decide; [intros [= <-]; by subst|apply Hm].
  - intros t key Hq. apply Hp. inversion Hq as [h' mu' t' E Ht|]; subst; [|by econstructor].
    rewrite om_find_emplace in E by done. case_decide; [|by econstructor].
    injection E as <-. rewrite Hw in Ht. by apply elem_of_nil in Ht.
Qed.

Lemma locks_erase_mutex ms rs k h : locks_ok ms rs k -> locks_ok (om_erase h ms) rs k.
Proof.
  intros [Hk Ho [Hs Hm] Hr Hp]. split; try done.
  - split; [auto with kernel|]. intros h' mu'. rewrite om_find_erase. case_decide; [done|apply Hm].
  - intros t key Hq. apply Hp. inversion Hq as [h' mu' t' E Ht|]; subst; [|by econstructor].
    rewrite om_find_erase in E. case_decide; [done|]. by econstructor.
Qed.

Lemma locks_add_rwlock ms rs k h slot :
  locks_ok ms rs k -> om_find h rs = None -> is_u64 h ->
  locks_ok ms (om_emplace h (mkRwlockState kInvalidKernelHandle [] [] ∅ None slot) rs) k.
Proof.
  intros [Hk Ho Hm [Hs Hr] Hp] Hn Hu. split; try done.
  - split; [auto with kernel|]. intros h' rw'. rewrite om_find_emplace by done.
    case_decide; [|apply Hr]. subst h'. intros [= <-]. split; [done|].
    split; simpl; try done; auto with kernel; try (intros; apply not_elem_of_nil). apply NoDup_nil_2.
  - intros t key Hq. apply Hp. inversion Hq as [|h' rw' t' E Ht]; subst; [by econstructor|].
    rewrite om_find_emplace in E by done. case_decide; [|by eapply queued_rwlock].
    injection E as <-. by apply elem_of_nil in Ht.
Qed.

Lemma locks_erase_rwlock ms rs k h : locks_ok ms rs k -> locks_ok ms (om_erase h rs) k.
Proof.
  intros [Hk Ho Hm [Hs Hr] Hp]. split; try done.
  - split; [auto with kernel|]. intros h' rw'. rewrite om_find_erase. case_decide; [done|apply Hr].
  - intros t key Hq. apply Hp. inversion Hq as [|h' rw' t' E Ht]; subst; [by econstructor|].
    rewrite om_find_erase in E. case_decide; [done|]. by eapply queued_rwlock.
Qed.

Lemma conditions_add_mutex cs cm ms h mu :
  om_sorted ms -> om_find h ms = None -> mx_condition_waiter_count mu = 0%nat ->
  conditions_ok cs cm ms -> conditions_ok cs cm (om_emplace h mu ms).
Proof.
  intros Hs Hn Hz [A B C D E]. split; try done. eapply balanced_same; [done| |exact E].
  intros m. unfold mutex_waits_of. rewrite om_find_emplace by done.
  case_decide; [subst m; by rewrite Hn|done].
Qed.

Lemma conditions_erase_mutex cs cm ms h :
  mutex_waits_of h ms = 0%nat -> conditions_ok cs cm ms -> conditions_ok cs cm (om_erase h ms).
Proof.
  intros Hz [A B C D E]. split; try done. eapply balanced_same; [done| |exact E].
  intros m. unfold mutex_waits_of in *. rewrite om_find_erase. case_decide; [subst m|done].
  by rewrite Hz.
Qed.

(** *** Synthetic mutex handles *)

Definition maximum_mutex_id : Z := u64_max - kSyntheticMutexHandleBase.
Definition mutex_id_free (c : Z) p : Prop :=
  om_find (kSyntheticMutexHandleBase + c) (mutexes_ p) = None /\
  om_find (kSyntheticMutexHandleBase + c) (rwlocks_ p) = None.

#[global] Instance mutex_id_free_dec c p : Decision (mutex_id_free c p).
Proof. unfold mutex_id_free. destruct (om_find _ _), (om_find _ _); (left; done) || (right; naive_solver). Defined.

Lemma mutex_handle_small c :
  0 <= c <= maximum_mutex_id -> add64 kSyntheticMutexHandleBase c = kSyntheticMutexHandleBase + c.
Proof.
  unfold maximum_mutex_id. intros Hc. apply add64_small.
  change kSyntheticMutexHandleBase with 105578886070272 in *. u64_lia.
Qed.

Lemma probe_mutex_id_eq n c p :
  0 < c <= maximum_mutex_id ->
  probe_mutex_id n c p =
  if decide (mutex_id_free c p) then Some c
  else if c =? maximum_mutex_id then None
  else match n with O => None | S r => probe_mutex_id r (c + 1) p end.
Proof.
  intros Hc. assert (Hc1 : c <> maximum_mutex_id -> add64 c 1 = c + 1).
  { intros. apply add64_small. unfold maximum_mutex_id in *.
    change kSyntheticMutexHandleBase with 105578886070272 in *. u64_lia. }
  destruct (decide (mutex_id_free c p)) as [[E1 E2]|Hn].
  { destruct n; cbn [probe_mutex_id]; rewrite mutex_handle_small by lia; by rewrite E1, E2. }
  assert (Hmatch : forall (A : Type) (x y : A),
    match om_find (kSyntheticMutexHandleBase + c) (mutexes_ p),
          om_find (kSyntheticMutexHandleBase + c) (rwlocks_ p) with
    | None, None => x | _, _ => y end = y).
  { intros A x y. unfold mutex_id_free in Hn. destruct (om_find _ (mutexes_ p)); [done|].
    destruct (om_find _ (rwlocks_ p)); [done|]. by destruct Hn. }
  destruct n; cbn [probe_mutex_id]; rewrite mutex_handle_small by lia; rewrite Hmatch;
    fold maximum_mutex_id; (destruct (c =? maximum_mutex_id) eqn:E; [done|]); [done|].
  by rewrite Hc1 by lia.
Qed.

(** The probe returns the least free id at or above [c] within its budget. *)
Lemma probe_mutex_id_spec n p : forall c,
  0 < c <= maximum_mutex_id ->
  match probe_mutex_id n c p with
  | Some c' => c <= c' <= maximum_mutex_id /\ mutex_id_free c' p /\
      forall x, c <= x < c' -> ~ mutex_id_free x p
  | None => forall x, c <= x <= maximum_mutex_id -> x <= c + Z.of_nat n -> ~ mutex_id_free x p
  end.
Proof.
  induction n as [|n IH]; intros c Hc; rewrite probe_mutex_id_eq by done;
    (destruct (decide (mutex_id_free c p)) as [Hf|Hf]; [by split_and!; [lia|lia|done|lia]|]);
    destruct (c =? maximum_mutex_id) eqn:E; try (intros x H1 H2; by assert (x = c) as -> by lia).
  specialize (IH (c + 1) ltac:(lia)). destruct (probe_mutex_id n (c + 1) p) as [c'|].
  - destruct IH as (Hb & Hfr & Hlt). split_and!; [lia|lia|done|].
    intros x Hx. destruct (decide (x = c)) as [->|]; [done|]. apply Hlt. lia.
  - intros x Hx Hn. destruct (decide (x = c)) as [->|]; [done|]. apply IH; lia.
Qed.

Lemma om_find_keys {V} (m : list (Z * V)) x : om_find x m <> None -> x ∈ m.*1.
Proof.
  intros Hf. destruct (om_find x m) as [v|] eqn:E; [|done].
  apply om_find_elem in E. by apply (list_elem_of_fmap_2 fst) in E.
Qed.

(** Among [n + 1] consecutive ids one is free when only [n] handles are in use. *)
Lemma free_mutex_id p c :
  exists x, c <= x <= c + Z.of_nat (length (mutexes_ p) + length (rwlocks_ p)) /\ mutex_id_free x p.
Proof.
  set (n := (length (mutexes_ p) + length (rwlocks_ p))%nat).
  destruct (decide (Exists (fun x => mutex_id_free x p) (seqZ c (Z.of_nat n + 1)))) as [He|Hne].
  { apply Exists_exists in He as (x & Hx & Hf). apply elem_of_seqZ in Hx. exists x.
    split; [lia|done]. }
  exfalso. apply not_Exists_Forall in Hne; [|intros x; apply _]. rewrite Forall_forall in Hne.
  assert (Hsub : (Z.add kSyntheticMutexHandleBase <$> seqZ c (Z.of_nat n + 1)) ⊆+
                 ((mutexes_ p).*1 ++ (rwlocks_ p).*1)).
  { apply NoDup_submseteq; [apply NoDup_fmap_2; [intros ???; lia|apply NoDup_seqZ]|].
    intros y (x & -> & Hx)%list_elem_of_fmap. apply Hne in Hx.
    destruct (decide (om_find (kSyntheticMutexHandleBase + x) (mutexes_ p) = None)) as [E1|E1].
    - apply elem_of_app. right. apply om_find_keys. intros E2. by apply Hx.
    - apply elem_of_app. left. by apply om_find_keys. }
  apply submseteq_length in Hsub.
  rewrite length_app, !length_fmap, length_seqZ in Hsub. lia.
Qed.

(** So the bounded probe of [CreateMutexLocked] fails only when no id is left. *)
Lemma probe_mutex_id_complete p c :
  0 < c <= maximum_mutex_id ->
  probe_mutex_id (length (mutexes_ p) + length (rwlocks_ p)) c p = None ->
  forall x, c <= x <= maximum_mutex_id -> ~ mutex_id_free x p.
Proof.
  intros Hc Hn. pose proof (probe_mutex_id_spec (length (mutexes_ p) + length (rwlocks_ p)) p c Hc) as Hs.
  rewrite Hn in Hs.
  destruct (free_mutex_id p c) as (y & Hy & Hyf).
  intros x Hx. destruct (decide (maximum_mutex_id < y)); [apply Hs; lia|].
  exfalso. apply (Hs y); [lia|lia|done].
Qed.

(** ** Object operations *)

Section objects.
Context `{ClockSource}.

Lemma mutex_attribute_valid p h :
  ids_ok p ->
  let a := default PthreadMutexAttribute_default (om_find h (mutex_attributes_ p)) in
  IsMutexTypeValid (ma_type a) = true /\ IsMutexProtocolValid (ma_protocol a) = true.
Proof.
  intros Hi. destruct (om_find h (mutex_attributes_ p)) as [a|] eqn:E; [|done].
  by apply (id_mutex_attribute _ Hi) in E as [_ ?].
Qed.

(** The mutex [CreateMutexLocked] stores. *)
Definition created_mutex (attribute_handle static_type : Z) slot p : MutexState :=
  let a := default PthreadMutexAttribute_default (om_find attribute_handle (mutex_attributes_ p)) in
  new_mutex (if static_type =? 0 then ma_type a else static_type) (ma_protocol a) slot.

Lemma created_mutex_ok a ty slot p :
  ids_ok p -> negb (ty =? 0) && negb (IsMutexTypeValid ty) = false ->
  mutex_ok (created_mutex a ty slot p).
Proof.
  intros Hi Hty. destruct (mutex_attribute_valid p a Hi) as [Ht Hpr].
  apply new_mutex_ok; [|done]. destruct (ty =? 0); [done|]. by destruct (IsMutexTypeValid ty).
Qed.

(** Adding a mutex without a guest object at a handle no lock uses. *)
Lemma add_synthetic_ok h mu n p :
  pthread_ok p -> om_find h (mutexes_ p) = None -> om_find h (rwlocks_ p) = None -> is_u64 h ->
  mutex_ok mu -> mx_waiters mu = [] -> mx_condition_waiter_count mu = 0%nat ->
  mx_guest_object_slot mu = None -> 0 <= n <= maximum_mutex_id ->
  pthread_ok {| p with mutexes_ := om_emplace h mu (mutexes_ p); next_mutex_id_ := n |}.
Proof.
  intros Hp Hn Hr Hu Hok Hw Hz Hs Hx. assert (Hsm : om_sorted (mutexes_ p)) by apply Hp.
  open_ids p Hp. split; simpl.
  - by apply locks_add_mutex.
  - by apply conditions_add_mutex.
  - destruct Ha as [Hlen Hbd Hmu Hrw Hus Hdj]. split; simpl; try done.
    + intros h' mu' s. rewrite om_find_emplace by done. case_decide; [|apply Hmu].
      intros [= <-]. congruence.
    + intros s Hsl. destruct (Hus s Hsl) as [(mu' & Hf & ?)|]; [left|by right].
      exists mu'. rewrite om_find_emplace by done. rewrite decide_False; [done|]. congruence.
    + intros h'. rewrite om_find_emplace by done. case_decide; [subst; by right|apply Hdj].
  - done.
  - by split.
Qed.

Lemma CreateMutex_ok a ty p : pthread_ok p -> pthread_ok (CreateMutex a ty p).1.
Proof.
  intros Hp. unfold CreateMutex, CreateMutexLocked. destruct (_ && _) eqn:Ety; [done|]. cbv zeta.
  destruct (_ || _) eqn:E; [done|]. apply orb_false_iff in E as [E0 E1].
  pose proof (id_next_mutex _ (po_ids _ Hp)) as Hnx. fold maximum_mutex_id in *.
  pose proof (probe_mutex_id_spec (length (mutexes_ p) + length (rwlocks_ p)) p (next_mutex_id_ p)
    ltac:(lia)) as Hs.
  destruct (probe_mutex_id _ _ p) as [c|]; [|done]. destruct Hs as (Hc & [Hf1 Hf2] & _).
  simpl. rewrite mutex_handle_small by lia.
  apply (add_synthetic_ok _ (created_mutex a ty None p)); try done.
  - unfold maximum_mutex_id in Hc. change kSyntheticMutexHandleBase with 105578886070272 in *. u64_lia.
  - apply created_mutex_ok; [apply Hp|done].
  - destruct (c =? maximum_mutex_id) eqn:Em; [lia|].
    rewrite add64_small; [lia|]. unfold maximum_mutex_id in *.
    change kSyntheticMutexHandleBase with 105578886070272 in *. u64_lia.
Qed.

(** A free slot's object address is used by no read-write lock. *)
Lemma free_slot_no_rwlock p s :
  arena p -> guest_mutex_slots_ p !! s = Some false ->
  om_find (guest_mutex_arena_address_ p + slot_offset s) (rwlocks_ p) = None.
Proof.
  intros Ha Hs. destruct (om_find _ (rwlocks_ p)) as [rw|] eqn:E; [|done].
  destruct (ar_rwlock _ _ _ _ _ Ha _ _ E) as (_ & Hu & Heq).
  assert (s = rw_guest_object_slot rw) as -> by (apply slot_offset_inj; lia). congruence.
Qed.

(** Slot [s] becomes the object of a new mutex or read-write lock. *)
Lemma add_guest_mutex_ok s mu m p :
  pthread_ok p -> guest_mutex_memory_ p = true -> guest_mutex_slots_ p !! s = Some false ->
  om_find (slot_address s p) (mutexes_ p) = None ->
  mutex_ok mu -> mx_waiters mu = [] -> mx_condition_waiter_count mu = 0%nat ->
  mx_guest_object_slot mu = Some s ->
  pthread_ok {| p with mutexes_ := om_emplace (slot_address s p) mu (mutexes_ p);
                       guest_mutex_slots_ := <[s := true]> (guest_mutex_slots_ p);
                       pt_memory := m |}.
Proof.
  intros Hp Hm Hs Hn Hok Hw Hz Hsl. assert (Hsm : om_sorted (mutexes_ p)) by apply Hp.
  pose proof (lookup_lt_Some _ _ _ Hs) as Hlt.
  destruct (arena_slot_address p s (po_arena _ Hp) Hm Hlt) as (Heq & _ & Hso).
  pose proof (free_slot_no_rwlock p s (po_arena _ Hp) Hs) as Hnr.
  pose proof (ar_bounds _ _ _ _ _ (po_arena _ Hp) Hm) as Hbd0. rewrite Heq in *.
  open_ids p Hp. split; simpl; try done.
  - apply locks_add_mutex; try done.
    unfold kPthreadMutexArenaSize, kPthreadMutexObjectSize in *. u64_lia.
  - by apply conditions_add_mutex.
  - destruct Ha as [Hlen Hbd Hmu Hrw Hus Hdj]. split; simpl; try done.
    + by rewrite length_insert.
    + intros h' mu' s'. rewrite om_find_emplace by done. case_decide as Hd.
      * intros [= <-] Hs'. rewrite Hsl in Hs'. injection Hs' as <-.
        split_and!; [done|by rewrite list_lookup_insert_eq|done].
      * intros Hf Hs'. destruct (Hmu _ _ _ Hf Hs') as (? & Hl' & ->). split_and!; [done| |done].
        rewrite list_lookup_insert_ne; [done|]. by intros ->.
    + intros h' rw' Hf. destruct (Hrw _ _ Hf) as (? & Hl' & ->). split_and!; [done| |done].
      rewrite list_lookup_insert_ne; [done|]. intros ->. congruence.
    + intros s'. destruct (decide (s' = s)) as [->|Hne].
      * intros _. left. exists mu. by rewrite om_find_emplace, decide_True.
      * rewrite list_lookup_insert_ne by done. intros Hs'.
        destruct (Hus s' Hs') as [(mu' & Hf & ?)|]; [left|by right]. exists mu'.
        rewrite om_find_emplace by done. rewrite decide_False; [done|].
        intros Heq'. apply Hne, slot_offset_inj. lia.
    + intros h'. rewrite om_find_emplace by done. case_decide; [subst; by right|apply Hdj].
Qed.

Lemma add_guest_rwlock_ok s m p :
  pthread_ok p -> guest_mutex_memory_ p = true -> guest_mutex_slots_ p !! s = Some false ->
  om_find (slot_address s p) (mutexes_ p) = None ->
  pthread_ok {| p with rwlocks_ := om_emplace (slot_address s p)
                         (mkRwlockState kInvalidKernelHandle [] [] ∅ None s) (rwlocks_ p);
                       guest_mutex_slots_ := <[s := true]> (guest_mutex_slots_ p);
                       pt_memory := m |}.
Proof.
  intros Hp Hm Hs Hn. assert (Hsr : om_sorted (rwlocks_ p)) by apply Hp.
  pose proof (lookup_lt_Some _ _ _ Hs) as Hlt.
  destruct (arena_slot_address p s (po_arena _ Hp) Hm Hlt) as (Heq & _ & Hso).
  pose proof (free_slot_no_rwlock p s (po_arena _ Hp) Hs) as Hnr.
  pose proof (ar_bounds _ _ _ _ _ (po_arena _ Hp) Hm) as Hbd0. rewrite Heq in *.
  open_ids p Hp. split; simpl; try done.
  - apply locks_add_rwlock; try done.
    unfold kPthreadMutexArenaSize, kPthreadMutexObjectSize in *. u64_lia.
  - destruct Ha as [Hlen Hbd Hmu Hrw Hus Hdj]. split; simpl; try done.
    + by rewrite length_insert.
    + intros h' mu' s' Hf Hs'. destruct (Hmu _ _ _ Hf Hs') as (? & Hl' & ->). split_and!; [done| |done].
      rewrite list_lookup_insert_ne; [done|]. intros ->. congruence.
    + intros h' rw'. rewrite om_find_emplace by done. case_decide as Hd.
      * intros [= <-]. simpl. split_and!; [done|by rewrite list_lookup_insert_eq|done].
      * intros Hf. destruct (Hrw _ _ Hf) as (? & Hl' & ->). split_and!; [done| |done].
        rewrite list_lookup_insert_ne; [done|]. intros ->. congruence.
    + intros s'. destruct (decide (s' = s)) as [->|Hne].
      * intros _. right. eexists. rewrite om_find_emplace by done. by rewrite decide_True.
      * rewrite list_lookup_insert_ne by done. intros Hs'.
        destruct (Hus s' Hs') as [|(rw' & Hf & ?)]; [by left|right]. exists rw'.
        rewrite om_find_emplace by done. rewrite decide_False; [done|].
        intros Heq'. apply Hne, slot_offset_inj. lia.
    + intros h'. rewrite (om_find_emplace _ _ (rwlocks_ p)) by done.
      case_decide; [subst; by left|apply Hdj].
Qed.
Lemma with_memory_ok m p : pthread_ok p -> pthread_ok {| p with pt_memory := m |}.
Proof. intros Hp. open_ids p Hp. by split. Qed.

(** The guest object of slot [s] is made, or nothing but memory changes. *)
Lemma create_guest_mutex_at_cases a ty s p :
  pthread_ok p -> guest_mutex_memory_ p = true -> (s < length (guest_mutex_slots_ p))%nat ->
  om_find (slot_address s p) (mutexes_ p) = None ->
  negb (ty =? 0) && negb (IsMutexTypeValid ty) = false ->
  exists m, create_guest_mutex_at a ty s p = ({| p with pt_memory := m |}, (kNoResources, 0)) \/
    create_guest_mutex_at a ty s p =
      ({| p with mutexes_ := om_emplace (slot_address s p) (created_mutex a ty (Some s) p) (mutexes_ p);
                 guest_mutex_slots_ := <[s := true]> (guest_mutex_slots_ p);
                 pt_memory := m |}, (kOk, slot_address s p)).
Proof.
  intros Hp Hm Hs Hn Hty. assert (Hsm : om_sorted (mutexes_ p)) by apply Hp.
  destruct (arena_slot_address p s (po_arena _ Hp) Hm Hs) as (_ & Hwr & _).
  unfold create_guest_mutex_at. destruct (Fill _ _ _ _) as [m1 f1].
  destruct f1; [|by exists m1; left]. cbn [negb].
  assert (Hc : CreateMutexLocked a ty (Some s) (set_memory m1 p) =
    ({| p with mutexes_ := om_emplace (slot_address s p) (created_mutex a ty (Some s) p) (mutexes_ p);
               pt_memory := m1 |}, (kOk, slot_address s p))).
  { unfold CreateMutexLocked. rewrite Hty. cbn [guest_mutex_slots_ set_memory].
    replace (length (guest_mutex_slots_ p) <=? s)%nat with false by (symmetry; apply Nat.leb_gt; lia).
    change (slot_wraps s (set_memory m1 p)) with (slot_wraps s p). rewrite Hwr.
    change (slot_address s (set_memory m1 p)) with (slot_address s p). cbn [orb].
    change (mutexes_ (set_memory m1 p)) with (mutexes_ p). by rewrite Hn. }
  rewrite Hc. clear Hc. rewrite (bool_decide_eq_true_2 (kOk = kOk) eq_refl : status_eqb kOk kOk = true).
  cbn [negb mutexes_]. rewrite om_find_emplace, decide_True by done. cbn [pt_memory].
  destruct (Write _ _ m1) as [m2 w1]. destruct w1; cbn [negb].
  - destruct (Write _ _ m2) as [m3 w2]. destruct w2; cbn [negb]; [exists m3; by right|].
    unfold clear_object. cbn [pt_memory mutexes_]. rewrite om_erase_emplace by done.
    eexists. by left.
  - unfold clear_object. cbn [pt_memory mutexes_]. rewrite om_erase_emplace by done.
    eexists. by left.
Qed.

Lemma guest_mutex_loop_ok a ty s slots p :
  pthread_ok p -> guest_mutex_memory_ p = true -> slots = drop s (guest_mutex_slots_ p) ->
  negb (ty =? 0) && negb (IsMutexTypeValid ty) = false ->
  pthread_ok (guest_mutex_loop a ty s slots p).1.
Proof.
  intros Hp Hm Hsl Hty. revert s Hsl. induction slots as [|used slots IH]; intros s Hsl; [done|].
  assert (Hls : guest_mutex_slots_ p !! s = Some used).
  { rewrite <- (Nat.add_0_r s), <- lookup_drop, <- Hsl. done. }
  assert (Hrest : slots = drop (S s) (guest_mutex_slots_ p)).
  { by rewrite <- Nat.add_1_r, <- drop_drop, <- Hsl. }
  cbn [guest_mutex_loop]. destruct used; [by apply IH|]. destruct (slot_wraps s p); [done|].
  destruct (om_find _ _) eqn:Hn; [by apply IH|].
  destruct (create_guest_mutex_at_cases a ty s p) as (m & [->| ->]); try done.
  - by eapply lookup_lt_Some.
  - by apply with_memory_ok.
  - apply add_guest_mutex_ok; try done. apply created_mutex_ok; [apply Hp|done].
Qed.

Lemma CreateGuestMutex_ok a ty p : pthread_ok p -> pthread_ok (CreateGuestMutex a ty p).1.
Proof.
  intros Hp. unfold CreateGuestMutex. destruct (guest_mutex_memory_ p) eqn:Hm; [|done]. simpl.
  destruct (_ && _) eqn:Hty; [done|]. by apply guest_mutex_loop_ok.
Qed.

Lemma guest_rwlock_loop_ok s slots p :
  pthread_ok p -> guest_mutex_memory_ p = true -> slots = drop s (guest_mutex_slots_ p) ->
  pthread_ok (guest_rwlock_loop s slots p).1.
Proof.
  revert s p. induction slots as [|used slots IH]; intros s p Hp Hm Hsl; [done|].
  assert (Hls : guest_mutex_slots_ p !! s = Some used).
  { rewrite <- (Nat.add_0_r s), <- lookup_drop, <- Hsl. done. }
  assert (Hrest : slots = drop (S s) (guest_mutex_slots_ p)).
  { by rewrite <- Nat.add_1_r, <- drop_drop, <- Hsl. }
  cbn [guest_rwlock_loop]. destruct used; [by apply IH|]. destruct (slot_wraps s p); [done|].
  cbv zeta. destruct (om_find _ (mutexes_ p)) eqn:Hn; [by apply IH|].
  destruct (om_find _ (rwlocks_ p)) eqn:Hn2; [by apply IH|].
  destruct (Fill _ _ _ _) as [m f]. destruct f; simpl negb; cbn iota.
  - by apply (add_guest_rwlock_ok s m p).
  - apply IH; [by apply with_memory_ok|done|done].
Qed.

Lemma CreateGuestRwlock_ok p : pthread_ok p -> pthread_ok (CreateGuestRwlock p).1.
Proof.
  intros Hp. unfold CreateGuestRwlock. destruct (guest_mutex_memory_ p) eqn:Hm; [|done].
  by apply guest_rwlock_loop_ok.
Qed.

(** *** Destruction *)

Lemma mutex_idle_true mu :
  mutex_idle mu = true <->
  mx_owner mu = 0 /\ mx_waiters mu = [] /\ mx_granted_waiters mu = ∅ /\
  mx_condition_waiter_count mu = 0%nat.
Proof.
  unfold mutex_idle, kInvalidKernelHandle. rewrite !andb_true_iff, Z.eqb_eq, bool_decide_eq_true, Nat.eqb_eq.
  destruct (mx_waiters mu); naive_solver.
Qed.

Lemma erase_mutex_ok h mu p slots m :
  pthread_ok p -> om_find h (mutexes_ p) = Some mu -> mx_condition_waiter_count mu = 0%nat ->
  slots = match mx_guest_object_slot mu with
          | Some s => <[s := false]> (guest_mutex_slots_ p)
          | None => guest_mutex_slots_ p end ->
  pthread_ok {| p with mutexes_ := om_erase h (mutexes_ p); guest_mutex_slots_ := slots;
                       pt_memory := m |}.
Proof.
  intros Hp Hf Hz ->. open_ids p Hp. split; simpl; try done.
  - by apply locks_erase_mutex.
  - apply conditions_erase_mutex; [|done]. unfold mutex_waits_of. by rewrite Hf.
  - pose proof Ha as [Hlen Hbd Hmu Hrw Hus Hdj].
    assert (Hkeep : forall h' s', (exists mu', h' <> h /\ om_find h' (mutexes_ p) = Some mu' /\
               mx_guest_object_slot mu' = Some s') \/
               (exists rw', om_find h' (rwlocks_ p) = Some rw' /\ rw_guest_object_slot rw' = s') ->
             forall v, guest_mutex_slots_ p !! s' = v ->
             (match mx_guest_object_slot mu with
              | Some s => <[s := false]> (guest_mutex_slots_ p)
              | None => guest_mutex_slots_ p end) !! s' = v).
    { intros h' s' Hob v Hv. destruct (mx_guest_object_slot mu) as [s|] eqn:Es; [|done].
      rewrite list_lookup_insert_ne; [done|]. intros ->.
      destruct (Hmu _ _ _ Hf Es) as (_ & _ & Hh).
      destruct Hob as [(mu' & Hne & Hf' & Hs')|(rw' & Hf' & Hs')].
      - destruct (Hmu _ _ _ Hf' Hs') as (_ & _ & ?). congruence.
      - destruct (Hrw _ _ Hf') as (_ & _ & Hh'). rewrite Hs' in Hh'.
        destruct (Hdj h) as [E|E]; congruence. }
    split; simpl; try done.
    + destruct (mx_guest_object_slot mu); by rewrite ?length_insert.
    + intros h' mu' s'. rewrite om_find_erase. case_decide; [done|]. intros Hf' Hs'.
      destruct (Hmu _ _ _ Hf' Hs') as (? & ? & ?). split_and!; [done| |done].
      eapply Hkeep; [left; eauto|done].
    + intros h' rw' Hf'. destruct (Hrw _ _ Hf') as (? & ? & ?). split_and!; [done| |done].
      eapply Hkeep; [right; eauto|done].
    + intros s' Hs'. assert (Hs0 : guest_mutex_slots_ p !! s' = Some true /\
         mx_guest_object_slot mu <> Some s').
      { destruct (mx_guest_object_slot mu) as [s|] eqn:Es; [|done].
        destruct (decide (s' = s)) as [->|Hne].
        - rewrite list_lookup_insert_eq in Hs'; [done|].
          destruct (Hmu _ _ _ Hf Es) as (_ & Hl' & _). by eapply lookup_lt_Some.
        - rewrite list_lookup_insert_ne in Hs' by done. split; [done|congruence]. }
      destruct Hs0 as [Hs0 Hne]. destruct (Hus s' Hs0) as [(mu' & Hf' & Hsl)|]; [left|by right].
      exists mu'. rewrite om_find_erase, decide_False; [done|]. intros Heq. congruence.
    + intros h'. rewrite om_find_erase. case_decide; [by left|apply Hdj].
Qed.

Lemma DestroyMutex_ok h p : pthread_ok p -> pthread_ok (DestroyMutex h p).1.
Proof.
  intros Hp. unfold DestroyMutex. destruct (h =? 0); [done|].
  destruct (om_find h _) as [mu|] eqn:Hf; [|done]. destruct (mutex_idle mu) eqn:Ei; [|done].
  apply mutex_idle_true in Ei as (_ & _ & _ & Hz). simpl.
  destruct (mx_guest_object_slot mu) as [s|] eqn:Es.
  - destruct (_ || _); [done|]. destruct (negb _); [done|].
    destruct (Fill _ _ _ _) as [m f]. destruct (negb f); [by apply with_memory_ok|].
    apply (erase_mutex_ok h mu p _ m); try done. by rewrite Es.
  - apply (erase_mutex_ok h mu p (guest_mutex_slots_ p) (pt_memory p)); try done. by rewrite Es.
Qed.
End objects.
