(* ===== verification/PthreadReachable.v ===== *)
(** The invariant of every reachable state of [kernel::PthreadService]. *)
From S2P Require Import Prelude Ranges OrderedMap WaitKeys HandleTable Objects.
From S2P Require Import Clock Scheduler SchedulerInv SchedulerProps WakeAll SharedBacking.
From S2P Require Import GuestMemory Pthread PthreadLocks PthreadRwlocks.
From S2P Require Import PthreadConditions PthreadInv PthreadObjects.

Implicit Types (p : PthreadService) (mu : MutexState) (rw : RwlockState) (k : Kernel).

Section objects.
Context `{ClockSource}.

(** ** Read-write lock objects *)

Lemma erase_rwlock_ok h rw p m :
  pthread_ok p -> om_find h (rwlocks_ p) = Some rw ->
  pthread_ok {| p with rwlocks_ := om_erase h (rwlocks_ p);
                       guest_mutex_slots_ := <[rw_guest_object_slot rw := false]> (guest_mutex_slots_ p);
                       pt_memory := m |}.
Proof.
  intros Hp Hf. open_ids p Hp. pose proof Ha as [Hlen Hbd Hmu Hrw Hus Hdj].
  destruct (Hrw _ _ Hf) as (_ & Hs & Hh). set (s := rw_guest_object_slot rw) in *.
  split; simpl; try done; [by apply locks_erase_rwlock|]. split; simpl; try done.
  - by rewrite length_insert.
  - intros h' mu' s' Hf' Hs'. destruct (Hmu _ _ _ Hf' Hs') as (? & ? & ->). split_and!; [done| |done].
    rewrite list_lookup_insert_ne; [done|]. intros Es.
    destruct (Hdj h) as [E|E]; [|congruence]. rewrite Hh, Es in E. congruence.
  - intros h' rw'. rewrite om_find_erase. case_decide as Hd; [done|]. intros Hf'.
    destruct (Hrw _ _ Hf') as (? & ? & Hh'). split_and!; [done| |done].
    rewrite list_lookup_insert_ne; [done|]. intros E. rewrite <- E in Hh'. congruence.
  - intros s' Hs'. destruct (decide (s' = s)) as [->|Hne].
    { rewrite list_lookup_insert_eq in Hs'; [done|]. by eapply lookup_lt_Some. }
    rewrite list_lookup_insert_ne in Hs' by done.
    destruct (Hus s' Hs') as [|(rw' & Hf' & Hsl)]; [by left|right]. exists rw'.
    rewrite om_find_erase, decide_False; [done|]. intros E. rewrite E in Hf'.
    assert (rw' = rw) as -> by congruence. by destruct Hne.
  - intros h'. rewrite om_find_erase. case_decide; [by right|apply Hdj].
Qed.

Lemma DestroyRwlock_ok h p : pthread_ok p -> pthread_ok (DestroyRwlock h p).1.
Proof.
  intros Hp. unfold DestroyRwlock. destruct (om_find h _) as [rw|] eqn:Hf; [|done].
  destruct (negb _); [done|]. destruct (_ || _); [done|].
  destruct (Fill _ _ _ _) as [m f]. destruct (negb f); [by apply with_memory_ok|].
  by apply (erase_rwlock_ok h rw p m).
Qed.

(** ** The arena *)

Lemma has_guest_mutex_false p h mu :
  om_sorted (mutexes_ p) -> has_guest_mutex p = false -> om_find h (mutexes_ p) = Some mu ->
  mx_guest_object_slot mu = None.
Proof.
  intros Hs Hg Hf. destruct (mx_guest_object_slot mu) eqn:E; [|done].
  assert (has_guest_mutex p = true); [|congruence]. apply existsb_exists. exists (h, mu).
  split; [by apply list_elem_of_In, om_find_elem|]. simpl. by rewrite E.
Qed.

Lemma set_arena_ok attached address m p :
  pthread_ok p -> has_guest_mutex p = false -> rwlocks_ p = [] ->
  (attached = true -> 1 <= address <= u64_max - kPthreadMutexArenaSize) ->
  pthread_ok {| p with pt_memory := m; guest_mutex_memory_ := attached;
                       guest_mutex_arena_address_ := address;
                       guest_mutex_slots_ := replicate kPthreadMutexArenaSlotCount false |}.
Proof.
  intros Hp Hg Hr Hb. assert (Hsm : om_sorted (mutexes_ p)) by apply Hp.
  open_ids p Hp. split; simpl; try done.
  split; simpl; [apply length_replicate|done|..].
  - intros h mu s Hf Hs. rewrite (has_guest_mutex_false p h mu) in Hs; done.
  - intros h rw. by rewrite Hr.
  - intros s Hs%list_elem_of_lookup_2. by apply elem_of_replicate in Hs as [? _].
  - intros h. rewrite Hr. by right.
Qed.

Lemma ConfigureGuestMutexArena_ok a p :
  is_u64 a -> pthread_ok p -> pthread_ok (ConfigureGuestMutexArena a p).1.
Proof.
  intros Hu Hp. unfold ConfigureGuestMutexArena. destruct (_ || _) eqn:E; [done|].
  rewrite !orb_false_iff in E. destruct E as [[[[[E1 E2] E3] E4] E5] _].
  destruct (Fill _ _ _ _) as [m f]. destruct (negb f); [by apply with_memory_ok|].
  apply (set_arena_ok true a m p); try done.
  - unfold no_rwlocks in E3. by destruct (rwlocks_ p).
  - unfold kPthreadMutexArenaSize in *. u64_lia.
Qed.

Lemma ReleaseGuestMutexArena_ok p : pthread_ok p -> pthread_ok (ReleaseGuestMutexArena p).1.
Proof.
  intros Hp. unfold ReleaseGuestMutexArena. destruct (_ || _) eqn:E; [done|].
  rewrite !orb_false_iff in E. destruct E as [[E1 E2] E3].
  apply (set_arena_ok false 0 (pt_memory p) p); try done.
  unfold no_rwlocks in E3. by destruct (rwlocks_ p).
Qed.

(** ** Condition objects *)

Lemma CreateCondition_ok p : pthread_ok p -> pthread_ok (CreateCondition p).1.
Proof.
  intros Hp. unfold CreateCondition. destruct (_ || _) eqn:E; [done|]. simpl. open_ids p Hp.
  destruct (issue_next _ _ Nc ltac:(done) E) as (-> & -> & Hn & Hi).
  assert (Hfr : om_find (kSyntheticConditionHandleBase + next_condition_id_ p) (conditions_ p) = None)
    by (by apply fresh_handle). pose proof Hc as [Hs Hsm Hw Htt Hb].
  split; simpl; try done.
  - split; simpl; auto with kernel.
    + intros c cv w. rewrite om_find_emplace by done. case_decide; [|apply Hw].
      intros [= <-] Hin. by apply elem_of_nil in Hin.
    + unfold waits. eapply balanced_perm; [|eapply balanced_same; [| |exact Hb]]; [| |done].
      * unfold waits. by rewrite (queue_waits_emplace _ _ Hfr).
      * intros c. unfold active_of. rewrite om_find_emplace by done.
        case_decide; [subst c; by rewrite Hfr|done].
  - split; simpl; try done. intros h. rewrite om_find_emplace by done.
    case_decide; [by subst h|]. intros Hh. by apply issued_mono, Hc1.
Qed.

Lemma DestroyCondition_ok h p : pthread_ok p -> pthread_ok (DestroyCondition h p).1.
Proof.
  intros Hp. unfold DestroyCondition. destruct (h =? 0); [done|].
  destruct (om_find h _) as [cv|] eqn:Hf; [|done].
  destruct (cv_active_waiter_count cv) eqn:Ez; [|done]. destruct (cv_waiters cv) eqn:Ew; [|done].
  open_ids p Hp. pose proof Hc as [Hs Hsm Hw Htt Hb]. split; simpl; try done.
  - split; simpl; auto with kernel.
    + intros c cv' w. rewrite om_find_erase. case_decide; [done|apply Hw].
    + eapply balanced_sub; [|eapply balanced_same; [| |exact Hb]]; [| |done].
      * unfold waits. apply submseteq_skips_r. by apply queue_waits_erase.
      * intros c. unfold active_of. rewrite om_find_erase. case_decide; [subst c; by rewrite Hf|done].
  - split; simpl; try done. intros h' Hh. apply Hc1. rewrite om_find_erase in Hh.
    case_decide; [by destruct Hh|done].
Qed.

(** ** Thread-specific data *)

Lemma create_key_loop_spec index keys i :
  create_key_loop index keys = Some i ->
  exists n, i = (index + n)%nat /\ keys !! n = Some None /\
    forall m, (m < n)%nat -> exists d, keys !! m = Some (Some d).
Proof.
  revert index. induction keys as [|[d|] keys IH]; intros index; simpl; [done| |].
  - intros (n & -> & Hn & Hlt)%IH. exists (S n). split_and!; [lia|done|].
    intros [|m] Hm; [by exists d|]. apply Hlt. lia.
  - intros [= <-]. exists O. split_and!; [lia|done|lia].
Qed.

Lemma CreateKey_ok d p : pthread_ok p -> pthread_ok (CreateKey d p).1.
Proof.
  intros Hp. unfold CreateKey. destruct (create_key_loop 0 _) as [i|] eqn:E; [|done].
  apply create_key_loop_spec in E as (n & -> & Hn & _). open_ids p Hp.
  split; simpl; try done. destruct Ht as [Hlen Hs He]. split; simpl; [by rewrite length_insert|done|].
  intros t vs Hf. destruct (He t vs Hf) as (? & ? & Hk). split_and!; [done|done|].
  intros key v Hv. destruct (Hk key v Hv) as (? & d' & Hd'). split; [done|].
  exists d'. rewrite list_lookup_insert_ne; [done|]. intros E. simpl in E. congruence.
Qed.

Lemma om_find_purge key values t :
  om_sorted values ->
  om_find t (purge_key key values) =
  match om_find t values with
  | Some vs => match om_erase key vs with [] => None | l => Some l end
  | None => None
  end.
Proof.
  unfold purge_key. induction values as [|[t0 vs0] values IH]; [done|]. intros [Hs Hlt]%om_sorted_cons.
  cbn [map List.filter fst snd]. rewrite om_find_cons. simpl. case_decide as Hd.
  - subst t. assert (Hn : om_find t0 values = None).
    { apply om_find_None. intros x Hx. specialize (Hlt x Hx). simpl in Hlt. lia. }
    specialize (IH Hs). rewrite Hn in IH.
    destruct (om_erase key vs0) as [|e l]; simpl; [done|]. rewrite om_find_cons. by case_decide.
  - destruct (om_erase key vs0); simpl; [by apply IH|]. rewrite om_find_cons. simpl.
    rewrite decide_False by done. by apply IH.
Qed.

Lemma purge_key_sorted key values : om_sorted values -> om_sorted (purge_key key values).
Proof.
  intros Hs. unfold purge_key. eapply StronglySorted_sublist; [apply filter_sublist|].
  apply (map_values_sorted (fun _ vs => om_erase key vs)) in Hs. exact Hs.
Qed.

Lemma DeleteKey_ok key p : 0 <= key -> pthread_ok p -> pthread_ok (DeleteKey key p).1.
Proof.
  intros Hk Hp. unfold DeleteKey. destruct (negb _); [done|]. open_ids p Hp.
  split; simpl; try done. destruct Ht as [Hlen Hs He].
  split; simpl; [by rewrite length_insert|by apply purge_key_sorted|].
  intros t vs. rewrite om_find_purge by done. destruct (om_find t _) as [vs0|] eqn:E; [|done].
  destruct (He t vs0 E) as (Hs0 & _ & Hv). destruct (om_erase key vs0) as [|e l] eqn:Ee; [done|].
  intros [= <-]. split_and!; [rewrite <- Ee; by apply om_erase_sorted|done|].
  intros key' v. rewrite <- Ee, om_find_erase. case_decide as Hd; [done|]. intros Hf.
  destruct (Hv _ _ Hf) as (H0 & d & Hl'). split; [done|]. exists d.
  rewrite list_lookup_insert_ne; [done|]. intros Heq. apply Hd. lia.
Qed.

Lemma key_live_true key p :
  key_live key p = true -> exists d, keys_ p !! Z.to_nat key = Some (Some d).
Proof.
  unfold key_live. intros [_ Hl]%andb_true_iff.
  destruct (keys_ p !! Z.to_nat key) as [[d|]|]; [by exists d|done|done].
Qed.

Lemma SetSpecific_ok key v p : 0 <= key -> pthread_ok p -> pthread_ok (SetSpecific key v p).1.
Proof.
  intros Hk Hp. unfold SetSpecific. destruct (pt_current p) as [t|]; [|done].
  destruct (key_live key p) eqn:El; [|done]. apply key_live_true in El as [d Hd]. open_ids p Hp.
  split; simpl; try done. destruct Ht as [Hlen Hs He]. split; simpl; [done|by apply om_set_sorted|].
  intros t' vs. rewrite om_find_set by done. case_decide as Ht'; [|apply He].
  intros [= <-]. set (vs0 := default [] (om_find t (specific_values_ p))).
  assert (Hs0 : om_sorted vs0 /\ forall x v', om_find x vs0 = Some v' ->
            0 <= x /\ exists d, keys_ p !! Z.to_nat x = Some (Some d)).
  { unfold vs0. destruct (om_find t (specific_values_ p)) as [vs|] eqn:E; simpl.
    - by destruct (He t vs E) as (? & _ & ?).
    - split; [auto with kernel|done]. }
  destruct Hs0 as [Hs0 Hv0]. split_and!; [by apply om_set_sorted| |].
  - intros E. pose proof (om_find_set key v vs0 key Hs0) as Hf. rewrite decide_True in Hf by done.
    by rewrite E in Hf.
  - intros x v'. rewrite om_find_set by done. case_decide; [|apply Hv0]. subst x. eauto.
Qed.
End objects.

(** ** Reachability *)

Section reachable.
Context `{ClockSource} `{HostMemory}.

Lemma pthread_step_ok p p' : pthread_step p p' -> pthread_ok p -> pthread_ok p'.
Proof.
  destruct 1; intros Hp.
  - by apply CreateAttribute_ok.
  - by apply DestroyAttribute_ok.
  - by apply SetAttributeStackSize_ok.
  - by apply Pthread_CreateThread_ok.
  - by apply Pthread_DiscardReadyThread_ok.
  - by apply Pthread_JoinThread_ok.
  - by apply Exit_ok.
  - by apply SetThreadStack_ok.
  - by apply CreateThreadAttributeSnapshot_ok.
  - by apply CreateMutexAttribute_ok.
  - by apply DestroyMutexAttribute_ok.
  - by apply SetMutexAttributeType_ok.
  - by apply SetMutexAttributeProtocol_ok.
  - by apply ConfigureGuestMutexArena_ok.
  - by apply ReleaseGuestMutexArena_ok.
  - by apply CreateMutex_ok.
  - by apply CreateGuestMutex_ok.
  - by apply DestroyMutex_ok.
  - by apply LockMutex_ok.
  - by apply UnlockMutex_ok.
  - by apply CreateGuestRwlock_ok.
  - by apply DestroyRwlock_ok.
  - by apply LockRwlock_ok.
  - by apply UnlockRwlock_ok.
  - by apply CreateCondition_ok.
  - by apply DestroyCondition_ok.
  - by apply WaitInternal_ok.
  - by apply WaitFor_ok.
  - by apply WaitUntil_ok.
  - by apply SignalCondition_ok.
  - by apply CreateKey_ok.
  - by apply DeleteKey_ok.
  - by apply SetSpecific_ok.
  - by apply with_kernel_ok.
  - by apply with_memory_ok.
Qed.

Lemma pthread_steps_ok p p' : rtc pthread_step p p' -> pthread_ok p -> pthread_ok p'.
Proof. induction 1 as [|p1 p2 p3 Hs _ IH]; [done|]. intros Hp. by eapply IH, pthread_step_ok. Qed.

(** Selecting the next thread and yielding are calls other services may make. *)
Lemma select_is_step p : pthread_ok p -> pthread_step p {| p with pt_kernel := (SelectNext (pt_kernel p)).1 |}.
Proof.
  intros Hp. pose proof (lo_kernel _ _ _ (po_locks _ Hp)) as Hk.
  apply PsOtherService; [by apply SelectNext_ok|by apply SelectNext_quiet].
Qed.

Lemma yield_is_step p : pthread_ok p -> pthread_step p {| p with pt_kernel := (YieldCurrent (pt_kernel p)).1 |}.
Proof.
  intros Hp. pose proof (lo_kernel _ _ _ (po_locks _ Hp)) as Hk.
  apply PsOtherService; [by apply YieldCurrent_ok|apply YieldCurrent_quiet].
Qed.

(** C25: in every state reachable from start-up through the POSIX-threads
    interface, calls of other services and guest memory writes: a mutex is owned
    exactly while its recursion count is positive, its queue has no duplicates,
    never holds the owner and is empty when the mutex is free; a read-write
    lock never has a writer and a reader; every queued thread is parked in the
    scheduler on its own key; no condition or mutex has fewer counted waiters
    than actual ones; the arena's slot table lists exactly the guest objects;
    and thread-specific values belong to live keys. *)
Theorem pthread_reachable_invariant k m p :
  kernel_ok k -> own_keys k -> rtc pthread_step (PthreadService_init k m) p -> pthread_ok p.
Proof.
  intros Hk Ho Hr. eapply pthread_steps_ok; [exact Hr|]. by apply PthreadService_init_ok.
Qed.
End reachable.
