(* ===== verification/PthreadProps.v ===== *)
(** What the POSIX-threads operations do ([src/kernel/pthread.cpp]): hand-over
    of a mutex, mutual exclusion, condition waits and signals, read-write
    locks, thread-specific data, deadlines and handles. *)
From S2P Require Import Prelude Ranges OrderedMap WaitKeys HandleTable Objects.
From S2P Require Import Clock Scheduler SchedulerInv SchedulerProps WakeAll SharedBacking.
From S2P Require Import GuestMemory Pthread PthreadLocks PthreadRwlocks.
From S2P Require Import PthreadConditions PthreadInv PthreadObjects PthreadReachable.

Implicit Types (p : PthreadService) (mu : MutexState) (rw : RwlockState) (k : Kernel).

Section mutexes.
Context `{ClockSource}.

(** What a mutex and its queue become when its owner lets go of it. *)
Definition handed_over (h : Z) mu mu' (s : GuestScheduler) (k : Kernel) : Prop :=
  match mx_waiters mu with
  | [] => mx_owner mu' = 0 /\ mx_recursion_count mu' = 0 /\ mx_waiters mu' = []
  | next :: rest =>
      mx_owner mu' = next /\ mx_recursion_count mu' = 1 /\ mx_waiters mu' = rest /\
      mx_granted_waiters mu' = {[next]} /\ in_state s next kReady /\
      (forall t, t ∈ rest -> parked k t (MutexWaitKey h t))
  end.

Lemma unlock_handed_over h mu p t :
  locks p -> pt_current p = Some t -> om_find h (mutexes_ p) = Some mu ->
  mx_owner mu = t -> mx_recursion_count mu = 1 ->
  let '(p', status) := UnlockMutex h p in
  status = kOk /\ exists mu', om_find h (mutexes_ p') = Some mu' /\
    handed_over h mu mu' (scheduler_ (pt_kernel p')) (pt_kernel p').
Proof.
  intros Hl Hc Hf Ho Hr. pose proof (UnlockMutex_locks h p Hl) as Hl'. revert Hl'.
  destruct (locks_find_mutex _ _ _ _ _ Hl Hf) as [Hu Hok].
  unfold UnlockMutex. rewrite Hc, Hf, Ho, Z.eqb_refl, Hr. simpl.
  pose proof (Grant_ok h _ (release_released t mu 0 Hok Ho (zero_not_waiter _ _ _ _ _ Hl Hf) eq_refl)) as Hg.
  simpl in Hg. unfold GrantNextMutexWaiterLocked in *. simpl in *.
  pose proof (lo_parked _ _ _ Hl) as Hp. pose proof (lo_kernel _ _ _ Hl) as Hk.
  pose proof (lo_own _ _ _ Hl) as Hown.
  destruct (mx_waiters mu) as [|next rest] eqn:Ew.
  - destruct Hg as (_ & _ & Hg & _). rewrite bool_decide_eq_true_2 by done. intros _.
    split; [done|]. eexists. simpl. rewrite om_find_update, decide_True, Hf by done. split; [done|].
    unfold handed_over. by rewrite Ew.
  - destruct Hg as (Hmu' & _ & Ho' & Hr' & _ & Hgr & _ & Hni).
    assert (Hkn : MutexWaitKey h next <> EmptyString)
      by (apply (key_string_nonempty (PthreadMutexKey h next))).
    rewrite bool_decide_eq_false_2 by done. intros Hl'. split; [done|]. eexists. simpl.
    rewrite om_find_update, decide_True, Hf by done. split; [done|].
    unfold handed_over. rewrite Ew. simpl. split_and!; [done|done|done|done| |].
    + assert (Hnu : 1 <= next <= u64_max).
      { eapply waiter_u64; [exact Hl|exact Hf|]. rewrite Ew. apply list_elem_of_here. }
      apply wake_one_ready; [done|done| |].
      * intros u Hb. symmetry. apply (Hown u (PthreadMutexKey h next)); [|done]. simpl. u64_lia.
      * apply (Hp _ (PthreadMutexKey h next)). econstructor; [exact Hf|]. rewrite Ew.
        apply list_elem_of_here.
    + intros u Hin. apply (lo_parked _ _ _ Hl' u (PthreadMutexKey h u)).
      econstructor; simpl; [by rewrite om_find_update, decide_True, Hf|]. done.
Qed.

(** First-in first-out hand-over: when the owner of a mutex it holds once
    unlocks it, the longest waiter becomes the owner and is made ready by the
    scheduler, the others stay queued in order and parked, and without waiters
    the mutex is free.  The new owner's pending [LockMutex] then returns
    success at once and leaves it the owner. *)
Theorem mutex_fifo_handover h mu p t :
  pthread_ok p -> pt_current p = Some t -> om_find h (mutexes_ p) = Some mu ->
  mx_owner mu = t -> mx_recursion_count mu = 1 ->
  let '(p', status) := UnlockMutex h p in
  status = kOk /\
  (exists mu', om_find h (mutexes_ p') = Some mu' /\
     handed_over h mu mu' (scheduler_ (pt_kernel p')) (pt_kernel p')) /\
  (forall next rest k2 mu2, mx_waiters mu = next :: rest ->
     current_thread_ (scheduler_ k2) = Some next -> om_find h (mutexes_ p') = Some mu2 ->
     (LockMutex h false {| p' with pt_kernel := k2 |}).2 = kOk /\
     om_find h (mutexes_ (LockMutex h false {| p' with pt_kernel := k2 |}).1) =
       Some {| mu2 with mx_granted_waiters := ∅ |}).
Proof.
  intros Hp Hc Hf Ho Hr. pose proof (unlock_handed_over h mu p t (po_locks _ Hp) Hc Hf Ho Hr) as Hh.
  assert (Hnz : t <> 0).
  { pose proof (current_u64 _ _ (lo_kernel _ _ _ (po_locks _ Hp)) Hc). lia. }
  pose proof (UnlockMutex_locks h p (po_locks _ Hp)) as Hl'.
  destruct (UnlockMutex h p) as [p' status]. destruct Hh as (-> & mu' & Hf' & Hover).
  split_and!; [done|by exists mu'|]. intros next rest k2 mu2 Hw Hc2 Hf2.
  rewrite Hf' in Hf2. injection Hf2 as <-. unfold handed_over in Hover. rewrite Hw in Hover.
  destruct Hover as (Ho' & Hr' & Hw' & Hg' & Hready & _).
  assert (Hn0 : next <> 0).
  { intros ->. destruct Hready as (th & Hth & _). simpl in Hl'.
    pose proof (thread_u64 _ _ _ (lo_kernel _ _ _ Hl') Hth). lia. }
  unfold LockMutex, pt_current. cbn [pt_kernel mutexes_]. rewrite Hc2, Hf', Ho'.
  replace (next =? kInvalidKernelHandle) with false by (unfold kInvalidKernelHandle; lia).
  rewrite Z.eqb_refl, bool_decide_eq_true_2 by (rewrite Hg'; set_solver). split; [done|].
  cbn [set_mutex mutexes_ fst]. rewrite om_find_update, decide_True, Hf' by done. simpl. do 2 f_equal.
  rewrite Hg'. set_solver.
Qed.

(** ** Mutual exclusion *)

Definition mutex_owner (h : Z) p : option Z := mx_owner <$> om_find h (mutexes_ p).

Lemma owner_of_update h h' f p t k (ms := om_update h' f (mutexes_ p)) :
  mutex_owner h p = Some t ->
  (forall mu, om_find h' (mutexes_ p) = Some mu -> h' = h -> mx_owner (f mu) = mx_owner mu) ->
  mutex_owner h {| p with mutexes_ := ms; pt_kernel := k |} = Some t.
Proof.
  unfold mutex_owner, ms. simpl. rewrite om_find_update. case_decide as Hd; [subst h'|done].
  destruct (om_find h (mutexes_ p)) as [mu|]; [|done]. simpl. intros [= <-] Hf. by rewrite Hf.
Qed.

Lemma LockMutex_owner_of h h' b p t :
  locks p -> mutex_owner h p = Some t -> t <> 0 -> mutex_owner h (LockMutex h' b p).1 = Some t.
Proof.
  intros Hl Ho Ht. unfold LockMutex. destruct (pt_current p) as [current|] eqn:Hc; [|done].
  destruct (om_find h' (mutexes_ p)) as [mu|] eqn:Hf; [|done].
  assert (Hset : forall mu', mx_owner mu' = mx_owner mu -> mutex_owner h (set_mutex h' mu' p) = Some t).
  { intros mu' E. apply (owner_of_update h h' (fun _ => mu') p t (pt_kernel p) Ho).
    intros mu0 Hf0 _. congruence. }
  destruct (mx_owner mu =? kInvalidKernelHandle) eqn:E0.
  { apply (owner_of_update h h' (fun _ => _) p t (pt_kernel p) Ho). intros mu0 Hf0 <-.
    unfold mutex_owner in Ho. rewrite Hf in Ho. injection Ho as Ho. unfold kInvalidKernelHandle in E0. lia. }
  destruct (mx_owner mu =? current) eqn:E1.
  { unfold recurse_mutex. repeat split_match; simpl; try done; by apply Hset. }
  destruct b; [done|].
  destruct (lock_blocks h' mu p current Hl Hf Hc) as [Heq _];
    [unfold kInvalidKernelHandle in E0; lia|lia|].
  unfold LockMutex in Heq. rewrite Hc, Hf, E0, E1 in Heq. rewrite Heq. simpl.
  apply (owner_of_update h h' (fun _ => _) p t _ Ho). intros mu0 Hf0 _. simpl. congruence.
Qed.

Lemma UnlockMutex_owner_of h h' p t :
  mutex_owner h p = Some t -> pt_current p <> Some t -> mutex_owner h (UnlockMutex h' p).1 = Some t.
Proof.
  intros Ho Ht. unfold UnlockMutex. destruct (pt_current p) as [current|] eqn:Hc; [|done].
  destruct (om_find h' (mutexes_ p)) as [mu|] eqn:Hf; [|done].
  destruct (mx_owner mu =? current) eqn:E0; [|done]. simpl.
  assert (Hne : h' <> h).
  { intros ->. unfold mutex_owner in Ho. rewrite Hf in Ho. injection Ho as Ho. apply Ht. f_equal. lia. }
  assert (Hset : forall mu' k, mutex_owner h {| (set_mutex h' mu' p) with pt_kernel := k |} = Some t).
  { intros mu' k. by apply (owner_of_update h h' (fun _ => mu') p t k Ho). }
  destruct (mx_recursion_count mu =? 0); [done|].
  destruct (negb _); [by apply (Hset _ (pt_kernel p))|].
  destruct (GrantNextMutexWaiterLocked _ _) as [mu' key].
  case_bool_decide; [by apply (Hset _ (pt_kernel p))|by apply Hset].
Qed.

Lemma owner_of_waits h p t c m f g cm :
  mutex_owner h p = Some t -> (forall mu, mx_owner (g mu) = mx_owner mu) ->
  mutex_owner h {| p with conditions_ := om_update c f (conditions_ p);
                       mutexes_ := om_update m g (mutexes_ p);
                       completed_condition_waits_ := cm |} = Some t.
Proof. intros Ho Hg. by apply (owner_of_update h m g p t (pt_kernel p) Ho). Qed.

Lemma Wait_owner_of h c m d p t :
  locks p -> conditions p -> is_u64 c -> mutex_owner h p = Some t -> t <> 0 -> pt_current p <> Some t ->
  mutex_owner h (WaitConditionInternal c m d p).1 = Some t.
Proof.
  intros Hl Hco Hu Ho Ht Hne. unfold WaitConditionInternal.
  destruct (pt_current p) as [current|] eqn:Hc; [|done].
  pose proof (consume_locks (ConditionWaitKey c current) p Hl) as Hl0.
  pose proof (consume_current (ConditionWaitKey c current) (pt_kernel p)) as Hc0.
  destruct (ConsumeCurrentThreadTimeout _ _) as [k b]. simpl in Hl0, Hc0.
  set (p0 := {| p with pt_kernel := k |}) in *.
  assert (Ho0 : mutex_owner h p0 = Some t) by exact Ho.
  pose proof (wait_resume_locks c m current b p0 Hl0) as Hl1.
  pose proof (wait_resume_current c m current b p0) as Hc1.
  assert (Ho1 : mutex_owner h (wait_resume c m current b p0).1 = Some t).
  { unfold wait_resume, MonotonicNanoseconds. by repeat (split_match; try done). }
  destruct (wait_resume c m current b p0) as [p1 phase]. cbn [fst snd] in *.
  assert (Hcur : pt_current p1 = Some current).
  { rewrite Hc1. unfold pt_current, p0 in *. simpl. congruence. }
  destruct phase; [done| |].
  - unfold wait_complete. pose proof (LockMutex_owner_of h m false p1 t Hl1 Ho1 Ht) as Ho2.
    destruct (LockMutex m false p1) as [p2 st]. simpl in Ho2.
    repeat (split_match; try done); by apply owner_of_waits.
  - rewrite condition_wait_fresh_eq by done. repeat (split_match; try done). simpl.
    apply (UnlockMutex_owner_of h m (wait_register c m current d p1) t).
    + by apply (owner_of_waits h p1 t c m _ _ (completed_condition_waits_ p1)).
    + change (pt_current (wait_register c m current d p1)) with (pt_current p1). congruence.
Qed.

Lemma Exit_owner_of h v p t :
  mutex_owner h p = Some t -> pt_current p <> Some t -> mutex_owner h (Pthread_ExitCurrent v p).1 = Some t.
Proof.
  intros Ho Hne. unfold Pthread_ExitCurrent. destruct (pt_current p) as [current|]; [|done].
  rewrite exit_mutexes_eq, exit_rwlocks_eq. destruct (ExitCurrent _ _) as [k' b].
  assert (Ho1 : mutex_owner h (exit_completed_wait current p) = Some t).
  { unfold exit_completed_wait. destruct (om_find current _); [|done]. by apply owner_of_waits. }
  unfold mutex_owner in *. simpl. rewrite om_find_map_values.
  destruct (om_find h (mutexes_ (exit_completed_wait current p))) as [mu|]; [|done].
  cbn in Ho1. injection Ho1 as Ho1. cbn. unfold exit_mutex. replace (mx_owner mu =? current) with false; [by rewrite <- Ho1|].
  symmetry. apply Z.eqb_neq. congruence.
Qed.
End mutexes.

Section exclusion.
Context `{ClockSource} `{HostMemory}.

Lemma owner_of_emplace h p t h' mu :
  om_sorted (mutexes_ p) -> mutex_owner h p = Some t -> om_find h' (mutexes_ p) = None ->
  mx_owner <$> om_find h (om_emplace h' mu (mutexes_ p)) = Some t.
Proof.
  unfold mutex_owner. intros Hs Ho Hn. rewrite om_find_emplace by done. case_decide; [|done].
  subst h'. by rewrite Hn in Ho.
Qed.

Lemma CreateMutexLocked_owner_of h a ty slot p t :
  om_sorted (mutexes_ p) -> mutex_owner h p = Some t -> 0 <= next_mutex_id_ p ->
  mutex_owner h (CreateMutexLocked a ty slot p).1 = Some t.
Proof.
  intros Hs Ho Hnx. unfold CreateMutexLocked. destruct (_ && _); [done|]. cbv zeta.
  destruct slot as [slot|].
  - destruct (_ || _); [done|]. destruct (om_find _ (mutexes_ p)) eqn:E; [done|].
    by apply owner_of_emplace.
  - destruct (_ || _) eqn:Ez; [done|]. apply orb_false_iff in Ez as [E0 E1].
    pose proof (probe_mutex_id_spec (length (mutexes_ p) + length (rwlocks_ p)) p (next_mutex_id_ p)
      ltac:(unfold maximum_mutex_id; lia)) as Hp.
    destruct (probe_mutex_id _ _ p) as [c|]; [|done]. destruct Hp as (Hc & [Hf _] & _).
    unfold mutex_owner. cbn [fst mutexes_]. rewrite mutex_handle_small by lia. by apply owner_of_emplace.
Qed.

Lemma guest_mutex_loop_owner_of h a ty s slots p t :
  pthread_ok p -> guest_mutex_memory_ p = true -> slots = drop s (guest_mutex_slots_ p) ->
  negb (ty =? 0) && negb (IsMutexTypeValid ty) = false -> mutex_owner h p = Some t ->
  mutex_owner h (guest_mutex_loop a ty s slots p).1 = Some t.
Proof.
  intros Hp Hm Hsl Hty Ho. revert s Hsl. induction slots as [|used slots IH]; intros s Hsl; [done|].
  assert (Hls : guest_mutex_slots_ p !! s = Some used).
  { rewrite <- (Nat.add_0_r s), <- lookup_drop, <- Hsl. done. }
  assert (Hrest : slots = drop (S s) (guest_mutex_slots_ p)).
  { by rewrite <- Nat.add_1_r, <- drop_drop, <- Hsl. }
  cbn [guest_mutex_loop]. destruct used; [by apply IH|]. destruct (slot_wraps s p); [done|].
  destruct (om_find _ _) eqn:Hn; [by apply IH|].
  destruct (create_guest_mutex_at_cases a ty s p) as (m & [->| ->]); try done.
  - by eapply lookup_lt_Some.
  - by apply owner_of_emplace; [apply Hp|..].
Qed.

(** One call made while [t] is not running leaves [t] the owner. *)
Lemma owner_of_step h t p p' :
  pthread_step p p' -> pthread_ok p -> mutex_owner h p = Some t -> t <> 0 -> pt_current p <> Some t ->
  mutex_owner h p' = Some t.
Proof.
  intros Hst Hp Ho Ht Hne. pose proof (po_locks _ Hp) as Hl. pose proof (po_conditions _ Hp) as Hco.
  assert (Hs : om_sorted (mutexes_ p)) by apply Hp.
  destruct Hst;
    try (unfold CreateAttribute, DestroyAttribute, SetAttributeStackSize, Pthread_CreateThread,
           Pthread_DiscardReadyThread, Pthread_JoinThread, SetThreadStack, CreateThreadAttributeSnapshot,
           CreateMutexAttribute, DestroyMutexAttribute, SetMutexAttributeType,
           SetMutexAttributeProtocol, ConfigureGuestMutexArena, ReleaseGuestMutexArena, DestroyRwlock,
           CreateCondition, DestroyCondition, CreateKey, DeleteKey, SetSpecific;
         by repeat (split_match; try done)).
  - by apply Exit_owner_of.
  - apply CreateMutexLocked_owner_of; [done|done|apply Hp].
  - unfold CreateGuestMutex. destruct (guest_mutex_memory_ p) eqn:Hm; [|done]. simpl.
    destruct (_ && _) eqn:Hty; [done|]. by apply guest_mutex_loop_owner_of.
  - unfold DestroyMutex. destruct (h0 =? 0); [done|]. destruct (om_find h0 _) as [mu|] eqn:Hf; [|done].
    destruct (mutex_idle mu) eqn:Ei; [|done]. apply mutex_idle_true in Ei as (Hz & _).
    assert (Hk : mx_owner <$> om_find h (om_erase h0 (mutexes_ p)) = Some t).
    { unfold mutex_owner in Ho. rewrite om_find_erase. case_decide; [|done]. subst h0.
      rewrite Hf in Ho. injection Ho as Ho. congruence. }
    by repeat (split_match; try done).
  - by apply LockMutex_owner_of.
  - by apply UnlockMutex_owner_of.
  - unfold CreateGuestRwlock. destruct (negb _); [done|].
    clear Hp Hl Hco Hs Hne. generalize (guest_mutex_slots_ p) as slots. intros slots.
    generalize 0%nat as s. revert p Ho. induction slots as [|used slots IH]; intros p Ho s; [done|].
    cbn [guest_rwlock_loop]. repeat (split_match; try done); by apply IH.
  - unfold LockRwlock. cbv zeta. by repeat (split_match; try done).
  - unfold UnlockRwlock. cbv zeta. by repeat (split_match; try done).
  - by apply Wait_owner_of.
  - unfold WaitConditionFor, MonotonicNanoseconds. apply Wait_owner_of; try done.
    by apply locks_with_clock.
  - unfold WaitConditionUntilRealtime. destruct (RealtimeDeadlineToMonotonic _ _) as [c' [d'|]]; [|done].
    apply Wait_owner_of; try done. by apply locks_with_clock.
  - unfold SignalCondition. by repeat (split_match; try done).
Qed.

(** Histories in which [t] does not run. *)
Inductive without (t : Z) : PthreadService -> PthreadService -> Prop :=
| without_refl p : without t p p
| without_step p p' p'' :
    pt_current p <> Some t -> pthread_step p p' -> without t p' p'' -> without t p p''.

(** C26: mutual exclusion: once a thread has locked a mutex, then as long as it
    does not run itself nothing the other threads and services do takes the
    mutex away, and no other thread's [LockMutex] or [UnlockMutex] on it
    succeeds. *)
Theorem mutex_mutual_exclusion h t p p' :
  pthread_ok p -> mutex_owner h p = Some t -> t <> 0 -> without t p p' ->
  mutex_owner h p' = Some t /\
  forall other try_only, other <> t -> pt_current p' = Some other ->
    ((LockMutex h try_only p').2 = kBusy \/ (LockMutex h try_only p').2 = kWouldBlock) /\
    UnlockMutex h p' = (p', kPermissionDenied).
Proof.
  intros Hp Ho Ht Hw. assert (Hend : mutex_owner h p' = Some t /\ pthread_ok p').
  { induction Hw as [p|p p' p'' Hne Hst _ IH]; [done|].
    apply IH; [by eapply pthread_step_ok|by eapply owner_of_step]. }
  destruct Hend as [Ho' Hp']. split; [done|]. intros other b Hne Hc.
  unfold mutex_owner in Ho'. destruct (om_find h (mutexes_ p')) as [mu|] eqn:Hf; [|done].
  injection Ho' as Ho'. split.
  - destruct b.
    + left. unfold LockMutex. rewrite Hc, Hf. unfold kInvalidKernelHandle.
      replace (mx_owner mu =? 0) with false by lia. by replace (mx_owner mu =? other) with false by lia.
    + right. destruct (lock_blocks h mu p' other (po_locks _ Hp') Hf Hc) as [-> _]; [lia|lia|done].
  - unfold UnlockMutex. rewrite Hc, Hf. by replace (mx_owner mu =? other) with false by lia.
Qed.
End exclusion.
