(* ===== verification/PthreadSpecs.v ===== *)
(** Condition variables, read-write locks, thread-specific data, deadlines and
    mutex handles of [src/kernel/pthread.cpp]: the effect of each call. *)
From S2P Require Import Prelude Ranges OrderedMap WaitKeys HandleTable Objects.
From S2P Require Import Clock Scheduler SchedulerInv SchedulerProps WakeAll SharedBacking.
From S2P Require Import GuestMemory Pthread PthreadLocks PthreadRwlocks.
From S2P Require Import PthreadConditions PthreadInv PthreadObjects PthreadReachable.
From S2P Require Import PthreadProps.

Implicit Types (p : PthreadService) (mu : MutexState) (rw : RwlockState) (k : Kernel).

(** ** Condition variables *)

Section conditions.
Context `{ClockSource}.

(** Blocking the running thread leaves the others' readiness and parking. *)
Lemma block_keeps_ready key d k t u :
  kernel_ok k -> current_thread_ (scheduler_ k) = Some t ->
  in_state (scheduler_ k) u kReady -> in_state (scheduler_ (BlockCurrentLocked key d k).1) u kReady.
Proof.
  intros Hk Hc (th & Hu & Hs). unfold BlockCurrentLocked. case_bool_decide; [by exists th|].
  destruct (running_thread _) as [[h th']|] eqn:E; [|by exists th].
  apply running_thread_Some in E as (_ & Ht & Hst). exists th. split; [|done].
  simpl. rewrite om_find_update. rewrite decide_False; [done|]. intros ->. congruence.
Qed.

Lemma handed_over_block h mu mu' key d k t :
  kernel_ok k -> current_thread_ (scheduler_ k) = Some t ->
  (forall u, key <> MutexWaitKey h u) ->
  handed_over h mu mu' (scheduler_ k) k ->
  handed_over h mu mu' (scheduler_ (BlockCurrentLocked key d k).1) (BlockCurrentLocked key d k).1.
Proof.
  intros Hk Hc Hne. unfold handed_over. destruct (mx_waiters mu) as [|next rest]; [done|].
  intros (Ho & Hr & Hw & Hg & Hready & Hp). split_and!; try done.
  - by eapply block_keeps_ready.
  - intros u Hu.
    apply (BlockCurrentLocked_quiet (fun s => exists u, s = MutexWaitKey h u) key d k); [|by eauto|by apply Hp].
    intros [u' ->]. by eapply Hne.
Qed.

(** A condition wait gives up the mutex and parks in one step: for the owner
    of a mutex it holds once, with no earlier wait to finish, the call reports
    [kWouldBlock]; the thread is blocked on its condition key with the given
    deadline and is the last in the condition's queue, the mutex has been
    handed to its longest waiter (or is free), and both the condition and the
    mutex count the wait. *)
Theorem condition_wait_parks c m d p t cv mu :
  pthread_ok p -> is_u64 c -> pt_current p = Some t ->
  om_find c (conditions_ p) = Some cv -> om_find m (mutexes_ p) = Some mu ->
  mx_owner mu = t -> mx_recursion_count mu = 1 ->
  om_find t (completed_condition_waits_ p) = None ->
  CurrentThreadTimedOut (ConditionWaitKey c t) (pt_kernel p) = false ->
  let '(p', status) := WaitConditionInternal c m d p in
  status = kWouldBlock /\ pt_current p' = None /\
  (exists th, om_find t (threads_ (scheduler_ (pt_kernel p'))) = Some th /\
     th_state th = kBlocked /\ th_wait_key th = ConditionWaitKey c t /\ th_wait_deadline th = d) /\
  (exists cv', om_find c (conditions_ p') = Some cv' /\
     cv_waiters cv' = cv_waiters cv ++ [mkConditionWaiter t c m d false] /\
     cv_active_waiter_count cv' = S (cv_active_waiter_count cv)) /\
  (exists mu', om_find m (mutexes_ p') = Some mu' /\
     mx_condition_waiter_count mu' = S (mx_condition_waiter_count mu) /\
     handed_over m mu mu' (scheduler_ (pt_kernel p')) (pt_kernel p')).
Proof.
  intros Hp Hu Hc Hfc Hfm Ho Hr Hcw Hto. pose proof (po_locks _ Hp) as Hl.
  unfold WaitConditionInternal. rewrite Hc.
  assert (Hcons : ConsumeCurrentThreadTimeout (ConditionWaitKey c t) (pt_kernel p) = (pt_kernel p, false)).
  { revert Hto. unfold ConsumeCurrentThreadTimeout, CurrentThreadTimedOut.
    case_bool_decide; [done|]. destruct (running_thread _) as [[h th]|]; [|done]. by intros ->. }
  rewrite Hcons. replace {| p with pt_kernel := pt_kernel p |} with p by (by destruct p).
  unfold wait_resume. rewrite Hcw. cbn [negb]. rewrite condition_wait_fresh_eq, Hfc, Hfm by done.
  rewrite Ho, Z.eqb_refl, Hr. cbn [negb Z.eqb Pos.eqb]. cbv zeta.
  pose proof (wait_register_locks c m t d p Hl) as Hlr.
  set (pr := wait_register c m t d p) in *.
  assert (Hfr : om_find m (mutexes_ pr) =
     Some {| mu with mx_condition_waiter_count := S (mx_condition_waiter_count mu) |}).
  { simpl. by rewrite om_find_update, decide_True, Hfm. }
  pose proof (unlock_handed_over m _ pr t Hlr Hc Hfr Ho Hr) as Hh.
  pose proof (UnlockMutex_locks m pr Hlr) as Hl2. pose proof (UnlockMutex_only_locks m pr) as Hol.
  assert (Hc2 : pt_current (UnlockMutex m pr).1 = Some t).
  { unfold UnlockMutex, pt_current in *. simpl pt_kernel at 1. rewrite Hc.
    repeat (split_match; try done); simpl; by rewrite WakeBlockedThreads_current. }
  destruct (UnlockMutex m pr) as [p2 st]. cbn [fst] in *.
  destruct Hh as (_ & mu' & Hf' & Hover).
  destruct (BlockCurrentLocked_spec (ConditionWaitKey c t) d (pt_kernel p2) t (lo_kernel _ _ _ Hl2))
    as (_ & Hcn & th & Hth & Hbs & Hbk & Hbd);
    [apply (key_string_nonempty (PthreadConditionKey c t))|exact Hc2|].
  split_and!; [done|exact Hcn|by exists th| |].
  - exists (mkConditionState (cv_waiters cv ++ [mkConditionWaiter t c m d false])
              (S (cv_active_waiter_count cv))).
    split; [|done]. cbn [conditions_]. rewrite (ol_rest _ _ Hol). simpl.
    by rewrite om_find_update, decide_True, Hfc.
  - exists mu'. split_and!; [exact Hf'| |].
    + pose proof (ol_mutexes _ _ Hol m) as Hsm. rewrite Hfr, Hf' in Hsm.
      by inversion Hsm as [? ? (_ & _ & ? & _)|].
    + eapply handed_over_block; [apply Hl2|exact Hc2|done|exact Hover].
Qed.

(** A finished condition wait comes back with the mutex or not at all: while
    the mutex is taken the wait stays finished and pending, and once the mutex
    is acquired the call reports [kTimedOut] or [kOk] according to how the
    wait ended and takes the wait off both accounts; it never fails on the
    accounts. *)
Theorem condition_wait_finishes c m d p t w :
  pthread_ok p -> pt_current p = Some t ->
  om_find t (completed_condition_waits_ p) = Some w ->
  cw_condition_handle w = c -> cw_mutex_handle w = m ->
  exists p0, p0 = {| p with pt_kernel :=
     (ConsumeCurrentThreadTimeout (ConditionWaitKey c t) (pt_kernel p)).1 |} /\
  let '(p1, lock_status) := LockMutex m false p0 in
  let '(p', status) := WaitConditionInternal c m d p in
  if status_eqb lock_status kOk then
    status = (if cw_timed_out w then kTimedOut else kOk) /\
    om_find t (completed_condition_waits_ p') = None /\
    active_of c (conditions_ p') = pred (active_of c (conditions_ p)) /\
    mutex_waits_of m (mutexes_ p') = pred (mutex_waits_of m (mutexes_ p)) /\
    mutex_owner m p' = mutex_owner m p1
  else
    p' = p1 /\ status = lock_status /\
    completed_condition_waits_ p' = completed_condition_waits_ p.
Proof.
  intros Hp Hc Hw Hcc Hcm. eexists. split; [reflexivity|].
  pose proof (po_locks _ Hp) as Hl. pose proof (consume_locks (ConditionWaitKey c t) p Hl) as Hl0.
  unfold WaitConditionInternal. rewrite Hc.
  destruct (ConsumeCurrentThreadTimeout _ _) as [k b]. cbn [fst] in *.
  set (p0 := {| p with pt_kernel := k |}) in *. assert (Hco0 : conditions p0) by apply Hp.
  unfold wait_resume. change (completed_condition_waits_ p0) with (completed_condition_waits_ p).
  rewrite Hw. rewrite Hcc, Hcm, !Z.eqb_refl. cbn [negb orb].
  rewrite (wait_complete_eq c m t w p0 Hl0 Hco0 Hw Hcc Hcm).
  pose proof (LockMutex_only_locks m false p0 Hl0) as Hol.
  destruct (LockMutex m false p0) as [p1 st]. cbn [fst] in Hol.
  destruct (status_eqb st kOk) eqn:Est; cbn [negb].
  - split_and!; [done| | | |].
    + cbn [completed_condition_waits_]. by rewrite om_find_erase, decide_True.
    + cbn [conditions_]. rewrite active_of_update, (ol_rest _ _ Hol). simpl. unfold active_of.
      destruct (om_find c (conditions_ p)); [by rewrite decide_True|done].
    + cbn [mutexes_]. rewrite mutex_waits_of_update.
      pose proof (only_locks_waits _ _ m Hol) as Hwt. unfold mutex_waits_of in *. simpl in Hwt.
      destruct (om_find m (mutexes_ p1)); [rewrite decide_True by done; simpl; congruence|].
      by rewrite <- Hwt.
    + unfold mutex_owner. cbn [mutexes_]. rewrite om_find_update, decide_True by done.
      by destruct (om_find m (mutexes_ p1)).
  - split_and!; [done|done|]. by rewrite (ol_rest _ _ Hol).
Qed.

Lemma signalled_one now (ws : list ConditionWaiter) :
  (length (filter (fun w => overdue now w = false) (signalled now false ws)) <= 1)%nat.
Proof.
  induction ws as [|w ws IH]; simpl; [lia|]. destruct (overdue now w) eqn:E; simpl.
  - rewrite filter_cons, decide_False by congruence. exact IH.
  - rewrite filter_cons, decide_True by done. simpl. lia.
Qed.

Lemma filter_unique {A} (f : A -> Z) (l : list A) a :
  NoDup (f <$> l) -> a ∈ l -> filter (fun x => f x = f a) l = [a].
Proof.
  induction l as [|x l IH]; [by intros _ ?%elem_of_nil|].
  rewrite fmap_cons, NoDup_cons. intros [Hni Hnd] Ha. rewrite filter_cons.
  assert (Hnone : forall b l', f b ∉ f <$> l' -> filter (fun x => f x = f b) l' = []).
  { clear. intros b. induction l' as [|y l' IH]; [done|]. rewrite fmap_cons, not_elem_of_cons.
    intros [H1 H2]. rewrite filter_cons, decide_False by congruence. by apply IH. }
  apply elem_of_cons in Ha as [->|Ha].
  - rewrite decide_True by done. f_equal. by apply Hnone.
  - rewrite decide_False; [by apply IH|]. intros Heq. apply Hni. rewrite Heq.
    by apply list_elem_of_fmap_2.
Qed.

(** Signalling: the released waiters are a prefix of the queue, oldest first,
    and the rest stay queued; overdue waiters are released as timed out and do
    not use the signal up, so a signal releases at most one waiter that is not
    overdue and releases one if there is any, and a broadcast releases all.
    Every released thread is recorded as finished and, if it was parked on the
    condition, is made ready. *)
Theorem condition_signal_releases h broadcast p cv :
  pthread_ok p -> om_find h (conditions_ p) = Some cv ->
  NoDup (cw_thread <$> cv_waiters cv) -> Forall (fun w => is_u64 (cw_thread w)) (cv_waiters cv) ->
  let now := source_monotonic (clock_reads (clock_ (pt_kernel p))) in
  let released := signalled now broadcast (cv_waiters cv) in
  let '(p', status) := SignalCondition h broadcast p in
  status = kOk /\
  (exists cv', om_find h (conditions_ p') = Some cv' /\ cv_waiters cv = released ++ cv_waiters cv' /\
     cv_active_waiter_count cv' = cv_active_waiter_count cv /\
     (broadcast = true -> cv_waiters cv' = []) /\
     (broadcast = false ->
        (length (filter (fun w => overdue now w = false) released) <= 1)%nat /\
        (cv_waiters cv' <> [] -> Exists (fun w => overdue now w = false) released))) /\
  (forall w, w ∈ released ->
     om_find (cw_thread w) (completed_condition_waits_ p') = Some (completed_as now w) /\
     (parked (pt_kernel p) (cw_thread w) (ConditionWaitKey h (cw_thread w)) ->
      in_state (scheduler_ (pt_kernel p')) (cw_thread w) kReady)).
Proof.
  intros Hp Hf Hnd Hu. cbv zeta. set (now := source_monotonic _).
  unfold SignalCondition, MonotonicNanoseconds. rewrite Hf, signal_loop_eq. fold now.
  destruct (signalled_prefix now broadcast (cv_waiters cv)) as (rest & E1 & E2). rewrite E2.
  set (released := signalled now broadcast (cv_waiters cv)) in *.
  split_and!; [done| |].
  - exists {| cv with cv_waiters := rest |}. cbn [conditions_ cv_waiters cv_active_waiter_count].
    rewrite om_find_update, decide_True, Hf by done. split_and!; [done|done|done| |].
    + intros ->. assert (Hall : forall ws, signalled now true ws = ws).
      { induction ws as [|w ws IH]; simpl; [done|]. by rewrite orb_true_r, IH. }
      unfold released in E1. rewrite Hall in E1. rewrite <- (app_nil_r (cv_waiters cv)) in E1 at 1.
      by apply app_inv_head in E1.
    + intros ->. split; [apply signalled_one|]. intros Hne.
      unfold released in *. clear -E1 E2 Hne. revert rest E1 E2 Hne.
      induction (cv_waiters cv) as [|w ws IH]; intros rest E1 E2 Hne; simpl in *; [by subst|].
      destruct (overdue now w) eqn:Eo; simpl in *; [|by left]. right.
      injection E1 as E1. by apply (IH rest).
  - intros w Hw. split.
    + cbn [completed_condition_waits_]. rewrite complete_all_find by apply Hp.
      rewrite (filter_unique cw_thread released w); [done| |done].
      rewrite E1, fmap_app in Hnd. by apply NoDup_app in Hnd as (Hnd & _ & _).
    + intros Hpk. cbn [pt_kernel].
      assert (Hk : kernel_ok (with_clock (pt_kernel p)
        (mkClock (process_start_nanoseconds_ (clock_ (pt_kernel p))) (S (clock_reads (clock_ (pt_kernel p))))))).
      { destruct (lo_kernel _ _ _ (po_locks _ Hp)). by split. }
      apply (wake_each_ready _ _ (PthreadConditionKey h (cw_thread w))); try done.
      * exact (lo_own _ _ _ (po_locks _ Hp)).
      * simpl. split.
        -- pose proof (id_condition _ (po_ids _ Hp) h ltac:(eauto)) as Hi.
           pose proof (id_next_condition _ (po_ids _ Hp)) as Hn. unfold issued_handle, next_ok in *.
           change kSyntheticConditionHandleBase with 105583181037568 in *. u64_lia.
        -- rewrite Forall_forall in Hu. apply Hu. rewrite E1. apply elem_of_app. by left.
      * simpl. by apply (list_elem_of_fmap_2 (fun w => ConditionWaitKey h (cw_thread w))).
Qed.
End conditions.

(** ** Read-write locks *)

Section rwlocks.
Context `{ClockSource}.

(** The threads that get the lock when it becomes free: the writer at the front
    of the queue alone, or the readers up to the first writer. *)
Definition rw_heirs rw : list Z :=
  match rw_waiters rw with
  | [] => []
  | w :: _ => if rq_write w then [rq_thread w] else front_readers (rw_waiters rw)
  end.

(** The last holder lets go: what the lock becomes. *)
Definition rw_inherited rw rw' : Prop :=
  rw_queue rw = rw_heirs rw ++ rw_queue rw' /\
  match rw_waiters rw with
  | [] => rw_writer rw' = 0 /\ rw_readers rw' = []
  | w :: _ =>
      if rq_write w then rw_writer rw' = rq_thread w /\ rw_readers rw' = []
      else rw_writer rw' = 0 /\
        forall t, om_find t (rw_readers rw') = if decide (t ∈ rw_heirs rw) then Some 1 else None
  end.

Lemma grant_inherits h rw :
  rwlock_pre rw -> rwlock_free rw = true -> 0 ∉ rw_queue rw ->
  let '(rw', keys) := GrantRwlockWaitersLocked h rw [] in
  rw_inherited rw rw' /\ keys = RwlockWaitKey h <$> rw_heirs rw.
Proof.
  intros Hpre Hfree Hz. pose proof (GrantRwlock_spec h rw [] Hpre Hfree Hz) as Hg.
  destruct (GrantRwlockWaitersLocked h rw []) as [rw' keys].
  destruct Hg as (_ & granted & Hs & -> & Hm). apply rwlock_free_true in Hfree as [Hw Hr].
  unfold rw_inherited, rw_heirs. unfold rw_queue in Hs at 1. revert Hs Hm.
  unfold rw_queue at 2. destruct (rw_waiters rw) as [|w rest]; intros Hs Hm.
  - subst rw'. assert (granted = []) as -> by (destruct granted; [done|discriminate]). done.
  - destruct (rq_write w); [by destruct Hm as (-> & ? & _ & ?)|by destruct Hm as (-> & ? & ? & _)].
Qed.

(** Releasing a read-write lock: when its last holder unlocks it, a writer at
    the front of the queue gets the lock alone, and otherwise all readers up
    to the first queued writer get it together, once each; exactly those
    threads leave the queue and become ready, the others stay queued in order
    and parked. *)
Theorem rwlock_release_grants h rw p t :
  pthread_ok p -> pt_current p = Some t -> om_find h (rwlocks_ p) = Some rw ->
  rw_writer rw = t \/ (rw_writer rw = 0 /\ rw_readers rw = [(t, 1)]) ->
  let '(p', status) := UnlockRwlock h p in
  status = kOk /\
  (exists rw', om_find h (rwlocks_ p') = Some rw' /\ rw_inherited rw rw' /\
     forall u, u ∈ rw_queue rw' -> parked (pt_kernel p') u (RwlockWaitKey h u)) /\
  (forall u, u ∈ rw_heirs rw -> in_state (scheduler_ (pt_kernel p')) u kReady).
Proof.
  intros Hp Hc Hf Hheld. pose proof (po_locks _ Hp) as Hl.
  pose proof (UnlockRwlock_locks h p Hl) as Hl'. revert Hl'.
  destruct (locks_find_rwlock _ _ _ _ _ Hl Hf) as [Hu Hok].
  pose proof (zero_not_queued _ _ _ _ _ Hl Hf) as Hz.
  assert (Ht : t <> 0) by (pose proof (current_u64 _ _ (lo_kernel _ _ _ Hl) Hc); lia).
  unfold UnlockRwlock. rewrite Hc, Hf. cbv zeta.
  assert (Hrel : exists rw1, (if rw_writer rw =? t then Some {| rw with rw_writer := kInvalidKernelHandle |}
     else match om_find t (rw_readers rw) with
          | Some count => Some (release_reader t count rw) | None => None end) = Some rw1 /\
     rwlock_pre rw1 /\ rwlock_free rw1 = true /\ rw_waiters rw1 = rw_waiters rw).
  { destruct Hheld as [Hw|[Hw Hr]].
    - rewrite Hw, Z.eqb_refl. eexists. split; [done|].
      split; [by apply (release_writer_pre rw (rw_granted_writer rw))|]. split; [|done].
      apply rwlock_free_true. split; [done|]. simpl. apply Hok. lia.
    - replace (rw_writer rw =? t) with false by lia.
      assert (Hft : om_find t (rw_readers rw) = Some 1).
      { rewrite Hr. unfold om_find. simpl. by rewrite Z.eqb_refl. }
      rewrite Hft. eexists. split; [done|]. split; [by apply release_reader_pre|].
      unfold release_reader. simpl. split; [|done]. apply rwlock_free_true. split; [done|].
      simpl. rewrite Hr. unfold om_erase. by rewrite filter_cons, decide_False by (simpl; lia). }
  destruct Hrel as (rw1 & -> & Hpre & Hfree & Hws). rewrite Hfree.
  pose proof (grant_inherits h rw1 Hpre Hfree ltac:(unfold rw_queue; by rewrite Hws)) as Hg.
  destruct (GrantRwlockWaitersLocked h rw1 []) as [rw2 keys]. destruct Hg as [Hin ->].
  assert (Hh : rw_heirs rw1 = rw_heirs rw) by (unfold rw_heirs; by rewrite Hws).
  unfold rw_inherited, rw_queue in Hin. rewrite Hh, Hws in Hin. rewrite Hh. intros Hl'.
  assert (Hf2 : om_find h (rwlocks_ (set_rwlock h rw2 p)) = Some rw2).
  { simpl. by rewrite om_find_update, decide_True, Hf. }
  split_and!; [done| |].
  - exists rw2. split_and!; [done|exact Hin|]. intros u Hin'.
    apply (lo_parked _ _ _ Hl' u (PthreadRwlockKey h u)). by econstructor.
  - intros u Hin'. cbn [pt_kernel set_rwlock].
    assert (Hq : u ∈ rw_queue rw).
    { unfold rw_queue. destruct Hin as [-> _]. apply elem_of_app. by left. }
    pose proof (rw_waiter_u64 _ _ _ _ _ _ Hl Hf Hq) as Huu.
    apply (wake_each_ready _ _ (PthreadRwlockKey h u)); [apply Hl|apply Hl|simpl; split; [done|u64_lia]|..].
    all: try done.
    + apply (list_elem_of_fmap_2 (RwlockWaitKey h)). done.
    + apply (lo_parked _ _ _ Hl u (PthreadRwlockKey h u)). by econstructor.
Qed.

(** C27: a read lock is refused while another thread reads: with no writer and an
    empty queue, a reader that neither holds the lock nor has been granted it is told [kBusy] when it
    only tries, and is queued and blocked otherwise. *)
Theorem readers_do_not_share h rw p t r count try_only :
  pthread_ok p -> pt_current p = Some t -> om_find h (rwlocks_ p) = Some rw ->
  rw_writer rw = 0 -> rw_waiters rw = [] -> rw_readers rw = [(r, count)] -> r <> t ->
  t ∉ rw_granted_readers rw ->
  (LockRwlock h false try_only p).2 = if try_only then kBusy else kWouldBlock.
Proof.
  intros Hp Hc Hf Hw Hq Hr Hne Hng. pose proof (po_locks _ Hp) as Hl.
  destruct (locks_find_rwlock _ _ _ _ _ Hl Hf) as [Hu Hok].
  assert (Hnr : om_find t (rw_readers rw) = None).
  { rewrite Hr, om_find_cons, decide_False by done. done. }
  assert (Ht : t <> 0) by (pose proof (current_u64 _ _ (lo_kernel _ _ _ Hl) Hc); lia).
  unfold LockRwlock. rewrite Hc, Hf. cbn [andb negb]. rewrite bool_decide_eq_false_2 by done.
  rewrite Hnr, Hw. replace (0 =? t) with false by lia. unfold rwlock_free. rewrite Hr, Hw. simpl.
  destruct try_only; [done|].
  destruct (rw_lock_blocks h rw false p t Hl Hf Hc) as (_ & Hb & _); [lia|done| |].
  { unfold rwlock_free. by rewrite Hr, Hw. }
  destruct (BlockCurrent _ _) as [k blocked]. simpl in Hb. by subst.
Qed.
End rwlocks.

(** ** Thread-specific data *)

Section tls.
Context `{ClockSource}.

(** What thread [t] reads under [key]: absent values read as zero. *)
Definition specific p (t key : Z) : Z :=
  default 0 (om_find t (specific_values_ p) ≫= om_find key).

(** A key that is not live has no value anywhere. *)
Lemma dead_key_reads_zero p t key :
  pthread_ok p -> 0 <= key -> key_live key p = false -> specific p t key = 0.
Proof.
  intros Hp H0 Hd. unfold specific. destruct (om_find t _) as [vs|] eqn:E; [simpl|done].
  destruct (om_find key vs) as [v|] eqn:Ev; [exfalso|done].
  destruct (tl_each _ _ (po_tls _ Hp) t vs E) as (_ & _ & Hk). destruct (Hk key v Ev) as (_ & d & Hl).
  unfold key_live in Hd. rewrite Hl in Hd. apply lookup_lt_Some in Hl. lia.
Qed.

Lemma specific_set p t u key key' v :
  pthread_ok p ->
  specific {| p with specific_values_ := om_set t
     (om_set key v (default [] (om_find t (specific_values_ p)))) (specific_values_ p) |} u key' =
  if decide (u = t /\ key' = key) then v else specific p u key'.
Proof.
  intros Hp. pose proof (po_tls _ Hp) as [_ Hs He]. unfold specific. simpl.
  rewrite om_find_set by done. destruct (decide (u = t)) as [->|Hne]; simpl.
  - rewrite om_find_set.
    + case_decide; [subst; by rewrite decide_True|]. rewrite decide_False by naive_solver.
      by destruct (om_find t _).
    + destruct (om_find t _) as [vs|] eqn:E; simpl; [by apply (He t)|auto with kernel].
  - by rewrite decide_False by naive_solver.
Qed.

Lemma specific_purge p t key key' ks :
  pthread_ok p ->
  specific {| p with keys_ := ks; specific_values_ := purge_key key (specific_values_ p) |} t key' =
  if decide (key' = key) then 0 else specific p t key'.
Proof.
  intros Hp. pose proof (po_tls _ Hp) as [_ Hs He]. unfold specific. simpl.
  rewrite om_find_purge by done. destruct (om_find t _) as [vs|]; simpl; [|by case_decide].
  pose proof (om_find_erase key key' vs) as Hf.
  destruct (om_erase key vs) as [|e l]; simpl; [|rewrite Hf]; destruct (decide (key' = key)); try done.
  by rewrite <- Hf.
Qed.

(** Thread-specific data is a table from thread and key to value: a live key
    reads what its thread last set and zero before that, setting one value
    changes no other thread's and no other key's, a deleted key loses its
    values in every thread and no other key does, and a new key is the lowest
    free index and reads zero in every thread. *)
Theorem thread_specific_table key v d p t :
  pthread_ok p -> pt_current p = Some t -> 0 <= key ->
  (GetSpecific key p = if key_live key p then (kOk, specific p t key) else (kNotFound, 0)) /\
  (let '(p', status) := SetSpecific key v p in
   if key_live key p then
     status = kOk /\ GetSpecific key p' = (kOk, v) /\
     forall u key', specific p' u key' = if decide (u = t /\ key' = key) then v else specific p u key'
   else p' = p /\ status = kNotFound) /\
  (let '(p', status) := DeleteKey key p in
   if key_live key p then
     status = kOk /\ key_live key p' = false /\
     forall u key', specific p' u key' = if decide (key' = key) then 0 else specific p u key'
   else p' = p /\ status = kNotFound) /\
  (let '(p', (status, fresh)) := CreateKey d p in
   if status_eqb status kOk then
     key_live fresh p = false /\ key_live fresh p' = true /\
     (forall low, 0 <= low < fresh -> key_live low p = true) /\
     (forall u, specific p' u fresh = 0) /\ specific_values_ p' = specific_values_ p
   else p' = p /\ status = kNoResources /\
     forall low, 0 <= low < Z.of_nat kMaximumPthreadKeys -> key_live low p = true).
Proof.
  intros Hp Hc Hk.
  assert (Hget : forall p, pt_current p = Some t ->
    GetSpecific key p = if key_live key p then (kOk, specific p t key) else (kNotFound, 0)).
  { intros q Hq. unfold GetSpecific, specific. rewrite Hq. destruct (key_live key q); [simpl|done].
    by destruct (om_find t _). }
  split_and!.
  - by apply Hget.
  - unfold SetSpecific. rewrite Hc. destruct (key_live key p) eqn:El; simpl; [|done].
    assert (Hs := fun u key' => specific_set p t u key key' v Hp).
    split_and!; [done| |exact Hs]. rewrite Hget by exact Hc.
    change (key_live key _) with (key_live key p). rewrite El, Hs. by rewrite decide_True.
  - unfold DeleteKey. destruct (key_live key p) eqn:El; simpl; [|done].
    split_and!; [done| |by intros u key'; apply specific_purge].
    unfold key_live. simpl. apply key_live_true in El as [d' Hd].
    rewrite list_lookup_insert_eq by (by eapply lookup_lt_Some). apply andb_false_r.
  - unfold CreateKey. destruct (create_key_loop 0 (keys_ p)) as [i|] eqn:E; simpl.
    + apply create_key_loop_spec in E as (n & -> & Hn & Hlow). simpl.
      pose proof (lookup_lt_Some _ _ _ Hn) as Hlt.
      assert (Hd : key_live (Z.of_nat n) p = false).
      { unfold key_live. by rewrite Nat2Z.id, Hn, andb_false_r. }
      split_and!; [done| | | |done].
      * unfold key_live. simpl. rewrite length_insert, Nat2Z.id, list_lookup_insert_eq by done. lia.
      * intros low Hl. destruct (Hlow (Z.to_nat low) ltac:(lia)) as [d' Hd']. unfold key_live.
        rewrite Hd'. lia.
      * intros u. exact (dead_key_reads_zero p u (Z.of_nat n) Hp (Nat2Z.is_nonneg n) Hd).
    + split_and!; [done|done|]. intros low Hl. pose proof (tl_length _ _ (po_tls _ Hp)) as Hlen.
      assert (Hall : forall ks i n, create_key_loop i ks = None -> (n < length ks)%nat ->
                exists d, ks !! n = Some (Some d)).
      { clear. induction ks as [|[d|] ks IH]; intros i n Hn Hlt; simpl in *; [lia| |done].
        destruct n as [|n]; [by exists d|]. eapply IH; [done|lia]. }
      destruct (Hall _ _ (Z.to_nat low) E) as [d' Hd']; [rewrite Hlen; lia|].
      unfold key_live. rewrite Hd', Hlen. lia.
Qed.
End tls.

(** ** Deadlines *)

Section deadlines.
Context `{ClockSource, !ClockSourceLaws}.

Lemma timespec_remaining_exact (deadline now : KernelTimespec) (d n : Z) :
  timespec_denotes deadline d -> timespec_denotes now n -> 0 <= ts_seconds deadline < 2 ^ 63 ->
  - 2 ^ 63 <= n < 2 ^ 63 -> n < d ->
  timespec_remaining deadline now = Z.min u64_max (d - n).
Proof.
  intros [Hdn Hd] [Hnn Hn] Hds Hnb Hlt. unfold timespec_remaining, kNanosecondsPerSecond in *.
  assert (Hns : - 2 ^ 63 <= ts_seconds now < 2 ^ 63) by lia.
  set (ds := ts_seconds deadline) in *. set (dn := ts_nanoseconds deadline) in *.
  set (ns := ts_seconds now) in *. set (nn := ts_nanoseconds now) in *. clearbody ds dn ns nn.
  assert (Hdelta : (if ns >=? 0 then ds - ns else
     let negative_now := (- (ns + 1) + 1)%u64 in
     if ds >? u64_max - negative_now then u64_max else (ds + negative_now)%u64) = ds - ns).
  { destruct (ns >=? 0) eqn:E; [done|]. cbv zeta.
    assert (En : (- (ns + 1) + 1)%u64 = - ns) by (unwrap64; u64_lia). rewrite En.
    replace (ds >? u64_max - - ns) with false by u64_lia. unwrap64; u64_lia. }
  cbv zeta in *. rewrite Hdelta. clear Hdelta.
  change (u64_max / 1000000000) with 18446744073.
  assert (Hfin : forall s r, s * 1000000000 + r = d - n -> 0 <= s -> 0 <= r < 1000000000 ->
    (if s <=? 18446744073
     then if r >? u64_max - (s * 1000000000)%u64 then u64_max else ((s * 1000000000)%u64 + r)%u64
     else u64_max) = Z.min u64_max (d - n)).
  { intros s r Hs Hs0 Hr. destruct (s <=? 18446744073) eqn:Es; [|u64_lia].
    unwrap64. destruct (r >? _) eqn:Er; [|unwrap64]; u64_lia. }
  destruct (dn <? nn) eqn:Eb.
  - assert (ds - ns >= 1) by lia. rewrite (sub64_small (ds - ns)) by u64_lia. apply Hfin; lia.
  - apply Hfin; lia.
Qed.

Lemma saturating_sum a b :
  is_u64 a -> is_u64 b -> (if b >? u64_max - a then u64_max else (a + b)%u64) = Z.min u64_max (a + b).
Proof. intros Ha Hb. destruct (_ >? _) eqn:E; [|unwrap64]; u64_lia. Qed.

(** Deadlines are exact or saturated: a relative timeout ends that many
    microseconds after the monotonic time it was read at, and an absolute
    realtime deadline becomes the monotonic time as far ahead as the deadline
    is ahead of the realtime clock (not at all if it has passed); a deadline
    beyond the 64-bit nanosecond range becomes its top, and a timespec that is
    not normalised or is negative is refused. *)
Theorem deadlines_exact_or_saturated c deadline timeout :
  - 2 ^ 63 <= ts_seconds deadline < 2 ^ 63 -> is_u64 timeout ->
  let n := clock_reads c in
  (forall now, is_u64 now -> relative_deadline now timeout = Z.min u64_max (now + timeout * 1000)) /\
  (RealtimeDeadlineToMonotonic deadline c).2 =
    if bool_decide (0 <= ts_seconds deadline /\ 0 <= ts_nanoseconds deadline < kNanosecondsPerSecond) then
      Some (Z.min u64_max (source_monotonic (S n) +
        Z.max 0 (ts_seconds deadline * kNanosecondsPerSecond + ts_nanoseconds deadline
                 - source_realtime n)))
    else None.
Proof.
  intros Hs Ht n. split.
  { intros now Hn. unfold relative_deadline. change (u64_max / 1000) with 18446744073709551.
    assert (E : (if timeout >? 18446744073709551 then u64_max else (timeout * 1000)%u64) =
                Z.min u64_max (timeout * 1000)).
    { destruct (_ >? _) eqn:E; [|unwrap64]; u64_lia. }
    rewrite E, saturating_sum by u64_lia. u64_lia. }
  unfold RealtimeDeadlineToMonotonic. case_bool_decide as Hv.
  2:{ replace ((ts_seconds deadline <? 0) || (ts_nanoseconds deadline <? 0)
        || (ts_nanoseconds deadline >=? kNanosecondsPerSecond)) with true by lia. done. }
  replace ((ts_seconds deadline <? 0) || (ts_nanoseconds deadline <? 0)
    || (ts_nanoseconds deadline >=? kNanosecondsPerSecond)) with false by lia.
  cbn [ClockGettime is_realtime_clock kClockRealtime read_realtime Z.eqb orb status_eqb negb].
  change (status_eqb kOk kOk) with true. cbn [negb].
  unfold MonotonicNanoseconds. cbn [clock_reads process_start_nanoseconds_]. fold n.
  pose proof (SignedNanosecondsToTimespec_spec (source_realtime n)) as Hnow.
  pose proof (realtime_int64 n). pose proof (monotonic_u64 (S n)).
  set (now := SignedNanosecondsToTimespec (source_realtime n)) in *. clearbody now.
  destruct ((ts_seconds deadline <? ts_seconds now) || _) eqn:Epast; cbn [snd].
  - f_equal. destruct Hnow as [Hn1 Hn2]. unfold kNanosecondsPerSecond in *. u64_lia.
  - assert (Hd : timespec_denotes deadline
      (ts_seconds deadline * kNanosecondsPerSecond + ts_nanoseconds deadline)) by (split; [apply Hv|done]).
    set (d := ts_seconds deadline * _ + _) in *.
    assert (Hlt : source_realtime n < d).
    { destruct Hnow. unfold d, kNanosecondsPerSecond in *. lia. }
    rewrite (timespec_remaining_exact deadline now d (source_realtime n)) by (done || lia).
    rewrite saturating_sum by u64_lia. f_equal. u64_lia.
Qed.
End deadlines.

(** ** Mutex handles *)

Section handles.
Context `{ClockSource}.

(** The bounded search for a mutex handle is complete: [CreateMutex] hands out
    the lowest synthetic handle at or above its cursor that no mutex and no
    read-write lock uses, and moves the cursor past it; although the search
    stops after as many steps as there are objects, it reports [kNoResources]
    only when every remaining handle is in use. *)
Theorem mutex_handle_search_complete a ty p :
  pthread_ok p -> ty = 0 \/ IsMutexTypeValid ty = true ->
  0 < next_mutex_id_ p <= maximum_mutex_id ->
  let '(p', (status, handle)) := CreateMutex a ty p in
  if status_eqb status kOk then
    exists id, handle = kSyntheticMutexHandleBase + id /\ next_mutex_id_ p <= id <= maximum_mutex_id /\
      mutex_id_free id p /\ (forall x, next_mutex_id_ p <= x < id -> ~ mutex_id_free x p) /\
      mutex_owner handle p' = Some 0 /\ (forall h, h <> handle -> om_find h (mutexes_ p') = om_find h (mutexes_ p)) /\
      next_mutex_id_ p' = (if id =? maximum_mutex_id then 0 else id + 1)
  else p' = p /\ status = kNoResources /\
    forall x, next_mutex_id_ p <= x <= maximum_mutex_id -> ~ mutex_id_free x p.
Proof.
  intros Hp Hty Hn. assert (Hsm : om_sorted (mutexes_ p)) by apply Hp.
  unfold CreateMutex, CreateMutexLocked.
  replace (negb (ty =? 0) && negb (IsMutexTypeValid ty)) with false
    by (destruct Hty as [->| ->]; [done|by rewrite andb_false_r]).
  cbv zeta. fold maximum_mutex_id.
  replace ((next_mutex_id_ p =? 0) || (next_mutex_id_ p >? maximum_mutex_id)) with false by lia.
  pose proof (probe_mutex_id_spec (length (mutexes_ p) + length (rwlocks_ p)) p _ Hn) as Hs.
  pose proof (probe_mutex_id_complete p _ Hn) as Hcomp.
  destruct (probe_mutex_id _ _ p) as [id|]; simpl; [|by split_and!; [..|apply Hcomp]].
  destruct Hs as (Hid & Hfree & Hleast). rewrite mutex_handle_small by lia. exists id.
  split_and!; try done; try lia.
  - unfold mutex_owner. simpl. rewrite om_find_emplace; [|done|apply Hfree]. by rewrite decide_True.
  - intros h Hne. rewrite om_find_emplace; [|done|apply Hfree]. by rewrite decide_False.
  - destruct (id =? maximum_mutex_id) eqn:E; [done|]. apply add64_small.
    unfold maximum_mutex_id in *. change kSyntheticMutexHandleBase with 105578886070272 in *. u64_lia.
Qed.
End handles.
