(* ===== verification/ProcessLifecycle.v ===== *)
(** The process lifecycle service ([src/kernel/process_lifecycle.cpp]): the
    environment the guest's C library is started with, the exit callbacks and
    C++ destructors it registers, and the request to exit. *)
From S2P Require Import Prelude.

Definition kMaximumProcessExitCallbacks : nat := Z.to_nat 4096.
#[global] Opaque kMaximumProcessExitCallbacks.

Record GuestProcessEnvironment := mkEnvironment {
  env_initialized : bool;
  env_argc : Z;
  env_argv_address : Z;
  env_envp_address : Z
}.

Definition GuestProcessEnvironment_default : GuestProcessEnvironment := mkEnvironment false 0 0 0.

Record GuestCxaDestructor := mkCxaDestructor {
  cxa_function : Z;
  cxa_argument : Z;
  cxa_module : Z
}.

Record GuestProcessExitRequest := mkExitRequest { exit_requested : bool; exit_status : Z }.

Record ProcessLifecycleService := mkLifecycle {
  environment_ : GuestProcessEnvironment;
  atexit_callbacks_ : list Z;
  cxa_destructors_ : list GuestCxaDestructor;
  exit_request_ : GuestProcessExitRequest
}.

Definition ProcessLifecycleService_init : ProcessLifecycleService :=
  mkLifecycle GuestProcessEnvironment_default [] [] (mkExitRequest false 0).

Implicit Types (l : ProcessLifecycleService).

Definition ResetEnvironment l : ProcessLifecycleService :=
  {| l with environment_ := GuestProcessEnvironment_default |}.

Definition InitializeEnvironment (argc argv_address envp_address : Z) l
    : ProcessLifecycleService * KernelStatus :=
  if (argc <? 0) || (argv_address =? 0) || (envp_address =? 0) then (l, kInvalidArgument)
  else ({| l with environment_ := mkEnvironment true argc argv_address envp_address |}, kOk).

Definition callback_count l : nat := (length (atexit_callbacks_ l) + length (cxa_destructors_ l))%nat.

Definition RegisterAtexit (function : Z) l : ProcessLifecycleService * KernelStatus :=
  if function =? 0 then (l, kOk)
  else if (kMaximumProcessExitCallbacks <=? callback_count l)%nat then (l, kNoResources)
  else ({| l with atexit_callbacks_ := atexit_callbacks_ l ++ [function] |}, kOk).

Definition RegisterCxaDestructor (destructor : GuestCxaDestructor) l
    : ProcessLifecycleService * KernelStatus :=
  if cxa_function destructor =? 0 then (l, kOk)
  else if (kMaximumProcessExitCallbacks <=? callback_count l)%nat then (l, kNoResources)
  else ({| l with cxa_destructors_ := cxa_destructors_ l ++ [destructor] |}, kOk).

Definition PendingAtexitCallbacks l : list Z := rev (atexit_callbacks_ l).

(** The loop runs over the reversed vector and keeps the module's entries. *)
Definition PendingCxaDestructors (module : option Z) l : list GuestCxaDestructor :=
  List.filter (fun d => match module with None => true | Some m => cxa_module d =? m end)
    (rev (cxa_destructors_ l)).

Definition RequestExit (status : Z) l : ProcessLifecycleService :=
  if exit_requested (exit_request_ l) then l
  else {| l with exit_request_ := mkExitRequest true status |}.

(** ** Histories *)

Inductive lifecycle_call :=
| CallReset
| CallEnvironment (argc argv_address envp_address : Z)
| CallAtexit (function : Z)
| CallCxa (destructor : GuestCxaDestructor)
| CallExit (status : Z).

Definition lifecycle_step (c : lifecycle_call) l : ProcessLifecycleService * KernelStatus :=
  match c with
  | CallReset => (ResetEnvironment l, kOk)
  | CallEnvironment argc argv envp => InitializeEnvironment argc argv envp l
  | CallAtexit f => RegisterAtexit f l
  | CallCxa d => RegisterCxaDestructor d l
  | CallExit s => (RequestExit s l, kOk)
  end.

(** A run of the service and the calls that succeeded, in order. *)
Fixpoint lifecycle_run (cs : list lifecycle_call) l : ProcessLifecycleService * list lifecycle_call :=
  match cs with
  | [] => (l, [])
  | c :: rest =>
      let '(l1, status) := lifecycle_step c l in
      let '(l2, done) := lifecycle_run rest l1 in
      (l2, if status_eqb status kOk then c :: done else done)
  end.

Definition accepted_atexit (done : list lifecycle_call) : list Z :=
  omap (fun c => match c with CallAtexit f => if f =? 0 then None else Some f | _ => None end) done.
Definition accepted_cxa (done : list lifecycle_call) : list GuestCxaDestructor :=
  omap (fun c => match c with CallCxa d => if cxa_function d =? 0 then None else Some d | _ => None end) done.
Definition first_exit (done : list lifecycle_call) : option Z :=
  head (omap (fun c => match c with CallExit s => Some s | _ => None end) done).

Definition exit_after (r : GuestProcessExitRequest) (done : list lifecycle_call) : GuestProcessExitRequest :=
  if exit_requested r then r
  else match first_exit done with Some s => mkExitRequest true s | None => r end.

Lemma exit_after_app r d1 d2 : exit_after (exit_after r d1) d2 = exit_after r (d1 ++ d2).
Proof.
  unfold exit_after, first_exit. destruct (exit_requested r) eqn:E; [by rewrite E|].
  rewrite omap_app. by destruct (omap _ d1) as [|s ss]; simpl; rewrite ?E.
Qed.

(** What one call adds: the registrations it accepts. *)
Definition grows l l' (done : list lifecycle_call) : Prop :=
  atexit_callbacks_ l' = atexit_callbacks_ l ++ accepted_atexit done /\
  cxa_destructors_ l' = cxa_destructors_ l ++ accepted_cxa done /\
  exit_request_ l' = exit_after (exit_request_ l) done.

Lemma grows_trans l1 l2 l3 d1 d2 : grows l1 l2 d1 -> grows l2 l3 d2 -> grows l1 l3 (d1 ++ d2).
Proof.
  intros (A1 & A2 & A3) (B1 & B2 & B3). unfold grows, accepted_atexit, accepted_cxa in *.
  rewrite !omap_app, !app_assoc, <- exit_after_app. by rewrite B1, B2, B3, A1, A2, A3.
Qed.

Lemma grows_nothing l l' done :
  atexit_callbacks_ l' = atexit_callbacks_ l -> cxa_destructors_ l' = cxa_destructors_ l ->
  exit_request_ l' = exit_request_ l -> accepted_atexit done = [] -> accepted_cxa done = [] ->
  first_exit done = None -> grows l l' done.
Proof.
  intros E1 E2 E3 A B C. unfold grows, exit_after. rewrite A, B, C, !app_nil_r, E1, E2, E3.
  by destruct (exit_requested _).
Qed.

Lemma lifecycle_step_spec c l :
  let '(l', status) := lifecycle_step c l in
  grows l l' (if status_eqb status kOk then [c] else []) /\
  (callback_count l <= kMaximumProcessExitCallbacks -> callback_count l' <= kMaximumProcessExitCallbacks)%nat.
Proof.
  destruct c as [|argc argv envp|f|d|s]; simpl.
  - split; [by apply grows_nothing|done].
  - unfold InitializeEnvironment. destruct (_ || _); (split; [by apply grows_nothing|done]).
  - unfold RegisterAtexit. destruct (f =? 0) eqn:E.
    { split; [|done]. apply grows_nothing; try done. unfold accepted_atexit. simpl. by rewrite E. }
    destruct (_ <=? _)%nat eqn:Em; [split; [by apply grows_nothing|done]|].
    unfold grows, accepted_atexit, accepted_cxa, exit_after, callback_count in *. simpl.
    rewrite E, app_nil_r, length_app. simpl. apply Nat.leb_gt in Em.
    split_and!; [done|done|by destruct (exit_requested _)|lia].
  - unfold RegisterCxaDestructor. destruct (cxa_function d =? 0) eqn:E.
    { split; [|done]. apply grows_nothing; try done. unfold accepted_cxa. simpl. by rewrite E. }
    destruct (_ <=? _)%nat eqn:Em; [split; [by apply grows_nothing|done]|].
    unfold grows, accepted_atexit, accepted_cxa, exit_after, callback_count in *. simpl.
    rewrite E, app_nil_r, length_app. simpl. apply Nat.leb_gt in Em.
    split_and!; [done|done|by destruct (exit_requested _)|lia].
  - unfold RequestExit, grows, exit_after, accepted_atexit, accepted_cxa. simpl.
    rewrite ?app_nil_r. destruct (exit_requested (exit_request_ l)) eqn:E; simpl; rewrite ?app_nil_r; done.
Qed.

Lemma lifecycle_run_spec cs : forall l,
  let '(l', done) := lifecycle_run cs l in
  grows l l' done /\
  (callback_count l <= kMaximumProcessExitCallbacks -> callback_count l' <= kMaximumProcessExitCallbacks)%nat.
Proof.
  induction cs as [|c cs IH]; intros l; simpl; [split; [by apply grows_nothing|done]|].
  pose proof (lifecycle_step_spec c l) as Hs. destruct (lifecycle_step c l) as [l1 st].
  specialize (IH l1). destruct (lifecycle_run cs l1) as [l2 d].
  destruct Hs as [Hs Hs'], IH as [Hi Hi']. split; [|auto].
  replace (if status_eqb st kOk then c :: d else d) with ((if status_eqb st kOk then [c] else []) ++ d)
    by (by destruct (status_eqb st kOk)).
  by eapply grows_trans.
Qed.

(** Exit processing: whatever calls the guest makes from start-up, the
    pending exit callbacks and destructors are exactly the accepted
    registrations in reverse order of registration (those of one module, when a
    module is given, in the same order); together they never exceed the limit
    and a registration is refused only when the limit is reached; and the exit
    status is that of the first request. *)
Theorem exit_callbacks_lifo cs :
  let '(l, done) := lifecycle_run cs ProcessLifecycleService_init in
  PendingAtexitCallbacks l = rev (accepted_atexit done) /\
  (forall module, PendingCxaDestructors module l =
     List.filter (fun d => match module with None => true | Some m => cxa_module d =? m end)
       (rev (accepted_cxa done))) /\
  (callback_count l <= kMaximumProcessExitCallbacks)%nat /\
  exit_request_ l = match first_exit done with Some s => mkExitRequest true s | None => mkExitRequest false 0 end /\
  (forall c, match c with CallAtexit _ | CallCxa _ => True | _ => False end ->
     (lifecycle_step c l).2 = kOk \/
     (callback_count l = kMaximumProcessExitCallbacks /\ lifecycle_step c l = (l, kNoResources))).
Proof.
  pose proof (lifecycle_run_spec cs ProcessLifecycleService_init) as Hr.
  destruct (lifecycle_run cs _) as [l d]. destruct Hr as [(E1 & E2 & E3) Hc]. simpl in *.
  specialize (Hc (Nat.le_0_l _)). unfold PendingAtexitCallbacks, PendingCxaDestructors. rewrite E1, E2.
  split_and!; [done|done|done|done|].
  intros c Hk. destruct c as [| |f|dd|]; try done; simpl; unfold RegisterAtexit, RegisterCxaDestructor.
  all: destruct (_ =? 0); [by left|]; destruct (_ <=? _)%nat eqn:Em; [right|by left].
  all: apply Nat.leb_le in Em; split; [lia|done].
Qed.

(** The environment is the last one initialised since the last reset; a refused
    one leaves it unchanged. *)
Lemma environment_cases argc argv envp l :
  let '(l', status) := InitializeEnvironment argc argv envp l in
  if (0 <=? argc) && negb (argv =? 0) && negb (envp =? 0)
  then status = kOk /\ environment_ l' = mkEnvironment true argc argv envp
  else status = kInvalidArgument /\ l' = l.
Proof.
  unfold InitializeEnvironment. destruct ((argc <? 0) || (argv =? 0) || (envp =? 0)) eqn:E.
  - replace ((0 <=? argc) && _ && _) with false by lia. done.
  - replace ((0 <=? argc) && _ && _) with true by lia. done.
Qed.
