(* ===== verification/Elf.v ===== *)
(** The data the executable loader passes around ([src/loader/elf.h]): program
    headers, dynamic entries, relocations, symbols, module and library
    identities and the metadata record.  A [std::string] is a [string]. *)
From S2P Require Import Prelude.

Inductive ElfContainerKind := kElf | kSelf.

Record ElfProgramHeader := mkProgramHeader {
  ph_type : Z;
  ph_flags : Z;
  ph_offset : Z;
  ph_file_offset : Z;
  ph_virtual_address : Z;
  ph_physical_address : Z;
  ph_file_size : Z;
  ph_memory_size : Z;
  ph_alignment : Z
}.

(** [tag] is signed. *)
Record ElfDynamicEntry := mkDynamicEntry { dyn_tag : Z; dyn_value : Z }.

(** [addend] is signed. *)
Record ElfRelaEntry := mkRela { rela_offset : Z; rela_info : Z; rela_addend : Z }.
Definition rela_symbol (r : ElfRelaEntry) : Z := Z.shiftr (rela_info r) 32.
Definition rela_type (r : ElfRelaEntry) : Z := Z.land (rela_info r) (Z.ones 32).

Record ElfSymbol := mkElfSymbol {
  sym_name_offset : Z;
  sym_info : Z;
  sym_other : Z;
  sym_section_index : Z;
  sym_value : Z;
  sym_size : Z;
  sym_name : string
}.
Definition sym_binding (s : ElfSymbol) : Z := Z.shiftr (sym_info s) 4.
Definition sym_type (s : ElfSymbol) : Z := Z.land (sym_info s) 0x0f.

Inductive ElfDynamicDataSource := kDataNone | kLoadSegment | kSceDynlibData.

Record ElfModuleIdentity := mkModuleIdentity {
  mi_id : Z;
  mi_version_major : Z;
  mi_version_minor : Z;
  mi_name : string
}.

Record ElfLibraryIdentity := mkLibraryIdentity {
  li_id : Z;
  li_version : Z;
  li_name : string
}.

Record ElfDynamicInfo := mkDynamicInfo {
  di_string_table_source : ElfDynamicDataSource;
  di_string_table_file_offset : option Z;
  di_string_table_size : option Z;
  di_needed_libraries : list string;
  di_shared_object_name : option string;
  di_import_modules : list ElfModuleIdentity;
  di_export_modules : list ElfModuleIdentity;
  di_import_libraries : list ElfLibraryIdentity;
  di_export_libraries : list ElfLibraryIdentity;
  di_relocations : list ElfRelaEntry;
  di_plt_relocations : list ElfRelaEntry;
  di_symbols : list ElfSymbol;
  di_init_function : option Z;
  di_fini_function : option Z;
  di_preinit_array_address : option Z;
  di_preinit_array_size : option Z;
  di_init_array_address : option Z;
  di_init_array_size : option Z;
  di_fini_array_address : option Z;
  di_fini_array_size : option Z
}.

Definition ElfDynamicInfo_default : ElfDynamicInfo :=
  mkDynamicInfo kDataNone None None [] None [] [] [] [] [] [] [] None None None None None None None None.

Record ElfMetadata := mkElfMetadata {
  em_container : ElfContainerKind;
  em_elf_file_offset : Z;
  em_self_segment_count : Z;
  em_os_abi : Z;
  em_abi_version : Z;
  em_type : Z;
  em_machine : Z;
  em_version : Z;
  em_entry_point : Z;
  em_program_headers : list ElfProgramHeader;
  em_dynamic_entries : list ElfDynamicEntry;
  em_dynamic_info : ElfDynamicInfo
}.

Definition ElfMetadata_default : ElfMetadata :=
  mkElfMetadata kElf 0 0 0 0 0 0 0 0 [] [] ElfDynamicInfo_default.
