(* ===== verification/SceSymbol.v ===== *)
(** Scoped import names ([src/loader/sce_symbol.cpp]): a symbol is written
    [nid#library#module], with the identifiers in base 64, and is resolved
    against the import and export tables of the executable.

    The text is shown to be a faithful encoding: [EncodeSceId] and
    [format_reference] below are the reference printer, and parsing accepts
    exactly what it prints. *)
From Stdlib Require Import Ascii.
From S2P Require Import Prelude Elf.

(** ** [std::string_view] *)

(** [find(c)]. *)
Fixpoint str_find (c : Ascii.ascii) (s : string) : option nat :=
  match s with
  | EmptyString => None
  | String x rest => if Ascii.eqb x c then Some O else S <$> str_find c rest
  end.

(** [substr(0, n)] and [substr(n)]. *)
Fixpoint str_take (n : nat) (s : string) : string :=
  match n, s with
  | S n, String x rest => String x (str_take n rest)
  | _, _ => EmptyString
  end.
Fixpoint str_drop (n : nat) (s : string) : string :=
  match n, s with
  | S n, String x rest => str_drop n rest
  | O, _ => s
  | _, EmptyString => EmptyString
  end.

Definition str_empty (s : string) : bool := match s with EmptyString => true | _ => false end.

(** ** The parser *)

Record SceSymbolReference := mkSceReference { sr_nid : string; sr_library_id : Z; sr_module_id : Z }.

Definition sce_alphabet : string := "ABCDEFGHIJKLMNOPQRSTUVWXYZabcdefghijklmnopqrstuvwxyz0123456789+-".

(** [decoded] is 32 bits wide. *)
Fixpoint decode_sce_loop (value : string) (decoded : Z) : option Z :=
  match value with
  | EmptyString => Some decoded
  | String character rest =>
      match str_find character sce_alphabet with
      | None => None
      | Some digit =>
          decode_sce_loop rest (Z.lor (Z.shiftl decoded 6 mod 2 ^ 32) (Z.of_nat digit))
      end
  end.

Definition DecodeSceId (value : string) : option Z :=
  if str_empty value || (3 <? String.length value)%nat then None
  else match decode_sce_loop value 0 with
  | None => None
  | Some decoded =>
      if (decoded >? 0xffff) || ((String.length value =? 2)%nat && (decoded <? 0x40))
         || ((String.length value =? 3)%nat && (decoded <? 0x1000))
      then None else Some decoded
  end.

Definition separator : Ascii.ascii := "#"%char.

Definition ParseSceSymbolReference (symbol : string) : option SceSymbolReference :=
  match str_find separator symbol with
  | None => None
  | Some O => None
  | Some first =>
      let after := str_drop (S first) symbol in
      match str_find separator after with
      | None => None
      | Some second =>
          let last := str_drop (S second) after in
          match str_find separator last with
          | Some _ => None
          | None =>
              match DecodeSceId (str_take second after), DecodeSceId last with
              | Some library_id, Some module_id =>
                  Some (mkSceReference (str_take first symbol) library_id module_id)
              | _, _ => None
              end
          end
      end
  end.

(** ** Resolution against the tables *)

Record ElfImportReference := mkImportReference {
  ir_nid : string;
  ir_library : option ElfLibraryIdentity;
  ir_module : option ElfModuleIdentity;
  ir_valid : bool
}.

(** [FindIdentity]: the imports are searched before the exports. *)
Definition FindIdentity {I : Type} (id_of : I -> Z) (id : Z) (imports exports : list I) : option I :=
  match find (fun candidate => id_of candidate =? id) imports with
  | Some identity => Some identity
  | None => find (fun candidate => id_of candidate =? id) exports
  end.

Definition ResolveElfImportReference (metadata : ElfMetadata) (symbol : string) : ElfImportReference :=
  match str_find separator symbol with
  | None => mkImportReference symbol None None (negb (str_empty symbol))
  | Some first =>
      match ParseSceSymbolReference symbol with
      | None => mkImportReference (str_take first symbol) None None false
      | Some parsed =>
          let info := em_dynamic_info metadata in
          let library := FindIdentity li_id (sr_library_id parsed)
                           (di_import_libraries info) (di_export_libraries info) in
          let module := FindIdentity mi_id (sr_module_id parsed)
                          (di_import_modules info) (di_export_modules info) in
          mkImportReference (sr_nid parsed) library module
            (match library, module with Some _, Some _ => true | _, _ => false end)
      end
  end.

(** ** The reference printer *)

Definition sce_digit (d : Z) : Ascii.ascii :=
  match String.get (Z.to_nat d) sce_alphabet with Some c => c | None => "A"%char end.

(** Base 64, most significant digit first, without leading zeros. *)
Definition EncodeSceId (id : Z) : string :=
  if id <? 0x40 then String (sce_digit id) EmptyString
  else if id <? 0x1000 then String (sce_digit (id / 64)) (String (sce_digit (id mod 64)) EmptyString)
  else String (sce_digit (id / 4096))
         (String (sce_digit (id / 64 mod 64)) (String (sce_digit (id mod 64)) EmptyString)).

Definition format_reference (r : SceSymbolReference) : string :=
  (sr_nid r ++ "#" ++ EncodeSceId (sr_library_id r) ++ "#" ++ EncodeSceId (sr_module_id r))%string.

(** ** Digits *)

Lemma digit_of_char c n : str_find c sce_alphabet = Some n -> (n < 64)%nat /\ sce_digit (Z.of_nat n) = c.
Proof.
  destruct c as [[] [] [] [] [] [] [] []]; vm_compute; intros E; first [discriminate|injection E as <-];
    (split; [lia|reflexivity]).
Qed.

Lemma char_of_digit_nat n : (n < 64)%nat -> str_find (sce_digit (Z.of_nat n)) sce_alphabet = Some n.
Proof. intros Hn. do 64 (destruct n as [|n]; [vm_compute; reflexivity|]). lia. Qed.

Lemma char_of_digit d : 0 <= d < 64 -> str_find (sce_digit d) sce_alphabet = Some (Z.to_nat d).
Proof. intros Hd. rewrite <- (char_of_digit_nat (Z.to_nat d)) by lia. by rewrite Z2Nat.id by lia. Qed.

Lemma lor_digit a d : 0 <= d < 64 -> 0 <= a < 4096 -> Z.lor (Z.shiftl a 6 mod 2 ^ 32) d = 64 * a + d.
Proof.
  intros Hd Ha. rewrite Z.shiftl_mul_pow2 by lia. change (2 ^ 6) with 64.
  rewrite Z.mod_small by lia.
  assert (Hz : Z.land (a * 64) d = 0).
  { apply Z.bits_inj'. intros i Hi. rewrite Z.land_spec, Z.bits_0.
    destruct (Z.lt_ge_cases i 6).
    - replace (a * 64) with (a * 2 ^ 6) by lia. by rewrite Z.mul_pow2_bits_low.
    - rewrite andb_comm. assert (Z.testbit d i = false) as ->; [|done].
      destruct (decide (d = 0)) as [->|]; [apply Z.bits_0|]. apply Z.bits_above_log2; [lia|].
      apply Z.log2_lt_pow2; [lia|]. pose proof (Z.pow_le_mono_r 2 6 i ltac:(lia) ltac:(lia)). lia. }
  rewrite <- Z.lxor_lor by done. rewrite <- Z.add_nocarry_lxor by done. lia.
Qed.

(** Innermost digit first. *)
Ltac lor_digits :=
  repeat match goal with
  | |- context [Z.lor (Z.shiftl ?a 6 mod 2 ^ 32) ?d] =>
      lazymatch a with context [Z.lor] => fail | _ => rewrite (lor_digit a d) by lia end
  end.

(** ** Identifiers *)

Lemma decode_encode id : 0 <= id <= 0xffff -> DecodeSceId (EncodeSceId id) = Some id.
Proof.
  intros Hid. unfold EncodeSceId.
  assert (Hm : 0 <= id mod 64 < 64) by (apply Z.mod_pos_bound; lia).
  assert (Hm2 : 0 <= id / 64 mod 64 < 64) by (apply Z.mod_pos_bound; lia).
  pose proof (Z.div_mod id 64 ltac:(lia)) as Hdm. pose proof (Z.div_mod (id / 64) 64 ltac:(lia)) as Hdm2.
  assert (H64 : id / 64 / 64 = id / 4096) by (rewrite Z.div_div by lia; done).
  destruct (id <? 0x40) eqn:E1; [|destruct (id <? 0x1000) eqn:E2]; unfold DecodeSceId; cbn [decode_sce_loop].
  - rewrite char_of_digit by lia. rewrite Z2Nat.id by lia. rewrite lor_digit by lia.
    replace (64 * 0 + id) with id by lia. simpl. by replace (id >? 65535) with false by lia.
  - rewrite !char_of_digit by lia. rewrite !Z2Nat.id by lia. lor_digits.
    replace (64 * (64 * 0 + id / 64) + id mod 64) with id by lia. simpl.
    by replace ((id >? 65535) || (id <? 64) || false) with false by lia.
  - rewrite !char_of_digit by lia. rewrite !Z2Nat.id by lia. lor_digits.
    replace (64 * (64 * (64 * 0 + id / 4096) + id / 64 mod 64) + id mod 64) with id by lia. simpl.
    by replace ((id >? 65535) || false || (id <? 4096)) with false by lia.
Qed.

Lemma last_digit a d : 0 <= d < 64 -> (64 * a + d) / 64 = a /\ (64 * a + d) mod 64 = d.
Proof. intros Hd. split; symmetry.
  - apply (Z.div_unique _ _ _ d); lia.
  - apply (Z.mod_unique _ _ a); lia.
Qed.

Lemma encode_decode s n : DecodeSceId s = Some n -> 0 <= n <= 0xffff /\ s = EncodeSceId n.
Proof.
  unfold DecodeSceId. destruct s as [|c1 s]; [done|].
  destruct s as [|c2 s]; [|destruct s as [|c3 s]; [|destruct s as [|c4 s]; [|done]]]; cbn [decode_sce_loop].
  - destruct (str_find c1 _) as [d1|] eqn:E1; [|done]. apply digit_of_char in E1 as [H1 <-].
    rewrite lor_digit by lia. replace (64 * 0 + Z.of_nat d1) with (Z.of_nat d1) by lia. simpl.
    destruct (_ || _) eqn:E; [done|]. intros [= <-].
    split; [lia|]. unfold EncodeSceId. by replace (_ <? 64) with true by lia.
  - destruct (str_find c1 _) as [d1|] eqn:E1; [|done]. apply digit_of_char in E1 as [H1 <-].
    destruct (str_find c2 _) as [d2|] eqn:E2; [|done]. apply digit_of_char in E2 as [H2 <-].
    lor_digits. set (id := 64 * Z.of_nat d1 + Z.of_nat d2).
    replace (64 * (64 * 0 + Z.of_nat d1) + Z.of_nat d2) with id by lia. simpl.
    destruct (_ || _) eqn:E; [done|]. intros [= <-]. split; [lia|]. unfold EncodeSceId.
    replace (id <? 64) with false by lia. replace (id <? 4096) with true by lia.
    subst id. destruct (last_digit (Z.of_nat d1) (Z.of_nat d2)) as [-> ->]; [lia|done].
  - destruct (str_find c1 _) as [d1|] eqn:E1; [|done]. apply digit_of_char in E1 as [H1 <-].
    destruct (str_find c2 _) as [d2|] eqn:E2; [|done]. apply digit_of_char in E2 as [H2 <-].
    destruct (str_find c3 _) as [d3|] eqn:E3; [|done]. apply digit_of_char in E3 as [H3 <-].
    lor_digits. set (id := 64 * (64 * Z.of_nat d1 + Z.of_nat d2) + Z.of_nat d3).
    replace (64 * (64 * (64 * 0 + Z.of_nat d1) + Z.of_nat d2) + Z.of_nat d3) with id by lia. simpl.
    destruct (_ || _) eqn:E; [done|]. intros [= <-]. split; [lia|]. unfold EncodeSceId.
    replace (id <? 64) with false by lia. replace (id <? 4096) with false by lia.
    replace (id / 4096) with (id / 64 / 64) by (by rewrite Z.div_div by lia).
    subst id. destruct (last_digit (64 * Z.of_nat d1 + Z.of_nat d2) (Z.of_nat d3)) as [-> ->]; [lia|].
    destruct (last_digit (Z.of_nat d1) (Z.of_nat d2)) as [-> ->]; [lia|done].
Qed.

(** ** References *)

Lemma find_none_app c a b : str_find c a = None -> str_find c (a ++ String c b)%string = Some (String.length a).
Proof.
  induction a as [|x a IH]; simpl; [by rewrite Ascii.eqb_refl|].
  destruct (Ascii.eqb x c); [done|]. destruct (str_find c a); [done|]. intros _. by rewrite IH.
Qed.

Lemma str_find_split c s n :
  str_find c s = Some n ->
  str_find c (str_take n s) = None /\ String.length (str_take n s) = n /\
  s = (str_take n s ++ String c (str_drop (S n) s))%string.
Proof.
  revert n. induction s as [|x s IH]; intros n; simpl; [done|].
  destruct (Ascii.eqb x c) eqn:E.
  - apply Ascii.eqb_eq in E as ->. intros [= <-]. done.
  - destruct (str_find c s) as [m|]; [|done]. intros [= <-]. destruct (IH m eq_refl) as (H1 & H2 & H3).
    simpl. rewrite E, H1, H2. split_and!; [done|done|].
    exact (f_equal (String x) H3).
Qed.

Lemma str_take_app a b : str_take (String.length a) (a ++ b)%string = a.
Proof. induction a as [|x a IH]; [by destruct b|]. simpl. by rewrite IH. Qed.
Lemma str_drop_app a c b : str_drop (S (String.length a)) (a ++ String c b)%string = b.
Proof. induction a as [|x a IH]; [done|exact IH]. Qed.

Lemma sce_digit_no_separator d : Ascii.eqb (sce_digit d) separator = false.
Proof.
  unfold sce_digit. destruct (Nat.lt_ge_cases (Z.to_nat d) 64) as [Hn|Hn].
  - revert Hn. generalize (Z.to_nat d). intros n Hn. do 64 (destruct n as [|n]; [reflexivity|]). lia.
  - assert (E : forall s n, (String.length s <= n)%nat -> String.get n s = None).
    { clear. induction s as [|x s IH]; intros [|n] Hn; simpl in *; try done; try lia. apply IH. lia. }
    by rewrite E by (simpl; lia).
Qed.

Lemma encode_no_separator n : str_find separator (EncodeSceId n) = None.
Proof.
  unfold EncodeSceId. destruct (n <? 0x40); [|destruct (n <? 0x1000)]; cbn [str_find];
    by rewrite !sce_digit_no_separator.
Qed.

Definition reference_ok (r : SceSymbolReference) : Prop :=
  sr_nid r <> EmptyString /\ str_find separator (sr_nid r) = None /\
  0 <= sr_library_id r <= 0xffff /\ 0 <= sr_module_id r <= 0xffff.

Lemma parse_format r : reference_ok r -> ParseSceSymbolReference (format_reference r) = Some r.
Proof.
  destruct r as [nid l m]. intros (Hne & Hns & Hl & Hm). simpl in *.
  unfold ParseSceSymbolReference, format_reference. cbn [sr_nid sr_library_id sr_module_id].
  change ("#" ++ ?x)%string with (String separator x).
  rewrite find_none_app by done. destruct (String.length nid) as [|n] eqn:En; [by destruct nid|].
  rewrite <- En, str_drop_app, str_take_app. cbv zeta.
  change ("#" ++ ?x)%string with (String separator x).
  rewrite find_none_app by apply encode_no_separator.
  rewrite str_take_app, str_drop_app, encode_no_separator, !decode_encode by done. done.
Qed.

(** Scoped import names are read exactly as they are written: a symbol is
    accepted as the reference [r] if and only if it is the text of [r], that is
    a non-empty name without separators followed by the base-64 identifiers,
    without leading zeros and of at most 16 bits, of library and module; in
    particular no two texts name the same import. *)
Theorem sce_reference_roundtrip symbol r :
  ParseSceSymbolReference symbol = Some r <-> reference_ok r /\ symbol = format_reference r.
Proof.
  split; [|by intros [Hr ->]; apply parse_format].
  unfold ParseSceSymbolReference. destruct (str_find separator symbol) as [first|] eqn:E1; [|done].
  apply str_find_split in E1 as (Hn & Hlen & Hs).
  destruct first as [|first]; [done|]. cbv zeta. set (after := str_drop (S (S first)) symbol) in *.
  destruct (str_find separator after) as [second|] eqn:E2; [|done].
  apply str_find_split in E2 as (Hn2 & Hlen2 & Hs2). set (last := str_drop (S second) after) in *.
  destruct (str_find separator last) eqn:E3; [done|].
  destruct (DecodeSceId (str_take second after)) as [l|] eqn:El; [|done].
  destruct (DecodeSceId last) as [m|] eqn:Em; [|done]. intros [= <-].
  apply encode_decode in El as [Hl El]. apply encode_decode in Em as [Hm Em].
  split.
  - split_and!; cbn [sr_nid sr_library_id sr_module_id]; [|done|lia..]. intros Hemp.
    assert (String.length (str_take (S first) symbol) = O) by exact (f_equal String.length Hemp).
    congruence.
  - unfold format_reference. cbn [sr_nid sr_library_id sr_module_id]. rewrite <- El, <- Em.
    rewrite Hs at 1. f_equal. change ("#" ++ ?x)%string with (String separator x). f_equal. exact Hs2.
Qed.

(** A resolved import is valid exactly when it is an unscoped name, or a scoped
    one both identities of which the executable lists. *)
Lemma FindIdentity_some {I} (id_of : I -> Z) id imports exports i :
  FindIdentity id_of id imports exports = Some i ->
  id_of i = id /\ (i ∈ imports \/ (i ∈ exports /\ forall j, j ∈ imports -> id_of j <> id)).
Proof.
  unfold FindIdentity. destruct (find _ imports) as [j|] eqn:E.
  - intros [= ->]. apply find_some in E as [Hin E]. split; [lia|left]. by apply list_elem_of_In.
  - intros Hf. apply find_some in Hf as [Hin Hf]. split; [lia|right]. split; [by apply list_elem_of_In|].
    intros j Hj. apply list_elem_of_In in Hj. pose proof (find_none _ _ E j Hj). simpl in *. lia.
Qed.

Theorem import_reference_valid metadata symbol :
  ir_valid (ResolveElfImportReference metadata symbol) = true ->
  match str_find separator symbol with
  | None => symbol <> EmptyString /\ ir_nid (ResolveElfImportReference metadata symbol) = symbol
  | Some _ =>
      exists r l m, ParseSceSymbolReference symbol = Some r /\
        ResolveElfImportReference metadata symbol = mkImportReference (sr_nid r) (Some l) (Some m) true /\
        li_id l = sr_library_id r /\ mi_id m = sr_module_id r
  end.
Proof.
  unfold ResolveElfImportReference. destruct (str_find separator symbol) eqn:E1.
  - destruct (ParseSceSymbolReference symbol) as [r|]; [|done]. cbv zeta.
    destruct (FindIdentity li_id _ _ _) as [l|] eqn:El; [|done].
    destruct (FindIdentity mi_id _ _ _) as [m|] eqn:Em; [|done]. intros _. exists r, l, m.
    apply FindIdentity_some in El as [? _]. apply FindIdentity_some in Em as [? _]. done.
  - simpl. by destruct symbol.
Qed.
