(* ===== verification/ModulePlan.v ===== *)
(** The order in which loaded modules are started
    ([src/loader/module_plan.cpp]): modules are identified by normalised file
    and shared-object names, each waits for the modules it needs, and modules
    that wait for each other are started last in input order. *)
From S2P Require Import Prelude Elf.
From Stdlib Require Import Ascii.

Definition kMaximumPlannedModules : nat := Z.to_nat 4096.
Definition kMaximumPlannedDependencies : nat := Z.to_nat 65536.
#[global] Opaque kMaximumPlannedModules kMaximumPlannedDependencies.

Inductive ModulePlanStatus :=
| kPlanOk | kInvalidModuleName | kDuplicateModuleIdentity | kPlanLimitExceeded.

Record ModuleDependencyInput := mkModuleInput {
  md_file_name : string;
  md_shared_object_name : option string;
  md_needed_libraries : list string;
  md_has_initializer : bool
}.

Record MissingModuleDependency := mkMissing { mm_requester_index : nat; mm_name : string }.

Record ModuleStartPlanResult := mkStartPlan {
  sp_status : ModulePlanStatus;
  sp_start_order : list nat;
  sp_missing_dependencies : list MissingModuleDependency;
  sp_fallback_start_count : nat
}.

Definition failed_plan (status : ModulePlanStatus) : ModuleStartPlanResult := mkStartPlan status [] [] 0.

(** ** Names *)

Definition is_path_separator (c : ascii) : bool := Ascii.eqb c "/" || Ascii.eqb c "\".

(** [substr] behind [find_last_of]; the whole text when there is no separator. *)
Fixpoint after_last_separator (value : string) (rest : string) : string :=
  match rest with
  | EmptyString => value
  | String c rest' => after_last_separator (if is_path_separator c then rest' else value) rest'
  end.
Definition BaseName (value : string) : string := after_last_separator value value.

Definition lower_ascii (c : ascii) : ascii :=
  let byte := nat_of_ascii c in
  if (65 <=? byte)%nat && (byte <=? 90)%nat then ascii_of_nat (byte + 32) else c.
Fixpoint lower (s : string) : string :=
  match s with EmptyString => EmptyString | String c rest => String (lower_ascii c) (lower rest) end.
Definition NormalizeName (value : string) : string := lower (BaseName value).

Definition no_name (s : string) : bool := match s with EmptyString => true | _ => false end.

(** [emplace] keeps an existing entry; an identity may be repeated by its own
    module only. *)
Definition AddIdentity (identities : gmap string nat) (name : string) (index : nat)
    : gmap string nat * bool :=
  let normalized := NormalizeName name in
  if no_name normalized then (identities, false)
  else match identities !! normalized with
  | Some found => (identities, (found =? index)%nat)
  | None => (<[normalized := index]> identities, true)
  end.

(** ** Collecting identities *)

Definition add_module (index : nat) (m : ModuleDependencyInput) (identities : gmap string nat)
    : gmap string nat * bool :=
  let '(ids1, ok1) := AddIdentity identities (md_file_name m) index in
  if negb ok1 then (ids1, false)
  else match md_shared_object_name m with
  | Some name => if no_name name then (ids1, true) else AddIdentity ids1 name index
  | None => (ids1, true)
  end.

Fixpoint collect_identities (index : nat) (modules : list ModuleDependencyInput)
    (dependency_count : nat) (identities : gmap string nat) : ModulePlanStatus * gmap string nat :=
  match modules with
  | [] => (kPlanOk, identities)
  | m :: rest =>
      if no_name (NormalizeName (md_file_name m)) then (kInvalidModuleName, identities)
      else
        let '(ids1, ok) := add_module index m identities in
        if negb ok then (kDuplicateModuleIdentity, ids1)
        else if (kMaximumPlannedDependencies - dependency_count
                   <? length (md_needed_libraries m))%nat
        then (kPlanLimitExceeded, ids1)
        else collect_identities (S index) rest
               (dependency_count + length (md_needed_libraries m)) ids1
  end.

(** ** Dependencies *)

Definition starts (modules : list ModuleDependencyInput) (index : nat) : bool :=
  match modules !! index with Some m => md_has_initializer m | None => false end.

(** The loop over [needed_libraries] of one module: its dependencies and the
    names nobody provides, each reported once. *)
Fixpoint module_dependencies (modules : list ModuleDependencyInput) (identities : gmap string nat)
    (index : nat) (needed : list string) (missing_names : gset string) (dependencies : gset nat)
    (missing : list MissingModuleDependency) : gset nat * list MissingModuleDependency :=
  match needed with
  | [] => (dependencies, missing)
  | name :: rest =>
      let normalized := NormalizeName name in
      if no_name normalized then
        module_dependencies modules identities index rest missing_names dependencies missing
      else match identities !! normalized with
      | None =>
          if bool_decide (normalized ∈ missing_names) then
            module_dependencies modules identities index rest missing_names dependencies missing
          else
            module_dependencies modules identities index rest ({[normalized]} ∪ missing_names)
              dependencies (missing ++ [mkMissing index name])
      | Some found =>
          module_dependencies modules identities index rest missing_names
            (if negb (found =? index)%nat && starts modules found
             then {[found]} ∪ dependencies else dependencies) missing
      end
  end.

Fixpoint all_dependencies (modules : list ModuleDependencyInput) (identities : gmap string nat)
    (index : nat) (remaining : list ModuleDependencyInput)
    : list (gset nat) * list MissingModuleDependency :=
  match remaining with
  | [] => ([], [])
  | m :: rest =>
      let '(deps, missing) :=
        module_dependencies modules identities index (md_needed_libraries m) ∅ ∅ [] in
      let '(deps', missing') := all_dependencies modules identities (S index) rest in
      (deps :: deps', missing ++ missing')
  end.

(** ** Start order *)

Record plan_state := mkPlanState {
  pl_started : gset nat;
  pl_order : list nat;
  pl_remaining : nat
}.

Definition ready (dependencies : list (gset nat)) (started : gset nat) (index : nat) : bool :=
  match dependencies !! index with Some deps => bool_decide (deps ⊆ started) | None => true end.

(** One pass of the [for] loop; the flag is [progressed]. *)
Fixpoint plan_pass (modules : list ModuleDependencyInput) (dependencies : list (gset nat))
    (indices : list nat) (s : plan_state) (progressed : bool) : plan_state * bool :=
  match indices with
  | [] => (s, progressed)
  | index :: rest =>
      if negb (starts modules index) || bool_decide (index ∈ pl_started s)
         || negb (ready dependencies (pl_started s) index)
      then plan_pass modules dependencies rest s progressed
      else
        plan_pass modules dependencies rest
          (mkPlanState ({[index]} ∪ pl_started s) (pl_order s ++ [index]) (pred (pl_remaining s))) true
  end.

(** [while (remaining != 0)]. *)
Fixpoint plan_loop (fuel : nat) (modules : list ModuleDependencyInput)
    (dependencies : list (gset nat)) (s : plan_state) : option plan_state :=
  match fuel with
  | O => None
  | S fuel =>
      if (pl_remaining s =? 0)%nat then Some s
      else
        let '(s', progressed) :=
          plan_pass modules dependencies (seq 0 (length modules)) s false in
        if negb progressed then Some s' else plan_loop fuel modules dependencies s'
  end.

Definition stuck (modules : list ModuleDependencyInput) (started : gset nat) : list nat :=
  List.filter (fun index => starts modules index && negb (bool_decide (index ∈ started)))
    (seq 0 (length modules)).

Definition initial_plan (modules : list ModuleDependencyInput) : plan_state :=
  mkPlanState ∅ [] (length (List.filter md_has_initializer modules)).

(** The fuel covers one pass per module and the last one; [None] is shown never
    to happen. *)
Definition BuildModuleStartPlan (modules : list ModuleDependencyInput) : option ModuleStartPlanResult :=
  if (kMaximumPlannedModules <? length modules)%nat then Some (failed_plan kPlanLimitExceeded)
  else
    let '(status, identities) := collect_identities 0 modules 0 ∅ in
    match status with
    | kPlanOk =>
        let '(dependencies, missing) := all_dependencies modules identities 0 modules in
        match plan_loop (S (length modules)) modules dependencies (initial_plan modules) with
        | None => None
        | Some s =>
            let fallback := stuck modules (pl_started s) in
            Some (mkStartPlan kPlanOk (pl_order s ++ fallback) missing (length fallback))
        end
    | _ => Some (failed_plan status)
    end.

(** ** The input of a module *)

Definition has_array (address size : option Z) : bool :=
  negb (default 0 address =? 0) && negb (default 0 size =? 0).

Definition MakeModuleDependencyInput (file_name : string) (metadata : ElfMetadata) : ModuleDependencyInput :=
  let info := em_dynamic_info metadata in
  mkModuleInput file_name (di_shared_object_name info) (di_needed_libraries info)
    (negb (default 0 (di_init_function info) =? 0)
     || has_array (di_preinit_array_address info) (di_preinit_array_size info)
     || has_array (di_init_array_address info) (di_init_array_size info)).

(** Properties of the module start plan ([src/loader/module_plan.cpp]): the
    loop ends, every module with an initialiser is started exactly once, after
    the modules it needs unless it is part of a cycle. *)

Implicit Types (modules : list ModuleDependencyInput) (s : plan_state) (deps : list (gset nat)).

(** ** The loop *)

Definition deps_of deps (i : nat) : gset nat := default ∅ (deps !! i).

Lemma ready_spec deps started i : ready deps started i = true <-> deps_of deps i ⊆ started.
Proof.
  unfold ready, deps_of. destruct (deps !! i); simpl; [by rewrite bool_decide_eq_true|].
  split; [intros _; set_solver|done].
Qed.

(** Every module comes after its dependencies. *)
Definition ordered deps (order : list nat) : Prop :=
  forall l1 i l2, order = l1 ++ i :: l2 -> deps_of deps i ⊆ list_to_set l1.

Lemma ordered_snoc deps order i :
  ordered deps order -> deps_of deps i ⊆ list_to_set order -> ordered deps (order ++ [i]).
Proof.
  intros Ho Hi l1 j l2 E. destruct l2 as [|x l2' _] using rev_ind.
  - apply app_inj_tail in E as [-> ->]. done.
  - rewrite app_comm_cons, app_assoc in E. apply app_inj_tail in E as [-> _]. by eapply Ho.
Qed.

Section plan.
Context (modules : list ModuleDependencyInput) (deps : list (gset nat)).

Definition startable : list nat := List.filter (starts modules) (seq 0 (length modules)).

Lemma elem_of_startable i : i ∈ startable <-> starts modules i = true.
Proof.
  unfold startable. rewrite list_elem_of_In, filter_In, in_seq. split; [by intros [_ ?]|].
  intros Hs. split; [|done]. unfold starts in Hs. destruct (modules !! i) eqn:E; [|done].
  apply lookup_lt_Some in E. lia.
Qed.

Lemma startable_nodup : NoDup startable.
Proof. unfold startable. apply NoDup_ListNoDup, List.NoDup_filter, seq_NoDup. Qed.

Record plan_inv s : Prop := {
  pi_nodup : NoDup (pl_order s);
  pi_started : pl_started s = list_to_set (pl_order s);
  pi_starts : Forall (fun i => starts modules i = true) (pl_order s);
  pi_count : (pl_remaining s + length (pl_order s) = length startable)%nat;
  pi_ordered : ordered deps (pl_order s)
}.

Lemma order_subset s : plan_inv s -> pl_order s ⊆+ startable.
Proof.
  intros [Hn _ Hs _ _]. apply NoDup_submseteq; [done|]. intros i Hi.
  rewrite Forall_forall in Hs. by apply elem_of_startable, Hs.
Qed.

(** Starting one more module that is ready. *)
Lemma plan_inv_push s i :
  plan_inv s -> starts modules i = true -> i ∉ pl_started s -> deps_of deps i ⊆ pl_started s ->
  plan_inv (mkPlanState ({[i]} ∪ pl_started s) (pl_order s ++ [i]) (pred (pl_remaining s))) /\
  (1 <= pl_remaining s)%nat.
Proof.
  intros Hinv Hs Hni Hd. assert (Hpos : (1 <= pl_remaining s)%nat).
  { assert (Hsub : pl_order s ++ [i] ⊆+ startable).
    { apply NoDup_submseteq.
      - apply NoDup_app. split_and!; [apply Hinv| |apply NoDup_singleton].
        intros x Hx ->%list_elem_of_singleton. rewrite (pi_started _ Hinv) in Hni. set_solver.
      - intros x [Hx| ->%list_elem_of_singleton]%elem_of_app; apply elem_of_startable; [|done].
        pose proof (pi_starts _ Hinv) as Hf. rewrite Forall_forall in Hf. by apply Hf. }
    apply submseteq_length in Hsub. rewrite length_app in Hsub. simpl in Hsub.
    pose proof (pi_count _ Hinv). lia. }
  split; [|done]. destruct Hinv as [Hn Hst Hf Hc Ho]. split; simpl.
  - apply NoDup_app. split_and!; [done| |apply NoDup_singleton].
    intros x Hx ->%list_elem_of_singleton. rewrite Hst in Hni. set_solver.
  - rewrite list_to_set_app_L, Hst. set_solver.
  - apply Forall_app. by split; [|constructor].
  - rewrite length_app. simpl. lia.
  - apply ordered_snoc; [done|]. by rewrite <- Hst.
Qed.

(** What a pass does: it keeps the invariant; if it started something the count
    of remaining modules went down, and otherwise it changed nothing and no
    module it looked at was ready. *)
Lemma plan_pass_spec indices : forall s progressed,
  plan_inv s ->
  let '(s', progressed') := plan_pass modules deps indices s progressed in
  plan_inv s' /\ (pl_remaining s' <= pl_remaining s)%nat /\
  (if progressed' then progressed = true \/ (pl_remaining s' < pl_remaining s)%nat
   else progressed = false /\ s' = s /\
     forall i, i ∈ indices -> starts modules i = true -> i ∉ pl_started s -> ready deps (pl_started s) i = false).
Proof.
  induction indices as [|i rest IH]; intros s progressed Hinv; simpl.
  { split_and!; [done|lia|]. destruct progressed; [by left|]. split_and!; [done|done|].
    by intros i ?%elem_of_nil. }
  destruct (negb (starts modules i) || bool_decide (i ∈ pl_started s)
            || negb (ready deps (pl_started s) i)) eqn:E.
  - specialize (IH s progressed Hinv). destruct (plan_pass modules deps rest s progressed) as [s' b].
    destruct IH as (H1 & H2 & H3). split_and!; [done|done|]. destruct b; [done|].
    destruct H3 as (-> & -> & H3). split_and!; [done|done|].
    intros j [->|Hj]%elem_of_cons Hs Hni; [|by apply H3].
    rewrite Hs, bool_decide_eq_false_2 in E by done. simpl in E. by destruct (ready _ _ _).
  - apply orb_false_iff in E as [[E1 E2%bool_decide_eq_false]%orb_false_iff E3].
    apply negb_false_iff in E1, E3. apply ready_spec in E3.
    destruct (plan_inv_push s i Hinv E1 E2 E3) as [Hinv' Hpos].
    specialize (IH _ true Hinv'). destruct (plan_pass modules deps rest _ true) as [s' b].
    destruct IH as (H1 & H2 & H3). simpl in H2. split_and!; [done|lia|].
    destruct b; [right; lia|by destruct H3].
Qed.

(** Nothing more can be started. *)
Definition settled s : Prop :=
  forall i, starts modules i = true -> i ∉ pl_started s -> ready deps (pl_started s) i = false.

Lemma remaining_zero_settled s : plan_inv s -> pl_remaining s = O -> settled s.
Proof.
  intros Hinv H0 i Hs Hni. exfalso. apply Hni. rewrite (pi_started _ Hinv).
  apply elem_of_list_to_set. pose proof (order_subset s Hinv) as Hsub.
  assert (Hp : pl_order s ≡ₚ startable).
  { apply submseteq_length_Permutation; [done|]. pose proof (pi_count _ Hinv). lia. }
  rewrite Hp. by apply elem_of_startable.
Qed.

(** Enough fuel: one pass per remaining module and the one that starts none. *)
Lemma plan_loop_spec fuel : forall s,
  plan_inv s -> (pl_remaining s < fuel)%nat ->
  exists s', plan_loop fuel modules deps s = Some s' /\ plan_inv s' /\ settled s'.
Proof.
  induction fuel as [|fuel IH]; intros s Hinv Hf; [lia|]. simpl.
  destruct (pl_remaining s =? 0)%nat eqn:E0.
  { exists s. split_and!; [done|done|]. apply remaining_zero_settled; [done|by apply Nat.eqb_eq]. }
  pose proof (plan_pass_spec (seq 0 (length modules)) s false Hinv) as Hp.
  destruct (plan_pass modules deps (seq 0 (length modules)) s false) as [s' b].
  destruct Hp as (Hinv' & Hle & Hb). destruct b; simpl.
  - apply IH; [done|]. destruct Hb; [done|lia].
  - destruct Hb as (_ & -> & Hr). exists s. split_and!; [done|done|].
    intros i Hs Hni. apply Hr; [|done|done]. apply elem_of_seq.
    unfold starts in Hs. destruct (modules !! i) eqn:E; [|done]. apply lookup_lt_Some in E. lia.
Qed.

Lemma startable_length : length startable = length (List.filter md_has_initializer modules).
Proof.
  unfold startable. assert (H : forall ms k, (forall j, starts modules (k + j) =
      match ms !! j with Some m => md_has_initializer m | None => false end) ->
    length (List.filter (starts modules) (seq k (length ms))) = length (List.filter md_has_initializer ms)).
  { induction ms as [|m ms IH]; intros k Hk; [done|]. simpl.
    pose proof (Hk 0%nat) as H0. rewrite Nat.add_0_r in H0. simpl in H0. rewrite H0.
    assert (Hk' : forall j, starts modules (S k + j) =
      match ms !! j with Some m => md_has_initializer m | None => false end).
    { intros j. specialize (Hk (S j)). rewrite Nat.add_succ_r in Hk. exact Hk. }
    destruct (md_has_initializer m); simpl; by rewrite (IH (S k) Hk'). }
  apply H. done.
Qed.

Lemma initial_plan_inv : plan_inv (initial_plan modules).
Proof.
  split; simpl; [constructor|done|constructor|by rewrite startable_length|].
  intros l1 i l2 E. by destruct l1.
Qed.

Lemma elem_of_stuck s i :
  i ∈ stuck modules (pl_started s) <-> starts modules i = true /\ i ∉ pl_started s.
Proof.
  unfold stuck. rewrite list_elem_of_In, filter_In, andb_true_iff, negb_true_iff, bool_decide_eq_false.
  split; [by intros [_ ?]|]. intros [Hs Hn]. split; [|done]. rewrite <- list_elem_of_In.
  apply elem_of_startable in Hs. unfold startable in Hs. rewrite list_elem_of_In, filter_In in Hs.
  apply list_elem_of_In, Hs.
Qed.

(** The started modules and the stuck ones are all of them, each once. *)
Lemma plan_permutation s :
  plan_inv s -> pl_order s ++ stuck modules (pl_started s) ≡ₚ startable.
Proof.
  intros Hinv. apply NoDup_Permutation.
  - apply NoDup_app. split_and!; [apply Hinv| |].
    + intros i Hi Hst. apply elem_of_stuck in Hst as [_ Hn]. rewrite (pi_started _ Hinv) in Hn.
      apply Hn. by apply elem_of_list_to_set.
    + unfold stuck. apply NoDup_ListNoDup, List.NoDup_filter, seq_NoDup.
  - apply startable_nodup.
  - intros i. rewrite elem_of_app, elem_of_stuck, elem_of_startable. split.
    + intros [Hi|[? _]]; [|done]. pose proof (pi_starts _ Hinv) as Hf. rewrite Forall_forall in Hf.
      by apply Hf.
    + intros Hs. destruct (decide (i ∈ pl_order s)); [by left|right]. split; [done|].
      rewrite (pi_started _ Hinv). by rewrite elem_of_list_to_set.
Qed.

Lemma stuck_needs_stuck s i :
  plan_inv s -> settled s -> (forall i j, j ∈ deps_of deps i -> starts modules j = true) ->
  i ∈ stuck modules (pl_started s) -> exists j, j ∈ deps_of deps i /\ j ∈ stuck modules (pl_started s).
Proof.
  intros Hinv Hset Hdep [Hs Hn]%elem_of_stuck. specialize (Hset i Hs Hn).
  assert (Hnsub : ~ deps_of deps i ⊆ pl_started s) by (rewrite <- ready_spec; congruence).
  destruct (decide (set_Exists (fun j => j ∉ pl_started s) (deps_of deps i))) as [(j & Hj & Hjn)|Hne].
  - exists j. split; [done|]. apply elem_of_stuck. split; [by eapply Hdep|done].
  - exfalso. apply Hnsub. intros j Hj. destruct (decide (j ∈ pl_started s)); [done|].
    exfalso. apply Hne. by exists j.
Qed.

(** With dependencies that can be ranked nothing is stuck. *)
Lemma ranked_not_stuck s (rank : nat -> nat) :
  plan_inv s -> settled s -> (forall i j, j ∈ deps_of deps i -> starts modules j = true) ->
  (forall i j, starts modules i = true -> j ∈ deps_of deps i -> (rank j < rank i)%nat) ->
  stuck modules (pl_started s) = [].
Proof.
  intros Hinv Hset Hdep Hrank.
  assert (Hno : forall n i, rank i = n -> i ∉ stuck modules (pl_started s)).
  { induction n as [n IH] using lt_wf_ind. intros i Hi Hst.
    destruct (stuck_needs_stuck s i Hinv Hset Hdep Hst) as (j & Hj & Hjs).
    eapply (IH (rank j)); [|done|exact Hjs]. rewrite <- Hi. apply Hrank; [|done].
    by apply elem_of_stuck in Hst as [? _]. }
  destruct (stuck modules (pl_started s)) as [|i l] eqn:E; [done|]. exfalso.
  eapply (Hno (rank i) i); [done|]. rewrite ?E. apply list_elem_of_here.
Qed.
End plan.

(** ** Identities *)

(** The names a module answers to. *)
Definition provided_names (m : ModuleDependencyInput) : list string :=
  NormalizeName (md_file_name m) ::
  match md_shared_object_name m with
  | Some name => if no_name name then [] else [NormalizeName name]
  | None => []
  end.

Definition provides modules (j : nat) (n : string) : Prop :=
  exists m, modules !! j = Some m /\ n ∈ provided_names m.

Lemma no_name_false (t : string) : no_name t = false <-> t <> EmptyString.
Proof. by destruct t. Qed.

(** The names can be recorded for module [i]. *)
Definition free_for (ids : gmap string nat) (i : nat) (n : string) : Prop :=
  n <> EmptyString /\ (ids !! n = None \/ ids !! n = Some i).

Lemma AddIdentity_spec ids name i :
  let '(ids', ok) := AddIdentity ids name i in
  (ok = true <-> free_for ids i (NormalizeName name)) /\
  (ok = true -> forall n, ids' !! n = if decide (n = NormalizeName name) then Some i else ids !! n).
Proof.
  unfold AddIdentity, free_for. set (N := NormalizeName name). destruct (no_name N) eqn:E0.
  { split; [|done]. destruct N; [|done]. split; [done|]. by intros [? _]. }
  apply no_name_false in E0. destruct (ids !! N) as [found|] eqn:Ef.
  - rewrite Nat.eqb_eq. split; [split; [intros ->; auto|by intros [_ [?|[= ->]]]]|].
    intros -> n. case_decide; [by subst|done].
  - split; [split; [auto|done]|]. intros _ n. rewrite lookup_insert. case_decide as Hd.
    + subst. by rewrite decide_True.
    + by rewrite decide_False by congruence.
Qed.

Lemma add_module_spec i m ids :
  let '(ids', ok) := add_module i m ids in
  (ok = true <-> Forall (free_for ids i) (provided_names m)) /\
  (ok = true -> forall n, ids' !! n = if decide (n ∈ provided_names m) then Some i else ids !! n).
Proof.
  unfold add_module, provided_names. pose proof (AddIdentity_spec ids (md_file_name m) i) as H1.
  destruct (AddIdentity ids (md_file_name m) i) as [ids1 [|]]; destruct H1 as [Hf1 H1]; simpl.
  2:{ split; [|done]. split; [done|]. intros Hf. apply Forall_cons in Hf as [Hf _]. by apply Hf1 in Hf. }
  specialize (H1 eq_refl). assert (Hfr : free_for ids i (NormalizeName (md_file_name m))) by (by apply Hf1).
  assert (Hone : (true = true <-> Forall (free_for ids i) [NormalizeName (md_file_name m)]) /\
    (true = true -> forall n, ids1 !! n =
       if decide (n ∈ [NormalizeName (md_file_name m)]) then Some i else ids !! n)).
  { split; [split; [by intros _; apply Forall_singleton|done]|]. intros _ n. rewrite H1.
    destruct (decide (n = _)) as [->|Hne]; [by rewrite decide_True by constructor|].
    by rewrite decide_False by (by intros ->%list_elem_of_singleton). }
  destruct (md_shared_object_name m) as [name|]; [|exact Hone].
  destruct (no_name name); [exact Hone|]. clear Hone.
  pose proof (AddIdentity_spec ids1 name i) as H2.
  destruct (AddIdentity ids1 name i) as [ids2 b]. destruct H2 as [Hf2 H2].
  assert (Hiff : free_for ids1 i (NormalizeName name) <-> free_for ids i (NormalizeName name)).
  { unfold free_for. rewrite H1. case_decide as Hd; [|done]. rewrite Hd. unfold free_for in Hfr. naive_solver. }
  split.
  - rewrite Hf2, Hiff. rewrite Forall_cons, Forall_singleton. tauto.
  - intros Hb n. rewrite (H2 Hb), H1. destruct (decide (n = NormalizeName name)) as [->|Hn2].
    { rewrite decide_True; [done|]. right. by constructor. }
    destruct (decide (n = NormalizeName (md_file_name m))) as [->|Hn1]; [by rewrite decide_True by constructor|].
    rewrite decide_False; [done|]. by intros [->| ->%list_elem_of_singleton]%elem_of_cons.
Qed.

Definition id_spec modules (k : nat) (ids : gmap string nat) : Prop :=
  forall n j, ids !! n = Some j <-> (j < k)%nat /\ provides modules j n.

(** Names are non-empty and no two modules share one. *)
Definition distinct_names modules : Prop :=
  (forall j n, provides modules j n -> n <> EmptyString) /\
  (forall i j n, provides modules i n -> provides modules j n -> i = j).

Definition dependency_total modules : nat := sum_list ((fun m => length (md_needed_libraries m)) <$> modules).

Lemma id_spec_step modules k m ids ids' :
  id_spec modules k ids -> modules !! k = Some m -> Forall (free_for ids k) (provided_names m) ->
  (forall n, ids' !! n = if decide (n ∈ provided_names m) then Some k else ids !! n) ->
  id_spec modules (S k) ids'.
Proof.
  intros Hid Hk Hfr Hids n j. rewrite Hids. rewrite Forall_forall in Hfr. case_decide as Hn.
  - split.
    + intros [= <-]. split; [lia|]. by exists m.
    + intros [Hj Hp]. destruct (decide (j = k)) as [->|]; [done|]. exfalso.
      destruct (Hfr n Hn) as [_ [E|E]]; (assert (E' : ids !! n = Some j) by (apply Hid; split; [lia|done]));
        congruence.
  - rewrite (Hid n j). split.
    + intros [Hj Hp]. split; [lia|done].
    + intros [Hj Hp]. split; [|done]. destruct (decide (j = k)) as [->|]; [|lia].
      destruct Hp as (m' & Hm' & Hp). exfalso. apply Hn. congruence.
Qed.

Lemma collect_identities_spec modules rest : forall k count ids,
  id_spec modules k ids -> drop k modules = rest -> (count <= kMaximumPlannedDependencies)%nat ->
  let '(status, ids') := collect_identities k rest count ids in
  match status with
  | kPlanOk =>
      id_spec modules (length modules) ids' /\
      (count + dependency_total rest <= kMaximumPlannedDependencies)%nat /\
      (forall j n, (k <= j)%nat -> provides modules j n -> n <> EmptyString /\ forall i, (i < j)%nat -> ~ provides modules i n)
  | kInvalidModuleName => exists j m, modules !! j = Some m /\ NormalizeName (md_file_name m) = EmptyString
  | kDuplicateModuleIdentity =>
      exists j n, provides modules j n /\ (n = EmptyString \/ exists i, i <> j /\ provides modules i n)
  | kPlanLimitExceeded => (kMaximumPlannedDependencies < count + dependency_total rest)%nat
  end.
Proof.
  induction rest as [|m rest IH]; intros k count ids Hid Hdrop Hc; simpl.
  { assert (Hlen : (length modules <= k)%nat).
    { apply (f_equal length) in Hdrop. rewrite length_drop in Hdrop. simpl in Hdrop. lia. }
    split_and!; [|unfold dependency_total; simpl; lia|].
    - intros n j. rewrite (Hid n j). split; intros [Hj Hp]; (split; [|done]); [|lia].
      destruct Hp as (m & Hm & _). by apply lookup_lt_Some in Hm.
    - intros j n Hj (m & Hm & _). apply lookup_lt_Some in Hm. lia. }
  assert (Hk : modules !! k = Some m).
  { pose proof (lookup_drop modules k 0) as E. rewrite Hdrop, Nat.add_0_r in E. by simpl in E. }
  assert (Hdrop' : drop (S k) modules = rest).
  { by rewrite <- (drop_drop modules 1 k), Nat.add_1_r, <- Hdrop || (change rest with (drop 1 (m :: rest));
      rewrite <- Hdrop, drop_drop; f_equal; lia). }
  destruct (no_name (NormalizeName (md_file_name m))) eqn:En.
  { exists k, m. split; [done|]. by destruct (NormalizeName _). }
  pose proof (add_module_spec k m ids) as Ha.
  destruct (add_module k m ids) as [ids1 [|]]; destruct Ha as [Hok Hids]; simpl.
  2:{ assert (Hnf : ~ Forall (free_for ids k) (provided_names m)) by (by intros ?%Hok).
      assert (Hex : exists n, n ∈ provided_names m /\
        (n = EmptyString \/ exists i, ids !! n = Some i /\ i <> k)).
      { clear -Hnf. induction (provided_names m) as [|n l IH]; [by destruct Hnf|].
        destruct (decide (n = EmptyString)); [exists n; split; [constructor|by left]|].
        destruct (ids !! n) as [i|] eqn:E.
        - destruct (decide (i = k)) as [->|Hi].
          + destruct IH as (n' & Hn' & H'); [|exists n'; split; [by right|done]].
            intros Hf. apply Hnf. constructor; [split; auto|done].
          + exists n. split; [constructor|]. right. by exists i.
        - destruct IH as (n' & Hn' & H'); [|exists n'; split; [by right|done]].
          intros Hf. apply Hnf. constructor; [split; auto|done]. }
      destruct Hex as (n & Hn & Hor). exists k, n. split; [by exists m|].
      destruct Hor as [->|(i & Hi & Hne)]; [by left|right]. exists i. split; [done|]. by apply (Hid n i) in Hi as [_ ?]. }
  assert (Hfr : Forall (free_for ids k) (provided_names m)) by (by apply Hok).
  specialize (Hids eq_refl). pose proof (id_spec_step _ _ _ _ _ Hid Hk Hfr Hids) as Hid1.
  destruct (_ <? _)%nat eqn:El; [apply Nat.ltb_lt in El|apply Nat.ltb_ge in El].
  { unfold dependency_total. simpl. lia. }
  specialize (IH (S k) (count + length (md_needed_libraries m))%nat ids1 Hid1 Hdrop' ltac:(lia)).
  assert (Htot : dependency_total (m :: rest) = (length (md_needed_libraries m) + dependency_total rest)%nat)
    by done.
  rewrite Htot. destruct (collect_identities (S k) rest _ ids1) as [[] ids']; try done; [|lia].
  destruct IH as (H1 & H2 & H3). split_and!; [done|lia|].
  intros j n Hj Hp. destruct (decide (j = k)) as [->|]; [|by apply H3; [lia|]].
  destruct Hp as (m' & Hm' & Hn). assert (m' = m) as -> by congruence.
  rewrite Forall_forall in Hfr. destruct (Hfr n Hn) as [Hne Hfree]. split; [done|].
  intros i Hi Hpi. assert (E : ids !! n = Some i) by (by apply Hid).
  destruct Hfree as [?|E']; [congruence|]. rewrite E in E'. injection E' as ->. lia.
Qed.

(** ** Dependencies *)

(** Module [i] needs the initialiser of another module [j]. *)
Definition needs modules (i j : nat) : Prop :=
  i <> j /\ starts modules j = true /\
  exists m name, modules !! i = Some m /\ name ∈ md_needed_libraries m /\
    provides modules j (NormalizeName name).

Lemma module_dependencies_spec modules ids i needed : forall names acc missing,
  let '(d, missing') := module_dependencies modules ids i needed names acc missing in
  (forall j, j ∈ d <-> j ∈ acc \/ (j <> i /\ starts modules j = true /\
     exists name, name ∈ needed /\ NormalizeName name <> EmptyString /\ ids !! NormalizeName name = Some j)) /\
  exists new, missing' = missing ++ (mkMissing i <$> new) /\
    NoDup (NormalizeName <$> new) /\
    (forall n, n ∈ new -> n ∈ needed) /\
    (forall n, n ∈ (NormalizeName <$> new) <->
       (n ∉ names) /\ n <> EmptyString /\ ids !! n = None /\ exists name, name ∈ needed /\ NormalizeName name = n).
Proof.
  induction needed as [|name rest IH]; intros names acc missing; simpl.
  { split; [intros j; split; [auto|intros [?|(_ & _ & n & Hn & _)]; [done|by apply elem_of_nil in Hn]]|].
    exists []. split_and!; [by rewrite app_nil_r|constructor|by intros n ?%elem_of_nil|].
    intros n. split; [by intros ?%elem_of_nil|]. intros (_ & _ & _ & x & Hx & _). by apply elem_of_nil in Hx. }
  destruct (no_name (NormalizeName name)) eqn:E0.
  { assert (En : NormalizeName name = EmptyString) by (by destruct (NormalizeName name)).
    specialize (IH names acc missing).
    destruct (module_dependencies modules ids i rest names acc missing) as [d mis].
    destruct IH as (Hd & new & Hm & Hnd & Hin & Hnew). split.
    - intros j. rewrite Hd. setoid_rewrite elem_of_cons. naive_solver.
    - exists new. split_and!; [done|done|intros n Hn; right; by apply Hin|].
      intros n. rewrite Hnew. setoid_rewrite elem_of_cons. naive_solver. }
  apply no_name_false in E0. destruct (ids !! NormalizeName name) as [found|] eqn:Ef.
  - specialize (IH names (if negb (found =? i)%nat && starts modules found
             then ({[found]} ∪ acc) else acc) missing).
    destruct (module_dependencies modules ids i rest names _ missing) as [d mis].
    destruct IH as (Hd & new & Hm & Hnd & Hin & Hnew). split.
    + intros j. rewrite Hd. setoid_rewrite elem_of_cons. clear -Ef E0.
      destruct (negb (found =? i)%nat && starts modules found) eqn:Eb.
      * apply andb_true_iff in Eb as [Eb1 Eb2]. apply negb_true_iff, Nat.eqb_neq in Eb1. set_solver.
      * split; [set_solver|]. intros [?|(Hne & Hs & n & [->|Hn] & Hnn & Hl)]; [by left| |by right; eauto 10].
        rewrite Ef in Hl. injection Hl as ->. exfalso.
        rewrite Hs, andb_true_r in Eb. by apply negb_false_iff, Nat.eqb_eq in Eb.
    + exists new. split_and!; [done|done|intros n Hn; right; by apply Hin|].
      intros n. rewrite Hnew. setoid_rewrite elem_of_cons. naive_solver.
  - case_bool_decide as Hmem.
    + specialize (IH names acc missing).
      destruct (module_dependencies modules ids i rest names acc missing) as [d mis].
      destruct IH as (Hd & new & Hm & Hnd & Hin & Hnew). split.
      * intros j. rewrite Hd. setoid_rewrite elem_of_cons. naive_solver.
      * exists new. split_and!; [done|done|intros n Hn; right; by apply Hin|].
        intros n. rewrite Hnew. setoid_rewrite elem_of_cons. naive_solver.
    + specialize (IH ({[NormalizeName name]} ∪ names) acc (missing ++ [mkMissing i name])).
      destruct (module_dependencies modules ids i rest _ acc _) as [d mis].
      destruct IH as (Hd & new & Hm & Hnd & Hin & Hnew). split.
      * intros j. rewrite Hd. setoid_rewrite elem_of_cons. naive_solver.
      * exists (name :: new). rewrite !fmap_cons. split_and!.
        -- by rewrite Hm, <- app_assoc.
        -- apply NoDup_cons. split; [|done]. rewrite Hnew. set_solver.
        -- intros n [->|Hn]%elem_of_cons; [by left|right; by apply Hin].
        -- intros n. rewrite elem_of_cons, Hnew. setoid_rewrite elem_of_cons.
           destruct (decide (n = NormalizeName name)) as [->|]; [naive_solver|set_solver].
Qed.

Lemma all_dependencies_spec modules ids rest : forall k,
  drop k modules = rest ->
  let '(deps, missing) := all_dependencies modules ids k rest in
  (forall i j, j ∈ default ∅ (deps !! i) <->
     j <> (k + i)%nat /\ starts modules j = true /\ exists m name, modules !! (k + i)%nat = Some m /\
       name ∈ md_needed_libraries m /\ NormalizeName name <> EmptyString /\ ids !! NormalizeName name = Some j) /\
  (forall i n, (exists x, x ∈ missing /\ mm_requester_index x = i /\ NormalizeName (mm_name x) = n) <->
     (k <= i)%nat /\ n <> EmptyString /\ ids !! n = None /\ exists m name, modules !! i = Some m /\
       name ∈ md_needed_libraries m /\ NormalizeName name = n).
Proof.
  induction rest as [|m rest IH]; intros k Hdrop; simpl.
  { assert (Hlen : (length modules <= k)%nat).
    { apply (f_equal length) in Hdrop. rewrite length_drop in Hdrop. simpl in Hdrop. lia. }
    assert (Hnone : forall i, modules !! (k + i)%nat = None) by (intros i; apply lookup_ge_None; lia).
    split.
    - intros i j. rewrite Hnone. destruct i; simpl; set_solver.
    - intros i n. split; [by intros (x & ?%elem_of_nil & _)|].
      intros (Hi & _ & _ & m & name & Hm & _). apply lookup_lt_Some in Hm. lia. }
  assert (Hk : modules !! k = Some m).
  { pose proof (lookup_drop modules k 0) as E. rewrite Hdrop, Nat.add_0_r in E. by simpl in E. }
  assert (Hdrop' : drop (S k) modules = rest).
  { change rest with (drop 1 (m :: rest)). rewrite <- Hdrop, drop_drop. f_equal. lia. }
  pose proof (module_dependencies_spec modules ids k (md_needed_libraries m) ∅ ∅ []) as Hm.
  destruct (module_dependencies modules ids k _ ∅ ∅ []) as [d mis].
  specialize (IH (S k) Hdrop'). destruct (all_dependencies modules ids (S k) rest) as [ds ms].
  destruct Hm as (Hd & new & -> & _ & Hin & Hnew). destruct IH as [IHd IHm]. split.
  - intros [|i] j; simpl.
    + rewrite Nat.add_0_r, Hd, Hk. split; [|naive_solver].
      intros [?|(H1 & H2 & name & ?)]; [set_solver|]. split_and!; [done|done|by exists m, name].
    + rewrite IHd. by replace (S k + i)%nat with (k + S i)%nat by lia.
  - intros i n. rewrite app_nil_l. setoid_rewrite elem_of_app. split.
    + intros (x & [Hx|Hx] & <- & <-).
      * apply list_elem_of_fmap in Hx as (name & -> & Hname). simpl.
        destruct (proj1 (Hnew (NormalizeName name))) as (_ & Hne & Hl & y & Hy & Hyn).
        { by apply list_elem_of_fmap_2. }
        split_and!; [lia|done|done|]. exists m, y. done.
      * destruct (proj1 (IHm (mm_requester_index x) (NormalizeName (mm_name x)))) as (Hle & Hr); [by exists x|].
        split; [lia|done].
    + intros (Hi & Hne & Hl & m' & name & Hm' & Hname & Hn). destruct (decide (i = k)) as [->|].
      * assert (m' = m) as -> by congruence.
        assert (Hf : n ∈ (NormalizeName <$> new)). { apply Hnew. split_and!; [set_solver|done|done|by exists name]. }
        apply list_elem_of_fmap in Hf as (y & Hy & Hyin). exists (mkMissing k y). split_and!; [left|done|done].
        by apply list_elem_of_fmap_2.
      * destruct (proj2 (IHm i n)) as (x & Hx & Hxi & Hxn).
        { split_and!; [lia|done|done|by exists m', name]. }
        exists x. split_and!; [by right|done|done].
Qed.

(** ** The plan *)

(** Dependencies can be ranked: there is no cycle among modules with
    initialisers. *)
Definition acyclic modules : Prop :=
  exists rank : nat -> nat,
    forall i j, starts modules i = true -> needs modules i j -> (rank j < rank i)%nat.

Lemma collected_needs modules ids i j :
  id_spec modules (length modules) ids -> distinct_names modules ->
  (j <> i /\ starts modules j = true /\ exists m name, modules !! i = Some m /\
     name ∈ md_needed_libraries m /\ NormalizeName name <> EmptyString /\ ids !! NormalizeName name = Some j)
  <-> needs modules i j.
Proof.
  intros Hid [Hne _]. unfold needs. split.
  - intros (H1 & H2 & m & name & Hm & Hn & _ & Hl). split_and!; [done|done|].
    exists m, name. split_and!; [done|done|]. by apply Hid in Hl as [_ ?].
  - intros (H1 & H2 & m & name & Hm & Hn & Hp). split_and!; [done|done|]. exists m, name.
    split_and!; [done|done|by eapply Hne|]. apply Hid. split; [|done].
    destruct Hp as (m' & Hm' & _). by apply lookup_lt_Some in Hm'.
Qed.

(** Positions in an ordered plan are a rank. *)
Lemma ordered_rank modules deps order :
  NoDup order -> ordered deps order -> (forall i, starts modules i = true -> i ∈ order) ->
  (forall i j, j ∈ deps_of deps i <-> needs modules i j) -> acyclic modules.
Proof.
  intros Hnd Ho Hall Hdeps.
  exists (fun i => default O (fst <$> list_find (fun x => x = i) order)).
  intros i j Hi Hn. apply Hall in Hi. apply list_elem_of_split in Hi as (l1 & l2 & E).
  assert (Hj : j ∈ l1).
  { pose proof (Ho l1 i l2 E) as Hs. apply Hdeps in Hn. apply Hs, elem_of_list_to_set in Hn. done. }
  rewrite E in Hnd. apply NoDup_app in Hnd as (_ & Hdis & _).
  assert (Hf : forall (x : nat) (l : list nat), x ∈ l -> exists n, list_find (fun y => y = x) l = Some (n, x) /\ (n < length l)%nat).
  { intros x l Hx. destruct (list_find_elem_of (fun y => y = x) l x Hx eq_refl) as [[n y] Hf].
    pose proof Hf as (Hl & -> & _)%list_find_Some. exists n. split; [done|]. by apply lookup_lt_Some in Hl. }
  destruct (Hf j l1 Hj) as (n & Hn1 & Hlt). rewrite E. rewrite (list_find_app_l _ _ _ _ _ Hn1). simpl.
  assert (Hni : list_find (fun y => y = i) l1 = None).
  { apply list_find_None, Forall_forall. intros x Hx ->. apply (Hdis i Hx). constructor. }
  rewrite list_find_app_r by done. simpl. rewrite decide_True by done. simpl. lia.
Qed.

(** ** Cycles *)

(** In a finite set where everybody needs somebody, everybody leads to a cycle. *)
Lemma leads_to_cycle (R : nat -> nat -> Prop) (L : list nat) :
  (forall i, i ∈ L -> exists j, R i j /\ j ∈ L) ->
  forall i, i ∈ L -> exists k, rtc R i k /\ tc R k k.
Proof.
  intros HL.
  enough (H : forall n V i, (length L - length V <= n)%nat -> NoDup V -> V ⊆ L -> (forall v, v ∈ V -> tc R v i) ->
    i ∈ L -> exists k, rtc R i k /\ tc R k k).
  { intros i Hi. apply (H (length L) [] i); [cbn; lia|constructor|set_solver|by intros v ?%elem_of_nil|done]. }
  induction n as [|n IH]; intros V i Hn Hnd Hsub Hpath Hi; (destruct (decide (i ∈ V)) as [Hv|Hv];
    [exists i; split; [apply rtc_refl|by apply Hpath]|]).
  all: assert (Hlt : (length (i :: V) <= length L)%nat)
    by (apply submseteq_length, NoDup_submseteq; [by apply NoDup_cons|intros x [-> |Hx]%elem_of_cons; [done|by apply Hsub]]).
  all: cbn [length] in Hlt.
  { lia. }
  destruct (HL i Hi) as (j & Hr & Hj).
  destruct (IH (i :: V) j) as (k & Hk & Hc); [cbn [length]; lia|by apply NoDup_cons| | |done|].
  - intros x [-> |Hx]%elem_of_cons; [done|by apply Hsub].
  - intros v [-> |Hx]%elem_of_cons; [by apply tc_once|]. eapply tc_r; [by apply Hpath|done].
  - exists k. split; [|done]. by eapply rtc_l.
Qed.

(** What a list that respects the needs holds, it holds with everything needed,
    before it. *)
Definition respects (R : nat -> nat -> Prop) (l : list nat) : Prop :=
  forall l1 i l2, l = l1 ++ i :: l2 -> forall j, R i j -> j ∈ l1.

Lemma respects_before (R : nat -> nat -> Prop) l :
  respects R l -> forall i k, tc R i k -> forall l1 l2, l = l1 ++ i :: l2 -> k ∈ l1.
Proof.
  intros Hr i k Ht. induction Ht as [i k H|i j k H _ IH]; intros l1 l2 E; [by eapply Hr|].
  pose proof (Hr l1 i l2 E j H) as Hj. apply list_elem_of_split in Hj as (a & b & ->).
  apply elem_of_app. left. apply (IH a (b ++ i :: l2)). rewrite E, <- app_assoc. done.
Qed.

Lemma respects_no_cycle (R : nat -> nat -> Prop) l i k :
  NoDup l -> respects R l -> i ∈ l -> rtc R i k -> ~ tc R k k.
Proof.
  intros Hnd Hr Hi Hik Hkk.
  assert (Hk : k ∈ l).
  { apply rtc_tc in Hik as [<-|Ht]; [done|]. apply list_elem_of_split in Hi as (l1 & l2 & E).
    pose proof (respects_before R l Hr i k Ht l1 l2 E). rewrite E. apply elem_of_app. by left. }
  apply list_elem_of_split in Hk as (l1 & l2 & E). pose proof (respects_before R l Hr k k Hkk l1 l2 E) as Hin.
  rewrite E in Hnd. apply NoDup_app in Hnd as (_ & Hdis & _). apply (Hdis k Hin). constructor.
Qed.

(** C30: the start plan: planning always ends; when it succeeds every module with
    an initialiser is started exactly once, and it is started after all the
    modules it needs, except for the last [fallback_start_count] modules.  Those
    are exactly the modules with an initialiser that are on a cycle of needs or
    need, directly or through others, a module on a cycle; there are none of
    them exactly when the needs have no cycle. *)
Theorem module_start_order modules :
  exists result, BuildModuleStartPlan modules = Some result /\
  (sp_status result = kPlanOk ->
   exists planned fallback, sp_start_order result = planned ++ fallback /\
     length fallback = sp_fallback_start_count result /\
     sp_start_order result ≡ₚ startable modules /\
     (forall l1 i l2, planned = l1 ++ i :: l2 -> forall j, needs modules i j -> j ∈ l1) /\
     (forall i, i ∈ fallback <-> starts modules i = true /\
        exists k, rtc (needs modules) i k /\ tc (needs modules) k k) /\
     (sp_fallback_start_count result = O <-> acyclic modules)).
Proof.
  unfold BuildModuleStartPlan. destruct (_ <? _)%nat; [by eexists|].
  pose proof (collect_identities_spec modules modules 0 0 ∅) as Hc.
  assert (Hid0 : id_spec modules 0 ∅) by (intros n j; rewrite lookup_empty; split; [done|lia]).
  specialize (Hc Hid0 eq_refl (Nat.le_0_l _)).
  destruct (collect_identities 0 modules 0 ∅) as [[] ids]; try (by eexists).
  destruct Hc as (Hid & _ & Hnames).
  assert (Hdn : distinct_names modules).
  { split; [intros j n Hp; by apply (Hnames j n (Nat.le_0_l _))|]. intros i j n Hi Hj.
    destruct (Nat.lt_trichotomy i j) as [Hl|[Hl|Hl]]; [exfalso|done|exfalso].
    - by apply (proj2 (Hnames j n (Nat.le_0_l _) Hj) i Hl).
    - by apply (proj2 (Hnames i n (Nat.le_0_l _) Hi) j Hl). }
  pose proof (all_dependencies_spec modules ids modules 0 eq_refl) as Ha.
  destruct (all_dependencies modules ids 0 modules) as [deps missing]. destruct Ha as [Hd _].
  assert (Hneeds : forall i j, j ∈ deps_of deps i <-> needs modules i j).
  { intros i j. unfold deps_of. rewrite Hd. by apply collected_needs. }
  assert (Hstart : forall i j, j ∈ deps_of deps i -> starts modules j = true).
  { intros i j (_ & ? & _)%Hneeds. done. }
  destruct (plan_loop_spec modules deps (S (length modules)) (initial_plan modules)) as (s & -> & Hinv & Hset).
  { apply initial_plan_inv. }
  { simpl. rewrite <- startable_length. unfold startable. pose proof (List.filter_length_le (starts modules) (seq 0 (length modules))) as Hle.
    rewrite length_seq in Hle. lia. }
  eexists. split; [done|]. intros _. simpl.
  exists (pl_order s), (stuck modules (pl_started s)).
  assert (Hresp : respects (needs modules) (pl_order s)).
  { intros l1 i l2 E j Hn. apply Hneeds in Hn. pose proof (pi_ordered _ _ _ Hinv l1 i l2 E) as Hs.
    apply Hs, elem_of_list_to_set in Hn. done. }
  split_and!; [done|done|by apply (plan_permutation modules deps)|exact Hresp| |].
  - intros i. split.
    + intros Hi. split; [by apply elem_of_stuck in Hi as [? _]|]. revert i Hi. apply leads_to_cycle. intros i Hi.
      destruct (stuck_needs_stuck modules deps s i Hinv Hset Hstart Hi) as (j & Hj & Hjs).
      exists j. split; [by apply Hneeds|done].
    + intros (Hs & k & Hik & Hkk). apply elem_of_stuck. split; [done|]. intros Hin.
      rewrite (pi_started _ _ _ Hinv) in Hin. apply elem_of_list_to_set in Hin.
      by apply (respects_no_cycle (needs modules) (pl_order s) i k (pi_nodup _ _ _ Hinv)).
  - split.
    + intros Hz. apply nil_length_inv in Hz. apply (ordered_rank modules deps (pl_order s)); try apply Hinv; [|done].
      intros i Hi. pose proof (plan_permutation modules deps s Hinv) as Hp. rewrite Hz, app_nil_r in Hp.
      rewrite Hp. by apply elem_of_startable.
    + intros [rank Hr]. erewrite (ranked_not_stuck modules deps s rank); try done.
      intros i j Hs Hj%Hneeds. by apply Hr.
Qed.

(** A set of modules is accepted exactly when it is within the limits, every
    name normalises to something and no two modules share a name; the reported
    missing dependencies are then exactly the needed names, base name in lower
    case, that no module provides. *)
Theorem module_plan_accepts modules result :
  BuildModuleStartPlan modules = Some result ->
  (sp_status result = kPlanOk <->
   (length modules <= kMaximumPlannedModules)%nat /\
   (dependency_total modules <= kMaximumPlannedDependencies)%nat /\ distinct_names modules) /\
  (sp_status result = kPlanOk -> forall i n,
     (exists x, x ∈ sp_missing_dependencies result /\ mm_requester_index x = i /\ NormalizeName (mm_name x) = n) <->
     (n <> EmptyString /\ (forall j, ~ provides modules j n) /\
      exists m name, modules !! i = Some m /\ name ∈ md_needed_libraries m /\ NormalizeName name = n)).
Proof.
  unfold BuildModuleStartPlan. destruct (_ <? _)%nat eqn:El; [apply Nat.ltb_lt in El|apply Nat.ltb_ge in El].
  { intros [= <-]. simpl. split; [|done]. split; [done|]. lia. }
  pose proof (collect_identities_spec modules modules 0 0 ∅) as Hc.
  assert (Hid0 : id_spec modules 0 ∅) by (intros n j; rewrite lookup_empty; split; [done|lia]).
  specialize (Hc Hid0 eq_refl (Nat.le_0_l _)).
  destruct (collect_identities 0 modules 0 ∅) as [st ids]. destruct st.
  2:{ intros [= <-]. simpl. split; [|done]. split; [done|]. intros (_ & _ & Hn & _). exfalso.
      destruct Hc as (j & m & Hj & E). apply (Hn j EmptyString); [|done]. exists m. split; [done|].
      rewrite <- E. constructor. }
  2:{ intros [= <-]. simpl. split; [|done]. split; [done|]. intros (_ & _ & Hn & Hd). exfalso.
      destruct Hc as (j & n & Hj & [->|(i & Hne & Hi)]); [by apply (Hn j EmptyString)|].
      apply Hne. by eapply Hd. }
  2:{ intros [= <-]. simpl. split; [|done]. split; [done|]. lia. }
  destruct Hc as (Hid & Htot & Hnames).
  pose proof (all_dependencies_spec modules ids modules 0 eq_refl) as Ha.
  destruct (all_dependencies modules ids 0 modules) as [deps missing]. destruct Ha as [_ Hm].
  destruct (plan_loop _ _ _ _) as [s|]; [|done]. intros [= <-]. simpl. split.
  - split; [|done]. intros _. split_and!; [done|lia|]. split.
    { intros j n Hp. by apply (Hnames j n (Nat.le_0_l _)). }
    intros i j n Hi Hj. destruct (Nat.lt_trichotomy i j) as [Hl|[Hl|Hl]]; [exfalso|done|exfalso].
    + by apply (proj2 (Hnames j n (Nat.le_0_l _) Hj) i Hl).
    + by apply (proj2 (Hnames i n (Nat.le_0_l _) Hi) j Hl).
  - intros _ i n. rewrite Hm. assert (Hnone : ids !! n = None <-> forall j, ~ provides modules j n).
    { split.
      - intros E j Hp. assert (ids !! n = Some j) as E'; [|congruence]. apply Hid. split; [|done].
        destruct Hp as (m & Hm' & _). by apply lookup_lt_Some in Hm'.
      - intros Hno. destruct (ids !! n) as [j|] eqn:E; [|done]. apply Hid in E as [_ E]. by apply Hno in E. }
    rewrite Hnone. split; [by intros [_ ?]|]. intros ?. split; [lia|done].
Qed.
