(* ===== verification/Launch.v ===== *)
(** What a loaded executable is started with ([src/loader/launch_metadata.cpp])
    and the calls its start-up and shutdown make
    ([src/loader/lifecycle_plan.cpp]). *)
From S2P Require Import Prelude LittleEndian SharedBacking GuestMemory Elf.

(** ** Launch metadata *)

Inductive LaunchMetadataStatus :=
| kLaunchOk | kAddressOverflow | kEntryPointNotMapped | kEntryPointNotExecutable
| kMultipleProcessParameterSegments | kProcessParametersNotMapped | kMultipleTlsSegments
| kTlsNotMapped | kInitFunctionNotExecutable | kFiniFunctionNotExecutable
| kIncompletePreinitArray | kIncompleteInitArray | kIncompleteFiniArray
| kInvalidFunctionArraySize | kFunctionArrayNotMapped.

#[global] Instance LaunchMetadataStatus_eq_dec : EqDecision LaunchMetadataStatus.
Proof. solve_decision. Defined.

Record ExecutableTlsMetadata := mkTlsMetadata {
  tm_image_address : Z;
  tm_initial_size : Z;
  tm_memory_size : Z;
  tm_alignment : Z
}.

Record ExecutableFunctionArrayMetadata := mkFunctionArray { fa_address : Z; fa_entry_count : Z }.

Record ExecutableLaunchMetadata := mkLaunch {
  lm_entry_point : option Z;
  lm_process_parameters : option Z;
  lm_tls : option ExecutableTlsMetadata;
  lm_init_function : option Z;
  lm_fini_function : option Z;
  lm_preinit_array : option ExecutableFunctionArrayMetadata;
  lm_init_array : option ExecutableFunctionArrayMetadata;
  lm_fini_array : option ExecutableFunctionArrayMetadata
}.

Definition ExecutableLaunchMetadata_default : ExecutableLaunchMetadata :=
  mkLaunch None None None None None None None None.

(** [LaunchMetadataResult]; a failed analysis keeps what it had found. *)
Record LaunchMetadataResult := mkLaunchResult {
  lr_status : LaunchMetadataStatus;
  lr_metadata : ExecutableLaunchMetadata
}.

Definition kProgramTypeLoad : Z := 1.
Definition kProgramTypeTls : Z := 7.
Definition kProgramTypeSceProcessParameters : Z := 0x61000001.
Definition kProgramFlagExecute : Z := 1.

Definition header_covers (address size : Z) (require_execute : bool) (h : ElfProgramHeader) : bool :=
  if negb (ph_type h =? kProgramTypeLoad) || (address <? ph_virtual_address h) then false
  else
    let relative := (address - ph_virtual_address h)%u64 in
    if (relative >? ph_memory_size h) || (size >? (ph_memory_size h - relative)%u64) then false
    else negb require_execute || negb (Z.land (ph_flags h) kProgramFlagExecute =? 0).

Definition RangeWithinLoad (metadata : ElfMetadata) (address size : Z) (require_execute : bool) : bool :=
  existsb (header_covers address size require_execute) (em_program_headers metadata).

Definition AddAddress (address load_bias : Z) : option Z :=
  if address >? u64_max - load_bias then None else Some (address + load_bias)%u64.

(** Go on with the next part unless this one failed. *)
Definition launch_then (r : LaunchMetadataResult) (next : ExecutableLaunchMetadata -> LaunchMetadataResult)
    : LaunchMetadataResult :=
  if bool_decide (lr_status r = kLaunchOk) then next (lr_metadata r) else r.

Definition analyze_entry (metadata : ElfMetadata) (load_bias : Z) (l : ExecutableLaunchMetadata)
    : LaunchMetadataResult :=
  let entry := em_entry_point metadata in
  if entry =? 0 then mkLaunchResult kLaunchOk l
  else if negb (RangeWithinLoad metadata entry 1 false) then mkLaunchResult kEntryPointNotMapped l
  else if negb (RangeWithinLoad metadata entry 1 true) then mkLaunchResult kEntryPointNotExecutable l
  else match AddAddress entry load_bias with
  | None => mkLaunchResult kAddressOverflow l
  | Some entry_point => mkLaunchResult kLaunchOk {| l with lm_entry_point := Some entry_point |}
  end.

(** The loop that finds the process-parameter and TLS segments. *)
Fixpoint special_segments (headers : list ElfProgramHeader)
    (process_parameters tls : option ElfProgramHeader)
    : LaunchMetadataStatus * option ElfProgramHeader * option ElfProgramHeader :=
  match headers with
  | [] => (kLaunchOk, process_parameters, tls)
  | h :: rest =>
      let is_parameters := ph_type h =? kProgramTypeSceProcessParameters in
      match is_parameters, process_parameters with
      | true, Some _ => (kMultipleProcessParameterSegments, process_parameters, tls)
      | _, _ =>
          let process_parameters := if is_parameters then Some h else process_parameters in
          match ph_type h =? kProgramTypeTls, tls with
          | true, Some _ => (kMultipleTlsSegments, process_parameters, tls)
          | true, None => special_segments rest process_parameters (Some h)
          | false, _ => special_segments rest process_parameters tls
          end
      end
  end.

Definition analyze_parameters (metadata : ElfMetadata) (load_bias : Z)
    (process_parameters : option ElfProgramHeader) (l : ExecutableLaunchMetadata) : LaunchMetadataResult :=
  match process_parameters with
  | None => mkLaunchResult kLaunchOk l
  | Some h =>
      if negb (RangeWithinLoad metadata (ph_virtual_address h) (Z.max (ph_memory_size h) 1) false)
      then mkLaunchResult kProcessParametersNotMapped l
      else match AddAddress (ph_virtual_address h) load_bias with
      | None => mkLaunchResult kAddressOverflow l
      | Some address => mkLaunchResult kLaunchOk {| l with lm_process_parameters := Some address |}
      end
  end.

Definition analyze_tls (metadata : ElfMetadata) (load_bias : Z) (tls : option ElfProgramHeader)
    (l : ExecutableLaunchMetadata) : LaunchMetadataResult :=
  match tls with
  | None => mkLaunchResult kLaunchOk l
  | Some h =>
      if ph_memory_size h =? 0 then mkLaunchResult kLaunchOk l
      else
        let initial_size := Z.min (ph_file_size h) (ph_memory_size h) in
        if negb (initial_size =? 0)
           && negb (RangeWithinLoad metadata (ph_virtual_address h) initial_size false)
        then mkLaunchResult kTlsNotMapped l
        else match AddAddress (ph_virtual_address h) load_bias with
        | None => mkLaunchResult kAddressOverflow l
        | Some image_address =>
            mkLaunchResult kLaunchOk
              {| l with lm_tls := Some (mkTlsMetadata image_address initial_size
                                          (ph_memory_size h) (ph_alignment h)) |}
        end
  end.

(** [resolve_function]: an error, or the function found, if any. *)
Definition resolve_function (metadata : ElfMetadata) (load_bias : Z) (source : option Z)
    (invalid_status : LaunchMetadataStatus) : LaunchMetadataStatus * option Z :=
  match source with
  | None => (kLaunchOk, None)
  | Some function =>
      if function =? 0 then (kLaunchOk, None)
      else if negb (RangeWithinLoad metadata function 1 true) then (invalid_status, None)
      else match AddAddress function load_bias with
      | None => (kAddressOverflow, None)
      | Some address => (kLaunchOk, Some address)
      end
  end.

(** [resolve_array]. *)
Definition resolve_array (metadata : ElfMetadata) (load_bias : Z) (source_address source_size : option Z)
    (incomplete_status : LaunchMetadataStatus)
    : LaunchMetadataStatus * option ExecutableFunctionArrayMetadata :=
  let address := default 0 source_address in
  let size := default 0 source_size in
  if (address =? 0) || (size =? 0) then
    if (address =? 0) && (size =? 0) then (kLaunchOk, None) else (incomplete_status, None)
  else if negb (size mod 8 =? 0) then (kInvalidFunctionArraySize, None)
  else if negb (RangeWithinLoad metadata address size false) then (kFunctionArrayNotMapped, None)
  else match AddAddress address load_bias with
  | None => (kAddressOverflow, None)
  | Some image_address =>
      if size >? u64_max - image_address then (kAddressOverflow, None)
      else (kLaunchOk, Some (mkFunctionArray image_address (size / 8)))
  end.

Definition analyze_functions (metadata : ElfMetadata) (load_bias : Z) (l : ExecutableLaunchMetadata)
    : LaunchMetadataResult :=
  let info := em_dynamic_info metadata in
  let '(st, init) := resolve_function metadata load_bias (di_init_function info) kInitFunctionNotExecutable in
  launch_then (mkLaunchResult st {| l with lm_init_function := init |}) (fun l =>
  let '(st, fini) := resolve_function metadata load_bias (di_fini_function info) kFiniFunctionNotExecutable in
  mkLaunchResult st {| l with lm_fini_function := fini |}).

Definition analyze_arrays (metadata : ElfMetadata) (load_bias : Z) (l : ExecutableLaunchMetadata)
    : LaunchMetadataResult :=
  let info := em_dynamic_info metadata in
  let '(st, preinit) := resolve_array metadata load_bias (di_preinit_array_address info)
                          (di_preinit_array_size info) kIncompletePreinitArray in
  launch_then (mkLaunchResult st {| l with lm_preinit_array := preinit |}) (fun l =>
  let '(st, init) := resolve_array metadata load_bias (di_init_array_address info)
                       (di_init_array_size info) kIncompleteInitArray in
  launch_then (mkLaunchResult st {| l with lm_init_array := init |}) (fun l =>
  let '(st, fini) := resolve_array metadata load_bias (di_fini_array_address info)
                       (di_fini_array_size info) kIncompleteFiniArray in
  mkLaunchResult st {| l with lm_fini_array := fini |})).

Definition AnalyzeLaunchMetadata (metadata : ElfMetadata) (load_bias : Z) : LaunchMetadataResult :=
  launch_then (analyze_entry metadata load_bias ExecutableLaunchMetadata_default) (fun l =>
  let '(st, process_parameters, tls) := special_segments (em_program_headers metadata) None None in
  launch_then (mkLaunchResult st l) (fun l =>
  launch_then (analyze_parameters metadata load_bias process_parameters l) (fun l =>
  launch_then (analyze_tls metadata load_bias tls l) (fun l =>
  launch_then (analyze_functions metadata load_bias l) (analyze_arrays metadata load_bias))))).

(** ** The call plan *)

Definition kMaximumLifecycleCalls : Z := 65536.

Inductive LifecyclePlanStatus :=
| kLifecycleOk | kLifecycleLimitExceeded | kArrayReadFailed | kFunctionNotExecutable.

Inductive LifecycleCallKind := kNoCall | kPreinitializer | kInitializer | kFinalizer.

Record ExecutableLifecyclePlan := mkCallPlan {
  cp_preinitializers : list Z;
  cp_initializers : list Z;
  cp_finalizers : list Z
}.

Record LifecyclePlanResult := mkPlanResult {
  pr_status : LifecyclePlanStatus;
  pr_failure_kind : LifecycleCallKind;
  pr_failure_index : Z;
  pr_plan : ExecutableLifecyclePlan
}.

Definition empty_plan : ExecutableLifecyclePlan := mkCallPlan [] [] [].

Definition AddCount (count total : Z) : option Z :=
  if count >? kMaximumLifecycleCalls - total then None else Some (total + count).

Definition ReadAddress (m : GuestMemory) (base index : Z) : option Z :=
  if index >? (u64_max - base) / 8 then None
  else le_value <$> Read (base + (index * 8)%u64)%u64 8 m.

(** The call list under construction and the set of addresses already in it. *)
Record call_list := mkCallList { cl_calls : list Z; cl_seen : gset Z }.
Definition no_calls : call_list := mkCallList [] ∅.

Definition AppendFunction (value load_bias : Z) (m : GuestMemory) (c : call_list) : option call_list :=
  if (value =? 0) || (value =? u64_max) then Some c
  else
    let push resolved :=
      if bool_decide (resolved ∈ cl_seen c) then Some c
      else Some (mkCallList (cl_calls c ++ [resolved]) ({[resolved]} ∪ cl_seen c)) in
    if CanExecute value 1 m then push value
    else if (load_bias =? 0) || (value >? u64_max - load_bias) then None
    else
      let resolved := (value + load_bias)%u64 in
      if CanExecute resolved 1 m then push resolved else None.

(** The loop over [cursor]; an error carries the status and the index. *)
Fixpoint append_array_loop (remaining : nat) (cursor : Z) (array : ExecutableFunctionArrayMetadata)
    (reverse : bool) (load_bias : Z) (m : GuestMemory) (c : call_list)
    : call_list + LifecyclePlanStatus * Z :=
  match remaining with
  | O => inl c
  | S remaining =>
      let index := if reverse then fa_entry_count array - cursor - 1 else cursor in
      match ReadAddress m (fa_address array) index with
      | None => inr (kArrayReadFailed, index)
      | Some value =>
          match AppendFunction value load_bias m c with
          | None => inr (kFunctionNotExecutable, index)
          | Some c' => append_array_loop remaining (cursor + 1) array reverse load_bias m c'
          end
      end
  end.

Definition AppendArray (array : option ExecutableFunctionArrayMetadata) (reverse : bool) (load_bias : Z)
    (m : GuestMemory) (c : call_list) : call_list + LifecyclePlanStatus * Z :=
  match array with
  | None => inl c
  | Some a => append_array_loop (Z.to_nat (fa_entry_count a)) 0 a reverse load_bias m c
  end.

(** [metadata.init_function.has_value() && !AppendFunction(...)]. *)
Definition append_optional (function : option Z) (load_bias : Z) (m : GuestMemory) (c : call_list)
    : call_list + LifecyclePlanStatus * Z :=
  match function with
  | None => inl c
  | Some value =>
      match AppendFunction value load_bias m c with
      | Some c' => inl c'
      | None => inr (kFunctionNotExecutable, 0)
      end
  end.

Definition plan_failure (kind : LifecycleCallKind) (e : LifecyclePlanStatus * Z) : LifecyclePlanResult :=
  mkPlanResult e.1 kind e.2 empty_plan.

Definition array_count (array : option ExecutableFunctionArrayMetadata) (total : option Z) : option Z :=
  match total, array with
  | Some total, Some a => AddCount (fa_entry_count a) total
  | total, None => total
  | None, _ => None
  end.

Definition function_count (function : option Z) (total : option Z) : option Z :=
  match total with
  | Some total => AddCount (match function with Some _ => 1 | None => 0 end) total
  | None => None
  end.

(** The number of calls, if it is within the limit. *)
Definition call_limit (l : ExecutableLaunchMetadata) : option Z :=
  function_count (lm_fini_function l) (function_count (lm_init_function l)
    (array_count (lm_fini_array l) (array_count (lm_init_array l) (array_count (lm_preinit_array l) (Some 0))))).

Definition BuildLifecycleCallPlan (l : ExecutableLaunchMetadata) (m : GuestMemory) (load_bias : Z)
    : LifecyclePlanResult :=
  match call_limit l with
  | None => mkPlanResult kLifecycleLimitExceeded kNoCall 0 empty_plan
  | Some _ =>
      match AppendArray (lm_preinit_array l) false load_bias m no_calls with
      | inr e => plan_failure kPreinitializer e
      | inl pre =>
      match append_optional (lm_init_function l) load_bias m no_calls with
      | inr e => plan_failure kInitializer e
      | inl init0 =>
      match AppendArray (lm_init_array l) false load_bias m init0 with
      | inr e => plan_failure kInitializer e
      | inl init =>
      match AppendArray (lm_fini_array l) true load_bias m no_calls with
      | inr e => plan_failure kFinalizer e
      | inl fini0 =>
      match append_optional (lm_fini_function l) load_bias m fini0 with
      | inr e => plan_failure kFinalizer e
      | inl fini =>
          mkPlanResult kLifecycleOk kNoCall 0 (mkCallPlan (cl_calls pre) (cl_calls init) (cl_calls fini))
      end end end end end
  end.

(** Properties of launch metadata and call plans
    ([src/loader/launch_metadata.cpp], [src/loader/lifecycle_plan.cpp]). *)

Implicit Types (m : GuestMemory) (l : ExecutableLaunchMetadata) (h : ElfProgramHeader).

(** ** The call plan against a reference *)

(** What one table entry contributes: [None] if it cannot be called, otherwise
    the address to call, if any. *)
Definition resolve_call m (load_bias value : Z) : option (option Z) :=
  if (value =? 0) || (value =? u64_max) then Some None
  else if CanExecute value 1 m then Some (Some value)
  else if (load_bias =? 0) || (value + load_bias >? u64_max) then None
  else if CanExecute (value + load_bias)%u64 1 m then Some (Some (value + load_bias)%u64) else None.

(** Every address once, at its first occurrence. *)
Fixpoint first_occurrences (xs : list Z) : list Z :=
  match xs with
  | [] => []
  | x :: rest => x :: filter (fun y => y <> x) (first_occurrences rest)
  end.

Definition planned_calls m (load_bias : Z) (values : list Z) : option (list Z) :=
  (fun calls => first_occurrences (omap id calls)) <$> mapM (resolve_call m load_bias) values.

(** The entries of a function array, in the order they are called. *)
Definition array_values m (array : option ExecutableFunctionArrayMetadata) (backwards : bool)
    : option (list Z) :=
  match array with
  | None => Some []
  | Some a =>
      let indices := seqZ 0 (fa_entry_count a) in
      mapM (ReadAddress m (fa_address a)) (if backwards then reverse indices else indices)
  end.

Definition function_values (function : option Z) : list Z := option_list function.

Definition total_calls l : Z :=
  let count array := match array with Some a => fa_entry_count a | None => 0 end in
  count (lm_preinit_array l) + count (lm_init_array l) + count (lm_fini_array l)
  + Z.of_nat (length (function_values (lm_init_function l)))
  + Z.of_nat (length (function_values (lm_fini_function l))).

(** The accumulating loop of the code, on lists. *)
Fixpoint add_new (calls xs : list Z) : list Z :=
  match xs with
  | [] => calls
  | x :: rest => add_new (if bool_decide (x ∈ calls) then calls else calls ++ [x]) rest
  end.

Lemma elem_of_first_occurrences x xs : x ∈ first_occurrences xs <-> x ∈ xs.
Proof.
  induction xs as [|y xs IH]; simpl; [done|]. rewrite !elem_of_cons, list_elem_of_filter, IH.
  destruct (decide (x = y)); tauto.
Qed.

Lemma first_occurrences_nodup xs : NoDup (first_occurrences xs).
Proof.
  induction xs as [|y xs IH]; simpl; constructor; [|by apply NoDup_filter].
  rewrite list_elem_of_filter. tauto.
Qed.

Lemma add_new_spec xs : forall calls,
  add_new calls xs = calls ++ filter (fun y => y ∉ calls) (first_occurrences xs).
Proof.
  induction xs as [|x xs IH]; intros calls; simpl; [by rewrite app_nil_r|]. rewrite IH.
  case_bool_decide as Hx; rewrite filter_cons.
  - rewrite decide_False by tauto. f_equal. rewrite list_filter_filter. apply list_filter_iff.
    intros y. split; [|tauto]. intros Hy. split; [done|]. intros ->. done.
  - rewrite decide_True by done. rewrite <- app_assoc. simpl. do 2 f_equal.
    rewrite list_filter_filter. apply list_filter_iff. intros y.
    rewrite not_elem_of_app, list_elem_of_singleton. done.
Qed.

Lemma add_new_nil xs : add_new [] xs = first_occurrences xs.
Proof.
  rewrite add_new_spec. simpl. assert (H : forall l : list Z, filter (fun y => y ∉ []) l = l); [|apply H].
  induction l as [|y l IH]; [done|]. rewrite filter_cons, decide_True by apply not_elem_of_nil. by rewrite IH.
Qed.

Lemma add_new_app calls xs ys : add_new calls (xs ++ ys) = add_new (add_new calls xs) ys.
Proof. revert calls. induction xs as [|x xs IH]; intros calls; [done|]. simpl. by rewrite IH. Qed.

(** The code's accumulator: the seen set is the set of the calls. *)
Definition seen_ok (c : call_list) : Prop := cl_seen c = list_to_set (cl_calls c).

Definition call_list_of (calls : list Z) : call_list := mkCallList calls (list_to_set calls).

Lemma AppendFunction_spec value bias m calls :
  AppendFunction value bias m (call_list_of calls) =
  (fun r => call_list_of (add_new calls (option_list r))) <$> resolve_call m bias value.
Proof.
  unfold AppendFunction, resolve_call.
  destruct ((value =? 0) || (value =? u64_max)); [done|].
  assert (Hpush : forall a, (if bool_decide (a ∈ cl_seen (call_list_of calls)) then Some (call_list_of calls)
     else Some (mkCallList (cl_calls (call_list_of calls) ++ [a]) ({[a]} ∪ cl_seen (call_list_of calls)))) =
     Some (call_list_of (add_new calls [a]))).
  { intros a. simpl. destruct (decide (a ∈ calls)) as [Ha|Ha].
    - rewrite !bool_decide_eq_true_2; [done|done|]. by apply elem_of_list_to_set.
    - rewrite !bool_decide_eq_false_2; [|done|by rewrite elem_of_list_to_set].
      unfold call_list_of. f_equal. f_equal. rewrite list_to_set_app_L. set_solver. }
  destruct (CanExecute value 1 m); [apply Hpush|].
  replace (value >? u64_max - bias) with (value + bias >? u64_max) by lia.
  destruct ((bias =? 0) || _); [done|].
  destruct (CanExecute (value + bias)%u64 1 m); [apply Hpush|done].
Qed.

Fixpoint append_all (values : list Z) (bias : Z) m (calls : list Z) : option (list Z) :=
  match values with
  | [] => Some calls
  | v :: rest =>
      match resolve_call m bias v with
      | None => None
      | Some r => append_all rest bias m (add_new calls (option_list r))
      end
  end.

Lemma append_all_eq values bias m : forall calls,
  append_all values bias m calls =
  (fun rs => add_new calls (omap id rs)) <$> mapM (resolve_call m bias) values.
Proof.
  induction values as [|v values IH]; intros calls; simpl; [done|].
  destruct (resolve_call m bias v) as [r|]; simpl; [|done]. rewrite IH.
  destruct (mapM (resolve_call m bias) values) as [rs|]; simpl; [|done].
  by destruct r; simpl.
Qed.

Lemma append_all_app v1 v2 bias m calls :
  append_all (v1 ++ v2) bias m calls = append_all v1 bias m calls ≫= append_all v2 bias m.
Proof.
  revert calls. induction v1 as [|v v1 IH]; intros calls; simpl; [done|].
  destruct (resolve_call m bias v); simpl; [by rewrite IH|done].
Qed.

(** ** The arrays *)

Definition loop_index (a : ExecutableFunctionArrayMetadata) (backwards : bool) (cursor : Z) : Z :=
  if backwards then fa_entry_count a - cursor - 1 else cursor.

Definition inl_option {A B} (x : A + B) : option A := match x with inl a => Some a | inr _ => None end.

Lemma append_array_loop_eq n : forall cursor a backwards bias m calls,
  inl_option (append_array_loop n cursor a backwards bias m (call_list_of calls)) =
  mapM (ReadAddress m (fa_address a)) (loop_index a backwards <$> seqZ cursor (Z.of_nat n))
    ≫= fun values => call_list_of <$> append_all values bias m calls.
Proof.
  induction n as [|n IH]; intros cursor a backwards bias m calls; [done|].
  rewrite seqZ_cons by lia. replace (Z.pred (Z.of_nat (S n))) with (Z.of_nat n) by lia.
  replace (Z.succ cursor) with (cursor + 1) by lia. cbn [append_array_loop fmap list_fmap mapM].
  fold (loop_index a backwards cursor). destruct (ReadAddress m (fa_address a) _) as [v|]; [|done].
  rewrite AppendFunction_spec. simpl. destruct (resolve_call m bias v) as [r|] eqn:Er; simpl.
  - rewrite IH. destruct (mapM _ _) as [vs|]; simpl; [|done]. by rewrite Er.
  - destruct (mapM _ _) as [vs|]; simpl; [|done]. by rewrite Er.
Qed.

Lemma reversed_indices a n :
  fa_entry_count a = Z.of_nat n -> loop_index a true <$> seqZ 0 (Z.of_nat n) = reverse (seqZ 0 (Z.of_nat n)).
Proof.
  intros Hn. apply list_eq. intros i. rewrite list_lookup_fmap. unfold loop_index. rewrite Hn.
  destruct (decide (i < n)%nat) as [Hi|Hi].
  - rewrite lookup_seqZ_lt by lia. simpl.
    rewrite reverse_lookup by (rewrite length_seqZ; lia). rewrite length_seqZ, Nat2Z.id.
    rewrite lookup_seqZ_lt by lia. f_equal. lia.
  - rewrite lookup_seqZ_ge by lia. simpl. symmetry. apply lookup_ge_None.
    rewrite length_reverse, length_seqZ. lia.
Qed.

Lemma AppendArray_eq array backwards bias m calls :
  match array with Some a => 0 <= fa_entry_count a | None => True end ->
  inl_option (AppendArray array backwards bias m (call_list_of calls)) =
  array_values m array backwards ≫= fun values => call_list_of <$> append_all values bias m calls.
Proof.
  intros Hc. unfold AppendArray, array_values. destruct array as [a|]; [|done].
  rewrite append_array_loop_eq, Z2Nat.id by done.
  assert (Hn : fa_entry_count a = Z.of_nat (Z.to_nat (fa_entry_count a))) by lia.
  destruct backwards.
  - rewrite Hn at 1. rewrite reversed_indices by done. by rewrite <- Hn.
  - assert (E : loop_index a false <$> seqZ 0 (fa_entry_count a) = seqZ 0 (fa_entry_count a));
      [|by rewrite E]. unfold loop_index. apply list_fmap_id.
Qed.

Lemma append_optional_eq function bias m calls :
  inl_option (append_optional function bias m (call_list_of calls)) =
  call_list_of <$> append_all (function_values function) bias m calls.
Proof.
  destruct function as [v|]; [|done]. simpl. rewrite AppendFunction_spec.
  by destruct (resolve_call m bias v).
Qed.

(** ** The plan *)

Definition counts_ok l : Prop :=
  Forall (fun a => 0 <= fa_entry_count a)
    (option_list (lm_preinit_array l) ++ option_list (lm_init_array l) ++ option_list (lm_fini_array l)).

Lemma counts_ok_iff l :
  counts_ok l <->
  match lm_preinit_array l with Some a => 0 <= fa_entry_count a | None => True end /\
  match lm_init_array l with Some a => 0 <= fa_entry_count a | None => True end /\
  match lm_fini_array l with Some a => 0 <= fa_entry_count a | None => True end.
Proof.
  unfold counts_ok. rewrite !Forall_app.
  destruct (lm_preinit_array l), (lm_init_array l), (lm_fini_array l); simpl;
    rewrite ?Forall_singleton, ?Forall_nil; tauto.
Qed.

(** Saturating addition of a non-negative count. *)
Definition count_to (t : Z) : option Z := if t >? kMaximumLifecycleCalls then None else Some t.

Lemma count_to_add n t :
  0 <= n -> 0 <= t ->
  match count_to t with Some total => AddCount n total | None => None end = count_to (t + n).
Proof.
  intros Hn Ht. unfold count_to, AddCount. destruct (Z.gtb_spec t kMaximumLifecycleCalls).
  - destruct (Z.gtb_spec (t + n) kMaximumLifecycleCalls); [done|lia].
  - destruct (Z.gtb_spec n (kMaximumLifecycleCalls - t)), (Z.gtb_spec (t + n) kMaximumLifecycleCalls);
      done || lia.
Qed.

Lemma array_count_to array t :
  match array with Some a => 0 <= fa_entry_count a | None => True end -> 0 <= t ->
  array_count array (count_to t) = count_to (t + match array with Some a => fa_entry_count a | None => 0 end).
Proof.
  intros Ha Ht. destruct array as [a|].
  - rewrite <- count_to_add by done. unfold array_count. by destruct (count_to t).
  - rewrite Z.add_0_r. unfold array_count. by destruct (count_to t).
Qed.

Lemma function_count_to function t :
  0 <= t -> function_count function (count_to t) = count_to (t + Z.of_nat (length (function_values function))).
Proof. intros Ht. rewrite <- count_to_add by lia. unfold function_count. by destruct function. Qed.

Lemma call_limit_eq l : counts_ok l -> call_limit l = count_to (total_calls l).
Proof.
  intros (H1 & H2 & H3)%counts_ok_iff. unfold call_limit, total_calls.
  change (Some 0) with (count_to 0). rewrite !array_count_to; try done.
  - rewrite !function_count_to; [done|..]; destruct (lm_preinit_array l), (lm_init_array l), (lm_fini_array l); lia.
  - destruct (lm_preinit_array l), (lm_init_array l); lia.
  - destruct (lm_preinit_array l); lia.
Qed.

Lemma planned_calls_eq m bias values : append_all values bias m [] = planned_calls m bias values.
Proof.
  rewrite append_all_eq. unfold planned_calls. destruct (mapM _ values); simpl; [|done]. by rewrite add_new_nil.
Qed.

(** The lists of a plan, or [None] if some part of it fails. *)
Definition reference_plan l m (bias : Z) : option ExecutableLifecyclePlan :=
  if total_calls l >? kMaximumLifecycleCalls then None
  else
    pre ← array_values m (lm_preinit_array l) false ≫= planned_calls m bias;
    init_values ← array_values m (lm_init_array l) false;
    init ← planned_calls m bias (function_values (lm_init_function l) ++ init_values);
    fini_values ← array_values m (lm_fini_array l) true;
    fini ← planned_calls m bias (fini_values ++ function_values (lm_fini_function l));
    Some (mkCallPlan pre init fini).

(** A failed stage has a failure status. *)
Lemma append_array_status n : forall cursor a backwards bias m c e,
  append_array_loop n cursor a backwards bias m c = inr e -> e.1 <> kLifecycleOk.
Proof.
  induction n as [|n IH]; intros cursor a backwards bias m c e; simpl; [done|].
  destruct (ReadAddress _ _ _); [|by intros [= <-]]. destruct (AppendFunction _ _ _ _); [apply IH|].
  by intros [= <-].
Qed.

Lemma AppendArray_status array backwards bias m c e :
  AppendArray array backwards bias m c = inr e -> e.1 <> kLifecycleOk.
Proof. unfold AppendArray. destruct array; [apply append_array_status|done]. Qed.

Lemma append_optional_status function bias m c e :
  append_optional function bias m c = inr e -> e.1 <> kLifecycleOk.
Proof.
  unfold append_optional. destruct function; [|done]. destruct (AppendFunction _ _ _ _); [done|].
  by intros [= <-].
Qed.

(** C31: the plan of start-up and shutdown calls is the declarative one: the
    preinitialisers are the array in order, the initialisers the init function
    and then the array in order, the finalisers the array backwards and then
    the fini function; null and all-ones entries are skipped, every other entry
    is the executable address it holds, or that plus the load bias, and appears
    once, at its first occurrence.  If the limit is exceeded, an array cannot
    be read or an entry cannot be called, the plan fails and is empty. *)
Theorem lifecycle_plan_equiv l m bias :
  counts_ok l ->
  let r := BuildLifecycleCallPlan l m bias in
  match reference_plan l m bias with
  | Some plan => r = mkPlanResult kLifecycleOk kNoCall 0 plan
  | None => pr_status r <> kLifecycleOk /\ pr_plan r = empty_plan
  end.
Proof.
  intros Hc. pose proof Hc as (H1 & H2 & H3)%counts_ok_iff.
  unfold reference_plan, BuildLifecycleCallPlan. rewrite call_limit_eq by done. unfold count_to.
  destruct (total_calls l >? kMaximumLifecycleCalls); [done|].
  change no_calls with (call_list_of []).
  pose proof (AppendArray_eq (lm_preinit_array l) false bias m [] H1) as E1.
  destruct (AppendArray (lm_preinit_array l) false bias m _) as [c1|e] eqn:A1; simpl in E1.
  2:{ destruct (array_values m (lm_preinit_array l) false) as [pv|]; simpl in *.
      - destruct (append_all pv bias m []) eqn:Ea; [done|]. rewrite planned_calls_eq in Ea. rewrite Ea.
        split; [by eapply AppendArray_status|done].
      - split; [by eapply AppendArray_status|done]. }
  destruct (array_values m (lm_preinit_array l) false) as [pv|]; [|done]. simpl in *.
  destruct (append_all pv bias m []) as [pre|] eqn:Ea; [|done]. injection E1 as ->.
  rewrite planned_calls_eq in Ea. rewrite Ea. simpl. clear A1 Ea.
  pose proof (append_optional_eq (lm_init_function l) bias m []) as E2.
  destruct (append_optional (lm_init_function l) bias m _) as [c2|e] eqn:A2; simpl in E2;
    destruct (append_all (function_values (lm_init_function l)) bias m []) as [i0|] eqn:Ei; try done.
  2:{ destruct (array_values m (lm_init_array l) false) as [iv|]; simpl.
      - rewrite <- planned_calls_eq, append_all_app, Ei. split; [by eapply append_optional_status|done].
      - split; [by eapply append_optional_status|done]. }
  injection E2 as ->. clear A2.
  pose proof (AppendArray_eq (lm_init_array l) false bias m i0 H2) as E3.
  destruct (AppendArray (lm_init_array l) false bias m _) as [c3|e] eqn:A3; simpl in E3.
  2:{ destruct (array_values m (lm_init_array l) false) as [iv|]; simpl in *.
      - rewrite <- planned_calls_eq, append_all_app, Ei. simpl.
        destruct (append_all iv bias m i0); [done|]. split; [by eapply AppendArray_status|done].
      - split; [by eapply AppendArray_status|done]. }
  destruct (array_values m (lm_init_array l) false) as [iv|]; [|done]. simpl in *.
  rewrite <- planned_calls_eq, append_all_app, Ei. simpl.
  destruct (append_all iv bias m i0) as [init|]; [|done]. injection E3 as ->. clear A3 Ei. simpl.
  pose proof (AppendArray_eq (lm_fini_array l) true bias m [] H3) as E4.
  destruct (AppendArray (lm_fini_array l) true bias m _) as [c4|e] eqn:A4; simpl in E4.
  2:{ destruct (array_values m (lm_fini_array l) true) as [fv|]; simpl in *.
      - rewrite <- planned_calls_eq, append_all_app. destruct (append_all fv bias m []); [done|].
        split; [by eapply AppendArray_status|done].
      - split; [by eapply AppendArray_status|done]. }
  destruct (array_values m (lm_fini_array l) true) as [fv|]; [|done]. simpl in *.
  rewrite <- planned_calls_eq, append_all_app.
  destruct (append_all fv bias m []) as [f0|]; [|done]. injection E4 as ->. clear A4. simpl.
  pose proof (append_optional_eq (lm_fini_function l) bias m f0) as E5.
  destruct (append_optional (lm_fini_function l) bias m _) as [c5|e] eqn:A5; simpl in E5;
    destruct (append_all (function_values (lm_fini_function l)) bias m f0) as [fini|]; try done.
  - by injection E5 as ->.
  - split; [by eapply append_optional_status|done].
Qed.

(** ** Launch metadata *)

Definition header_u64 h : Prop := is_u64 (ph_virtual_address h) /\ is_u64 (ph_memory_size h).

(** [size] bytes at [address] lie inside a loaded segment. *)
Definition loaded (metadata : ElfMetadata) (address size : Z) (executable : bool) : Prop :=
  exists h, h ∈ em_program_headers metadata /\ ph_type h = kProgramTypeLoad /\
    ph_virtual_address h <= address /\ address + size <= ph_virtual_address h + ph_memory_size h /\
    (executable = true -> Z.testbit (ph_flags h) 0 = true).

Lemma execute_flag f : negb (Z.land f kProgramFlagExecute =? 0) = Z.testbit f 0.
Proof.
  unfold kProgramFlagExecute. change 1 with (Z.ones 1). rewrite Z.land_ones by lia.
  change (2 ^ 1) with 2. rewrite Z.bit0_odd, Zmod_odd. by destruct (Z.odd f).
Qed.

Lemma RangeWithinLoad_spec metadata address size x :
  Forall header_u64 (em_program_headers metadata) -> is_u64 address -> 0 <= size ->
  RangeWithinLoad metadata address size x = true <-> loaded metadata address size x.
Proof.
  intros Hh Ha Hs. unfold RangeWithinLoad, loaded. rewrite existsb_exists. rewrite Forall_forall in Hh.
  split.
  - intros (h & Hin & Hc). apply list_elem_of_In in Hin. destruct (Hh h Hin) as [Hv Hm].
    exists h. split; [done|]. revert Hc. unfold header_covers.
    destruct (_ || _) eqn:E1; [done|]. apply orb_false_iff in E1 as [E1%negb_false_iff E2].
    rewrite sub64_small by u64_lia. destruct (_ >? _) eqn:E3; [done|]. simpl.
    rewrite sub64_small by u64_lia. destruct (size >? _) eqn:E4; [done|].
    rewrite execute_flag. intros Hx. split_and!; [lia|lia|lia|]. by intros ->.
  - intros (h & Hin & Ht & H1 & H2 & Hx). exists h. split; [by apply list_elem_of_In|].
    destruct (Hh h Hin) as [Hv Hm]. unfold header_covers. rewrite Ht, Z.eqb_refl. simpl.
    replace (address <? _) with false by lia. rewrite !sub64_small by u64_lia.
    replace (_ >? ph_memory_size h) with false by lia. simpl. replace (size >? _) with false by lia.
    rewrite execute_flag. destruct x; [by apply Hx|done].
Qed.

Lemma AddAddress_spec a bias :
  is_u64 a -> is_u64 bias ->
  AddAddress a bias = if a + bias >? u64_max then None else Some (a + bias).
Proof.
  intros Ha Hb. unfold AddAddress. replace (a >? u64_max - bias) with (a + bias >? u64_max) by lia.
  destruct (_ >? _) eqn:E; [done|]. by rewrite add64_small by u64_lia.
Qed.

(** The fields the analysis relies on are 64-bit values. *)
Record metadata_u64 (metadata : ElfMetadata) : Prop := {
  mu_headers : Forall header_u64 (em_program_headers metadata);
  mu_sizes : Forall (fun h => is_u64 (ph_file_size h)) (em_program_headers metadata);
  mu_entry : is_u64 (em_entry_point metadata);
  mu_functions : Forall is_u64 (option_list (di_init_function (em_dynamic_info metadata)) ++
                                option_list (di_fini_function (em_dynamic_info metadata)));
  mu_arrays : let i := em_dynamic_info metadata in Forall is_u64
    (option_list (di_preinit_array_address i) ++ option_list (di_preinit_array_size i) ++
     option_list (di_init_array_address i) ++ option_list (di_init_array_size i) ++
     option_list (di_fini_array_address i) ++ option_list (di_fini_array_size i))
}.

(** A function that is absent or null is not called; any other lies in an
    executable segment and is biased without overflow. *)
Definition function_launched (metadata : ElfMetadata) (bias : Z) (source : option Z) (result : option Z) : Prop :=
  match result with
  | None => default 0 source = 0
  | Some a => exists v, source = Some v /\ v <> 0 /\ a = v + bias /\ a <= u64_max /\ loaded metadata v 1 true
  end.

(** An array is absent or lies in a segment; its biased window does not wrap. *)
Definition array_launched (metadata : ElfMetadata) (bias : Z) (address size : option Z)
    (result : option ExecutableFunctionArrayMetadata) : Prop :=
  match result with
  | None => default 0 address = 0 /\ default 0 size = 0
  | Some a => exists v n, address = Some v /\ size = Some n /\ v <> 0 /\ n <> 0 /\
      fa_address a = v + bias /\ n = 8 * fa_entry_count a /\
      fa_address a + 8 * fa_entry_count a <= u64_max /\ loaded metadata v n false
  end.

Lemma resolve_function_spec metadata bias source st r bad :
  Forall header_u64 (em_program_headers metadata) -> Forall is_u64 (option_list source) -> is_u64 bias ->
  bad <> kLaunchOk ->
  resolve_function metadata bias source bad = (st, r) -> st = kLaunchOk ->
  function_launched metadata bias source r.
Proof.
  intros Hh Hs Hb Hbad E ->. revert E. unfold resolve_function, function_launched.
  destruct source as [v|]; simpl in *; [|by intros [= <-]].
  rewrite Forall_singleton in Hs. destruct (v =? 0) eqn:E0; [intros [= <-]; lia|].
  destruct (RangeWithinLoad metadata v 1 true) eqn:El; simpl; [|congruence].
  apply RangeWithinLoad_spec in El; [|done|done|lia]. rewrite AddAddress_spec by done.
  destruct (_ >? _) eqn:Eo; [done|]. intros [= <-]. exists v. split_and!; [done|lia|done|lia|done].
Qed.

Lemma resolve_array_spec metadata bias address size st r bad :
  Forall header_u64 (em_program_headers metadata) -> Forall is_u64 (option_list address) ->
  Forall is_u64 (option_list size) -> is_u64 bias -> bad <> kLaunchOk ->
  resolve_array metadata bias address size bad = (st, r) -> st = kLaunchOk ->
  array_launched metadata bias address size r.
Proof.
  intros Hh Ha Hs Hb Hbad E ->. revert E. unfold resolve_array, array_launched.
  destruct (_ || _) eqn:E0.
  { destruct (_ && _) eqn:E1; [|congruence]. intros [= <-]. lia. }
  destruct address as [v|], size as [n|]; simpl in *; try lia.
  rewrite Forall_singleton in Ha, Hs.
  destruct (n mod 8 =? 0) eqn:E8; simpl; [|done].
  destruct (RangeWithinLoad metadata v n false) eqn:El; simpl; [|done].
  apply RangeWithinLoad_spec in El; [|done|done|u64_lia]. rewrite AddAddress_spec by done.
  destruct (_ >? u64_max) eqn:Eo; [done|]. destruct (n >? _) eqn:Ew; [done|]. intros [= <-].
  pose proof (Z.div_mod n 8 ltac:(lia)). exists v, n. simpl. split_and!; try done; lia.
Qed.

(** Running the parts in turn: success means every part succeeded. *)
Lemma launch_then_ok r next :
  lr_status (launch_then r next) = kLaunchOk ->
  lr_status r = kLaunchOk /\ launch_then r next = next (lr_metadata r) /\
  lr_status (next (lr_metadata r)) = kLaunchOk.
Proof. unfold launch_then. case_bool_decide as Hd; [done|]. by intros ?. Qed.

Lemma special_segments_spec headers : forall p t,
  let '(st, p', t') := special_segments headers p t in
  st = kLaunchOk ->
  option_list p ++ filter (fun h => ph_type h = kProgramTypeSceProcessParameters) headers = option_list p' /\
  option_list t ++ filter (fun h => ph_type h = kProgramTypeTls) headers = option_list t'.
Proof.
  induction headers as [|h headers IH]; intros p t; simpl; [by rewrite !app_nil_r|].
  rewrite !filter_cons.
  destruct (ph_type h =? kProgramTypeSceProcessParameters) eqn:Ep.
  - apply Z.eqb_eq in Ep. rewrite decide_True by done. destruct p as [p|]; [done|].
    rewrite Ep. replace (kProgramTypeSceProcessParameters =? kProgramTypeTls) with false by done.
    rewrite decide_False by done. specialize (IH (Some h) t).
    destruct (special_segments headers (Some h) t) as [[st p'] t']. exact IH.
  - apply Z.eqb_neq in Ep. rewrite decide_False by done.
    assert (Eno : forall A (x y : A), match false with true => x | false => y end = y) by done.
    destruct (ph_type h =? kProgramTypeTls) eqn:Et.
    + apply Z.eqb_eq in Et. rewrite decide_True by done.
      destruct t as [t|]; [by destruct p|]. specialize (IH p (Some h)).
      destruct p; destruct (special_segments headers _ (Some h)) as [[st p'] t']; exact IH.
    + apply Z.eqb_neq in Et. rewrite decide_False by done. specialize (IH p t).
      destruct p, t; destruct (special_segments headers _ _) as [[st p'] t']; exact IH.
Qed.

(** ** The parts of the analysis *)

Section parts.
Context (metadata : ElfMetadata) (bias : Z).
Context (Hm : metadata_u64 metadata) (Hb : is_u64 bias).

Definition parameters_launched (p : option ElfProgramHeader) (r : option Z) : Prop :=
  match p with
  | None => r = None
  | Some h => exists a, r = Some a /\ a = ph_virtual_address h + bias /\ a <= u64_max /\
      loaded metadata (ph_virtual_address h) (Z.max (ph_memory_size h) 1) false
  end.

Definition tls_launched (p : option ElfProgramHeader) (r : option ExecutableTlsMetadata) : Prop :=
  match p with
  | None => r = None
  | Some h =>
      if ph_memory_size h =? 0 then r = None
      else exists t, r = Some t /\ tm_image_address t = ph_virtual_address h + bias /\
        tm_image_address t <= u64_max /\ tm_memory_size t = ph_memory_size h /\ tm_alignment t = ph_alignment h /\
        tm_initial_size t = Z.min (ph_file_size h) (ph_memory_size h) /\
        (tm_initial_size t <> 0 -> loaded metadata (ph_virtual_address h) (tm_initial_size t) false)
  end.

Lemma analyze_entry_ok l :
  lm_entry_point l = None -> lr_status (analyze_entry metadata bias l) = kLaunchOk ->
  exists r, lr_metadata (analyze_entry metadata bias l) = {| l with lm_entry_point := r |} /\
    function_launched metadata bias (Some (em_entry_point metadata)) r.
Proof.
  intros Hl. destruct Hm as [Hh _ He _ _]. unfold analyze_entry, function_launched.
  destruct (_ =? 0) eqn:E0.
  { intros _. exists None. split; [by destruct l; simpl in *; subst|simpl; lia]. }
  destruct (RangeWithinLoad metadata _ 1 false); [|done]. simpl.
  destruct (RangeWithinLoad metadata _ 1 true) eqn:El; [|done]. simpl.
  apply RangeWithinLoad_spec in El; [|done|done|lia]. rewrite AddAddress_spec by done.
  destruct (_ >? u64_max) eqn:Eo; [done|]. intros _. eexists. split; [done|].
  exists (em_entry_point metadata). split_and!; [done|lia|done|lia|done].
Qed.

Lemma analyze_parameters_ok p l :
  (forall h, p = Some h -> h ∈ em_program_headers metadata) -> lm_process_parameters l = None ->
  lr_status (analyze_parameters metadata bias p l) = kLaunchOk ->
  exists r, lr_metadata (analyze_parameters metadata bias p l) = {| l with lm_process_parameters := r |} /\
    parameters_launched p r.
Proof.
  intros Hp Hl. destruct Hm as [Hh _ _ _ _]. unfold analyze_parameters, parameters_launched.
  destruct p as [h|]; [|intros _; exists None; split; [by destruct l; simpl in *; subst|done]].
  specialize (Hp h eq_refl). pose proof Hh as Hh'. rewrite Forall_forall in Hh'. destruct (Hh' h Hp) as [Hv Hs].
  destruct (RangeWithinLoad metadata _ _ false) eqn:El; [|done]. simpl.
  apply RangeWithinLoad_spec in El; [|done|done|lia]. rewrite AddAddress_spec by done.
  destruct (_ >? u64_max) eqn:Eo; [done|]. intros _. eexists. split; [done|].
  eexists. split_and!; [done|done|lia|done].
Qed.

Lemma analyze_tls_ok p l :
  (forall h, p = Some h -> h ∈ em_program_headers metadata) -> lm_tls l = None ->
  lr_status (analyze_tls metadata bias p l) = kLaunchOk ->
  exists r, lr_metadata (analyze_tls metadata bias p l) = {| l with lm_tls := r |} /\ tls_launched p r.
Proof.
  intros Hp Hl. destruct Hm as [Hh Hf _ _ _]. unfold analyze_tls, tls_launched.
  assert (Hno : {| l with lm_tls := None |} = l) by (by destruct l; simpl in *; subst).
  destruct p as [h|]; [|by intros _; exists None].
  specialize (Hp h eq_refl). pose proof Hh as Hh'. rewrite Forall_forall in Hh', Hf.
  destruct (Hh' h Hp) as [Hv Hs]. specialize (Hf h Hp). simpl in Hf.
  destruct (ph_memory_size h =? 0) eqn:E0; [by intros _; exists None|]. cbv zeta.
  destruct (negb (_ =? 0) && _) eqn:El; [done|]. rewrite AddAddress_spec by done.
  destruct (_ >? u64_max) eqn:Eo; [done|]. intros _. eexists. split; [done|].
  eexists. split; [done|]. simpl. split_and!; try done; [lia|]. intros Hne.
  rewrite (proj2 (Z.eqb_neq _ _) Hne) in El. simpl in El. apply negb_false_iff in El.
  apply RangeWithinLoad_spec in El; [done|done|done|u64_lia].
Qed.

Lemma analyze_functions_ok l :
  lr_status (analyze_functions metadata bias l) = kLaunchOk ->
  exists i f, lr_metadata (analyze_functions metadata bias l) =
      {| l with lm_init_function := i; lm_fini_function := f |} /\
    function_launched metadata bias (di_init_function (em_dynamic_info metadata)) i /\
    function_launched metadata bias (di_fini_function (em_dynamic_info metadata)) f.
Proof.
  destruct Hm as [Hh _ _ [Hi Hf]%Forall_app _]. unfold analyze_functions. cbv zeta.
  destruct (resolve_function metadata bias (di_init_function _) _) as [st i] eqn:Ei.
  intros (Hs & -> & H2)%launch_then_ok. simpl in *.
  destruct (resolve_function metadata bias (di_fini_function _) _) as [st' f] eqn:Ef. simpl in *.
  exists i, f. split_and!; [done| |].
  - by refine (resolve_function_spec _ _ _ _ _ _ Hh Hi Hb _ Ei Hs).
  - by refine (resolve_function_spec _ _ _ _ _ _ Hh Hf Hb _ Ef H2).
Qed.

Lemma analyze_arrays_ok l :
  lr_status (analyze_arrays metadata bias l) = kLaunchOk ->
  let info := em_dynamic_info metadata in
  exists p i f, lr_metadata (analyze_arrays metadata bias l) =
      {| l with lm_preinit_array := p; lm_init_array := i; lm_fini_array := f |} /\
    array_launched metadata bias (di_preinit_array_address info) (di_preinit_array_size info) p /\
    array_launched metadata bias (di_init_array_address info) (di_init_array_size info) i /\
    array_launched metadata bias (di_fini_array_address info) (di_fini_array_size info) f.
Proof.
  destruct Hm as [Hh _ _ _ Ha]. simpl in Ha. rewrite !Forall_app in Ha.
  destruct Ha as (A1 & A2 & A3 & A4 & A5 & A6). unfold analyze_arrays. cbv zeta.
  destruct (resolve_array metadata bias (di_preinit_array_address _) _ _) as [st p] eqn:E1.
  intros (Hs1 & -> & H2)%launch_then_ok. simpl in *.
  destruct (resolve_array metadata bias (di_init_array_address _) _ _) as [st2 i] eqn:E2.
  apply launch_then_ok in H2 as (Hs2 & -> & H3). simpl in *.
  destruct (resolve_array metadata bias (di_fini_array_address _) _ _) as [st3 f] eqn:E3. simpl in *.
  exists p, i, f. split_and!; [done| | |].
  - by refine (resolve_array_spec _ _ _ _ _ _ _ Hh A1 A2 Hb _ E1 Hs1).
  - by refine (resolve_array_spec _ _ _ _ _ _ _ Hh A3 A4 Hb _ E2 Hs2).
  - by refine (resolve_array_spec _ _ _ _ _ _ _ Hh A5 A6 Hb _ E3 H3).
Qed.
End parts.

(** Launch metadata is sound: when the analysis succeeds, the entry point and
    the init and fini functions lie in executable segments, the parameter
    block, the TLS image and the function arrays in loaded segments, at most
    one parameter and one TLS segment exists, the array sizes are whole numbers
    of pointers, and every reported address is the image address plus the load
    bias, computed without overflow, as is the end of every array. *)
Theorem launch_metadata_sound metadata bias :
  metadata_u64 metadata -> is_u64 bias ->
  lr_status (AnalyzeLaunchMetadata metadata bias) = kLaunchOk ->
  let l := lr_metadata (AnalyzeLaunchMetadata metadata bias) in
  let info := em_dynamic_info metadata in
  let of_type t := filter (fun h => ph_type h = t) (em_program_headers metadata) in
  function_launched metadata bias (Some (em_entry_point metadata)) (lm_entry_point l) /\
  (match of_type kProgramTypeSceProcessParameters with
   | [] => lm_process_parameters l = None
   | [h] => exists a, lm_process_parameters l = Some a /\ a = ph_virtual_address h + bias /\ a <= u64_max /\
       loaded metadata (ph_virtual_address h) (Z.max (ph_memory_size h) 1) false
   | _ => False
   end) /\
  (match of_type kProgramTypeTls with
   | [] => lm_tls l = None
   | [h] =>
       if ph_memory_size h =? 0 then lm_tls l = None
       else exists t, lm_tls l = Some t /\ tm_image_address t = ph_virtual_address h + bias /\
         tm_image_address t <= u64_max /\ tm_memory_size t = ph_memory_size h /\ tm_alignment t = ph_alignment h /\
         tm_initial_size t = Z.min (ph_file_size h) (ph_memory_size h) /\
         (tm_initial_size t <> 0 -> loaded metadata (ph_virtual_address h) (tm_initial_size t) false)
   | _ => False
   end) /\
  function_launched metadata bias (di_init_function info) (lm_init_function l) /\
  function_launched metadata bias (di_fini_function info) (lm_fini_function l) /\
  array_launched metadata bias (di_preinit_array_address info) (di_preinit_array_size info) (lm_preinit_array l) /\
  array_launched metadata bias (di_init_array_address info) (di_init_array_size info) (lm_init_array l) /\
  array_launched metadata bias (di_fini_array_address info) (di_fini_array_size info) (lm_fini_array l).
Proof.
  intros Hm Hb. unfold AnalyzeLaunchMetadata.
  intros (S1 & -> & H1)%launch_then_ok.
  destruct (analyze_entry_ok metadata bias Hm Hb ExecutableLaunchMetadata_default eq_refl S1) as (entry & E1 & Hentry).
  rewrite E1 in *. clear E1 S1.
  pose proof (special_segments_spec (em_program_headers metadata) None None) as Hseg.
  destruct (special_segments _ None None) as [[st p] t].
  apply launch_then_ok in H1 as (S2 & -> & H2). cbn [lr_status lr_metadata] in *.
  specialize (Hseg S2). simpl in Hseg. destruct Hseg as [Hp Ht].
  assert (Hin : forall x ty h, filter (fun h => ph_type h = ty) (em_program_headers metadata) = option_list x ->
            x = Some h -> h ∈ em_program_headers metadata).
  { intros x ty h Hx ->. assert (Hh : h ∈ option_list (Some h)) by constructor.
    rewrite <- Hx in Hh. by apply list_elem_of_filter in Hh as [_ ?]. }
  apply launch_then_ok in H2 as (S3 & E & H3). rewrite E. clear E.
  edestruct (analyze_parameters_ok metadata bias Hm Hb p) as (pr & E & Hpr);
    [by intros h; apply (Hin _ _ h Hp)| |exact S3|]; [reflexivity|].
  rewrite E in *. clear E S3.
  apply launch_then_ok in H3 as (S4 & E & H4). rewrite E. clear E.
  edestruct (analyze_tls_ok metadata bias Hm Hb t) as (tr & E & Htr);
    [by intros h; apply (Hin _ _ h Ht)| |exact S4|]; [reflexivity|].
  rewrite E in *. clear E S4.
  apply launch_then_ok in H4 as (S5 & E & H5). rewrite E. clear E.
  destruct (analyze_functions_ok metadata bias Hm Hb _ S5) as (i & f & E & Hi & Hf). rewrite E in *. clear E S5.
  destruct (analyze_arrays_ok metadata bias Hm Hb _ H5) as (a1 & a2 & a3 & E & Ha1 & Ha2 & Ha3).
  rewrite E. cbn zeta. simpl. rewrite Hp, Ht.
  split_and!; try done; [by destruct p|by destruct t].
Qed.
