(* ===== verification/StaticTls.v ===== *)
(** The layout of static thread-local storage
    ([src/loader/static_tls_layout.cpp]): each module's block ends a fixed
    distance below the thread pointer.  The blocks are registered in order of
    module id and packed downwards. *)
From S2P Require Import Prelude Ranges OrderedMap.

Definition kDefaultStaticTlsReservation : Z := 0x20000.

Inductive StaticTlsLayoutStatus :=
| kTlsOk | kInvalidModuleId | kInvalidMemorySize | kInvalidAlignment | kLayoutOverflow
| kReservationExceeded | kModuleOrderInvalid | kModuleConflict.

Record StaticTlsModule := mkTlsModule {
  ts_module_id : Z;
  ts_memory_size : Z;
  ts_alignment : Z;
  ts_alignment_bias : Z;
  ts_static_offset : Z
}.
Definition StaticTlsModule_default : StaticTlsModule := mkTlsModule 0 0 1 0 0.

Record StaticTlsLayout := mkTlsLayout {
  reservation_ : Z;
  total_size_ : Z;
  maximum_alignment_ : Z;
  tls_modules_ : list (Z * StaticTlsModule)
}.

Definition StaticTlsLayout_init (reservation : Z) : StaticTlsLayout := mkTlsLayout reservation 0 1 [].

Implicit Types (t : StaticTlsLayout) (x : StaticTlsModule).

Definition FindModule (module_id : Z) t : option StaticTlsModule := om_find module_id (tls_modules_ t).

Definition module_count t : nat := length (tls_modules_ t).

Definition RegisterModule (module_id memory_size alignment alignment_bias : Z) t
    : StaticTlsLayout * (StaticTlsLayoutStatus * StaticTlsModule) :=
  let fail status := (t, (status, StaticTlsModule_default)) in
  if module_id =? 0 then fail kInvalidModuleId
  else if memory_size =? 0 then fail kInvalidMemorySize
  else
    let normalized := if alignment =? 0 then 1 else alignment in
    if negb (Z.land normalized (normalized - 1)%u64 =? 0) then fail kInvalidAlignment
    else
      let bias := Z.land alignment_bias (normalized - 1)%u64 in
      match FindModule module_id t with
      | Some x =>
          if negb (ts_memory_size x =? memory_size) || negb (ts_alignment x =? normalized)
             || negb (ts_alignment_bias x =? bias)
          then (t, (kModuleConflict, x)) else (t, (kTlsOk, x))
      | None =>
          if match last (tls_modules_ t) with Some e => module_id <=? e.1 | None => false end
          then fail kModuleOrderInvalid
          else if (memory_size >? u64_max - total_size_ t)
                  || ((normalized - 1)%u64 >? ((u64_max - total_size_ t) - memory_size))
          then fail kLayoutOverflow
          else
            let candidate := (total_size_ t + memory_size + normalized - 1)%u64 in
            let remainder :=
              Z.land (Z.land candidate (normalized - 1)%u64 + bias)%u64 (normalized - 1)%u64 in
            let static_offset := (candidate - remainder)%u64 in
            if static_offset >? reservation_ t then fail kReservationExceeded
            else
              let x := mkTlsModule module_id memory_size normalized bias static_offset in
              (mkTlsLayout (reservation_ t) static_offset (Z.max (maximum_alignment_ t) normalized)
                 (om_emplace module_id x (tls_modules_ t)), (kTlsOk, x))
      end.

(** ** Blocks *)

(** The distance below the thread pointer at which the block of [x] starts and
    ends: it occupies [[tp - static_offset, tp - static_offset + memory_size)]. *)
Definition block_end x : Z := ts_static_offset x - ts_memory_size x.

Record module_ok x : Prop := {
  mo_size : 1 <= ts_memory_size x;
  mo_alignment : exists k, 0 <= k < 64 /\ ts_alignment x = 2 ^ k;
  mo_bias : 0 <= ts_alignment_bias x < ts_alignment x;
  mo_aligned : (ts_static_offset x + ts_alignment_bias x) mod ts_alignment x = 0;
  mo_below : 0 <= block_end x
}.

(** The entries in order: ids increase, and each block starts at or below the
    end of the one before. *)
Fixpoint packed (low : Z) (ms : list (Z * StaticTlsModule)) : Prop :=
  match ms with
  | [] => True
  | e :: rest => low <= block_end e.2 /\ packed (ts_static_offset e.2) rest
  end.

Record layout_ok t : Prop := {
  lo_sorted : om_sorted (tls_modules_ t);
  lo_modules : Forall (fun e => e.1 = ts_module_id e.2 /\ 1 <= e.1 /\ module_ok e.2) (tls_modules_ t);
  lo_packed : packed 0 (tls_modules_ t);
  lo_total : total_size_ t = from_option (fun e => ts_static_offset e.2) 0 (last (tls_modules_ t));
  lo_reservation : 0 <= total_size_ t <= reservation_ t;
  lo_u64 : is_u64 (reservation_ t);
  lo_maximum : (exists k, 0 <= k < 64 /\ maximum_alignment_ t = 2 ^ k) /\
    Forall (fun e => ts_alignment e.2 <= maximum_alignment_ t) (tls_modules_ t)
}.

Lemma StaticTlsLayout_init_ok r : is_u64 r -> layout_ok (StaticTlsLayout_init r).
Proof.
  intros Hr. split; simpl; try done; try u64_lia; [constructor|].
  split; [by exists 0|done].
Qed.

Lemma land_pred v k : 0 <= k -> Z.land v (2 ^ k - 1) = v mod 2 ^ k.
Proof. intros Hk. rewrite Z.sub_1_r, <- Z.ones_equiv. by apply Z.land_ones. Qed.

Lemma mod_sum_zero c b a : 0 < a -> (c - (c mod a + b) mod a + b) mod a = 0.
Proof.
  intros Ha. rewrite Zplus_mod_idemp_l.
  replace (c - (c + b) mod a + b) with ((c + b) - (c + b) mod a) by lia.
  rewrite (Z.div_mod (c + b) a) at 1 by lia.
  replace (a * ((c + b) / a) + (c + b) mod a - (c + b) mod a) with ((c + b) / a * a) by lia.
  apply Z.mod_mul. lia.
Qed.

(** The offset computed for a block of [size] bytes behind [total]: the least one
    that leaves room for the block and has the required residue. *)
Lemma static_offset_spec total size bias k :
  0 <= k < 64 -> 0 <= total -> 1 <= size -> 0 <= bias < 2 ^ k -> total + size + (2 ^ k - 1) <= u64_max ->
  let candidate := (total + size + 2 ^ k - 1)%u64 in
  let offset := (candidate - Z.land (Z.land candidate (2 ^ k - 1)%u64 + bias)%u64 (2 ^ k - 1)%u64)%u64 in
  total + size <= offset <= u64_max /\ (offset + bias) mod 2 ^ k = 0 /\
  forall o, total + size <= o -> (o + bias) mod 2 ^ k = 0 -> offset <= o.
Proof.
  intros Hk Ht Hs Hb Hle. pose proof (Z.pow_pos_nonneg 2 k ltac:(lia) ltac:(lia)) as Hp.
  assert (Hmax : 2 ^ k <= 2 ^ 63) by (apply Z.pow_le_mono_r; lia).
  change (2 ^ 63) with 9223372036854775808 in Hmax. cbv zeta.
  assert (Hc : (total + size + 2 ^ k - 1)%u64 = total + size + (2 ^ k - 1)).
  { rewrite sub64_small by u64_lia. lia. }
  rewrite Hc. set (c := total + size + (2 ^ k - 1)) in *. rewrite (sub64_small (2 ^ k) 1) by u64_lia.
  rewrite !land_pred by lia.
  pose proof (Z.mod_pos_bound c (2 ^ k) Hp). rewrite add64_small by u64_lia.
  pose proof (Z.mod_pos_bound (c mod 2 ^ k + bias) (2 ^ k) Hp).
  rewrite sub64_small by (unfold c in *; u64_lia).
  assert (Hres : (c - (c mod 2 ^ k + bias) mod 2 ^ k + bias) mod 2 ^ k = 0) by (apply mod_sum_zero; lia).
  split_and!; [unfold c in *; lia|unfold c in *; u64_lia|done|].
  intros o Ho Hmod. set (off := c - (c mod 2 ^ k + bias) mod 2 ^ k) in *.
  destruct (Z.le_gt_cases off o) as [|Hlt]; [done|exfalso].
  assert (Hd : (off - o) mod 2 ^ k = 0).
  { replace (off - o) with ((off + bias) - (o + bias)) by lia. rewrite Zminus_mod, Hres, Hmod. apply Z.mod_0_l. lia. }
  rewrite Z.mod_small in Hd by (unfold off, c in *; lia). lia.
Qed.

(** ** Registration *)

Lemma packed_snoc low ms e :
  packed low (ms ++ [e]) <->
  packed low ms /\ from_option (fun e => ts_static_offset e.2) low (last ms) <= block_end e.2.
Proof.
  revert low. induction ms as [|x ms IH]; intros low; simpl; [tauto|].
  rewrite IH. destruct ms as [|y ms]; simpl; [tauto|].
  replace (from_option (fun e => ts_static_offset e.2) (ts_static_offset x.2) (last (y :: ms)))
    with (from_option (fun e => ts_static_offset e.2) low (last (y :: ms))); [tauto|].
  destruct (last (y :: ms)) eqn:E; [done|]. by apply last_None in E.
Qed.

(** Appending behind the last key. *)
Lemma om_emplace_last {V} k (v : V) m :
  om_sorted m -> match last m with Some e => e.1 < k | None => True end ->
  om_emplace k v m = m ++ [(k, v)].
Proof.
  intros Hs Hl. assert (Hall : forall e, e ∈ m -> e.1 < k).
  { revert Hs Hl. induction m as [|x m IH]; [by intros _ _ e ?%elem_of_nil|].
    intros [Hs Hlt]%om_sorted_cons Hl e [->|He]%elem_of_cons.
    - destruct m as [|y m]; [done|]. assert (Hy : x.1 < y.1) by (apply Hlt; constructor).
      assert (y.1 < k); [|lia]. apply IH; [done|done|constructor].
    - destruct m as [|y m]; [by apply elem_of_nil in He|]. by apply IH. }
  unfold om_emplace. assert (Hn : om_find k m = None).
  { apply om_find_None. intros e He. specialize (Hall e He). lia. }
  rewrite Hn. assert (Hsp : split_while (fun e => e.1 <? k) m = (m, [])).
  { clear Hn Hl Hs. induction m as [|x m IH]; [done|]. simpl.
    assert (Hx : (x.1 <? k) = true) by (specialize (Hall x ltac:(constructor)); lia). rewrite Hx.
    rewrite IH; [done|]. intros e He. apply Hall. by right. }
  by rewrite Hsp.
Qed.

(** What a registration of a new module promises. *)
Definition tls_registered t (module_id memory_size alignment bias : Z) x : Prop :=
  ts_module_id x = module_id /\ ts_memory_size x = memory_size /\
  ts_alignment x = Z.max 1 alignment /\ ts_alignment_bias x = bias mod Z.max 1 alignment /\
  total_size_ t <= block_end x /\ (ts_static_offset x + bias) mod Z.max 1 alignment = 0 /\
  forall o, total_size_ t + memory_size <= o -> (o + bias) mod Z.max 1 alignment = 0 -> ts_static_offset x <= o.

Lemma RegisterModule_cases id size alignment bias t :
  layout_ok t -> is_u64 id -> is_u64 size -> is_u64 alignment -> is_u64 bias ->
  let '(t', (status, x)) := RegisterModule id size alignment bias t in
  (t' = t /\ (status <> kTlsOk \/ FindModule id t = Some x)) \/
  (status = kTlsOk /\ FindModule id t = None /\ tls_registered t id size alignment bias x /\
   module_ok x /\ 1 <= id /\ ts_static_offset x <= reservation_ t /\
   match last (tls_modules_ t) with Some e => e.1 < id | None => True end /\
   t' = mkTlsLayout (reservation_ t) (ts_static_offset x) (Z.max (maximum_alignment_ t) (ts_alignment x))
          (tls_modules_ t ++ [(id, x)])).
Proof.
  intros Ht Hid Hsz Hal Hbi. unfold RegisterModule. cbv zeta.
  destruct (id =? 0) eqn:E0; [left; by split; [|left]|].
  destruct (size =? 0) eqn:E1; [left; by split; [|left]|].
  set (a := if alignment =? 0 then 1 else alignment).
  assert (Ha : a = Z.max 1 alignment) by (unfold a; destruct (alignment =? 0) eqn:E; u64_lia).
  assert (Hau : 1 <= a <= u64_max) by u64_lia.
  destruct (negb _) eqn:E2; [left; by split; [|left]|]. apply negb_false_iff in E2.
  assert (Hk : exists k, 0 <= k < 64 /\ a = 2 ^ k).
  { rewrite sub64_small in E2 by u64_lia. apply Z.eqb_eq in E2. exists (Z.log2 a).
    pose proof (Z.log2_nonneg a). split; [|by apply land_pred_pow2; [lia|]]. split; [done|].
    apply Z.log2_lt_pow2; [lia|]. u64_lia. }
  destruct Hk as (k & Hk & Hak). rewrite (sub64_small a 1) by u64_lia.
  destruct (FindModule id t) as [x|] eqn:Ef.
  { destruct (_ || _); left; (split; [done|]); [by left|by right]. }
  destruct (match last (tls_modules_ t) with Some e => id <=? e.1 | None => false end) eqn:E3;
    [left; by split; [|left]|].
  assert (Hlast : match last (tls_modules_ t) with Some e => e.1 < id | None => True end).
  { destruct (last (tls_modules_ t)); [lia|done]. }
  destruct (_ || _) eqn:E4; [left; by split; [|left]|].
  pose proof (lo_reservation _ Ht) as Hres. pose proof (lo_u64 _ Ht) as Hru.
  assert (Hroom : total_size_ t + size + (a - 1) <= u64_max) by u64_lia.
  rewrite Hak, !land_pred by lia. pose proof (Z.pow_pos_nonneg 2 k ltac:(lia) ltac:(lia)) as Hp.
  pose proof (static_offset_spec (total_size_ t) size (bias mod 2 ^ k) k Hk ltac:(lia) ltac:(u64_lia)
    (Z.mod_pos_bound bias _ Hp) ltac:(lia)) as Hoff. cbv zeta in Hoff.
  rewrite (sub64_small (2 ^ k) 1) in Hoff by u64_lia.
  rewrite !land_pred in Hoff by lia.
  match goal with |- context [?o >? reservation_ t] => set (off := o) in * end. destruct Hoff as (Hlo & Hmod & Hleast).
  destruct (off >? reservation_ t) eqn:E5; [left; by split; [|left]|right].
  assert (Hidem : forall o, (o + bias mod 2 ^ k) mod 2 ^ k = (o + bias) mod 2 ^ k)
    by (intros o; apply Zplus_mod_idemp_r).
  assert (Hm : Z.max 1 alignment = 2 ^ k) by lia.
  split_and!; try done; try u64_lia.
  - unfold tls_registered, block_end. simpl. rewrite Hm. split_and!; try done; [lia|by rewrite <- Hidem|].
    intros o Ho Hmo. apply Hleast; [done|]. by rewrite Hidem.
  - split; simpl; [u64_lia|by exists k|by apply Z.mod_pos_bound|done|unfold block_end; simpl; lia].
  - simpl. lia.
  - f_equal. apply om_emplace_last; [apply Ht|done].
Qed.

Lemma RegisterModule_ok id size alignment bias t :
  is_u64 id -> is_u64 size -> is_u64 alignment -> is_u64 bias ->
  layout_ok t -> layout_ok (RegisterModule id size alignment bias t).1.
Proof.
  intros Hid Hsz Hal Hbi Ht. pose proof (RegisterModule_cases id size alignment bias t Ht Hid Hsz Hal Hbi) as Hc.
  destruct (RegisterModule id size alignment bias t) as [t' [status x]]. simpl.
  destruct Hc as [[-> _]|(_ & _ & Hreg & Hx & Hid1 & Hr & Hlast & ->)]; [done|].
  destruct Hreg as (Hmid & Hms & _ & _ & Hbe & _). destruct Ht as [Hs Hm Hp Htot Hres Hu [Hmax Hall]].
  split; simpl; try done.
  - rewrite <- om_emplace_last with (v := x) by done. by apply om_emplace_sorted.
  - apply Forall_app. split; [done|]. apply Forall_singleton. by split_and!.
  - apply packed_snoc. split; [done|]. by rewrite <- Htot.
  - by rewrite last_snoc.
  - unfold block_end in Hbe. pose proof (mo_size _ Hx). lia.
  - destruct Hmax as (k1 & Hk1 & E1). destruct (mo_alignment _ Hx) as (k2 & Hk2 & E2). split.
    + destruct (Z.max_spec (maximum_alignment_ t) (ts_alignment x)) as [[_ ->]|[_ ->]]; eauto.
    + apply Forall_app. split; [|apply Forall_singleton; simpl; lia].
      eapply Forall_impl; [exact Hall|]. simpl. intros e He. lia.
Qed.

(** ** Layouts *)

Record tls_request := mkTlsRequest { rq_id : Z; rq_size : Z; rq_alignment : Z; rq_bias : Z }.
Definition request_u64 (r : tls_request) : Prop :=
  is_u64 (rq_id r) /\ is_u64 (rq_size r) /\ is_u64 (rq_alignment r) /\ is_u64 (rq_bias r).

Definition register_all (rs : list tls_request) t : StaticTlsLayout :=
  foldl (fun t r => (RegisterModule (rq_id r) (rq_size r) (rq_alignment r) (rq_bias r) t).1) t rs.

Lemma register_all_ok rs t : Forall request_u64 rs -> layout_ok t -> layout_ok (register_all rs t).
Proof.
  revert t. induction rs as [|r rs IH]; intros t; [done|].
  intros [(? & ? & ? & ?) Hrs]%Forall_cons Ht. apply IH; [done|]. by apply RegisterModule_ok.
Qed.

Lemma packed_bounds low ms :
  packed low ms -> Forall (fun e => module_ok e.2) ms ->
  Forall (fun e => low <= block_end e.2 /\
            ts_static_offset e.2 <= from_option (fun e => ts_static_offset e.2) low (last ms)) ms.
Proof.
  revert low. induction ms as [|e ms IH]; intros low; [constructor|].
  intros [Hlow Hp] [He Hms]%Forall_cons. pose proof (mo_size _ He). unfold block_end in *.
  specialize (IH _ Hp Hms).
  assert (Hl : from_option (fun e => ts_static_offset e.2) low (last (e :: ms)) =
               from_option (fun e => ts_static_offset e.2) (ts_static_offset e.2) (last ms)).
  { destruct ms as [|y ms]; [done|]. change (last (e :: y :: ms)) with (last (y :: ms)).
    destruct (last (y :: ms)) eqn:E; [done|]. by apply last_None in E. }
  rewrite Hl. constructor.
  - split; [lia|]. destruct (last ms) as [y|] eqn:E; simpl; [|lia].
    rewrite Forall_forall in IH. assert (Hy : y ∈ ms) by (apply last_Some_elem_of in E; done).
    specialize (IH y Hy). rewrite Forall_forall in Hms. pose proof (mo_size _ (Hms y Hy)). simpl in *. lia.
  - eapply Forall_impl; [exact IH|]. simpl. intros y [H1 H2]. lia.
Qed.

Lemma packed_disjoint low ms i j a b :
  packed low ms -> Forall (fun e => module_ok e.2) ms -> (i < j)%nat ->
  ms !! i = Some a -> ms !! j = Some b -> ts_static_offset a.2 <= block_end b.2.
Proof.
  revert low i j. induction ms as [|e ms IH]; intros low i j; [done|].
  intros [Hlow Hp] [He Hms]%Forall_cons Hij Ha Hb. destruct j as [|j]; [lia|]. simpl in Hb.
  destruct i as [|i]; simpl in Ha.
  - injection Ha as ->. pose proof (packed_bounds _ _ Hp Hms) as Hf. rewrite Forall_forall in Hf.
    apply (Hf b). by eapply list_elem_of_lookup_2.
  - eapply (IH _ i j); [done|done|lia|done|done].
Qed.

(** Whatever modules are registered, with whatever sizes, alignments and
    biases, for every thread pointer aligned to the layout's maximum alignment
    the blocks of the registered modules lie below the thread pointer and
    within the total size, which never exceeds the reservation, no two of them
    overlap, and each starts at an address with the residue its module asked
    for. *)
Theorem tls_blocks_disjoint_aligned reservation rs tp :
  is_u64 reservation -> Forall request_u64 rs ->
  let t := register_all rs (StaticTlsLayout_init reservation) in
  tp mod maximum_alignment_ t = 0 ->
  0 <= total_size_ t <= reservation /\
  (forall i a, tls_modules_ t !! i = Some a ->
     let start := tp - ts_static_offset a.2 in
     tp - total_size_ t <= start /\ start + ts_memory_size a.2 <= tp /\
     start mod ts_alignment a.2 = ts_alignment_bias a.2 /\
     forall j b, i <> j -> tls_modules_ t !! j = Some b -> a.1 <> b.1 /\
       let start' := tp - ts_static_offset b.2 in
       start + ts_memory_size a.2 <= start' \/ start' + ts_memory_size b.2 <= start).
Proof.
  intros Hr Hrs t Htp. assert (Ht : layout_ok t) by (by apply register_all_ok, StaticTlsLayout_init_ok).
  destruct Ht as [Hs Hm Hp Htot Hres Hu [(k & Hk & Hmax) Hall]].
  assert (Hres' : reservation_ t = reservation).
  { assert (E : forall rs t0, reservation_ (register_all rs t0) = reservation_ t0); [|by apply E].
    clear. induction rs as [|r rs IH]; intros t0; [done|]. simpl. rewrite IH. unfold RegisterModule. cbv zeta.
    repeat split_match; done. }
  assert (Hok : Forall (fun e => module_ok e.2) (tls_modules_ t)).
  { eapply Forall_impl; [exact Hm|]. by intros e (_ & _ & ?). }
  split; [lia|]. intros i a Ha. cbv zeta.
  pose proof (list_elem_of_lookup_2 _ _ _ Ha) as Hin.
  pose proof (packed_bounds _ _ Hp Hok) as Hb. rewrite Forall_forall in Hb, Hok, Hall.
  destruct (Hb a Hin) as [Hb1 Hb2]. pose proof (Hok a Hin) as [Hsz (ka & Hka & Hal) Hbi Hmod Hbe].
  specialize (Hall a Hin). unfold block_end in *. rewrite Htot.
  split_and!; [lia|lia| |].
  - assert (Hd : tp mod ts_alignment a.2 = 0).
    { assert (Hkk : ka <= k).
      { rewrite Hal, Hmax in Hall. apply (Z.pow_le_mono_r_iff 2) in Hall; lia. }
      apply Z.mod_divide; [lia|]. apply Z.divide_trans with (maximum_alignment_ t).
      - rewrite Hal, Hmax. exists (2 ^ (k - ka)). rewrite <- Z.pow_add_r by lia. f_equal. lia.
      - apply Z.mod_divide; [|done]. rewrite Hmax. apply Z.pow_nonzero; lia. }
    apply Z.mod_divide in Hd as [q Hq]; [|lia]. apply Z.mod_divide in Hmod as [q' Hq']; [|lia].
    symmetry. apply (Z.mod_unique _ _ (q - q')); [lia|]. nia.
  - intros j b Hij Hjb. split.
    + intros E. apply Hij. pose proof Hjb as Hjb'. apply list_elem_of_lookup_2 in Hjb'.
      assert (Hnd : NoDup (tls_modules_ t).*1) by (by apply om_sorted_nodup).
      eapply NoDup_lookup; [exact Hnd| |]; rewrite list_lookup_fmap; [by rewrite Ha|rewrite Hjb; simpl; by rewrite E].
    + rewrite <- Forall_forall in Hok. destruct (Nat.lt_trichotomy i j) as [Hl|[Hl|Hl]]; [right|done|left].
      * pose proof (packed_disjoint _ _ i j a b Hp Hok Hl Ha Hjb). unfold block_end in *. lia.
      * pose proof (packed_disjoint _ _ j i b a Hp Hok Hl Hjb Ha). unfold block_end in *. lia.
Qed.
