(* ===== verification/Relocator.v ===== *)
(** Relocation of a loaded image ([src/loader/relocator.cpp]) and the import
    resolvers it asks ([layered_import_resolver.cpp]): the relocations are first
    planned, every check included, and only then written. *)
From S2P Require Import Prelude Ranges LittleEndian GuestMemory GuestMemoryMap GuestMemoryOps.
From S2P Require Import GuestMemoryData GuestMemoryWrite GuestMemoryInit Elf SceSymbol.

Inductive RelocationStatus :=
| kRelocationOk | kUnsupportedRelocation | kInvalidRelativeSymbol | kTargetAddressOverflow
| kTargetNotMapped | kWriteFailed | kInvalidSymbolIndex | kEmptyImportSymbol
| kInvalidResolvedAddress | kMissingTlsModuleId | kMissingTlsStaticOffset | kInvalidTlsSymbol
| kRelocationValueOverflow.

#[global] Instance RelocationStatus_eq_dec : EqDecision RelocationStatus.
Proof. solve_decision. Defined.

Record UnresolvedImport := mkUnresolved {
  ui_symbol_index : Z;
  ui_relocation_type : Z;
  ui_target_address : Z;
  ui_symbol : string
}.

Record RelocationResult := mkRelocationResult {
  rr_status : RelocationStatus;
  rr_applied_count : Z;
  rr_unresolved_import_count : Z;
  rr_resolved_import_count : Z;
  rr_unresolved_imports : list UnresolvedImport;
  rr_unsupported_relocation_type : option Z
}.

(** ** Import resolvers *)

(** The virtual functions of [ImportResolver]. *)
Record ImportResolver := mkResolver {
  ResolveImport : string -> list string -> option Z;
  ResolveScopedImport : string -> ElfLibraryIdentity -> ElfModuleIdentity -> option Z
}.

(** The inherited [ImportResolver::ResolveScopedImport]. *)
Definition default_scoped (resolve : string -> list string -> option Z) (symbol : string)
    (library : ElfLibraryIdentity) (module : ElfModuleIdentity) : option Z :=
  resolve symbol [li_name library].

Definition LayeredImportResolver (primary fallback : ImportResolver) : ImportResolver :=
  mkResolver
    (fun symbol library_order =>
       match ResolveImport primary symbol library_order with
       | Some resolved => Some resolved
       | None => ResolveImport fallback symbol library_order
       end)
    (fun symbol library module =>
       match ResolveScopedImport primary symbol library module with
       | Some resolved => Some resolved
       | None => ResolveScopedImport fallback symbol library module
       end).

(** ** Relocation types *)

Definition kRelocationNone : Z := 0.
Definition kRelocationAbsolute64 : Z := 1.
Definition kRelocationPc32 : Z := 2.
Definition kRelocationPlt32 : Z := 4.
Definition kRelocationGlobDat : Z := 6.
Definition kRelocationJumpSlot : Z := 7.
Definition kRelocationRelative : Z := 8.
Definition kRelocationUnsigned32 : Z := 10.
Definition kRelocationSigned32 : Z := 11.
Definition kRelocationTlsModuleId : Z := 16.
Definition kRelocationTlsDtpOffset : Z := 17.
Definition kRelocationTlsTpOffset : Z := 18.
Definition kRelocationPc64 : Z := 24.
Definition kRelocationSize32 : Z := 32.
Definition kRelocationSize64 : Z := 33.
Definition kRelocationRelative64 : Z := 38.
Definition kSymbolBindingWeak : Z := 2.
Definition kUndefinedSectionIndex : Z := 0.

Definition one_of (types : list Z) (type : Z) : bool := existsb (Z.eqb type) types.

Definition IsSymbolRelocation : Z -> bool :=
  one_of [kRelocationAbsolute64; kRelocationPc32; kRelocationPlt32; kRelocationGlobDat;
          kRelocationJumpSlot; kRelocationUnsigned32; kRelocationSigned32; kRelocationPc64;
          kRelocationSize32; kRelocationSize64].

Definition IsPcRelativeRelocation : Z -> bool :=
  one_of [kRelocationPc32; kRelocationPlt32; kRelocationPc64].

Definition IsSizeRelocation : Z -> bool := one_of [kRelocationSize32; kRelocationSize64].

Definition RelocationWriteSize (type : Z) : nat :=
  if one_of [kRelocationPc32; kRelocationPlt32; kRelocationUnsigned32; kRelocationSigned32;
             kRelocationSize32] type then 4 else 8.

(** ** Planning *)

Record PlannedRelocation := mkPlanned { pr_address : Z; pr_value : list Z; pr_size : nat }.

(** The first [size] bytes of the value, in an array of eight. *)
Definition EncodeLittleEndian (value : Z) (size : nat) : list Z :=
  map (fun index => Z.land (Z.shiftr value (Z.of_nat index * 8)) 0xff) (seq 0 size)
  ++ replicate (8 - size) 0.

Definition planned_at (address value : Z) (size : nat) : PlannedRelocation :=
  mkPlanned address (EncodeLittleEndian value size) size.

Record relocation_plan := mkRelocationPlan {
  rp_planned : list PlannedRelocation;
  rp_resolved_import_count : Z;
  rp_unresolved_imports : list UnresolvedImport;
  rp_unsupported_type : option Z
}.
Definition empty_relocation_plan : relocation_plan := mkRelocationPlan [] 0 [] None.

Implicit Types (p : relocation_plan) (e : ElfRelaEntry) (m : GuestMemory).

Definition push_planned (r : PlannedRelocation) p : relocation_plan :=
  {| rp_planned := rp_planned p ++ [r]; rp_resolved_import_count := rp_resolved_import_count p;
     rp_unresolved_imports := rp_unresolved_imports p; rp_unsupported_type := rp_unsupported_type p |}.

Definition push_unresolved (u : UnresolvedImport) p : relocation_plan :=
  {| rp_planned := rp_planned p; rp_resolved_import_count := rp_resolved_import_count p;
     rp_unresolved_imports := rp_unresolved_imports p ++ [u]; rp_unsupported_type := rp_unsupported_type p |}.

Definition count_resolved (import : bool) p : relocation_plan :=
  {| rp_planned := rp_planned p;
     rp_resolved_import_count := rp_resolved_import_count p + (if import then 1 else 0);
     rp_unresolved_imports := rp_unresolved_imports p; rp_unsupported_type := rp_unsupported_type p |}.

Definition set_unsupported (type : Z) p : relocation_plan :=
  {| rp_planned := rp_planned p; rp_resolved_import_count := rp_resolved_import_count p;
     rp_unresolved_imports := rp_unresolved_imports p; rp_unsupported_type := Some type |}.

(** [std::bit_cast] between the signed and unsigned 64-bit types. *)
Definition to_u64 (v : Z) : Z := v mod u64_modulus.
Definition to_i64 (v : Z) : Z := if v <? 2 ^ 63 then v else v - u64_modulus.

(** What a symbol relocation finds: an address (or size), with the flag that it
    came from the resolver; an import nobody provides; or an error. *)
Inductive resolution :=
| Resolved (value : Z) (import : bool)
| Unresolved
| Refused (status : RelocationStatus).

Section relocation.
Context `{HostMemory} (metadata : ElfMetadata) (resolver : option ImportResolver).
Context (load_bias tls_module_id tls_static_offset : Z).

Definition symbols : list ElfSymbol := di_symbols (em_dynamic_info metadata).

Definition symbol_at (index : Z) : option ElfSymbol := symbols !! Z.to_nat index.

(** The first [switch] of the loop, [kRelocationNone] apart. *)
Definition check_type e : RelocationStatus :=
  let type := rela_type e in
  if IsSymbolRelocation type then kRelocationOk
  else if one_of [kRelocationTlsModuleId; kRelocationTlsDtpOffset; kRelocationTlsTpOffset] type
  then kRelocationOk
  else if one_of [kRelocationRelative; kRelocationRelative64] type
  then if rela_symbol e =? 0 then kRelocationOk else kInvalidRelativeSymbol
  else kUnsupportedRelocation.

(** The import branch of the symbol relocations. *)
Definition resolve_import (type : Z) (symbol : ElfSymbol) (r : ImportResolver) : resolution :=
  let reference := ResolveElfImportReference metadata (sym_name symbol) in
  if str_empty (ir_nid reference) then Refused kEmptyImportSymbol
  else if negb (ir_valid reference) then Unresolved
  else
    let resolved :=
      match ir_library reference, ir_module reference with
      | Some library, Some module => ResolveScopedImport r (ir_nid reference) library module
      | _, _ => ResolveImport r (ir_nid reference) (di_needed_libraries (em_dynamic_info metadata))
      end in
    match resolved with
    | None => Unresolved
    | Some address =>
        if address =? 0 then Refused kInvalidResolvedAddress
        else Resolved (if IsSizeRelocation type then sym_size symbol else address) true
    end.

Definition resolve_symbol e : resolution :=
  let type := rela_type e in
  if rela_symbol e =? 0 then Resolved 0 false
  else
    match symbol_at (rela_symbol e) with
    | None => Refused kInvalidSymbolIndex
    | Some symbol =>
        if negb (sym_section_index symbol =? kUndefinedSectionIndex) then
          if IsSizeRelocation type then Resolved (sym_size symbol) false
          else if sym_value symbol >? u64_max - load_bias then Refused kInvalidResolvedAddress
          else Resolved (load_bias + sym_value symbol)%u64 false
        else if sym_binding symbol =? kSymbolBindingWeak then
          Resolved (if IsSizeRelocation type then sym_size symbol else 0) false
        else
          match resolver with
          | None => Unresolved
          | Some r => resolve_import type symbol r
          end
    end.

(** The value of a symbol relocation, or none when it does not fit 32 bits. *)
Definition symbol_value (type resolved addend target : Z) : option Z :=
  let addend := if one_of [kRelocationGlobDat; kRelocationJumpSlot] type then 0 else to_u64 addend in
  let sum := (resolved + addend)%u64 in
  let value := if IsPcRelativeRelocation type then (sum - target)%u64 else sum in
  if one_of [kRelocationPc32; kRelocationPlt32; kRelocationSigned32] type then
    if (to_i64 value <? - 2 ^ 31) || (to_i64 value >? 2 ^ 31 - 1) then None else Some value
  else if one_of [kRelocationUnsigned32; kRelocationSize32] type && (value >? 2 ^ 32 - 1) then None
  else Some value.

Definition plan_symbol e (target : Z) p : relocation_plan * RelocationStatus :=
  let type := rela_type e in
  match resolve_symbol e with
  | Refused status => (p, status)
  | Unresolved =>
      let name := match symbol_at (rela_symbol e) with Some s => sym_name s | None => EmptyString end in
      (push_unresolved (mkUnresolved (rela_symbol e) type target name) p, kRelocationOk)
  | Resolved resolved import =>
      match symbol_value type resolved (rela_addend e) target with
      | None => (p, kRelocationValueOverflow)
      | Some value =>
          (count_resolved import (push_planned (planned_at target value (RelocationWriteSize type)) p),
           kRelocationOk)
      end
  end.

Definition plan_tls_offset e (target : Z) p : relocation_plan * RelocationStatus :=
  let type := rela_type e in
  if tls_module_id =? 0 then (p, kMissingTlsModuleId)
  else if (type =? kRelocationTlsTpOffset) && (tls_static_offset =? 0) then (p, kMissingTlsStaticOffset)
  else
    let push symbol_value :=
      let value := (symbol_value + to_u64 (rela_addend e))%u64 in
      let value := if type =? kRelocationTlsTpOffset then (value - tls_static_offset)%u64 else value in
      (push_planned (planned_at target value 8) p, kRelocationOk) in
    if rela_symbol e =? 0 then push 0
    else
      match symbol_at (rela_symbol e) with
      | None => (p, kInvalidSymbolIndex)
      | Some symbol =>
          if sym_section_index symbol =? kUndefinedSectionIndex then (p, kInvalidTlsSymbol)
          else push (sym_value symbol)
      end.

Definition plan_relocation e (target : Z) p : relocation_plan * RelocationStatus :=
  let type := rela_type e in
  if type =? kRelocationTlsModuleId then
    if tls_module_id =? 0 then (p, kMissingTlsModuleId)
    else (push_planned (planned_at target tls_module_id 8) p, kRelocationOk)
  else if (type =? kRelocationTlsDtpOffset) || (type =? kRelocationTlsTpOffset) then
    plan_tls_offset e target p
  else if IsSymbolRelocation type then plan_symbol e target p
  else
    (push_planned (planned_at target (load_bias + to_u64 (rela_addend e))%u64 8) p, kRelocationOk).

(** One round of the loop of [PlanTable]. *)
Definition plan_entry m e p : relocation_plan * RelocationStatus :=
  let type := rela_type e in
  if type =? kRelocationNone then (p, kRelocationOk)
  else
    match check_type e with
    | kRelocationOk =>
        if rela_offset e >? u64_max - load_bias then (p, kTargetAddressOverflow)
        else
          let target := (load_bias + rela_offset e)%u64 in
          if negb (IsMappedLocked target (Z.of_nat (RelocationWriteSize type)) m) then (p, kTargetNotMapped)
          else plan_relocation e target p
    | kUnsupportedRelocation => (set_unsupported type p, kUnsupportedRelocation)
    | status => (p, status)
    end.

Fixpoint PlanTable (entries : list ElfRelaEntry) m p : relocation_plan * RelocationStatus :=
  match entries with
  | [] => (p, kRelocationOk)
  | e :: rest =>
      match plan_entry m e p with
      | (p', kRelocationOk) => PlanTable rest m p'
      | failed => failed
      end
  end.

(** ** Application *)

(** The write loop: the memory, the relocations applied, and whether all were. *)
Fixpoint write_planned (planned : list PlannedRelocation) m (applied : Z) : GuestMemory * Z * bool :=
  match planned with
  | [] => (m, applied, true)
  | r :: rest =>
      match Initialize (pr_address r) (take (pr_size r) (pr_value r)) m with
      | (m', true) => write_planned rest m' (applied + 1)
      | (m', false) => (m', applied, false)
      end
  end.

Definition relocation_result (status : RelocationStatus) (applied : Z) (unsupported : option Z) p
    : RelocationResult :=
  mkRelocationResult status applied (Z.of_nat (length (rp_unresolved_imports p)))
    (rp_resolved_import_count p) (rp_unresolved_imports p) unsupported.

Definition ApplyRelocationsInternal m : GuestMemory * RelocationResult :=
  let info := em_dynamic_info metadata in
  let '(p, status) :=
    match PlanTable (di_relocations info) m empty_relocation_plan with
    | (p1, kRelocationOk) => PlanTable (di_plt_relocations info) m p1
    | failed => failed
    end in
  match status with
  | kRelocationOk =>
      let '(m', applied, written) := write_planned (rp_planned p) m 0 in
      (m', relocation_result (if written then kRelocationOk else kWriteFailed) applied None p)
  | _ => (m, relocation_result status 0 (rp_unsupported_type p) p)
  end.
End relocation.

Definition ApplyRelativeRelocations `{HostMemory} (metadata : ElfMetadata) m
    (load_bias tls_module_id tls_static_offset : Z) : GuestMemory * RelocationResult :=
  ApplyRelocationsInternal metadata None load_bias tls_module_id tls_static_offset m.

Definition ApplyRelocations `{HostMemory} (metadata : ElfMetadata) m (resolver : ImportResolver)
    (load_bias tls_module_id tls_static_offset : Z) : GuestMemory * RelocationResult :=
  ApplyRelocationsInternal metadata (Some resolver) load_bias tls_module_id tls_static_offset m.

(** Relocation writes what the x86-64 psABI prescribes: each field receives the
    value computed from symbol, addend and place, without truncation, and
    nothing else changes; an image that cannot be relocated is left as it is. *)

Implicit Types (r : PlannedRelocation).

(** ** Encoding *)

Lemma take_encoded v n : take n (EncodeLittleEndian v n) = le_bytes n v.
Proof.
  unfold EncodeLittleEndian. rewrite <- le_bytes_map.
  rewrite take_app_le by (by rewrite le_bytes_length).
  apply take_ge. by rewrite le_bytes_length.
Qed.

(** ** The values of the psABI *)

Definition signed_field : Z -> bool := one_of [kRelocationPc32; kRelocationPlt32; kRelocationSigned32].

(** The number a field of [n] bytes holds. *)
Definition field_value (signed : bool) (n : nat) (v : Z) : Z :=
  let bits := 8 * Z.of_nat n in
  let u := v mod 2 ^ bits in
  if signed && (2 ^ (bits - 1) <=? u) then u - 2 ^ bits else u.

Lemma mod_shift_half v n : 0 < n -> - n <= v < n -> v mod (2 * n) = if v <? 0 then v + 2 * n else v.
Proof.
  intros Hn Hv. destruct (v <? 0) eqn:E; [|apply Z.mod_small; lia].
  rewrite <- (Z.mod_add v 1), Z.mul_1_l by lia. apply Z.mod_small. lia.
Qed.

(** A word in the signed range of the field is held exactly. *)
Lemma signed_word v :
  is_u64 v -> - 2 ^ 31 <= to_i64 v <= 2 ^ 31 - 1 -> field_value true 4 v = to_i64 v.
Proof.
  intros Hv. unfold to_i64, field_value.
  change (8 * Z.of_nat 4) with 32. change (32 - 1) with 31.
  pose proof u64_modulus_eq as Hmod. change (2 ^ 63) with 9223372036854775808.
  change (2 ^ 31) with 2147483648. change (2 ^ 32) with (2 * 2147483648).
  unfold is_u64 in Hv. rewrite u64_max_eq in Hv. intros Hr.
  assert (Hm : v mod (2 * 2147483648) =
    (if v <? 9223372036854775808 then v else v - u64_modulus) mod (2 * 2147483648)).
  { destruct (v <? _); [done|].
    rewrite <- (Z.mod_add (v - u64_modulus) 4294967296) by lia. f_equal. lia. }
  rewrite Hm, mod_shift_half by lia. cbn [andb].
  destruct (v <? 9223372036854775808) eqn:E1.
  - replace (v <? 0) with false by lia. replace (2147483648 <=? v) with false by lia. done.
  - replace (v - u64_modulus <? 0) with true by lia.
    replace (2147483648 <=? v - u64_modulus + 2 * 2147483648) with true by lia. lia.
Qed.

Lemma unsigned_word n v : 0 <= v < 2 ^ (8 * Z.of_nat n) -> field_value false n v = v.
Proof. intros Hv. unfold field_value. by apply Z.mod_small. Qed.

(** What becomes of an entry. *)
Inductive outcome := Skipped | Missing (u : UnresolvedImport) | Written (r : PlannedRelocation).

Definition written_of (o : outcome) : option PlannedRelocation := match o with Written r => Some r | _ => None end.
Definition missing_of (o : outcome) : option UnresolvedImport := match o with Missing u => Some u | _ => None end.

Section psabi.
Context `{HostMemory} (metadata : ElfMetadata) (resolver : option ImportResolver).
Context (load_bias tls_module_id tls_static_offset : Z).


(** The resolver provides_import the import of a symbol: by name, library and module
    when the name is scoped, by name along the needed libraries otherwise. *)
Definition provides_import (res : ImportResolver) (s : ElfSymbol) (address : Z) : Prop :=
  let reference := ResolveElfImportReference metadata (sym_name s) in
  ir_valid reference = true /\ ir_nid reference <> EmptyString /\
  match ir_library reference, ir_module reference with
  | Some library, Some module => ResolveScopedImport res (ir_nid reference) library module = Some address
  | _, _ => ResolveImport res (ir_nid reference) (di_needed_libraries (em_dynamic_info metadata)) = Some address
  end.

(** What the loader takes from the symbol of a relocation: an address or, for the
    size relocations, the size.  It adds the bias to every symbol with a non-zero
    section index and takes 0 for a weak undefined symbol without asking for a
    provider. *)
Inductive loader_symbol (size : bool) (index : Z) : Z -> Prop :=
| null_symbol : index = 0 -> loader_symbol size index 0
| defined_symbol s : index <> 0 -> symbol_at metadata index = Some s -> sym_section_index s <> 0 ->
    (size = false -> load_bias + sym_value s <= u64_max) ->
    loader_symbol size index (if size then sym_size s else load_bias + sym_value s)
| weak_symbol s : index <> 0 -> symbol_at metadata index = Some s -> sym_section_index s = 0 -> sym_binding s = 2 ->
    loader_symbol size index (if size then sym_size s else 0)
| imported_symbol s res address : index <> 0 -> symbol_at metadata index = Some s -> sym_section_index s = 0 ->
    sym_binding s <> 2 -> resolver = Some res -> provides_import res s address -> address <> 0 ->
    loader_symbol size index (if size then sym_size s else address).

(** What the psABI means by the symbol: an absolute symbol is not moved, and a
    weak undefined one is 0 only if nobody provides it. *)
Definition kAbsoluteSectionIndex : Z := 0xfff1.
Inductive psabi_symbol (size : bool) (index : Z) : Z -> Prop :=
| psabi_null : index = 0 -> psabi_symbol size index 0
| psabi_absolute s : index <> 0 -> symbol_at metadata index = Some s ->
    sym_section_index s = kAbsoluteSectionIndex ->
    psabi_symbol size index (if size then sym_size s else sym_value s)
| psabi_defined s : index <> 0 -> symbol_at metadata index = Some s -> sym_section_index s <> 0 ->
    sym_section_index s <> kAbsoluteSectionIndex ->
    psabi_symbol size index (if size then sym_size s else load_bias + sym_value s)
| psabi_provided s res address : index <> 0 -> symbol_at metadata index = Some s -> sym_section_index s = 0 ->
    resolver = Some res -> provides_import res s address ->
    psabi_symbol size index (if size then sym_size s else address)
| psabi_weak s : index <> 0 -> symbol_at metadata index = Some s -> sym_section_index s = 0 -> sym_binding s = 2 ->
    (forall res address, resolver = Some res -> ~ provides_import res s address) ->
    psabi_symbol size index (if size then sym_size s else 0).

(** The symbols on which the two agree: not absolute, and not a weak undefined
    symbol that somebody provides. *)
Definition ordinary_symbol (index : Z) : Prop :=
  forall s, index <> 0 -> symbol_at metadata index = Some s ->
    sym_section_index s <> kAbsoluteSectionIndex /\
    (sym_section_index s = 0 -> sym_binding s = 2 ->
     forall res address, resolver = Some res -> ~ provides_import res s address).

Lemma loader_psabi size index v : ordinary_symbol index -> loader_symbol size index v -> psabi_symbol size index v.
Proof.
  intros Hord [H0|s H0 Hs Hd _|s H0 Hs Hd Hw|s res address H0 Hs Hd Hw Hr Hp _]; [by apply psabi_null|..];
    destruct (Hord s H0 Hs) as [H1 H2].
  - by apply psabi_defined.
  - apply psabi_weak; try done. by apply H2.
  - by eapply psabi_provided.
Qed.

(** The offset of a thread-local symbol in its module's block. *)
Inductive tls_symbol_denotes (index : Z) : Z -> Prop :=
| null_tls_symbol : index = 0 -> tls_symbol_denotes index 0
| defined_tls_symbol s : index <> 0 -> symbol_at metadata index = Some s -> sym_section_index s <> 0 ->
    tls_symbol_denotes index (sym_value s).

Definition target_of e : Z := load_bias + rela_offset e.
Definition width_of e : nat := RelocationWriteSize (rela_type e).

(** The relocation formulas of the psABI, in unbounded arithmetic, over a meaning
    of the symbols. *)
Inductive formula_value (symbol : bool -> Z -> Z -> Prop) e : Z -> Prop :=
| abi_relative : one_of [kRelocationRelative; kRelocationRelative64] (rela_type e) = true ->
    rela_symbol e = 0 -> formula_value symbol e (load_bias + rela_addend e)
| abi_tls_module : rela_type e = kRelocationTlsModuleId -> tls_module_id <> 0 -> formula_value symbol e tls_module_id
| abi_tls_dtp s : rela_type e = kRelocationTlsDtpOffset -> tls_module_id <> 0 ->
    tls_symbol_denotes (rela_symbol e) s -> formula_value symbol e (s + rela_addend e)
| abi_tls_tp s : rela_type e = kRelocationTlsTpOffset -> tls_module_id <> 0 -> tls_static_offset <> 0 ->
    tls_symbol_denotes (rela_symbol e) s -> formula_value symbol e (s + rela_addend e - tls_static_offset)
| abi_slot s : one_of [kRelocationGlobDat; kRelocationJumpSlot] (rela_type e) = true ->
    symbol false (rela_symbol e) s -> formula_value symbol e s
| abi_pc s : IsPcRelativeRelocation (rela_type e) = true ->
    symbol false (rela_symbol e) s -> formula_value symbol e (s + rela_addend e - target_of e)
| abi_address s :
    one_of [kRelocationAbsolute64; kRelocationUnsigned32; kRelocationSigned32] (rela_type e) = true ->
    symbol false (rela_symbol e) s -> formula_value symbol e (s + rela_addend e)
| abi_size s : IsSizeRelocation (rela_type e) = true ->
    symbol true (rela_symbol e) s -> formula_value symbol e (s + rela_addend e).

#[local] Abbreviation loader_value := (formula_value loader_symbol).

Lemma formula_mono (symbol symbol' : bool -> Z -> Z -> Prop) e v :
  (forall size s, symbol size (rela_symbol e) s -> symbol' size (rela_symbol e) s) ->
  formula_value symbol e v -> formula_value symbol' e v.
Proof.
  intros Hs. destruct 1; [by apply abi_relative|by apply abi_tls_module|by apply abi_tls_dtp|by apply abi_tls_tp
    |by apply abi_slot; auto|by apply abi_pc; auto|by apply abi_address; auto|by apply abi_size; auto].
Qed.

(** A field holds a formula: read with its signedness it is the formula modulo
    the address space.  A 32-bit field therefore lost nothing. *)
Definition holds e (v formula : Z) : Prop :=
  to_u64 (field_value (signed_field (rela_type e)) (width_of e) v) = to_u64 formula.

(** An import nobody provides_import. *)
Definition unprovided e (s : ElfSymbol) : Prop :=
  IsSymbolRelocation (rela_type e) = true /\ rela_symbol e <> 0 /\
  symbol_at metadata (rela_symbol e) = Some s /\ sym_section_index s = 0 /\ sym_binding s <> 2 /\
  forall res, resolver = Some res ->
    ir_nid (ResolveElfImportReference metadata (sym_name s)) <> EmptyString /\
    forall address, ~ provides_import res s address.

(** The three ways an entry passes the planning. *)
Inductive planned_as m e : outcome -> Prop :=
| planned_skip : rela_type e = kRelocationNone -> planned_as m e Skipped
| planned_missing s : rela_type e <> kRelocationNone -> unprovided e s -> target_of e <= u64_max ->
    IsMappedLocked (target_of e) (Z.of_nat (width_of e)) m = true ->
    planned_as m e (Missing (mkUnresolved (rela_symbol e) (rela_type e) (target_of e) (sym_name s)))
| planned_write v formula : rela_type e <> kRelocationNone ->
    target_of e <= u64_max -> IsMappedLocked (target_of e) (Z.of_nat (width_of e)) m = true ->
    loader_value e formula -> holds e v formula ->
    planned_as m e (Written (planned_at (target_of e) v (width_of e))).

(** ** Arithmetic of the fields *)

Lemma to_u64_idem v : to_u64 (to_u64 v) = to_u64 v.
Proof. unfold to_u64. apply Zmod_mod. Qed.

Lemma to_u64_id v : is_u64 v -> to_u64 v = v.
Proof. intros Hv. unfold to_u64. apply Z.mod_small. u64_lia. Qed.

Lemma to_u64_add a b : to_u64 (a + b)%u64 = to_u64 (a + b).
Proof. apply to_u64_idem. Qed.

Lemma to_i64_word v : is_u64 v -> to_u64 (to_i64 v) = v.
Proof.
  intros Hv. unfold to_i64. destruct (v <? 2 ^ 63); [by apply to_u64_id|].
  unfold to_u64. rewrite <- (Z.mod_add (v - u64_modulus) 1), Z.mul_1_l, Z.sub_add by u64_lia.
  by apply to_u64_id.
Qed.

Lemma sum_word a b : (a + to_u64 b)%u64 = to_u64 (a + b).
Proof. unfold add64, to_u64. by rewrite Zplus_mod_idemp_r. Qed.

Lemma difference_word a b : (to_u64 a - b)%u64 = to_u64 (a - b).
Proof. unfold sub64, to_u64. by rewrite Zminus_mod_idemp_l. Qed.

Lemma is_u64_to_u64 v : is_u64 (to_u64 v).
Proof. unfold to_u64. pose proof (Z.mod_pos_bound v u64_modulus eq_refl). unfold is_u64. u64_lia. Qed.

Lemma field8 v : to_u64 (field_value false 8 v) = to_u64 v.
Proof.
  unfold field_value. cbn [andb]. change (2 ^ (8 * Z.of_nat 8)) with u64_modulus. apply to_u64_idem.
Qed.

(** A 64-bit field holds whatever was computed. *)
Lemma holds8 e v formula :
  width_of e = 8%nat -> signed_field (rela_type e) = false -> to_u64 v = to_u64 formula -> holds e v formula.
Proof. intros Hw Hs Hv. unfold holds. by rewrite Hw, Hs, field8. Qed.

(** The range check of a word. *)
Definition range_checked (type w : Z) : option Z :=
  if signed_field type then
    if (to_i64 w <? - 2 ^ 31) || (to_i64 w >? 2 ^ 31 - 1) then None else Some w
  else if one_of [kRelocationUnsigned32; kRelocationSize32] type && (w >? 2 ^ 32 - 1) then None
  else Some w.

(** The formula of the symbol relocations. *)
Definition code_formula (type s addend target : Z) : Z :=
  let addend := if one_of [kRelocationGlobDat; kRelocationJumpSlot] type then 0 else addend in
  if IsPcRelativeRelocation type then s + addend - target else s + addend.

Lemma symbol_value_eq type s addend target :
  symbol_value type s addend target = range_checked type (to_u64 (code_formula type s addend target)).
Proof.
  unfold symbol_value, range_checked, code_formula, signed_field. cbv zeta.
  destruct (one_of [kRelocationGlobDat; _] type).
  - change (s + 0)%u64 with (to_u64 (s + 0)). by destruct (IsPcRelativeRelocation type); rewrite ?difference_word.
  - rewrite sum_word. by destruct (IsPcRelativeRelocation type); rewrite ?difference_word.
Qed.

Lemma range_checked_Some type w v :
  range_checked type w = Some v ->
  v = w /\ (signed_field type = true -> - 2 ^ 31 <= to_i64 w <= 2 ^ 31 - 1) /\
  (signed_field type = false -> one_of [kRelocationUnsigned32; kRelocationSize32] type = true -> w <= 2 ^ 32 - 1).
Proof.
  unfold range_checked. destruct (signed_field type).
  - destruct (Z.ltb_spec (to_i64 w) (- 2 ^ 31)), (Z.gtb_spec (to_i64 w) (2 ^ 31 - 1)); simpl; intros [=]; naive_solver lia.
  - destruct (one_of _ type), (Z.gtb_spec w (2 ^ 32 - 1)); simpl; intros [=]; naive_solver lia.
Qed.

(** ** Planning one entry *)

Lemma one_of_spec ts t : one_of ts t = true <-> t ∈ ts.
Proof.
  unfold one_of. rewrite existsb_exists. setoid_rewrite Z.eqb_eq. setoid_rewrite <- list_elem_of_In. naive_solver.
Qed.

Lemma one_of_incl ts ts' t : forallb (one_of ts') ts = true -> one_of ts t = true -> one_of ts' t = true.
Proof. rewrite forallb_forall. setoid_rewrite <- list_elem_of_In. intros Hi Ht%one_of_spec. by apply Hi. Qed.

Lemma symbol_not_tls type :
  IsSymbolRelocation type = true ->
  (type =? kRelocationTlsModuleId) = false /\
  (type =? kRelocationTlsDtpOffset) || (type =? kRelocationTlsTpOffset) = false.
Proof.
  intros Ht%one_of_spec. repeat (apply elem_of_cons in Ht as [->|Ht]; [done|]). by apply elem_of_nil in Ht.
Qed.

(** The three kinds of fields of the symbol relocations. *)
Lemma symbol_fields type :
  IsSymbolRelocation type = true ->
  (signed_field type = true /\ RelocationWriteSize type = 4%nat) \/
  (signed_field type = false /\ one_of [kRelocationUnsigned32; kRelocationSize32] type = true /\
   RelocationWriteSize type = 4%nat) \/
  (signed_field type = false /\ RelocationWriteSize type = 8%nat).
Proof.
  intros Ht%one_of_spec. repeat (apply elem_of_cons in Ht as [->|Ht]; [vm_compute; tauto|]).
  by apply elem_of_nil in Ht.
Qed.

Lemma symbol_holds e resolved v :
  IsSymbolRelocation (rela_type e) = true ->
  symbol_value (rela_type e) resolved (rela_addend e) (target_of e) = Some v ->
  holds e v (code_formula (rela_type e) resolved (rela_addend e) (target_of e)).
Proof.
  intros Ht. rewrite symbol_value_eq. set (w := to_u64 (code_formula _ _ _ _)).
  assert (Hw : is_u64 w) by apply is_u64_to_u64.
  intros (-> & Hs & Hu)%range_checked_Some. unfold holds, width_of. fold w.
  destruct (symbol_fields _ Ht) as [[E1 E2]|[(E1 & E2 & E3)|[E1 E2]]]; rewrite E1, ?E2, ?E3.
  - rewrite signed_word by auto. by apply to_i64_word.
  - rewrite unsigned_word; [by apply to_u64_id|]. specialize (Hu E1 E2). split; [u64_lia|].
    change (2 ^ (8 * Z.of_nat 4)) with (2 ^ 32). lia.
  - rewrite field8. by apply to_u64_id.
Qed.

Context (Hbias : is_u64 load_bias) (Hsymbols : forall s, s ∈ symbols metadata -> is_u64 (sym_value s)).

Lemma resolve_import_spec type s res :
  match resolve_import metadata type s res with
  | Resolved v _ => exists address, provides_import res s address /\ address <> 0 /\
      v = if IsSizeRelocation type then sym_size s else address
  | Unresolved => ir_nid (ResolveElfImportReference metadata (sym_name s)) <> EmptyString /\
      forall address, ~ provides_import res s address
  | Refused status => status <> kRelocationOk
  end.
Proof.
  unfold resolve_import, provides_import. set (ref := ResolveElfImportReference metadata (sym_name s)).
  destruct (str_empty (ir_nid ref)) eqn:En; [done|].
  assert (Hnid : ir_nid ref <> EmptyString) by (intros Hn; by rewrite Hn in En).
  destruct (ir_valid ref) eqn:Ev; cbn [negb]; [|split; [done|by intros ? [? _]]].
  set (found := match ir_library ref with Some _ => _ | None => _ end).
  assert (Hf : forall address, found = Some address <->
    match ir_library ref, ir_module ref with
    | Some library, Some module => ResolveScopedImport res (ir_nid ref) library module = Some address
    | _, _ => ResolveImport res (ir_nid ref) (di_needed_libraries (em_dynamic_info metadata)) = Some address
    end) by (intros address; unfold found; by destruct (ir_library ref), (ir_module ref)).
  destruct found as [address|] eqn:Eg.
  - destruct (address =? 0) eqn:Ez; [done|]. exists address. split_and!; [done|done| |lia|done]. by apply Hf.
  - split; [done|]. intros address (_ & _ & Hp). by apply Hf in Hp.
Qed.

Lemma resolve_symbol_spec e :
  match resolve_symbol metadata resolver load_bias e with
  | Resolved v _ => loader_symbol (IsSizeRelocation (rela_type e)) (rela_symbol e) v
  | Unresolved => IsSymbolRelocation (rela_type e) = true -> exists s, unprovided e s
  | Refused status => status <> kRelocationOk
  end.
Proof.
  unfold resolve_symbol. destruct (rela_symbol e =? 0) eqn:E0; [apply null_symbol; lia|].
  destruct (symbol_at metadata (rela_symbol e)) as [s|] eqn:Es; [|done].
  pose proof (Hsymbols s ltac:(by eapply list_elem_of_lookup_2)) as Hs.
  destruct (sym_section_index s =? kUndefinedSectionIndex) eqn:Eu; cbn [negb].
  - destruct (sym_binding s =? kSymbolBindingWeak) eqn:Ew.
    { eapply weak_symbol; [lia|done|unfold kUndefinedSectionIndex in *; lia|unfold kSymbolBindingWeak in *; lia]. }
    unfold kUndefinedSectionIndex, kSymbolBindingWeak in *. destruct resolver as [res|] eqn:Er.
    + pose proof (resolve_import_spec (rela_type e) s res) as Hi.
      destruct (resolve_import _ _ _ _) as [v b| |]; [|..|done].
      * destruct Hi as (address & Hp & Hn & ->). by apply (imported_symbol _ _ s res address); try lia.
      * intros Ht. exists s. split_and!; [done|lia|done|lia|lia|].
        by rewrite Er; intros ? [= <-].
    + intros Ht. exists s. split_and!; [done|lia|done|lia|lia|].
      by rewrite Er; intros ? [=].
  - unfold kUndefinedSectionIndex in *.
    destruct (IsSizeRelocation (rela_type e)) eqn:Ez; [by apply (defined_symbol true _ s); try lia|].
    destruct (_ >? _) eqn:Eo; [done|]. rewrite add64_small by u64_lia.
    apply (defined_symbol false _ s); try done; lia.
Qed.

(** A plan after one more outcome. *)
Definition extends (p p' : relocation_plan) (os : list outcome) : Prop :=
  rp_planned p' = rp_planned p ++ omap written_of os /\
  rp_unresolved_imports p' = rp_unresolved_imports p ++ omap missing_of os.

Lemma extends_nil p : extends p p [].
Proof. split; by rewrite app_nil_r. Qed.

Lemma extends_trans p1 p2 p3 os1 os2 : extends p1 p2 os1 -> extends p2 p3 os2 -> extends p1 p3 (os1 ++ os2).
Proof. intros [A1 A2] [B1 B2]. split; by rewrite ?B1, ?B2, ?A1, ?A2, omap_app, <- app_assoc. Qed.

(** The entry is planned as a write of its formula. *)
Definition plans_write e p p' : Prop :=
  exists v formula, loader_value e formula /\ holds e v formula /\
    extends p p' [Written (planned_at (target_of e) v (width_of e))].

Lemma plan_symbol_spec e p p' :
  IsSymbolRelocation (rela_type e) = true ->
  plan_symbol metadata resolver load_bias e (target_of e) p = (p', kRelocationOk) ->
  (exists s, unprovided e s /\
     extends p p' [Missing (mkUnresolved (rela_symbol e) (rela_type e) (target_of e) (sym_name s))]) \/
  plans_write e p p'.
Proof.
  intros Ht. unfold plan_symbol. pose proof (resolve_symbol_spec e) as Hr.
  destruct (resolve_symbol _ _ _ _) as [resolved import| |status].
  - destruct (symbol_value _ _ _ _) as [v|] eqn:Ev; [|done]. intros [= <-]. right.
    exists v. apply (symbol_holds e) in Ev; [|done]. unfold code_formula in Ev.
    eexists. split; [|split; [exact Ev|split; simpl; by rewrite ?app_nil_r]]. clear Ev.
    pose proof Ht as Ht'%one_of_spec.
    repeat (apply elem_of_cons in Ht' as [Ht'|Ht'];
      [rewrite Ht' in Hr |- *; cbn -[target_of] in Hr |- *; rewrite ?Z.add_0_r;
       first [by apply abi_slot; rewrite ?Ht'|by apply abi_pc; rewrite ?Ht'
             |by apply abi_address; rewrite ?Ht'|by apply abi_size; rewrite ?Ht']|]).
    by apply elem_of_nil in Ht'.
  - intros [= <-]. left. destruct (Hr Ht) as (s & Hs). exists s. split; [done|].
    destruct Hs as (_ & _ & Hs & _). rewrite Hs. split; simpl; by rewrite ?app_nil_r.
  - intros [= <- ->]. done.
Qed.

(** The thread-local and relative relocations all have 64-bit fields. *)
Lemma wide_write e p v formula :
  one_of [kRelocationTlsModuleId; kRelocationTlsDtpOffset; kRelocationTlsTpOffset; kRelocationRelative;
          kRelocationRelative64] (rela_type e) = true ->
  loader_value e formula -> to_u64 v = to_u64 formula ->
  plans_write e p (push_planned (planned_at (target_of e) v 8) p).
Proof.
  intros Ht%one_of_spec Hf Hv. exists v, formula.
  assert (Hw : width_of e = 8%nat /\ signed_field (rela_type e) = false).
  { unfold width_of. repeat (apply elem_of_cons in Ht as [->|Ht]; [done|]). by apply elem_of_nil in Ht. }
  destruct Hw as [Hw Hs]. split_and!; [done|by apply holds8|]. rewrite Hw. split; simpl; by rewrite ?app_nil_r.
Qed.

Lemma plan_tls_spec e p p' :
  one_of [kRelocationTlsDtpOffset; kRelocationTlsTpOffset] (rela_type e) = true ->
  plan_tls_offset metadata tls_module_id tls_static_offset e (target_of e) p = (p', kRelocationOk) ->
  plans_write e p p'.
Proof.
  intros Ht. unfold plan_tls_offset. cbv beta zeta.
  destruct (tls_module_id =? 0) eqn:Em; [done|].
  destruct (_ && _) eqn:Ep; [done|].
  assert (Hpush : forall s, tls_symbol_denotes (rela_symbol e) s ->
    plans_write e p (push_planned (planned_at (target_of e)
      (if rela_type e =? kRelocationTlsTpOffset then ((s + to_u64 (rela_addend e))%u64 - tls_static_offset)%u64
       else (s + to_u64 (rela_addend e))%u64) 8) p)).
  { intros s Hs. rewrite sum_word, difference_word. apply one_of_spec in Ht.
    apply elem_of_cons in Ht as [Ht|Ht].
    - eapply wide_write; [by rewrite Ht|apply (abi_tls_dtp _ e s); [done|lia|done]|].
      rewrite Ht. apply to_u64_idem.
    - apply list_elem_of_singleton in Ht. rewrite Ht in Ep. cbn [Z.eqb andb] in Ep.
      eapply wide_write; [by rewrite Ht|apply (abi_tls_tp _ e s); [done|lia| |done]|rewrite Ht; apply to_u64_idem].
      intros Hz. by rewrite Hz in Ep. }
  destruct (rela_symbol e =? 0) eqn:E0.
  { intros [= <-]. apply Hpush. apply null_tls_symbol. lia. }
  destruct (symbol_at metadata (rela_symbol e)) as [s|] eqn:Es; [|done].
  destruct (sym_section_index s =? _) eqn:Eu; [done|]. intros [= <-]. apply Hpush.
  eapply defined_tls_symbol; [lia|done|]. unfold kUndefinedSectionIndex in Eu. lia.
Qed.

Lemma plan_entry_spec m e p p' :
  is_u64 (rela_offset e) ->
  plan_entry metadata resolver load_bias tls_module_id tls_static_offset m e p = (p', kRelocationOk) ->
  exists o, planned_as m e o /\ extends p p' [o].
Proof.
  intros Ho. unfold plan_entry. destruct (rela_type e =? kRelocationNone) eqn:En.
  { intros [= <-]. exists Skipped. split; [apply planned_skip; lia|]. split; simpl; by rewrite app_nil_r. }
  destruct (check_type e) eqn:Ec; try done.
  destruct (_ >? _) eqn:Eo; [done|]. rewrite add64_small by u64_lia. fold (target_of e).
  destruct (IsMappedLocked _ _ m) eqn:Em; cbn [negb]; [|done]. intros Hp.
  assert (Hdone : plans_write e p p' -> exists o, planned_as m e o /\ extends p p' [o]).
  { intros (v & formula & Hf & Hv & Hx). eexists. split; [|exact Hx].
    apply (planned_write m e v formula); try done; [lia|unfold target_of; lia]. }
  revert Hp. unfold plan_relocation.
  destruct (rela_type e =? kRelocationTlsModuleId) eqn:E1.
  { destruct (tls_module_id =? 0) eqn:Ez; [done|]. intros [= <-]. apply Hdone.
    apply Z.eqb_eq in E1. eapply wide_write; [by rewrite E1|apply abi_tls_module; [done|lia]|done]. }
  destruct (_ || _) eqn:E2.
  { intros Hp. apply Hdone. eapply plan_tls_spec; [|done]. unfold one_of. simpl. by rewrite orb_false_r. }
  destruct (IsSymbolRelocation (rela_type e)) eqn:E3.
  { intros Hp. apply plan_symbol_spec in Hp as [(s & Hs & Hx)|Hw]; [|by apply Hdone|done].
    eexists. split; [|exact Hx]. apply planned_missing; [lia|done|unfold target_of; lia|done]. }
  intros [= <-]. apply Hdone. unfold check_type in Ec. rewrite E3 in Ec.
  rewrite sum_word.
  destruct (one_of [kRelocationTlsModuleId; _; _] _) eqn:E4.
  { apply orb_false_iff in E2 as [E2 E2']. unfold one_of in E4. simpl in E4. by rewrite E1, E2, E2' in E4. }
  destruct (one_of [kRelocationRelative; _] _) eqn:E5; [|done].
  destruct (rela_symbol e =? 0) eqn:E6; [|done].
  eapply wide_write; [|apply abi_relative; [done|lia]|apply to_u64_idem].
  apply one_of_spec in E5. by apply elem_of_cons in E5 as [->| ->%list_elem_of_singleton].
Qed.

Lemma PlanTable_spec m es : forall p p',
  Forall (fun e => is_u64 (rela_offset e)) es ->
  PlanTable metadata resolver load_bias tls_module_id tls_static_offset es m p = (p', kRelocationOk) ->
  exists os, Forall2 (planned_as m) es os /\ extends p p' os.
Proof.
  induction es as [|e es IH]; intros p p' Hes; cbn [PlanTable].
  { intros [= <-]. exists []. split; [constructor|apply extends_nil]. }
  apply Forall_cons in Hes as [He Hes].
  destruct (plan_entry _ _ _ _ _ _ _ _) as [p1 []] eqn:E1; try done. intros Hp.
  destruct (plan_entry_spec _ _ _ _ He E1) as (o & Ho & Hx).
  destruct (IH _ _ Hes Hp) as (os & Hos & Hx'). exists (o :: os). split; [by constructor|].
  by apply (extends_trans p p1 p' [o] os).
Qed.

(** ** Writing the plan *)

(** The addresses a planned relocation writes. *)
Definition covers_loc m r (l : loc) : Prop :=
  exists i, 0 <= i < Z.of_nat (pr_size r) /\ loc_of m (pr_address r + i) = l.

(** What a list of planned writes leaves: the last write of a location wins. *)
Definition overwritten m m' (rs : list PlannedRelocation) : Prop :=
  (forall a, base_address_ m <= a < gm_end m -> (forall r, r ∈ rs -> ~ covers_loc m r (loc_of m a)) ->
     guest_byte m' a = guest_byte m a) /\
  (forall pre r post i, rs = pre ++ r :: post -> 0 <= i < Z.of_nat (pr_size r) ->
     (forall j, i < j < Z.of_nat (pr_size r) -> loc_of m (pr_address r + j) <> loc_of m (pr_address r + i)) ->
     (forall r', r' ∈ post -> ~ covers_loc m r' (loc_of m (pr_address r + i))) ->
     guest_byte m' (pr_address r + i) = source_byte (take (pr_size r) (pr_value r)) i).

Definition writable m r : Prop :=
  is_u64 (pr_address r) /\ (pr_size r <= List.length (pr_value r))%nat /\
  IsMappedLocked (pr_address r) (Z.of_nat (pr_size r)) m = true.

Lemma same_tables_loc m m' a : same_tables m m' -> loc_of m' a = loc_of m a.
Proof. intros [_ _ Hs]. unfold loc_of. by rewrite Hs. Qed.

Lemma overwritten_cons m m1 m2 r rs :
  gm_ok m -> writable m r -> same_shape m m1 -> same_tables m m1 ->
  stored (source_byte (take (pr_size r) (pr_value r))) m m1 (pr_address r) (Z.of_nat (pr_size r)) ->
  overwritten m1 m2 rs -> overwritten m m2 (r :: rs).
Proof.
  intros Hm (Ha & Hlen & Hmap) Hsh Ht [S1 S2] [O1 O2].
  assert (Hl : forall a, loc_of m1 a = loc_of m a) by (intros; by apply same_tables_loc).
  assert (Hc : forall r' l, covers_loc m1 r' l <-> covers_loc m r' l).
  { intros r' l. unfold covers_loc. by setoid_rewrite Hl. }
  assert (Hend : gm_end m1 = gm_end m) by (destruct Hsh as [B1 B2 _ _]; unfold gm_end; by rewrite B1, B2).
  pose proof (sh_base _ _ Hsh) as Hbase.
  destruct (initialized_window m (pr_address r) (Z.of_nat (pr_size r)) Hm Ha ltac:(lia) Hmap) as (_ & W1 & W2).
  split.
  - intros a Hin Hno. rewrite O1; [apply S1; [done|]|rewrite Hbase, Hend; lia|].
    + intros i Hi Hq. apply (Hno r); [left|]. by exists i.
    + intros r' Hr'. rewrite Hl, Hc. apply Hno. by right.
  - intros [|r0 pre] r' post i Heq Hi Hself Hpost; simplify_eq/=.
    + rewrite O1; [by apply (S2 i)|rewrite Hbase, Hend; lia|]. intros r'' Hr''. rewrite Hl, Hc. by apply Hpost.
    + apply (O2 pre r' post i); [done|done| |].
      * intros j Hj. rewrite !Hl. by apply Hself.
      * intros r'' Hr''. rewrite Hl, Hc. by apply Hpost.
Qed.

Lemma write_planned_spec rs : forall m n,
  gm_ok m -> Forall (writable m) rs ->
  let '(m', applied, ok) := write_planned rs m n in
  gm_ok m' /\ same_shape m m' /\ same_tables m m' /\ n <= applied <= n + Z.of_nat (List.length rs) /\
  (host_mapped m = false \/ host_never_fails -> ok = true) /\
  (if ok then applied = n + Z.of_nat (List.length rs) /\ overwritten m m' rs
   else applied < n + Z.of_nat (List.length rs)).
Proof.
  induction rs as [|r rs IH]; intros m n Hm Hrs; cbn [write_planned].
  { split_and!; try done; try (simpl; lia). split; [done|].
    intros [|? ?] r post i Heq; simplify_eq/=. }
  apply Forall_cons in Hrs as [Hr Hrs]. pose proof Hr as (Ha & Hlen & Hmap).
  pose proof (Initialize_spec (pr_address r) (take (pr_size r) (pr_value r)) m Hm Ha) as Hi.
  assert (Hn : Z.of_nat (List.length (take (pr_size r) (pr_value r))) = Z.of_nat (pr_size r)).
  { rewrite length_take. lia. }
  unfold initializes in Hi. rewrite Hn, Hmap in Hi.
  destruct (Initialize _ _ m) as [m1 ok]. destruct Hi as (k & Hk & Hok & Hnf & Hm1 & Hsh & Ht & _ & Hst & _).
  simpl in *. destruct ok.
  2:{ split_and!; try done; lia. }
  rewrite (Hok eq_refl) in Hst.
  assert (Hrs1 : Forall (writable m1) rs).
  { eapply Forall_impl; [exact Hrs|]. intros r' (A1 & A2 & A3). split_and!; [done|done|].
    by rewrite (same_tables_mapped m m1) by (done || lia). }
  specialize (IH m1 (n + 1) Hm1 Hrs1). destruct (write_planned rs m1 (n + 1)) as [[m' applied] ok].
  destruct IH as (I1 & I2 & I3 & I4 & I5 & I6). rewrite (sh_host _ _ Hsh) in I5.
  split_and!; [done| | |lia|lia|done|].
  { destruct Hsh, I2. split; congruence. }
  { destruct Ht, I3. split; congruence. }
  destruct ok; [|lia]. destruct I6 as [I6 I7]. split; [lia|]. by eapply overwritten_cons.
Qed.

(** ** Refusals are justified *)

Lemma resolve_symbol_complete e v :
  loader_symbol (IsSizeRelocation (rela_type e)) (rela_symbol e) v ->
  exists import, resolve_symbol metadata resolver load_bias e = Resolved v import.
Proof.
  unfold resolve_symbol, kUndefinedSectionIndex, kSymbolBindingWeak.
  intros [H0|s H0 Hs Hd Hv|s H0 Hs Hu Hw|s res address H0 Hs Hu Hw Hr (P1 & P2 & P3) Hn].
  - rewrite H0. by exists false.
  - replace (rela_symbol e =? 0) with false by lia. rewrite Hs.
    replace (sym_section_index s =? 0) with false by lia. cbn [negb].
    destruct (IsSizeRelocation (rela_type e)); [by exists false|]. specialize (Hv eq_refl).
    pose proof (Hsymbols s ltac:(by eapply list_elem_of_lookup_2)) as Hs'. unfold is_u64 in *.
    destruct (Z.gtb_spec (sym_value s) (u64_max - load_bias)); [lia|].
    rewrite add64_small by lia. by exists false.
  - replace (rela_symbol e =? 0) with false by lia. rewrite Hs, Hu, Hw. by exists false.
  - replace (rela_symbol e =? 0) with false by lia. rewrite Hs, Hu, Hr.
    destruct (Z.eqb_spec (sym_binding s) 2); [done|]. cbn [negb Z.eqb]. exists true. unfold resolve_import.
    destruct (ir_nid (ResolveElfImportReference metadata (sym_name s))) eqn:En; [done|].
    cbn [str_empty]. rewrite P1. cbn [negb].
    set (ref := ResolveElfImportReference metadata (sym_name s)) in *.
    destruct (ir_library ref), (ir_module ref); rewrite P3; by destruct (Z.eqb_spec address 0).
Qed.

Lemma resolve_unprovided e s :
  unprovided e s -> resolve_symbol metadata resolver load_bias e = Unresolved.
Proof.
  intros (Ht & H0 & Hs & Hu & Hw & Hres). unfold resolve_symbol, kUndefinedSectionIndex, kSymbolBindingWeak.
  replace (rela_symbol e =? 0) with false by lia. rewrite Hs, Hu. cbn [negb Z.eqb].
  destruct (Z.eqb_spec (sym_binding s) 2); [done|]. destruct resolver as [res|] eqn:Er; [|done].
  destruct (Hres res eq_refl) as [Hn Hp]. pose proof (resolve_import_spec (rela_type e) s res) as Hi.
  destruct (resolve_import metadata (rela_type e) s res) as [v b| |status] eqn:E; [|done|].
  { destruct Hi as (address & Hp' & _). by apply Hp in Hp'. }
  exfalso. revert E. unfold resolve_import. set (ref := ResolveElfImportReference metadata (sym_name s)) in *.
  destruct (ir_nid ref) eqn:En; [done|]. cbn [str_empty].
  destruct (ir_valid ref) eqn:Ev; cbn [negb]; [|done].
  set (found := match ir_library ref with Some _ => _ | None => _ end).
  destruct found as [address|] eqn:Ef; [|done]. exfalso. apply (Hp address). unfold provides_import. fold ref.
  rewrite En. split_and!; [done|done|]. by destruct (ir_library ref), (ir_module ref).
Qed.

Lemma abi_code_formula e formula :
  IsSymbolRelocation (rela_type e) = true -> loader_value e formula ->
  exists s, loader_symbol (IsSizeRelocation (rela_type e)) (rela_symbol e) s /\
    formula = code_formula (rela_type e) s (rela_addend e) (target_of e).
Proof.
  intros Ht%one_of_spec Hf. unfold code_formula.
  repeat (apply elem_of_cons in Ht as [Ht|Ht];
    [destruct Hf as [Hx ?|Hx ?|s Hx ?|s Hx ? ?|s Hx ?|s Hx ?|s Hx ?|s Hx ?]; rewrite Ht in *; try done;
     exists s; (split; [done|]); cbn -[target_of]; lia|]).
  by apply elem_of_nil in Ht.
Qed.

Lemma field4_range v : - 2 ^ 31 <= field_value true 4 v <= 2 ^ 31 - 1.
Proof.
  unfold field_value. change (8 * Z.of_nat 4) with 32. change (32 - 1) with 31.
  pose proof (Z.mod_pos_bound v (2 ^ 32) eq_refl). cbn [andb].
  destruct (Z.leb_spec (2 ^ 31) (v mod 2 ^ 32)); lia.
Qed.

Lemma to_i64_small f : - 2 ^ 31 <= f <= 2 ^ 31 - 1 -> to_i64 (to_u64 f) = f.
Proof.
  intros Hf. unfold to_i64, to_u64. change u64_modulus with (2 * 2 ^ 63).
  rewrite mod_shift_half by lia. destruct (Z.ltb_spec f 0).
  - destruct (Z.ltb_spec (f + 2 * 2 ^ 63) (2 ^ 63)); lia.
  - destruct (Z.ltb_spec f (2 ^ 63)); lia.
Qed.

(** A field that can hold the formula passes the range check. *)
Lemma symbol_value_complete e s v :
  IsSymbolRelocation (rela_type e) = true ->
  holds e v (code_formula (rela_type e) s (rela_addend e) (target_of e)) ->
  is_Some (symbol_value (rela_type e) s (rela_addend e) (target_of e)).
Proof.
  intros Ht. rewrite symbol_value_eq. unfold holds, width_of, range_checked.
  set (w := to_u64 (code_formula _ _ _ _)).
  destruct (symbol_fields _ Ht) as [[E1 E2]|[(E1 & E2 & E3)|[E1 E2]]]; rewrite E1, ?E2, ?E3; cbn [andb]; intros Hw.
  - rewrite <- Hw, to_i64_small by apply field4_range. pose proof (field4_range v).
    destruct (Z.ltb_spec (field_value true 4 v) (- 2 ^ 31)); [lia|].
    destruct (Z.gtb_spec (field_value true 4 v) (2 ^ 31 - 1)); [lia|done].
  - destruct (Z.gtb_spec w (2 ^ 32 - 1)) as [Hgt|]; [exfalso|done]. revert Hgt. rewrite <- Hw.
    unfold field_value. cbn [andb]. change (2 ^ (8 * Z.of_nat 4)) with (2 ^ 32).
    pose proof (Z.mod_pos_bound v (2 ^ 32) eq_refl). rewrite to_u64_id; [lia|]. split; [lia|].
    rewrite u64_max_eq. lia.
  - destruct (one_of _ _) eqn:E3; [|done]. exfalso. revert E2. unfold RelocationWriteSize.
    apply one_of_spec in E3. by apply elem_of_cons in E3 as [->| ->%list_elem_of_singleton].
Qed.

Lemma abi_symbol_kind e formula :
  loader_value e formula ->
  (one_of [kRelocationRelative; kRelocationRelative64] (rela_type e) = true /\ rela_symbol e = 0) \/
  (rela_type e = kRelocationTlsModuleId /\ tls_module_id <> 0) \/
  (one_of [kRelocationTlsDtpOffset; kRelocationTlsTpOffset] (rela_type e) = true /\ tls_module_id <> 0 /\
   (rela_type e = kRelocationTlsTpOffset -> tls_static_offset <> 0) /\
   exists s, tls_symbol_denotes (rela_symbol e) s) \/
  IsSymbolRelocation (rela_type e) = true.
Proof.
  intros [Hx ?|Hx ?|s Hx ? ?|s Hx ? ? ?|s Hx ?|s Hx ?|s Hx ?|s Hx ?].
  - by left.
  - right; by left.
  - do 2 right. left. rewrite Hx. by eauto.
  - do 2 right. left. rewrite Hx. by eauto.
  - do 3 right; by eapply one_of_incl; [|exact Hx].
  - do 3 right; by eapply one_of_incl; [|exact Hx].
  - do 3 right; by eapply one_of_incl; [|exact Hx].
  - do 3 right; by eapply one_of_incl; [|exact Hx].
Qed.

Lemma plan_relocation_complete e p v formula :
  loader_value e formula -> holds e v formula -> check_type e = kRelocationOk /\
  exists p', plan_relocation metadata resolver load_bias tls_module_id tls_static_offset e (target_of e) p
    = (p', kRelocationOk).
Proof.
  intros Hf Hh. unfold plan_relocation, check_type.
  destruct (abi_symbol_kind e formula Hf) as [[Ht H0]|[[Ht Hid]|[(Ht & Hid & Hoff & s & Hs)|Ht]]].
  - apply one_of_spec in Ht. rewrite H0. by apply elem_of_cons in Ht as [->| ->%list_elem_of_singleton]; eauto.
  - rewrite Ht. cbn. destruct (Z.eqb_spec tls_module_id 0); [done|]. eauto.
  - assert (Hp : exists p', plan_tls_offset metadata tls_module_id tls_static_offset e (target_of e) p
      = (p', kRelocationOk)).
    { unfold plan_tls_offset, kUndefinedSectionIndex. destruct (Z.eqb_spec tls_module_id 0); [done|].
      destruct (Z.eqb_spec (rela_type e) kRelocationTlsTpOffset), (Z.eqb_spec tls_static_offset 0);
        cbn [andb]; try (by exfalso; apply Hoff);
      (destruct Hs as [->|x H0 Hx Hd]; [by eauto|]; rewrite Hx;
       destruct (Z.eqb_spec (rela_symbol e) 0), (Z.eqb_spec (sym_section_index x) 0); try done; eauto). }
    apply one_of_spec in Ht.
    by apply elem_of_cons in Ht as [->| ->%list_elem_of_singleton]; split.
  - rewrite Ht. split; [done|].
    destruct (symbol_not_tls _ Ht) as [-> ->]. unfold plan_symbol.
    destruct (abi_code_formula e formula Ht Hf) as (s & Hs & ->).
    destruct (resolve_symbol_complete e s Hs) as (b & ->).
    destruct (symbol_value_complete e s v Ht Hh) as (w & ->). by eauto.
Qed.

Lemma plan_entry_complete m e p o :
  is_u64 (rela_offset e) -> planned_as m e o ->
  exists p', plan_entry metadata resolver load_bias tls_module_id tls_static_offset m e p = (p', kRelocationOk).
Proof.
  intros He Ho. unfold plan_entry.
  destruct (Z.eqb_spec (rela_type e) kRelocationNone) as [|Hn]; [by eauto|].
  assert (Hgo : target_of e <= u64_max -> IsMappedLocked (target_of e) (Z.of_nat (width_of e)) m = true ->
    (rela_offset e >? u64_max - load_bias) = false /\ (load_bias + rela_offset e)%u64 = target_of e /\
    IsMappedLocked (target_of e) (Z.of_nat (RelocationWriteSize (rela_type e))) m = true).
  { unfold target_of. intros Ht Hmap. split_and!; [|by rewrite add64_small by u64_lia|done].
    destruct (Z.gtb_spec (rela_offset e) (u64_max - load_bias)); [lia|done]. }
  destruct Ho as [|s _ Hu Ht Hmap|v formula _ Ht Hmap Hf Hh]; [done|..];
    destruct (Hgo Ht Hmap) as (-> & -> & ->); cbn [negb].
  - pose proof (resolve_unprovided e s Hu) as Hr. destruct Hu as (Hty & _).
    unfold check_type, plan_relocation. rewrite Hty.
    destruct (symbol_not_tls _ Hty) as [-> ->]. unfold plan_symbol. rewrite Hr. by eauto.
  - by destruct (plan_relocation_complete e p v formula Hf Hh) as [-> Hp].
Qed.

(** A refused table has an entry that cannot be planned. *)
Lemma PlanTable_refused m es : forall p p' status,
  Forall (fun e => is_u64 (rela_offset e)) es ->
  PlanTable metadata resolver load_bias tls_module_id tls_static_offset es m p = (p', status) ->
  status <> kRelocationOk -> exists e, e ∈ es /\ forall o, ~ planned_as m e o.
Proof.
  induction es as [|e es IH]; intros p p' status Hes; cbn [PlanTable]; [by intros [= <- <-]|].
  apply Forall_cons in Hes as [He Hes].
  destruct (plan_entry _ _ _ _ _ _ _ _) as [p1 s1] eqn:E1. destruct (decide (s1 = kRelocationOk)) as [->|Hs1].
  - intros Hp Hs. destruct (IH _ _ _ Hes Hp Hs) as (e' & Hin & Ho). exists e'. split; [by right|done].
  - intros _ _. exists e. split; [by left|]. intros o Ho.
    destruct (plan_entry_complete m e p o He Ho) as (p2 & E2). by rewrite E1 in E2; simplify_eq.
Qed.

(** ** The whole pass *)

Definition entries : list ElfRelaEntry :=
  di_relocations (em_dynamic_info metadata) ++ di_plt_relocations (em_dynamic_info metadata).

#[local] Abbreviation apply_relocations := (ApplyRelocationsInternal metadata resolver load_bias tls_module_id tls_static_offset).

(** Planning both tables is planning their concatenation. *)
Lemma PlanTable_app m es1 es2 : forall p,
  PlanTable metadata resolver load_bias tls_module_id tls_static_offset (es1 ++ es2) m p =
  match PlanTable metadata resolver load_bias tls_module_id tls_static_offset es1 m p with
  | (p1, kRelocationOk) => PlanTable metadata resolver load_bias tls_module_id tls_static_offset es2 m p1
  | failed => failed
  end.
Proof.
  induction es1 as [|e es1 IH]; intros p; cbn [PlanTable app]; [done|].
  by destruct (plan_entry _ _ _ _ _ _ _ _) as [p1 []].
Qed.

Context (Hentries : Forall (fun e => is_u64 (rela_offset e)) entries).

Lemma encoded_length v n : (n <= List.length (EncodeLittleEndian v n))%nat.
Proof. unfold EncodeLittleEndian. rewrite length_app, length_map, length_seq. lia. Qed.

Lemma planned_writable m es os :
  Forall (fun e => is_u64 (rela_offset e)) es -> Forall2 (planned_as m) es os ->
  Forall (writable m) (omap written_of os).
Proof.
  intros Hes Hos. revert Hes. induction Hos as [|e o es os Ho Hos IH]; intros Hes; [constructor|].
  apply Forall_cons in Hes as [He Hes]. specialize (IH Hes). unfold is_u64 in He. unfold is_u64 in Hbias.
  inversion Ho; subst; cbn [omap list_omap written_of]; [done|done|]. constructor; [|done].
  unfold target_of in *. split_and!; cbn; [split; lia|apply encoded_length|done].
Qed.

(** Planning never reports a failed write. *)
Lemma plan_entry_planning m e p p' status :
  plan_entry metadata resolver load_bias tls_module_id tls_static_offset m e p = (p', status) ->
  status <> kWriteFailed.
Proof.
  unfold plan_entry, plan_relocation, plan_tls_offset, plan_symbol, resolve_symbol, resolve_import, check_type.
  cbv beta zeta. intros Hp ->. revert Hp. repeat (split_match; simplify_eq; try done).
Qed.

Lemma PlanTable_planning m es : forall p p' status,
  PlanTable metadata resolver load_bias tls_module_id tls_static_offset es m p = (p', status) ->
  status <> kWriteFailed.
Proof.
  induction es as [|e es IH]; intros p p' status; cbn [PlanTable]; [by intros [= <- <-]|].
  destruct (plan_entry _ _ _ _ _ _ _ _) as [p1 s1] eqn:E1. apply plan_entry_planning in E1.
  destruct s1; try (by intros [= <- <-]); try done. apply IH.
Qed.

(** A result of the pass: refused while planning, or written as planned. *)
Lemma apply_relocations_cases m :
  gm_ok m ->
  let '(m', result) := apply_relocations m in
  (m' = m /\ rr_applied_count result = 0 /\ rr_status result <> kRelocationOk /\ rr_status result <> kWriteFailed /\
   exists e, e ∈ entries /\ forall o, ~ planned_as m e o) \/
  (exists os, Forall2 (planned_as m) entries os /\ rr_unresolved_imports result = omap missing_of os /\
     gm_ok m' /\ same_shape m m' /\ same_tables m m' /\
     if decide (rr_status result = kRelocationOk)
     then rr_applied_count result = Z.of_nat (List.length (omap written_of os)) /\
          overwritten m m' (omap written_of os)
     else rr_status result = kWriteFailed /\ host_mapped m = true /\ ~ host_never_fails /\
          0 <= rr_applied_count result < Z.of_nat (List.length (omap written_of os))).
Proof.
  intros Hm. unfold ApplyRelocationsInternal. cbv zeta.
  rewrite <- PlanTable_app. fold entries.
  destruct (PlanTable _ _ _ _ _ _ _ _) as [p status] eqn:Ep.
  destruct (decide (status = kRelocationOk)) as [->|Hs].
  2:{ pose proof (PlanTable_refused _ _ _ _ _ Hentries Ep Hs). apply PlanTable_planning in Ep.
      by destruct status; try done; left. }
  destruct (PlanTable_spec m entries _ _ Hentries Ep) as (os & Hos & Hp & Hu).
  simpl in Hp, Hu. pose proof (planned_writable m entries os Hentries Hos) as Hw.
  pose proof (write_planned_spec (rp_planned p) m 0 Hm) as Hwr. rewrite Hp in Hwr |- *.
  specialize (Hwr Hw). destruct (write_planned _ m 0) as [[m' applied] ok].
  destruct Hwr as (W1 & W2 & W3 & W4 & W5 & W6). right. exists os. cbn [relocation_result rr_unresolved_imports].
  split_and!; try done. simpl. destruct ok; simpl in *.
  - done.
  - split_and!; [done| | |lia|lia].
    + destruct (host_mapped m); [done|]. by discriminate (W5 (or_introl eq_refl)).
    + intros Hn. by discriminate (W5 (or_intror Hn)).
Qed.

(** The writes behind an outcome. *)
Lemma omap_written_split (os : list outcome) i r :
  os !! i = Some (Written r) ->
  omap written_of os = omap written_of (take i os) ++ r :: omap written_of (drop (S i) os).
Proof. intros Hi. rewrite <- (take_drop_middle os i _ Hi) at 1. by rewrite omap_app. Qed.

(** The field at the target of an entry, as the guest reads it. *)
Definition field_read m e : Z :=
  field_value (signed_field (rela_type e)) (width_of e)
    (le_value (guest_bytes m (target_of e) (Z.of_nat (width_of e)))).

(** No later write, of this field or of a later entry, hits the field. *)
Definition undisturbed m (os : list outcome) (i : nat) e : Prop :=
  (forall j k, 0 <= j < k -> k < Z.of_nat (width_of e) ->
     loc_of m (target_of e + k) <> loc_of m (target_of e + j)) /\
  (forall k r j, (i < k)%nat -> os !! k = Some (Written r) -> 0 <= j < Z.of_nat (width_of e) ->
     ~ covers_loc m r (loc_of m (target_of e + j))).

Lemma field_value_mod signed n v : field_value signed n (v mod 256 ^ Z.of_nat n) = field_value signed n v.
Proof.
  unfold field_value. change 256 with (2 ^ 8). rewrite <- Z.pow_mul_r by lia.
  by rewrite Zmod_mod.
Qed.

Lemma undisturbed_field m m' os i e v :
  overwritten m m' (omap written_of os) ->
  os !! i = Some (Written (planned_at (target_of e) v (width_of e))) -> undisturbed m os i e ->
  field_read m' e = field_value (signed_field (rela_type e)) (width_of e) v.
Proof.
  intros [_ Ho] Hi [Hself Hlater]. unfold field_read.
  rewrite <- (field_value_mod _ _ v), <- le_value_bytes. f_equal. f_equal.
  apply list_eq. intros j. destruct (decide (j < width_of e)%nat) as [Hj|Hj].
  2:{ rewrite !lookup_ge_None_2; [done|rewrite le_bytes_length; lia|rewrite guest_bytes_length; lia]. }
  rewrite guest_bytes_lookup by lia.
  specialize (Ho _ _ _ (Z.of_nat j) (omap_written_split os i _ Hi) ltac:(cbn; lia)). cbn in Ho.
  rewrite Ho.
  - rewrite take_encoded. unfold source_byte. rewrite Nat2Z.id.
    destruct (lookup_lt_is_Some_2 (le_bytes (width_of e) v) j) as [b Hb]; [by rewrite le_bytes_length|].
    by rewrite Hb.
  - intros k Hk. apply Hself; lia.
  - intros r (o & Hin & Hr)%list_elem_of_omap. destruct o as [| |r0]; simplify_eq/=.
    apply list_elem_of_lookup in Hin as (k & Hk). rewrite lookup_drop in Hk.
    apply (Hlater (S i + k)%nat); [lia|done|lia].
Qed.
End psabi.

(** The fields of the metadata are 64-bit words. *)
Record relocation_words (metadata : ElfMetadata) : Prop := {
  rw_offsets : Forall (fun e => is_u64 (rela_offset e)) (entries metadata);
  rw_symbols : forall s, s ∈ symbols metadata -> is_u64 (sym_value s)
}.

(** C28: what a successful relocation writes.  Every entry of both tables was
    skipped ([R_X86_64_NONE]), recorded as an import nobody provides and left
    unwritten, or written.  A written field that no later entry overwrites, read
    with its width and signedness, is the value of its psABI formula (S + A,
    S + A - P, also for PLT32 entries, B + A, S, Z + A, and the thread-local ones)
    modulo 2^64, so no 32-bit field was truncated.  S is the loader's: it moves every symbol with a
    section index by the bias and takes 0 for a weak undefined symbol; for a symbol
    that is not absolute, and not a weak undefined one that somebody provides, it
    is the S of the psABI.  No other byte of the guest changes, and no mapping. *)
Theorem relocations_follow_abi `{HostMemory} metadata resolver bias tls_id tls_offset m m' result :
  gm_ok m -> is_u64 bias -> relocation_words metadata ->
  ApplyRelocationsInternal metadata resolver bias tls_id tls_offset m = (m', result) ->
  rr_status result = kRelocationOk ->
  gm_ok m' /\ same_shape m m' /\ same_tables m m' /\
  exists os, Forall2 (planned_as metadata resolver bias tls_id tls_offset m) (entries metadata) os /\
    rr_applied_count result = Z.of_nat (List.length (omap written_of os)) /\
    rr_unresolved_imports result = omap missing_of os /\
    (forall i e r, entries metadata !! i = Some e -> os !! i = Some (Written r) -> undisturbed bias m os i e ->
       exists formula, formula_value metadata bias tls_id tls_offset (loader_symbol metadata resolver bias) e formula /\
         (ordinary_symbol metadata resolver (rela_symbol e) ->
          formula_value metadata bias tls_id tls_offset (psabi_symbol metadata resolver bias) e formula) /\
         to_u64 (field_read bias m' e) = to_u64 formula) /\
    (forall a, base_address_ m <= a < gm_end m ->
       (forall r, Written r ∈ os -> ~ covers_loc m r (loc_of m a)) -> guest_byte m' a = guest_byte m a).
Proof.
  intros Hm Hb [Hoff Hsym] Heq Hok.
  pose proof (apply_relocations_cases metadata resolver bias tls_id tls_offset Hb Hsym Hoff m Hm) as Hc.
  rewrite Heq in Hc. destruct Hc as [(_ & _ & Hn & _)|(os & Hos & Hu & Hm' & Hsh & Ht & Hc)]; [done|].
  rewrite decide_True in Hc by done. destruct Hc as [Happ Hover].
  split_and!; [done|done|done|]. exists os. split_and!; [done|done|done| |].
  - intros i e r Hi Ho Hun. destruct (Forall2_lookup_l _ _ _ _ _ Hos Hi) as (o & Ho' & Hp).
    simplify_eq. inversion Hp as [| |v formula ? ? ? Hf Hh]; subst. exists formula. split; [done|].
    split; [intros Hord; eapply formula_mono; [|exact Hf]; intros size x; by apply loader_psabi|].
    by rewrite (undisturbed_field _ m m' os i e v) by done.
  - intros a Ha Hno. apply Hover; [done|]. intros r (o & Hin & Hr)%list_elem_of_omap.
    destruct o as [| |r0]; simplify_eq/=. by apply Hno.
Qed.

(** Relocation is all or nothing.  A refused relocation leaves the memory
    exactly as it was, and is refused for a reason: some entry is unsupported,
    has no mapped target, an invalid symbol, or a value its field cannot hold,
    so it cannot be planned at all.  Once every entry can be planned the writes
    succeed, unless the memory is host mapped and a host call fails. *)
Theorem relocation_failure_is_clean `{HostMemory} metadata resolver bias tls_id tls_offset m m' result :
  gm_ok m -> is_u64 bias -> relocation_words metadata ->
  ApplyRelocationsInternal metadata resolver bias tls_id tls_offset m = (m', result) ->
  rr_status result <> kRelocationOk ->
  (m' = m /\ rr_applied_count result = 0 /\
   exists e, e ∈ entries metadata /\ forall o, ~ planned_as metadata resolver bias tls_id tls_offset m e o) \/
  (rr_status result = kWriteFailed /\ host_mapped m = true /\ ~ host_never_fails /\
   gm_ok m' /\ same_shape m m' /\ same_tables m m').
Proof.
  intros Hm Hb [Hoff Hsym] Heq Hok.
  pose proof (apply_relocations_cases metadata resolver bias tls_id tls_offset Hb Hsym Hoff m Hm) as Hc.
  rewrite Heq in Hc. destruct Hc as [(-> & -> & _ & _ & He)|(os & Hos & Hu & Hm' & Hsh & Ht & Hc)]; [by left|right].
  rewrite decide_False in Hc by done. naive_solver.
Qed.
