(* ===== verification/ModuleExports.v ===== *)
(** The registry of module exports ([src/loader/module_export_registry.cpp]):
    the symbols the loaded modules export, by library, module and name, and the
    import resolver that searches them. *)
From S2P Require Import Prelude Elf SceSymbol Relocator.

Definition kMaximumModuleExports : Z := 262144.
Definition kSymbolBindingGlobal : Z := 1.
Definition kSymbolTypeNone : Z := 0.
Definition kSymbolTypeObject : Z := 1.
Definition kSymbolTypeFunction : Z := 2.
Definition kMaximumScopeNameLength : nat := 127.
Definition kMaximumSymbolNameLength : nat := 255.

Inductive ModuleExportRegistryStatus := kExportOk | kAddressOverflow | kDuplicateExport | kCapacityExceeded.

#[global] Instance ModuleExportRegistryStatus_eq_dec : EqDecision ModuleExportRegistryStatus.
Proof. solve_decision. Defined.

Record ModuleExportRegistrationResult := mkExportResult {
  er_status : ModuleExportRegistryStatus;
  er_registered_count : Z;
  er_skipped_count : Z;
  er_failed_symbol_index : option Z
}.

(** The key tuple: library name and version, module name, major and minor
    version, symbol name. *)
Record ExportKey := mkExportKey {
  xk_library : string;
  xk_library_version : Z;
  xk_module : string;
  xk_version_major : Z;
  xk_version_minor : Z;
  xk_symbol : string
}.

#[global] Instance ExportKey_eq_dec : EqDecision ExportKey.
Proof. solve_decision. Defined.

#[global] Instance ExportKey_countable : Countable ExportKey.
Proof.
  refine (inj_countable'
    (fun k => (xk_library k, xk_library_version k, xk_module k, xk_version_major k, xk_version_minor k, xk_symbol k))
    (fun '(l, v, m, a, b, s) => mkExportKey l v m a b s) _).
  by intros [].
Defined.

Abbreviation ModuleExportRegistry := (gmap ExportKey Z).

Definition nul : Ascii.ascii := Ascii.zero.

Definition IsValidName (name : string) (maximum_length : nat) : bool :=
  negb (str_empty name) && (String.length name <=? maximum_length)%nat
  && match str_find nul name with None => true | Some _ => false end.

Definition IsExportSymbol (s : ElfSymbol) : bool :=
  negb (sym_value s =? 0)
  && ((sym_binding s =? kSymbolBindingGlobal) || (sym_binding s =? kSymbolBindingWeak))
  && ((sym_type s =? kSymbolTypeNone) || (sym_type s =? kSymbolTypeObject)
      || (sym_type s =? kSymbolTypeFunction)).

Definition Exports_FindIdentity {I} (id_of : I -> Z) (id : Z) (identities : list I) : option I :=
  find (fun identity => id_of identity =? id) identities.

Record CandidateExport := mkCandidate { ce_key : ExportKey; ce_address : Z; ce_symbol_index : Z }.

(** The key a symbol is exported under, if it is: the checks of the loop up to
    the address. *)
Definition export_key (info : ElfDynamicInfo) (s : ElfSymbol) : option ExportKey :=
  if negb (IsExportSymbol s) then None
  else
    match ParseSceSymbolReference (sym_name s) with
    | None => None
    | Some reference =>
        if negb (IsValidName (sr_nid reference) kMaximumSymbolNameLength) then None
        else
          match Exports_FindIdentity li_id (sr_library_id reference) (di_export_libraries info),
                Exports_FindIdentity mi_id (sr_module_id reference) (di_export_modules info) with
          | Some library, Some module =>
              if negb (IsValidName (li_name library) kMaximumScopeNameLength)
                 || negb (IsValidName (mi_name module) kMaximumScopeNameLength) then None
              else Some (mkExportKey (li_name library) (li_version library) (mi_name module)
                           (mi_version_major module) (mi_version_minor module) (sr_nid reference))
          | _, _ => None
          end
    end.

(** The first loop: the candidates and the number of skipped symbols, or the
    failed result. *)
Fixpoint collect_exports (info : ElfDynamicInfo) (load_bias : Z) (symbols : list ElfSymbol) (index : Z)
    (candidates : list CandidateExport) (skipped_count : Z)
    : list CandidateExport * Z + ModuleExportRegistrationResult :=
  match symbols with
  | [] => inl (candidates, skipped_count)
  | s :: rest =>
      match export_key info s with
      | None => collect_exports info load_bias rest (index + 1) candidates (skipped_count + 1)
      | Some key =>
          if sym_value s >? u64_max - load_bias then
            inr (mkExportResult kAddressOverflow 0 skipped_count (Some (index mod 2 ^ 32)))
          else if Z.of_nat (length candidates) =? kMaximumModuleExports then
            inr (mkExportResult kCapacityExceeded 0 skipped_count (Some (index mod 2 ^ 32)))
          else
            collect_exports info load_bias rest (index + 1)
              (candidates ++ [mkCandidate key (load_bias + sym_value s)%u64 (index mod 2 ^ 32)]) skipped_count
      end
  end.

(** The second loop, on the copy: the updated entries, or the index of a
    duplicate. *)
Fixpoint insert_exports (candidates : list CandidateExport) (updated : ModuleExportRegistry)
    : ModuleExportRegistry + Z :=
  match candidates with
  | [] => inl updated
  | candidate :: rest =>
      match updated !! ce_key candidate with
      | Some _ => inr (ce_symbol_index candidate)
      | None => insert_exports rest (<[ce_key candidate := ce_address candidate]> updated)
      end
  end.

Definition Exports_RegisterModule (metadata : ElfMetadata) (load_bias : Z) (registry : ModuleExportRegistry)
    : ModuleExportRegistry * ModuleExportRegistrationResult :=
  let info := em_dynamic_info metadata in
  match collect_exports info load_bias (di_symbols info) 0 [] 0 with
  | inr failed => (registry, failed)
  | inl (candidates, skipped_count) =>
      let size := Z.of_nat (map_size registry) in
      if (size >? kMaximumModuleExports)
         || (Z.of_nat (length candidates) >? kMaximumModuleExports - size) then
        (registry, mkExportResult kCapacityExceeded 0 skipped_count None)
      else
        match insert_exports candidates registry with
        | inr index => (registry, mkExportResult kDuplicateExport 0 skipped_count (Some index))
        | inl updated =>
            (updated, mkExportResult kExportOk (Z.of_nat (length candidates)) skipped_count None)
        end
  end.

(** The scan of all entries: nothing, one address, or an ambiguity. *)
Inductive scan_result := NoMatch | OneMatch (address : Z) | Ambiguous.

Fixpoint scan (matches : ExportKey -> bool) (entries : list (ExportKey * Z)) (found : option Z) : scan_result :=
  match entries with
  | [] => match found with None => NoMatch | Some address => OneMatch address end
  | (key, address) :: rest =>
      if negb (matches key) then scan matches rest found
      else match found with Some _ => Ambiguous | None => scan matches rest (Some address) end
  end.

Definition string_eqb (a b : string) : bool := bool_decide (a = b).

Fixpoint resolve_libraries (symbol : string) (libraries : list string) (registry : ModuleExportRegistry)
    : option (option Z) :=
  match libraries with
  | [] => None
  | library :: rest =>
      if negb (IsValidName library kMaximumScopeNameLength) then Some None
      else
        match scan (fun k => string_eqb (xk_library k) library && string_eqb (xk_symbol k) symbol)
                (map_to_list registry) None with
        | Ambiguous => Some None
        | OneMatch address => Some (Some address)
        | NoMatch => resolve_libraries symbol rest registry
        end
  end.

Definition Exports_ResolveImport (registry : ModuleExportRegistry) (symbol : string)
    (library_order : list string) : option Z :=
  if negb (IsValidName symbol kMaximumSymbolNameLength) then None
  else
    match resolve_libraries symbol library_order registry with
    | Some answer => answer
    | None =>
        match library_order with
        | _ :: _ => None
        | [] =>
            match scan (fun k => string_eqb (xk_symbol k) symbol) (map_to_list registry) None with
            | OneMatch address => Some address
            | _ => None
            end
        end
    end.

Definition scoped_key (symbol : string) (library : ElfLibraryIdentity) (module : ElfModuleIdentity) : ExportKey :=
  mkExportKey (li_name library) (li_version library) (mi_name module) (mi_version_major module)
    (mi_version_minor module) symbol.

Definition Exports_ResolveScopedImport (registry : ModuleExportRegistry) (symbol : string)
    (library : ElfLibraryIdentity) (module : ElfModuleIdentity) : option Z :=
  if negb (IsValidName symbol kMaximumSymbolNameLength)
     || negb (IsValidName (li_name library) kMaximumScopeNameLength)
     || negb (IsValidName (mi_name module) kMaximumScopeNameLength) then None
  else registry !! scoped_key symbol library module.

(** The registry as an import resolver. *)
Definition RegistryResolver (registry : ModuleExportRegistry) : ImportResolver :=
  mkResolver (Exports_ResolveImport registry) (Exports_ResolveScopedImport registry).

(** The export registry implements a table of exported symbols: it lists exactly
    the exports of the modules it accepted, and its searches answer exactly when
    the table determines the answer. *)

Implicit Types (registry : ModuleExportRegistry) (k : ExportKey) (metadata : ElfMetadata).

(** ** Scanning *)

Lemma scan_spec p l : forall found,
  scan p l found =
  match option_list found ++ (List.filter (fun e => p e.1) l).*2 with
  | [] => NoMatch
  | [a] => OneMatch a
  | _ => Ambiguous
  end.
Proof.
  induction l as [|[k a] l IH]; intros found; cbn [scan List.filter]; [by destruct found|].
  cbn [fst]. destruct (p k); cbn [negb]; [|apply IH].
  destruct found as [x|]; [by destruct (List.filter _ l)|]. rewrite IH. done.
Qed.

(** The entries whose key matches. *)
Definition hits (p : ExportKey -> bool) registry : list (ExportKey * Z) :=
  List.filter (fun e => p e.1) (map_to_list registry).

Lemma elem_of_hits p registry k a : (k, a) ∈ hits p registry <-> registry !! k = Some a /\ p k = true.
Proof.
  unfold hits. split.
  - intros [Hin Hp]%list_elem_of_In%filter_In. split; [|done]. by apply elem_of_map_to_list, list_elem_of_In.
  - intros [Hk Hp]. apply list_elem_of_In, filter_In. split; [|done]. by apply list_elem_of_In, elem_of_map_to_list.
Qed.

Lemma scan_None p registry :
  scan p (map_to_list registry) None = NoMatch <-> forall k a, registry !! k = Some a -> p k = false.
Proof.
  rewrite scan_spec. cbn [option_list app]. fold (hits p registry).
  destruct (hits p registry) as [|[k0 a0] rest] eqn:Ef.
  - split; [|done]. intros _ k a Hk. destruct (p k) eqn:Ep; [exfalso|done].
    assert (Hin : (k, a) ∈ hits p registry) by (by apply elem_of_hits).
    rewrite Ef in Hin. by apply elem_of_nil in Hin.
  - split; [by destruct rest|]. intros Hno. exfalso.
    assert (Hin : (k0, a0) ∈ hits p registry) by (rewrite Ef; left).
    apply elem_of_hits in Hin as [Hin Hp]. by rewrite (Hno _ _ Hin) in Hp.
Qed.

(** The scan answers when exactly one key matches. *)
Definition only_match (p : ExportKey -> bool) registry (a : Z) : Prop :=
  exists k, p k = true /\ registry !! k = Some a /\
    forall k' a', registry !! k' = Some a' -> p k' = true -> k' = k.

Lemma scan_One p registry a :
  scan p (map_to_list registry) None = OneMatch a <-> only_match p registry a.
Proof.
  rewrite scan_spec. cbn [option_list app].
  fold (hits p registry). pose proof (elem_of_hits p registry) as Hin.
  assert (Hnd : NoDup (hits p registry)).
  { unfold hits. eapply sublist_NoDup; [apply NoDup_map_to_list|apply filter_sublist]. }
  unfold only_match. split.
  - destruct (hits p registry) as [|[k a0] [|]] eqn:Eh; try done. cbn. intros [= ->].
    destruct (proj1 (Hin k a)) as [Hk Hp]; [left|]. exists k. split_and!; [done|done|].
    intros k' a' Hk' Hp'. assert (Hx : (k', a') ∈ [(k, a)]) by (by apply Hin). by apply list_elem_of_singleton in Hx; simplify_eq.
  - intros (k & Hp & Hk & Huniq). destruct (hits p registry) as [|[k1 a1] [|[k2 a2] rest]] eqn:Eh.
    + assert (Hx : (k, a) ∈ @nil (ExportKey * Z)) by (by apply Hin). by apply elem_of_nil in Hx.
    + destruct (proj1 (Hin k1 a1)) as [Hk1 Hp1]; [left|]. rewrite (Huniq k1 a1 Hk1 Hp1) in Hk1. by simplify_eq.
    + destruct (proj1 (Hin k1 a1)) as [Hk1 Hp1]; [left|].
      destruct (proj1 (Hin k2 a2)) as [Hk2 Hp2]; [right; left|].
      pose proof (Huniq _ _ Hk1 Hp1). pose proof (Huniq _ _ Hk2 Hp2). simplify_eq.
      apply NoDup_cons in Hnd as [Hnd _]. exfalso. apply Hnd. left.
Qed.

(** ** Registration *)

(** A module exports an address under a key. *)
Definition exports metadata (load_bias : Z) k (a : Z) : Prop :=
  exists s, s ∈ di_symbols (em_dynamic_info metadata) /\
    export_key (em_dynamic_info metadata) s = Some k /\ a = load_bias + sym_value s.

Definition export_words (x : ElfMetadata * Z) : Prop :=
  is_u64 x.2 /\ forall s, s ∈ di_symbols (em_dynamic_info x.1) -> is_u64 (sym_value s).

Lemma collect_exports_spec info bias symbols : forall index cs n cs' n',
  is_u64 bias -> Forall (fun s => is_u64 (sym_value s)) symbols ->
  collect_exports info bias symbols index cs n = inl (cs', n') ->
  forall k a, (exists c, c ∈ cs' /\ ce_key c = k /\ ce_address c = a) <->
    (exists c, c ∈ cs /\ ce_key c = k /\ ce_address c = a) \/
    (exists s, s ∈ symbols /\ export_key info s = Some k /\ a = bias + sym_value s).
Proof.
  induction symbols as [|s symbols IH]; intros index cs n cs' n' Hb Hs; cbn [collect_exports].
  { intros [= <- <-] k a. split; [by left|]. intros [?|(s & ?%elem_of_nil & _)]; done. }
  apply Forall_cons in Hs as [Hs0 Hs]. destruct (export_key info s) as [k0|] eqn:Ek.
  - destruct (Z.gtb_spec (sym_value s) (u64_max - bias)); [done|]. destruct (_ =? _); [done|].
    intros Hc k a. rewrite (IH _ _ _ _ _ Hb Hs Hc k a). rewrite add64_small by u64_lia. split.
    + intros [(c & [Hin|Hin%list_elem_of_singleton]%elem_of_app & <- & <-)|(x & Hx & Hk & Ha)].
      * left. by exists c.
      * subst c. right. exists s. split; [left|done].
      * right. exists x. split; [by right|done].
    + intros [(c & Hin & Hk & Ha)|(x & [->|Hx]%elem_of_cons & Hk & Ha)].
      * left. exists c. split; [by apply elem_of_app; left|done].
      * left. eexists. split; [by apply elem_of_app; right; apply list_elem_of_singleton|]. by simplify_eq.
      * right. by exists x.
  - intros Hc k a. rewrite (IH _ _ _ _ _ Hb Hs Hc k a). split; (intros [?|(x & Hx & Hk & Ha)]; [by left|right]).
    + exists x. split; [by right|done].
    + apply elem_of_cons in Hx as [->|Hx]; [congruence|]. by exists x.
Qed.

Lemma collect_exports_failed info bias symbols : forall index cs n failed,
  collect_exports info bias symbols index cs n = inr failed -> er_status failed <> kExportOk.
Proof.
  induction symbols as [|s symbols IH]; intros index cs n failed; cbn [collect_exports]; [done|].
  destruct (export_key info s); [|apply IH].
  destruct (_ >? _); [by intros [= <-]|]. destruct (_ =? _); [by intros [= <-]|]. apply IH.
Qed.

Lemma insert_exports_spec cs : forall registry updated,
  insert_exports cs registry = inl updated ->
  (forall k a, updated !! k = Some a <->
     registry !! k = Some a \/ exists c, c ∈ cs /\ ce_key c = k /\ ce_address c = a) /\
  map_size updated = (map_size registry + length cs)%nat.
Proof.
  induction cs as [|c cs IH]; intros registry updated; cbn [insert_exports].
  { intros [= <-]. split; [|simpl; lia]. intros k a. split; [by left|]. intros [?|(c & ?%elem_of_nil & _)]; done. }
  destruct (registry !! ce_key c) as [|] eqn:Er; [done|]. intros Hu.
  destruct (IH _ _ Hu) as [Hl Hn]. split.
  - intros k a. rewrite Hl. destruct (decide (ce_key c = k)) as [<-|Hk].
    + rewrite lookup_insert_eq, Er. split.
      * intros [[= <-]|(x & Hx & Hxk)]; [by right; exists c; split; [left|]|]. right. exists x. split; [by right|done].
      * intros [?|(x & [->|Hx]%elem_of_cons & Hxk & <-)]; [done|by left|]. right. by exists x.
    + rewrite lookup_insert_ne by done. split.
      * intros [?|(x & Hx & Hxk)]; [by left|]. right. exists x. split; [by right|done].
      * intros [?|(x & [->|Hx]%elem_of_cons & Hxk)]; [by left|naive_solver|]. right. by exists x.
  - rewrite Hn. change (map_size ?m) with (size m). rewrite map_size_insert_None by done. simpl. lia.
Qed.

Definition names_valid k : Prop :=
  IsValidName (xk_symbol k) kMaximumSymbolNameLength = true /\
  IsValidName (xk_library k) kMaximumScopeNameLength = true /\
  IsValidName (xk_module k) kMaximumScopeNameLength = true.

Lemma export_key_valid info s k : export_key info s = Some k -> names_valid k.
Proof.
  unfold export_key, names_valid. destruct (IsExportSymbol s); [|done]. cbn [negb].
  destruct (ParseSceSymbolReference _) as [ref|]; [|done].
  destruct (IsValidName (sr_nid ref) _) eqn:E1; cbn [negb]; [|done].
  destruct (Exports_FindIdentity li_id _ _) as [l|]; [|done].
  destruct (Exports_FindIdentity mi_id _ _) as [md|]; [|done].
  destruct (IsValidName (li_name l) _) eqn:E2, (IsValidName (mi_name md) _) eqn:E3; simpl; intros [= <-]; done.
Qed.

(** The table of a list of modules. *)
Definition exported (modules : list (ElfMetadata * Z)) k (a : Z) : Prop :=
  exists x, x ∈ modules /\ exports x.1 x.2 k a.

(** The registry lists exactly the exports of the modules. *)
Definition registry_ok registry (modules : list (ElfMetadata * Z)) : Prop :=
  (forall k a, registry !! k = Some a <-> exported modules k a) /\
  Z.of_nat (map_size registry) <= kMaximumModuleExports.

Lemma Exports_RegisterModule_cases registry metadata bias :
  export_words (metadata, bias) ->
  let '(registry', result) := Exports_RegisterModule metadata bias registry in
  if decide (er_status result = kExportOk) then
    (forall k a, registry' !! k = Some a <-> registry !! k = Some a \/ exports metadata bias k a) /\
    Z.of_nat (map_size registry') <= kMaximumModuleExports
  else registry' = registry.
Proof.
  intros [Hb Hs]. simpl in Hb, Hs. unfold Exports_RegisterModule. cbv zeta.
  destruct (collect_exports _ _ _ _ _ _) as [[cs n]|failed] eqn:Ec.
  2:{ by rewrite decide_False by (by eapply collect_exports_failed). }
  pose proof (collect_exports_spec _ _ _ _ _ _ _ _ Hb ltac:(by apply Forall_forall) Ec) as Hc.
  destruct (_ || _) eqn:Ecap; [done|].
  destruct (insert_exports cs registry) as [updated|index] eqn:Ei; [|done].
  destruct (insert_exports_spec _ _ _ Ei) as [Hl Hn]. rewrite decide_True by done. split.
  - intros k a. rewrite Hl, Hc. unfold exports. split; [|tauto]. intros [?|[(c & ?%elem_of_nil & _)|?]]; tauto.
  - apply orb_false_iff in Ecap as [E1 E2]. rewrite Hn. lia.
Qed.

(** ** Histories *)

(** The modules registered in turn; those accepted, in order. *)
Fixpoint register_modules (modules : list (ElfMetadata * Z)) registry
    : ModuleExportRegistry * list (ElfMetadata * Z) :=
  match modules with
  | [] => (registry, [])
  | x :: rest =>
      let '(registry1, result) := Exports_RegisterModule x.1 x.2 registry in
      let '(registry2, accepted) := register_modules rest registry1 in
      (registry2, if decide (er_status result = kExportOk) then x :: accepted else accepted)
  end.

Lemma register_modules_ok modules : forall registry known,
  Forall export_words modules -> registry_ok registry known ->
  let '(registry', accepted) := register_modules modules registry in registry_ok registry' (known ++ accepted).
Proof.
  induction modules as [|[metadata bias] rest IH]; intros registry known Hw Hr; cbn [register_modules];
    [by rewrite app_nil_r|].
  apply Forall_cons in Hw as [Hx Hw]. cbn [fst snd].
  pose proof (Exports_RegisterModule_cases registry metadata bias Hx) as Hc.
  destruct (Exports_RegisterModule metadata bias registry) as [registry1 result].
  destruct (decide (er_status result = kExportOk)) as [Hok|Hno].
  - specialize (IH registry1 (known ++ [(metadata, bias)]) Hw).
    destruct (register_modules rest registry1) as [registry2 accepted].
    rewrite <- app_assoc in IH. apply IH. destruct Hc as [Hl Hn], Hr as [Hr _]. split; [|done].
    intros k a. rewrite Hl, Hr. unfold exported. setoid_rewrite elem_of_app.
    setoid_rewrite list_elem_of_singleton. naive_solver.
  - subst registry1. specialize (IH registry known Hw Hr). by destruct (register_modules rest registry).
Qed.

Lemma register_modules_sublist modules : forall registry,
  (register_modules modules registry).2 `sublist_of` modules.
Proof.
  induction modules as [|x rest IH]; intros registry; cbn [register_modules]; [done|].
  destruct (Exports_RegisterModule x.1 x.2 registry) as [registry1 result].
  specialize (IH registry1). destruct (register_modules rest registry1) as [registry2 accepted].
  cbn [snd] in *. destruct (decide _); by constructor.
Qed.

Lemma resolve_libraries_spec symbol libraries registry a :
  resolve_libraries symbol libraries registry = Some (Some a) <->
  exists pre library post, libraries = pre ++ library :: post /\
    Forall (fun l => IsValidName l kMaximumScopeNameLength = true /\
      forall k b, registry !! k = Some b -> xk_library k = l -> xk_symbol k <> symbol) pre /\
    IsValidName library kMaximumScopeNameLength = true /\
    only_match (fun k => string_eqb (xk_library k) library && string_eqb (xk_symbol k) symbol) registry a.
Proof.
  induction libraries as [|l libraries IH]; cbn [resolve_libraries].
  { split; [done|]. by intros ([|? ?] & library & post & ? & _). }
  set (p := fun k => string_eqb (xk_library k) l && string_eqb (xk_symbol k) symbol).
  assert (Hp : forall k, p k = true <-> xk_library k = l /\ xk_symbol k = symbol).
  { intros k. unfold p, string_eqb. by rewrite andb_true_iff, !bool_decide_eq_true. }
  destruct (IsValidName l _) eqn:El; cbn [negb].
  2:{ split; [done|]. intros ([|l0 pre] & library & post & [= -> ->] & Hpre & Hlib & _); [congruence|].
      apply Forall_cons in Hpre as [[? _] _]. congruence. }
  destruct (scan p (map_to_list registry) None) as [|a'|] eqn:Es.
  - rewrite IH. pose proof (proj1 (scan_None p registry) Es) as Hno. split.
    + intros (pre & library & post & -> & Hpre & Hrest). exists (l :: pre), library, post.
      split; [done|]. split; [|done]. constructor; [|done]. split; [done|]. intros k b Hk Hl Hs.
      specialize (Hno k b Hk). by rewrite (proj2 (Hp k)) in Hno.
    + intros ([|l0 pre] & library & post & [= -> ->] & Hpre & Hlib & Honly).
      * apply scan_One in Honly. fold p in Honly. by rewrite Es in Honly.
      * apply Forall_cons in Hpre as [_ Hpre]. by exists pre, library, post.
  - assert (Hone : only_match p registry a') by (by apply scan_One). split.
    + intros [= <-]. exists [], l, libraries. split_and!; [done|constructor|done|done].
    + intros ([|l0 pre] & library & post & [= -> ->] & Hpre & Hlib & Honly).
      * apply scan_One in Honly. fold p in Honly. rewrite Es in Honly. by simplify_eq.
      * apply Forall_cons in Hpre as [[_ Hpre] _]. destruct Hone as (k & Hk & Hr & _).
        apply Hp in Hk as [Hl Hs]. exfalso. by eapply Hpre.
  - split; [done|]. intros ([|l0 pre] & library & post & [= -> ->] & Hpre & Hlib & Honly).
    + apply scan_One in Honly. fold p in Honly. by rewrite Es in Honly.
    + apply Forall_cons in Hpre as [[_ Hpre] _]. exfalso.
      assert (Hn : scan p (map_to_list registry) None = NoMatch); [|by rewrite Es in Hn].
      apply scan_None. intros k b Hk. destruct (p k) eqn:Ek; [|done]. apply Hp in Ek as [Hl Hs].
      by destruct (Hpre k b Hk Hl).
Qed.

(** Exactly one key of the table satisfies [P], and it has the address. *)
Definition exported_once (modules : list (ElfMetadata * Z)) (P : ExportKey -> Prop) (a : Z) : Prop :=
  exists k, P k /\ exported modules k a /\ forall k' a', exported modules k' a' -> P k' -> k' = k.

Section lookup.
Context (registry : ModuleExportRegistry) (modules : list (ElfMetadata * Z)) (Hr : registry_ok registry modules).

Lemma registered_names k a : registry !! k = Some a -> names_valid k.
Proof. intros (x & _ & s & _ & Hk & _)%Hr. by eapply export_key_valid. Qed.

Lemma only_match_exported p (P : ExportKey -> Prop) a :
  (forall k, p k = true <-> P k) -> only_match p registry a <-> exported_once modules P a.
Proof.
  intros Hp. unfold only_match, exported_once. setoid_rewrite Hp. setoid_rewrite (proj1 Hr). done.
Qed.

Lemma resolve_scoped_spec nid library module a :
  Exports_ResolveScopedImport registry nid library module = Some a <->
  exported modules (scoped_key nid library module) a.
Proof.
  rewrite <- (proj1 Hr). unfold Exports_ResolveScopedImport. split; [by destruct (_ || _)|].
  intros Hk. destruct (registered_names _ _ Hk) as (N1 & N2 & N3). simpl in N1, N2, N3. by rewrite N1, N2, N3.
Qed.

Lemma resolve_any_spec nid a :
  Exports_ResolveImport registry nid [] = Some a <-> exported_once modules (fun k => xk_symbol k = nid) a.
Proof.
  rewrite <- (only_match_exported (fun k => string_eqb (xk_symbol k) nid))
    by (intros k; apply bool_decide_eq_true).
  unfold Exports_ResolveImport. cbn [resolve_libraries]. rewrite <- scan_One.
  destruct (IsValidName nid _) eqn:En; cbn [negb].
  - destruct (scan _ _ _) as [|b|]; [done| |done]. split; by intros [= ->].
  - split; [done|]. intros (k & Hk%bool_decide_eq_true & Hl & _)%scan_One.
    destruct (registered_names _ _ Hl) as (N1 & _). congruence.
Qed.

Lemma resolve_order_spec nid libraries a :
  libraries <> [] ->
  Exports_ResolveImport registry nid libraries = Some a <->
  exists pre library post, libraries = pre ++ library :: post /\
    (forall l, l ∈ pre -> IsValidName l kMaximumScopeNameLength = true /\
       forall k b, exported modules k b -> xk_library k = l -> xk_symbol k <> nid) /\
    exported_once modules (fun k => xk_library k = library /\ xk_symbol k = nid) a.
Proof.
  intros Hne. transitivity (resolve_libraries nid libraries registry = Some (Some a)).
  { unfold Exports_ResolveImport. destruct (IsValidName nid _) eqn:En; cbn [negb].
    - destruct (resolve_libraries _ _ _) as [[b|]|]; [by split; intros [= ->]|done|by destruct libraries].
    - split; [done|]. intros (pre & library & post & _ & _ & _ & k & Hk & Hl & _)%resolve_libraries_spec.
      apply andb_true_iff in Hk as [_ Hk%bool_decide_eq_true].
      destruct (registered_names _ _ Hl) as (N1 & _). congruence. }
  rewrite resolve_libraries_spec.
  assert (Hone : forall library, only_match
      (fun k => string_eqb (xk_library k) library && string_eqb (xk_symbol k) nid) registry a <->
    exported_once modules (fun k => xk_library k = library /\ xk_symbol k = nid) a).
  { intros library. apply only_match_exported. intros k. unfold string_eqb.
    by rewrite andb_true_iff, !bool_decide_eq_true. }
  split; intros (pre & library & post & -> & Hpre & Hrest); exists pre, library, post; (split; [done|]).
  - destruct Hrest as [_ Honly%Hone]. split; [|done]. intros l Hl.
    rewrite Forall_forall in Hpre. destruct (Hpre l Hl) as [Hv Hno]. split; [done|].
    intros k b Hk%Hr. by apply (Hno k b).
  - split; [|split; [|by apply Hone]].
    + apply Forall_forall. intros l Hl. destruct (Hpre l Hl) as [Hv Hno]. split; [done|].
      intros k b Hk%Hr. by apply (Hno k b).
    + destruct Hrest as (k & [<- _] & Hk%Hr & _). by apply (registered_names _ _ Hk).
Qed.
End lookup.

(** C29: the export registry is a table of exported symbols.  After any sequence
    of registrations it lists exactly the exports of the accepted modules, each
    key once; a scoped import finds exactly the export of that library, module,
    version and name; an unscoped one finds an export when exactly one module
    exports the name, searching the given libraries in order and stopping at the
    first that has it. *)
Theorem export_registry_refines modules nid a :
  Forall export_words modules ->
  let '(registry, accepted) := register_modules modules ∅ in
  accepted `sublist_of` modules /\
  (forall k b b', exported accepted k b -> exported accepted k b' -> b = b') /\
  (forall library module, Exports_ResolveScopedImport registry nid library module = Some a <->
     exported accepted (scoped_key nid library module) a) /\
  (Exports_ResolveImport registry nid [] = Some a <-> exported_once accepted (fun k => xk_symbol k = nid) a) /\
  (forall libraries, libraries <> [] ->
     Exports_ResolveImport registry nid libraries = Some a <->
     exists pre library post, libraries = pre ++ library :: post /\
       (forall l, l ∈ pre -> IsValidName l kMaximumScopeNameLength = true /\
          forall k b, exported accepted k b -> xk_library k = l -> xk_symbol k <> nid) /\
       exported_once accepted (fun k => xk_library k = library /\ xk_symbol k = nid) a).
Proof.
  intros Hw. pose proof (register_modules_ok modules ∅ [] Hw) as Hr.
  pose proof (register_modules_sublist modules ∅) as Hsub.
  destruct (register_modules modules ∅) as [registry accepted].
  assert (Hok : registry_ok registry accepted).
  { apply Hr. split; [|done]. intros k b. rewrite lookup_empty. split; [done|]. by intros (x & ?%elem_of_nil & _). }
  split; [done|]. split; [intros k b b' H1%Hok H2%Hok; congruence|].
  split; [intros; by apply resolve_scoped_spec|]. split; [by apply resolve_any_spec|].
  intros; by apply resolve_order_spec.
Qed.
