(* ===== verification/StaticTlsInstance.v ===== *)
(** Static thread-local storage of a thread ([src/loader/static_tls_instance.cpp]):
    one allocation with the modules' blocks below the thread pointer, the thread
    control block at it and the dynamic thread vector behind. *)
From S2P Require Import Prelude Ranges OrderedMap LittleEndian GuestMemory GuestMemoryMap.
From S2P Require Import GuestMemoryOps GuestMemoryData GuestMemoryWrite GuestMemoryCopy.
From S2P Require Import GuestMemoryInit GuestMemoryRuns GuestBlocks StaticTls.

Definition kStaticTlsThreadControlBlockBytes : Z := 0x80.
Definition kStaticTlsThreadPointerAlignment : Z := 0x20.
Definition kStaticTlsStackGuard : Z := 0xC0DEC0DECAFEBA00.
Definition kStaticTlsDtvHeaderBytes : Z := 16.
Definition kStaticTlsDtvGeneration : Z := 1.

Record StaticTlsTemplateModule := mkTlsTemplate {
  tm_module_id : Z;
  tm_image_address : Z;
  tm_initial_size : Z;
  tm_memory_size : Z;
  tm_static_offset : Z
}.

Record StaticTlsInstance := mkTlsInstance {
  ti_allocation_address : Z;
  ti_allocation_size : Z;
  ti_thread_pointer : Z;
  ti_dtv_address : Z
}.
Definition StaticTlsInstance_default : StaticTlsInstance := mkTlsInstance 0 0 0 0.

Inductive StaticTlsInstanceStatus :=
| kInstanceOk | kInstanceInvalidArgument | kInstanceOverflow | kInstanceAllocationFailed
| kInstanceCopyFailed | kInstanceWriteFailed.

Implicit Types (m : GuestMemory) (t : StaticTlsLayout) (x : StaticTlsTemplateModule).

(** [Add] and [AlignUp]. *)
Definition TlsAdd (left right : Z) : option Z :=
  if right >? u64_max - left then None else Some (left + right)%u64.

Definition TlsAlignUp (value alignment : Z) : option Z :=
  if (alignment =? 0) || negb (Z.land alignment (alignment - 1)%u64 =? 0) then None
  else if value >? u64_max - (alignment - 1)%u64 then None
  else Some (align_up_mask value alignment).

Definition TlsWriteUInt64 (address value : Z) m : GuestMemory * bool :=
  Write address (map (fun index => Z.land (Z.shiftr value (Z.of_nat index * 8)) 0xff) (seq 0 8)) m.

(** The argument check of one module, given the largest id so far. *)
Definition template_ok t m (maximum_module_id : Z) x : bool :=
  negb (tm_module_id x =? 0)
  && match FindModule (tm_module_id x) t with
     | None => false
     | Some registered =>
         (ts_memory_size registered =? tm_memory_size x)
         && (ts_static_offset registered =? tm_static_offset x)
     end
  && negb (tm_memory_size x =? 0)
  && negb (tm_initial_size x >? tm_memory_size x)
  && negb (tm_static_offset x <? tm_memory_size x)
  && negb (tm_static_offset x >? total_size_ t)
  && negb (tm_module_id x <=? maximum_module_id)
  && ((tm_initial_size x =? 0) || CanAccessLocked (tm_image_address x) (tm_initial_size x) kRead m).

(** The loop of checks: the largest module id, or none. *)
Fixpoint check_templates t m (modules : list StaticTlsTemplateModule) (maximum_module_id : Z) : option Z :=
  match modules with
  | [] => Some maximum_module_id
  | x :: rest =>
      if template_ok t m maximum_module_id x then check_templates t m rest (tm_module_id x) else None
  end.

(** The sizes of the data below the thread pointer and of the allocation. *)
Definition instance_sizes (total_size thread_pointer_alignment allocation_alignment maximum_module_id : Z)
    : option (Z * Z) :=
  match TlsAlignUp total_size thread_pointer_alignment with
  | None => None
  | Some data_bytes =>
      if maximum_module_id >? (u64_max - kStaticTlsDtvHeaderBytes) / 8 then None
      else
        match TlsAdd kStaticTlsDtvHeaderBytes (maximum_module_id * 8)%u64 with
        | None => None
        | Some dtv_entries_bytes =>
            match TlsAdd data_bytes kStaticTlsThreadControlBlockBytes with
            | None => None
            | Some content_bytes =>
                match TlsAdd content_bytes dtv_entries_bytes with
                | None => None
                | Some content_bytes =>
                    match TlsAlignUp content_bytes allocation_alignment with
                    | None => None
                    | Some allocation_size => Some (data_bytes, allocation_size)
                    end
                end
            end
        end
  end.

Fixpoint copy_images (thread_pointer : Z) (modules : list StaticTlsTemplateModule) m : GuestMemory * bool :=
  match modules with
  | [] => (m, true)
  | x :: rest =>
      if tm_initial_size x =? 0 then copy_images thread_pointer rest m
      else
        match Copy (thread_pointer - tm_static_offset x)%u64 (tm_image_address x) (tm_initial_size x) m with
        | (m', true) => copy_images thread_pointer rest m'
        | failed => failed
        end
  end.

(** Word stores in order, stopping at the first that fails. *)
Fixpoint write_words (words : list (Z * Z)) m : GuestMemory * bool :=
  match words with
  | [] => (m, true)
  | (address, value) :: rest =>
      match TlsWriteUInt64 address value m with
      | (m', true) => write_words rest m'
      | failed => failed
      end
  end.

Definition control_words (thread_pointer dtv_address maximum_module_id : Z) : list (Z * Z) :=
  [(thread_pointer, thread_pointer);
   ((thread_pointer + 8)%u64, dtv_address);
   ((thread_pointer + 16)%u64, thread_pointer);
   ((thread_pointer + 0x28)%u64, kStaticTlsStackGuard);
   ((thread_pointer + 0x60)%u64, thread_pointer);
   (dtv_address, kStaticTlsDtvGeneration);
   ((dtv_address + 8)%u64, maximum_module_id)].

Definition vector_words (thread_pointer dtv_address : Z) (modules : list StaticTlsTemplateModule) : list (Z * Z) :=
  map (fun x => (((dtv_address + kStaticTlsDtvHeaderBytes)%u64 + ((tm_module_id x - 1)%u64 * 8)%u64)%u64,
                 (thread_pointer - tm_static_offset x)%u64)) modules.

(** The stores into the allocation, and the status of the first that fails. *)
Definition fill_instance (thread_pointer dtv_address maximum_module_id : Z)
    (modules : list StaticTlsTemplateModule) m : GuestMemory * StaticTlsInstanceStatus :=
  match copy_images thread_pointer modules m with
  | (m1, false) => (m1, kInstanceCopyFailed)
  | (m1, true) =>
      match write_words (control_words thread_pointer dtv_address maximum_module_id) m1 with
      | (m2, false) => (m2, kInstanceWriteFailed)
      | (m2, true) =>
          match write_words (vector_words thread_pointer dtv_address modules) m2 with
          | (m3, false) => (m3, kInstanceWriteFailed)
          | (m3, true) => (m3, kInstanceOk)
          end
      end
  end.

Section instance.
Context `{HostMemory}.

(** [Map] and [Fill] of the allocation, with their clean-up. *)
Definition allocate_instance (allocation allocation_size : Z) m : GuestMemory * bool :=
  let '(m1, mapped) := Map allocation allocation_size (Z.lor kRead kWrite) m in
  let '(m2, filled) := if mapped then Fill allocation allocation_size 0 m1 else (m1, false) in
  if filled then (m2, true)
  else if IsMappedLocked allocation allocation_size m2 then ((Unmap allocation allocation_size m2).1, false)
  else (m2, false).

Definition CreateStaticTlsInstance m t (modules : list StaticTlsTemplateModule) (search_start : Z)
    : GuestMemory * (StaticTlsInstanceStatus * StaticTlsInstance) :=
  let fail m' status := (m', (status, StaticTlsInstance_default)) in
  if negb (host_mapped m) || (module_count t =? 0)%nat || negb (module_count t =? length modules)%nat
  then fail m kInstanceInvalidArgument
  else
    match check_templates t m modules 0 with
    | None => fail m kInstanceInvalidArgument
    | Some maximum_module_id =>
        let thread_pointer_alignment := Z.max kStaticTlsThreadPointerAlignment (maximum_alignment_ t) in
        if negb (Z.land thread_pointer_alignment (thread_pointer_alignment - 1)%u64 =? 0)
        then fail m kInstanceInvalidArgument
        else
          let allocation_alignment := Z.max (mapping_granularity_ m) thread_pointer_alignment in
          match instance_sizes (total_size_ t) thread_pointer_alignment allocation_alignment maximum_module_id with
          | None => fail m kInstanceOverflow
          | Some (data_bytes, allocation_size) =>
              match FindUnmappedRange search_start allocation_size allocation_alignment m with
              | None => fail m kInstanceAllocationFailed
              | Some allocation =>
                  if allocation >? u64_max - data_bytes then fail m kInstanceAllocationFailed
                  else
                    match allocate_instance allocation allocation_size m with
                    | (m2, false) => fail m2 kInstanceAllocationFailed
                    | (m2, true) =>
                        let thread_pointer := (allocation + data_bytes)%u64 in
                        let dtv_address := (thread_pointer + kStaticTlsThreadControlBlockBytes)%u64 in
                        match fill_instance thread_pointer dtv_address maximum_module_id modules m2 with
                        | (m3, kInstanceOk) =>
                            (m3, (kInstanceOk,
                                  mkTlsInstance allocation allocation_size thread_pointer dtv_address))
                        | (m3, status) => fail (Unmap allocation allocation_size m3).1 status
                        end
                    end
              end
          end
    end.

Definition DestroyStaticTlsInstance m (i : StaticTlsInstance) : GuestMemory * bool :=
  if (ti_allocation_address i =? 0) || (ti_allocation_size i =? 0) then (m, true)
  else Unmap (ti_allocation_address i) (ti_allocation_size i) m.
End instance.

(** A created thread-local storage instance is complete: every module's block
    holds its image and zeros, and the thread control block and the dynamic
    thread vector point where they should.  Creation never disturbs what was
    mapped before. *)


(** ** Words in a fresh block *)

Definition word_at m (address : Z) : Z := le_value (guest_bytes m address 8).

Lemma word_at_same m m' address :
  (forall i, 0 <= i < 8 -> guest_byte m' (address + i) = guest_byte m (address + i)) ->
  word_at m' address = word_at m address.
Proof.
  intros Hs. unfold word_at, guest_bytes. f_equal. apply list_fmap_ext. intros i y Hi.
  apply lookup_seq in Hi as [-> Hi]. apply Hs. lia.
Qed.

Section block.
Context `{HostMemory} (a n l : Z) (m : GuestMemory) (Hm : gm_ok m) (Ha : is_u64 a).

Definition in_block (address length : Z) : Prop := a <= address /\ address + length <= a + n.
Definition in_memory (y : Z) : Prop := base_address_ m <= y < gm_end m.

Lemma placed_window m1 : placed a n l m m1 -> base_address_ m1 = base_address_ m /\ gm_end m1 = gm_end m.
Proof. intros [_ _ _ _ _ [_ [S1 S2 _ _] _ _]]. unfold gm_end. by rewrite S1, S2. Qed.

Lemma write_word_spec address value m1 :
  placed a n l m m1 -> in_block address 8 -> is_u64 value ->
  let '(m2, ok) := TlsWriteUInt64 address value m1 in
  ok = true /\ placed a n l m m2 /\ word_at m2 address = value /\
  (forall y, in_memory y -> ~ in_range address 8 y -> guest_byte m2 y = guest_byte m1 y).
Proof.
  intros Hpl [H1 H2] Hv. unfold TlsWriteUInt64. rewrite <- le_bytes_map.
  pose proof Hpl as [_ P2 _ _ _ [K1 _ _ _]]. destruct (go_window m Hm) as (W1 & W2 & W3).
  destruct (placed_window m1 Hpl) as [Eb Ee].
  destruct (block_store (source_byte (le_bytes 8 value)) a n l m m1 address 8
    (Write address (le_bytes 8 value) m1)) as (B1 & B2 & B3 & B4); try done; try lia.
  { pose proof (Write_spec address (le_bytes 8 value) m1 K1 ltac:(unfold is_u64 in *; lia)) as Hw.
    by rewrite le_bytes_length in Hw. }
  destruct (Write address (le_bytes 8 value) m1) as [m2 ok]. cbn [fst snd] in *.
  split_and!; [done|done| |].
  - assert (Hg : guest_bytes m2 address 8 = le_bytes 8 value).
    { apply list_eq. intros i. destruct (decide (i < 8)%nat) as [Hi|Hi].
      2:{ rewrite !lookup_ge_None_2; [done|rewrite le_bytes_length; lia|rewrite guest_bytes_length; lia]. }
      rewrite guest_bytes_lookup by lia. rewrite B3 by lia. unfold source_byte. rewrite Nat2Z.id.
      destruct (lookup_lt_is_Some_2 (le_bytes 8 value) i) as [b Hb]; [by rewrite le_bytes_length|].
      by rewrite Hb. }
    unfold word_at. rewrite Hg. apply le_bytes_roundtrip. change (256 ^ Z.of_nat 8) with 18446744073709551616. u64_lia.
  - intros y Hy Hout. apply B4; [|done]. unfold in_memory in Hy. by rewrite Eb, Ee.
Qed.

Definition apart (w w' : Z * Z) : Prop := w.1 + 8 <= w'.1 \/ w'.1 + 8 <= w.1.

Lemma write_words_spec ws : forall m1,
  placed a n l m m1 -> Forall (fun w => in_block w.1 8 /\ is_u64 w.2) ws -> ForallOrdPairs apart ws ->
  let '(m2, ok) := write_words ws m1 in
  ok = true /\ placed a n l m m2 /\ Forall (fun w => word_at m2 w.1 = w.2) ws /\
  (forall y, in_memory y -> Forall (fun w => ~ in_range w.1 8 y) ws -> guest_byte m2 y = guest_byte m1 y).
Proof.
  induction ws as [|[address value] ws IH]; intros m1 Hpl Hws Hap; cbn [write_words]; [by split_and!|].
  apply Forall_cons in Hws as [[Hin Hv] Hws]. inversion Hap as [|? ? Hhead Htail]; subst.
  pose proof (write_word_spec address value m1 Hpl Hin Hv) as Hw. cbn [fst] in Hin.
  destruct (TlsWriteUInt64 address value m1) as [m2 ok]. destruct Hw as (-> & Hpl2 & Hword & Hsame).
  specialize (IH m2 Hpl2 Hws Htail). destruct (write_words ws m2) as [m3 ok].
  destruct IH as (-> & Hpl3 & Hwords & Hsame3). pose proof (pl_bounds _ _ _ _ _ Hpl) as Hb.
  split_and!; [done|done| |].
  - constructor; [|done]. cbn [fst snd]. rewrite <- Hword. apply word_at_same. intros i Hi. apply Hsame3.
    + unfold in_block, in_memory in *. lia.
    + eapply Forall_impl; [exact Hhead|]. intros w Hw. unfold apart, in_range in *. simpl in Hw. lia.
  - intros y Hy Hout. apply Forall_cons in Hout as [Ho Hout]. rewrite Hsame3 by done. by apply Hsame.
Qed.

(** ** The images *)

Context (Hhost : host_mapped m = true).

Lemma host_loc m1 y : placed a n l m m1 -> loc_of m1 y = Private y.
Proof.
  intros Hpl. apply loc_of_private. rewrite (pl_shared _ _ _ _ _ Hpl), (go_host_shared m Hm Hhost). done.
Qed.

(** The image of a module can be read, and its block lies in the allocation. *)
Definition copyable (tp : Z) x : Prop :=
  0 <= tm_initial_size x <= tm_memory_size x /\ is_u64 (tm_image_address x) /\
  in_block (tp - tm_static_offset x) (tm_memory_size x) /\
  (tm_initial_size x <> 0 -> accessible m (tm_image_address x) (tm_initial_size x) kRead).

Definition blocks_apart (tp : Z) x x' : Prop :=
  tm_memory_size x <= tm_static_offset x - tm_static_offset x' \/
  tm_memory_size x' <= tm_static_offset x' - tm_static_offset x.

Lemma copy_image_spec tp x m1 :
  placed a n l m m1 -> copyable tp x -> tm_initial_size x <> 0 -> is_u64 tp ->
  let '(m2, ok) := Copy (tp - tm_static_offset x)%u64 (tm_image_address x) (tm_initial_size x) m1 in
  ok = true /\ placed a n l m m2 /\
  (forall i, 0 <= i < tm_initial_size x ->
     guest_byte m2 (tp - tm_static_offset x + i) = guest_byte m (tm_image_address x + i)) /\
  (forall y, in_memory y -> ~ in_range (tp - tm_static_offset x) (tm_initial_size x) y ->
     guest_byte m2 y = guest_byte m1 y).
Proof.
  intros Hpl (Hsz & Hi & [B1 B2] & Hacc) Hne Htp. specialize (Hacc Hne).
  pose proof Hpl as [_ P2 P3 P4 P5 [K1 K2 K3 K4]]. destruct (placed_window m1 Hpl) as [Eb Ee].
  destruct (go_window m Hm) as (W1 & W2 & W3). rewrite sub64_small by (unfold is_u64 in *; lia).
  set (dst := tp - tm_static_offset x) in *. set (src := tm_image_address x) in *. set (k := tm_initial_size x) in *.
  assert (Hsrc : accessible m1 src k kRead).
  { intros y Hy. destruct (Hacc y Hy) as (p & Hp & Hr). exists p. split; [by apply K3|done]. }
  assert (Hdst : accessible m1 dst k kWrite).
  { eapply accessible_sub; [by apply (placed_accessible a n l m m1 kWrite); [|right]|lia|lia]. }
  assert (Hd : dst <> src).
  { intros Heq. destruct (Hacc src ltac:(lia)) as (p & Hp & _). rewrite P3 in Hp; [done|]. unfold in_range. lia. }
  pose proof (Copy_moves dst src k m1 K1 ltac:(unfold is_u64 in *; lia) Hi ltac:(lia) Hd) as Hc.
  destruct (Copy dst src k m1) as [m2 ok]. destruct Hc as (Hiff & G1 & G2 & G3 & Hres).
  rewrite (proj2 Hiff (conj Hsrc Hdst)) in *. destruct Hres as (_ & Hsame & Hbytes & _).
  specialize (Hbytes ltac:(intros y y' _ _; rewrite !host_loc by done; by intros [= ->])).
  assert (Hout : forall y, in_memory y -> ~ in_range dst k y -> guest_byte m2 y = guest_byte m1 y).
  { intros y Hy Ho. apply Hsame; [unfold in_memory in Hy; by rewrite Eb, Ee|]. intros i Hi'.
    rewrite !host_loc by done. intros [= Heq]. apply Ho. unfold in_range. lia. }
  split_and!; [done| | |done].
  - eapply placed_changed; [done|exact Hpl|done|done|done|]. intros y Hy Ho. apply Hout.
    + unfold in_memory. by rewrite <- Eb, <- Ee.
    + unfold in_range in *. lia.
  - intros i Hi'. rewrite Hbytes by done. destruct (Hacc (src + i) ltac:(lia)) as (p & Hp & _). by apply (K4 _ p).
Qed.

Lemma copy_images_spec tp xs : forall m1,
  placed a n l m m1 -> is_u64 tp -> Forall (copyable tp) xs -> ForallOrdPairs (blocks_apart tp) xs ->
  let '(m2, ok) := copy_images tp xs m1 in
  ok = true /\ placed a n l m m2 /\
  Forall (fun x => forall i, 0 <= i < tm_initial_size x ->
    guest_byte m2 (tp - tm_static_offset x + i) = guest_byte m (tm_image_address x + i)) xs /\
  (forall y, in_memory y -> Forall (fun x => ~ in_range (tp - tm_static_offset x) (tm_initial_size x) y) xs ->
     guest_byte m2 y = guest_byte m1 y).
Proof.
  induction xs as [|x xs IH]; intros m1 Hpl Htp Hxs Hap; cbn [copy_images]; [by split_and!|].
  apply Forall_cons in Hxs as [Hx Hxs]. inversion Hap as [|? ? Hhead Htail]; subst.
  pose proof (pl_bounds _ _ _ _ _ Hpl) as Hb.
  destruct (tm_initial_size x =? 0) eqn:E0.
  - specialize (IH m1 Hpl Htp Hxs Htail). destruct (copy_images tp xs m1) as [m2 ok].
    destruct IH as (-> & Hpl2 & Hby & Hsame). split_and!; [done|done|constructor; [intros; lia|done]|].
    intros y Hy Hout. apply Forall_cons in Hout as [_ Hout]. by apply Hsame.
  - pose proof (copy_image_spec tp x m1 Hpl Hx ltac:(lia) Htp) as Hc.
    destruct (Copy _ _ _ m1) as [m2 ok]. destruct Hc as (-> & Hpl2 & Himg & Hsame).
    specialize (IH m2 Hpl2 Htp Hxs Htail). destruct (copy_images tp xs m2) as [m3 ok].
    destruct IH as (-> & Hpl3 & Hby & Hsame3). split_and!; [done|done| |].
    + constructor; [|done]. intros i Hi. rewrite <- Himg by done. destruct Hx as (Hsz & _ & [B1 B2] & _).
      apply Hsame3; [unfold in_memory; lia|].
      rewrite Forall_forall in Hhead, Hxs |- *. intros x' Hx'. specialize (Hhead x' Hx').
      destruct (Hxs x' Hx') as (Hsz' & _). unfold blocks_apart, in_range in *. lia.
    + intros y Hy Hout. apply Forall_cons in Hout as [Ho Hout]. rewrite Hsame3 by done. by apply Hsame.
Qed.
End block.

(** ** The arguments *)

Record template_u64 x : Prop := {
  tu_id : is_u64 (tm_module_id x);
  tu_image : is_u64 (tm_image_address x);
  tu_initial : is_u64 (tm_initial_size x);
  tu_memory : is_u64 (tm_memory_size x);
  tu_offset : is_u64 (tm_static_offset x)
}.

(** What the checks establish of a module. *)
Record template_checked t m x : Prop := {
  tc_registered : exists r, FindModule (tm_module_id x) t = Some r /\
    ts_memory_size r = tm_memory_size x /\ ts_static_offset r = tm_static_offset x;
  tc_id : 1 <= tm_module_id x;
  tc_sizes : 0 <= tm_initial_size x <= tm_memory_size x;
  tc_offset : tm_memory_size x <= tm_static_offset x <= total_size_ t;
  tc_image : tm_initial_size x <> 0 -> accessible m (tm_image_address x) (tm_initial_size x) kRead
}.

Lemma template_ok_spec t m maximum x :
  gm_ok m -> template_u64 x -> template_ok t m maximum x = true ->
  template_checked t m x /\ maximum < tm_module_id x.
Proof.
  intros Hm [U1 U2 U3 U4 U5]. unfold template_ok. rewrite !andb_true_iff.
  intros (((((((C1 & C2) & C3) & C4) & C5) & C6) & C7) & C8). unfold is_u64 in *.
  destruct (FindModule (tm_module_id x) t) as [r|] eqn:Ef; [|done]. split; [|lia]. split; try lia.
  - exists r. split; [done|]. lia.
  - intros Hne. apply orb_true_iff in C8 as [C8|C8]; [lia|].
    apply CanAccessLocked_iff in C8; [|done|done|lia]. by rewrite Z.max_r in C8 by lia.
Qed.

Definition ids_increase x x' : Prop := tm_module_id x < tm_module_id x'.

Lemma check_templates_spec t m xs : forall low high,
  gm_ok m -> Forall template_u64 xs -> check_templates t m xs low = Some high ->
  low <= high /\ Forall (template_checked t m) xs /\ ForallOrdPairs ids_increase xs /\
  Forall (fun x => low < tm_module_id x <= high) xs.
Proof.
  induction xs as [|x xs IH]; intros low high Hm Hxs; cbn [check_templates].
  { intros [= <-]. split_and!; [lia|constructor..]. }
  apply Forall_cons in Hxs as [Hx Hxs]. destruct (template_ok t m low x) eqn:Eo; [|done]. intros Hc.
  destruct (template_ok_spec _ _ _ _ Hm Hx Eo) as [Hck Hlow].
  destruct (IH _ _ Hm Hxs Hc) as (H1 & H2 & H3 & H4). split_and!; [lia|by constructor| |].
  - constructor; [|done]. eapply Forall_impl; [exact H4|]. simpl. intros y Hy. unfold ids_increase. lia.
  - constructor; [lia|]. eapply Forall_impl; [exact H4|]. simpl. intros y Hy. lia.
Qed.

Lemma check_templates_u64 t m xs : forall low high,
  Forall template_u64 xs -> is_u64 low -> check_templates t m xs low = Some high -> is_u64 high.
Proof.
  induction xs as [|x xs IH]; intros low high Hxs Hlow; cbn [check_templates]; [by intros [= <-]|].
  apply Forall_cons in Hxs as [Hx Hxs]. destruct (template_ok _ _ _ _); [|done]. by apply IH, tu_id.
Qed.

(** Strictly increasing ids identify the modules. *)
Lemma ids_unique xs x x' :
  ForallOrdPairs ids_increase xs -> x ∈ xs -> x' ∈ xs -> tm_module_id x = tm_module_id x' -> x' = x.
Proof.
  induction 1 as [|y ys Hhead Hys IH]; [by intros ?%elem_of_nil|]. rewrite Forall_forall in Hhead.
  intros [->|Hx]%elem_of_cons [->|Hx']%elem_of_cons Heq; [done|..|by apply IH].
  - specialize (Hhead x' Hx'). unfold ids_increase in Hhead. lia.
  - specialize (Hhead x Hx). unfold ids_increase in Hhead. lia.
Qed.

(** Modules of a layout with different ids have disjoint blocks. *)
Lemma registered_apart tp t m x x' :
  layout_ok t -> template_checked t m x -> template_checked t m x' -> tm_module_id x <> tm_module_id x' ->
  blocks_apart tp x x'.
Proof.
  intros Ht [(r & Hr & S1 & O1) _ _ _ _] [(r' & Hr' & S2 & O2) _ _ _ _] Hne.
  apply om_find_elem, list_elem_of_lookup in Hr as (i & Hi). apply om_find_elem, list_elem_of_lookup in Hr' as (j & Hj).
  assert (Hok : Forall (fun e => module_ok e.2) (tls_modules_ t)).
  { eapply Forall_impl; [apply (lo_modules _ Ht)|]. by intros e (_ & _ & ?). }
  unfold blocks_apart. destruct (Nat.lt_trichotomy i j) as [Hij|[<-|Hij]].
  - pose proof (packed_disjoint _ _ _ _ _ _ (lo_packed _ Ht) Hok Hij Hi Hj) as Hd.
    unfold block_end in Hd. simpl in Hd. lia.
  - rewrite Hi in Hj. congruence.
  - pose proof (packed_disjoint _ _ _ _ _ _ (lo_packed _ Ht) Hok Hij Hj Hi) as Hd.
    unfold block_end in Hd. simpl in Hd. lia.
Qed.

Lemma templates_apart tp t m xs :
  layout_ok t -> Forall (template_checked t m) xs -> ForallOrdPairs ids_increase xs ->
  ForallOrdPairs (blocks_apart tp) xs.
Proof.
  intros Ht Hxs Hids. revert Hxs. induction Hids as [|x xs Hhead Hids IH]; intros Hxs; [constructor|].
  apply Forall_cons in Hxs as [Hx Hxs]. constructor; [|by apply IH].
  rewrite Forall_forall in Hhead, Hxs |- *. intros x' Hx'. specialize (Hhead x' Hx'). unfold ids_increase in Hhead.
  eapply registered_apart; [done|done|by apply Hxs|lia].
Qed.

(** ** The sizes *)

Lemma TlsAlignUp_spec v k r :
  0 <= k < 64 -> is_u64 v -> TlsAlignUp v (2 ^ k) = Some r -> v <= r <= u64_max /\ r mod 2 ^ k = 0.
Proof.
  intros Hk Hv. destruct (pow2_bounds k Hk) as [Hp Hle]. unfold TlsAlignUp.
  destruct (_ || _); [done|]. rewrite (sub64_small (2 ^ k) 1) by u64_lia.
  destruct (Z.gtb_spec v (u64_max - (2 ^ k - 1))); [done|]. intros [= <-]. unfold is_u64 in Hv.
  destruct (align_up_mask_spec v k ltac:(lia) ltac:(lia) ltac:(lia)) as [H1 H2]. split; [lia|done].
Qed.

Lemma TlsAdd_spec left right r :
  is_u64 left -> is_u64 right -> TlsAdd left right = Some r -> r = left + right /\ is_u64 r.
Proof.
  unfold TlsAdd, is_u64. intros Hl Hr. destruct (Z.gtb_spec right (u64_max - left)); [done|].
  intros [= <-]. rewrite add64_small by lia. lia.
Qed.

Lemma instance_sizes_spec total k j maximum data size :
  0 <= k < 64 -> 0 <= j < 64 -> is_u64 total -> is_u64 maximum ->
  instance_sizes total (2 ^ k) (2 ^ j) maximum = Some (data, size) ->
  total <= data /\ data mod 2 ^ k = 0 /\ is_u64 data /\
  data + 0x80 + 16 + 8 * maximum <= size /\ is_u64 size /\ size mod 2 ^ j = 0.
Proof.
  intros Hk Hj Ht Hmx. unfold instance_sizes, kStaticTlsDtvHeaderBytes, kStaticTlsThreadControlBlockBytes.
  destruct (TlsAlignUp total (2 ^ k)) as [d|] eqn:E1; [|done].
  apply TlsAlignUp_spec in E1 as [D1 D2]; [|done|done].
  destruct (Z.gtb_spec maximum ((u64_max - 16) / 8)) as [|Hle]; [done|].
  pose proof (Z.mul_div_le (u64_max - 16) 8 ltac:(lia)) as Hd.
  rewrite mul64_small by (unfold is_u64 in *; u64_lia).
  destruct (TlsAdd 16 (maximum * 8)) as [e|] eqn:E2; [|done].
  apply TlsAdd_spec in E2 as [-> E2]; [|u64_lia|unfold is_u64 in *; u64_lia].
  destruct (TlsAdd d 0x80) as [c|] eqn:E3; [|done].
  apply TlsAdd_spec in E3 as [-> E3]; [|unfold is_u64 in *; lia|u64_lia].
  destruct (TlsAdd (d + 0x80) _) as [c|] eqn:E4; [|done].
  apply TlsAdd_spec in E4 as [-> E4]; [|done|done].
  destruct (TlsAlignUp _ (2 ^ j)) as [s|] eqn:E5; [|done].
  apply TlsAlignUp_spec in E5 as [S1 S2]; [|done|done]. intros [= <- <-]. unfold is_u64 in *.
  split_and!; try done; lia.
Qed.

(** ** The contents *)

(** The contents of a complete instance. *)
Record instance_complete m m' (tp maximum : Z) (xs : list StaticTlsTemplateModule) : Prop := {
  ic_blocks : Forall (fun x => forall i, 0 <= i < tm_memory_size x ->
    guest_byte m' (tp - tm_static_offset x + i) =
      if decide (i < tm_initial_size x) then guest_byte m (tm_image_address x + i) else 0) xs;
  ic_self : word_at m' tp = tp /\ word_at m' (tp + 16) = tp /\ word_at m' (tp + 0x60) = tp;
  ic_dtv : word_at m' (tp + 8) = tp + 0x80;
  ic_guard : word_at m' (tp + 0x28) = kStaticTlsStackGuard;
  ic_generation : word_at m' (tp + 0x80) = kStaticTlsDtvGeneration;
  ic_maximum : word_at m' (tp + 0x80 + 8) = maximum;
  ic_vector : Forall (fun x =>
    word_at m' (tp + 0x80 + 16 + 8 * (tm_module_id x - 1)) = tp - tm_static_offset x) xs
}.

Section fill.
Context `{HostMemory} (a n l : Z) (m : GuestMemory) (Hm : gm_ok m) (Ha : is_u64 a) (Hhost : host_mapped m = true).
Context (t : StaticTlsLayout) (Ht : layout_ok t) (xs : list StaticTlsTemplateModule) (tp maximum : Z).
Context (Hu : Forall template_u64 xs) (Hck : Forall (template_checked t m) xs).
Context (Hids : ForallOrdPairs ids_increase xs) (Hmax : Forall (fun x => 0 < tm_module_id x <= maximum) xs).
Context (Hmx : is_u64 maximum) (Hlow : a + total_size_ t <= tp) (Hhigh : tp + 0x80 + 16 + 8 * maximum <= a + n).
Context (Hend : a + n <= u64_max).

Lemma total_nonneg : 0 <= total_size_ t.
Proof. apply (lo_reservation _ Ht). Qed.

Lemma templates_copyable : Forall (copyable a n m tp) xs.
Proof.
  pose proof total_nonneg. unfold is_u64 in *. rewrite Forall_forall in Hck, Hu |- *. intros x Hx.
  destruct (Hck x Hx) as [_ _ C3 C4 C5]. destruct (Hu x Hx). unfold copyable, in_block. split_and!; try done; lia.
Qed.

Definition vector_word x : Z * Z := (tp + 0x80 + 16 + 8 * (tm_module_id x - 1), tp - tm_static_offset x).

Lemma vector_words_eq : vector_words tp (tp + 0x80) xs = map vector_word xs.
Proof.
  pose proof total_nonneg. unfold is_u64 in *. apply map_ext_in. intros x Hx%list_elem_of_In.
  rewrite Forall_forall in Hck, Hmax. pose proof (Hmax x Hx). destruct (Hck x Hx) as [_ _ C3 C4 _].
  unfold vector_word, kStaticTlsDtvHeaderBytes.
  rewrite (add64_small (tp + 0x80) 16) by lia. rewrite (sub64_small (tm_module_id x) 1) by lia.
  rewrite mul64_small by lia. rewrite add64_small by lia. rewrite sub64_small by lia. f_equal. lia.
Qed.

Lemma vector_words_apart : ForallOrdPairs apart (map vector_word xs).
Proof.
  clear Hu Hck Hmax. induction Hids as [|x rest Hhead Hrest IH]; cbn [map]; [constructor|].
  constructor; [|by apply IH]. apply Forall_forall. intros w (x' & -> & Hx')%list_elem_of_fmap.
  rewrite Forall_forall in Hhead. specialize (Hhead x' Hx'). unfold apart, vector_word, ids_increase in *. simpl. lia.
Qed.

Lemma vector_words_in : Forall (fun w => in_block a n w.1 8 /\ is_u64 w.2 /\ tp + 0x90 <= w.1) (map vector_word xs).
Proof.
  pose proof total_nonneg. apply Forall_forall. intros w (x & -> & Hx)%list_elem_of_fmap.
  rewrite Forall_forall in Hck, Hmax. pose proof (Hmax x Hx). destruct (Hck x Hx) as [_ _ C3 C4 _].
  unfold vector_word, in_block, is_u64 in *. simpl. lia.
Qed.

(** The words of the control block, without wrap-around. *)
Definition control : list (Z * Z) :=
  [(tp, tp); (tp + 8, tp + 0x80); (tp + 16, tp); (tp + 0x28, kStaticTlsStackGuard); (tp + 0x60, tp);
   (tp + 0x80, kStaticTlsDtvGeneration); (tp + 0x80 + 8, maximum)].

Lemma control_words_eq : control_words tp (tp + 0x80) maximum = control.
Proof.
  pose proof total_nonneg. unfold is_u64 in *. unfold control_words, control.
  by rewrite !add64_small by lia.
Qed.

Lemma control_in : Forall (fun w => in_block a n w.1 8 /\ is_u64 w.2 /\ tp <= w.1 /\ w.1 + 8 <= tp + 0x90) control.
Proof.
  pose proof total_nonneg. assert (is_u64 kStaticTlsStackGuard) by (unfold is_u64, kStaticTlsStackGuard, kStaticTlsDtvGeneration; rewrite u64_max_eq; lia).
  assert (is_u64 kStaticTlsDtvGeneration) by (unfold is_u64, kStaticTlsStackGuard, kStaticTlsDtvGeneration; rewrite u64_max_eq; lia).
  unfold is_u64 in Ha, Hmx. unfold control, in_block.
  repeat (constructor; [simpl; (split_and!; try done; try lia; unfold is_u64; lia)|]). constructor.
Qed.

Lemma control_apart : ForallOrdPairs apart control.
Proof.
  unfold control, apart. repeat (constructor; [repeat (constructor; [simpl; lia|]); constructor|]). constructor.
Qed.

(** Words that were not touched. *)
Lemma words_kept (ws : list (Z * Z)) m1 m2 (address : Z) :
  (forall y, in_memory m y -> Forall (fun w => ~ in_range w.1 8 y) ws -> guest_byte m2 y = guest_byte m1 y) ->
  in_memory m address -> in_memory m (address + 7) ->
  Forall (fun w => w.1 + 8 <= address \/ address + 8 <= w.1) ws -> word_at m2 address = word_at m1 address.
Proof.
  intros Hsame H1 H2 Hws. apply word_at_same. intros i Hi. apply Hsame; [unfold in_memory in *; lia|].
  eapply Forall_impl; [exact Hws|]. simpl. intros w Hw. unfold in_range. lia.
Qed.

Lemma fill_instance_spec m2 :
  placed a n l m m2 -> (forall y, in_range a n y -> guest_byte m2 y = 0) ->
  let '(m3, status) := fill_instance tp (tp + 0x80) maximum xs m2 in
  status = kInstanceOk /\ placed a n l m m3 /\ instance_complete m m3 tp maximum xs.
Proof.
  intros Hpl Hzero. pose proof total_nonneg. pose proof (pl_bounds _ _ _ _ _ Hpl) as Hb. pose proof Hmx as [Hmx0 _].
  unfold fill_instance. assert (Htp : is_u64 tp) by (unfold is_u64 in *; lia).
  pose proof (copy_images_spec a n l m Hm Ha Hhost tp xs m2 Hpl Htp templates_copyable
    (templates_apart tp t m xs Ht Hck Hids)) as Hcopy.
  destruct (copy_images tp xs m2) as [m3 ok]. destruct Hcopy as (-> & Hpl3 & Himg & Hsame3).
  rewrite control_words_eq.
  pose proof (write_words_spec a n l m Hm Ha control m3 Hpl3) as Hw.
  destruct (write_words control m3) as [m4 ok]. destruct Hw as (-> & Hpl4 & Hwords4 & Hsame4).
  { eapply Forall_impl; [exact control_in|]. by intros w (? & ? & _). }
  { exact control_apart. }
  rewrite vector_words_eq.
  pose proof (write_words_spec a n l m Hm Ha (map vector_word xs) m4 Hpl4) as Hw.
  destruct (write_words (map vector_word xs) m4) as [m5 ok]. destruct Hw as (-> & Hpl5 & Hwords5 & Hsame5).
  { eapply Forall_impl; [exact vector_words_in|]. by intros w (? & ? & _). }
  { exact vector_words_apart. }
  split_and!; [done|done|].
  assert (Hctl : Forall (fun w => word_at m5 w.1 = w.2) control).
  { pose proof control_in as Hin. rewrite Forall_forall in Hin, Hwords4 |- *. intros w Hw.
    rewrite <- (Hwords4 w Hw). destruct (Hin w Hw) as (Hblk & _ & Hlo & Hhi). unfold in_block in Hblk.
    eapply words_kept; [exact Hsame5|unfold in_memory; lia|unfold in_memory; lia|].
    eapply Forall_impl; [exact vector_words_in|]. intros w' (_ & _ & Hw'). lia. }
  unfold control in Hctl. repeat (apply Forall_cons in Hctl as [?Hc Hctl]). simpl in *.
  split; try done.
  - pose proof (proj1 (Forall_forall _ _) Hck) as Hck'. rewrite Forall_forall in Himg |- *. intros x Hx i Hi.
    destruct (Hck' x Hx) as [_ _ C3 C4 _].
    assert (Hy : in_memory m (tp - tm_static_offset x + i)) by (unfold in_memory; lia).
    rewrite Hsame5, Hsame4; [|done| |done|].
    + destruct (decide (i < tm_initial_size x)) as [Hlt|Hge]; [apply Himg; [done|lia]|].
      rewrite Hsame3; [apply Hzero; unfold in_range; lia|done|].
      apply Forall_forall. intros x' Hx'. destruct (decide (tm_module_id x = tm_module_id x')) as [Heq|Hne].
      * destruct (Hck' x Hx) as [(r & Hr & R1 & R2) _ _ _ _]. destruct (Hck' x' Hx') as [(r' & Hr' & R1' & R2') _ C3' _ _].
        assert (x' = x) as ->; [|unfold in_range; lia]. by eapply ids_unique.
      * pose proof (registered_apart tp t m x x' Ht (Hck' x Hx) (Hck' x' Hx') Hne) as Hap.
        destruct (Hck' x' Hx') as [_ _ C3' _ _]. unfold blocks_apart, in_range in *. lia.
    + eapply Forall_impl; [exact control_in|]. intros w (_ & _ & Hlo & _). unfold in_range. lia.
    + eapply Forall_impl; [exact vector_words_in|]. intros w (_ & _ & Hlo). unfold in_range. lia.
  - apply Forall_forall. intros x Hx. rewrite Forall_forall in Hwords5.
    apply (Hwords5 (vector_word x)). apply list_elem_of_fmap. by exists x.
Qed.
End fill.

(** ** Creation *)

Section create.
Context `{HostMemory}.

Lemma free_not_mapped m a n l :
  gm_ok m -> is_u64 a -> 0 < n -> (forall y, in_range a l y -> prot_view m y = None) -> 0 < l ->
  IsMappedLocked a n m = false.
Proof.
  intros Hm Ha Hn Hfree Hl. destruct (IsMappedLocked a n m) eqn:E; [exfalso|done].
  apply CanAccessLocked_iff in E; [|done|done|lia].
  destruct (E a ltac:(lia)) as (p & Hp & _). rewrite Hfree in Hp; [done|]. unfold in_range. lia.
Qed.

Lemma allocate_instance_spec a n m :
  gm_ok m -> is_u64 a -> is_u64 n -> 0 < n -> CanMap a n m = true ->
  let '(m2, ok) := allocate_instance a n m in
  if ok then exists l, placed a n l m m2 /\ forall y, in_range a n y -> guest_byte m2 y = 0
  else keeps m m2.
Proof.
  intros Hm Ha Hn H0 Hcan. unfold allocate_instance. fold heap_protection.
  pose proof (heap_map_spec a n m Hm Ha Hn H0) as Hmap.
  pose proof (MapLocked_spec a n heap_protection m Hm Ha Hn) as Hlocked. unfold Map in *.
  destruct (MapLocked a n heap_protection m) as [m1 [|]].
  - destruct Hmap as (l & Hpl). pose proof (heap_fill_spec a n l m m1 Hm Ha Hpl) as Hf.
    destruct (Fill a n 0 m1) as [m2 ok]. destruct Hf as (-> & Hpl2 & Hz). by exists l.
  - destruct Hlocked as (Hm1 & _ & _ & Htab & _).
    apply (CanMapLocked_iff m Hm a n Ha Hn) in Hcan as (_ & l & El & _ & _ & Hfree).
    destruct (effective_length_spec m Hm a n l Hn H0 El) as (L1 & _ & _).
    rewrite (free_not_mapped m1 a n l); [done|done|done|done| |lia].
    intros y Hy. rewrite (proj1 (same_tables_views _ _ Htab)). by apply Hfree.
Qed.

Lemma max_power_of_two i j : 0 <= i < 64 -> 0 <= j < 64 -> exists k, 0 <= k < 64 /\ Z.max (2 ^ i) (2 ^ j) = 2 ^ k.
Proof. intros Hi Hj. destruct (Z.max_spec (2 ^ i) (2 ^ j)) as [[_ ->]|[_ ->]]; eauto. Qed.

Lemma pow2_divide_max i j (v : Z) : 0 <= i -> 0 <= j -> v mod Z.max (2 ^ i) (2 ^ j) = 0 -> v mod 2 ^ j = 0.
Proof.
  intros Hi Hj. destruct (Z.max_spec (2 ^ i) (2 ^ j)) as [[_ ->]|[Hle ->]]; [done|]. intros Hv.
  assert (Hij : j <= i) by (apply (Z.pow_le_mono_r_iff 2); lia).
  by apply (mod_pow2_weaken v j i); [lia|].
Qed.

Definition tp_alignment t : Z := Z.max kStaticTlsThreadPointerAlignment (maximum_alignment_ t).

(** Thread-local storage is created complete or not at all.  Whatever the
    arguments, everything mapped before keeps its protection and contents, and
    once the block is allocated no store can fail.  On success a fresh
    readable and writable block was mapped; the thread pointer is aligned to the
    layout's maximum alignment and leaves room for all blocks below it; every
    module's block holds its image followed by zeros; the control block points
    to itself and to the dynamic thread vector, whose entry for each module is
    the address of its block. *)
Theorem tls_instance_complete m t xs search_start :
  gm_ok m -> layout_ok t -> Forall template_u64 xs -> is_u64 search_start ->
  let '(m', (status, i)) := CreateStaticTlsInstance m t xs search_start in
  keeps m m' /\ status <> kInstanceCopyFailed /\ status <> kInstanceWriteFailed /\
  (status = kInstanceOk ->
   let tp := ti_thread_pointer i in
   exists maximum l, placed (ti_allocation_address i) (ti_allocation_size i) l m m' /\
     tp mod tp_alignment t = 0 /\
     ti_allocation_address i + total_size_ t <= tp /\
     tp + 0x80 + 16 + 8 * maximum <= ti_allocation_address i + ti_allocation_size i /\
     ti_dtv_address i = tp + 0x80 /\
     Forall (fun x => 1 <= tm_module_id x <= maximum) xs /\
     instance_complete m m' tp maximum xs).
Proof.
  intros Hm Ht Hu Hs. unfold CreateStaticTlsInstance. fold (tp_alignment t). cbv zeta.
  pose proof (keeps_refl m Hm) as Hkeep.
  destruct (_ || _) eqn:E0; [by split_and!|]. apply orb_false_iff in E0 as [E0 _].
  apply orb_false_iff in E0 as [Hhost%negb_false_iff _].
  destruct (check_templates t m xs 0) as [maximum|] eqn:Ec; [|by split_and!].
  destruct (check_templates_spec t m xs 0 maximum Hm Hu Ec) as (Hmx0 & Hck & Hids & Hbound).
  destruct (negb _); [by split_and!|].
  destruct (go_granularity m Hm Hhost) as (g & Hg & Eg).
  destruct (lo_maximum _ Ht) as [(q & Hq & Eq) _].
  destruct (max_power_of_two 5 q ltac:(lia) Hq) as (k & Hk & Ek). change (2 ^ 5) with 0x20 in Ek.
  assert (Etp : tp_alignment t = 2 ^ k) by (unfold tp_alignment; by rewrite Eq).
  destruct (max_power_of_two g k Hg Hk) as (j & Hj & Ej). rewrite Etp, Eg, Ej.
  destruct (instance_sizes _ _ _ _) as [[data size]|] eqn:Es; [|by split_and!].
  assert (Hmx : is_u64 maximum) by (by apply (check_templates_u64 t m xs 0)).
  assert (Htot : is_u64 (total_size_ t)).
  { destruct (lo_reservation _ Ht) as [? ?]. pose proof (lo_u64 _ Ht). unfold is_u64 in *. lia. }
  destruct (instance_sizes_spec _ _ _ _ _ _ Hk Hj Htot Hmx Es) as (S1 & S2 & S3 & S4 & S5 & S6).
  assert (Hsize : 0 < size) by (unfold is_u64 in *; lia).
  pose proof (FindUnmappedRange_spec m search_start size (2 ^ j) Hm Hs S5 Hsize) as Hfind.
  destruct (FindUnmappedRange _ _ _ m) as [alloc|]; [|by split_and!].
  destruct Hfind as [(F1 & F2 & F3) _]; [destruct (pow2_bounds j Hj); unfold is_u64; lia|by apply is_power_of_two_pow|].
  destruct (Z.gtb_spec alloc (u64_max - data)) as [|Hfit]; [by split_and!|].
  assert (Ha : is_u64 alloc) by (unfold is_u64 in *; lia).
  pose proof (allocate_instance_spec alloc size m Hm Ha S5 Hsize F3) as Hal.
  destruct (allocate_instance alloc size m) as [m2 [|]]; [|by split_and!].
  destruct Hal as (l & Hpl & Hzero). destruct (go_window m Hm) as (W1 & W2 & W3).
  pose proof (pl_bounds _ _ _ _ _ Hpl) as Hb.
  rewrite (add64_small alloc data) by (unfold is_u64 in *; lia).
  unfold kStaticTlsThreadControlBlockBytes. rewrite add64_small by (unfold is_u64 in *; lia).
  pose proof (fill_instance_spec alloc size l m Hm Ha Hhost t Ht xs (alloc + data) maximum Hu Hck Hids Hbound
    Hmx ltac:(lia) ltac:(lia) ltac:(lia) m2 Hpl Hzero) as Hfill.
  destruct (fill_instance _ _ _ _ m2) as [m3 status]. destruct Hfill as (-> & Hpl3 & Hcomplete).
  split_and!; [apply Hpl3|done|done|]. intros _. cbn [ti_thread_pointer ti_allocation_address ti_allocation_size ti_dtv_address].
  exists maximum, l. split_and!; [done| |lia|lia|done| |done].
  - rewrite <- Ej in F2. apply (pow2_divide_max g k) in F2; [|lia|lia].
    by rewrite Z.add_mod, F2, S2, Z.mod_0_l by (apply Z.pow_nonzero; lia).
  - eapply Forall_impl; [exact Hbound|]. simpl. intros x Hx. lia.
Qed.
End create.
