(* ===== verification/ElfReader.v ===== *)
(** Reading executable images ([src/loader/elf.cpp]): little-endian fields and
    the layout of SELF containers.

    The image is untrusted, so the accesses to it are explicit: reading a byte
    outside the image, which is undefined in the source, makes the parser
    {e fault}.  A parsing step faults, fails with an error of the image, or
    returns a value. *)
From S2P Require Import Prelude LittleEndian Elf.
From Stdlib Require Import Ascii.

Inductive ElfError :=
| kImageTooSmall | kInvalidMagic | kSelfHeaderOutOfRange | kUnsupportedSelfHeader
| kSelfEmbeddedElfOutOfRange | kSelfSegmentMappingNotFound | kMultipleSelfSegmentMappings
| kSelfSegmentFileRangeOutOfRange | kUnsupportedEncryptedSelfSegment
| kUnsupportedCompressedSelfSegment | kUnsupportedClass | kUnsupportedEndianness
| kUnsupportedIdentVersion | kUnsupportedAbi | kUnsupportedFileType | kUnsupportedMachine
| kUnsupportedVersion | kInvalidHeaderSize | kInvalidProgramHeaderSize
| kProgramHeaderTableOutOfRange | kMultipleDynamicSegments | kMultipleSceDynlibDataSegments
| kDynamicSegmentFileRangeOutOfRange | kSceDynlibDataSegmentFileRangeOutOfRange
| kInvalidDynamicSegmentSize | kUnterminatedDynamicTable | kIncompleteDynamicStringTable
| kDynamicStringTableNotFileBacked | kDynamicStringOffsetOutOfRange | kUnterminatedDynamicString
| kDecodedStringBudgetExceeded | kIncompleteRelaMetadata | kInvalidRelaEntrySize
| kRelaTableNotFileBacked | kRelocationTargetOutOfRange | kUnsupportedPltRelocationFormat
| kIncompleteDynamicSymbolMetadata | kInvalidSymbolEntrySize | kInvalidSymbolTableSize
| kHashTableNotFileBacked | kSymbolTableNotFileBacked | kSymbolNameOffsetOutOfRange
| kUnterminatedSymbolName | kSegmentFileSizeExceedsMemorySize | kSegmentFileRangeOutOfRange
| kSegmentAddressRangeOverflow | kInvalidSegmentAlignment | kOverlappingLoadSegments
| kGuestRangeOutOfRange | kGuestMappingConflict | kLoadSizeOverflow.

#[global] Instance ElfError_eq_dec : EqDecision ElfError.
Proof. solve_decision. Defined.

#[global] Instance ElfDynamicDataSource_eq_dec : EqDecision ElfDynamicDataSource.
Proof. solve_decision. Defined.

#[global] Instance ElfContainerKind_eq_dec : EqDecision ElfContainerKind.
Proof. solve_decision. Defined.

(** ** Parsing steps *)

Inductive parse (A : Type) : Type :=
| faults
| fails (e : ElfError)
| returns (a : A).
Arguments faults {A}.
Arguments fails {A} e.
Arguments returns {A} a.

(** An access that may fault. *)
Definition access {A} (o : option A) : parse A := match o with Some a => returns a | None => faults end.
(** A check that ends the parsing. *)
Definition ensure (b : bool) (e : ElfError) : parse unit := if b then returns tt else fails e.
(** A value whose absence ends the parsing. *)
Definition require {A} (o : option A) (e : ElfError) : parse A :=
  match o with Some a => returns a | None => fails e end.

#[global] Instance parse_ret : MRet parse := @returns.
#[global] Instance parse_bind : MBind parse := fun A B f x =>
  match x with
  | faults => faults
  | fails e => fails e
  | returns a => f a
  end.

(** ** Reading *)

Definition kElfHeaderSize : Z := 64.
Definition kProgramHeaderSize : Z := 56.
Definition kSelfHeaderSize : Z := 32.
Definition kSelfSegmentSize : Z := 32.
Definition kDynamicEntrySize : Z := 16.
Definition kRelaEntrySize : Z := 24.
Definition kSymbolEntrySize : Z := 24.

Section reading.
Context (image : list Z).

Definition image_size : Z := Z.of_nat (length image).

Definition Read8 (offset : Z) : parse Z := access (image !! Z.to_nat offset).

(** The bytes [offset .. offset + n), the first one lowest. *)
Fixpoint read_bytes (n : nat) (offset : Z) : parse Z :=
  match n with
  | O => returns 0
  | S n' =>
      low ← Read8 offset;
      high ← read_bytes n' (offset + 1)%u64;
      returns (Z.lor low (Z.shiftl high 8))
  end.

Definition Read16 : Z -> parse Z := read_bytes 2.
Definition Read32 : Z -> parse Z := read_bytes 4.
Definition Read64 : Z -> parse Z := read_bytes 8.
End reading.

(** [std::span::subspan], which faults outside its range. *)
Definition subspan (bytes : list Z) (offset count : Z) : parse (list Z) :=
  if (offset <=? image_size bytes) && (count <=? image_size bytes - offset)
  then returns (take (Z.to_nat count) (drop (Z.to_nat offset) bytes)) else faults.

Definition RangeWithin (total_size offset length : Z) : bool :=
  (offset <=? total_size) && (length <=? (total_size - offset)%u64).

Definition AddWithoutOverflow (left right : Z) : option Z :=
  if right >? u64_max - left then None else Some (left + right)%u64.

(** ** SELF containers *)

Record SelfSegment := mkSelfSegment {
  ss_type : Z;
  ss_offset : Z;
  ss_compressed_size : Z;
  ss_decompressed_size : Z
}.

Definition kSelfSegmentBlocked : Z := 0x800.
Definition kSelfSegmentEncrypted : Z := 0x2.
Definition kSelfSegmentCompressed : Z := 0x8.

Definition has_flag (value flag : Z) : bool := negb (Z.land value flag =? 0).
Definition ss_blocked (s : SelfSegment) : bool := has_flag (ss_type s) kSelfSegmentBlocked.
Definition ss_encrypted (s : SelfSegment) : bool := has_flag (ss_type s) kSelfSegmentEncrypted.
Definition ss_compressed (s : SelfSegment) : bool := has_flag (ss_type s) kSelfSegmentCompressed.
Definition ss_program_header_index (s : SelfSegment) : Z := Z.land (Z.shiftr (ss_type s) 20) 0xfff.

Record ExecutableLayout := mkLayout {
  el_container : ElfContainerKind;
  el_elf_offset : Z;
  el_self_file_size : Z;
  el_self_segments : list SelfSegment
}.
Definition ExecutableLayout_default : ExecutableLayout := mkLayout kElf 0 0 [].

(** The bytes at the offsets are the given ones; reading stops at the first
    that differs, as [&&] does. *)
Fixpoint bytes_are (image : list Z) (offset : Z) (expected : list Z) : parse bool :=
  match expected with
  | [] => returns true
  | b :: rest =>
      read ← Read8 image offset;
      if read =? b then bytes_are image (offset + 1)%u64 rest else returns false
  end.

Definition IsSelfMagic (image : list Z) : parse bool :=
  if image_size image <? 4 then returns false
  else
    ps4 ← bytes_are image 0 [0x4f; 0x15; 0x3d; 0x1d];
    ps5 ← bytes_are image 0 [0x54; 0x14; 0xf5; 0xee];
    returns (ps4 || ps5).

Definition HasKnownSelfLayout (image : list Z) : parse bool :=
  magic ← IsSelfMagic image;
  if negb magic then returns false else bytes_are image 5 [0x01; 0x01; 0x12].

(** The table of [n] segments from [index] on. *)
Fixpoint read_self_segments (image : list Z) (n : nat) (index : Z) : parse (list SelfSegment) :=
  match n with
  | O => returns []
  | S n' =>
      let offset := (kSelfHeaderSize + index * kSelfSegmentSize)%u64 in
      type ← Read64 image offset;
      file_offset ← Read64 image (offset + 8)%u64;
      compressed ← Read64 image (offset + 16)%u64;
      decompressed ← Read64 image (offset + 24)%u64;
      rest ← read_self_segments image n' (index + 1);
      returns (mkSelfSegment type file_offset compressed decompressed :: rest)
  end.

Definition ParseExecutableLayout (image : list Z) : parse ExecutableLayout :=
  magic ← IsSelfMagic image;
  if negb magic then returns ExecutableLayout_default
  else
    ensure (negb (image_size image <? kSelfHeaderSize)) kSelfHeaderOutOfRange;;
    known ← HasKnownSelfLayout image;
    ensure known kUnsupportedSelfHeader;;
    self_file_size ← Read64 image 16;
    segment_count ← Read16 image 24;
    elf_offset ← require (AddWithoutOverflow kSelfHeaderSize (segment_count * kSelfSegmentSize)%u64)
                         kSelfEmbeddedElfOutOfRange;
    ensure (RangeWithin (image_size image) elf_offset kElfHeaderSize) kSelfEmbeddedElfOutOfRange;;
    segments ← read_self_segments image (Z.to_nat segment_count) 0;
    returns (mkLayout kSelf elf_offset self_file_size segments).

Definition HeaderRangeContains (parent child : ElfProgramHeader) : bool :=
  negb (ph_offset child <? ph_offset parent)
  && RangeWithin (ph_file_size parent) (ph_offset child - ph_offset parent)%u64 (ph_file_size child).

(** What the loop over the segments collects. *)
Record self_search := mkSearch {
  sf_file_offset : Z;
  sf_resolved : nat;
  sf_mapping : bool;
  sf_encrypted : bool;
  sf_compressed : bool
}.

(** The segment is considered for the target header. *)
Definition self_candidate (headers : list ElfProgramHeader) (target : ElfProgramHeader) (target_index : Z)
    (exact : bool) (s : SelfSegment) : option ElfProgramHeader :=
  if negb (ss_blocked s) then None
  else
    match headers !! Z.to_nat (ss_program_header_index s) with
    | None => None
    | Some source =>
        if (exact && negb (ss_program_header_index s =? target_index))
           || (negb exact && negb (HeaderRangeContains source target)) then None
        else Some source
    end.

Definition self_step (image_size : Z) (headers : list ElfProgramHeader) (target : ElfProgramHeader)
    (target_index : Z) (exact : bool) (s : SelfSegment) (r : self_search) : self_search :=
  match self_candidate headers target target_index exact s with
  | None => r
  | Some source =>
      let r1 := mkSearch (sf_file_offset r) (sf_resolved r) true (sf_encrypted r || ss_encrypted s)
                  (sf_compressed r || ss_compressed s) in
      let relative := (ph_offset target - ph_offset source)%u64 in
      if negb (RangeWithin (ss_decompressed_size s) relative (ph_file_size target)) then r1
      else
        match AddWithoutOverflow (ss_offset s) relative with
        | None => r1
        | Some candidate =>
            if negb (RangeWithin image_size candidate (ph_file_size target)) then r1
            else mkSearch candidate (S (sf_resolved r1)) (sf_mapping r1) (sf_encrypted r1) (sf_compressed r1)
        end
  end.

Definition ResolveSelfFileOffset (image_size : Z) (layout : ExecutableLayout)
    (headers : list ElfProgramHeader) (target : ElfProgramHeader) (target_index : Z) : ElfError + Z :=
  let exact := existsb (fun s => ss_blocked s && (ss_program_header_index s =? target_index))
                 (el_self_segments layout) in
  let r := foldl (fun r s => self_step image_size headers target target_index exact s r)
             (mkSearch 0 0 false false false) (el_self_segments layout) in
  if (1 <? sf_resolved r)%nat then inl kMultipleSelfSegmentMappings
  else if (sf_resolved r =? 1)%nat then inr (sf_file_offset r)
  else
    let fallback :=
      if RangeWithin image_size (ph_offset target) (ph_file_size target) then inr (ph_offset target)
      else if (el_self_file_size layout <=? image_size)
              && ((image_size - el_self_file_size layout)%u64 =? ph_file_size target)
      then inr (el_self_file_size layout)
      else if sf_encrypted r then inl kUnsupportedEncryptedSelfSegment
      else if sf_compressed r then inl kUnsupportedCompressedSelfSegment
      else inl (if sf_mapping r then kSelfSegmentFileRangeOutOfRange else kSelfSegmentMappingNotFound) in
    match AddWithoutOverflow (el_elf_offset layout) (ph_offset target) with
    | Some elf_relative =>
        if RangeWithin image_size elf_relative (ph_file_size target) then inr elf_relative else fallback
    | None => fallback
    end.

(** The dynamic section of an executable ([src/loader/elf.cpp]): tags,
    lifecycle fields, file offsets of tables, strings with their budget, SCE
    identities, relocation and symbol tables. *)

Definition kProgramTypeLoad : Z := 1.
Definition kProgramTypeDynamic : Z := 2.
Definition kProgramTypeSceDynlibData : Z := 0x61000000.

Definition kDynamicTagNull : Z := 0.
Definition kDynamicTagNeeded : Z := 1.
Definition kDynamicTagPltRelocationSize : Z := 2.
Definition kDynamicTagHash : Z := 4.
Definition kDynamicTagStringTable : Z := 5.
Definition kDynamicTagSymbolTable : Z := 6.
Definition kDynamicTagRela : Z := 7.
Definition kDynamicTagRelaSize : Z := 8.
Definition kDynamicTagRelaEntrySize : Z := 9.
Definition kDynamicTagStringTableSize : Z := 10.
Definition kDynamicTagSymbolEntrySize : Z := 11.
Definition kDynamicTagInit : Z := 12.
Definition kDynamicTagFini : Z := 13.
Definition kDynamicTagSharedObjectName : Z := 14.
Definition kDynamicTagPltRelocationFormat : Z := 20.
Definition kDynamicTagJumpRelocation : Z := 23.
Definition kDynamicTagInitArray : Z := 25.
Definition kDynamicTagFiniArray : Z := 26.
Definition kDynamicTagInitArraySize : Z := 27.
Definition kDynamicTagFiniArraySize : Z := 28.
Definition kDynamicTagPreinitArray : Z := 32.
Definition kDynamicTagPreinitArraySize : Z := 33.
Definition kDynamicTagSceExportLibrary : Z := 0x61000013.
Definition kDynamicTagSceImportLibrary : Z := 0x61000015.
Definition kDynamicTagSceJumpRelocation : Z := 0x61000029.
Definition kDynamicTagScePltRelocationFormat : Z := 0x6100002b.
Definition kDynamicTagScePltRelocationSize : Z := 0x6100002d.
Definition kDynamicTagSceRela : Z := 0x6100002f.
Definition kDynamicTagSceRelaSize : Z := 0x61000031.
Definition kDynamicTagSceRelaEntrySize : Z := 0x61000033.
Definition kDynamicTagSceStringTable : Z := 0x61000035.
Definition kDynamicTagSceStringTableSize : Z := 0x61000037.
Definition kDynamicTagSceSymbolTable : Z := 0x61000039.
Definition kDynamicTagSceSymbolEntrySize : Z := 0x6100003b.
Definition kDynamicTagSceSymbolTableSize : Z := 0x6100003f.
Definition kDynamicTagSceModuleInfoV2 : Z := 0x61000043.
Definition kDynamicTagSceNeededModuleV2 : Z := 0x61000045.
Definition kDynamicTagSceExportLibraryV2 : Z := 0x61000047.
Definition kDynamicTagSceImportLibraryV2 : Z := 0x61000049.
Definition kDynamicTagSceModuleInfo : Z := 0x6100000d.
Definition kDynamicTagSceNeededModule : Z := 0x6100000f.

Definition kDynamicFormatRela : Z := 7.

(** [std::bit_cast<std::int64_t>]. *)
Definition as_int64 (v : Z) : Z := if v <? 2 ^ 63 then v else v - 2 ^ 64.

(** ** Updating the metadata *)

Definition set_program_headers (hs : list ElfProgramHeader) (m : ElfMetadata) : ElfMetadata :=
  mkElfMetadata (em_container m) (em_elf_file_offset m) (em_self_segment_count m) (em_os_abi m)
    (em_abi_version m) (em_type m) (em_machine m) (em_version m) (em_entry_point m) hs
    (em_dynamic_entries m) (em_dynamic_info m).
Definition set_dynamic_entries (es : list ElfDynamicEntry) (m : ElfMetadata) : ElfMetadata :=
  mkElfMetadata (em_container m) (em_elf_file_offset m) (em_self_segment_count m) (em_os_abi m)
    (em_abi_version m) (em_type m) (em_machine m) (em_version m) (em_entry_point m)
    (em_program_headers m) es (em_dynamic_info m).
Definition set_dynamic_info (d : ElfDynamicInfo) (m : ElfMetadata) : ElfMetadata :=
  mkElfMetadata (em_container m) (em_elf_file_offset m) (em_self_segment_count m) (em_os_abi m)
    (em_abi_version m) (em_type m) (em_machine m) (em_version m) (em_entry_point m)
    (em_program_headers m) (em_dynamic_entries m) d.

Definition set_string_table (source : ElfDynamicDataSource) (offset size : Z) (d : ElfDynamicInfo) : ElfDynamicInfo :=
  mkDynamicInfo source (Some offset) (Some size) (di_needed_libraries d) (di_shared_object_name d)
    (di_import_modules d) (di_export_modules d) (di_import_libraries d) (di_export_libraries d)
    (di_relocations d) (di_plt_relocations d) (di_symbols d) (di_init_function d) (di_fini_function d)
    (di_preinit_array_address d) (di_preinit_array_size d) (di_init_array_address d)
    (di_init_array_size d) (di_fini_array_address d) (di_fini_array_size d).
Definition set_names (needed : list string) (name : option string) (d : ElfDynamicInfo) : ElfDynamicInfo :=
  mkDynamicInfo (di_string_table_source d) (di_string_table_file_offset d) (di_string_table_size d)
    needed name (di_import_modules d) (di_export_modules d) (di_import_libraries d)
    (di_export_libraries d) (di_relocations d) (di_plt_relocations d) (di_symbols d)
    (di_init_function d) (di_fini_function d) (di_preinit_array_address d) (di_preinit_array_size d)
    (di_init_array_address d) (di_init_array_size d) (di_fini_array_address d) (di_fini_array_size d).
Definition set_identities (im xm : list ElfModuleIdentity) (il xl : list ElfLibraryIdentity)
    (d : ElfDynamicInfo) : ElfDynamicInfo :=
  mkDynamicInfo (di_string_table_source d) (di_string_table_file_offset d) (di_string_table_size d)
    (di_needed_libraries d) (di_shared_object_name d) im xm il xl (di_relocations d)
    (di_plt_relocations d) (di_symbols d) (di_init_function d) (di_fini_function d)
    (di_preinit_array_address d) (di_preinit_array_size d) (di_init_array_address d)
    (di_init_array_size d) (di_fini_array_address d) (di_fini_array_size d).
Definition set_tables (relocations plt : list ElfRelaEntry) (symbols : list ElfSymbol)
    (d : ElfDynamicInfo) : ElfDynamicInfo :=
  mkDynamicInfo (di_string_table_source d) (di_string_table_file_offset d) (di_string_table_size d)
    (di_needed_libraries d) (di_shared_object_name d) (di_import_modules d) (di_export_modules d)
    (di_import_libraries d) (di_export_libraries d) relocations plt symbols (di_init_function d)
    (di_fini_function d) (di_preinit_array_address d) (di_preinit_array_size d)
    (di_init_array_address d) (di_init_array_size d) (di_fini_array_address d) (di_fini_array_size d).

(** ** Dynamic entries *)

Definition FindDynamicEntry (metadata : ElfMetadata) (tag : Z) : option ElfDynamicEntry :=
  find (fun e => dyn_tag e =? tag) (em_dynamic_entries metadata).

Definition ParseDynamicLifecycleMetadata (m : ElfMetadata) : ElfMetadata :=
  let store (tag : Z) (destination : option Z) :=
    match FindDynamicEntry m tag with Some e => Some (dyn_value e) | None => destination end in
  let d := em_dynamic_info m in
  set_dynamic_info
    (mkDynamicInfo (di_string_table_source d) (di_string_table_file_offset d) (di_string_table_size d)
       (di_needed_libraries d) (di_shared_object_name d) (di_import_modules d) (di_export_modules d)
       (di_import_libraries d) (di_export_libraries d) (di_relocations d) (di_plt_relocations d)
       (di_symbols d)
       (store kDynamicTagInit (di_init_function d))
       (store kDynamicTagFini (di_fini_function d))
       (store kDynamicTagPreinitArray (di_preinit_array_address d))
       (store kDynamicTagPreinitArraySize (di_preinit_array_size d))
       (store kDynamicTagInitArray (di_init_array_address d))
       (store kDynamicTagInitArraySize (di_init_array_size d))
       (store kDynamicTagFiniArray (di_fini_array_address d))
       (store kDynamicTagFiniArraySize (di_fini_array_size d))) m.

Definition HasDynamicEntry (metadata : ElfMetadata) (tags : list Z) : bool :=
  existsb (fun e => existsb (Z.eqb (dyn_tag e)) tags) (em_dynamic_entries metadata).

Record DynamicEntrySelection := mkSelection {
  sel_entry : option ElfDynamicEntry;
  sel_source : ElfDynamicDataSource
}.

Definition SceDynamicDataSource (metadata : ElfMetadata) : ElfDynamicDataSource :=
  if existsb (fun h => ph_type h =? kProgramTypeSceDynlibData) (em_program_headers metadata)
  then kSceDynlibData else kLoadSegment.

Definition SelectDynamicEntry (metadata : ElfMetadata) (standard_tag sce_tag : Z) : DynamicEntrySelection :=
  match FindDynamicEntry metadata sce_tag with
  | Some e => mkSelection (Some e) (SceDynamicDataSource metadata)
  | None =>
      match FindDynamicEntry metadata standard_tag with
      | Some e => mkSelection (Some e) kLoadSegment
      | None => mkSelection None kDataNone
      end
  end.

Definition SelectSceDynamicEntry (metadata : ElfMetadata) (tag : Z) : DynamicEntrySelection :=
  match FindDynamicEntry metadata tag with
  | Some e => mkSelection (Some e) (SceDynamicDataSource metadata)
  | None => mkSelection None kDataNone
  end.

(** ** File offsets of tables *)

Definition is_load (h : ElfProgramHeader) : bool := ph_type h =? kProgramTypeLoad.

(** The lambda [resolve_address]: the first load segment whose file part holds
    the range. *)
Fixpoint resolve_address (headers : list ElfProgramHeader) (size address : Z) : option Z :=
  match headers with
  | [] => None
  | h :: rest =>
      if negb (is_load h) || (address <? ph_virtual_address h) then resolve_address rest size address
      else
        let relative := (address - ph_virtual_address h)%u64 in
        if (relative <=? ph_file_size h) && (size <=? (ph_file_size h - relative)%u64)
        then Some (ph_file_offset h + relative)%u64
        else resolve_address rest size address
  end.

Definition image_base (headers : list ElfProgramHeader) : Z :=
  foldl (fun base h => if is_load h then Z.min base (ph_virtual_address h) else base) u64_max headers.

Definition ResolveFileOffset (metadata : ElfMetadata) (virtual_address size : Z) : option Z :=
  let headers := em_program_headers metadata in
  match resolve_address headers size virtual_address with
  | Some direct => Some direct
  | None =>
      let base := image_base headers in
      if base =? u64_max then None
      else
        match AddWithoutOverflow base virtual_address with
        | Some rebased => resolve_address headers size rebased
        | None => None
        end
  end.

Definition FindProgramHeader (metadata : ElfMetadata) (type : Z) : option ElfProgramHeader :=
  find (fun h => ph_type h =? type) (em_program_headers metadata).

Definition ResolveDynamicFileOffset (metadata : ElfMetadata) (selection : DynamicEntrySelection)
    (size : Z) : option Z :=
  match sel_entry selection with
  | None => None
  | Some e =>
      match sel_source selection with
      | kLoadSegment => ResolveFileOffset metadata (dyn_value e) size
      | kSceDynlibData =>
          match FindProgramHeader metadata kProgramTypeSceDynlibData with
          | None => None
          | Some h =>
              if negb (RangeWithin (ph_file_size h) (dyn_value e) size) then None
              else Some (ph_file_offset h + dyn_value e)%u64
          end
      | kDataNone => None
      end
  end.

(** ** Strings *)

Definition kMinimumDecodedStringBudget : Z := 64 * 1024.
Definition kMaximumDecodedStringBudget : Z := 64 * 1024 * 1024.
Definition kDecodedStringBudgetScale : Z := 4.

Definition CalculateDecodedStringBudget (image_size : Z) : Z :=
  let scaled :=
    if image_size >=? kMaximumDecodedStringBudget / kDecodedStringBudgetScale
    then kMaximumDecodedStringBudget
    else (image_size * kDecodedStringBudgetScale)%u64 in
  Z.min (Z.max scaled kMinimumDecodedStringBudget) kMaximumDecodedStringBudget.

Inductive DynamicStringReadStatus :=
| kStringOk (value : string) (remaining_budget : Z)
| kStringUnterminated
| kStringBudgetExceeded.

Definition char_of_byte (b : Z) : ascii := ascii_of_nat (Z.to_nat b).

(** [std::string::push_back]. *)
Fixpoint push_back (s : string) (c : ascii) : string :=
  match s with
  | EmptyString => String c EmptyString
  | String c' s' => String c' (push_back s' c)
  end.

Definition string_size (s : string) : Z := Z.of_nat (String.length s).

(** The loop from the first byte of [rest] on. *)
Fixpoint read_string (rest : list Z) (remaining_budget : Z) (value : string) : DynamicStringReadStatus :=
  match rest with
  | [] => kStringUnterminated
  | byte :: rest' =>
      if byte =? 0 then
        if string_size value >=? remaining_budget then kStringBudgetExceeded
        else kStringOk value (remaining_budget - (string_size value + 1))%u64
      else if (remaining_budget =? 0) || (string_size value >=? (remaining_budget - 1)%u64)
      then kStringBudgetExceeded
      else read_string rest' remaining_budget (push_back value (char_of_byte byte))
  end.

Definition ReadDynamicString (string_table : list Z) (offset remaining_budget : Z) : DynamicStringReadStatus :=
  if offset >=? image_size string_table then kStringUnterminated
  else read_string (drop (Z.to_nat offset) string_table) remaining_budget EmptyString.

(** The status as the end of the parsing. *)
Definition string_read (s : DynamicStringReadStatus) (unterminated : ElfError) : parse (string * Z) :=
  match s with
  | kStringOk value budget => returns (value, budget)
  | kStringBudgetExceeded => fails kDecodedStringBudgetExceeded
  | kStringUnterminated => fails unterminated
  end.

(** The loop over the needed libraries. *)
Fixpoint read_needed (bytes : list Z) (entries : list ElfDynamicEntry) (budget : Z)
    (needed : list string) : parse (list string * Z) :=
  match entries with
  | [] => returns (needed, budget)
  | e :: rest =>
      if negb (dyn_tag e =? kDynamicTagNeeded) then read_needed bytes rest budget needed
      else
        ensure (dyn_value e <? image_size bytes) kDynamicStringOffsetOutOfRange;;
        '(value, budget) ← string_read (ReadDynamicString bytes (dyn_value e) budget) kUnterminatedDynamicString;
        read_needed bytes rest budget (needed ++ [value])
  end.

Definition isNone {A} (o : option A) : bool := match o with Some _ => false | None => true end.

Definition sce_identity_tags : list Z :=
  [kDynamicTagSceNeededModule; kDynamicTagSceNeededModuleV2; kDynamicTagSceModuleInfo; kDynamicTagSceModuleInfoV2;
   kDynamicTagSceImportLibrary; kDynamicTagSceImportLibraryV2; kDynamicTagSceExportLibrary; kDynamicTagSceExportLibraryV2].

(** The part of [ParseDynamicStrings] that has a table. *)
Definition parse_string_table (image : list Z) (m : ElfMetadata) (table : DynamicEntrySelection)
    (size : ElfDynamicEntry) (budget : Z) : parse (ElfMetadata * Z) :=
  file_offset ← require (ResolveDynamicFileOffset m table (dyn_value size)) kDynamicStringTableNotFileBacked;
  bytes ← subspan image file_offset (dyn_value size);
  let d := set_string_table (sel_source table) file_offset (dyn_value size) (em_dynamic_info m) in
  '(needed, budget) ← read_needed bytes (em_dynamic_entries m) budget (di_needed_libraries d);
  match FindDynamicEntry m kDynamicTagSharedObjectName with
  | None => returns (set_dynamic_info (set_names needed (di_shared_object_name d) d) m, budget)
  | Some e =>
      ensure (dyn_value e <? image_size bytes) kDynamicStringOffsetOutOfRange;;
      '(value, budget) ← string_read (ReadDynamicString bytes (dyn_value e) budget) kUnterminatedDynamicString;
      returns (set_dynamic_info (set_names needed (Some value) d) m, budget)
  end.

Definition ParseDynamicStrings (image : list Z) (m : ElfMetadata) (budget : Z) : parse (ElfMetadata * Z) :=
  let string_table := SelectDynamicEntry m kDynamicTagStringTable kDynamicTagSceStringTable in
  let string_table_size := SelectDynamicEntry m kDynamicTagStringTableSize kDynamicTagSceStringTableSize in
  let no_table := isNone (sel_entry string_table) in
  let has_needed := negb (isNone (FindDynamicEntry m kDynamicTagNeeded)) in
  let has_name := negb (isNone (FindDynamicEntry m kDynamicTagSharedObjectName)) in
  let has_sce_identities := HasDynamicEntry m sce_identity_tags in
  if xorb no_table (isNone (sel_entry string_table_size))
     || (negb no_table && negb (bool_decide (sel_source string_table = sel_source string_table_size)))
     || ((has_needed || has_name) && no_table)
     || (has_sce_identities && no_table)
  then fails kIncompleteDynamicStringTable
  else
    match sel_entry string_table with
    | None => returns (m, budget)
    | Some _ =>
        size ← access (sel_entry string_table_size);
        parse_string_table image m string_table size budget
    end.

Definition ReadMetadataString (image : list Z) (m : ElfMetadata) (offset budget : Z) : parse (string * Z) :=
  table_offset ← require (di_string_table_file_offset (em_dynamic_info m)) kIncompleteDynamicStringTable;
  table_size ← require (di_string_table_size (em_dynamic_info m)) kIncompleteDynamicStringTable;
  ensure (RangeWithin (image_size image) table_offset table_size) kDynamicStringTableNotFileBacked;;
  bytes ← subspan image table_offset table_size;
  ensure (offset <? image_size bytes) kDynamicStringOffsetOutOfRange;;
  string_read (ReadDynamicString bytes offset budget) kUnterminatedDynamicString.

(** ** SCE identities *)

Definition low_bits (n v : Z) : Z := Z.land v (Z.ones n).

Definition tag_in (tags : list Z) (e : ElfDynamicEntry) : bool := existsb (Z.eqb (dyn_tag e)) tags.

(** The identity an entry declares is appended to its list. *)
Definition add_identity (e : ElfDynamicEntry) (name : string) (d : ElfDynamicInfo) : ElfDynamicInfo :=
  let im := di_import_modules d in let xm := di_export_modules d in
  let il := di_import_libraries d in let xl := di_export_libraries d in
  let is_import_module := tag_in [kDynamicTagSceNeededModule; kDynamicTagSceNeededModuleV2] e in
  let is_export_module := tag_in [kDynamicTagSceModuleInfo; kDynamicTagSceModuleInfoV2] e in
  let is_import_library := tag_in [kDynamicTagSceImportLibrary; kDynamicTagSceImportLibraryV2] e in
  if is_import_module || is_export_module then
    let identity := mkModuleIdentity (low_bits 16 (Z.shiftr (dyn_value e) 48))
                      (low_bits 8 (Z.shiftr (dyn_value e) 40)) (low_bits 8 (Z.shiftr (dyn_value e) 32)) name in
    if is_import_module then set_identities (im ++ [identity]) xm il xl d
    else set_identities im (xm ++ [identity]) il xl d
  else
    let identity := mkLibraryIdentity (low_bits 16 (Z.shiftr (dyn_value e) 48))
                      (low_bits 16 (Z.shiftr (dyn_value e) 32)) name in
    if is_import_library then set_identities im xm (il ++ [identity]) xl d
    else set_identities im xm il (xl ++ [identity]) d.

Fixpoint parse_identities (image : list Z) (entries : list ElfDynamicEntry) (m : ElfMetadata)
    (budget : Z) : parse (ElfMetadata * Z) :=
  match entries with
  | [] => returns (m, budget)
  | e :: rest =>
      if negb (tag_in sce_identity_tags e) then parse_identities image rest m budget
      else
        '(name, budget) ← ReadMetadataString image m (low_bits 32 (dyn_value e)) budget;
        parse_identities image rest (set_dynamic_info (add_identity e name (em_dynamic_info m)) m) budget
  end.

Definition ParseSceIdentities (image : list Z) (m : ElfMetadata) (budget : Z) : parse (ElfMetadata * Z) :=
  parse_identities image (em_dynamic_entries m) m budget.

(** ** Relocations *)

Definition IsGuestRangeMapped (m : ElfMetadata) (address size : Z) : bool :=
  existsb (fun h =>
    is_load h && negb (address <? ph_virtual_address h)
    && (let relative := (address - ph_virtual_address h)%u64 in
        (relative <=? ph_memory_size h) && (size <=? (ph_memory_size h - relative)%u64)))
    (em_program_headers m).

(** The loop over [n] entries from the file offset on. *)
Fixpoint read_rela (image : list Z) (m : ElfMetadata) (n : nat) (entry_offset : Z)
    (entries : list ElfRelaEntry) : parse (list ElfRelaEntry) :=
  match n with
  | O => returns entries
  | S n' =>
      offset ← Read64 image entry_offset;
      info ← Read64 image (entry_offset + 8)%u64;
      addend ← Read64 image (entry_offset + 16)%u64;
      let entry := mkRela offset info (as_int64 addend) in
      ensure (negb (negb (rela_type entry =? 0) && negb (IsGuestRangeMapped m offset 1)))
        kRelocationTargetOutOfRange;;
      read_rela image m n' (entry_offset + kRelaEntrySize)%u64 (entries ++ [entry])
  end.

Definition ParseRelaTable (image : list Z) (m : ElfMetadata) (table : DynamicEntrySelection) (size : Z)
    (entries : list ElfRelaEntry) : parse (list ElfRelaEntry) :=
  ensure (size mod kRelaEntrySize =? 0) kInvalidRelaEntrySize;;
  file_offset ← require (ResolveDynamicFileOffset m table size) kRelaTableNotFileBacked;
  read_rela image m (Z.to_nat (size / kRelaEntrySize)) file_offset entries.

(** How the two tables are declared: the SCE tags if one of them is there,
    otherwise all the standard ones or none. *)
Definition select_rela (m : ElfMetadata) (sce_table sce_size sce_third table size third : Z) :
    parse (DynamicEntrySelection * option ElfDynamicEntry * option ElfDynamicEntry) :=
  if HasDynamicEntry m [sce_table; sce_size; sce_third] then
    let selection := SelectSceDynamicEntry m sce_table in
    if isNone (sel_entry selection) || isNone (FindDynamicEntry m sce_size)
    then fails kIncompleteRelaMetadata
    else returns (selection, FindDynamicEntry m sce_size, FindDynamicEntry m sce_third)
  else
    let selection := mkSelection (FindDynamicEntry m table) kLoadSegment in
    let present (o : option ElfDynamicEntry) : Z := if isNone o then 0 else 1 in
    let fields := present (sel_entry selection) + present (FindDynamicEntry m size)
                  + present (FindDynamicEntry m third) in
    if negb (fields =? 0) && negb (fields =? 3) then fails kIncompleteRelaMetadata
    else returns (selection, FindDynamicEntry m size, FindDynamicEntry m third).

(** A selected table, if there is one; the third field must have the value. *)
Definition parse_selected (image : list Z) (m : ElfMetadata)
    (s : DynamicEntrySelection * option ElfDynamicEntry * option ElfDynamicEntry)
    (expected : Z) (wrong : ElfError) (entries : list ElfRelaEntry) : parse (list ElfRelaEntry) :=
  let '(table, size, third) := s in
  match sel_entry table with
  | None => returns entries
  | Some _ =>
      ensure (match third with Some e => dyn_value e =? expected | None => true end) wrong;;
      size ← access size;
      ParseRelaTable image m table (dyn_value size) entries
  end.

Definition ParseDynamicRelocations (image : list Z) (m : ElfMetadata) : parse ElfMetadata :=
  rela ← select_rela m kDynamicTagSceRela kDynamicTagSceRelaSize kDynamicTagSceRelaEntrySize
           kDynamicTagRela kDynamicTagRelaSize kDynamicTagRelaEntrySize;
  relocations ← parse_selected image m rela kRelaEntrySize kInvalidRelaEntrySize
                  (di_relocations (em_dynamic_info m));
  jump ← select_rela m kDynamicTagSceJumpRelocation kDynamicTagScePltRelocationSize kDynamicTagScePltRelocationFormat
           kDynamicTagJumpRelocation kDynamicTagPltRelocationSize kDynamicTagPltRelocationFormat;
  plt ← parse_selected image m jump kDynamicFormatRela kUnsupportedPltRelocationFormat
          (di_plt_relocations (em_dynamic_info m));
  let d := em_dynamic_info m in
  returns (set_dynamic_info (set_tables relocations plt (di_symbols d) d) m).

(** ** Symbols *)

Fixpoint read_symbols (image strings : list Z) (n : nat) (offset budget : Z)
    (symbols : list ElfSymbol) : parse (list ElfSymbol * Z) :=
  match n with
  | O => returns (symbols, budget)
  | S n' =>
      name_offset ← Read32 image offset;
      info ← Read8 image (offset + 4)%u64;
      other ← Read8 image (offset + 5)%u64;
      section_index ← Read16 image (offset + 6)%u64;
      value ← Read64 image (offset + 8)%u64;
      size ← Read64 image (offset + 16)%u64;
      ensure (name_offset <? image_size strings) kSymbolNameOffsetOutOfRange;;
      '(name, budget) ← string_read (ReadDynamicString strings name_offset budget) kUnterminatedSymbolName;
      read_symbols image strings n' (offset + kSymbolEntrySize)%u64 budget
        (symbols ++ [mkElfSymbol name_offset info other section_index value size name])
  end.

Definition ParseSymbolRecords (image : list Z) (m : ElfMetadata) (symbol_file_offset symbol_count budget : Z) :
    parse (ElfMetadata * Z) :=
  let d := em_dynamic_info m in
  string_file_offset ← require (di_string_table_file_offset d) kIncompleteDynamicSymbolMetadata;
  string_table_size ← require (di_string_table_size d) kIncompleteDynamicSymbolMetadata;
  ensure (RangeWithin (image_size image) string_file_offset string_table_size) kDynamicStringTableNotFileBacked;;
  strings ← subspan image string_file_offset string_table_size;
  '(symbols, budget) ← read_symbols image strings (Z.to_nat symbol_count) symbol_file_offset budget (di_symbols d);
  returns (set_dynamic_info (set_tables (di_relocations d) (di_plt_relocations d) symbols d) m, budget).

Definition maximum_symbol (relocations : list ElfRelaEntry) (start : Z) : Z :=
  foldl (fun maximum r => Z.max maximum (rela_symbol r)) start relocations.

(** The bytes of the SCE symbol table: declared, or up to the largest symbol a
    relocation names; nothing when there is none. *)
Definition sce_symbol_bytes (m : ElfMetadata) : option Z :=
  match FindDynamicEntry m kDynamicTagSceSymbolTableSize with
  | Some e => Some (dyn_value e)
  | None =>
      let d := em_dynamic_info m in
      let maximum := maximum_symbol (di_plt_relocations d) (maximum_symbol (di_relocations d) 0) in
      if maximum =? 0 then None else Some ((maximum + 1) * kSymbolEntrySize)%u64
  end.

Definition parse_sce_symbols (image : list Z) (m : ElfMetadata) (budget : Z) : parse (ElfMetadata * Z) :=
  let symbol_table := SelectDynamicEntry m kDynamicTagSymbolTable kDynamicTagSceSymbolTable in
  let symbol_entry_size :=
    match FindDynamicEntry m kDynamicTagSceSymbolEntrySize with
    | Some e => Some e
    | None => FindDynamicEntry m kDynamicTagSymbolEntrySize
    end in
  ensure (negb (isNone (sel_entry symbol_table)
                || bool_decide (di_string_table_source (em_dynamic_info m) = kDataNone)))
    kIncompleteDynamicSymbolMetadata;;
  ensure (match symbol_entry_size with Some e => dyn_value e =? kSymbolEntrySize | None => true end)
    kInvalidSymbolEntrySize;;
  match sce_symbol_bytes m with
  | None => returns (m, budget)
  | Some bytes =>
      ensure (bytes mod kSymbolEntrySize =? 0) kInvalidSymbolTableSize;;
      symbol_file_offset ← require (ResolveDynamicFileOffset m symbol_table bytes) kSymbolTableNotFileBacked;
      ParseSymbolRecords image m symbol_file_offset (bytes / kSymbolEntrySize) budget
  end.

Definition parse_hashed_symbols (image : list Z) (m : ElfMetadata) (hash : ElfDynamicEntry) (budget : Z) :
    parse (ElfMetadata * Z) :=
  let d := em_dynamic_info m in
  symbol_table ← require (FindDynamicEntry m kDynamicTagSymbolTable) kIncompleteDynamicSymbolMetadata;
  symbol_entry_size ← require (FindDynamicEntry m kDynamicTagSymbolEntrySize) kIncompleteDynamicSymbolMetadata;
  ensure (negb (isNone (di_string_table_file_offset d) || isNone (di_string_table_size d)))
    kIncompleteDynamicSymbolMetadata;;
  ensure (dyn_value symbol_entry_size =? kSymbolEntrySize) kInvalidSymbolEntrySize;;
  hash_header_offset ← require (ResolveFileOffset m (dyn_value hash) 8) kHashTableNotFileBacked;
  bucket_count ← Read32 image hash_header_offset;
  symbol_count ← Read32 image (hash_header_offset + 4)%u64;
  let hash_size := (8 + 4 * (bucket_count + symbol_count))%u64 in
  ensure (negb (isNone (ResolveFileOffset m (dyn_value hash) hash_size))) kHashTableNotFileBacked;;
  let symbol_table_size := (symbol_count * kSymbolEntrySize)%u64 in
  symbol_file_offset ← require (ResolveFileOffset m (dyn_value symbol_table) symbol_table_size)
                         kSymbolTableNotFileBacked;
  ParseSymbolRecords image m symbol_file_offset symbol_count budget.

Definition ParseDynamicSymbols (image : list Z) (m : ElfMetadata) (budget : Z) : parse (ElfMetadata * Z) :=
  if HasDynamicEntry m [kDynamicTagSceSymbolTable; kDynamicTagSceSymbolTableSize; kDynamicTagSceSymbolEntrySize]
  then parse_sce_symbols image m budget
  else
    match FindDynamicEntry m kDynamicTagHash with
    | None => returns (m, budget)
    | Some hash => parse_hashed_symbols image m hash budget
    end.
