(* ===== verification/ElfParser.v ===== *)
(** The executable parser ([src/loader/elf.cpp]): [ParseElf64] and
    [ParseExecutable64]. *)
From S2P Require Import Prelude Elf ElfReader.

Definition IsSupportedAbi (os_abi abi_version : Z) : bool :=
  if os_abi =? 0 then abi_version =? 0
  else if os_abi =? 9 then (abi_version =? 0) || (abi_version =? 2)
  else false.

Definition IsSupportedType (type : Z) : bool :=
  (type =? 2) || (type =? 3) || (type =? 0xfe10) || (type =? 0xfe18).

(** ** Program headers *)

Definition check_load (h : ElfProgramHeader) : parse unit :=
  if negb (is_load h) then returns tt
  else
    ensure (negb (ph_file_size h >? ph_memory_size h)) kSegmentFileSizeExceedsMemorySize;;
    ensure (negb (ph_memory_size h >? u64_max - ph_virtual_address h)) kSegmentAddressRangeOverflow;;
    ensure (negb ((ph_alignment h >? 1)
                  && (negb (is_power_of_two (ph_alignment h))
                      || negb (ph_virtual_address h mod ph_alignment h =? ph_offset h mod ph_alignment h))))
      kInvalidSegmentAlignment.

Definition read_header (image : list Z) (entry_offset : Z) : parse ElfProgramHeader :=
  type ← Read32 image entry_offset;
  flags ← Read32 image (entry_offset + 4)%u64;
  offset ← Read64 image (entry_offset + 8)%u64;
  virtual_address ← Read64 image (entry_offset + 16)%u64;
  physical_address ← Read64 image (entry_offset + 24)%u64;
  file_size ← Read64 image (entry_offset + 32)%u64;
  memory_size ← Read64 image (entry_offset + 40)%u64;
  alignment ← Read64 image (entry_offset + 48)%u64;
  returns (mkProgramHeader type flags offset offset virtual_address physical_address file_size
             memory_size alignment).

Fixpoint read_headers (image : list Z) (n : nat) (entry_offset : Z) (headers : list ElfProgramHeader) :
    parse (list ElfProgramHeader) :=
  match n with
  | O => returns headers
  | S n' =>
      header ← read_header image entry_offset;
      check_load header;;
      read_headers image n' (entry_offset + kProgramHeaderSize)%u64 (headers ++ [header])
  end.

Definition set_file_offset (offset : Z) (h : ElfProgramHeader) : ElfProgramHeader :=
  mkProgramHeader (ph_type h) (ph_flags h) (ph_offset h) offset (ph_virtual_address h)
    (ph_physical_address h) (ph_file_size h) (ph_memory_size h) (ph_alignment h).

Definition needs_file_data (h : ElfProgramHeader) : bool :=
  negb (ph_file_size h =? 0)
  && (is_load h || (ph_type h =? kProgramTypeDynamic) || (ph_type h =? kProgramTypeSceDynlibData)).

(** The header of an index with its place in the file.  The resolution reads
    only fields that stay as they are. *)
Definition place_header (image_size : Z) (layout : ExecutableLayout) (headers : list ElfProgramHeader)
    (index : Z) (h : ElfProgramHeader) : parse ElfProgramHeader :=
  h ← (if needs_file_data h && bool_decide (el_container layout = kSelf)
       then match ResolveSelfFileOffset image_size layout headers h index with
            | inl e => fails e
            | inr offset => returns (set_file_offset offset h)
            end
       else returns h);
  ensure (negb (is_load h && negb (RangeWithin image_size (ph_file_offset h) (ph_file_size h))))
    kSegmentFileRangeOutOfRange;;
  returns h.

Fixpoint place_headers (image_size : Z) (layout : ExecutableLayout) (headers : list ElfProgramHeader)
    (index : Z) (rest : list ElfProgramHeader) : parse (list ElfProgramHeader) :=
  match rest with
  | [] => returns []
  | h :: rest' =>
      h' ← place_header image_size layout headers index h;
      placed ← place_headers image_size layout headers (index + 1) rest';
      returns (h' :: placed)
  end.

(** ** Checks on the whole table *)

Definition range_le (a b : Z * Z) : Prop := a.1 < b.1 \/ (a.1 = b.1 /\ a.2 <= b.2).
#[global] Instance range_le_dec a b : Decision (range_le a b).
Proof. unfold range_le. apply _. Defined.

Definition load_ranges (headers : list ElfProgramHeader) : list (Z * Z) :=
  map (fun h => (ph_virtual_address h, (ph_virtual_address h + ph_memory_size h)%u64))
    (List.filter (fun h => is_load h && negb (ph_memory_size h =? 0)) headers).

Fixpoint ranges_apart (ranges : list (Z * Z)) : bool :=
  match ranges with
  | a :: (b :: _) as rest => negb (b.1 <? a.2) && ranges_apart rest
  | _ => true
  end.

Fixpoint check_dynlibdata (image_size : Z) (seen : bool) (headers : list ElfProgramHeader) : parse unit :=
  match headers with
  | [] => returns tt
  | h :: rest =>
      if negb (ph_type h =? kProgramTypeSceDynlibData) then check_dynlibdata image_size seen rest
      else
        ensure (negb seen) kMultipleSceDynlibDataSegments;;
        ensure (RangeWithin image_size (ph_file_offset h) (ph_file_size h))
          kSceDynlibDataSegmentFileRangeOutOfRange;;
        check_dynlibdata image_size true rest
  end.

Fixpoint find_dynamic (found : option ElfProgramHeader) (headers : list ElfProgramHeader) :
    parse (option ElfProgramHeader) :=
  match headers with
  | [] => returns found
  | h :: rest =>
      if negb (ph_type h =? kProgramTypeDynamic) then find_dynamic found rest
      else
        ensure (isNone found) kMultipleDynamicSegments;;
        find_dynamic (Some h) rest
  end.

(** ** The dynamic table *)

Fixpoint read_dynamic (image : list Z) (n : nat) (entry_offset : Z) (entries : list ElfDynamicEntry) :
    parse (list ElfDynamicEntry) :=
  match n with
  | O => fails kUnterminatedDynamicTable
  | S n' =>
      tag ← Read64 image entry_offset;
      if as_int64 tag =? kDynamicTagNull then returns entries
      else
        value ← Read64 image (entry_offset + 8)%u64;
        read_dynamic image n' (entry_offset + kDynamicEntrySize)%u64
          (entries ++ [mkDynamicEntry (as_int64 tag) value])
  end.

Definition parse_dynamic (image : list Z) (header : ElfProgramHeader) (m : ElfMetadata) : parse ElfMetadata :=
  ensure (ph_file_size header mod kDynamicEntrySize =? 0) kInvalidDynamicSegmentSize;;
  ensure (RangeWithin (image_size image) (ph_file_offset header) (ph_file_size header))
    kDynamicSegmentFileRangeOutOfRange;;
  entries ← read_dynamic image (Z.to_nat (ph_file_size header / kDynamicEntrySize))
              (ph_file_offset header) (em_dynamic_entries m);
  let m := ParseDynamicLifecycleMetadata (set_dynamic_entries entries m) in
  let budget := CalculateDecodedStringBudget (image_size image) in
  '(m, budget) ← ParseDynamicStrings image m budget;
  '(m, budget) ← ParseSceIdentities image m budget;
  m ← ParseDynamicRelocations image m;
  '(m, _) ← ParseDynamicSymbols image m budget;
  returns m.

(** ** The file header *)

Definition ParseElf64WithLayout (image : list Z) (layout : ExecutableLayout) : parse ElfMetadata :=
  ensure (RangeWithin (image_size image) (el_elf_offset layout) kElfHeaderSize) kImageTooSmall;;
  let elf_offset := el_elf_offset layout in
  magic ← bytes_are image elf_offset [0x7f; 0x45; 0x4c; 0x46];
  ensure magic kInvalidMagic;;
  class ← Read8 image (elf_offset + 4)%u64;
  ensure (class =? 2) kUnsupportedClass;;
  data ← Read8 image (elf_offset + 5)%u64;
  ensure (data =? 1) kUnsupportedEndianness;;
  ident_version ← Read8 image (elf_offset + 6)%u64;
  ensure (ident_version =? 1) kUnsupportedIdentVersion;;
  os_abi ← Read8 image (elf_offset + 7)%u64;
  abi_version ← Read8 image (elf_offset + 8)%u64;
  type ← Read16 image (elf_offset + 16)%u64;
  machine ← Read16 image (elf_offset + 18)%u64;
  version ← Read32 image (elf_offset + 20)%u64;
  entry_point ← Read64 image (elf_offset + 24)%u64;
  program_header_offset ← Read64 image (elf_offset + 32)%u64;
  header_size ← Read16 image (elf_offset + 52)%u64;
  program_header_size ← Read16 image (elf_offset + 54)%u64;
  program_header_count ← Read16 image (elf_offset + 56)%u64;
  ensure (IsSupportedAbi os_abi abi_version) kUnsupportedAbi;;
  ensure (IsSupportedType type) kUnsupportedFileType;;
  ensure (machine =? 62) kUnsupportedMachine;;
  ensure (version =? 1) kUnsupportedVersion;;
  ensure (header_size =? kElfHeaderSize) kInvalidHeaderSize;;
  ensure (program_header_size =? kProgramHeaderSize) kInvalidProgramHeaderSize;;
  let table_size := (program_header_count * program_header_size)%u64 in
  table_offset ← require (AddWithoutOverflow elf_offset program_header_offset) kProgramHeaderTableOutOfRange;
  ensure (RangeWithin (image_size image) table_offset table_size) kProgramHeaderTableOutOfRange;;
  read ← read_headers image (Z.to_nat program_header_count) table_offset [];
  headers ← place_headers (image_size image) layout read 0 read;
  ensure (ranges_apart (merge_sort range_le (load_ranges headers))) kOverlappingLoadSegments;;
  check_dynlibdata (image_size image) false headers;;
  dynamic_header ← find_dynamic None headers;
  let m := mkElfMetadata (el_container layout) elf_offset
             (low_bits 16 (Z.of_nat (length (el_self_segments layout)))) os_abi abi_version type machine
             version entry_point headers [] ElfDynamicInfo_default in
  match dynamic_header with
  | None => returns m
  | Some header => parse_dynamic image header m
  end.

Definition ParseElf64 (image : list Z) : parse ElfMetadata :=
  ParseElf64WithLayout image ExecutableLayout_default.

Definition ParseExecutable64 (image : list Z) : parse ElfMetadata :=
  layout ← ParseExecutableLayout image;
  ParseElf64WithLayout image layout.
