(* ===== verification/ElfLoad.v ===== *)
(** Loading a parsed executable into guest memory ([src/loader/elf.cpp]):
    [CalculateElfLoadRange], [LoadElf64] and [LoadExecutable64]. *)
From S2P Require Import Prelude SharedBacking GuestMemory GuestMemoryInit.
From S2P Require Import Elf ElfReader ElfParser.

Implicit Types (m : GuestMemory).

(** [kNone] is no error. *)
Record ElfLoadRangeResult := mkLoadRange {
  erl_error : option ElfError;
  erl_base_address : Z;
  erl_size : Z;
  erl_load_segment_count : Z
}.

(** The loop of [CalculateElfLoadRange]: minimum, maximum and count so far. *)
Fixpoint load_range_loop (headers : list ElfProgramHeader) (minimum maximum count : Z) : ElfLoadRangeResult :=
  match headers with
  | [] =>
      if count =? 0 then mkLoadRange None 0 0 0
      else mkLoadRange None minimum (maximum - minimum)%u64 count
  | h :: rest =>
      if negb (is_load h) || (ph_memory_size h =? 0) then load_range_loop rest minimum maximum count
      else if ph_memory_size h >? u64_max - ph_virtual_address h
      then mkLoadRange (Some kSegmentAddressRangeOverflow) 0 0 count
      else
        let end_address := (ph_virtual_address h + ph_memory_size h)%u64 in
        load_range_loop rest (Z.min minimum (ph_virtual_address h)) (Z.max maximum end_address) (count + 1)%u64
  end.

Definition CalculateElfLoadRange (metadata : ElfMetadata) : ElfLoadRangeResult :=
  load_range_loop (em_program_headers metadata) u64_max 0 0.

(** ** Planning *)

Definition ProtectionFromFlags (flags : Z) : Z :=
  let protection := kNone in
  let protection := if negb (Z.land flags 4 =? 0) then Z.lor protection kRead else protection in
  let protection := if negb (Z.land flags 2 =? 0) then Z.lor protection kWrite else protection in
  if negb (Z.land flags 1 =? 0) then Z.lor protection kExecute else protection.

Definition HasProtection (value flag : Z) : bool := negb (Z.land value flag =? 0).

Record ElfLoadResult := mkLoadResult {
  elr_error : option ElfError;
  elr_metadata : ElfMetadata;
  elr_segment_count : Z;
  elr_file_bytes : Z;
  elr_zero_bytes : Z
}.

Definition load_failure (e : ElfError) (r : ElfLoadResult) : ElfLoadResult :=
  mkLoadResult (Some e) (elr_metadata r) (elr_segment_count r) (elr_file_bytes r) (elr_zero_bytes r).

(** [header_index] is the header itself. *)
Record PlannedLoadRange := mkPlannedLoad {
  pr_header : ElfProgramHeader;
  pr_address : Z;
  pr_mapping_address : Z;
  pr_mapping_size : Z;
  pr_protection : Z
}.

Record PlannedMappingRange := mkPlannedMapping { pm_address : Z; pm_size : Z; pm_protection : Z }.

(** One load segment. *)
Definition plan_range (granularity load_bias : Z) m (h : ElfProgramHeader) : ElfError + PlannedLoadRange :=
  if ph_virtual_address h >? u64_max - load_bias then inl kSegmentAddressRangeOverflow
  else
    let load_address := (load_bias + ph_virtual_address h)%u64 in
    if ph_memory_size h >? u64_max - load_address then inl kSegmentAddressRangeOverflow
    else
      let load_end := (load_address + ph_memory_size h)%u64 in
      let mapping_address := Z.ldiff load_address (granularity - 1)%u64 in
      if load_end >? u64_max - (granularity - 1)%u64 then inl kSegmentAddressRangeOverflow
      else
        let mapping_end := align_up_mask load_end granularity in
        let mapping_size := (mapping_end - mapping_address)%u64 in
        if negb (Contains mapping_address mapping_size m) then inl kGuestRangeOutOfRange
        else inr (mkPlannedLoad h load_address mapping_address mapping_size (ProtectionFromFlags (ph_flags h))).

(** The first loop: the ranges planned and the counters of the result. *)
Fixpoint plan_ranges (granularity load_bias : Z) m (headers : list ElfProgramHeader)
    (planned : list PlannedLoadRange) (r : ElfLoadResult) : list PlannedLoadRange * ElfLoadResult :=
  match headers with
  | [] => (planned, r)
  | h :: rest =>
      if negb (is_load h) || (ph_memory_size h =? 0) then plan_ranges granularity load_bias m rest planned r
      else
        match plan_range granularity load_bias m h with
        | inl e => (planned, load_failure e r)
        | inr range =>
            let zero_size := (ph_memory_size h - ph_file_size h)%u64 in
            if (elr_file_bytes r >? u64_max - ph_file_size h) || (elr_zero_bytes r >? u64_max - zero_size)
            then (planned ++ [range], load_failure kLoadSizeOverflow r)
            else
              plan_ranges granularity load_bias m rest (planned ++ [range])
                (mkLoadResult (elr_error r) (elr_metadata r) (elr_segment_count r + 1)%u64
                   (elr_file_bytes r + ph_file_size h)%u64 (elr_zero_bytes r + zero_size)%u64)
        end
  end.

Definition boundaries_of (planned : list PlannedLoadRange) : list Z :=
  concat (map (fun p => [pr_mapping_address p; (pr_mapping_address p + pr_mapping_size p)%u64]) planned).

(** [std::unique]. *)
Fixpoint unique (l : list Z) : list Z :=
  match l with
  | a :: (b :: _) as rest => if a =? b then unique rest else a :: unique rest
  | _ => l
  end.

Definition sorted_boundaries (planned : list PlannedLoadRange) : list Z :=
  unique (merge_sort Z.le (boundaries_of planned)).

(** The ranges that cover a piece between two boundaries: whether there is
    one, the union of the protections and whether one is writable and
    executable. *)
Definition covers_piece (address end_ : Z) (p : PlannedLoadRange) : bool :=
  negb ((pr_mapping_address p >? address) || ((pr_mapping_address p + pr_mapping_size p)%u64 <? end_)).

Definition piece_covers (planned : list PlannedLoadRange) (address end_ : Z) : bool * Z * bool :=
  foldl (fun '(covered, protection, declared) p =>
    if negb (covers_piece address end_ p) then (covered, protection, declared)
    else (true, Z.lor protection (pr_protection p),
          declared || (HasProtection (pr_protection p) kWrite && HasProtection (pr_protection p) kExecute)))
    (false, kNone, false) planned.

(** A piece extends the last mapping or starts one. *)
Definition add_piece (mappings : list PlannedMappingRange) (address size protection : Z) : list PlannedMappingRange :=
  match last mappings with
  | Some b =>
      if ((pm_address b + pm_size b)%u64 =? address) && (pm_protection b =? protection)
      then removelast mappings ++ [mkPlannedMapping (pm_address b) (pm_size b + size)%u64 protection]
      else mappings ++ [mkPlannedMapping address size protection]
  | None => mappings ++ [mkPlannedMapping address size protection]
  end.

Fixpoint plan_mappings m (planned : list PlannedLoadRange) (boundaries : list Z)
    (mappings : list PlannedMappingRange) : ElfError + list PlannedMappingRange :=
  match boundaries with
  | address :: (end_ :: _) as rest =>
      let '(covered, protection, declared) := piece_covers planned address end_ in
      if negb covered then plan_mappings m planned rest mappings
      else if HasProtection protection kWrite && HasProtection protection kExecute && negb declared
      then inl kGuestMappingConflict
      else
        let size := (end_ - address)%u64 in
        if negb (CanMap address size m) then inl kGuestMappingConflict
        else plan_mappings m planned rest (add_piece mappings address size protection)
  | _ => inr mappings
  end.

(** ** Loading *)

Section load.
Context `{HostMemory}.

(** Unmapping what was mapped, the last first. *)
Definition unmap_all (mapped : list PlannedMappingRange) m : GuestMemory :=
  foldl (fun m p => (Unmap (pm_address p) (pm_size p) m).1) m (rev mapped).

Fixpoint map_all (mapped rest : list PlannedMappingRange) m : GuestMemory * bool :=
  match rest with
  | [] => (m, true)
  | p :: rest' =>
      let '(m1, ok) := Map (pm_address p) (pm_size p) (pm_protection p) m in
      if ok then map_all (mapped ++ [p]) rest' m1 else (unmap_all mapped m1, false)
  end.

(** The file part; [None] is a read outside the image. *)
Definition initialize_file (image : list Z) (p : PlannedLoadRange) m : option (GuestMemory * bool) :=
  let h := pr_header p in
  if negb (ph_file_size h =? 0) then
    match subspan image (ph_file_offset h) (ph_file_size h) with
    | returns data => Some (Initialize (pr_address p) data m)
    | _ => None
    end
  else Some (m, true).

(** Then the zeros. *)
Definition initialize_range (image : list Z) (p : PlannedLoadRange) m : option (GuestMemory * bool) :=
  let h := pr_header p in
  match initialize_file image p m with
  | None => None
  | Some (m1, initialized) =>
      let zero_size := (ph_memory_size h - ph_file_size h)%u64 in
      if initialized && negb (zero_size =? 0)
      then Some (InitializeFill (pr_address p + ph_file_size h)%u64 zero_size 0 m1)
      else Some (m1, initialized)
  end.

Fixpoint initialize_ranges (image : list Z) (mappings : list PlannedMappingRange)
    (planned : list PlannedLoadRange) m : option (GuestMemory * bool) :=
  match planned with
  | [] => Some (m, true)
  | p :: rest =>
      match initialize_range image p m with
      | None => None
      | Some (m1, initialized) =>
          if initialized then initialize_ranges image mappings rest m1
          else Some (unmap_all mappings m1, false)
      end
  end.

Definition LoadParsedElf64 (image : list Z) (metadata : ElfMetadata) (load_bias : Z) m
    : option (GuestMemory * ElfLoadResult) :=
  let r := mkLoadResult None metadata 0 0 0 in
  let granularity := mapping_granularity_ m in
  if (granularity =? 0) || negb (Z.land granularity (granularity - 1)%u64 =? 0)
  then Some (m, load_failure kGuestMappingConflict r)
  else
    let '(planned, r) := plan_ranges granularity load_bias m (em_program_headers metadata) [] r in
    match elr_error r with
    | Some _ => Some (m, r)
    | None =>
        match plan_mappings m planned (sorted_boundaries planned) [] with
        | inl e => Some (m, load_failure e r)
        | inr mappings =>
            let '(m1, mapped) := map_all [] mappings m in
            if negb mapped then Some (m1, load_failure kGuestMappingConflict r)
            else
              match initialize_ranges image mappings planned m1 with
              | None => None
              | Some (m2, true) => Some (m2, r)
              | Some (m2, false) => Some (m2, load_failure kGuestRangeOutOfRange r)
              end
        end
    end.

(** The result of parsing, an error included, is loaded. *)
Definition load_parsed (image : list Z) (parsed : parse ElfMetadata) (load_bias : Z) m
    : option (GuestMemory * ElfLoadResult) :=
  match parsed with
  | faults => None
  | fails e => Some (m, mkLoadResult (Some e) ElfMetadata_default 0 0 0)
  | returns metadata => LoadParsedElf64 image metadata load_bias m
  end.

Definition LoadElf64 (image : list Z) m (load_bias : Z) : option (GuestMemory * ElfLoadResult) :=
  load_parsed image (ParseElf64 image) load_bias m.
Definition LoadExecutable64 (image : list Z) m (load_bias : Z) : option (GuestMemory * ElfLoadResult) :=
  load_parsed image (ParseExecutable64 image) load_bias m.
End load.
