(* ===== verification/ElfReaderProps.v ===== *)
(** Reading executable images is safe: a logic for parsing steps that do not
    fault, the values of the fields read, SELF layouts and dynamic tables. *)
From S2P Require Import Prelude LittleEndian Elf ElfReader.
From Stdlib Require Import Ascii.

(** ** Steps that do not fault *)

(** The step does not fault, and a value it returns satisfies [Q]. *)
Definition runs {A} (x : parse A) (Q : A -> Prop) : Prop :=
  match x with
  | faults => False
  | fails _ => True
  | returns a => Q a
  end.

Lemma runs_bind {A B} (x : parse A) (f : A -> parse B) (P : A -> Prop) (Q : B -> Prop) :
  runs x P -> (forall a, P a -> runs (f a) Q) -> runs (x ≫= f) Q.
Proof. destruct x; cbn; [done|done|]. intros H Hf. by apply Hf. Qed.

Lemma runs_mono {A} (x : parse A) (P Q : A -> Prop) : runs x P -> (forall a, P a -> Q a) -> runs x Q.
Proof. destruct x; cbn; [done|done|]. intros H Hf. by apply Hf. Qed.

Lemma runs_ensure b e {B} (f : unit -> parse B) (Q : B -> Prop) :
  (b = true -> runs (f tt) Q) -> runs (ensure b e ≫= f) Q.
Proof. destruct b; cbn; auto. Qed.

Lemma runs_require {A} (o : option A) e {B} (f : A -> parse B) (Q : B -> Prop) :
  (forall a, o = Some a -> runs (f a) Q) -> runs (require o e ≫= f) Q.
Proof. destruct o; cbn; auto. Qed.

Lemma runs_returns {A} (a : A) (Q : A -> Prop) : Q a -> runs (returns a) Q.
Proof. done. Qed.

(** One step of a parser: a check, a required value or a read. *)
Ltac parse_step :=
  match goal with
  | |- runs (ensure _ _ ≫= _) _ => apply runs_ensure; intros ?
  | |- runs (require _ _ ≫= _) _ => apply runs_require; intros ? ?
  | |- runs (returns _) _ => apply runs_returns
  | |- runs (fails _) _ => exact I
  end.

Lemma returns_bind {A B} (a : A) (f : A -> parse B) : returns a ≫= f = f a.
Proof. done. Qed.

(** What a step that returned went through. *)
Lemma bind_returns {A B} (x : parse A) (f : A -> parse B) b :
  x ≫= f = returns b -> exists a, x = returns a /\ f a = returns b.
Proof. destruct x; cbn; [done|done|]. eauto. Qed.

Lemma runs_of_returns {A} (x : parse A) (Q : A -> Prop) a : runs x Q -> x = returns a -> Q a.
Proof. intros H ->. done. Qed.

(** ** Fields *)

(** The bytes of a window. *)
Definition window (image : list Z) (offset : Z) (n : nat) : list Z := take n (drop (Z.to_nat offset) image).

Definition le_field (image : list Z) (offset : Z) (n : nat) : Z := le_value (window image offset n).

Definition image_ok (image : list Z) : Prop := Forall is_byte image /\ image_size image <= u64_max.

Lemma lor_shift_byte low high : is_byte low -> Z.lor low (Z.shiftl high 8) = low + 256 * high.
Proof.
  intros Hl. unfold is_byte in Hl.
  assert (Hd : Z.land low (Z.shiftl high 8) = 0).
  { apply Z.bits_inj_0. intros i. rewrite Z.land_spec. destruct (Z.ltb_spec i 0).
    { by rewrite Z.testbit_neg_r. }
    destruct (Z.ltb_spec i 8).
    - rewrite (Z.shiftl_spec_low high 8 i) by lia. apply andb_false_r.
    - destruct (Z.eqb_spec low 0) as [->|]; [by rewrite Z.testbit_0_l|].
      rewrite (Z.bits_above_log2 low i); [done|lia|].
      assert (Z.log2 low < 8) by (apply Z.log2_lt_pow2; lia). lia. }
  rewrite <- Z.add_nocarry_lor by done. rewrite Z.shiftl_mul_pow2 by lia. lia.
Qed.

Section fields.
Context (image : list Z) (Hok : image_ok image).
Local Abbreviation size := (image_size image).

Lemma size_nonneg : 0 <= size <= u64_max.
Proof using Hok. unfold image_size. destruct Hok as [_ H]. unfold image_size in H. lia. Qed.

Lemma image_lookup offset : 0 <= offset < size -> exists b, image !! Z.to_nat offset = Some b /\ is_byte b.
Proof using Hok.
  intros H. destruct Hok as [Hb _]. unfold image_size in *.
  destruct (lookup_lt_is_Some_2 image (Z.to_nat offset)) as [b Eb]; [lia|].
  exists b. split; [done|]. by eapply Forall_lookup_1.
Qed.

Lemma window_cons offset n b :
  0 <= offset -> image !! Z.to_nat offset = Some b ->
  window image offset (S n) = b :: window image (offset + 1) n.
Proof.
  intros Ho Hb. unfold window. rewrite (drop_S _ _ _ Hb). cbn [take]. f_equal.
  by replace (Z.to_nat (offset + 1)) with (S (Z.to_nat offset)) by lia.
Qed.

Lemma Read8_runs offset : 0 <= offset < size -> runs (Read8 image offset) is_byte.
Proof using Hok. intros H. destruct (image_lookup _ H) as (b & Eb & Hb). unfold Read8. by rewrite Eb. Qed.

Lemma read_bytes_eq n : forall offset,
  0 <= offset -> offset + Z.of_nat n <= size ->
  read_bytes image n offset = returns (le_field image offset n).
Proof using Hok.
  induction n as [|n IH]; intros offset Ho Hs; [done|]. cbn [read_bytes].
  pose proof size_nonneg. destruct (image_lookup offset) as (b & Eb & Hb); [lia|].
  unfold Read8. rewrite Eb. cbn.
  destruct n as [|n].
  { cbn. unfold le_field. rewrite (window_cons _ _ _ Ho Eb). cbn. by rewrite Z.lor_0_r, Z.add_0_r. }
  rewrite add64_small by u64_lia. rewrite IH by lia. cbn. unfold le_field.
  rewrite (window_cons _ _ _ Ho Eb). cbn [le_value]. by rewrite lor_shift_byte.
Qed.

Lemma window_bytes offset n : Forall is_byte (window image offset n).
Proof using Hok. destruct Hok as [Hb _]. by apply Forall_take, Forall_drop. Qed.

Lemma window_length offset n : 0 <= offset -> offset + Z.of_nat n <= size -> length (window image offset n) = n.
Proof. intros Ho Hs. unfold window. rewrite length_take, length_drop. unfold image_size in Hs. lia. Qed.

Lemma le_field_bound offset n : 0 <= le_field image offset n < 256 ^ Z.of_nat n.
Proof using Hok.
  pose proof (le_value_bound _ (window_bytes offset n)) as Hb. unfold le_field.
  assert (length (window image offset n) <= n)%nat by (unfold window; rewrite length_take; lia).
  pose proof (Z.pow_le_mono_r 256 (Z.of_nat (length (window image offset n))) (Z.of_nat n) ltac:(lia) ltac:(lia)).
  lia.
Qed.

Lemma Read16_eq offset : 0 <= offset -> offset + 2 <= size -> Read16 image offset = returns (le_field image offset 2).
Proof using Hok. intros. apply read_bytes_eq; lia. Qed.
Lemma Read32_eq offset : 0 <= offset -> offset + 4 <= size -> Read32 image offset = returns (le_field image offset 4).
Proof using Hok. intros. apply read_bytes_eq; lia. Qed.
Lemma Read64_eq offset : 0 <= offset -> offset + 8 <= size -> Read64 image offset = returns (le_field image offset 8).
Proof using Hok. intros. apply read_bytes_eq; lia. Qed.
Lemma Read8_eq offset : 0 <= offset < size -> Read8 image offset = returns (le_field image offset 1).
Proof using Hok.
  intros H. rewrite <- read_bytes_eq by lia. cbn [read_bytes].
  destruct (image_lookup _ H) as (b & Eb & Hb). unfold Read8. rewrite Eb. cbn. by rewrite Z.lor_0_r.
Qed.

Lemma is_u64_field offset n : (n <= 8)%nat -> is_u64 (le_field image offset n).
Proof using Hok.
  intros Hn. pose proof (le_field_bound offset n).
  pose proof (Z.pow_le_mono_r 256 (Z.of_nat n) 8 ltac:(lia) ltac:(lia)).
  change (256 ^ 8) with (2 ^ 64) in *. u64_lia.
Qed.

Lemma bytes_are_runs expected : forall offset,
  0 <= offset -> offset + Z.of_nat (length expected) <= size ->
  runs (bytes_are image offset expected) (fun r => r = true -> window image offset (length expected) = expected).
Proof using Hok.
  induction expected as [|e expected IH]; intros offset Ho Hs; cbn [bytes_are length] in *; [done|].
  pose proof size_nonneg. destruct (image_lookup offset) as (b & Eb & Hb); [lia|].
  unfold Read8. rewrite Eb. cbn. destruct (Z.eqb_spec b e) as [->|]; [|done].
  rewrite (window_cons _ _ _ Ho Eb).
  destruct expected as [|e' expected]; [done|].
  rewrite add64_small by u64_lia. cbn [length] in *.
  eapply runs_mono; [apply IH; lia|]. intros r Hr Et. by rewrite Hr.
Qed.

Lemma subspan_runs offset count :
  0 <= offset -> 0 <= count -> offset + count <= size ->
  subspan image offset count = returns (window image offset (Z.to_nat count)).
Proof using.
  intros. unfold subspan. replace (_ && _) with true by lia. done.
Qed.
End fields.

Lemma RangeWithin_spec total offset length :
  is_u64 total -> 0 <= offset -> 0 <= length ->
  RangeWithin total offset length = true <-> offset + length <= total.
Proof.
  intros Ht Ho Hl. unfold RangeWithin. destruct (Z.leb_spec offset total); cbn; [|lia].
  rewrite sub64_small by u64_lia. lia.
Qed.

Lemma AddWithoutOverflow_spec a b :
  is_u64 a -> is_u64 b -> AddWithoutOverflow a b = if a + b <=? u64_max then Some (a + b) else None.
Proof.
  intros Ha Hb. unfold AddWithoutOverflow. destruct (Z.leb_spec (a + b) u64_max).
  - replace (b >? u64_max - a) with false by lia. by rewrite add64_small by u64_lia.
  - by replace (b >? u64_max - a) with true by lia.
Qed.

(** Reading the next field of a record whose place is known. *)
Ltac read_step Hok :=
  match goal with
  | |- runs (Read8 ?i ?o ≫= _) _ => rewrite (Read8_eq i Hok o) by lia
  | |- runs (Read16 ?i ?o ≫= _) _ => rewrite (Read16_eq i Hok o) by lia
  | |- runs (Read32 ?i ?o ≫= _) _ => rewrite (Read32_eq i Hok o) by lia
  | |- runs (Read64 ?i ?o ≫= _) _ => rewrite (Read64_eq i Hok o) by lia
  | |- runs (subspan ?i ?o ?c ≫= _) _ => rewrite (subspan_runs i o c) by lia
  end; rewrite returns_bind.

(** ** SELF containers *)

Record segment_words (s : SelfSegment) : Prop := {
  sw_type : is_u64 (ss_type s);
  sw_offset : is_u64 (ss_offset s);
  sw_compressed : is_u64 (ss_compressed_size s);
  sw_decompressed : is_u64 (ss_decompressed_size s)
}.

Record layout_ok (image : list Z) (l : ExecutableLayout) : Prop := {
  lo_elf : 0 <= el_elf_offset l /\ el_elf_offset l <= u64_max;
  lo_file_size : is_u64 (el_self_file_size l);
  lo_segments : Forall segment_words (el_self_segments l);
  lo_count : Z.of_nat (length (el_self_segments l)) < 2 ^ 16
}.

Section self.
Context (image : list Z) (Hok : image_ok image).
Local Abbreviation size := (image_size image).

Lemma read_self_segments_runs n : forall index,
  0 <= index -> kSelfHeaderSize + (index + Z.of_nat n) * kSelfSegmentSize <= size ->
  runs (read_self_segments image n index)
    (fun l => length l = n /\ Forall segment_words l).
Proof using Hok.
  pose proof (size_nonneg image Hok). unfold kSelfHeaderSize, kSelfSegmentSize in *.
  induction n as [|n IH]; intros index Hi Hs; cbn [read_self_segments]; [done|].
  unfold kSelfHeaderSize, kSelfSegmentSize. cbv zeta. rewrite (add64_small 32) by u64_lia.
  rewrite !add64_small by u64_lia. do 4 read_step Hok.
  eapply runs_bind; [apply IH; lia|]. intros l [Hl Hw]. cbn. split; [by rewrite Hl|].
  constructor; [|done]. constructor; cbn; apply is_u64_field; first [done|lia].
Qed.

Lemma IsSelfMagic_runs : runs (IsSelfMagic image) (fun b => b = true -> 4 <= size).
Proof using Hok.
  unfold IsSelfMagic. destruct (Z.ltb_spec size 4); [done|].
  eapply runs_bind; [apply (bytes_are_runs image Hok); cbn [length]; try lia|]. intros a _.
  eapply runs_bind; [apply (bytes_are_runs image Hok); cbn [length]; try lia|]. intros b _ _. lia.
Qed.

Lemma ParseExecutableLayout_runs : runs (ParseExecutableLayout image) (layout_ok image).
Proof using Hok.
  pose proof (size_nonneg image Hok). unfold ParseExecutableLayout.
  eapply runs_bind; [apply IsSelfMagic_runs|]. intros magic _.
  destruct magic; cbn [negb].
  2: { constructor; cbn; [u64_lia|u64_lia|done|lia]. }
  parse_step. unfold kSelfHeaderSize, kSelfSegmentSize, kElfHeaderSize in *.
  eapply runs_bind.
  { unfold HasKnownSelfLayout. eapply runs_bind; [apply IsSelfMagic_runs|]. intros b _.
    instantiate (1 := fun _ => True). destruct b; [|done]. cbn [negb].
    eapply runs_mono; [apply (bytes_are_runs image Hok); cbn [length]; try lia|done]. }
  intros known _. parse_step. do 2 read_step Hok. parse_step.
  pose proof (le_field_bound image Hok 24 2) as Hb. change (256 ^ Z.of_nat 2) with 65536 in Hb.
  rewrite mul64_small in * by u64_lia.
  rewrite AddWithoutOverflow_spec in * by u64_lia.
  destruct (_ <=? _) in *; [|done]. simplify_eq.
  parse_step.
  match goal with H : RangeWithin _ _ _ = true |- _ => apply RangeWithin_spec in H; [|u64_lia..] end.
  eapply runs_bind; [apply read_self_segments_runs; unfold kSelfHeaderSize, kSelfSegmentSize; lia|].
  intros l [Hl Hw]. constructor; cbn; [u64_lia| |done|lia].
  apply is_u64_field; [done|lia].
Qed.

(** What the loop has resolved so far lies in the image. *)
Definition search_ok (length : Z) (r : self_search) : Prop :=
  (0 < sf_resolved r)%nat -> 0 <= sf_file_offset r /\ sf_file_offset r + length <= size.

Lemma self_step_ok headers target index exact s r :
  segment_words s -> 0 <= ph_file_size target ->
  search_ok (ph_file_size target) r ->
  search_ok (ph_file_size target) (self_step size headers target index exact s r).
Proof using Hok.
  intros Hs Hf Hr. pose proof (size_nonneg image Hok) as Hsz. unfold self_step.
  destruct (self_candidate _ _ _ _ _) as [source|]; [|done].
  split_match; [done|]. split_match; [|done]. split_match; [done|]. intros _. cbn.
  pose proof (sw_offset _ Hs). pose proof (is_u64_sub64 (ph_offset target) (ph_offset source)).
  match goal with H : negb (RangeWithin _ ?c _) = false, E : AddWithoutOverflow _ _ = Some ?c |- _ =>
    apply negb_false_iff in H; rewrite AddWithoutOverflow_spec in E by done end.
  destruct (_ <=? _); [|done]. simplify_eq.
  match goal with H : RangeWithin size _ _ = true |- _ => apply RangeWithin_spec in H; [|u64_lia..] end.
  u64_lia.
Qed.

Lemma self_search_ok headers target index exact segments : forall r,
  Forall segment_words segments -> 0 <= ph_file_size target ->
  search_ok (ph_file_size target) r ->
  search_ok (ph_file_size target) (foldl (fun r s => self_step size headers target index exact s r) r segments).
Proof using Hok.
  induction segments as [|s l IH]; intros r Hw Hf Hr; [done|]. apply Forall_cons in Hw as [Hs Hw].
  cbn [foldl]. apply IH; [done|done|]. by apply self_step_ok.
Qed.

(** The file range the resolution finds lies in the image. *)
Lemma ResolveSelfFileOffset_within layout headers target index offset :
  layout_ok image layout -> is_u64 (ph_offset target) -> is_u64 (ph_file_size target) ->
  ResolveSelfFileOffset size layout headers target index = inr offset ->
  0 <= offset /\ offset + ph_file_size target <= size.
Proof using Hok.
  intros Hl Ho Hf. pose proof (size_nonneg image Hok) as Hsz. unfold ResolveSelfFileOffset.
  set (r := foldl _ _ _).
  assert (Hr : search_ok (ph_file_size target) r).
  { apply self_search_ok; [apply lo_segments with (1 := Hl)|u64_lia|]. unfold search_ok. cbn. lia. }
  clearbody r. pose proof (lo_elf _ _ Hl). pose proof (lo_file_size _ _ Hl).
  destruct (1 <? sf_resolved r)%nat; [done|].
  destruct (Nat.eqb_spec (sf_resolved r) 1); [intros [= <-]; apply Hr; lia|].
  rewrite AddWithoutOverflow_spec by u64_lia. cbv zeta.
  match goal with |- context [if RangeWithin size (ph_offset target) _ then ?x else ?y] =>
    set (fallback := if RangeWithin size (ph_offset target) _ then x else y) end.
  assert (Hfall : fallback = inr offset -> 0 <= offset /\ offset + ph_file_size target <= size).
  { unfold fallback.
    destruct (RangeWithin _ _ _) eqn:E; [intros [= <-]; apply RangeWithin_spec in E; u64_lia|].
    destruct (_ && _) eqn:E2; [|by repeat case_match]. intros [= <-].
    apply andb_true_iff in E2 as [E2 E3]. rewrite sub64_small in E3 by u64_lia. u64_lia. }
  clearbody fallback.
  destruct (_ <=? u64_max); [|exact Hfall]. destruct (RangeWithin size (_ + _) _) eqn:E; [|exact Hfall].
  intros [= <-]. apply RangeWithin_spec in E; u64_lia.
Qed.
End self.

(** The dynamic section is parsed without faults, and what the parser returns
    is what the tables of the image hold. *)

(** ** Words *)

Definition is_u32 (v : Z) : Prop := 0 <= v < 2 ^ 32.
Definition is_u16 (v : Z) : Prop := 0 <= v < 2 ^ 16.

Record header_words (h : ElfProgramHeader) : Prop := {
  hw_type : is_u32 (ph_type h);
  hw_flags : is_u32 (ph_flags h);
  hw_offset : is_u64 (ph_offset h);
  hw_file_offset : is_u64 (ph_file_offset h);
  hw_virtual : is_u64 (ph_virtual_address h);
  hw_physical : is_u64 (ph_physical_address h);
  hw_file_size : is_u64 (ph_file_size h);
  hw_memory_size : is_u64 (ph_memory_size h);
  hw_alignment : is_u64 (ph_alignment h)
}.

(** A load segment takes its bytes from the image, fits the address space and
    is congruent to its file offset. *)
Record load_ok (image : list Z) (h : ElfProgramHeader) : Prop := {
  lk_sizes : ph_file_size h <= ph_memory_size h;
  lk_address : ph_virtual_address h + ph_memory_size h <= u64_max;
  lk_file : ph_file_offset h + ph_file_size h <= image_size image;
  lk_alignment : ph_alignment h <= 1 \/
    exists k, 0 <= k /\ ph_alignment h = 2 ^ k /\
      ph_virtual_address h mod ph_alignment h = ph_offset h mod ph_alignment h
}.

(** A header of the table: the segments with file data lie in the image. *)
Record header_ok (image : list Z) (h : ElfProgramHeader) : Prop := {
  ho_words : header_words h;
  ho_load : is_load h = true -> load_ok image h;
  ho_dynlib : ph_type h = kProgramTypeSceDynlibData -> ph_file_offset h + ph_file_size h <= image_size image
}.

Definition entry_words (e : ElfDynamicEntry) : Prop := - 2 ^ 63 <= dyn_tag e < 2 ^ 63 /\ is_u64 (dyn_value e).

Lemma as_int64_bound v : is_u64 v -> - 2 ^ 63 <= as_int64 v < 2 ^ 63.
Proof. intros Hv. unfold as_int64. destruct (Z.ltb_spec v (2 ^ 63)); u64_lia. Qed.

Lemma as_int64_mod v : as_int64 v mod 2 ^ 64 = v mod 2 ^ 64.
Proof.
  unfold as_int64. destruct (_ <? _); [done|].
  replace (v - 2 ^ 64) with (v + (-1) * 2 ^ 64) by lia. by rewrite Z.mod_add by done.
Qed.

(** ** Where the tables are *)

Section tables.
Context (image : list Z) (Hok : image_ok image).
Local Abbreviation size := (image_size image).

(** The file range of [count] bytes at a virtual address: inside the file part
    of a load segment. *)
Definition file_backed (headers : list ElfProgramHeader) (address count offset : Z) : Prop :=
  exists h, h ∈ headers /\ is_load h = true /\ ph_virtual_address h <= address /\
    address + count <= ph_virtual_address h + ph_file_size h /\
    offset = ph_file_offset h + (address - ph_virtual_address h).

Lemma file_backed_within headers address count offset :
  Forall (header_ok image) headers -> file_backed headers address count offset ->
  0 <= offset /\ offset + count <= size.
Proof using Hok.
  intros Hh (h & Hin & Hl & Hv & Hc & ->). rewrite Forall_forall in Hh.
  destruct (Hh h Hin) as [Hw Hld _]. pose proof (lk_file _ _ (Hld Hl)).
  pose proof (hw_file_offset _ Hw). u64_lia.
Qed.

Lemma resolve_address_spec headers count address offset :
  Forall (header_ok image) headers -> is_u64 address -> is_u64 count ->
  resolve_address headers count address = Some offset ->
  file_backed headers address count offset.
Proof using Hok.
  intros Hh Ha Hc. pose proof (size_nonneg image Hok).
  induction Hh as [|h headers Hh0 Hh IH]; cbn [resolve_address]; [done|].
  assert (Hrest : resolve_address headers count address = Some offset ->
    file_backed (h :: headers) address count offset).
  { intros E. destruct (IH E) as (h' & Hin & Hr). exists h'. split; [by right|done]. }
  destruct (_ || _) eqn:E1; [exact Hrest|]. apply orb_false_iff in E1 as [E1%negb_false_iff E2].
  destruct Hh0 as [Hw Hld _]. pose proof (hw_virtual _ Hw). pose proof (hw_file_size _ Hw).
  pose proof (hw_file_offset _ Hw). pose proof (lk_file _ _ (Hld E1)).
  cbv zeta. rewrite (sub64_small address) by u64_lia.
  destruct (_ && _) eqn:E3; [|exact Hrest]. apply andb_true_iff in E3 as [E3 E4].
  rewrite sub64_small in E4 by u64_lia. rewrite add64_small by u64_lia. intros [= <-].
  exists h. split_and!; [by left|done|lia|lia|lia].
Qed.

Lemma image_base_u64 headers : Forall (header_ok image) headers -> is_u64 (image_base headers).
Proof using Hok.
  intros Hh. unfold image_base.
  enough (Hi : forall b, is_u64 b -> is_u64 (foldl (fun base h =>
      if is_load h then Z.min base (ph_virtual_address h) else base) b headers)) by (apply Hi; u64_lia).
  induction Hh as [|h headers Hh0 Hh IH]; intros b Hb; cbn [foldl]; [done|]. apply IH.
  destruct (is_load h); [|done]. pose proof (hw_virtual _ (ho_words _ _ Hh0)). u64_lia.
Qed.

(** The virtual address itself, or rebased on the first load segment. *)
Definition resolved_at headers address count offset : Prop :=
  exists a, (a = address \/ a = image_base headers + address) /\ file_backed headers a count offset.

Lemma ResolveFileOffset_spec m address count offset :
  Forall (header_ok image) (em_program_headers m) -> is_u64 address -> is_u64 count ->
  ResolveFileOffset m address count = Some offset ->
  resolved_at (em_program_headers m) address count offset.
Proof using Hok.
  intros Hh Ha Hc. unfold ResolveFileOffset. destruct (resolve_address _ _ address) as [d|] eqn:E.
  { intros [= <-]. exists address. split; [by left|]. by apply resolve_address_spec. }
  destruct (_ =? _); [done|]. pose proof (image_base_u64 _ Hh).
  rewrite AddWithoutOverflow_spec by done. destruct (Z.leb_spec (image_base (em_program_headers m) + address) u64_max); [|done].
  intros E'. eexists. split; [by right|]. apply resolve_address_spec; [done|u64_lia|done|done].
Qed.

Lemma resolved_within headers address count offset :
  Forall (header_ok image) headers -> resolved_at headers address count offset ->
  0 <= offset /\ offset + count <= size.
Proof using Hok. intros Hh (a & _ & Hb). by eapply file_backed_within. Qed.

Lemma ResolveDynamicFileOffset_within m selection count offset :
  Forall (header_ok image) (em_program_headers m) -> Forall entry_words (em_dynamic_entries m) ->
  (forall e, sel_entry selection = Some e -> e ∈ em_dynamic_entries m) -> is_u64 count ->
  ResolveDynamicFileOffset m selection count = Some offset ->
  0 <= offset /\ offset + count <= size.
Proof using Hok.
  intros Hh He Hs Hc. pose proof (size_nonneg image Hok).
  unfold ResolveDynamicFileOffset. destruct (sel_entry selection) as [e|] eqn:Es; [|done].
  specialize (Hs e eq_refl). rewrite Forall_forall in He. destruct (He e Hs) as [_ Hv].
  destruct (sel_source selection); [done| |].
  { intros E. eapply resolved_within; [done|]. by eapply ResolveFileOffset_spec. }
  destruct (FindProgramHeader _ _) as [h|] eqn:Ef; [|done].
  apply find_elem in Ef as [Hin Ht]. rewrite Forall_forall in Hh. destruct (Hh h Hin) as [Hw _ Hd].
  pose proof (hw_file_size _ Hw). pose proof (hw_file_offset _ Hw).
  assert (ph_file_offset h + ph_file_size h <= size) by (apply Hd; lia).
  destruct (RangeWithin _ _ _) eqn:Er; [|done]. apply RangeWithin_spec in Er; [|u64_lia..].
  cbn. intros [= <-]. rewrite add64_small by u64_lia. u64_lia.
Qed.
End tables.

Lemma FindDynamicEntry_elem m tag e :
  FindDynamicEntry m tag = Some e -> e ∈ em_dynamic_entries m /\ dyn_tag e = tag.
Proof. intros [? ?]%find_elem. split; [done|lia]. Qed.

Lemma SelectDynamicEntry_elem m standard sce e :
  sel_entry (SelectDynamicEntry m standard sce) = Some e -> e ∈ em_dynamic_entries m.
Proof.
  unfold SelectDynamicEntry. destruct (FindDynamicEntry m sce) eqn:E1; cbn.
  { intros [= <-]. by eapply FindDynamicEntry_elem. }
  destruct (FindDynamicEntry m standard) eqn:E2; cbn; [|done].
  intros [= <-]. by eapply FindDynamicEntry_elem.
Qed.

(** ** Strings *)

Definition string_of (bytes : list Z) : string :=
  foldr (fun b s => String (char_of_byte b) s) EmptyString bytes.

(** The NUL-terminated string at an offset of a table. *)
Definition string_at (table : list Z) (offset : Z) (v : string) : Prop :=
  0 <= offset < image_size table /\
  exists chars tail, drop (Z.to_nat offset) table = chars ++ 0 :: tail /\
    Forall (fun b => b <> 0) chars /\ v = string_of chars.

(** A decoded string costs its bytes and its terminator. *)
Definition string_cost (v : string) : Z := string_size v + 1.

Lemma push_back_string_of s b l :
  (push_back s (char_of_byte b) +:+ string_of l = s +:+ string_of (b :: l))%string.
Proof. induction s as [|c s IH]; [done|]. exact (f_equal (String c) IH). Qed.

Lemma push_back_size s c : string_size (push_back s c) = string_size s + 1.
Proof. unfold string_size. induction s as [|c' s IH]; cbn [push_back String.length]; lia. Qed.

Lemma string_of_size l : string_size (string_of l) = Z.of_nat (length l).
Proof. unfold string_size. induction l as [|b l IH]; cbn [string_of foldr String.length length]; [done|]. unfold string_of in IH. lia. Qed.

Lemma string_app_nil (s : string) : (s +:+ EmptyString = s)%string.
Proof. induction s as [|c s IH]; [done|]. exact (f_equal (String c) IH). Qed.

Lemma string_append_size (a b : string) : string_size (a +:+ b) = string_size a + string_size b.
Proof.
  unfold string_size. induction a as [|c a IH]; [done|].
  change (String c a +:+ b)%string with (String c (a +:+ b)). cbn [String.length]. lia.
Qed.

(** The loop succeeds exactly when the string ends and fits the budget. *)
Lemma read_string_spec rest budget : forall value v b',
  is_u64 budget -> string_size value < budget ->
  read_string rest budget value = kStringOk v b' <->
  exists chars tail, rest = chars ++ 0 :: tail /\ Forall (fun b => b <> 0) chars /\
    v = (value +:+ string_of chars)%string /\ string_cost v <= budget /\ b' = budget - string_cost v.
Proof.
  unfold string_cost. induction rest as [|byte rest IH]; intros value v b' Hb Hv; cbn [read_string].
  { split; [done|]. intros (chars & tail & E & _). by destruct chars. }
  assert (Hnn : 0 <= string_size value) by (unfold string_size; lia).
  destruct (Z.eqb_spec byte 0) as [->|Hne].
  - replace (string_size value >=? budget) with false by lia. rewrite sub64_small by u64_lia. split.
    + intros [= <- <-]. exists [], rest. rewrite string_app_nil. split_and!; [done|constructor|done|lia|lia].
    + intros ([|b chars] & tail & E & Hf & -> & Hc & ->); cbn [app] in E; simplify_eq.
      * rewrite string_app_nil. done.
      * by apply Forall_cons in Hf as [? _].
  - replace (budget =? 0) with false by lia. rewrite sub64_small by u64_lia. cbn [orb].
    destruct (Z.geb_spec (string_size value) (budget - 1)).
    + split; [done|]. intros ([|b chars] & tail & E & Hf & -> & Hc & ->); cbn [app] in E; simplify_eq.
      rewrite string_append_size, string_of_size in Hc. cbn [length] in Hc. lia.
    + rewrite IH by (rewrite ?push_back_size; lia || done). split.
      * intros (chars & tail & -> & Hf & -> & Hc & ->). exists (byte :: chars), tail.
        rewrite push_back_string_of in *. split_and!; [done|by constructor|done|done|done].
      * intros ([|b chars] & tail & E & Hf & -> & Hc & ->); cbn [app] in E; simplify_eq.
        apply Forall_cons in Hf as [? Hf].
        exists chars, tail. rewrite push_back_string_of. done.
Qed.

Lemma ReadDynamicString_spec table offset budget v b' :
  is_u64 budget -> 0 <= offset ->
  ReadDynamicString table offset budget = kStringOk v b' <->
  string_at table offset v /\ string_cost v <= budget /\ b' = budget - string_cost v.
Proof.
  intros Hb Ho. unfold ReadDynamicString, string_at.
  destruct (Z.geb_spec offset (image_size table)); [split; [done|lia]|].
  destruct (Z.ltb_spec 0 budget).
  - rewrite read_string_spec by (unfold string_size; cbn; lia || done). cbn. split.
    + intros (chars & tail & Hd & Hf & -> & Hc & ->). split_and!; [lia|lia|by eauto|done|done].
    + intros ((_ & chars & tail & Hd & Hf & ->) & Hc & ->). eauto 10.
  - assert (budget = 0) as -> by u64_lia. split.
    + destruct (drop _ _) as [|b rest] eqn:E; cbn; [done|]. by destruct (b =? 0).
    + intros (_ & Hc & _). unfold string_cost, string_size in Hc. lia.
Qed.

(** The string read into the parser. *)
Lemma string_read_runs table offset budget e :
  is_u64 budget -> 0 <= offset ->
  runs (string_read (ReadDynamicString table offset budget) e)
    (fun '(v, b') => string_at table offset v /\ string_cost v <= budget /\ b' = budget - string_cost v).
Proof.
  intros Hb Ho. destruct (ReadDynamicString table offset budget) as [v b'| |] eqn:E; cbn; [|done|done].
  by apply ReadDynamicString_spec in E.
Qed.

Definition names_cost (names : list string) : Z := Z.of_nat (sum_list_with (fun v => S (String.length v)) names).

Lemma names_cost_app a b : names_cost (a ++ b) = names_cost a + names_cost b.
Proof. unfold names_cost. rewrite sum_list_with_app. lia. Qed.

Lemma names_cost_one v : names_cost [v] = string_cost v.
Proof. unfold names_cost, string_cost, string_size. cbn. lia. Qed.

Lemma names_cost_cons v l : names_cost (v :: l) = string_cost v + names_cost l.
Proof. rewrite <- names_cost_one. apply (names_cost_app [v] l). Qed.

Definition is_needed (e : ElfDynamicEntry) : bool := dyn_tag e =? kDynamicTagNeeded.

(** The loops of the parser over entries that name a string. *)
Lemma read_needed_runs bytes entries : forall budget needed,
  is_u64 budget -> Forall entry_words entries ->
  runs (read_needed bytes entries budget needed) (fun '(l, b') =>
    exists names, l = needed ++ names /\
      Forall2 (fun e v => string_at bytes (dyn_value e) v) (List.filter is_needed entries) names /\
      b' = budget - names_cost names /\ is_u64 b').
Proof.
  induction entries as [|e entries IH]; intros budget needed Hb He; cbn [read_needed].
  { exists []. rewrite app_nil_r. split_and!; [done|constructor|unfold names_cost; cbn; lia|done]. }
  apply Forall_cons in He as [[_ Hv] He]. cbn [List.filter]. unfold is_needed at 1.
  destruct (dyn_tag e =? kDynamicTagNeeded) eqn:Et; cbn [negb]; [|by apply IH].
  parse_step. eapply runs_bind; [apply string_read_runs; [done|u64_lia]|].
  intros [v b1] (Hs & Hc & ->).
  assert (Hb1 : is_u64 (budget - string_cost v)) by (unfold string_cost, string_size in *; u64_lia).
  eapply runs_mono; [by apply IH|]. intros [l b'] (names & -> & Hf & -> & Hb').
  exists (v :: names). rewrite <- app_assoc, names_cost_cons. split_and!; [done|by constructor|lia|done].
Qed.

(** ** The string table *)

Section phases.
Context (image : list Z) (Hok : image_ok image).
Local Abbreviation size := (image_size image).

(** The string table the metadata declares, inside the image. *)
Definition table_of (d : ElfDynamicInfo) (table : list Z) : Prop :=
  exists o s, di_string_table_file_offset d = Some o /\ di_string_table_size d = Some s /\
    0 <= o /\ 0 <= s /\ o + s <= size /\ table = window image o (Z.to_nat s).

Definition no_table (d : ElfDynamicInfo) : Prop :=
  di_string_table_source d = kDataNone /\ di_string_table_file_offset d = None /\ di_string_table_size d = None.

(** What the strings phase makes of the dynamic information. *)
Inductive strings_parsed (m : ElfMetadata) : ElfDynamicInfo -> Prop :=
| no_strings :
    List.filter is_needed (em_dynamic_entries m) = [] -> FindDynamicEntry m kDynamicTagSharedObjectName = None ->
    HasDynamicEntry m sce_identity_tags = false ->
    strings_parsed m (em_dynamic_info m)
| some_strings source o s table needed name :
    source <> kDataNone ->
    table_of (set_string_table source o s (em_dynamic_info m)) table ->
    Forall2 (fun e v => string_at table (dyn_value e) v)
      (List.filter is_needed (em_dynamic_entries m)) needed ->
    match FindDynamicEntry m kDynamicTagSharedObjectName with
    | Some e => exists v, name = Some v /\ string_at table (dyn_value e) v
    | None => name = None
    end ->
    strings_parsed m (set_names needed name (set_string_table source o s (em_dynamic_info m))).

Lemma filter_nil_find m :
  FindDynamicEntry m kDynamicTagNeeded = None -> List.filter is_needed (em_dynamic_entries m) = [].
Proof.
  unfold FindDynamicEntry, is_needed. induction (em_dynamic_entries m) as [|e l IH]; cbn; [done|].
  destruct (_ =? _); [done|]. exact IH.
Qed.

Lemma SelectDynamicEntry_source m standard sce e :
  sel_entry (SelectDynamicEntry m standard sce) = Some e -> sel_source (SelectDynamicEntry m standard sce) <> kDataNone.
Proof.
  unfold SelectDynamicEntry. destruct (FindDynamicEntry m sce); cbn.
  { intros _. unfold SceDynamicDataSource. by destruct (existsb _ _). }
  by destruct (FindDynamicEntry m standard).
Qed.

Lemma parse_string_table_runs m table s budget :
  Forall (header_ok image) (em_program_headers m) -> Forall entry_words (em_dynamic_entries m) ->
  (forall e, sel_entry table = Some e -> e ∈ em_dynamic_entries m) -> sel_source table <> kDataNone ->
  is_u64 budget -> is_u64 (dyn_value s) ->
  di_needed_libraries (em_dynamic_info m) = [] -> di_shared_object_name (em_dynamic_info m) = None ->
  runs (parse_string_table image m table s budget) (fun '(m', b') =>
    exists d', m' = set_dynamic_info d' m /\ strings_parsed m d' /\ is_u64 b' /\
      b' = budget - names_cost (di_needed_libraries d' ++ option_list (di_shared_object_name d'))).
Proof using Hok.
  intros Hh He Hsel Hsrc Hb Hs Hn Hname. unfold parse_string_table. parse_step.
  match goal with H : ResolveDynamicFileOffset _ _ _ = Some ?o |- _ =>
    rename o into off; apply (ResolveDynamicFileOffset_within image Hok) in H as [Ho1 Ho2]; [|done..] end.
  rewrite (subspan_runs image off) by u64_lia. rewrite returns_bind. cbv zeta.
  set (bytes := window image off (Z.to_nat (dyn_value s))).
  assert (Ht : table_of (set_string_table (sel_source table) off (dyn_value s) (em_dynamic_info m)) bytes).
  { exists off, (dyn_value s). cbn. split_and!; [done|done|lia|u64_lia|lia|done]. }
  eapply runs_bind; [by apply read_needed_runs|]. cbn [di_needed_libraries set_string_table]. rewrite Hn.
  intros [needed b1] (names & -> & Hf & -> & Hb1). cbn [app]. destruct (FindDynamicEntry _ _) as [e|] eqn:Ee.
  - parse_step. pose proof (FindDynamicEntry_elem _ _ _ Ee) as [Hin _].
    rewrite Forall_forall in He. destruct (He e Hin) as [_ Hv].
    eapply runs_bind; [apply string_read_runs; [done|u64_lia]|]. intros [v b2] (Hv2 & Hc & ->). cbn.
    eexists. split_and!; [done| | |].
    + eapply some_strings; [done|done|done|]. rewrite Ee. eauto.
    + unfold string_cost, string_size in *. u64_lia.
    + cbn. rewrite names_cost_app, names_cost_one. lia.
  - cbn. rewrite Hname. eexists. split_and!; [done| |done|].
    + eapply some_strings; [done|done|done|]. by rewrite Ee.
    + cbn. by rewrite app_nil_r.
Qed.

Lemma isNone_false {A} (o : option A) : isNone o = false -> exists a, o = Some a.
Proof. destruct o; [eauto|done]. Qed.
Lemma isNone_true {A} (o : option A) : isNone o = true -> o = None.
Proof. by destruct o. Qed.

Lemma ParseDynamicStrings_runs m budget :
  Forall (header_ok image) (em_program_headers m) -> Forall entry_words (em_dynamic_entries m) ->
  is_u64 budget ->
  di_needed_libraries (em_dynamic_info m) = [] -> di_shared_object_name (em_dynamic_info m) = None ->
  runs (ParseDynamicStrings image m budget) (fun '(m', b') =>
    exists d', m' = set_dynamic_info d' m /\ strings_parsed m d' /\ is_u64 b' /\
      b' = budget - names_cost (di_needed_libraries d' ++ option_list (di_shared_object_name d'))).
Proof using Hok.
  intros Hh He Hb Hn Hname. unfold ParseDynamicStrings. cbv zeta.
  set (table := SelectDynamicEntry m kDynamicTagStringTable kDynamicTagSceStringTable).
  set (tsize := SelectDynamicEntry m kDynamicTagStringTableSize kDynamicTagSceStringTableSize).
  destruct (_ || _) eqn:E; [done|]. rewrite !orb_false_iff in E. destruct E as [[[E1 E2] E3] E4].
  destruct (sel_entry table) as [e|] eqn:Et; cbn [isNone] in *.
  - destruct (sel_entry tsize) as [s|] eqn:Es; [|done]. cbn [access]. rewrite returns_bind.
    apply parse_string_table_runs; [done|done| | |done| |done|done].
    + intros x Hx. by eapply SelectDynamicEntry_elem.
    + by eapply SelectDynamicEntry_source.
    + apply SelectDynamicEntry_elem in Es. rewrite Forall_forall in He. by destruct (He s Es).
  - cbn. exists (em_dynamic_info m). rewrite andb_true_r in E3, E4.
    rewrite orb_false_iff, !negb_false_iff in E3. destruct E3 as [E3a%isNone_true E3b%isNone_true].
    split_and!; [by destruct m| |done|].
    + apply no_strings; [by apply filter_nil_find|done|done].
    + rewrite Hn, Hname. unfold names_cost. cbn. lia.
Qed.

(** A string of the declared table. *)
Definition named (d : ElfDynamicInfo) (offset : Z) (v : string) : Prop :=
  exists table, table_of d table /\ string_at table offset v.

Definition table_ok (d : ElfDynamicInfo) : Prop :=
  no_table d \/ (di_string_table_source d <> kDataNone /\ exists table, table_of d table).

Lemma strings_parsed_table m d : no_table (em_dynamic_info m) -> strings_parsed m d -> table_ok d.
Proof. intros Hn [| ? ? ? table]; [by left|]. right. split; [done|]. by exists table. Qed.

Lemma ReadMetadataString_runs m offset budget :
  table_ok (em_dynamic_info m) -> 0 <= offset -> is_u64 budget ->
  runs (ReadMetadataString image m offset budget) (fun '(v, b') =>
    named (em_dynamic_info m) offset v /\ string_cost v <= budget /\ b' = budget - string_cost v).
Proof using Hok.
  intros Ht Ho Hb. unfold ReadMetadataString.
  destruct Ht as [(_ & -> & _)|(_ & table & Ht)]; [done|].
  pose proof Ht as (o & s & -> & -> & Ho1 & Hs & Hos & Etab). cbn [require]. rewrite !returns_bind. parse_step.
  rewrite subspan_runs by lia. rewrite returns_bind, <- Etab. parse_step.
  eapply runs_mono; [by apply string_read_runs|]. intros [v b'] (Hv & Hc & ->). split; [|done]. by exists table.
Qed.

(** ** SCE identities *)

Definition is_import_module : ElfDynamicEntry -> bool := tag_in [kDynamicTagSceNeededModule; kDynamicTagSceNeededModuleV2].
Definition is_export_module : ElfDynamicEntry -> bool := tag_in [kDynamicTagSceModuleInfo; kDynamicTagSceModuleInfoV2].
Definition is_import_library : ElfDynamicEntry -> bool := tag_in [kDynamicTagSceImportLibrary; kDynamicTagSceImportLibraryV2].
Definition is_export_library : ElfDynamicEntry -> bool := tag_in [kDynamicTagSceExportLibrary; kDynamicTagSceExportLibraryV2].

(** The fields of an identity are the parts of the entry's value, lowest first:
    the string (32 bits), the version (16) and the identifier (16). *)
Definition module_of (d : ElfDynamicInfo) (e : ElfDynamicEntry) (i : ElfModuleIdentity) : Prop :=
  dyn_value e mod 2 ^ 32 + 2 ^ 32 * (mi_version_minor i + 2 ^ 8 * (mi_version_major i + 2 ^ 8 * mi_id i)) = dyn_value e /\
  0 <= mi_version_minor i < 2 ^ 8 /\ 0 <= mi_version_major i < 2 ^ 8 /\ is_u16 (mi_id i) /\
  named d (dyn_value e mod 2 ^ 32) (mi_name i).
Definition library_of (d : ElfDynamicInfo) (e : ElfDynamicEntry) (i : ElfLibraryIdentity) : Prop :=
  dyn_value e mod 2 ^ 32 + 2 ^ 32 * (li_version i + 2 ^ 16 * li_id i) = dyn_value e /\
  is_u16 (li_version i) /\ is_u16 (li_id i) /\ named d (dyn_value e mod 2 ^ 32) (li_name i).

Record identities_parsed (entries : list ElfDynamicEntry) (d : ElfDynamicInfo)
    (im xm : list ElfModuleIdentity) (il xl : list ElfLibraryIdentity) : Prop := {
  ip_import_modules : Forall2 (module_of d) (List.filter is_import_module entries) im;
  ip_export_modules : Forall2 (module_of d) (List.filter is_export_module entries) xm;
  ip_import_libraries : Forall2 (library_of d) (List.filter is_import_library entries) il;
  ip_export_libraries : Forall2 (library_of d) (List.filter is_export_library entries) xl
}.

Definition identity_names (im xm : list ElfModuleIdentity) (il xl : list ElfLibraryIdentity) : list string :=
  map mi_name im ++ map mi_name xm ++ map li_name il ++ map li_name xl.

Lemma low_bits_shift v n k : 0 <= n -> 0 <= k -> low_bits n (Z.shiftr v k) = v / 2 ^ k mod 2 ^ n.
Proof. intros. unfold low_bits. by rewrite Z.land_ones, Z.shiftr_div_pow2 by done. Qed.

Lemma low_bits_mod v n : 0 <= n -> low_bits n v = v mod 2 ^ n.
Proof. intros. unfold low_bits. by rewrite Z.land_ones. Qed.

(** A 64-bit value from its parts. *)
Lemma split_value v :
  is_u64 v -> v mod 2 ^ 32 + 2 ^ 32 * (v / 2 ^ 32 mod 2 ^ 16 + 2 ^ 16 * (v / 2 ^ 48 mod 2 ^ 16)) = v.
Proof.
  intros Hv. replace (v / 2 ^ 48) with (v / 2 ^ 32 / 2 ^ 16) by (by rewrite Z.div_div).
  assert (Hs : 0 <= v / 2 ^ 32 / 2 ^ 16 < 2 ^ 16).
  { rewrite Z.div_div by done. split; [apply Z.div_pos; u64_lia|]. apply Z.div_lt_upper_bound; u64_lia. }
  rewrite (Z.mod_small (_ / _ / _)) by done.
  pose proof (Z.div_mod v (2 ^ 32)). pose proof (Z.div_mod (v / 2 ^ 32) (2 ^ 16)). lia.
Qed.

Lemma library_of_entry d e name :
  is_u64 (dyn_value e) -> named d (dyn_value e mod 2 ^ 32) name ->
  library_of d e (mkLibraryIdentity (low_bits 16 (Z.shiftr (dyn_value e) 48))
                    (low_bits 16 (Z.shiftr (dyn_value e) 32)) name).
Proof.
  intros Hv Hn. unfold library_of, is_u16. cbn. rewrite !low_bits_shift by done.
  split_and!; [by apply split_value|apply Z.mod_pos_bound; lia..|done].
Qed.

Lemma module_of_entry d e name :
  is_u64 (dyn_value e) -> named d (dyn_value e mod 2 ^ 32) name ->
  module_of d e (mkModuleIdentity (low_bits 16 (Z.shiftr (dyn_value e) 48))
                   (low_bits 8 (Z.shiftr (dyn_value e) 40)) (low_bits 8 (Z.shiftr (dyn_value e) 32)) name).
Proof.
  intros Hv Hn. unfold module_of, is_u16. cbn. rewrite !low_bits_shift by done.
  split_and!; [|apply Z.mod_pos_bound; lia..|done].
  rewrite <- (split_value (dyn_value e)) at 5 by done. do 2 f_equal.
  replace (dyn_value e / 2 ^ 40) with (dyn_value e / 2 ^ 32 / 2 ^ 8) by (by rewrite Z.div_div).
  change (2 ^ 16) with (2 ^ 8 * 2 ^ 8) at 2. rewrite (Z.rem_mul_r (dyn_value e / 2 ^ 32)) by done.
  change (2 ^ 16) with 65536. lia.
Qed.

Definition add_identities (im xm : list ElfModuleIdentity) (il xl : list ElfLibraryIdentity)
    (d : ElfDynamicInfo) : ElfDynamicInfo :=
  set_identities (di_import_modules d ++ im) (di_export_modules d ++ xm)
    (di_import_libraries d ++ il) (di_export_libraries d ++ xl) d.

Lemma add_identities_add d im xm il xl im' xm' il' xl' :
  add_identities im' xm' il' xl' (add_identities im xm il xl d)
  = add_identities (im ++ im') (xm ++ xm') (il ++ il') (xl ++ xl') d.
Proof. unfold add_identities, set_identities. cbn. by rewrite !app_assoc. Qed.

(** One entry adds one identity, to the list of its tag. *)
Lemma add_identity_spec e name d :
  tag_in sce_identity_tags e = true -> entry_words e -> named d (dyn_value e mod 2 ^ 32) name ->
  exists im xm il xl, add_identity e name d = add_identities im xm il xl d /\
    identities_parsed [e] d im xm il xl /\ names_cost (identity_names im xm il xl) = string_cost name.
Proof.
  intros Ht [_ Hv] Hn. pose proof (module_of_entry d e name Hv Hn) as Hm.
  pose proof (library_of_entry d e name Hv Hn) as Hl.
  set (i := mkModuleIdentity _ _ _ _) in Hm. set (l := mkLibraryIdentity _ _ _) in Hl.
  assert (Hc : dyn_tag e ∈ sce_identity_tags).
  { unfold tag_in in Ht. apply existsb_exists in Ht as (t & Hin%list_elem_of_In & ->%Z.eqb_eq). done. }
  assert (Hi1 : Forall2 (module_of d) [e] [i]) by (by apply List.Forall2_cons).
  assert (Hl1 : Forall2 (library_of d) [e] [l]) by (by apply List.Forall2_cons).
  unfold sce_identity_tags in Hc. rewrite !elem_of_cons, elem_of_nil in Hc.
  destruct Hc as [Hc|[Hc|[Hc|[Hc|[Hc|[Hc|[Hc|[Hc|[]]]]]]]]];
    [exists [i], [], [], []|exists [i], [], [], []|exists [], [i], [], []|exists [], [i], [], []
    |exists [], [], [l], []|exists [], [], [l], []|exists [], [], [], [l]|exists [], [], [], [l]];
    (split; [unfold add_identities, add_identity, tag_in; rewrite Hc, ?app_nil_r; reflexivity|]);
    (split; [|apply names_cost_one]);
    constructor; cbn [List.filter]; unfold is_import_module, is_export_module, is_import_library,
      is_export_library, tag_in; rewrite Hc; cbn; first [exact Hi1|exact Hl1|exact (List.Forall2_nil _)].
Qed.

Lemma filter_cons_app {A} (p : A -> bool) e l : List.filter p (e :: l) = List.filter p [e] ++ List.filter p l.
Proof. cbn. by destruct (p e). Qed.

Lemma identities_app e l d im xm il xl im' xm' il' xl' :
  identities_parsed [e] d im xm il xl -> identities_parsed l d im' xm' il' xl' ->
  identities_parsed (e :: l) d (im ++ im') (xm ++ xm') (il ++ il') (xl ++ xl').
Proof.
  intros [] []. constructor; rewrite filter_cons_app; by apply Forall2_app.
Qed.

Lemma identities_same_table l d im xm il xl im' xm' il' xl' m :
  identities_parsed l (em_dynamic_info (set_dynamic_info (add_identities im xm il xl d) m)) im' xm' il' xl' ->
  identities_parsed l d im' xm' il' xl'.
Proof. intros [H1 H2 H3 H4]. constructor; [exact H1|exact H2|exact H3|exact H4]. Qed.

Lemma identity_names_app im xm il xl im' xm' il' xl' :
  names_cost (identity_names (im ++ im') (xm ++ xm') (il ++ il') (xl ++ xl'))
  = names_cost (identity_names im xm il xl) + names_cost (identity_names im' xm' il' xl').
Proof. unfold identity_names. rewrite !map_app, !names_cost_app. lia. Qed.

Lemma skipped_identity e l d im xm il xl :
  tag_in sce_identity_tags e = false -> identities_parsed l d im xm il xl ->
  identities_parsed (e :: l) d im xm il xl.
Proof.
  intros Ht [H1 H2 H3 H4]. unfold tag_in, sce_identity_tags in Ht. cbn [existsb] in Ht.
  rewrite !orb_false_iff in Ht.
  constructor; cbn [List.filter]; unfold is_import_module, is_export_module, is_import_library,
    is_export_library, tag_in; cbn [existsb];
    match goal with |- context [if ?b then _ else _] => assert (b = false) as -> by (rewrite !orb_false_iff; tauto) end;
    done.
Qed.

Lemma parse_identities_runs entries : forall m budget,
  table_ok (em_dynamic_info m) -> Forall entry_words entries -> is_u64 budget ->
  runs (parse_identities image entries m budget) (fun '(m', b') => exists im xm il xl,
    m' = set_dynamic_info (add_identities im xm il xl (em_dynamic_info m)) m /\
    identities_parsed entries (em_dynamic_info m) im xm il xl /\
    b' = budget - names_cost (identity_names im xm il xl) /\ is_u64 b').
Proof using Hok.
  induction entries as [|e entries IH]; intros m budget Ht He Hb; cbn [parse_identities].
  { exists [], [], [], []. split_and!.
    - unfold add_identities. rewrite !app_nil_r. destruct m as [? ? ? ? ? ? ? ? ? ? ? d]. by destruct d.
    - constructor; constructor.
    - unfold names_cost. cbn. lia.
    - done. }
  apply Forall_cons in He as [He0 He].
  destruct (tag_in sce_identity_tags e) eqn:Et; cbn [negb].
  - eapply runs_bind.
    { apply ReadMetadataString_runs; [done| |done]. rewrite low_bits_mod by done. apply Z.mod_pos_bound. lia. }
    rewrite low_bits_mod by done. intros [name b1] (Hn & Hc & ->).
    destruct (add_identity_spec e name (em_dynamic_info m) Et He0 Hn) as (im & xm & il & xl & -> & Hp & Hcost).
    assert (Hb1 : is_u64 (budget - string_cost name)) by (unfold string_cost, string_size in *; u64_lia).
    eapply runs_mono; [apply IH; [exact Ht|done|done]|].
    intros [m' b'] (im' & xm' & il' & xl' & -> & Hp' & -> & Hb').
    exists (im ++ im'), (xm ++ xm'), (il ++ il'), (xl ++ xl').
    apply identities_same_table in Hp'. split_and!; [|by apply identities_app| |done].
    + cbn [em_dynamic_info set_dynamic_info]. by rewrite add_identities_add.
    + rewrite identity_names_app. lia.
  - eapply runs_mono; [by apply IH|]. intros [m' b'] (im & xm & il & xl & -> & Hp & -> & Hb').
    exists im, xm, il, xl. split_and!; [done|by apply skipped_identity|done|done].
Qed.

(** ** Relocation tables *)

(** The relocation the image holds at a place. *)
Definition rela_at (offset : Z) : ElfRelaEntry :=
  mkRela (le_field image offset 8) (le_field image (offset + 8) 8) (as_int64 (le_field image (offset + 16) 8)).

Definition rela_table (offset : Z) (n : nat) : list ElfRelaEntry :=
  map (fun i => rela_at (offset + Z.of_nat i * kRelaEntrySize)) (seq 0 n).

(** The field a relocation changes lies in a load segment. *)
Definition target_mapped (headers : list ElfProgramHeader) (r : ElfRelaEntry) : Prop :=
  rela_type r = 0 \/
  exists h, h ∈ headers /\ is_load h = true /\
    ph_virtual_address h <= rela_offset r < ph_virtual_address h + ph_memory_size h.

Record rela_words (r : ElfRelaEntry) : Prop := {
  rl_offset : is_u64 (rela_offset r);
  rl_info : is_u64 (rela_info r);
  rl_addend : - 2 ^ 63 <= rela_addend r < 2 ^ 63
}.

Lemma IsGuestRangeMapped_spec m address :
  Forall (header_ok image) (em_program_headers m) -> is_u64 address ->
  IsGuestRangeMapped m address 1 = true ->
  exists h, h ∈ em_program_headers m /\ is_load h = true /\
    ph_virtual_address h <= address < ph_virtual_address h + ph_memory_size h.
Proof.
  intros Hh Ha. unfold IsGuestRangeMapped. rewrite existsb_exists. intros (h & Hin%list_elem_of_In & Hc).
  rewrite Forall_forall in Hh. destruct (Hh h Hin) as [Hw _ _].
  pose proof (hw_virtual _ Hw). pose proof (hw_memory_size _ Hw).
  apply andb_true_iff in Hc as [[Hl Hv]%andb_true_iff Hc]. rewrite sub64_small in Hc by u64_lia.
  apply andb_true_iff in Hc as [Hc1 Hc2]. rewrite sub64_small in Hc2 by u64_lia.
  exists h. split_and!; [done|done|lia|lia].
Qed.

Lemma rela_table_words offset n : Forall rela_words (rela_table offset n).
Proof using Hok.
  unfold rela_table. apply Forall_map, Forall_forall. intros i _. constructor; cbn.
  1-2: apply (is_u64_field image Hok); lia.
  apply as_int64_bound, (is_u64_field image Hok); lia.
Qed.

Lemma read_rela_runs m n : forall offset entries,
  Forall (header_ok image) (em_program_headers m) ->
  0 <= offset -> offset + Z.of_nat n * kRelaEntrySize <= size ->
  runs (read_rela image m n offset entries) (fun l =>
    l = entries ++ rela_table offset n /\ Forall (target_mapped (em_program_headers m)) (rela_table offset n)).
Proof using Hok.
  pose proof (size_nonneg image Hok). unfold kRelaEntrySize.
  induction n as [|n IH]; intros offset entries Hh Ho Hs; cbn [read_rela].
  { split; [by rewrite app_nil_r|constructor]. }
  rewrite !(add64_small offset 8), !(add64_small offset 16) by u64_lia. do 3 read_step Hok.
  fold (rela_at offset). cbv zeta. parse_step. unfold kRelaEntrySize.
  assert (Et : rela_table offset (S n) = rela_at offset :: rela_table (offset + 24) n).
  { unfold rela_table. cbn [seq map]. f_equal; [by rewrite Z.add_0_r|].
    rewrite <- seq_shift, map_map. apply map_ext. intros i. f_equal. unfold kRelaEntrySize. lia. }
  assert (Hm : target_mapped (em_program_headers m) (rela_at offset)).
  { apply negb_true_iff, andb_false_iff in H0 as [H0%negb_false_iff|H0%negb_false_iff]; [left; lia|].
    right. apply IsGuestRangeMapped_spec; [done|apply (is_u64_field image Hok); lia|done]. }
  rewrite Et. destruct n as [|n].
  - cbn [read_rela]. unfold rela_table. cbn. split; [done|]. by apply Forall_singleton.
  - rewrite add64_small by u64_lia. eapply runs_mono; [apply IH; [done|lia|lia]|].
    intros l [-> Hf]. split; [by rewrite <- app_assoc|]. by constructor.
Qed.

(** A relocation table that was parsed: where the tags put it, all of it. *)
Definition rela_parsed (m : ElfMetadata)
    (s : DynamicEntrySelection * option ElfDynamicEntry * option ElfDynamicEntry) (l : list ElfRelaEntry) : Prop :=
  let '(table, count, _) := s in
  match sel_entry table with
  | None => l = []
  | Some _ => exists e offset, count = Some e /\
      ResolveDynamicFileOffset m table (dyn_value e) = Some offset /\
      0 <= offset /\ offset + dyn_value e <= size /\
      dyn_value e mod kRelaEntrySize = 0 /\ l = rela_table offset (Z.to_nat (dyn_value e / kRelaEntrySize)) /\
      Forall (target_mapped (em_program_headers m)) l
  end.

Definition selection_ok (m : ElfMetadata)
    (s : DynamicEntrySelection * option ElfDynamicEntry * option ElfDynamicEntry) : Prop :=
  (forall e, sel_entry s.1.1 = Some e -> e ∈ em_dynamic_entries m) /\
  (forall e, s.1.2 = Some e -> e ∈ em_dynamic_entries m) /\
  (is_Some (sel_entry s.1.1) -> is_Some s.1.2).

Lemma select_rela_runs m a b c a' b' c' :
  runs (select_rela m a b c a' b' c') (selection_ok m).
Proof.
  unfold select_rela. destruct (HasDynamicEntry m _).
  - destruct (_ || _) eqn:E; [done|]. apply orb_false_iff in E as [_ [e2 E2]%isNone_false]. rewrite E2.
    unfold selection_ok, SelectSceDynamicEntry. cbn.
    destruct (FindDynamicEntry m a) as [e|] eqn:E1; cbn; split_and!.
    + intros ? [= <-]. by eapply FindDynamicEntry_elem.
    + intros ? [= <-]. by eapply FindDynamicEntry_elem.
    + by intros.
    + done.
    + intros ? [= <-]. by eapply FindDynamicEntry_elem.
    + by intros.
  - cbv zeta. cbn [sel_entry]. destruct (_ && _) eqn:E; [done|]. cbn. split_and!; cbn.
    + intros e He. by eapply FindDynamicEntry_elem.
    + intros e He. by eapply FindDynamicEntry_elem.
    + intros [e He]. rewrite He in E. destruct (FindDynamicEntry m b'); [done|].
      by destruct (FindDynamicEntry m c').
Qed.

Lemma parse_selected_runs m s expected wrong :
  Forall (header_ok image) (em_program_headers m) -> Forall entry_words (em_dynamic_entries m) ->
  selection_ok m s ->
  runs (parse_selected image m s expected wrong []) (rela_parsed m s).
Proof using Hok.
  destruct s as [[table count] third]. intros Hh He (Hs1 & Hs2 & Hs3). cbn in Hs1, Hs2, Hs3.
  unfold parse_selected, rela_parsed. destruct (sel_entry table) as [e0|] eqn:Et; [|done].
  parse_step. destruct Hs3 as [e Ee]; [done|]. rewrite Ee. cbn [access]. rewrite returns_bind.
  rewrite Forall_forall in He. destruct (He e (Hs2 e Ee)) as [_ Hv]. rewrite <- Forall_forall in He.
  unfold ParseRelaTable. parse_step. apply runs_require. intros offset Eo.
  pose proof Eo as Hr. apply (ResolveDynamicFileOffset_within image Hok) in Hr as [Ho1 Ho2];
    [|done|done|by rewrite Et|done].
  assert (Hsz : dyn_value e mod kRelaEntrySize = 0) by lia.
  assert (Z.of_nat (Z.to_nat (dyn_value e / kRelaEntrySize)) * kRelaEntrySize = dyn_value e) as Hn.
  { unfold kRelaEntrySize in *. pose proof (Z.div_mod (dyn_value e) 24).
    rewrite Z2Nat.id by (apply Z.div_pos; u64_lia). lia. }
  eapply runs_mono; [apply read_rela_runs; [done|done|lia]|].
  intros l [-> Hf]. exists e, offset. by split_and!.
Qed.

Definition select_relocations (m : ElfMetadata) :=
  select_rela m kDynamicTagSceRela kDynamicTagSceRelaSize kDynamicTagSceRelaEntrySize kDynamicTagRela kDynamicTagRelaSize kDynamicTagRelaEntrySize.
Definition select_plt (m : ElfMetadata) :=
  select_rela m kDynamicTagSceJumpRelocation kDynamicTagScePltRelocationSize kDynamicTagScePltRelocationFormat
    kDynamicTagJumpRelocation kDynamicTagPltRelocationSize kDynamicTagPltRelocationFormat.

Lemma ParseDynamicRelocations_runs m :
  Forall (header_ok image) (em_program_headers m) -> Forall entry_words (em_dynamic_entries m) ->
  di_relocations (em_dynamic_info m) = [] -> di_plt_relocations (em_dynamic_info m) = [] ->
  runs (ParseDynamicRelocations image m) (fun m' => exists relocations plt s1 s2,
    m' = set_dynamic_info (set_tables relocations plt (di_symbols (em_dynamic_info m)) (em_dynamic_info m)) m /\
    select_relocations m = returns s1 /\ rela_parsed m s1 relocations /\
    select_plt m = returns s2 /\ rela_parsed m s2 plt).
Proof using Hok.
  intros Hh He Hr Hp. unfold ParseDynamicRelocations. rewrite Hr, Hp.
  fold (select_relocations m). fold (select_plt m).
  pose proof (select_rela_runs m kDynamicTagSceRela kDynamicTagSceRelaSize kDynamicTagSceRelaEntrySize kDynamicTagRela kDynamicTagRelaSize
    kDynamicTagRelaEntrySize) as H1. fold (select_relocations m) in H1.
  pose proof (select_rela_runs m kDynamicTagSceJumpRelocation kDynamicTagScePltRelocationSize kDynamicTagScePltRelocationFormat
    kDynamicTagJumpRelocation kDynamicTagPltRelocationSize kDynamicTagPltRelocationFormat) as H2. fold (select_plt m) in H2.
  destruct (select_relocations m) as [| |s1]; [done|done|]. rewrite returns_bind.
  eapply runs_bind; [by apply parse_selected_runs|]. intros relocations Hrel.
  destruct (select_plt m) as [| |s2]; [done|done|]. rewrite returns_bind.
  eapply runs_bind; [by apply parse_selected_runs|]. intros plt Hplt. cbn. eauto 10.
Qed.

Lemma rela_parsed_words m s l :
  rela_parsed m s l -> Forall rela_words l /\ Forall (target_mapped (em_program_headers m)) l.
Proof using Hok.
  destruct s as [[table count] third]. unfold rela_parsed.
  destruct (sel_entry table) as [e0|]; [|intros ->; split; constructor].
  intros (e & offset & _ & _ & _ & _ & _ & -> & Hf). split; [apply rela_table_words|done].
Qed.

(** ** Symbols *)

Record symbol_words (s : ElfSymbol) : Prop := {
  sy_name : is_u32 (sym_name_offset s);
  sy_info : is_byte (sym_info s);
  sy_other : is_byte (sym_other s);
  sy_section : is_u16 (sym_section_index s);
  sy_value : is_u64 (sym_value s);
  sy_size : is_u64 (sym_size s)
}.

(** The symbol the image holds at a place, with its name. *)
Definition symbol_at (offset : Z) (name : string) : ElfSymbol :=
  mkElfSymbol (le_field image offset 4) (le_field image (offset + 4) 1) (le_field image (offset + 5) 1)
    (le_field image (offset + 6) 2) (le_field image (offset + 8) 8) (le_field image (offset + 16) 8) name.

Definition symbol_place (offset : Z) (i : nat) : Z := offset + Z.of_nat i * kSymbolEntrySize.

(** The symbols from a place on: every record with the string its name offset
    names. *)
Definition symbol_table (strings : list Z) (offset : Z) (l : list ElfSymbol) : Prop :=
  forall i s, l !! i = Some s ->
    s = symbol_at (symbol_place offset i) (sym_name s) /\ string_at strings (sym_name_offset s) (sym_name s).

Lemma symbol_at_words offset name : symbol_words (symbol_at offset name).
Proof using Hok.
  constructor; cbn.
  - apply (le_field_bound image Hok offset 4).
  - apply (le_field_bound image Hok (offset + 4) 1).
  - apply (le_field_bound image Hok (offset + 5) 1).
  - apply (le_field_bound image Hok (offset + 6) 2).
  - apply (is_u64_field image Hok); lia.
  - apply (is_u64_field image Hok); lia.
Qed.

Lemma symbol_table_words strings offset l : symbol_table strings offset l -> Forall symbol_words l.
Proof using Hok.
  intros Ht. apply Forall_lookup. intros i s Hs. destruct (Ht i s Hs) as [-> _]. apply symbol_at_words.
Qed.

Lemma symbol_table_cons strings offset s l :
  s = symbol_at offset (sym_name s) -> string_at strings (sym_name_offset s) (sym_name s) ->
  symbol_table strings (offset + kSymbolEntrySize) l -> symbol_table strings offset (s :: l).
Proof.
  intros Hs Hn Ht [|i] x; cbn.
  - intros [= <-]. unfold symbol_place. by rewrite Z.add_0_r.
  - intros Hx. destruct (Ht i x Hx) as [Hx1 Hx2]. split; [|done]. rewrite Hx1 at 1. f_equal.
    unfold symbol_place. lia.
Qed.

Lemma read_symbols_runs strings n : forall offset budget symbols,
  is_u64 budget -> 0 <= offset -> offset + Z.of_nat n * kSymbolEntrySize <= size ->
  runs (read_symbols image strings n offset budget symbols) (fun '(l, b') => exists l',
    l = symbols ++ l' /\ length l' = n /\ symbol_table strings offset l' /\
    b' = budget - names_cost (map sym_name l') /\ is_u64 b').
Proof using Hok.
  pose proof (size_nonneg image Hok). unfold kSymbolEntrySize.
  induction n as [|n IH]; intros offset budget symbols Hb Ho Hs; cbn [read_symbols].
  { exists []. rewrite app_nil_r. split_and!; [done|done|intros i s; by destruct i|unfold names_cost; cbn; lia|done]. }
  rewrite !(add64_small offset 4), !(add64_small offset 5), !(add64_small offset 6), !(add64_small offset 8),
    !(add64_small offset 16) by u64_lia.
  do 6 read_step Hok. parse_step.
  pose proof (le_field_bound image Hok offset 4) as Hname.
  eapply runs_bind; [apply string_read_runs; [done|lia]|]. intros [name b1] (Hn & Hc & ->).
  assert (Hb1 : is_u64 (budget - string_cost name)) by (unfold string_cost, string_size in *; u64_lia).
  fold (symbol_at offset name). unfold kSymbolEntrySize.
  assert (Hcons : forall l' b', symbol_table strings (offset + 24) l' -> length l' = n ->
    b' = budget - string_cost name - names_cost (map sym_name l') -> is_u64 b' ->
    exists l, (symbols ++ [symbol_at offset name]) ++ l' = symbols ++ l /\ length l = S n /\
      symbol_table strings offset l /\ b' = budget - names_cost (map sym_name l) /\ is_u64 b').
  { intros l' b' Ht Hl -> Hb'. exists (symbol_at offset name :: l'). rewrite <- app_assoc.
    split_and!; [done|by cbn; rewrite Hl| |cbn [map]; rewrite names_cost_cons; cbn; lia|done].
    by apply symbol_table_cons. }
  destruct n as [|n].
  - cbn [read_symbols runs]. destruct (Hcons [] (budget - string_cost name)) as (l & E & Hl).
    { intros i s. by destruct i. } { done. } { unfold names_cost. cbn. lia. } { done. }
    exists l. by rewrite <- E, app_nil_r.
  - rewrite add64_small by u64_lia. eapply runs_mono; [apply IH; [done|lia|lia]|].
    intros [l b'] (l' & -> & Hl & Ht & Hb' & Hb2). by apply Hcons.
Qed.

(** Where the symbol table is and how many symbols it has: the SCE tags, the
    declared bytes or those up to the largest symbol a relocation names;
    otherwise the symbol table of the hash table, with a symbol per chain. *)
Inductive symbols_placed (m : ElfMetadata) (offset : Z) (n : nat) : Prop :=
| sce_placed bytes :
    sce_symbol_bytes m = Some bytes -> bytes = Z.of_nat n * kSymbolEntrySize ->
    ResolveDynamicFileOffset m (SelectDynamicEntry m kDynamicTagSymbolTable kDynamicTagSceSymbolTable) bytes = Some offset ->
    symbols_placed m offset n
| hash_placed hash table at_hash :
    FindDynamicEntry m kDynamicTagHash = Some hash -> FindDynamicEntry m kDynamicTagSymbolTable = Some table ->
    ResolveFileOffset m (dyn_value hash) 8 = Some at_hash ->
    Z.of_nat n = le_field image (at_hash + 4) 4 ->
    ResolveFileOffset m (dyn_value table) (Z.of_nat n * kSymbolEntrySize) = Some offset ->
    symbols_placed m offset n.

Definition symbols_parsed (m : ElfMetadata) (l : list ElfSymbol) : Prop :=
  l = [] \/ exists strings offset, table_of (em_dynamic_info m) strings /\
    symbols_placed m offset (length l) /\ 0 <= offset /\ offset + Z.of_nat (length l) * kSymbolEntrySize <= size /\
    symbol_table strings offset l.

Definition set_symbols (l : list ElfSymbol) (m : ElfMetadata) : ElfMetadata :=
  let d := em_dynamic_info m in
  set_dynamic_info (set_tables (di_relocations d) (di_plt_relocations d) l d) m.

Lemma ParseSymbolRecords_runs m offset n budget :
  table_ok (em_dynamic_info m) -> di_symbols (em_dynamic_info m) = [] -> is_u64 budget ->
  0 <= n -> 0 <= offset -> offset + n * kSymbolEntrySize <= size ->
  symbols_placed m offset (Z.to_nat n) ->
  runs (ParseSymbolRecords image m offset n budget) (fun '(m', b') => exists l,
    m' = set_symbols l m /\ symbols_parsed m l /\ b' = budget - names_cost (map sym_name l) /\ is_u64 b').
Proof using Hok.
  intros Ht Hs Hb Hn Ho Hos Hp. unfold ParseSymbolRecords. cbv zeta.
  destruct Ht as [(_ & -> & _)|(_ & table & Ht)]; [done|].
  pose proof Ht as (o & s & -> & -> & Ho1 & Hs1 & Hos1 & Etab). cbn [require]. rewrite !returns_bind. parse_step.
  rewrite subspan_runs by lia. rewrite returns_bind, <- Etab, Hs.
  eapply runs_bind; [apply read_symbols_runs; [done|done|rewrite Z2Nat.id by done; done]|].
  intros [l b'] (l' & -> & Hl & Htab & -> & Hb'). cbn [app runs]. exists l'. split_and!; [done| |done|done].
  right. exists table, offset. rewrite Hl, Z2Nat.id by done. by split_and!.
Qed.

Lemma rela_symbol_bound r : is_u64 (rela_info r) -> 0 <= rela_symbol r < 2 ^ 32.
Proof.
  intros Hi. unfold rela_symbol. rewrite Z.shiftr_div_pow2 by done.
  split; [apply Z.div_pos; u64_lia|]. apply Z.div_lt_upper_bound; u64_lia.
Qed.

Lemma maximum_symbol_bound l : forall start,
  Forall rela_words l -> 0 <= start < 2 ^ 32 -> 0 <= maximum_symbol l start < 2 ^ 32.
Proof.
  unfold maximum_symbol. induction l as [|r l IH]; intros start Hl Hs; cbn [foldl]; [done|].
  apply Forall_cons in Hl as [Hr Hl]. apply IH; [done|]. pose proof (rela_symbol_bound r (rl_info _ Hr)). lia.
Qed.

Lemma sce_symbol_bytes_u64 m bytes :
  Forall entry_words (em_dynamic_entries m) ->
  Forall rela_words (di_relocations (em_dynamic_info m)) ->
  Forall rela_words (di_plt_relocations (em_dynamic_info m)) ->
  sce_symbol_bytes m = Some bytes -> is_u64 bytes.
Proof.
  intros He Hr Hp. unfold sce_symbol_bytes. destruct (FindDynamicEntry _ _) as [e|] eqn:E.
  - intros [= <-]. apply FindDynamicEntry_elem in E as [Hin _]. rewrite Forall_forall in He.
    by destruct (He e Hin).
  - cbv zeta. destruct (_ =? _); [done|]. intros [= <-]. unfold mul64, is_u64.
    pose proof (Z.mod_pos_bound ((maximum_symbol (di_plt_relocations (em_dynamic_info m))
      (maximum_symbol (di_relocations (em_dynamic_info m)) 0) + 1) * kSymbolEntrySize) u64_modulus).
    u64_lia.
Qed.

Record symbols_input (m : ElfMetadata) : Prop := {
  si_headers : Forall (header_ok image) (em_program_headers m);
  si_entries : Forall entry_words (em_dynamic_entries m);
  si_table : table_ok (em_dynamic_info m);
  si_relocations : Forall rela_words (di_relocations (em_dynamic_info m));
  si_plt : Forall rela_words (di_plt_relocations (em_dynamic_info m));
  si_symbols : di_symbols (em_dynamic_info m) = []
}.

Definition symbols_done (m : ElfMetadata) (budget : Z) : ElfMetadata * Z -> Prop := fun '(m', b') =>
  exists l, m' = set_symbols l m /\ symbols_parsed m l /\ b' = budget - names_cost (map sym_name l) /\ is_u64 b'.

Lemma symbols_done_none m budget : symbols_input m -> is_u64 budget -> symbols_done m budget (m, budget).
Proof.
  intros Hi Hb. exists []. split_and!; [|by left|unfold names_cost; cbn; lia|done].
  pose proof (si_symbols _ Hi) as Hs. unfold set_symbols. rewrite <- Hs.
  destruct m as [? ? ? ? ? ? ? ? ? ? ? d]. by destruct d.
Qed.

Lemma parse_sce_symbols_runs m budget :
  symbols_input m -> is_u64 budget -> runs (parse_sce_symbols image m budget) (symbols_done m budget).
Proof using Hok.
  intros Hi Hb. unfold parse_sce_symbols. cbv zeta. do 2 parse_step.
  destruct (sce_symbol_bytes m) as [bytes|] eqn:Eb; [|by apply symbols_done_none].
  destruct Hi. assert (Hu : is_u64 bytes) by (by eapply sce_symbol_bytes_u64).
  parse_step. apply runs_require. intros offset Eo. pose proof Eo as Hr.
  apply (ResolveDynamicFileOffset_within image Hok) in Hr as [Ho1 Ho2]; [|done|done| |done].
  2: { intros e He. by eapply SelectDynamicEntry_elem. }
  unfold kSymbolEntrySize in *. pose proof (Z.div_mod bytes 24).
  assert (0 <= bytes / 24) by (apply Z.div_pos; u64_lia).
  apply ParseSymbolRecords_runs; unfold kSymbolEntrySize; try done; [lia|].
  eapply sce_placed; [done| |done]. rewrite Z2Nat.id by done. unfold kSymbolEntrySize. lia.
Qed.

Lemma parse_hashed_symbols_runs m hash budget :
  symbols_input m -> is_u64 budget -> FindDynamicEntry m kDynamicTagHash = Some hash ->
  runs (parse_hashed_symbols image m hash budget) (symbols_done m budget).
Proof using Hok.
  intros [Hh He Ht _ _ Hs] Hb Eh. unfold parse_hashed_symbols. cbv zeta.
  assert (Hword : forall tag e, FindDynamicEntry m tag = Some e -> is_u64 (dyn_value e)).
  { intros tag e Ee. apply FindDynamicEntry_elem in Ee as [Hin _]. rewrite Forall_forall in He.
    by destruct (He e Hin). }
  apply runs_require. intros table Et. apply runs_require. intros esize Ee. do 2 parse_step.
  apply runs_require. intros at_hash Ea. pose proof Ea as Hr. pose proof (size_nonneg image Hok).
  apply (ResolveFileOffset_spec image Hok) in Hr; [|done|by eapply Hword|u64_lia].
  apply (resolved_within image Hok) in Hr as [Hr1 Hr2]; [|done].
  rewrite !(add64_small at_hash 4) by u64_lia. do 2 read_step Hok. parse_step.
  pose proof (le_field_bound image Hok (at_hash + 4) 4) as Hc. change (256 ^ Z.of_nat 4) with (2 ^ 32) in Hc.
  set (count := le_field image (at_hash + 4) 4) in *. unfold kSymbolEntrySize.
  rewrite (mul64_small count) by u64_lia. apply runs_require. intros offset Eo. pose proof Eo as Hr.
  apply (ResolveFileOffset_spec image Hok) in Hr; [|done|by eapply Hword|u64_lia].
  apply (resolved_within image Hok) in Hr as [Ho1 Ho2]; [|done].
  apply ParseSymbolRecords_runs; unfold kSymbolEntrySize; try done; [lia|].
  eapply hash_placed; [done|done|done|rewrite Z2Nat.id by lia; done|]. by rewrite Z2Nat.id by lia.
Qed.

Lemma ParseDynamicSymbols_runs m budget :
  symbols_input m -> is_u64 budget -> runs (ParseDynamicSymbols image m budget) (symbols_done m budget).
Proof using Hok.
  intros Hi Hb. unfold ParseDynamicSymbols. destruct (HasDynamicEntry _ _); [by apply parse_sce_symbols_runs|].
  destruct (FindDynamicEntry m kDynamicTagHash) as [hash|] eqn:E; [|by apply symbols_done_none].
  by apply parse_hashed_symbols_runs.
Qed.
End phases.
