(* ===== verification/ElfParserProps.v ===== *)
(** Parsing an executable never faults, and the metadata it returns is well
    formed: the header of the file, the program headers where the container
    puts them, and the dynamic tables the image holds. *)
From S2P Require Import Prelude Elf LittleEndian ElfReader ElfReaderProps.
From S2P Require Import ElfParser.

(** ** Program headers *)

Section headers.
Context (image : list Z) (Hok : image_ok image).
Local Abbreviation size := (image_size image).

(** The header the image holds at a place. *)
Definition header_at (o : Z) : ElfProgramHeader :=
  mkProgramHeader (le_field image o 4) (le_field image (o + 4) 4) (le_field image (o + 8) 8)
    (le_field image (o + 8) 8) (le_field image (o + 16) 8) (le_field image (o + 24) 8)
    (le_field image (o + 32) 8) (le_field image (o + 40) 8) (le_field image (o + 48) 8).

Lemma header_at_words o : header_words (header_at o).
Proof using Hok.
  constructor; cbn; try (apply (is_u64_field image Hok); lia).
  - apply (le_field_bound image Hok o 4).
  - apply (le_field_bound image Hok (o + 4) 4).
Qed.

Lemma read_header_eq o :
  0 <= o -> o + kProgramHeaderSize <= size -> read_header image o = returns (header_at o).
Proof using Hok.
  intros Ho Hs. pose proof (size_nonneg image Hok). unfold kProgramHeaderSize in Hs.
  unfold read_header. rewrite !(add64_small o) by u64_lia.
  rewrite !(Read32_eq image Hok), !(Read64_eq image Hok) by lia. done.
Qed.

(** What is checked of a load segment before its place is known. *)
Definition load_checked (h : ElfProgramHeader) : Prop :=
  is_load h = true ->
  ph_file_size h <= ph_memory_size h /\ ph_virtual_address h + ph_memory_size h <= u64_max /\
  (ph_alignment h <= 1 \/ exists k, 0 <= k /\ ph_alignment h = 2 ^ k /\
     ph_virtual_address h mod ph_alignment h = ph_offset h mod ph_alignment h).

Lemma check_load_runs h : header_words h -> runs (check_load h) (fun _ => load_checked h).
Proof.
  intros Hw. unfold check_load, load_checked. destruct (is_load h); cbn [negb]; [|done].
  parse_step. parse_step. unfold ensure. destruct (_ && _) eqn:E; cbn; [done|]. intros _.
  split_and!; [lia|lia|]. destruct (Z.leb_spec (ph_alignment h) 1); [by left|right].
  apply andb_false_iff in E as [E|E]; [lia|]. apply orb_false_iff in E as [E1 E2].
  apply negb_false_iff in E1, E2. apply is_power_of_two_spec in E1 as (k & Hk & Ek); [|apply hw_alignment, Hw].
  exists k. split_and!; [done|done|]. by apply Z.eqb_eq.
Qed.

Definition header_table (offset : Z) (n : nat) : list ElfProgramHeader :=
  map (fun i => header_at (offset + Z.of_nat i * kProgramHeaderSize)) (seq 0 n).

Lemma header_table_S offset n :
  header_table offset (S n) = header_at offset :: header_table (offset + kProgramHeaderSize) n.
Proof.
  unfold header_table. cbn [seq map]. f_equal; [by rewrite Z.add_0_r|].
  rewrite <- seq_shift, map_map. apply map_ext. intros i. f_equal. lia.
Qed.

Lemma header_table_words offset n : Forall header_words (header_table offset n).
Proof using Hok. unfold header_table. apply Forall_map, Forall_forall. intros i _. apply header_at_words. Qed.

Lemma read_headers_runs n : forall offset headers,
  0 <= offset -> offset + Z.of_nat n * kProgramHeaderSize <= size ->
  runs (read_headers image n offset headers) (fun l =>
    l = headers ++ header_table offset n /\ Forall load_checked (header_table offset n)).
Proof using Hok.
  pose proof (size_nonneg image Hok). unfold kProgramHeaderSize.
  induction n as [|n IH]; intros offset headers Ho Hs; cbn [read_headers].
  { split; [by rewrite app_nil_r|constructor]. }
  rewrite read_header_eq by (unfold kProgramHeaderSize; lia). rewrite returns_bind.
  eapply runs_bind; [apply check_load_runs, header_at_words|]. intros ? Hc.
  rewrite header_table_S. unfold kProgramHeaderSize. destruct n as [|n].
  - cbn. split; [done|]. by apply Forall_singleton.
  - rewrite add64_small by u64_lia. eapply runs_mono; [apply IH; lia|].
    intros l [-> Hf]. split; [by rewrite <- app_assoc|]. by constructor.
Qed.

(** ** The segments in the file *)

(** A header with its place: the file offset is the header's own, or in a SELF
    container the one the segments resolve. *)
Record header_placed (layout : ExecutableLayout) (headers : list ElfProgramHeader) (index : Z)
    (h h' : ElfProgramHeader) : Prop := {
  hp_same : h' = set_file_offset (ph_file_offset h') h;
  hp_place :
    if needs_file_data h && bool_decide (el_container layout = kSelf)
    then ResolveSelfFileOffset size layout headers h index = inr (ph_file_offset h')
    else ph_file_offset h' = ph_file_offset h;
  hp_within : is_load h = true -> ph_file_offset h' + ph_file_size h <= size
}.

Lemma place_header_runs layout headers index h :
  header_words h -> ph_file_offset h = ph_offset h -> layout_ok image layout ->
  runs (place_header size layout headers index h) (fun h' =>
    header_placed layout headers index h h' /\ header_words h').
Proof using Hok.
  intros Hw Ho Hl. pose proof (size_nonneg image Hok). unfold place_header.
  destruct (needs_file_data h && _) eqn:En.
  - destruct (ResolveSelfFileOffset _ _ _ _ _) as [e|offset] eqn:Er; [done|]. rewrite returns_bind.
    apply runs_ensure. intros Hc. pose proof Er as Hr. destruct Hw.
    apply (ResolveSelfFileOffset_within image Hok) in Hr as [Hr1 Hr2]; [|done..].
    split; constructor; cbn; try done; [by rewrite En|u64_lia].
  - rewrite returns_bind. apply runs_ensure. intros Hc. cbn. split; [|done].
    constructor; [by destruct h|by rewrite En|]. intros Hl1. rewrite Hl1 in Hc. cbn in Hc.
    apply negb_true_iff, negb_false_iff, RangeWithin_spec in Hc; [done|u64_lia|..]; destruct Hw; u64_lia.
Qed.

Lemma place_headers_runs layout headers rest : forall index,
  Forall header_words rest -> Forall (fun h => ph_file_offset h = ph_offset h) rest -> layout_ok image layout ->
  runs (place_headers size layout headers index rest) (fun l =>
    length l = length rest /\ Forall header_words l /\
    forall i h h', rest !! i = Some h -> l !! i = Some h' -> header_placed layout headers (index + Z.of_nat i) h h').
Proof using Hok.
  induction rest as [|h rest IH]; intros index Hw Ho Hl; cbn [place_headers]; [done|].
  apply Forall_cons in Hw as [Hw0 Hw]. apply Forall_cons in Ho as [Ho0 Ho].
  eapply runs_bind; [by apply place_header_runs|]. intros h' [Hp Hw'].
  eapply runs_bind; [by apply IH|]. intros l (Hlen & Hws & Hps). cbn. split_and!; [lia|by constructor|].
  intros [|i] a b; cbn.
  - intros [= <-] [= <-]. by rewrite Z.add_0_r.
  - intros Ha Hb. replace (index + _) with (index + 1 + Z.of_nat i) by lia. by apply Hps.
Qed.

(** ** Disjoint segments *)

Definition occupied (h : ElfProgramHeader) : bool := is_load h && negb (ph_memory_size h =? 0).

Definition segments_apart (a b : ElfProgramHeader) : Prop :=
  occupied a = true -> occupied b = true ->
  ph_virtual_address a + ph_memory_size a <= ph_virtual_address b \/
  ph_virtual_address b + ph_memory_size b <= ph_virtual_address a.

Definition apart (a b : Z * Z) : Prop := a.2 <= b.1 \/ b.2 <= a.1.

Lemma ForallOrdPairs_perm {A} (R : A -> A -> Prop) (l l' : list A) :
  (forall x y, R x y -> R y x) -> l ≡ₚ l' -> ForallOrdPairs R l -> ForallOrdPairs R l'.
Proof.
  intros Hsym Hp. induction Hp as [|x l l' Hp IH|x y l|l1 l2 l3 _ IH1 _ IH2]; intros Ho; [done| | |by auto].
  - inversion Ho as [|? ? Hx Ho']; subst. constructor; [|by apply IH]. by rewrite <- Hp.
  - inversion Ho as [|? ? Hx Ho']; subst. inversion Ho' as [|? ? Hy Ho'']; subst.
    apply Forall_cons in Hx as [Hxy Hx]. constructor; [constructor; [by apply Hsym|done]|].
    by constructor.
Qed.

Lemma sorted_apart (l : list (Z * Z)) :
  Forall (fun r => r.1 < r.2) l -> Sorted range_le l -> ranges_apart l = true -> ForallOrdPairs apart l.
Proof.
  intros Hn Hs. induction Hs as [|a l Hs IH Hd]; [constructor|]. apply Forall_cons in Hn as [Ha Hn].
  destruct l as [|b l]; [constructor; [done|constructor]|]. cbn [ranges_apart]. intros Hr.
  apply andb_true_iff in Hr as [Hab Hr]. specialize (IH Hn Hr). constructor; [|done].
  assert (Hab' : a.2 <= b.1) by lia. apply Forall_cons in Hn as [Hb Hn].
  constructor; [by left|]. inversion IH as [|? ? Hbl Hrest]; subst.
  (* every later range starts after b starts *)
  assert (Hle : Forall (fun c => b.1 <= c.1) l).
  { apply Sorted_StronglySorted in Hs; [|intros x y z; unfold range_le; lia].
    inversion Hs as [|? ? _ Hbs]; subst. eapply Forall_impl; [exact Hbs|]. unfold range_le. intros c. cbn. lia. }
  eapply Forall_impl; [exact Hle|]. intros c Hc. left. cbn in Hc. lia.
Qed.

#[local] Instance range_le_total : Total range_le.
Proof. intros x y. unfold range_le. lia. Qed.

Lemma filtered_pairs {A B} (R : B -> B -> Prop) (f : A -> B) (p : A -> bool) (l : list A) :
  ForallOrdPairs R (map f (List.filter p l)) ->
  ForallOrdPairs (fun a b => p a = true -> p b = true -> R (f a) (f b)) l.
Proof.
  induction l as [|a l IH]; intros Ho; [constructor|]. cbn in Ho.
  destruct (p a) eqn:E; cbn in Ho.
  - inversion Ho as [|? ? Ha Ho']; subst. constructor; [|by apply IH]. apply Forall_forall. intros b Hb _ Hp.
    rewrite Forall_map, Forall_forall in Ha. apply Ha. by apply list_elem_of_In, filter_In; split; [apply list_elem_of_In|].
  - constructor; [|by apply IH]. apply Forall_forall. intros b _ Hf. congruence.
Qed.

(** The ends of the occupied segments do not wrap. *)
Lemma occupied_ends headers :
  Forall header_words headers -> Forall load_checked headers ->
  Forall (fun h => occupied h = true ->
    (ph_virtual_address h + ph_memory_size h)%u64 = ph_virtual_address h + ph_memory_size h /\ 0 < ph_memory_size h) headers.
Proof.
  intros Hw Hc. apply Forall_forall. intros h Hin Ho. rewrite Forall_forall in Hw, Hc. destruct (Hw h Hin).
  apply andb_true_iff in Ho as [Ho1 Ho2]. destruct (Hc h Hin Ho1) as (_ & ? & _).
  rewrite add64_small by u64_lia. split; [done|u64_lia].
Qed.

Lemma load_ranges_nonempty headers :
  Forall header_words headers -> Forall load_checked headers -> Forall (fun r => r.1 < r.2) (load_ranges headers).
Proof.
  intros Hw Hc. pose proof (occupied_ends headers Hw Hc) as Hends. rewrite Forall_forall in Hends.
  unfold load_ranges. apply Forall_map, Forall_forall. intros h [Hin Ho]%list_elem_of_In%filter_In. cbn.
  destruct (Hends h) as [-> ?]; [by apply list_elem_of_In|done|lia].
Qed.

Lemma load_ranges_apart headers :
  Forall header_words headers -> Forall load_checked headers ->
  ranges_apart (merge_sort range_le (load_ranges headers)) = true ->
  ForallOrdPairs segments_apart headers.
Proof.
  intros Hw Hc Hr. pose proof (occupied_ends headers Hw Hc) as Hends.
  pose proof (merge_sort_Permutation range_le (load_ranges headers)) as Hp.
  assert (Ho : ForallOrdPairs apart (load_ranges headers)).
  { eapply ForallOrdPairs_perm; [unfold apart; tauto|exact Hp|].
    apply sorted_apart; [|apply Sorted_merge_sort; apply _|done]. rewrite Hp. by apply load_ranges_nonempty. }
  apply filtered_pairs in Ho. clear -Ho Hends.
  induction Ho as [|a l Ha Ho IH]; [constructor|]. apply Forall_cons in Hends as [Hea Hends].
  constructor; [|by apply IH]. rewrite Forall_forall in Ha |- *. intros b Hb Hoa Hob.
  specialize (Ha b Hb Hoa Hob). rewrite Forall_forall in Hends. unfold apart in Ha. cbn in Ha.
  destruct (Hea Hoa) as [Ea _]. destruct (Hends b Hb Hob) as [Eb _]. by rewrite Ea, Eb in Ha.
Qed.

(** ** The dynamic segment *)

Definition has_type (type : Z) (h : ElfProgramHeader) : bool := ph_type h =? type.

Lemma check_dynlibdata_runs headers : forall seen,
  Forall header_words headers ->
  runs (check_dynlibdata size seen headers) (fun _ =>
    (length (List.filter (has_type kProgramTypeSceDynlibData) headers) <= (if seen then 0 else 1))%nat /\
    Forall (fun h => ph_type h = kProgramTypeSceDynlibData -> ph_file_offset h + ph_file_size h <= size) headers).
Proof using Hok.
  pose proof (size_nonneg image Hok).
  induction headers as [|h headers IH]; intros seen Hw; cbn [check_dynlibdata]; [split; [cbn; lia|constructor]|].
  apply Forall_cons in Hw as [Hw0 Hw]. cbn [List.filter]. unfold has_type at 1.
  destruct (Z.eqb_spec (ph_type h) kProgramTypeSceDynlibData) as [Et|Et]; cbn [negb].
  - apply runs_ensure. intros Hs. destruct seen; [done|]. apply runs_ensure. intros Hr.
    apply RangeWithin_spec in Hr; [|destruct Hw0; u64_lia..].
    eapply runs_mono; [by apply IH|]. intros _ [Hl Hf]. cbn [length]. split; [lia|by constructor].
  - eapply runs_mono; [by apply IH|]. intros _ [Hl Hf]. split; [done|by constructor].
Qed.

Lemma find_dynamic_runs headers : forall found,
  runs (find_dynamic found headers) (fun r =>
    option_list found ++ List.filter (has_type kProgramTypeDynamic) headers = option_list r).
Proof.
  induction headers as [|h headers IH]; intros found; cbn [find_dynamic]; [by rewrite app_nil_r|].
  cbn [List.filter]. unfold has_type at 1. destruct (ph_type h =? kProgramTypeDynamic); cbn [negb].
  - apply runs_ensure. intros ->%isNone_true. apply (IH (Some h)).
  - apply IH.
Qed.

(** The entries before the terminator. *)
Definition dynamic_at (o : Z) : ElfDynamicEntry :=
  mkDynamicEntry (as_int64 (le_field image o 8)) (le_field image (o + 8) 8).
Definition dynamic_table (offset : Z) (n : nat) : list ElfDynamicEntry :=
  map (fun i => dynamic_at (offset + Z.of_nat i * kDynamicEntrySize)) (seq 0 n).

Lemma dynamic_table_S offset n :
  dynamic_table offset (S n) = dynamic_at offset :: dynamic_table (offset + kDynamicEntrySize) n.
Proof.
  unfold dynamic_table. cbn [seq map]. f_equal; [by rewrite Z.add_0_r|].
  rewrite <- seq_shift, map_map. apply map_ext. intros i. f_equal. lia.
Qed.

(** [k] entries are terminated within the [n] of the segment. *)
Definition terminated (offset : Z) (n k : nat) : Prop :=
  (k < n)%nat /\ Forall (fun e => dyn_tag e <> kDynamicTagNull) (dynamic_table offset k) /\
  dyn_tag (dynamic_at (offset + Z.of_nat k * kDynamicEntrySize)) = kDynamicTagNull.

Lemma read_dynamic_runs n : forall offset entries,
  0 <= offset -> offset + Z.of_nat n * kDynamicEntrySize <= size ->
  runs (read_dynamic image n offset entries) (fun l =>
    exists k, l = entries ++ dynamic_table offset k /\ terminated offset n k).
Proof using Hok.
  pose proof (size_nonneg image Hok). unfold terminated, kDynamicEntrySize.
  induction n as [|n IH]; intros offset entries Ho Hs; cbn [read_dynamic]; [done|].
  read_step Hok. destruct (Z.eqb_spec (as_int64 (le_field image offset 8)) kDynamicTagNull) as [E|E].
  { exists 0%nat. cbn. rewrite app_nil_r, Z.add_0_r. split_and!; [done|lia|constructor|done]. }
  rewrite (add64_small offset 8) by u64_lia. read_step Hok. fold (dynamic_at offset).
  unfold kDynamicEntrySize. destruct n as [|n]; [done|]. rewrite add64_small by u64_lia.
  eapply runs_mono; [apply IH; lia|]. intros l (k & -> & Hk & Hf & Hz).
  exists (S k). rewrite dynamic_table_S, <- app_assoc. unfold kDynamicEntrySize. split_and!; [done|lia|by constructor|].
  replace (offset + Z.of_nat (S k) * 16) with (offset + 16 + Z.of_nat k * 16) by lia. done.
Qed.

Lemma dynamic_table_words offset n : Forall entry_words (dynamic_table offset n).
Proof using Hok.
  unfold dynamic_table. apply Forall_map, Forall_forall. intros i _. split; cbn.
  - apply as_int64_bound, (is_u64_field image Hok). lia.
  - apply (is_u64_field image Hok). lia.
Qed.

Definition lifecycle_of (m : ElfMetadata) (tag : Z) : option Z := dyn_value <$> FindDynamicEntry m tag.

(** What the dynamic information of parsed metadata holds. *)
Record lifecycle_parsed (m : ElfMetadata) (d : ElfDynamicInfo) : Prop := {
  lp_init : di_init_function d = lifecycle_of m kDynamicTagInit;
  lp_fini : di_fini_function d = lifecycle_of m kDynamicTagFini;
  lp_preinit : di_preinit_array_address d = lifecycle_of m kDynamicTagPreinitArray;
  lp_preinit_size : di_preinit_array_size d = lifecycle_of m kDynamicTagPreinitArraySize;
  lp_init_array : di_init_array_address d = lifecycle_of m kDynamicTagInitArray;
  lp_init_array_size : di_init_array_size d = lifecycle_of m kDynamicTagInitArraySize;
  lp_fini_array : di_fini_array_address d = lifecycle_of m kDynamicTagFiniArray;
  lp_fini_array_size : di_fini_array_size d = lifecycle_of m kDynamicTagFiniArraySize
}.

Definition all_names (d : ElfDynamicInfo) : list string :=
  di_needed_libraries d ++ option_list (di_shared_object_name d)
  ++ identity_names (di_import_modules d) (di_export_modules d) (di_import_libraries d) (di_export_libraries d)
  ++ map sym_name (di_symbols d).

Record dynamic_parsed (m : ElfMetadata) : Prop := {
  dp_lifecycle : lifecycle_parsed m (em_dynamic_info m);
  dp_table : table_ok image (em_dynamic_info m);
  dp_needed : Forall2 (fun e v => named image (em_dynamic_info m) (dyn_value e) v)
    (List.filter is_needed (em_dynamic_entries m)) (di_needed_libraries (em_dynamic_info m));
  dp_name : match FindDynamicEntry m kDynamicTagSharedObjectName with
    | Some e => exists v, di_shared_object_name (em_dynamic_info m) = Some v /\
                  named image (em_dynamic_info m) (dyn_value e) v
    | None => di_shared_object_name (em_dynamic_info m) = None
    end;
  dp_identities : let d := em_dynamic_info m in
    identities_parsed image (em_dynamic_entries m) d (di_import_modules d) (di_export_modules d)
      (di_import_libraries d) (di_export_libraries d);
  dp_relocations : exists s, select_relocations m = returns s /\
    rela_parsed image m s (di_relocations (em_dynamic_info m));
  dp_plt : exists s, select_plt m = returns s /\ rela_parsed image m s (di_plt_relocations (em_dynamic_info m));
  dp_symbols : symbols_parsed image m (di_symbols (em_dynamic_info m));
  dp_budget : names_cost (all_names (em_dynamic_info m)) <= CalculateDecodedStringBudget size
}.

Lemma budget_u64 : is_u64 (CalculateDecodedStringBudget size).
Proof using. unfold CalculateDecodedStringBudget, kMaximumDecodedStringBudget, kMinimumDecodedStringBudget. u64_lia. Qed.

(** The names of the strings phase. *)
Lemma strings_parsed_names m d :
  di_needed_libraries (em_dynamic_info m) = [] -> di_shared_object_name (em_dynamic_info m) = None ->
  strings_parsed image m d ->
  Forall2 (fun e v => named image d (dyn_value e) v)
    (List.filter is_needed (em_dynamic_entries m)) (di_needed_libraries d) /\
  match FindDynamicEntry m kDynamicTagSharedObjectName with
  | Some e => exists v, di_shared_object_name d = Some v /\ named image d (dyn_value e) v
  | None => di_shared_object_name d = None
  end.
Proof.
  intros Hn Hs [Hf Hname _|source o s table needed name Hsrc Ht Hf Hname].
  - rewrite Hf, Hn, Hname, Hs. split; [constructor|done].
  - cbn. split.
    + eapply Forall2_impl; [exact Hf|]. intros e v Hv. by exists table.
    + destruct (FindDynamicEntry _ _) as [e|]; [|done]. destruct Hname as (v & -> & Hv). exists v.
      split; [done|]. by exists table.
Qed.

(** Dynamic information no table was read into. *)
Record tables_empty (d : ElfDynamicInfo) : Prop := {
  te_import_modules : di_import_modules d = [];
  te_export_modules : di_export_modules d = [];
  te_import_libraries : di_import_libraries d = [];
  te_export_libraries : di_export_libraries d = [];
  te_relocations : di_relocations d = [];
  te_plt : di_plt_relocations d = [];
  te_symbols : di_symbols d = []
}.
Record names_empty (d : ElfDynamicInfo) : Prop := {
  ne_needed : di_needed_libraries d = [];
  ne_name : di_shared_object_name d = None;
  ne_table : no_table d
}.

Lemma lifecycle_phase es m :
  em_dynamic_info m = ElfDynamicInfo_default ->
  let m1 := ParseDynamicLifecycleMetadata (set_dynamic_entries es m) in
  m1 = set_dynamic_info (em_dynamic_info m1) (set_dynamic_entries es m) /\
  lifecycle_parsed m1 (em_dynamic_info m1) /\ names_empty (em_dynamic_info m1) /\ tables_empty (em_dynamic_info m1).
Proof.
  intros Hd m1. split; [done|].
  assert (Hst : forall tag, match FindDynamicEntry (set_dynamic_entries es m) tag with
    | Some e => Some (dyn_value e) | None => None end = lifecycle_of m1 tag).
  { intros tag. unfold lifecycle_of. change (FindDynamicEntry m1 tag) with (FindDynamicEntry (set_dynamic_entries es m) tag).
    by destruct (FindDynamicEntry _ _). }
  split_and!; constructor; unfold m1, ParseDynamicLifecycleMetadata;
    cbn [em_dynamic_info set_dynamic_info set_dynamic_entries]; rewrite Hd; first [apply Hst|done].
Qed.

Lemma strings_phase_keeps m d :
  strings_parsed image m d -> tables_empty (em_dynamic_info m) -> lifecycle_parsed m (em_dynamic_info m) ->
  tables_empty d /\ lifecycle_parsed m d.
Proof. intros [] [] []; split; constructor; done. Qed.

(** The phases put together. *)
Lemma dynamic_assembled m d im xm il xl relocations plt symbols s1 s2 :
  let m2 := set_dynamic_info d m in
  let m3 := set_dynamic_info (add_identities im xm il xl d) m2 in
  let m4 := set_dynamic_info (set_tables relocations plt [] (em_dynamic_info m3)) m3 in
  lifecycle_parsed m d -> table_ok image d -> tables_empty d ->
  Forall2 (fun e v => named image d (dyn_value e) v)
    (List.filter is_needed (em_dynamic_entries m)) (di_needed_libraries d) ->
  match FindDynamicEntry m kDynamicTagSharedObjectName with
  | Some e => exists v, di_shared_object_name d = Some v /\ named image d (dyn_value e) v
  | None => di_shared_object_name d = None
  end ->
  identities_parsed image (em_dynamic_entries m) d im xm il xl ->
  select_relocations m3 = returns s1 -> rela_parsed image m3 s1 relocations ->
  select_plt m3 = returns s2 -> rela_parsed image m3 s2 plt ->
  symbols_parsed image m4 symbols ->
  names_cost (di_needed_libraries d ++ option_list (di_shared_object_name d))
    + names_cost (identity_names im xm il xl) + names_cost (map sym_name symbols)
    <= CalculateDecodedStringBudget size ->
  dynamic_parsed (set_symbols symbols m4).
Proof.
  intros m2 m3 m4 [] Ht [T1 T2 T3 T4 T5 T6 T7] Hn Hname [] Hs1 Hr1 Hs2 Hr2 Hsy Hb. constructor; cbn.
  - by constructor.
  - exact Ht.
  - exact Hn.
  - exact Hname.
  - rewrite T1, T2, T3, T4. by constructor.
  - exists s1. split; [exact Hs1|exact Hr1].
  - exists s2. split; [exact Hs2|exact Hr2].
  - destruct Hsy as [->|(strings & offset & H1 & H2 & H3 & H4 & H5)]; [by left|right].
    exists strings, offset. split_and!; [exact H1| |done|done|done].
    destruct H2 as [bytes B1 B2 B3|hash table at_hash B1 B2 B3 B4 B5];
      [by eapply sce_placed|by eapply hash_placed].
  - unfold all_names. cbn. rewrite T1, T2, T3, T4. unfold identity_names in *. cbn [app] in *. rewrite !names_cost_app in *. lia.
Qed.

Lemma parse_dynamic_runs header m :
  Forall (header_ok image) (em_program_headers m) -> header_words header ->
  em_dynamic_entries m = [] -> em_dynamic_info m = ElfDynamicInfo_default ->
  runs (parse_dynamic image header m) (fun m' => exists d k,
    m' = set_dynamic_info d (set_dynamic_entries (dynamic_table (ph_file_offset header) k) m) /\
    terminated (ph_file_offset header) (Z.to_nat (ph_file_size header / kDynamicEntrySize)) k /\
    ph_file_offset header + ph_file_size header <= size /\ dynamic_parsed m').
Proof using Hok.
  intros Hh Hw He Hd. pose proof (size_nonneg image Hok). unfold parse_dynamic. parse_step.
  apply runs_ensure. intros Hr. apply RangeWithin_spec in Hr; [|destruct Hw; u64_lia..].
  eapply runs_bind.
  { apply read_dynamic_runs; [destruct Hw; u64_lia|]. unfold kDynamicEntrySize in *.
    pose proof (Z.div_mod (ph_file_size header) 16). rewrite Z2Nat.id; [lia|]. apply Z.div_pos; destruct Hw; u64_lia. }
  rewrite He. intros entries (k & -> & Hterm). cbn [app]. cbv zeta.
  pose proof (dynamic_table_words (ph_file_offset header) k) as Hes.
  destruct (lifecycle_phase (dynamic_table (ph_file_offset header) k) m Hd) as (Em1 & Hlife & [D1 D2 D3] & Hempty).
  set (m1 := ParseDynamicLifecycleMetadata _) in *. clearbody m1.
  assert (Hh1 : Forall (header_ok image) (em_program_headers m1)) by (by rewrite Em1).
  assert (He1 : Forall entry_words (em_dynamic_entries m1)) by (by rewrite Em1).
  eapply runs_bind; [apply (ParseDynamicStrings_runs image Hok); [done|done|apply budget_u64|done|done]|].
  intros [m2 b2] (d2 & -> & Hs2 & Hb2 & Eb2). pose proof (strings_parsed_table _ _ _ D3 Hs2) as Htab.
  pose proof (strings_parsed_names _ _ D1 D2 Hs2) as [Hneed Hname].
  destruct (strings_phase_keeps _ _ Hs2 Hempty Hlife) as [Hempty2 Hlife2].
  eapply runs_bind; [by apply (parse_identities_runs image Hok)|].
  intros [m3 b3] (im & xm & il & xl & -> & Hid & -> & Hb3).
  eapply runs_bind; [apply (ParseDynamicRelocations_runs image Hok); [done|done|apply Hempty2|apply Hempty2]|].
  intros m4 (rel & plt & s1 & s2 & -> & Hs1 & Hr1 & Hsel2 & Hr2).
  eapply runs_bind; [apply (ParseDynamicSymbols_runs image Hok); [|done]|].
  { constructor; [done|done|exact Htab| | |apply Hempty2].
    - by apply (rela_parsed_words image Hok) in Hr1 as [? _].
    - by apply (rela_parsed_words image Hok) in Hr2 as [? _]. }
  intros [m5 b5] (syms & -> & Hsy & -> & Hb5). cbn [runs].
  eexists _, k. split; [rewrite Em1; unfold set_symbols; cbn; reflexivity|]. split; [done|]. split; [done|].
  cbn [em_dynamic_info set_dynamic_info di_symbols add_identities set_identities] in *.
  rewrite (te_symbols _ Hempty2) in *. eapply dynamic_assembled; try done. u64_lia.
Qed.

(** ** Parsed metadata *)

(** The program header table of a file whose ELF header is at [o]. *)
Definition table_offset (o : Z) : Z := o + le_field image (o + 32) 8.
Definition table_count (o : Z) : nat := Z.to_nat (le_field image (o + 56) 2).

Record elf_wf (m : ElfMetadata) : Prop := {
  wf_abi : IsSupportedAbi (em_os_abi m) (em_abi_version m) = true;
  wf_type : IsSupportedType (em_type m) = true;
  wf_machine : em_machine m = 62;
  wf_version : em_version m = 1;
  wf_elf : 0 <= em_elf_file_offset m /\ em_elf_file_offset m + kElfHeaderSize <= size;
  wf_magic : window image (em_elf_file_offset m) 4 = [0x7f; 0x45; 0x4c; 0x46];
  wf_entry : em_entry_point m = le_field image (em_elf_file_offset m + 24) 8;
  (** the headers are those of the file's table; only a SELF container moves
      their data *)
  wf_table : length (em_program_headers m) = table_count (em_elf_file_offset m) /\
    forall i h, em_program_headers m !! i = Some h ->
      h = set_file_offset (ph_file_offset h)
            (header_at (table_offset (em_elf_file_offset m) + Z.of_nat i * kProgramHeaderSize)) /\
      (em_container m = kElf -> ph_file_offset h = ph_offset h);
  wf_headers : Forall (header_ok image) (em_program_headers m);
  wf_apart : ForallOrdPairs segments_apart (em_program_headers m);
  wf_dynlib : (length (List.filter (has_type kProgramTypeSceDynlibData) (em_program_headers m)) <= 1)%nat;
  wf_dynamic :
    match List.filter (has_type kProgramTypeDynamic) (em_program_headers m) with
    | [] => em_dynamic_entries m = [] /\ em_dynamic_info m = ElfDynamicInfo_default
    | [h] => exists k, em_dynamic_entries m = dynamic_table (ph_file_offset h) k /\
        terminated (ph_file_offset h) (Z.to_nat (ph_file_size h / kDynamicEntrySize)) k /\
        ph_file_offset h + ph_file_size h <= size /\ dynamic_parsed m
    | _ => False
    end
}.

Lemma table_headers layout o n headers :
  Forall load_checked (header_table o n) -> layout_ok image layout ->
  length headers = length (header_table o n) -> Forall header_words headers ->
  (forall i h h', header_table o n !! i = Some h -> headers !! i = Some h' ->
     header_placed layout (header_table o n) (0 + Z.of_nat i) h h') ->
  forall i h', headers !! i = Some h' ->
    h' = set_file_offset (ph_file_offset h') (header_at (o + Z.of_nat i * kProgramHeaderSize)) /\
    (el_container layout = kElf -> ph_file_offset h' = ph_offset h') /\
    (is_load h' = true -> load_ok image h') /\ load_checked h'.
Proof.
  intros Hc Hl Hlen Hw Hp i h' Hi.
  destruct (lookup_lt_is_Some_2 (header_table o n) i) as [h Eh].
  { rewrite <- Hlen. by apply lookup_lt_Some in Hi. }
  specialize (Hp i h h' Eh Hi). pose proof (Forall_lookup_1 _ _ _ _ Hc Eh) as Hch.
  unfold header_table in Eh. rewrite list_lookup_fmap in Eh. apply fmap_Some in Eh as (j & Ej & ->).
  apply lookup_seq in Ej as [-> _]. destruct Hp as [H1 H2 H3]. rewrite H1 in *.
  split; [by rewrite H1 at 1|].
  split_and!.
  - cbn. intros Ec. rewrite H1. cbn. rewrite Ec in H2. rewrite andb_false_r in H2. exact H2.
  - intros Hld. rewrite H1. destruct (Hch Hld) as (C1 & C2 & C3). constructor; cbn; try done. by apply H3.
  - rewrite H1. exact Hch.
Qed.

(** The table of headers as the parser checked it. *)
Record headers_parsed (container : ElfContainerKind) (o : Z) (headers : list ElfProgramHeader) : Prop := {
  hd_table : length headers = table_count o /\
    forall i h, headers !! i = Some h ->
      h = set_file_offset (ph_file_offset h) (header_at (table_offset o + Z.of_nat i * kProgramHeaderSize)) /\
      (container = kElf -> ph_file_offset h = ph_offset h);
  hd_words : Forall header_words headers;
  hd_load : Forall (fun h => is_load h = true -> load_ok image h) headers;
  hd_apart : ForallOrdPairs segments_apart headers
}.

Lemma header_phase layout (f : list ElfProgramHeader -> parse ElfMetadata) Q :
  let o := el_elf_offset layout in
  layout_ok image layout -> table_offset o + Z.of_nat (table_count o) * kProgramHeaderSize <= size ->
  (forall headers, headers_parsed (el_container layout) o headers -> runs (f headers) Q) ->
  runs (read ← read_headers image (table_count o) (table_offset o) [];
        headers ← place_headers size layout read 0 read;
        ensure (ranges_apart (merge_sort range_le (load_ranges headers))) kOverlappingLoadSegments;;
        f headers) Q.
Proof using Hok.
  intros o Hl Ht Hf. pose proof (lo_elf _ _ Hl). pose proof (le_field_bound image Hok (o + 32) 8).
  eapply runs_bind; [apply read_headers_runs; [unfold table_offset, o in *; lia|done]|].
  intros read [-> Hc]. cbn [app].
  eapply runs_bind; [apply place_headers_runs; [apply header_table_words| |done]|].
  { unfold header_table. apply Forall_map, Forall_forall. done. }
  intros headers (Hlen & Hw & Hp). apply runs_ensure. intros Hr.
  pose proof (table_headers _ _ _ _ Hc Hl Hlen Hw Hp) as Hall. apply Hf. constructor.
  - split; [rewrite Hlen; unfold header_table; by rewrite length_map, length_seq|].
    intros i h Hi. destruct (Hall i h Hi) as (? & ? & _). done.
  - done.
  - apply Forall_lookup. intros i h Hi. by destruct (Hall i h Hi) as (_ & _ & ? & _).
  - apply load_ranges_apart; [done| |done]. apply Forall_lookup. intros i h Hi.
    by destruct (Hall i h Hi) as (_ & _ & _ & ?).
Qed.

Lemma ParseElf64WithLayout_runs layout :
  layout_ok image layout ->
  runs (ParseElf64WithLayout image layout) (fun m =>
    elf_wf m /\ em_container m = el_container layout /\ em_elf_file_offset m = el_elf_offset layout).
Proof using Hok.
  intros Hl. pose proof (size_nonneg image Hok). pose proof (lo_elf _ _ Hl) as Ho.
  unfold ParseElf64WithLayout. apply runs_ensure. intros Hr.
  apply RangeWithin_spec in Hr; [|unfold kElfHeaderSize; u64_lia..]. unfold kElfHeaderSize in *. cbv zeta.
  set (o := el_elf_offset layout) in *.
  eapply runs_bind; [apply (bytes_are_runs image Hok); cbn [length]; lia|]. intros magic Hmagic. apply runs_ensure.
  intros ->. specialize (Hmagic eq_refl). rewrite !(add64_small o) by u64_lia.
  do 3 (read_step Hok; apply runs_ensure; intros ?). do 10 read_step Hok.
  do 6 (apply runs_ensure; intros ?).
  pose proof (le_field_bound image Hok (o + 56) 2) as Hcount. change (256 ^ Z.of_nat 2) with 65536 in Hcount.
  assert (Hph : le_field image (o + 54) 2 = kProgramHeaderSize) by lia.
  rewrite Hph, (mul64_small _ kProgramHeaderSize) by (unfold kProgramHeaderSize; u64_lia). apply runs_require. intros table Et.
  rewrite AddWithoutOverflow_spec in Et; [|u64_lia|apply (is_u64_field image Hok); lia].
  destruct (_ <=? u64_max) in Et; [|done]. fold (table_offset o) in Et. injection Et as <-.
  pose proof (is_u64_field image Hok (o + 32) 8 ltac:(lia)).
  apply runs_ensure. intros Ht. apply RangeWithin_spec in Ht; [|unfold table_offset, kProgramHeaderSize; u64_lia..].
  fold (table_count o). apply header_phase; [done|fold o; unfold table_count; rewrite Z2Nat.id by lia; exact Ht|].
  intros headers [T1 T2 T3 T4].
  eapply runs_bind; [by apply check_dynlibdata_runs|]. intros _ [Hd1 Hd2].
  pose proof (find_dynamic_runs headers None) as Hf. cbn [option_list app] in Hf.
  destruct (find_dynamic None headers) as [| |found]; [done|done|]. rewrite returns_bind. cbn in Hf.
  assert (Hh : Forall (header_ok image) headers).
  { apply Forall_forall. intros h Hin. rewrite Forall_forall in T2, T3, Hd2. constructor; auto. }
  set (m := mkElfMetadata _ _ _ _ _ _ _ _ _ _ _ _).
  assert (Hm : forall d es, match found with
      | None => d = ElfDynamicInfo_default /\ es = []
      | Some h => exists k, es = dynamic_table (ph_file_offset h) k /\
        terminated (ph_file_offset h) (Z.to_nat (ph_file_size h / kDynamicEntrySize)) k /\
        ph_file_offset h + ph_file_size h <= size /\ dynamic_parsed (set_dynamic_info d (set_dynamic_entries es m))
      end -> elf_wf (set_dynamic_info d (set_dynamic_entries es m))).
  { intros d es Hdyn. constructor; cbn; try done; [lia|lia|unfold kElfHeaderSize; lia|]. rewrite Hf.
    destruct found as [h|]; cbn in *; [done|]. by destruct Hdyn as [-> ->]. }
  destruct found as [h|].
  - assert (Hin : h ∈ List.filter (has_type kProgramTypeDynamic) headers) by (rewrite Hf; by left).
    apply list_elem_of_In, filter_In in Hin as [Hin%list_elem_of_In _].
    eapply runs_mono; [apply parse_dynamic_runs; [done| |done|done]|].
    { rewrite Forall_forall in T2. by apply T2. }
    intros m' (d & k & -> & Hk & Hw & Hp). split; [|done]. apply Hm. by exists k.
  - cbn. split; [|done]. apply (Hm ElfDynamicInfo_default []). done.
Qed.
End headers.

Lemma ParseExecutable64_runs image :
  image_ok image -> runs (ParseExecutable64 image) (elf_wf image).
Proof.
  intros Hok. unfold ParseExecutable64. eapply runs_bind; [by apply ParseExecutableLayout_runs|].
  intros layout Hl. eapply runs_mono; [by apply ParseElf64WithLayout_runs|]. by intros m [? _].
Qed.

Lemma ParseElf64_runs image :
  image_ok image -> runs (ParseElf64 image) (fun m => elf_wf image m /\ em_container m = kElf /\ em_elf_file_offset m = 0).
Proof.
  intros Hok. apply (ParseElf64WithLayout_runs image Hok ExecutableLayout_default).
  constructor; cbn; [u64_lia|u64_lia|constructor|lia].
Qed.

(** C32: no image makes the parser read outside it.  Whatever the bytes, parsing
    as an executable (a SELF container or an ELF file) and parsing as an ELF
    file end with an error or with metadata: every header, dynamic entry,
    string, relocation and symbol that is read lies in the image, and so do the
    sub-ranges that are taken of it. *)
Theorem parse_never_faults image :
  image_ok image -> ParseExecutable64 image <> faults /\ ParseElf64 image <> faults.
Proof.
  intros Hok. pose proof (ParseExecutable64_runs image Hok). pose proof (ParseElf64_runs image Hok).
  split; intros E; by rewrite E in *.
Qed.

(** C33: the metadata of an accepted executable is well formed and is what the
    image holds.  The program headers are those of the file's table; load
    segments lie in the file, fit their memory size and the address space, are
    congruent to their file offset and do not overlap.  The dynamic entries are
    those up to the terminator; needed libraries, the object name, module and
    library identities, relocations and symbols are those the tags designate,
    with every string inside the string table, every relocation target inside a
    load segment, and all decoded strings together within the budget. *)
Theorem parsed_executable_well_formed image m :
  image_ok image -> ParseExecutable64 image = returns m -> elf_wf image m.
Proof. intros Hok. by apply runs_of_returns, ParseExecutable64_runs. Qed.
