(* ===== verification/ElfEncode.v ===== *)
(** Printing an ELF image and parsing it back: the parser accepts every
    executable without a dynamic section that is well formed, and returns the
    header and the program headers that were printed. *)
From S2P Require Import Prelude Elf LittleEndian ElfReader ElfReaderProps.
From S2P Require Import ElfParser ElfParserProps.

(** ** Printing *)

Record elf_file := mkElfFile {
  ef_os_abi : Z;
  ef_abi_version : Z;
  ef_type : Z;
  ef_entry_point : Z;
  ef_headers : list ElfProgramHeader;
  ef_body : list Z
}.

Definition encode_program_header (h : ElfProgramHeader) : list Z :=
  le_bytes 4 (ph_type h) ++ le_bytes 4 (ph_flags h) ++ le_bytes 8 (ph_offset h) ++
  le_bytes 8 (ph_virtual_address h) ++ le_bytes 8 (ph_physical_address h) ++ le_bytes 8 (ph_file_size h) ++
  le_bytes 8 (ph_memory_size h) ++ le_bytes 8 (ph_alignment h).

(** The 64 bytes of the file header; the program headers follow it, and there
    are no sections. *)
Definition encode_file_header (f : elf_file) : list Z :=
  [0x7f; 0x45; 0x4c; 0x46; 2; 1; 1; ef_os_abi f; ef_abi_version f] ++ replicate 7 0 ++
  le_bytes 2 (ef_type f) ++ le_bytes 2 62 ++ le_bytes 4 1 ++ le_bytes 8 (ef_entry_point f) ++
  le_bytes 8 64 ++ le_bytes 8 0 ++ le_bytes 4 0 ++ le_bytes 2 64 ++ le_bytes 2 56 ++
  le_bytes 2 (Z.of_nat (length (ef_headers f))) ++ le_bytes 6 0.

Definition encode (f : elf_file) : list Z :=
  encode_file_header f ++ concat (map encode_program_header (ef_headers f)) ++ ef_body f.

(** The metadata of a printed file. *)
Definition metadata_of (f : elf_file) : ElfMetadata :=
  mkElfMetadata kElf 0 0 (ef_os_abi f) (ef_abi_version f) (ef_type f) 62 1 (ef_entry_point f) (ef_headers f)
    [] ElfDynamicInfo_default.

Record printable (f : elf_file) : Prop := {
  pt_bytes : Forall is_byte (ef_body f);
  pt_size : image_size (encode f) <= u64_max;
  pt_abi : IsSupportedAbi (ef_os_abi f) (ef_abi_version f) = true;
  pt_type : IsSupportedType (ef_type f) = true;
  pt_entry : is_u64 (ef_entry_point f);
  pt_count : Z.of_nat (length (ef_headers f)) < 2 ^ 16;
  pt_words : Forall header_words (ef_headers f);
  pt_offsets : Forall (fun h => ph_file_offset h = ph_offset h) (ef_headers f);
  pt_checked : Forall load_checked (ef_headers f);
  pt_within : Forall (fun h => is_load h = true -> ph_offset h + ph_file_size h <= image_size (encode f)) (ef_headers f);
  pt_apart : ForallOrdPairs segments_apart (ef_headers f);
  pt_static : Forall (fun h => ph_type h <> kProgramTypeDynamic /\ ph_type h <> kProgramTypeSceDynlibData) (ef_headers f)
}.

(** ** Fields of a window *)

Lemma window_sub image o N i n :
  0 <= o -> 0 <= i -> (Z.to_nat i + n <= N)%nat ->
  window image (o + i) n = take n (drop (Z.to_nat i) (window image o N)).
Proof.
  intros Ho Hi Hn. unfold window. rewrite skipn_firstn_comm, take_take, drop_drop.
  rewrite Nat.min_l by lia. do 2 f_equal. lia.
Qed.

(** A printed field, read back. *)
Lemma field_printed image o N bytes i n v :
  0 <= o -> window image o N = bytes -> 0 <= i -> (Z.to_nat i + n <= N)%nat ->
  take n (drop (Z.to_nat i) bytes) = le_bytes n v -> 0 <= v < 256 ^ Z.of_nat n ->
  le_field image (o + i) n = v.
Proof.
  intros Ho Hw Hi Hn Hb Hv. unfold le_field. rewrite (window_sub _ _ N) by lia. rewrite Hw, Hb.
  by apply le_bytes_roundtrip.
Qed.

Lemma is_u64_pow v : is_u64 v -> 0 <= v < 256 ^ Z.of_nat 8.
Proof. intros Hv. change (256 ^ Z.of_nat 8) with 18446744073709551616. u64_lia. Qed.

Lemma encode_program_header_length h : length (encode_program_header h) = 56%nat.
Proof. unfold encode_program_header. by rewrite !length_app, !le_bytes_length. Qed.

Lemma header_printed image o h :
  0 <= o -> header_words h -> ph_file_offset h = ph_offset h ->
  window image o 56 = encode_program_header h -> header_at image o = h.
Proof.
  intros Ho Hw He Hwin.
  pose proof (fun i n v => field_printed image o 56 (encode_program_header h) i n v Ho Hwin) as Hf.
  destruct h as [t fl off fo va pa fs ms al]. destruct Hw. cbn in *. subst fo. unfold header_at.
  rewrite <- (Z.add_0_r o) at 1.
  f_equal; apply Hf; try done; try lia; by apply is_u64_pow.
Qed.

(** ** The printed image *)

Section printed.
Context (f : elf_file) (Hp : printable f).
Local Abbreviation image := (encode f).

Lemma abi_bytes : is_byte (ef_os_abi f) /\ is_byte (ef_abi_version f).
Proof using Hp.
  pose proof (pt_abi f Hp) as Ha. unfold IsSupportedAbi in Ha. unfold is_byte.
  destruct (Z.eqb_spec (ef_os_abi f) 0); [lia|]. destruct (Z.eqb_spec (ef_os_abi f) 9); [|done]. lia.
Qed.

Lemma printed_ok : image_ok image.
Proof using Hp.
  split; [|apply pt_size, Hp]. unfold encode, encode_file_header. destruct abi_bytes.
  repeat (apply Forall_app; split); try apply le_bytes_are_bytes.
  - rewrite !Forall_cons. unfold is_byte in *. split_and!; lia || constructor.
  - apply Forall_replicate. unfold is_byte. lia.
  - apply Forall_concat, Forall_map, Forall_forall. intros h _. unfold encode_program_header.
    repeat (apply Forall_app; split); apply le_bytes_are_bytes.
  - apply Hp.
Qed.

Lemma file_header_length : length (encode_file_header f) = 64%nat.
Proof using. unfold encode_file_header. by rewrite !length_app, !le_bytes_length. Qed.

Lemma file_header_window : window image 0 64 = encode_file_header f.
Proof using. unfold window, encode. change (Z.to_nat 0) with 0%nat. rewrite drop_0. by rewrite take_app_length' by (by rewrite file_header_length). Qed.

Lemma headers_length hs : length (concat (map encode_program_header hs)) = (56 * length hs)%nat.
Proof using.
  induction hs as [|h hs IH]; [done|]. cbn [map concat length]. rewrite length_app, encode_program_header_length, IH. lia.
Qed.

Lemma header_window i h :
  ef_headers f !! i = Some h -> window image (64 + Z.of_nat i * kProgramHeaderSize) 56 = encode_program_header h.
Proof using.
  intros Hi. unfold window, encode, kProgramHeaderSize.
  replace (Z.to_nat (64 + Z.of_nat i * 56)) with (length (encode_file_header f) + 56 * i)%nat by (rewrite file_header_length; lia).
  rewrite <- drop_drop, drop_app_length.
  apply list_elem_of_split_length in Hi as (l1 & l2 & E & Hl). rewrite E, map_app, concat_app.
  rewrite <- app_assoc. rewrite drop_app_length' by (rewrite headers_length; lia). cbn [map concat].
  rewrite <- app_assoc. by rewrite take_app_length' by (by rewrite encode_program_header_length).
Qed.

Lemma printed_size : image_size image = 64 + 56 * Z.of_nat (length (ef_headers f)) + Z.of_nat (length (ef_body f)).
Proof using. unfold image_size, encode. rewrite !length_app, file_header_length, headers_length. lia. Qed.

Lemma printed_table : header_table image 64 (length (ef_headers f)) = ef_headers f.
Proof using Hp.
  apply list_eq_same_length with (n := length (ef_headers f)); [done|unfold header_table; by rewrite length_map, length_seq|].
  intros i h h' Hi Hh' Hh. unfold header_table in Hh'. rewrite list_lookup_fmap in Hh'.
  apply fmap_Some in Hh' as (j & [-> _]%lookup_seq & ->). cbn.
  apply header_printed; [unfold kProgramHeaderSize; lia|..].
  - eapply Forall_lookup_1; [apply (pt_words f Hp)|done].
  - exact (Forall_lookup_1 _ _ _ _ (pt_offsets f Hp) Hh).
  - by apply header_window.
Qed.

(** The fields of the file header. *)
Lemma file_field i n v :
  0 <= i -> (Z.to_nat i + n <= 64)%nat -> take n (drop (Z.to_nat i) (encode_file_header f)) = le_bytes n v ->
  0 <= v < 256 ^ Z.of_nat n -> le_field image i n = v.
Proof using. intros. rewrite <- (Z.add_0_l i). by eapply field_printed; [|exact file_header_window|..]. Qed.
End printed.

(** ** Accepting *)

Lemma ensure_true {B} (b : bool) e (k : unit -> parse B) : b = true -> ensure b e ≫= k = k tt.
Proof. by intros ->. Qed.

Lemma check_load_accepts h : header_words h -> load_checked h -> check_load h = returns tt.
Proof.
  intros Hw Hc. unfold check_load. destruct (is_load h) eqn:El; cbn [negb]; [|done].
  destruct (Hc El) as (H1 & H2 & H3). rewrite ensure_true by lia. rewrite ensure_true by lia.
  unfold ensure. destruct (Z.gtb_spec (ph_alignment h) 1); cbn; [|done].
  destruct H3 as [?|(k & Hk & Ek & Em)]; [lia|].
  assert (Hk64 : k < 64).
  { apply (Z.pow_lt_mono_r_iff 2); [lia|lia|]. rewrite <- Ek. pose proof (hw_alignment _ Hw). u64_lia. }
  rewrite (proj2 (Z.eqb_eq _ _) Em), Ek, is_power_of_two_pow by lia. done.
Qed.

Lemma read_headers_accepts image n : forall o headers,
  image_ok image -> 0 <= o -> o + Z.of_nat n * kProgramHeaderSize <= image_size image ->
  Forall load_checked (header_table image o n) ->
  read_headers image n o headers = returns (headers ++ header_table image o n).
Proof.
  unfold kProgramHeaderSize. induction n as [|n IH]; intros o headers Hok Ho Hs Hc; cbn [read_headers].
  { by rewrite app_nil_r. }
  rewrite header_table_S in *. apply Forall_cons in Hc as [Hc0 Hc]. pose proof (size_nonneg image Hok).
  rewrite read_header_eq by (unfold kProgramHeaderSize; done || lia). rewrite returns_bind.
  rewrite check_load_accepts by (done || by apply header_at_words). rewrite returns_bind.
  unfold kProgramHeaderSize in *. destruct n as [|n]; [done|].
  rewrite add64_small by u64_lia. rewrite IH by (done || lia). by rewrite <- app_assoc.
Qed.

Lemma place_headers_accepts size headers rest : forall index,
  is_u64 size -> Forall header_words rest ->
  Forall (fun h => is_load h = true -> ph_file_offset h + ph_file_size h <= size) rest ->
  place_headers size ExecutableLayout_default headers index rest = returns rest.
Proof.
  induction rest as [|h rest IH]; intros index Hs Hw Hin; cbn [place_headers]; [done|].
  apply Forall_cons in Hw as [Hw0 Hw]. apply Forall_cons in Hin as [Hin0 Hin]. unfold place_header. cbn [el_container ExecutableLayout_default].
  rewrite (bool_decide_eq_false_2 (kElf = kSelf)) by done. rewrite andb_false_r, returns_bind.
  rewrite ensure_true.
  - rewrite returns_bind, IH by done. done.
  - destruct (is_load h); [|done]. cbn. apply negb_true_iff, negb_false_iff.
    apply RangeWithin_spec; [done|..|by apply Hin0]; destruct Hw0; u64_lia.
Qed.

Lemma apart_ranges l :
  Forall (fun r => r.1 < r.2) l -> Sorted range_le l -> ForallOrdPairs apart l -> ranges_apart l = true.
Proof.
  intros Hn Hs Ho. induction Hs as [|a l Hs IH Hd]; [done|]. destruct l as [|b l]; [done|].
  inversion Ho as [|? ? Ha Ho']; subst. apply Forall_cons in Hn as [Hn0 Hn].
  change (ranges_apart (a :: b :: l)) with (negb (b.1 <? a.2) && ranges_apart (b :: l)).
  rewrite IH by done. apply Forall_cons in Ha as [Hab _]. inversion Hd as [|? ? Hle]; subst.
  apply Forall_cons in Hn as [Hb _]. unfold apart, range_le in *. rewrite andb_true_r. apply negb_true_iff, Z.ltb_ge. lia.
Qed.

Lemma pairs_filtered {A B} (R : B -> B -> Prop) (f : A -> B) (p : A -> bool) (l : list A) :
  ForallOrdPairs (fun a b => p a = true -> p b = true -> R (f a) (f b)) l ->
  ForallOrdPairs R (map f (List.filter p l)).
Proof.
  induction 1 as [|a l Ha _ IH]; [constructor|]. cbn. destruct (p a) eqn:E; [|done]. cbn. constructor; [|done].
  apply Forall_map, Forall_forall. intros b [Hb Hpb]%list_elem_of_In%filter_In. rewrite Forall_forall in Ha.
  apply Ha; [by apply list_elem_of_In|done|done].
Qed.

Lemma segments_accepted headers :
  Forall header_words headers -> Forall load_checked headers -> ForallOrdPairs segments_apart headers ->
  ranges_apart (merge_sort range_le (load_ranges headers)) = true.
Proof.
  intros Hw Hc Ho.
  pose proof (occupied_ends headers Hw Hc) as Hends.
  pose proof (merge_sort_Permutation range_le (load_ranges headers)) as Hp.
  apply apart_ranges.
  - rewrite Hp. by apply load_ranges_nonempty.
  - apply Sorted_merge_sort. intros x y. unfold range_le. lia.
  - eapply ForallOrdPairs_perm; [unfold apart; tauto|symmetry; exact Hp|]. unfold load_ranges. apply pairs_filtered.
    clear Hp. induction Ho as [|a l Ha Ho IH]; [constructor|]. apply Forall_cons in Hends as [Hea Hends].
    apply Forall_cons in Hw as [_ Hw]. apply Forall_cons in Hc as [_ Hc].
    constructor; [|by apply IH]. rewrite Forall_forall in Ha, Hends |- *. intros b Hb Hoa Hob.
    specialize (Ha b Hb Hoa Hob). unfold apart. cbn. destruct (Hea Hoa) as [-> _]. by destruct (Hends b Hb Hob) as [-> _].
Qed.

Lemma check_dynlibdata_accepts size seen headers :
  Forall (fun h => ph_type h <> kProgramTypeDynamic /\ ph_type h <> kProgramTypeSceDynlibData) headers ->
  check_dynlibdata size seen headers = returns tt.
Proof.
  induction 1 as [|h headers [_ Hh] _ IH]; [done|]. cbn [check_dynlibdata].
  by destruct (Z.eqb_spec (ph_type h) kProgramTypeSceDynlibData).
Qed.

Lemma find_dynamic_accepts found headers :
  Forall (fun h => ph_type h <> kProgramTypeDynamic /\ ph_type h <> kProgramTypeSceDynlibData) headers ->
  find_dynamic found headers = returns found.
Proof.
  induction 1 as [|h headers [Hh _] _ IH]; [done|]. cbn [find_dynamic].
  by destruct (Z.eqb_spec (ph_type h) kProgramTypeDynamic).
Qed.

Lemma bytes_are_accepts image expected : forall o,
  image_ok image -> 0 <= o -> o + Z.of_nat (length expected) <= image_size image ->
  window image o (length expected) = expected -> bytes_are image o expected = returns true.
Proof.
  induction expected as [|e expected IH]; intros o Hok Ho Hs Hw; [done|]. cbn [bytes_are length] in *.
  pose proof (size_nonneg image Hok). destruct (image_lookup image Hok o) as (b & Eb & _); [lia|].
  unfold Read8. rewrite Eb. cbn [access]. rewrite returns_bind. rewrite (window_cons _ _ _ b) in Hw by done.
  injection Hw as -> Hw. rewrite Z.eqb_refl. destruct expected as [|e' expected]; [done|].
  cbn [length] in *. rewrite add64_small by u64_lia. apply IH; [done|lia|lia|done].
Qed.

Section accepted.
Context (f : elf_file) (Hp : printable f).
Local Abbreviation image := (encode f).

Lemma printed_fields :
  le_field image 4 1 = 2 /\ le_field image 5 1 = 1 /\ le_field image 6 1 = 1 /\
  le_field image 7 1 = ef_os_abi f /\ le_field image 8 1 = ef_abi_version f /\
  le_field image 16 2 = ef_type f /\ le_field image 18 2 = 62 /\ le_field image 20 4 = 1 /\
  le_field image 24 8 = ef_entry_point f /\ le_field image 32 8 = 64 /\ le_field image 52 2 = 64 /\
  le_field image 54 2 = 56 /\ le_field image 56 2 = Z.of_nat (length (ef_headers f)).
Proof using Hp.
  destruct (abi_bytes f Hp) as [Ha1 Ha2]. pose proof (pt_type f Hp) as Ht. pose proof (pt_count f Hp) as Hc.
  assert (Hb : forall v, is_byte v -> [v] = le_bytes 1 v) by (intros v Hv; cbn; by rewrite Z.mod_small).
  split_and!; apply file_field; try done; try lia;
    try (by apply is_u64_pow, pt_entry); try (change (256 ^ Z.of_nat 1) with 256; unfold is_byte in *; lia);
    try (by apply Hb).
  - change (256 ^ Z.of_nat 2) with 65536. unfold IsSupportedType in Ht. lia.
Qed.

Lemma ParseElf64_encode : ParseElf64 image = returns (metadata_of f).
Proof using Hp.
  pose proof (printed_ok f Hp) as Hok. pose proof (printed_size f) as Hsz. pose proof (pt_size f Hp) as Hmax.
  pose proof (pt_count f Hp) as Hcount.
  unfold ParseElf64, ParseElf64WithLayout. cbn [el_elf_offset ExecutableLayout_default].
  rewrite ensure_true by (apply RangeWithin_spec; unfold kElfHeaderSize; u64_lia). cbv zeta.
  rewrite bytes_are_accepts; [|done|lia|cbn [length]; lia|].
  2: { pose proof (window_sub image 0 64 0 4 ltac:(lia) ltac:(lia) ltac:(cbn; lia)) as Hw. cbn [length].
       change (0 + 0) with 0 in Hw. rewrite Hw, file_header_window. done. }
  rewrite returns_bind, ensure_true by done. rewrite !(add64_small 0) by u64_lia. rewrite !Z.add_0_l.
  destruct printed_fields as (F4 & F5 & F6 & F7 & F8 & F16 & F18 & F20 & F24 & F32 & F52 & F54 & F56).
  rewrite (Read8_eq _ Hok 4), returns_bind, F4, ensure_true by (done || lia).
  rewrite (Read8_eq _ Hok 5), returns_bind, F5, ensure_true by (done || lia).
  rewrite (Read8_eq _ Hok 6), returns_bind, F6, ensure_true by (done || lia).
  rewrite (Read8_eq _ Hok 7), returns_bind, F7 by lia. rewrite (Read8_eq _ Hok 8), returns_bind, F8 by lia.
  rewrite (Read16_eq _ Hok 16), returns_bind, F16 by lia. rewrite (Read16_eq _ Hok 18), returns_bind, F18 by lia.
  rewrite (Read32_eq _ Hok 20), returns_bind, F20 by lia. rewrite (Read64_eq _ Hok 24), returns_bind, F24 by lia.
  rewrite (Read64_eq _ Hok 32), returns_bind, F32 by lia. rewrite (Read16_eq _ Hok 52), returns_bind, F52 by lia.
  rewrite (Read16_eq _ Hok 54), returns_bind, F54 by lia. rewrite (Read16_eq _ Hok 56), returns_bind, F56 by lia.
  rewrite ensure_true by apply Hp. rewrite ensure_true by apply Hp. do 4 (rewrite ensure_true by done).
  rewrite AddWithoutOverflow_spec by u64_lia. replace (0 + 64 <=? u64_max) with true by u64_lia. cbn [require].
  rewrite returns_bind, mul64_small by u64_lia. rewrite ensure_true by (apply RangeWithin_spec; u64_lia).
  rewrite Nat2Z.id, Z.add_0_l. pose proof (printed_table f Hp) as Htab.
  rewrite read_headers_accepts; [|done|lia|unfold kProgramHeaderSize; lia|rewrite Htab; apply Hp].
  rewrite returns_bind, Htab. cbn [app].
  rewrite place_headers_accepts; [|u64_lia|apply Hp|].
  2: { apply Forall_forall. intros h Hin Hl. pose proof (pt_within f Hp) as Hw. pose proof (pt_offsets f Hp) as Ho.
       rewrite Forall_forall in Hw, Ho. rewrite Ho by done. by apply Hw. }
  rewrite returns_bind, ensure_true by (apply segments_accepted; apply Hp).
  rewrite check_dynlibdata_accepts by apply Hp. rewrite returns_bind.
  rewrite find_dynamic_accepts by apply Hp. rewrite returns_bind. done.
Qed.
End accepted.

Lemma printed_not_self f : printable f -> IsSelfMagic (encode f) = returns false.
Proof.
  intros Hp. pose proof (printed_ok f Hp) as Hok. pose proof (printed_size f) as Hsz. unfold IsSelfMagic.
  replace (image_size (encode f) <? 4) with false by lia. cbn [bytes_are].
  assert (E0 : Read8 (encode f) 0 = returns 0x7f).
  { rewrite Read8_eq by (done || lia). done. }
  by rewrite E0, !returns_bind.
Qed.

(** C36: printing and parsing round-trip.  An image printed from a supported ABI
    and type, an entry point and a table of program headers (of word-sized
    fields, whose load segments lie in the file, do not wrap, are aligned and do
    not overlap, without a dynamic section) is accepted, as an ELF and not as a
    SELF image, and the metadata is what was printed. *)
Theorem encoded_executable_parses f :
  printable f -> ParseExecutable64 (encode f) = returns (metadata_of f).
Proof.
  intros Hp. unfold ParseExecutable64, ParseExecutableLayout.
  rewrite printed_not_self by done. rewrite returns_bind. cbn [negb]. rewrite returns_bind.
  by apply ParseElf64_encode.
Qed.
