(* ===== verification/ElfLoadPlan.v ===== *)
(** The plan of a load: the page ranges around the segments, and the mappings
    between their boundaries, which hold the union of the protections of the
    segments on a page. *)
From S2P Require Import Prelude Ranges SharedBacking GuestMemory.
From S2P Require Import GuestMemoryMap GuestMemoryOps GuestMemoryData GuestMemoryWrite.
From S2P Require Import GuestMemoryCopy GuestMemoryInit GuestMemoryRuns GuestBlocks.
From S2P Require Import Elf LittleEndian ElfReader ElfReaderProps ElfParser.
From S2P Require Import ElfParserProps ElfLoad.

Implicit Types (m : GuestMemory) (h : ElfProgramHeader) (p : PlannedLoadRange).

(** ** The planned ranges *)

Definition map_end p : Z := pr_mapping_address p + pr_mapping_size p.
Definition mapped_by p (x : Z) : Prop := pr_mapping_address p <= x < map_end p.

(** The pages around a segment. *)
Record planned_for (k bias : Z) m h p : Prop := {
  pf_header : pr_header p = h;
  pf_address : pr_address p = bias + ph_virtual_address h;
  pf_protection : pr_protection p = ProtectionFromFlags (ph_flags h);
  pf_low : pr_mapping_address p <= pr_address p < pr_mapping_address p + 2 ^ k;
  pf_high : pr_address p + ph_memory_size h <= map_end p < pr_address p + ph_memory_size h + 2 ^ k;
  pf_aligned : (2 ^ k | pr_mapping_address p) /\ (2 ^ k | map_end p);
  pf_window : base_address_ m <= pr_mapping_address p /\ map_end p <= gm_end m;
  pf_size : 0 < pr_mapping_size p
}.

Lemma ldiff_align a k : 0 <= k < 64 -> 0 <= a -> Z.ldiff a (2 ^ k - 1)%u64 = a - a mod 2 ^ k.
Proof.
  intros Hk Ha. pose proof (Z.pow_pos_nonneg 2 k ltac:(lia) ltac:(lia)).
  assert (2 ^ k <= 2 ^ 63) by (apply Z.pow_le_mono_r; lia).
  rewrite sub64_small by u64_lia. replace (2 ^ k - 1) with (Z.ones k) by (rewrite Z.ones_equiv; lia).
  rewrite Z.ldiff_ones_r by lia. rewrite Z.shiftr_div_pow2, Z.shiftl_mul_pow2 by lia.
  rewrite (Z.div_mod a (2 ^ k)) at 2 by lia. lia.
Qed.

Lemma plan_range_spec k bias m h p :
  0 <= k < 64 -> gm_ok m -> is_u64 bias -> header_words h -> 0 < ph_memory_size h ->
  plan_range (2 ^ k) bias m h = inr p -> planned_for k bias m h p.
Proof.
  intros Hk Hm Hb Hw Hs. unfold plan_range. destruct Hw.
  destruct (Z.gtb_spec (ph_virtual_address h) (u64_max - bias)); [done|].
  rewrite (add64_small bias) by u64_lia. set (a := bias + ph_virtual_address h) in *. cbv zeta.
  destruct (Z.gtb_spec (ph_memory_size h) (u64_max - a)); [done|]. rewrite (add64_small a) by u64_lia.
  set (e := a + ph_memory_size h) in *. rewrite ldiff_align by u64_lia.
  pose proof (Z.pow_pos_nonneg 2 k ltac:(lia) ltac:(lia)).
  assert (2 ^ k <= 2 ^ 63) by (apply Z.pow_le_mono_r; lia). rewrite (sub64_small (2 ^ k)) by u64_lia.
  destruct (Z.gtb_spec e (u64_max - (2 ^ k - 1))); [done|].
  destruct (align_up_mask_spec e k) as [A1 A2]; [lia|u64_lia|lia|].
  set (e' := align_up_mask e (2 ^ k)) in *. pose proof (Z.mod_pos_bound a (2 ^ k) ltac:(lia)).
  pose proof (Z.mod_le a (2 ^ k) ltac:(u64_lia) ltac:(lia)).
  rewrite sub64_small by u64_lia.
  destruct (Contains _ _ m) eqn:Ec; [|done]. cbn. intros [= <-].
  apply GuestContains_iff in Ec as [C1 C2]; [|done|u64_lia|lia].
  constructor; unfold map_end; cbn; try done; fold a; try lia. split.
  - exists (a / 2 ^ k). rewrite (Z.div_mod a (2 ^ k)) at 1 by lia. lia.
  - replace (a - a mod 2 ^ k + (e' - (a - a mod 2 ^ k))) with e' by lia. by apply Z.mod_divide; [lia|].
Qed.

Definition sum_of (f : ElfProgramHeader -> Z) (l : list ElfProgramHeader) : Z := foldr (fun h s => f h + s) 0 l.

Definition file_part h : Z := ph_file_size h.
Definition zero_part h : Z := ph_memory_size h - ph_file_size h.

(** The counters of a result after the given segments. *)
Definition counted (r r' : ElfLoadResult) (l : list ElfProgramHeader) : Prop :=
  elr_metadata r' = elr_metadata r /\ elr_segment_count r' = elr_segment_count r + Z.of_nat (length l) /\
  elr_file_bytes r' = elr_file_bytes r + sum_of file_part l /\
  elr_zero_bytes r' = elr_zero_bytes r + sum_of zero_part l.

Definition segment_ok h : Prop := header_words h /\ (is_load h = true -> ph_file_size h <= ph_memory_size h).

Lemma plan_ranges_spec k bias m headers : forall planned r planned' r',
  0 <= k < 64 -> gm_ok m -> is_u64 bias -> Forall segment_ok headers ->
  is_u64 (elr_file_bytes r) -> is_u64 (elr_zero_bytes r) -> 0 <= elr_segment_count r ->
  elr_segment_count r + Z.of_nat (length headers) <= u64_max ->
  elr_error r = None -> plan_ranges (2 ^ k) bias m headers planned r = (planned', r') -> elr_error r' = None ->
  exists new, planned' = planned ++ new /\
    Forall2 (planned_for k bias m) (List.filter occupied headers) new /\
    counted r r' (List.filter occupied headers).
Proof.
  induction headers as [|h headers IH]; intros planned r planned' r' Hk Hm Hb Hh Hf Hz Hc0 Hc He;
    cbn [plan_ranges List.filter].
  { intros [= <- <-] _. exists []. rewrite app_nil_r. split; [done|]. split; [constructor|].
    unfold counted. cbn. split_and!; [done|lia..]. }
  apply Forall_cons in Hh as [[Hw Hsz] Hh]. cbn [length] in Hc.
  replace (negb (is_load h) || (ph_memory_size h =? 0)) with (negb (occupied h))
    by (unfold occupied; rewrite negb_andb; f_equal; apply negb_involutive).
  destruct (occupied h) eqn:Eo; cbn [negb]; [|intros; eapply IH; try done; lia].
  apply andb_true_iff in Eo as [Eo1 Eo2]. pose proof Hw as []. specialize (Hsz Eo1).
  destruct (plan_range (2 ^ k) bias m h) as [e|p] eqn:Ep; [intros [= <- <-]; done|].
  apply plan_range_spec in Ep; [|done|done|done|done|u64_lia].
  cbv zeta. rewrite (sub64_small (ph_memory_size h)) by u64_lia. destruct (_ || _) eqn:Eov; [intros [= <- <-]; done|].
  apply orb_false_iff in Eov as [Eov1 Eov2]. rewrite !add64_small by u64_lia. intros Hp He'.
  destruct (fun H1 H2 H3 H4 H5 => IH _ _ _ _ Hk Hm Hb Hh H1 H2 H3 H4 H5 Hp He') as (new & -> & Hn & C1 & C2 & C3 & C4);
    cbn; [u64_lia|u64_lia|lia|lia|done|].
  cbn in C1, C2, C3, C4. exists (p :: new). rewrite <- app_assoc. split; [done|]. split; [by constructor|].
  unfold counted. cbn [length sum_of foldr]. unfold file_part, zero_part, sum_of in *. split_and!; [done|lia|lia|lia].
Qed.

(** ** The pieces between the boundaries *)

Lemma unique_elem l x : x ∈ unique l <-> x ∈ l.
Proof.
  induction l as [|a l IH]; [done|]. destruct l as [|b l]; [done|]. cbn [unique].
  destruct (Z.eqb_spec a b) as [->|].
  - rewrite IH. rewrite !elem_of_cons. tauto.
  - rewrite elem_of_cons, IH, !elem_of_cons. tauto.
Qed.

Lemma unique_sorted l : Sorted Z.le l -> StronglySorted Z.lt (unique l).
Proof.
  intros Hs. apply Sorted_StronglySorted in Hs; [|intros x y z; lia].
  induction Hs as [|a l Hs IH Ha]; [constructor|]. destruct l as [|b l]; [constructor; [constructor|done]|].
  cbn [unique]. destruct (Z.eqb_spec a b) as [->|Hne]; [done|]. constructor; [done|].
  apply Forall_forall. intros x Hx. apply (proj1 (unique_elem (b :: l) x)) in Hx. rewrite Forall_forall in Ha. pose proof (Ha x Hx).
  pose proof (Ha b ltac:(by left)). inversion Hs as [|? ? _ Hb]; subst. rewrite Forall_forall in Hb.
  apply elem_of_cons in Hx as [->|Hx]; [lia|]. pose proof (Hb x Hx). lia.
Qed.

#[local] Instance Z_le_total : Total Z.le.
Proof. intros x y. lia. Qed.

(** The union of the protections around an address, if a range covers it. *)
Definition covering (planned : list PlannedLoadRange) (x : Z) : list PlannedLoadRange :=
  filter (fun p => pr_mapping_address p <= x < map_end p) planned.
Definition lor_all (l : list Z) : Z := foldl Z.lor 0 l.
Definition planned_view (planned : list PlannedLoadRange) (x : Z) : option Z :=
  match covering planned x with
  | [] => None
  | l => Some (lor_all (map pr_protection l))
  end.

(** The pages of a writable and executable address are those of a segment that
    declares it. *)
Definition declared_wx (planned : list PlannedLoadRange) (x : Z) : Prop :=
  exists p, p ∈ covering planned x /\ HasProtection (pr_protection p) kWrite = true /\
    HasProtection (pr_protection p) kExecute = true.

Definition mapping_at (mappings : list PlannedMappingRange) (x : Z) : option PlannedMappingRange :=
  find (fun q => (pm_address q <=? x) && (x <? pm_address q + pm_size q)) mappings.
Definition mappings_view (mappings : list PlannedMappingRange) (x : Z) : option Z := pm_protection <$> mapping_at mappings x.

Lemma mapping_at_app l q x :
  mapping_at (l ++ [q]) x =
  match mapping_at l x with
  | Some r => Some r
  | None => if decide (pm_address q <= x < pm_address q + pm_size q) then Some q else None
  end.
Proof.
  unfold mapping_at. induction l as [|r l IH]; cbn.
  - destruct (_ && _) eqn:E; case_decide; try done; lia.
  - destruct (_ && _); [done|]. exact IH.
Qed.

(** The mappings lie below an address and on pages. *)
Definition below (k b : Z) m (q : PlannedMappingRange) : Prop :=
  0 < pm_size q /\ pm_address q + pm_size q <= b /\ base_address_ m <= pm_address q /\
  (2 ^ k | pm_address q) /\ (2 ^ k | pm_size q).

Lemma below_view k b m mappings x : Forall (below k b m) mappings -> b <= x -> mappings_view mappings x = None.
Proof.
  intros Hl Hx. unfold mappings_view, mapping_at. destruct (find _ _) as [q|] eqn:E; [|done].
  apply find_elem in E as [Hin Hq]. rewrite Forall_forall in Hl. destruct (Hl q Hin) as (_ & H1 & _). lia.
Qed.

Lemma below_mono k b b' m mappings : b <= b' -> Forall (below k b m) mappings -> Forall (below k b' m) mappings.
Proof.
  intros Hb Hl. eapply Forall_impl; [exact Hl|]. intros q (H1 & H2 & H3 & H4 & H5).
  unfold below. split_and!; [done|lia|done..].
Qed.

Lemma add_piece_spec k m mappings a e prot :
  Forall (below k a m) mappings -> a < e <= u64_max -> 0 <= base_address_ m <= a -> (2 ^ k | a) -> (2 ^ k | e - a) ->
  Forall (below k e m) (add_piece mappings a (e - a) prot) /\
  forall x, mappings_view (add_piece mappings a (e - a) prot) x =
    if decide (a <= x < e) then Some prot else mappings_view mappings x.
Proof.
  intros Hl He Hb Ha Hs.
  assert (Hnew : Forall (below k e m) (mappings ++ [mkPlannedMapping a (e - a) prot]) /\
    forall x, mappings_view (mappings ++ [mkPlannedMapping a (e - a) prot]) x =
      if decide (a <= x < e) then Some prot else mappings_view mappings x).
  { split.
    - apply Forall_app. split; [by apply (below_mono k a); [lia|]|]. apply Forall_singleton.
      unfold below. cbn. split_and!; [lia|lia|lia|done|done].
    - intros x. unfold mappings_view. rewrite mapping_at_app. cbn.
      pose proof (below_view k a m mappings x Hl) as Hv. unfold mappings_view in Hv.
      destruct (mapping_at mappings x) as [r|]; cbn in *.
      + rewrite decide_False; [done|]. intros ?. specialize (Hv ltac:(lia)). done.
      + do 2 case_decide; try done; lia. }
  unfold add_piece. destruct (last mappings) as [b0|] eqn:El; [|exact Hnew].
  destruct (_ && _) eqn:Ec; [|exact Hnew]. clear Hnew.
  apply last_Some in El as [l0 ->]. rewrite removelast_last. apply Forall_app in Hl as [Hl0 Hb0].
  apply Forall_singleton in Hb0 as (B1 & B2 & B3 & B4 & B5).
  apply andb_true_iff in Ec as [Ec Ep]. rewrite add64_small in Ec by u64_lia. rewrite (add64_small (pm_size b0)) by u64_lia.
  assert (Ea : pm_address b0 + pm_size b0 = a) by lia. assert (pm_protection b0 = prot) as <- by lia. split.
  - apply Forall_app. split; [by apply (below_mono k a); [lia|]|]. apply Forall_singleton.
    unfold below. cbn. split_and!; [lia|lia|lia|done|by apply Z.divide_add_r].
  - intros x. unfold mappings_view. rewrite !mapping_at_app. cbn.
    pose proof (below_view k a m l0 x Hl0) as Hv. unfold mappings_view in Hv.
    destruct (mapping_at l0 x) as [r|]; cbn in *.
    + rewrite decide_False; [done|]. intros ?. specialize (Hv ltac:(lia)). done.
    + repeat case_decide; cbn; try done; lia.
Qed.

(** A range covers a piece entirely or not at all. *)
Definition splits (planned : list PlannedLoadRange) (a e : Z) : Prop :=
  forall p, p ∈ planned -> map_end p <= u64_max /\ 0 <= pr_mapping_address p /\ 0 <= pr_mapping_size p /\
    (pr_mapping_address p <= a \/ e <= pr_mapping_address p) /\ (map_end p <= a \/ e <= map_end p).

Lemma covering_cons p planned x :
  covering (p :: planned) x = if decide (mapped_by p x) then p :: covering planned x else covering planned x.
Proof. unfold covering, mapped_by. rewrite filter_cons. done. Qed.

Lemma piece_covers_spec planned a e x :
  splits planned a e -> a < e -> a <= x < e ->
  piece_covers planned a e =
    (negb (bool_decide (covering planned x = [])), lor_all (map pr_protection (covering planned x)),
     existsb (fun p => HasProtection (pr_protection p) kWrite && HasProtection (pr_protection p) kExecute)
       (covering planned x)).
Proof.
  intros Hs He Hx. unfold piece_covers, lor_all.
  enough (Hi : forall c prot d,
    foldl (fun '(covered, protection, declared) p =>
      if negb (covers_piece a e p) then (covered, protection, declared)
      else (true, Z.lor protection (pr_protection p),
        declared || (HasProtection (pr_protection p) kWrite && HasProtection (pr_protection p) kExecute)))
      (c, prot, d) planned =
    (c || negb (bool_decide (covering planned x = [])), foldl Z.lor prot (map pr_protection (covering planned x)),
     d || existsb (fun p => HasProtection (pr_protection p) kWrite && HasProtection (pr_protection p) kExecute)
       (covering planned x))) by (by rewrite Hi).
  induction planned as [|p planned IH]; intros c prot d.
  { cbn. by rewrite !orb_false_r. }
  destruct (Hs p ltac:(by left)) as (H1 & H2 & H3 & H4 & H5). unfold map_end in *.
  assert (Hcov : covers_piece a e p = bool_decide (mapped_by p x)).
  { unfold covers_piece, mapped_by, map_end. rewrite add64_small by u64_lia. 
    destruct (Z.gtb_spec (pr_mapping_address p) a), (Z.ltb_spec (pr_mapping_address p + pr_mapping_size p) e);
      cbn; symmetry; first [apply bool_decide_eq_true_2; lia|apply bool_decide_eq_false_2; lia]. }
  cbn [foldl]. rewrite covering_cons, Hcov. destruct (decide (mapped_by p x)) as [Hm|Hm];
    [rewrite bool_decide_eq_true_2 by done|rewrite bool_decide_eq_false_2 by done]; cbn [negb].
  - rewrite IH by (intros q Hq; apply Hs; by right). cbn.
    rewrite orb_true_r, orb_assoc. done.
  - by rewrite IH by (intros q Hq; apply Hs; by right).
Qed.

Record range_sane (k : Z) m p : Prop := {
  rs_base : 0 <= base_address_ m <= pr_mapping_address p;
  rs_size : 0 < pr_mapping_size p;
  rs_end : map_end p <= u64_max;
  rs_aligned : (2 ^ k | pr_mapping_address p) /\ (2 ^ k | map_end p)
}.

Definition write_execute (o : option Z) : Prop :=
  exists prot, o = Some prot /\ HasProtection prot kWrite = true /\ HasProtection prot kExecute = true.

(** The mappings are the planned protections below a boundary. *)
Record tiled (k : Z) m planned (b : Z) mappings : Prop := {
  ti_below : Forall (below k b m) mappings;
  ti_view : forall x, x < b -> mappings_view mappings x = planned_view planned x;
  ti_declared : forall x, x < b -> write_execute (planned_view planned x) -> declared_wx planned x
}.

Lemma covering_nil planned x : (forall p, p ∈ planned -> ~ mapped_by p x) -> planned_view planned x = None.
Proof.
  intros H. unfold planned_view. destruct (covering planned x) as [|p l] eqn:E; [done|].
  assert (Hin : p ∈ covering planned x) by (rewrite E; by left).
  unfold covering in Hin. apply list_elem_of_filter in Hin as [Hx Hin]. by destruct (H p Hin).
Qed.

(** One more piece. *)
Lemma tiled_piece k m planned a e mappings mappings' :
  splits planned a e -> a < e <= u64_max -> 0 <= base_address_ m <= a -> (2 ^ k | a) -> (2 ^ k | e) ->
  tiled k m planned a mappings ->
  (let '(covered, protection, declared) := piece_covers planned a e in
   if negb covered then mappings' = mappings
   else HasProtection protection kWrite && HasProtection protection kExecute && negb declared = false /\
     mappings' = add_piece mappings a (e - a) protection) ->
  tiled k m planned e mappings'.
Proof.
  intros Hs He Hb Ha He' [T1 T2 T3] Hp.
  pose proof (fun x => piece_covers_spec planned a e x Hs ltac:(lia)) as Hspec.
  destruct (covering planned a) as [|p l] eqn:Ec.
  - rewrite (Hspec a ltac:(lia)), Ec in Hp. cbn in Hp. subst mappings'.
    assert (Hnone : forall x, a <= x < e -> planned_view planned x = None).
    { intros x Hx. pose proof (Hspec a ltac:(lia)) as E1. rewrite (Hspec x Hx), Ec in E1. cbn in E1.
      unfold planned_view. by destruct (covering planned x). }
    constructor; [by apply (below_mono k a); [lia|]| |].
    + intros x Hx. destruct (Z.ltb_spec x a); [by apply T2|]. rewrite Hnone by lia. by eapply below_view.
    + intros x Hx. destruct (Z.ltb_spec x a); [by apply T3|]. rewrite Hnone by lia. by intros (? & ? & _).
  - rewrite (Hspec a ltac:(lia)), Ec in Hp. cbn [bool_decide negb] in Hp.
    rewrite bool_decide_eq_false_2 in Hp by done. cbn [negb] in Hp. destruct Hp as [Hwx ->].
    set (prot := lor_all (map pr_protection (p :: l))) in *.
    destruct (add_piece_spec k m mappings a e prot) as [A1 A2]; try done.
    { by apply Z.divide_sub_r. }
    assert (Hview : forall x, a <= x < e -> planned_view planned x = Some prot).
    { intros x Hx. pose proof (Hspec a ltac:(lia)) as E1. rewrite (Hspec x Hx), Ec in E1. fold prot in E1.
      rewrite (bool_decide_eq_false_2 (p :: l = [])) in E1 by done. unfold planned_view.
      destruct (covering planned x); [done|]. apply (f_equal (fun t => t.1.2)) in E1. cbn [fst snd] in E1. by rewrite E1. }
    constructor; [done| |].
    + intros x Hx. rewrite A2. case_decide; [by rewrite Hview|]. apply T2. lia.
    + intros x Hx. destruct (Z.ltb_spec x a); [by apply T3|]. rewrite Hview by lia.
      intros (prot' & [= <-] & H1 & H2). pose proof (Hspec a ltac:(lia)) as E1.
      rewrite (Hspec x ltac:(lia)), Ec in E1. apply (f_equal snd) in E1. cbn [snd] in E1.
      rewrite H1, H2 in Hwx. cbn [andb] in Hwx. apply negb_false_iff in Hwx. rewrite Hwx in E1.
      apply existsb_exists in E1 as (q & Hq%list_elem_of_In & Hq2). apply andb_true_iff in Hq2 as [? ?]. by exists q.
Qed.

Lemma plan_mappings_spec k m planned rest : forall b mappings result,
  (forall p, p ∈ planned -> range_sane k m p) ->
  (forall p, p ∈ planned -> (pr_mapping_address p <= b \/ pr_mapping_address p ∈ rest) /\
                            (map_end p <= b \/ map_end p ∈ rest)) ->
  StronglySorted Z.lt (b :: rest) ->
  (forall y, y ∈ b :: rest -> (2 ^ k | y) /\ 0 <= base_address_ m <= y /\ y <= u64_max) ->
  tiled k m planned b mappings ->
  plan_mappings m planned (b :: rest) mappings = inr result ->
  exists b', tiled k m planned b' result /\ b' <= u64_max /\ forall p, p ∈ planned -> map_end p <= b'.
Proof.
  induction rest as [|e rest IH]; intros b mappings result Hsane Hend Hsort Hy Ht; cbn [plan_mappings].
  { intros [= <-]. exists b. split_and!; [done|apply Hy; by left|]. intros p Hp.
    by destruct (Hend p Hp) as [_ [?|[]%elem_of_nil]]. }
  inversion Hsort as [|? ? Hsort' Hlt]; subst. apply Forall_cons in Hlt as [Hbe Hlt].
  destruct (Hy b ltac:(by left)) as (Yb1 & Yb2 & Yb3). destruct (Hy e ltac:(right; by left)) as (Ye1 & Ye2 & Ye3).
  assert (Hsplit : splits planned b e).
  { intros p Hp. destruct (Hsane p Hp) as [S1 S2 S3 _]. destruct (Hend p Hp) as [E1 E2].
    rewrite Forall_forall in Hlt. inversion Hsort' as [|? ? _ Hlt']; subst. rewrite Forall_forall in Hlt'.
    split_and!; [done|lia|lia| |].
    - destruct E1 as [?|[->|Hin]%elem_of_cons]; [by left|right; lia|right]. pose proof (Hlt' _ Hin). lia.
    - destruct E2 as [?|[->|Hin]%elem_of_cons]; [by left|right; lia|right]. pose proof (Hlt' _ Hin). lia. }
  assert (Hend' : forall p, p ∈ planned -> (pr_mapping_address p <= e \/ pr_mapping_address p ∈ rest) /\
                                     (map_end p <= e \/ map_end p ∈ rest)).
  { intros p Hp. destruct (Hend p Hp) as [E1 E2]. rewrite !elem_of_cons in E1, E2.
    split; [destruct E1 as [?|[?|?]]|destruct E2 as [?|[?|?]]]; (left; lia) || by right. }
  assert (Hnext : forall mappings', tiled k m planned e mappings' ->
    plan_mappings m planned (e :: rest) mappings' = inr result ->
    exists b', tiled k m planned b' result /\ b' <= u64_max /\ forall p, p ∈ planned -> map_end p <= b').
  { intros mappings' Ht' E. apply (IH e mappings' result); try done. intros y Hin. apply Hy. by right. }
  assert (Hpiece : forall mappings', _ -> tiled k m planned e mappings')
    by (intros mappings'; exact (tiled_piece k m planned b e mappings mappings' Hsplit ltac:(lia) Yb2 Yb1 Ye1 Ht)).
  destruct (piece_covers planned b e) as [[covered protection] declared]. cbn in Hpiece.
  destruct covered; cbn [negb] in *.
  - destruct (_ && _ && _) eqn:Ew; [done|]. rewrite sub64_small by u64_lia.
    destruct (CanMap _ _ m); [|done]. cbn [negb]. intros E. eapply Hnext; [|exact E]. by apply Hpiece.
  - intros E. eapply Hnext; [|exact E]. by apply Hpiece.
Qed.
