(* ===== verification/ElfLoadProps.v ===== *)
(** Loading an executable puts the bytes of the file and the zeros behind them
    at the biased addresses, with the protections the segments declare, and
    leaves what was mapped before alone; a failed load gives its mappings
    back. *)
From S2P Require Import Prelude Ranges SharedBacking GuestMemory.
From S2P Require Import GuestMemoryMap GuestMemoryOps GuestMemoryData GuestMemoryWrite.
From S2P Require Import GuestMemoryCopy GuestMemoryInit GuestMemoryRuns GuestBlocks.
From S2P Require Import Elf LittleEndian ElfReader ElfReaderProps ElfParser.
From S2P Require Import ElfParserProps ElfLoad ElfLoadPlan.

Implicit Types (m : GuestMemory) (h : ElfProgramHeader) (p : PlannedLoadRange).

(** ** Mapping *)

Section load.
Context `{HostMemory}.

(** A memory on pages of [2 ^ k] bytes takes page-aligned requests as they are. *)
Lemma effective_page k m a n :
  0 <= k < 64 -> (host_mapped m = true -> mapping_granularity_ m = 2 ^ k) ->
  (2 ^ k | a) -> (2 ^ k | n) -> 0 < n <= u64_max -> forall l, effective_length a n m = Some l -> l = n.
Proof.
  intros Hk Hg Ha Hn H0 l. unfold effective_length. destruct (host_mapped m); [|by intros [= <-]].
  rewrite Hg by done. destruct (_ || _); [done|]. unfold AlignLengthToPage.
  destruct (_ || _); [done|]. pose proof (Z.pow_pos_nonneg 2 k ltac:(lia) ltac:(lia)).
  assert (2 ^ k <= 2 ^ 63) by (apply Z.pow_le_mono_r; lia).
  rewrite (sub64_small (2 ^ k)) by u64_lia. rewrite sub64_small by u64_lia.
  destruct (_ || _) eqn:E; [done|]. apply orb_false_iff in E as [_ E]. intros [= <-].
  destruct (align_up_mask_spec n k) as [A1 A2]; [lia|lia|lia|].
  apply Z.mod_divide in A2 as [j Ej]; [|lia]. destruct Hn as [i Ei]. rewrite Ej, Ei in *.
  set (g := 2 ^ k) in *. assert (i <= j) by nia. assert (j < i + 1) by nia. f_equal. lia.
Qed.

Definition in_mapping (q : PlannedMappingRange) (x : Z) : Prop := in_range (pm_address q) (pm_size q) x.

(** What mapping a list does: the windows were free, and they are the only
    change. *)
Record mapped_over m (mappings : list PlannedMappingRange) m' : Prop := {
  mo_keeps : keeps m m';
  mo_shared : shared_mappings_ m' = shared_mappings_ m;
  mo_free : forall q x, q ∈ mappings -> in_mapping q x -> prot_view m x = None;
  mo_prot : forall x, prot_view m' x =
    match mappings_view mappings x with Some prot => Some prot | None => prot_view m x end;
  mo_effective : forall q, q ∈ mappings -> effective_length (pm_address q) (pm_size q) m = Some (pm_size q);
  mo_words : forall q, q ∈ mappings -> is_u64 (pm_address q) /\ is_u64 (pm_size q)
}.

Lemma keeps_effective m m' a n : keeps m m' -> effective_length a n m' = effective_length a n m.
Proof. intros [_ K2 _ _]. unfold effective_length. by rewrite (sh_host _ _ K2), (sh_granularity _ _ K2). Qed.

Lemma mapping_at_elem mappings x q : mapping_at mappings x = Some q -> q ∈ mappings /\ in_mapping q x.
Proof. intros [Hin Hq]%find_elem. split; [done|]. unfold in_mapping, in_range. lia. Qed.

Lemma mapping_at_none mappings x q : mapping_at mappings x = None -> q ∈ mappings -> ~ in_mapping q x.
Proof. intros Hn Hin. pose proof (find_none_elem _ _ q Hn Hin) as Hq. cbv beta in Hq. apply andb_false_iff in Hq. unfold in_mapping, in_range. lia. Qed.

(** The roll-back keeps what was there. *)
Lemma unmap_all_keeps m mapped : forall m1,
  gm_ok m -> keeps m m1 ->
  (forall q x, q ∈ mapped -> in_mapping q x -> prot_view m x = None) ->
  (forall q, q ∈ mapped -> effective_length (pm_address q) (pm_size q) m = Some (pm_size q)) ->
  (forall q, q ∈ mapped -> is_u64 (pm_address q) /\ is_u64 (pm_size q)) ->
  keeps m (unmap_all mapped m1).
Proof.
  unfold unmap_all. induction mapped as [|q mapped IH] using rev_ind; intros m1 Hm Hk Hfree Heff Hw; [done|].
  rewrite rev_app_distr. cbn [rev app foldl].
  assert (Hq : q ∈ mapped ++ [q]) by (apply elem_of_app; right; by left).
  assert (Hin : forall q', q' ∈ mapped -> q' ∈ mapped ++ [q]) by (intros; apply elem_of_app; by left).
  apply IH; [done| |by eauto..]. destruct (Hw q Hq). eapply undo_keeps; [done..|by apply Heff|].
  intros x Hx. by apply (Hfree q).
Qed.

Lemma map_all_spec k m rest : forall mapped m1 m2 ok,
  gm_ok m -> 0 <= k < 64 -> (host_mapped m = true -> mapping_granularity_ m = 2 ^ k) ->
  Forall (below k u64_max m) rest -> mapped_over m mapped m1 ->
  map_all mapped rest m1 = (m2, ok) ->
  if ok then mapped_over m (mapped ++ rest) m2 else keeps m m2.
Proof.
  induction rest as [|q rest IH]; intros mapped m1 m2 ok Hm Hk Hg Hb Ho; cbn [map_all].
  { intros [= <- <-]. by rewrite app_nil_r. }
  apply Forall_cons in Hb as [(B1 & B2 & B3 & B4 & B5) Hb]. pose proof Ho as [K S F P E W].
  destruct (go_window m Hm) as (W1 & _ & _).
  assert (Hu : is_u64 (pm_address q) /\ is_u64 (pm_size q)) by u64_lia. destruct Hu as [Hu1 Hu2].
  pose proof (map_block_spec (pm_address q) (pm_size q) (pm_protection q) m1 (kp_ok _ _ K) Hu1 Hu2 B1) as Hmap.
  destruct (Map _ _ _ m1) as [m1' ok1]. destruct Hmap as (K' & S' & Hres). destruct ok1.
  - destruct Hres as (l & El & L1 & L2 & L3 & L4 & L5). rewrite (keeps_effective m m1) in El by done.
    pose proof (effective_page k m _ _ Hk Hg B4 B5 ltac:(lia) l El) as ->.
    replace (mapped ++ q :: rest) with ((mapped ++ [q]) ++ rest) by (by rewrite <- app_assoc).
    apply IH; try done.
    assert (Hfree : forall x, in_mapping q x -> mapping_at mapped x = None /\ prot_view m x = None).
    { intros x Hx. specialize (L4 x Hx). rewrite P in L4. unfold mappings_view in L4.
      by destruct (mapping_at mapped x). }
    constructor.
    + by eapply keeps_trans.
    + congruence.
    + intros r x [Hr| ->%list_elem_of_singleton]%elem_of_app Hx; [by eapply F|]. by apply Hfree.
    + intros x. rewrite L5. unfold mappings_view. rewrite mapping_at_app. case_decide as Hx.
      * destruct (Hfree x Hx) as [-> _]. rewrite decide_True by done. done.
      * rewrite P. unfold mappings_view. destruct (mapping_at mapped x); [done|]. by rewrite decide_False.
    + intros r [Hr| ->%list_elem_of_singleton]%elem_of_app; [by apply E|done].
    + intros r [Hr| ->%list_elem_of_singleton]%elem_of_app; [by apply W|done].
  - intros [= <- <-]. apply unmap_all_keeps; try done. by eapply keeps_trans.
Qed.

(** ** Initialising *)

(** Only bytes of a window change. *)
Record changed_in m1 (a n : Z) m2 : Prop := {
  ci_ok : gm_ok m2;
  ci_shape : same_shape m1 m2;
  ci_tables : same_tables m1 m2;
  ci_bytes : forall x, base_address_ m1 <= x < gm_end m1 -> ~ in_range a n x -> guest_byte m2 x = guest_byte m1 x
}.

Lemma same_shape_window m1 m2 : same_shape m1 m2 -> base_address_ m2 = base_address_ m1 /\ gm_end m2 = gm_end m1.
Proof. intros []. unfold gm_end. split; congruence. Qed.

Lemma changed_refl m a n : gm_ok m -> changed_in m a n m.
Proof. intros Hm. by constructor. Qed.

Lemma changed_trans m1 m2 m3 a n a' n' A N :
  changed_in m1 a n m2 -> changed_in m2 a' n' m3 ->
  (forall x, in_range a n x -> in_range A N x) -> (forall x, in_range a' n' x -> in_range A N x) ->
  changed_in m1 A N m3.
Proof.
  intros [A1 A2 A3 A4] [B1 B2 B3 B4] H1 H2. destruct (same_shape_window _ _ A2) as [W1 W2]. constructor.
  - done.
  - destruct A2, B2. split; congruence.
  - destruct A3, B3. split; congruence.
  - intros x Hx Hout. rewrite B4, A4; [done|done|auto|by rewrite W1, W2|auto].
Qed.

Definition private_on m (a n : Z) : Prop :=
  forall x, in_range a n x -> content (shared_mappings_ m) x = None /\ is_Some (prot_view m x).

Lemma private_changed m1 m2 a n a' n' : changed_in m1 a n m2 -> private_on m1 a' n' -> private_on m2 a' n'.
Proof.
  intros [_ _ Ht _] Hp x Hx. destruct (Hp x Hx) as [P1 P2]. rewrite (st_shared _ _ Ht).
  split; [done|]. by rewrite (proj1 (same_tables_views _ _ Ht)).
Qed.

Lemma private_sub m a n a' n' : private_on m a n -> a <= a' -> a' + n' <= a + n -> private_on m a' n'.
Proof. intros Hp H1 H2 x Hx. apply Hp. unfold in_range in *. lia. Qed.

Lemma initializes_private d m a n result :
  gm_ok m -> is_u64 a -> 0 < n -> private_on m a n -> initializes d m a n result ->
  changed_in m a n result.1 /\
  (result.2 = true -> forall i, 0 <= i < n -> guest_byte result.1 (a + i) = d i).
Proof.
  intros Hm Ha Hn Hp Hi. unfold initializes in Hi.
  assert (Em : IsMappedLocked a n m = true).
  { unfold IsMappedLocked. apply CanAccessLocked_iff; [done|done|lia|]. intros x Hx.
    destruct (Hp x) as [_ [prot Hv]]; [unfold in_range; lia|]. exists prot. by rewrite Z.land_0_r. }
  rewrite Em in Hi. destruct Hi as (n' & Hn' & Hdone & _ & G1 & G2 & G3 & _ & Hst & _).
  destruct (stored_private _ _ _ _ _ Hm Hst) as [B1 B2].
  { intros x Hx. apply Hp. unfold in_range in *. lia. }
  split.
  - constructor; [done..|]. intros x Hx Hout. apply B2; [done|]. unfold in_range in *. lia.
  - intros Ht i Hi. specialize (Hdone Ht). subst n'. by apply B1.
Qed.

(** The bytes of a segment in guest memory. *)
Definition segment_loaded (image : list Z) h (a : Z) m : Prop :=
  (forall i, 0 <= i < ph_file_size h -> guest_byte m (a + i) = source_byte image (ph_file_offset h + i)) /\
  (forall i, ph_file_size h <= i < ph_memory_size h -> guest_byte m (a + i) = 0).

Lemma source_window image o n i :
  0 <= o -> 0 <= i < n -> source_byte (window image o (Z.to_nat n)) i = source_byte image (o + i).
Proof.
  intros Ho Hi. unfold source_byte, window. f_equal. rewrite lookup_take_lt by lia. rewrite lookup_drop. f_equal. lia.
Qed.

(** A range that can be initialised: its data is in the image, its window is
    mapped and private. *)
Record initializable (image : list Z) p m : Prop := {
  in_words : header_words (pr_header p);
  in_sizes : ph_file_size (pr_header p) <= ph_memory_size (pr_header p);
  in_file : ph_file_offset (pr_header p) + ph_file_size (pr_header p) <= image_size image;
  in_address : 0 <= pr_address p /\ pr_address p + ph_memory_size (pr_header p) <= u64_max;
  in_memory : 0 < ph_memory_size (pr_header p);
  in_private : private_on m (pr_address p) (ph_memory_size (pr_header p))
}.

Lemma initialize_file_spec image p m :
  image_ok image -> gm_ok m -> initializable image p m ->
  exists m' ok, initialize_file image p m = Some (m', ok) /\
    changed_in m (pr_address p) (ph_file_size (pr_header p)) m' /\
    (ok = true -> forall i, 0 <= i < ph_file_size (pr_header p) ->
       guest_byte m' (pr_address p + i) = source_byte image (ph_file_offset (pr_header p) + i)).
Proof.
  intros Hok Hm [Hw Hsz Hfile Ha Hpos Hp]. unfold initialize_file.
  pose proof (hw_file_offset _ Hw) as Ho. pose proof (hw_file_size _ Hw) as Hs.
  destruct (Z.eqb_spec (ph_file_size (pr_header p)) 0) as [Ez|Ez]; cbn [negb].
  { exists m, true. split_and!; [done|by apply changed_refl|]. intros _ i Hi. lia. }
  assert (Hs0 : 0 < ph_file_size (pr_header p)) by u64_lia. assert (Ho0 : 0 <= ph_file_offset (pr_header p)) by u64_lia.
  rewrite subspan_runs by lia. eexists _, _. split; [apply f_equal, surjective_pairing|].
  pose proof (Initialize_spec (pr_address p) (window image (ph_file_offset (pr_header p))
    (Z.to_nat (ph_file_size (pr_header p)))) m Hm ltac:(u64_lia)) as Hi.
  rewrite window_length, Z2Nat.id in Hi by lia.
  apply initializes_private in Hi as [C1 C2]; [|done|u64_lia|done|by eapply private_sub; [exact Hp|lia|lia]].
  split; [done|]. intros Ht i Hi'. rewrite C2 by done. by apply source_window.
Qed.

Lemma initialize_range_spec image p m :
  image_ok image -> gm_ok m -> initializable image p m ->
  exists m' ok, initialize_range image p m = Some (m', ok) /\
    changed_in m (pr_address p) (ph_memory_size (pr_header p)) m' /\
    (ok = true -> segment_loaded image (pr_header p) (pr_address p) m').
Proof.
  intros Hok Hm Hin. destruct (initialize_file_spec image p m Hok Hm Hin) as (m1 & ok1 & E & C & Hl).
  destruct Hin as [Hw Hsz Hfile Ha Hpos Hp]. pose proof (hw_file_size _ Hw). pose proof (hw_memory_size _ Hw).
  unfold initialize_range. rewrite E. cbv zeta. rewrite (sub64_small (ph_memory_size _)) by u64_lia.
  assert (Hsub : forall x, in_range (pr_address p) (ph_file_size (pr_header p)) x ->
    in_range (pr_address p) (ph_memory_size (pr_header p)) x) by (unfold in_range; lia).
  destruct ok1; cbn [andb].
  2: { exists m1, false. split_and!; [done| |done].
       eapply changed_trans; [exact C|apply changed_refl, (ci_ok _ _ _ _ C)|done|done]. }
  specialize (Hl eq_refl). destruct (Z.eqb_spec (ph_memory_size (pr_header p) - ph_file_size (pr_header p)) 0); cbn [negb].
  { exists m1, true. split_and!; [done| |].
    - eapply changed_trans; [exact C|apply changed_refl, (ci_ok _ _ _ _ C)|done|done].
    - intros _. split; [done|]. intros i Hi. lia. }
  rewrite add64_small by u64_lia. eexists _, _. split; [apply f_equal, surjective_pairing|].
  set (a' := pr_address p + ph_file_size (pr_header p)). set (n' := ph_memory_size _ - _).
  pose proof (InitializeFill_spec a' n' 0 m1 (ci_ok _ _ _ _ C) ltac:(subst a'; u64_lia) ltac:(subst n'; lia)) as Hi.
  assert (Hp' : private_on m1 a' n').
  { eapply private_changed; [exact C|]. eapply private_sub; [exact Hp|subst a'; u64_lia|subst a' n'; lia]. }
  apply initializes_private in Hi as [C2 Hz]; [|apply C|subst a'; u64_lia|subst n'; u64_lia|done].
  assert (Hsub' : forall x, in_range a' n' x -> in_range (pr_address p) (ph_memory_size (pr_header p)) x)
    by (subst a' n'; unfold in_range; u64_lia).
  split; [by eapply changed_trans|]. intros Ht. specialize (Hz Ht). split.
  - intros i Hi'. rewrite (ci_bytes _ _ _ _ C2); [by apply Hl| |subst a'; unfold in_range; lia].
    destruct (same_shape_window _ _ (ci_shape _ _ _ _ C)) as [-> ->].
    destruct (Hp (pr_address p + i)) as [_ [prot Hv]]; [unfold in_range; lia|]. by eapply prot_view_window.
  - intros i Hi'. replace (pr_address p + i) with (a' + (i - ph_file_size (pr_header p))) by (subst a'; lia).
    apply Hz. subst n'. lia.
Qed.

Definition in_segment p (x : Z) : Prop := in_range (pr_address p) (ph_memory_size (pr_header p)) x.
Definition segments_disjoint p q : Prop := forall x, in_segment p x -> in_segment q x -> False.

(** Only bytes of the segments change. *)
Record filled m1 (planned : list PlannedLoadRange) m2 : Prop := {
  fl_ok : gm_ok m2;
  fl_shape : same_shape m1 m2;
  fl_tables : same_tables m1 m2;
  fl_bytes : forall x, base_address_ m1 <= x < gm_end m1 -> (forall p, p ∈ planned -> ~ in_segment p x) ->
    guest_byte m2 x = guest_byte m1 x
}.

Lemma filled_cons m1 m2 m3 p planned :
  changed_in m1 (pr_address p) (ph_memory_size (pr_header p)) m2 -> filled m2 planned m3 -> filled m1 (p :: planned) m3.
Proof.
  intros [A1 A2 A3 A4] [B1 B2 B3 B4]. destruct (same_shape_window _ _ A2) as [W1 W2]. constructor.
  - done.
  - destruct A2, B2. split; congruence.
  - destruct A3, B3. split; congruence.
  - intros x Hx Hout. rewrite B4, A4; [done|done| |by rewrite W1, W2|].
    + apply (Hout p). by left.
    + intros q Hq. apply Hout. by right.
Qed.

Lemma segment_window m p x : gm_ok m -> private_on m (pr_address p) (ph_memory_size (pr_header p)) ->
  in_segment p x -> base_address_ m <= x < gm_end m.
Proof. intros Hm Hp Hx. destruct (Hp x Hx) as [_ [prot Hv]]. by eapply prot_view_window. Qed.

Lemma segment_stays image p planned m1 m2 :
  gm_ok m1 -> initializable image p m1 -> filled m1 planned m2 -> Forall (segments_disjoint p) planned ->
  segment_loaded image (pr_header p) (pr_address p) m1 -> segment_loaded image (pr_header p) (pr_address p) m2.
Proof.
  intros Hm Hin Hf Hd [L1 L2]. destruct Hin as [Hw Hsz _ _ _ Hp].
  assert (Hsame : forall i, 0 <= i < ph_memory_size (pr_header p) ->
    guest_byte m2 (pr_address p + i) = guest_byte m1 (pr_address p + i)).
  { intros i Hi. assert (Hx : in_segment p (pr_address p + i)) by (unfold in_segment, in_range; lia).
    apply (fl_bytes _ _ _ Hf); [by eapply segment_window|].
    intros q Hq Hxq. rewrite Forall_forall in Hd. by apply (Hd q Hq (pr_address p + i)). }
  pose proof (hw_file_size _ Hw). split; intros i Hi; rewrite Hsame by u64_lia; auto.
Qed.

Lemma initializable_changed image p m1 m2 a n :
  changed_in m1 a n m2 -> initializable image p m1 -> initializable image p m2.
Proof. intros Hc []. constructor; try done. by eapply private_changed. Qed.

Lemma initialize_ranges_spec image mappings planned : forall m1,
  image_ok image -> gm_ok m1 -> Forall (fun p => initializable image p m1) planned ->
  ForallOrdPairs segments_disjoint planned ->
  exists m2, filled m1 planned m2 /\
    (initialize_ranges image mappings planned m1 = Some (unmap_all mappings m2, false) \/
     (initialize_ranges image mappings planned m1 = Some (m2, true) /\
      Forall (fun p => segment_loaded image (pr_header p) (pr_address p) m2) planned)).
Proof.
  induction planned as [|p planned IH]; intros m1 Hok Hm Hi Hd; cbn [initialize_ranges].
  { exists m1. split; [by constructor|]. right. split; [done|constructor]. }
  apply Forall_cons in Hi as [Hi0 Hi]. inversion Hd as [|? ? Hd0 Hd']; subst.
  destruct (initialize_range_spec image p m1 Hok Hm Hi0) as (m1' & ok & -> & C & Hl).
  assert (Hi' : Forall (fun p => initializable image p m1') planned).
  { eapply Forall_impl; [exact Hi|]. intros q Hq. by eapply initializable_changed. }
  destruct ok.
  - destruct (IH m1' Hok (ci_ok _ _ _ _ C) Hi' Hd') as (m2 & Hf & Hres). exists m2.
    split; [by eapply filled_cons|]. destruct Hres as [Hres|[Hres Hall]]; [by left|right]. split; [done|].
    constructor; [|done]. eapply segment_stays; [apply C|by eapply initializable_changed|exact Hf|done|by apply Hl].
  - exists m1'. split; [|by left]. eapply filled_cons; [exact C|]. constructor; try done. apply C.
Qed.

(** Filling fresh mappings keeps what was there. *)
Lemma filled_keeps m mappings m1 planned m2 :
  gm_ok m -> mapped_over m mappings m1 -> filled m1 planned m2 ->
  (forall p x, p ∈ planned -> in_segment p x -> prot_view m x = None) -> keeps m m2.
Proof.
  intros Hm [K _ _ _ _ _] [F1 F2 F3 F4] Hfree. pose proof K as [K1 K2 K3 K4].
  pose proof (same_tables_views _ _ F3) as [Hv _]. constructor.
  - done.
  - destruct K2, F2. split; congruence.
  - intros x prot Hx. rewrite Hv. by apply K3.
  - intros x prot Hx. rewrite F4; [by eapply K4| |].
    + eapply prot_view_window; [done|by apply K3].
    + intros p Hp Hin. by rewrite (Hfree p x Hp Hin) in Hx.
Qed.

(** ** The loaded image *)

(** The pages of a segment. *)
Definition on_pages (k bias x : Z) h : Prop :=
  (bias + ph_virtual_address h) / 2 ^ k <= x / 2 ^ k
  <= (bias + ph_virtual_address h + ph_memory_size h - 1) / 2 ^ k.
#[global] Instance on_pages_dec k bias x h : Decision (on_pages k bias x h).
Proof. unfold on_pages. apply _. Defined.

Definition segments_at (k bias : Z) (headers : list ElfProgramHeader) (x : Z) : list ElfProgramHeader :=
  filter (on_pages k bias x) (List.filter occupied headers).

(** The protection the segments declare for the page of an address: the union
    of theirs. *)
Definition page_protection (k bias : Z) (headers : list ElfProgramHeader) (x : Z) : option Z :=
  match segments_at k bias headers x with
  | [] => None
  | l => Some (lor_all (map (fun h => ProtectionFromFlags (ph_flags h)) l))
  end.

Lemma planned_pages k bias m h p x :
  0 <= k -> planned_for k bias m h p -> 0 < ph_memory_size h -> mapped_by p x <-> on_pages k bias x h.
Proof.
  intros Hk [_ Pa _ Pl Ph [[i Ei] [j Ej]] _ _] Hs. unfold mapped_by, on_pages. rewrite <- Pa.
  set (g := 2 ^ k) in *. assert (0 < g) by (apply Z.pow_pos_nonneg; lia).
  assert (E1 : pr_address p / g = i).
  { symmetry. apply (Z.div_unique _ _ _ (pr_address p - i * g)); [left; lia|lia]. }
  assert (E2 : (pr_address p + ph_memory_size h - 1) / g = j - 1).
  { symmetry. apply (Z.div_unique _ _ _ (pr_address p + ph_memory_size h - 1 - (j - 1) * g)); [left; nia|lia]. }
  rewrite E1, E2, Ei, Ej. pose proof (Z.div_mod x g ltac:(lia)). pose proof (Z.mod_pos_bound x g ltac:(lia)). nia.
Qed.

(** Through the plan, the headers. *)
Lemma planned_covering k bias m headers planned x :
  0 <= k -> Forall2 (planned_for k bias m) headers planned -> Forall (fun h => 0 < ph_memory_size h) headers ->
  Forall2 (planned_for k bias m) (filter (on_pages k bias x) headers) (covering planned x).
Proof.
  intros Hk Hp Hs. induction Hp as [|h p headers planned Hp0 Hp IH]; [constructor|].
  apply Forall_cons in Hs as [Hs0 Hs]. rewrite covering_cons, filter_cons.
  pose proof (planned_pages k bias m h p x Hk Hp0 Hs0) as Hiff.
  specialize (IH Hs). destruct (decide (on_pages k bias x h)), (decide (mapped_by p x)); try tauto. by constructor.
Qed.

Lemma planned_protections k bias m headers planned :
  Forall2 (planned_for k bias m) headers planned ->
  map pr_protection planned = map (fun h => ProtectionFromFlags (ph_flags h)) headers.
Proof. induction 1 as [|h p headers planned Hp _ IH]; cbn; [done|]. by rewrite IH, (pf_protection _ _ _ _ _ Hp). Qed.

Lemma occupied_sizes headers :
  Forall header_words headers -> Forall (fun h => 0 < ph_memory_size h) (List.filter occupied headers).
Proof.
  intros Hw. apply Forall_forall. intros h [Hin Ho]%list_elem_of_In%filter_In.
  rewrite Forall_forall in Hw. apply list_elem_of_In in Hin. destruct (Hw h Hin).
  apply andb_true_iff in Ho as [_ Ho]. u64_lia.
Qed.

Lemma planned_view_pages k bias m headers planned x :
  0 <= k -> Forall header_words headers -> Forall2 (planned_for k bias m) (List.filter occupied headers) planned ->
  planned_view planned x = page_protection k bias headers x.
Proof.
  intros Hk Hw Hp. unfold planned_view, page_protection, segments_at.
  pose proof (planned_covering k bias m _ _ x Hk Hp (occupied_sizes _ Hw)) as Hc.
  pose proof (planned_protections _ _ _ _ _ Hc) as Hpr.
  destruct Hc as [|h p hs ps H1 H2]; [done|]. by rewrite Hpr.
Qed.

(** A load that succeeded. *)
Record elf_loaded (image : list Z) (metadata : ElfMetadata) (k bias : Z) m m' : Prop := {
  ld_keeps : keeps m m';
  ld_segments : forall h, h ∈ em_program_headers metadata -> occupied h = true ->
    bias + ph_virtual_address h + ph_memory_size h <= u64_max /\
    segment_loaded image h (bias + ph_virtual_address h) m';
  ld_free : forall x, is_Some (page_protection k bias (em_program_headers metadata) x) -> prot_view m x = None;
  ld_protections : forall x, prot_view m' x =
    match page_protection k bias (em_program_headers metadata) x with
    | Some prot => Some prot
    | None => prot_view m x
    end;
  (** no page is writable and executable unless a segment declares it *)
  ld_write_execute : forall x, write_execute (page_protection k bias (em_program_headers metadata) x) ->
    exists h, h ∈ segments_at k bias (em_program_headers metadata) x /\
      write_execute (Some (ProtectionFromFlags (ph_flags h)))
}.

Lemma planned_sane k bias m h p : gm_ok m -> planned_for k bias m h p -> range_sane k m p.
Proof.
  intros Hm [_ _ _ _ _ Pal [W1 W2] Ps]. destruct (go_window m Hm) as (G1 & G2 & G3).
  constructor; [lia|done|lia|done].
Qed.

Lemma boundaries_elem k m planned y :
  (forall p, p ∈ planned -> range_sane k m p) ->
  y ∈ boundaries_of planned <-> exists p, p ∈ planned /\ (y = pr_mapping_address p \/ y = map_end p).
Proof.
  intros Hs. unfold boundaries_of. induction planned as [|p planned IH]; cbn.
  { split; [by intros ?%elem_of_nil|]. intros (p & []%elem_of_nil & _). }
  destruct (Hs p ltac:(by left)) as [S1 S2 S3 _]. unfold map_end in S3. rewrite add64_small by u64_lia.
  rewrite !elem_of_cons, IH by (intros q Hq; apply Hs; by right). fold (map_end p).
  setoid_rewrite elem_of_cons. split.
  - intros [->|[->|(q & Hq & Hy)]]; [exists p; tauto|exists p; tauto|exists q; tauto].
  - intros (q & [->|Hq] & Hy); [tauto|]. right. right. by exists q.
Qed.

Lemma plan_mappings_view k m planned mappings :
  (forall p, p ∈ planned -> range_sane k m p) ->
  plan_mappings m planned (sorted_boundaries planned) [] = inr mappings ->
  Forall (below k u64_max m) mappings /\
  (forall x, mappings_view mappings x = planned_view planned x) /\
  (forall x, write_execute (planned_view planned x) -> declared_wx planned x).
Proof.
  intros Hs E.
  assert (Hb : forall y, y ∈ sorted_boundaries planned <->
    exists p, p ∈ planned /\ (y = pr_mapping_address p \/ y = map_end p)).
  { intros y. unfold sorted_boundaries. rewrite unique_elem, merge_sort_Permutation. by eapply boundaries_elem. }
  assert (Hsort : StronglySorted Z.lt (sorted_boundaries planned)).
  { apply unique_sorted, Sorted_merge_sort. apply _. }
  destruct (sorted_boundaries planned) as [|b rest].
  - assert (planned = []) as ->.
    { destruct planned as [|p planned]; [done|]. exfalso. apply (elem_of_nil (pr_mapping_address p)), Hb.
      exists p. split; [by left|by left]. }
    cbn in E. injection E as <-. split_and!; [constructor|done|]. intros x (? & ? & _). done.
  - inversion Hsort as [|? ? _ Hlt]; subst. rewrite Forall_forall in Hlt.
    assert (Hmin : forall p, p ∈ planned -> b <= pr_mapping_address p).
    { intros p Hp. assert (Hin : pr_mapping_address p ∈ b :: rest) by (apply Hb; eauto).
      apply elem_of_cons in Hin as [->|Hin]; [lia|]. pose proof (Hlt _ Hin). lia. }
    destruct (plan_mappings_spec k m planned rest b [] mappings) as (b' & [T1 T2 T3] & Hb' & Hend); try done.
    + intros p Hp. split.
      * assert (Hin : pr_mapping_address p ∈ b :: rest) by (apply Hb; eauto).
        apply elem_of_cons in Hin as [->|Hin]; [by left|by right].
      * assert (Hin : map_end p ∈ b :: rest) by (apply Hb; eauto).
        apply elem_of_cons in Hin as [->|Hin]; [by left|by right].
    + intros y Hy. apply Hb in Hy as (p & Hp & Hy). destruct (Hs p Hp) as [S1 S2 S3 [S4 S5]].
      unfold map_end in *. destruct Hy as [-> | ->]; split_and!; try done; lia.
    + assert (Hnone : forall x, x < b -> planned_view planned x = None).
      { intros x Hx. apply covering_nil. intros p Hp [H1 _]. pose proof (Hmin p Hp). lia. }
      constructor; [constructor|intros x Hx; by rewrite Hnone|]. intros x Hx. rewrite Hnone by done. by intros (? & ? & _).
    + assert (Hout : forall x, b' <= x -> planned_view planned x = None).
      { intros x Hx. apply covering_nil. intros p Hp [_ H2]. pose proof (Hend p Hp). lia. }
      split_and!; [by apply (below_mono k b')| |].
      * intros x. destruct (Z.ltb_spec x b'); [by apply T2|]. rewrite Hout by done. by eapply below_view.
      * intros x. destruct (Z.ltb_spec x b'); [by apply T3|]. rewrite Hout by done. by intros (? & ? & _).
Qed.

(** The declared write-execute pages, through the plan. *)
Lemma declared_segment k bias m headers planned x :
  0 <= k -> Forall header_words headers -> Forall2 (planned_for k bias m) (List.filter occupied headers) planned ->
  declared_wx planned x ->
  exists h, h ∈ segments_at k bias headers x /\ write_execute (Some (ProtectionFromFlags (ph_flags h))).
Proof.
  intros Hk Hw Hp (p & Hin & H1 & H2).
  pose proof (planned_covering k bias m _ _ x Hk Hp (occupied_sizes _ Hw)) as Hc.
  apply list_elem_of_lookup in Hin as [i Hi]. destruct (Forall2_lookup_r _ _ _ _ _ Hc Hi) as (h & Hh & Hph).
  exists h. split; [by eapply list_elem_of_lookup_2|]. rewrite (pf_protection _ _ _ _ _ Hph) in *. by eexists.
Qed.

Lemma planned_disjoint k bias m headers : forall planned,
  ForallOrdPairs segments_apart headers -> Forall2 (planned_for k bias m) (List.filter occupied headers) planned ->
  ForallOrdPairs segments_disjoint planned.
Proof.
  induction headers as [|h headers IH]; intros planned Ho Hp; cbn [List.filter] in Hp.
  { inversion Hp. constructor. }
  inversion Ho as [|? ? Hh Ho']; subst. destruct (occupied h) eqn:Eo; [|by apply IH].
  inversion Hp as [|? p ? planned' Hp0 Hp']; subst. constructor; [|by apply IH].
  apply Forall_forall. intros q Hq. apply list_elem_of_lookup in Hq as [i Hi].
  destruct (Forall2_lookup_r _ _ _ _ _ Hp' Hi) as (h' & Hh' & Hq').
  apply list_elem_of_lookup_2, list_elem_of_In, filter_In in Hh' as [Hin Eo'].
  rewrite Forall_forall in Hh. specialize (Hh h' (proj2 (list_elem_of_In _ _) Hin) Eo Eo').
  intros x. unfold in_segment, in_range. rewrite (pf_header _ _ _ _ _ Hp0), (pf_header _ _ _ _ _ Hq'),
    (pf_address _ _ _ _ _ Hp0), (pf_address _ _ _ _ _ Hq'). lia.
Qed.

Lemma planned_initializable image k bias m headers planned mappings m1 :
  0 <= k -> gm_ok m -> is_u64 bias -> Forall (header_ok image) headers ->
  Forall2 (planned_for k bias m) (List.filter occupied headers) planned ->
  (forall x, mappings_view mappings x = planned_view planned x) -> mapped_over m mappings m1 ->
  Forall (fun p => initializable image p m1) planned /\
  (forall p x, p ∈ planned -> in_segment p x -> prot_view m x = None).
Proof.
  intros Hk Hm Hb Hh Hp Hv [K S F P _ _]. rewrite Forall_forall in Hh.
  assert (Hone : forall p, p ∈ planned -> exists h, h ∈ headers /\ occupied h = true /\ planned_for k bias m h p).
  { intros p [i Hi]%list_elem_of_lookup. destruct (Forall2_lookup_r _ _ _ _ _ Hp Hi) as (h & Hh' & Hph).
    apply list_elem_of_lookup_2, list_elem_of_In, filter_In in Hh' as [Hin Eo]. exists h.
    split_and!; [by apply list_elem_of_In|done|done]. }
  assert (Hat : forall p x, p ∈ planned -> in_segment p x -> exists q, mapping_at mappings x = Some q).
  { intros p x Hin Hx. destruct (Hone p Hin) as (h & _ & _ & [E1 _ _ L H' _ _ _]).
    assert (Hc : p ∈ covering planned x).
    { unfold covering. apply list_elem_of_filter. split; [|done]. unfold in_segment, in_range in Hx. rewrite E1 in Hx. lia. }
    specialize (Hv x). unfold planned_view, mappings_view in Hv. destruct (covering planned x); [by apply elem_of_nil in Hc|].
    destruct (mapping_at mappings x) as [q|]; [by exists q|done]. }
  assert (Hfree : forall p x, p ∈ planned -> in_segment p x -> prot_view m x = None).
  { intros p x Hin Hx. destruct (Hat p x Hin Hx) as (q & [Hq Hqx]%mapping_at_elem). by eapply F. }
  split; [|done]. apply Forall_forall. intros p Hin. destruct (Hone p Hin) as (h & Hhin & Eo & Hph).
  destruct (Hh h Hhin) as [Hw Hld _]. apply andb_true_iff in Eo as [El Em]. specialize (Hld El).
  destruct (planned_sane _ _ _ _ _ Hm Hph) as [S1 S2 S3 _]. pose proof Hph as [E1 E2 _ L H' _ _ _].
  pose proof (hw_memory_size _ Hw). pose proof (hw_virtual _ Hw).
  constructor; rewrite E1; [done|apply Hld|apply Hld|u64_lia|u64_lia|].
  intros x Hx. rewrite <- E1 in Hx. destruct (Hat p x Hin Hx) as (q & Hq). split.
  - rewrite S. by apply unmapped_private; [|by eapply Hfree].
  - rewrite P. unfold mappings_view. rewrite Hq. by eexists.
Qed.

Lemma plan_ranges_metadata g bias m headers : forall planned r,
  elr_metadata (plan_ranges g bias m headers planned r).2 = elr_metadata r.
Proof.
  induction headers as [|h headers IH]; intros planned r; cbn [plan_ranges]; [done|].
  destruct (_ || _); [apply IH|]. destruct (plan_range _ _ _ _); [done|]. cbv zeta.
  destruct (_ || _); [done|]. by rewrite IH.
Qed.

(** Mapping and initialising what was planned. *)
Lemma load_planned_spec image metadata k bias m planned mappings m1 mapped :
  image_ok image -> gm_ok m -> 0 <= k < 64 -> mapping_granularity_ m = 2 ^ k -> is_u64 bias -> elf_wf image metadata ->
  Forall2 (planned_for k bias m) (List.filter occupied (em_program_headers metadata)) planned ->
  plan_mappings m planned (sorted_boundaries planned) [] = inr mappings ->
  map_all [] mappings m = (m1, mapped) ->
  if mapped then exists m2 ok, initialize_ranges image mappings planned m1 = Some (m2, ok) /\
    (if ok then elf_loaded image metadata k bias m m2 else keeps m m2)
  else keeps m m1.
Proof.
  intros Hok Hm Hk Hg Hb [_ _ _ _ _ _ _ _ Hh Hapart _ _] Hp Epm Ema.
  assert (Hw : Forall header_words (em_program_headers metadata)).
  { eapply Forall_impl; [exact Hh|]. intros h []. done. }
  assert (Hsane : forall p, p ∈ planned -> range_sane k m p).
  { intros p [i Hi]%list_elem_of_lookup. destruct (Forall2_lookup_r _ _ _ _ _ Hp Hi) as (h & _ & Hph).
    by eapply planned_sane. }
  destruct (plan_mappings_view k m planned mappings Hsane Epm) as (Hbelow & Hview & Hwx).
  assert (H0 : mapped_over m [] m).
  { constructor; [by apply keeps_refl|done|by intros ? ? ?%elem_of_nil|done|by intros ? ?%elem_of_nil..]. }
  pose proof (map_all_spec k m mappings [] m m1 mapped Hm Hk (fun _ => Hg) Hbelow H0 Ema) as Hmap.
  destruct mapped; [|done]. cbn [app] in Hmap.
  destruct (planned_initializable image k bias m _ planned mappings m1 ltac:(lia) Hm Hb Hh Hp Hview Hmap) as [Hinit Hfree].
  destruct (initialize_ranges_spec image mappings planned m1 Hok (kp_ok _ _ (mo_keeps _ _ _ Hmap)) Hinit
    (planned_disjoint _ _ _ _ _ Hapart Hp)) as (m2 & Hf & Hres).
  pose proof (filled_keeps m mappings m1 planned m2 Hm Hmap Hf Hfree) as Hkeep.
  assert (Hpv : forall x, planned_view planned x = page_protection k bias (em_program_headers metadata) x)
    by (intros x; by eapply planned_view_pages; [lia|..]).
  destruct Hres as [E|[E Hall]]; eexists _, _; (split; [exact E|]).
  - destruct Hmap as [K _ F _ Ef W]. by apply unmap_all_keeps.
  - destruct Hmap as [K S F P Ef W]. constructor.
    + done.
    + intros h Hin Ho. apply list_elem_of_In in Hin. assert (Hin' : h ∈ List.filter occupied (em_program_headers metadata))
        by (by apply list_elem_of_In, filter_In).
      apply list_elem_of_lookup in Hin' as [i Hi]. destruct (Forall2_lookup_l _ _ _ _ _ Hp Hi) as (p & Hpi & Hph).
      pose proof (planned_sane _ _ _ _ _ Hm Hph) as [S1 S2 S3 _]. pose proof Hph as [E1 E2 _ L H' _ _ _]. split; [lia|].
      pose proof (Forall_lookup_1 _ _ _ _ Hall Hpi) as Hl. cbn in Hl. by rewrite E1, E2 in Hl.
    + intros x [prot Hx]. rewrite <- Hpv, <- Hview in Hx. unfold mappings_view in Hx.
      apply fmap_Some in Hx as (q & [Hq Hqx]%mapping_at_elem & _). by eapply F.
    + intros x. rewrite (proj1 (same_tables_views _ _ (fl_tables _ _ _ Hf))), P, Hview. by rewrite Hpv.
    + intros x Hx. rewrite <- Hpv in Hx. eapply declared_segment; [lia|done|done|by apply Hwx].
Qed.

(** The whole of [LoadParsedElf64]: it reads only the image, and it either
    loads the executable or leaves what was mapped as it was. *)
Lemma LoadParsedElf64_spec image metadata bias m :
  image_ok image -> gm_ok m -> is_u64 (mapping_granularity_ m) -> is_u64 bias -> elf_wf image metadata ->
  exists m' r, LoadParsedElf64 image metadata bias m = Some (m', r) /\ elr_metadata r = metadata /\
    match elr_error r with
    | Some _ => keeps m m'
    | None => exists k, mapping_granularity_ m = 2 ^ k /\ elf_loaded image metadata k bias m m' /\
        counted (mkLoadResult None metadata 0 0 0) r (List.filter occupied (em_program_headers metadata))
    end.
Proof.
  intros Hok Hm Hg Hb Hwf. unfold LoadParsedElf64. cbv zeta. destruct (_ || _) eqn:Eg.
  { eexists _, _. split; [done|]. split; [done|]. cbn. by apply keeps_refl. }
  apply orb_false_iff in Eg as [Eg1 Eg2].
  destruct (is_power_of_two_spec (mapping_granularity_ m)) as (k & Hk & Ek); [done| |].
  { unfold is_power_of_two. apply negb_false_iff in Eg2. by rewrite Eg1, Eg2. }
  assert (Hk64 : 0 <= k < 64) by (split; [done|]; apply (Z.pow_lt_mono_r_iff 2); [lia|lia|u64_lia]).
  pose proof (plan_ranges_metadata (mapping_granularity_ m) bias m (em_program_headers metadata) []
    (mkLoadResult None metadata 0 0 0)) as Hmeta.
  destruct (plan_ranges _ _ _ _ _ _) as [planned r] eqn:Ep. cbn [snd elr_metadata] in Hmeta.
  destruct (elr_error r) eqn:Er.
  { eexists _, _. split; [done|]. rewrite Er. split; [done|]. by apply keeps_refl. }
  rewrite Ek in Ep. apply plan_ranges_spec in Ep as (new & -> & Hp & Hc); [|try done..].
  2: { eapply Forall_impl; [exact (wf_headers _ _ Hwf)|]. intros h [Hw Hl _]. split; [done|]. intros Hld. apply (Hl Hld). }
  2: { rewrite (proj1 (wf_table _ _ Hwf)). unfold table_count. cbn.
       pose proof (le_field_bound image Hok (em_elf_file_offset metadata + 56) 2) as Hlb.
       change (256 ^ Z.of_nat 2) with 65536 in Hlb. rewrite Z2Nat.id by lia. u64_lia. }
  cbn [app]. destruct (plan_mappings _ _ _ _) as [e|mappings] eqn:Epm.
  { eexists _, _. split; [done|]. split; [done|]. cbn. by apply keeps_refl. }
  destruct (map_all _ _ _) as [m1 mapped] eqn:Ema.
  pose proof (load_planned_spec image metadata k bias m new mappings m1 mapped Hok Hm Hk64 Ek Hb Hwf Hp Epm Ema) as Hl.
  destruct mapped; cbn [negb].
  - destruct Hl as (m2 & ok & -> & Hl). destruct ok; eexists _, _; (split; [done|]); (split; [done|]).
    + rewrite Er. by exists k.
    + done.
  - eexists _, _. split; [done|]. split; [done|]. done.
Qed.
End load.

Section executables.
Context `{HostMemory}.

Lemma LoadExecutable64_spec image m bias :
  image_ok image -> gm_ok m -> is_u64 (mapping_granularity_ m) -> is_u64 bias ->
  exists m' r, LoadExecutable64 image m bias = Some (m', r) /\
    match elr_error r with
    | Some _ => keeps m m'
    | None => ParseExecutable64 image = returns (elr_metadata r) /\
        exists k, mapping_granularity_ m = 2 ^ k /\ elf_loaded image (elr_metadata r) k bias m m' /\
          counted (mkLoadResult None (elr_metadata r) 0 0 0) r (List.filter occupied (em_program_headers (elr_metadata r)))
    end.
Proof.
  intros Hok Hm Hg Hb. unfold LoadExecutable64, load_parsed.
  pose proof (ParseExecutable64_runs image Hok) as Hr. destruct (ParseExecutable64 image) as [|e|metadata]; [done| |].
  - eexists _, _. split; [done|]. cbn. by apply keeps_refl.
  - cbn in Hr. destruct (LoadParsedElf64_spec image metadata bias m Hok Hm Hg Hb Hr) as (m' & r & -> & <- & Hl).
    exists m', r. split; [done|]. by destruct (elr_error r).
Qed.

(** C34: a load that reports success has loaded the executable.  Every byte of
    the file part of a segment is the byte of the image, and every byte behind
    it up to the memory size is zero, at the biased address; each page holds
    the union of the protections of the segments on it, was free before, and is
    writable and executable only if a segment declares both; everything that
    was mapped keeps its protection and bytes, and nothing else is mapped.  The
    counters are the numbers of segments, file bytes and zero bytes. *)
Theorem executable_loaded image m bias m' r :
  image_ok image -> gm_ok m -> is_u64 (mapping_granularity_ m) -> is_u64 bias ->
  LoadExecutable64 image m bias = Some (m', r) -> elr_error r = None ->
  ParseExecutable64 image = returns (elr_metadata r) /\
  exists k, mapping_granularity_ m = 2 ^ k /\ elf_loaded image (elr_metadata r) k bias m m' /\
    counted (mkLoadResult None (elr_metadata r) 0 0 0) r (List.filter occupied (em_program_headers (elr_metadata r))).
Proof.
  intros Hok Hm Hg Hb E Er. destruct (LoadExecutable64_spec image m bias Hok Hm Hg Hb) as (m2 & r2 & E2 & Hres).
  rewrite E in E2. injection E2 as <- <-. by rewrite Er in Hres.
Qed.

(** C35: a load that fails is harmless.  Loading never reads outside the image,
    and when it reports an error (of the image, of the address space, of a
    conflicting mapping or of the host) everything that was mapped keeps its
    protection and its bytes. *)
Theorem executable_load_failure image m bias :
  image_ok image -> gm_ok m -> is_u64 (mapping_granularity_ m) -> is_u64 bias ->
  exists m' r, LoadExecutable64 image m bias = Some (m', r) /\ (elr_error r <> None -> keeps m m').
Proof.
  intros Hok Hm Hg Hb. destruct (LoadExecutable64_spec image m bias Hok Hm Hg Hb) as (m' & r & E & Hres).
  exists m', r. split; [done|]. by destruct (elr_error r).
Qed.
End executables.

(** ** The range of the load segments *)

(** The loop: the bounds are those of the segments seen. *)
Lemma load_range_loop_spec headers : forall minimum maximum count,
  Forall header_words headers -> Forall load_checked headers ->
  0 <= count -> count + Z.of_nat (length headers) <= u64_max ->
  let l := List.filter occupied headers in
  let low := foldr Z.min minimum (map ph_virtual_address l) in
  let high := foldr Z.max maximum (map (fun h => ph_virtual_address h + ph_memory_size h) l) in
  load_range_loop headers minimum maximum count =
    if count + Z.of_nat (length l) =? 0 then mkLoadRange None 0 0 0
    else mkLoadRange None low (high - low)%u64 (count + Z.of_nat (length l)).
Proof.
  induction headers as [|h headers IH]; intros minimum maximum count Hw Hc Hcount Hlen; cbn [load_range_loop List.filter].
  { cbn. by rewrite Z.add_0_r. }
  apply Forall_cons in Hw as [Hw0 Hw]. apply Forall_cons in Hc as [Hc0 Hc]. cbn [length] in Hlen.
  replace (negb (is_load h) || (ph_memory_size h =? 0)) with (negb (occupied h))
    by (unfold occupied; rewrite negb_andb; f_equal; apply negb_involutive).
  destruct (occupied h) eqn:Eo; cbn [negb]; [|rewrite IH; [done|done|done|done|lia]].
  apply andb_true_iff in Eo as [El _]. destruct (Hc0 El) as (_ & Hend & _). destruct Hw0.
  replace (ph_memory_size h >? _) with false by lia. cbv zeta. rewrite !add64_small by u64_lia.
  rewrite IH by (done || lia). cbn [map foldr length].
  replace (count + 1 + Z.of_nat (length (List.filter occupied headers)))
    with (count + Z.of_nat (S (length (List.filter occupied headers)))) by lia.
  destruct (_ =? 0); [done|]. f_equal.
  - generalize (map ph_virtual_address (List.filter occupied headers)). intros l. induction l; cbn; lia.
  - assert (Emin : forall (l : list Z) a b, foldr Z.min (Z.min a b) l = Z.min b (foldr Z.min a l))
      by (intros l a b; induction l as [|x l IHl]; cbn; lia).
    assert (Emax : forall (l : list Z) a b, foldr Z.max (Z.max a b) l = Z.max b (foldr Z.max a l))
      by (intros l a b; induction l as [|x l IHl]; cbn; lia).
    by rewrite Emin, Emax.
Qed.

Lemma foldr_min_spec (l : list Z) a : foldr Z.min a l <= a /\ (forall x, x ∈ l -> foldr Z.min a l <= x) /\
  (foldr Z.min a l = a \/ foldr Z.min a l ∈ l).
Proof.
  induction l as [|x l (H1 & H2 & H3)]; cbn; [split_and!; [lia|by intros ? ?%elem_of_nil|by left]|].
  split_and!; [lia|intros y [->|Hy]%elem_of_cons; [lia|pose proof (H2 y Hy); lia]|].
  destruct (Z.min_spec x (foldr Z.min a l)) as [[_ ->]|[_ ->]]; [right; by left|].
  destruct H3 as [H3|H3]; [by left|right; by right].
Qed.

Lemma foldr_max_spec (l : list Z) a : a <= foldr Z.max a l /\ (forall x, x ∈ l -> x <= foldr Z.max a l) /\
  (foldr Z.max a l = a \/ foldr Z.max a l ∈ l).
Proof.
  induction l as [|x l (H1 & H2 & H3)]; cbn; [split_and!; [lia|by intros ? ?%elem_of_nil|by left]|].
  split_and!; [lia|intros y [->|Hy]%elem_of_cons; [lia|pose proof (H2 y Hy); lia]|].
  destruct (Z.max_spec x (foldr Z.max a l)) as [[_ ->]|[_ ->]]; [|right; by left].
  destruct H3 as [H3|H3]; [by left|right; by right].
Qed.

(** The load range of an accepted executable is the tightest one.  It is
    computed without error and counts the segments that occupy memory; it
    contains each of them, starts where one starts and ends where one ends,
    inside the address space; without such segments it is empty. *)
Theorem load_range_tight image metadata :
  image_ok image -> ParseExecutable64 image = returns metadata ->
  let r := CalculateElfLoadRange metadata in
  let segments := List.filter occupied (em_program_headers metadata) in
  erl_error r = None /\ erl_load_segment_count r = Z.of_nat (length segments) /\
  if decide (segments = []) then erl_base_address r = 0 /\ erl_size r = 0
  else erl_base_address r + erl_size r <= u64_max /\
    (forall h, h ∈ segments -> erl_base_address r <= ph_virtual_address h /\
       ph_virtual_address h + ph_memory_size h <= erl_base_address r + erl_size r) /\
    (exists h, h ∈ segments /\ erl_base_address r = ph_virtual_address h) /\
    (exists h, h ∈ segments /\ erl_base_address r + erl_size r = ph_virtual_address h + ph_memory_size h).
Proof.
  intros Hok E. pose proof (ParseExecutable64_runs image Hok) as Hwf. rewrite E in Hwf. cbn in Hwf.
  assert (Hw : Forall header_words (em_program_headers metadata)).
  { eapply Forall_impl; [apply (wf_headers _ _ Hwf)|]. by intros h []. }
  assert (Hc : Forall load_checked (em_program_headers metadata)).
  { eapply Forall_impl; [apply (wf_headers _ _ Hwf)|]. intros h [_ Hl _] Hld. destruct (Hl Hld). done. }
  assert (Hlen : 0 + Z.of_nat (length (em_program_headers metadata)) <= u64_max).
  { rewrite (proj1 (wf_table _ _ Hwf)). unfold table_count.
    pose proof (le_field_bound image Hok (em_elf_file_offset metadata + 56) 2) as Hlb.
    change (256 ^ Z.of_nat 2) with 65536 in Hlb. u64_lia. }
  pose proof (occupied_ends _ Hw Hc) as Hends. rewrite Forall_forall in Hends, Hw, Hc.
  intros r segments. unfold r, CalculateElfLoadRange.
  rewrite (load_range_loop_spec _ u64_max 0 0) by (rewrite ?Forall_forall; done). fold segments.
  set (low := foldr _ _ _). set (high := foldr _ _ _).
  destruct (foldr_min_spec (map ph_virtual_address segments) u64_max) as (L1 & L2 & L3). fold low in L1, L2, L3.
  destruct (foldr_max_spec (map (fun h => ph_virtual_address h + ph_memory_size h) segments) 0) as (H1 & H2 & H3).
  fold high in H1, H2, H3. rewrite Z.add_0_l.
  destruct segments as [|h0 l] eqn:Es; [by rewrite decide_True|]. rewrite decide_False by done.
  replace (Z.of_nat (length (h0 :: l)) =? 0) with false by (symmetry; apply Z.eqb_neq; cbn; lia). cbn [erl_error erl_load_segment_count erl_base_address erl_size].
  assert (Hin : forall h, h ∈ h0 :: l -> low <= ph_virtual_address h /\ ph_virtual_address h + ph_memory_size h <= high /\
    0 <= ph_virtual_address h /\ ph_virtual_address h + ph_memory_size h <= u64_max /\ 0 < ph_memory_size h).
  { intros h Hh. rewrite <- Es in Hh. apply list_elem_of_In, filter_In in Hh as [Hh Ho]. apply list_elem_of_In in Hh.
    destruct (Hends h Hh Ho) as [_ Hpos]. apply andb_true_iff in Ho as Ho'. destruct Ho' as [El _].
    destruct (Hc h Hh El) as (_ & Hend & _). destruct (Hw h Hh).
    assert (Hs : h ∈ h0 :: l) by (rewrite <- Es; apply list_elem_of_In, filter_In; by rewrite <- list_elem_of_In).
    split_and!; [apply L2|apply H2|u64_lia|done|done]; apply list_elem_of_fmap; by exists h. }
  assert (Hlow : exists h, h ∈ h0 :: l /\ low = ph_virtual_address h).
  { destruct L3 as [L3|(h & Eh & Hh)%list_elem_of_fmap]; [|by exists h]. destruct (Hin h0 ltac:(by left)). lia. }
  assert (Hhigh : exists h, h ∈ h0 :: l /\ high = ph_virtual_address h + ph_memory_size h).
  { destruct H3 as [H3|(h & Eh & Hh)%list_elem_of_fmap]; [|by exists h]. destruct (Hin h0 ltac:(by left)). lia. }
  assert (Hsize : (high - low)%u64 = high - low).
  { destruct Hhigh as (h2 & Hh2 & ->). destruct Hlow as (h1 & Hh1 & ->).
    pose proof (Hin h1 Hh1). pose proof (Hin h2 Hh2). apply sub64_small. lia. }
  rewrite Hsize. replace (low + (high - low)) with high by lia.
  destruct Hhigh as (h2 & Hh2 & Ehigh). split_and!; [done|done|pose proof (Hin h2 Hh2); lia| |done|by exists h2].
  intros h Hh. pose proof (Hin h Hh). lia.
Qed.
