(* ===== verification/ElfInterfaces.v ===== *)
(** What the parser promises to the rest of the loader: the metadata of an
    accepted executable meets what the launch analysis, the relocator and the
    export registry assume. *)
From S2P Require Import Prelude Elf ElfReader ElfReaderProps ElfParser.
From S2P Require Import ElfParserProps.
From S2P Require Import Launch ModuleExports Relocator.

(** The tables of well-formed metadata are words. *)
Lemma wf_tables image m :
  image_ok image -> elf_wf image m ->
  Forall rela_words (di_relocations (em_dynamic_info m)) /\ Forall rela_words (di_plt_relocations (em_dynamic_info m)) /\
  Forall symbol_words (di_symbols (em_dynamic_info m)).
Proof.
  intros Hok Hwf. pose proof (wf_dynamic _ _ Hwf) as Hd.
  destruct (List.filter _ _) as [|h [|h' l]]; [|destruct Hd as (k & _ & _ & _ & Hp)|done].
  - destruct Hd as [_ ->]. cbn. split_and!; constructor.
  - destruct (dp_relocations _ _ Hp) as (s1 & _ & H1). destruct (dp_plt _ _ Hp) as (s2 & _ & H2).
    apply (rela_parsed_words image Hok) in H1 as [H1 _], H2 as [H2 _]. split_and!; [done|done|].
    destruct (dp_symbols _ _ Hp) as [->|(strings & offset & _ & _ & _ & _ & Ht)]; [constructor|].
    by eapply symbol_table_words.
Qed.

(** The lifecycle fields are words. *)
Lemma wf_lifecycle image m :
  image_ok image -> elf_wf image m ->
  let d := em_dynamic_info m in
  Forall is_u64 (option_list (di_init_function d) ++ option_list (di_fini_function d)) /\
  Forall is_u64 (option_list (di_preinit_array_address d) ++ option_list (di_preinit_array_size d) ++
    option_list (di_init_array_address d) ++ option_list (di_init_array_size d) ++
    option_list (di_fini_array_address d) ++ option_list (di_fini_array_size d)).
Proof.
  intros Hok Hwf d. unfold d. pose proof (wf_dynamic _ _ Hwf) as Hd.
  destruct (List.filter _ _) as [|h [|h' l]]; [|destruct Hd as (k & He & _ & _ & Hp)|done].
  { destruct Hd as [_ ->]. cbn. split; constructor. }
  assert (Hone : forall tag, Forall is_u64 (option_list (lifecycle_of m tag))).
  { intros tag. unfold lifecycle_of. destruct (FindDynamicEntry m tag) as [e|] eqn:E; cbn; [|constructor].
    apply FindDynamicEntry_elem in E as [Hin _]. rewrite He in Hin.
    pose proof (dynamic_table_words image Hok (ph_file_offset h) k) as Hw. rewrite Forall_forall in Hw.
    apply Forall_singleton. by destruct (Hw e Hin). }
  destruct (dp_lifecycle _ _ Hp) as [-> -> -> -> -> -> -> ->].
  split; repeat (apply Forall_app; split); apply Hone.
Qed.

(** C37: the metadata of an accepted executable is typed as the loader relies on:
    the program headers, the entry point and the lifecycle functions and arrays
    are 64-bit words for the launch analysis, the relocation offsets and symbol
    values for the relocator, and the exports for the registry. *)
Theorem parsed_metadata_typed image m bias :
  image_ok image -> ParseExecutable64 image = returns m -> is_u64 bias ->
  metadata_u64 m /\ relocation_words m /\ export_words (m, bias).
Proof.
  intros Hok E Hb. assert (Hwf : elf_wf image m) by (by eapply runs_of_returns; [apply ParseExecutable64_runs|]).
  destruct (wf_tables image m Hok Hwf) as (T1 & T2 & T3). destruct (wf_lifecycle image m Hok Hwf) as [L1 L2].
  assert (Hh : Forall header_words (em_program_headers m)).
  { eapply Forall_impl; [apply (wf_headers _ _ Hwf)|]. by intros h []. }
  assert (Hs : forall s, s ∈ di_symbols (em_dynamic_info m) -> is_u64 (sym_value s)).
  { intros s Hin. rewrite Forall_forall in T3. apply (T3 s Hin). }
  split_and!.
  - constructor; try done.
    + eapply Forall_impl; [exact Hh|]. by intros h [].
    + eapply Forall_impl; [exact Hh|]. by intros h [].
    + rewrite (wf_entry _ _ Hwf). apply (is_u64_field image Hok). lia.
  - constructor; [|done]. unfold entries. apply Forall_app.
    split; (eapply Forall_impl; [eassumption|]); by intros r [].
  - done.
Qed.
