(* ===== verification/Words32.v ===== *)
(** 32-bit unsigned arithmetic, arrays of fixed size and functions that report
    success by a [bool] with results in output arguments, as the GPU layout code
    ([src/gpu]) uses them. *)
From S2P Require Import Prelude.

Declare Scope u32_scope.
Delimit Scope u32_scope with u32.

(** ** Arithmetic of [std::uint32_t] *)

Definition u32_modulus : Z := 4294967296.
Definition u32_max : Z := 4294967295.
Definition is_u32 (x : Z) : Prop := 0 <= x <= u32_max.

Definition to_u32 (a : Z) : Z := a mod u32_modulus.
Definition add32 (a b : Z) : Z := to_u32 (a + b).
Definition sub32 (a b : Z) : Z := to_u32 (a - b).
Definition mul32 (a b : Z) : Z := to_u32 (a * b).
Definition not32 (a : Z) : Z := u32_max - a.
Definition shl32 (a s : Z) : Z := to_u32 (Z.shiftl a s).

Infix "+" := add32 : u32_scope.
Infix "-" := sub32 : u32_scope.
Infix "*" := mul32 : u32_scope.
(** The shifts, masks and exclusive ors of address computations. *)
Notation "a <<< s" := (shl32 a s) (at level 32, left associativity) : u32_scope.
Notation "a >>> s" := (Z.shiftr a s) (at level 32, left associativity) : u32_scope.
Notation "a & m" := (Z.land a m) (at level 45, left associativity) : u32_scope.
Notation "a ^^ b" := (Z.lxor a b) (at level 48, left associativity) : u32_scope.

#[global] Instance is_u32_dec x : Decision (is_u32 x).
Proof. unfold is_u32. apply _. Defined.

(** [std::has_single_bit]. *)
Definition has_single_bit (x : Z) : bool :=
  negb (x =? 0) && (Z.land x (x - 1)%u32 =? 0).

(** [std::countr_zero]: the index of the lowest bit set, 32 when there is none. *)
Definition countr_zero (x : Z) : Z :=
  match find (Z.testbit x) (seqZ 0 32) with Some i => i | None => 32 end.

(** ** Functions with a [bool] result and output arguments

    A call has undefined behaviour (an index outside its array), returns
    [false] and leaves its outputs alone, or returns [true] with its outputs. *)
Inductive tried (A : Type) : Type :=
| undefined
| refused
| gives (a : A).
Arguments undefined {A}.
Arguments refused {A}.
Arguments gives {A} a.

#[global] Instance tried_ret : MRet tried := @gives.
#[global] Instance tried_bind : MBind tried := fun A B f x =>
  match x with undefined => undefined | refused => refused | gives a => f a end.

Definition demand (b : bool) : tried unit := if b then gives tt else refused.

(** Reading and writing an element of an array. *)
Definition at_index {A} (l : list A) (i : Z) : tried A :=
  if i <? 0 then undefined
  else match l !! Z.to_nat i with Some a => gives a | None => undefined end.
Definition set_index {A} (l : list A) (i : Z) (a : A) : tried (list A) :=
  if (0 <=? i) && (i <? Z.of_nat (length l)) then gives (<[Z.to_nat i := a]> l) else undefined.

(** [std::copy_n(source.begin(), n, destination)]. *)
Definition copy_n {A} (source : list A) (n : Z) (destination : list A) : tried (list A) :=
  if (n <=? Z.of_nat (length source)) && (n <=? Z.of_nat (length destination))
  then gives (take (Z.to_nat n) source ++ drop (Z.to_nat n) destination)
  else undefined.

(** ** Lemmas *)

Ltac u32_lia := unfold is_u32, u32_max, u32_modulus in *; lia.

Lemma to_u32_small a : is_u32 a -> to_u32 a = a.
Proof. intros H. apply Z.mod_small. u32_lia. Qed.

Lemma to_u32_range a : is_u32 (to_u32 a).
Proof. unfold to_u32. pose proof (Z.mod_pos_bound a u32_modulus eq_refl). u32_lia. Qed.

Ltac unwrap32 :=
  repeat first
    [ rewrite (to_u32_small (_ + _)) by u32_lia
    | rewrite (to_u32_small (_ - _)) by u32_lia
    | rewrite (to_u32_small (_ * _)) by u32_lia ].

Lemma add32_small a b : 0 <= a + b <= u32_max -> add32 a b = a + b.
Proof. intros H. by apply to_u32_small. Qed.
Lemma sub32_small a b : 0 <= a - b <= u32_max -> sub32 a b = a - b.
Proof. intros H. by apply to_u32_small. Qed.
Lemma mul32_small a b : 0 <= a * b <= u32_max -> mul32 a b = a * b.
Proof. intros H. by apply to_u32_small. Qed.

Lemma bind_gives {A B} (x : tried A) (f : A -> tried B) b :
  (x ≫= f) = gives b -> exists a, x = gives a /\ f a = gives b.
Proof. destruct x; simpl; [done..|eauto]. Qed.

Lemma demand_gives b u : demand b = gives u -> b = true.
Proof. by destruct b. Qed.

Lemma at_index_gives {A} (l : list A) i a :
  at_index l i = gives a <-> 0 <= i /\ l !! Z.to_nat i = Some a.
Proof.
  unfold at_index. destruct (Z.ltb_spec i 0); [split; [done|lia]|].
  destruct (l !! Z.to_nat i) as [b|]; split; [intros [= ->]|intros [_ [= ->]]|done|intros [_ [=]]]; done.
Qed.

Lemma at_index_def {A} (l : list A) i :
  0 <= i < Z.of_nat (length l) -> exists a, at_index l i = gives a /\ l !! Z.to_nat i = Some a.
Proof.
  intros Hi. destruct (lookup_lt_is_Some_2 l (Z.to_nat i)) as [a Ha]; [lia|].
  exists a. split; [apply at_index_gives; split; [lia|done]|done].
Qed.

Lemma set_index_def {A} (l : list A) i a :
  0 <= i < Z.of_nat (length l) -> set_index l i a = gives (<[Z.to_nat i := a]> l).
Proof.
  intros Hi. unfold set_index.
  by rewrite (proj2 (Z.leb_le 0 i)), (proj2 (Z.ltb_lt i _)) by lia.
Qed.

Lemma has_single_bit_spec x : is_u32 x -> has_single_bit x = true -> x = 2 ^ Z.log2 x.
Proof.
  intros Hx [Hn Hl]%andb_true_iff. apply negb_true_iff, Z.eqb_neq in Hn.
  rewrite sub32_small in Hl by u32_lia. apply land_pred_pow2; [u32_lia|lia].
Qed.

(** Maps that are linear over exclusive or: the addresses of tiled images are
    exclusive ors of shifted and masked coordinates, so they are determined by
    their values on single bits, and an inverse is found by elimination. *)

(** ** Linear maps *)

Definition linear (f : Z -> Z) : Prop := forall a b, f (Z.lxor a b) = Z.lxor (f a) (f b).

Class Linear3 (f : Z -> Z -> Z -> Z) : Prop :=
  linear3 x y z x' y' z' :
    f (Z.lxor x x') (Z.lxor y y') (Z.lxor z z') = Z.lxor (f x y z) (f x' y' z').

Lemma lxor_swap a b c d : Z.lxor (Z.lxor a b) (Z.lxor c d) = Z.lxor (Z.lxor a c) (Z.lxor b d).
Proof. rewrite !Z.lxor_assoc. f_equal. rewrite <- !Z.lxor_assoc. f_equal. apply Z.lxor_comm. Qed.

Lemma land_lxor_l a b m : Z.land (Z.lxor a b) m = Z.lxor (Z.land a m) (Z.land b m).
Proof.
  apply Z.bits_inj. intros i. rewrite Z.lxor_spec, !Z.land_spec, Z.lxor_spec.
  by destruct (Z.testbit a i), (Z.testbit b i), (Z.testbit m i).
Qed.

Lemma to_u32_land a : to_u32 a = Z.land a (Z.ones 32).
Proof. unfold to_u32. by rewrite Z.land_ones. Qed.

Lemma to_u32_lxor a b : to_u32 (Z.lxor a b) = Z.lxor (to_u32 a) (to_u32 b).
Proof. rewrite !to_u32_land. apply land_lxor_l. Qed.

Lemma shl32_lxor a b s : shl32 (Z.lxor a b) s = Z.lxor (shl32 a s) (shl32 b s).
Proof. unfold shl32. by rewrite Z.shiftl_lxor, to_u32_lxor. Qed.

#[global] Instance linear3_x : Linear3 (fun x _ _ => x).
Proof. by intros ??????. Qed.
#[global] Instance linear3_y : Linear3 (fun _ y _ => y).
Proof. by intros ??????. Qed.
#[global] Instance linear3_z : Linear3 (fun _ _ z => z).
Proof. by intros ??????. Qed.
#[global] Instance linear3_0 : Linear3 (fun _ _ _ => 0).
Proof. by intros ??????. Qed.
#[global] Instance linear3_lxor f g :
  Linear3 f -> Linear3 g -> Linear3 (fun x y z => Z.lxor (f x y z) (g x y z)).
Proof. intros Hf Hg ??????. rewrite Hf, Hg. apply lxor_swap. Qed.
#[global] Instance linear3_land f m : Linear3 f -> Linear3 (fun x y z => Z.land (f x y z) m).
Proof. intros Hf ??????. by rewrite Hf, land_lxor_l. Qed.
#[global] Instance linear3_shl32 f s : Linear3 f -> Linear3 (fun x y z => shl32 (f x y z) s).
Proof. intros Hf ??????. by rewrite Hf, shl32_lxor. Qed.
#[global] Instance linear3_shiftr f s : Linear3 f -> Linear3 (fun x y z => Z.shiftr (f x y z) s).
Proof. intros Hf ??????. by rewrite Hf, Z.shiftr_lxor. Qed.

(** ** Words as sums of bits *)

Lemma low_bits_split v k :
  0 <= k -> 0 <= v < 2 ^ (k + 1) ->
  v = Z.lxor (v mod 2 ^ k) (if Z.testbit v k then 2 ^ k else 0) /\ 0 <= v mod 2 ^ k < 2 ^ k.
Proof.
  intros Hk Hv. assert (0 < 2 ^ k) by (by apply Z.pow_pos_nonneg).
  split; [|by apply Z.mod_pos_bound].
  apply Z.bits_inj'. intros i Hi. rewrite Z.lxor_spec, Z.testbit_mod_pow2 by lia.
  destruct (decide (i < k)) as [Hlt|Hge]; [|destruct (decide (i = k)) as [->|Hne]].
  - rewrite (proj2 (Z.ltb_lt i k)) by lia. simpl.
    destruct (Z.testbit v k); [rewrite Z.pow2_bits_false by lia|rewrite Z.bits_0];
      by destruct (Z.testbit v i).
  - rewrite Z.ltb_irrefl. simpl.
    destruct (Z.testbit v k); [by rewrite Z.pow2_bits_true|by rewrite Z.bits_0].
  - rewrite (proj2 (Z.ltb_ge i k)) by lia. simpl.
    assert (Z.testbit v i = false) as ->.
    { destruct (decide (v = 0)) as [->|]; [apply Z.bits_0|].
      apply Z.bits_above_log2; [lia|]. apply Z.log2_lt_pow2; [lia|].
      apply Z.lt_le_trans with (2 ^ (k + 1)); [lia|]. apply Z.pow_le_mono_r; lia. }
    destruct (Z.testbit v k); [by rewrite Z.pow2_bits_false by lia|by rewrite Z.bits_0].
Qed.

Lemma linear_0 f : linear f -> f 0 = 0.
Proof.
  intros Hf. specialize (Hf 0 0). change (Z.lxor 0 0) with 0 in Hf.
  by rewrite Z.lxor_nilpotent in Hf.
Qed.

(** Linear maps that agree on single bits agree on every word of that width. *)
Lemma linear_ext f g (k : nat) :
  linear f -> linear g -> (forall i, 0 <= i < Z.of_nat k -> f (2 ^ i) = g (2 ^ i)) ->
  forall v, 0 <= v < 2 ^ Z.of_nat k -> f v = g v.
Proof.
  intros Hf Hg.
  induction k as [|k IH]; intros Hb v Hv.
  - replace v with 0 by (simpl in Hv; lia). by rewrite !linear_0.
  - rewrite Nat2Z.inj_succ, <- Z.add_1_r in *.
    destruct (low_bits_split v (Z.of_nat k)) as [E Hlo]; [lia|done|].
    assert (Elo : f (v mod 2 ^ Z.of_nat k) = g (v mod 2 ^ Z.of_nat k))
      by (apply IH; [intros; apply Hb; lia|done]).
    rewrite E, Hf, Hg, Elo. f_equal.
    destruct (Z.testbit v (Z.of_nat k)); [apply Hb; lia|by rewrite !linear_0].
Qed.

(** A property closed under exclusive or that holds of the values on single bits
    holds of every value. *)
Lemma linear_closed f (Q : Z -> Prop) (k : nat) :
  linear f -> Q 0 -> (forall a b, Q a -> Q b -> Q (Z.lxor a b)) ->
  (forall i, 0 <= i < Z.of_nat k -> Q (f (2 ^ i))) ->
  forall v, 0 <= v < 2 ^ Z.of_nat k -> Q (f v).
Proof.
  intros Hf HQ0 HQ. pose proof (linear_0 f Hf) as H0.
  induction k as [|k IH]; intros Hb v Hv.
  - replace v with 0 by (simpl in Hv; lia). by rewrite H0.
  - rewrite Nat2Z.inj_succ, <- Z.add_1_r in *.
    destruct (low_bits_split v (Z.of_nat k)) as [E Hlo]; [lia|done|].
    rewrite E, Hf. apply HQ; [apply IH; [intros; apply Hb; lia|done]|].
    destruct (Z.testbit v (Z.of_nat k)); [apply Hb; lia|by rewrite H0].
Qed.

(** ** Maps given by their values on single bits *)

Fixpoint xor_bits (columns : list Z) (v : Z) : Z :=
  match columns with
  | [] => 0
  | c :: columns => Z.lxor (if Z.odd v then c else 0) (xor_bits columns (Z.shiftr v 1))
  end.

Lemma xor_bits_linear columns : linear (xor_bits columns).
Proof.
  induction columns as [|c columns IH]; intros a b; [done|]. simpl.
  rewrite Z.shiftr_lxor, IH, <- !Z.bit0_odd, Z.lxor_spec.
  rewrite <- lxor_swap. f_equal.
  destruct (Z.testbit a 0), (Z.testbit b 0); simpl; by rewrite ?Z.lxor_nilpotent, ?Z.lxor_0_r.
Qed.

(** Elimination: rows are values with the words they are images of; the result
    lists, for each of the bits, the word whose image is that bit alone. *)
Fixpoint pick_row (b : Z) (rows : list (Z * Z)) : option ((Z * Z) * list (Z * Z)) :=
  match rows with
  | [] => None
  | r :: rows => if Z.testbit r.1 b then Some (r, rows)
                 else match pick_row b rows with Some (p, rest) => Some (p, r :: rest) | None => None end
  end.
Fixpoint eliminate (bits : list Z) (rows done : list (Z * Z)) : list (Z * Z) :=
  match bits with
  | [] => done
  | b :: bits =>
      match pick_row b rows with
      | None => []
      | Some (p, rest) =>
          let clear r := if Z.testbit r.1 b then (Z.lxor r.1 p.1, Z.lxor r.2 p.2) else r in
          eliminate bits (map clear rest) (map clear done ++ [p])
      end
  end.
Definition inverse_columns (f : Z -> Z) (k lo : nat) : list Z :=
  map snd (eliminate (seqZ (Z.of_nat lo) (Z.of_nat k))
                     (map (fun i => (f (2 ^ i), 2 ^ i)) (seqZ 0 (Z.of_nat k))) []).

(** [f] maps the words of [k] bits one to one onto the multiples of [2 ^ lo]
    below [2 ^ (k + lo)]. *)
Definition bijective_on (f : Z -> Z) (k lo : nat) : Prop :=
  (forall v, 0 <= v < 2 ^ Z.of_nat k ->
     0 <= f v < 2 ^ Z.of_nat (k + lo) /\ f v mod 2 ^ Z.of_nat lo = 0)
  /\ (forall v w, 0 <= v < 2 ^ Z.of_nat k -> 0 <= w < 2 ^ Z.of_nat k -> f v = f w -> v = w)
  /\ (forall o, 0 <= o < 2 ^ Z.of_nat (k + lo) -> o mod 2 ^ Z.of_nat lo = 0 ->
        exists v, 0 <= v < 2 ^ Z.of_nat k /\ f v = o).

(** It is enough to test single bits. *)
Definition bijection_check (f : Z -> Z) (k lo : nat) : bool :=
  let columns := inverse_columns f k lo in
  let g v := xor_bits columns (Z.shiftr v (Z.of_nat lo)) in
  forallb (fun i => let v := f (2 ^ i) in
             (0 <=? v) && (v <? 2 ^ Z.of_nat (k + lo)) && (Z.land v (Z.ones (Z.of_nat lo)) =? 0)
             && (g v =? 2 ^ i) && (f (g (2 ^ (i + Z.of_nat lo))) =? 2 ^ (i + Z.of_nat lo))
             && (0 <=? g (2 ^ (i + Z.of_nat lo))) && (g (2 ^ (i + Z.of_nat lo)) <? 2 ^ Z.of_nat k))
          (seqZ 0 (Z.of_nat k)).

Lemma lxor_below a b k : 0 <= k -> 0 <= a < 2 ^ k -> 0 <= b < 2 ^ k -> 0 <= Z.lxor a b < 2 ^ k.
Proof.
  intros Hk Ha Hb. split; [by apply Z.lxor_nonneg; lia|].
  destruct (decide (Z.lxor a b = 0)) as [->|Hn]; [apply Z.pow_pos_nonneg; lia|].
  pose proof (proj2 (Z.lxor_nonneg a b) ltac:(lia)).
  apply Z.log2_lt_pow2; [lia|]. apply Z.le_lt_trans with (1 := Z.log2_lxor a b ltac:(lia) ltac:(lia)).
  assert (Hl : forall c, 0 <= c < 2 ^ k -> Z.lxor a b <> 0 -> Z.log2 c < k \/ k = 0).
  { intros c Hc _. destruct (decide (c = 0)) as [->|]; [change (Z.log2 0) with 0; lia|].
    left. apply Z.log2_lt_pow2; lia. }
  destruct (Hl a Ha Hn) as [| ->]; [destruct (Hl b Hb Hn) as [| ->]; [lia|]|];
    assert (a = 0) as -> by (simpl in *; lia); assert (b = 0) as -> by (simpl in *; lia); done.
Qed.

Lemma linear_shiftr f s : linear f -> linear (fun v => f (Z.shiftr v s)).
Proof. intros Hf a b. by rewrite Z.shiftr_lxor, Hf. Qed.

Lemma linear_compose f g : linear f -> linear g -> linear (fun v => f (g v)).
Proof. intros Hf Hg a b. by rewrite Hg, Hf. Qed.

Lemma linear_bijection f (k lo : nat) :
  linear f -> bijection_check f k lo = true -> bijective_on f k lo.
Proof.
  intros Hf Hc. unfold bijection_check in Hc. cbn zeta in Hc.
  set (columns := inverse_columns f k lo) in *.
  set (g := fun v => xor_bits columns (Z.shiftr v (Z.of_nat lo))).
  assert (Hg : linear g) by (apply linear_shiftr, xor_bits_linear).
  rewrite forallb_forall in Hc.
  assert (Hi : forall i, 0 <= i < Z.of_nat k ->
    (0 <= f (2 ^ i) < 2 ^ Z.of_nat (k + lo) /\ Z.land (f (2 ^ i)) (Z.ones (Z.of_nat lo)) = 0)
    /\ g (f (2 ^ i)) = 2 ^ i /\ f (g (2 ^ (i + Z.of_nat lo))) = 2 ^ (i + Z.of_nat lo)
    /\ 0 <= g (2 ^ (i + Z.of_nat lo)) < 2 ^ Z.of_nat k).
  { intros i Hin. specialize (Hc i). rewrite <- list_elem_of_In, elem_of_seqZ in Hc.
    specialize (Hc ltac:(lia)).
    rewrite !andb_true_iff, !Z.leb_le, !Z.ltb_lt, !Z.eqb_eq in Hc. fold (g (f (2 ^ i))) in Hc.
    unfold g. intuition. }
  clear Hc. assert (Hlo : 0 < 2 ^ Z.of_nat lo) by (apply Z.pow_pos_nonneg; lia).
  assert (Hgf : forall v, 0 <= v < 2 ^ Z.of_nat k -> g (f v) = v).
  { apply (linear_ext (fun v => g (f v)) (fun v => v)); [by apply linear_compose|done|].
    intros i Hin. apply (Hi i Hin). }
  assert (Hshift : forall u, 0 <= u < 2 ^ Z.of_nat k ->
    f (g (Z.shiftl u (Z.of_nat lo))) = Z.shiftl u (Z.of_nat lo)
    /\ 0 <= g (Z.shiftl u (Z.of_nat lo)) < 2 ^ Z.of_nat k).
  { assert (Hls : linear (fun u => Z.shiftl u (Z.of_nat lo))) by (intros a b; apply Z.shiftl_lxor).
    assert (Hp : forall i, 0 <= i -> Z.shiftl (2 ^ i) (Z.of_nat lo) = 2 ^ (i + Z.of_nat lo)).
    { intros i Hin. rewrite Z.shiftl_mul_pow2, Z.pow_add_r by lia. done. }
    intros u Hu. split.
    - revert u Hu. apply (linear_ext (fun u => f (g (Z.shiftl u (Z.of_nat lo)))) _ k); [|done|].
      { by apply linear_compose, linear_compose. }
      intros i Hin. rewrite Hp by lia. apply (Hi i Hin).
    - revert u Hu. apply (linear_closed (fun u => g (Z.shiftl u (Z.of_nat lo)))
                            (fun v => 0 <= v < 2 ^ Z.of_nat k)).
      + by apply linear_compose.
      + split; [lia|apply Z.pow_pos_nonneg; lia].
      + intros a b. apply lxor_below. lia.
      + intros i Hin. rewrite Hp by lia. apply (Hi i Hin). }
  split; [|split].
  - intros v Hv. rewrite <- Z.land_ones by lia.
    revert v Hv. apply (linear_closed f (fun v => 0 <= v < 2 ^ Z.of_nat (k + lo)
       /\ Z.land v (Z.ones (Z.of_nat lo)) = 0)); [done|..].
    + split; [split; [lia|apply Z.pow_pos_nonneg; lia]|done].
    + intros a b [Ha Ha'] [Hb Hb']. split; [by apply lxor_below; [lia|..]|].
      by rewrite land_lxor_l, Ha', Hb'.
    + intros i Hin. apply (Hi i Hin).
  - intros v w Hv Hw E. by rewrite <- (Hgf v Hv), <- (Hgf w Hw), E.
  - intros o Ho Hm. exists (g o).
    assert (E : o = Z.shiftl (o / 2 ^ Z.of_nat lo) (Z.of_nat lo)).
    { rewrite Z.shiftl_mul_pow2 by lia. pose proof (Z.div_mod o (2 ^ Z.of_nat lo)). lia. }
    assert (Hu : 0 <= o / 2 ^ Z.of_nat lo < 2 ^ Z.of_nat k).
    { split; [apply Z.div_pos; lia|]. apply Z.div_lt_upper_bound; [done|].
      rewrite <- Z.pow_add_r by lia. replace (Z.of_nat lo + Z.of_nat k) with (Z.of_nat (k + lo)) by lia. lia. }
    rewrite E. split; apply Hshift; done.
Qed.
