(* ===== verification/Formats.v ===== *)
(** Image formats, tiling modes and image types of the guest GPU
    ([src/gpu/format.cpp], and the enumerations of [src/gpu/definitions.h] it
    uses).  Formats travel through the layout code as raw 32-bit values. *)
From S2P Require Import Prelude Words32.

(** ** Enumerations *)

Inductive BufferFormat :=
| kInvalid | k8UNorm | k8SNorm | k8UScaled | k8SScaled | k8UInt | k8SInt | k16UNorm
| k16SNorm | k16UScaled | k16SScaled | k16UInt | k16SInt | k16Float | k8_8UNorm | k8_8SNorm
| k8_8UScaled | k8_8SScaled | k8_8UInt | k8_8SInt | k32UInt | k32SInt | k32Float
| k16_16UNorm | k16_16SNorm | k16_16UScaled | k16_16SScaled | k16_16UInt | k16_16SInt
| k16_16Float | k11_11_10UNorm | k11_11_10SNorm | k11_11_10UScaled | k11_11_10SScaled
| k11_11_10UInt | k11_11_10SInt | k11_11_10Float | k10_11_11UNorm | k10_11_11SNorm
| k10_11_11UScaled | k10_11_11SScaled | k10_11_11UInt | k10_11_11SInt | k10_11_11Float
| k2_10_10_10UNorm | k2_10_10_10SNorm | k2_10_10_10UScaled | k2_10_10_10SScaled
| k2_10_10_10UInt | k2_10_10_10SInt | k10_10_10_2UNorm | k10_10_10_2SNorm
| k10_10_10_2UScaled | k10_10_10_2SScaled | k10_10_10_2UInt | k10_10_10_2SInt
| k8_8_8_8UNorm | k8_8_8_8SNorm | k8_8_8_8UScaled | k8_8_8_8SScaled | k8_8_8_8UInt
| k8_8_8_8SInt | k32_32UInt | k32_32SInt | k32_32Float | k16_16_16_16UNorm
| k16_16_16_16SNorm | k16_16_16_16UScaled | k16_16_16_16SScaled | k16_16_16_16UInt
| k16_16_16_16SInt | k16_16_16_16Float | k32_32_32UInt | k32_32_32SInt | k32_32_32Float
| k32_32_32_32UInt | k32_32_32_32SInt | k32_32_32_32Float | k8Srgb | k8_8Srgb
| k8_8_8_8Srgb | k9_9_9_5Float | k5_6_5UNorm | k5_5_5_1UNorm | k4_4_4_4UNorm
| kFmask8_S4_F4 | kBc1UNorm | kBc1Srgb | kBc2UNorm | kBc2Srgb | kBc3UNorm | kBc3Srgb
| kBc4UNorm | kBc4SNorm | kBc5UNorm | kBc5SNorm | kBc6UFloat | kBc6SFloat | kBc7UNorm
| kBc7Srgb.

(** [GpuEnumValue] on [BufferFormat]. *)
Definition BufferFormatValue (v : BufferFormat) : Z :=
  match v with
  | kInvalid => 0 | k8UNorm => 1 | k8SNorm => 2 | k8UScaled => 3 | k8SScaled => 4
  | k8UInt => 5 | k8SInt => 6 | k16UNorm => 7 | k16SNorm => 8 | k16UScaled => 9
  | k16SScaled => 10 | k16UInt => 11 | k16SInt => 12 | k16Float => 13 | k8_8UNorm => 14
  | k8_8SNorm => 15 | k8_8UScaled => 16 | k8_8SScaled => 17 | k8_8UInt => 18
  | k8_8SInt => 19 | k32UInt => 20 | k32SInt => 21 | k32Float => 22 | k16_16UNorm => 23
  | k16_16SNorm => 24 | k16_16UScaled => 25 | k16_16SScaled => 26 | k16_16UInt => 27
  | k16_16SInt => 28 | k16_16Float => 29 | k11_11_10UNorm => 30 | k11_11_10SNorm => 31
  | k11_11_10UScaled => 32 | k11_11_10SScaled => 33 | k11_11_10UInt => 34
  | k11_11_10SInt => 35 | k11_11_10Float => 36 | k10_11_11UNorm => 37
  | k10_11_11SNorm => 38 | k10_11_11UScaled => 39 | k10_11_11SScaled => 40
  | k10_11_11UInt => 41 | k10_11_11SInt => 42 | k10_11_11Float => 43
  | k2_10_10_10UNorm => 44 | k2_10_10_10SNorm => 45 | k2_10_10_10UScaled => 46
  | k2_10_10_10SScaled => 47 | k2_10_10_10UInt => 48 | k2_10_10_10SInt => 49
  | k10_10_10_2UNorm => 50 | k10_10_10_2SNorm => 51 | k10_10_10_2UScaled => 52
  | k10_10_10_2SScaled => 53 | k10_10_10_2UInt => 54 | k10_10_10_2SInt => 55
  | k8_8_8_8UNorm => 56 | k8_8_8_8SNorm => 57 | k8_8_8_8UScaled => 58
  | k8_8_8_8SScaled => 59 | k8_8_8_8UInt => 60 | k8_8_8_8SInt => 61 | k32_32UInt => 62
  | k32_32SInt => 63 | k32_32Float => 64 | k16_16_16_16UNorm => 65
  | k16_16_16_16SNorm => 66 | k16_16_16_16UScaled => 67 | k16_16_16_16SScaled => 68
  | k16_16_16_16UInt => 69 | k16_16_16_16SInt => 70 | k16_16_16_16Float => 71
  | k32_32_32UInt => 72 | k32_32_32SInt => 73 | k32_32_32Float => 74
  | k32_32_32_32UInt => 75 | k32_32_32_32SInt => 76 | k32_32_32_32Float => 77
  | k8Srgb => 128 | k8_8Srgb => 129 | k8_8_8_8Srgb => 130 | k9_9_9_5Float => 132
  | k5_6_5UNorm => 133 | k5_5_5_1UNorm => 134 | k4_4_4_4UNorm => 136 | kFmask8_S4_F4 => 161
  | kBc1UNorm => 169 | kBc1Srgb => 170 | kBc2UNorm => 171 | kBc2Srgb => 172
  | kBc3UNorm => 173 | kBc3Srgb => 174 | kBc4UNorm => 175 | kBc4SNorm => 176
  | kBc5UNorm => 177 | kBc5SNorm => 178 | kBc6UFloat => 179 | kBc6SFloat => 180
  | kBc7UNorm => 181 | kBc7Srgb => 182
  end.

Inductive TileMode :=
| kLinear | kStandard256B | kStandard4KB | kStandard64KB | kPrt | kDepth | kRenderTarget.

(** [GpuEnumValue] on [TileMode]. *)
Definition TileModeValue (v : TileMode) : Z :=
  match v with
  | kLinear => 0 | kStandard256B => 1 | kStandard4KB => 5 | kStandard64KB => 9 | kPrt => 17
  | kDepth => 24 | kRenderTarget => 27
  end.

Inductive ImageType :=
| kColor1D | kColor2D | kColor3D | kCube | kColor1DArray | kColor2DArray | kColor2DMsaa
| kColor2DMsaaArray.

(** [GpuEnumValue] on [ImageType]. *)
Definition ImageTypeValue (v : ImageType) : Z :=
  match v with
  | kColor1D => 8 | kColor2D => 9 | kColor3D => 10 | kCube => 11 | kColor1DArray => 12
  | kColor2DArray => 13 | kColor2DMsaa => 14 | kColor2DMsaaArray => 15
  end.

(** ** The table of formats *)

Record FormatInfo := mkFormatInfo {
  fi_format : Z;
  fi_bytes_per_element : Z;
  fi_block_compressed_bytes_per_block : Z;
  fi_render_target_bytes_per_element : Z;
  fi_supported_sampled_texture_format : bool;
  fi_unsigned_integer_texture_format : bool }.

Definition kFormatInfo : list FormatInfo :=
  [ mkFormatInfo (BufferFormatValue k8UNorm) 1 0 1 true false;
    mkFormatInfo (BufferFormatValue k8SNorm) 0 0 1 false false;
    mkFormatInfo (BufferFormatValue k8UInt) 1 0 1 true true;
    mkFormatInfo (BufferFormatValue k16UNorm) 2 0 2 true false;
    mkFormatInfo (BufferFormatValue k16SNorm) 2 0 2 true false;
    mkFormatInfo (BufferFormatValue k16UInt) 2 0 2 true true;
    mkFormatInfo (BufferFormatValue k16SInt) 2 0 2 false false;
    mkFormatInfo (BufferFormatValue k16Float) 2 0 2 true false;
    mkFormatInfo (BufferFormatValue k8_8UNorm) 2 0 2 true false;
    mkFormatInfo (BufferFormatValue k8_8SNorm) 2 0 2 true false;
    mkFormatInfo (BufferFormatValue k8_8UInt) 2 0 2 true true;
    mkFormatInfo (BufferFormatValue k8_8SInt) 2 0 2 false false;
    mkFormatInfo (BufferFormatValue k32UInt) 4 0 4 true true;
    mkFormatInfo (BufferFormatValue k32SInt) 4 0 4 false false;
    mkFormatInfo (BufferFormatValue k32Float) 4 0 4 true false;
    mkFormatInfo (BufferFormatValue k16_16UNorm) 4 0 4 true false;
    mkFormatInfo (BufferFormatValue k16_16SNorm) 4 0 4 true false;
    mkFormatInfo (BufferFormatValue k16_16UInt) 4 0 4 true true;
    mkFormatInfo (BufferFormatValue k16_16SInt) 4 0 4 false false;
    mkFormatInfo (BufferFormatValue k16_16Float) 4 0 4 true false;
    mkFormatInfo (BufferFormatValue k11_11_10Float) 4 0 4 true false;
    mkFormatInfo (BufferFormatValue k10_10_10_2UNorm) 4 0 4 true false;
    mkFormatInfo (BufferFormatValue k10_10_10_2UInt) 4 0 4 true true;
    mkFormatInfo (BufferFormatValue k8_8_8_8UNorm) 4 0 4 true false;
    mkFormatInfo (BufferFormatValue k8_8_8_8SNorm) 4 0 4 true false;
    mkFormatInfo (BufferFormatValue k8_8_8_8UInt) 4 0 4 true true;
    mkFormatInfo (BufferFormatValue k8_8_8_8SInt) 4 0 4 false false;
    mkFormatInfo (BufferFormatValue k32_32UInt) 8 0 8 true true;
    mkFormatInfo (BufferFormatValue k32_32SInt) 8 0 8 false false;
    mkFormatInfo (BufferFormatValue k32_32Float) 8 0 8 true false;
    mkFormatInfo (BufferFormatValue k16_16_16_16UNorm) 8 0 8 true false;
    mkFormatInfo (BufferFormatValue k16_16_16_16SNorm) 8 0 8 true false;
    mkFormatInfo (BufferFormatValue k16_16_16_16UInt) 8 0 8 true true;
    mkFormatInfo (BufferFormatValue k16_16_16_16SInt) 8 0 8 false false;
    mkFormatInfo (BufferFormatValue k16_16_16_16Float) 8 0 8 true false;
    mkFormatInfo (BufferFormatValue k32_32_32UInt) 12 0 12 true true;
    mkFormatInfo (BufferFormatValue k32_32_32SInt) 12 0 12 false false;
    mkFormatInfo (BufferFormatValue k32_32_32Float) 12 0 12 true false;
    mkFormatInfo (BufferFormatValue k32_32_32_32UInt) 16 0 16 true true;
    mkFormatInfo (BufferFormatValue k32_32_32_32SInt) 16 0 16 false false;
    mkFormatInfo (BufferFormatValue k32_32_32_32Float) 16 0 16 true false;
    mkFormatInfo (BufferFormatValue k8Srgb) 1 0 0 true false;
    mkFormatInfo (BufferFormatValue k8_8Srgb) 2 0 0 true false;
    mkFormatInfo (BufferFormatValue k8_8_8_8Srgb) 4 0 4 true false;
    mkFormatInfo (BufferFormatValue k9_9_9_5Float) 4 0 0 true false;
    mkFormatInfo (BufferFormatValue k5_6_5UNorm) 2 0 2 true false;
    mkFormatInfo (BufferFormatValue k5_5_5_1UNorm) 2 0 2 true false;
    mkFormatInfo (BufferFormatValue k4_4_4_4UNorm) 2 0 2 true false;
    mkFormatInfo (BufferFormatValue kFmask8_S4_F4) 1 0 1 true false;
    mkFormatInfo (BufferFormatValue kBc1UNorm) 0 8 0 true false;
    mkFormatInfo (BufferFormatValue kBc1Srgb) 0 8 0 true false;
    mkFormatInfo (BufferFormatValue kBc2UNorm) 0 16 0 true false;
    mkFormatInfo (BufferFormatValue kBc2Srgb) 0 16 0 true false;
    mkFormatInfo (BufferFormatValue kBc3UNorm) 0 16 0 true false;
    mkFormatInfo (BufferFormatValue kBc3Srgb) 0 16 0 true false;
    mkFormatInfo (BufferFormatValue kBc4UNorm) 0 8 0 true false;
    mkFormatInfo (BufferFormatValue kBc4SNorm) 0 8 0 true false;
    mkFormatInfo (BufferFormatValue kBc5UNorm) 0 16 0 true false;
    mkFormatInfo (BufferFormatValue kBc5SNorm) 0 16 0 true false;
    mkFormatInfo (BufferFormatValue kBc6UFloat) 0 16 0 true false;
    mkFormatInfo (BufferFormatValue kBc6SFloat) 0 16 0 true false;
    mkFormatInfo (BufferFormatValue kBc7UNorm) 0 16 0 true false;
    mkFormatInfo (BufferFormatValue kBc7Srgb) 0 16 0 true false ].

(** The array of pointers into the table, indexed by the raw format; a later
    entry of a format replaces an earlier one. *)
Definition kMaxFormat : Z := BufferFormatValue kBc7Srgb.
Definition MakeFormatInfoLookup : list (option FormatInfo) :=
  foldl (fun lookup info => <[Z.to_nat (fi_format info) := Some info]> lookup)
        (replicate (Z.to_nat (kMaxFormat + 1)) None) kFormatInfo.
Definition kFormatInfoLookup : list (option FormatInfo) := Eval vm_compute in MakeFormatInfoLookup.

Definition FindFormatInfo (format : Z) : option FormatInfo :=
  if format <? Z.of_nat (length kFormatInfoLookup) then mjoin (kFormatInfoLookup !! Z.to_nat format)
  else None.

(** ** Queries *)

Definition NumBytesPerElement (format : Z) : Z :=
  match FindFormatInfo format with Some info => fi_bytes_per_element info | None => 0 end.
Definition BlockCompressedBytesPerBlock (format : Z) : Z :=
  match FindFormatInfo format with Some info => fi_block_compressed_bytes_per_block info | None => 0 end.
Definition RenderTargetBytesPerElement (format : Z) : Z :=
  match FindFormatInfo format with Some info => fi_render_target_bytes_per_element info | None => 0 end.
Definition IsSupportedTextureFormat (format : Z) : bool :=
  match FindFormatInfo format with Some info => fi_supported_sampled_texture_format info | None => false end.
Definition IsUintTextureFormat (format : Z) : bool :=
  match FindFormatInfo format with Some info => fi_unsigned_integer_texture_format info | None => false end.
Definition IsFmaskTextureFormat (format : Z) : bool := format =? BufferFormatValue kFmask8_S4_F4.

(** sRGB spellings share the storage identifier of their UNORM spelling. *)
Definition StorageAliasFormat (format : Z) : Z :=
  if format =? BufferFormatValue k8Srgb then BufferFormatValue k8UNorm
  else if format =? BufferFormatValue k8_8Srgb then BufferFormatValue k8_8UNorm
  else if format =? BufferFormatValue k8_8_8_8Srgb then BufferFormatValue k8_8_8_8UNorm
  else if format =? BufferFormatValue kBc1Srgb then BufferFormatValue kBc1UNorm
  else if format =? BufferFormatValue kBc2Srgb then BufferFormatValue kBc2UNorm
  else if format =? BufferFormatValue kBc3Srgb then BufferFormatValue kBc3UNorm
  else if format =? BufferFormatValue kBc7Srgb then BufferFormatValue kBc7UNorm
  else match FindFormatInfo format with Some _ => format | None => 0 end.

(** ** What the table says *)

Lemma FindFormatInfo_forall (p : FormatInfo -> bool) format info :
  forallb (fun o => match o with Some i => p i | None => true end) kFormatInfoLookup = true ->
  FindFormatInfo format = Some info -> p info = true.
Proof.
  intros Hall. unfold FindFormatInfo. split_match; [|done].
  destruct (kFormatInfoLookup !! Z.to_nat format) as [o|] eqn:El; [|done]. simpl. intros ->.
  rewrite forallb_forall in Hall. exact (Hall _ (proj1 (list_elem_of_In _ _) (list_elem_of_lookup_2 _ _ _ El))).
Qed.

(** An element has a size of at most 16 bytes; a format is compressed in blocks
    of 8 or 16 bytes or has elements, never both. *)
Lemma format_bytes format :
  let e := NumBytesPerElement format in let b := BlockCompressedBytesPerBlock format in
  (e = 0 \/ e = 1 \/ e = 2 \/ e = 4 \/ e = 8 \/ e = 12 \/ e = 16)
  /\ (b = 0 \/ b = 8 \/ b = 16) /\ (e = 0 \/ b = 0).
Proof.
  cbn zeta. unfold NumBytesPerElement, BlockCompressedBytesPerBlock.
  destruct (FindFormatInfo format) as [info|] eqn:Ef; [|lia].
  apply (FindFormatInfo_forall (fun i => let e := fi_bytes_per_element i in
     let b := fi_block_compressed_bytes_per_block i in
     existsb (Z.eqb e) [0; 1; 2; 4; 8; 12; 16] && existsb (Z.eqb b) [0; 8; 16]
     && ((e =? 0) || (b =? 0)))) in Ef; [|by vm_compute]. simpl in Ef.
  rewrite !andb_true_iff, !orb_true_iff, !Z.eqb_eq in Ef.
  repeat match goal with H : _ /\ _ |- _ => destruct H end.
  assert (false <> true) by done. intuition (subst; auto; lia).
Qed.
