(* ===== verification/TileBlocks.v ===== *)
(** Blocks of tiled images ([src/gpu/tile_layout.cpp], from block sizes to
    addresses inside a block).

    A tiled image is cut into blocks; inside a block the offset of an element is
    an exclusive or of shifted and masked coordinates.  [TileGetBlockLayout]
    gives the size of a block, [TileGetBlockOffset] the offset of an element in
    its block, [TileGetBlockXor] the value that the block's own coordinates
    contribute. *)
From S2P Require Import Prelude Words32 Formats.

(** ** Data *)

Inductive TileBlockFamily :=
| Standard256B | Standard4KB | Standard4KB3D | Standard64KB | Standard64KB3D
| Prt64KB | Prt64KB3D | RenderTarget64KB | Depth64KB | Count.

#[global] Instance TileBlockFamily_eq_dec : EqDecision TileBlockFamily.
Proof. solve_decision. Defined.

Record TileBlockLayout := mkTileBlockLayout {
  bl_family : TileBlockFamily;
  bl_bytes_per_element : Z;
  bl_block_size : Z;
  bl_block_width : Z;
  bl_block_height : Z;
  bl_block_depth : Z }.

(** ** Sizes of blocks *)

Definition AlignUp (value alignment : Z) : Z :=
  Z.land (sub32 (value + alignment)%u32 1) (not32 (alignment - 1)%u32).

Definition ShiftCeil (value shift : Z) : Z :=
  to_u32 (Z.shiftr (sub64 (value + Z.shiftl 1 shift)%u64 1) shift).

(** Block dimensions of depth and render-target tiles. *)
Definition Gen5Thin64KBBlockSizeFromElementBytes (bytes_per_element : Z) : tried (Z * Z) :=
  if bytes_per_element =? 1 then gives (256, 256)
  else if bytes_per_element =? 2 then gives (256, 128)
  else if bytes_per_element =? 4 then gives (128, 128)
  else if bytes_per_element =? 8 then gives (128, 64)
  else if bytes_per_element =? 16 then gives (64, 64)
  else refused.

(** Row zero is the thin layout; rows 1 to 3 are 2x, 4x and 8x blocks. *)
Definition Gen5Msaa_LOG2_BLOCK : list (list (Z * Z)) :=
  [ [(8, 8); (8, 7); (7, 7); (7, 6); (6, 6)];
    [(7, 8); (7, 7); (6, 7); (6, 6); (5, 6)];
    [(7, 7); (7, 6); (6, 6); (6, 5); (5, 5)];
    [(6, 7); (6, 6); (5, 6); (5, 5); (4, 5)] ].

Definition Gen5Msaa64KBBlockSizeFromElementBytes (bytes_per_element num_fragments_log2 : Z)
    : tried (Z * Z) :=
  if num_fragments_log2 =? 0 then Gen5Thin64KBBlockSizeFromElementBytes bytes_per_element
  else if (num_fragments_log2 >? 3) || negb (has_single_bit bytes_per_element)
          || (bytes_per_element >? 16)
  then refused
  else
    row ← at_index Gen5Msaa_LOG2_BLOCK num_fragments_log2;
    entry ← at_index row (countr_zero bytes_per_element);
    gives ((1 <<< entry.1)%u32, (1 <<< entry.2)%u32).

(** [LOG2_DIMS] of the thick families. *)
Definition thick64_LOG2_DIMS : list (Z * Z * Z) :=
  [(6, 5, 5); (5, 5, 5); (5, 5, 4); (5, 4, 4); (4, 4, 4)].
Definition thick4_LOG2_DIMS : list (Z * Z * Z) :=
  [(4, 4, 4); (3, 4, 4); (3, 4, 3); (3, 3, 3); (2, 3, 3)].

(** The [switch] on the family: block size, width, height and depth. *)
Definition family_block (family : TileBlockFamily) (bytes_per_element : Z)
    : tried (Z * Z * Z * Z) :=
  let thin :=
    '(w, h) ← Gen5Thin64KBBlockSizeFromElementBytes bytes_per_element; gives (65536, w, h, 1) in
  let thick size dims :=
    '(w, h, d) ← at_index dims (countr_zero bytes_per_element);
    gives (size, (1 <<< w)%u32, (1 <<< h)%u32, (1 <<< d)%u32) in
  match family with
  | Standard256B =>
      let w := if bytes_per_element <=? 2 then 16 else if bytes_per_element <=? 8 then 8 else 4 in
      gives (256, w, 256 `div` (w * bytes_per_element)%u32, 1)
  | Standard4KB =>
      let w := if bytes_per_element <=? 2 then 64 else if bytes_per_element <=? 8 then 32 else 16 in
      gives (4096, w, 4096 `div` (w * bytes_per_element)%u32, 1)
  | Standard4KB3D => thick 4096 thick4_LOG2_DIMS
  | Standard64KB | Prt64KB => thin
  | Standard64KB3D | Prt64KB3D => thick 65536 thick64_LOG2_DIMS
  | RenderTarget64KB => thin
  | Depth64KB => if bytes_per_element >? 8 then refused else thin
  | Count => refused
  end.

Definition TileGetBlockLayout (family : TileBlockFamily) (bytes_per_element : Z)
    : tried TileBlockLayout :=
  if negb (has_single_bit bytes_per_element) || (bytes_per_element >? 16) then refused
  else
    '(size, w, h, d) ← family_block family bytes_per_element;
    if mul64 (mul64 (mul64 w h) d) bytes_per_element =? size
    then gives (mkTileBlockLayout family bytes_per_element size w h d)
    else refused.

(** ** Offsets inside a block *)

Definition Gen5Standard4KBOffsetInBlock (x y bytes_per_element : Z) : Z :=
  (
  if bytes_per_element =? 1 then
    0 ^^ ((y <<< 4) & 0x1f0) ^^ ((y <<< 5) & 0x400) ^^ (x & 0x00f) ^^ ((x <<< 5) & 0x200)
    ^^ ((x <<< 6) & 0x800)
  else if bytes_per_element =? 2 then
    0 ^^ ((y <<< 4) & 0x070) ^^ ((y <<< 5) & 0x100) ^^ ((y <<< 6) & 0x400)
    ^^ ((x <<< 1) & 0x00e) ^^ ((x <<< 4) & 0x080) ^^ ((x <<< 5) & 0x200)
    ^^ ((x <<< 6) & 0x800)
  else if bytes_per_element =? 4 then
    0 ^^ ((y <<< 4) & 0x070) ^^ ((y <<< 5) & 0x100) ^^ ((y <<< 6) & 0x400)
    ^^ ((x <<< 2) & 0x00c) ^^ ((x <<< 5) & 0x080) ^^ ((x <<< 6) & 0x200)
    ^^ ((x <<< 7) & 0x800)
  else if bytes_per_element =? 8 then
    0 ^^ ((y <<< 4) & 0x030) ^^ ((y <<< 6) & 0x100) ^^ ((y <<< 7) & 0x400)
    ^^ ((x <<< 3) & 0x008) ^^ ((x <<< 5) & 0x0c0) ^^ ((x <<< 6) & 0x200)
    ^^ ((x <<< 7) & 0x800)
  else if bytes_per_element =? 16 then
    0 ^^ ((y <<< 4) & 0x030) ^^ ((y <<< 6) & 0x100) ^^ ((y <<< 7) & 0x400)
    ^^ ((x <<< 6) & 0x0c0) ^^ ((x <<< 7) & 0x200) ^^ ((x <<< 8) & 0x800)
  else 0)%u32.

Definition Gen5Standard4KBVolumeOffsetInBlock (x y z bytes_per_element : Z) : Z :=
  (
  if bytes_per_element =? 1 then
    0 ^^ (x & 0x3) ^^ ((x <<< 4) & 0x40) ^^ ((x <<< 6) & 0x200) ^^ ((y <<< 3) & 0x8)
    ^^ ((y <<< 4) & 0x20) ^^ ((y <<< 6) & 0x100) ^^ ((y <<< 8) & 0x800)
    ^^ ((z <<< 2) & 0x4) ^^ ((z <<< 3) & 0x10) ^^ ((z <<< 5) & 0x80)
    ^^ ((z <<< 7) & 0x400)
  else if bytes_per_element =? 2 then
    0 ^^ ((x <<< 1) & 0x2) ^^ ((x <<< 5) & 0x40) ^^ ((x <<< 7) & 0x200)
    ^^ ((y <<< 3) & 0x8) ^^ ((y <<< 4) & 0x20) ^^ ((y <<< 6) & 0x100)
    ^^ ((y <<< 8) & 0x800) ^^ ((z <<< 2) & 0x4) ^^ ((z <<< 3) & 0x10)
    ^^ ((z <<< 5) & 0x80) ^^ ((z <<< 7) & 0x400)
  else if bytes_per_element =? 4 then
    0 ^^ ((x <<< 2) & 0x4) ^^ ((x <<< 5) & 0x40) ^^ ((x <<< 7) & 0x200)
    ^^ ((y <<< 3) & 0x8) ^^ ((y <<< 4) & 0x20) ^^ ((y <<< 6) & 0x100)
    ^^ ((y <<< 8) & 0x800) ^^ ((z <<< 4) & 0x10) ^^ ((z <<< 6) & 0x80)
    ^^ ((z <<< 8) & 0x400)
  else if bytes_per_element =? 8 then
    0 ^^ ((x <<< 3) & 0x8) ^^ ((x <<< 5) & 0x40) ^^ ((x <<< 7) & 0x200)
    ^^ ((y <<< 5) & 0x20) ^^ ((y <<< 7) & 0x100) ^^ ((y <<< 9) & 0x800)
    ^^ ((z <<< 4) & 0x10) ^^ ((z <<< 6) & 0x80) ^^ ((z <<< 8) & 0x400)
  else if bytes_per_element =? 16 then
    0 ^^ ((x <<< 6) & 0x40) ^^ ((x <<< 8) & 0x200) ^^ ((y <<< 5) & 0x20)
    ^^ ((y <<< 7) & 0x100) ^^ ((y <<< 9) & 0x800) ^^ ((z <<< 4) & 0x10)
    ^^ ((z <<< 6) & 0x80) ^^ ((z <<< 8) & 0x400)
  else 0)%u32.

Definition Bit (value source destination : Z) : Z :=
  (((value >>> source) & 1) <<< destination)%u32.

Definition thick64_SOURCES : list (Z * Z * Z * Z) :=
  [(4, 4, 4, 5); (3, 4, 4, 4); (3, 3, 4, 4); (3, 3, 3, 4); (2, 3, 3, 3)].

Definition Gen5Standard64KBVolumeOffsetInBlock (x y z bytes_per_element : Z) : tried Z :=
  '(b0, b1, b2, b3) ← at_index thick64_SOURCES (countr_zero bytes_per_element);
  gives (Gen5Standard4KBVolumeOffsetInBlock x y z bytes_per_element
         ^^ Bit x b0 12 ^^ Bit z b1 13 ^^ Bit y b2 14 ^^ Bit x b3 15)%u32.

Definition Gen5Standard256BOffsetInBlock (x y bytes_per_element : Z) : Z :=
  (Gen5Standard4KBOffsetInBlock x y bytes_per_element & 0xff)%u32.

(** The word tables of the 64 KiB families, built for every coordinate of a
    block. *)
(** [Standard64KB8Tables]. *)
Definition Standard64KB8_x_words : list Z :=
  map (fun i => ((0 ^^ (i & 0x000f) ^^ ((i <<< 5) & 0x0200) ^^ ((i <<< 6) & 0x0800)
    ^^ ((i <<< 7) & 0x2000) ^^ ((i <<< 8) & 0x8000)))%u32)
      (seqZ 0 256).
Definition Standard64KB8_y_words : list Z :=
  map (fun i => ((0 ^^ ((i <<< 4) & 0x01f0) ^^ ((i <<< 5) & 0x0400) ^^ ((i <<< 6) & 0x1000)
    ^^ ((i <<< 7) & 0x4000)))%u32)
      (seqZ 0 256).

(** [Standard64KB16Tables]. *)
Definition Standard64KB16_x_words : list Z :=
  map (fun i => ((0 ^^ ((i <<< 1) & 0x000e) ^^ ((i <<< 4) & 0x0080) ^^ ((i <<< 5) & 0x0200)
    ^^ ((i <<< 6) & 0x0800) ^^ ((i <<< 7) & 0x2000) ^^ ((i <<< 8) & 0x8000)) >>> 1)%u32)
      (seqZ 0 256).
Definition Standard64KB16_y_words : list Z :=
  map (fun i => ((0 ^^ ((i <<< 4) & 0x0070) ^^ ((i <<< 5) & 0x0100) ^^ ((i <<< 6) & 0x0400)
    ^^ ((i <<< 7) & 0x1000) ^^ ((i <<< 8) & 0x4000)) >>> 1)%u32)
      (seqZ 0 128).

(** [Standard64KB32Tables]. *)
Definition Standard64KB32_x_words : list Z :=
  map (fun i => ((0 ^^ ((i <<< 2) & 0x0c) ^^ ((i <<< 5) & 0x80) ^^ ((i <<< 6) & 0x200)
    ^^ ((i <<< 7) & 0x800) ^^ ((i <<< 8) & 0x2000) ^^ ((i <<< 9) & 0x8000)) >>> 2)%u32)
      (seqZ 0 128).
Definition Standard64KB32_y_words : list Z :=
  map (fun i => ((0 ^^ ((i <<< 4) & 0x70) ^^ ((i <<< 5) & 0x100) ^^ ((i <<< 6) & 0x400)
    ^^ ((i <<< 7) & 0x1000) ^^ ((i <<< 8) & 0x4000)) >>> 2)%u32)
      (seqZ 0 128).

(** [Standard64KB64Tables]. *)
Definition Standard64KB64_x_words : list Z :=
  map (fun i => ((0 ^^ ((i <<< 3) & 0x0008) ^^ ((i <<< 5) & 0x00c0) ^^ ((i <<< 6) & 0x0200)
    ^^ ((i <<< 7) & 0x0800) ^^ ((i <<< 8) & 0x2000) ^^ ((i <<< 9) & 0x8000)) >>> 3)%u32)
      (seqZ 0 128).
Definition Standard64KB64_y_words : list Z :=
  map (fun i => ((0 ^^ ((i <<< 4) & 0x0030) ^^ ((i <<< 6) & 0x0100) ^^ ((i <<< 7) & 0x0400)
    ^^ ((i <<< 8) & 0x1000) ^^ ((i <<< 9) & 0x4000)) >>> 3)%u32)
      (seqZ 0 64).

(** [Standard64KB128Tables]. *)
Definition Standard64KB128_x_words : list Z :=
  map (fun i => ((0 ^^ ((i <<< 6) & 0x00c0) ^^ ((i <<< 7) & 0x0200) ^^ ((i <<< 8) & 0x0800)
    ^^ ((i <<< 9) & 0x2000) ^^ ((i <<< 10) & 0x8000)) >>> 4)%u32)
      (seqZ 0 64).
Definition Standard64KB128_y_words : list Z :=
  map (fun i => ((0 ^^ ((i <<< 4) & 0x0030) ^^ ((i <<< 6) & 0x0100) ^^ ((i <<< 7) & 0x0400)
    ^^ ((i <<< 8) & 0x1000) ^^ ((i <<< 9) & 0x4000)) >>> 4)%u32)
      (seqZ 0 64).

(** The parts that the static assertions test. *)
Definition GetStandard64KB32XPart (x : Z) : Z :=
  (0 ^^ ((x <<< 2) & 0x0c) ^^ ((x <<< 5) & 0x80) ^^ ((x <<< 6) & 0x200)
  ^^ ((x <<< 7) & 0x800) ^^ ((x <<< 8) & 0x2000) ^^ ((x <<< 9) & 0x8000))%u32.
Definition GetStandard64KB32YPart (y : Z) : Z :=
  (0 ^^ ((y <<< 4) & 0x70) ^^ ((y <<< 5) & 0x100) ^^ ((y <<< 6) & 0x400)
  ^^ ((y <<< 7) & 0x1000) ^^ ((y <<< 8) & 0x4000))%u32.

(** [Gen5RenderTargetOffsetInBlock<T>] with [size] for [sizeof(T)]. *)
Definition Gen5RenderTargetOffsetInBlock (size x y : Z) : Z :=
  (
  if size =? 1 then
    0 ^^ ((y <<< 2) & 0x0008) ^^ ((y <<< 4) & 0x0010) ^^ ((y <<< 3) & 0x00a0)
    ^^ ((y <<< 5) & 0x0f00) ^^ ((y <<< 6) & 0x1000) ^^ ((y <<< 7) & 0x4000)
    ^^ (x & 0x0007) ^^ ((x <<< 3) & 0x0040) ^^ ((x <<< 5) & 0x0300)
    ^^ ((x <<< 4) & 0x0400) ^^ ((x <<< 6) & 0x0800) ^^ ((x <<< 7) & 0x2000)
    ^^ ((x <<< 8) & 0x8000)
  else if size =? 2 then
    0 ^^ ((y <<< 4) & 0x0070) ^^ ((y <<< 5) & 0x0f00) ^^ ((y <<< 8) & 0x5000)
    ^^ ((x <<< 1) & 0x000e) ^^ ((x <<< 4) & 0x0480) ^^ ((x <<< 5) & 0x0300)
    ^^ ((x <<< 6) & 0x0800) ^^ ((x <<< 7) & 0x2000) ^^ ((x <<< 8) & 0x8000)
  else if size =? 4 then
    0 ^^ ((y <<< 4) & 0x0070) ^^ ((y <<< 5) & 0x0f00) ^^ ((y <<< 9) & 0x1000)
    ^^ ((y <<< 8) & 0x4000) ^^ ((x <<< 2) & 0x000c) ^^ ((x <<< 5) & 0x0380)
    ^^ ((x <<< 4) & 0x0400) ^^ ((x <<< 6) & 0x0800) ^^ ((x <<< 9) & 0xa000)
  else if size =? 8 then
    0 ^^ ((y <<< 4) & 0x0010) ^^ ((y <<< 6) & 0x0080) ^^ ((y <<< 5) & 0x0f00)
    ^^ ((y <<< 10) & 0x5000) ^^ ((x <<< 3) & 0x0008) ^^ ((x <<< 4) & 0x0460)
    ^^ ((x <<< 5) & 0x0300) ^^ ((x <<< 6) & 0x0800) ^^ ((x <<< 10) & 0x2000)
    ^^ ((x <<< 9) & 0x8000)
  else if size =? 16 then
    0 ^^ ((x <<< 4) & 0x0410) ^^ ((x <<< 5) & 0x0340) ^^ ((x <<< 6) & 0x0800)
    ^^ ((x <<< 11) & 0xa000) ^^ ((y <<< 5) & 0x0f20) ^^ ((y <<< 6) & 0x0080)
    ^^ ((y <<< 10) & 0x1000) ^^ ((y <<< 11) & 0x4000)
  else 0)%u32.

Definition Depth64KB8XOffsetBytes (x : Z) : Z :=
  (0 ^^ (x & 0x0001) ^^ ((x <<< 1) & 0x0004) ^^ ((x <<< 2) & 0x0010)
  ^^ ((x <<< 3) & 0x0040) ^^ ((x <<< 5) & 0x0300) ^^ ((x <<< 4) & 0x0400)
  ^^ ((x <<< 6) & 0x0800) ^^ ((x <<< 7) & 0x2000) ^^ ((x <<< 8) & 0x8000))%u32.
Definition Depth64KB8YOffsetBytes (y : Z) : Z :=
  (0 ^^ ((y <<< 1) & 0x0002) ^^ ((y <<< 2) & 0x0008) ^^ ((y <<< 3) & 0x00a0)
  ^^ ((y <<< 5) & 0x0f00) ^^ ((y <<< 6) & 0x1000) ^^ ((y <<< 7) & 0x4000))%u32.
Definition Depth64KB16XOffsetBytes (x : Z) : Z :=
  (0 ^^ ((x <<< 1) & 0x0002) ^^ ((x <<< 2) & 0x0008) ^^ ((x <<< 3) & 0x0020)
  ^^ ((x <<< 4) & 0x0480) ^^ ((x <<< 5) & 0x0300) ^^ ((x <<< 6) & 0x0800)
  ^^ ((x <<< 7) & 0x2000) ^^ ((x <<< 8) & 0x8000))%u32.
Definition Depth64KB16YOffsetBytes (y : Z) : Z :=
  (0 ^^ ((y <<< 2) & 0x0004) ^^ ((y <<< 3) & 0x0010) ^^ ((y <<< 4) & 0x0040)
  ^^ ((y <<< 5) & 0x0f00) ^^ ((y <<< 8) & 0x5000))%u32.
Definition Depth64KB32XOffsetBytes (x : Z) : Z :=
  (0 ^^ ((x <<< 2) & 0x0004) ^^ ((x <<< 3) & 0x0010) ^^ ((x <<< 4) & 0x0440)
  ^^ ((x <<< 5) & 0x0300) ^^ ((x <<< 6) & 0x0800) ^^ ((x <<< 9) & 0xa000))%u32.
Definition Depth64KB32YOffsetBytes (y : Z) : Z :=
  (0 ^^ ((y <<< 3) & 0x0008) ^^ ((y <<< 4) & 0x0020) ^^ ((y <<< 5) & 0x0f80)
  ^^ ((y <<< 9) & 0x1000) ^^ ((y <<< 8) & 0x4000))%u32.
Definition Depth64KB64XOffsetBytes (x : Z) : Z :=
  (((x <<< 3) & 0x0008) ^^ ((x <<< 4) & 0x0420) ^^ ((x <<< 5) & 0x0380) ^^ ((x <<< 6) & 0x0800) ^^ ((x <<< 10) & 0x2000) ^^ ((x <<< 9) & 0x8000))%u32.
Definition Depth64KB64YOffsetBytes (y : Z) : Z :=
  (((y <<< 4) & 0x0010) ^^ ((y <<< 5) & 0x0f40) ^^ ((y <<< 10) & 0x5000))%u32.

Definition prt_thick_SOURCES : list (Z * Z * Z * Z) :=
  [(4, 5, 4, 4); (4, 4, 3, 4); (4, 4, 3, 3); (3, 4, 3, 3); (3, 3, 2, 3)].
Definition prt_thin_SOURCES : list (Z * Z * Z * Z) :=
  [(7, 7, 6, 6); (7, 6, 6, 5); (6, 6, 5, 5); (6, 5, 5, 4); (5, 5, 4, 4)].

(** The word of a coordinate pair in the tables of an element size. *)
Definition standard64KB_words (bytes_per_element x y : Z) : tried Z :=
  let entry xs ys scale :=
    wx ← at_index xs x; wy ← at_index ys y; gives ((wx ^^ wy) * scale)%u32 in
  if bytes_per_element =? 1 then
    wx ← at_index Standard64KB8_x_words x; wy ← at_index Standard64KB8_y_words y;
    gives (wx ^^ wy)%u32
  else if bytes_per_element =? 2 then entry Standard64KB16_x_words Standard64KB16_y_words 2
  else if bytes_per_element =? 4 then entry Standard64KB32_x_words Standard64KB32_y_words 4
  else if bytes_per_element =? 8 then entry Standard64KB64_x_words Standard64KB64_y_words 8
  else if bytes_per_element =? 16 then entry Standard64KB128_x_words Standard64KB128_y_words 16
  else refused.

(** The [switch] on the element size of the render-target family. *)
Definition render_target_offset (bytes_per_element x y : Z) : tried Z :=
  if (bytes_per_element =? 1) || (bytes_per_element =? 2) || (bytes_per_element =? 4)
     || (bytes_per_element =? 8) || (bytes_per_element =? 16)
  then gives (Gen5RenderTargetOffsetInBlock bytes_per_element x y)
  else refused.

Definition depth_offset (bytes_per_element x y : Z) : tried Z :=
  if bytes_per_element =? 1 then gives (Depth64KB8XOffsetBytes x ^^ Depth64KB8YOffsetBytes y)%u32
  else if bytes_per_element =? 2 then gives (Depth64KB16XOffsetBytes x ^^ Depth64KB16YOffsetBytes y)%u32
  else if bytes_per_element =? 4 then gives (Depth64KB32XOffsetBytes x ^^ Depth64KB32YOffsetBytes y)%u32
  else if bytes_per_element =? 8 then gives (Depth64KB64XOffsetBytes x ^^ Depth64KB64YOffsetBytes y)%u32
  else refused.

(** The [switch] on the family of [TileGetBlockOffset]. *)
Definition family_offset (family : TileBlockFamily) (bytes_per_element x y z : Z) : tried Z :=
  match family with
  | Standard256B => gives (Gen5Standard256BOffsetInBlock x y bytes_per_element)
  | Standard4KB => gives (Gen5Standard4KBOffsetInBlock x y bytes_per_element)
  | Standard4KB3D => gives (Gen5Standard4KBVolumeOffsetInBlock x y z bytes_per_element)
  | Standard64KB3D => Gen5Standard64KBVolumeOffsetInBlock x y z bytes_per_element
  | Prt64KB3D =>
      offset ← Gen5Standard64KBVolumeOffsetInBlock x y z bytes_per_element;
      '(b0, b1, b2, b3) ← at_index prt_thick_SOURCES (countr_zero bytes_per_element);
      gives (offset ^^ (Bit y b0 10 ^^ Bit x b1 10 ^^ Bit x b2 11 ^^ Bit z b3 11))%u32
  | Standard64KB => standard64KB_words bytes_per_element x y
  | Prt64KB =>
      offset ← standard64KB_words bytes_per_element x y;
      '(b0, b1, b2, b3) ← at_index prt_thin_SOURCES (countr_zero bytes_per_element);
      gives (offset ^^ (Bit x b0 8 ^^ Bit y b1 9 ^^ Bit x b2 10 ^^ Bit y b3 11))%u32
  | RenderTarget64KB => render_target_offset bytes_per_element x y
  | Depth64KB => depth_offset bytes_per_element x y
  | Count => refused
  end.

(** The dimensions of [layout] are those of its family and element size. *)
Definition same_dimensions (layout expected : TileBlockLayout) : bool :=
  (bl_block_size layout =? bl_block_size expected)
  && (bl_block_width layout =? bl_block_width expected)
  && (bl_block_height layout =? bl_block_height expected)
  && (bl_block_depth layout =? bl_block_depth expected).

Definition TileGetBlockOffset (layout : TileBlockLayout) (x y z : Z) : tried Z :=
  expected ← TileGetBlockLayout (bl_family layout) (bl_bytes_per_element layout);
  if negb (same_dimensions layout expected)
     || (x >=? bl_block_width layout) || (y >=? bl_block_height layout)
     || (z >=? bl_block_depth layout)
  then refused
  else
    offset ← family_offset (bl_family layout) (bl_bytes_per_element layout) x y z;
    if (offset >=? bl_block_size layout) || negb (offset `mod` bl_bytes_per_element layout =? 0)
    then refused else gives offset.

(** ** The contribution of a block's coordinates *)

Definition TileGetBlockXor (layout : TileBlockLayout) (block_x block_y block_z : Z) : tried Z :=
  expected ← TileGetBlockLayout (bl_family layout) (bl_bytes_per_element layout);
  if negb (same_dimensions layout expected) then refused else
  let wide := (block_x >? u32_max `div` bl_block_width layout)
              || (block_y >? u32_max `div` bl_block_height layout) in
  let x := (block_x * bl_block_width layout)%u32 in
  let y := (block_y * bl_block_height layout)%u32 in
  calculated_offset ←
    (if bool_decide (bl_family layout = Depth64KB) && (bl_bytes_per_element layout =? 8) then
       if wide then refused else gives (Depth64KB64XOffsetBytes x ^^ Depth64KB64YOffsetBytes y)%u32
     else if bool_decide (bl_family layout = RenderTarget64KB) then
       if wide then refused else render_target_offset (bl_bytes_per_element layout) x y
     else gives 0);
  let calculated_offset :=
    if bool_decide (bl_family layout = RenderTarget64KB) || bool_decide (bl_family layout = Depth64KB)
    then (calculated_offset ^^ (((block_z & 8) <<< 5) ^^ ((block_z & 4) <<< 7)
                                ^^ ((block_z & 2) <<< 9) ^^ ((block_z & 1) <<< 11)))%u32
    else calculated_offset in
  if (calculated_offset >=? bl_block_size layout)
     || negb (calculated_offset `mod` bl_bytes_per_element layout =? 0)
  then refused else gives calculated_offset.

(** Properties of block addresses ([src/gpu/tile_layout.cpp]): every family maps
    the elements of a block one to one onto the element-aligned offsets of the
    block. *)

(** ** Element sizes and layouts *)

Definition element_sizes : list Z := [1; 2; 4; 8; 16].

Lemma element_size_cases bytes :
  is_u32 bytes -> has_single_bit bytes = true -> (bytes >? 16) = false -> bytes ∈ element_sizes.
Proof.
  intros Hu Hb%has_single_bit_spec Hle; [|done]. rewrite Z.gtb_ltb, Z.ltb_ge in Hle.
  pose proof (Z.log2_nonneg bytes). pose proof (Z.log2_le_mono _ _ Hle) as Hl.
  change (Z.log2 16) with 4 in Hl.
  assert (Z.log2 bytes = 0 \/ Z.log2 bytes = 1 \/ Z.log2 bytes = 2 \/ Z.log2 bytes = 3
          \/ Z.log2 bytes = 4) as Hc by lia.
  rewrite Hb. destruct Hc as [->|[->|[->|[->| ->]]]]; vm_compute; set_solver.
Qed.

Ltac element_size_case H :=
  unfold element_sizes in H; rewrite !elem_of_cons, elem_of_nil in H;
  destruct H as [->|[->|[->|[->|[->|[]]]]]].

(** Every layout that is given out has dimensions that are powers of two and
    that fill the block. *)
Lemma block_layout_cases family bytes layout :
  is_u32 bytes -> TileGetBlockLayout family bytes = gives layout -> bytes ∈ element_sizes.
Proof.
  intros Hu. unfold TileGetBlockLayout. split_match; [done|].
  rewrite orb_false_iff, negb_false_iff in E. destruct E as [E1 E2]. intros _.
  by apply element_size_cases.
Qed.

Lemma block_layout_family family bytes layout :
  TileGetBlockLayout family bytes = gives layout ->
  bl_family layout = family /\ bl_bytes_per_element layout = bytes.
Proof.
  unfold TileGetBlockLayout. split_match; [done|]. intros (d & E1 & H)%bind_gives.
  destruct d as [[[s w] h] d]. split_match_in H; [|done]. by injection H as <-.
Qed.

(** ** Addresses as linear maps *)

Lemma at_index_seqZ {A} (g : Z -> A) n x :
  0 <= x < n -> at_index (map g (seqZ 0 n)) x = gives (g x).
Proof.
  intros Hx. apply at_index_gives. split; [lia|].
  rewrite list_lookup_fmap. rewrite lookup_seqZ_lt by lia. simpl. do 2 f_equal. lia.
Qed.

Lemma mul32_shl a k : 0 <= k -> mul32 a (2 ^ k) = shl32 a k.
Proof. intros Hk. unfold mul32, shl32. by rewrite Z.shiftl_mul_pow2. Qed.

(** A word holds the coordinates of an element side by side. *)
Definition unpack3 (f : Z -> Z -> Z -> Z) (wx wy v : Z) : Z :=
  f (Z.land v (Z.ones wx)) (Z.land (Z.shiftr v wx) (Z.ones wy)) (Z.shiftr v (wx + wy)).

Lemma unpack3_linear f wx wy : Linear3 f -> linear (unpack3 f wx wy).
Proof.
  intros Hf a b. unfold unpack3. rewrite !Z.shiftr_lxor, !land_lxor_l. apply Hf.
Qed.

(** What is shown of each family and element size: a linear map, computed by
    [family_offset] on the coordinates of the block, whose values on single bits
    pass the test of [Words32]. *)
Record block_map (layout : TileBlockLayout) (f : Z -> Z -> Z -> Z) : Prop := {
  bm_linear : Linear3 f;
  bm_offset x y z :
    0 <= x < bl_block_width layout -> 0 <= y < bl_block_height layout ->
    0 <= z < bl_block_depth layout ->
    family_offset (bl_family layout) (bl_bytes_per_element layout) x y z = gives (f x y z);
  bm_check :
    bijection_check
      (unpack3 f (Z.log2 (bl_block_width layout)) (Z.log2 (bl_block_height layout)))
      (Z.to_nat (Z.log2 (bl_block_width layout * bl_block_height layout * bl_block_depth layout)))
      (Z.to_nat (Z.log2 (bl_bytes_per_element layout))) = true;
  bm_powers :
    exists wx wy wz lo : nat,
      bl_block_width layout = 2 ^ Z.of_nat wx /\ bl_block_height layout = 2 ^ Z.of_nat wy
      /\ bl_block_depth layout = 2 ^ Z.of_nat wz /\ bl_bytes_per_element layout = 2 ^ Z.of_nat lo
      /\ bl_block_size layout = 2 ^ Z.of_nat (wx + wy + wz + lo)
      /\ (wx + wy + wz + lo <= 16)%nat }.

(** Evaluate the accesses to the constant tables. *)
Ltac const_index :=
  repeat match goal with
  | |- context [ at_index ?t (countr_zero ?n) ] =>
      let v := eval vm_compute in (at_index t (countr_zero n)) in
      change (at_index t (countr_zero n)) with v
  end.

Ltac solve_offset :=
  intros x y z Hx Hy Hz; simpl in Hx, Hy, Hz;
  cbv beta iota zeta delta [bl_family bl_bytes_per_element family_offset standard64KB_words
    Gen5Standard64KBVolumeOffsetInBlock];
  const_index; cbn [mbind tried_bind Z.eqb Pos.eqb];
  unfold Standard64KB8_x_words, Standard64KB8_y_words, Standard64KB16_x_words,
    Standard64KB16_y_words, Standard64KB32_x_words, Standard64KB32_y_words,
    Standard64KB64_x_words, Standard64KB64_y_words, Standard64KB128_x_words,
    Standard64KB128_y_words;
  repeat rewrite at_index_seqZ by lia; cbn [mbind tried_bind];
  rewrite ?(mul32_shl _ 1), ?(mul32_shl _ 2), ?(mul32_shl _ 3), ?(mul32_shl _ 4) by lia;
  cbv [Gen5Standard256BOffsetInBlock Gen5Standard4KBOffsetInBlock Gen5Standard4KBVolumeOffsetInBlock
    Gen5RenderTargetOffsetInBlock render_target_offset depth_offset Bit
    Depth64KB8XOffsetBytes Depth64KB8YOffsetBytes Depth64KB16XOffsetBytes Depth64KB16YOffsetBytes
    Depth64KB32XOffsetBytes Depth64KB32YOffsetBytes Depth64KB64XOffsetBytes Depth64KB64YOffsetBytes
    Z.eqb Pos.eqb orb];
  reflexivity.

Ltac solve_powers :=
  match goal with
  | |- context [ mkTileBlockLayout _ ?b ?s ?w ?h ?d ] =>
      exists (Z.to_nat (Z.log2 w)), (Z.to_nat (Z.log2 h)), (Z.to_nat (Z.log2 d)), (Z.to_nat (Z.log2 b));
      split_and!; first [reflexivity | vm_compute; lia]
  end.

Lemma block_map_exists family bytes layout :
  is_u32 bytes -> TileGetBlockLayout family bytes = gives layout -> exists f, block_map layout f.
Proof.
  intros Hu HL. pose proof (block_layout_cases _ _ _ Hu HL) as Hb.
  destruct family; element_size_case Hb; vm_compute in HL; try discriminate HL;
    injection HL as <-; (eexists; split; [| solve_offset | vm_compute; reflexivity | solve_powers]); apply _.
Qed.

(** ** Every element has an address of its own *)

Lemma unpack3_pack f (wx wy : nat) x y z :
  0 <= x < 2 ^ Z.of_nat wx -> 0 <= y < 2 ^ Z.of_nat wy ->
  unpack3 f (Z.of_nat wx) (Z.of_nat wy)
    (x + 2 ^ Z.of_nat wx * (y + 2 ^ Z.of_nat wy * z)) = f x y z.
Proof.
  intros Hx Hy. unfold unpack3. rewrite !Z.land_ones, !Z.shiftr_div_pow2 by lia.
  rewrite Z.pow_add_r by lia.
  assert (0 < 2 ^ Z.of_nat wx) by lia. assert (0 < 2 ^ Z.of_nat wy) by lia.
  set (a := 2 ^ Z.of_nat wx) in *. set (b := 2 ^ Z.of_nat wy) in *.
  assert (E1 : (x + a * (y + b * z)) / a = y + b * z).
  { replace (x + a * (y + b * z)) with (x + (y + b * z) * a) by ring.
    rewrite Z.div_add, Z.div_small by lia. lia. }
  assert (E2 : (x + a * (y + b * z)) mod a = x).
  { replace (x + a * (y + b * z)) with (x + (y + b * z) * a) by ring.
    rewrite Z.mod_add, Z.mod_small by lia. done. }
  rewrite E1, E2, <- Z.div_div, E1 by lia.
  replace (y + b * z) with (y + z * b) by ring.
  rewrite Z.mod_add, Z.mod_small, Z.div_add, Z.div_small by lia. f_equal.
Qed.

Lemma pack_range a b x y : 0 <= x < a -> 0 <= y < b -> 0 <= x + a * y < a * b.
Proof. nia. Qed.

Lemma pack_injective a x y x' y' :
  0 <= x < a -> 0 <= x' < a -> x + a * y = x' + a * y' -> x = x' /\ y = y'.
Proof. intros Hx Hx' E. assert (y = y') as -> by nia. lia. Qed.

Definition inside (layout : TileBlockLayout) (x y z : Z) : Prop :=
  0 <= x < bl_block_width layout /\ 0 <= y < bl_block_height layout
  /\ 0 <= z < bl_block_depth layout.

Section block_map.
Context (layout : TileBlockLayout) (f : Z -> Z -> Z -> Z) (Hm : block_map layout f).

Lemma same_dimensions_refl : same_dimensions layout layout = true.
Proof. unfold same_dimensions. by rewrite !Z.eqb_refl. Qed.

Lemma block_map_bijective :
  exists wx wy wz lo : nat,
    bl_block_width layout = 2 ^ Z.of_nat wx /\ bl_block_height layout = 2 ^ Z.of_nat wy
    /\ bl_block_depth layout = 2 ^ Z.of_nat wz /\ bl_bytes_per_element layout = 2 ^ Z.of_nat lo
    /\ bl_block_size layout = 2 ^ Z.of_nat (wx + wy + wz + lo)
    /\ bijective_on (unpack3 f (Z.of_nat wx) (Z.of_nat wy)) (wx + wy + wz) lo.
Proof.
  destruct (bm_powers _ _ Hm) as (wx & wy & wz & lo & Ew & Eh & Ed & Eb & Es & _).
  exists wx, wy, wz, lo. split_and!; [done..|].
  pose proof (bm_check _ _ Hm) as Hc. rewrite Ew, Eh, Ed, Eb in Hc.
  rewrite <- !Z.pow_add_r, !Z.log2_pow2 in Hc by lia.
  rewrite <- !Nat2Z.inj_add, !Nat2Z.id in Hc.
  apply linear_bijection; [apply unpack3_linear, Hm|done].
Qed.

Lemma block_map_range x y z :
  inside layout x y z ->
  0 <= f x y z < bl_block_size layout /\ f x y z mod bl_bytes_per_element layout = 0.
Proof.
  intros (Hx & Hy & Hz).
  destruct block_map_bijective as (wx & wy & wz & lo & Ew & Eh & Ed & Eb & Es & Hb & _).
  rewrite Ew, Eh, Ed in *. rewrite Es, Eb.
  rewrite <- (unpack3_pack f wx wy x y z Hx Hy). apply Hb.
  rewrite !Nat2Z.inj_add, !Z.pow_add_r, <- Z.mul_assoc by lia. by apply pack_range, pack_range.
Qed.

Lemma block_map_injective x y z x' y' z' :
  inside layout x y z -> inside layout x' y' z' -> f x y z = f x' y' z' ->
  x = x' /\ y = y' /\ z = z'.
Proof.
  intros (Hx & Hy & Hz) (Hx' & Hy' & Hz') E.
  destruct block_map_bijective as (wx & wy & wz & lo & Ew & Eh & Ed & Eb & Es & _ & Hi & _).
  rewrite Ew, Eh, Ed in *.
  rewrite <- (unpack3_pack f wx wy x y z Hx Hy), <- (unpack3_pack f wx wy x' y' z' Hx' Hy') in E.
  rewrite !Nat2Z.inj_add, !Z.pow_add_r, <- Z.mul_assoc in Hi by lia.
  set (a := 2 ^ Z.of_nat wx) in *. set (b := 2 ^ Z.of_nat wy) in *.
  apply Hi in E; [|by apply pack_range, pack_range..].
  apply pack_injective in E as [-> E]; [|done..]. apply pack_injective in E as [-> ->]; done.
Qed.

Lemma block_map_surjective o :
  0 <= o < bl_block_size layout -> o mod bl_bytes_per_element layout = 0 ->
  exists x y z, inside layout x y z /\ f x y z = o.
Proof.
  intros Ho Hm'.
  destruct block_map_bijective as (wx & wy & wz & lo & Ew & Eh & Ed & Eb & Es & _ & _ & Hs).
  unfold inside. rewrite Ew, Eh, Ed, Es, Eb in *. destruct (Hs o Ho Hm') as (v & Hv & <-).
  exists (Z.land v (Z.ones (Z.of_nat wx))),
    (Z.land (Z.shiftr v (Z.of_nat wx)) (Z.ones (Z.of_nat wy))),
    (Z.shiftr v (Z.of_nat wx + Z.of_nat wy)).
  split; [|done]. rewrite !Z.land_ones, !Z.shiftr_div_pow2 by lia.
  split; [|split; [|split]].
  - apply Z.mod_pos_bound, Z.pow_pos_nonneg; lia.
  - apply Z.mod_pos_bound, Z.pow_pos_nonneg; lia.
  - apply Z.div_pos; [lia|]. apply Z.pow_pos_nonneg; lia.
  - apply Z.div_lt_upper_bound; [apply Z.pow_pos_nonneg; lia|].
    rewrite <- Z.pow_add_r by lia. rewrite !Nat2Z.inj_add in Hv. lia.
Qed.

(** [TileGetBlockOffset] computes the map on the coordinates of the block. *)
Lemma block_offset_map x y z :
  TileGetBlockLayout (bl_family layout) (bl_bytes_per_element layout) = gives layout ->
  inside layout x y z -> TileGetBlockOffset layout x y z = gives (f x y z).
Proof.
  intros HL Hin. destruct (block_map_range x y z Hin) as [Hr Hd].
  destruct Hin as (Hx & Hy & Hz).
  unfold TileGetBlockOffset. rewrite HL. simpl. rewrite same_dimensions_refl. simpl.
  rewrite !Z.geb_leb, !(proj2 (Z.leb_gt _ _)) by lia. simpl.
  rewrite (bm_offset _ _ Hm) by done. simpl.
  rewrite Z.geb_leb, (proj2 (Z.leb_gt _ _)), Hd by lia. done.
Qed.
End block_map.

Lemma block_layout_self family bytes layout :
  TileGetBlockLayout family bytes = gives layout ->
  TileGetBlockLayout (bl_family layout) (bl_bytes_per_element layout) = gives layout.
Proof. intros HL. by destruct (block_layout_family _ _ _ HL) as [-> ->]. Qed.

(** C38: For every family and element size that has a layout, the offset of an
    element in its block is always computed (no table is read outside its
    bounds and no check refuses it), lies in the block and is aligned to the
    element size, and every aligned offset of the block is the offset of exactly
    one element: tiling a block loses and duplicates nothing. *)
Theorem block_addresses_bijective family bytes layout :
  is_u32 bytes -> TileGetBlockLayout family bytes = gives layout ->
  (forall x y z, inside layout x y z ->
     exists o, TileGetBlockOffset layout x y z = gives o
       /\ 0 <= o < bl_block_size layout /\ o mod bytes = 0)
  /\ (forall o, 0 <= o < bl_block_size layout -> o mod bytes = 0 ->
        exists! p : Z * Z * Z, inside layout p.1.1 p.1.2 p.2
          /\ TileGetBlockOffset layout p.1.1 p.1.2 p.2 = gives o).
Proof.
  intros Hu HL. destruct (block_map_exists _ _ _ Hu HL) as [f Hm].
  pose proof (block_layout_self _ _ _ HL) as Hself.
  destruct (block_layout_family _ _ _ HL) as [_ Eb].
  split.
  - intros x y z Hin. exists (f x y z). rewrite (block_offset_map _ _ Hm) by done.
    rewrite <- Eb. split; [done|]. by apply (block_map_range _ _ Hm).
  - intros o Ho Hd. rewrite <- Eb in Hd.
    destruct (block_map_surjective _ _ Hm o Ho Hd) as (x & y & z & Hin & Ef).
    exists (x, y, z). split; simpl.
    + split; [done|]. by rewrite (block_offset_map _ _ Hm), Ef.
    + intros [[x' y'] z'] [Hin' E']. simpl in *. rewrite (block_offset_map _ _ Hm) in E' by done.
      injection E' as E'. rewrite <- Ef in E'.
      destruct (block_map_injective _ _ Hm x y z x' y' z') as (-> & -> & ->); done.
Qed.
