(* ===== verification/TileTextures.v ===== *)
(** Sizes and mip chains of tiled images ([src/gpu/tile_layout.cpp], from texture
    formats to total sizes).

    The levels of a chain are placed from the smallest to the largest.  In the
    4 KiB and 64 KiB tilings the smallest levels share one block, the tail, at
    places given by tables.  The output arrays of the source have 16 entries; an
    output that the caller may leave out is an [option]. *)
From S2P Require Import Prelude Words32 Formats TileBlocks.

(** ** Data *)

Record TileSizeAlign := mkTileSizeAlign { sa_size : Z; sa_align : Z }.
Record TileSizeOffset := mkTileSizeOffset {
  so_size : Z; so_offset : Z; so_src_size : Z; so_src_offset : Z; so_x : Z; so_y : Z }.
Record TilePaddedSize := mkTilePaddedSize { ps_width : Z; ps_height : Z }.

Definition no_size : TileSizeAlign := mkTileSizeAlign 0 0.
Definition no_level : TileSizeOffset := mkTileSizeOffset 0 0 0 0 0 0.
Definition no_padding : TilePaddedSize := mkTilePaddedSize 0 0.

(** ** Linear images *)

Definition CalcLinearBlockWidth (bytes_per_element : Z) : tried Z :=
  if bytes_per_element =? 0 then undefined else gives (Z.max 1 (256 `div` bytes_per_element)).

(** Pitch, height and size of a level; refused where the source returns 0
    before it writes its outputs. *)
Definition CalcLinearAlignedLevelPitch (base_width base_height level bytes_per_element : Z)
    : tried (Z * Z * Z) :=
  let level_width := ShiftCeil base_width level in
  let level_height := ShiftCeil base_height level in
  block_width ← CalcLinearBlockWidth bytes_per_element;
  let padded_width := AlignUp (Z.max level_width 1) block_width in
  let size := mul64 (mul64 padded_width (Z.max level_height 1)) bytes_per_element in
  if size >? u32_max then refused
  else gives (padded_width, Z.max level_height 1, to_u32 size).

(** The loop of [SetLinearMipChainLayout], from level [n - 1] down to level 0. *)
Fixpoint linear_chain (n : nat) (mip_pitch mip_height mip_size : list Z) (offset : Z)
    (level_sizes : list TileSizeOffset) (padded_size : list TilePaddedSize)
    : tried (Z * list TileSizeOffset * list TilePaddedSize) :=
  match n with
  | O => gives (offset, level_sizes, padded_size)
  | S n =>
      let level := Z.of_nat n in
      size ← at_index mip_size level;
      if (offset >? u32_max) || (size >? sub64 u32_max offset) then refused else
      entry ← at_index level_sizes level;
      level_sizes ← set_index level_sizes level
        (mkTileSizeOffset size (to_u32 offset) (so_src_size entry) (so_src_offset entry)
           (so_x entry) (so_y entry));
      pitch ← at_index mip_pitch level;
      height ← at_index mip_height level;
      padded_size ← set_index padded_size level (mkTilePaddedSize pitch height);
      linear_chain n mip_pitch mip_height mip_size (add64 offset size) level_sizes padded_size
  end.

(** Refused where the source returns 0. *)
Definition SetLinearMipChainLayout (levels : Z) (mip_pitch mip_height mip_size : list Z)
    (level_sizes : list TileSizeOffset) (padded_size : list TilePaddedSize)
    : tried (Z * list TileSizeOffset * list TilePaddedSize) :=
  '(offset, level_sizes, padded_size) ←
     linear_chain (Z.to_nat levels) mip_pitch mip_height mip_size 0 level_sizes padded_size;
  let aligned := Z.land (add64 offset 255) (not64 255) in
  if aligned <=? u32_max then gives (to_u32 aligned, level_sizes, padded_size) else refused.

(** ** Blocks of the standard tilings

    Bytes of an element, texels an element covers across and down, and the
    logarithms of the width and height of a block in elements. *)

Definition Gen5Standard4KBLayout (format : Z) : tried (Z * Z * Z * Z * Z) :=
  let bytes := NumBytesPerElement format in
  if bytes =? 1 then gives (1, 1, 1, 6, 6)
  else if bytes =? 2 then gives (2, 1, 1, 6, 5)
  else if bytes =? 4 then gives (4, 1, 1, 5, 5)
  else if bytes =? 8 then gives (8, 1, 1, 5, 4)
  else if bytes =? 16 then gives (16, 1, 1, 4, 4)
  else
    let block := BlockCompressedBytesPerBlock format in
    if block =? 8 then gives (8, 4, 4, 5, 4)
    else if block =? 16 then gives (16, 4, 4, 4, 4)
    else refused.

Definition Gen5Standard256BLayout (format : Z) : tried (Z * Z * Z * Z * Z) :=
  let bytes := NumBytesPerElement format in
  if bytes =? 1 then gives (1, 1, 1, 4, 4)
  else if bytes =? 2 then gives (2, 1, 1, 4, 3)
  else if bytes =? 4 then gives (4, 1, 1, 3, 3)
  else if bytes =? 8 then gives (8, 1, 1, 3, 2)
  else if bytes =? 16 then gives (16, 1, 1, 2, 2)
  else
    let block := BlockCompressedBytesPerBlock format in
    if block =? 8 then gives (8, 4, 4, 3, 2)
    else if block =? 16 then gives (16, 4, 4, 2, 2)
    else refused.

Definition Gen5Standard64KBLayout (format : Z) : tried (Z * Z * Z * Z * Z) :=
  let bytes := NumBytesPerElement format in
  if bytes =? 1 then gives (1, 1, 1, 8, 8)
  else if bytes =? 2 then gives (2, 1, 1, 8, 7)
  else if bytes =? 4 then gives (4, 1, 1, 7, 7)
  else if bytes =? 8 then gives (8, 1, 1, 7, 6)
  else if bytes =? 16 then gives (16, 1, 1, 6, 6)
  else
    let block := BlockCompressedBytesPerBlock format in
    if block =? 8 then gives (8, 4, 4, 7, 6)
    else if block =? 16 then gives (16, 4, 4, 6, 6)
    else refused.

Definition succeeds {A} (r : tried A) : bool := match r with gives _ => true | _ => false end.
Definition TileIsStandard4KBTextureSupported (format : Z) : bool := succeeds (Gen5Standard4KBLayout format).
Definition TileIsStandard256BTextureSupported (format : Z) : bool := succeeds (Gen5Standard256BLayout format).
Definition TileIsStandard64KBTextureSupported (format : Z) : bool := succeeds (Gen5Standard64KBLayout format).

(** Places of the tail levels in their block, by element size. *)
Definition GEN5_MIP_TAIL_LOCATIONS_THIN_4KB : list (list (Z * Z)) :=
  [ [(32, 0); (16, 32); (0, 48); (0, 32); (16, 16); (16, 0); (0, 16); (0, 0)];
    [(32, 0); (16, 16); (0, 24); (0, 16); (16, 8); (16, 0); (0, 8); (0, 0)];
    [(16, 0); (8, 16); (0, 24); (0, 16); (8, 8); (8, 0); (0, 8); (0, 0)];
    [(16, 0); (8, 8); (0, 12); (0, 8); (8, 4); (8, 0); (0, 4); (0, 0)];
    [(8, 0); (4, 8); (0, 12); (0, 8); (4, 4); (4, 0); (0, 4); (0, 0)] ].
Definition GEN5_MIP_TAIL_LOCATIONS_THIN_64KB : list (list (Z * Z)) :=
  [ [(128, 0); (0, 128); (64, 0); (0, 64); (32, 0); (16, 32); (0, 48); (0, 32); (16, 16); (16, 0); (0, 16); (0, 0)];
    [(128, 0); (0, 64); (64, 0); (0, 32); (32, 0); (16, 16); (0, 24); (0, 16); (16, 8); (16, 0); (0, 8); (0, 0)];
    [(64, 0); (0, 64); (32, 0); (0, 32); (16, 0); (8, 16); (0, 24); (0, 16); (8, 8); (8, 0); (0, 8); (0, 0)];
    [(64, 0); (0, 32); (32, 0); (0, 16); (16, 0); (8, 8); (0, 12); (0, 8); (8, 4); (8, 0); (0, 4); (0, 0)];
    [(32, 0); (0, 32); (16, 0); (0, 16); (8, 0); (4, 8); (0, 12); (0, 8); (4, 4); (4, 0); (0, 4); (0, 0)] ].
Definition GEN5_MIP_TAIL_LOCATIONS_THICK_64KB : list (list (Z * Z)) :=
  [ [(32, 0); (0, 16); (16, 0); (8, 8); (0, 12); (0, 8); (8, 4); (8, 0); (0, 4); (0, 0)];
    [(16, 0); (0, 16); (8, 0); (4, 8); (0, 12); (0, 8); (4, 4); (4, 0); (0, 4); (0, 0)];
    [(16, 0); (0, 16); (8, 0); (4, 8); (0, 12); (0, 8); (4, 4); (4, 0); (0, 4); (0, 0)];
    [(16, 0); (0, 8); (8, 0); (4, 4); (0, 6); (0, 4); (4, 2); (4, 0); (0, 2); (0, 0)];
    [(8, 0); (0, 8); (4, 0); (2, 4); (0, 6); (0, 4); (2, 2); (2, 0); (0, 2); (0, 0)] ].
Definition GEN5_MIP_TAIL_LOCATIONS_THICK_4KB : list (list (Z * Z)) :=
  [ [(0, 8); (8, 4); (8, 0); (0, 4); (0, 0)];
    [(0, 8); (4, 4); (4, 0); (0, 4); (0, 0)];
    [(0, 8); (4, 4); (4, 0); (0, 4); (0, 0)];
    [(0, 4); (4, 2); (4, 0); (0, 2); (0, 0)];
    [(0, 4); (2, 2); (2, 0); (0, 2); (0, 0)] ].

Record TextureBlockLayout := mkTextureBlockLayout {
  tb_bytes : Z;
  tb_texel_width : Z;
  tb_texel_height : Z;
  tb_block_width : Z;
  tb_block_height : Z;
  tb_block_size : Z }.

Definition GetTextureBlockLayout (format tile : Z) : tried TextureBlockLayout :=
  let standard layout block_size :=
    '(bytes, tw, th, width_log2, height_log2) ← layout;
    gives (mkTextureBlockLayout bytes tw th (1 <<< width_log2)%u32 (1 <<< height_log2)%u32 block_size) in
  if tile =? 1 then standard (Gen5Standard256BLayout format) 256
  else if tile =? 5 then standard (Gen5Standard4KBLayout format) 4096
  else if (tile =? 9) || (tile =? 17) then standard (Gen5Standard64KBLayout format) 65536
  else if (tile =? 24) || (tile =? 27) then
    let bytes := NumBytesPerElement format in
    if (bytes =? 0) || ((tile =? 24) && (bytes >? 8)) then refused else
    '(w, h) ← Gen5Thin64KBBlockSizeFromElementBytes bytes;
    gives (mkTextureBlockLayout bytes 1 1 w h 65536)
  else refused.

(** [(value + unit - 1u) / unit]. *)
Definition ceil_div32 (value unit : Z) : Z := sub32 (value + unit)%u32 1 `div` unit.

(** ** Mip chains *)

Definition level_padding (block : TextureBlockLayout) (width0 height0 level : Z) : Z * Z :=
  (AlignUp (Z.max (ShiftCeil width0 level) 1) (tb_block_width block),
   AlignUp (Z.max (ShiftCeil height0 level) 1) (tb_block_height block)).

(** One level outside the tail; [with_source] tells whether the source range is
    recorded too. *)
Definition place_level (block : TextureBlockLayout) (width0 height0 level offset : Z)
    (with_source : bool) (level_sizes : list TileSizeOffset) (padded_size : list TilePaddedSize)
    : tried (Z * list TileSizeOffset * list TilePaddedSize) :=
  let '(padded_width, padded_height) := level_padding block width0 height0 level in
  let size := mul64 (mul64 padded_width padded_height) (tb_bytes block) in
  if (size >? u32_max) || (offset >? sub64 u32_max size) then refused else
  level_sizes ← set_index level_sizes level
    (if with_source
     then mkTileSizeOffset (to_u32 size) (to_u32 offset) (to_u32 size) (to_u32 offset) 0 0
     else mkTileSizeOffset (to_u32 size) (to_u32 offset) 0 0 0 0);
  padded_size ← set_index padded_size level
    (mkTilePaddedSize (padded_width * tb_texel_width block)%u32 (padded_height * tb_texel_height block)%u32);
  gives (add64 offset size, level_sizes, padded_size).

(** From level [n - 1] down to level 0. *)
Fixpoint place_levels (n : nat) (block : TextureBlockLayout) (width0 height0 offset : Z)
    (with_source : bool) (level_sizes : list TileSizeOffset) (padded_size : list TilePaddedSize)
    : tried (Z * list TileSizeOffset * list TilePaddedSize) :=
  match n with
  | O => gives (offset, level_sizes, padded_size)
  | S n =>
      '(offset, level_sizes, padded_size) ←
         place_level block width0 height0 (Z.of_nat n) offset with_source level_sizes padded_size;
      place_levels n block width0 height0 offset with_source level_sizes padded_size
  end.

Definition SetMicroMipLayout (block : TextureBlockLayout) (width height levels : Z)
    (level_sizes : list TileSizeOffset) (padded_size : list TilePaddedSize)
    : tried (TileSizeAlign * list TileSizeOffset * list TilePaddedSize) :=
  let width0 := ceil_div32 width (tb_texel_width block) in
  let height0 := ceil_div32 height (tb_texel_height block) in
  '(offset, level_sizes, padded_size) ←
     place_levels (Z.to_nat levels) block width0 height0 0 false level_sizes padded_size;
  if offset >? u32_max then refused
  else gives (mkTileSizeAlign (to_u32 offset) (tb_block_size block), level_sizes, padded_size).

(** The first level that fits the tail, searched from [level] over the [n]
    levels that are left; [levels] when there is none. *)
Fixpoint find_first_tail (n : nat) (width0 height0 tail_width tail_height max_tail levels level : Z) : Z :=
  match n with
  | O => levels
  | S n =>
      if (ShiftCeil width0 level <=? tail_width) && (ShiftCeil height0 level <=? tail_height)
         && (sub32 levels level <=? max_tail)
      then level
      else find_first_tail n width0 height0 tail_width tail_height max_tail levels (add32 level 1)
  end.

(** The loop over the [n] tail levels from [level]. *)
Fixpoint place_tail (n : nat) (block : TextureBlockLayout) (width height first_tail level linear_offset : Z)
    (level_sizes : list TileSizeOffset) (padded_size : list TilePaddedSize)
    : tried (list TileSizeOffset * list TilePaddedSize) :=
  match n with
  | O => gives (level_sizes, padded_size)
  | S n =>
      let mip_width := Z.max (ceil_div32 (Z.shiftr width level) (tb_texel_width block)) 1 in
      let mip_height := Z.max (ceil_div32 (Z.shiftr height level) (tb_texel_height block)) 1 in
      row ← at_index (if tb_block_size block =? 4096 then GEN5_MIP_TAIL_LOCATIONS_THIN_4KB
                      else GEN5_MIP_TAIL_LOCATIONS_THIN_64KB) (countr_zero (tb_bytes block));
      tail ← at_index row (sub32 level first_tail);
      let tail_size := mul64 (mul64 mip_width mip_height) (tb_bytes block) in
      if (tail_size >? u32_max) || (linear_offset >? sub64 u32_max tail_size) then refused else
      level_sizes ← set_index level_sizes level
        (mkTileSizeOffset (to_u32 tail_size) (to_u32 linear_offset) (tb_block_size block) 0 tail.1 tail.2);
      padded_size ← set_index padded_size level
        (mkTilePaddedSize (tb_block_width block * tb_texel_width block)%u32
                          (tb_block_height block * tb_texel_height block)%u32);
      place_tail n block width height first_tail (add32 level 1) (add64 linear_offset tail_size)
        level_sizes padded_size
  end.

(** Size of the largest level of a tail. *)
Definition tail_limits (block : TextureBlockLayout) (tile : Z) : Z * Z :=
  if (tile =? 24) && (tb_bytes block <? 4) then (64, 128)
  else (Z.shiftr (tb_block_width block) 1, tb_block_height block).

Definition SetMacroMipLayout (block : TextureBlockLayout) (tile width height levels : Z)
    (level_sizes : list TileSizeOffset) (padded_size : list TilePaddedSize)
    : tried (TileSizeAlign * list TileSizeOffset * list TilePaddedSize) :=
  let width0 := ceil_div32 width (tb_texel_width block) in
  let height0 := ceil_div32 height (tb_texel_height block) in
  let max_tail := if tb_block_size block =? 4096 then 8 else 12 in
  let '(tail_width, tail_height) := tail_limits block tile in
  let first_tail :=
    if levels >? 1
    then find_first_tail (Z.to_nat levels) width0 height0 tail_width tail_height max_tail levels 0
    else levels in
  let offset := if first_tail <? levels then tb_block_size block else 0 in
  '(offset, level_sizes, padded_size) ←
     place_levels (Z.to_nat first_tail) block width0 height0 offset true level_sizes padded_size;
  '(level_sizes, padded_size) ←
     place_tail (Z.to_nat (levels - first_tail)) block width height first_tail first_tail 0
       level_sizes padded_size;
  if offset >? u32_max then refused
  else gives (mkTileSizeAlign (to_u32 offset) (tb_block_size block), level_sizes, padded_size).

(** ** Texture sizes *)

Definition array16 {A} (a : A) : list A := replicate 16 a.

(** [if (destination != nullptr) std::copy_n(source.begin(), n, destination)]. *)
Definition copy_out {A} (source : list A) (n : Z) (destination : option (list A)) : tried (option (list A)) :=
  match destination with
  | Some d => d ← copy_n source n d; gives (Some d)
  | None => gives None
  end.

(** The loop that measures the levels of a linear image, from [level] over the
    [n] levels that are left; [scale] turns the pitch and the height of a level
    into texels. *)
Fixpoint measure_levels (n : nat) (base_width base_height bytes : Z) (scale : Z -> Z) (level : Z)
    (mip_pitch mip_height mip_size : list Z) : tried (list Z * list Z * list Z) :=
  match n with
  | O => gives (mip_pitch, mip_height, mip_size)
  | S n =>
      '(pitch, height, size) ← CalcLinearAlignedLevelPitch base_width base_height level bytes;
      if (pitch =? 0) || (size =? 0) then refused else
      mip_pitch ← set_index mip_pitch level (scale pitch);
      mip_height ← set_index mip_height level (scale height);
      mip_size ← set_index mip_size level size;
      measure_levels n base_width base_height bytes scale (add32 level 1) mip_pitch mip_height mip_size
  end.

Definition linear_texture (base_width base_height bytes : Z) (scale : Z -> Z) (levels : Z)
    : tried (TileSizeAlign * list TileSizeOffset * list TilePaddedSize) :=
  '(mip_pitch, mip_height, mip_size) ←
     measure_levels (Z.to_nat levels) base_width base_height bytes scale 0
       (array16 0) (array16 0) (array16 0);
  '(total, calculated_levels, calculated_padded) ←
     SetLinearMipChainLayout levels mip_pitch mip_height mip_size (array16 no_level) (array16 no_padding);
  if total =? 0 then refused
  else gives (mkTileSizeAlign total 256, calculated_levels, calculated_padded).

Definition block_texture (block : TextureBlockLayout) (width height levels tile : Z)
    : tried (TileSizeAlign * list TileSizeOffset * list TilePaddedSize) :=
  '(total, calculated_levels, calculated_padded) ←
     (if tile =? 1
      then SetMicroMipLayout block width height levels (array16 no_level) (array16 no_padding)
      else SetMacroMipLayout block tile width height levels (array16 no_level) (array16 no_padding));
  if sa_size total =? 0 then refused else gives (total, calculated_levels, calculated_padded).

(** The size and the sixteen calculated entries, before they are copied out. *)
Definition texture_layout (format width height levels tile : Z)
    : tried (TileSizeAlign * list TileSizeOffset * list TilePaddedSize) :=
  let bytes_per_element := NumBytesPerElement format in
  let bytes_per_block := BlockCompressedBytesPerBlock format in
  if negb (bytes_per_element =? 0) && (tile =? 0) then
    linear_texture width height bytes_per_element (fun v => v) levels
  else
    match GetTextureBlockLayout format tile with
    | undefined => undefined
    | gives block => block_texture block width height levels tile
    | refused =>
        if negb (bytes_per_block =? 0) && (tile =? 0) then
          linear_texture (Z.max (((width + 3)%u32) `div` 4) 1) (Z.max (((height + 3)%u32) `div` 4) 1)
            bytes_per_block (fun v => Z.max (v * 4)%u32 32) levels
        else refused
    end.

Definition TileGetTextureSize (format width height pitch levels tile : Z)
    (total_size : option TileSizeAlign) (level_sizes : option (list TileSizeOffset))
    (padded_size : option (list TilePaddedSize))
    : tried (TileSizeAlign * option (list TileSizeOffset) * option (list TilePaddedSize)) :=
  if negb (bool_decide (is_Some total_size)) || (width =? 0) || (width >? 16384) || (height =? 0)
     || (height >? 16384) || (levels =? 0) || (levels >? 16)
  then refused else
  let element_bytes := NumBytesPerElement format in
  if negb (element_bytes =? 0) && (mul64 (mul64 width height) element_bytes >? u32_max)
  then refused else
  let block_bytes := BlockCompressedBytesPerBlock format in
  if negb (block_bytes =? 0)
     && (mul64 (mul64 ((width + 3)%u32 `div` 4) ((height + 3)%u32 `div` 4)) block_bytes >? u32_max)
  then refused else
  '(total, calculated_levels, calculated_padded) ← texture_layout format width height levels tile;
  level_sizes ← copy_out calculated_levels levels level_sizes;
  padded_size ← copy_out calculated_padded levels padded_size;
  gives (total, level_sizes, padded_size).

(** ** Volumes *)

Record TileVolumeLayout := mkTileVolumeLayout {
  vl_family : TileBlockFamily;
  vl_bytes_per_element : Z;
  vl_texel_width : Z;
  vl_texel_height : Z;
  vl_first_tail_level : Z;
  vl_block_depth : Z;
  vl_block_slice_size : Z;
  vl_total_size : Z;
  vl_level_offsets : list Z;
  vl_level_sizes : list Z;
  vl_tail_x : list Z;
  vl_tail_y : list Z;
  vl_level_widths : list Z;
  vl_level_heights : list Z }.

(** The family of a volume's tiling mode. *)
Definition volume_family (tile : Z) : tried TileBlockFamily :=
  if tile =? 5 then gives Standard4KB3D
  else if tile =? 9 then gives Standard64KB3D
  else if tile =? 17 then gives Prt64KB3D
  else if tile =? 24 then gives Depth64KB
  else if tile =? 27 then gives RenderTarget64KB
  else refused.

Definition is_thick4 (family : TileBlockFamily) : bool := bool_decide (family = Standard4KB3D).
Definition is_thick64 (family : TileBlockFamily) : bool :=
  bool_decide (family = Standard64KB3D) || bool_decide (family = Prt64KB3D).
Definition volume_max_tail (family : TileBlockFamily) : Z :=
  if is_thick4 family then 5 else if is_thick64 family then 10 else 12.
Definition volume_tail_limits (block : TileBlockLayout) (bytes : Z) : Z * Z :=
  if bool_decide (bl_family block = Depth64KB) && (bytes <? 4) then (64, 128)
  else if is_thick4 (bl_family block) then (bl_block_width block, Z.shiftr (bl_block_height block) 1)
  else (Z.shiftr (bl_block_width block) 1, bl_block_height block).
Definition volume_tail_locations (family : TileBlockFamily) (bytes : Z) : tried (list (Z * Z)) :=
  at_index (if is_thick4 family then GEN5_MIP_TAIL_LOCATIONS_THICK_4KB
            else if is_thick64 family then GEN5_MIP_TAIL_LOCATIONS_THICK_64KB
            else GEN5_MIP_TAIL_LOCATIONS_THIN_64KB) (countr_zero bytes).

(** The state of the first loop: the first tail level, the size of a slice of
    blocks, and the widths, heights and sizes of the levels. *)
Record VolumeLevels := mkVolumeLevels {
  vs_first_tail : Z; vs_slice : Z; vs_widths : list Z; vs_heights : list Z; vs_sizes : list Z }.

(** Levels from [level] over the [n] levels that are left, until one fits the
    tail. *)
Fixpoint volume_levels (n : nat) (block : TileBlockLayout) (bytes width0 height0 tail_width tail_height
    max_tail levels level : Z) (s : VolumeLevels) : tried VolumeLevels :=
  match n with
  | O => gives s
  | S n =>
      let mip_width := Z.max (ShiftCeil width0 level) 1 in
      let mip_height := Z.max (ShiftCeil height0 level) 1 in
      if (levels >? 1) && (mip_width <=? tail_width) && (mip_height <=? tail_height)
         && (sub32 levels level <=? max_tail)
      then gives (mkVolumeLevels level (add64 (vs_slice s) (bl_block_size block))
                    (vs_widths s) (vs_heights s) (vs_sizes s))
      else
        let w := AlignUp mip_width (bl_block_width block) in
        let h := AlignUp mip_height (bl_block_height block) in
        let size := mul64 (mul64 (mul64 (bl_block_depth block) w) h) bytes in
        widths ← set_index (vs_widths s) level w;
        heights ← set_index (vs_heights s) level h;
        sizes ← set_index (vs_sizes s) level size;
        volume_levels n block bytes width0 height0 tail_width tail_height max_tail levels (add32 level 1)
          (mkVolumeLevels (vs_first_tail s) (add64 (vs_slice s) size) widths heights sizes)
  end.

(** The loop over the [n] tail levels from [level]: sizes, widths, heights and
    places. *)
Fixpoint volume_tail (n : nat) (block : TileBlockLayout) (locations : list (Z * Z)) (first_tail level : Z)
    (sizes widths heights xs ys : list Z) : tried (list Z * list Z * list Z * list Z * list Z) :=
  match n with
  | O => gives (sizes, widths, heights, xs, ys)
  | S n =>
      tail ← at_index locations (sub32 level first_tail);
      sizes ← set_index sizes level (bl_block_size block);
      widths ← set_index widths level (bl_block_width block);
      heights ← set_index heights level (bl_block_height block);
      xs ← set_index xs level tail.1;
      ys ← set_index ys level tail.2;
      volume_tail n block locations first_tail (add32 level 1) sizes widths heights xs ys
  end.

(** Offsets from level [n - 1] down to level 0. *)
Fixpoint volume_offsets (n : nat) (sizes : list Z) (offset : Z) (offsets : list Z) : tried (Z * list Z) :=
  match n with
  | O => gives (offset, offsets)
  | S n =>
      offsets ← set_index offsets (Z.of_nat n) offset;
      size ← at_index sizes (Z.of_nat n);
      volume_offsets n sizes (add64 offset size) offsets
  end.

Definition TileGetTextureVolumeLayoutImpl (format width height depth levels tile : Z)
    : tried TileVolumeLayout :=
  if (width =? 0) || (height =? 0) || (depth =? 0) || (levels =? 0) || (levels >? 16) then refused else
  element ← GetTextureBlockLayout format tile;
  family ← volume_family tile;
  block ← TileGetBlockLayout family (tb_bytes element);
  let width0 := ceil_div32 width (tb_texel_width element) in
  let height0 := ceil_div32 height (tb_texel_height element) in
  let max_tail := volume_max_tail family in
  let '(tail_width, tail_height) := volume_tail_limits block (tb_bytes element) in
  s ← volume_levels (Z.to_nat levels) block (tb_bytes element) width0 height0 tail_width tail_height
        max_tail levels 0 (mkVolumeLevels levels 0 (array16 0) (array16 0) (array16 0));
  locations ← volume_tail_locations family (tb_bytes element);
  '(sizes, widths, heights, xs, ys) ←
     volume_tail (Z.to_nat (levels - vs_first_tail s)) block locations (vs_first_tail s) (vs_first_tail s)
       (vs_sizes s) (vs_widths s) (vs_heights s) (array16 0) (array16 0);
  let offset := if vs_first_tail s <? levels then bl_block_size block else 0 in
  '(offset, offsets) ← volume_offsets (Z.to_nat (vs_first_tail s)) sizes offset (array16 0);
  let total := mul64 (vs_slice s) (ShiftCeil depth (countr_zero (bl_block_depth block))) in
  if offset =? vs_slice s
  then gives (mkTileVolumeLayout family (tb_bytes element) (tb_texel_width element)
                (tb_texel_height element) (vs_first_tail s) (bl_block_depth block) (vs_slice s) total
                offsets sizes xs ys widths heights)
  else refused.

Definition TileGetTextureVolumeLayout (format width height depth levels tile : Z)
    : tried TileVolumeLayout :=
  if (width >? 16384) || (height >? 16384) || (depth >? 16384) then refused
  else TileGetTextureVolumeLayoutImpl format width height depth levels tile.

Definition TileGetTextureTotalSize (format width height depth pitch levels tile : Z)
    (volume_texture : bool) : tried TileSizeAlign :=
  if depth =? 0 then refused
  else if volume_texture then
    volume ← TileGetTextureVolumeLayout format width height depth levels tile;
    if vl_total_size volume >? u32_max then refused
    else gives (mkTileSizeAlign (to_u32 (vl_total_size volume)) (if tile =? 5 then 4096 else 65536))
  else
    '(slice, _, _) ← TileGetTextureSize format width height pitch levels tile (Some no_size) None None;
    let total := mul64 (sa_size slice) depth in
    if total >? u32_max then refused else gives (mkTileSizeAlign (to_u32 total) (sa_align slice)).

Definition TileGetTexturePitch (format width levels tile : Z) : tried Z :=
  if (width =? 0) || (width >? 16384) || (levels =? 0) || (levels >? 16) then refused else
  if negb ((tile =? 0) || (tile =? 1) || (tile =? 5) || (tile =? 9) || (tile =? 17) || (tile =? 24)
           || (tile =? 27)) then refused else
  if (tile =? 0) && (NumBytesPerElement format =? 0) && (BlockCompressedBytesPerBlock format =? 0)
  then refused else
  _ ← (if tile =? 0 then gives tt else _ ← GetTextureBlockLayout format tile; gives tt);
  let bytes_per_element := NumBytesPerElement format in
  calculated_pitch ←
    (if (tile =? 27) && negb (bytes_per_element =? 0) then
       '(block_width, _) ← Gen5Thin64KBBlockSizeFromElementBytes bytes_per_element;
       gives (AlignUp width block_width)
     else gives width);
  calculated_pitch ←
    (if (tile =? 0) && negb (bytes_per_element =? 0) then
       if calculated_pitch >? u32_max `div` bytes_per_element then refused
       else gives (AlignUp (calculated_pitch * bytes_per_element)%u32 256 `div` bytes_per_element)
     else gives calculated_pitch);
  calculated_pitch ←
    (if (tile =? 9) || (tile =? 17) then
       match Gen5Standard64KBLayout format with
       | gives (_, texels_wide, _, block_width_log2, _) =>
           gives (AlignUp calculated_pitch ((1 <<< block_width_log2) * texels_wide)%u32)
       | undefined => undefined
       | refused => gives calculated_pitch
       end
     else gives calculated_pitch);
  if (tile =? 24) && (bytes_per_element <=? 8) then
    match Gen5Thin64KBBlockSizeFromElementBytes bytes_per_element with
    | gives (block_width, _) => gives (AlignUp calculated_pitch block_width)
    | undefined => undefined
    | refused => gives calculated_pitch
    end
  else gives calculated_pitch.

(** ** Depth and render targets *)

Definition TileGetHtileSize (width height : Z) : tried TileSizeAlign :=
  if (width =? 0) || (width >? 16384) || (height =? 0) || (height >? 16384) then refused else
  let size := mul64 (mul64 (AlignUp width 1024 `div` 1024) (AlignUp height 512 `div` 512)) 32768 in
  if (size =? 0) || (size >? u32_max) then refused
  else gives (mkTileSizeAlign (to_u32 size) 32768).

(** Sizes of the stencil surface, of the HTile buffer and of the depth surface. *)
Definition TileGetDepthSize (width height pitch z_format stencil_format : Z) (htile : bool)
    (num_fragments_log2 : Z) : tried (TileSizeAlign * TileSizeAlign * TileSizeAlign) :=
  if negb (pitch =? 0) then refused else
  if negb ((width >? 0) && (width <=? 16384) && (height >? 0) && (height <=? 16384)
           && ((z_format =? 1) || (z_format =? 3)) && (stencil_format <=? 1)
           && (num_fragments_log2 <=? 3))
  then refused else
  let depth_bytes := if z_format =? 1 then 2 else 4 in
  let fragments := (1 <<< num_fragments_log2)%u32 in
  let depth_block := Gen5Msaa64KBBlockSizeFromElementBytes depth_bytes num_fragments_log2 in
  let stencil_block :=
    if stencil_format =? 0 then gives (0, 0) else Gen5Msaa64KBBlockSizeFromElementBytes 1 num_fragments_log2 in
  let htile_size := if htile then TileGetHtileSize width height else gives no_size in
  (** [valid_blocks] selects between the sizes and 0. *)
  '(depth_total, stencil_total) ←
    match depth_block, stencil_block with
    | undefined, _ => undefined
    | gives _, undefined => undefined
    | gives (dw, dh), gives (sw, sh) =>
        gives (mul64 (mul64 (mul64 (AlignUp width dw) (AlignUp height dh)) depth_bytes) fragments,
               if stencil_format =? 1
               then mul64 (mul64 (AlignUp width sw) (AlignUp height sh)) fragments else 0)
    | _, _ => gives (0, 0)
    end;
  calculated_htile ← htile_size;
  if (depth_total <=? u32_max) && (stencil_total <=? u32_max)
  then gives ((if stencil_format =? 1 then mkTileSizeAlign (to_u32 stencil_total) 65536 else no_size),
              calculated_htile, mkTileSizeAlign (to_u32 depth_total) 65536)
  else refused.

(** [(value + unit - 1u) & ~(unit - 1u)] in 64 bits. *)
Definition align_up64 (value unit : Z) : Z :=
  Z.land (sub64 (value + unit)%u64 1) (not64 (unit - 1)%u32).

Definition TileGetRenderTargetPitch (width bytes_per_element num_fragments_log2 : Z) : tried Z :=
  if width =? 0 then refused else
  '(block_width, _) ← Gen5Msaa64KBBlockSizeFromElementBytes bytes_per_element num_fragments_log2;
  let calculated_pitch := align_up64 width block_width in
  if calculated_pitch >? u32_max then refused else gives (to_u32 calculated_pitch).

Definition TileGetDepthPitch (width bytes_per_element num_fragments_log2 : Z) : tried Z :=
  TileGetRenderTargetPitch width bytes_per_element num_fragments_log2.

Definition TileGetRenderTargetSize (width height pitch bytes_per_element num_fragments_log2 : Z)
    : tried TileSizeAlign :=
  if (height =? 0) || (pitch =? 0) then refused else
  '(block_width, block_height) ←
     Gen5Msaa64KBBlockSizeFromElementBytes bytes_per_element num_fragments_log2;
  expected_pitch ← TileGetRenderTargetPitch width bytes_per_element num_fragments_log2;
  if negb (pitch =? expected_pitch) then refused else
  let padded_height := align_up64 height block_height in
  let size := mul64 (mul64 (mul64 pitch padded_height) bytes_per_element) (Z.shiftl 1 num_fragments_log2) in
  if (size =? 0) || (size >? u32_max) then refused else gives (mkTileSizeAlign (to_u32 size) 65536).

(** [while (max_dimension > 1) { max_dimension >>= 1; max_levels++; }]; 32
    rounds are enough for 32 bits. *)
Fixpoint count_levels (fuel : nat) (max_dimension max_levels : Z) : Z :=
  match fuel with
  | O => max_levels
  | S fuel => if max_dimension >? 1 then count_levels fuel (Z.shiftr max_dimension 1) (add32 max_levels 1)
              else max_levels
  end.

Definition render_target_format (bytes_per_element : Z) : tried Z :=
  if bytes_per_element =? 1 then gives (BufferFormatValue k8UNorm)
  else if bytes_per_element =? 2 then gives (BufferFormatValue k16UNorm)
  else if bytes_per_element =? 4 then gives (BufferFormatValue k32Float)
  else if bytes_per_element =? 8 then gives (BufferFormatValue k16_16_16_16Float)
  else if bytes_per_element =? 16 then gives (BufferFormatValue k32_32_32_32Float)
  else refused.

Definition TileGetRenderTargetMipLayout (width height pitch bytes_per_element levels : Z)
    (level_sizes : option (list TileSizeOffset)) (padded_size : option (list TilePaddedSize))
    : tried (TileSizeAlign * option (list TileSizeOffset) * option (list TilePaddedSize)) :=
  if (width =? 0) || (height =? 0) || (levels =? 0) || (levels >? 16) then refused else
  expected_pitch ← TileGetRenderTargetPitch width bytes_per_element 0;
  if negb (pitch =? expected_pitch) then refused else
  if levels >? count_levels 32 (Z.max width height) 1 then refused else
  format ← render_target_format bytes_per_element;
  '(total, calculated_levels, calculated_padded) ←
     TileGetTextureSize format width height pitch levels (TileModeValue kRenderTarget)
       (Some no_size) (Some (array16 no_level)) (Some (array16 no_padding));
  if (sa_size total =? 0) || negb (sa_align total =? 65536) then refused else
  level_sizes ← copy_out (default [] calculated_levels) levels level_sizes;
  padded_size ← copy_out (default [] calculated_padded) levels padded_size;
  gives (total, level_sizes, padded_size).
