(* ===== verification/TileTextureProps.v ===== *)
(** Properties of mip chains and texture sizes ([src/gpu/tile_layout.cpp]): sizes
    and pitches, and the levels of a chain with its tail. *)
From S2P Require Import Prelude Words32 Formats TileBlocks TileTextures.

(** ** Rounding *)

(** The least multiple of [unit] at or above [v]. *)
Definition round_up (v unit : Z) : Z := unit * ((v + unit - 1) `div` unit).

#[global] Arguments round_up : simpl never.

Lemma round_up_spec v unit :
  0 < unit -> v <= round_up v unit < v + unit /\ round_up v unit mod unit = 0.
Proof.
  intros Hu. unfold round_up. pose proof (Z.div_mod (v + unit - 1) unit ltac:(lia)).
  pose proof (Z.mod_pos_bound (v + unit - 1) unit Hu).
  split; [lia|]. rewrite Z.mul_comm. apply Z.mod_mul. lia.
Qed.

Lemma round_up_mono v w unit : 0 < unit -> v <= w -> round_up v unit <= round_up w unit.
Proof. intros Hu H. unfold round_up. apply Z.mul_le_mono_nonneg_l; [lia|]. apply Z.div_le_mono; lia. Qed.

(** Clearing the low bits of a word. *)
Lemma land_high v (k n : Z) :
  0 <= k <= n -> 0 <= v < 2 ^ n -> Z.land v (2 ^ n - 2 ^ k) = 2 ^ k * (v / 2 ^ k).
Proof.
  intros Hk Hv. replace (2 ^ n - 2 ^ k) with (Z.shiftl (Z.ones (n - k)) k).
  2: { rewrite Z.ones_equiv, Z.shiftl_mul_pow2 by lia.
       replace n with (n - k + k) at 2 by lia. rewrite Z.pow_add_r by lia. lia. }
  rewrite Z.mul_comm, <- Z.shiftl_mul_pow2, <- Z.shiftr_div_pow2 by lia.
  apply Z.bits_inj'. intros i Hi. rewrite Z.land_spec, !Z.shiftl_spec by lia.
  destruct (decide (i < k)).
  - rewrite !(Z.testbit_neg_r _ (i - k)) by lia. by rewrite andb_false_r.
  - rewrite Z.shiftr_spec by lia. replace (i - k + k) with i by lia.
    destruct (decide (i < n)).
    + by rewrite Z.ones_spec_low, andb_true_r by lia.
    + rewrite Z.ones_spec_high, andb_false_r by lia. symmetry.
      destruct (decide (v = 0)) as [->|]; [apply Z.bits_0|].
      apply Z.bits_above_log2; [lia|]. apply Z.log2_lt_pow2; [lia|].
      apply Z.lt_le_trans with (2 ^ n); [lia|]. apply Z.pow_le_mono_r; lia.
Qed.

Lemma AlignUp_pow2 v k :
  0 <= k <= 16 -> 0 <= v -> v + 2 ^ k <= u32_max -> AlignUp v (2 ^ k) = round_up v (2 ^ k).
Proof.
  intros Hk Hv Hle. assert (0 < 2 ^ k <= 2 ^ 16)
    by (split; [apply Z.pow_pos_nonneg|apply Z.pow_le_mono_r]; lia).
  change (2 ^ 16) with 65536 in *. unfold AlignUp, not32, round_up.
  rewrite add32_small, !sub32_small by (rewrite ?add32_small; u32_lia).
  replace (u32_max - (2 ^ k - 1)) with (2 ^ 32 - 2 ^ k) by (unfold u32_max; lia).
  rewrite land_high by u32_lia. done.
Qed.

Lemma ShiftCeil_spec v s :
  is_u32 v -> 0 <= s <= 16 -> ShiftCeil v s = (v + 2 ^ s - 1) / 2 ^ s.
Proof.
  intros Hv Hs. assert (0 < 2 ^ s <= 2 ^ 16)
    by (split; [apply Z.pow_pos_nonneg|apply Z.pow_le_mono_r]; lia).
  change (2 ^ 16) with 65536 in *. unfold ShiftCeil.
  rewrite Z.shiftl_mul_pow2, Z.mul_1_l, Z.shiftr_div_pow2 by lia.
  rewrite add64_small by (unfold is_u32, u32_max in *; u64_lia).
  rewrite sub64_small by (unfold is_u32, u32_max in *; u64_lia).
  apply to_u32_small. split; [apply Z.div_pos; u32_lia|].
  apply Z.div_le_upper_bound; [lia|]. unfold is_u32, u32_max in *. nia.
Qed.

(** [ceil_div] of exact integers; what the dimensions of a level are. *)
Definition ceil_div (v unit : Z) : Z := (v + unit - 1) / unit.

Lemma ceil_div32_spec v unit :
  0 < unit -> 0 <= v -> v + unit <= u32_max -> ceil_div32 v unit = ceil_div v unit.
Proof.
  intros Hu Hv Hle. unfold ceil_div32, ceil_div.
  by rewrite sub32_small; rewrite add32_small by u32_lia; [|u32_lia].
Qed.

Lemma ceil_div_le v unit m : 0 < unit -> v <= unit * m -> ceil_div v unit <= m.
Proof. intros Hu H. unfold ceil_div. apply Z.lt_succ_r, Z.div_lt_upper_bound; lia. Qed.

Lemma ceil_div_lower v unit : 0 < unit -> v <= unit * ceil_div v unit.
Proof.
  intros Hu. unfold ceil_div. pose proof (Z.div_mod (v + unit - 1) unit ltac:(lia)).
  pose proof (Z.mod_pos_bound (v + unit - 1) unit Hu). lia.
Qed.

Lemma ceil_div_mono v w unit : 0 < unit -> v <= w -> ceil_div v unit <= ceil_div w unit.
Proof. intros Hu H. apply Z.div_le_mono; lia. Qed.

Lemma ceil_div_pos v unit : 0 < unit -> 0 < v -> 0 < ceil_div v unit.
Proof. intros Hu H. unfold ceil_div. apply Z.div_str_pos. lia. Qed.

(** ** Blocks of textures *)

Record texture_block_ok (block : TextureBlockLayout) : Prop := {
  to_powers : exists kw kh lo : Z,
    (0 <= kw <= 8 /\ 0 <= kh <= 8 /\ 0 <= lo <= 4)
    /\ tb_block_width block = 2 ^ kw /\ tb_block_height block = 2 ^ kh /\ tb_bytes block = 2 ^ lo;
  to_size : tb_block_width block * tb_block_height block * tb_bytes block = tb_block_size block;
  to_texel : (tb_texel_width block = 1 /\ tb_texel_height block = 1)
             \/ (tb_texel_width block = 4 /\ tb_texel_height block = 4) }.

(** The block layouts of textures, by tiling mode. *)
Definition texture_blocks : list (Z * TextureBlockLayout) :=
  let standard tile size ws :=
    map (fun '(b, t, w, h) => (tile, mkTextureBlockLayout b t t w h size)) ws in
  let dims w h := [(1, 1, w, h); (2, 1, w, h / 2); (4, 1, w / 2, h / 2); (8, 1, w / 2, h / 4);
                   (16, 1, w / 4, h / 4); (8, 4, w / 2, h / 4); (16, 4, w / 4, h / 4)] in
  standard 1 256 (dims 16 16) ++ standard 5 4096 (dims 64 64) ++ standard 9 65536 (dims 256 256)
  ++ standard 17 65536 (dims 256 256)
  ++ standard 24 65536 (take 4 (dims 256 256)) ++ standard 27 65536 (take 5 (dims 256 256)).

Lemma texture_block_cases format tile block :
  GetTextureBlockLayout format tile = gives block -> (tile, block) ∈ texture_blocks.
Proof.
  intros H. pose proof (format_bytes format) as (He & Hb & _). revert H.
  unfold GetTextureBlockLayout, Gen5Standard256BLayout, Gen5Standard4KBLayout, Gen5Standard64KBLayout,
    Gen5Thin64KBBlockSizeFromElementBytes. cbn zeta.
  set (e := NumBytesPerElement format) in *. set (b := BlockCompressedBytesPerBlock format) in *.
  clearbody e b.
  destruct (Z.eqb_spec tile 1) as [->|_]; [|destruct (Z.eqb_spec tile 5) as [->|_];
   [|destruct (Z.eqb_spec tile 9) as [->|_]; [|destruct (Z.eqb_spec tile 17) as [->|_];
   [|destruct (Z.eqb_spec tile 24) as [->|_]; [|destruct (Z.eqb_spec tile 27) as [->|_]; [|done]]]]]];
  destruct He as [->|[->|[->|[->|[->|[->| ->]]]]]]; destruct Hb as [->|[->| ->]];
  vm_compute; intros [= <-]; repeat constructor.
Qed.

Lemma texture_blocks_forall (p : Z * TextureBlockLayout -> bool) format tile block :
  forallb p texture_blocks = true ->
  GetTextureBlockLayout format tile = gives block -> p (tile, block) = true.
Proof.
  intros Hp H%texture_block_cases%list_elem_of_In. rewrite forallb_forall in Hp. by apply Hp.
Qed.

Definition pow2_upto (n v : Z) : bool := (v =? 2 ^ Z.log2 v) && (Z.log2 v <=? n).

Lemma pow2_upto_spec n v : pow2_upto n v = true -> exists k, 0 <= k <= n /\ v = 2 ^ k.
Proof.
  unfold pow2_upto. rewrite andb_true_iff, Z.eqb_eq, Z.leb_le. intros [E Hn].
  exists (Z.log2 v). split; [|done]. pose proof (Z.log2_nonneg v). lia.
Qed.

Lemma texture_block_sound format tile block :
  GetTextureBlockLayout format tile = gives block -> texture_block_ok block.
Proof.
  intros H. apply (texture_blocks_forall (fun '(_, b) =>
    pow2_upto 8 (tb_block_width b) && pow2_upto 8 (tb_block_height b) && pow2_upto 4 (tb_bytes b)
    && (tb_block_width b * tb_block_height b * tb_bytes b =? tb_block_size b)
    && (((tb_texel_width b =? 1) && (tb_texel_height b =? 1))
        || ((tb_texel_width b =? 4) && (tb_texel_height b =? 4))))) in H; [|by vm_compute].
  rewrite !andb_true_iff, orb_true_iff, !andb_true_iff, !Z.eqb_eq in H.
  destruct H as ((((Hw & Hh) & Hb) & Hs) & Ht). split; [|done|done].
  apply pow2_upto_spec in Hw as (kw & ? & ?), Hh as (kh & ? & ?), Hb as (lo & ? & ?).
  by exists kw, kh, lo.
Qed.

(** ** The levels outside the tail *)

(** Width and height of a level in elements, and its padded size in bytes. *)
Definition level_width (width0 level : Z) : Z := Z.max (ceil_div width0 (2 ^ level)) 1.
Definition level_bytes (block : TextureBlockLayout) (width0 height0 level : Z) : Z :=
  round_up (level_width width0 level) (tb_block_width block)
  * round_up (level_width height0 level) (tb_block_height block) * tb_bytes block.

(** The sum of the sizes of the levels below [n]. *)
Fixpoint sum_levels (size : Z -> Z) (n : nat) : Z :=
  match n with O => 0 | S n => sum_levels size n + size (Z.of_nat n) end.

Section chain.
Context (block : TextureBlockLayout) (Hok : texture_block_ok block).
Context (width0 height0 : Z) (Hw : 0 <= width0 <= 16384) (Hh : 0 <= height0 <= 16384).

Lemma level_width_range v level :
  0 <= v <= 16384 -> 0 <= level <= 16 -> 1 <= level_width v level <= 16384.
Proof.
  intros Hv Hl. unfold level_width. assert (0 < 2 ^ level) by (apply Z.pow_pos_nonneg; lia).
  assert (ceil_div v (2 ^ level) <= 16384) by (apply ceil_div_le; nia). lia.
Qed.

Lemma level_padding_spec level :
  0 <= level <= 16 ->
  level_padding block width0 height0 level
  = (round_up (level_width width0 level) (tb_block_width block),
     round_up (level_width height0 level) (tb_block_height block)).
Proof.
  intros Hl. destruct (to_powers _ Hok) as (kw & kh & lo & (Hkw & Hkh & Hlo) & Ew & Eh & Eb).
  pose proof (level_width_range width0 level Hw Hl). pose proof (level_width_range height0 level Hh Hl).
  assert (2 ^ kw <= 2 ^ 8 /\ 2 ^ kh <= 2 ^ 8) as [] by (split; apply Z.pow_le_mono_r; lia).
  change (2 ^ 8) with 256 in *.
  unfold level_padding. rewrite Ew, Eh, !ShiftCeil_spec by u32_lia.
  change ((width0 + 2 ^ level - 1) / 2 ^ level) with (ceil_div width0 (2 ^ level)).
  change ((height0 + 2 ^ level - 1) / 2 ^ level) with (ceil_div height0 (2 ^ level)).
  fold (level_width width0 level) (level_width height0 level).
  rewrite !AlignUp_pow2 by u32_lia. done.
Qed.

Lemma level_bytes_range level :
  0 <= level <= 16 ->
  0 < level_bytes block width0 height0 level <= 2 ^ 34
  /\ 0 < round_up (level_width width0 level) (tb_block_width block) < 32768
  /\ 0 < round_up (level_width height0 level) (tb_block_height block) < 32768
  /\ 1 <= tb_bytes block <= 16.
Proof.
  intros Hl. destruct (to_powers _ Hok) as (kw & kh & lo & (Hkw & Hkh & Hlo) & Ew & Eh & Eb).
  pose proof (level_width_range width0 level Hw Hl). pose proof (level_width_range height0 level Hh Hl).
  unfold level_bytes. rewrite Ew, Eh, Eb.
  assert (0 < 2 ^ kw <= 2 ^ 8) by (split; [apply Z.pow_pos_nonneg|apply Z.pow_le_mono_r]; lia).
  assert (0 < 2 ^ kh <= 2 ^ 8) by (split; [apply Z.pow_pos_nonneg|apply Z.pow_le_mono_r]; lia).
  assert (0 < 2 ^ lo <= 2 ^ 4) by (split; [apply Z.pow_pos_nonneg|apply Z.pow_le_mono_r]; lia).
  change (2 ^ 8) with 256 in *. change (2 ^ 4) with 16 in *. change (2 ^ 34) with (32768 * 32768 * 16).
  pose proof (round_up_spec (level_width width0 level) (2 ^ kw) ltac:(lia)) as [? _].
  pose proof (round_up_spec (level_width height0 level) (2 ^ kh) ltac:(lia)) as [? _].
  set (a := round_up _ (2 ^ kw)) in *. set (b := round_up _ (2 ^ kh)) in *. clearbody a b.
  split; [|lia]. split; [repeat apply Z.mul_pos_pos; lia|].
  repeat first [apply Z.mul_le_mono_nonneg | apply Z.mul_nonneg_nonneg]; lia.
Qed.

(** A level takes whole blocks. *)
Lemma level_bytes_blocks level : (tb_block_size block | level_bytes block width0 height0 level).
Proof.
  unfold level_bytes, round_up. rewrite <- (to_size _ Hok).
  match goal with |- (?a * ?b * ?c | ?a * ?x * (?b * ?y) * ?c) => exists (x * y); ring end.
Qed.

(** The entries of a level placed at [offset]. *)
Definition placed (with_source : bool) (level offset : Z) : TileSizeOffset :=
  let size := level_bytes block width0 height0 level in
  if with_source then mkTileSizeOffset size offset size offset 0 0
  else mkTileSizeOffset size offset 0 0 0 0.
Definition padding (level : Z) : TilePaddedSize :=
  mkTilePaddedSize
    (round_up (level_width width0 level) (tb_block_width block) * tb_texel_width block)
    (round_up (level_width height0 level) (tb_block_height block) * tb_texel_height block).

Lemma place_level_spec level offset source ls ps :
  0 <= level < 16 -> 0 <= offset <= u32_max -> length ls = 16%nat -> length ps = 16%nat ->
  place_level block width0 height0 level offset source ls ps =
  if decide (offset + level_bytes block width0 height0 level <= u32_max)
  then gives (offset + level_bytes block width0 height0 level,
              <[Z.to_nat level := placed source level offset]> ls,
              <[Z.to_nat level := padding level]> ps)
  else refused.
Proof.
  intros Hl Ho El Ep. destruct (level_bytes_range level ltac:(lia)) as (Hs & Hpw & Hph & Hb).
  unfold place_level. rewrite level_padding_spec by lia. fold (level_bytes block width0 height0 level).
  change (2 ^ 34) with 17179869184 in *. unfold u32_max in *.
  assert (E : mul64 (mul64 (round_up (level_width width0 level) (tb_block_width block))
      (round_up (level_width height0 level) (tb_block_height block))) (tb_bytes block)
    = level_bytes block width0 height0 level).
  { unfold level_bytes in *. rewrite (mul64_small (round_up _ _)) by (u64_lia || nia).
    apply mul64_small. u64_lia. }
  rewrite E. destruct (decide _) as [Hfit|Hfit].
  - rewrite Z.gtb_ltb, (proj2 (Z.ltb_ge _ _)) by lia. rewrite sub64_small by u64_lia.
    rewrite Z.gtb_ltb, (proj2 (Z.ltb_ge _ _)) by lia. simpl.
    rewrite !set_index_def by lia. simpl. rewrite add64_small by u64_lia.
    rewrite !to_u32_small by (unfold is_u32, u32_max; lia).
    unfold padding. pose proof (to_texel _ Hok).
    rewrite !mul32_small by (unfold u32_max; nia).
    by destruct source.
  - rewrite Z.gtb_ltb. destruct (Z.ltb_spec 4294967295 (level_bytes block width0 height0 level)); [done|].
    rewrite sub64_small by u64_lia. by rewrite Z.gtb_ltb, (proj2 (Z.ltb_lt _ _)) by lia.
Qed.

Lemma sum_levels_mono (size : Z -> Z) n m :
  (forall l, (n <= l < m)%nat -> 0 <= size (Z.of_nat l)) -> (n <= m)%nat ->
  sum_levels size n <= sum_levels size m.
Proof.
  intros Hp Hle. induction m as [|m IH]; [by replace n with 0%nat by lia|].
  destruct (decide (n = S m)) as [->|]; [done|]. simpl.
  assert (sum_levels size n <= sum_levels size m) by (apply IH; [intros; apply Hp; lia|lia]).
  pose proof (Hp m ltac:(lia)). lia.
Qed.

(** The levels follow each other from the last to the first; they are refused
    exactly when they do not fit 32 bits. *)
Lemma place_levels_spec source (n : nat) : forall offset ls ps,
  (n <= 16)%nat -> 0 <= offset <= u32_max -> length ls = 16%nat -> length ps = 16%nat ->
  let sum := sum_levels (level_bytes block width0 height0) in
  if decide (offset + sum n <= u32_max) then
    exists ls' ps',
      place_levels n block width0 height0 offset source ls ps = gives (offset + sum n, ls', ps')
      /\ length ls' = 16%nat /\ length ps' = 16%nat
      /\ (forall l, (l < n)%nat ->
            ls' !! l = Some (placed source (Z.of_nat l) (offset + (sum n - sum (S l))))
            /\ ps' !! l = Some (padding (Z.of_nat l)))
      /\ (forall l, (n <= l)%nat -> ls' !! l = ls !! l /\ ps' !! l = ps !! l)
  else place_levels n block width0 height0 offset source ls ps = refused.
Proof.
  cbn zeta. induction n as [|n IH]; intros offset ls ps Hn Ho El Ep; simpl.
  - rewrite Z.add_0_r, decide_True by lia. exists ls, ps. split_and!; [done..|intros; lia|done].
  - rewrite place_level_spec by (done || lia).
    destruct (level_bytes_range (Z.of_nat n) ltac:(lia)) as (Hs & _).
    pose proof (sum_levels_mono (level_bytes block width0 height0) 0 n) as Hsum. simpl in Hsum.
    specialize (Hsum ltac:(intros l Hl; destruct (level_bytes_range (Z.of_nat l)); lia) ltac:(lia)).
    set (size := level_bytes block width0 height0 (Z.of_nat n)) in *.
    set (sum := sum_levels (level_bytes block width0 height0)) in *.
    destruct (decide (offset + (sum n + size) <= u32_max)) as [Hfit|Hfit].
    + rewrite decide_True by lia. simpl. rewrite Nat2Z.id.
      specialize (IH (offset + size) (<[n:=placed source (Z.of_nat n) offset]> ls)
        (<[n:=padding (Z.of_nat n)]> ps) ltac:(lia) ltac:(lia)
        ltac:(by rewrite length_insert) ltac:(by rewrite length_insert)).
      rewrite decide_True in IH by lia. destruct IH as (ls' & ps' & E & El' & Ep' & Hin & Hout).
      exists ls', ps'. split_and!; [rewrite E; do 3 f_equal; lia|done|done|..].
      * intros l Hl. destruct (decide (l = n)) as [->|Hne].
        -- destruct (Hout n ltac:(lia)) as [-> ->]. rewrite !list_lookup_insert_eq by lia.
           split; [|done]. do 2 f_equal. change (sum_levels _ n) with (sum n). simpl. lia.
        -- destruct (Hin l ltac:(lia)) as [-> ->]. split; [|done]. do 2 f_equal.
           change (sum (S l)) with (sum l + level_bytes block width0 height0 (Z.of_nat l)). lia.
      * intros l Hl. destruct (Hout l ltac:(lia)) as [-> ->]. by rewrite !list_lookup_insert_ne by lia.
    + destruct (decide _) as [Hfit'|]; [|done]. simpl. rewrite Nat2Z.id.
      specialize (IH (offset + size) (<[n:=placed source (Z.of_nat n) offset]> ls)
        (<[n:=padding (Z.of_nat n)]> ps) ltac:(lia) ltac:(lia)
        ltac:(by rewrite length_insert) ltac:(by rewrite length_insert)).
      rewrite decide_False in IH by lia. done.
Qed.
End chain.

(** ** The tail *)

Definition max_tail_levels (block : TextureBlockLayout) : Z := if tb_block_size block =? 4096 then 8 else 12.
Definition tail_locations (block : TextureBlockLayout) : tried (list (Z * Z)) :=
  at_index (if tb_block_size block =? 4096 then GEN5_MIP_TAIL_LOCATIONS_THIN_4KB
            else GEN5_MIP_TAIL_LOCATIONS_THIN_64KB) (countr_zero (tb_bytes block)).

(** A rectangle of elements: left, top, width, height. *)
Definition rectangle : Type := Z * Z * Z * Z.
Definition rect_inside (width height : Z) (r : rectangle) : bool :=
  let '(x, y, w, h) := r in (0 <=? x) && (0 <=? y) && (x + w <=? width) && (y + h <=? height).
Definition rect_apart (r s : rectangle) : bool :=
  let '(x, y, w, h) := r in let '(x', y', w', h') := s in
  (x + w <=? x') || (x' + w' <=? x) || (y + h <=? y') || (y' + h' <=? y).

(** The largest rectangles that the levels of a tail can take, given the limits
    of its first level. *)
Definition tail_rects (tw th : Z) (locations : list (Z * Z)) : list rectangle :=
  imap (fun i l => (l.1, l.2, ceil_div tw (2 ^ Z.of_nat i), ceil_div th (2 ^ Z.of_nat i))) locations.

Fixpoint pairwise {A} (p : A -> A -> bool) (l : list A) : bool :=
  match l with [] => true | a :: l => forallb (p a) l && pairwise p l end.

Definition tail_check (width height tw th : Z) (locations : list (Z * Z)) : bool :=
  forallb (rect_inside width height) (tail_rects tw th locations)
  && pairwise rect_apart (tail_rects tw th locations).

(** In every tiling mode with a tail the rectangles lie in the block and do not
    overlap. *)
Lemma tail_tables format tile block :
  GetTextureBlockLayout format tile = gives block -> tile <> 1 ->
  exists locations,
    tail_locations block = gives locations
    /\ Z.of_nat (length locations) = max_tail_levels block
    /\ tail_check (tb_block_width block) (tb_block_height block)
         (tail_limits block tile).1 (tail_limits block tile).2 locations = true
    /\ 1 <= (tail_limits block tile).1 <= tb_block_width block
    /\ 1 <= (tail_limits block tile).2 <= tb_block_height block.
Proof.
  intros H Hne. apply (texture_blocks_forall (fun '(tile, b) => (tile =? 1) ||
    match tail_locations b with
    | gives locations => (Z.of_nat (length locations) =? max_tail_levels b)
       && tail_check (tb_block_width b) (tb_block_height b)
            (tail_limits b tile).1 (tail_limits b tile).2 locations
       && (1 <=? (tail_limits b tile).1) && ((tail_limits b tile).1 <=? tb_block_width b)
       && (1 <=? (tail_limits b tile).2) && ((tail_limits b tile).2 <=? tb_block_height b)
    | _ => false
    end)) in H; [|by vm_compute].
  rewrite (proj2 (Z.eqb_neq tile 1) Hne) in H. simpl in H.
  destruct (tail_locations block) as [| |locations]; [done..|]. exists locations.
  rewrite !andb_true_iff, Z.eqb_eq, !Z.leb_le in H. intuition.
Qed.

Definition fits_tail (width0 height0 tw th max_tail levels level : Z) : Prop :=
  ceil_div width0 (2 ^ level) <= tw /\ ceil_div height0 (2 ^ level) <= th /\ levels - level <= max_tail.

(** The search finds the first level that fits the tail. *)
Lemma find_first_tail_spec width0 height0 tw th max_tail levels (n : nat) : forall level,
  is_u32 width0 -> is_u32 height0 -> 0 <= level -> level + Z.of_nat n = levels -> levels <= 16 ->
  let f := find_first_tail n width0 height0 tw th max_tail levels level in
  level <= f <= levels
  /\ (f < levels -> fits_tail width0 height0 tw th max_tail levels f)
  /\ (forall l, level <= l < f -> ~ fits_tail width0 height0 tw th max_tail levels l).
Proof.
  cbn zeta. induction n as [|n IH]; intros level Hw Hh Hl En Hle; simpl.
  - split_and!; [lia..|]. intros l Hl'. lia.
  - rewrite !ShiftCeil_spec, sub32_small by u32_lia.
    fold (ceil_div width0 (2 ^ level)) (ceil_div height0 (2 ^ level)).
    match goal with |- context [ if ?c then _ else _ ] => destruct c eqn:Ec end.
    + rewrite !andb_true_iff, !Z.leb_le in Ec. split_and!; [lia..| |intros; lia].
      intros _. unfold fits_tail. intuition.
    + rewrite add32_small by u32_lia.
      destruct (IH (level + 1)) as (Hr & Hf & Hn); [done|done|lia|lia|done|].
      split_and!; [lia|lia|done|]. intros l Hl'. destruct (decide (l = level)) as [->|].
      * intros (H1 & H2 & H3). rewrite !andb_false_iff, !Z.leb_gt in Ec. lia.
      * apply Hn. lia.
Qed.

(** Width of a tail level in elements. *)
Definition tail_width (width texel level : Z) : Z := Z.max (ceil_div (width / 2 ^ level) texel) 1.

Lemma tail_width_bound width texel tw f level :
  0 < texel -> 0 <= f <= level -> 0 <= width -> 1 <= tw ->
  ceil_div (ceil_div width texel) (2 ^ f) <= tw ->
  1 <= tail_width width texel level <= ceil_div tw (2 ^ (level - f)).
Proof.
  intros Ht Hl Hw Htw Hf. set (M := ceil_div tw (2 ^ (level - f))).
  assert (0 < 2 ^ f) by (apply Z.pow_pos_nonneg; lia).
  assert (0 < 2 ^ (level - f)) by (apply Z.pow_pos_nonneg; lia).
  assert (El : 2 ^ level = 2 ^ f * 2 ^ (level - f)).
  { rewrite <- Z.pow_add_r by lia. f_equal. lia. }
  assert (HM : tw <= 2 ^ (level - f) * M) by (by apply ceil_div_lower).
  assert (0 < M) by (apply ceil_div_pos; lia).
  pose proof (ceil_div_lower (ceil_div width texel) (2 ^ f) ltac:(lia)).
  pose proof (ceil_div_lower width texel Ht).
  unfold tail_width. split; [lia|]. apply Z.max_lub; [|lia].
  apply ceil_div_le; [done|]. apply Z.div_le_upper_bound; [lia|]. rewrite El.
  assert (ceil_div width texel <= 2 ^ f * (2 ^ (level - f) * M)) by nia. nia.
Qed.

Section tail.
Context (block : TextureBlockLayout) (Hok : texture_block_ok block) (locations : list (Z * Z)).
Context (Hloc : tail_locations block = gives locations).
Context (width height : Z) (Hw : 0 <= width <= 16384) (Hh : 0 <= height <= 16384).
Context (levels first : Z) (Hf : 0 <= first <= levels) (Hlev : levels <= 16).
Context (Hlen : levels - first <= Z.of_nat (length locations)).

Definition tail_bytes (level : Z) : Z :=
  tail_width width (tb_texel_width block) level * tail_width height (tb_texel_height block) level
  * tb_bytes block.
(** Every tail level is smaller than the block. *)
Context (Hfit : forall l, first <= l < levels -> tail_bytes l <= 65536).

(** The sum of the sizes of the tail levels from [first] below [n]. *)
Definition tail_sum (n : nat) : Z := sum_levels (fun i => tail_bytes (first + i)) n.

Definition tail_entry (l : nat) (location : Z * Z) : TileSizeOffset :=
  mkTileSizeOffset (tail_bytes (first + Z.of_nat l)) (tail_sum l) (tb_block_size block) 0
    location.1 location.2.

Lemma tail_width_spec v texel level :
  0 <= v <= 16384 -> texel = 1 \/ texel = 4 -> 0 <= level <= 16 ->
  Z.max (ceil_div32 (Z.shiftr v level) texel) 1 = tail_width v texel level
  /\ 1 <= tail_width v texel level <= 16384.
Proof.
  intros Hv Ht Hl. assert (0 < 2 ^ level) by (apply Z.pow_pos_nonneg; lia).
  assert (0 <= v / 2 ^ level <= 16384).
  { split; [apply Z.div_pos; lia|]. apply Z.div_le_upper_bound; nia. }
  rewrite Z.shiftr_div_pow2, ceil_div32_spec by u32_lia. split; [done|].
  unfold tail_width. assert (ceil_div (v / 2 ^ level) texel <= 16384) by (apply ceil_div_le; lia). lia.
Qed.

Lemma tail_bytes_range l : 0 <= l <= 16 -> 0 < tail_bytes l /\
  mul64 (mul64 (Z.max (ceil_div32 (Z.shiftr width l) (tb_texel_width block)) 1)
               (Z.max (ceil_div32 (Z.shiftr height l) (tb_texel_height block)) 1)) (tb_bytes block)
  = tail_bytes l.
Proof.
  intros Hl.
  destruct (to_powers _ Hok) as (_ & _ & lo & (_ & _ & Hlo) & _ & _ & Eb).
  assert (0 < 2 ^ lo <= 2 ^ 4) by (split; [apply Z.pow_pos_nonneg|apply Z.pow_le_mono_r]; lia).
  change (2 ^ 4) with 16 in *.
  assert (Ht : (tb_texel_width block = 1 \/ tb_texel_width block = 4)
               /\ (tb_texel_height block = 1 \/ tb_texel_height block = 4))
    by (destruct (to_texel _ Hok); lia).
  destruct (tail_width_spec width (tb_texel_width block) l) as [-> Hx]; [done|apply Ht|done|].
  destruct (tail_width_spec height (tb_texel_height block) l) as [-> Hy]; [done|apply Ht|done|].
  unfold tail_bytes. rewrite Eb. set (a := tail_width width _ _) in *. set (b := tail_width height _ _) in *.
  clearbody a b. assert (1 <= a * b <= 16384 * 16384) by nia.
  assert (Eab : mul64 a b = a * b) by (apply mul64_small; u64_lia). rewrite Eab.
  set (c := 2 ^ lo) in *. clearbody c. set (ab := a * b) in *. clearbody ab.
  assert (1 <= ab * c <= 16384 * 16384 * 16) by nia.
  split; [lia|]. apply mul64_small. u64_lia.
Qed.

Lemma tail_sum_range (n : nat) : Z.of_nat n <= levels - first -> 0 <= tail_sum n <= 65536 * Z.of_nat n.
Proof.
  induction n as [|n IH]; [done|]. intros Hn. unfold tail_sum in *. simpl.
  specialize (IH ltac:(lia)). pose proof (Hfit (first + Z.of_nat n) ltac:(lia)).
  destruct (tail_bytes_range (first + Z.of_nat n) ltac:(lia)). lia.
Qed.

Lemma place_tail_spec (n : nat) : forall (done : nat) ls ps,
  Z.of_nat (done + n) = levels - first -> length ls = 16%nat -> length ps = 16%nat ->
  exists ls' ps',
    place_tail n block width height first (first + Z.of_nat done) (tail_sum done) ls ps
    = gives (ls', ps')
    /\ length ls' = 16%nat /\ length ps' = 16%nat
    /\ (forall l, (done <= l < done + n)%nat -> exists location,
          locations !! l = Some location
          /\ ls' !! (Z.to_nat first + l)%nat = Some (tail_entry l location)
          /\ ps' !! (Z.to_nat first + l)%nat
             = Some (mkTilePaddedSize (tb_block_width block * tb_texel_width block)
                                      (tb_block_height block * tb_texel_height block)))
    /\ (forall l, (l < Z.to_nat first + done)%nat -> ls' !! l = ls !! l /\ ps' !! l = ps !! l).
Proof.
  induction n as [|n IH]; intros done ls ps En El Ep; simpl.
  - exists ls, ps. split_and!; [done..|intros; lia|done].
  - set (level := first + Z.of_nat done). fold (tail_locations block). rewrite Hloc. simpl.
    destruct (tail_bytes_range level ltac:(lia)) as [Hpos ->].
    pose proof (Hfit level ltac:(lia)) as Hle. pose proof (tail_sum_range done ltac:(lia)) as Hs.
    rewrite sub32_small by u32_lia. replace (level - first) with (Z.of_nat done) by lia.
    destruct (at_index_def locations (Z.of_nat done) ltac:(lia)) as (loc & -> & Eloc). simpl.
    rewrite Nat2Z.id in Eloc. unfold u32_max.
    rewrite Z.gtb_ltb, (proj2 (Z.ltb_ge _ _)) by lia. rewrite sub64_small by u64_lia.
    rewrite Z.gtb_ltb, (proj2 (Z.ltb_ge _ _)) by lia. simpl.
    rewrite !set_index_def by lia. simpl.
    rewrite !to_u32_small by (unfold is_u32, u32_max; lia).
    rewrite add64_small, add32_small by (u32_lia || u64_lia).
    replace (Z.to_nat level) with (Z.to_nat first + done)%nat by lia.
    replace (level + 1) with (first + Z.of_nat (S done)) by lia.
    replace (tail_sum done + tail_bytes level) with (tail_sum (S done)) by done.
    set (ls1 := <[_:=_]> ls). set (ps1 := <[_:=_]> ps).
    destruct (IH (S done) ls1 ps1) as (ls' & ps' & E & El' & Ep' & Hin & Hout);
      [lia|by unfold ls1; rewrite length_insert|by unfold ps1; rewrite length_insert|].
    exists ls', ps'. split_and!; [done..| |].
    + intros l Hl. destruct (decide (l = done)) as [->|]; [|apply Hin; lia].
      exists loc. destruct (Hout (Z.to_nat first + done)%nat ltac:(lia)) as [-> ->].
      unfold ls1, ps1. rewrite !list_lookup_insert_eq by lia. split_and!; [done..|].
      destruct (to_powers _ Hok) as (kw & kh & lo & (Hkw & Hkh & Hlo) & Ew & Eh & Eb).
      assert (0 < 2 ^ kw <= 2 ^ 8) by (split; [apply Z.pow_pos_nonneg|apply Z.pow_le_mono_r]; lia).
      assert (0 < 2 ^ kh <= 2 ^ 8) by (split; [apply Z.pow_pos_nonneg|apply Z.pow_le_mono_r]; lia).
      change (2 ^ 8) with 256 in *. pose proof (to_texel _ Hok).
      rewrite !mul32_small by (unfold u32_max; rewrite ?Ew, ?Eh; nia). done.
    + intros l Hl. destruct (Hout l ltac:(lia)) as [-> ->]. unfold ls1, ps1.
      by rewrite !list_lookup_insert_ne by lia.
Qed.
End tail.

(** Mip chains of tiled textures: where [TileGetTextureSize]
    ([src/gpu/tile_layout.cpp]) places the levels of a chain. *)

(** ** What a chain is *)

(** [first] is the first level of the tail: the first level that fits it, when
    there is a tail at all. *)
Definition first_tail_level (block : TextureBlockLayout) (tile width height levels first : Z) : Prop :=
  let w0 := ceil_div width (tb_texel_width block) in
  let h0 := ceil_div height (tb_texel_height block) in
  let fits := fits_tail w0 h0 (tail_limits block tile).1 (tail_limits block tile).2
                (max_tail_levels block) levels in
  if (tile =? 1) || (levels =? 1) then first = levels
  else 0 <= first <= levels /\ (first < levels -> fits first) /\ (forall l, 0 <= l < first -> ~ fits l).

(** The block of the tail, then the levels outside it. *)
Definition chain_base (block : TextureBlockLayout) (levels first : Z) : Z :=
  if first <? levels then tb_block_size block else 0.
Definition chain_total (block : TextureBlockLayout) (width height levels first : Z) : Z :=
  chain_base block levels first
  + sum_levels (level_bytes block (ceil_div width (tb_texel_width block))
                  (ceil_div height (tb_texel_height block))) (Z.to_nat first).

(** The rectangle of a tail level in its block. *)
Definition tail_rect (block : TextureBlockLayout) (width height level : Z) (e : TileSizeOffset) : rectangle :=
  (so_x e, so_y e, tail_width width (tb_texel_width block) level,
   tail_width height (tb_texel_height block) level).

(** The entries of a chain: a level outside the tail has whole blocks of its own,
    after the block of the tail; the tail levels have rectangles of that block
    that do not overlap. *)
Record chain_ok (block : TextureBlockLayout) (width height levels first : Z) (total : TileSizeAlign)
    (ls : list TileSizeOffset) (ps : list TilePaddedSize) : Prop := {
  co_total : sa_size total = chain_total block width height levels first;
  co_align : sa_align total = tb_block_size block;
  co_level l : 0 <= l < first -> exists e, ls !! Z.to_nat l = Some e
    /\ so_size e = level_bytes block (ceil_div width (tb_texel_width block))
                     (ceil_div height (tb_texel_height block)) l
    /\ chain_base block levels first <= so_offset e /\ so_offset e + so_size e <= sa_size total
    /\ (tb_block_size block | so_offset e) /\ (tb_block_size block | so_size e);
  co_padding l : 0 <= l < first -> ps !! Z.to_nat l
    = Some (padding block (ceil_div width (tb_texel_width block)) (ceil_div height (tb_texel_height block)) l);
  co_apart l l' e e' : 0 <= l < l' -> l' < first ->
    ls !! Z.to_nat l = Some e -> ls !! Z.to_nat l' = Some e' -> so_offset e' + so_size e' <= so_offset e;
  co_tail l : first <= l < levels -> exists e, ls !! Z.to_nat l = Some e
    /\ so_src_size e = tb_block_size block /\ so_src_offset e = 0
    /\ rect_inside (tb_block_width block) (tb_block_height block) (tail_rect block width height l e) = true;
  co_tail_apart l l' e e' : first <= l < l' -> l' < levels ->
    ls !! Z.to_nat l = Some e -> ls !! Z.to_nat l' = Some e' ->
    rect_apart (tail_rect block width height l e) (tail_rect block width height l' e') = true }.

(** ** Rectangles *)

Lemma rect_inside_smaller W H x y w h w' h' :
  w' <= w -> h' <= h -> rect_inside W H (x, y, w, h) = true -> rect_inside W H (x, y, w', h') = true.
Proof. unfold rect_inside. rewrite !andb_true_iff, !Z.leb_le. lia. Qed.

Lemma rect_apart_smaller x y w h x' y' w' h' v g v' g' :
  v <= w -> g <= h -> v' <= w' -> g' <= h' ->
  rect_apart (x, y, w, h) (x', y', w', h') = true -> rect_apart (x, y, v, g) (x', y', v', g') = true.
Proof. unfold rect_apart. rewrite !orb_true_iff, !Z.leb_le. lia. Qed.

Lemma pairwise_lookup {A} (p : A -> A -> bool) (l : list A) i j a b :
  pairwise p l = true -> (i < j)%nat -> l !! i = Some a -> l !! j = Some b -> p a b = true.
Proof.
  revert i j. induction l as [|c l IH]; intros i j Hp Hij Ha Hb; [done|].
  simpl in Hp. apply andb_true_iff in Hp as [Hc Hp].
  destruct j as [|j]; [lia|]. simpl in Hb. destruct i as [|i]; simpl in Ha.
  - injection Ha as <-. rewrite forallb_forall in Hc.
    apply Hc, list_elem_of_In, (list_elem_of_lookup_2 _ _ _ Hb).
  - apply (IH i j); [done|lia|done..].
Qed.

Section tail_geometry.
Context (W H tw th : Z) (locations : list (Z * Z)) (Hc : tail_check W H tw th locations = true).

Lemma tail_rects_lookup i location :
  locations !! i = Some location ->
  tail_rects tw th locations !! i
  = Some (location.1, location.2, ceil_div tw (2 ^ Z.of_nat i), ceil_div th (2 ^ Z.of_nat i)).
Proof. intros E. unfold tail_rects. by rewrite list_lookup_imap, E. Qed.

Lemma tail_check_inside i location :
  locations !! i = Some location ->
  rect_inside W H (location.1, location.2, ceil_div tw (2 ^ Z.of_nat i), ceil_div th (2 ^ Z.of_nat i)) = true.
Proof.
  intros E%tail_rects_lookup. apply andb_true_iff in Hc as [Hi _]. rewrite forallb_forall in Hi.
  apply Hi, list_elem_of_In, (list_elem_of_lookup_2 _ _ _ E).
Qed.

Lemma tail_check_apart i j a b :
  (i < j)%nat -> locations !! i = Some a -> locations !! j = Some b ->
  rect_apart (a.1, a.2, ceil_div tw (2 ^ Z.of_nat i), ceil_div th (2 ^ Z.of_nat i))
             (b.1, b.2, ceil_div tw (2 ^ Z.of_nat j), ceil_div th (2 ^ Z.of_nat j)) = true.
Proof.
  intros Hij Ea%tail_rects_lookup Eb%tail_rects_lookup. apply andb_true_iff in Hc as [_ Hp].
  by apply (pairwise_lookup _ _ i j _ _ Hp).
Qed.
End tail_geometry.

(** ** The layout functions build chains *)

Section macro.
Context (format tile : Z) (block : TextureBlockLayout).
Context (Hblock : GetTextureBlockLayout format tile = gives block).
Context (width height levels : Z) (Hw : 1 <= width <= 16384) (Hh : 1 <= height <= 16384).
Context (Hlev : 1 <= levels <= 16).
Abbreviation w0 := (ceil_div width (tb_texel_width block)).
Abbreviation h0 := (ceil_div height (tb_texel_height block)).

Lemma base_dimensions :
  1 <= w0 <= 16384 /\ 1 <= h0 <= 16384
  /\ ceil_div32 width (tb_texel_width block) = w0 /\ ceil_div32 height (tb_texel_height block) = h0.
Proof.
  assert (Hd : forall v t, t = 1 \/ t = 4 -> 1 <= v <= 16384 ->
    1 <= ceil_div v t <= 16384 /\ ceil_div32 v t = ceil_div v t).
  { intros v t Ht Hv. split; [|apply ceil_div32_spec; u32_lia].
    pose proof (ceil_div_pos v t ltac:(lia) ltac:(lia)).
    pose proof (ceil_div_le v t 16384 ltac:(lia) ltac:(lia)). lia. }
  destruct (to_texel _ (texture_block_sound _ _ _ Hblock)) as [[-> ->]|[-> ->]];
    [destruct (Hd width 1), (Hd height 1)|destruct (Hd width 4), (Hd height 4)]; auto.
Qed.

Lemma block_size_range : 0 < tb_block_size block <= 65536.
Proof.
  apply (texture_blocks_forall (fun '(_, b) => (0 <? tb_block_size b) && (tb_block_size b <=? 65536))
    _ _ _ ltac:(by vm_compute)) in Hblock. lia.
Qed.

(** The levels outside the tail, from the placement of [TileTextureProps]. *)
Lemma chain_levels source first total (ls : list TileSizeOffset) (ps : list TilePaddedSize) :
  0 <= first <= levels ->
  (forall l, (l < Z.to_nat first)%nat ->
     ls !! l = Some (placed block w0 h0 source (Z.of_nat l)
        (chain_base block levels first
         + (sum_levels (level_bytes block w0 h0) (Z.to_nat first)
            - sum_levels (level_bytes block w0 h0) (S l)))) /\ ps !! l = Some (padding block w0 h0 (Z.of_nat l))) ->
  sa_size total = chain_total block width height levels first ->
  (forall l, 0 <= l < first -> exists e, ls !! Z.to_nat l = Some e
     /\ so_size e = level_bytes block w0 h0 l
     /\ chain_base block levels first <= so_offset e /\ so_offset e + so_size e <= sa_size total
     /\ (tb_block_size block | so_offset e) /\ (tb_block_size block | so_size e))
  /\ (forall l l' e e', 0 <= l < l' -> l' < first ->
        ls !! Z.to_nat l = Some e -> ls !! Z.to_nat l' = Some e' ->
        so_offset e' + so_size e' <= so_offset e).
Proof.
  intros Hf Hls Etot. pose proof (texture_block_sound _ _ _ Hblock) as Hok.
  destruct base_dimensions as (Hw0 & Hh0 & _).
  assert (Hpos : forall l, 0 <= l <= 16 -> 0 < level_bytes block w0 h0 l).
  { intros l Hl. destruct (level_bytes_range block Hok w0 h0 ltac:(lia) ltac:(lia) l Hl). lia. }
  assert (Hmono : forall n m, (n <= m <= 16)%nat ->
    sum_levels (level_bytes block w0 h0) n <= sum_levels (level_bytes block w0 h0) m).
  { intros n m Hnm. apply sum_levels_mono; [|lia]. intros l Hl. specialize (Hpos (Z.of_nat l)). lia. }
  assert (Hdiv : forall n, (tb_block_size block | sum_levels (level_bytes block w0 h0) n)).
  { induction n as [|n IH]; [apply Z.divide_0_r|]. simpl.
    apply Z.divide_add_r; [done|]. by apply level_bytes_blocks. }
  assert (Hentry : forall l, 0 <= l < first -> exists e, ls !! Z.to_nat l = Some e
     /\ so_size e = level_bytes block w0 h0 l
     /\ so_offset e = chain_base block levels first
         + (sum_levels (level_bytes block w0 h0) (Z.to_nat first)
            - sum_levels (level_bytes block w0 h0) (S (Z.to_nat l)))).
  { intros l Hl. destruct (Hls (Z.to_nat l) ltac:(lia)) as [E _]. rewrite E. eexists. split; [done|].
    rewrite Z2Nat.id by lia. unfold placed. by destruct source. }
  split.
  - intros l Hl. destruct (Hentry l Hl) as (e & E & Es & Eo). exists e.
    pose proof (Hmono (S (Z.to_nat l)) (Z.to_nat first) ltac:(lia)).
    pose proof (Hmono 0%nat (Z.to_nat l) ltac:(lia)) as H0. simpl in H0.
    split_and!; [done|done|lia| | |].
    + rewrite Etot, Eo, Es. unfold chain_total. simpl. rewrite Z2Nat.id by lia. lia.
    + rewrite Eo. apply Z.divide_add_r; [|by apply Z.divide_sub_r].
      unfold chain_base. split_match; [apply Z.divide_refl|apply Z.divide_0_r].
    + rewrite Es. by apply level_bytes_blocks.
  - intros l l' e e' Hl Hl' E E'.
    destruct (Hentry l ltac:(lia)) as (d & Ed & _ & Eo), (Hentry l' ltac:(lia)) as (d' & Ed' & Es' & Eo').
    assert (d = e) as -> by congruence. assert (d' = e') as -> by congruence.
    rewrite Eo, Eo', Es'. pose proof (Hmono (S (Z.to_nat l)) (Z.to_nat l') ltac:(lia)).
    simpl (sum_levels _ (S (Z.to_nat l'))). rewrite Z2Nat.id by lia. lia.
Qed.

Lemma chain_total_range first :
  0 <= first <= levels ->
  0 <= chain_base block levels first <= chain_total block width height levels first
  /\ (0 < first -> level_bytes block w0 h0 0 <= chain_total block width height levels first).
Proof.
  intros Hf. pose proof (texture_block_sound _ _ _ Hblock) as Hok.
  destruct base_dimensions as (Hw0 & Hh0 & _).
  assert (Hp : forall l, 0 <= l <= 16 -> 0 <= level_bytes block w0 h0 l).
  { intros l Hl. destruct (level_bytes_range block Hok w0 h0 ltac:(lia) ltac:(lia) l Hl). lia. }
  assert (Hm : forall n, (n <= Z.to_nat first)%nat -> sum_levels (level_bytes block w0 h0) n
    <= sum_levels (level_bytes block w0 h0) (Z.to_nat first)).
  { intros n Hn. apply sum_levels_mono; [intros l Hl; apply Hp; lia|done]. }
  pose proof (Hm 0%nat ltac:(lia)) as Hm0. simpl in Hm0.
  assert (0 <= chain_base block levels first)
    by (unfold chain_base; pose proof block_size_range; split_match; lia).
  unfold chain_total. split; [lia|]. intros H1. pose proof (Hm 1%nat ltac:(lia)) as Hm1.
  change (sum_levels (level_bytes block w0 h0) 1) with (0 + level_bytes block w0 h0 0) in Hm1. lia.
Qed.

(** A chain without a tail. *)
Lemma micro_chain ls ps :
  tile = 1 -> length ls = 16%nat -> length ps = 16%nat ->
  if decide (chain_total block width height levels levels <= u32_max) then
    exists total ls' ps', SetMicroMipLayout block width height levels ls ps = gives (total, ls', ps')
      /\ length ls' = 16%nat /\ length ps' = 16%nat
      /\ chain_ok block width height levels levels total ls' ps'
  else SetMicroMipLayout block width height levels ls ps = refused.
Proof.
  intros Htile El Ep. pose proof (texture_block_sound _ _ _ Hblock) as Hok.
  destruct base_dimensions as (Hw0 & Hh0 & Ew & Eh). unfold SetMicroMipLayout. rewrite Ew, Eh.
  pose proof (place_levels_spec block Hok w0 h0 ltac:(lia) ltac:(lia) false (Z.to_nat levels) 0 ls ps
    ltac:(lia) ltac:(u32_lia) El Ep) as H. cbn zeta in H.
  assert (Eb : chain_base block levels levels = 0) by (unfold chain_base; by rewrite Z.ltb_irrefl).
  pose proof (proj1 (chain_total_range levels ltac:(lia))) as Hs.
  unfold chain_total in *. rewrite Eb, Z.add_0_l in *.
  destruct (decide _) as [Hle|Hgt]; [|by rewrite H].
  destruct H as (ls' & ps' & -> & El' & Ep' & Hin & _). simpl.
  rewrite Z.gtb_ltb, (proj2 (Z.ltb_ge _ _)), to_u32_small by (done || u32_lia).
  eexists _, ls', ps'. split_and!; [done..|].
  destruct (chain_levels false levels
    (mkTileSizeAlign (sum_levels (level_bytes block w0 h0) (Z.to_nat levels)) (tb_block_size block)) ls' ps')
    as [H1 H2]; [lia|by rewrite Eb|by unfold chain_total; rewrite Eb|].
  split; [unfold chain_total; by rewrite Eb|done|done| |done|intros; lia|intros; lia].
  intros l Hl. destruct (Hin (Z.to_nat l) ltac:(lia)) as [_ ->]. by rewrite Z2Nat.id by lia.
Qed.

(** The first tail level, as the code searches it. *)
Definition macro_first_tail : Z :=
  if levels >? 1
  then find_first_tail (Z.to_nat levels) w0 h0 (tail_limits block tile).1 (tail_limits block tile).2
         (max_tail_levels block) levels 0
  else levels.

Lemma macro_first_tail_spec : tile <> 1 -> first_tail_level block tile width height levels macro_first_tail.
Proof.
  intros Htile. unfold first_tail_level, macro_first_tail.
  rewrite (proj2 (Z.eqb_neq tile 1) Htile). simpl. rewrite Z.gtb_ltb.
  destruct (Z.eqb_spec levels 1) as [->|]; [done|]. rewrite (proj2 (Z.ltb_lt 1 levels)) by lia.
  destruct base_dimensions as (Hw0 & Hh0 & _).
  apply (find_first_tail_spec w0 h0 _ _ _ levels (Z.to_nat levels) 0); u32_lia.
Qed.

Lemma macro_first_tail_range :
  tile <> 1 -> 0 <= macro_first_tail <= levels
  /\ (macro_first_tail < levels ->
      fits_tail w0 h0 (tail_limits block tile).1 (tail_limits block tile).2 (max_tail_levels block) levels
        macro_first_tail).
Proof.
  intros Htile. pose proof (macro_first_tail_spec Htile) as H. unfold first_tail_level in H.
  rewrite (proj2 (Z.eqb_neq tile 1) Htile) in H. simpl in H.
  destruct (Z.eqb_spec levels 1); [lia|]. intuition.
Qed.

(** The rectangle of a tail level, inside the largest one of its place. *)
Lemma tail_level_fits l :
  tile <> 1 -> macro_first_tail <= l < levels ->
  1 <= tail_width width (tb_texel_width block) l
    <= ceil_div (tail_limits block tile).1 (2 ^ (l - macro_first_tail))
  /\ 1 <= tail_width height (tb_texel_height block) l
    <= ceil_div (tail_limits block tile).2 (2 ^ (l - macro_first_tail)).
Proof.
  intros Htile Hl. destruct (macro_first_tail_range Htile) as [Hr Hf].
  destruct (Hf ltac:(lia)) as (Hfw & Hfh & _).
  destruct (tail_tables _ _ _ Hblock Htile) as (locations & _ & _ & _ & Hlw & Hlh).
  destruct (to_texel _ (texture_block_sound _ _ _ Hblock)) as [[Et Et']|[Et Et']];
    (split; apply tail_width_bound; rewrite ?Et, ?Et' in *; lia).
Qed.

Lemma tail_level_bytes l :
  tile <> 1 -> macro_first_tail <= l < levels -> tail_bytes block width height l <= 65536.
Proof.
  intros Htile Hl. destruct (tail_level_fits l Htile Hl) as [Hx Hy].
  destruct (macro_first_tail_range Htile) as [Hr Hf].
  destruct (Hf ltac:(lia)) as (_ & _ & Hn).
  destruct (tail_tables _ _ _ Hblock Htile) as (locations & _ & Elen & Hc & _).
  destruct (lookup_lt_is_Some_2 locations (Z.to_nat (l - macro_first_tail)) ltac:(lia)) as [loc Eloc].
  pose proof (tail_check_inside _ _ _ _ _ Hc _ _ Eloc) as Hi.
  rewrite Z2Nat.id in Hi by lia. unfold rect_inside in Hi. rewrite !andb_true_iff, !Z.leb_le in Hi.
  pose proof block_size_range. pose proof (to_size _ (texture_block_sound _ _ _ Hblock)) as Es.
  assert (0 < tb_bytes block).
  { destruct (to_powers _ (texture_block_sound _ _ _ Hblock)) as (? & ? & lo & (_ & _ & Hlo) & _ & _ & ->).
    apply Z.pow_pos_nonneg; lia. }
  unfold tail_bytes.
  apply Z.le_trans with (tb_block_width block * tb_block_height block * tb_bytes block); [|lia].
  apply Z.mul_le_mono_nonneg_r; [lia|]. apply Z.mul_le_mono_nonneg; lia.
Qed.

Lemma macro_chain ls ps :
  tile <> 1 -> length ls = 16%nat -> length ps = 16%nat ->
  if decide (chain_total block width height levels macro_first_tail <= u32_max) then
    exists total ls' ps', SetMacroMipLayout block tile width height levels ls ps = gives (total, ls', ps')
      /\ length ls' = 16%nat /\ length ps' = 16%nat
      /\ chain_ok block width height levels macro_first_tail total ls' ps'
  else SetMacroMipLayout block tile width height levels ls ps = refused.
Proof.
  intros Htile El Ep. pose proof (texture_block_sound _ _ _ Hblock) as Hok.
  destruct base_dimensions as (Hw0 & Hh0 & Ew & Eh). unfold SetMacroMipLayout. rewrite Ew, Eh.
  fold (max_tail_levels block). rewrite (surjective_pairing (tail_limits block tile)).
  fold macro_first_tail. fold (chain_base block levels macro_first_tail).
  destruct (macro_first_tail_range Htile) as [Hr Hfits].
  destruct (tail_tables _ _ _ Hblock Htile) as (locations & Hloc & Elen & Hc & _).
  set (first := macro_first_tail) in *.
  assert (Hbase : 0 <= chain_base block levels first <= 65536)
    by (unfold chain_base; pose proof block_size_range; split_match; lia).
  pose proof (place_levels_spec block Hok w0 h0 ltac:(lia) ltac:(lia) true (Z.to_nat first)
    (chain_base block levels first) ls ps ltac:(lia) ltac:(u32_lia) El Ep) as H. cbn zeta in H.
  fold (chain_total block width height levels first) in H.
  destruct (decide _) as [Hle|Hgt]; [|by rewrite H].
  destruct H as (ls1 & ps1 & -> & El1 & Ep1 & Hin1 & _). simpl.
  assert (Hn : levels - first <= Z.of_nat (length locations)).
  { destruct (decide (first < levels)) as [Hlt|]; [|lia]. destruct (Hfits Hlt) as (_ & _ & ?). lia. }
  destruct (place_tail_spec block Hok locations Hloc width height ltac:(lia) ltac:(lia) levels first
    Hr ltac:(lia) Hn (fun l Hl => tail_level_bytes l Htile Hl) (Z.to_nat (levels - first)) 0 ls1 ps1)
    as (ls' & ps' & E & El' & Ep' & Hin & Hout); [lia|done|done|].
  simpl in E. rewrite Z.add_0_r in E. change (tail_sum block width height first 0) with 0 in E.
  rewrite E. simpl.
  pose proof (proj1 (chain_total_range first Hr)).
  rewrite Z.gtb_ltb, (proj2 (Z.ltb_ge _ _)), to_u32_small by (done || u32_lia).
  eexists _, ls', ps'. split_and!; [done..|].
  assert (Hentry : forall l, first <= l < levels -> exists location,
    locations !! Z.to_nat (l - first) = Some location
    /\ ls' !! Z.to_nat l = Some (tail_entry block width height first (Z.to_nat (l - first)) location)).
  { intros l Hl. destruct (Hin (Z.to_nat (l - first)) ltac:(lia)) as (loc & E1 & E2 & _).
    exists loc. split; [done|]. rewrite <- E2. f_equal. lia. }
  destruct (chain_levels true first
    (mkTileSizeAlign (chain_total block width height levels first) (tb_block_size block)) ls' ps')
    as [H1 H2]; [lia| |done|].
  { intros l Hl. destruct (Hout l ltac:(lia)) as [-> ->]. apply (Hin1 l Hl). }
  split; [done|done|done| |done|..].
  - intros l Hl. destruct (Hout (Z.to_nat l) ltac:(lia)) as [_ ->].
    destruct (Hin1 (Z.to_nat l) ltac:(lia)) as [_ ->]. by rewrite Z2Nat.id by lia.
  - intros l Hl. destruct (Hentry l Hl) as (loc & Eloc & Ee). eexists. split; [exact Ee|].
    split; [done|split; [done|]]. destruct (tail_level_fits l Htile Hl) as [Hx Hy].
    apply (rect_inside_smaller _ _ _ _ (ceil_div (tail_limits block tile).1 (2 ^ (l - first)))
      (ceil_div (tail_limits block tile).2 (2 ^ (l - first)))); [apply Hx|apply Hy|].
    pose proof (tail_check_inside _ _ _ _ _ Hc _ _ Eloc) as Hi. by rewrite Z2Nat.id in Hi by lia.
  - intros l l' e e' Hl Hl' Ee Ee'.
    destruct (Hentry l ltac:(lia)) as (loc & Eloc & Ed), (Hentry l' ltac:(lia)) as (loc' & Eloc' & Ed').
    rewrite Ed in Ee. rewrite Ed' in Ee'. injection Ee as <-. injection Ee' as <-.
    destruct (tail_level_fits l Htile ltac:(lia)) as [Hx Hy].
    destruct (tail_level_fits l' Htile ltac:(lia)) as [Hx' Hy'].
    pose proof (tail_check_apart _ _ _ _ _ Hc (Z.to_nat (l - first)) (Z.to_nat (l' - first)) _ _
      ltac:(lia) Eloc Eloc') as Ha. rewrite !Z2Nat.id in Ha by lia.
    by eapply rect_apart_smaller; [..|exact Ha]; [apply Hx|apply Hy|apply Hx'|apply Hy'].
Qed.
End macro.

(** ** The sizes of textures *)

(** The element of a block is a texel or a compressed group of 4 by 4 texels. *)
Lemma texture_block_bytes format tile block :
  GetTextureBlockLayout format tile = gives block ->
  (tb_texel_width block = 1 /\ tb_texel_height block = 1
   /\ NumBytesPerElement format = tb_bytes block /\ BlockCompressedBytesPerBlock format = 0)
  \/ (tb_texel_width block = 4 /\ tb_texel_height block = 4
      /\ NumBytesPerElement format = 0 /\ BlockCompressedBytesPerBlock format = tb_bytes block).
Proof.
  intros H. pose proof (format_bytes format) as (He & Hb & Hor). revert H.
  unfold GetTextureBlockLayout, Gen5Standard256BLayout, Gen5Standard4KBLayout, Gen5Standard64KBLayout,
    Gen5Thin64KBBlockSizeFromElementBytes. cbn zeta.
  set (e := NumBytesPerElement format) in *. set (b := BlockCompressedBytesPerBlock format) in *.
  clearbody e b.
  destruct (Z.eqb_spec tile 1) as [->|_]; [|destruct (Z.eqb_spec tile 5) as [->|_];
   [|destruct (Z.eqb_spec tile 9) as [->|_]; [|destruct (Z.eqb_spec tile 17) as [->|_];
   [|destruct (Z.eqb_spec tile 24) as [->|_]; [|destruct (Z.eqb_spec tile 27) as [->|_]; [|done]]]]]];
  destruct He as [->|[->|[->|[->|[->|[->| ->]]]]]]; destruct Hb as [->|[->| ->]]; try (exfalso; lia);
  vm_compute; intros [= <-]; simpl; lia.
Qed.

(** Texels that need more than 32 bits of bytes do not fit a chain. *)
Lemma payload_overflow format tile block width height levels first :
  GetTextureBlockLayout format tile = gives block ->
  1 <= width <= 16384 -> 1 <= height <= 16384 -> 1 <= levels <= 16 ->
  0 <= first <= levels -> first_tail_level block tile width height levels first ->
  u32_max < ceil_div width (tb_texel_width block) * ceil_div height (tb_texel_height block) * tb_bytes block ->
  u32_max < chain_total block width height levels first.
Proof.
  intros Hblock Hw Hh Hlev Hr Hfirst Hover.
  pose proof (texture_block_sound _ _ _ Hblock) as Hok.
  destruct (base_dimensions _ _ _ Hblock width height Hw Hh) as (Hw0 & Hh0 & _).
  destruct (to_powers _ Hok) as (kw & kh & lo & (Hkw & Hkh & Hlo) & Ew & Eh & Eb).
  assert (0 < 2 ^ lo) by (apply Z.pow_pos_nonneg; lia).
  assert (0 < 2 ^ kw) by (apply Z.pow_pos_nonneg; lia). assert (0 < 2 ^ kh) by (apply Z.pow_pos_nonneg; lia).
  set (w0 := ceil_div width _) in *. set (h0 := ceil_div height _) in *.
  destruct (decide (first = 0)) as [->|Hne].
  - exfalso. unfold first_tail_level in Hfirst. fold w0 h0 in Hfirst.
    destruct (Z.eqb_spec tile 1); [simpl in Hfirst; lia|]. destruct (Z.eqb_spec levels 1); [simpl in Hfirst; lia|].
    simpl in Hfirst. destruct Hfirst as (_ & Hfit & _). destruct (Hfit ltac:(lia)) as (Hfw & Hfh & _).
    destruct (tail_tables _ _ _ Hblock) as (? & _ & _ & _ & Ht1 & Ht2); [done|].
    change (2 ^ 0) with 1 in *. unfold ceil_div at 1 in Hfw. unfold ceil_div at 1 in Hfh.
    rewrite Z.div_1_r in Hfw, Hfh.
    pose proof (block_size_range _ _ _ Hblock). pose proof (to_size _ Hok) as Es.
    assert (w0 * h0 * tb_bytes block <= tb_block_width block * tb_block_height block * tb_bytes block).
    { apply Z.mul_le_mono_nonneg_r; [lia|]. apply Z.mul_le_mono_nonneg; lia. }
    u32_lia.
  - destruct (chain_total_range _ _ _ Hblock width height levels Hw Hh Hlev first Hr) as [_ Hge].
    specialize (Hge ltac:(lia)). fold w0 h0 in Hge. apply Z.lt_le_trans with (2 := Hge).
    apply Z.lt_le_trans with (1 := Hover). unfold level_bytes, level_width.
    change (2 ^ 0) with 1. unfold ceil_div. rewrite !Z.div_1_r, !Z.add_simpl_r, !Z.max_l by lia.
    destruct (round_up_spec w0 (tb_block_width block) ltac:(lia)) as [? _].
    destruct (round_up_spec h0 (tb_block_height block) ltac:(lia)) as [? _].
    apply Z.mul_le_mono_nonneg_r; [lia|]. apply Z.mul_le_mono_nonneg; lia.
Qed.

Lemma chain_ok_copy block width height levels first total (ls ls' : list TileSizeOffset)
    (ps ps' : list TilePaddedSize) :
  0 <= first <= levels -> (forall l, 0 <= l < levels -> ls' !! Z.to_nat l = ls !! Z.to_nat l) ->
  (forall l, 0 <= l < levels -> ps' !! Z.to_nat l = ps !! Z.to_nat l) ->
  chain_ok block width height levels first total ls ps ->
  chain_ok block width height levels first total ls' ps'.
Proof.
  intros Hf Hsame Hsame' [Ht Ha Hl Hpad Hap Htl Hta].
  split; [done|done|..].
  - intros l Hr. rewrite Hsame by lia. by apply Hl.
  - intros l Hr. rewrite Hsame' by lia. by apply Hpad.
  - intros l l' e e' H1 H2. rewrite !Hsame by lia. by apply Hap.
  - intros l Hr. rewrite Hsame by lia. by apply Htl.
  - intros l l' e e' H1 H2. rewrite !Hsame by lia. by apply Hta.
Qed.

Lemma copy_n_spec {A} (source destination : list A) n :
  0 <= n -> n <= Z.of_nat (length source) -> n <= Z.of_nat (length destination) ->
  exists copied, copy_n source n destination = gives copied /\ length copied = length destination
    /\ forall l, 0 <= l < n -> copied !! Z.to_nat l = source !! Z.to_nat l.
Proof.
  intros Hn Hs Hd. unfold copy_n. rewrite (proj2 (Z.leb_le _ _) Hs), (proj2 (Z.leb_le _ _) Hd). simpl.
  eexists. split; [done|]. split; [rewrite length_app, length_take, length_drop; lia|].
  intros l Hl. rewrite lookup_app_l by (rewrite length_take; lia). apply lookup_take_lt. lia.
Qed.

(** The chain of a block layout, whatever its tiling mode. *)
Lemma block_texture_chain format tile block width height levels :
  GetTextureBlockLayout format tile = gives block ->
  1 <= width <= 16384 -> 1 <= height <= 16384 -> 1 <= levels <= 16 ->
  exists first, 0 <= first <= levels /\ first_tail_level block tile width height levels first
  /\ if decide (chain_total block width height levels first <= u32_max) then
       exists total ls ps, block_texture block width height levels tile = gives (total, ls, ps)
         /\ length ls = 16%nat /\ length ps = 16%nat /\ chain_ok block width height levels first total ls ps
     else block_texture block width height levels tile = refused.
Proof.
  intros Hblock Hw Hh Hlev. unfold block_texture.
  assert (Hpos : forall first, 0 <= first <= levels -> 0 < chain_total block width height levels first).
  { intros first Hf. destruct (chain_total_range _ _ _ Hblock _ _ _ Hw Hh Hlev first Hf) as [Hb Hl].
    destruct (base_dimensions _ _ _ Hblock _ _ Hw Hh) as (Hw0 & Hh0 & _).
    destruct (level_bytes_range block (texture_block_sound _ _ _ Hblock) _ _ ltac:(split; [|apply Hw0]; lia)
      ltac:(split; [|apply Hh0]; lia) 0 ltac:(lia)) as [Hp _].
    destruct (decide (first = 0)) as [->|]; [|lia].
    unfold chain_base in Hb. rewrite (proj2 (Z.ltb_lt 0 levels)) in Hb by lia.
    pose proof (block_size_range _ _ _ Hblock). lia. }
  assert (Hfin : forall first total ls (ps : list TilePaddedSize), 0 <= first <= levels ->
    chain_ok block width height levels first total ls ps ->
    (if sa_size total =? 0 then refused else gives (total, ls, ps)) = gives (total, ls, ps)).
  { intros first total ls ps Hf Hok. rewrite (proj2 (Z.eqb_neq _ _)); [done|].
    rewrite (co_total _ _ _ _ _ _ _ _ Hok). specialize (Hpos first Hf). lia. }
  destruct (Z.eqb_spec tile 1) as [->|Hne].
  - exists levels. split; [lia|]. split; [done|].
    pose proof (micro_chain _ _ _ Hblock _ _ _ Hw Hh Hlev (array16 no_level) (array16 no_padding)
      eq_refl eq_refl eq_refl) as H.
    destruct (decide _); [|by rewrite H]. destruct H as (total & ls & ps & -> & El & Ep & Hok).
    exists total, ls, ps. simpl. rewrite (Hfin levels) by (done || lia). done.
  - exists (macro_first_tail tile block width height levels).
    destruct (macro_first_tail_range _ _ _ Hblock _ _ _ Hw Hh Hlev Hne) as [Hr _]. split; [done|].
    split; [by apply (macro_first_tail_spec _ _ _ Hblock)|].
    pose proof (macro_chain _ _ _ Hblock _ _ _ Hw Hh Hlev (array16 no_level) (array16 no_padding)
      Hne eq_refl eq_refl) as H.
    destruct (decide _); [|by rewrite H]. destruct H as (total & ls & ps & -> & El & Ep & Hok).
    exists total, ls, ps. simpl. by rewrite (Hfin _ _ _ _ Hr Hok).
Qed.

(** The guards of [TileGetTextureSize] on the bytes of the texels. *)
Lemma payload_guards format tile block width height :
  GetTextureBlockLayout format tile = gives block -> 1 <= width <= 16384 -> 1 <= height <= 16384 ->
  let payload := ceil_div width (tb_texel_width block) * ceil_div height (tb_texel_height block)
                 * tb_bytes block in
  negb (NumBytesPerElement format =? 0)
    && (mul64 (mul64 width height) (NumBytesPerElement format) >? u32_max)
  || negb (BlockCompressedBytesPerBlock format =? 0)
    && (mul64 (mul64 ((width + 3)%u32 `div` 4) ((height + 3)%u32 `div` 4))
          (BlockCompressedBytesPerBlock format) >? u32_max) = (payload >? u32_max).
Proof.
  intros Hblock Hw Hh. cbn zeta.
  destruct (to_powers _ (texture_block_sound _ _ _ Hblock)) as (_ & _ & lo & (_ & _ & Hlo) & _ & _ & Eb).
  assert (Hb : 1 <= tb_bytes block <= 16).
  { rewrite Eb. split; [apply (Zlt_le_succ 0), Z.pow_pos_nonneg; lia|].
    apply (Z.pow_le_mono_r 2 lo 4); lia. }
  assert (Hmul : forall a b, 1 <= a <= 16384 -> 1 <= b <= 16384 ->
    mul64 (mul64 a b) (tb_bytes block) = a * b * tb_bytes block).
  { intros a b Ha Hb'. assert (1 <= a * b <= 16384 * 16384) by nia.
    rewrite (mul64_small a b) by u64_lia. apply mul64_small. split; [nia|].
    apply Z.le_trans with (16384 * 16384 * 16); [nia|u64_lia]. }
  assert (H4 : forall v, 1 <= v <= 16384 -> (v + 3)%u32 `div` 4 = ceil_div v 4 /\ 1 <= ceil_div v 4 <= 16384).
  { intros v Hv. unfold ceil_div. rewrite add32_small by u32_lia.
    replace (v + 4 - 1) with (v + 3) by lia. split; [done|]. Z.div_mod_to_equations. lia. }
  assert (H1 : forall v, ceil_div v 1 = v) by (intros v; unfold ceil_div; rewrite Z.div_1_r; lia).
  destruct (texture_block_bytes _ _ _ Hblock) as [(-> & -> & -> & ->)|(-> & -> & -> & ->)];
    simpl; rewrite (proj2 (Z.eqb_neq (tb_bytes block) 0)) by lia; simpl.
  - rewrite orb_false_r, !H1, Hmul by done. done.
  - destruct (H4 width Hw) as [-> Hw4], (H4 height Hh) as [-> Hh4]. by rewrite Hmul.
Qed.

(** C39: The size computation of a tiled texture is exact.  It never indexes a
    table or an array out of bounds; it fails only when the whole chain needs
    more than 32 bits; and otherwise the levels outside the tail are whole,
    block-aligned, disjoint byte ranges that follow the block of the tail and
    end at the total size, and the tail levels are rectangles that lie in that
    block and do not overlap. *)
Theorem mip_chain_layout format tile block width height pitch levels total0 ls0 ps0 :
  GetTextureBlockLayout format tile = gives block ->
  1 <= width <= 16384 -> 1 <= height <= 16384 -> 1 <= levels <= 16 ->
  levels <= Z.of_nat (length ls0) -> levels <= Z.of_nat (length ps0) ->
  exists first, first_tail_level block tile width height levels first /\
  match TileGetTextureSize format width height pitch levels tile (Some total0) (Some ls0) (Some ps0) with
  | gives (total, Some ls, Some ps) =>
      chain_total block width height levels first <= u32_max
      /\ chain_ok block width height levels first total ls ps
  | refused => u32_max < chain_total block width height levels first
  | _ => False
  end.
Proof.
  intros Hblock Hw Hh Hlev Hls Hps.
  destruct (block_texture_chain _ _ _ width height levels Hblock Hw Hh Hlev) as (first & Hr & Hfirst & Hchain).
  exists first. split; [done|]. unfold TileGetTextureSize. simpl.
  rewrite !Z.gtb_ltb, !(proj2 (Z.eqb_neq _ 0)), !(proj2 (Z.ltb_ge _ _)) by lia. simpl.
  rewrite <- !Z.gtb_ltb. pose proof (payload_guards _ _ _ _ _ Hblock Hw Hh) as Hg. cbn zeta in Hg.
  set (g1 := negb (NumBytesPerElement format =? 0) && _) in *.
  set (g2 := negb (BlockCompressedBytesPerBlock format =? 0) && _) in *.
  assert (Hover : g1 || g2 = true -> u32_max < chain_total block width height levels first).
  { rewrite Hg, Z.gtb_ltb, Z.ltb_lt. by apply (payload_overflow _ _ _ _ _ _ _ Hblock). }
  destruct g1; [by apply Hover|]. destruct g2; [by apply Hover|]. clear Hover Hg.
  assert (Ht : texture_layout format width height levels tile = block_texture block width height levels tile).
  { unfold texture_layout. cbn zeta. destruct (Z.eqb_spec tile 0) as [->|]; [done|].
    by rewrite andb_false_r, Hblock. }
  rewrite Ht. destruct (decide _) as [Hle|Hgt]; [|rewrite Hchain; simpl; lia].
  destruct Hchain as (total & ls & ps & -> & El & Ep & Hok). simpl.
  destruct (copy_n_spec ls ls0 levels ltac:(lia) ltac:(lia) Hls) as (ls' & -> & _ & Hsame). simpl.
  destruct (copy_n_spec ps ps0 levels ltac:(lia) ltac:(lia) Hps) as (ps' & -> & _ & Hsame'). simpl.
  split; [done|]. by apply (chain_ok_copy _ _ _ _ _ _ ls _ ps).
Qed.
