(* ===== verification/LinearImages.v ===== *)
(** Linear textures and pitches ([src/gpu/tile_layout.cpp]): the chain of a
    linear texture, and the agreement of [TileGetTexturePitch] with the padding
    that [TileGetTextureSize] computes. *)
From S2P Require Import Prelude Words32 Formats TileBlocks TileTextures TileTextureProps.
From S2P Require Import TileTextureProps.

(** ** One level *)

Definition linear_unit (bytes : Z) : Z := 256 / bytes.
Definition linear_bytes (width height bytes level : Z) : Z :=
  round_up (level_width width level) (linear_unit bytes) * level_width height level * bytes.

Lemma linear_unit_pow2 bytes :
  bytes ∈ element_sizes -> exists k, 4 <= k <= 8 /\ linear_unit bytes = 2 ^ k /\ 2 ^ k * bytes = 256.
Proof.
  intros Hb. element_size_case Hb; [exists 8|exists 7|exists 6|exists 5|exists 4]; done.
Qed.

Lemma linear_bytes_range width height bytes level :
  bytes ∈ element_sizes -> 0 <= width <= 16384 -> 0 <= height <= 16384 -> 0 <= level <= 16 ->
  0 < linear_bytes width height bytes level <= 2 ^ 34
  /\ 0 < round_up (level_width width level) (linear_unit bytes) < 32768
  /\ 1 <= level_width height level <= 16384 /\ 1 <= bytes <= 16.
Proof.
  intros Hb Hw Hh Hl. destruct (linear_unit_pow2 bytes Hb) as (k & Hk & Eu & Ek).
  pose proof (level_width_range width level Hw Hl). pose proof (level_width_range height level Hh Hl).
  assert (0 < 2 ^ k <= 2 ^ 8) by (split; [apply Z.pow_pos_nonneg|apply Z.pow_le_mono_r]; lia).
  change (2 ^ 8) with 256 in *. assert (1 <= bytes <= 16) by (element_size_case Hb; lia).
  unfold linear_bytes. rewrite Eu. change (2 ^ 34) with (32768 * 32768 * 16).
  pose proof (round_up_spec (level_width width level) (2 ^ k) ltac:(lia)) as [? _].
  set (a := round_up _ (2 ^ k)) in *. set (b := level_width height level) in *. clearbody a b.
  split; [|lia]. split; [repeat apply Z.mul_pos_pos; lia|].
  repeat first [apply Z.mul_le_mono_nonneg | apply Z.mul_nonneg_nonneg]; lia.
Qed.

Lemma CalcLinear_spec width height bytes level :
  bytes ∈ element_sizes -> 0 <= width <= 16384 -> 0 <= height <= 16384 -> 0 <= level <= 16 ->
  CalcLinearAlignedLevelPitch width height level bytes =
  if decide (linear_bytes width height bytes level <= u32_max)
  then gives (round_up (level_width width level) (linear_unit bytes), level_width height level,
              linear_bytes width height bytes level)
  else refused.
Proof.
  intros Hb Hw Hh Hl. destruct (linear_unit_pow2 bytes Hb) as (k & Hk & Eu & Ek).
  destruct (linear_bytes_range width height bytes level Hb Hw Hh Hl) as (Hs & Hp & Hlh & Hbr).
  pose proof (level_width_range width level Hw Hl).
  assert (0 < 2 ^ k <= 2 ^ 8) by (split; [apply Z.pow_pos_nonneg|apply Z.pow_le_mono_r]; lia).
  change (2 ^ 8) with 256 in *. change (2 ^ 34) with 17179869184 in *.
  unfold CalcLinearAlignedLevelPitch, CalcLinearBlockWidth.
  rewrite (proj2 (Z.eqb_neq bytes 0)) by lia. simpl. fold (linear_unit bytes).
  rewrite (Z.max_r 1 (linear_unit bytes)) by lia. rewrite !ShiftCeil_spec by u32_lia.
  fold (ceil_div width (2 ^ level)) (ceil_div height (2 ^ level)).
  fold (level_width width level) (level_width height level).
  rewrite Eu, AlignUp_pow2, <- Eu by (lia || u32_lia).
  assert (E : mul64 (mul64 (round_up (level_width width level) (linear_unit bytes))
      (level_width height level)) bytes = linear_bytes width height bytes level).
  { unfold linear_bytes in *. rewrite (mul64_small (round_up _ _)) by (u64_lia || nia).
    apply mul64_small. u64_lia. }
  rewrite E. rewrite Z.gtb_ltb. destruct (decide _) as [Hle|Hgt].
  - rewrite (proj2 (Z.ltb_ge _ _)) by lia. by rewrite to_u32_small by u32_lia.
  - by rewrite (proj2 (Z.ltb_lt _ _)) by lia.
Qed.

(** ** The levels of a chain *)

Section linear_chain.
Context (width height bytes : Z) (scale : Z -> Z) (Hb : bytes ∈ element_sizes).
Context (Hw : 0 <= width <= 16384) (Hh : 0 <= height <= 16384).
Abbreviation size := (linear_bytes width height bytes).

(** The arrays after the levels below [n] have been measured. *)
Definition measured (n : nat) (pitches heights sizes : list Z) : Prop :=
  length pitches = 16%nat /\ length heights = 16%nat /\ length sizes = 16%nat
  /\ forall l, (l < n)%nat ->
       pitches !! l = Some (scale (round_up (level_width width (Z.of_nat l)) (linear_unit bytes)))
       /\ heights !! l = Some (scale (level_width height (Z.of_nat l)))
       /\ sizes !! l = Some (size (Z.of_nat l)).

Lemma measure_levels_spec (n : nat) : forall (done : nat) ps hs ss,
  (done + n <= 16)%nat -> measured done ps hs ss ->
  (exists ps' hs' ss',
     measure_levels n width height bytes scale (Z.of_nat done) ps hs ss = gives (ps', hs', ss')
     /\ measured (done + n) ps' hs' ss'
     /\ forall l, (done <= l < done + n)%nat -> size (Z.of_nat l) <= u32_max)
  \/ (measure_levels n width height bytes scale (Z.of_nat done) ps hs ss = refused
      /\ exists l, (done <= l < done + n)%nat /\ u32_max < size (Z.of_nat l)).
Proof.
  induction n as [|n IH]; intros done ps hs ss Hn Hm; simpl.
  - left. exists ps, hs, ss. rewrite Nat.add_0_r. split_and!; [done..|intros; lia].
  - rewrite CalcLinear_spec by (done || lia).
    destruct (linear_bytes_range width height bytes (Z.of_nat done) Hb Hw Hh ltac:(lia)) as (Hs & Hp & _).
    destruct (decide _) as [Hle|Hgt]; [|right; split; [done|]; exists done; lia]. simpl.
    rewrite !(proj2 (Z.eqb_neq _ 0)) by lia. simpl.
    destruct Hm as (E1 & E2 & E3 & Hm).
    rewrite !set_index_def by lia. simpl. rewrite Nat2Z.id, add32_small by u32_lia.
    replace (Z.of_nat done + 1) with (Z.of_nat (S done)) by lia.
    match goal with |- context [measure_levels n _ _ _ _ _ ?a ?b ?c] => destruct (IH (S done) a b c) as
      [(ps' & hs' & ss' & E & Hm' & Hin)|(E & l & Hl & Hbig)] end; [lia| | |].
    + split_and!; [by rewrite length_insert..|]. intros l Hl. destruct (decide (l = done)) as [->|].
      * by rewrite !list_lookup_insert_eq by lia.
      * rewrite !list_lookup_insert_ne by done. apply Hm. lia.
    + left. exists ps', hs', ss'. split; [done|]. split; [by rewrite Nat.add_succ_r|].
      intros l Hl. destruct (decide (l = done)) as [->|]; [done|apply Hin; lia].
    + right. split; [done|]. exists l. lia.
Qed.

Definition linear_entry (l : nat) (offset : Z) : TileSizeOffset :=
  mkTileSizeOffset (size (Z.of_nat l)) offset 0 0 0 0.

Definition linear_padding (l : Z) : TilePaddedSize :=
  mkTilePaddedSize (scale (round_up (level_width width l) (linear_unit bytes)))
                   (scale (level_width height l)).

Lemma linear_chain_spec pitches heights sizes (n : nat) : forall offset ls ps m,
  (n <= m)%nat -> measured m pitches heights sizes -> (n <= 16)%nat ->
  0 <= offset <= u32_max -> length ls = 16%nat -> length ps = 16%nat ->
  (forall l, (l < n)%nat -> ls !! l = Some no_level) ->
  if decide (offset + sum_levels size n <= u32_max) then
    exists ls' ps',
      linear_chain n pitches heights sizes offset ls ps = gives (offset + sum_levels size n, ls', ps')
      /\ length ls' = 16%nat /\ length ps' = 16%nat
      /\ (forall l, (l < n)%nat ->
            ls' !! l = Some (linear_entry l (offset + (sum_levels size n - sum_levels size (S l))))
            /\ ps' !! l = Some (linear_padding (Z.of_nat l)))
      /\ (forall l, (n <= l)%nat -> ls' !! l = ls !! l /\ ps' !! l = ps !! l)
  else linear_chain n pitches heights sizes offset ls ps = refused.
Proof.
  induction n as [|n IH]; intros offset ls ps m Hm Hmeas Hn Ho El Ep Hz; simpl.
  - rewrite Z.add_0_r, decide_True by lia. exists ls, ps. split_and!; [done..|intros; lia|done].
  - destruct Hmeas as (E1 & E2 & E3 & Hmeas). destruct (Hmeas n ltac:(lia)) as (Hp & Hq & Hs).
    rewrite (proj2 (at_index_gives sizes (Z.of_nat n) (size (Z.of_nat n)))) by (rewrite Nat2Z.id; split; [lia|done]).
    simpl. destruct (linear_bytes_range width height bytes (Z.of_nat n) Hb Hw Hh ltac:(lia)) as (Hr & _).
    pose proof (sum_levels_mono size 0 n) as Hsum. simpl in Hsum.
    specialize (Hsum ltac:(intros l Hl;
      destruct (linear_bytes_range width height bytes (Z.of_nat l)); [done..|lia|lia]) ltac:(lia)).
    rewrite Z.gtb_ltb, (proj2 (Z.ltb_ge _ _)) by lia. simpl.
    rewrite sub64_small by (unfold u32_max in *; u64_lia). rewrite Z.gtb_ltb.
    destruct (Z.ltb_spec (u32_max - offset) (size (Z.of_nat n))) as [Hbig|Hfit].
    { rewrite decide_False by lia. done. }
    rewrite (proj2 (at_index_gives ls (Z.of_nat n) no_level)) by (rewrite Nat2Z.id; split; [lia|apply Hz; lia]).
    simpl. rewrite set_index_def by lia. simpl.
    rewrite (proj2 (at_index_gives pitches (Z.of_nat n) _)) by (rewrite Nat2Z.id; split; [lia|exact Hp]). simpl.
    rewrite (proj2 (at_index_gives heights (Z.of_nat n) _)) by (rewrite Nat2Z.id; split; [lia|exact Hq]). simpl.
    rewrite set_index_def by lia. simpl. rewrite Nat2Z.id.
    rewrite to_u32_small by u32_lia. rewrite add64_small by (unfold u32_max in *; u64_lia).
    fold (linear_entry n offset).
    match goal with |- context [linear_chain n _ _ _ _ ?a ?b] =>
      specialize (IH (offset + size (Z.of_nat n)) a b m ltac:(lia) (conj E1 (conj E2 (conj E3 Hmeas))) ltac:(lia)
        ltac:(lia) ltac:(by rewrite length_insert) ltac:(by rewrite length_insert)
        ltac:(intros l Hl; rewrite list_lookup_insert_ne by lia; apply Hz; lia)) end.
    replace (offset + (sum_levels size n + size (Z.of_nat n)))
      with (offset + size (Z.of_nat n) + sum_levels size n) by lia.
    destruct (decide _) as [Hle|Hgt]; [|done].
    destruct IH as (ls' & ps' & E & El' & Ep' & Hin & Hout). exists ls', ps'. split_and!; [done..| |].
    + intros l Hl. destruct (decide (l = n)) as [->|].
      * destruct (Hout n ltac:(lia)) as [-> ->]. rewrite !list_lookup_insert_eq by lia.
        split; [|done]. do 2 f_equal. lia.
      * destruct (Hin l ltac:(lia)) as [-> ->]. split; [|done]. do 2 f_equal. simpl. lia.
    + intros l Hl. destruct (Hout l ltac:(lia)) as [-> ->]. by rewrite !list_lookup_insert_ne by lia.
Qed.
End linear_chain.

Lemma measured_nothing width height bytes scale :
  measured width height bytes scale 0 (array16 0) (array16 0) (array16 0).
Proof. split_and!; [done..|intros; lia]. Qed.

Lemma sum_levels_member size (l n : nat) :
  (forall i, (i < n)%nat -> 0 <= size (Z.of_nat i)) -> (l < n)%nat -> size (Z.of_nat l) <= sum_levels size n.
Proof.
  intros Hp Hl. pose proof (sum_levels_mono size 0 l ltac:(intros; apply Hp; lia) ltac:(lia)) as H0.
  pose proof (sum_levels_mono size (S l) n ltac:(intros; apply Hp; lia) ltac:(lia)) as H1. simpl in H0, H1. lia.
Qed.

(** A linear texture: the levels follow each other from the last to the first,
    and the total is rounded up to 256 bytes. *)
Lemma linear_texture_spec width height bytes scale levels :
  bytes ∈ element_sizes -> 0 <= width <= 16384 -> 0 <= height <= 16384 -> 1 <= levels <= 16 ->
  let size := linear_bytes width height bytes in
  let sum := sum_levels size in
  if decide (round_up (sum (Z.to_nat levels)) 256 <= u32_max) then
    exists ls ps, linear_texture width height bytes scale levels
      = gives (mkTileSizeAlign (round_up (sum (Z.to_nat levels)) 256) 256, ls, ps)
      /\ length ls = 16%nat /\ length ps = 16%nat
      /\ forall l, 0 <= l < levels ->
           ls !! Z.to_nat l
           = Some (mkTileSizeOffset (size l) (sum (Z.to_nat levels) - sum (S (Z.to_nat l))) 0 0 0 0)
           /\ ps !! Z.to_nat l = Some (linear_padding width height bytes scale l)
  else linear_texture width height bytes scale levels = refused.
Proof.
  intros Hb Hw Hh Hlev. cbn zeta. unfold linear_texture.
  set (size := linear_bytes width height bytes). set (sum := sum_levels size).
  assert (Hpos : forall l, 0 <= l <= 16 -> 0 < size l).
  { intros l Hl. by destruct (linear_bytes_range width height bytes l Hb Hw Hh Hl) as [[? _] _]. }
  assert (Hmem : forall l, (l < Z.to_nat levels)%nat -> size (Z.of_nat l) <= sum (Z.to_nat levels)).
  { intros l Hl. apply sum_levels_member; [|done]. intros i Hi. specialize (Hpos (Z.of_nat i)). lia. }
  pose proof (Hmem 0%nat ltac:(lia)) as H0. pose proof (Hpos 0 ltac:(lia)) as Hp0. change (Z.of_nat 0) with 0 in H0.
  destruct (round_up_spec (sum (Z.to_nat levels)) 256 ltac:(lia)) as [Hround _].
  destruct (measure_levels_spec width height bytes scale Hb Hw Hh (Z.to_nat levels) 0 _ _ _
    ltac:(lia) (measured_nothing _ _ _ _)) as [(ps & hs & ss & E & Hm & _)|(E & l & Hl & Hbig)];
    change (Z.of_nat 0) with 0 in E; rewrite E; simpl.
  2: { rewrite decide_False; [done|]. pose proof (Hmem l ltac:(lia)) as Hl0. fold size in Hbig. lia. }
  unfold SetLinearMipChainLayout.
  pose proof (linear_chain_spec width height bytes scale Hb Hw Hh ps hs ss (Z.to_nat levels) 0
    (array16 no_level) (array16 no_padding) (0 + Z.to_nat levels)%nat ltac:(lia) Hm ltac:(lia) ltac:(u32_lia) eq_refl eq_refl
    ltac:(intros l Hl; unfold array16; by rewrite lookup_replicate_2 by lia)) as Hc.
  fold size in Hc. fold sum in Hc. rewrite Z.add_0_l in Hc.
  destruct (decide (sum (Z.to_nat levels) <= u32_max)) as [Hle|Hgt].
  2: { rewrite Hc. simpl. rewrite decide_False by lia. done. }
  destruct Hc as (ls' & ps' & -> & El & Ep & Hin & _). simpl.
  assert (Ea : Z.land (add64 (sum (Z.to_nat levels)) 255) (not64 255) = round_up (sum (Z.to_nat levels)) 256).
  { rewrite add64_small by (unfold u32_max in *; u64_lia). unfold not64, round_up.
    replace (u64_max - 255) with (2 ^ 64 - 2 ^ 8) by (rewrite u64_max_eq; done).
    rewrite land_high by (unfold u32_max in *; lia). change (2 ^ 8) with 256.
    do 2 f_equal. lia. }
  rewrite Ea. destruct (decide _) as [Hr|Hr].
  - rewrite (proj2 (Z.leb_le _ _) Hr). simpl. rewrite to_u32_small by u32_lia.
    rewrite (proj2 (Z.eqb_neq _ 0)) by lia. exists ls', ps'. split_and!; [done..|].
    intros l Hl. destruct (Hin (Z.to_nat l) ltac:(lia)) as [-> ->].
    unfold linear_entry. rewrite Z2Nat.id by lia. done.
  - rewrite (proj2 (Z.leb_gt _ _)) by lia. done.
Qed.

(** The elements of a linear texture: texels or compressed groups. *)
Definition linear_elements (format width height : Z) : option (Z * Z * Z) :=
  if bool_decide (NumBytesPerElement format ∈ element_sizes) then Some (width, height, NumBytesPerElement format)
  else if bool_decide (BlockCompressedBytesPerBlock format ∈ element_sizes)
  then Some (ceil_div width 4, ceil_div height 4, BlockCompressedBytesPerBlock format) else None.

Lemma linear_payload w0 h0 bytes levels :
  bytes ∈ element_sizes -> 1 <= w0 <= 16384 -> 1 <= h0 <= 16384 -> 1 <= levels <= 16 ->
  w0 * h0 * bytes <= sum_levels (linear_bytes w0 h0 bytes) (Z.to_nat levels).
Proof.
  intros Hb Hw Hh Hlev.
  apply Z.le_trans with (linear_bytes w0 h0 bytes (Z.of_nat 0)).
  - unfold linear_bytes, level_width. change (2 ^ Z.of_nat 0) with 1. unfold ceil_div.
    rewrite !Z.div_1_r, !Z.add_simpl_r, !Z.max_l by lia.
    destruct (linear_unit_pow2 bytes Hb) as (k & Hk & -> & Ek).
    destruct (round_up_spec w0 (2 ^ k)) as [? _]; [apply Z.pow_pos_nonneg; lia|].
    assert (1 <= bytes) by (element_size_case Hb; lia).
    apply Z.mul_le_mono_nonneg_r; [lia|]. apply Z.mul_le_mono_nonneg_r; lia.
  - apply sum_levels_member; [|lia]. intros i Hi.
    destruct (linear_bytes_range w0 h0 bytes (Z.of_nat i)) as [[? _] _]; [done|lia..].
Qed.

(** What the guards and the branches of [TileGetTextureSize] make of a linear
    texture. *)
Lemma linear_elements_facts format width height w0 h0 bytes :
  linear_elements format width height = Some (w0, h0, bytes) ->
  1 <= width <= 16384 -> 1 <= height <= 16384 ->
  bytes ∈ element_sizes /\ 1 <= w0 <= 16384 /\ 1 <= h0 <= 16384
  /\ (negb (NumBytesPerElement format =? 0)
        && (mul64 (mul64 width height) (NumBytesPerElement format) >? u32_max)
      || negb (BlockCompressedBytesPerBlock format =? 0)
        && (mul64 (mul64 ((width + 3)%u32 `div` 4) ((height + 3)%u32 `div` 4))
              (BlockCompressedBytesPerBlock format) >? u32_max)) = (w0 * h0 * bytes >? u32_max)
  /\ forall levels, exists scale,
       texture_layout format width height levels 0 = linear_texture w0 h0 bytes scale levels.
Proof.
  intros He Hw Hh. pose proof (format_bytes format) as (Hfe & Hfb & Hor).
  assert (Hmul : forall a b c, 1 <= a <= 16384 -> 1 <= b <= 16384 -> 0 <= c <= 16 ->
    mul64 (mul64 a b) c = a * b * c).
  { intros a b c Ha Hb Hc. assert (1 <= a * b <= 16384 * 16384) by nia.
    rewrite (mul64_small a b) by u64_lia. apply mul64_small. split; [nia|].
    apply Z.le_trans with (16384 * 16384 * 16); [nia|u64_lia]. }
  assert (H4 : forall v, 1 <= v <= 16384 -> (v + 3)%u32 `div` 4 = ceil_div v 4 /\ 1 <= ceil_div v 4 <= 16384).
  { intros v Hv. unfold ceil_div. rewrite add32_small by u32_lia.
    replace (v + 4 - 1) with (v + 3) by lia. split; [done|]. Z.div_mod_to_equations. lia. }
  destruct (H4 width Hw) as [Ew4 Hw4], (H4 height Hh) as [Eh4 Hh4].
  unfold texture_layout. cbn zeta. rewrite Ew4, Eh4. unfold linear_elements in He.
  destruct (bool_decide_reflect (NumBytesPerElement format ∈ element_sizes)) as [He1|He1].
  - injection He as <- <- <-.
    assert (NumBytesPerElement format <> 0) by (intros E0; rewrite E0 in He1; set_solver).
    destruct Hor as [|Eb]; [done|]. rewrite Eb, Hmul by lia.
    rewrite !(proj2 (Z.eqb_neq (NumBytesPerElement format) 0)) by done. simpl. rewrite orb_false_r.
    split_and!; try done; try lia. intros levels. by eexists.
  - destruct (bool_decide_reflect (BlockCompressedBytesPerBlock format ∈ element_sizes)) as [He2|He2]; [|done].
    injection He as <- <- <-.
    assert (Hb0 : BlockCompressedBytesPerBlock format <> 0)
      by (intros E0; rewrite E0 in He2; set_solver).
    destruct Hor as [Ee|]; [|done]. rewrite Ee, (Hmul (ceil_div width 4)) by lia.
    rewrite !(proj2 (Z.eqb_neq (BlockCompressedBytesPerBlock format) 0)) by done. simpl.
    split_and!; try done; try lia. intros levels. rewrite !Z.max_l by lia. by eexists.
Qed.

(** The size of a linear texture with elements of 1, 2, 4, 8 or 16 bytes is
    exact: every level has rows padded to 256 bytes, the levels follow each other
    without gaps from the last to the first, the total is their sum rounded up
    to 256 bytes, and the computation fails exactly when that total needs more
    than 32 bits. *)
Theorem linear_texture_layout format width height pitch levels total0 ls0 ps0 w0 h0 bytes :
  linear_elements format width height = Some (w0, h0, bytes) ->
  1 <= width <= 16384 -> 1 <= height <= 16384 -> 1 <= levels <= 16 ->
  levels <= Z.of_nat (length ls0) -> levels <= Z.of_nat (length ps0) ->
  let sum := sum_levels (linear_bytes w0 h0 bytes) in
  match TileGetTextureSize format width height pitch levels 0 (Some total0) (Some ls0) (Some ps0) with
  | gives (total, Some ls, Some _) =>
      total = mkTileSizeAlign (round_up (sum (Z.to_nat levels)) 256) 256
      /\ forall l, 0 <= l < levels -> ls !! Z.to_nat l
         = Some (mkTileSizeOffset (linear_bytes w0 h0 bytes l)
                   (sum (Z.to_nat levels) - sum (S (Z.to_nat l))) 0 0 0 0)
  | refused => u32_max < round_up (sum (Z.to_nat levels)) 256
  | _ => False
  end.
Proof.
  intros He Hw Hh Hlev Hls Hps. cbn zeta.
  destruct (linear_elements_facts _ _ _ _ _ _ He Hw Hh) as (Hb & Hw0 & Hh0 & Hg & Hlayout).
  pose proof (linear_texture_spec w0 h0 bytes) as Hspec.
  unfold TileGetTextureSize. simpl.
  rewrite !Z.gtb_ltb, !(proj2 (Z.eqb_neq _ 0)), !(proj2 (Z.ltb_ge _ _)) by lia. simpl.
  rewrite <- !Z.gtb_ltb. set (g1 := negb (NumBytesPerElement format =? 0) && _) in *.
  set (g2 := negb (BlockCompressedBytesPerBlock format =? 0) && _) in *.
  assert (Hover : g1 || g2 = true ->
    u32_max < round_up (sum_levels (linear_bytes w0 h0 bytes) (Z.to_nat levels)) 256).
  { rewrite Hg, Z.gtb_ltb, Z.ltb_lt. intros Hbig.
    pose proof (linear_payload w0 h0 bytes levels Hb ltac:(lia) ltac:(lia) Hlev).
    destruct (round_up_spec (sum_levels (linear_bytes w0 h0 bytes) (Z.to_nat levels)) 256); lia. }
  destruct g1; [by apply Hover|]. destruct g2; [by apply Hover|]. clear Hover Hg.
  destruct (Hlayout levels) as [scale ->].
  specialize (Hspec scale levels Hb ltac:(lia) ltac:(lia) Hlev). cbn zeta in Hspec.
  destruct (decide _) as [Hle|Hgt]; [|rewrite Hspec; simpl; lia].
  destruct Hspec as (ls & ps & -> & El & Ep & Hin). simpl.
  destruct (copy_n_spec ls ls0 levels ltac:(lia) ltac:(lia) Hls) as (ls' & -> & _ & Hsame). simpl.
  destruct (copy_n_spec ps ps0 levels ltac:(lia) ltac:(lia) Hps) as (ps' & -> & _). simpl.
  split; [done|]. intros l Hl. rewrite Hsame by done. by apply (Hin l Hl).
Qed.

(** ** Pitches *)

Lemma round_up_scale w unit texel :
  0 < unit -> 0 < texel -> round_up (ceil_div w texel) unit * texel = round_up w (unit * texel).
Proof.
  intros Hu Ht. unfold round_up, ceil_div.
  assert (E : (w + unit * texel - 1) / (unit * texel) = ((w + texel - 1) / texel + unit - 1) / unit).
  { rewrite (Z.mul_comm unit texel), <- Z.div_div by lia. f_equal.
    replace (w + texel * unit - 1) with (w + texel - 1 + (unit - 1) * texel) by ring.
    rewrite Z.div_add by lia. lia. }
  rewrite E. ring.
Qed.

(** The formats of the linear tiling mode that have a padded pitch. *)
Definition pitch_padded (format tile : Z) : Prop :=
  (tile = 0 /\ NumBytesPerElement format ∈ element_sizes)
  \/ (tile ∈ [9; 17; 24; 27] /\ exists block, GetTextureBlockLayout format tile = gives block).

Lemma linear_pitch_spec format width levels :
  NumBytesPerElement format ∈ element_sizes -> 1 <= width <= 16384 -> 1 <= levels <= 16 ->
  TileGetTexturePitch format width levels 0
  = gives (round_up width (linear_unit (NumBytesPerElement format))).
Proof.
  intros He Hw Hlev. unfold TileGetTexturePitch.
  rewrite !Z.gtb_ltb, !(proj2 (Z.eqb_neq _ 0)), !(proj2 (Z.ltb_ge _ _)) by lia. simpl.
  set (e := NumBytesPerElement format) in *. clearbody e.
  assert (He' : 1 <= e <= 16) by (element_size_case He; lia).
  rewrite !(proj2 (Z.eqb_neq e 0)) by lia. simpl.
  rewrite Z.gtb_ltb, (proj2 (Z.ltb_ge _ _)).
  2: { apply Z.div_le_lower_bound; [lia|]. unfold u32_max. nia. }
  simpl. f_equal. rewrite mul32_small by (unfold u32_max; nia).
  change 256 with (2 ^ 8) at 1. rewrite AlignUp_pow2 by (unfold u32_max; nia).
  destruct (linear_unit_pow2 e He) as (k & Hk & Eu & Ek).
  assert (Eu' : linear_unit e * e = 256) by (rewrite Eu; lia).
  assert (0 < linear_unit e) by nia.
  change (2 ^ 8) with 256. rewrite <- Eu'. unfold round_up.
  assert (E : (width * e + linear_unit e * e - 1) / (linear_unit e * e)
              = (width + linear_unit e - 1) / linear_unit e).
  { rewrite (Z.mul_comm (linear_unit e) e), <- Z.div_div by lia.
    replace (width * e + e * linear_unit e - 1) with ((e - 1) + (width + linear_unit e - 1) * e) by ring.
    rewrite Z.div_add, (Z.div_small (e - 1)) by lia. done. }
  rewrite E. replace (linear_unit e * e * ((width + linear_unit e - 1) / linear_unit e))
    with (linear_unit e * ((width + linear_unit e - 1) / linear_unit e) * e) by ring.
  apply Z.div_mul. lia.
Qed.

Lemma block_pitch_spec format tile block width levels :
  GetTextureBlockLayout format tile = gives block -> tile ∈ [9; 17; 24; 27] ->
  1 <= width <= 16384 -> 1 <= levels <= 16 ->
  TileGetTexturePitch format width levels tile
  = gives (round_up width (tb_block_width block * tb_texel_width block)).
Proof.
  intros Hblock Htile Hw Hlev. unfold TileGetTexturePitch. rewrite Hblock.
  rewrite !Z.gtb_ltb, !(proj2 (Z.eqb_neq _ 0)), !(proj2 (Z.ltb_ge _ _)) by lia. simpl.
  assert (Halign : forall k, 0 <= k <= 16 -> AlignUp width (2 ^ k) = round_up width (2 ^ k)).
  { intros k Hk. apply AlignUp_pow2; [lia|lia|].
    assert (2 ^ k <= 2 ^ 16) by (apply Z.pow_le_mono_r; lia). change (2 ^ 16) with 65536 in *. u32_lia. }
  pose proof (Halign 6 ltac:(lia)) as A6. pose proof (Halign 7 ltac:(lia)) as A7.
  pose proof (Halign 8 ltac:(lia)) as A8. pose proof (Halign 9 ltac:(lia)) as A9.
  change (2 ^ 6) with 64 in A6. change (2 ^ 7) with 128 in A7. change (2 ^ 8) with 256 in A8.
  change (2 ^ 9) with 512 in A9.
  pose proof (format_bytes format) as (He & Hb & Hor). revert Hblock.
  unfold GetTextureBlockLayout, Gen5Standard64KBLayout, Gen5Thin64KBBlockSizeFromElementBytes. cbn zeta.
  set (e := NumBytesPerElement format) in *. set (b := BlockCompressedBytesPerBlock format) in *.
  clearbody e b. rewrite !elem_of_cons, elem_of_nil in Htile.
  destruct Htile as [->|[->|[->|[->|[]]]]];
  destruct He as [->|[->|[->|[->|[->|[->| ->]]]]]]; destruct Hb as [->|[->| ->]]; try (exfalso; lia);
    cbn; intros [= <-]; cbn; change (mul32 (shl32 1 6) 4) with 256; change (mul32 (shl32 1 7) 4) with 512;
    change (mul32 (shl32 1 6) 1) with 64; change (mul32 (shl32 1 7) 1) with 128;
    change (mul32 (shl32 1 8) 1) with 256; by rewrite ?A6, ?A7, ?A8, ?A9.
Qed.

(** For the linear tiling mode with elements of 1, 2, 4, 8 or 16 bytes, and
    for the 64 KiB, depth and render-target modes, the pitch of
    [TileGetTexturePitch] is the padded width that the size computation uses for
    the rows of level zero: two independent computations agree. *)
Theorem texture_pitch_agrees format tile width height levels total ls ps :
  pitch_padded format tile ->
  1 <= width <= 16384 -> 1 <= height <= 16384 -> 1 <= levels <= 16 ->
  texture_layout format width height 1 tile = gives (total, ls, ps) ->
  exists p, ps !! 0%nat = Some p /\ TileGetTexturePitch format width levels tile = gives (ps_width p).
Proof.
  intros [[-> He]|[Htile [block Hblock]]] Hw Hh Hlev Ht.
  - rewrite linear_pitch_spec by done.
    assert (Hel : linear_elements format width height = Some (width, height, NumBytesPerElement format))
      by (unfold linear_elements; by rewrite bool_decide_true).
    unfold texture_layout in Ht. cbn zeta in Ht.
    rewrite (proj2 (Z.eqb_neq (NumBytesPerElement format) 0)) in Ht
      by (intros E0; rewrite E0 in He; set_solver). simpl in Ht.
    pose proof (linear_texture_spec width height (NumBytesPerElement format) (fun v => v) 1 He ltac:(lia)
      ltac:(lia) ltac:(lia)) as Hs. cbn zeta in Hs. destruct (decide _); [|congruence].
    destruct Hs as (ls' & ps' & E & _ & _ & Hin). rewrite E in Ht. injection Ht as <- <- <-.
    destruct (Hin 0 ltac:(lia)) as [_ Ep]. eexists. split; [exact Ep|]. simpl.
    unfold level_width, ceil_div. change (2 ^ 0) with 1. by rewrite Z.div_1_r, Z.add_simpl_r, Z.max_l by lia.
  - rewrite (block_pitch_spec _ _ _ _ _ Hblock) by done.
    unfold texture_layout in Ht. cbn zeta in Ht.
    assert (tile <> 0) by (rewrite !elem_of_cons, elem_of_nil in Htile; lia).
    rewrite (proj2 (Z.eqb_neq tile 0)), andb_false_r, Hblock in Ht by done.
    destruct (block_texture_chain _ _ _ width height 1 Hblock Hw Hh ltac:(lia)) as (first & Hr & Hf & Hc).
    destruct (decide _); [|congruence]. destruct Hc as (total' & ls' & ps' & E & _ & _ & Hok).
    rewrite E in Ht. injection Ht as <- <- <-.
    assert (first = 1) as -> by (unfold first_tail_level in Hf; by rewrite Z.eqb_refl, orb_true_r in Hf).
    eexists. split; [apply (co_padding _ _ _ _ _ _ _ _ Hok 0); lia|]. simpl. f_equal.
    destruct (base_dimensions _ _ _ Hblock _ _ Hw Hh) as (Hw0 & _).
    destruct (to_powers _ (texture_block_sound _ _ _ Hblock)) as (kw & _ & _ & (Hk & _) & Ew & _).
    unfold level_width, ceil_div at 1. change (2 ^ 0) with 1. rewrite Z.div_1_r, Z.add_simpl_r, Z.max_l by lia.
    symmetry. apply round_up_scale.
    + rewrite Ew. apply Z.pow_pos_nonneg; lia.
    + destruct (to_texel _ (texture_block_sound _ _ _ Hblock)) as [[-> _]|[-> _]]; lia.
Qed.

(** Elements of 96 bits are different: their rows are padded to a number of
    elements that is no power of two, so the two computations disagree, and the
    size is too small for rows of the pitch. *)
Lemma pitch_disagrees_96_bit :
  exists pitch total ls ps,
    TileGetTexturePitch (BufferFormatValue k32_32_32Float) 1 1 0 = gives pitch
    /\ texture_layout (BufferFormatValue k32_32_32Float) 1 100 1 0 = gives (total, ls, ps)
    /\ sa_size total < pitch * NumBytesPerElement (BufferFormatValue k32_32_32Float) * 100.
Proof.
  eexists _, _, _, _. split; [vm_compute; reflexivity|]. split; [vm_compute; reflexivity|].
  vm_compute. reflexivity.
Qed.
