(* ===== verification/TileVolumes.v ===== *)
(** Layouts of tiled volumes ([TileGetTextureVolumeLayout] of
    [src/gpu/tile_layout.cpp]). *)
From S2P Require Import Prelude Words32 Formats TileBlocks TileTextures TileTextureProps.
From S2P Require Import TileTextureProps.

(** ** Blocks of volumes *)

(** The blocks of the tiling modes of volumes, with their tail tables. *)
Definition volume_block_ok (tile : Z) (element : TextureBlockLayout) : bool :=
  match volume_family tile with
  | gives family =>
      match TileGetBlockLayout family (tb_bytes element), volume_tail_locations family (tb_bytes element) with
      | gives block, gives locations =>
          pow2_upto 8 (bl_block_width block) && pow2_upto 8 (bl_block_height block)
          && pow2_upto 5 (bl_block_depth block) && pow2_upto 4 (tb_bytes element)
          && (bl_block_width block * bl_block_height block * bl_block_depth block * tb_bytes element
              =? bl_block_size block)
          && (bl_block_size block <=? 65536)
          && (countr_zero (bl_block_depth block) =? Z.log2 (bl_block_depth block))
          && (Z.of_nat (length locations) =? volume_max_tail family)
          && tail_check (bl_block_width block) (bl_block_height block)
               (volume_tail_limits block (tb_bytes element)).1 (volume_tail_limits block (tb_bytes element)).2
               locations
          && (1 <=? (volume_tail_limits block (tb_bytes element)).1)
          && (1 <=? (volume_tail_limits block (tb_bytes element)).2)
      | _, _ => false
      end
  | _ => false
  end.

Record volume_block (tile : Z) (element : TextureBlockLayout) (family : TileBlockFamily)
    (block : TileBlockLayout) (locations : list (Z * Z)) : Prop := {
  vb_family : volume_family tile = gives family;
  vb_block : TileGetBlockLayout family (tb_bytes element) = gives block;
  vb_locations : volume_tail_locations family (tb_bytes element) = gives locations;
  vb_powers : exists kw kh kd lo,
    (0 <= kw <= 8 /\ 0 <= kh <= 8 /\ 0 <= kd <= 5 /\ 0 <= lo <= 4)
    /\ bl_block_width block = 2 ^ kw /\ bl_block_height block = 2 ^ kh
    /\ bl_block_depth block = 2 ^ kd /\ tb_bytes element = 2 ^ lo
    /\ countr_zero (bl_block_depth block) = kd;
  vb_size : bl_block_width block * bl_block_height block * bl_block_depth block * tb_bytes element
            = bl_block_size block;
  vb_size_le : bl_block_size block <= 65536;
  vb_tail_count : Z.of_nat (length locations) = volume_max_tail family;
  vb_tail : tail_check (bl_block_width block) (bl_block_height block)
              (volume_tail_limits block (tb_bytes element)).1 (volume_tail_limits block (tb_bytes element)).2
              locations = true;
  vb_limits : 1 <= (volume_tail_limits block (tb_bytes element)).1
              /\ 1 <= (volume_tail_limits block (tb_bytes element)).2 }.

Lemma volume_block_exists format tile element :
  GetTextureBlockLayout format tile = gives element -> tile <> 1 ->
  exists family block locations, volume_block tile element family block locations.
Proof.
  intros H Hne. apply (texture_blocks_forall (fun '(tile, e) => (tile =? 1) || volume_block_ok tile e))
    in H; [|by vm_compute]. rewrite (proj2 (Z.eqb_neq tile 1) Hne) in H. simpl in H.
  unfold volume_block_ok in H. destruct (volume_family tile) as [| |family] eqn:Ef; [done..|].
  destruct (TileGetBlockLayout family (tb_bytes element)) as [| |block] eqn:Eb; [done..|].
  destruct (volume_tail_locations family (tb_bytes element)) as [| |locations] eqn:El; [done..|].
  rewrite !andb_true_iff, !Z.eqb_eq, !Z.leb_le in H.
  destruct H as ((((((((((Hw & Hh) & Hd) & Hlo) & Hs) & Hs') & Hc) & Hn) & Ht) & Ht1) & Ht2).
  exists family, block, locations. split; try done.
  apply pow2_upto_spec in Hw as (kw & ? & ?), Hh as (kh & ? & ?), Hlo as (lo & ? & ?), Hd as (kd & ? & Ed).
  exists kw, kh, kd, lo. rewrite Hc, Ed, Z.log2_pow2 by lia. split_and!; auto; lia.
Qed.

(** ** The levels *)

Definition volume_bytes (block : TileBlockLayout) (bytes width0 height0 level : Z) : Z :=
  bl_block_depth block * round_up (level_width width0 level) (bl_block_width block)
  * round_up (level_width height0 level) (bl_block_height block) * bytes.

(** A tail level fits its place. *)
Lemma level_width_tail v t first l :
  0 <= v -> 1 <= t -> 0 <= first <= l -> ceil_div v (2 ^ first) <= t ->
  level_width v l <= ceil_div t (2 ^ (l - first)).
Proof.
  intros Hv Ht Hl Hf.
  assert (0 < 2 ^ first) by (apply Z.pow_pos_nonneg; lia).
  assert (0 < 2 ^ (l - first)) by (apply Z.pow_pos_nonneg; lia).
  assert (El : 2 ^ l = 2 ^ first * 2 ^ (l - first)) by (rewrite <- Z.pow_add_r by lia; f_equal; lia).
  pose proof (ceil_div_lower t (2 ^ (l - first)) ltac:(lia)) as HM.
  pose proof (ceil_div_pos t (2 ^ (l - first)) ltac:(lia) ltac:(lia)).
  pose proof (ceil_div_lower v (2 ^ first) ltac:(lia)).
  set (M := ceil_div t (2 ^ (l - first))) in *. clearbody M.
  unfold level_width. apply Z.max_lub; [|lia]. apply ceil_div_le; [lia|]. rewrite El.
  apply Z.le_trans with (2 ^ first * t); [nia|]. rewrite <- Z.mul_assoc. apply Z.mul_le_mono_nonneg_l; lia.
Qed.

Section volume.
Context (tile : Z) (element : TextureBlockLayout) (family : TileBlockFamily) (block : TileBlockLayout).
Context (locations : list (Z * Z)) (Hb : volume_block tile element family block locations).
Context (width0 height0 levels : Z) (Hw : 1 <= width0 <= 16384) (Hh : 1 <= height0 <= 16384).
Context (Hlev : 1 <= levels <= 16).
Abbreviation bytes := (tb_bytes element).
Abbreviation tw := (volume_tail_limits block (tb_bytes element)).1.
Abbreviation th := (volume_tail_limits block (tb_bytes element)).2.
Abbreviation size := (volume_bytes block (tb_bytes element) width0 height0).
Abbreviation fits := (fits_tail width0 height0 tw th (volume_max_tail family) levels).

Lemma volume_bytes_range level :
  0 <= level <= 16 ->
  0 < size level < 2 ^ 40
  /\ AlignUp (level_width width0 level) (bl_block_width block)
     = round_up (level_width width0 level) (bl_block_width block)
  /\ AlignUp (level_width height0 level) (bl_block_height block)
     = round_up (level_width height0 level) (bl_block_height block)
  /\ mul64 (mul64 (mul64 (bl_block_depth block) (round_up (level_width width0 level) (bl_block_width block)))
       (round_up (level_width height0 level) (bl_block_height block))) bytes = size level.
Proof.
  intros Hl. destruct (vb_powers _ _ _ _ _ Hb) as (kw & kh & kd & lo & (Hkw & Hkh & Hkd & Hlo) & Ew & Eh & Ed & Eb & _).
  pose proof (level_width_range width0 level ltac:(lia) Hl).
  pose proof (level_width_range height0 level ltac:(lia) Hl).
  assert (0 < 2 ^ kw <= 2 ^ 8) by (split; [apply Z.pow_pos_nonneg|apply Z.pow_le_mono_r]; lia).
  assert (0 < 2 ^ kh <= 2 ^ 8) by (split; [apply Z.pow_pos_nonneg|apply Z.pow_le_mono_r]; lia).
  assert (0 < 2 ^ kd <= 2 ^ 5) by (split; [apply Z.pow_pos_nonneg|apply Z.pow_le_mono_r]; lia).
  assert (0 < 2 ^ lo <= 2 ^ 4) by (split; [apply Z.pow_pos_nonneg|apply Z.pow_le_mono_r]; lia).
  change (2 ^ 8) with 256 in *. change (2 ^ 5) with 32 in *. change (2 ^ 4) with 16 in *.
  unfold volume_bytes. rewrite Ew, Eh, Ed, Eb.
  pose proof (round_up_spec (level_width width0 level) (2 ^ kw) ltac:(lia)) as [? _].
  pose proof (round_up_spec (level_width height0 level) (2 ^ kh) ltac:(lia)) as [? _].
  rewrite !AlignUp_pow2 by u32_lia.
  set (a := round_up _ (2 ^ kw)) in *. set (b := round_up _ (2 ^ kh)) in *.
  set (c := 2 ^ kd) in *. set (d := 2 ^ lo) in *. clearbody a b c d.
  assert (0 < c * a <= 32 * 16640) by nia. assert (0 < c * a * b <= 32 * 16640 * 16640) by nia.
  assert (0 < c * a * b * d <= 32 * 16640 * 16640 * 16) by nia.
  split_and!; [lia|change (2 ^ 40) with 1099511627776; lia|done|done|].
  rewrite (mul64_small c a) by u64_lia. rewrite (mul64_small (c * a) b) by u64_lia.
  apply mul64_small. u64_lia.
Qed.

Lemma volume_sum_range (n : nat) : (n <= 16)%nat -> 0 <= sum_levels size n <= 2 ^ 40 * Z.of_nat n.
Proof.
  induction n as [|n IH]; intros Hn; [done|]. simpl (sum_levels _ (S n)).
  destruct (volume_bytes_range (Z.of_nat n)) as [Hs _]; [lia|]. specialize (IH ltac:(lia)). lia.
Qed.

(** The state of the first loop after the levels below [n]. *)
Definition volume_state (n : nat) (s : VolumeLevels) : Prop :=
  length (vs_widths s) = 16%nat /\ length (vs_heights s) = 16%nat /\ length (vs_sizes s) = 16%nat
  /\ forall l, (l < n)%nat ->
       vs_widths s !! l = Some (round_up (level_width width0 (Z.of_nat l)) (bl_block_width block))
       /\ vs_heights s !! l = Some (round_up (level_width height0 (Z.of_nat l)) (bl_block_height block))
       /\ vs_sizes s !! l = Some (size (Z.of_nat l)).

(** The first tail level, and the size of a slice of blocks. *)
Definition volume_first (first : Z) : Prop :=
  0 <= first <= levels /\ (levels = 1 -> first = levels)
  /\ (first < levels -> fits first) /\ (forall l, 0 <= l < first -> levels > 1 -> ~ fits l).
Definition volume_base (first : Z) : Z := if first <? levels then bl_block_size block else 0.

Lemma volume_levels_spec (n : nat) : forall (done : nat) s,
  Z.of_nat (done + n) = levels -> volume_state done s ->
  vs_first_tail s = levels -> vs_slice s = sum_levels size done ->
  (forall l, 0 <= l < Z.of_nat done -> levels > 1 -> ~ fits l) ->
  exists s', volume_levels n block bytes width0 height0 tw th (volume_max_tail family) levels
               (Z.of_nat done) s = gives s'
    /\ volume_first (vs_first_tail s') /\ volume_state (Z.to_nat (vs_first_tail s')) s'
    /\ vs_slice s' = volume_base (vs_first_tail s') + sum_levels size (Z.to_nat (vs_first_tail s')).
Proof.
  pose proof (vb_limits _ _ _ _ _ Hb) as [Ht1 Ht2].
  pose proof (vb_size_le _ _ _ _ _ Hb). pose proof (vb_size _ _ _ _ _ Hb) as Hsz.
  assert (Hpos : 0 < bl_block_size block).
  { destruct (vb_powers _ _ _ _ _ Hb) as (kw & kh & kd & lo & ? & Ew & Eh & Ed & Eb & _).
    rewrite <- Hsz, Ew, Eh, Ed, Eb. repeat apply Z.mul_pos_pos; apply Z.pow_pos_nonneg; lia. }
  induction n as [|n IH]; intros done s En Hst Ef Es Hno; simpl.
  - exists s. rewrite Ef, Nat.add_0_r in *. split; [done|]. unfold volume_first, volume_base.
    rewrite Z.ltb_irrefl, <- En, Nat2Z.id. split; [|split; [done|rewrite Es; lia]].
    split_and!; try lia. intros l Hl Hg. rewrite En. apply Hno; lia.
  - rewrite !ShiftCeil_spec, sub32_small by u32_lia.
    fold (ceil_div width0 (2 ^ Z.of_nat done)) (ceil_div height0 (2 ^ Z.of_nat done)).
    fold (level_width width0 (Z.of_nat done)) (level_width height0 (Z.of_nat done)).
    destruct (volume_bytes_range (Z.of_nat done) ltac:(lia)) as (Hr & -> & -> & ->).
    pose proof (volume_sum_range done ltac:(lia)) as Hsum. change (2 ^ 40) with 1099511627776 in *.
    rewrite Z.gtb_ltb.
    match goal with |- context [ if ?c then _ else _ ] => destruct c eqn:Ec end.
    + rewrite !andb_true_iff, Z.ltb_lt, !Z.leb_le in Ec. unfold level_width in Ec.
      eexists. split; [done|]. simpl. rewrite Nat2Z.id. unfold volume_base.
      rewrite (proj2 (Z.ltb_lt (Z.of_nat done) levels)) by lia.
      split; [|split; [done|rewrite Es, add64_small; u64_lia]].
      unfold volume_first. split_and!; try lia.
      * intros _. unfold fits_tail. lia.
      * intros l Hl Hg. apply Hno; lia.
    + destruct Hst as (E1 & E2 & E3 & Hst). rewrite !set_index_def by lia. simpl.
      rewrite Nat2Z.id, add32_small, Es, add64_small by (u32_lia || u64_lia).
      replace (Z.of_nat done + 1) with (Z.of_nat (S done)) by lia.
      apply IH; simpl; [lia| |done|done|].
      * split_and!; simpl; [by rewrite length_insert..|]. intros l Hl. destruct (decide (l = done)) as [->|].
        -- by rewrite !list_lookup_insert_eq by lia.
        -- rewrite !list_lookup_insert_ne by done. apply Hst. lia.
      * intros l Hl Hg. destruct (decide (l = Z.of_nat done)) as [->|]; [|apply Hno; lia].
        intros (F1 & F2 & F3). unfold level_width in Ec.
        rewrite !andb_false_iff, Z.ltb_ge, !Z.leb_gt in Ec. lia.
Qed.

Lemma volume_tail_spec first (n : nat) : forall (done : nat) ss ws hs xs ys,
  0 <= first -> Z.of_nat (done + n) = levels - first -> levels - first <= Z.of_nat (length locations) ->
  length ss = 16%nat -> length ws = 16%nat -> length hs = 16%nat -> length xs = 16%nat ->
  length ys = 16%nat ->
  exists ss' ws' hs' xs' ys',
    volume_tail n block locations first (first + Z.of_nat done) ss ws hs xs ys
    = gives (ss', ws', hs', xs', ys')
    /\ length ss' = 16%nat
    /\ (forall l, (done <= l < done + n)%nat -> exists location, locations !! l = Some location
          /\ ss' !! (Z.to_nat first + l)%nat = Some (bl_block_size block)
          /\ xs' !! (Z.to_nat first + l)%nat = Some location.1
          /\ ys' !! (Z.to_nat first + l)%nat = Some location.2)
    /\ (forall l, (l < Z.to_nat first + done)%nat ->
          ss' !! l = ss !! l /\ ws' !! l = ws !! l /\ hs' !! l = hs !! l
          /\ xs' !! l = xs !! l /\ ys' !! l = ys !! l).
Proof.
  induction n as [|n IH]; intros done ss ws hs xs ys Hf En Hle E1 E2 E3 E4 E5; simpl.
  - do 5 eexists. split; [done|]. split_and!; [done|intros; lia|done].
  - rewrite sub32_small by u32_lia. replace (first + Z.of_nat done - first) with (Z.of_nat done) by lia.
    destruct (at_index_def locations (Z.of_nat done) ltac:(lia)) as (loc & -> & Eloc). simpl.
    rewrite Nat2Z.id in Eloc. rewrite !set_index_def by lia. simpl.
    rewrite add32_small by u32_lia.
    replace (Z.to_nat (first + Z.of_nat done)) with (Z.to_nat first + done)%nat by lia.
    replace (first + Z.of_nat done + 1) with (first + Z.of_nat (S done)) by lia.
    match goal with |- context [volume_tail n _ _ _ _ ?a ?b ?c ?d ?e] =>
      destruct (IH (S done) a b c d e) as (ss' & ws' & hs' & xs' & ys' & E & El & Hin & Hout);
        [done|lia|done|by rewrite length_insert..|] end.
    exists ss', ws', hs', xs', ys'. split; [done|]. split; [done|]. split.
    + intros l Hl. destruct (decide (l = done)) as [->|]; [|apply Hin; lia].
      exists loc. split; [done|].
      destruct (Hout (Z.to_nat first + done)%nat ltac:(lia)) as (-> & _ & _ & -> & ->).
      by rewrite !list_lookup_insert_eq by lia.
    + intros l Hl. destruct (Hout l ltac:(lia)) as (-> & -> & -> & -> & ->).
      by rewrite !list_lookup_insert_ne by lia.
Qed.

Lemma volume_offsets_spec sizes (n : nat) : forall offset offsets,
  (n <= 16)%nat -> 0 <= offset <= 2 ^ 50 - 2 ^ 41 * Z.of_nat n -> length offsets = 16%nat ->
  (forall l, (l < n)%nat -> sizes !! l = Some (size (Z.of_nat l))) ->
  exists offsets',
    volume_offsets n sizes offset offsets = gives (offset + sum_levels size n, offsets')
    /\ (forall l, (l < n)%nat ->
          offsets' !! l = Some (offset + (sum_levels size n - sum_levels size (S l))))
    /\ (forall l, (n <= l)%nat -> offsets' !! l = offsets !! l).
Proof.
  change (2 ^ 50) with 1125899906842624. change (2 ^ 41) with 2199023255552.
  induction n as [|n IH]; intros offset offsets Hn Ho El Hs; simpl.
  - exists offsets. rewrite Z.add_0_r. split_and!; [done|intros; lia|done].
  - rewrite set_index_def by lia. simpl. rewrite Nat2Z.id.
    rewrite (proj2 (at_index_gives sizes (Z.of_nat n) (size (Z.of_nat n))))
      by (rewrite Nat2Z.id; split; [lia|apply Hs; lia]). simpl.
    destruct (volume_bytes_range (Z.of_nat n) ltac:(lia)) as [Hr _].
    change (2 ^ 40) with 1099511627776 in *. rewrite add64_small by u64_lia.
    destruct (IH (offset + size (Z.of_nat n)) (<[n:=offset]> offsets)) as (o' & E & Hin & Hout);
      [lia|lia|by rewrite length_insert|intros; apply Hs; lia|].
    exists o'. split_and!.
    + rewrite E. do 2 f_equal. lia.
    + intros l Hl. destruct (decide (l = n)) as [->|].
      * rewrite Hout, list_lookup_insert_eq by lia. f_equal. lia.
      * rewrite Hin by lia. f_equal. simpl. lia.
    + intros l Hl. by rewrite Hout, list_lookup_insert_ne by lia.
Qed.
End volume.

(** What is promised of the layout of a volume. *)
Record volume_ok (element : TextureBlockLayout) (family : TileBlockFamily) (block : TileBlockLayout)
    (width0 height0 depth levels : Z) (v : TileVolumeLayout) : Prop := {
  vo_first : volume_first element family block width0 height0 levels (vl_first_tail_level v);
  vo_slice : vl_block_slice_size v = volume_base block levels (vl_first_tail_level v)
    + sum_levels (volume_bytes block (tb_bytes element) width0 height0) (Z.to_nat (vl_first_tail_level v));
  vo_total : vl_total_size v = vl_block_slice_size v * ceil_div depth (bl_block_depth block);
  vo_level l : 0 <= l < vl_first_tail_level v ->
    vl_level_sizes v !! Z.to_nat l = Some (volume_bytes block (tb_bytes element) width0 height0 l)
    /\ exists offset, vl_level_offsets v !! Z.to_nat l = Some offset
      /\ volume_base block levels (vl_first_tail_level v) <= offset
      /\ offset + volume_bytes block (tb_bytes element) width0 height0 l <= vl_block_slice_size v;
  vo_apart l l' o o' : 0 <= l < l' -> l' < vl_first_tail_level v ->
    vl_level_offsets v !! Z.to_nat l = Some o -> vl_level_offsets v !! Z.to_nat l' = Some o' ->
    o' + volume_bytes block (tb_bytes element) width0 height0 l' <= o;
  vo_tail l : vl_first_tail_level v <= l < levels -> exists x y,
    vl_tail_x v !! Z.to_nat l = Some x /\ vl_tail_y v !! Z.to_nat l = Some y
    /\ rect_inside (bl_block_width block) (bl_block_height block)
         (x, y, level_width width0 l, level_width height0 l) = true;
  vo_tail_apart l l' x y x' y' : vl_first_tail_level v <= l < l' -> l' < levels ->
    vl_tail_x v !! Z.to_nat l = Some x -> vl_tail_y v !! Z.to_nat l = Some y ->
    vl_tail_x v !! Z.to_nat l' = Some x' -> vl_tail_y v !! Z.to_nat l' = Some y' ->
    rect_apart (x, y, level_width width0 l, level_width height0 l)
               (x', y', level_width width0 l', level_width height0 l') = true }.

(** The dimensions of level zero in elements. *)
Lemma element_dimensions format tile element width height :
  GetTextureBlockLayout format tile = gives element -> 1 <= width <= 16384 -> 1 <= height <= 16384 ->
  ceil_div32 width (tb_texel_width element) = ceil_div width (tb_texel_width element)
  /\ ceil_div32 height (tb_texel_height element) = ceil_div height (tb_texel_height element)
  /\ 1 <= ceil_div width (tb_texel_width element) <= 16384
  /\ 1 <= ceil_div height (tb_texel_height element) <= 16384.
Proof.
  intros H Hw Hh. by destruct (base_dimensions _ _ _ H _ _ Hw Hh) as (? & ? & ? & ?).
Qed.

Lemma volume_tail_ok tile element family block locations width0 height0 levels first
    (xs ys : list Z) :
  volume_block tile element family block locations ->
  1 <= width0 <= 16384 -> 1 <= height0 <= 16384 ->
  volume_first element family block width0 height0 levels first ->
  (forall l, first <= l < levels -> exists location,
     locations !! Z.to_nat (l - first) = Some location
     /\ xs !! Z.to_nat l = Some location.1 /\ ys !! Z.to_nat l = Some location.2) ->
  (forall l, first <= l < levels -> exists x y,
     xs !! Z.to_nat l = Some x /\ ys !! Z.to_nat l = Some y
     /\ rect_inside (bl_block_width block) (bl_block_height block)
          (x, y, level_width width0 l, level_width height0 l) = true)
  /\ (forall l l' x y x' y', first <= l < l' -> l' < levels ->
     xs !! Z.to_nat l = Some x -> ys !! Z.to_nat l = Some y ->
     xs !! Z.to_nat l' = Some x' -> ys !! Z.to_nat l' = Some y' ->
     rect_apart (x, y, level_width width0 l, level_width height0 l)
                (x', y', level_width width0 l', level_width height0 l') = true).
Proof.
  intros Hb Hw Hh (Hr & _ & Hfit & _) Hxy.
  assert (Hlim : forall l, first <= l < levels ->
    level_width width0 l <= ceil_div (volume_tail_limits block (tb_bytes element)).1 (2 ^ (l - first))
    /\ level_width height0 l <= ceil_div (volume_tail_limits block (tb_bytes element)).2 (2 ^ (l - first))).
  { intros l Hl. destruct (Hfit ltac:(lia)) as (F1 & F2 & _).
    pose proof (vb_limits _ _ _ _ _ Hb) as [? ?]. split; apply level_width_tail; lia. }
  split.
  - intros l Hl. destruct (Hxy l Hl) as (loc & El & Ex & Ey). exists loc.1, loc.2. split_and!; [done..|].
    pose proof (tail_check_inside _ _ _ _ _ (vb_tail _ _ _ _ _ Hb) _ _ El) as Hi.
    rewrite Z2Nat.id in Hi by lia. destruct (Hlim l Hl) as [H1 H2].
    by apply (rect_inside_smaller _ _ _ _ _ _ _ _ H1 H2).
  - intros l l' x y x' y' Hl Hl' Ex Ey Ex' Ey'.
    destruct (Hxy l ltac:(lia)) as (loc & El & Ex0 & Ey0), (Hxy l' ltac:(lia)) as (loc' & El' & Ex1 & Ey1).
    simplify_eq. destruct (Hlim l ltac:(lia)) as [H1 H2], (Hlim l' ltac:(lia)) as [H3 H4].
    pose proof (tail_check_apart _ _ _ _ _ (vb_tail _ _ _ _ _ Hb) _ _ _ _
      ltac:(apply (Z2Nat.inj_lt (l - first) (l' - first)); lia) El El') as Ha.
    rewrite !Z2Nat.id in Ha by lia. by apply (rect_apart_smaller _ _ _ _ _ _ _ _ _ _ _ _ H1 H2 H3 H4).
Qed.

(** The layout that the loops assemble. *)
Lemma volume_assemble tile element family block locations width0 height0 depth levels first
    texel_width texel_height offsets sizes xs ys widths heights :
  volume_block tile element family block locations ->
  1 <= width0 <= 16384 -> 1 <= height0 <= 16384 -> 1 <= depth <= 16384 -> 1 <= levels <= 16 ->
  volume_first element family block width0 height0 levels first ->
  0 <= volume_base block levels first <= 65536 ->
  let size := volume_bytes block (tb_bytes element) width0 height0 in
  let slice := volume_base block levels first + sum_levels size (Z.to_nat first) in
  (forall l, (l < Z.to_nat first)%nat -> sizes !! l = Some (size (Z.of_nat l))) ->
  (forall l, (l < Z.to_nat first)%nat -> offsets !! l
     = Some (volume_base block levels first + (sum_levels size (Z.to_nat first) - sum_levels size (S l)))) ->
  (forall l, first <= l < levels -> exists location,
     locations !! Z.to_nat (l - first) = Some location
     /\ xs !! Z.to_nat l = Some location.1 /\ ys !! Z.to_nat l = Some location.2) ->
  volume_ok element family block width0 height0 depth levels
    (mkTileVolumeLayout family (tb_bytes element) texel_width texel_height first (bl_block_depth block) slice
       (mul64 slice (ShiftCeil depth (countr_zero (bl_block_depth block)))) offsets sizes xs ys widths heights).
Proof.
  intros Hb Hw Hh Hd Hlev Hfirst Hbase size slice Hs Ho Hxy. pose proof Hfirst as (Hr & _).
  destruct (volume_tail_ok _ _ _ _ _ _ _ _ _ xs ys Hb Hw Hh Hfirst Hxy) as [Ht1 Ht2].
  assert (Hmono : forall n m, (n <= m <= 16)%nat -> sum_levels size n <= sum_levels size m).
  { intros n m Hnm. apply sum_levels_mono; [|lia]. intros l Hl.
    destruct (volume_bytes_range _ _ _ _ _ Hb _ _ Hw Hh (Z.of_nat l)) as [[? _] _]; [lia|]. unfold size. lia. }
  split; simpl; [done|done| | | |done|done].
  - destruct (vb_powers _ _ _ _ _ Hb) as (_ & _ & kd & _ & (_ & _ & Hkd & _) & _ & _ & Ed & _ & ->).
    rewrite ShiftCeil_spec by u32_lia. rewrite <- Ed. fold (ceil_div depth (bl_block_depth block)).
    assert (0 < bl_block_depth block) by (rewrite Ed; apply Z.pow_pos_nonneg; lia).
    assert (0 <= ceil_div depth (bl_block_depth block) <= 16384)
      by (split; [apply Z.div_pos; lia|apply ceil_div_le; nia]).
    destruct (volume_sum_range _ _ _ _ _ Hb _ _ Hw Hh (Z.to_nat first) ltac:(lia)) as [? Hle].
    change (2 ^ 40) with 1099511627776 in Hle. fold size in H1, Hle.
    assert (0 <= slice <= 65536 + 1099511627776 * 16) by (unfold slice; lia).
    apply mul64_small. rewrite u64_max_eq. nia.
  - intros l Hl. rewrite Hs, Z2Nat.id by lia. split; [done|]. rewrite Ho by lia. eexists. split; [done|].
    pose proof (Hmono (S (Z.to_nat l)) (Z.to_nat first) ltac:(lia)).
    pose proof (Hmono 0%nat (Z.to_nat l) ltac:(lia)) as H0.
    change (sum_levels size 0) with 0 in H0. fold size. unfold slice.
    assert (E : sum_levels size (S (Z.to_nat l)) = sum_levels size (Z.to_nat l) + size l)
      by (simpl; by rewrite Z2Nat.id by lia). lia.
  - intros l l' o o' Hl Hl' Eo Eo'. rewrite Ho in Eo by lia. rewrite Ho in Eo' by lia.
    injection Eo as <-. injection Eo' as <-. fold size.
    pose proof (Hmono (S (Z.to_nat l)) (Z.to_nat l') ltac:(lia)) as Hle. simpl in Hle.
    rewrite !Z2Nat.id in * by lia. lia.
Qed.

(** The layout of a tiled volume always exists for a supported format and
    tiling mode and for dimensions up to 16384 (its final consistency check never
    fails and no table or array is indexed out of bounds).  The levels outside
    the tail are disjoint ranges of a slice of blocks, after the block of the
    tail; the tail levels are disjoint rectangles of that block; the total is
    one slice per block depth, computed without overflow. *)
Theorem volume_layout_exists format tile element width height depth levels :
  GetTextureBlockLayout format tile = gives element -> tile <> 1 ->
  1 <= width <= 16384 -> 1 <= height <= 16384 -> 1 <= depth <= 16384 -> 1 <= levels <= 16 ->
  exists family block v,
    volume_family tile = gives family /\ TileGetBlockLayout family (tb_bytes element) = gives block
    /\ TileGetTextureVolumeLayout format width height depth levels tile = gives v
    /\ volume_ok element family block (ceil_div width (tb_texel_width element))
         (ceil_div height (tb_texel_height element)) depth levels v.
Proof.
  intros He Hne Hw Hh Hd Hlev.
  destruct (volume_block_exists _ _ _ He Hne) as (family & block & locations & Hb).
  destruct (element_dimensions _ _ _ _ _ He Hw Hh) as (Ew & Eh & Hw0 & Hh0).
  exists family, block. unfold TileGetTextureVolumeLayout, TileGetTextureVolumeLayoutImpl.
  rewrite !Z.gtb_ltb, !(proj2 (Z.eqb_neq _ 0)), !(proj2 (Z.ltb_ge _ _)) by lia. simpl.
  rewrite He. simpl. rewrite (vb_family _ _ _ _ _ Hb). simpl. rewrite (vb_block _ _ _ _ _ Hb). simpl.
  rewrite Ew, Eh, (surjective_pairing (volume_tail_limits block (tb_bytes element))).
  set (w0 := ceil_div width _) in *. set (h0 := ceil_div height _) in *.
  destruct (volume_levels_spec _ _ _ _ _ Hb w0 h0 levels Hw0 Hh0 Hlev (Z.to_nat levels) 0
    (mkVolumeLevels levels 0 (array16 0) (array16 0) (array16 0)))
    as (s & E & Hfirst & Hst & Hslice); [lia|split_and!; [done..|intros; lia]|done|done|intros; lia|].
  change (Z.of_nat 0) with 0 in E. rewrite E. simpl. rewrite (vb_locations _ _ _ _ _ Hb). simpl.
  set (first := vs_first_tail s) in *. destruct Hst as (L1 & L2 & L3 & Hst).
  pose proof Hfirst as (Hr & _ & Hfit & _).
  assert (Hn : levels - first <= Z.of_nat (length locations)).
  { rewrite (vb_tail_count _ _ _ _ _ Hb). destruct (decide (first < levels)) as [Hlt|].
    - by destruct (Hfit Hlt) as (_ & _ & ?).
    - unfold volume_max_tail. repeat split_match; lia. }
  destruct (volume_tail_spec block locations levels Hlev first (Z.to_nat (levels - first)) 0 (vs_sizes s)
    (vs_widths s) (vs_heights s) (array16 0) (array16 0))
    as (ss & ws & hs & xs & ys & E' & Lss & Hin & Hout); [lia|lia|done|done..|].
  change (Z.of_nat 0) with 0 in E'. rewrite Z.add_0_r in E'. rewrite E'. simpl. clear E E'.
  fold (volume_base block levels first).
  assert (Hbase : 0 <= volume_base block levels first <= 65536).
  { pose proof (vb_size_le _ _ _ _ _ Hb). unfold volume_base. split_match; [|lia]. split; [|done].
    destruct (vb_powers _ _ _ _ _ Hb) as (? & ? & ? & ? & ? & E1 & E2 & E3 & E4 & _).
    rewrite <- (vb_size _ _ _ _ _ Hb), E1, E2, E3, E4. repeat apply Z.mul_nonneg_nonneg; apply Z.pow_nonneg; lia. }
  destruct (volume_offsets_spec _ _ _ _ _ Hb w0 h0 Hw0 Hh0 ss (Z.to_nat first)
    (volume_base block levels first) (array16 0)) as (offsets & -> & Ho & _);
    [lia|change (2 ^ 50) with 1125899906842624; change (2 ^ 41) with 2199023255552; lia|done|..].
  { intros l Hl. destruct (Hout l ltac:(lia)) as [-> _]. by destruct (Hst l Hl) as (_ & _ & ->). }
  simpl. rewrite Hslice, Z.eqb_refl. eexists. split_and!; [done|done|done|].
  apply (volume_assemble _ _ _ _ _ _ _ _ _ _ _ _ _ _ _ _ _ _ Hb); try done.
  - intros l Hl. destruct (Hout l ltac:(lia)) as [-> _]. by destruct (Hst l Hl) as (_ & _ & ->).
  - intros l Hl. destruct (Hin (Z.to_nat (l - first)) ltac:(lia)) as (loc & ? & _ & Ex & Ey).
    exists loc. replace (Z.to_nat l) with (Z.to_nat first + Z.to_nat (l - first))%nat by lia. done.
Qed.
