(* ===== verification/ImageLayout.v ===== *)
(** Layouts of guest images ([src/gpu/image_layout.cpp]): the byte ranges of the
    mip levels of a linear image, and the staging layout of a tiled render
    target. *)
From S2P Require Import Prelude Words32 Formats TileBlocks TileTextures.

(** ** Data *)

Definition kMaxGuestImageMipLevels : Z := 16.
Definition kMaxGuestImageLayoutBytes : Z := 512 * 1024 * 1024.

Inductive GuestImageLayoutStatus :=
| kLayoutSuccess | kNeedsDetile | kLayoutInvalidArgument | kUnsupportedFormat | kUnsupportedLayout
| kLayoutOverflow.

#[global] Instance GuestImageLayoutStatus_eq_dec : EqDecision GuestImageLayoutStatus.
Proof. solve_decision. Defined.
#[global] Instance ImageType_eq_dec : EqDecision ImageType.
Proof. solve_decision. Defined.
#[global] Instance TileMode_eq_dec : EqDecision TileMode.
Proof. solve_decision. Defined.

Record GuestImageStorageKey := mkGuestImageStorageKey {
  sk_guest_address : Z; sk_byte_count : Z; sk_storage_alias_format : Z }.

Record GuestImageMipLayout := mkGuestImageMipLayout {
  ml_width : Z;
  ml_height : Z;
  ml_depth : Z;
  ml_block_width : Z;
  ml_block_height : Z;
  ml_block_depth : Z;
  ml_row_bytes : Z;
  ml_slice_bytes : Z;
  ml_layer_bytes : Z;
  ml_byte_offset : Z;
  ml_byte_count : Z }.
Definition no_mip : GuestImageMipLayout := mkGuestImageMipLayout 0 0 0 0 0 0 0 0 0 0 0.

Record GuestImageLayoutInput := mkGuestImageLayoutInput {
  in_guest_address : Z;
  in_format : Z;
  in_width : Z;
  in_height : Z;
  in_depth : Z;
  in_layers : Z;
  in_mip_count : Z;
  in_row_pitch_bytes : Z;
  in_slice_pitch_bytes : Z;
  in_image_type : ImageType;
  in_tile_mode : TileMode;
  in_tightly_packed : bool }.

Record GuestImageLayout := mkGuestImageLayout {
  gl_status : GuestImageLayoutStatus;
  gl_diagnostic : string;
  gl_view_format : Z;
  gl_storage_alias_format : Z;
  gl_array_layers : Z;
  gl_block_compressed : bool;
  gl_needs_detile : bool;
  gl_mips : list GuestImageMipLayout;
  gl_total_bytes : Z;
  gl_guest_storage_bytes : Z;
  gl_storage_key : GuestImageStorageKey }.

Definition layout_ok (layout : GuestImageLayout) : bool := bool_decide (gl_status layout = kLayoutSuccess).

(** ** Helpers *)

Definition Add (left right : Z) : option Z :=
  if left >? sub64 u64_max right then None else Some (add64 left right).
Definition Multiply (left right : Z) : option Z :=
  if negb (left =? 0) && (right >? u64_max `div` left) then None else Some (mul64 left right).

#[global] Arguments Add : simpl never.
#[global] Arguments Multiply : simpl never.

Definition MipDimension (dimension level : Z) : Z := Z.max (Z.shiftr dimension level) 1.

Definition Failure (status : GuestImageLayoutStatus) (diagnostic : string) (needs_detile : bool)
    : GuestImageLayout :=
  mkGuestImageLayout status diagnostic 0 0 0 false needs_detile (array16 no_mip) 0 0
    (mkGuestImageStorageKey 0 0 0).

Definition IsKnownImageType (type : ImageType) : bool :=
  match type with
  | kColor1D | kColor2D | kColor3D | kCube | kColor1DArray | kColor2DArray => true
  | _ => false
  end.

(** A computation that ends with a failed layout or goes on with a value. *)
#[global] Instance layout_bind : MBind (sum GuestImageLayout) := fun A B f x =>
  match x with inl r => inl r | inr a => f a end.
Definition stop {A} (status : GuestImageLayoutStatus) (diagnostic : string) : GuestImageLayout + A :=
  inl (Failure status diagnostic false).
Definition or_stop {A} (o : option A) (status : GuestImageLayoutStatus) (diagnostic : string)
    : GuestImageLayout + A :=
  match o with Some a => inr a | None => stop status diagnostic end.
Definition check_that (b : bool) (status : GuestImageLayoutStatus) (diagnostic : string)
    : GuestImageLayout + unit :=
  if b then inr tt else stop status diagnostic.

(** ** Checks of the input *)

Definition check_input (input : GuestImageLayoutInput) : GuestImageLayout + unit :=
  _ ← check_that (negb ((in_width input =? 0) || (in_height input =? 0) || (in_depth input =? 0)
                        || (in_layers input =? 0) || (in_mip_count input =? 0)))
        kLayoutInvalidArgument "guest image dimensions, layers, and mips must be nonzero";
  _ ← check_that (in_mip_count input <=? kMaxGuestImageMipLevels)
        kUnsupportedLayout "guest image mip count exceeds the fixed layout bound";
  _ ← check_that (IsKnownImageType (in_image_type input))
        kUnsupportedLayout "unsupported guest image type";
  let bytes_per_element := NumBytesPerElement (in_format input) in
  let bytes_per_block := BlockCompressedBytesPerBlock (in_format input) in
  _ ← check_that (negb ((StorageAliasFormat (in_format input) =? 0)
                        || ((bytes_per_element =? 0) && (bytes_per_block =? 0))
                        || negb (IsSupportedTextureFormat (in_format input))))
        kUnsupportedFormat "unsupported guest image format";
  _ ← check_that (negb (negb (in_tightly_packed input) && negb (in_mip_count input =? 1)))
        kUnsupportedLayout "explicit guest pitches require a single mip level";
  check_that (negb (in_tightly_packed input
                    && (negb (in_row_pitch_bytes input =? 0) || negb (in_slice_pitch_bytes input =? 0))))
    kLayoutInvalidArgument "tightly packed guest image cannot specify pitches".

(** The array layers of an image type: cube faces included, none for volumes. *)
Definition layers_of_type (input : GuestImageLayoutInput) : GuestImageLayout + Z :=
  match in_image_type input with
  | kColor1D =>
      _ ← check_that ((in_height input =? 1) && (in_depth input =? 1) && (in_layers input =? 1))
            kLayoutInvalidArgument "1D guest image requires height, depth, and layers of one";
      inr (in_layers input)
  | kColor1DArray =>
      _ ← check_that ((in_height input =? 1) && (in_depth input =? 1))
            kLayoutInvalidArgument "1D array guest image requires height and depth of one";
      inr (in_layers input)
  | kColor2D =>
      _ ← check_that ((in_depth input =? 1) && (in_layers input =? 1))
            kLayoutInvalidArgument "2D guest image requires depth and layers of one";
      inr (in_layers input)
  | kColor2DArray =>
      _ ← check_that (in_depth input =? 1)
            kLayoutInvalidArgument "2D array guest image requires depth of one";
      inr (in_layers input)
  | kColor3D =>
      _ ← check_that (in_layers input =? 1)
            kLayoutInvalidArgument "3D guest image requires one array layer";
      inr 0
  | kCube =>
      _ ← check_that ((in_width input =? in_height input) && (in_depth input =? 1))
            kLayoutInvalidArgument "cube guest image requires square faces and depth one";
      array_layers ← or_stop (Multiply (in_layers input) 6) kLayoutOverflow "cube face count overflows";
      _ ← check_that (array_layers <=? u32_max)
            kUnsupportedLayout "cube face count exceeds the fixed layout bound";
      inr array_layers
  | _ => inr (in_layers input)
  end.

(** ** Tiled images *)

(** The only tiled images with a layout: single 2D render targets. *)
Definition is_plain_render_target (input : GuestImageLayoutInput) : bool :=
  let bytes_per_element := NumBytesPerElement (in_format input) in
  bool_decide (in_tile_mode input = kRenderTarget) && bool_decide (in_image_type input = kColor2D)
  && (in_depth input =? 1) && (in_layers input =? 1) && (in_mip_count input =? 1)
  && in_tightly_packed input && (in_row_pitch_bytes input =? 0) && (in_slice_pitch_bytes input =? 0)
  && (BlockCompressedBytesPerBlock (in_format input) =? 0)
  && ((bytes_per_element =? 1) || (bytes_per_element =? 2) || (bytes_per_element =? 4)
      || (bytes_per_element =? 8) || (bytes_per_element =? 16)).

Definition render_target_layout (input : GuestImageLayoutInput) : tried (GuestImageLayout + GuestImageLayout) :=
  let format := in_format input in
  let tile := TileModeValue kRenderTarget in
  let unsupported := inl (Failure kUnsupportedLayout "render-target tiled guest layout is unsupported" false) in
  let size_of pitch :=
    TileGetTextureTotalSize format (in_width input) (in_height input) 1 pitch 1 tile false in
  match TileGetTexturePitch format (in_width input) 1 tile with
  | undefined => undefined
  | refused => gives unsupported
  | gives pitch =>
      match size_of pitch with
      | undefined => undefined
      | refused => gives unsupported
      | gives tiled_total =>
          if (sa_size tiled_total =? 0) || negb (sa_align tiled_total =? 65536) then gives unsupported
          else gives (
            row_bytes ← or_stop (Multiply pitch (NumBytesPerElement format)) kLayoutOverflow
              "render-target guest layout size or address overflows";
            staging_bytes ← or_stop (Multiply row_bytes (in_height input)) kLayoutOverflow
              "render-target guest layout size or address overflows";
            _ ← check_that (negb ((in_guest_address input >? sub64 u64_max staging_bytes)
                                  || (in_guest_address input >? sub64 u64_max (sa_size tiled_total))))
                  kLayoutOverflow "render-target guest layout size or address overflows";
            _ ← check_that (negb ((staging_bytes >? kMaxGuestImageLayoutBytes)
                                  || (sa_size tiled_total >? kMaxGuestImageLayoutBytes)))
                  kUnsupportedLayout "render-target guest layout exceeds the fixed bound";
            inr (mkGuestImageLayout kLayoutSuccess "render-target tiled guest layout calculated"
              format (StorageAliasFormat format) 1 false true
              (<[0%nat := mkGuestImageMipLayout (in_width input) (in_height input) 1 (in_width input)
                   (in_height input) 1 row_bytes staging_bytes staging_bytes 0 staging_bytes]> (array16 no_mip))
              staging_bytes (sa_size tiled_total)
              (mkGuestImageStorageKey (in_guest_address input) (sa_size tiled_total)
                 (StorageAliasFormat format))))
      end
  end.

(** ** Linear images *)

(** One level at the running total [total_bytes]: its layout and the new total. *)
Definition linear_level (input : GuestImageLayoutInput) (array_layers level total_bytes : Z)
    : GuestImageLayout + (GuestImageMipLayout * Z) :=
  let bytes_per_element := NumBytesPerElement (in_format input) in
  let bytes_per_block := BlockCompressedBytesPerBlock (in_format input) in
  let compressed := negb (bytes_per_block =? 0) in
  let volume := bool_decide (in_image_type input = kColor3D) in
  let width := MipDimension (in_width input) level in
  let height := MipDimension (in_height input) level in
  let depth := if volume then MipDimension (in_depth input) level else 1 in
  let block_width := if compressed then to_u32 (add64 width 3 `div` 4) else width in
  let block_height := if compressed then to_u32 (add64 height 3 `div` 4) else height in
  let unit_bytes := if compressed then bytes_per_block else bytes_per_element in
  minimum_row_bytes ← or_stop (Multiply block_width unit_bytes) kLayoutOverflow
    "guest image row bytes overflow";
  let explicit_row := negb (in_tightly_packed input) && negb (in_row_pitch_bytes input =? 0) in
  _ ← check_that (negb (explicit_row && ((in_row_pitch_bytes input <? minimum_row_bytes)
                                         || negb (in_row_pitch_bytes input `mod` unit_bytes =? 0))))
        kLayoutInvalidArgument "guest image row pitch is impossible";
  let row_bytes := if explicit_row then in_row_pitch_bytes input else minimum_row_bytes in
  minimum_slice_bytes ← or_stop (Multiply row_bytes block_height) kLayoutOverflow
    "guest image slice bytes overflow";
  let explicit_slice := negb (in_tightly_packed input) && negb (in_slice_pitch_bytes input =? 0) in
  _ ← check_that (negb (explicit_slice && ((in_slice_pitch_bytes input <? minimum_slice_bytes)
                                           || negb (in_slice_pitch_bytes input `mod` row_bytes =? 0))))
        kLayoutInvalidArgument "guest image slice pitch is impossible";
  let slice_bytes := if explicit_slice then in_slice_pitch_bytes input else minimum_slice_bytes in
  layer_bytes ← or_stop (Multiply slice_bytes depth) kLayoutOverflow "guest image layer bytes overflow";
  let level_layers := if volume then 1 else array_layers in
  byte_count ← or_stop (Multiply layer_bytes level_layers) kLayoutOverflow "guest image mip bytes overflow";
  total ← or_stop (Add total_bytes byte_count) kLayoutOverflow "guest image total bytes overflow";
  _ ← check_that (total <=? kMaxGuestImageLayoutBytes)
        kUnsupportedLayout "guest image bytes exceed the fixed layout bound";
  inr (mkGuestImageMipLayout width height depth block_width block_height depth row_bytes slice_bytes
         layer_bytes total_bytes byte_count, total).

(** The loop over the [n] levels from [level]; [mips] holds the levels before. *)
Fixpoint linear_levels (n : nat) (input : GuestImageLayoutInput) (array_layers level total_bytes : Z)
    (mips : list GuestImageMipLayout) : GuestImageLayout + (list GuestImageMipLayout * Z) :=
  match n with
  | O => inr (mips, total_bytes)
  | S n =>
      '(mip, total) ← linear_level input array_layers level total_bytes;
      linear_levels n input array_layers (add32 level 1) total (<[Z.to_nat level := mip]> mips)
  end.

Definition linear_layout (input : GuestImageLayoutInput) (array_layers : Z) : GuestImageLayout + GuestImageLayout :=
  '(mips, total_bytes) ←
     linear_levels (Z.to_nat (in_mip_count input)) input array_layers 0 0 (array16 no_mip);
  _ ← check_that (negb (in_guest_address input >? sub64 u64_max total_bytes))
        kLayoutOverflow "guest image address end overflows";
  let format := in_format input in
  inr (mkGuestImageLayout kLayoutSuccess "linear guest image layout calculated" format
         (StorageAliasFormat format) (to_u32 array_layers)
         (negb (BlockCompressedBytesPerBlock format =? 0)) false mips total_bytes total_bytes
         (mkGuestImageStorageKey (in_guest_address input) total_bytes (StorageAliasFormat format))).

(** ** The layout of an image *)

Definition either {A} (x : A + A) : A := match x with inl a | inr a => a end.

Definition CalculateGuestImageLayout (input : GuestImageLayoutInput) : tried GuestImageLayout :=
  match (_ ← check_input input; layers_of_type input) with
  | inl failure => gives failure
  | inr array_layers =>
      if bool_decide (in_tile_mode input = kLinear)
      then gives (either (linear_layout input array_layers))
      else if is_plain_render_target input
      then r ← render_target_layout input; gives (either r)
      else gives (Failure kNeedsDetile "tiled guest image needs a proven detile layout" true)
  end.
