(* ===== verification/Detile.v ===== *)
(** Detiling of render targets ([src/gpu/detile.cpp]): the bytes of a tiled image
    are copied to a linear staging buffer, texel by texel.

    A span is an address and its bytes.  An access outside a span is undefined
    in the source and here; the copy is preceded by a check of every address. *)
From S2P Require Import Prelude Words32 Formats TileBlocks TileTextures TileTextureProps.
From S2P Require Import TileTextureProps LinearImages ImageLayout.

(** ** Data *)

Inductive DetileStatus :=
| kDetileSuccess | kDetileInvalidArgument | kDetileUnsupportedLayout | kSizeMismatch | kDetileOverflow
| kTileAddressFailure.

#[global] Instance DetileStatus_eq_dec : EqDecision DetileStatus.
Proof. solve_decision. Defined.

Record DetileResult := mkDetileResult { dr_status : DetileStatus; dr_diagnostic : string }.
Definition result_ok (r : DetileResult) : bool := bool_decide (dr_status r = kDetileSuccess).

(** [std::span] of bytes. *)
Record byte_span := mkSpan { span_data : Z; span_bytes : list Z }.
Definition span_size (s : byte_span) : Z := Z.of_nat (length (span_bytes s)).

Record DetilePlan := mkDetilePlan {
  dp_block : TileBlockLayout;
  dp_bytes_per_element : Z;
  dp_columns : Z;
  dp_rows : Z;
  dp_row_bytes : Z;
  dp_width : Z;
  dp_height : Z }.

(** ** The plan *)

Definition IsSupportedBytesPerElement (bytes_per_element : Z) : bool :=
  (bytes_per_element =? 1) || (bytes_per_element =? 2) || (bytes_per_element =? 4)
  || (bytes_per_element =? 8) || (bytes_per_element =? 16).

Definition SpansOverlap (tiled linear : byte_span) : bool :=
  (span_data tiled <? span_data linear + span_size linear)
  && (span_data linear <? span_data tiled + span_size tiled).

#[global] Instance detile_bind : MBind (sum DetileResult) := fun A B f x =>
  match x with inl r => inl r | inr a => f a end.
Definition fail_unless (b : bool) (status : DetileStatus) (diagnostic : string) : DetileResult + unit :=
  if b then inr tt else inl (mkDetileResult status diagnostic).

(** The checks of [MakePlan] on the layout and its level zero. *)
Definition check_layout (layout : GuestImageLayout) (mip : GuestImageMipLayout) (tiled linear : byte_span)
    : DetileResult + unit :=
  let bytes_per_element := NumBytesPerElement (gl_view_format layout) in
  _ ← fail_unless (layout_ok layout && gl_needs_detile layout)
        kDetileUnsupportedLayout "layout is not a detile-ready image";
  _ ← fail_unless ((gl_array_layers layout =? 1) && negb (gl_block_compressed layout))
        kDetileUnsupportedLayout "layout is not one uncompressed layer";
  _ ← fail_unless ((BlockCompressedBytesPerBlock (gl_view_format layout) =? 0)
                   && IsSupportedBytesPerElement bytes_per_element)
        kDetileUnsupportedLayout "layout has an unsupported element format";
  _ ← fail_unless (negb (ml_width mip =? 0) && negb (ml_height mip =? 0) && (ml_depth mip =? 1)
                   && (ml_block_width mip =? ml_width mip) && (ml_block_height mip =? ml_height mip)
                   && (ml_block_depth mip =? 1) && (ml_byte_offset mip =? 0))
        kDetileUnsupportedLayout "layout mip zero is not a 2D base level";
  _ ← fail_unless (negb (ml_row_bytes mip =? 0) && (ml_row_bytes mip `mod` bytes_per_element =? 0))
        kDetileInvalidArgument "layout row bytes are not element aligned";
  match Multiply (ml_width mip) bytes_per_element, Multiply (ml_row_bytes mip) (ml_height mip) with
  | Some minimum_row_bytes, Some expected_slice_bytes =>
      _ ← fail_unless (negb (ml_row_bytes mip <? minimum_row_bytes))
            kDetileOverflow "layout linear byte counts overflow";
      _ ← fail_unless ((ml_slice_bytes mip =? expected_slice_bytes)
                       && (ml_layer_bytes mip =? ml_slice_bytes mip)
                       && (ml_byte_count mip =? ml_layer_bytes mip)
                       && (gl_total_bytes layout =? ml_byte_count mip))
            kDetileInvalidArgument "layout linear byte counts are inconsistent";
      _ ← fail_unless (negb (gl_guest_storage_bytes layout =? 0)
                       && (sk_byte_count (gl_storage_key layout) =? gl_guest_storage_bytes layout))
            kDetileInvalidArgument "layout guest storage bytes are inconsistent";
      _ ← fail_unless ((span_size tiled =? gl_guest_storage_bytes layout)
                       && (span_size linear =? gl_total_bytes layout))
            kSizeMismatch "source or destination size does not match layout";
      fail_unless (negb (SpansOverlap tiled linear))
        kDetileInvalidArgument "source and destination spans overlap"
  | _, _ => inl (mkDetileResult kDetileOverflow "layout linear byte counts overflow")
  end.

(** The blocks of the image: columns and rows of blocks in the guest storage. *)
Definition plan_blocks (layout : GuestImageLayout) (mip : GuestImageMipLayout) (block : TileBlockLayout)
    : DetileResult + DetilePlan :=
  let bytes_per_element := NumBytesPerElement (gl_view_format layout) in
  let pitch := ml_row_bytes mip `div` bytes_per_element in
  let whole := pitch `div` bl_block_width block in
  columns ← (if negb (pitch `mod` bl_block_width block =? 0)
             then match Add whole 1 with
                  | Some c => inr c
                  | None => inl (mkDetileResult kDetileOverflow "tile column count overflows")
                  end
             else inr whole);
  let incomplete := inl (mkDetileResult kDetileInvalidArgument "guest storage does not contain complete tile rows") in
  let uncovered := inl (mkDetileResult kDetileInvalidArgument "guest storage does not cover active image rows") in
  if columns =? 0 then incomplete else
  match Multiply columns (bl_block_size block) with
  | None => incomplete
  | Some block_row_bytes =>
      if (block_row_bytes =? 0) || negb (gl_guest_storage_bytes layout `mod` block_row_bytes =? 0)
      then incomplete else
      let rows := gl_guest_storage_bytes layout `div` block_row_bytes in
      if rows =? 0 then uncovered else
      match Multiply rows (bl_block_height block) with
      | None => uncovered
      | Some covered_height =>
          if ml_height mip >? covered_height then uncovered
          else inr (mkDetilePlan block bytes_per_element columns rows (ml_row_bytes mip) (ml_width mip)
                      (ml_height mip))
      end
  end.

Definition MakePlan (layout : GuestImageLayout) (tiled linear : byte_span)
    : tried (DetileResult + DetilePlan) :=
  mip ← at_index (gl_mips layout) 0;
  match check_layout layout mip tiled linear with
  | inl r => gives (inl r)
  | inr _ =>
      let unavailable :=
        inl (mkDetileResult kTileAddressFailure "render-target tile layout is unavailable") in
      match TileGetBlockLayout RenderTarget64KB (NumBytesPerElement (gl_view_format layout)) with
      | undefined => undefined
      | refused => gives unavailable
      | gives block =>
          if (bl_block_size block =? 0) || (bl_block_width block =? 0) || (bl_block_height block =? 0)
             || negb (bl_block_depth block =? 1)
          then gives unavailable
          else gives (plan_blocks layout mip block)
      end
  end.

(** ** Addresses *)

(** The offsets of a texel in the tiled and in the linear image. *)
Definition CalculateOffsets (plan : DetilePlan) (x y : Z) : tried (Z * Z) :=
  let block := dp_block plan in
  let block_x := x `div` bl_block_width block in
  let block_y := y `div` bl_block_height block in
  let local_x := x `mod` bl_block_width block in
  let local_y := y `mod` bl_block_height block in
  local_offset ← TileGetBlockOffset block local_x local_y 0;
  block_xor ← TileGetBlockXor block block_x block_y 0;
  let intra_block_offset := Z.lxor local_offset block_xor in
  let checked {A} (o : option A) : tried A := match o with Some a => gives a | None => refused end in
  if intra_block_offset >=? bl_block_size block then refused else
  row ← checked (Multiply block_y (dp_columns plan));
  block_index ← checked (Add row block_x);
  block_offset ← checked (Multiply block_index (bl_block_size block));
  source_offset ← checked (Add block_offset intra_block_offset);
  row_offset ← checked (Multiply y (dp_row_bytes plan));
  column_offset ← checked (Multiply x (dp_bytes_per_element plan));
  destination_offset ← checked (Add row_offset column_offset);
  gives (source_offset, destination_offset).

(** The texels of an image, row by row. *)
Definition texels (width height : Z) : list (Z * Z) :=
  y ← seqZ 0 height; x ← seqZ 0 width; [(x, y)].

Definition address_failure : DetileResult :=
  mkDetileResult kTileAddressFailure "active texel tile address is invalid".

Definition texel_valid (plan : DetilePlan) (tiled_size linear_size x y : Z) : tried bool :=
  match CalculateOffsets plan x y with
  | undefined => undefined
  | refused => gives false
  | gives (tiled_offset, linear_offset) =>
      match Add tiled_offset (dp_bytes_per_element plan), Add linear_offset (dp_bytes_per_element plan) with
      | Some tiled_end, Some linear_end =>
          gives (negb ((tiled_end >? tiled_size) || (linear_end >? linear_size)))
      | _, _ => gives false
      end
  end.

Fixpoint ValidateTexelOffsets (plan : DetilePlan) (tiled_size linear_size : Z) (todo : list (Z * Z))
    : tried DetileResult :=
  match todo with
  | [] => gives (mkDetileResult kDetileSuccess "render-target tile addresses validated")
  | (x, y) :: todo =>
      valid ← texel_valid plan tiled_size linear_size x y;
      if (valid : bool) then ValidateTexelOffsets plan tiled_size linear_size todo else gives address_failure
  end.

(** ** The copy *)

(** [linear[linear_offset + byte] = tiled[tiled_offset + byte]] for the [n] bytes
    from [byte]. *)
Fixpoint copy_texel (n : nat) (tiled : list Z) (tiled_offset linear_offset byte : Z) (linear : list Z)
    : tried (list Z) :=
  match n with
  | O => gives linear
  | S n =>
      value ← at_index tiled (add64 tiled_offset byte);
      linear ← set_index linear (add64 linear_offset byte) value;
      copy_texel n tiled tiled_offset linear_offset (add64 byte 1) linear
  end.

(** The result and the linear bytes. *)
Fixpoint copy_texels (plan : DetilePlan) (tiled : list Z) (todo : list (Z * Z)) (linear : list Z)
    : tried (DetileResult * list Z) :=
  match todo with
  | [] => gives (mkDetileResult kDetileSuccess "render-target image detiled", linear)
  | (x, y) :: todo =>
      match CalculateOffsets plan x y with
      | undefined => undefined
      | refused => gives (mkDetileResult kTileAddressFailure "validated tile address changed", linear)
      | gives (tiled_offset, linear_offset) =>
          linear ← copy_texel (Z.to_nat (dp_bytes_per_element plan)) tiled tiled_offset linear_offset 0 linear;
          copy_texels plan tiled todo linear
      end
  end.

Definition DetileRenderTarget64KB (layout : GuestImageLayout) (tiled linear : byte_span)
    : tried (DetileResult * list Z) :=
  planned ← MakePlan layout tiled linear;
  match planned with
  | inl failure => gives (failure, span_bytes linear)
  | inr plan =>
      validation ← ValidateTexelOffsets plan (span_size tiled) (span_size linear)
                     (texels (dp_width plan) (dp_height plan));
      if result_ok validation
      then copy_texels plan (span_bytes tiled) (texels (dp_width plan) (dp_height plan)) (span_bytes linear)
      else gives (validation, span_bytes linear)
  end.

(** Properties of detiling ([src/gpu/detile.cpp]): the copy is exact, defined and
    total on every plan, and the source addresses of different texels differ. *)

(** ** Addresses of render targets *)

Lemma render_target_linear bytes :
  bytes ∈ element_sizes -> Linear3 (fun x y _ => Gen5RenderTargetOffsetInBlock bytes x y).
Proof.
  intros Hb. element_size_case Hb; cbv [Gen5RenderTargetOffsetInBlock Z.eqb Pos.eqb]; apply _.
Qed.

(** Every offset lies in the block and is aligned to the element. *)
Lemma render_target_range bytes x y :
  bytes ∈ element_sizes ->
  0 <= Gen5RenderTargetOffsetInBlock bytes x y < 65536
  /\ Gen5RenderTargetOffsetInBlock bytes x y mod bytes = 0.
Proof.
  intros Hb. set (o := Gen5RenderTargetOffsetInBlock bytes x y).
  assert (E : Z.land o (65536 - bytes) = o).
  { unfold o. element_size_case Hb; cbv [Gen5RenderTargetOffsetInBlock Z.eqb Pos.eqb];
      rewrite !land_lxor_l, <- !Z.land_assoc; reflexivity. }
  assert (exists k, 0 <= k <= 16 /\ bytes = 2 ^ k) as (k & Hk & ->).
  { element_size_case Hb; [exists 0|exists 1|exists 2|exists 3|exists 4]; done. }
  assert (Ev : o = 2 ^ k * (o mod 65536 / 2 ^ k)).
  { rewrite <- E at 1. change 65536 with (2 ^ 16) at 1.
    rewrite <- (land_high (o mod 65536) k 16); [|lia|by apply Z.mod_pos_bound].
    change 65536 with (2 ^ 16). rewrite <- Z.land_ones, <- Z.land_assoc by lia. f_equal.
    rewrite Z.land_comm, Z.land_ones by lia. symmetry. apply Z.mod_small.
    assert (0 < 2 ^ k <= 2 ^ 16) by (split; [apply Z.pow_pos_nonneg|apply Z.pow_le_mono_r]; lia). lia. }
  assert (0 < 2 ^ k) by (apply Z.pow_pos_nonneg; lia).
  pose proof (Z.mod_pos_bound o 65536 ltac:(lia)).
  pose proof (Z.mul_div_le (o mod 65536) (2 ^ k) ltac:(lia)).
  split; [|rewrite Ev, Z.mul_comm; apply Z.mod_mul; lia].
  split; [|lia]. rewrite Ev. apply Z.mul_nonneg_nonneg; [lia|]. apply Z.div_pos; lia.
Qed.

Lemma render_target_offset_size bytes x y :
  bytes ∈ element_sizes -> render_target_offset bytes x y = gives (Gen5RenderTargetOffsetInBlock bytes x y).
Proof. intros Hb. by element_size_case Hb. Qed.

Lemma aligned_end bytes o :
  bytes ∈ element_sizes -> 0 <= o < 65536 -> o mod bytes = 0 -> o + bytes <= 65536.
Proof.
  intros Hb Ho Hm. element_size_case Hb; (apply Z.mod_divide in Hm as [q ->]; [lia|done]).
Qed.

(** The block of render targets of an element size. *)
Lemma render_target_block bytes :
  bytes ∈ element_sizes ->
  exists block kw kh, TileGetBlockLayout RenderTarget64KB bytes = gives block
    /\ bl_family block = RenderTarget64KB /\ bl_bytes_per_element block = bytes
    /\ bl_block_size block = 65536 /\ bl_block_depth block = 1
    /\ bl_block_width block = 2 ^ kw /\ bl_block_height block = 2 ^ kh
    /\ 6 <= kw <= 8 /\ 6 <= kh <= 8.
Proof.
  intros Hb. element_size_case Hb;
    [eexists _, 8, 8|eexists _, 8, 7|eexists _, 7, 7|eexists _, 7, 6|eexists _, 6, 6];
    (split; [vm_compute; reflexivity|]); split_and!; first [reflexivity|lia].
Qed.

Lemma lxor_split v k : 0 <= k -> 0 <= v -> Z.lxor (v mod 2 ^ k) (v / 2 ^ k * 2 ^ k) = v.
Proof.
  intros Hk Hv. assert (0 < 2 ^ k) by (apply Z.pow_pos_nonneg; lia).
  rewrite <- Z.add_nocarry_lxor.
  - pose proof (Z.div_mod v (2 ^ k)). lia.
  - apply Z.bits_inj'. intros i Hi. rewrite Z.land_spec, Z.bits_0, Z.testbit_mod_pow2 by lia.
    destruct (Z.ltb_spec i k); [|done]. simpl.
    rewrite Z.mul_pow2_bits_low by lia. apply andb_false_r.
Qed.

Lemma Multiply_small a b : 0 <= a -> 0 <= b -> a * b <= u64_max -> Multiply a b = Some (a * b).
Proof.
  intros Ha Hb Hle. unfold Multiply. rewrite Z.gtb_ltb.
  destruct (Z.eqb_spec a 0) as [->|Hne]; simpl; [by rewrite mul64_small by (rewrite Z.mul_0_l; u64_lia)|].
  rewrite (proj2 (Z.ltb_ge _ _)) by (apply Z.div_le_lower_bound; lia).
  rewrite mul64_small; [done|]. split; [by apply Z.mul_nonneg_nonneg|done].
Qed.

Lemma Multiply_Some a b c : is_u64 a -> is_u64 b -> Multiply a b = Some c -> c = a * b /\ a * b <= u64_max.
Proof.
  intros Ha Hb. unfold Multiply. rewrite Z.gtb_ltb. destruct (Z.eqb_spec a 0) as [->|Hne]; simpl.
  - intros [= <-]. rewrite mul64_small by (rewrite Z.mul_0_l; u64_lia). split; [done|u64_lia].
  - destruct (Z.ltb_spec (u64_max / a) b) as [|Hle]; [done|]. intros [= <-].
    assert (a * b <= u64_max).
    { apply Z.le_trans with (a * (u64_max / a)); [apply Z.mul_le_mono_nonneg_l; u64_lia|].
      apply Z.mul_div_le. u64_lia. }
    rewrite mul64_small; [done|]. split; [apply Z.mul_nonneg_nonneg; u64_lia|done].
Qed.

Lemma Add_small a b : 0 <= a -> 0 <= b -> a + b <= u64_max -> Add a b = Some (a + b).
Proof.
  intros Ha Hb Hle. unfold Add. rewrite sub64_small by u64_lia.
  rewrite Z.gtb_ltb, (proj2 (Z.ltb_ge _ _)) by lia. by rewrite add64_small by u64_lia.
Qed.

Lemma Add_Some a b c : is_u64 a -> is_u64 b -> Add a b = Some c -> c = a + b /\ a + b <= u64_max.
Proof.
  intros Ha Hb. unfold Add. rewrite sub64_small, Z.gtb_ltb by u64_lia.
  destruct (Z.ltb_spec (u64_max - b) a); [done|]. intros [= <-]. rewrite add64_small by u64_lia.
  split; [done|u64_lia].
Qed.

(** ** Plans *)

(** What [MakePlan] promises about the image. *)
Record plan_ok (plan : DetilePlan) (tiled_size linear_size : Z) : Prop := {
  po_bytes : dp_bytes_per_element plan ∈ element_sizes;
  po_block : TileGetBlockLayout RenderTarget64KB (dp_bytes_per_element plan) = gives (dp_block plan);
  po_width : 1 <= dp_width plan <= u32_max;
  po_height : 1 <= dp_height plan <= u32_max;
  po_columns : dp_width plan <= dp_columns plan * bl_block_width (dp_block plan);
  po_rows : dp_height plan <= dp_rows plan * bl_block_height (dp_block plan);
  po_counts : 1 <= dp_columns plan /\ 1 <= dp_rows plan;
  po_tiled : dp_rows plan * dp_columns plan * 65536 = tiled_size;
  po_row_bytes : dp_width plan * dp_bytes_per_element plan <= dp_row_bytes plan;
  po_linear : dp_row_bytes plan * dp_height plan = linear_size;
  po_sizes : tiled_size <= u64_max /\ linear_size <= u64_max }.

(** The places of a texel. *)
Definition tiled_address (plan : DetilePlan) (x y : Z) : Z :=
  (y / bl_block_height (dp_block plan) * dp_columns plan + x / bl_block_width (dp_block plan)) * 65536
  + Gen5RenderTargetOffsetInBlock (dp_bytes_per_element plan) x y.
Definition linear_address (plan : DetilePlan) (x y : Z) : Z :=
  y * dp_row_bytes plan + x * dp_bytes_per_element plan.

Section plan.
Context (plan : DetilePlan) (tiled_size linear_size : Z) (Hp : plan_ok plan tiled_size linear_size).
Abbreviation bytes := (dp_bytes_per_element plan).
Abbreviation bw := (bl_block_width (dp_block plan)).
Abbreviation bh := (bl_block_height (dp_block plan)).

Lemma plan_block_facts :
  exists kw kh, bl_family (dp_block plan) = RenderTarget64KB
    /\ bl_bytes_per_element (dp_block plan) = bytes /\ bl_block_size (dp_block plan) = 65536
    /\ bl_block_depth (dp_block plan) = 1 /\ bw = 2 ^ kw /\ bh = 2 ^ kh /\ 6 <= kw <= 8 /\ 6 <= kh <= 8
    /\ 64 <= bw <= 256 /\ 64 <= bh <= 256 /\ 1 <= bytes <= 16.
Proof.
  destruct (render_target_block bytes (po_bytes _ _ _ Hp)) as (b & kw & kh & E & H).
  rewrite (po_block _ _ _ Hp) in E. injection E as <-. exists kw, kh.
  destruct H as (? & ? & ? & ? & Ew & Eh & ? & ?). pose proof (po_bytes _ _ _ Hp) as Hb.
  assert (64 <= bw <= 256 /\ 64 <= bh <= 256) as [].
  { rewrite Ew, Eh. change 64 with (2 ^ 6). change 256 with (2 ^ 8).
    repeat split; apply Z.pow_le_mono_r; lia. }
  split_and!; try done; try lia; element_size_case Hb; lia.
Qed.

(** A texel of the image lies in one of its blocks, and its bytes lie in both
    images. *)
Lemma address_bounds x y :
  0 <= x < dp_width plan -> 0 <= y < dp_height plan ->
  (0 <= x / bw < dp_columns plan /\ 0 <= y / bh < dp_rows plan)
  /\ 0 <= y / bh * dp_columns plan + x / bw < dp_rows plan * dp_columns plan
  /\ 0 <= tiled_address plan x y /\ tiled_address plan x y + bytes <= tiled_size
  /\ 0 <= linear_address plan x y /\ linear_address plan x y + bytes <= linear_size.
Proof.
  intros Hx Hy. destruct plan_block_facts as (kw & kh & _ & _ & _ & _ & _ & _ & _ & _ & Hw & Hh & Hb).
  pose proof (po_columns _ _ _ Hp). pose proof (po_rows _ _ _ Hp). pose proof (po_counts _ _ _ Hp).
  assert (Hbx : 0 <= x / bw < dp_columns plan)
    by (split; [apply Z.div_pos; lia|apply Z.div_lt_upper_bound; lia]).
  assert (Hby : 0 <= y / bh < dp_rows plan)
    by (split; [apply Z.div_pos; lia|apply Z.div_lt_upper_bound; lia]).
  set (i := y / bh * dp_columns plan + x / bw).
  assert (Hi : 0 <= i < dp_rows plan * dp_columns plan)
    by (pose proof (pack_range _ _ _ _ Hbx Hby); unfold i; lia).
  destruct (render_target_range bytes x y (po_bytes _ _ _ Hp)) as [Hr Hm].
  pose proof (aligned_end bytes _ (po_bytes _ _ _ Hp) Hr Hm) as Hend.
  pose proof (po_tiled _ _ _ Hp). pose proof (po_linear _ _ _ Hp). pose proof (po_row_bytes _ _ _ Hp).
  unfold tiled_address, linear_address. fold i.
  assert (Hxe : 0 <= x * bytes /\ x * bytes + bytes <= dp_row_bytes plan) by nia.
  assert (Hye : 0 <= y * dp_row_bytes plan
    /\ y * dp_row_bytes plan + dp_row_bytes plan <= dp_row_bytes plan * dp_height plan) by nia.
  split; [done|]. split; [done|]. split_and!; lia.
Qed.

(** The block's own coordinates and the local ones make up the address of the
    whole coordinates. *)
Lemma CalculateOffsets_spec x y :
  0 <= x < dp_width plan -> 0 <= y < dp_height plan ->
  CalculateOffsets plan x y = gives (tiled_address plan x y, linear_address plan x y).
Proof.
  intros Hx Hy. destruct plan_block_facts as (kw & kh & Ef & Eb & Es & Ed & Ew & Eh & Hkw & Hkh & Hw & Hh & Hb).
  destruct (address_bounds x y Hx Hy) as ((Hbx & Hby) & Hi & Ht0 & Ht & Hl0 & Hl).
  pose proof (po_bytes _ _ _ Hp) as Hbytes. pose proof (po_sizes _ _ _ Hp) as [Hts Hls].
  pose proof (po_width _ _ _ Hp) as Hwid. pose proof (po_height _ _ _ Hp) as Hhei.
  assert (Hself : TileGetBlockLayout (bl_family (dp_block plan)) (bl_bytes_per_element (dp_block plan))
    = gives (dp_block plan)) by (rewrite Ef, Eb; apply Hp).
  assert (Hlx : 0 <= x mod bw < bw) by (apply Z.mod_pos_bound; lia).
  assert (Hly : 0 <= y mod bh < bh) by (apply Z.mod_pos_bound; lia).
  destruct (render_target_range bytes (x mod bw) (y mod bh) Hbytes) as [Hr1 Hm1].
  destruct (render_target_range bytes (x / bw * bw) (y / bh * bh) Hbytes) as [Hr2 Hm2].
  destruct (render_target_range bytes x y Hbytes) as [Hr Hm].
  pose proof (Z.mul_div_le x bw ltac:(lia)). pose proof (Z.mul_div_le y bh ltac:(lia)).
  assert (Eoff : TileGetBlockOffset (dp_block plan) (x mod bw) (y mod bh) 0
                 = gives (Gen5RenderTargetOffsetInBlock bytes (x mod bw) (y mod bh))).
  { unfold TileGetBlockOffset. rewrite Hself. simpl. rewrite same_dimensions_refl, Ed. simpl.
    rewrite !Z.geb_leb, !(proj2 (Z.leb_gt _ _)) by lia. simpl. rewrite Ef, Eb. simpl. rewrite render_target_offset_size by done. simpl.
    rewrite Es, Z.geb_leb, (proj2 (Z.leb_gt _ _)), Hm1 by lia. done. }
  assert (Exor : TileGetBlockXor (dp_block plan) (x / bw) (y / bh) 0
                 = gives (Gen5RenderTargetOffsetInBlock bytes (x / bw * bw) (y / bh * bh))).
  { unfold TileGetBlockXor. rewrite Hself. simpl. rewrite same_dimensions_refl. simpl.
    rewrite Ef, Eb. rewrite (bool_decide_false (RenderTarget64KB = Depth64KB)) by done.
    rewrite (bool_decide_true (RenderTarget64KB = RenderTarget64KB)) by done. simpl.
    rewrite !mul32_small by u32_lia.
    rewrite !Z.gtb_ltb, !(proj2 (Z.ltb_ge _ _)) by (apply Z.div_le_lower_bound; lia). simpl.
    rewrite render_target_offset_size by done. simpl. rewrite Z.lxor_0_r.
    by rewrite Es, Z.geb_leb, (proj2 (Z.leb_gt _ _)), Hm2 by lia. }
  assert (Elin : Z.lxor (Gen5RenderTargetOffsetInBlock bytes (x mod bw) (y mod bh))
                   (Gen5RenderTargetOffsetInBlock bytes (x / bw * bw) (y / bh * bh))
                 = Gen5RenderTargetOffsetInBlock bytes x y).
  { rewrite <- (render_target_linear bytes Hbytes (x mod bw) (y mod bh) 0 _ _ 0).
    by rewrite Ew, Eh, !lxor_split by lia. }
  unfold CalculateOffsets. rewrite Eoff. simpl. rewrite Exor. simpl. rewrite Elin, Es.
  rewrite Z.geb_leb, (proj2 (Z.leb_gt _ _)) by lia.
  unfold tiled_address, linear_address in *.
  pose proof (po_tiled _ _ _ Hp). pose proof (po_row_bytes _ _ _ Hp).
  assert (0 <= y / bh * dp_columns plan /\ 0 <= dp_row_bytes plan) as [] by nia.
  assert (0 <= y * dp_row_bytes plan /\ 0 <= x * bytes) as [] by nia.
  rewrite (Multiply_small (y / bh)) by lia. simpl. rewrite (Add_small _ (x / bw)) by lia. simpl.
  rewrite (Multiply_small _ 65536) by lia. simpl.
  rewrite (Add_small (_ * 65536)) by lia. simpl.
  rewrite (Multiply_small y), (Multiply_small x) by lia. simpl.
  by rewrite (Add_small (y * dp_row_bytes plan)) by lia.
Qed.
End plan.

(** ** Different texels have different places *)

Lemma range_multiple bytes a b o :
  0 < bytes -> a mod bytes = 0 -> b mod bytes = 0 -> a <= o < a + bytes -> b <= o < b + bytes -> a = b.
Proof.
  intros Hb Ha Hb' Ho Ho'. apply Z.mod_divide in Ha as [p ->]; [|lia].
  apply Z.mod_divide in Hb' as [q ->]; [|lia]. assert (p = q) by nia. by subst.
Qed.

Section places.
Context (plan : DetilePlan) (tiled_size linear_size : Z) (Hp : plan_ok plan tiled_size linear_size).
Context (x y x' y' o : Z).
Context (Hx : 0 <= x < dp_width plan) (Hy : 0 <= y < dp_height plan).
Context (Hx' : 0 <= x' < dp_width plan) (Hy' : 0 <= y' < dp_height plan).

Lemma linear_places_apart :
  linear_address plan x y <= o < linear_address plan x y + dp_bytes_per_element plan ->
  linear_address plan x' y' <= o < linear_address plan x' y' + dp_bytes_per_element plan ->
  x = x' /\ y = y'.
Proof.
  intros Ho Ho'. destruct (plan_block_facts _ _ _ Hp) as (_ & _ & _ & _ & _ & _ & _ & _ & _ & _ & _ & _ & Hb).
  pose proof (po_row_bytes _ _ _ Hp) as Hr. set (b := dp_bytes_per_element plan) in *.
  set (r := dp_row_bytes plan) in *. unfold linear_address in *. fold b r in Ho, Ho'.
  assert (0 <= x * b /\ x * b + b <= r /\ 0 <= x' * b /\ x' * b + b <= r) by nia.
  destruct (pack_injective r (o - y * r) y (o - y' * r) y') as [_ ->]; [lia|lia|lia|].
  destruct (pack_injective b (o - y' * r - x * b) x (o - y' * r - x' * b) x') as [_ ->]; [lia|lia|lia|].
  done.
Qed.

Lemma render_target_in_block :
  x / bl_block_width (dp_block plan) = x' / bl_block_width (dp_block plan) ->
  y / bl_block_height (dp_block plan) = y' / bl_block_height (dp_block plan) ->
  Gen5RenderTargetOffsetInBlock (dp_bytes_per_element plan) x y
  = Gen5RenderTargetOffsetInBlock (dp_bytes_per_element plan) x' y' ->
  x = x' /\ y = y'.
Proof.
  intros Ex Ey E.
  destruct (plan_block_facts _ _ _ Hp) as (kw & kh & Ef & Eb & _ & Ed & Ew & Eh & Hkw & Hkh & Hw & Hh & Hb).
  pose proof (po_bytes _ _ _ Hp) as Hbytes. set (b := dp_bytes_per_element plan) in *.
  set (rt := Gen5RenderTargetOffsetInBlock b) in *.
  destruct (block_map_exists RenderTarget64KB b (dp_block plan)) as [f Hf]; [u32_lia|apply Hp|].
  assert (Hrt : forall u v, 0 <= u < bl_block_width (dp_block plan) -> 0 <= v < bl_block_height (dp_block plan) ->
    f u v 0 = rt u v).
  { intros u v Hu Hv. pose proof (bm_offset _ _ Hf u v 0 Hu Hv ltac:(lia)) as Eo.
    rewrite Ef, Eb in Eo. simpl in Eo. rewrite render_target_offset_size in Eo by done. by injection Eo. }
  assert (Hsplit : forall u v, 0 <= u -> 0 <= v -> rt u v
    = Z.lxor (rt (u mod bl_block_width (dp_block plan)) (v mod bl_block_height (dp_block plan)))
        (rt (u / bl_block_width (dp_block plan) * bl_block_width (dp_block plan))
            (v / bl_block_height (dp_block plan) * bl_block_height (dp_block plan)))).
  { intros u v Hu Hv. unfold rt. rewrite <- (render_target_linear b Hbytes _ _ 0 _ _ 0).
    by rewrite Ew, Eh, !lxor_split by lia. }
  rewrite (Hsplit x y), (Hsplit x' y'), Ex, Ey in E by lia.
  apply (f_equal (fun v => Z.lxor v (rt (x' / bl_block_width (dp_block plan) * bl_block_width (dp_block plan))
    (y' / bl_block_height (dp_block plan) * bl_block_height (dp_block plan))))) in E.
  rewrite !Z.lxor_assoc, Z.lxor_nilpotent, !Z.lxor_0_r in E.
  pose proof (fun u => Z.mod_pos_bound u (bl_block_width (dp_block plan)) ltac:(lia)) as Hmw.
  pose proof (fun u => Z.mod_pos_bound u (bl_block_height (dp_block plan)) ltac:(lia)) as Hmh.
  rewrite <- !Hrt in E by done.
  apply (block_map_injective _ _ Hf) in E as (Emx & Emy & _); [|unfold inside; rewrite Ed; split_and!; try apply Hmw; try apply Hmh; lia..].
  pose proof (Z.div_mod x (bl_block_width (dp_block plan)) ltac:(lia)).
  pose proof (Z.div_mod x' (bl_block_width (dp_block plan)) ltac:(lia)).
  pose proof (Z.div_mod y (bl_block_height (dp_block plan)) ltac:(lia)).
  pose proof (Z.div_mod y' (bl_block_height (dp_block plan)) ltac:(lia)).
  rewrite Ex, Emx in *. rewrite Ey, Emy in *. lia.
Qed.

Lemma tiled_places_apart :
  tiled_address plan x y <= o < tiled_address plan x y + dp_bytes_per_element plan ->
  tiled_address plan x' y' <= o < tiled_address plan x' y' + dp_bytes_per_element plan ->
  x = x' /\ y = y'.
Proof.
  intros Ho Ho'.
  destruct (plan_block_facts _ _ _ Hp) as (_ & _ & _ & _ & _ & _ & _ & _ & _ & _ & _ & _ & Hb).
  destruct (address_bounds _ _ _ Hp x y Hx Hy) as ((Hbx & _) & _).
  destruct (address_bounds _ _ _ Hp x' y' Hx' Hy') as ((Hbx' & _) & _).
  destruct (render_target_range (dp_bytes_per_element plan) x y (po_bytes _ _ _ Hp)) as [Hr Hm].
  destruct (render_target_range (dp_bytes_per_element plan) x' y' (po_bytes _ _ _ Hp)) as [Hr' Hm'].
  pose proof (aligned_end _ _ (po_bytes _ _ _ Hp) Hr Hm). pose proof (aligned_end _ _ (po_bytes _ _ _ Hp) Hr' Hm').
  unfold tiled_address in *.
  set (i := y / bl_block_height (dp_block plan) * dp_columns plan + x / bl_block_width (dp_block plan)) in *.
  set (i' := y' / bl_block_height (dp_block plan) * dp_columns plan + x' / bl_block_width (dp_block plan)) in *.
  assert (Ei : i = i') by lia. rewrite Ei in *.
  assert (E : Gen5RenderTargetOffsetInBlock (dp_bytes_per_element plan) x y
              = Gen5RenderTargetOffsetInBlock (dp_bytes_per_element plan) x' y').
  { apply (range_multiple (dp_bytes_per_element plan) _ _ (o - i' * 65536)); lia || done. }
  destruct (pack_injective (dp_columns plan) (x / bl_block_width (dp_block plan))
    (y / bl_block_height (dp_block plan)) (x' / bl_block_width (dp_block plan))
    (y' / bl_block_height (dp_block plan))) as [Ex Ey]; [done|done|unfold i, i' in Ei; lia|].
  by apply render_target_in_block.
Qed.
End places.

(** ** The copy *)

Lemma elem_of_texels width height x y :
  (x, y) ∈ texels width height <-> 0 <= x < width /\ 0 <= y < height.
Proof.
  unfold texels. rewrite list_elem_of_bind. split.
  - intros (y' & Hy & Hin). apply elem_of_seqZ in Hin.
    apply list_elem_of_bind in Hy as (x' & Hx & Hin'). apply elem_of_seqZ in Hin'.
    apply list_elem_of_singleton in Hx. injection Hx as -> ->. lia.
  - intros [Hx Hy]. exists y. split; [|apply elem_of_seqZ; lia].
    apply list_elem_of_bind. exists x. split; [by apply list_elem_of_singleton|apply elem_of_seqZ; lia].
Qed.

Lemma copy_texel_spec tiled tiled_offset linear_offset (n : nat) : forall byte linear,
  0 <= tiled_offset -> 0 <= linear_offset -> 0 <= byte ->
  tiled_offset + byte + Z.of_nat n <= Z.of_nat (length tiled) ->
  linear_offset + byte + Z.of_nat n <= Z.of_nat (length linear) ->
  Z.of_nat (length tiled) <= u64_max -> Z.of_nat (length linear) <= u64_max ->
  exists linear', copy_texel n tiled tiled_offset linear_offset byte linear = gives linear'
    /\ length linear' = length linear
    /\ (forall b, byte <= b < byte + Z.of_nat n ->
          linear' !! Z.to_nat (linear_offset + b) = tiled !! Z.to_nat (tiled_offset + b))
    /\ (forall o, 0 <= o -> ~ (linear_offset + byte <= o < linear_offset + byte + Z.of_nat n) ->
          linear' !! Z.to_nat o = linear !! Z.to_nat o).
Proof.
  induction n as [|n IH]; intros byte linear Ht Hl Hb Hte Hle Hut Hul; simpl.
  - exists linear. split_and!; [done|done|intros; lia|done].
  - rewrite !add64_small by u64_lia.
    destruct (at_index_def tiled (tiled_offset + byte) ltac:(lia)) as (v & -> & Ev). simpl.
    rewrite set_index_def by lia. simpl.
    set (linear1 := <[_:=v]> linear).
    assert (E1 : length linear1 = length linear) by (unfold linear1; apply length_insert).
    destruct (IH (byte + 1) linear1) as (linear' & E & El & Hin & Hout); [lia..|].
    exists linear'. split_and!; [done|by rewrite El| |].
    + intros b Hbr. destruct (decide (b = byte)) as [->|]; [|apply Hin; lia].
      rewrite Hout by lia. unfold linear1. by rewrite list_lookup_insert_eq by lia.
    + intros o Ho Hn. rewrite Hout by lia. unfold linear1. rewrite list_lookup_insert_ne; [done|lia].
Qed.

Section copy.
Context (plan : DetilePlan) (tiled : list Z) (linear_size : Z).
Context (Hp : plan_ok plan (Z.of_nat (length tiled)) linear_size).
Abbreviation bytes := (dp_bytes_per_element plan).

(** [linear'] is [linear] with the texels of [done] copied. *)
Definition copied (texels_done : list (Z * Z)) (linear linear' : list Z) : Prop :=
  length linear' = length linear
  /\ (forall x y b, (x, y) ∈ texels_done -> 0 <= b < bytes ->
        linear' !! Z.to_nat (linear_address plan x y + b) = tiled !! Z.to_nat (tiled_address plan x y + b))
  /\ (forall o, 0 <= o -> (forall x y, (x, y) ∈ texels_done ->
        ~ (linear_address plan x y <= o < linear_address plan x y + bytes)) ->
        linear' !! Z.to_nat o = linear !! Z.to_nat o).

Lemma copy_texels_spec todo : forall linear,
  Z.of_nat (length linear) = linear_size ->
  (forall x y, (x, y) ∈ todo -> 0 <= x < dp_width plan /\ 0 <= y < dp_height plan) ->
  exists linear', copy_texels plan tiled todo linear
    = gives (mkDetileResult kDetileSuccess "render-target image detiled", linear')
    /\ copied todo linear linear'.
Proof.
  destruct (plan_block_facts _ _ _ Hp) as (_ & _ & _ & _ & _ & _ & _ & _ & _ & _ & _ & _ & Hb).
  pose proof (po_sizes _ _ _ Hp) as [Hts Hls].
  induction todo as [|[x y] todo IH]; intros linear El Hin; simpl.
  - exists linear. split; [done|]. split; [done|]. split; [intros ??? []%elem_of_nil|done].
  - destruct (Hin x y) as [Hx Hy]; [apply elem_of_cons; by left|].
    rewrite (CalculateOffsets_spec _ _ _ Hp) by done.
    destruct (address_bounds _ _ _ Hp x y Hx Hy) as (_ & _ & Ht0 & Ht & Hl0 & Hl).
    destruct (copy_texel_spec tiled (tiled_address plan x y) (linear_address plan x y) (Z.to_nat bytes) 0 linear)
      as (linear1 & -> & El1 & Hin1 & Hout1); [lia..|]. simpl.
    destruct (IH linear1) as (linear' & -> & El' & Hin' & Hout'); [lia| |].
    { intros u v Huv. apply Hin. apply elem_of_cons. by right. }
    exists linear'. split; [done|]. split; [lia|]. split.
    + intros u v b Huv Hbr. destruct (decide ((u, v) ∈ todo)) as [Htodo|Hnot]; [by apply Hin'|].
      apply elem_of_cons in Huv as [[= -> ->]|]; [|done].
      rewrite Hout'; [apply Hin1; lia|lia|].
      intros u v Huv Hr. destruct (Hin u v) as [Hu Hv]; [apply elem_of_cons; by right|].
      destruct (linear_places_apart _ _ _ Hp x y u v (linear_address plan x y + b)) as [-> ->]; try done; lia.
    + intros o Ho Hn. rewrite Hout'.
      * apply Hout1; [done|]. rewrite Z2Nat.id by lia. specialize (Hn x y ltac:(apply elem_of_cons; by left)). lia.
      * done.
      * intros u v Huv. apply Hn. apply elem_of_cons. by right.
Qed.

Lemma validate_spec todo :
  (forall x y, (x, y) ∈ todo -> 0 <= x < dp_width plan /\ 0 <= y < dp_height plan) ->
  ValidateTexelOffsets plan (Z.of_nat (length tiled)) linear_size todo
  = gives (mkDetileResult kDetileSuccess "render-target tile addresses validated").
Proof.
  destruct (plan_block_facts _ _ _ Hp) as (_ & _ & _ & _ & _ & _ & _ & _ & _ & _ & _ & _ & Hb).
  pose proof (po_sizes _ _ _ Hp) as [Hts Hls].
  induction todo as [|[x y] todo IH]; intros Hin; simpl; [done|].
  destruct (Hin x y) as [Hx Hy]; [apply elem_of_cons; by left|].
  destruct (address_bounds _ _ _ Hp x y Hx Hy) as (_ & _ & Ht0 & Ht & Hl0 & Hl).
  unfold texel_valid. rewrite (CalculateOffsets_spec _ _ _ Hp) by done.
  rewrite !Add_small by lia. rewrite !Z.gtb_ltb, !(proj2 (Z.ltb_ge _ _)) by lia. simpl.
  apply IH. intros u v Huv. apply Hin. apply elem_of_cons. by right.
Qed.
End copy.

(** ** Plans of layouts *)

(** The fields have the widths of their C++ types. *)
Record layout_typed (layout : GuestImageLayout) (mip : GuestImageMipLayout) : Prop := {
  lt_mip : gl_mips layout !! 0%nat = Some mip;
  lt_width : is_u32 (ml_width mip);
  lt_height : is_u32 (ml_height mip);
  lt_row : is_u64 (ml_row_bytes mip);
  lt_storage : is_u64 (gl_guest_storage_bytes layout) }.

Lemma fail_unless_bind {A} b s d (f : unit -> DetileResult + A) a :
  (fail_unless b s d ≫= f) = inr a -> b = true /\ f tt = inr a.
Proof. by destruct b. Qed.

Lemma IsSupported_spec bytes : IsSupportedBytesPerElement bytes = true <-> bytes ∈ element_sizes.
Proof.
  unfold IsSupportedBytesPerElement, element_sizes.
  rewrite !orb_true_iff, !Z.eqb_eq, !elem_of_cons, elem_of_nil. intuition.
Qed.

(** What the checks establish. *)
Record layout_checked (layout : GuestImageLayout) (mip : GuestImageMipLayout) (tiled linear : byte_span)
    : Prop := {
  lc_bytes : NumBytesPerElement (gl_view_format layout) ∈ element_sizes;
  lc_size : ml_width mip <> 0 /\ ml_height mip <> 0;
  lc_row : ml_row_bytes mip mod NumBytesPerElement (gl_view_format layout) = 0;
  lc_min : ml_width mip * NumBytesPerElement (gl_view_format layout) <= ml_row_bytes mip;
  lc_linear : span_size linear = ml_row_bytes mip * ml_height mip /\ span_size linear <= u64_max;
  lc_tiled : span_size tiled = gl_guest_storage_bytes layout }.

Lemma check_layout_inv layout mip tiled linear :
  layout_typed layout mip -> check_layout layout mip tiled linear = inr tt ->
  layout_checked layout mip tiled linear.
Proof.
  intros [Em Hw Hh Hr Hs] H. unfold check_layout in H.
  apply fail_unless_bind in H as [_ H]. apply fail_unless_bind in H as [_ H].
  apply fail_unless_bind in H as [Hf H]. apply fail_unless_bind in H as [Hd H].
  apply fail_unless_bind in H as [Ha H].
  apply andb_true_iff in Hf as [_ Hf%IsSupported_spec].
  rewrite !andb_true_iff, !negb_true_iff, !Z.eqb_neq, !Z.eqb_eq in Hd.
  rewrite andb_true_iff, negb_true_iff, Z.eqb_neq, Z.eqb_eq in Ha.
  assert (Hb : 1 <= NumBytesPerElement (gl_view_format layout) <= 16) by (element_size_case Hf; lia).
  destruct (Multiply (ml_width mip) _) as [minimum|] eqn:E1; [|done].
  destruct (Multiply (ml_row_bytes mip) _) as [slice|] eqn:E2; [|done].
  apply Multiply_Some in E1 as [-> _]; [|unfold is_u32, u32_max in *; u64_lia..].
  apply Multiply_Some in E2 as [-> Hle]; [|done|unfold is_u32, u32_max in *; u64_lia].
  apply fail_unless_bind in H as [Hm H]. apply fail_unless_bind in H as [Hc H].
  apply fail_unless_bind in H as [_ H]. apply fail_unless_bind in H as [Hz _].
  rewrite negb_true_iff, Z.ltb_ge in Hm. rewrite !andb_true_iff, !Z.eqb_eq in Hc, Hz.
  split; [done|intuition|intuition|done|lia|lia].
Qed.

Lemma plan_blocks_inv layout mip block tiled linear plan :
  layout_typed layout mip -> layout_checked layout mip tiled linear ->
  TileGetBlockLayout RenderTarget64KB (NumBytesPerElement (gl_view_format layout)) = gives block ->
  plan_blocks layout mip block = inr plan -> plan_ok plan (span_size tiled) (span_size linear).
Proof.
  intros [Em Hw Hh Hr Hs] [Hf [Hw0 Hh0] Ha Hm [El Hle] Et] Hblock H. unfold plan_blocks in H.
  set (bytes := NumBytesPerElement (gl_view_format layout)) in *.
  assert (Hb : 1 <= bytes <= 16) by (element_size_case Hf; lia).
  destruct (render_target_block bytes Hf) as (block' & kw & kh & E & _ & _ & Es & _ & Ew & Eh & Hkw & Hkh).
  rewrite Hblock in E. injection E as <-. rewrite Es in H.
  assert (64 <= bl_block_width block <= 256 /\ 64 <= bl_block_height block <= 256) as [Hbw Hbh].
  { rewrite Ew, Eh. change 64 with (2 ^ 6). change 256 with (2 ^ 8).
    repeat split; apply Z.pow_le_mono_r; lia. }
  set (pitch := ml_row_bytes mip / bytes) in *.
  assert (Hpitch : ml_width mip <= pitch /\ 0 <= pitch <= ml_row_bytes mip).
  { unfold pitch. split; [apply Z.div_le_lower_bound; lia|].
    split; [apply Z.div_pos; u64_lia|]. apply Z.div_le_upper_bound; [lia|].
    unfold is_u64 in Hr. nia. }
  destruct (match negb _ with true => _ | false => _ end) as [|columns] eqn:Ec; [done|].
  assert (Hcol : pitch <= columns * bl_block_width block /\ 0 <= columns <= u64_max).
  { pose proof (Z.div_mod pitch (bl_block_width block) ltac:(lia)) as Hdm.
    pose proof (Z.mod_pos_bound pitch (bl_block_width block) ltac:(lia)).
    assert (0 <= pitch / bl_block_width block <= pitch)
      by (split; [apply Z.div_pos; lia|apply Z.div_le_upper_bound; nia]).
    destruct (Z.eqb_spec (pitch mod bl_block_width block) 0) as [Ez|Ez]; simpl in Ec.
    - injection Ec as <-. u64_lia || (split; [nia|u64_lia]).
    - destruct (Add _ 1) as [c|] eqn:Ea; [|done]. injection Ec as <-.
      apply Add_Some in Ea as [-> ?]; [|u64_lia..]. split; [nia|lia]. }
  simpl in H. destruct (Z.eqb_spec columns 0) as [|Hc0]; [done|].
  destruct (Multiply columns 65536) as [row|] eqn:Er; [|done].
  apply Multiply_Some in Er as [-> Hrow]; [|u64_lia..].
  destruct (Z.eqb_spec (columns * 65536) 0); [done|]. simpl in H.
  destruct (Z.eqb_spec (gl_guest_storage_bytes layout mod (columns * 65536)) 0) as [Ez|]; [|done]. simpl in H.
  set (rows := gl_guest_storage_bytes layout / (columns * 65536)) in *.
  destruct (Z.eqb_spec rows 0) as [|Hr0]; [done|].
  assert (Erows : gl_guest_storage_bytes layout = rows * columns * 65536).
  { pose proof (Z.div_mod (gl_guest_storage_bytes layout) (columns * 65536) ltac:(lia)). unfold rows. lia. }
  assert (0 <= rows) by (apply Z.div_pos; u64_lia).
  assert (rows <= gl_guest_storage_bytes layout) by (apply Z.div_le_upper_bound; [lia|];
    assert (1 <= columns * 65536) by lia; unfold is_u64 in Hs; nia).
  destruct (Multiply rows (bl_block_height block)) as [covered|] eqn:Ev; [|done].
  apply Multiply_Some in Ev as [-> _]; [|unfold is_u64 in *; lia|u64_lia].
  rewrite Z.gtb_ltb in H. destruct (Z.ltb_spec (rows * bl_block_height block) (ml_height mip)); [done|].
  injection H as <-. split; simpl; try done; try u32_lia; try lia. unfold is_u64 in Hs. lia.
Qed.

Lemma MakePlan_defined layout mip tiled linear :
  layout_typed layout mip ->
  match MakePlan layout tiled linear with
  | gives (inr plan) => plan_ok plan (span_size tiled) (span_size linear)
  | gives (inl r) => result_ok r = false
  | _ => False
  end.
Proof.
  intros Ht. unfold MakePlan.
  rewrite (proj2 (at_index_gives (gl_mips layout) 0 mip)) by (split; [lia|apply Ht]). simpl.
  assert (Hbad : forall b s d, s <> kDetileSuccess -> forall r, fail_unless b s d = inl r -> result_ok r = false).
  { intros b s d Hs r. destruct b; [done|]. intros [= <-]. by apply bool_decide_false. }
  destruct (check_layout layout mip tiled linear) as [r|[]] eqn:Ec.
  - revert Ec. unfold check_layout. cbn zeta.
    repeat match goal with
    | |- (fail_unless ?b ?s ?d ≫= _) = inl r -> _ => destruct b; simpl; [|by intros [= <-]]
    | |- context [Multiply ?a ?b] => destruct (Multiply a b)
    | |- fail_unless _ _ _ = inl r -> _ => by apply Hbad
    end; try (by intros [= <-]).
  - pose proof (check_layout_inv _ _ _ _ Ht Ec) as Hc.
    destruct (render_target_block _ (lc_bytes _ _ _ _ Hc)) as (block & kw & kh & E & _ & _ & Es & Ed & Ew & Eh & Hkw & Hkh).
    rewrite E, Es, Ed, Ew, Eh. assert (0 < 2 ^ kw) by (apply Z.pow_pos_nonneg; lia).
    assert (0 < 2 ^ kh) by (apply Z.pow_pos_nonneg; lia). rewrite !(proj2 (Z.eqb_neq _ 0)) by lia. simpl.
    destruct (plan_blocks layout mip block) as [r|plan] eqn:Ep; [|by eapply plan_blocks_inv].
    revert Ep. unfold plan_blocks. cbn zeta.
    repeat (match goal with
    | |- context [match ?c with _ => _ end] => destruct c; simpl
    end; try (by intros [= <-]); try discriminate).
Qed.

(** Detiling is defined on every layout and all spans, and exact: a refused
    image leaves the staging buffer as it was; otherwise every byte of every
    texel is the byte at the texel's tiled address, and no other byte of the
    buffer (the row padding) changes.  The addresses that the validation pass
    accepts are never refused by the copy. *)
Theorem detile_exact layout mip tiled linear :
  layout_typed layout mip ->
  match DetileRenderTarget64KB layout tiled linear with
  | gives (r, bytes) =>
      if result_ok r then
        exists plan, MakePlan layout tiled linear = gives (inr plan)
          /\ plan_ok plan (span_size tiled) (span_size linear)
          /\ copied plan (span_bytes tiled) (texels (dp_width plan) (dp_height plan))
               (span_bytes linear) bytes
      else bytes = span_bytes linear
  | _ => False
  end.
Proof.
  intros Ht. unfold DetileRenderTarget64KB. pose proof (MakePlan_defined layout mip tiled linear Ht) as H.
  destruct (MakePlan layout tiled linear) as [| |[r|plan]]; [done..| |]; simpl.
  - by rewrite H.
  - assert (Hin : forall x y, (x, y) ∈ texels (dp_width plan) (dp_height plan) ->
      0 <= x < dp_width plan /\ 0 <= y < dp_height plan) by (intros x y; apply elem_of_texels).
    change (span_size tiled) with (Z.of_nat (length (span_bytes tiled))).
    rewrite (validate_spec plan _ _ H) by done. simpl.
    destruct (copy_texels_spec plan _ _ H (texels (dp_width plan) (dp_height plan)) (span_bytes linear))
      as (bytes & -> & Hc); [done|done|]. simpl. by exists plan.
Qed.
