(* ===== verification/ImageLayoutProps.v ===== *)
(** Layouts of guest images ([src/gpu/image_layout.cpp]): the layout of a tiled
    render target is one that [DetileRenderTarget64KB] ([src/gpu/detile.cpp])
    accepts, and the levels of a linear image are placed without gaps. *)
From S2P Require Import Prelude Words32 Formats TileBlocks TileTextures TileTextureProps.
From S2P Require Import TileTextureProps LinearImages ImageLayout Detile.

(** ** The size of a single-level render target *)

Lemma ceil_div_1 v : ceil_div v 1 = v.
Proof. unfold ceil_div. rewrite Z.div_1_r. lia. Qed.

Lemma single_level_total block width height :
  1 <= width -> 1 <= height -> tb_texel_width block = 1 -> tb_texel_height block = 1 ->
  chain_total block width height 1 1
  = round_up width (tb_block_width block) * round_up height (tb_block_height block) * tb_bytes block.
Proof.
  intros Hw Hh Ew Eh. unfold chain_total, chain_base. change (1 <? 1) with false.
  change (sum_levels ?f (Z.to_nat 1)) with (0 + f 0). rewrite Ew, Eh, !ceil_div_1.
  unfold level_bytes, level_width. change (2 ^ 0) with 1. rewrite !ceil_div_1, !Z.max_l by lia. lia.
Qed.

Lemma texture_size_single format tile block width height pitch total :
  GetTextureBlockLayout format tile = gives block -> 0 <= width -> 0 <= height ->
  TileGetTextureSize format width height pitch 1 tile (Some no_size) None None = gives (total, None, None) ->
  (1 <= width <= 16384 /\ 1 <= height <= 16384)
  /\ sa_size total = chain_total block width height 1 1 /\ sa_align total = tb_block_size block.
Proof.
  intros Hblock Hw Hh. unfold TileGetTextureSize. simpl.
  destruct (Z.eqb_spec width 0); [done|]. rewrite !Z.gtb_ltb.
  destruct (Z.ltb_spec 16384 width); [done|]. destruct (Z.eqb_spec height 0); [done|].
  destruct (Z.ltb_spec 16384 height); [done|]. simpl. split_match; [done|]. split_match; [done|].
  unfold texture_layout. cbn zeta.
  assert (Ht : (negb (NumBytesPerElement format =? 0) && (tile =? 0)) = false).
  { destruct (Z.eqb_spec tile 0) as [->|]; [|apply andb_false_r]. done. }
  rewrite Ht, Hblock.
  destruct (block_texture_chain _ _ _ width height 1 Hblock ltac:(lia) ltac:(lia) ltac:(lia))
    as (first & Hr & Hf & Hc).
  assert (first = 1) as -> by (unfold first_tail_level in Hf; by rewrite Z.eqb_refl, orb_true_r in Hf).
  destruct (decide _); [|by rewrite Hc]. destruct Hc as (t & ls & ps & -> & _ & _ & Hok). simpl.
  intros [= <-]. split; [lia|]. split; [apply Hok|apply Hok].
Qed.

(** The block of a format in render-target mode. *)
Lemma render_target_texture format :
  NumBytesPerElement format ∈ element_sizes ->
  exists block, GetTextureBlockLayout format 27 = gives block
    /\ tb_bytes block = NumBytesPerElement format /\ tb_texel_width block = 1 /\ tb_texel_height block = 1
    /\ tb_block_size block = 65536
    /\ exists rt, TileGetBlockLayout RenderTarget64KB (NumBytesPerElement format) = gives rt
         /\ bl_block_width rt = tb_block_width block /\ bl_block_height rt = tb_block_height block.
Proof.
  intros Hb. unfold GetTextureBlockLayout. cbn zeta. revert Hb.
  generalize (NumBytesPerElement format) as bytes. intros bytes Hb.
  element_size_case Hb; eexists; (split; [reflexivity|]); (split_and!; [done..|]);
    eexists; (split; [vm_compute; reflexivity|done]).
Qed.

(** ** The layout of a render target *)

(** What the layout of a tiled image says. *)
Record render_target_layout_ok (input : GuestImageLayoutInput) (layout : GuestImageLayout) : Prop := {
  rl_bytes : NumBytesPerElement (in_format input) ∈ element_sizes;
  rl_compressed : BlockCompressedBytesPerBlock (in_format input) = 0;
  rl_range : 1 <= in_width input <= 16384 /\ 1 <= in_height input <= 16384;
  rl_layout : exists rt, TileGetBlockLayout RenderTarget64KB (NumBytesPerElement (in_format input)) = gives rt
    /\ let row := round_up (in_width input) (bl_block_width rt) * NumBytesPerElement (in_format input) in
       let stored := round_up (in_width input) (bl_block_width rt)
                     * round_up (in_height input) (bl_block_height rt)
                     * NumBytesPerElement (in_format input) in
       layout = mkGuestImageLayout kLayoutSuccess "render-target tiled guest layout calculated"
         (in_format input) (StorageAliasFormat (in_format input)) 1 false true
         (<[0%nat := mkGuestImageMipLayout (in_width input) (in_height input) 1 (in_width input)
              (in_height input) 1 row (row * in_height input) (row * in_height input) 0
              (row * in_height input)]> (array16 no_mip))
         (row * in_height input) stored
         (mkGuestImageStorageKey (in_guest_address input) stored (StorageAliasFormat (in_format input)))
       /\ 0 < row <= u64_max /\ row * in_height input <= u64_max /\ 0 < stored <= u32_max }.

(** Every early return is a failure. *)
Definition fails_only {A} (x : GuestImageLayout + A) : Prop :=
  forall f, x = inl f -> layout_ok f = false /\ gl_needs_detile f = false.

Lemma fails_only_check b status d : status <> kLayoutSuccess -> fails_only (check_that b status d).
Proof. intros Hs f. destruct b; [done|]. intros [= <-]. split; [by apply bool_decide_false|done]. Qed.
Lemma fails_only_or_stop {A} (o : option A) status d :
  status <> kLayoutSuccess -> fails_only (or_stop o status d).
Proof. intros Hs f. destruct o; [done|]. intros [= <-]. split; [by apply bool_decide_false|done]. Qed.
Lemma fails_only_bind {A B} (x : GuestImageLayout + A) (g : A -> GuestImageLayout + B) :
  fails_only x -> (forall a, fails_only (g a)) -> fails_only (x ≫= g).
Proof. intros Hx Hg f. destruct x as [r|a]; simpl; [intros [= <-]; by apply Hx|apply Hg]. Qed.
Lemma fails_only_inr {A} (a : A) : fails_only (inr a).
Proof. by intros f. Qed.

Create HintDb layouts.
#[export] Hint Resolve fails_only_check fails_only_or_stop fails_only_bind fails_only_inr : layouts.

Ltac only_fails :=
  repeat first
    [ apply fails_only_inr
    | apply fails_only_check; discriminate
    | apply fails_only_or_stop; discriminate
    | apply fails_only_bind; [|intros ?] ].

Lemma check_input_fails input : fails_only (check_input input).
Proof. unfold check_input. cbn zeta. only_fails. Qed.
Lemma layers_fails input : fails_only (layers_of_type input).
Proof. unfold layers_of_type. destruct (in_image_type input); only_fails. Qed.

Lemma linear_levels_fails n input layers : forall level total mips,
  fails_only (linear_levels n input layers level total mips).
Proof.
  induction n as [|n IH]; intros level total mips; simpl; [only_fails|].
  apply fails_only_bind; [unfold linear_level; cbn zeta; only_fails|]. intros [mip t]. apply IH.
Qed.

Lemma linear_layout_fails input layers :
  fails_only (linear_layout input layers)
  /\ forall layout, linear_layout input layers = inr layout -> gl_needs_detile layout = false.
Proof.
  unfold linear_layout. split.
  - apply fails_only_bind; [apply linear_levels_fails|]. intros [mips total]. only_fails.
  - intros layout. destruct (linear_levels _ _ _ _ _ _) as [|[mips total]]; [done|]. simpl.
    destruct (check_that _ _ _); [done|]. by intros [= <-].
Qed.

Lemma check_that_bind {A} b s d (f : unit -> GuestImageLayout + A) a :
  (check_that b s d ≫= f) = inr a -> b = true /\ f tt = inr a.
Proof. by destruct b. Qed.
Lemma or_stop_bind {A B} (o : option A) s d (f : A -> GuestImageLayout + B) b :
  (or_stop o s d ≫= f) = inr b -> exists a, o = Some a /\ f a = inr b.
Proof. destruct o; [|done]. eauto. Qed.

(** The fields of an input have the widths of their C++ types. *)
Definition input_typed (input : GuestImageLayoutInput) : Prop :=
  is_u64 (in_guest_address input) /\ is_u32 (in_format input) /\ is_u32 (in_width input)
  /\ is_u32 (in_height input) /\ is_u32 (in_depth input) /\ is_u32 (in_layers input)
  /\ is_u32 (in_mip_count input) /\ is_u64 (in_row_pitch_bytes input) /\ is_u64 (in_slice_pitch_bytes input).

Lemma render_target_layout_spec input layout :
  input_typed input -> is_plain_render_target input = true -> render_target_layout input = gives layout ->
  (exists r, layout = inr r /\ render_target_layout_ok input r)
  \/ exists f, layout = inl f /\ layout_ok f = false.
Proof.
  intros Ht Hplain H. unfold is_plain_render_target in Hplain. cbn zeta in Hplain.
  apply andb_true_iff in Hplain as [Hplain Hb%IsSupported_spec].
  apply andb_true_iff in Hplain as [_ Hbc%Z.eqb_eq].
  destruct (render_target_texture _ Hb) as (block & Hblock & Eb & Etw & Eth & Es & rt & Hrt & Ew & Eh).
  assert (Hbytes : 1 <= NumBytesPerElement (in_format input) <= 16) by (element_size_case Hb; lia).
  unfold render_target_layout in H. cbn zeta in H. change (TileModeValue kRenderTarget) with 27 in H.
  assert (Hun : layout_ok (Failure kUnsupportedLayout "render-target tiled guest layout is unsupported" false) = false)
    by done.
  destruct (TileGetTexturePitch _ _ _ _) as [| |pitch] eqn:Epitch; [done|by injection H as <-; eauto|].
  destruct (TileGetTextureTotalSize _ _ _ _ _ _ _ _) as [| |total] eqn:Etot; [done|by injection H as <-; eauto|].
  unfold TileGetTextureTotalSize in Etot. simpl in Etot.
  apply bind_gives in Etot as ([[slice ls] ps] & Eslice & Etot).
  assert (ls = None /\ ps = None) as [-> ->].
  { revert Eslice. unfold TileGetTextureSize. split_match; [done|]. split_match; [done|]. split_match; [done|].
    intros ([[? ?] ?] & _ & E2)%bind_gives. simpl in E2. by injection E2. }
  destruct Ht as (_ & _ & Htw & Hth & _).
  destruct (texture_size_single _ _ _ _ _ _ _ Hblock ltac:(apply Htw) ltac:(apply Hth) Eslice) as ([Hw Hh] & Esz & Eal).
  rewrite (block_pitch_spec _ _ _ _ _ Hblock) in Epitch by (done || lia || set_solver).
  injection Epitch as <-. rewrite Etw, Z.mul_1_r, <- Ew in H.
  rewrite single_level_total, Eb, <- Ew, <- Eh in Esz by (done || lia).
  destruct (render_target_block _ Hb) as (rt' & kw & kh & E & _ & _ & _ & _ & Erw & Erh & Hkw & Hkh).
  rewrite Hrt in E. injection E as <-.
  assert (64 <= bl_block_width rt <= 256 /\ 64 <= bl_block_height rt <= 256) as [Hbw Hbh].
  { rewrite Erw, Erh. change 64 with (2 ^ 6). change 256 with (2 ^ 8).
    repeat split; apply Z.pow_le_mono_r; lia. }
  destruct (round_up_spec (in_width input) (bl_block_width rt) ltac:(lia)) as [Hrw _].
  destruct (round_up_spec (in_height input) (bl_block_height rt) ltac:(lia)) as [Hrh _].
  clear Eslice. set (W := round_up (in_width input) (bl_block_width rt)) in *.
  set (H' := round_up (in_height input) (bl_block_height rt)) in *.
  set (bytes := NumBytesPerElement (in_format input)) in *.
  assert (Hstored : 0 < W * H' * bytes <= 16640 * 16640 * 16)
    by (assert (0 < W <= 16640) by lia; assert (0 < H' <= 16640) by lia; clearbody W H' bytes;
        assert (0 < W * H' <= 16640 * 16640) by nia; nia).
  rewrite mul64_small, Z.mul_1_r, Esz in Etot by (rewrite Esz; u64_lia).
  rewrite Z.gtb_ltb in Etot. destruct (Z.ltb_spec u32_max (W * H' * bytes)); [done|]. injection Etot as <-.
  simpl in H. rewrite to_u32_small, Eal, Es in H by u32_lia.
  rewrite (proj2 (Z.eqb_neq (W * H' * bytes) 0)) in H by lia. simpl in H. injection H as <-.
  assert (Hrow : 0 < W * bytes <= 16640 * 16) by (clear - Hrw Hbytes Hw Hbw; clearbody W bytes; nia).
  assert (Hst : 0 <= W * bytes * in_height input <= 16640 * 16 * 16384) by (clear - Hrow Hh; nia).
  rewrite !Multiply_small by u64_lia. simpl. rewrite Multiply_small by u64_lia. simpl.
  match goal with |- context [check_that ?b ?s ?d] => destruct b; simpl; [|right; by eexists] end.
  match goal with |- context [check_that ?b ?s ?d] => destruct b; simpl; [|right; by eexists] end.
  left. eexists. split; [done|]. split; [done|done|done|]. exists rt. split; [done|]. cbn zeta.
  fold W H' bytes. split; [done|]. u64_lia.
Qed.

(** The computation of a render target is always defined. *)
Lemma render_target_layout_defined input :
  input_typed input -> is_plain_render_target input = true -> exists r, render_target_layout input = gives r.
Proof.
  intros Ht Hplain. unfold is_plain_render_target in Hplain. cbn zeta in Hplain.
  apply andb_true_iff in Hplain as [_ Hb%IsSupported_spec].
  destruct (render_target_texture _ Hb) as (block & Hblock & _).
  destruct Ht as (_ & _ & Hw & Hh & _). unfold is_u32 in Hw, Hh.
  unfold render_target_layout. cbn zeta. change (TileModeValue kRenderTarget) with 27.
  destruct (decide (1 <= in_width input <= 16384)) as [Hwr|Hwr].
  2: { unfold TileGetTexturePitch. rewrite !Z.gtb_ltb.
       destruct (Z.eqb_spec (in_width input) 0); [by eexists|].
       rewrite (proj2 (Z.ltb_lt 16384 (in_width input))) by lia. by eexists. }
  rewrite (block_pitch_spec _ _ _ _ _ Hblock) by (done || lia || set_solver).
  unfold TileGetTextureTotalSize. simpl.
  match goal with |- context [TileGetTextureSize ?a ?b ?c ?d ?e ?f ?g ?h ?i] =>
    assert (Hd : TileGetTextureSize a b c d e f g h i = refused
                 \/ exists t, TileGetTextureSize a b c d e f g h i = gives (t, None, None)) end.
  { unfold TileGetTextureSize. simpl. split_match; [by left|]. split_match; [by left|]. split_match; [by left|].
    rewrite !orb_false_iff, !Z.gtb_ltb, !Z.ltb_ge, !Z.eqb_neq in E.
    unfold texture_layout. cbn zeta. rewrite andb_false_r, Hblock.
    destruct (block_texture_chain _ _ _ (in_width input) (in_height input) 1 Hblock ltac:(lia) ltac:(lia) ltac:(lia))
      as (first & _ & _ & Hc).
    destruct (decide _); [destruct Hc as (t & ls & ps & -> & _); right; by eexists|rewrite Hc; by left]. }
  destruct Hd as [->|[t ->]]; simpl; [by eexists|].
  repeat (split_match; try (by eexists)).
Qed.

Lemma calculated_render_target input layout :
  input_typed input -> CalculateGuestImageLayout input = gives layout ->
  layout_ok layout = true -> gl_needs_detile layout = true -> render_target_layout_ok input layout.
Proof.
  intros Ht H Hok Hneeds. unfold CalculateGuestImageLayout in H.
  destruct (check_input input ≫= λ _, layers_of_type input) as [f|layers] eqn:Ec.
  { injection H as <-. edestruct (fails_only_bind _ _ (check_input_fails input) (fun _ => layers_fails input))
      as [Hbad _]; [exact Ec|]. congruence. }
  destruct (bool_decide (in_tile_mode input = kLinear)).
  { injection H as <-. destruct (linear_layout_fails input layers) as [Hf Hn].
    destruct (linear_layout input layers) as [f|r]; simpl in *; [|by rewrite Hn in Hneeds].
    destruct (Hf f eq_refl). congruence. }
  destruct (is_plain_render_target input) eqn:Ep; [|by injection H as <-].
  apply bind_gives in H as (r & Er & H). injection H as <-.
  destruct (render_target_layout_spec _ _ Ht Ep Er) as [(l & -> & Hl)|(f & -> & Hf)]; [done|].
  simpl in *. congruence.
Qed.

(** The quotient of a rounded value. *)
Lemma round_up_div v unit :
  0 < unit -> round_up v unit = round_up v unit / unit * unit /\ round_up v unit mod unit = 0.
Proof.
  intros Hu. destruct (round_up_spec v unit Hu) as [_ Hm]. split; [|done].
  pose proof (Z.div_mod (round_up v unit) unit ltac:(lia)). lia.
Qed.

Section staging.
Context (input : GuestImageLayoutInput) (layout : GuestImageLayout) (tiled linear : byte_span).
Context (Hl : render_target_layout_ok input layout).
Context (Htiled : span_size tiled = gl_guest_storage_bytes layout).
Context (Hlinear : span_size linear = gl_total_bytes layout).
Context (Hapart : SpansOverlap tiled linear = false).

(** The plan of the image: its columns and rows of blocks. *)
Lemma staging_plan :
  exists plan, MakePlan layout tiled linear = gives (inr plan)
    /\ dp_width plan = in_width input /\ dp_height plan = in_height input
    /\ dp_bytes_per_element plan = NumBytesPerElement (in_format input)
    /\ (exists mip, layout_typed layout mip /\ dp_row_bytes plan = ml_row_bytes mip).
Proof.
  destruct Hl as [Hb Hbc [Hw Hh] (rt & Hrt & E & Hrow & Hstage & Hstored)].
  set (row := round_up (in_width input) (bl_block_width rt) * NumBytesPerElement (in_format input)) in *.
  set (stored := round_up (in_width input) (bl_block_width rt) * round_up (in_height input) (bl_block_height rt)
    * NumBytesPerElement (in_format input)) in *.
  destruct (render_target_block _ Hb) as (rt' & kw & kh & E' & _ & _ & Es & Ed & Erw & Erh & Hkw & Hkh).
  rewrite Hrt in E'. injection E' as <-.
  assert (64 <= bl_block_width rt <= 256 /\ 64 <= bl_block_height rt <= 256) as [Hbw Hbh].
  { rewrite Erw, Erh. change 64 with (2 ^ 6). change 256 with (2 ^ 8).
    repeat split; apply Z.pow_le_mono_r; lia. }
  assert (Hfill : bl_block_width rt * bl_block_height rt * NumBytesPerElement (in_format input) = 65536).
  { revert Hb Hrt. clear. generalize (NumBytesPerElement (in_format input)) as b. intros b Hb Hrt.
    element_size_case Hb; vm_compute in Hrt; by injection Hrt as <-. }
  destruct (round_up_spec (in_width input) (bl_block_width rt) ltac:(lia)) as [Hrw _].
  destruct (round_up_spec (in_height input) (bl_block_height rt) ltac:(lia)) as [Hrh _].
  destruct (round_up_div (in_width input) (bl_block_width rt) ltac:(lia)) as [Ew Ewm].
  destruct (round_up_div (in_height input) (bl_block_height rt) ltac:(lia)) as [Eh Ehm].
  assert (Hbytes : 1 <= NumBytesPerElement (in_format input) <= 16) by (element_size_case Hb; lia).
  set (W := round_up (in_width input) (bl_block_width rt)) in *.
  set (H := round_up (in_height input) (bl_block_height rt)) in *.
  set (bytes := NumBytesPerElement (in_format input)) in *.
  set (cols := W / bl_block_width rt) in *. set (rows := H / bl_block_height rt) in *.
  assert (Hcols : 1 <= cols <= W) by nia. assert (Hrows : 1 <= rows <= H) by nia.
  assert (Estored : stored = rows * (cols * 65536)) by (unfold stored; rewrite <- Hfill, Ew, Eh; ring).
  assert (Hpitch : row / bytes = W) by (apply Z.div_mul; lia).
  assert (Hrowm : row mod bytes = 0) by (apply Z.mod_mul; lia).
  subst layout. simpl in *. unfold MakePlan, check_layout. simpl.
  unfold layout_ok. simpl. rewrite Hbc. fold bytes.
  rewrite (proj2 (IsSupported_spec bytes) Hb). simpl.
  rewrite !(proj2 (Z.eqb_neq (in_width input) 0)), !(proj2 (Z.eqb_neq (in_height input) 0)) by lia.
  rewrite !Z.eqb_refl. simpl. rewrite (proj2 (Z.eqb_neq row 0)), Hrowm by lia. simpl.
  rewrite Multiply_small by (nia || u64_lia). rewrite Multiply_small by lia.
  rewrite (proj2 (Z.ltb_ge row (in_width input * bytes))) by (unfold row; nia). simpl.
  rewrite !Z.eqb_refl. simpl. rewrite (proj2 (Z.eqb_neq stored 0)) by lia. simpl.
  rewrite Htiled, Hlinear, !Z.eqb_refl, Hapart, Hrt. simpl.
  rewrite Es, Ed, !(proj2 (Z.eqb_neq _ 0)) by lia. simpl.
  unfold plan_blocks. simpl. fold bytes. rewrite Hpitch, Ewm. simpl. fold cols.
  rewrite (proj2 (Z.eqb_neq cols 0)) by lia. rewrite Es, Multiply_small by u64_lia.
  rewrite (proj2 (Z.eqb_neq (cols * 65536) 0)) by lia.
  rewrite Estored, Z.mod_mul, Z.div_mul by lia. simpl.
  rewrite (proj2 (Z.eqb_neq rows 0)) by lia. rewrite Multiply_small by u64_lia.
  rewrite <- Eh, Z.gtb_ltb, (proj2 (Z.ltb_ge _ _)) by lia.
  eexists. split; [done|]. simpl. split_and!; [done..|]. eexists.
  split; [split; [reflexivity|..]|reflexivity].
  - unfold is_u32, u32_max. cbn. lia.
  - unfold is_u32, u32_max. cbn. lia.
  - unfold is_u64. cbn [ml_row_bytes]. lia.
  - cbn [gl_guest_storage_bytes]. rewrite <- Estored. unfold u32_max in *. u64_lia.
Qed.
End staging.

(** C40: A tiled render target for which a layout is calculated is detiled: given
    source and destination spans of the calculated sizes that do not overlap,
    [DetileRenderTarget64KB] succeeds, every byte of every texel of the staging
    image is the byte at that texel's tiled address, and different texels are
    read from disjoint places of the guest image. *)
Theorem render_target_staging input layout tiled linear :
  input_typed input -> CalculateGuestImageLayout input = gives layout ->
  layout_ok layout = true -> gl_needs_detile layout = true ->
  span_size tiled = gl_guest_storage_bytes layout -> span_size linear = gl_total_bytes layout ->
  SpansOverlap tiled linear = false ->
  exists plan r bytes,
    MakePlan layout tiled linear = gives (inr plan)
    /\ DetileRenderTarget64KB layout tiled linear = gives (r, bytes) /\ result_ok r = true
    /\ length bytes = length (span_bytes linear)
    /\ (forall x y b, 0 <= x < in_width input -> 0 <= y < in_height input ->
          0 <= b < NumBytesPerElement (in_format input) ->
          bytes !! Z.to_nat (linear_address plan x y + b)
          = span_bytes tiled !! Z.to_nat (tiled_address plan x y + b))
    /\ (forall x y x' y' o, 0 <= x < in_width input -> 0 <= y < in_height input ->
          0 <= x' < in_width input -> 0 <= y' < in_height input ->
          tiled_address plan x y <= o < tiled_address plan x y + NumBytesPerElement (in_format input) ->
          tiled_address plan x' y' <= o < tiled_address plan x' y' + NumBytesPerElement (in_format input) ->
          x = x' /\ y = y').
Proof.
  intros Ht Hc Hok Hn Ets Els Hapart. pose proof (calculated_render_target _ _ Ht Hc Hok Hn) as Hl.
  destruct (staging_plan _ _ _ _ Hl Ets Els Hapart) as (plan & Ep & <- & <- & <- & mip & Hty & _).
  pose proof (MakePlan_defined layout mip tiled linear Hty) as Hplan. rewrite Ep in Hplan.
  assert (Hin : forall x y, (x, y) ∈ texels (dp_width plan) (dp_height plan) <->
    0 <= x < dp_width plan /\ 0 <= y < dp_height plan) by (intros x y; apply elem_of_texels).
  unfold DetileRenderTarget64KB. rewrite Ep. simpl.
  change (span_size tiled) with (Z.of_nat (length (span_bytes tiled))).
  rewrite (validate_spec plan _ _ Hplan) by (intros; by apply Hin). simpl.
  destruct (copy_texels_spec plan _ _ Hplan (texels (dp_width plan) (dp_height plan)) (span_bytes linear))
    as (bytes & -> & El & Hcopy & _); [done|intros; by apply Hin|].
  eexists plan, _, bytes. split_and!; [done|reflexivity|done|done| |].
  - intros x y b Hx Hy. apply Hcopy. by apply Hin.
  - intros x y x' y' o Hx Hy Hx' Hy'. by apply (tiled_places_apart _ _ _ Hplan).
Qed.

(** ** Linear images *)

(** What the entry of a level says: its dimensions, pitches that are large
    enough, and byte counts computed without overflow. *)
Record mip_sound (input : GuestImageLayoutInput) (array_layers level : Z) (m : GuestImageMipLayout) : Prop := {
  ms_width : ml_width m = Z.max (in_width input / 2 ^ level) 1;
  ms_height : ml_height m = Z.max (in_height input / 2 ^ level) 1;
  ms_depth : ml_depth m = if bool_decide (in_image_type input = kColor3D)
                          then Z.max (in_depth input / 2 ^ level) 1 else 1;
  ms_blocks :
    if BlockCompressedBytesPerBlock (in_format input) =? 0
    then ml_block_width m = ml_width m /\ ml_block_height m = ml_height m
    else ml_block_width m = ceil_div (ml_width m) 4 /\ ml_block_height m = ceil_div (ml_height m) 4;
  ms_row : ml_block_width m * (if BlockCompressedBytesPerBlock (in_format input) =? 0
                               then NumBytesPerElement (in_format input)
                               else BlockCompressedBytesPerBlock (in_format input)) <= ml_row_bytes m;
  ms_slice : ml_row_bytes m * ml_block_height m <= ml_slice_bytes m;
  ms_layer : ml_layer_bytes m = ml_slice_bytes m * ml_depth m;
  ms_count : ml_byte_count m = ml_layer_bytes m
             * (if bool_decide (in_image_type input = kColor3D) then 1 else array_layers) }.

Lemma MipDimension_spec v level :
  is_u32 v -> 0 <= level -> MipDimension v level = Z.max (v / 2 ^ level) 1 /\ is_u32 (MipDimension v level).
Proof.
  intros Hv Hl. unfold MipDimension. rewrite Z.shiftr_div_pow2 by done. split; [done|].
  assert (0 < 2 ^ level) by (by apply Z.pow_pos_nonneg).
  assert (0 <= v / 2 ^ level <= v).
  { unfold is_u32 in Hv. split; [apply Z.div_pos; lia|]. apply Z.div_le_upper_bound; nia. }
  u32_lia.
Qed.

Lemma u32_u64 v : is_u32 v -> is_u64 v.
Proof. unfold is_u32, u32_max. u64_lia. Qed.

Lemma quarter_u32 v : is_u32 v -> to_u32 (add64 v 3 `div` 4) = ceil_div v 4 /\ is_u32 (ceil_div v 4).
Proof.
  intros Hv. rewrite add64_small by (unfold is_u32, u32_max in *; u64_lia). unfold ceil_div.
  replace (v + 4 - 1) with (v + 3) by lia.
  assert (is_u32 ((v + 3) / 4)) by (unfold is_u32, u32_max in *; Z.div_mod_to_equations; lia).
  by rewrite to_u32_small.
Qed.

Lemma linear_level_spec input array_layers level total m total' :
  input_typed input -> is_u32 array_layers -> 0 <= level -> 0 <= total <= kMaxGuestImageLayoutBytes ->
  linear_level input array_layers level total = inr (m, total') ->
  mip_sound input array_layers level m /\ ml_byte_offset m = total /\ total' = total + ml_byte_count m
  /\ 0 <= ml_byte_count m /\ total' <= kMaxGuestImageLayoutBytes.
Proof.
  intros (_ & _ & Hw & Hh & Hd & _ & _ & Hrp & Hsp) Hal Hl Htot H. unfold linear_level in H. cbn zeta in H.
  destruct (MipDimension_spec _ level Hw Hl) as [Ew Hmw], (MipDimension_spec _ level Hh Hl) as [Eh Hmh].
  destruct (MipDimension_spec _ level Hd Hl) as [Ed Hmd].
  pose proof (format_bytes (in_format input)) as (Hfe & Hfb & _).
  set (width := MipDimension (in_width input) level) in *. set (height := MipDimension (in_height input) level) in *.
  set (depth := if bool_decide (in_image_type input = kColor3D) then MipDimension (in_depth input) level else 1) in *.
  assert (Hdepth : is_u32 depth) by (unfold depth; split_match; [done|u32_lia]).
  set (comp := negb (BlockCompressedBytesPerBlock (in_format input) =? 0)) in *.
  set (bw := if comp then to_u32 (add64 width 3 `div` 4) else width) in *.
  set (bh := if comp then to_u32 (add64 height 3 `div` 4) else height) in *.
  set (unit := if comp then BlockCompressedBytesPerBlock (in_format input)
               else NumBytesPerElement (in_format input)) in *.
  assert (Hunit : 0 <= unit <= 16) by (unfold unit; split_match; lia).
  pose proof quarter_u32 as H4.
  assert (Hbw : is_u32 bw) by (unfold bw; split_match; [rewrite (proj1 (H4 width Hmw)); by apply H4|done]).
  assert (Hbh : is_u32 bh) by (unfold bh; split_match; [rewrite (proj1 (H4 height Hmh)); by apply H4|done]).
  apply or_stop_bind in H as (row0 & E1 & H). apply check_that_bind in H as [Hrow H].
  apply or_stop_bind in H as (slice0 & E2 & H). apply check_that_bind in H as [Hslice H].
  apply or_stop_bind in H as (layer & E3 & H). apply or_stop_bind in H as (count & E4 & H).
  apply or_stop_bind in H as (t & E5 & H). apply check_that_bind in H as [Hmax H]. injection H as <- <-.
  apply Multiply_Some in E1 as [-> Hm1]; [|by apply u32_u64|unfold is_u64; u64_lia].
  set (er := negb (in_tightly_packed input) && negb (in_row_pitch_bytes input =? 0)) in *.
  set (row := if er then in_row_pitch_bytes input else bw * unit) in *.
  assert (Hrow' : bw * unit <= row /\ is_u64 row).
  { unfold row. destruct er; simpl in Hrow.
    - rewrite negb_true_iff, orb_false_iff, Z.ltb_ge in Hrow. intuition.
    - split; [done|]. split; [apply Z.mul_nonneg_nonneg; [apply Hbw|lia]|done]. }
  apply Multiply_Some in E2 as [-> Hm2]; [|apply Hrow'|by apply u32_u64].
  set (es := negb (in_tightly_packed input) && negb (in_slice_pitch_bytes input =? 0)) in *.
  set (slice := if es then in_slice_pitch_bytes input else row * bh) in *.
  assert (Hslice' : row * bh <= slice /\ is_u64 slice).
  { unfold slice. destruct es; simpl in Hslice.
    - rewrite negb_true_iff, orb_false_iff, Z.ltb_ge in Hslice. intuition.
    - split; [done|]. split; [apply Z.mul_nonneg_nonneg; [apply Hrow'|apply Hbh]|done]. }
  apply Multiply_Some in E3 as [-> Hm3]; [|apply Hslice'|by apply u32_u64].
  assert (Hlayer : is_u64 (slice * depth)) by (split; [apply Z.mul_nonneg_nonneg; [apply Hslice'|apply Hdepth]|done]).
  set (ll := if bool_decide (in_image_type input = kColor3D) then 1 else array_layers) in *.
  assert (Hll : is_u64 ll) by (unfold ll; split_match; [unfold is_u64; u64_lia|by apply u32_u64]).
  apply Multiply_Some in E4 as [-> Hm4]; [|done|done].
  assert (Hcount : is_u64 (slice * depth * ll)) by (split; [apply Z.mul_nonneg_nonneg; [apply Hlayer|apply Hll]|done]).
  apply Add_Some in E5 as [-> _]; [|unfold is_u64, kMaxGuestImageLayoutBytes in *; u64_lia|done].
  apply Z.leb_le in Hmax. simpl. split; [|split; [done|split; [done|split; [apply Hcount|done]]]].
  split; simpl; try done.
  - unfold depth. split_match; [done|done].
  - unfold bw, bh, comp. destruct (BlockCompressedBytesPerBlock (in_format input) =? 0); simpl; [done|].
    split; by apply H4.
  - replace (if _ =? 0 then _ else _) with unit; [apply Hrow'|].
    unfold unit, comp. by destruct (BlockCompressedBytesPerBlock (in_format input) =? 0).
  - apply Hslice'.
Qed.

(** The levels below [n] follow each other from offset 0 up to [total]. *)
Definition levels_sound (input : GuestImageLayoutInput) (array_layers : Z) (n : nat)
    (mips : list GuestImageMipLayout) (total : Z) : Prop :=
  length mips = 16%nat
  /\ (forall l, (l < n)%nat -> exists m, mips !! l = Some m
        /\ mip_sound input array_layers (Z.of_nat l) m /\ 0 <= ml_byte_count m
        /\ (l = 0%nat -> ml_byte_offset m = 0)
        /\ (forall p, mips !! pred l = Some p -> l <> 0%nat -> ml_byte_offset m = ml_byte_offset p + ml_byte_count p)
        /\ (S l = n -> total = ml_byte_offset m + ml_byte_count m))
  /\ (n = 0%nat -> total = 0) /\ 0 <= total <= kMaxGuestImageLayoutBytes.

Lemma linear_levels_spec input array_layers (n : nat) : forall (done : nat) total mips mips' total',
  input_typed input -> is_u32 array_layers -> (done + n <= 16)%nat ->
  levels_sound input array_layers done mips total ->
  linear_levels n input array_layers (Z.of_nat done) total mips = inr (mips', total') ->
  levels_sound input array_layers (done + n) mips' total'.
Proof.
  induction n as [|n IH]; intros done total mips mips' total' Ht Hal Hn Hs H; simpl in H.
  { injection H as <- <-. by rewrite Nat.add_0_r. }
  destruct (linear_level input array_layers (Z.of_nat done) total) as [|[m t]] eqn:Em; [done|]. simpl in H.
  rewrite Nat2Z.id, add32_small in H by u32_lia. destruct Hs as (El & Hlev & H0 & Htot).
  destruct (linear_level_spec _ _ _ _ _ _ Ht Hal (Nat2Z.is_nonneg done) Htot Em) as (Hm & Eo & -> & Hc & Hmax).
  replace (Z.of_nat done + 1) with (Z.of_nat (S done)) in H by lia.
  rewrite Nat.add_succ_r. apply (IH (S done) _ _ _ _ Ht Hal ltac:(lia)) in H; [done|].
  split; [by rewrite length_insert|]. split; [|split; [done|lia]].
  intros l Hl. destruct (decide (l = done)) as [->|Hne].
  - exists m. rewrite list_lookup_insert_eq by lia. split_and!; [done|done|done| |intros p|lia].
    + intros ->. rewrite Eo. by apply H0.
    + intros Ep Hd. rewrite list_lookup_insert_ne in Ep by lia. rewrite Eo.
      destruct (Hlev (pred done) ltac:(lia)) as (q & Eq & _ & _ & _ & _ & Ht'). rewrite Eq in Ep.
      injection Ep as <-. apply Ht'. lia.
  - destruct (Hlev l ltac:(lia)) as (q & Eq & Hq & Hc' & H0' & Hpred & _). exists q.
    rewrite list_lookup_insert_ne by lia. split_and!; [done..| |lia].
    intros p Ep Hd. rewrite list_lookup_insert_ne in Ep by lia. by apply Hpred.
Qed.

(** The array layers fit 32 bits. *)
Lemma layers_range input layers : input_typed input -> layers_of_type input = inr layers -> is_u32 layers.
Proof.
  intros (_ & _ & _ & _ & _ & Hl & _). unfold layers_of_type.
  destruct (in_image_type input);
    try (intros [_ H]%check_that_bind; injection H as <-; first [done|u32_lia]); try (by intros [= <-]).
  intros [_ H]%check_that_bind. apply or_stop_bind in H as (c & E & H).
  apply check_that_bind in H as [Hc%Z.leb_le H]. injection H as <-.
  apply Multiply_Some in E as [-> _]; [|by apply u32_u64|unfold is_u64; u64_lia]. unfold is_u32 in *. lia.
Qed.

(** The layout of a linear image is sound.  The calculation always ends with a
    layout (nothing is read out of bounds); on success the mip levels have the
    halved dimensions, rows and slices that hold their blocks, and byte counts
    without overflow; they follow each other without gaps from offset 0 to the
    total, which is at most 512 MiB; and the image ends inside the address
    space. *)
Theorem linear_image_sound input :
  input_typed input ->
  exists layout, CalculateGuestImageLayout input = gives layout
  /\ (layout_ok layout = true -> gl_needs_detile layout = false ->
      exists layers, layers_of_type input = inr layers /\ 1 <= in_mip_count input <= 16
      /\ levels_sound input layers (Z.to_nat (in_mip_count input)) (gl_mips layout) (gl_total_bytes layout)
      /\ in_guest_address input + gl_total_bytes layout <= u64_max
      /\ gl_guest_storage_bytes layout = gl_total_bytes layout).
Proof.
  intros Ht. unfold CalculateGuestImageLayout.
  destruct (check_input input) as [f|[]] eqn:Ec; simpl.
  { exists f. split; [done|]. intros Hok. destruct (check_input_fails input f Ec). congruence. }
  destruct (layers_of_type input) as [f|layers] eqn:El.
  { exists f. split; [done|]. intros Hok. destruct (layers_fails input f El). congruence. }
  destruct (bool_decide (in_tile_mode input = kLinear)).
  - eexists. split; [done|]. intros Hok _. exists layers. split; [done|].
    destruct (linear_layout input layers) as [f|layout] eqn:E; simpl in *.
    { destruct (proj1 (linear_layout_fails input layers) f E). congruence. }
    assert (Hcount : 1 <= in_mip_count input <= 16).
    { unfold check_input in Ec. apply check_that_bind in Ec as [H1 Ec]. apply check_that_bind in Ec as [H2 _].
      rewrite negb_true_iff, !orb_false_iff, !Z.eqb_neq in H1. apply Z.leb_le in H2.
      unfold kMaxGuestImageMipLevels in H2. destruct Ht as (_ & _ & _ & _ & _ & _ & Hc & _). u32_lia. }
    split; [done|]. unfold linear_layout in E.
    destruct (linear_levels _ _ _ _ _ _) as [|[mips total]] eqn:Ev; [done|]. simpl in E.
    apply check_that_bind in E as [Ha E]. injection E as <-. simpl.
    pose proof (linear_levels_spec input layers (Z.to_nat (in_mip_count input)) 0 0 (array16 no_mip) mips total Ht (layers_range _ _ Ht El)
      ltac:(simpl; lia)) as Hs. simpl in Hs. specialize (Hs ltac:(split_and!; [done|intros; lia|done|done|done]) Ev).
    split; [done|]. destruct Hs as (_ & _ & _ & Htot). unfold kMaxGuestImageLayoutBytes in Htot.
    rewrite negb_true_iff, Z.gtb_ltb, Z.ltb_ge, sub64_small in Ha by u64_lia. split; [lia|done].
  - destruct (is_plain_render_target input) eqn:Ep; [|eexists; split; [done|]; done].
    destruct (render_target_layout_defined input Ht Ep) as [r Er]. rewrite Er. simpl. eexists. split; [done|].
    intros Hok Hn. destruct (render_target_layout_spec _ _ Ht Ep Er) as [(l & -> & Hl)|(f & -> & Hf)]; simpl in *.
    + destruct Hl as [_ _ _ (rt & _ & -> & _)]. done.
    + congruence.
Qed.
