(* ===== verification/CommandProcessor.v ===== *)
(** The GPU command processor ([src/gpu/command_processor.cpp]): PM4 packets of a
    guest command buffer are decoded into actions that a submission sink
    receives.

    A decoding step acts on the runtime (guest memory, shader registry, register
    files), the sink and the cursor of the command buffer, and may index a span
    out of range, which is undefined in the source: a step is a state
    transformer that can fail ([Decode]).  The loop over the frames of the cursor
    has fuel, and running out of fuel is such a failure too.  A sink is a state
    with a [Submit] function (class [SubmissionSink]); it shares the guest memory
    with the decoder. *)
From S2P Require Import Prelude LittleEndian Words32 Clock SharedBacking GuestMemory EventQueues.

(** ** Data *)

Inductive GpuCommandStatus :=
| cmd_kComplete | cmd_kBlocked | cmd_kInvalidArgument | cmd_kMemoryFault
| cmd_kMalformedPacket | cmd_kUnsupportedPacket | cmd_kResourceLimit.

#[global] Instance GpuCommandStatus_eq_dec : EqDecision GpuCommandStatus.
Proof. solve_decision. Defined.

Definition is_complete (status : GpuCommandStatus) : bool := bool_decide (status = cmd_kComplete).

Inductive GpuRenderSnapshotStatus := render_kNotRequested | render_kReady | render_kUnsupported.

Record GpuRenderSnapshot := mkRender {
  rd_status : GpuRenderSnapshotStatus;
  rd_first_register : Z;
  rd_first_value : Z;
  rd_group_count_x : Z;
  rd_group_count_y : Z;
  rd_group_count_z : Z;
  rd_vertex_count : Z;
  rd_instance_count : Z;
  rd_color_base : Z;
  rd_color_row_pitch_bytes : Z;
  rd_color_width : Z;
  rd_color_height : Z;
  rd_color_format : Z;
  rd_color_write_mask : Z;
  rd_primitive_type : Z;
  rd_cull_mode : Z;
  rd_front_face_clockwise : bool;
  rd_blend_enable : bool;
  rd_blend_control : Z;
  rd_viewport_x_scale_bits : Z;
  rd_viewport_x_offset_bits : Z;
  rd_viewport_y_scale_bits : Z;
  rd_viewport_y_offset_bits : Z;
  rd_viewport_z_min_bits : Z;
  rd_viewport_z_max_bits : Z;
  rd_scissor_left : Z;
  rd_scissor_top : Z;
  rd_scissor_right : Z;
  rd_scissor_bottom : Z;
  rd_depth_enabled : bool;
  rd_depth_write_enabled : bool;
  rd_depth_compare : Z;
  rd_depth_base : Z;
  rd_depth_row_pitch_bytes : Z;
  rd_depth_width : Z;
  rd_depth_height : Z
}.

Inductive GpuRegisterSpace := space_kContext | space_kShader | space_kUserConfig.

(** [static_cast<std::uint64_t>(space)] *)
Definition space_value (space : GpuRegisterSpace) : Z :=
  match space with space_kContext => 0 | space_kShader => 1 | space_kUserConfig => 2 end.

Inductive GpuActionType :=
| act_kNop | act_kRegisterWrite | act_kSetBase | act_kSetIndexBuffer | act_kSetIndexSize
| act_kSetIndexCount | act_kSetNumInstances | act_kDraw | act_kDispatch | act_kPredication
| act_kWriteData | act_kReleaseMemory | act_kEventWrite | act_kWaitMemory | act_kIndirectBuffer
| act_kRewind | act_kLodStats.

#[global] Instance GpuActionType_eq_dec : EqDecision GpuActionType.
Proof. solve_decision. Defined.

Inductive GpuShaderStage := stage_kPixel | stage_kGeometry | stage_kExport | stage_kHull | stage_kLocal | stage_kCompute.
Inductive GpuShaderBindingStatus := binding_kUnregistered | binding_kRegistered.

Record GpuShaderBinding := mkBinding {
  sb_stage : GpuShaderStage;
  sb_status : GpuShaderBindingStatus;
  sb_program_address : Z;
  sb_code_address : Z;
  sb_header_address : Z;
  sb_code_offset_bytes : Z;
  sb_code_size_bytes : Z;
  sb_binary_type : Z
}.

Definition GpuShaderBinding_init : GpuShaderBinding := mkBinding stage_kPixel binding_kUnregistered 0 0 0 0 0 0.

Definition kMaximumGpuActionShaderBindings : Z := 6.

(** [ga_values] has 8 elements and [ga_shader_bindings] 6. *)
Record GpuAction := mkAction {
  ga_type : GpuActionType;
  ga_packet_address : Z;
  ga_packet_dwords : Z;
  ga_opcode : Z;
  ga_packet_register : Z;
  ga_values : list Z;
  ga_value_count : Z;
  ga_payload : list Z;
  ga_shader_bindings : list GpuShaderBinding;
  ga_shader_binding_count : Z;
  ga_render : GpuRenderSnapshot
}.

(** [action.values[index]] for a constant index below 8. *)
Definition action_value (action : GpuAction) (index : nat) : Z := nth index (ga_values action) 0.

Record GpuCommandLimits := mkCommandLimits {
  max_actions : Z;
  max_indirect_depth : Z;
  max_processed_dwords : Z;
  max_buffer_dwords : Z
}.

Definition GpuCommandLimits_init : GpuCommandLimits := mkCommandLimits 4096 8 1000000 1000000.

Record GpuCommandResult := mkCommandResult {
  cr_status : GpuCommandStatus;
  cr_packet_address : Z;
  cr_processed_dwords : Z;
  cr_submitted_actions : Z;
  cr_opcode : Z
}.

Definition GpuCommandResult_init : GpuCommandResult := mkCommandResult cmd_kComplete 0 0 0 0.

Record GpuCommandFrame := mkFrame {
  fr_address : Z;
  fr_dword_count : Z;
  fr_offset : Z;
  fr_words : list Z
}.

Record GpuCommandPendingWait := mkPendingWait {
  pw_packet_address : Z;
  pw_address : Z;
  pw_mask : Z;
  pw_reference : Z;
  pw_packet_dwords : Z;
  pw_opcode : Z;
  pw_function : Z;
  pw_is_64_bit : bool
}.

Record GpuCommandCursor := mkCursor {
  cc_limits : GpuCommandLimits;
  cc_frames : list GpuCommandFrame;
  cc_pending_wait : option GpuCommandPendingWait;
  cc_result : GpuCommandResult;
  cc_terminal : bool
}.

(** ** The shader registry, as far as the decoder asks it *)

Record RegisteredShader := mkRegisteredShader {
  rs_code_address : Z;
  rs_program_address : Z;
  rs_header_address : Z;
  rs_program_offset_bytes : Z;
  rs_code_size_bytes : Z;
  rs_binary_type : Z;
  rs_has_program_binding : bool;
  rs_user_data_address : Z;
  rs_input_semantics_address : Z;
  rs_input_semantics_count : Z
}.

Record ShaderRuntime := mkShaderRuntime {
  sr_records : gmap Z RegisteredShader;
  sr_program_records : gmap Z Z
}.

Inductive ShaderRuntimeStatus :=
| shader_kOk | shader_kInvalidArgument | shader_kMemoryFault | shader_kResourceLimit | shader_kNotRegistered
| shader_kUnsupportedShaderType | shader_kStageMismatch | shader_kCompilationFailed.

Definition LookupProgram (program_address : Z) (s : ShaderRuntime) : option RegisteredShader :=
  match sr_program_records s !! program_address with
  | None => None
  | Some code =>
      match sr_records s !! code with
      | None => None
      | Some record =>
          if negb (rs_has_program_binding record) || negb (rs_program_address record =? program_address)
          then None else Some record
      end
  end.

Definition resolve_binding (s : ShaderRuntime) (b : GpuShaderBinding) : GpuShaderBinding :=
  let reset := mkBinding (sb_stage b) binding_kUnregistered (sb_program_address b) 0 0 0 0 0 in
  if sb_program_address b =? 0 then reset
  else match sr_program_records s !! sb_program_address b with
  | None => reset
  | Some code =>
      match sr_records s !! code with
      | None => reset
      | Some record =>
          if negb (rs_has_program_binding record) || negb (rs_program_address record =? sb_program_address b)
          then reset
          else mkBinding (sb_stage b) binding_kRegistered (sb_program_address b) (rs_code_address record)
                 (rs_header_address record) (rs_program_offset_bytes record) (rs_code_size_bytes record)
                 (rs_binary_type record)
      end
  end.

(** The fault point of the tests is off. *)
Definition ResolveProgramBindings (s : ShaderRuntime) (bindings : list GpuShaderBinding)
    : list GpuShaderBinding * ShaderRuntimeStatus := (map (resolve_binding s) bindings, shader_kOk).

(** ** Constants *)

Definition kPm4TypeMask : Z := 0xc0000000.
Definition kPm4Type2 : Z := 0x80000000.
Definition kPm4Type3 : Z := 0xc0000000.
Definition kPm4Nop : Z := 0x10.
Definition kPm4SetBase : Z := 0x11.
Definition kPm4IndexBufferSize : Z := 0x13.
Definition kPm4DispatchDirect : Z := 0x15.
Definition kPm4DispatchIndirect : Z := 0x16.
Definition kPm4SetPredication : Z := 0x20.
Definition kPm4DrawIndirect : Z := 0x24.
Definition kPm4DrawIndexIndirect : Z := 0x25.
Definition kPm4IndexBase : Z := 0x26.
Definition kPm4DrawIndex : Z := 0x27.
Definition kPm4IndexType : Z := 0x2a.
Definition kPm4DrawIndirectMulti : Z := 0x2c.
Definition kPm4DrawIndexAuto : Z := 0x2d.
Definition kPm4NumInstances : Z := 0x2f.
Definition kPm4DrawIndexOffset : Z := 0x35.
Definition kPm4WriteData : Z := 0x37.
Definition kPm4DrawIndexIndirectMulti : Z := 0x38.
Definition kPm4WaitRegMem : Z := 0x3c.
Definition kPm4DrawIndexMultiInstanced : Z := 0x3a.
Definition kPm4IndirectBuffer : Z := 0x3f.
Definition kPm4EventWrite : Z := 0x46.
Definition kPm4ReleaseMemory : Z := 0x49.
Definition kPm4Rewind : Z := 0x59.
Definition kPm4SetShRegisterIndirect : Z := 0x63.
Definition kPm4SetUcRegisterIndirect : Z := 0x64.
Definition kPm4SetContextRegister : Z := 0x69.
Definition kPm4SetShRegister : Z := 0x76.
Definition kPm4SetUcRegister : Z := 0x79.
Definition kPm4SetUcRegisterIndex : Z := 0x7a.
Definition kPm4GetLodStats : Z := 0x8e.
Definition kPm4SetContextRegisterIndirect : Z := 0x9f.

Definition kPm4WaitMemory32Register : Z := 0x0a.
Definition kPm4WriteDataRegister : Z := 0x15.
Definition kPm4ReleaseMemoryRegister : Z := 0x18.
Definition kPm4ShaderRegistersIndirect : Z := 0x11.
Definition kPm4ContextRegistersIndirect : Z := 0x12.
Definition kPm4UserConfigRegistersIndirect : Z := 0x13.
Definition kPm4WaitMemory64Register : Z := 0x16.
Definition kRegisterSelectorMask : Z := 0x70000000.

Definition kSyntheticDrawInstanceCount : Z := 0xfffffff0.

Definition kCbTargetMask : Z := 0x08e.
Definition kVportScissorTl : Z := 0x094.
Definition kVportScissorBr : Z := 0x095.
Definition kVportZMin : Z := 0x0b4.
Definition kVportZMax : Z := 0x0b5.
Definition kVportXScale : Z := 0x10f.
Definition kCbBlend0Control : Z := 0x1e0.
Definition kDbDepthControl : Z := 0x200.
Definition kPaSuScModeControl : Z := 0x205.
Definition kCbColor0Base : Z := 0x318.
Definition kCbColor0Pitch : Z := 0x319.
Definition kCbColor0Slice : Z := 0x31a.
Definition kCbColor0View : Z := 0x31b.
Definition kCbColor0Info : Z := 0x31c.
Definition kCbColor0Attrib : Z := 0x31d.
Definition kCbColor0Attrib2 : Z := 0x3b0.
Definition kCbColor0Attrib3 : Z := 0x3b8.
Definition kDbDepthSizeXy : Z := 0x007.
Definition kDbZInfo : Z := 0x010.
Definition kDbZWriteBase : Z := 0x014.
Definition kDbDepthSize : Z := 0x016.
Definition kDbZWriteBaseHi : Z := 0x01c.
Definition kVgtPrimitiveType : Z := 0x242.

(** ** Byte and word helpers *)

Definition Gpu_Read32 (bytes : list Z) (offset : Z) : Z := le_value (take 4 (drop (Z.to_nat offset) bytes)).
Definition Gpu_Read64 (bytes : list Z) : Z := le_value (take 8 bytes).

(** The bytes [Write32] and [Write64] store. *)
Definition Gpu_Write32 (value : Z) : list Z :=
  map (fun i => Z.land (Z.shiftr value (Z.of_nat i * 8)) 0xff) (seq 0 4).
Definition Gpu_Write64 (value : Z) : list Z :=
  map (fun i => Z.land (Z.shiftr value (Z.of_nat i * 8)) 0xff) (seq 0 8).

(** [Add]; [None] is the overflow. *)
Definition Gpu_Add (left right : Z) : option Z :=
  if right >? (u64_max - left)%u64 then None else Some (left + right)%u64.

(** Two 32-bit words as one of 64 bits. *)
Definition wide (lo hi : Z) : Z := Z.lor lo (Z.shiftl hi 32).

Definition NormalizeRegisterOffset (raw_offset : Z) : Z := Z.land raw_offset (not32 kRegisterSelectorMask).

(** ** Actions *)

Definition RegisterMap : Type := gmap Z Z.

Definition GpuRenderSnapshot_init : GpuRenderSnapshot :=
  mkRender render_kNotRequested 0 0 0 0 0 0 0 0 0 0 0 0 0 0 0 false false 0 0 0 0 0 0 0 0 0 0 0 false false 0 0 0 0 0.

(** [values] padded to the 8 elements of the array. *)
Definition MakeAction (type : GpuActionType) (packet_address packet_dwords opcode packet_register : Z)
    (values : list Z) : GpuAction :=
  mkAction type packet_address packet_dwords opcode packet_register
    (take 8 (values ++ replicate 8 0)) (Z.min (Z.of_nat (length values)) 8) []
    (replicate 6 GpuShaderBinding_init) 0 GpuRenderSnapshot_init.

Definition with_payload (action : GpuAction) (payload : list Z) : GpuAction :=
  mkAction (ga_type action) (ga_packet_address action) (ga_packet_dwords action) (ga_opcode action)
    (ga_packet_register action) (ga_values action) (ga_value_count action) payload
    (ga_shader_bindings action) (ga_shader_binding_count action) (ga_render action).
Definition with_bindings (action : GpuAction) (bindings : list GpuShaderBinding) (count : Z) : GpuAction :=
  mkAction (ga_type action) (ga_packet_address action) (ga_packet_dwords action) (ga_opcode action)
    (ga_packet_register action) (ga_values action) (ga_value_count action) (ga_payload action)
    bindings count (ga_render action).
Definition with_render (action : GpuAction) (render : GpuRenderSnapshot) : GpuAction :=
  mkAction (ga_type action) (ga_packet_address action) (ga_packet_dwords action) (ga_opcode action)
    (ga_packet_register action) (ga_values action) (ga_value_count action) (ga_payload action)
    (ga_shader_bindings action) (ga_shader_binding_count action) render.

Record ShaderProgramPair := mkProgramPair { pp_stage : GpuShaderStage; pp_lo : Z; pp_hi : Z }.

Definition kGraphicsShaderProgramPairs : list ShaderProgramPair :=
  [mkProgramPair stage_kPixel 0x008 0x009; mkProgramPair stage_kGeometry 0x088 0x089;
   mkProgramPair stage_kExport 0x0c8 0x0c9; mkProgramPair stage_kHull 0x108 0x109;
   mkProgramPair stage_kLocal 0x148 0x149].
Definition kComputeShaderProgramPair : ShaderProgramPair := mkProgramPair stage_kCompute 0x20c 0x20d.

Definition AddProgramBindingSnapshot (shader_registers : RegisterMap) (pair : ShaderProgramPair)
    (action : GpuAction) : GpuAction :=
  match shader_registers !! pp_lo pair, shader_registers !! pp_hi pair with
  | Some lo, Some hi =>
      if ga_shader_binding_count action >=? Z.of_nat (length (ga_shader_bindings action)) then action
      else
        let program_address := Z.lor (Z.shiftl lo 8) (Z.shiftl (Z.land hi 0xff) 40) in
        if program_address =? 0 then action
        else with_bindings action
               (<[Z.to_nat (ga_shader_binding_count action) :=
                  mkBinding (pp_stage pair) binding_kUnregistered program_address 0 0 0 0 0]>
                (ga_shader_bindings action))
               (ga_shader_binding_count action + 1)
  | _, _ => action
  end.

Definition SnapshotProgramBindings (shader_registers : RegisterMap) (action : GpuAction) : GpuAction :=
  let action := with_bindings action (ga_shader_bindings action) 0 in
  match ga_type action with
  | act_kDraw => fold_left (fun a pair => AddProgramBindingSnapshot shader_registers pair a)
                   kGraphicsShaderProgramPairs action
  | act_kDispatch => AddProgramBindingSnapshot shader_registers kComputeShaderProgramPair action
  | _ => action
  end.

(** ** The render state of an action *)

(** Reading registers until one is missing: its number, or the values. *)
Definition fetched (A : Type) : Type := Z + A.
#[global] Instance fetched_ret : MRet fetched := fun A a => inr a.
#[global] Instance fetched_bind : MBind fetched := fun A B f x =>
  match x with inl missing => inl missing | inr a => f a end.
Definition read_register (registers : RegisterMap) (reg : Z) : fetched Z :=
  match registers !! reg with None => inl reg | Some value => inr value end.

(** A snapshot without data: its status and the register that decided it. *)
Definition render_refused (first_register first_value : Z) : GpuRenderSnapshot :=
  mkRender render_kUnsupported first_register first_value
    0 0 0 0 0 0 0 0 0 0 0 0 0 false false 0 0 0 0 0 0 0 0 0 0 0 false false 0 0 0 0 0.

Definition dispatch_ready (action : GpuAction) : GpuRenderSnapshot :=
  mkRender render_kReady 0 0 (action_value action 0) (action_value action 1) (action_value action 2)
    0 0 0 0 0 0 0 0 0 0 false false 0 0 0 0 0 0 0 0 0 0 0 false false 0 0 0 0 0.

(** The registers a draw needs, in the order they are looked up. *)
Record DrawRegisters := mkDrawRegisters {
  dr_base : Z; dr_pitch : Z; dr_slice : Z; dr_view : Z; dr_info : Z; dr_attrib : Z; dr_attrib2 : Z;
  dr_attrib3 : Z; dr_target_mask : Z; dr_blend : Z; dr_mode : Z; dr_scissor_tl : Z; dr_scissor_br : Z;
  dr_xscale : Z; dr_xoffset : Z; dr_yscale : Z; dr_yoffset : Z; dr_zmin : Z; dr_zmax : Z;
  dr_depth_control : Z; dr_primitive : Z; dr_instances : Z
}.

Definition read_draw_registers (context_registers user_config_registers : RegisterMap) : fetched DrawRegisters :=
  let read_context := read_register context_registers in
  let read_user := read_register user_config_registers in
  base ← read_context kCbColor0Base;
  pitch ← read_context kCbColor0Pitch;
  slice ← read_context kCbColor0Slice;
  view ← read_context kCbColor0View;
  info ← read_context kCbColor0Info;
  attrib ← read_context kCbColor0Attrib;
  attrib2 ← read_context kCbColor0Attrib2;
  attrib3 ← read_context kCbColor0Attrib3;
  target_mask ← read_context kCbTargetMask;
  blend ← read_context kCbBlend0Control;
  mode ← read_context kPaSuScModeControl;
  scissor_tl ← read_context kVportScissorTl;
  scissor_br ← read_context kVportScissorBr;
  xscale ← read_context kVportXScale;
  xoffset ← read_context (kVportXScale + 1);
  yscale ← read_context (kVportXScale + 2);
  yoffset ← read_context (kVportXScale + 3);
  zmin ← read_context kVportZMin;
  zmax ← read_context kVportZMax;
  depth_control ← read_context kDbDepthControl;
  primitive ← read_user kVgtPrimitiveType;
  instances ← read_user kSyntheticDrawInstanceCount;
  mret (mkDrawRegisters base pitch slice view info attrib attrib2 attrib3 target_mask blend mode
          scissor_tl scissor_br xscale xoffset yscale yoffset zmin zmax depth_control primitive instances).

(** [(word >> shift) & mask] and [word & (1U << i)]. *)
Definition bits (word shift mask : Z) : Z := Z.land (Z.shiftr word shift) mask.
Definition flag (word i : Z) : bool := negb (Z.land word (Z.shiftl 1 i) =? 0).

Definition color_width (r : DrawRegisters) : Z := bits (dr_attrib2 r) 14 0x3fff + 1.
Definition color_height (r : DrawRegisters) : Z := Z.land (dr_attrib2 r) 0x3fff + 1.
Definition color_row_pitch (r : DrawRegisters) : Z := (Z.land (dr_pitch r) 0x7ff + 1) * 8.

Definition blend_basic (blend : Z) : bool :=
  (Z.land blend 0x1f <=? 10) && (bits blend 5 7 <=? 4) && (bits blend 8 0x1f <=? 10)
  && (bits blend 16 0x1f <=? 10) && (bits blend 21 7 <=? 4) && (bits blend 24 0x1f <=? 10).

(** The checks of the colour state: the register and value reported, if any. *)
Definition check_color (context_registers : RegisterMap) (r : DrawRegisters) : option (Z * Z) :=
  let second_target := default 0 (context_registers !! (kCbColor0Base + 15)) in
  let primitive_type := Z.land (dr_primitive r) 0x3f in
  if negb (Z.land (dr_target_mask r) (not32 0xf) =? 0) then Some (kCbTargetMask, dr_target_mask r)
  else if negb (second_target =? 0) then Some (kCbColor0Base + 15, second_target)
  else if negb (bits (dr_info r) 2 0x1f =? 10) || negb (bits (dr_info r) 8 7 =? 0)
          || negb (bits (dr_info r) 11 3 =? 0)
          || negb (Z.land (dr_info r) (Z.lor (Z.lor (Z.shiftl 1 14) (Z.shiftl 1 28)) (Z.shiftl 1 31)) =? 0)
  then Some (kCbColor0Info, dr_info r)
  else if negb (Z.land (dr_attrib r) 0x1f =? 0) || negb (bits (dr_attrib r) 12 7 =? 0)
          || negb (bits (dr_attrib r) 15 3 =? 0) || negb (dr_attrib3 r =? 0)
          || negb (dr_slice r =? 0) || negb (dr_view r =? 0)
  then Some (if negb (dr_attrib3 r =? 0) then (kCbColor0Attrib3, dr_attrib3 r)
             else (kCbColor0Attrib, dr_attrib r))
  else if (Z.land (dr_mode r) 3 =? 3)
          || negb (Z.land (dr_mode r) (Z.lor (Z.lor (Z.shiftl 1 11) (Z.shiftl 1 12)) (Z.shiftl 1 16)) =? 0)
  then Some (kPaSuScModeControl, dr_mode r)
  else if negb (blend_basic (dr_blend r)) then Some (kCbBlend0Control, dr_blend r)
  else if (primitive_type <? 1) || (primitive_type >? 6) || (primitive_type =? 5)
  then Some (kVgtPrimitiveType, dr_primitive r)
  else if (dr_base r =? 0) || (color_width r =? 0) || (color_height r =? 0)
          || (color_row_pitch r <? color_width r * 4) || (dr_instances r =? 0)
          || negb (Z.shiftr (dr_scissor_tl r) 31 =? 0)
  then Some (kCbColor0Base, dr_base r)
  else None.

(** The snapshot of a draw whose colour state is supported. *)
Definition draw_snapshot (status : GpuRenderSnapshotStatus) (first_register first_value vertex_count : Z)
    (r : DrawRegisters) (depth_enabled depth_write_enabled : bool)
    (depth_compare depth_base depth_row_pitch depth_width depth_height : Z) : GpuRenderSnapshot :=
  mkRender status first_register first_value 0 0 0 vertex_count (dr_instances r)
    (Z.shiftl (dr_base r) 8) (color_row_pitch r) (color_width r) (color_height r) 56
    (Z.land (dr_target_mask r) 0xf) (Z.land (dr_primitive r) 0x3f) (Z.land (dr_mode r) 3)
    (flag (dr_mode r) 2) (flag (dr_blend r) 30) (dr_blend r)
    (dr_xscale r) (dr_xoffset r) (dr_yscale r) (dr_yoffset r) (dr_zmin r) (dr_zmax r)
    (Z.land (dr_scissor_tl r) 0x7fff) (bits (dr_scissor_tl r) 16 0x7fff)
    (Z.land (dr_scissor_br r) 0x7fff) (bits (dr_scissor_br r) 16 0x7fff)
    depth_enabled depth_write_enabled depth_compare depth_base depth_row_pitch depth_width depth_height.

Record DepthRegisters := mkDepthRegisters { dz_info : Z; dz_base : Z; dz_base_hi : Z; dz_size_xy : Z; dz_size : Z }.

Definition read_depth_registers (context_registers : RegisterMap) : fetched DepthRegisters :=
  let read_context := read_register context_registers in
  zinfo ← read_context kDbZInfo;
  zbase ← read_context kDbZWriteBase;
  zbase_hi ← read_context kDbZWriteBaseHi;
  zsize_xy ← read_context kDbDepthSizeXy;
  zsize ← read_context kDbDepthSize;
  mret (mkDepthRegisters zinfo zbase zbase_hi zsize_xy zsize).

(** The depth state of a draw whose colour state is supported.  The register
    reported is [kCbColor0Base] with the opcode, as set before the checks, unless
    a check replaces it. *)
Definition snapshot_depth (context_registers : RegisterMap) (opcode vertex_count : Z) (r : DrawRegisters)
    : GpuRenderSnapshot :=
  let enabled := flag (dr_depth_control r) 1 in
  let write_enabled := flag (dr_depth_control r) 2 in
  let compare := bits (dr_depth_control r) 4 7 in
  let snapshot status reg value := draw_snapshot status reg value vertex_count r enabled write_enabled compare in
  if negb enabled then snapshot render_kReady kCbColor0Base opcode 0 0 0 0
  else match read_depth_registers context_registers with
  | inl missing => snapshot render_kReady missing 0 0 0 0 0
  | inr z =>
      if negb (Z.land (dz_info z) 3 =? 3) || negb (bits (dz_info z) 2 3 =? 0)
         || negb (bits (dz_info z) 20 7 =? 0) || flag (dz_info z) 29 || (dz_base z =? 0)
      then snapshot render_kUnsupported kDbZInfo (dz_info z) 0 0 0 0
      else
        let depth_base := Z.lor (Z.shiftl (dz_base z) 8) (Z.shiftl (Z.land (dz_base_hi z) 0xff) 40) in
        let depth_width := Z.land (dz_size_xy z) 0x3fff + 1 in
        let depth_height := bits (dz_size_xy z) 16 0x3fff + 1 in
        let depth_row_pitch := (Z.land (dz_size z) 0x7ff + 1) * 8 in
        if depth_row_pitch <? depth_width * 4
        then snapshot render_kUnsupported kDbDepthSize (dz_size z) depth_base depth_row_pitch depth_width depth_height
        else snapshot render_kReady kCbColor0Base opcode depth_base depth_row_pitch depth_width depth_height
  end.

Definition SnapshotRenderState (context_registers user_config_registers : RegisterMap) (action : GpuAction)
    : GpuRenderSnapshot :=
  let v := action_value action in
  if bool_decide (ga_type action = act_kDispatch) && (ga_opcode action =? kPm4DispatchDirect)
     && (ga_value_count action >=? 3) && negb (v 0%nat =? 0) && negb (v 1%nat =? 0) && negb (v 2%nat =? 0)
     && (v 0%nat <=? u32_max) && (v 1%nat <=? u32_max) && (v 2%nat <=? u32_max)
  then dispatch_ready action
  else
    let is_draw := bool_decide (ga_type action = act_kDraw) in
    if negb is_draw || negb (ga_opcode action =? kPm4DrawIndexAuto) || (ga_value_count action <? 2)
       || (v 0%nat =? 0) || (v 0%nat >? u32_max)
    then render_refused (if is_draw then kCbColor0Base else 0) (ga_opcode action)
    else match read_draw_registers context_registers user_config_registers with
    | inl missing => render_refused missing 0
    | inr r =>
        match check_color context_registers r with
        | Some (reg, value) => render_refused reg value
        | None =>
            if (Z.land (dr_scissor_br r) 0x7fff <=? Z.land (dr_scissor_tl r) 0x7fff)
               || (bits (dr_scissor_br r) 16 0x7fff <=? bits (dr_scissor_tl r) 16 0x7fff)
            then draw_snapshot render_kUnsupported kVportScissorBr (dr_scissor_br r) (v 0%nat) r
                   false false 0 0 0 0 0
            else snapshot_depth context_registers (ga_opcode action) (v 0%nat) r
        end
    end.

(** ** The runtime, sinks and decoding steps *)

(** The members of [GpuRuntime] that decoding uses. *)
Record GpuRuntime := mkGpuRuntime {
  gr_memory : GuestMemory;
  gr_shader_runtime : ShaderRuntime;
  gr_context_registers : RegisterMap;
  gr_shader_registers : RegisterMap;
  gr_user_config_registers : RegisterMap
}.

(** [GpuSubmissionSink]: a sink has a state of its own and shares the guest
    memory with the decoder. *)
Class SubmissionSink (S : Type) := Submit : GpuAction -> GuestMemory -> S -> GuestMemory * S * GpuCommandStatus.

(** The references of [DecodeContext]: to the members of the runtime, to the
    sink and to the cursor. *)
Record DecodeContext (S : Type) := mkContext {
  dc_runtime : GpuRuntime;
  dc_sink : S;
  dc_cursor : GpuCommandCursor
}.
Arguments mkContext {S}.
Arguments dc_runtime {S}.
Arguments dc_sink {S}.
Arguments dc_cursor {S}.

(** A step; [None] is undefined behaviour. *)
Definition Decode (S A : Type) : Type := DecodeContext S -> option (DecodeContext S * A).
#[global] Instance decode_ret S : MRet (Decode S) := fun A a c => Some (c, a).
#[global] Instance decode_bind S : MBind (Decode S) := fun A B f x c =>
  match x c with None => None | Some (c', a) => f a c' end.

Section decoder.
Context {S : Type} `{!SubmissionSink S}.
Implicit Types (c : DecodeContext S) (cursor : GpuCommandCursor).

Definition get : Decode S (DecodeContext S) := fun c => Some (c, c).
Definition undefined_access {A} : Decode S A := fun _ => None.
Definition modify (f : DecodeContext S -> DecodeContext S) : Decode S unit := fun c => Some (f c, tt).

(** [span[index]] *)
Definition word_at (packet : list Z) (index : Z) : Decode S Z :=
  match (if index <? 0 then None else packet !! Z.to_nat index) with
  | Some word => mret word
  | None => undefined_access
  end.

Definition with_cursor c cursor : DecodeContext S := mkContext (dc_runtime c) (dc_sink c) cursor.
Definition with_memory c m : DecodeContext S :=
  mkContext (mkGpuRuntime m (gr_shader_runtime (dc_runtime c)) (gr_context_registers (dc_runtime c))
    (gr_shader_registers (dc_runtime c)) (gr_user_config_registers (dc_runtime c))) (dc_sink c) (dc_cursor c).
Definition set_result cursor (result : GpuCommandResult) : GpuCommandCursor :=
  mkCursor (cc_limits cursor) (cc_frames cursor) (cc_pending_wait cursor) result (cc_terminal cursor).
Definition set_frames cursor (frames : list GpuCommandFrame) : GpuCommandCursor :=
  mkCursor (cc_limits cursor) frames (cc_pending_wait cursor) (cc_result cursor) (cc_terminal cursor).
Definition set_pending cursor (wait : option GpuCommandPendingWait) : GpuCommandCursor :=
  mkCursor (cc_limits cursor) (cc_frames cursor) wait (cc_result cursor) (cc_terminal cursor).

(** [RegistersFor(context, space)[offset] = value] *)
Definition set_register (space : GpuRegisterSpace) (offset value : Z) c : DecodeContext S :=
  let g := dc_runtime c in
  mkContext
    match space with
    | space_kContext => mkGpuRuntime (gr_memory g) (gr_shader_runtime g) (<[offset := value]> (gr_context_registers g))
                          (gr_shader_registers g) (gr_user_config_registers g)
    | space_kShader => mkGpuRuntime (gr_memory g) (gr_shader_runtime g) (gr_context_registers g)
                         (<[offset := value]> (gr_shader_registers g)) (gr_user_config_registers g)
    | space_kUserConfig => mkGpuRuntime (gr_memory g) (gr_shader_runtime g) (gr_context_registers g)
                             (gr_shader_registers g) (<[offset := value]> (gr_user_config_registers g))
    end (dc_sink c) (dc_cursor c).

Definition Stop (status : GpuCommandStatus) (packet_address opcode : Z) : Decode S GpuCommandStatus := fun c =>
  let r := cc_result (dc_cursor c) in
  Some (with_cursor c (set_result (dc_cursor c)
          (mkCommandResult status packet_address (cr_processed_dwords r) (cr_submitted_actions r) opcode)), status).

(** [sink.Submit(action)] *)
Definition submit (action : GpuAction) : Decode S GpuCommandStatus := fun c =>
  let '(m, sink, status) := Submit action (gr_memory (dc_runtime c)) (dc_sink c) in
  Some (mkContext (dc_runtime (with_memory c m)) sink (dc_cursor c), status).

Definition count_action : Decode S unit := modify (fun c =>
  let r := cc_result (dc_cursor c) in
  with_cursor c (set_result (dc_cursor c)
    (mkCommandResult (cr_status r) (cr_packet_address r) (cr_processed_dwords r)
       (cr_submitted_actions r + 1)%u64 (cr_opcode r)))).

Definition count_dwords (n : Z) : Decode S unit := modify (fun c =>
  let r := cc_result (dc_cursor c) in
  with_cursor c (set_result (dc_cursor c)
    (mkCommandResult (cr_status r) (cr_packet_address r) (cr_processed_dwords r + n)%u64
       (cr_submitted_actions r) (cr_opcode r)))).

(** The copy of an action that a sink receives. *)
Definition enrich (g : GpuRuntime) (action : GpuAction) : GpuAction * ShaderRuntimeStatus :=
  let bound := SnapshotProgramBindings (gr_shader_registers g) action in
  let drawn := with_render bound
    (SnapshotRenderState (gr_context_registers g) (gr_user_config_registers g) action) in
  let count := Z.to_nat (ga_shader_binding_count drawn) in
  let '(resolved, status) := ResolveProgramBindings (gr_shader_runtime g) (take count (ga_shader_bindings drawn)) in
  (with_bindings drawn (resolved ++ drop count (ga_shader_bindings drawn)) (ga_shader_binding_count drawn), status).

Definition is_render_action (action : GpuAction) : bool :=
  match ga_type action with act_kDraw | act_kDispatch => true | _ => false end.

Definition Emit (action : GpuAction) : Decode S GpuCommandStatus :=
  c ← get;
  let stop status := Stop status (ga_packet_address action) (ga_opcode action) in
  let deliver delivered :=
    sink_status ← submit delivered;
    if negb (is_complete sink_status) then stop sink_status
    else _ ← count_action; mret cmd_kComplete in
  if cr_submitted_actions (cc_result (dc_cursor c)) >=? max_actions (cc_limits (dc_cursor c))
  then stop cmd_kResourceLimit
  else if is_render_action action then
    match enrich (dc_runtime c) action with
    | (enriched, shader_kOk) => deliver enriched
    | (_, shader_kResourceLimit) => stop cmd_kResourceLimit
    | (_, _) => stop cmd_kInvalidArgument
    end
  else deliver action.

(** The status and, on success, the words. *)
Definition ReadDwords (address dword_count : Z) : Decode S (GpuCommandStatus * list Z) :=
  c ← get;
  if (address =? 0) || negb (Z.land address 3 =? 0) || (dword_count =? 0)
     || (dword_count >? max_buffer_dwords (cc_limits (dc_cursor c)))
  then status ← Stop cmd_kInvalidArgument address 0; mret (status, [])
  else match Read address (dword_count * 4) (gr_memory (dc_runtime c)) with
  | None => status ← Stop cmd_kMemoryFault address 0; mret (status, [])
  | Some bytes =>
      mret (cmd_kComplete, map (fun i => Gpu_Read32 bytes (Z.of_nat i * 4)) (seq 0 (Z.to_nat dword_count)))
  end.

Definition ReadGuestValue (address : Z) (is_64_bit : bool) : Decode S (option Z) :=
  c ← get;
  mret (if is_64_bit
        then match Read address 8 (gr_memory (dc_runtime c)) with
             | None => None | Some bytes => Some (Gpu_Read64 bytes) end
        else match Read address 4 (gr_memory (dc_runtime c)) with
             | None => None | Some bytes => Some (Gpu_Read32 bytes 0) end).

Definition CompareWait (value reference mask function : Z) : bool :=
  let masked := Z.land value mask in
  if (function =? 0) || (function =? 7) then true
  else if function =? 1 then masked <? reference
  else if function =? 2 then masked <=? reference
  else if function =? 3 then masked =? reference
  else if function =? 4 then negb (masked =? reference)
  else if function =? 5 then masked >=? reference
  else if function =? 6 then masked >? reference
  else true.

(** ** Packets *)

(** What every packet carries: its address, size, opcode and register. *)
Record Packet := mkPacket { pk_address : Z; pk_dwords : Z; pk_opcode : Z; pk_register : Z; pk_words : list Z }.
Implicit Types (pk : Packet).

Definition make_action (type : GpuActionType) pk (values : list Z) : GpuAction :=
  MakeAction type (pk_address pk) (pk_dwords pk) (pk_opcode pk) (pk_register pk) values.
Definition stop pk (status : GpuCommandStatus) : Decode S GpuCommandStatus := Stop status (pk_address pk) (pk_opcode pk).
Definition malformed pk : Decode S GpuCommandStatus := stop pk cmd_kMalformedPacket.
Definition word pk (index : Z) : Decode S Z := word_at (pk_words pk) index.
(** The 64-bit value in two consecutive words, the low one masked. *)
Definition word64 pk (index mask : Z) : Decode S Z :=
  lo ← word pk index; hi ← word pk (index + 1); mret (wide (Z.land lo mask) hi).

Definition ApplyRegisterWrite (space : GpuRegisterSpace) pk (raw_offset value table_address table_index : Z)
    : Decode S GpuCommandStatus :=
  let offset := NormalizeRegisterOffset raw_offset in
  status ← Emit (make_action act_kRegisterWrite pk [space_value space; offset; value; table_address; table_index]);
  if is_complete status then _ ← modify (set_register space offset value); mret status else mret status.

Fixpoint direct_loop (space : GpuRegisterSpace) pk (start : Z) (n : nat) (index : Z) : Decode S GpuCommandStatus :=
  match n with
  | O => mret cmd_kComplete
  | Datatypes.S n' =>
      value ← word pk (2 + index);
      status ← ApplyRegisterWrite space pk (start + index)%u32 value 0 0;
      if negb (is_complete status) then mret status else direct_loop space pk start n' (index + 1)
  end.

Definition ApplyDirectRegisters (space : GpuRegisterSpace) pk : Decode S GpuCommandStatus :=
  if pk_dwords pk <? 3 then malformed pk
  else start ← word pk 1; direct_loop space pk start (Z.to_nat (pk_dwords pk - 2)) 0.

Fixpoint indirect_loop (space : GpuRegisterSpace) pk (table_address : Z) (table : list Z) (n : nat) (index : Z)
    : Decode S GpuCommandStatus :=
  match n with
  | O => mret cmd_kComplete
  | Datatypes.S n' =>
      offset ← word_at table (index * 2);
      value ← word_at table (index * 2 + 1);
      status ← ApplyRegisterWrite space pk offset value table_address index;
      if negb (is_complete status) then mret status
      else indirect_loop space pk table_address table n' (index + 1)
  end.

Definition ApplyIndirectRegisters (space : GpuRegisterSpace) pk (table_address register_count : Z)
    : Decode S GpuCommandStatus :=
  if register_count =? 0 then mret cmd_kComplete
  else
    c ← get;
    if (register_count >? max_buffer_dwords (cc_limits (dc_cursor c)) / 2)
       || (register_count >? max_actions (cc_limits (dc_cursor c)))
    then stop pk cmd_kResourceLimit
    else
      read ← ReadDwords table_address (register_count * 2)%u32;
      let '(read_status, table) := read in
      if negb (is_complete read_status) then stop pk read_status
      else indirect_loop space pk table_address table (Z.to_nat register_count) 0.

Definition ProcessWriteData pk : Decode S GpuCommandStatus :=
  if pk_dwords pk <? 4 then malformed pk
  else
    destination ← word64 pk 2 u32_max;
    control ← word pk 1;
    let data_count := pk_dwords pk - 4 in
    first ← (if data_count >? 0 then word pk 4 else mret 0);
    second ← (if data_count >? 1 then word pk 5 else mret 0);
    Emit (with_payload (make_action act_kWriteData pk [destination; control; data_count; first; second])
            (drop 4 (pk_words pk))).

Definition ProcessReleaseMemory pk : Decode S GpuCommandStatus :=
  if negb (pk_dwords pk =? 8) then malformed pk
  else
    destination ← word64 pk 3 u32_max;
    data ← word64 pk 5 u32_max;
    action ← word pk 1;
    release ← word pk 2;
    context ← word pk 7;
    Emit (make_action act_kReleaseMemory pk [destination; data; action; release; context]).

Definition ProcessEventWrite pk : Decode S GpuCommandStatus :=
  if negb (pk_dwords pk =? 2) && negb (pk_dwords pk =? 4) then malformed pk
  else
    control ← word pk 1;
    address ← (if pk_dwords pk =? 4 then word64 pk 2 (not32 7) else mret 0);
    Emit (make_action act_kEventWrite pk [Z.land control 0x3f; address; control]).

(** The end of [ProcessWait], with the value that was read. *)
Definition finish_wait pk (address mask reference control poll : Z) (is_64_bit : bool) (current : Z)
    : Decode S GpuCommandStatus :=
  let function := Z.land control 7 in
  emit_status ← Emit (make_action act_kWaitMemory pk
                        [address; mask; reference; current; function; if is_64_bit then 64 else 32; control; poll]);
  if negb (is_complete emit_status) then mret emit_status
  else if negb (CompareWait current reference mask function) then
    _ ← modify (fun c => with_cursor c (set_pending (dc_cursor c)
          (Some (mkPendingWait (pk_address pk) address mask reference (pk_dwords pk) (pk_opcode pk)
                   function is_64_bit))));
    stop pk cmd_kBlocked
  else mret cmd_kComplete.

Definition ProcessWait pk (address mask reference control poll : Z) (is_64_bit : bool) : Decode S GpuCommandStatus :=
  let function := Z.land control 7 in
  let finish := finish_wait pk address mask reference control poll is_64_bit in
  if negb (function =? 0) && negb (function =? 7) then
    let alignment := if is_64_bit then 8 else 4 in
    if (address =? 0) || negb (Z.land address (alignment - 1) =? 0) || (mask =? 0) then malformed pk
    else
      value ← ReadGuestValue address is_64_bit;
      match value with
      | None => stop pk cmd_kMemoryFault
      | Some current => finish current
      end
  else finish 0.

Definition SnapshotFrame (address dword_count : Z) : Decode S GpuCommandStatus :=
  c ← get;
  let frames := cc_frames (dc_cursor c) in
  if Z.of_nat (length frames) >? max_indirect_depth (cc_limits (dc_cursor c))
  then Stop cmd_kResourceLimit address kPm4IndirectBuffer
  else if existsb (fun f => (fr_address f =? address) && (fr_dword_count f =? dword_count)) frames
  then Stop cmd_kResourceLimit address kPm4IndirectBuffer
  else
    read ← ReadDwords address dword_count;
    let '(status, words) := read in
    if negb (is_complete status) then mret status
    else
      _ ← modify (fun c => with_cursor c (set_frames (dc_cursor c)
            (cc_frames (dc_cursor c) ++ [mkFrame address dword_count 0 words])));
      mret cmd_kComplete.

Definition ProcessIndirectBuffer pk (target target_dwords control depth branch_value : Z)
    : Decode S GpuCommandStatus :=
  emit_status ← Emit (make_action act_kIndirectBuffer pk [target; target_dwords; control; depth; branch_value]);
  if negb (is_complete emit_status) || (target_dwords =? 0) then mret emit_status
  else SnapshotFrame target target_dwords.

(** The cases of [ProcessFrames] by opcode. *)

Definition process_wait_nop pk : Decode S GpuCommandStatus :=
  let is_64_bit := pk_register pk =? kPm4WaitMemory64Register in
  let expected := if is_64_bit then 9 else 7 in
  if negb (pk_dwords pk =? expected) then malformed pk
  else
    wait_address ← word64 pk 1 u32_max;
    mask ← (if is_64_bit then word64 pk 3 u32_max else word pk 3);
    reference ← (if is_64_bit then word64 pk 5 u32_max else word pk 4);
    control ← word pk (if is_64_bit then 7 else 5);
    poll ← word pk (if is_64_bit then 8 else 6);
    ProcessWait pk wait_address mask reference control poll is_64_bit.

Definition process_wait_reg_mem pk : Decode S GpuCommandStatus :=
  if pk_dwords pk <? 7 then malformed pk
  else
    wait_address ← word64 pk 2 u32_max;
    mask ← word pk 5;
    reference ← word pk 4;
    control ← word pk 1;
    poll ← word pk 6;
    ProcessWait pk wait_address mask reference control poll false.

Definition process_indirect_nop pk : Decode S GpuCommandStatus :=
  if negb (pk_dwords pk =? 4) then malformed pk
  else
    let space := if pk_register pk =? kPm4ContextRegistersIndirect then space_kContext
                 else if pk_register pk =? kPm4ShaderRegistersIndirect then space_kShader
                 else space_kUserConfig in
    table_address ← word64 pk 2 u32_max;
    register_count ← word pk 1;
    ApplyIndirectRegisters space pk table_address register_count.

Definition process_indirect_registers pk : Decode S GpuCommandStatus :=
  if negb (pk_dwords pk =? 5) then malformed pk
  else
    let space := if pk_opcode pk =? kPm4SetContextRegisterIndirect then space_kContext
                 else if pk_opcode pk =? kPm4SetShRegisterIndirect then space_kShader
                 else space_kUserConfig in
    table_address ← word64 pk 1 (not32 3);
    count ← word pk 4;
    ApplyIndirectRegisters space pk table_address (Z.land count 0x3fff).

Definition process_set_base pk (header : Z) : Decode S GpuCommandStatus :=
  if pk_dwords pk <? 4 then malformed pk
  else
    base ← word64 pk 2 u32_max;
    index ← word pk 1;
    Emit (make_action act_kSetBase pk [index; base; bits header 1 1]).

Definition process_index_base pk : Decode S GpuCommandStatus :=
  if pk_dwords pk <? 3 then malformed pk
  else
    index_address ← word64 pk 1 u32_max;
    Emit (make_action act_kSetIndexBuffer pk [index_address]).

Definition process_index_scalar pk : Decode S GpuCommandStatus :=
  if pk_dwords pk <? 2 then malformed pk
  else
    value ← word pk 1;
    Emit (make_action (if pk_opcode pk =? kPm4IndexType then act_kSetIndexSize else act_kSetIndexCount) pk [value]).

Definition process_num_instances pk : Decode S GpuCommandStatus :=
  if pk_dwords pk <? 2 then malformed pk
  else
    count ← word pk 1;
    _ ← modify (set_register space_kUserConfig kSyntheticDrawInstanceCount (Z.max count 1));
    Emit (make_action act_kSetNumInstances pk [Z.max count 1]).

Definition process_dispatch_direct pk : Decode S GpuCommandStatus :=
  if negb (pk_dwords pk =? 5) then malformed pk
  else
    x ← word pk 1; y ← word pk 2; z ← word pk 3; modifier ← word pk 4;
    Emit (make_action act_kDispatch pk [x; y; z; modifier; 0]).

Definition process_dispatch_indirect pk : Decode S GpuCommandStatus :=
  if negb (pk_dwords pk =? 3) && negb (pk_dwords pk =? 4) then malformed pk
  else
    indirect ← (if pk_dwords pk =? 4 then word64 pk 1 u32_max else word pk 1);
    modifier ← word pk (pk_dwords pk - 1);
    Emit (make_action act_kDispatch pk [indirect; modifier; if pk_dwords pk =? 4 then 1 else 0]).

Fixpoint read_words pk (n : nat) (index : Z) : Decode S (list Z) :=
  match n with
  | O => mret []
  | Datatypes.S n' => value ← word pk index; rest ← read_words pk n' (index + 1); mret (value :: rest)
  end.

Definition process_draw pk : Decode S GpuCommandStatus :=
  if pk_dwords pk <? 2 then malformed pk
  else
    values ← read_words pk (Z.to_nat (Z.min (pk_dwords pk - 1) 8)) 1;
    Emit (make_action act_kDraw pk values).

Definition process_predication pk : Decode S GpuCommandStatus :=
  if pk_dwords pk <? 4 then malformed pk
  else
    predicate_address ← word64 pk 2 (not32 0xf);
    control ← word pk 1;
    Emit (make_action act_kPredication pk [predicate_address; control]).

(** A conditional branch: the comparison decides between the two targets, and in
    mode 1 there is no second target. *)
Definition process_branch pk (depth : Z) : Decode S GpuCommandStatus :=
  compare_address ← word64 pk 2 (not32 7);
  mask ← word64 pk 4 u32_max;
  reference ← word64 pk 6 u32_max;
  control ← word pk 1;
  let mode := Z.land control 3 in
  let function := bits control 8 7 in
  if (compare_address =? 0) || negb (Z.land compare_address 7 =? 0) || (mask =? 0) || (function >? 6)
     || (negb (mode =? 1) && negb (mode =? 2))
  then malformed pk
  else
    value ← ReadGuestValue compare_address true;
    match value with
    | None => stop pk cmd_kMemoryFault
    | Some current =>
        let take_then := CompareWait current reference mask function in
        then_target ← word64 pk 8 (not32 3);
        else_target ← word64 pk 11 (not32 3);
        then_dwords ← word pk 10;
        else_dwords ← word pk 13;
        let target := if take_then then then_target else else_target in
        let target_dwords := if take_then then Z.land then_dwords 0xfffff else Z.land else_dwords 0xfffff in
        ProcessIndirectBuffer pk target (if (mode =? 2) || take_then then target_dwords else 0) control depth
          (if take_then then 1 else 0)
    end.

Definition process_indirect_buffer pk (depth : Z) : Decode S GpuCommandStatus :=
  if pk_dwords pk =? 4 then
    target ← word64 pk 1 (not32 3);
    control ← word pk 3;
    ProcessIndirectBuffer pk target (Z.land control 0xfffff) control depth 0
  else if pk_dwords pk =? 14 then process_branch pk depth
  else malformed pk.

Definition process_rewind pk : Decode S GpuCommandStatus :=
  if pk_dwords pk <? 2 then malformed pk
  else value ← word pk 1; Emit (make_action act_kRewind pk [value]).

Definition process_lod_stats pk : Decode S GpuCommandStatus :=
  if negb (pk_dwords pk =? 5) then malformed pk
  else
    destination ← word64 pk 2 u32_max;
    first ← word pk 1;
    last ← word pk 4;
    Emit (make_action act_kLodStats pk [destination; first; last]).

Definition one_of (x : Z) (l : list Z) : bool := existsb (Z.eqb x) l.

Definition process_packet pk (header depth : Z) : Decode S GpuCommandStatus :=
  let opcode := pk_opcode pk in
  let reg := pk_register pk in
  if (opcode =? kPm4Nop) && (reg =? 0) then Emit (make_action act_kNop pk [])
  else if (opcode =? kPm4Nop) && one_of reg [kPm4WaitMemory32Register; kPm4WaitMemory64Register]
  then process_wait_nop pk
  else if opcode =? kPm4WaitRegMem then process_wait_reg_mem pk
  else if (opcode =? kPm4Nop)
          && one_of reg [kPm4ContextRegistersIndirect; kPm4ShaderRegistersIndirect; kPm4UserConfigRegistersIndirect]
  then process_indirect_nop pk
  else if (opcode =? kPm4Nop) && (reg =? kPm4WriteDataRegister) then ProcessWriteData pk
  else if (opcode =? kPm4Nop) && (reg =? kPm4ReleaseMemoryRegister) then ProcessReleaseMemory pk
  else if one_of opcode [kPm4SetContextRegister; kPm4SetShRegister; kPm4SetUcRegister; kPm4SetUcRegisterIndex]
  then ApplyDirectRegisters (if opcode =? kPm4SetContextRegister then space_kContext
                             else if opcode =? kPm4SetShRegister then space_kShader else space_kUserConfig) pk
  else if one_of opcode [kPm4SetContextRegisterIndirect; kPm4SetShRegisterIndirect; kPm4SetUcRegisterIndirect]
  then process_indirect_registers pk
  else if opcode =? kPm4SetBase then process_set_base pk header
  else if opcode =? kPm4IndexBase then process_index_base pk
  else if one_of opcode [kPm4IndexBufferSize; kPm4IndexType] then process_index_scalar pk
  else if opcode =? kPm4NumInstances then process_num_instances pk
  else if opcode =? kPm4DispatchDirect then process_dispatch_direct pk
  else if opcode =? kPm4DispatchIndirect then process_dispatch_indirect pk
  else if one_of opcode [kPm4DrawIndex; kPm4DrawIndexMultiInstanced; kPm4DrawIndexAuto; kPm4DrawIndexOffset;
                         kPm4DrawIndirect; kPm4DrawIndexIndirect; kPm4DrawIndirectMulti; kPm4DrawIndexIndirectMulti]
  then process_draw pk
  else if opcode =? kPm4SetPredication then process_predication pk
  else if opcode =? kPm4WriteData then ProcessWriteData pk
  else if opcode =? kPm4ReleaseMemory then ProcessReleaseMemory pk
  else if opcode =? kPm4EventWrite then ProcessEventWrite pk
  else if opcode =? kPm4IndirectBuffer then process_indirect_buffer pk depth
  else if opcode =? kPm4Rewind then process_rewind pk
  else if opcode =? kPm4GetLodStats then process_lod_stats pk
  else stop pk cmd_kUnsupportedPacket.

(** ** Frames *)

Definition advance_frame (n : Z) (f : GpuCommandFrame) : GpuCommandFrame :=
  mkFrame (fr_address f) (fr_dword_count f) (fr_offset f + n)%u32 (fr_words f).

(** [frames[frame_index].offset += n] *)
Definition advance (frame_index : nat) (n : Z) : Decode S unit := modify (fun c =>
  with_cursor c (set_frames (dc_cursor c) (alter (advance_frame n) frame_index (cc_frames (dc_cursor c))))).

Definition ResumePendingWait : Decode S GpuCommandStatus :=
  c ← get;
  match cc_pending_wait (dc_cursor c) with
  | None => mret cmd_kComplete
  | Some wait =>
      value ← ReadGuestValue (pw_address wait) (pw_is_64_bit wait);
      match value with
      | None => Stop cmd_kMemoryFault (pw_packet_address wait) (pw_opcode wait)
      | Some current =>
          if negb (CompareWait current (pw_reference wait) (pw_mask wait) (pw_function wait))
          then Stop cmd_kBlocked (pw_packet_address wait) (pw_opcode wait)
          else match last (cc_frames (dc_cursor c)) with
          | None => Stop cmd_kMalformedPacket (pw_packet_address wait) (pw_opcode wait)
          | Some back =>
              if fr_offset back >? (fr_dword_count back - pw_packet_dwords wait)%u32
              then Stop cmd_kMalformedPacket (pw_packet_address wait) (pw_opcode wait)
              else
                _ ← advance (length (cc_frames (dc_cursor c)) - 1) (pw_packet_dwords wait);
                _ ← modify (fun c => with_cursor c (set_pending (dc_cursor c) None));
                mret cmd_kComplete
          end
      end
  end.

(** The size of a type-3 packet. *)
Definition packet_size (header : Z) : Z :=
  if Z.land header 0x3fffff00 =? 0x3fff1000 then 1 else bits header 16 0x3fff + 2.

(** One packet of the frame [frame] at [frame_index]. *)
Definition process_at (frame_index : nat) (frame : GpuCommandFrame) : Decode S GpuCommandStatus :=
  match Gpu_Add (fr_address frame) (fr_offset frame * 4) with
  | None => Stop cmd_kMemoryFault (fr_address frame) 0
  | Some packet_address =>
      header ← word_at (fr_words frame) (fr_offset frame);
      let packet_type := Z.land header kPm4TypeMask in
      c ← get;
      let processed := cr_processed_dwords (cc_result (dc_cursor c)) in
      let limit := max_processed_dwords (cc_limits (dc_cursor c)) in
      if packet_type =? kPm4Type2 then
        if processed >=? limit then Stop cmd_kResourceLimit packet_address 0
        else
          _ ← count_dwords 1;
          status ← Emit (MakeAction act_kNop packet_address 1 0 0 []);
          if negb (is_complete status) then mret status
          else _ ← advance frame_index 1; mret cmd_kComplete
      else if negb (packet_type =? kPm4Type3) then Stop cmd_kMalformedPacket packet_address 0
      else
        let opcode := bits header 8 0xff in
        let packet_dwords := packet_size header in
        if (packet_dwords =? 0) || (packet_dwords >? (fr_dword_count frame - fr_offset frame)%u32)
        then Stop cmd_kMalformedPacket packet_address opcode
        else if packet_dwords >? (limit - processed)%u64 then Stop cmd_kResourceLimit packet_address opcode
        else
          _ ← count_dwords packet_dwords;
          let words := take (Z.to_nat packet_dwords) (drop (Z.to_nat (fr_offset frame)) (fr_words frame)) in
          status ← process_packet (mkPacket packet_address packet_dwords opcode (bits header 2 0x3f) words)
                     header (Z.of_nat frame_index);
          if negb (is_complete status) then mret status
          else _ ← advance frame_index packet_dwords; mret cmd_kComplete
  end.

Fixpoint frames_loop (fuel : nat) : Decode S GpuCommandStatus :=
  match fuel with
  | O => undefined_access
  | Datatypes.S fuel' =>
      c ← get;
      let frames := cc_frames (dc_cursor c) in
      match last frames with
      | None => mret cmd_kComplete
      | Some frame =>
          if fr_offset frame =? fr_dword_count frame then
            _ ← modify (fun c => with_cursor c (set_frames (dc_cursor c) (removelast (cc_frames (dc_cursor c)))));
            frames_loop fuel'
          else
            status ← process_at (length frames - 1) frame;
            if negb (is_complete status) then mret status else frames_loop fuel'
      end
  end.

(** Every packet takes at least one of the dwords that may still be processed
    and adds at most one frame. *)
Definition frames_fuel cursor : nat :=
  Z.to_nat (2 * (max_processed_dwords (cc_limits cursor) - cr_processed_dwords (cc_result cursor)))
  + length (cc_frames cursor) + 1.

Definition ProcessFrames : Decode S GpuCommandStatus :=
  wait_status ← ResumePendingWait;
  if negb (is_complete wait_status) then mret wait_status
  else c ← get; frames_loop (frames_fuel (dc_cursor c)).

Definition set_terminal cursor (terminal : bool) : GpuCommandCursor :=
  mkCursor (cc_limits cursor) (cc_frames cursor) (cc_pending_wait cursor) (cc_result cursor) terminal.
Definition set_status (result : GpuCommandResult) (status : GpuCommandStatus) : GpuCommandResult :=
  mkCommandResult status (cr_packet_address result) (cr_processed_dwords result) (cr_submitted_actions result)
    (cr_opcode result).

(** The result is cleared before a buffer is resumed. *)
Definition restart cursor : GpuCommandCursor :=
  let r := cc_result cursor in
  set_result cursor (mkCommandResult cmd_kComplete 0 (cr_processed_dwords r) (cr_submitted_actions r) 0).

Definition ResumeCommandBuffer cursor (g : GpuRuntime) (sink : S)
    : option (GpuRuntime * S * GpuCommandCursor * GpuCommandResult) :=
  if cc_terminal cursor then Some (g, sink, cursor, cc_result cursor)
  else
    match ProcessFrames (mkContext g sink (restart cursor)) with
    | None => None
    | Some (c, status) =>
        let after := set_result (dc_cursor c) (set_status (cc_result (dc_cursor c)) status) in
        let done := set_terminal after (negb (bool_decide (status = cmd_kBlocked))) in
        Some (dc_runtime c, dc_sink c, done, cc_result done)
    end.
End decoder.

(** ** Sinks *)

Record GpuActionTrace := mkTrace { tr_capacity : Z; tr_actions : list GpuAction }.
Definition GpuActionTrace_init (capacity : Z) : GpuActionTrace := mkTrace capacity [].
Definition Trace_Submit (action : GpuAction) (t : GpuActionTrace) : GpuActionTrace * GpuCommandStatus :=
  if Z.of_nat (length (tr_actions t)) >=? tr_capacity t then (t, cmd_kResourceLimit)
  else (mkTrace (tr_capacity t) (tr_actions t ++ [action]), cmd_kComplete).
Definition Trace_Clear (t : GpuActionTrace) : GpuActionTrace := mkTrace (tr_capacity t) [].
#[global] Instance trace_sink : SubmissionSink GpuActionTrace :=
  fun action m t => let '(t', status) := Trace_Submit action t in (m, t', status).

Record GpuActionRing := mkRing {
  ri_capacity : Z;
  ri_next : Z;
  ri_dropped_count : Z;
  ri_actions : list GpuAction
}.
Definition GpuActionRing_init (capacity : Z) : GpuActionRing := mkRing capacity 0 0 [].
(** [next_] is an index of the vector whenever the vector is full. *)
Definition Ring_Submit (action : GpuAction) (r : GpuActionRing) : GpuActionRing * GpuCommandStatus :=
  if ri_capacity r =? 0 then (r, cmd_kResourceLimit)
  else if Z.of_nat (length (ri_actions r)) <? ri_capacity r
  then (mkRing (ri_capacity r) (ri_next r) (ri_dropped_count r) (ri_actions r ++ [action]), cmd_kComplete)
  else (mkRing (ri_capacity r) ((ri_next r + 1) mod ri_capacity r) (ri_dropped_count r + 1)%u64
          (<[Z.to_nat (ri_next r) := action]> (ri_actions r)), cmd_kComplete).
Definition Ring_size (r : GpuActionRing) : Z := Z.of_nat (length (ri_actions r)).
Definition Ring_At (index : Z) (r : GpuActionRing) : option GpuAction :=
  if index >=? Z.of_nat (length (ri_actions r)) then None
  else
    let physical := if Z.of_nat (length (ri_actions r)) <? ri_capacity r then index
                    else (ri_next r + index) mod ri_capacity r in
    ri_actions r !! Z.to_nat physical.
Definition Ring_Clear (r : GpuActionRing) : GpuActionRing := mkRing (ri_capacity r) 0 0 [].
#[global] Instance ring_sink : SubmissionSink GpuActionRing :=
  fun action m r => let '(r', status) := Ring_Submit action r in (m, r', status).

Record GpuEventSubmissionSink (D : Type) := mkEventSink { es_event_queues : option EventQueueService; es_downstream : D }.
Arguments mkEventSink {D}.
Arguments es_event_queues {D}.
Arguments es_downstream {D}.

Definition Event_Submit `{ClockSource} {D} `{!SubmissionSink D} (action : GpuAction) (m : GuestMemory)
    (s : GpuEventSubmissionSink D) : GuestMemory * GpuEventSubmissionSink D * GpuCommandStatus :=
  let downstream :=
    let '(m', d, status) := Submit action m (es_downstream s) in (m', mkEventSink (es_event_queues s) d, status) in
  if negb (bool_decide (ga_type action = act_kEventWrite)) then downstream
  else if (ga_value_count action <? 1) || (action_value action 0 >? 0x3f) then (m, s, cmd_kMalformedPacket)
  else match es_event_queues s with
  | None => (m, s, cmd_kUnsupportedPacket)
  | Some queues =>
      let '(m', s', status) := downstream in
      if negb (is_complete status) then (m', s', status)
      else (m', mkEventSink (Some (TriggerGraphicsEvents (action_value action 0) queues).1) (es_downstream s'),
            cmd_kComplete)
  end.
#[global] Instance event_sink `{ClockSource} {D} `{!SubmissionSink D} : SubmissionSink (GpuEventSubmissionSink D) :=
  Event_Submit.

Record GpuMemorySubmissionSink (D : Type) := mkMemorySink { ms_next_timestamp : Z; ms_downstream : D }.
Arguments mkMemorySink {D}.
Arguments ms_next_timestamp {D}.
Arguments ms_downstream {D}.

Section memory_sink.
Context {D : Type} `{!SubmissionSink D}.
Implicit Types (action : GpuAction) (m : GuestMemory) (s : GpuMemorySubmissionSink D).

Definition submit_downstream action m s : GuestMemory * GpuMemorySubmissionSink D * GpuCommandStatus :=
  let '(m', d, status) := Submit action m (ms_downstream s) in (m', mkMemorySink (ms_next_timestamp s) d, status).

(** [memory_.Write(address, bytes) ? kComplete : kMemoryFault] *)
Definition store_bytes (address : Z) (bytes : list Z) m s : GuestMemory * GpuMemorySubmissionSink D * GpuCommandStatus :=
  let '(m', ok) := Write address bytes m in (m', s, if ok then cmd_kComplete else cmd_kMemoryFault).

Definition release_memory action m s : GuestMemory * GpuMemorySubmissionSink D * GpuCommandStatus :=
  let v := action_value action in
  let standard_packet := ga_opcode action =? kPm4ReleaseMemory in
  let wrapper_packet := (ga_opcode action =? kPm4Nop) && (ga_packet_register action =? kPm4ReleaseMemoryRegister) in
  if ga_value_count action <? 5 then (m, s, cmd_kMalformedPacket)
  else if negb standard_packet && negb wrapper_packet then (m, s, cmd_kMalformedPacket)
  else
    let action_control := to_u32 (v 2%nat) in
    let release_control := to_u32 (v 3%nat) in
    let kyty_wrapper := wrapper_packet && ((bits action_control 8 7 =? 5) || (bits action_control 8 7 =? 6)) in
    let destination := if standard_packet || kyty_wrapper then bits release_control 16 3 else 0 in
    let data_selection := if standard_packet || kyty_wrapper then bits release_control 29 7
                          else bits release_control 16 0xff in
    if (data_selection >? 5) || (negb standard_packet && (data_selection =? 4)) then (m, s, cmd_kMalformedPacket)
    else if data_selection =? 5 then (m, s, cmd_kUnsupportedPacket)
    else if (data_selection =? 0) || (destination >? 1) || (v 0%nat =? 0) then submit_downstream action m s
    else if negb (Z.land (v 0%nat) 3 =? 0) then (m, s, cmd_kMalformedPacket)
    else
      let '(m1, s1, status) := submit_downstream action m s in
      if negb (is_complete status) then (m1, s1, status)
      else if data_selection =? 1 then store_bytes (v 0%nat) (Gpu_Write32 (to_u32 (v 1%nat))) m1 s1
      else if data_selection =? 2 then store_bytes (v 0%nat) (Gpu_Write64 (v 1%nat)) m1 s1
      else store_bytes (v 0%nat) (Gpu_Write64 (ms_next_timestamp s1)) m1
             (mkMemorySink (ms_next_timestamp s1 + 1)%u64 (ms_downstream s1)).

Definition write_data action m s : GuestMemory * GpuMemorySubmissionSink D * GpuCommandStatus :=
  let destination_address := action_value action 0 in
  let control := to_u32 (action_value action 1) in
  let standard_packet := ga_opcode action =? kPm4WriteData in
  let agc_packet := (ga_opcode action =? kPm4Nop) && (ga_packet_register action =? kPm4WriteDataRegister) in
  if (ga_value_count action <? 3) || negb (Z.of_nat (length (ga_payload action)) =? action_value action 2)
  then (m, s, cmd_kMalformedPacket)
  else if negb standard_packet && negb agc_packet then (m, s, cmd_kMalformedPacket)
  else
    let destination := if standard_packet then bits control 8 0xf else Z.land control 0xff in
    if negb (one_of destination [1; 2; 4; 5]) then submit_downstream action m s
    else if (destination_address =? 0) || negb (Z.land destination_address 3 =? 0) then (m, s, cmd_kMalformedPacket)
    else
      let '(m1, s1, status) := submit_downstream action m s in
      if negb (is_complete status) then (m1, s1, status)
      else match last (ga_payload action) with
      | None => (m1, s1, cmd_kComplete)
      | Some back =>
          let increment_address := if standard_packet then negb (flag control 16) else bits control 16 0xff =? 0 in
          if negb increment_address then store_bytes destination_address (Gpu_Write32 back) m1 s1
          else store_bytes destination_address (concat (map Gpu_Write32 (ga_payload action))) m1 s1
      end.

Definition Memory_Submit action m s : GuestMemory * GpuMemorySubmissionSink D * GpuCommandStatus :=
  match ga_type action with
  | act_kReleaseMemory => release_memory action m s
  | act_kWriteData => write_data action m s
  | _ => submit_downstream action m s
  end.
#[global] Instance memory_sink : SubmissionSink (GpuMemorySubmissionSink D) := Memory_Submit.
End memory_sink.

(** ** The interface of the runtime *)

Definition BeginCommandBuffer (address dword_count : Z) (limits : GpuCommandLimits) (g : GpuRuntime)
    : option GpuCommandCursor :=
  let cursor := mkCursor limits [] None GpuCommandResult_init false in
  if (address =? 0) || negb (Z.land address 3 =? 0) || (dword_count =? 0) || (max_actions limits =? 0)
     || (max_buffer_dwords limits =? 0) || (max_processed_dwords limits =? 0)
  then Some (mkCursor limits [] None (mkCommandResult cmd_kInvalidArgument address 0 0 0) true)
  else match SnapshotFrame address dword_count (mkContext g (GpuActionTrace_init 0) cursor) with
  | None => None
  | Some (c, status) =>
      let after := set_result (dc_cursor c) (set_status (cc_result (dc_cursor c)) status) in
      Some (set_terminal after (negb (is_complete status)))
  end.

Definition ProcessCommandBuffer {S} `{!SubmissionSink S} (address dword_count : Z) (limits : GpuCommandLimits)
    (g : GpuRuntime) (sink : S) : option (GpuRuntime * S * GpuCommandResult) :=
  match BeginCommandBuffer address dword_count limits g with
  | None => None
  | Some cursor =>
      match ResumeCommandBuffer cursor g sink with
      | None => None
      | Some (g', sink', _, result) => Some (g', sink', result)
      end
  end.

Definition ReadRegister (space : GpuRegisterSpace) (offset : Z) (g : GpuRuntime) : option Z :=
  let registers := match space with
                   | space_kShader => gr_shader_registers g
                   | space_kUserConfig => gr_user_config_registers g
                   | space_kContext => gr_context_registers g
                   end in
  registers !! NormalizeRegisterOffset offset.
