(* ===== verification/CommandProcessorProps.v ===== *)
(** The command processor is safe and exact: it never indexes a packet or a frame
    out of range and always ends within its limits, and every word of every
    command buffer it enters is processed once, also when it blocks and is
    resumed.  Also what the sinks do. *)
From S2P Require Import Prelude LittleEndian Words32 Clock SharedBacking Ranges GuestMemory GuestMemoryMap.
From S2P Require Import GuestMemoryOps GuestMemoryData GuestMemoryWrite GuestBlocks Ampr EventQueues CommandProcessor.

(** ** Memory and actions *)

Definition memory_ok (m : GuestMemory) : Prop := gm_ok m /\ holds_bytes m.

Record action_ok (a : GpuAction) : Prop := {
  ao_values : Forall is_u64 (ga_values a);
  ao_payload : Forall is_u32 (ga_payload a)
}.

Lemma nth_zero (P : Z -> Prop) l i : P 0 -> Forall P l -> P (nth i l 0).
Proof.
  intros H0 Hl. revert i. induction Hl as [|x l Hx Hl IH]; intros [|i]; simpl; auto.
Qed.

Lemma action_value_u64 a i : action_ok a -> is_u64 (action_value a i).
Proof. intros [Hv _]. unfold action_value. apply (nth_zero is_u64); [u64_lia|done]. Qed.

Lemma MakeAction_ok type a n o r values : Forall is_u64 values -> action_ok (MakeAction type a n o r values).
Proof.
  intros Hv. split; cbn [MakeAction ga_values ga_payload]; [|done]. apply Forall_take, Forall_app. split; [done|].
  apply Forall_replicate. u64_lia.
Qed.

Lemma word_u64 x : is_u32 x -> is_u64 x.
Proof. unfold is_u32, u32_max. u64_lia. Qed.

Lemma land_mask x mask : 0 <= mask -> 0 <= Z.land x mask <= mask.
Proof.
  intros Hm. split; [apply Z.land_nonneg; lia|].
  assert (E : mask = Z.land x mask + Z.land (Z.lnot x) mask).
  { rewrite Z.add_nocarry_lxor; apply Z.bits_inj'; intros i Hi;
      rewrite ?Z.lxor_spec, ?Z.land_spec, ?Z.lnot_spec, ?Z.bits_0 by done; by destruct (Z.testbit x i), (Z.testbit mask i). }
  assert (0 <= Z.land (Z.lnot x) mask) by (apply Z.land_nonneg; lia). lia.
Qed.

Lemma land_u32 x mask : is_u32 mask -> is_u32 (Z.land x mask).
Proof. intros Hm. pose proof (land_mask x mask). u32_lia. Qed.

Lemma bits_u32 x shift mask : is_u32 mask -> is_u32 (bits x shift mask).
Proof. apply land_u32. Qed.

Lemma wide_add lo hi : is_u32 lo -> wide lo hi = lo + hi * 2 ^ 32.
Proof.
  intros Hl. unfold wide. rewrite Z.shiftl_mul_pow2 by lia. rewrite <- Z.lxor_lor, <- Z.add_nocarry_lxor; [done| |].
  all: apply Z.bits_inj'; intros i Hi; rewrite Z.land_spec, Z.bits_0; destruct (decide (i < 32)).
  all: try (rewrite (Z.mul_pow2_bits_low hi) by done; apply andb_false_r).
  all: rewrite (Z.bits_above_log2 lo), andb_false_l; [done|u32_lia|].
  all: destruct (decide (lo = 0)) as [->|]; [cbn; lia|].
  all: apply Z.lt_le_trans with 32; [apply Z.log2_lt_pow2|]; u32_lia.
Qed.

Lemma wide_u64 lo hi : is_u32 lo -> is_u32 hi -> is_u64 (wide lo hi).
Proof. intros Hl Hh. rewrite wide_add by done. unfold is_u32, u32_max in *. u64_lia. Qed.

Lemma memory_write address (bytes : list Z) m :
  memory_ok m -> is_u64 address -> Forall is_byte bytes -> memory_ok (Write address bytes m).1.
Proof. intros [Hm Hb] Ha Hs. by apply Write_holds_bytes. Qed.

(** ** Reasoning about steps *)

(** The step is defined and its result and final context satisfy [Q]. *)
Definition wp {S A} (x : Decode S A) (Q : A -> DecodeContext S -> Prop) (c : DecodeContext S) : Prop :=
  match x c with None => False | Some (c', a) => Q a c' end.

(** The calls of a sink, with its answers. *)
Abbreviation history := (list (GpuAction * GpuCommandStatus)).

Section steps.
Context {S : Type} `{!SubmissionSink S}.
Implicit Types (c : DecodeContext S) (pk : Packet) (st : GpuCommandStatus).

Lemma wp_mono {A} (x : Decode S A) (Q R : A -> DecodeContext S -> Prop) c :
  wp x Q c -> (forall a c', Q a c' -> R a c') -> wp x R c.
Proof. unfold wp. destruct (x c) as [[c' a]|]; auto. Qed.

Lemma wp_bind {A B} (x : Decode S A) (f : A -> Decode S B) Q c :
  wp x (fun a c' => wp (f a) Q c') c -> wp (mbind f x) Q c.
Proof. unfold wp, mbind, decode_bind. destruct (x c) as [[c' a]|]; done. Qed.

Lemma wp_then {A B} (x : Decode S A) (f : A -> Decode S B) P Q c :
  wp x P c -> (forall a c', P a c' -> wp (f a) Q c') -> wp (mbind f x) Q c.
Proof. intros Hx Hf. apply wp_bind. by eapply wp_mono. Qed.

Lemma wp_ret {A} (a : A) (Q : A -> DecodeContext S -> Prop) c : Q a c -> wp (mret a) Q c.
Proof. done. Qed.

Lemma wp_word pk i (Q : Z -> DecodeContext S -> Prop) c :
  Forall is_u32 (pk_words pk) -> 0 <= i < Z.of_nat (length (pk_words pk)) ->
  (forall w, is_u32 w -> Q w c) -> wp (word pk i) Q c.
Proof.
  intros Hw Hi HQ. unfold word, word_at. rewrite (proj2 (Z.ltb_ge i 0)) by lia.
  destruct (lookup_lt_is_Some_2 (pk_words pk) (Z.to_nat i)) as [w Ew]; [lia|]. rewrite Ew.
  apply wp_ret, HQ. by apply (Forall_lookup_1 _ _ _ _ Hw Ew).
Qed.

Lemma wp_word64 pk i mask (Q : Z -> DecodeContext S -> Prop) c :
  Forall is_u32 (pk_words pk) -> is_u32 mask -> 0 <= i -> i + 1 < Z.of_nat (length (pk_words pk)) ->
  (forall w, is_u64 w -> Q w c) -> wp (word64 pk i mask) Q c.
Proof.
  intros Hw Hm Hi Hl HQ. unfold word64. apply wp_bind, wp_word; [done|lia|]. intros lo Hlo.
  apply wp_bind, wp_word; [done|lia|]. intros hi Hhi. apply wp_ret, HQ, wide_u64; [by apply land_u32|done].
Qed.

(** ** What decoding keeps *)

Record limits_ok (l : GpuCommandLimits) : Prop := {
  lo_actions : is_u64 (max_actions l);
  lo_depth : is_u32 (max_indirect_depth l);
  lo_processed : is_u64 (max_processed_dwords l);
  lo_buffer : is_u32 (max_buffer_dwords l)
}.

Record frame_ok (l : GpuCommandLimits) (f : GpuCommandFrame) : Prop := {
  fo_address : is_u64 (fr_address f);
  fo_count : Z.of_nat (length (fr_words f)) = fr_dword_count f;
  fo_limit : fr_dword_count f <= max_buffer_dwords l;
  fo_offset : 0 <= fr_offset f <= fr_dword_count f;
  fo_words : Forall is_u32 (fr_words f)
}.

Abbreviation submitted c := (cr_submitted_actions (cc_result (dc_cursor c))).
Abbreviation processed c := (cr_processed_dwords (cc_result (dc_cursor c))).
Abbreviation frames c := (cc_frames (dc_cursor c)).

(** The memory is sound, the limits are and the number of actions is below its
    limit. *)
Record live c : Prop := {
  lv_memory : memory_ok (gr_memory (dc_runtime c));
  lv_limits : limits_ok (cc_limits (dc_cursor c));
  lv_submitted : 0 <= submitted c <= max_actions (cc_limits (dc_cursor c))
}.

(** Only the registers, the memory, the sink and the count of actions change. *)
Record calm c c' : Prop := {
  qu_live : live c';
  qu_limits : cc_limits (dc_cursor c') = cc_limits (dc_cursor c);
  qu_frames : frames c' = frames c;
  qu_pending : cc_pending_wait (dc_cursor c') = cc_pending_wait (dc_cursor c);
  qu_terminal : cc_terminal (dc_cursor c') = cc_terminal (dc_cursor c);
  qu_processed : processed c' = processed c;
  qu_grows : submitted c <= submitted c'
}.

(** What a sink has to keep: a sound memory. *)
Class SinkKeepsMemory := sink_memory a m s :
  action_ok a -> memory_ok m -> memory_ok (Submit a m s).1.1.
Definition sink_blocks : Prop := exists a m s, (Submit a m s).2 = cmd_kBlocked.

(** A record of the calls of a sink and of its answers. *)
Definition records (log : S -> history) : Prop := forall a m s,
  log (Submit a m s).1.2 = log s ++ [(a, (Submit a m s).2)].

(** The dwords of the buffer that an action enters. *)
Definition entered_dwords (a : GpuAction) : Z :=
  match ga_type a with act_kIndirectBuffer => action_value a 1 | _ => 0 end.

(** Over a history: the dwords that the accepted actions enter, those of the
    packets whose action the sink blocked, and the number of accepted actions. *)
Fixpoint entered (l : history) : Z :=
  match l with
  | [] => 0
  | (a, cmd_kComplete) :: rest => entered_dwords a + entered rest
  | _ :: rest => entered rest
  end.
Fixpoint repeated (l : history) : Z :=
  match l with
  | [] => 0
  | (a, cmd_kBlocked) :: rest => ga_packet_dwords a + repeated rest
  | _ :: rest => repeated rest
  end.
Fixpoint accepted_calls (l : history) : Z :=
  match l with
  | [] => 0
  | (_, cmd_kComplete) :: rest => 1 + accepted_calls rest
  | _ :: rest => accepted_calls rest
  end.

Lemma history_app l1 l2 :
  entered (l1 ++ l2) = entered l1 + entered l2 /\ repeated (l1 ++ l2) = repeated l1 + repeated l2 /\
  accepted_calls (l1 ++ l2) = accepted_calls l1 + accepted_calls l2.
Proof. induction l1 as [|[a st] l1 (IH1 & IH2 & IH3)]; [done|]. destruct st; simpl; lia. Qed.

(** Between two contexts the sink was called so that [n] dwords became due, and
    every accepted action was counted. *)
Definition accepted c c' (n : Z) : Prop := forall log, records log ->
  exists l, log (dc_sink c') = log (dc_sink c) ++ l /\ entered l + repeated l = n /\
    submitted c' = submitted c + accepted_calls l.

Lemma calm_refl c : live c -> calm c c.
Proof. by split. Qed.
Lemma calm_trans c1 c2 c3 : calm c1 c2 -> calm c2 c3 -> calm c1 c3.
Proof. intros [] []. split; [done|congruence..|lia]. Qed.

Lemma accepted_refl c c' : dc_sink c' = dc_sink c -> submitted c' = submitted c -> accepted c c' 0.
Proof. intros E1 E2 log _. exists []. rewrite E1, E2, app_nil_r. simpl. split_and!; [done|done|lia]. Qed.
Lemma accepted_trans c1 c2 c3 n1 n2 : accepted c1 c2 n1 -> accepted c2 c3 n2 -> accepted c1 c3 (n1 + n2).
Proof.
  intros H1 H2 log Hlog. destruct (H1 log Hlog) as (l1 & E1 & N1 & K1), (H2 log Hlog) as (l2 & E2 & N2 & K2).
  destruct (history_app l1 l2) as (A1 & A2 & A3). exists (l1 ++ l2). rewrite E2, E1, app_assoc, A1, A2, A3, K2, K1.
  split_and!; [done|lia|lia].
Qed.

(** A simple packet of [n] dwords: on success its actions enter no buffer, and
    when the sink blocks one the packet is still due. *)
Definition simple_post (n : Z) c st c' : Prop :=
  calm c c' /\ (st = cmd_kComplete -> accepted c c' 0) /\
  (st = cmd_kBlocked -> sink_blocks /\ accepted c c' n).

Lemma simple_chain n c c1 st c' :
  calm c c1 -> accepted c c1 0 -> simple_post n c1 st c' -> simple_post n c st c'.
Proof.
  intros Hq Hl (Hq' & Hl' & Hb). split_and!; [by eapply calm_trans| |].
  - intros E. by apply (accepted_trans c c1 c' 0 0); [|apply Hl'].
  - intros E. destruct (Hb E) as [Hs Ha]. split; [done|]. by apply (accepted_trans c c1 c' 0 n).
Qed.

Lemma wp_Stop st a o c (Q : GpuCommandStatus -> DecodeContext S -> Prop) :
  live c -> (forall c', calm c c' -> dc_sink c' = dc_sink c -> submitted c' = submitted c -> Q st c') ->
  wp (Stop st a o) Q c.
Proof. intros [H1 H2 H3] HQ. unfold wp, Stop. apply HQ; [|done|done]. by split; [split|..]. Qed.

Lemma Stop_simple n st a o c :
  live c -> st <> cmd_kComplete -> st <> cmd_kBlocked -> wp (Stop st a o) (simple_post n c) c.
Proof. intros Hc H1 H2. apply wp_Stop; [done|]. intros c' Hq _ _. by split_and!. Qed.

Lemma malformed_simple n pk c : live c -> wp (malformed pk) (simple_post n c) c.
Proof. intros Hc. by apply Stop_simple. Qed.

(** ** Emitting actions *)

Context `{Hkeeps : !SinkKeepsMemory}.

Lemma bindings_fields r pairs a :
  let b := fold_left (fun a pair => AddProgramBindingSnapshot r pair a) pairs a in
  ga_type b = ga_type a /\ ga_values b = ga_values a /\ ga_payload b = ga_payload a /\
  ga_packet_dwords b = ga_packet_dwords a.
Proof.
  revert a. induction pairs as [|pair pairs IH]; intros a; simpl; [done|].
  destruct (IH (AddProgramBindingSnapshot r pair a)) as (-> & -> & -> & ->).
  unfold AddProgramBindingSnapshot. destruct (r !! pp_lo pair), (r !! pp_hi pair); try done.
  by repeat case_match.
Qed.

Lemma enrich_fields g a :
  ga_type (enrich g a).1 = ga_type a /\ ga_values (enrich g a).1 = ga_values a /\
  ga_payload (enrich g a).1 = ga_payload a /\ ga_packet_dwords (enrich g a).1 = ga_packet_dwords a.
Proof.
  unfold enrich. simpl. set (b := SnapshotProgramBindings _ _).
  assert (H : ga_type b = ga_type a /\ ga_values b = ga_values a /\ ga_payload b = ga_payload a /\
    ga_packet_dwords b = ga_packet_dwords a).
  { pose proof (bindings_fields (gr_shader_registers g)) as Hf.
    set (a0 := with_bindings a (ga_shader_bindings a) 0). change (ga_type a) with (ga_type a0).
    change (ga_values a) with (ga_values a0). change (ga_payload a) with (ga_payload a0).
    change (ga_packet_dwords a) with (ga_packet_dwords a0).
    unfold b, SnapshotProgramBindings. fold a0. destruct (ga_type a0) eqn:E; try done; rewrite <- E.
    - apply (Hf kGraphicsShaderProgramPairs).
    - apply (Hf [kComputeShaderProgramPair]). }
  done.
Qed.

(** The action a sink receives for [a] in the state [g]. *)
Definition delivered (g : GpuRuntime) (a : GpuAction) : GpuAction :=
  if is_render_action a then (enrich g a).1 else a.

Lemma delivered_fields g a :
  ga_type (delivered g a) = ga_type a /\ ga_values (delivered g a) = ga_values a /\
  ga_payload (delivered g a) = ga_payload a /\ ga_packet_dwords (delivered g a) = ga_packet_dwords a.
Proof. unfold delivered. destruct (is_render_action a); [apply enrich_fields|done]. Qed.

Lemma delivered_ok g a : action_ok a -> action_ok (delivered g a).
Proof. intros [H1 H2]. destruct (delivered_fields g a) as (_ & E1 & E2 & _). split; by rewrite ?E1, ?E2. Qed.
Lemma delivered_entered g a : entered_dwords (delivered g a) = entered_dwords a.
Proof.
  destruct (delivered_fields g a) as (E1 & E2 & _). unfold entered_dwords, action_value. by rewrite E1, E2.
Qed.

(** [Emit] in one formula. *)
Lemma Emit_eq a c :
  Emit a c =
  if submitted c >=? max_actions (cc_limits (dc_cursor c))
  then Stop cmd_kResourceLimit (ga_packet_address a) (ga_opcode a) c
  else match submit (delivered (dc_runtime c) a) c with
  | None => None
  | Some (c1, st) =>
      if is_complete st then match count_action c1 with None => None | Some (c2, _) => Some (c2, cmd_kComplete) end
      else Stop st (ga_packet_address a) (ga_opcode a) c1
  end.
Proof.
  unfold Emit, mbind, decode_bind, get. destruct (_ >=? _); [done|]. unfold delivered.
  destruct (is_render_action a).
  - unfold enrich. simpl. destruct (submit _ c) as [[c1 st]|]; [|done]. by destruct (is_complete st).
  - destruct (submit _ c) as [[c1 st]|]; [|done]. by destruct (is_complete st).
Qed.

Lemma is_complete_spec st : is_complete st = true <-> st = cmd_kComplete.
Proof. unfold is_complete. apply bool_decide_eq_true. Qed.

Lemma wp_Emit a c (Q : GpuCommandStatus -> DecodeContext S -> Prop) :
  live c -> action_ok a ->
  (forall st c', calm c c' -> (st = cmd_kComplete -> accepted c c' (entered_dwords a) /\ submitted c < submitted c') ->
     (st = cmd_kBlocked -> sink_blocks /\ accepted c c' (ga_packet_dwords a)) -> Q st c') ->
  wp (Emit a) Q c.
Proof.
  intros Hc Ha HQ. unfold wp. rewrite Emit_eq. destruct (_ >=? _) eqn:Elimit.
  { apply (wp_Stop _ _ _ c); [done|]. intros c' Hq _ _. by apply HQ. }
  set (d := delivered _ a). pose proof (delivered_ok (dc_runtime c) a Ha) as Hd. fold d in Hd.
  destruct Hc as [H1 H2 H3]. pose proof (Hkeeps d _ (dc_sink c) Hd H1) as Hmem.
  unfold submit. destruct (Submit d (gr_memory (dc_runtime c)) (dc_sink c)) as [[m s] st] eqn:Es. simpl in Hmem.
  set (c1 := mkContext _ s _).
  assert (Hc1 : live c1) by (by split). assert (Hq1 : calm c c1) by (by split).
  destruct (is_complete st) eqn:Ec.
  - apply is_complete_spec in Ec as ->. unfold count_action, modify. apply HQ; [|intros _|done].
    + pose proof (lo_actions _ H2). split; try done; [split; [done|done|]|]; simpl; rewrite add64_small by u64_lia; lia.
    + split; [|pose proof (lo_actions _ H2); simpl; rewrite add64_small by u64_lia; lia]. intros log Hlog. exists [(d, cmd_kComplete)].
      pose proof (Hlog d (gr_memory (dc_runtime c)) (dc_sink c)) as E. rewrite Es in E. simpl in E.
      pose proof (lo_actions _ H2). simpl. rewrite E, add64_small by (done || u64_lia).
      unfold d. rewrite delivered_entered. split_and!; [done|lia|lia].
  - apply (wp_Stop st _ _ c1); [done|]. intros c' Hq E1 E2. apply HQ; [by eapply calm_trans| |].
    + intros ->. done.
    + intros ->. split; [exists d, (gr_memory (dc_runtime c)), (dc_sink c); by rewrite Es|].
      intros log Hlog. exists [(d, cmd_kBlocked)]. pose proof (Hlog d (gr_memory (dc_runtime c)) (dc_sink c)) as E.
      rewrite Es in E. simpl in E. rewrite E1, E2. simpl. destruct (delivered_fields (dc_runtime c) a) as (_ & _ & _ & Ed).
      fold d in Ed. rewrite E, Ed. split_and!; [done|lia|lia].
Qed.

Lemma Emit_simple a c :
  live c -> action_ok a -> ga_type a <> act_kIndirectBuffer -> wp (Emit a) (simple_post (ga_packet_dwords a) c) c.
Proof.
  intros Hc Ha Ht. apply wp_Emit; [done|done|]. intros st c' Hq Hl Hb. split_and!; [done| |done].
  intros E. destruct (Hl E) as [Hl' _]. unfold entered_dwords in Hl'. by destruct (ga_type a).
Qed.

(** ** Packets *)

Record packet_ok pk : Prop := {
  po_length : Z.of_nat (length (pk_words pk)) = pk_dwords pk;
  po_size : 1 <= pk_dwords pk <= 16385;
  po_words : Forall is_u32 (pk_words pk)
}.

Lemma calm_registers space offset value c : live c -> calm c (set_register space offset value c).
Proof. intros [H1 H2 H3]. unfold set_register. destruct space; by split; [split|..]. Qed.

Lemma ReadGuestValue_spec address is_64 c :
  live c -> is_u64 address -> exists v, ReadGuestValue address is_64 c = Some (c, v) /\
    forall x, v = Some x -> is_u64 x.
Proof.
  intros [[Hm Hb] _ _] Ha. unfold ReadGuestValue, mbind, decode_bind, get, mret, decode_ret. eexists. split; [done|].
  intros x. destruct is_64; (destruct (Read _ _ _) as [bytes|] eqn:E; [|done]); intros [= <-];
    apply Read_bytes in E as [Hby Hl]; try done.
  - exact (read64_u64 bytes 0 Hby).
  - unfold Gpu_Read32. rewrite drop_0. pose proof (le_value_bound (take 4 bytes) (Forall_take _ _ _ Hby)) as Hv.
    rewrite length_take in Hv. replace (Nat.min 4 (length bytes)) with 4%nat in Hv by lia.
    change (256 ^ Z.of_nat 4) with 4294967296 in Hv. u64_lia.
Qed.

Lemma wp_ReadGuestValue {B} address is_64 (f : option Z -> Decode S B) Q c :
  live c -> is_u64 address -> (forall v, (forall x, v = Some x -> is_u64 x) -> wp (f v) Q c) ->
  wp (mbind f (ReadGuestValue address is_64)) Q c.
Proof.
  intros Hc Ha Hf. apply wp_bind. destruct (ReadGuestValue_spec address is_64 c Hc Ha) as (v & E & Hv).
  unfold wp at 1. rewrite E. by apply Hf.
Qed.

Definition read_post c (n : Z) (result : GpuCommandStatus * list Z) c' : Prop :=
  match result.1 with
  | cmd_kComplete => c' = c /\ Z.of_nat (length result.2) = n /\ Forall is_u32 result.2 /\
                     n <= max_buffer_dwords (cc_limits (dc_cursor c))
  | cmd_kBlocked => False
  | _ => calm c c'
  end.

Lemma ReadDwords_spec address n c :
  live c -> is_u64 address -> 0 <= n -> wp (ReadDwords address n) (read_post c n) c.
Proof.
  intros Hc Ha Hn. unfold ReadDwords. apply wp_bind. unfold get, wp at 1.
  destruct (_ || _ || _ || _) eqn:Eg.
  { apply wp_bind, wp_Stop; [done|]. intros c' Hq _ _. by apply wp_ret. }
  destruct (Read _ _ _) as [bytes|] eqn:Er.
  2:{ apply wp_bind, wp_Stop; [done|]. intros c' Hq _ _. by apply wp_ret. }
  apply wp_ret. unfold read_post. cbn [fst snd]. rewrite length_map, length_seq. split_and!; [done|lia| |lia].
  destruct Hc as [[Hm Hb] _ _]. apply Read_bytes in Er as [Hby Hl]; [|done..|lia].
  apply Forall_map, Forall_forall. intros i Hi%elem_of_seq. unfold Gpu_Read32.
  pose proof (le_value_bound _ (Forall_take _ 4 _ (Forall_drop _ (Z.to_nat (Z.of_nat i * 4)) _ Hby))) as Hv.
  rewrite length_take, length_drop in Hv.
  replace (Nat.min 4 (length bytes - Z.to_nat (Z.of_nat i * 4))) with 4%nat in Hv by lia.
  change (256 ^ Z.of_nat 4) with 4294967296 in Hv. u32_lia.
Qed.

(** Values of an action fit. *)
Ltac fits := first [assumption | apply word_u64; assumption | apply word_u64, land_u32; u32_lia
  | apply word_u64, bits_u32; u32_lia | u64_lia].
Ltac values_fit := apply MakeAction_ok; repeat apply Forall_cons_2; try apply Forall_nil_2; fits.

Lemma ApplyRegisterWrite_spec space pk offset value table index c :
  live c -> is_u32 offset -> is_u32 value -> is_u64 table -> is_u64 index ->
  wp (ApplyRegisterWrite space pk offset value table index) (simple_post (pk_dwords pk) c) c.
Proof.
  intros Hc Ho Hv Ht Hi. unfold ApplyRegisterWrite.
  assert (is_u64 (space_value space)) by (destruct space; cbn; u64_lia).
  assert (is_u32 (NormalizeRegisterOffset offset)) by (apply land_u32; done).
  eapply wp_then; [apply Emit_simple; [done|values_fit|done]|]. intros st c' (Hq & Hl & Hb). simpl.
  destruct (is_complete st) eqn:E; [|by apply wp_ret].
  apply is_complete_spec in E as ->. apply wp_ret. unfold simple_post. split_and!; [|intros _|done].
  - eapply calm_trans; [exact Hq|]. apply calm_registers, Hq.
  - apply (accepted_trans _ c' _ 0 0); [by apply Hl|]. by apply accepted_refl; destruct space.
Qed.

Lemma complete_chain n c c1 st (x : Decode S GpuCommandStatus) :
  simple_post n c st c1 -> (is_complete st = true -> wp x (simple_post n c1) c1) ->
  wp (if negb (is_complete st) then mret st else x) (simple_post n c) c1.
Proof.
  intros (Hq & Hl & Hb) Hx. destruct (is_complete st) eqn:E; [|by apply wp_ret].
  apply is_complete_spec in E as ->. eapply wp_mono; [by apply Hx|]. intros st' c' Hs.
  by apply (simple_chain n c c1); [|apply Hl|].
Qed.

Lemma direct_loop_spec space pk start n index c :
  live c -> packet_ok pk -> is_u32 start -> 0 <= index -> 2 + index + Z.of_nat n <= pk_dwords pk ->
  wp (direct_loop space pk start n index) (simple_post (pk_dwords pk) c) c.
Proof.
  intros Hc Hpk Hs. revert index c Hc. induction n as [|n IH]; intros index c Hc Hi Hn; cbn [direct_loop].
  { apply wp_ret. split_and!; [by apply calm_refl|intros _; by apply accepted_refl|done]. }
  pose proof (po_length pk Hpk). apply wp_bind, wp_word; [apply Hpk|lia|]. intros v Hv.
  eapply wp_then; [apply ApplyRegisterWrite_spec; [done|apply to_u32_range|done|u64_lia..]|].
  intros st c1 Hp. apply complete_chain; [done|]. intros _. apply IH; [apply Hp|lia|lia].
Qed.

Lemma ApplyDirectRegisters_spec space pk c :
  live c -> packet_ok pk -> wp (ApplyDirectRegisters space pk) (simple_post (pk_dwords pk) c) c.
Proof.
  intros Hc Hpk. pose proof (po_length pk Hpk). pose proof (po_size pk Hpk). unfold ApplyDirectRegisters.
  destruct (_ <? _) eqn:E; [by apply malformed_simple|].
  apply wp_bind, wp_word; [apply Hpk|lia|]. intros start Hs. apply direct_loop_spec; try done; lia.
Qed.

Lemma wp_word_at table i (Q : Z -> DecodeContext S -> Prop) c :
  Forall is_u32 table -> 0 <= i < Z.of_nat (length table) -> (forall w, is_u32 w -> Q w c) -> wp (word_at table i) Q c.
Proof. intros Ht. exact (wp_word (mkPacket 0 0 0 0 table) i Q c Ht). Qed.

Lemma indirect_loop_spec space pk address table n index c :
  live c -> is_u64 address -> Forall is_u32 table -> 0 <= index -> 2 * (index + Z.of_nat n) <= Z.of_nat (length table) ->
  index + Z.of_nat n <= u32_max -> wp (indirect_loop space pk address table n index) (simple_post (pk_dwords pk) c) c.
Proof.
  intros Hc Ha Ht. revert index c Hc. induction n as [|n IH]; intros index c Hc Hi Hn Hm; cbn [indirect_loop].
  { apply wp_ret. split_and!; [by apply calm_refl|intros _; by apply accepted_refl|done]. }
  apply wp_bind, wp_word_at; [done|lia|]. intros o Ho. apply wp_bind, wp_word_at; [done|lia|]. intros v Hv.
  eapply wp_then; [apply ApplyRegisterWrite_spec; [done..|]; unfold u32_max in *; u64_lia|].
  intros st c1 Hp. apply complete_chain; [done|]. intros _. apply IH; [apply Hp|lia..].
Qed.

Lemma ApplyIndirectRegisters_spec space pk table count c :
  live c -> is_u64 table -> is_u32 count -> wp (ApplyIndirectRegisters space pk table count) (simple_post (pk_dwords pk) c) c.
Proof.
  intros Hc Ht Hn. unfold ApplyIndirectRegisters. destruct (_ =? 0) eqn:E0.
  { apply wp_ret. split_and!; [by apply calm_refl|intros _; by apply accepted_refl|done]. }
  apply wp_bind. unfold get, wp at 1. destruct (_ || _) eqn:El; [by apply Stop_simple|].
  pose proof (lo_buffer _ (lv_limits _ Hc)) as Hbuf.
  assert (Hd : count * 2 <= max_buffer_dwords (cc_limits (dc_cursor c))).
  { pose proof (Z.mul_div_le (max_buffer_dwords (cc_limits (dc_cursor c))) 2). lia. }
  assert (E2 : (count * 2)%u32 = count * 2) by (unfold mul32; rewrite to_u32_small; [done|u32_lia]). rewrite E2.
  eapply wp_then; [apply ReadDwords_spec; [done..|u32_lia]|].
  intros [st words] c1 Hr. unfold read_post in Hr. cbn [fst snd] in Hr.
  assert (Hfail : calm c c1 -> st <> cmd_kComplete -> st <> cmd_kBlocked -> wp (stop pk st) (simple_post (pk_dwords pk) c) c1).
  { intros Hq H1 H2. apply wp_Stop; [apply Hq|]. intros c' Hq' _ _. split_and!; [by eapply calm_trans|done|done]. }
  destruct st; cbn [is_complete bool_decide negb]; try done; try (by apply Hfail).
  destruct Hr as (-> & Hlen & Hw & Hmax). apply indirect_loop_spec; try done; u32_lia.
Qed.

(** Reads the words of a packet, splits its tests and ends with the action. *)
Ltac read_packet Hpk :=
  repeat first
    [ progress cbv zeta
    | match goal with
      | |- wp (mbind _ (word _ _)) _ _ =>
          apply wp_bind, wp_word; [apply Hpk|lia|let w := fresh "w" in let H := fresh "Hw" in intros w H]
      | |- wp (mbind _ (word64 _ _ _)) _ _ =>
          apply wp_bind, wp_word64; [apply Hpk|by (vm_compute; split)|lia|lia|let w := fresh "w" in let H := fresh "Hw" in intros w H]
      | |- wp (mbind _ (if ?b then _ else _)) _ _ => destruct b eqn:?
      | |- wp (if ?b then _ else _) _ _ => destruct b eqn:?
      | |- wp (mbind _ (mret _)) _ _ => apply wp_bind, wp_ret
      | |- wp (malformed _) (simple_post _ _) _ => by apply malformed_simple
      | |- wp (Emit (make_action _ _ _)) (simple_post _ _) _ => apply Emit_simple; [done|values_fit|done]
      end ].

Section simple_packets.
Context (pk : Packet) (c : DecodeContext S) (Hpk : packet_ok pk) (Hc : live c).
Let Hlen := po_length pk Hpk.
Let Hsize := po_size pk Hpk.

Lemma process_nop_spec : wp (Emit (make_action act_kNop pk [])) (simple_post (pk_dwords pk) c) c.
Proof. apply Emit_simple; [done|values_fit|done]. Qed.

Lemma process_indirect_nop_spec : wp (process_indirect_nop pk) (simple_post (pk_dwords pk) c) c.
Proof. unfold process_indirect_nop. read_packet Hpk. all: by apply ApplyIndirectRegisters_spec. Qed.

Lemma process_indirect_registers_spec : wp (process_indirect_registers pk) (simple_post (pk_dwords pk) c) c.
Proof.
  unfold process_indirect_registers. read_packet Hpk.
  all: apply ApplyIndirectRegisters_spec; [done|done|apply land_u32; u32_lia].
Qed.

Lemma process_set_base_spec header : wp (process_set_base pk header) (simple_post (pk_dwords pk) c) c.
Proof. unfold process_set_base. read_packet Hpk. Qed.
Lemma process_index_base_spec : wp (process_index_base pk) (simple_post (pk_dwords pk) c) c.
Proof. unfold process_index_base. read_packet Hpk. Qed.
Lemma process_index_scalar_spec : wp (process_index_scalar pk) (simple_post (pk_dwords pk) c) c.
Proof. unfold process_index_scalar. read_packet Hpk. apply Emit_simple; [done|values_fit|]. by destruct (_ =? _). Qed.
Lemma process_dispatch_direct_spec : wp (process_dispatch_direct pk) (simple_post (pk_dwords pk) c) c.
Proof. unfold process_dispatch_direct. read_packet Hpk. Qed.
Lemma process_dispatch_indirect_spec : wp (process_dispatch_indirect pk) (simple_post (pk_dwords pk) c) c.
Proof. unfold process_dispatch_indirect. read_packet Hpk. Qed.
Lemma process_predication_spec : wp (process_predication pk) (simple_post (pk_dwords pk) c) c.
Proof. unfold process_predication. read_packet Hpk. Qed.
Lemma process_rewind_spec : wp (process_rewind pk) (simple_post (pk_dwords pk) c) c.
Proof. unfold process_rewind. read_packet Hpk. Qed.
Lemma process_lod_stats_spec : wp (process_lod_stats pk) (simple_post (pk_dwords pk) c) c.
Proof. unfold process_lod_stats. read_packet Hpk. Qed.
Lemma ProcessReleaseMemory_spec : wp (ProcessReleaseMemory pk) (simple_post (pk_dwords pk) c) c.
Proof. unfold ProcessReleaseMemory. read_packet Hpk. Qed.
Lemma ProcessEventWrite_spec : wp (ProcessEventWrite pk) (simple_post (pk_dwords pk) c) c.
Proof. unfold ProcessEventWrite. read_packet Hpk. Qed.

Lemma process_num_instances_spec : wp (process_num_instances pk) (simple_post (pk_dwords pk) c) c.
Proof.
  unfold process_num_instances. read_packet Hpk. set (n := Z.max _ 1).
  assert (Hn : is_u64 n) by (unfold n, is_u32, u32_max in *; u64_lia).
  apply wp_bind. unfold modify, wp at 1. set (c1 := set_register _ _ _ c).
  assert (Hq : calm c c1) by (by apply calm_registers).
  eapply wp_mono; [apply Emit_simple; [apply Hq|values_fit|done]|]. intros st c'. by apply simple_chain; [|apply accepted_refl].
Qed.

Lemma read_words_spec n index (Q : list Z -> DecodeContext S -> Prop) :
  0 <= index -> index + Z.of_nat n <= pk_dwords pk -> (forall l, Forall is_u64 l -> Q l c) ->
  wp (read_words pk n index) Q c.
Proof.
  revert index Q. induction n as [|n IH]; intros index Q Hi Hn HQ; cbn [read_words]; [by apply wp_ret, HQ|].
  apply wp_bind, wp_word; [apply Hpk|lia|]. intros w Hw. apply wp_bind, IH; [lia|lia|].
  intros l Hl. apply wp_ret, HQ. constructor; [by apply word_u64|done].
Qed.

Lemma process_draw_spec : wp (process_draw pk) (simple_post (pk_dwords pk) c) c.
Proof.
  unfold process_draw. read_packet Hpk. apply wp_bind, read_words_spec; [lia|lia|]. intros l Hl.
  apply Emit_simple; [done|by apply MakeAction_ok|done].
Qed.

Lemma ProcessWriteData_spec : wp (ProcessWriteData pk) (simple_post (pk_dwords pk) c) c.
Proof.
  unfold ProcessWriteData. read_packet Hpk.
  all: apply Emit_simple; [done| |done].
  all: split; [|apply Forall_drop, Hpk]; apply (ao_values (make_action act_kWriteData pk _)); values_fit.
Qed.
End simple_packets.

(** ** Waits and indirect buffers *)

Definition wait_ok (w : GpuCommandPendingWait) : Prop := is_u64 (pw_address w) /\ 1 <= pw_packet_dwords w <= 16385.

(** The context after a wait whose condition does not hold. *)
Record parked c c' (w : GpuCommandPendingWait) : Prop := {
  pa_live : live c';
  pa_limits : cc_limits (dc_cursor c') = cc_limits (dc_cursor c);
  pa_frames : frames c' = frames c;
  pa_pending : cc_pending_wait (dc_cursor c') = Some w;
  pa_wait : wait_ok w;
  pa_terminal : cc_terminal (dc_cursor c') = cc_terminal (dc_cursor c);
  pa_processed : processed c' = processed c;
  pa_action : submitted c < submitted c'
}.

(** The context after a buffer is entered. *)
Record grown c c' (f : GpuCommandFrame) : Prop := {
  gw_live : live c';
  gw_limits : cc_limits (dc_cursor c') = cc_limits (dc_cursor c);
  gw_frames : frames c' = frames c ++ [f];
  gw_frame : frame_ok (cc_limits (dc_cursor c)) f;
  gw_start : fr_offset f = 0;
  gw_depth : Z.of_nat (length (frames c)) <= max_indirect_depth (cc_limits (dc_cursor c));
  gw_fresh : (fr_address f, fr_dword_count f) ∉ map (fun x => (fr_address x, fr_dword_count x)) (frames c);
  gw_pending : cc_pending_wait (dc_cursor c') = cc_pending_wait (dc_cursor c);
  gw_terminal : cc_terminal (dc_cursor c') = cc_terminal (dc_cursor c);
  gw_processed : processed c' = processed c;
  gw_grows : submitted c <= submitted c'
}.

(** What a packet of [n] dwords does, by its status. *)
Definition packet_post (n : Z) c st c' : Prop :=
  match st with
  | cmd_kComplete => (calm c c' /\ accepted c c' 0) \/ exists f, grown c c' f /\ accepted c c' (fr_dword_count f)
  | cmd_kBlocked => (exists w, parked c c' w /\ pw_packet_dwords w = n /\ accepted c c' 0) \/
                    (calm c c' /\ sink_blocks /\ accepted c c' n)
  | _ => calm c c'
  end.

Lemma simple_packet n c st c' : simple_post n c st c' -> packet_post n c st c'.
Proof. intros (Hq & Hl & Hb). destruct st; simpl; auto. Qed.

Lemma wp_simple n c (x : Decode S GpuCommandStatus) : wp x (simple_post n c) c -> wp x (packet_post n c) c.
Proof. intros Hx. eapply wp_mono; [exact Hx|]. intros st c'. apply simple_packet. Qed.

Lemma ProcessWait_spec pk address mask reference control poll is_64 c :
  live c -> packet_ok pk -> is_u64 address -> is_u64 mask -> is_u64 reference -> is_u32 control -> is_u32 poll ->
  wp (ProcessWait pk address mask reference control poll is_64) (packet_post (pk_dwords pk) c) c.
Proof.
  intros Hc Hpk Ha Hm Hr Hctl Hpoll. unfold ProcessWait. cbv zeta.
  set (finish := finish_wait pk address mask reference control poll is_64).
  assert (Hfinish : forall current, is_u64 current -> wp (finish current) (packet_post (pk_dwords pk) c) c).
  { intros current Hcur. unfold finish, finish_wait. cbv zeta. assert (is_u64 (if is_64 then 64 else 32)) by (destruct is_64; u64_lia).
    apply wp_bind, wp_Emit; [done|values_fit|]. intros st c1 Hq Hl Hb. change (entered_dwords _) with 0 in Hl.
    assert (Hs : simple_post (pk_dwords pk) c st c1) by (split_and!; [done|intros E; by apply Hl|done]).
    destruct (is_complete st) eqn:E; [|apply wp_ret; by apply simple_packet].
    apply is_complete_spec in E as ->. cbn [negb]. destruct (CompareWait _ _ _ _); cbn [negb].
    { apply wp_ret. by apply simple_packet. }
    destruct (Hl eq_refl) as [Hl' Hlt].
    unfold wp, mbind, decode_bind, modify, stop, Stop. cbn. left. eexists. split; [|split].
    - destruct Hq as [[L1 L2 L3] Q2 Q3 Q4 Q5 Q6 Q7]. split; cbn; try done.
      split; [done|]. apply Hpk.
    - done.
    - intros log Hlog. exact (Hl' log Hlog). }
  destruct (negb _ && negb _); [|apply Hfinish; u64_lia].
  destruct (_ || _ || _); [by apply wp_simple, malformed_simple|].
  apply wp_ReadGuestValue; [done|done|]. intros [v|] Hv; [by apply Hfinish, Hv|].
  apply wp_simple. by apply Stop_simple.
Qed.

Lemma process_wait_nop_spec pk c :
  live c -> packet_ok pk -> wp (process_wait_nop pk) (packet_post (pk_dwords pk) c) c.
Proof.
  intros Hc Hpk. pose proof (po_length pk Hpk). unfold process_wait_nop. cbv zeta.
  destruct (pk_register pk =? kPm4WaitMemory64Register); read_packet Hpk. all: first [by apply wp_simple, malformed_simple | apply ProcessWait_spec; fits].
Qed.

Lemma process_wait_reg_mem_spec pk c :
  live c -> packet_ok pk -> wp (process_wait_reg_mem pk) (packet_post (pk_dwords pk) c) c.
Proof.
  intros Hc Hpk. pose proof (po_length pk Hpk). unfold process_wait_reg_mem.
  read_packet Hpk. all: first [by apply wp_simple, malformed_simple | apply ProcessWait_spec; fits].
Qed.

Lemma SnapshotFrame_spec address n c :
  live c -> is_u64 address -> is_u32 n ->
  wp (SnapshotFrame address n) (fun st c' =>
    match st with
    | cmd_kComplete => exists words, let f := mkFrame address n 0 words in
        grown c c' f /\ dc_sink c' = dc_sink c /\ submitted c' = submitted c
    | cmd_kBlocked => False
    | _ => calm c c'
    end) c.
Proof.
  intros Hc Ha Hn. unfold SnapshotFrame. apply wp_bind. unfold get, wp at 1.
  destruct (_ >? _) eqn:Ed; [apply wp_Stop; [done|by intros]|].
  destruct (existsb _ _) eqn:Ex; [apply wp_Stop; [done|by intros]|].
  eapply wp_then; [apply ReadDwords_spec; [done..|u32_lia]|].
  intros [st words] c1 Hr. unfold read_post in Hr. cbn [fst snd] in Hr.
  destruct st; cbn; try done. destruct Hr as (-> & Hlen & Hw & Hmax).
  exists words. split_and!; [|done|done]. destruct Hc as [H1 H2 H3].
  split; cbn; try done; [split; cbn; try done; u32_lia|lia|].
  intros Hin%list_elem_of_In. apply in_map_iff in Hin as (x & [= E1 E2] & Hin).
  assert (Hfalse : existsb (fun f => (fr_address f =? address) && (fr_dword_count f =? n)) (frames c) = true).
  { apply existsb_exists. exists x. split; [done|]. lia. }
  by rewrite Ex in Hfalse.
Qed.

Lemma ProcessIndirectBuffer_spec pk target n control depth branch c :
  live c -> packet_ok pk -> is_u64 target -> is_u32 n -> is_u32 control -> is_u64 depth -> is_u64 branch ->
  wp (ProcessIndirectBuffer pk target n control depth branch) (packet_post (pk_dwords pk) c) c.
Proof.
  intros Hc Hpk Ht Hn Hctl Hd Hb. unfold ProcessIndirectBuffer. apply wp_bind, wp_Emit; [done|values_fit|].
  intros st c1 Hq Hl Hblock. change (entered_dwords _) with n in Hl. destruct (is_complete st) eqn:E; cbn [negb orb].
  2:{ apply wp_ret. destruct st; try done. right. destruct (Hblock eq_refl). done. }
  apply is_complete_spec in E as ->. destruct (Hl eq_refl) as [Hl' _]. clear Hl. rename Hl' into Hl.
  destruct (n =? 0) eqn:E0.
  { apply wp_ret. apply Z.eqb_eq in E0 as ->. by left. }
  eapply wp_mono; [apply SnapshotFrame_spec; [apply Hq|done|done]|].
  intros st c' H. destruct st; simpl; try (by eapply calm_trans); [|done].
  destruct H as (words & Hg & Es & Ek). right. exists (mkFrame target n 0 words). split.
  - destruct Hq, Hg. split; try done; congruence || lia.
  - cbn [fr_dword_count]. rewrite <- (Z.add_0_r n). apply (accepted_trans _ c1); [done|by apply accepted_refl].
Qed.

Lemma process_branch_spec pk depth c :
  live c -> packet_ok pk -> pk_dwords pk = 14 -> is_u64 depth ->
  wp (process_branch pk depth) (packet_post (pk_dwords pk) c) c.
Proof.
  intros Hc Hpk Hn Hd. pose proof (po_length pk Hpk). unfold process_branch. read_packet Hpk.
  { by apply wp_simple, malformed_simple. }
  apply wp_ReadGuestValue; [done|done|]. intros [v|] Hv; [|apply wp_simple; by apply Stop_simple].
  cbv zeta. read_packet Hpk.
  destruct (CompareWait _ _ _ _); rewrite ?orb_true_r, ?orb_false_r.
  - apply ProcessIndirectBuffer_spec; first [fits | apply land_u32; u32_lia].
  - destruct (_ =? 2); apply ProcessIndirectBuffer_spec; first [fits | apply land_u32; u32_lia | u32_lia].
Qed.

Lemma process_indirect_buffer_spec pk depth c :
  live c -> packet_ok pk -> is_u64 depth -> wp (process_indirect_buffer pk depth) (packet_post (pk_dwords pk) c) c.
Proof.
  intros Hc Hpk Hd. pose proof (po_length pk Hpk). unfold process_indirect_buffer. read_packet Hpk.
  - apply ProcessIndirectBuffer_spec; first [fits | apply land_u32; u32_lia].
  - apply process_branch_spec; (done || lia).
  - by apply wp_simple, malformed_simple.
Qed.

Lemma process_packet_spec pk header depth c :
  live c -> packet_ok pk -> is_u64 depth -> wp (process_packet pk header depth) (packet_post (pk_dwords pk) c) c.
Proof.
  intros Hc Hpk Hd. unfold process_packet. cbv zeta.
  repeat match goal with |- wp (if ?b then _ else _) _ _ => destruct b end.
  all: lazymatch goal with
    | |- wp (process_wait_nop _) _ _ => by apply process_wait_nop_spec
    | |- wp (process_wait_reg_mem _) _ _ => by apply process_wait_reg_mem_spec
    | |- wp (process_indirect_buffer _ _) _ _ => by apply process_indirect_buffer_spec
    | |- wp (process_indirect_nop _) _ _ => by apply wp_simple, process_indirect_nop_spec
    | |- wp (ProcessWriteData _) _ _ => by apply wp_simple, ProcessWriteData_spec
    | |- wp (ProcessReleaseMemory _) _ _ => by apply wp_simple, ProcessReleaseMemory_spec
    | |- wp (process_indirect_registers _) _ _ => by apply wp_simple, process_indirect_registers_spec
    | |- wp (process_index_base _) _ _ => by apply wp_simple, process_index_base_spec
    | |- wp (process_index_scalar _) _ _ => by apply wp_simple, process_index_scalar_spec
    | |- wp (process_num_instances _) _ _ => by apply wp_simple, process_num_instances_spec
    | |- wp (process_dispatch_direct _) _ _ => by apply wp_simple, process_dispatch_direct_spec
    | |- wp (process_dispatch_indirect _) _ _ => by apply wp_simple, process_dispatch_indirect_spec
    | |- wp (process_draw _) _ _ => by apply wp_simple, process_draw_spec
    | |- wp (process_predication _) _ _ => by apply wp_simple, process_predication_spec
    | |- wp (ProcessEventWrite _) _ _ => by apply wp_simple, ProcessEventWrite_spec
    | |- wp (process_rewind _) _ _ => by apply wp_simple, process_rewind_spec
    | |- wp (process_lod_stats _) _ _ => by apply wp_simple, process_lod_stats_spec
    | |- wp (ApplyDirectRegisters _ _) _ _ => by apply wp_simple, ApplyDirectRegisters_spec
    | |- wp (process_set_base _ _) _ _ => by apply wp_simple, process_set_base_spec
    | |- wp (Emit _) _ _ => by apply wp_simple, process_nop_spec
    | |- wp (stop _ _) _ _ => by apply wp_simple, Stop_simple
    end.
Qed.

(** ** Frames *)

Definition remaining (l : list GpuCommandFrame) : Z :=
  foldr Z.add 0 (map (fun f => fr_dword_count f - fr_offset f) l).
Definition pending_dwords (k : GpuCommandCursor) : Z :=
  match cc_pending_wait k with Some w => pw_packet_dwords w | None => 0 end.

(** What is processed and what is still to be, a wait that is not over counted
    once. *)
Definition due c : Z := processed c + remaining (frames c) - pending_dwords (dc_cursor c).

Record cursor_ok (k : GpuCommandCursor) : Prop := {
  co_limits : limits_ok (cc_limits k);
  co_submitted : 0 <= cr_submitted_actions (cc_result k) <= max_actions (cc_limits k);
  co_processed : 0 <= cr_processed_dwords (cc_result k) <= max_processed_dwords (cc_limits k);
  co_frames : Forall (frame_ok (cc_limits k)) (cc_frames k);
  co_depth : Z.of_nat (length (cc_frames k)) <= max_indirect_depth (cc_limits k) + 1;
  co_distinct : NoDup (map (fun f => (fr_address f, fr_dword_count f)) (cc_frames k));
  co_wait : forall w, cc_pending_wait k = Some w -> wait_ok w /\
    exists l f, cc_frames k = l ++ [f] /\ fr_offset f + pw_packet_dwords w <= fr_dword_count f
}.

Lemma remaining_app l1 l2 : remaining (l1 ++ l2) = remaining l1 + remaining l2.
Proof. induction l1 as [|f l1 IH]; unfold remaining in *; simpl; [done|]. rewrite IH. lia. Qed.
Lemma remaining_one f : remaining [f] = fr_dword_count f - fr_offset f.
Proof. unfold remaining. simpl. lia. Qed.

Lemma alter_back {A} (g : A -> A) (l1 l2 : list A) x :
  alter g (length (l1 ++ [x]) - 1)%nat (l1 ++ x :: l2) = l1 ++ g x :: l2.
Proof.
  rewrite length_app. cbn [length]. rewrite Nat.add_sub. rewrite alter_app_r_alt by lia.
  by rewrite Nat.sub_diag.
Qed.

(** Moving one frame of a stack keeps the stack in order. *)
Lemma frames_advance limits l1 l2 f n :
  Forall (frame_ok limits) (l1 ++ f :: l2) -> is_u32 (max_buffer_dwords limits) ->
  0 <= n -> fr_offset f + n <= fr_dword_count f ->
  Forall (frame_ok limits) (l1 ++ advance_frame n f :: l2) /\
  map (fun f => (fr_address f, fr_dword_count f)) (l1 ++ advance_frame n f :: l2)
  = map (fun f => (fr_address f, fr_dword_count f)) (l1 ++ f :: l2) /\
  remaining (l1 ++ advance_frame n f :: l2) = remaining (l1 ++ f :: l2) - n /\
  fr_offset (advance_frame n f) = fr_offset f + n.
Proof.
  intros Hf Hmax Hn Hle. apply Forall_app in Hf as [H1 [[A1 A2 A3 A4 A5] H2]%Forall_cons].
  assert (E : (fr_offset f + n)%u32 = fr_offset f + n) by (unfold add32; apply to_u32_small; u32_lia).
  split_and!.
  - apply Forall_app. split; [done|]. apply Forall_cons. split; [|done]. split; cbn; try done. rewrite E. lia.
  - by rewrite !map_app.
  - rewrite !remaining_app. unfold remaining at 2 4. cbn. rewrite E. lia.
  - cbn. by rewrite E.
Qed.

Definition sound c : Prop := memory_ok (gr_memory (dc_runtime c)) /\ cursor_ok (dc_cursor c).

Lemma sound_live c : sound c -> live c.
Proof. intros [Hm []]. by split. Qed.

Lemma calm_sound c c' : sound c -> calm c c' -> sound c'.
Proof.
  intros [Hm [K1 K2 K3 K4 K5 K6 K7]] [[L1 L2 L3] Q2 Q3 Q4 Q5 Q6 Q7]. split; [done|].
  split; rewrite ?Q2, ?Q3, ?Q4, ?Q6; try done. by rewrite Q2 in L3.
Qed.

(** What is the same after any step of the loop. *)
Record kept c c' : Prop := {
  kp_limits : cc_limits (dc_cursor c') = cc_limits (dc_cursor c);
  kp_terminal : cc_terminal (dc_cursor c') = cc_terminal (dc_cursor c);
  kp_grows : submitted c <= submitted c'
}.

Lemma calm_kept c c' : calm c c' -> kept c c'.
Proof. by intros []. Qed.

(** The actions accepted enter [n] dwords, which are then due. *)
Definition accounted c c' : Prop := exists n, accepted c c' n /\ due c' = due c + n.

Lemma accounted_trans c1 c2 c3 : accounted c1 c2 -> accounted c2 c3 -> accounted c1 c3.
Proof. intros (n1 & H1 & E1) (n2 & H2 & E2). exists (n1 + n2). split; [by eapply accepted_trans|lia]. Qed.

Definition at_post c st c' : Prop :=
  sound c' /\ kept c c' /\
  match st with
  | cmd_kComplete => cc_pending_wait (dc_cursor c') = None /\ processed c < processed c' /\
      (length (frames c') <= length (frames c) + 1)%nat /\ accounted c c'
  | cmd_kBlocked => accounted c c' /\ (submitted c < submitted c' \/ sink_blocks)
  | _ => True
  end.

(** Counting the dwords of a packet. *)
Lemma count_dwords_spec n c c1 :
  sound c -> cc_pending_wait (dc_cursor c) = None -> 0 <= n ->
  processed c + n <= max_processed_dwords (cc_limits (dc_cursor c)) ->
  count_dwords n c = Some (c1, tt) ->
  sound c1 /\ kept c c1 /\ frames c1 = frames c /\ cc_pending_wait (dc_cursor c1) = None /\
  processed c1 = processed c + n /\ accepted c c1 0.
Proof.
  intros [Hm [K1 K2 K3 K4 K5 K6 K7]] Hp Hn Hle. unfold count_dwords, modify. intros [= <-].
  pose proof (lo_processed _ K1). split_and!; cbn; try done; [|rewrite add64_small by u64_lia; lia|by apply accepted_refl].
  split; [done|]. split; cbn; try done. rewrite add64_small by u64_lia. lia.
Qed.

(** The end of a packet: the frame moves over it. *)
Lemma advance_spec n c0 c l1 f l2 :
  sound c -> frames c = l1 ++ f :: l2 -> cc_pending_wait (dc_cursor c) = None -> length (frames c0) = length (l1 ++ [f]) ->
  0 <= n -> fr_offset f + n <= fr_dword_count f ->
  exists c', advance (length (frames c0) - 1)%nat n c = Some (c', tt) /\
    sound c' /\ kept c c' /\ cc_pending_wait (dc_cursor c') = None /\ processed c' = processed c /\
    length (frames c') = length (frames c) /\ accepted c c' 0 /\ due c' = due c - n.
Proof.
  intros [Hm [K1 K2 K3 K4 K5 K6 K7]] Hf Hp Hlen Hn Hle.
  eexists. split; [reflexivity|]. unfold due, pending_dwords. cbn -[advance_frame]. rewrite Hlen, Hf, alter_back, Hp.
  rewrite Hf in K4, K5, K6. destruct (frames_advance _ l1 l2 f n K4 (lo_buffer _ K1) Hn Hle) as (F1 & F2 & F3 & F4).
  split_and!; try done; [| |by apply accepted_refl|unfold remaining in *; lia].
  - split; [done|]. split; cbn -[advance_frame]; rewrite ?Hlen, ?Hf, ?alter_back, ?F2; try done.
    + rewrite !length_app in *. cbn [length] in *. lia.
    + rewrite Hp. done.
  - by rewrite !length_app.
Qed.

Lemma parked_sound c c' w l f :
  sound c -> parked c c' w -> frames c = l ++ [f] -> fr_offset f + pw_packet_dwords w <= fr_dword_count f -> sound c'.
Proof.
  intros [Hm [K1 K2 K3 K4 K5 K6 K7]] [[L1 L2 L3] P2 P3 P4 P5 P6 P7 P8] Hf Hle. split; [done|].
  split; rewrite ?P2, ?P3, ?P4, ?P7; try done; [by rewrite P2 in L3|].
  intros w' [= <-]. split; [done|]. by exists l, f.
Qed.

Lemma grown_sound c c' f : sound c -> cc_pending_wait (dc_cursor c) = None -> grown c c' f -> sound c'.
Proof.
  intros [Hm [K1 K2 K3 K4 K5 K6 K7]] Hp [[L1 L2 L3] G2 G3 G4 G5 G6 G7 G8 G9 G10 G11]. split; [done|].
  split; rewrite ?G2, ?G3, ?G8, ?G10, ?Hp; try done.
  - by rewrite G2 in L3.
  - apply Forall_app. by split; [|apply Forall_singleton].
  - rewrite length_app. cbn [length]. lia.
  - rewrite map_app. apply NoDup_app. split_and!; [done| |apply NoDup_singleton].
    intros x Hx ->%list_elem_of_singleton. done.
Qed.

(** A packet of [n] dwords was counted and processed. *)
Lemma finish_packet c c1 c2 st l f n :
  sound c -> frames c = l ++ [f] -> cc_pending_wait (dc_cursor c) = None -> 1 <= n ->
  fr_offset f + n <= fr_dword_count f ->
  sound c1 -> kept c c1 -> frames c1 = frames c -> cc_pending_wait (dc_cursor c1) = None ->
  processed c1 = processed c + n -> accepted c c1 0 -> packet_post n c1 st c2 ->
  wp (if negb (is_complete st) then mret st
      else _ ← advance (length (frames c) - 1)%nat n; mret cmd_kComplete) (at_post c) c2.
Proof.
  intros Hc Hf Hp Hn Hle Hc1 [Hk1 Hk2 Hk3] Hf1 Hp1 Hpr Hlog Hpost.
  assert (Hcalm : calm c1 c2 -> sound c2 /\ kept c c2).
  { intros Hq. split; [by eapply calm_sound|]. destruct Hq. split; congruence || lia. }
  assert (Hend : forall l2, sound c2 -> kept c c2 -> frames c2 = l ++ f :: l2 -> (length l2 <= 1)%nat ->
    cc_pending_wait (dc_cursor c2) = None -> processed c2 = processed c1 -> accepted c1 c2 (remaining l2) ->
    wp (_ ← advance (length (frames c) - 1)%nat n; mret cmd_kComplete) (at_post c) c2).
  { intros l2 S2 [T1 T2 T5] F2 L2 P2 R2 G2.
    destruct (advance_spec n c c2 l f l2 S2 F2 P2 ltac:(by rewrite Hf) ltac:(lia) Hle)
      as (c3 & E3 & S3 & [T3 T4 T6] & P3 & R3 & L3 & G3 & D3).
    unfold wp, mbind, decode_bind. rewrite E3. cbn. split; [done|]. split; [split; congruence || lia|].
    split_and!; [done|lia|rewrite L3, F2, Hf, !length_app; cbn [length]; lia|].
    exists (remaining l2). split.
    - replace (remaining l2) with (0 + (remaining l2 + 0)) by lia. eapply accepted_trans; [done|].
      by eapply accepted_trans.
    - rewrite D3. unfold due, pending_dwords. rewrite P2, Hp, F2, Hf, R2, Hpr, !remaining_app.
      change (f :: l2) with ([f] ++ l2). rewrite remaining_app. lia. }
  destruct st; cbn [is_complete bool_decide negb]; simpl in Hpost.
  - destruct Hpost as [[Hq Hl]|(g & Hg & Hl)].
    + destruct (Hcalm Hq) as [S2 T2]. destruct Hq. apply (Hend []); cbn [length]; try done; try congruence; lia.
    + pose proof (grown_sound c1 c2 g Hc1 Hp1 Hg) as S2. destruct Hg as [G1 G2 G3 G4 G5 G6 G7 G8 G9 G10 G11].
      apply (Hend [g]); cbn [length]; try done; try congruence; try lia.
      * split; congruence || lia.
      * rewrite G3, Hf1, Hf, <- app_assoc. done.
      * rewrite remaining_one, G5, Z.sub_0_r. done.
  - apply wp_ret. destruct Hpost as [(w & Hw & Ew & Hl)|(Hq & Hb & Hl)].
    2:{ destruct (Hcalm Hq). split_and!; [done|done| |by right]. exists n. split.
        - by apply (accepted_trans c c1 c2 0 n).
        - destruct Hq as [Q1 Q2 Q3 Q4 Q5 Q6 Q7]. unfold due, pending_dwords. rewrite Q4, Hp1, Hp, Q3, Hf1, Q6, Hpr. lia. }
    assert (S2 : sound c2) by (apply (parked_sound c1 c2 w l f); [done|done|congruence|rewrite Ew; done]).
    destruct Hw as [W1 W2 W3 W4 W5 W6 W7 W8]. split; [done|]. split; [split; congruence || lia|].
    split; [|left; lia]. exists 0. split.
    + by apply (accepted_trans c c1 c2 0 0).
    + unfold due, pending_dwords. rewrite W4, Hp, W3, Hf1, W7, Hpr, Ew. lia.
  - by apply wp_ret; destruct (Hcalm Hpost).
  - by apply wp_ret; destruct (Hcalm Hpost).
  - by apply wp_ret; destruct (Hcalm Hpost).
  - by apply wp_ret; destruct (Hcalm Hpost).
  - by apply wp_ret; destruct (Hcalm Hpost).
Qed.

Lemma Stop_at st address opcode c :
  sound c -> st <> cmd_kComplete -> st <> cmd_kBlocked -> wp (Stop st address opcode) (at_post c) c.
Proof.
  intros Hc H1 H2. apply wp_Stop; [by apply sound_live|]. intros c' Hq _ _.
  split; [by eapply calm_sound|]. split; [by destruct Hq|]. by destruct st.
Qed.

Lemma packet_size_range header : 1 <= packet_size header <= 16385.
Proof.
  unfold packet_size, bits. destruct (_ =? _); [lia|].
  pose proof (land_mask (Z.shiftr header 16) 0x3fff ltac:(lia)). lia.
Qed.

Lemma process_at_spec l f c :
  sound c -> cc_pending_wait (dc_cursor c) = None -> frames c = l ++ [f] -> fr_offset f <> fr_dword_count f ->
  wp (process_at (length (frames c) - 1)%nat f) (at_post c) c.
Proof.
  intros Hc Hp Hf Hne. assert (Hfo : frame_ok (cc_limits (dc_cursor c)) f).
  { destruct Hc as [_ K]. pose proof (co_frames _ K) as Hall. rewrite Hf in Hall. by apply Forall_app in Hall as [_ [? _]%Forall_cons]. }
  destruct Hfo as [A1 A2 A3 A4 A5]. pose proof Hc as [_ K]. pose proof (lo_buffer _ (co_limits _ K)).
  pose proof (lo_processed _ (co_limits _ K)). pose proof (co_processed _ K).
  unfold process_at. destruct (Gpu_Add _ _) as [address|]; [|by apply Stop_at].
  apply wp_bind, wp_word_at; [done|lia|]. intros header Hh. cbv zeta. apply wp_bind. unfold get, wp at 1.
  destruct (_ =? kPm4Type2).
  - destruct (_ >=? _) eqn:El; [by apply Stop_at|]. apply wp_bind.
    destruct (count_dwords 1 c) as [[c1 []]|] eqn:E1; [|done].
    destruct (count_dwords_spec 1 c c1 Hc Hp ltac:(lia) ltac:(lia) E1) as (S1 & T1 & F1 & P1 & R1 & G1).
    unfold wp at 1. rewrite E1. eapply wp_then.
    + apply Emit_simple; [by apply sound_live|apply MakeAction_ok; done|done].
    + intros st c2 Hs. apply (finish_packet c c1 c2 st l f 1); try done; try lia. by apply simple_packet.
  - destruct (negb _); [by apply Stop_at|]. pose proof (packet_size_range header) as Hsize.
    set (n := packet_size header) in *.
    assert (Esub : (fr_dword_count f - fr_offset f)%u32 = fr_dword_count f - fr_offset f)
      by (unfold sub32; apply to_u32_small; u32_lia).
    destruct (_ || _) eqn:Eb; [by apply Stop_at|]. rewrite Esub in Eb.
    destruct (n >? (_ - _)%u64) eqn:El; [by apply Stop_at|]. rewrite sub64_small in El by u64_lia. apply wp_bind.
    destruct (count_dwords n c) as [[c1 []]|] eqn:E1; [|done].
    destruct (count_dwords_spec n c c1 Hc Hp ltac:(lia) ltac:(lia) E1) as (S1 & T1 & F1 & P1 & R1 & G1).
    unfold wp at 1. rewrite E1. eapply wp_then.
    + apply process_packet_spec; [by apply sound_live| |].
      * split; cbn; [rewrite length_take, length_drop; lia|lia|by apply Forall_take, Forall_drop].
      * pose proof (co_depth _ K). pose proof (lo_depth _ (co_limits _ K)). unfold is_u32, u32_max in *. u64_lia.
    + intros st c2 Hs. apply (finish_packet c c1 c2 st l f n); try done; lia.
Qed.

(** ** The loop *)

Definition loop_post c st c' : Prop :=
  sound c' /\ kept c c' /\
  match st with
  | cmd_kComplete => cc_pending_wait (dc_cursor c') = None /\ frames c' = [] /\ accounted c c'
  | cmd_kBlocked => accounted c c' /\ (submitted c < submitted c' \/ sink_blocks)
  | _ => True
  end.

Definition measure_of c : Z :=
  2 * (max_processed_dwords (cc_limits (dc_cursor c)) - processed c) + Z.of_nat (length (frames c)).

Lemma loop_chain c c1 st c' : kept c c1 -> accounted c c1 -> loop_post c1 st c' -> loop_post c st c'.
Proof.
  intros [T1 T2 T5] Ha (S1 & [T3 T4 T6] & H). split; [done|]. split; [split; congruence || lia|]. destruct st; try done.
  - destruct H as (H1 & H2 & H3). split_and!; [done|done|by eapply accounted_trans].
  - destruct H as [H Hlt]. split; [by eapply accounted_trans|]. destruct Hlt; [left; lia|by right].
Qed.

Lemma frames_loop_spec fuel c :
  sound c -> cc_pending_wait (dc_cursor c) = None -> measure_of c < Z.of_nat fuel ->
  wp (frames_loop fuel) (loop_post c) c.
Proof.
  revert c. induction fuel as [|fuel IH]; intros c Hc Hp Hm.
  { pose proof (co_processed _ (proj2 Hc)). unfold measure_of in Hm. lia. }
  cbn [frames_loop]. apply wp_bind. unfold get, wp at 1. cbv zeta. destruct (last (frames c)) as [f|] eqn:El.
  2:{ apply last_None in El. apply wp_ret. split; [done|]. split; [done|]. split_and!; [done|done|].
      exists 0. split; [by apply accepted_refl|lia]. }
  apply last_Some in El as [l Hf]. destruct (_ =? _) eqn:Eo.
  - apply wp_bind. unfold modify, wp at 1. rewrite Hf, removelast_last.
    set (c1 := with_cursor c (set_frames (dc_cursor c) l)).
    assert (S1 : sound c1).
    { destruct Hc as [M [K1 K2 K3 K4 K5 K6 K7]]. rewrite Hf in K4, K5, K6. split; [done|]. split; cbn; try done.
      - by apply Forall_app in K4 as [? _].
      - rewrite length_app in K5. cbn [length] in K5. lia.
      - rewrite map_app in K6. by apply NoDup_app in K6 as (? & _).
      - rewrite Hp. done. }
    eapply wp_mono; [apply IH; [done|done|]|].
    + unfold measure_of, c1 in *. rewrite Hf, length_app in Hm. cbn [length] in Hm. cbn. lia.
    + intros st c'. apply loop_chain; [done|]. exists 0. split; [by apply accepted_refl|].
      unfold due, pending_dwords, c1. cbn -[remaining]. rewrite Hp, Hf, remaining_app, remaining_one. lia.
  - eapply wp_then; [apply (process_at_spec l); [done|done|done|lia]|]. intros st c1 (S1 & T1 & H1).
    destruct (is_complete st) eqn:Ec; cbn [negb].
    + apply is_complete_spec in Ec as ->. destruct H1 as (P1 & R1 & L1 & A1).
      eapply wp_mono; [apply IH; [done|done|]|].
      * unfold measure_of in *. rewrite (kp_limits _ _ T1). lia.
      * intros st c'. by apply loop_chain.
    + apply wp_ret. split; [done|]. split; [done|]. by destruct st.
Qed.

(** Only the result of the cursor says that the buffer is blocked. *)
Definition still_blocked c c' : Prop := exists a o,
  c' = with_cursor c (set_result (dc_cursor c) (mkCommandResult cmd_kBlocked a (processed c) (submitted c) o)).

(** The wait a resumed buffer is blocked at: it is over, or it goes on and only
    the result of the cursor changes. *)
Lemma ResumePendingWait_spec c :
  sound c -> wp ResumePendingWait (fun st c' =>
    match st with
    | cmd_kComplete => sound c' /\ kept c c' /\ cc_pending_wait (dc_cursor c') = None /\ accounted c c'
    | cmd_kBlocked => sound c' /\ kept c c' /\ accounted c c' /\
        still_blocked c c'
    | _ => sound c' /\ kept c c'
    end) c.
Proof.
  intros Hc. unfold ResumePendingWait. apply wp_bind. unfold get, wp at 1.
  destruct (cc_pending_wait (dc_cursor c)) as [w|] eqn:Hp.
  2:{ apply wp_ret. split_and!; try done. exists 0. split; [by apply accepted_refl|lia]. }
  destruct (co_wait _ (proj2 Hc) w Hp) as ([Hw1 Hw2] & l & f & Hf & Hle).
  apply wp_ReadGuestValue; [by apply sound_live|done|]. intros [v|] Hv.
  2:{ apply wp_Stop; [by apply sound_live|]. intros c' Hq _ _. by split; [eapply calm_sound|apply calm_kept]. }
  destruct (negb (CompareWait _ _ _ _)).
  { assert (Hs : wp (Stop cmd_kBlocked (pw_packet_address w) (pw_opcode w)) (fun st c' => calm c c') c)
      by (by apply wp_Stop; [apply sound_live|]).
    unfold wp, Stop in *. split; [by eapply calm_sound|]. split; [by apply calm_kept|]. split; [|by eexists _, _].
    exists 0. split; [by apply accepted_refl|]. unfold due, pending_dwords. cbn -[remaining]. lia. }
  rewrite Hf, last_snoc. destruct (_ >? _) eqn:Eo.
  { apply wp_Stop; [by apply sound_live|]. intros c' Hq _ _. by split; [eapply calm_sound|apply calm_kept]. }
  pose proof Hc as [Hm [K1 K2 K3 K4 K5 K6 K7]]. rewrite Hf in K4, K5, K6.
  destruct (frames_advance _ l [] f (pw_packet_dwords w) K4 (lo_buffer _ K1) ltac:(lia) Hle) as (F1 & F2 & F3 & F4).
  unfold wp, mbind, decode_bind, advance, modify, mret, decode_ret. cbn -[advance_frame].
  rewrite Hf, alter_back. split; [|split; [done|split; [done|]]].
  - split; [done|]. split; cbn -[advance_frame]; try done.
    + rewrite length_app in *. done.
    + by rewrite F2.
  - exists 0. split; [by apply accepted_refl|]. unfold due, pending_dwords. cbn -[advance_frame remaining].
    rewrite Hp, Hf, F3. lia.
Qed.

Definition resumed_post c st c' : Prop :=
  sound c' /\ kept c c' /\
  match st with
  | cmd_kComplete => cc_pending_wait (dc_cursor c') = None /\ frames c' = [] /\ accounted c c'
  | cmd_kBlocked => accounted c c' /\ (submitted c < submitted c' \/ still_blocked c c' \/ sink_blocks)
  | _ => True
  end.

Lemma ProcessFrames_spec c : sound c -> wp ProcessFrames (resumed_post c) c.
Proof.
  intros Hc. unfold ProcessFrames. eapply wp_then; [by apply ResumePendingWait_spec|].
  intros st c1 H1. destruct (is_complete st) eqn:Ec; cbn [negb].
  - apply is_complete_spec in Ec as ->. destruct H1 as (S1 & T1 & P1 & A1). apply wp_bind. unfold get, wp at 1.
    eapply wp_mono; [apply frames_loop_spec; [done|done|]|].
    + pose proof (co_processed _ (proj2 S1)). unfold measure_of, frames_fuel. lia.
    + intros st c' Hl. destruct (loop_chain c c1 st c' T1 A1 Hl) as (S2 & T2 & H2). split; [done|]. split; [done|].
      destruct st; try done. destruct H2 as [? [?|?]]; (split; [done|]); [by left|by right; right].
  - apply wp_ret. destruct st; try done; try (by destruct H1; split_and!).
    destruct H1 as (S1 & T1 & A1 & H1). split; [done|]. split; [done|]. split; [done|by right; left].
Qed.

Lemma Resume_spec k g (s : S) :
  cursor_ok k -> memory_ok (gr_memory g) -> cc_terminal k = false ->
  exists c st, ProcessFrames (mkContext g s (restart k)) = Some (c, st) /\
    resumed_post (mkContext g s (restart k)) st c /\
    ResumeCommandBuffer k g s =
      Some (dc_runtime c, dc_sink c,
        set_terminal (set_result (dc_cursor c) (set_status (cc_result (dc_cursor c)) st)) (negb (bool_decide (st = cmd_kBlocked))),
        set_status (cc_result (dc_cursor c)) st).
Proof.
  intros Hk Hm Ht. assert (Hs : sound (mkContext g s (restart k))).
  { split; [done|]. by destruct Hk. }
  pose proof (ProcessFrames_spec _ Hs) as Hw. unfold wp in Hw.
  destruct (ProcessFrames (mkContext g s (restart k))) as [[c st]|] eqn:E; [|done]. exists c, st. split; [done|]. split; [exact Hw|].
  unfold ResumeCommandBuffer. rewrite Ht. by rewrite E.
Qed.

Lemma cursor_ok_result k st t : cursor_ok k -> cursor_ok (set_terminal (set_result k (set_status (cc_result k) st)) t).
Proof. intros []. by split. Qed.
End steps.
#[global] Arguments SinkKeepsMemory S {_}.
#[global] Arguments sink_blocks S {_}.

(** ** Sinks keep the memory sound *)

#[global] Instance trace_keeps_memory : SinkKeepsMemory GpuActionTrace.
Proof. intros a m s _ Hm. unfold Submit, trace_sink, Trace_Submit. by destruct (_ >=? _). Qed.

#[global] Instance ring_keeps_memory : SinkKeepsMemory GpuActionRing.
Proof. intros a m s _ Hm. unfold Submit, ring_sink, Ring_Submit. by repeat case_match; simplify_eq. Qed.

#[global] Instance event_keeps_memory `{ClockSource} {D} `{!SubmissionSink D} (Hd : SinkKeepsMemory D) :
  SinkKeepsMemory (GpuEventSubmissionSink D).
Proof.
  intros a m s Ha Hm. pose proof (Hd a m (es_downstream s) Ha Hm). unfold Submit, event_sink, Event_Submit.
  destruct (SubmissionSink0 a m (es_downstream s)) as [[m' d] st] eqn:E. unfold Submit in *. rewrite E in *.
  by repeat case_match; simplify_eq/=.
Qed.

Lemma Write32_le value : Gpu_Write32 value = le_bytes 4 value.
Proof. unfold Gpu_Write32. by rewrite le_bytes_map. Qed.
Lemma Write64_le value : Gpu_Write64 value = le_bytes 8 value.
Proof. unfold Gpu_Write64. by rewrite le_bytes_map. Qed.

Lemma store_keeps {D} address (bytes : list Z) m (s : GpuMemorySubmissionSink D) :
  memory_ok m -> is_u64 address -> Forall is_byte bytes -> memory_ok (store_bytes address bytes m s).1.1.
Proof.
  intros Hm Ha Hb. pose proof (memory_write address bytes m Hm Ha Hb) as H. unfold store_bytes.
  by destruct (Write address bytes m).
Qed.

Lemma payload_bytes l : Forall is_byte (concat (map Gpu_Write32 l)).
Proof.
  induction l as [|w l IH]; cbn [map concat]; [done|]. apply Forall_app. split; [|done]. rewrite Write32_le. apply le_bytes_are_bytes.
Qed.

#[global] Instance memory_keeps_memory {D} `{!SubmissionSink D} (Hd : SinkKeepsMemory D) :
  SinkKeepsMemory (GpuMemorySubmissionSink D).
Proof.
  intros a m s Ha Hm. pose proof (Hd a m (ms_downstream s) Ha Hm) as Hdown.
  assert (Hsub : memory_ok (submit_downstream a m s).1.1).
  { unfold submit_downstream. destruct (Submit a m (ms_downstream s)) as [[m' d] st]. done. }
  pose proof (action_value_u64 a 0%nat Ha) as Haddr.
  assert (H32 : forall v, Forall is_byte (Gpu_Write32 v)) by (intros v; rewrite Write32_le; apply le_bytes_are_bytes).
  assert (H64 : forall v, Forall is_byte (Gpu_Write64 v)) by (intros v; rewrite Write64_le; apply le_bytes_are_bytes).
  change (memory_ok (Memory_Submit a m s).1.1). unfold Memory_Submit. destruct (ga_type a); try done.
  - unfold write_data. cbv zeta. destruct (submit_downstream a m s) as [[m1 s1] st].
    repeat match goal with |- context [if ?b then _ else _] => destruct b end; try done.
    all: destruct (last (ga_payload a)); try done.
    all: repeat match goal with |- context [if ?b then _ else _] => destruct b end.
    all: by apply store_keeps; [|done|first [apply H32 | apply payload_bytes]].
  - unfold release_memory. cbv zeta. destruct (submit_downstream a m s) as [[m1 s1] st].
    repeat match goal with |- context [if ?b then _ else _] => destruct b end; try done.
    all: by apply store_keeps.
Qed.

(** ** The life of a command buffer *)

Lemma Begin_spec address n limits g :
  limits_ok limits -> is_u64 address -> is_u32 n -> memory_ok (gr_memory g) ->
  exists k, BeginCommandBuffer address n limits g = Some k /\ cursor_ok k /\ cc_limits k = limits /\
    cc_pending_wait k = None /\ cr_status (cc_result k) <> cmd_kBlocked /\
    cr_processed_dwords (cc_result k) = 0 /\
    (cc_terminal k = false -> remaining (cc_frames k) = n /\ cr_submitted_actions (cc_result k) = 0) /\
    (cc_terminal k = true -> cr_status (cc_result k) <> cmd_kComplete).
Proof.
  intros Hl Ha Hn Hm. pose proof (lo_actions _ Hl). pose proof (lo_processed _ Hl). pose proof (lo_depth _ Hl).
  unfold BeginCommandBuffer. destruct (_ || _).
  { eexists. split; [done|]. split_and!; try done. split; cbn; try done; try u64_lia; [u32_lia|constructor]. }
  set (k0 := mkCursor limits [] None GpuCommandResult_init false).
  assert (Hlive : live (mkContext g (GpuActionTrace_init 0) k0)) by (split; cbn; [done|done|u64_lia]).
  assert (Hsound : sound (mkContext g (GpuActionTrace_init 0) k0)).
  { split; [done|]. split; cbn; try done; try u64_lia; [u32_lia|constructor]. }
  pose proof (SnapshotFrame_spec address n _ Hlive Ha Hn) as Hw. unfold wp in Hw.
  destruct (SnapshotFrame _ _ _) as [[c st]|]; [|done]. eexists. split; [done|]. destruct st; try done.
  2-6: pose proof (calm_sound _ _ Hsound Hw) as [_ Hk]; destruct Hw as [[L1 L2 L3] Q2 Q3 Q4 Q5 Q6];
    split_and!; cbn; try done; by apply cursor_ok_result.
  destruct Hw as (words & Hg & E1 & E2). pose proof (grown_sound _ _ _ Hsound eq_refl Hg) as [_ Hk].
  destruct Hg as [G1 G2 G3 G4 G5 G6 G7 G8 G9 G10]. split_and!; cbn; try done; [by apply cursor_ok_result|].
  intros _. rewrite G3. cbn. split; [lia|done].
Qed.

(** The cursors a command buffer goes through: it is begun, and resumed in any
    states of the runtime and the sink. *)
Inductive reached {S} `{!SubmissionSink S} (address n : Z) (limits : GpuCommandLimits) : GpuCommandCursor -> Prop :=
| reached_begin g k :
    memory_ok (gr_memory g) -> BeginCommandBuffer address n limits g = Some k -> reached address n limits k
| reached_resume k g (s : S) g' s' k' r :
    reached address n limits k -> memory_ok (gr_memory g) ->
    ResumeCommandBuffer k g s = Some (g', s', k', r) -> reached address n limits k'.
#[global] Arguments reached S {_} _ _ _ _.

(** The same with the calls that the sink answered for this command buffer. *)
Inductive life {S} `{!SubmissionSink S} (log : S -> history) (address n : Z) (limits : GpuCommandLimits)
  : GpuCommandCursor -> history -> Prop :=
| life_begin g k :
    memory_ok (gr_memory g) -> BeginCommandBuffer address n limits g = Some k -> life log address n limits k []
| life_resume k l g s g' s' k' r l' :
    life log address n limits k l -> memory_ok (gr_memory g) -> cc_terminal k = false ->
    ResumeCommandBuffer k g s = Some (g', s', k', r) -> log s' = log s ++ l' ->
    life log address n limits k' (l ++ l').

Section lives.
Context {S : Type} `{!SubmissionSink S} `{!SinkKeepsMemory S}.
Context (address n : Z) (limits : GpuCommandLimits).
Context (Hlimits : limits_ok limits) (Haddress : is_u64 address) (Hn : is_u32 n).

Lemma reached_ok k :
  reached S address n limits k ->
  cursor_ok k /\ cc_limits k = limits /\ (cc_terminal k = true -> cr_status (cc_result k) <> cmd_kBlocked).
Proof.
  induction 1 as [g k Hm Hb|k g s g' s' k' r Hr IH Hm Hres].
  - destruct (Begin_spec address n limits g Hlimits Haddress Hn Hm) as (k1 & E & H1 & H2 & H3 & H4 & _).
    rewrite Hb in E. injection E as <-. by split_and!.
  - destruct IH as (K1 & K2 & K3). destruct (cc_terminal k) eqn:Et.
    { unfold ResumeCommandBuffer in Hres. rewrite Et in Hres. injection Hres as <- <- <- <-. by rewrite Et. }
    destruct (Resume_spec k g s K1 Hm Et) as (c & st & _ & ([_ Hc] & [T1 T2 _] & _) & E). rewrite Hres in E.
    injection E as -> -> -> ->. split_and!; [by apply cursor_ok_result|by rewrite <- K2|].
    cbn. destruct (bool_decide (st = cmd_kBlocked)) eqn:Eb; [done|]. by apply bool_decide_eq_false in Eb.
Qed.

Lemma resume_total k g (s : S) :
  reached S address n limits k -> memory_ok (gr_memory g) ->
  exists g' s' k', ResumeCommandBuffer k g s = Some (g', s', k', cc_result k') /\ memory_ok (gr_memory g') /\
    (cc_terminal k' = false <-> cr_status (cc_result k') = cmd_kBlocked).
Proof.
  intros Hr Hm. destruct (reached_ok k Hr) as (K1 & K2 & K3). destruct (cc_terminal k) eqn:Et.
  - exists g, s, k. unfold ResumeCommandBuffer. rewrite Et. split; [done|]. split; [done|].
    split; [done|]. intros H. by destruct (K3 eq_refl).
  - destruct (Resume_spec k g s K1 Hm Et) as (c & st & _ & ([Hc _] & _) & E).
    eexists _, _, _. split; [exact E|]. split; [done|]. cbn. destruct (bool_decide (st = cmd_kBlocked)) eqn:Eb.
    + by apply bool_decide_eq_true in Eb.
    + by apply bool_decide_eq_false in Eb.
Qed.

(** The account of a command buffer that has not failed. *)
Lemma life_account log k l :
  records log -> life log address n limits k l ->
  cursor_ok k /\ cc_limits k = limits /\
  (cc_terminal k = false \/ cr_status (cc_result k) = cmd_kComplete ->
     cr_processed_dwords (cc_result k) + remaining (cc_frames k) - pending_dwords k = n + entered l + repeated l /\
     cr_submitted_actions (cc_result k) = accepted_calls l) /\
  (cc_terminal k = true -> cr_status (cc_result k) = cmd_kComplete -> cc_frames k = [] /\ cc_pending_wait k = None).
Proof.
  intros Hlog. induction 1 as [g k Hm Hb|k l g s g' s' k' r l' Hlife IH Hm Ht Hres Hl'].
  - destruct (Begin_spec address n limits g Hlimits Haddress Hn Hm) as (k1 & E & H1 & H2 & H3 & H4 & H5 & H6 & H7).
    rewrite Hb in E. injection E as <-. split; [done|]. split; [done|]. split.
    + intros Hor. assert (Et : cc_terminal k = false).
      { destruct (cc_terminal k) eqn:Et; [|done]. destruct Hor as [?|?]; [done|by destruct (H7 eq_refl)]. }
      destruct (H6 Et) as [R1 R2]. unfold pending_dwords. rewrite H3, H5, R1, R2. simpl. lia.
    + intros Et Ec. by destruct (H7 Et).
  - destruct IH as (K1 & K2 & K3 & _). destruct (K3 (or_introl Ht)) as [A1 A2].
    destruct (Resume_spec k g s K1 Hm Ht) as (c & st & _ & ([_ Hc] & [T1 T2 _] & Hpost) & E). rewrite Hres in E.
    injection E as -> -> -> ->. split; [by apply cursor_ok_result|]. split; [by rewrite <- K2|].
    assert (Hacc : accounted (mkContext g s (restart k)) c ->
      cr_processed_dwords (cc_result (dc_cursor c)) + remaining (cc_frames (dc_cursor c)) - pending_dwords (dc_cursor c)
        = n + entered (l ++ l') + repeated (l ++ l') /\
      cr_submitted_actions (cc_result (dc_cursor c)) = accepted_calls (l ++ l')).
    { intros (e & He & Hdue). destruct (He log Hlog) as (l2 & L1 & L2 & L3). cbn [dc_sink dc_cursor] in *.
      rewrite Hl' in L1. apply app_inv_head in L1 as ->. unfold due in Hdue. cbn [dc_cursor] in Hdue.
      unfold pending_dwords in *. cbn -[remaining entered repeated accepted_calls] in Hdue, L3.
      destruct (history_app l l2) as (-> & -> & ->). lia. }
    destruct st; cbn [cc_terminal cc_result cr_status set_terminal set_result set_status bool_decide negb].
    3-7: by split; [intros [?|?]|].
    + destruct Hpost as (P1 & P2 & P3). split; [by intros _; apply Hacc|]. by intros _ _.
    + split; [|done]. intros _. by apply Hacc, Hpost.
Qed.
End lives.

(** C8: The command processor is safe and ends.  A command buffer can always be
    begun and, whatever its words are and in whatever states it was begun and
    resumed, it can be resumed with every sink that keeps the memory sound: no
    packet, table or frame is indexed out of range and the loop ends.  The work
    stays within the limits of dwords, actions and nesting, no buffer is nested
    in itself, and the cursor can be resumed again exactly when it is blocked. *)
Theorem command_stream_safe {S} `{!SubmissionSink S} `{!SinkKeepsMemory S} address n limits g :
  limits_ok limits -> is_u64 address -> is_u32 n -> memory_ok (gr_memory g) ->
  is_Some (BeginCommandBuffer address n limits g) /\
  forall k (s : S), reached S address n limits k ->
    exists g' s' k', ResumeCommandBuffer k g s = Some (g', s', k', cc_result k') /\
      memory_ok (gr_memory g') /\
      (cc_terminal k' = false <-> cr_status (cc_result k') = cmd_kBlocked) /\
      0 <= cr_processed_dwords (cc_result k') <= max_processed_dwords limits /\
      0 <= cr_submitted_actions (cc_result k') <= max_actions limits /\
      Z.of_nat (length (cc_frames k')) <= max_indirect_depth limits + 1 /\
      NoDup (map (fun f => (fr_address f, fr_dword_count f)) (cc_frames k')).
Proof.
  intros Hl Ha Hn Hm. split.
  { destruct (Begin_spec address n limits g Hl Ha Hn Hm) as (k & -> & _). by eexists. }
  intros k s Hk. destruct (resume_total address n limits Hl Ha Hn k g s Hk Hm) as (g' & s' & k' & E & Hm' & Hiff).
  exists g', s', k'. split; [done|]. split; [done|]. split; [done|].
  assert (Hk' : reached S address n limits k') by (by apply (reached_resume address n limits k g s g' s' k' (cc_result k'))).
  destruct (reached_ok address n limits Hl Ha Hn k' Hk') as ([K1 K2 K3 K4 K5 K6 K7] & El & _).
  rewrite El in K2, K3, K5. exact (conj K3 (conj K2 (conj K5 K6))).
Qed.

(** C9: Every word of a command buffer is processed, and again only after the sink
    blocked its packet.  For any sink, over the whole life of a command buffer,
    blocked at waits or by the sink and resumed any number of times while the guest
    memory, the registers and the sink change in between: when it completes, the
    dwords processed are its own, those of the buffers its accepted actions
    entered, and once more those of each packet that the sink blocked; the actions
    counted are those the sink accepted.  So no packet is skipped, a wait is not
    counted again when it is resumed, and a packet is processed again exactly when
    the sink blocked it: its dwords are then charged to the limit a second time.
    Before that, what is processed and what the frames still hold add up to the
    same. *)
Theorem command_words_processed_once {S} `{!SubmissionSink S} `{!SinkKeepsMemory S} log address n limits k l :
  limits_ok limits -> is_u64 address -> is_u32 n -> records log -> life log address n limits k l ->
  (cc_terminal k = false ->
     cr_processed_dwords (cc_result k) + remaining (cc_frames k) - pending_dwords k = n + entered l + repeated l /\
     cr_submitted_actions (cc_result k) = accepted_calls l) /\
  (cc_terminal k = true -> cr_status (cc_result k) = cmd_kComplete ->
     cr_processed_dwords (cc_result k) = n + entered l + repeated l /\
     cr_submitted_actions (cc_result k) = accepted_calls l).
Proof.
  intros Hl Ha Hn Hlog Hlife.
  destruct (life_account address n limits Hl Ha Hn log k l Hlog Hlife) as (_ & _ & H1 & H2). split.
  - intros Ht. apply H1. by left.
  - intros Ht Hc. destruct (H2 Ht Hc) as [Ef Ep]. destruct (H1 (or_intror Hc)) as [E1 E2].
    unfold pending_dwords in E1. rewrite Ef, Ep in E1. unfold remaining in E1. simpl in E1. split; [lia|done].
Qed.
