(* ===== verification/SubmissionQueue.v ===== *)
(** The submission queues of the GPU ([src/gpu/submission_queue.cpp]): command
    buffers are queued, one queue for graphics and one per compute owner, and
    drained in passes over the queues.

    A queue is the list of its submissions.  Beginning and resuming a command
    buffer can be undefined in the model ([None]); the theorems show that they
    are not. *)
From S2P Require Import Prelude OrderedMap LittleEndian Words32 SharedBacking GuestMemory.
From S2P Require Import CommandProcessor CommandProcessorProps.

(** ** Data *)

Inductive GpuEnqueueStatus :=
| enqueue_kAccepted | enqueue_kInvalidArgument | enqueue_kMemoryFault | enqueue_kResourceLimit.

#[global] Instance GpuEnqueueStatus_eq_dec : EqDecision GpuEnqueueStatus.
Proof. solve_decision. Defined.

Record GpuQueueLimits := mkQueueLimits {
  max_pending_submissions : Z;
  max_pending_root_dwords : Z;
  max_drain_passes : Z;
  ql_command : GpuCommandLimits
}.

Definition GpuQueueLimits_init : GpuQueueLimits := mkQueueLimits 64 4000000 256 GpuCommandLimits_init.

Record GpuEnqueueResult := mkEnqueueResult {
  er_status : GpuEnqueueStatus;
  er_submission_id : Z;
  er_command : GpuCommandResult
}.

Definition enqueue_result (status : GpuEnqueueStatus) (id : Z) : GpuEnqueueResult :=
  mkEnqueueResult status id GpuCommandResult_init.

Record GpuCommandBufferDescriptor := mkDescriptor { cb_address : Z; cb_dword_count : Z }.

Record GpuQueueDrainResult := mkDrainResult {
  dn_completed_submissions : Z;
  dn_failed_submissions : Z;
  dn_blocked_queues : Z;
  dn_pending_submissions : Z;
  dn_first_failure : option GpuCommandResult;
  dn_pass_limit_reached : bool
}.

Definition GpuQueueDrainResult_init : GpuQueueDrainResult := mkDrainResult 0 0 0 0 None false.

Record Submission := mkSubmission { su_id : Z; su_root_dwords : Z; su_cursor : GpuCommandCursor }.

(** [QueueState] *)
Definition QueueState : Type := list Submission.

(** [limits_], [next_submission_id_], [pending_submissions_] and
    [pending_root_dwords_]. *)
Record QueueCounters := mkCounters {
  qc_limits : GpuQueueLimits;
  qc_next_submission_id : Z;
  qc_pending_submissions : Z;
  qc_pending_root_dwords : Z
}.

Record GpuSubmissionQueue := mkSubmissionQueue {
  sq_graphics : QueueState;
  sq_compute_queues : list (Z * QueueState);
  sq_counters : QueueCounters
}.

Definition GpuSubmissionQueue_init : GpuSubmissionQueue :=
  mkSubmissionQueue [] [] (mkCounters GpuQueueLimits_init 1 0 0).

Implicit Types (k : QueueCounters) (q : QueueState) (sq : GpuSubmissionQueue) (g : GpuRuntime).
Implicit Types (limits : GpuQueueLimits) (cursor : GpuCommandCursor).

Definition EnqueueStatus (status : GpuCommandStatus) : GpuEnqueueStatus :=
  match status with
  | cmd_kInvalidArgument => enqueue_kInvalidArgument
  | cmd_kMemoryFault => enqueue_kMemoryFault
  | cmd_kResourceLimit => enqueue_kResourceLimit
  | cmd_kComplete | cmd_kBlocked | cmd_kMalformedPacket | cmd_kUnsupportedPacket => enqueue_kInvalidArgument
  end.

(** ** Enqueueing *)

(** The result of a failure, or the cursor. *)
Definition Prepare (address dword_count : Z) limits k g : option (GpuEnqueueResult + GpuCommandCursor) :=
  if (max_pending_submissions limits =? 0) || (max_pending_root_dwords limits =? 0) || (max_drain_passes limits =? 0)
     || (qc_pending_submissions k >=? max_pending_submissions limits)
     || (dword_count >? (max_pending_root_dwords limits
                         - Z.min (qc_pending_root_dwords k) (max_pending_root_dwords limits))%u64)
  then Some (inl (enqueue_result enqueue_kResourceLimit 0))
  else match BeginCommandBuffer address dword_count (ql_command limits) g with
  | None => None
  | Some cursor =>
      Some (if cc_terminal cursor
            then inl (mkEnqueueResult (EnqueueStatus (cr_status (cc_result cursor))) 0 (cc_result cursor))
            else inr cursor)
  end.

Definition Commit q (dword_count : Z) limits cursor k : QueueState * QueueCounters * GpuEnqueueResult :=
  if (qc_next_submission_id k =? 0) || (qc_pending_root_dwords k >? (u64_max - dword_count)%u64)
  then (q, k, enqueue_result enqueue_kResourceLimit 0)
  else
    let id := qc_next_submission_id k in
    (q ++ [mkSubmission id dword_count cursor],
     mkCounters limits (id + 1)%u64 (qc_pending_submissions k + 1)%u64 (qc_pending_root_dwords k + dword_count)%u64,
     enqueue_result enqueue_kAccepted id).

(** [Enqueue], on the graphics queue. *)
Definition EnqueueGraphics (address dword_count : Z) limits sq g : option (GpuSubmissionQueue * GpuEnqueueResult) :=
  match Prepare address dword_count limits (sq_counters sq) g with
  | None => None
  | Some (inl failed) => Some (sq, failed)
  | Some (inr cursor) =>
      let '(q, k, result) := Commit (sq_graphics sq) dword_count limits cursor (sq_counters sq) in
      Some (mkSubmissionQueue q (sq_compute_queues sq) k, result)
  end.

(** [compute_queues_.try_emplace(owner)] *)
Definition try_emplace (owner : Z) (queues : list (Z * QueueState)) : list (Z * QueueState) * QueueState * bool :=
  match om_find owner queues with
  | Some q => (queues, q, false)
  | None => (om_emplace owner [] queues, [], true)
  end.

Definition EnqueueCompute (owner address dword_count : Z) limits sq g
    : option (GpuSubmissionQueue * GpuEnqueueResult) :=
  match Prepare address dword_count limits (sq_counters sq) g with
  | None => None
  | Some (inl failed) => Some (sq, failed)
  | Some (inr cursor) =>
      let '(queues, q, _) := try_emplace owner (sq_compute_queues sq) in
      let '(q', k, result) := Commit q dword_count limits cursor (sq_counters sq) in
      Some (mkSubmissionQueue (sq_graphics sq) (om_update owner (fun _ => q') queues) k, result)
  end.

(** The sum of the sizes; [None] when it overflows. *)
Fixpoint total_dwords (buffers : list GpuCommandBufferDescriptor) (total : Z) : option Z :=
  match buffers with
  | [] => Some total
  | b :: rest => if cb_dword_count b >? (u64_max - total)%u64 then None
                 else total_dwords rest (total + cb_dword_count b)%u64
  end.

(** The cursors of a batch, or the result of the first failure. *)
Fixpoint begin_all (buffers : list GpuCommandBufferDescriptor) limits g
    : option (GpuEnqueueResult + list GpuCommandCursor) :=
  match buffers with
  | [] => Some (inr [])
  | b :: rest =>
      match BeginCommandBuffer (cb_address b) (cb_dword_count b) (ql_command limits) g with
      | None => None
      | Some cursor =>
          if cc_terminal cursor
          then Some (inl (mkEnqueueResult (EnqueueStatus (cr_status (cc_result cursor))) 0 (cc_result cursor)))
          else match begin_all rest limits g with
          | None => None
          | Some (inl failed) => Some (inl failed)
          | Some (inr cursors) => Some (inr (cursor :: cursors))
          end
      end
  end.

(** The submissions of a batch, with consecutive identifiers. *)
Fixpoint batch_submissions (id : Z) (buffers : list GpuCommandBufferDescriptor) (cursors : list GpuCommandCursor)
    : list Submission :=
  match buffers, cursors with
  | b :: buffers', cursor :: cursors' =>
      mkSubmission id (cb_dword_count b) cursor :: batch_submissions (id + 1)%u64 buffers' cursors'
  | _, _ => []
  end.

Definition EnqueueBatch q (buffers : list GpuCommandBufferDescriptor) limits k g
    : option (QueueState * QueueCounters * GpuEnqueueResult) :=
  let refused := Some (q, k, enqueue_result enqueue_kResourceLimit 0) in
  let count := Z.of_nat (length buffers) in
  if count =? 0 then Some (q, k, enqueue_result enqueue_kInvalidArgument 0)
  else if (max_pending_submissions limits =? 0) || (max_pending_root_dwords limits =? 0)
          || (max_drain_passes limits =? 0) || (count >? max_pending_submissions limits)
          || (qc_pending_submissions k >? (max_pending_submissions limits - count)%u64)
  then refused
  else match total_dwords buffers 0 with
  | None => refused
  | Some total =>
      if (total >? max_pending_root_dwords limits)
         || (qc_pending_root_dwords k >? (max_pending_root_dwords limits - total)%u64)
      then refused
      else if (qc_next_submission_id k =? 0) || (count - 1 >? (u64_max - qc_next_submission_id k)%u64)
      then refused
      else match begin_all buffers limits g with
      | None => None
      | Some (inl failed) => Some (q, k, failed)
      | Some (inr cursors) =>
          let first_id := qc_next_submission_id k in
          Some (q ++ batch_submissions first_id buffers cursors,
                mkCounters limits (first_id + count)%u64 (qc_pending_submissions k + count)%u64
                  (qc_pending_root_dwords k + total)%u64,
                enqueue_result enqueue_kAccepted first_id)
      end
  end.

Definition EnqueueGraphicsBatch (buffers : list GpuCommandBufferDescriptor) limits sq g
    : option (GpuSubmissionQueue * GpuEnqueueResult) :=
  match EnqueueBatch (sq_graphics sq) buffers limits (sq_counters sq) g with
  | None => None
  | Some (q, k, result) => Some (mkSubmissionQueue q (sq_compute_queues sq) k, result)
  end.

Definition EnqueueComputeBatch (owner : Z) (buffers : list GpuCommandBufferDescriptor) limits sq g
    : option (GpuSubmissionQueue * GpuEnqueueResult) :=
  let '(queues, q, inserted) := try_emplace owner (sq_compute_queues sq) in
  match EnqueueBatch q buffers limits (sq_counters sq) g with
  | None => None
  | Some (q', k, result) =>
      let entered := om_update owner (fun _ => q') queues in
      let failed := negb (bool_decide (er_status result = enqueue_kAccepted)) in
      let kept := if failed && inserted && (Z.of_nat (length q') =? 0) then om_erase owner entered else entered in
      Some (mkSubmissionQueue (sq_graphics sq) kept k, result)
  end.

(** ** Draining *)

Section drain.
Context {S : Type} `{!SubmissionSink S}.
Implicit Types (sink : S) (drain : GpuQueueDrainResult).

(** What a pass works on. *)
Record DrainState := mkDrainState {
  ds_runtime : GpuRuntime;
  ds_sink : S;
  ds_counters : QueueCounters;
  ds_drain : GpuQueueDrainResult
}.
Implicit Types (d : DrainState).

Definition record_end (result : GpuCommandResult) drain : GpuQueueDrainResult :=
  if is_complete (cr_status result)
  then mkDrainResult (dn_completed_submissions drain + 1)%u64 (dn_failed_submissions drain) (dn_blocked_queues drain)
         (dn_pending_submissions drain) (dn_first_failure drain) (dn_pass_limit_reached drain)
  else mkDrainResult (dn_completed_submissions drain) (dn_failed_submissions drain + 1)%u64 (dn_blocked_queues drain)
         (dn_pending_submissions drain)
         (match dn_first_failure drain with Some f => Some f | None => Some result end) (dn_pass_limit_reached drain).

Definition release_submission (submission : Submission) k : QueueCounters :=
  mkCounters (qc_limits k) (qc_next_submission_id k) (qc_pending_submissions k - 1)%u64
    (qc_pending_root_dwords k - su_root_dwords submission)%u64.

(** The lambda [process_queue]: the queue, the state and whether it progressed. *)
Fixpoint process_queue (q : QueueState) (progressed : bool) d : option (QueueState * DrainState * bool) :=
  match q with
  | [] => Some ([], d, progressed)
  | submission :: rest =>
      let actions_before := cr_submitted_actions (cc_result (su_cursor submission)) in
      match ResumeCommandBuffer (su_cursor submission) (ds_runtime d) (ds_sink d) with
      | None => None
      | Some (g, sink, cursor, result) =>
          let progressed' := progressed || negb (cr_submitted_actions result =? actions_before) in
          if bool_decide (cr_status result = cmd_kBlocked)
          then Some (mkSubmission (su_id submission) (su_root_dwords submission) cursor :: rest,
                     mkDrainState g sink (ds_counters d) (ds_drain d), progressed')
          else process_queue rest true
                 (mkDrainState g sink (release_submission submission (ds_counters d)) (record_end result (ds_drain d)))
      end
  end.

Fixpoint process_queues (queues : list (Z * QueueState)) (progressed : bool) d
    : option (list (Z * QueueState) * DrainState * bool) :=
  match queues with
  | [] => Some ([], d, progressed)
  | (owner, q) :: rest =>
      match process_queue q false d with
      | None => None
      | Some (q', d', p) =>
          match process_queues rest (p || progressed) d' with
          | None => None
          | Some (rest', d'', p') => Some ((owner, q') :: rest', d'', p')
          end
      end
  end.

(** One pass: the graphics queue and then the compute queues. *)
Definition drain_pass (graphics : QueueState) (compute : list (Z * QueueState)) d
    : option (QueueState * list (Z * QueueState) * DrainState * bool) :=
  match process_queue graphics false d with
  | None => None
  | Some (graphics', d1, p) =>
      match process_queues compute p d1 with
      | None => None
      | Some (compute', d2, p') => Some (graphics', compute', d2, p')
      end
  end.

(** The passes; the last result is [settled]. *)
Fixpoint drain_passes (n : nat) (graphics : QueueState) (compute : list (Z * QueueState)) d
    : option (QueueState * list (Z * QueueState) * DrainState * bool) :=
  match n with
  | O => Some (graphics, compute, d, false)
  | Datatypes.S n' =>
      match drain_pass graphics compute d with
      | None => None
      | Some (graphics', compute', d', progressed) =>
          if negb progressed then Some (graphics', compute', d', true) else drain_passes n' graphics' compute' d'
      end
  end.

Definition is_empty_queue (q : QueueState) : bool := match q with [] => true | _ => false end.

Definition Drain sq g sink : option (GpuSubmissionQueue * GpuRuntime * S * GpuQueueDrainResult) :=
  let limits := qc_limits (sq_counters sq) in
  match drain_passes (Z.to_nat (max_drain_passes limits)) (sq_graphics sq) (sq_compute_queues sq)
          (mkDrainState g sink (sq_counters sq) GpuQueueDrainResult_init) with
  | None => None
  | Some (graphics, compute, d, settled) =>
      let k := ds_counters d in
      let waiting := List.filter (fun e => negb (is_empty_queue e.2)) compute in
      let result := mkDrainResult (dn_completed_submissions (ds_drain d)) (dn_failed_submissions (ds_drain d))
        ((if is_empty_queue graphics then 0 else 1) + Z.of_nat (length waiting))%u64 (qc_pending_submissions k)
        (dn_first_failure (ds_drain d)) (negb settled && negb (qc_pending_submissions k =? 0)) in
      Some (mkSubmissionQueue graphics waiting k, ds_runtime d, ds_sink d, result)
  end.

Definition PendingSubmissionCount sq : Z := qc_pending_submissions (sq_counters sq).
End drain.
#[global] Arguments DrainState S : clear implicits.

(** ** Soundness of the queues *)

Definition root_dwords (l : list Submission) : Z := foldr Z.add 0 (map su_root_dwords l).

(** All submissions, of the compute queues and of all queues. *)
Definition contents (compute : list (Z * QueueState)) : list Submission := concat (map snd compute).
Definition queued (graphics : QueueState) (compute : list (Z * QueueState)) : list Submission :=
  graphics ++ contents compute.

Section soundness.
Context {S : Type} `{!SubmissionSink S} `{!SinkKeepsMemory S}.

(** A queued command buffer was begun, may have been resumed, and is not over. *)
Definition submission_ok (x : Submission) : Prop :=
  is_u32 (su_root_dwords x) /\ cc_terminal (su_cursor x) = false /\
  exists address command, is_u64 address /\ limits_ok command /\
    reached S address (su_root_dwords x) command (su_cursor x).

(** The identifiers issued so far; [next] is 0 when they are used up. *)
Definition issued (next id : Z) : Prop := 1 <= id <= u64_max /\ (next = 0 \/ id < next).

Record queues_ok (graphics : QueueState) (compute : list (Z * QueueState)) k : Prop := {
  qk_owners : om_sorted compute;
  qk_submissions : Forall submission_ok (queued graphics compute);
  qk_pending : qc_pending_submissions k = Z.of_nat (length (queued graphics compute));
  qk_root : qc_pending_root_dwords k = root_dwords (queued graphics compute);
  qk_width : is_u64 (qc_pending_submissions k) /\ is_u64 (qc_pending_root_dwords k);
  qk_next : is_u64 (qc_next_submission_id k);
  qk_issued : Forall (fun x => issued (qc_next_submission_id k) (su_id x)) (queued graphics compute);
  qk_distinct : NoDup (map su_id (queued graphics compute));
  qk_order : Forall (fun q => StronglySorted Z.lt (map su_id q)) (graphics :: map snd compute)
}.

Definition queue_ok sq : Prop := queues_ok (sq_graphics sq) (sq_compute_queues sq) (sq_counters sq).

Record queue_limits_ok limits : Prop := {
  ql_submissions : is_u64 (max_pending_submissions limits);
  ql_root_dwords : is_u64 (max_pending_root_dwords limits);
  ql_passes : is_u32 (max_drain_passes limits);
  ql_commands : limits_ok (ql_command limits)
}.

(** A buffer that is begun and not over is fit for a queue. *)
Lemma begin_submission address n command g cursor id :
  is_u64 address -> is_u32 n -> limits_ok command -> memory_ok (gr_memory g) ->
  BeginCommandBuffer address n command g = Some cursor -> cc_terminal cursor = false ->
  submission_ok (mkSubmission id n cursor).
Proof.
  intros Ha Hn Hl Hm Hb Ht. split; [done|]. split; [done|]. exists address, command. split_and!; try done.
  by eapply reached_begin.
Qed.

(** A resumed submission stays in its queue exactly when it is blocked. *)
Lemma resume_submission x g (s : S) :
  submission_ok x -> memory_ok (gr_memory g) ->
  exists g' s' cursor, ResumeCommandBuffer (su_cursor x) g s = Some (g', s', cursor, cc_result cursor) /\
    memory_ok (gr_memory g') /\
    (cr_status (cc_result cursor) = cmd_kBlocked -> submission_ok (mkSubmission (su_id x) (su_root_dwords x) cursor)).
Proof.
  intros (Hn & Ht & address & command & Ha & Hl & Hr) Hm.
  destruct (resume_total address (su_root_dwords x) command Hl Ha Hn (su_cursor x) g s Hr Hm)
    as (g' & s' & cursor & E & Hm' & Hiff). exists g', s', cursor. split; [done|]. split; [done|].
  intros Hb. split; [done|]. split; [by apply Hiff|]. exists address, command. split_and!; try done.
  by apply (reached_resume address (su_root_dwords x) command (su_cursor x) g s g' s' cursor (cc_result cursor)).
Qed.

(** A buffer that is blocked without a new action waits for memory: nothing else
    has happened, and resuming it again does the same. *)
Lemma resume_stuck x g (s : S) g' s' cursor r :
  submission_ok x -> memory_ok (gr_memory g) -> ~ sink_blocks S ->
  ResumeCommandBuffer (su_cursor x) g s = Some (g', s', cursor, r) -> cr_status r = cmd_kBlocked ->
  cr_submitted_actions r = cr_submitted_actions (cc_result (su_cursor x)) ->
  g' = g /\ s' = s /\ ResumeCommandBuffer cursor g s = Some (g, s, cursor, r).
Proof.
  intros (Hn & Ht & address & command & Ha & Hl & Hr) Hm Hb Hres Hst Hsub.
  destruct (reached_ok address (su_root_dwords x) command Hl Ha Hn _ Hr) as (Hk & _ & _).
  destruct (Resume_spec (su_cursor x) g s Hk Hm Ht) as (c & st & Ep & (_ & _ & Hpost) & E).
  rewrite Hres in E. injection E as -> -> -> ->. cbn in Hst, Hsub. subst st.
  destruct Hpost as (_ & [Hlt|[(a & o & Hc)|?]]); [cbn in Hlt; lia| |done].
  split; [by rewrite Hc|]. split; [by rewrite Hc|]. set (k' := set_terminal _ _).
  assert (Ek : restart k' = restart (su_cursor x)).
  { unfold k', restart, set_terminal, set_status, set_result. rewrite Hc. cbn. by rewrite Ht. }
  assert (Et : cc_terminal k' = false) by done.
  unfold ResumeCommandBuffer. rewrite Et, Ek, Ep. unfold k'. by rewrite Hc.
Qed.

(** ** A pass over a queue *)

Implicit Types (d : DrainState S).

Abbreviation ended d := (dn_completed_submissions (ds_drain d) + dn_failed_submissions (ds_drain d)).
Abbreviation pending d := (qc_pending_submissions (ds_counters d)).
Abbreviation pending_root d := (qc_pending_root_dwords (ds_counters d)).

(** The counters can be decremented for [count] submissions of [root] dwords. *)
Record drainable d (count root : Z) : Prop := {
  db_memory : memory_ok (gr_memory (ds_runtime d));
  db_pending : count <= pending d;
  db_root : root <= pending_root d <= u64_max;
  db_ended : 0 <= dn_completed_submissions (ds_drain d) /\ 0 <= dn_failed_submissions (ds_drain d) /\
             ended d + pending d <= u64_max
}.

(** What a pass that leaves [after] of [before] does to the state. *)
Record passed d d' (before after : list Submission) : Prop := {
  ps_memory : memory_ok (gr_memory (ds_runtime d'));
  ps_limits : qc_limits (ds_counters d') = qc_limits (ds_counters d);
  ps_next : qc_next_submission_id (ds_counters d') = qc_next_submission_id (ds_counters d);
  ps_pending : pending d' - Z.of_nat (length after) = pending d - Z.of_nat (length before);
  ps_root : pending_root d' - root_dwords after = pending_root d - root_dwords before;
  ps_ended : 0 <= dn_completed_submissions (ds_drain d') /\ 0 <= dn_failed_submissions (ds_drain d') /\
             ended d' + pending d' = ended d + pending d
}.

Lemma root_dwords_app l1 l2 : root_dwords (l1 ++ l2) = root_dwords l1 + root_dwords l2.
Proof. induction l1 as [|x l1 IH]; unfold root_dwords in *; simpl; [done|]. rewrite IH. lia. Qed.
Lemma root_dwords_nonneg l : Forall submission_ok l -> 0 <= root_dwords l.
Proof. induction 1 as [|x l Hx Hl IH]; unfold root_dwords in *; simpl; [done|]. destruct Hx as [Hx _]. u32_lia. Qed.

Lemma passed_drainable d d' before after count root :
  passed d d' before after -> drainable d (count + Z.of_nat (length before)) (root + root_dwords before) ->
  0 <= root_dwords after -> root_dwords after <= root_dwords before ->
  drainable d' (count + Z.of_nat (length after)) (root + root_dwords after).
Proof. intros [P1 P2 P3 P4 P5 P6] [D1 D2 D3 D4] H0 H1. split; [done|lia|lia|lia]. Qed.

(** Nothing happens to the queue in this state of the runtime and the sink. *)
Definition idle_queue g (sink : S) q : Prop := forall k drain,
  process_queue q false (mkDrainState g sink k drain) = Some (q, mkDrainState g sink k drain, false).

(** The first submission of the queue, if there is one, was blocked. *)
Definition head_blocked (q : QueueState) : Prop :=
  match q with [] => True | x :: _ => cr_status (cc_result (su_cursor x)) = cmd_kBlocked end.

Lemma process_queue_spec q p d :
  Forall submission_ok q -> drainable d (Z.of_nat (length q)) (root_dwords q) ->
  exists q' d' p', process_queue q p d = Some (q', d', p') /\ passed d d' q q' /\ Forall submission_ok q' /\
    map su_id q' `suffix_of` map su_id q /\ root_dwords q' <= root_dwords q /\
    (p' = false -> p = false) /\
    (p' = false -> ~ sink_blocks S -> d' = d /\ idle_queue (ds_runtime d) (ds_sink d) q') /\
    head_blocked q'.
Proof.
  intros Hq. revert p d. induction Hq as [|x q Hx Hq IH]; intros p d Hd.
  { exists [], d, p. destruct Hd. by split_and!; try done; split; try done; lia. }
  cbn [process_queue]. destruct (resume_submission x (ds_runtime d) (ds_sink d) Hx (db_memory _ _ _ Hd))
    as (g & sink & cursor & E & Hm & Hb). rewrite E. case_bool_decide as Eb.
  - specialize (Hb Eb). eexists _, _, _. split; [reflexivity|]. split_and!.
    + destruct Hd. split; cbn; try done; lia.
    + by constructor.
    + by exists [].
    + cbn. lia.
    + intros Hp. by apply orb_false_iff in Hp as [-> _].
    + intros Hp Hnb. apply orb_false_iff in Hp as [-> Hs%negb_false_iff%Z.eqb_eq].
      destruct (resume_stuck x _ _ _ _ _ _ Hx (db_memory _ _ _ Hd) Hnb E Eb Hs) as (-> & -> & E2).
      split; [by destruct d|]. intros k drain. cbn [process_queue su_cursor ds_runtime ds_sink]. rewrite E2.
      case_bool_decide; [|done]. by rewrite Z.eqb_refl.
    + exact Eb.
  - set (d1 := mkDrainState g sink _ _). pose proof (root_dwords_nonneg q Hq). destruct Hx as (Hroot & Hx').
    assert (Hroot' : root_dwords (x :: q) = su_root_dwords x + root_dwords q) by done.
    assert (Hp1 : pending d1 = pending d - 1 /\ pending_root d1 = pending_root d - su_root_dwords x).
    { destruct Hd. cbn [length] in *. unfold d1, release_submission, is_u32 in *. cbn.
      rewrite !sub64_small by u64_lia. done. }
    assert (He1 : 0 <= dn_completed_submissions (ds_drain d1) /\ 0 <= dn_failed_submissions (ds_drain d1) /\
      ended d1 = ended d + 1).
    { destruct Hd. cbn [length] in *. unfold d1, record_end. cbn [ds_drain].
      destruct (is_complete _); cbn; rewrite add64_small by u64_lia; lia. }
    destruct (IH true d1) as (q' & d' & p' & E1 & [P1 P2 P3 P4 P5 P6] & Hok & Hsuf & Hle & Hp & _ & Hstuck).
    { destruct Hd. cbn [length] in *. u32_lia || (split; unfold is_u32 in *; try done; lia). }
    exists q', d', p'. split; [done|]. assert (p' = true) as -> by (destruct p'; [done|by specialize (Hp eq_refl)]).
    cbn [length map]. split_and!; try done.
    + split; try done; cbn [length]; lia.
    + by apply suffix_cons_r.
    + unfold is_u32 in *. lia.
Qed.

(** Every queue lost submissions only at its front. *)
Definition trimmed (compute compute' : list (Z * QueueState)) : Prop :=
  Forall2 (fun e e' => e'.1 = e.1 /\ map su_id e'.2 `suffix_of` map su_id e.2) compute compute'.

Lemma process_queues_spec compute p d :
  Forall submission_ok (contents compute) -> drainable d (Z.of_nat (length (contents compute))) (root_dwords (contents compute)) ->
  exists compute' d' p', process_queues compute p d = Some (compute', d', p') /\
    passed d d' (contents compute) (contents compute') /\ Forall submission_ok (contents compute') /\
    trimmed compute compute' /\ root_dwords (contents compute') <= root_dwords (contents compute) /\
    (p' = false -> p = false) /\
    (p' = false -> ~ sink_blocks S ->
       d' = d /\ Forall (fun e => idle_queue (ds_runtime d) (ds_sink d) e.2) compute') /\
    Forall (fun e => head_blocked e.2) compute'.
Proof.
  revert p d. induction compute as [|[owner q] compute IH]; intros p d Hq Hd.
  { exists [], d, p. destruct Hd. split_and!; try done; [|constructor]. split; try done; lia. }
  unfold contents in *. cbn [map snd concat] in *. apply Forall_app in Hq as [Hq Hrest].
  rewrite length_app, Nat2Z.inj_add, root_dwords_app in Hd. pose proof (root_dwords_nonneg q Hq).
  pose proof (root_dwords_nonneg _ Hrest). cbn [process_queues].
  destruct (process_queue_spec q false d Hq) as (q' & d1 & p1 & E1 & P1 & Hq' & Hs1 & Hle1 & _ & Hidle1 & Hst1).
  { destruct Hd. split; try done; lia. }
  rewrite E1. pose proof (root_dwords_nonneg q' Hq').
  assert (Hd1 : drainable d1 (Z.of_nat (length (concat (map snd compute)))) (root_dwords (concat (map snd compute)))).
  { destruct P1, Hd. split; try done; lia. }
  destruct (IH (p1 || p) d1 Hrest Hd1) as (rest' & d2 & p2 & E2 & P2 & Hr' & Ht2 & Hle2 & Hp2 & Hidle2 & Hst2).
  rewrite E2. exists ((owner, q') :: rest'), d2, p2. split; [done|]. cbn [map snd concat]. split_and!.
  - destruct P1 as [A1 A2 A3 A4 A5 A6], P2 as [B1 B2 B3 B4 B5 B6].
    split; rewrite ?length_app, ?root_dwords_app; try done; try congruence; lia.
  - by apply Forall_app.
  - by constructor.
  - rewrite !root_dwords_app. lia.
  - intros Hf. by apply orb_false_iff in Hp2 as [_ ?].
  - intros Hf Hnb. pose proof (Hp2 Hf) as Hor. apply orb_false_iff in Hor as [-> ->].
    destruct (Hidle1 eq_refl Hnb) as [-> Eq]. destruct (Hidle2 Hf Hnb) as [-> Er]. split; [done|]. by constructor.
  - by constructor.
Qed.

(** ** Passes *)

Definition pass_post graphics compute d graphics' compute' d' : Prop :=
  passed d d' (queued graphics compute) (queued graphics' compute') /\
  Forall submission_ok (queued graphics' compute') /\
  map su_id graphics' `suffix_of` map su_id graphics /\ trimmed compute compute' /\
  root_dwords (queued graphics' compute') <= root_dwords (queued graphics compute).

Lemma drain_pass_spec graphics compute d :
  Forall submission_ok (queued graphics compute) ->
  drainable d (Z.of_nat (length (queued graphics compute))) (root_dwords (queued graphics compute)) ->
  exists graphics' compute' d' p, drain_pass graphics compute d = Some (graphics', compute', d', p) /\
    pass_post graphics compute d graphics' compute' d' /\
    (p = false -> ~ sink_blocks S -> d' = d /\ idle_queue (ds_runtime d) (ds_sink d) graphics' /\
       Forall (fun e => idle_queue (ds_runtime d) (ds_sink d) e.2) compute') /\
    head_blocked graphics' /\ Forall (fun e => head_blocked e.2) compute'.
Proof.
  intros Hq Hd. unfold queued in *. apply Forall_app in Hq as [Hq Hrest].
  rewrite length_app, Nat2Z.inj_add, root_dwords_app in Hd. pose proof (root_dwords_nonneg _ Hq).
  pose proof (root_dwords_nonneg _ Hrest). unfold drain_pass.
  destruct (process_queue_spec graphics false d Hq) as (q' & d1 & p1 & E1 & P1 & Hq' & Hs1 & Hle1 & _ & Hidle1 & Hst1).
  { destruct Hd. split; try done; lia. }
  rewrite E1. pose proof (root_dwords_nonneg q' Hq').
  destruct (process_queues_spec compute p1 d1 Hrest) as (rest' & d2 & p2 & E2 & P2 & Hr' & Ht2 & Hle2 & Hp2 & Hidle2 & Hst2).
  { destruct P1, Hd. split; try done; lia. }
  rewrite E2. exists q', rest', d2, p2. split; [done|]. split; [|split].
  - unfold pass_post, queued. split; [|split; [by apply Forall_app|split; [done|split; [done|rewrite !root_dwords_app; lia]]]].
    destruct P1 as [A1 A2 A3 A4 A5 A6], P2 as [B1 B2 B3 B4 B5 B6].
    split; rewrite ?length_app, ?root_dwords_app; try done; try congruence; lia.
  - intros Hf Hnb. pose proof (Hp2 Hf) as ->. destruct (Hidle1 eq_refl Hnb) as [-> Eq].
    by destruct (Hidle2 Hf Hnb) as [-> Er].
  - done.
Qed.

Lemma passed_trans d1 d2 d3 l1 l2 l3 : passed d1 d2 l1 l2 -> passed d2 d3 l2 l3 -> passed d1 d3 l1 l3.
Proof. intros [A1 A2 A3 A4 A5 A6] [B1 B2 B3 B4 B5 B6]. split; try done; try congruence; lia. Qed.

Lemma trimmed_refl compute : trimmed compute compute.
Proof. induction compute; constructor; done. Qed.
Lemma trimmed_trans c1 c2 c3 : trimmed c1 c2 -> trimmed c2 c3 -> trimmed c1 c3.
Proof.
  intros H. revert c3. induction H as [|e e' c1 c2 [H1 H2] Hrest IH]; intros c3 H3; inversion H3 as [|? e'' ? c3' [G1 G2]]; subst;
    constructor; [|by apply IH]. split; [congruence|by etrans].
Qed.

Lemma pass_post_trans q1 c1 d1 q2 c2 d2 q3 c3 d3 :
  pass_post q1 c1 d1 q2 c2 d2 -> pass_post q2 c2 d2 q3 c3 d3 -> pass_post q1 c1 d1 q3 c3 d3.
Proof.
  intros (A1 & A2 & A3 & A4 & A5) (B1 & B2 & B3 & B4 & B5). split_and!; [by eapply passed_trans|done|by etrans| |lia].
  by eapply trimmed_trans.
Qed.

Lemma drain_passes_spec n graphics compute d :
  Forall submission_ok (queued graphics compute) ->
  drainable d (Z.of_nat (length (queued graphics compute))) (root_dwords (queued graphics compute)) ->
  exists graphics' compute' d' settled, drain_passes n graphics compute d = Some (graphics', compute', d', settled) /\
    pass_post graphics compute d graphics' compute' d' /\
    (settled = true -> ~ sink_blocks S -> idle_queue (ds_runtime d') (ds_sink d') graphics' /\
       Forall (fun e => idle_queue (ds_runtime d') (ds_sink d') e.2) compute') /\
    (settled = true -> head_blocked graphics' /\ Forall (fun e => head_blocked e.2) compute').
Proof.
  revert graphics compute d. induction n as [|n IH]; intros graphics compute d Hq Hd; cbn [drain_passes].
  { exists graphics, compute, d, false. split; [done|]. split; [|done]. destruct Hd.
    split_and!; try done; [split; try done; lia|apply trimmed_refl]. }
  destruct (drain_pass_spec graphics compute d Hq Hd) as (g1 & c1 & d1 & p & E1 & Hpost & Hidle & Hblocked).
  rewrite E1. destruct p; cbn [negb].
  - destruct Hpost as (P1 & P2 & P3 & P4 & P5). destruct (IH g1 c1 d1 P2) as (g2 & c2 & d2 & st & E2 & Hpost2 & H2).
    { destruct P1, Hd. pose proof (root_dwords_nonneg _ P2). split; try done; lia. }
    exists g2, c2, d2, st. split; [done|]. split; [|done]. eapply pass_post_trans; [|exact Hpost2]. by split_and!.
  - exists g1, c1, d1, true. split; [done|]. split; [done|]. split; [|done]. intros _ Hnb.
    by destruct (Hidle eq_refl Hnb) as (-> & H1 & H2).
Qed.

(** ** Adding submissions *)

Lemma root_dwords_perm l1 l2 : l1 ≡ₚ l2 -> root_dwords l1 = root_dwords l2.
Proof. induction 1; unfold root_dwords in *; simpl; lia. Qed.

Lemma sorted_extend (q l : list Submission) next :
  StronglySorted Z.lt (map su_id q) -> Forall (fun x => su_id x < next) q ->
  map su_id l = seqZ next (Z.of_nat (length l)) -> StronglySorted Z.lt (map su_id (q ++ l)).
Proof.
  intros Hq Hlt Hl. rewrite map_app, Hl. clear Hl. apply StronglySorted_app_2; [| done |].
  - intros x y Hx%list_elem_of_In Hy%elem_of_seqZ. apply in_map_iff in Hx as (z & <- & Hz%list_elem_of_In).
    pose proof (proj1 (Forall_forall _ _) Hlt z Hz). simpl in *. lia.
  - generalize (length l). clear. intros n. revert next. induction n as [|n IH]; intros next; [constructor|].
    rewrite seqZ_cons by lia. constructor; [rewrite <- Nat2Z.inj_pred by lia; apply IH|].
    apply Forall_forall. intros y Hy%elem_of_seqZ. lia.
Qed.

(** [l] may be added with the next identifiers, and the counters then. *)
Record addable k (l : list Submission) : Prop := {
  ad_ok : Forall submission_ok l;
  ad_next : qc_next_submission_id k <> 0;
  ad_ids : map su_id l = seqZ (qc_next_submission_id k) (Z.of_nat (length l));
  ad_max : qc_next_submission_id k + Z.of_nat (length l) - 1 <= u64_max;
  ad_some : l <> [];
  ad_count : qc_pending_submissions k + Z.of_nat (length l) <= u64_max;
  ad_root : qc_pending_root_dwords k + root_dwords l <= u64_max
}.

Definition added limits k (l : list Submission) : QueueCounters :=
  mkCounters limits (qc_next_submission_id k + Z.of_nat (length l))%u64
    (qc_pending_submissions k + Z.of_nat (length l))%u64 (qc_pending_root_dwords k + root_dwords l)%u64.

Lemma queues_ok_add q1 c1 k1 q2 c2 l limits :
  queues_ok q1 c1 k1 -> om_sorted c2 -> queued q2 c2 ≡ₚ l ++ queued q1 c1 -> addable k1 l ->
  Forall (fun q => StronglySorted Z.lt (map su_id q)) (q2 :: map snd c2) -> queues_ok q2 c2 (added limits k1 l).
Proof.
  intros [Q1 Q2 Q3 Q4 [Q5 Q5'] Q6 Q7 Q8 Q9] Hs Hperm [Hl Hnext Hids Hmax Hne Hcount Hroot] Hord.
  pose proof (root_dwords_nonneg l Hl). set (n := Z.of_nat (length l)) in *.
  assert (Hn : 1 <= n) by (unfold n; destruct l; [done|cbn [length]; lia]).
  assert (Hid : forall x, x ∈ l -> qc_next_submission_id k1 <= su_id x < qc_next_submission_id k1 + n).
  { intros x Hx. apply elem_of_seqZ. rewrite <- Hids. apply list_elem_of_In, in_map, list_elem_of_In, Hx. }
  assert (Hnew : (qc_next_submission_id k1 + n)%u64 = 0 \/ (qc_next_submission_id k1 + n)%u64 = qc_next_submission_id k1 + n).
  { destruct (decide (qc_next_submission_id k1 + n = u64_modulus)) as [E|].
    - left. unfold add64. rewrite E. apply Z_mod_same_full.
    - right. apply add64_small. u64_lia. }
  unfold added. fold n. split; cbn; try done.
  - rewrite Hperm. by apply Forall_app.
  - rewrite Hperm, length_app, add64_small by u64_lia. lia.
  - rewrite (root_dwords_perm _ _ Hperm), root_dwords_app, add64_small by u64_lia. lia.
  - rewrite !add64_small by u64_lia. u64_lia.
  - apply is_u64_add64.
  - rewrite Hperm. apply Forall_app. split; apply Forall_forall; intros x Hx.
    + pose proof (Hid x Hx). split; [u64_lia|]. destruct Hnew as [?| ->]; [by left|right; lia].
    + destruct (proj1 (Forall_forall _ _) Q7 x Hx) as [H1 H2]. split; [done|].
      destruct Hnew as [?| ->]; [by left|right]. destruct H2; [done|lia].
  - rewrite Hperm, map_app, NoDup_app. split_and!; [rewrite Hids; apply NoDup_seqZ| |done].
    intros i Hi Hi'. rewrite Hids in Hi. apply elem_of_seqZ in Hi.
    apply list_elem_of_In, in_map_iff in Hi' as (x & <- & Hx%list_elem_of_In).
    destruct (proj1 (Forall_forall _ _) Q7 x Hx) as [_ [?|?]]; [done|lia].
Qed.

Lemma issued_below k (l : list Submission) :
  Forall (fun x => issued (qc_next_submission_id k) (su_id x)) l -> qc_next_submission_id k <> 0 ->
  Forall (fun x => su_id x < qc_next_submission_id k) l.
Proof. intros Hl Hn. eapply Forall_impl; [exact Hl|]. by intros x [_ [?|?]]. Qed.

Lemma add_graphics q c k l limits : queues_ok q c k -> addable k l -> queues_ok (q ++ l) c (added limits k l).
Proof.
  intros Hq Hl. pose proof Hq as [Q1 Q2 Q3 Q4 Q5 Q6 Q7 Q8 [Hg Hc]%Forall_cons].
  apply (queues_ok_add q c k); [done|done| |done|].
  - unfold queued. rewrite <- app_assoc, (app_assoc l). rewrite (app_assoc q). apply Permutation_app_tail, Permutation_app_comm.
  - constructor; [|done]. destruct Hl. apply (sorted_extend q l (qc_next_submission_id k)); [done| |done].
    apply issued_below; [|done]. by apply Forall_app in Q7 as [? _].
Qed.

Lemma contents_perm c1 c2 : c1 ≡ₚ c2 -> contents c1 ≡ₚ contents c2.
Proof.
  unfold contents. induction 1; cbn [map concat]; [done|by f_equiv| |by etrans].
  rewrite !app_assoc. apply Permutation_app_tail, Permutation_app_comm.
Qed.

Lemma try_emplace_spec owner c c' q inserted :
  om_sorted c -> try_emplace owner c = (c', q, inserted) ->
  om_sorted c' /\ om_find owner c' = Some q /\ contents c' ≡ₚ contents c /\
  (Forall (fun q => StronglySorted Z.lt (map su_id q)) (map snd c) ->
   Forall (fun q => StronglySorted Z.lt (map su_id q)) (map snd c')) /\
  (inserted = true -> q = [] /\ om_erase owner c' = c).
Proof.
  intros Hs. unfold try_emplace. destruct (om_find owner c) as [q0|] eqn:Ef; intros [= <- <- <-]; [by split_and!|].
  split_and!; [by apply om_emplace_sorted| |by rewrite (contents_perm _ _ (om_emplace_perm owner [] c Ef))| |].
  - rewrite om_find_emplace by done. rewrite Ef. by repeat case_match.
  - intros Hc. rewrite om_emplace_perm by done. by constructor; [constructor|].
  - intros _. split; [done|]. by apply om_erase_emplace.
Qed.

Lemma update_contents owner q l c :
  om_sorted c -> om_find owner c = Some q -> contents (om_update owner (fun _ => q ++ l) c) ≡ₚ l ++ contents c.
Proof.
  intros Hs Hf. rewrite (contents_perm _ _ (om_update_perm owner _ q c Hs Hf)).
  rewrite (contents_perm _ _ (om_erase_perm owner q c Hs Hf)). unfold contents. cbn [map concat snd].
  rewrite (app_assoc l). apply Permutation_app_tail, Permutation_app_comm.
Qed.

Lemma add_compute q c k owner c' qo inserted l limits :
  queues_ok q c k -> addable k l -> try_emplace owner c = (c', qo, inserted) ->
  queues_ok q (om_update owner (fun _ => qo ++ l) c') (added limits k l).
Proof.
  intros Hq Hl Ht. pose proof Hq as [Q1 Q2 Q3 Q4 Q5 Q6 Q7 Q8 [Hg Hc]%Forall_cons].
  destruct (try_emplace_spec _ _ _ _ _ Q1 Ht) as (T1 & T2 & T3 & T4 & _).
  apply (queues_ok_add q c k); [done|by apply om_update_sorted| |done|].
  - unfold queued. rewrite update_contents by done. rewrite T3, !app_assoc. apply Permutation_app_tail, Permutation_app_comm.
  - constructor; [done|]. rewrite (Permutation_map snd (om_update_perm owner _ qo c' T1 T2)).
    pose proof (T4 Hc) as Hc'. rewrite (Permutation_map snd (om_erase_perm owner qo c' T1 T2)) in Hc'.
    apply Forall_cons in Hc' as [Ho He]. constructor; [|done]. destruct Hl.
    apply (sorted_extend qo l (qc_next_submission_id k)); [done| |done]. apply issued_below; [|done].
    apply Forall_app in Q7 as [_ Q7]. rewrite <- T3, (contents_perm _ _ (om_erase_perm owner qo c' T1 T2)) in Q7.
    unfold contents in Q7. cbn [map concat snd] in Q7. by apply Forall_app in Q7 as [? _].
Qed.

(** An entry without submissions does not matter. *)
Lemma emplace_ok q c k owner c' qo inserted :
  queues_ok q c k -> try_emplace owner c = (c', qo, inserted) -> queues_ok q (om_update owner (fun _ => qo) c') k.
Proof.
  intros [Q1 Q2 Q3 Q4 Q5 Q6 Q7 Q8 [Hg Hc]%Forall_cons] Ht.
  destruct (try_emplace_spec _ _ _ _ _ Q1 Ht) as (T1 & T2 & T3 & T4 & _).
  assert (Hp : queued q (om_update owner (fun _ => qo) c') ≡ₚ queued q c).
  { unfold queued. apply Permutation_app_head. rewrite <- T3.
    replace (fun _ : QueueState => qo) with (fun _ : QueueState => qo ++ []) by (by rewrite app_nil_r).
    by rewrite (update_contents owner qo [] c' T1 T2). }
  split; rewrite ?Hp, ?(root_dwords_perm _ _ Hp); try done; [by apply om_update_sorted|].
  constructor; [done|]. rewrite (Permutation_map snd (om_update_perm owner _ qo c' T1 T2)).
  pose proof (T4 Hc) as Hc'. by rewrite (Permutation_map snd (om_erase_perm owner qo c' T1 T2)) in Hc'.
Qed.

(** ** Operations keep the queues sound *)

Definition buffer_ok (b : GpuCommandBufferDescriptor) : Prop := is_u64 (cb_address b) /\ is_u32 (cb_dword_count b).

Lemma EnqueueStatus_fails st : EnqueueStatus st <> enqueue_kAccepted.
Proof. by destruct st. Qed.

Lemma Prepare_spec address n limits k g :
  is_u64 address -> is_u32 n -> queue_limits_ok limits -> memory_ok (gr_memory g) ->
  exists r, Prepare address n limits k g = Some r /\
  match r with
  | inl failed => er_status failed <> enqueue_kAccepted
  | inr cursor => qc_pending_submissions k < u64_max /\ forall id, submission_ok (mkSubmission id n cursor)
  end.
Proof.
  intros Ha Hn [L1 L2 L3 L4] Hm. unfold Prepare. destruct (_ || _ || _ || _ || _) eqn:Eg; [by eexists|].
  destruct (Begin_spec address n _ g L4 Ha Hn Hm) as (cursor & E & _). rewrite E. eexists. split; [done|].
  destruct (cc_terminal cursor) eqn:Et; [apply EnqueueStatus_fails|].
  split; [u64_lia|]. intros id. by apply (begin_submission address n (ql_command limits) g cursor id).
Qed.

Lemma Commit_spec q n limits cursor k :
  (forall id, submission_ok (mkSubmission id n cursor)) -> is_u32 n -> is_u64 (qc_pending_root_dwords k) ->
  is_u64 (qc_next_submission_id k) -> qc_pending_submissions k < u64_max ->
  (exists x, Commit q n limits cursor k = (q ++ [x], added limits k [x], enqueue_result enqueue_kAccepted (su_id x)) /\
     su_root_dwords x = n /\ addable k [x]) \/
  Commit q n limits cursor k = (q, k, enqueue_result enqueue_kResourceLimit 0).
Proof.
  intros Hok Hn Hr Hx Hp. unfold Commit. destruct (_ || _) eqn:Eg; [by right|]. left.
  apply orb_false_iff in Eg as [E1 E2]. unfold is_u32, u32_max in Hn. rewrite sub64_small in E2 by u64_lia.
  exists (mkSubmission (qc_next_submission_id k) n cursor).
  split; [unfold added, root_dwords; cbn; by rewrite Z.add_0_r|]. split; [done|].
  split; cbn; try done; try u64_lia; by constructor.
Qed.

Lemma total_dwords_spec buffers total0 total :
  Forall buffer_ok buffers -> is_u64 total0 -> total_dwords buffers total0 = Some total ->
  total = total0 + foldr Z.add 0 (map cb_dword_count buffers) /\ is_u64 total.
Proof.
  intros Hb. revert total0. induction Hb as [|b buffers [_ Hb] Hrest IH]; intros total0 H0; cbn [total_dwords].
  { intros [= <-]. simpl. split; [lia|done]. }
  unfold is_u32, u32_max in Hb. rewrite sub64_small by u64_lia. destruct (_ >? _) eqn:E; [done|].
  rewrite add64_small by u64_lia. intros H. apply IH in H as [-> ?]; [|u64_lia]. cbn [map foldr]. split; [lia|done].
Qed.

Lemma begin_all_spec buffers limits g :
  Forall buffer_ok buffers -> queue_limits_ok limits -> memory_ok (gr_memory g) ->
  exists r, begin_all buffers limits g = Some r /\
  match r with
  | inl failed => er_status failed <> enqueue_kAccepted
  | inr cursors => Forall2 (fun b cursor => forall id, submission_ok (mkSubmission id (cb_dword_count b) cursor)) buffers cursors
  end.
Proof.
  intros Hb [L1 L2 L3 L4] Hm. induction Hb as [|b buffers [Ha Hn] Hrest IH]; cbn [begin_all]; [by eexists; split; [done|constructor]|].
  destruct (Begin_spec (cb_address b) (cb_dword_count b) _ g L4 Ha Hn Hm) as (cursor & E & _). rewrite E.
  destruct (cc_terminal cursor) eqn:Et; [eexists; split; [done|apply EnqueueStatus_fails]|].
  destruct IH as ([failed|cursors] & -> & IH); [by eexists|]. eexists. split; [done|]. constructor; [|done].
  intros id. by apply (begin_submission (cb_address b) (cb_dword_count b) (ql_command limits) g cursor id).
Qed.

Lemma batch_submissions_spec id buffers cursors :
  Forall2 (fun b cursor => forall id, submission_ok (mkSubmission id (cb_dword_count b) cursor)) buffers cursors ->
  0 <= id -> id + Z.of_nat (length buffers) - 1 <= u64_max ->
  let l := batch_submissions id buffers cursors in
  Forall submission_ok l /\ length l = length buffers /\ map su_id l = seqZ id (Z.of_nat (length buffers)) /\
  root_dwords l = foldr Z.add 0 (map cb_dword_count buffers).
Proof.
  intros H. revert id. induction H as [|b cursor buffers cursors Hb Hrest IH]; intros id Hid Hmax; cbv zeta; cbn [batch_submissions].
  { by split_and!. }
  cbn [length] in *. destruct buffers as [|b' buffers].
  - inversion Hrest; subst. cbn [batch_submissions]. rewrite seqZ_cons by lia. split_and!; try done.
    by constructor.
  - rewrite add64_small by (cbn [length] in *; u64_lia).
    destruct (IH (id + 1) ltac:(lia) ltac:(cbn [length] in *; lia)) as (I1 & I2 & I3 & I4).
    split_and!; [by constructor|exact (f_equal Datatypes.S I2)| |].
    + cbn [map su_id]. rewrite I3. rewrite (seqZ_cons id) by lia. f_equal. f_equal; lia.
    + unfold root_dwords in *. cbn [map foldr su_root_dwords]. rewrite I4. done.
Qed.

Lemma EnqueueBatch_spec q buffers limits k g :
  Forall buffer_ok buffers -> queue_limits_ok limits -> memory_ok (gr_memory g) ->
  is_u64 (qc_pending_submissions k) -> is_u64 (qc_pending_root_dwords k) -> is_u64 (qc_next_submission_id k) ->
  exists q' k' r, EnqueueBatch q buffers limits k g = Some (q', k', r) /\
  ((er_status r = enqueue_kAccepted /\ er_submission_id r = qc_next_submission_id k /\
    exists l, q' = q ++ l /\ k' = added limits k l /\ addable k l /\ map su_root_dwords l = map cb_dword_count buffers)
   \/ (er_status r <> enqueue_kAccepted /\ q' = q /\ k' = k)).
Proof.
  intros Hb Hl Hm Hp Hr Hx. pose proof Hl as [L1 L2 L3 L4]. unfold EnqueueBatch. cbv zeta.
  destruct (Z.of_nat (length buffers) =? 0) eqn:E0; [by eexists _, _, _; split; [done|right]|].
  destruct (_ || _ || _ || _ || _) eqn:Eg; [by eexists _, _, _; split; [done|right]|].
  destruct (total_dwords buffers 0) as [total|] eqn:Et; [|by eexists _, _, _; split; [done|right]].
  apply total_dwords_spec in Et as [Et Htot]; [|done|u64_lia].
  destruct ((total >? _) || _) eqn:Er; [by eexists _, _, _; split; [done|right]|].
  destruct ((qc_next_submission_id k =? 0) || _) eqn:En; [by eexists _, _, _; split; [done|right]|].
  destruct (begin_all_spec buffers limits g Hb Hl Hm) as ([failed|cursors] & -> & Hc).
  { eexists _, _, _. split; [reflexivity|]. right; by split_and!. }
  rewrite sub64_small in Eg, Er, En by u64_lia.
  destruct (batch_submissions_spec (qc_next_submission_id k) buffers cursors Hc) as (S1 & S2 & S3 & S4); [u64_lia|u64_lia|].
  eexists _, _, _. split; [reflexivity|]. left. split; [done|]. split; [done|]. eexists. split; [reflexivity|].
  assert (Hroots : forall id, map su_root_dwords (batch_submissions id buffers cursors) = map cb_dword_count buffers).
  { clear -Hc. induction Hc as [|b cursor buffers cursors _ _ IH]; intros id; cbn; [done|]. by rewrite IH. }
  split; [unfold added; by rewrite S2, S4, Et|]. split; [|apply Hroots].
  split; rewrite ?S2, ?S4; try done; try lia; try u64_lia. intros Hnil. rewrite Hnil in S2. simpl in S2. lia.
Qed.

(** What an accepted or refused call does to the queues: new submissions go to
    the back of one queue, a refusal adds none. *)
Lemma EnqueueGraphics_spec address n limits sq g :
  queue_ok sq -> is_u64 address -> is_u32 n -> queue_limits_ok limits -> memory_ok (gr_memory g) ->
  exists sq' r, EnqueueGraphics address n limits sq g = Some (sq', r) /\ queue_ok sq'.
Proof.
  intros Hq Ha Hn Hl Hm. pose proof (qk_width _ _ _ Hq) as [W1 W2]. pose proof (qk_next _ _ _ Hq). unfold EnqueueGraphics.
  destruct (Prepare_spec address n limits (sq_counters sq) g Ha Hn Hl Hm) as ([failed|cursor] & -> & Hr); [by eexists _, _|].
  destruct Hr as [Hp Hc].
  destruct (Commit_spec (sq_graphics sq) n limits cursor (sq_counters sq) Hc Hn W2 ltac:(done) Hp) as [(x & -> & _ & Hx)| ->];
    eexists _, _; (split; [reflexivity|]); [by apply add_graphics|done].
Qed.

Lemma EnqueueCompute_spec owner address n limits sq g :
  queue_ok sq -> is_u64 address -> is_u32 n -> queue_limits_ok limits -> memory_ok (gr_memory g) ->
  exists sq' r, EnqueueCompute owner address n limits sq g = Some (sq', r) /\ queue_ok sq'.
Proof.
  intros Hq Ha Hn Hl Hm. pose proof (qk_width _ _ _ Hq) as [W1 W2]. pose proof (qk_next _ _ _ Hq). unfold EnqueueCompute.
  destruct (Prepare_spec address n limits (sq_counters sq) g Ha Hn Hl Hm) as ([failed|cursor] & -> & Hr); [by eexists _, _|].
  destruct Hr as [Hp Hc]. destruct (try_emplace owner (sq_compute_queues sq)) as [[queues q] inserted] eqn:Et.
  destruct (Commit_spec q n limits cursor (sq_counters sq) Hc Hn W2 ltac:(done) Hp) as [(x & -> & _ & Hx)| ->];
    eexists _, _; (split; [reflexivity|]); [by eapply add_compute|by eapply emplace_ok].
Qed.

Lemma EnqueueGraphicsBatch_spec buffers limits sq g :
  queue_ok sq -> Forall buffer_ok buffers -> queue_limits_ok limits -> memory_ok (gr_memory g) ->
  exists sq' r, EnqueueGraphicsBatch buffers limits sq g = Some (sq', r) /\ queue_ok sq'.
Proof.
  intros Hq Hb Hl Hm. pose proof (qk_width _ _ _ Hq) as [W1 W2]. unfold EnqueueGraphicsBatch.
  destruct (EnqueueBatch_spec (sq_graphics sq) buffers limits (sq_counters sq) g Hb Hl Hm W1 W2 (qk_next _ _ _ Hq))
    as (q' & k' & r & -> & H). eexists _, _. split; [reflexivity|].
  destruct H as [(_ & _ & l & -> & -> & Hadd & _)|(_ & -> & ->)]; [by apply add_graphics|done].
Qed.

Lemma EnqueueComputeBatch_spec owner buffers limits sq g :
  queue_ok sq -> Forall buffer_ok buffers -> queue_limits_ok limits -> memory_ok (gr_memory g) ->
  exists sq' r, EnqueueComputeBatch owner buffers limits sq g = Some (sq', r) /\ queue_ok sq'.
Proof.
  intros Hq Hb Hl Hm. pose proof (qk_width _ _ _ Hq) as [W1 W2]. unfold EnqueueComputeBatch.
  destruct (try_emplace owner (sq_compute_queues sq)) as [[queues q] inserted] eqn:Et.
  destruct (EnqueueBatch_spec q buffers limits (sq_counters sq) g Hb Hl Hm W1 W2 (qk_next _ _ _ Hq))
    as (q' & k' & r & -> & H). cbv zeta. eexists _, _. split; [reflexivity|]. unfold queue_ok. cbn [sq_graphics sq_compute_queues sq_counters].
  destruct H as [(Hs & _ & l & -> & -> & Hadd & _)|(Hs & -> & ->)].
  - rewrite Hs, bool_decide_true by done. by eapply add_compute.
  - rewrite bool_decide_false by done. cbn [negb andb]. destruct inserted; cbn [andb]; [|by eapply emplace_ok].
    destruct (try_emplace_spec _ _ _ _ _ (qk_owners _ _ _ Hq) Et) as (T1 & T2 & _ & _ & Hi).
    destruct (Hi eq_refl) as [-> He]. cbn [length]. change (Z.of_nat 0 =? 0) with true.
    cbn iota. rewrite om_erase_update. by rewrite He.
Qed.

(** ** Draining keeps the queues sound *)

Lemma contents_waiting c : contents (List.filter (fun e => negb (is_empty_queue e.2)) c) = contents c.
Proof.
  unfold contents. induction c as [|[o q] c IH]; [done|]. cbn [List.filter map concat snd].
  destruct q; cbn [is_empty_queue negb map concat snd app]; [done|]. by rewrite IH.
Qed.

Lemma waiting_sorted c : om_sorted c -> om_sorted (List.filter (fun e => negb (is_empty_queue e.2)) c).
Proof.
  induction c as [|e c IH]; [done|]. intros [Hs Hlt]%om_sorted_cons. cbn [List.filter].
  destruct (negb _); [|by apply IH]. apply om_sorted_cons. split; [by apply IH|].
  intros x Hx. apply Hlt. by apply list_elem_of_In, List.filter_In, proj1, list_elem_of_In in Hx.
Qed.

Lemma trimmed_ids c c' : trimmed c c' -> c'.*1 = c.*1 /\ map su_id (contents c') `sublist_of` map su_id (contents c).
Proof.
  unfold contents. induction 1 as [|e e' c c' [H1 H2] Hrest [I1 I2]]; [done|].
  assert (Hsub : map su_id e'.2 `sublist_of` map su_id e.2) by (destruct H2 as [l ->]; by apply sublist_inserts_l).
  split; [rewrite !fmap_cons; by f_equal|]. cbn [map concat]. rewrite !map_app. by apply sublist_app.
Qed.

Lemma suffix_sorted (q q' : QueueState) :
  map su_id q' `suffix_of` map su_id q -> StronglySorted Z.lt (map su_id q) -> StronglySorted Z.lt (map su_id q').
Proof. intros [l ->]. apply StronglySorted_app_1_r. Qed.

Lemma trimmed_sorted c c' :
  trimmed c c' -> Forall (fun q => StronglySorted Z.lt (map su_id q)) (map snd c) ->
  Forall (fun q => StronglySorted Z.lt (map su_id q)) (map snd c').
Proof.
  induction 1 as [|e e' c c' [_ H2] Hrest IH]; cbn [map]; [done|]. intros [H3 H4]%Forall_cons.
  constructor; [by eapply suffix_sorted|by apply IH].
Qed.

(** Every queue left after a drain is the end of the queue before. *)
Definition drained (before after : list (Z * QueueState)) : Prop := forall owner q', (owner, q') ∈ after ->
  q' <> [] /\ exists q, (owner, q) ∈ before /\ map su_id q' `suffix_of` map su_id q.

Lemma trimmed_elem c c' owner q' :
  trimmed c c' -> (owner, q') ∈ c' -> exists q, (owner, q) ∈ c /\ map su_id q' `suffix_of` map su_id q.
Proof.
  intros Ht Hin. apply list_elem_of_lookup in Hin as [i Hi].
  destruct (Forall2_lookup_r _ _ _ _ _ Ht Hi) as ([o q] & Hq & [Ho Hs]). simpl in *. subst.
  exists q. split; [by eapply list_elem_of_lookup_2|done].
Qed.

Lemma Forall_waiting (P : Z * QueueState -> Prop) compute :
  Forall P compute -> Forall P (List.filter (fun e => negb (is_empty_queue e.2)) compute).
Proof.
  intros H. apply Forall_forall. intros e He. apply (proj1 (Forall_forall _ _) H).
  by apply list_elem_of_In, List.filter_In, proj1, list_elem_of_In in He.
Qed.

Lemma nothing_queued graphics compute :
  queued graphics compute = [] ->
  graphics = [] /\ List.filter (fun e => negb (is_empty_queue e.2)) compute = [].
Proof.
  intros [-> Hnil]%app_eq_nil. split; [done|].
  apply elem_of_nil_inv. intros [o q] Hin%list_elem_of_In%List.filter_In. destruct Hin as [Hin Hne].
  destruct q as [|x q]; [done|]. assert (x ∈ contents compute) as Hx; [|rewrite Hnil in Hx; by apply elem_of_nil in Hx].
  apply list_elem_of_In. unfold contents. apply in_concat. exists (x :: q). split; [|by left].
  apply in_map_iff. by exists (o, x :: q).
Qed.

Lemma Drain_spec sq g (s : S) :
  queue_ok sq -> memory_ok (gr_memory g) ->
  exists sq' g' s' r, Drain sq g s = Some (sq', g', s', r) /\ queue_ok sq' /\ memory_ok (gr_memory g') /\
    qc_limits (sq_counters sq') = qc_limits (sq_counters sq) /\
    map su_id (sq_graphics sq') `suffix_of` map su_id (sq_graphics sq) /\
    drained (sq_compute_queues sq) (sq_compute_queues sq') /\
    dn_completed_submissions r + dn_failed_submissions r = PendingSubmissionCount sq - PendingSubmissionCount sq' /\
    dn_pending_submissions r = PendingSubmissionCount sq' /\
    dn_blocked_queues r = ((if is_empty_queue (sq_graphics sq') then 0 else 1) + Z.of_nat (length (sq_compute_queues sq')))%u64 /\
    (dn_pass_limit_reached r = false -> ~ sink_blocks S ->
       idle_queue g' s' (sq_graphics sq') /\ Forall (fun e => idle_queue g' s' e.2) (sq_compute_queues sq')) /\
    (dn_pass_limit_reached r = false ->
       head_blocked (sq_graphics sq') /\ Forall (fun e => head_blocked e.2) (sq_compute_queues sq')).
Proof.
  intros Hq Hm. pose proof Hq as [Q1 Q2 Q3 Q4 [Q5 Q5'] Q6 Q7 Q8 [Hg Hc]%Forall_cons]. unfold Drain. cbv zeta.
  set (d := mkDrainState g s (sq_counters sq) GpuQueueDrainResult_init).
  destruct (drain_passes_spec (Z.to_nat (max_drain_passes (qc_limits (sq_counters sq)))) (sq_graphics sq)
    (sq_compute_queues sq) d Q2) as (graphics & compute & d' & settled & E & ([P1 P2 P3 P4 P5 P6] & R2 & R3 & R4 & R5) & Hset & Hhead).
  { split; cbn; try done; u64_lia. }
  rewrite E. eexists _, _, _, _. split; [reflexivity|].
  set (waiting := List.filter _ compute). assert (Ew : contents waiting = contents compute) by apply contents_waiting.
  destruct (trimmed_ids _ _ R4) as [Hkeys Hids]. pose proof (root_dwords_nonneg _ R2).
  assert (Hsub : map su_id (queued graphics compute) `sublist_of` map su_id (queued (sq_graphics sq) (sq_compute_queues sq))).
  { unfold queued. rewrite !map_app. apply sublist_app; [|done]. destruct R3 as [l ->]. by apply sublist_inserts_l. }
  unfold queue_ok, PendingSubmissionCount. cbn in P4, P5, P6 |- *. split_and!; try done; try lia.
  - split; unfold queued; rewrite ?Ew; fold (queued graphics compute); try done; try lia; try u64_lia.
    + apply waiting_sorted. by eapply om_sorted_keys.
    + by rewrite P3.
    + apply Forall_forall. intros x Hx. rewrite P3.
      assert (Hin : su_id x ∈ map su_id (queued (sq_graphics sq) (sq_compute_queues sq))).
      { apply (sublist_subseteq _ _ Hsub). apply list_elem_of_In, in_map, list_elem_of_In, Hx. }
      apply list_elem_of_In, in_map_iff in Hin as (y & <- & Hy%list_elem_of_In). by apply (proj1 (Forall_forall _ _) Q7 y).
    + by eapply sublist_NoDup.
    + constructor; [by eapply suffix_sorted|]. apply (trimmed_sorted _ _ R4) in Hc.
      rewrite Forall_map in Hc |- *. apply Forall_forall. intros e He. apply (proj1 (Forall_forall _ _) Hc).
      by apply list_elem_of_In, List.filter_In, proj1, list_elem_of_In in He.
  - intros owner q' Hin%list_elem_of_In%List.filter_In. destruct Hin as [Hin%list_elem_of_In Hne].
    split; [by intros ->|]. by eapply trimmed_elem.
  - intros Hlimit Hnb. destruct settled; cbn [negb andb] in Hlimit.
    + destruct (Hset eq_refl Hnb) as [I1 I2]. split; [done|]. by apply Forall_waiting.
    + apply negb_false_iff, Z.eqb_eq in Hlimit.
      destruct (nothing_queued graphics compute) as [-> Hnil]; [apply nil_length_inv; lia|].
      unfold waiting. by rewrite Hnil.
  - intros Hlimit. destruct settled; cbn [negb andb] in Hlimit.
    + destruct (Hhead eq_refl) as [I1 I2]. split; [done|]. by apply Forall_waiting.
    + apply negb_false_iff, Z.eqb_eq in Hlimit.
      destruct (nothing_queued graphics compute) as [-> Hnil]; [apply nil_length_inv; lia|].
      unfold waiting. by rewrite Hnil.
Qed.

(** ** Runs of the queue *)

Inductive queue_step : GpuSubmissionQueue -> GpuSubmissionQueue -> Prop :=
| step_graphics address n limits g sq sq' r :
    is_u64 address -> is_u32 n -> queue_limits_ok limits -> memory_ok (gr_memory g) ->
    EnqueueGraphics address n limits sq g = Some (sq', r) -> queue_step sq sq'
| step_compute owner address n limits g sq sq' r :
    is_u64 address -> is_u32 n -> queue_limits_ok limits -> memory_ok (gr_memory g) ->
    EnqueueCompute owner address n limits sq g = Some (sq', r) -> queue_step sq sq'
| step_graphics_batch buffers limits g sq sq' r :
    Forall buffer_ok buffers -> queue_limits_ok limits -> memory_ok (gr_memory g) ->
    EnqueueGraphicsBatch buffers limits sq g = Some (sq', r) -> queue_step sq sq'
| step_compute_batch owner buffers limits g sq sq' r :
    Forall buffer_ok buffers -> queue_limits_ok limits -> memory_ok (gr_memory g) ->
    EnqueueComputeBatch owner buffers limits sq g = Some (sq', r) -> queue_step sq sq'
| step_drain g (s : S) g' s' sq sq' r :
    memory_ok (gr_memory g) -> Drain sq g s = Some (sq', g', s', r) -> queue_step sq sq'.

Lemma queue_step_ok sq sq' : queue_ok sq -> queue_step sq sq' -> queue_ok sq'.
Proof.
  intros Hq Hstep. destruct Hstep as [address n limits g sq sq' r Ha Hn Hl Hm E|owner address n limits g sq sq' r Ha Hn Hl Hm E
    |buffers limits g sq sq' r Hb Hl Hm E|owner buffers limits g sq sq' r Hb Hl Hm E|g s g' s' sq sq' r Hm E].
  - destruct (EnqueueGraphics_spec address n limits sq g Hq Ha Hn Hl Hm) as (x & y & E' & Hx). rewrite E in E'. by injection E' as <- <-.
  - destruct (EnqueueCompute_spec owner address n limits sq g Hq Ha Hn Hl Hm) as (x & y & E' & Hx). rewrite E in E'. by injection E' as <- <-.
  - destruct (EnqueueGraphicsBatch_spec buffers limits sq g Hq Hb Hl Hm) as (x & y & E' & Hx). rewrite E in E'. by injection E' as <- <-.
  - destruct (EnqueueComputeBatch_spec owner buffers limits sq g Hq Hb Hl Hm) as (x & y & E' & Hx). rewrite E in E'. by injection E' as <- <-.
  - destruct (Drain_spec sq g s Hq Hm) as (x & ? & ? & ? & E' & Hx & _). rewrite E in E'. by injection E' as <- <- <- <-.
Qed.

Lemma queue_init_ok : queue_ok GpuSubmissionQueue_init.
Proof.
  split; cbn; try done; try u64_lia; [constructor|constructor|]. repeat constructor.
Qed.
End soundness.

(** C10: The submission queues are sound.  After any sequence of submissions,
    batches and drains, in any states of the runtime and the sink, the counters
    are the number and the total size of the queued command buffers, identifiers
    are distinct and increase along every queue, and every queued buffer can be
    resumed.  In every such state each call is defined and ends. *)
Theorem submission_queue_invariant {S} `{!SubmissionSink S} `{!SinkKeepsMemory S} sq :
  rtc (queue_step (S := S)) GpuSubmissionQueue_init sq ->
  queue_ok (S := S) sq /\
  PendingSubmissionCount sq = Z.of_nat (length (queued (sq_graphics sq) (sq_compute_queues sq))) /\
  forall g limits owner address n buffers (s : S),
    memory_ok (gr_memory g) -> queue_limits_ok limits -> is_u64 address -> is_u32 n -> Forall buffer_ok buffers ->
    is_Some (EnqueueGraphics address n limits sq g) /\ is_Some (EnqueueCompute owner address n limits sq g) /\
    is_Some (EnqueueGraphicsBatch buffers limits sq g) /\ is_Some (EnqueueComputeBatch owner buffers limits sq g) /\
    is_Some (Drain sq g s).
Proof.
  intros Hrun. assert (Hq : queue_ok (S := S) sq).
  { pose proof (queue_init_ok (S := S)) as Hinit. induction Hrun as [|x y z Hxy Hyz IH]; [done|].
    apply IH. by eapply queue_step_ok. }
  split; [done|]. split; [by apply Hq|]. intros g limits owner address n buffers s Hm Hl Ha Hn Hb. split_and!.
  - destruct (EnqueueGraphics_spec address n limits sq g Hq Ha Hn Hl Hm) as (? & ? & -> & _). by eexists.
  - destruct (EnqueueCompute_spec owner address n limits sq g Hq Ha Hn Hl Hm) as (? & ? & -> & _). by eexists.
  - destruct (EnqueueGraphicsBatch_spec buffers limits sq g Hq Hb Hl Hm) as (? & ? & -> & _). by eexists.
  - destruct (EnqueueComputeBatch_spec owner buffers limits sq g Hq Hb Hl Hm) as (? & ? & -> & _). by eexists.
  - destruct (Drain_spec sq g s Hq Hm) as (? & ? & ? & ? & -> & _). by eexists.
Qed.

Lemma process_queues_idle {S} `{!SubmissionSink S} g (s : S) k drain compute p :
  Forall (fun e => idle_queue g s e.2) compute ->
  process_queues compute p (mkDrainState g s k drain) = Some (compute, mkDrainState g s k drain, p).
Proof.
  intros H. revert p. induction H as [|[owner q] compute Hq Hrest IH]; intros p; cbn [process_queues]; [done|].
  simpl in Hq. rewrite Hq. cbn [orb]. by rewrite IH.
Qed.

Lemma waiting_all compute :
  Forall (fun e => e.2 <> []) compute -> List.filter (fun e : Z * QueueState => negb (is_empty_queue e.2)) compute = compute.
Proof. induction 1 as [|[o [|x q]] compute Hq Hrest IH]; cbn; [done|done|by rewrite IH]. Qed.

(** C11: Draining goes on until nothing can be done.  A drain takes submissions from
    the front of the queues only, and reports how many it ended and how many are
    left.  Unless it reports that the limit of passes was reached, every queue that
    is left starts with a blocked command buffer, whatever the sink answers.  With a
    sink that never answers that it is blocked these buffers wait for guest memory:
    draining again in the same state ends nothing, submits nothing and leaves
    everything as it is. *)
Theorem drain_reaches_quiescence {S} `{!SubmissionSink S} `{!SinkKeepsMemory S} sq g (s : S) :
  queue_ok (S := S) sq -> memory_ok (gr_memory g) ->
  exists sq' g' s' r, Drain sq g s = Some (sq', g', s', r) /\ queue_ok (S := S) sq' /\
    map su_id (sq_graphics sq') `suffix_of` map su_id (sq_graphics sq) /\
    drained (sq_compute_queues sq) (sq_compute_queues sq') /\
    dn_completed_submissions r + dn_failed_submissions r = PendingSubmissionCount sq - PendingSubmissionCount sq' /\
    dn_pending_submissions r = PendingSubmissionCount sq' /\
    (dn_pass_limit_reached r = false ->
       head_blocked (sq_graphics sq') /\ Forall (fun e => head_blocked e.2) (sq_compute_queues sq') /\
       (~ sink_blocks S ->
        Drain sq' g' s' = Some (sq', g', s', mkDrainResult 0 0 (dn_blocked_queues r) (dn_pending_submissions r) None false))).
Proof.
  intros Hq Hm. destruct (Drain_spec sq g s Hq Hm)
    as (sq' & g' & s' & r & E & Hq' & Hm' & El & H1 & H2 & H3 & H4 & H5 & H6 & H7). exists sq', g', s', r.
  split; [done|]. split_and!; try done. intros Hlimit. destruct (H7 Hlimit) as [I3 I4].
  split; [done|]. split; [done|]. intros Hnb. destruct (H6 Hlimit Hnb) as [I1 I2]. unfold Drain. rewrite El.
  assert (Hall : List.filter (fun e => negb (is_empty_queue e.2)) (sq_compute_queues sq') = sq_compute_queues sq').
  { apply waiting_all, Forall_forall. intros [o q] Hin. by apply (H2 o q). }
  unfold Drain in E. destruct (Z.to_nat _) as [|n]; cbn [drain_passes] in E |- *.
  - injection E as <- <- <- <-. cbn in Hlimit, Hall, H4, H5 |- *. by rewrite Hall, Hlimit.
  - unfold drain_pass. rewrite I1, process_queues_idle by done. cbn [negb]. rewrite Hall, H5, H4. by destruct sq'.
Qed.
