(* ===== verification/PacketWriter.v ===== *)
(** The packet writers of the GPU runtime ([src/gpu/runtime.cpp]): PM4 packets
    built from the arguments of the AGC calls and appended to a guest command
    buffer, whose cursors are a structure in guest memory.

    A builder gives the words of a packet or the error of the call
    ([nop_packet], [dispatch_packet], [agc_packet]); [AppendPacket] stores them.
    The last part relates the writers to the command processor that reads the
    packets back. *)
From S2P Require Import Prelude LittleEndian Words32 SharedBacking GuestMemory GuestMemoryMap GuestMemoryOps.
From S2P Require Import Ranges GuestMemoryData GuestMemoryWrite GuestBlocks CommandProcessor CommandProcessorProps.

(** ** Data *)

Definition kAgcCommandBufferCursorUpOffset : Z := 0x10.
Definition kAgcCommandBufferCursorDownOffset : Z := 0x18.
Definition kAgcCommandBufferCallbackOffset : Z := 0x20.
Definition kAgcCommandBufferReservedDwordsOffset : Z := 0x30.
Definition kMaximumPm4PacketDwords : Z := 0x4001.

Inductive GpuRuntimeStatus :=
| gpu_kOk | gpu_kInvalidArgument | gpu_kMemoryFault | gpu_kBufferTooSmall | gpu_kCallbackRequired | gpu_kResourceLimit.

Inductive AgcPacketType :=
| agc_kSetShRegisterDirect | agc_kSetCxRegisterDirect | agc_kSetUcRegisterDirect | agc_kSetIndexSize
| agc_kSetIndexBuffer | agc_kSetIndexCount | agc_kSetNumInstances | agc_kDrawIndex | agc_kDrawIndexMultiInstanced
| agc_kDrawIndexAuto | agc_kDrawIndexOffset | agc_kSetBaseIndirectArgs | agc_kDispatchIndirect | agc_kJump
| agc_kRewind | agc_kSetPredication | agc_kWriteData | agc_kReleaseMemory | agc_kEventWrite | agc_kGetLodStats
| agc_kWaitRegMem.

Record GpuPacketResult := mkPacketResult { pr_status : GpuRuntimeStatus; pr_address : Z }.
Record GpuPacketSizeResult := mkPacketSizeResult { ps_status : GpuRuntimeStatus; ps_dwords : Z }.

(** ** Words of packets *)

Definition kPm4LengthMask : Z := 0x3fff.
Definition kPm4RegisterMask : Z := 0x3f.
Definition kPm4NopOpcode : Z := 0x10.
Definition kPm4SetBaseOpcode : Z := 0x11.
Definition kPm4IndexBufferSizeOpcode : Z := 0x13.
Definition kPm4DispatchDirectOpcode : Z := 0x15.
Definition kPm4DispatchIndirectOpcode : Z := 0x16.
Definition kPm4SetPredicationOpcode : Z := 0x20.
Definition kPm4IndexBaseOpcode : Z := 0x26.
Definition kPm4DrawIndexOpcode : Z := 0x27.
Definition kPm4DrawIndexAutoOpcode : Z := 0x2d.
Definition kPm4NumInstancesOpcode : Z := 0x2f.
Definition kPm4DrawIndexOffsetOpcode : Z := 0x35.
Definition kPm4IndirectBufferOpcode : Z := 0x3f.
Definition kPm4EventWriteOpcode : Z := 0x46.
Definition kPm4RewindOpcode : Z := 0x59.
Definition kPm4SetContextRegisterOpcode : Z := 0x69.
Definition kPm4SetShRegisterOpcode : Z := 0x76.
Definition kPm4SetUconfigRegisterOpcode : Z := 0x79.
Definition kPm4SetUconfigRegisterIndexOpcode : Z := 0x7a.
Definition kPm4GetLodStatsOpcode : Z := 0x8e.
Definition kVgtIndexTypeRegister : Z := 0x243.
Definition kDirectDispatchModifierMask : Z := 0xa038.
Definition kDirectDispatchRequiredBits : Z := 0x41.

Infix "|||" := Z.lor (at level 50, left associativity) : u32_scope.

Definition MakePm4Header (dword_count opcode packet_register : Z) : Z :=
  (kPm4Type3 ||| ((sub32 dword_count 2 & kPm4LengthMask) <<< 16) ||| ((opcode & 0xff) <<< 8)
   ||| ((packet_register & kPm4RegisterMask) <<< 2))%u32.

Definition DrawIndexInitiator (modifier : Z) : Z :=
  if negb (Z.land modifier (Z.shiftl 1 32) =? 0) then 0 else ((to_u32 modifier >>> 3) & 0x20)%u32.

Definition WaitPoll (poll_cycles : Z) : Z := Z.min (poll_cycles >>> 4)%u32 0xffff.

Definition Wait32Control (compare_function operation cache_policy : Z) : Z :=
  (0x10 ||| (compare_function & 0x7) ||| ((operation & 0x3) <<< 8) ||| ((operation & 0xc) <<< 4)
   ||| ((cache_policy & 0x3) <<< 25))%u32.

Definition Wait64Control (compare_function operation cache_policy : Z) : Z :=
  (0x10 ||| (compare_function & 0x7) ||| ((operation & 0x1) <<< 8) ||| ((operation & 0x6) <<< 5)
   ||| ((cache_policy & 0x3) <<< 25))%u32.

(** [static_cast<std::uint32_t>(value >> 32U)] *)
Definition high32 (value : Z) : Z := to_u32 (Z.shiftr value 32).

(** ** The packets of the calls *)

Definition nop_packet (dword_count : Z) : GpuRuntimeStatus + list Z :=
  if (dword_count <? 2) || (dword_count >? kMaximumPm4PacketDwords) then inl gpu_kInvalidArgument
  else inr (<[0%nat := MakePm4Header dword_count kPm4NopOpcode 0]> (replicate (Z.to_nat dword_count) 0)).

Definition dispatch_packet (group_count_x group_count_y group_count_z modifier : Z) : list Z :=
  [MakePm4Header 5 kPm4DispatchDirectOpcode 0; group_count_x; group_count_y; group_count_z;
   ((modifier & kDirectDispatchModifierMask) ||| kDirectDispatchRequiredBits)%u32].

(** [argument(index)] *)
Definition argument (arguments : list Z) (index : nat) : Z := nth index arguments 0.

(** [kWriteData]: the data is read from the guest. *)
Definition write_data_packet (argument : nat -> Z) (m : GuestMemory) : GpuRuntimeStatus + list Z :=
  let data_address := argument 4%nat in
  let dword_count := to_u32 (argument 5%nat) in
  if (data_address =? 0) || (dword_count >? 0x3ffd) then inl gpu_kInvalidArgument
  else
    let byte_count := dword_count * 4 in
    match (if negb (byte_count =? 0) then Read data_address byte_count m else Some []) with
    | None => inl gpu_kMemoryFault
    | Some data =>
        let destination := to_u32 (argument 1%nat) in
        let cache_policy := to_u32 (argument 2%nat) in
        let increment := to_u32 (argument 6%nat) in
        let write_confirm := if destination =? 0 then 0 else Z.land (to_u32 (argument 7%nat)) 1 in
        inr ([MakePm4Header (4 + dword_count)%u32 kPm4NopOpcode kPm4WriteDataRegister;
              ((destination & 0xff) ||| ((cache_policy & 0xff) <<< 8) ||| ((increment & 0xff) <<< 16)
               ||| ((write_confirm & 0xff) <<< 24))%u32;
              Z.land (to_u32 (argument 3%nat)) (not32 3); high32 (argument 3%nat)]
             ++ map (fun i => Gpu_Read32 data (Z.of_nat i * 4)) (seq 0 (Z.to_nat dword_count)))
    end.

Definition release_memory_packet (argument : nat -> Z) : GpuRuntimeStatus + list Z :=
  let action := to_u32 (argument 1%nat) in
  let gcr_control := to_u32 (argument 2%nat) in
  let destination := to_u32 (argument 3%nat) in
  let cache_policy := to_u32 (argument 4%nat) in
  let destination_address := argument 5%nat in
  let data_selection := to_u32 (argument 6%nat) in
  let data := argument 7%nat in
  let gds_offset := to_u32 (argument 8%nat) in
  let gds_size := to_u32 (argument 9%nat) in
  let interrupt := to_u32 (argument 10%nat) in
  let interrupt_context := to_u32 (argument 11%nat) in
  if (destination >? 1) || ((data_selection >? 3) && negb (data_selection =? 5)) || (interrupt >? 4)
  then inl gpu_kInvalidArgument
  else
    let gcr_control := if Z.land gcr_control 0x300 =? 0x100 then Z.lor gcr_control 0x200 else gcr_control in
    let destination_address := if interrupt =? 4 then 0 else destination_address in
    let data := if interrupt =? 4 then 0
                else if data_selection =? 5
                then Z.lor (Z.land gds_offset 0xffff) (Z.shiftl (Z.land gds_size 0xffff) 16)
                else data in
    let event_index := if action >=? 0x2f then 6 else 5 in
    inr [MakePm4Header 8 kPm4NopOpcode kPm4ReleaseMemoryRegister;
         ((action & 0x3f) ||| (event_index <<< 8) ||| ((gcr_control & 0xfff) <<< 12)
          ||| ((cache_policy & 3) <<< 25))%u32;
         (((destination & 3) <<< 16) ||| ((interrupt & 7) <<< 24) ||| ((data_selection & 7) <<< 29))%u32;
         Z.land (to_u32 destination_address) (not32 3); high32 destination_address;
         to_u32 data; high32 data; Z.land interrupt_context 0x07ffffff].

Definition event_write_packet (argument : nat -> Z) : GpuRuntimeStatus + list Z :=
  let event_type := to_u32 (argument 1%nat) in
  let address := argument 2%nat in
  if event_type >? 0x3f then inl gpu_kInvalidArgument
  else if Z.land event_type 0xfe =? 0x38
  then inr [MakePm4Header 4 kPm4EventWriteOpcode 0; Z.lor 0x100 event_type;
            Z.land (to_u32 address) (not32 7); high32 address]
  else
    let control := if (event_type =? 7) || (event_type =? 15) || (event_type =? 16)
                   then Z.lor 0x400 event_type else event_type in
    inr [MakePm4Header 2 kPm4EventWriteOpcode 0; control].

Definition wait_packet (argument : nat -> Z) : GpuRuntimeStatus + list Z :=
  let size := to_u32 (argument 1%nat) in
  let compare := to_u32 (argument 2%nat) in
  let operation := to_u32 (argument 3%nat) in
  let cache_policy := to_u32 (argument 4%nat) in
  let address := argument 5%nat in
  let reference := argument 6%nat in
  let mask := argument 7%nat in
  let poll := WaitPoll (to_u32 (argument 8%nat)) in
  if (size >? 1) || (compare >? 7) || (operation >? 4) || (cache_policy >? 3) then inl gpu_kInvalidArgument
  else if size =? 0
  then inr [MakePm4Header 7 kPm4NopOpcode kPm4WaitMemory32Register;
            Z.land (to_u32 address) (not32 3); Z.land (high32 address) 0x3ffff; to_u32 mask; to_u32 reference;
            Wait32Control compare operation cache_policy; poll]
  else inr [MakePm4Header 9 kPm4NopOpcode kPm4WaitMemory64Register;
            Z.land (to_u32 address) (not32 7); Z.land (high32 address) 0x3ffff; to_u32 mask; high32 mask;
            to_u32 reference; high32 reference; Wait64Control compare operation cache_policy; poll].

(** The packets of [WriteAgcPacket] by type. *)
Definition agc_words (type : AgcPacketType) (argument : nat -> Z) (m : GuestMemory) : GpuRuntimeStatus + list Z :=
  let low i := to_u32 (argument i) in
  match type with
  | agc_kSetShRegisterDirect | agc_kSetCxRegisterDirect | agc_kSetUcRegisterDirect =>
      let opcode := match type with
                    | agc_kSetCxRegisterDirect => kPm4SetContextRegisterOpcode
                    | agc_kSetUcRegisterDirect => kPm4SetUconfigRegisterOpcode
                    | _ => kPm4SetShRegisterOpcode
                    end in
      inr [MakePm4Header 3 opcode 0; Z.land (low 1%nat) 0xffff; high32 (argument 1%nat)]
  | agc_kSetIndexSize =>
      inr [MakePm4Header 3 kPm4SetUconfigRegisterIndexOpcode 0; Z.lor 0x20000000 kVgtIndexTypeRegister;
           (0x400 ||| (low 1%nat & 0x3) ||| ((low 2%nat & 0x3) <<< 6))%u32]
  | agc_kSetIndexBuffer =>
      let address := argument 1%nat in
      if negb (Z.land address 1 =? 0) then inl gpu_kInvalidArgument
      else inr [MakePm4Header 3 kPm4IndexBaseOpcode 0; to_u32 address; high32 address]
  | agc_kSetIndexCount => inr [MakePm4Header 2 kPm4IndexBufferSizeOpcode 0; low 1%nat]
  | agc_kSetNumInstances => inr [MakePm4Header 2 kPm4NumInstancesOpcode 0; low 1%nat]
  | agc_kDrawIndex =>
      let count := low 1%nat in
      let address := argument 2%nat in
      if (address =? 0) || negb (Z.land address 1 =? 0) then inl gpu_kInvalidArgument
      else inr [MakePm4Header 6 kPm4DrawIndexOpcode 0; if count =? 0 then 1 else count; to_u32 address;
                high32 address; count; DrawIndexInitiator (argument 3%nat)]
  | agc_kDrawIndexMultiInstanced =>
      let count := low 1%nat in
      let index_address := argument 2%nat in
      let object_address := argument 3%nat in
      let instance_count := low 4%nat in
      if (index_address =? 0) || (object_address =? 0) || negb (Z.land index_address 1 =? 0)
      then inl gpu_kInvalidArgument
      else inr [MakePm4Header 9 0x3a 0; count; to_u32 index_address; high32 index_address;
                if instance_count =? 0 then 1 else instance_count; to_u32 object_address; high32 object_address;
                instance_count; Z.lor (DrawIndexInitiator (argument 5%nat)) 0x80]
  | agc_kDrawIndexAuto =>
      inr [MakePm4Header 3 kPm4DrawIndexAutoOpcode 0; low 1%nat; Z.lor (DrawIndexInitiator (argument 2%nat)) 0x2]
  | agc_kDrawIndexOffset =>
      let count := low 2%nat in
      inr [MakePm4Header 5 kPm4DrawIndexOffsetOpcode 0; if count =? 0 then 1 else count; low 1%nat; count;
           DrawIndexInitiator (argument 3%nat)]
  | agc_kSetBaseIndirectArgs =>
      let address := argument 2%nat in
      inr [Z.lor (MakePm4Header 4 kPm4SetBaseOpcode 0) (shl32 (low 1%nat) 1); 1;
           Z.land (to_u32 address) (not32 7); high32 address]
  | agc_kDispatchIndirect =>
      inr [MakePm4Header 3 kPm4DispatchIndirectOpcode 0; low 1%nat;
           ((low 2%nat & kDirectDispatchModifierMask) ||| kDirectDispatchRequiredBits)%u32]
  | agc_kJump =>
      let target := argument 3%nat in
      inr [MakePm4Header 4 kPm4IndirectBufferOpcode 0; Z.land (to_u32 target) (not32 3); high32 target;
           (0x0f200000 ||| ((low 2%nat & 0x3) <<< 28) ||| ((low 1%nat & 0x1) <<< 20) ||| (low 4%nat & 0xfffff))%u32]
  | agc_kRewind => inr [MakePm4Header 2 kPm4RewindOpcode 0; ((low 1%nat & 1) <<< 31)%u32]
  | agc_kSetPredication =>
      let address := argument 4%nat in
      inr [MakePm4Header 4 kPm4SetPredicationOpcode 0;
           (((low 1%nat & 1) <<< 8) ||| ((low 3%nat & 1) <<< 12) ||| ((low 2%nat & 7) <<< 16))%u32;
           Z.land (to_u32 address) (not32 0xf); high32 address]
  | agc_kWriteData => write_data_packet argument m
  | agc_kReleaseMemory => release_memory_packet argument
  | agc_kEventWrite => event_write_packet argument
  | agc_kGetLodStats =>
      let address := argument 2%nat in
      inr [MakePm4Header 5 kPm4GetLodStatsOpcode 0; low 3%nat; Z.land (to_u32 address) 0xffffffc0; high32 address;
           (((low 1%nat & 3) <<< 28) ||| ((low 6%nat & 1) <<< 19) ||| ((low 5%nat & 1) <<< 18)
            ||| ((low 4%nat & 0xff) <<< 10) ||| ((low 7%nat & 0xff) <<< 2))%u32]
  | agc_kWaitRegMem => wait_packet argument
  end.

(** ** Appending *)

(** The fields of the command buffer that [AppendPacket] reads. *)
Record BufferFields := mkBufferFields { bf_cursor_up : Z; bf_cursor_down : Z; bf_callback : Z; bf_reserved_dwords : Z }.

Definition read_fields (up_address down_address callback_address reserved_address : Z) (m : GuestMemory)
    : option BufferFields :=
  match Read up_address 8 m, Read down_address 8 m, Read callback_address 8 m, Read reserved_address 4 m with
  | Some up, Some down, Some callback, Some reserved =>
      Some (mkBufferFields (Gpu_Read64 up) (Gpu_Read64 down) (Gpu_Read64 callback) (Gpu_Read32 reserved 0))
  | _, _, _, _ => None
  end.

(** The end of [AppendPacket], with the fields read. *)
Definition store_packet (up_address : Z) (fields : BufferFields) (packet : list Z) (m : GuestMemory)
    : GuestMemory * GpuPacketResult :=
  let fail status := (m, mkPacketResult status 0) in
  let cursor_up := bf_cursor_up fields in
  let cursor_down := bf_cursor_down fields in
  let size := Z.of_nat (length packet) in
  if (cursor_up =? 0) || (cursor_down <=? cursor_up) || negb (Z.land cursor_up 3 =? 0)
     || negb (Z.land cursor_down 3 =? 0)
  then fail gpu_kBufferTooSmall
  else
    let available_dwords := (cursor_down - cursor_up)%u64 / 4 in
    let usable_dwords := if available_dwords >? bf_reserved_dwords fields
                         then available_dwords - bf_reserved_dwords fields else 0 in
    if size >? usable_dwords
    then fail (if negb (bf_callback fields =? 0) then gpu_kCallbackRequired else gpu_kBufferTooSmall)
    else
      let packet_bytes_size := size * 4 in
      match Gpu_Add cursor_up packet_bytes_size with
      | None => fail gpu_kMemoryFault
      | Some next_cursor =>
          if negb (CanAccessLocked cursor_up packet_bytes_size kWrite m)
             || negb (CanAccessLocked up_address 8 kWrite m)
          then fail gpu_kMemoryFault
          else
            let '(m1, stored) := Write cursor_up (concat (map Gpu_Write32 packet)) m in
            if negb stored then (m1, mkPacketResult gpu_kMemoryFault 0)
            else
              let '(m2, moved) := Write up_address (Gpu_Write64 next_cursor) m1 in
              if negb moved then (m2, mkPacketResult gpu_kMemoryFault 0)
              else (m2, mkPacketResult gpu_kOk cursor_up)
      end.

Definition AppendPacket (command_buffer : Z) (packet : list Z) (m : GuestMemory) : GuestMemory * GpuPacketResult :=
  let size := Z.of_nat (length packet) in
  if (command_buffer =? 0) || (size <? 2) || (size >? kMaximumPm4PacketDwords)
  then (m, mkPacketResult gpu_kInvalidArgument 0)
  else match Gpu_Add command_buffer kAgcCommandBufferCursorUpOffset,
             Gpu_Add command_buffer kAgcCommandBufferCursorDownOffset,
             Gpu_Add command_buffer kAgcCommandBufferCallbackOffset,
             Gpu_Add command_buffer kAgcCommandBufferReservedDwordsOffset with
  | Some up_address, Some down_address, Some callback_address, Some reserved_address =>
      match read_fields up_address down_address callback_address reserved_address m with
      | None => (m, mkPacketResult gpu_kMemoryFault 0)
      | Some fields => store_packet up_address fields packet m
      end
  | _, _, _, _ => (m, mkPacketResult gpu_kMemoryFault 0)
  end.

(** ** The calls *)

Definition append_built (command_buffer : Z) (built : GpuRuntimeStatus + list Z) (m : GuestMemory)
    : GuestMemory * GpuPacketResult :=
  match built with
  | inl status => (m, mkPacketResult status 0)
  | inr packet => AppendPacket command_buffer packet m
  end.

Definition WriteNop (command_buffer dword_count : Z) (m : GuestMemory) : GuestMemory * GpuPacketResult :=
  append_built command_buffer (nop_packet dword_count) m.

Definition WriteDispatch (command_buffer group_count_x group_count_y group_count_z modifier : Z) (m : GuestMemory)
    : GuestMemory * GpuPacketResult :=
  AppendPacket command_buffer (dispatch_packet group_count_x group_count_y group_count_z modifier) m.

Definition WriteAgcPacket (type : AgcPacketType) (arguments : list Z) (m : GuestMemory) : GuestMemory * GpuPacketResult :=
  match arguments with
  | [] => (m, mkPacketResult gpu_kInvalidArgument 0)
  | command_buffer :: _ => append_built command_buffer (agc_words type (argument arguments) m) m
  end.

Definition GetPacketSize (packet_address : Z) (m : GuestMemory) : GpuPacketSizeResult :=
  if packet_address =? 0 then mkPacketSizeResult gpu_kInvalidArgument 0
  else match Read packet_address 4 m with
  | None => mkPacketSizeResult gpu_kMemoryFault 0
  | Some header_bytes =>
      let header := Gpu_Read32 header_bytes 0 in
      if Z.land header 0x3fffff00 =? 0x3fff1000 then mkPacketSizeResult gpu_kOk 1
      else mkPacketSizeResult gpu_kOk ((Z.land (Z.shiftr header 16) 0x3fff + 2)%u32)
  end.

Definition SetPacketPredication (packet_address predication : Z) (m : GuestMemory) : GuestMemory * GpuRuntimeStatus :=
  if packet_address =? 0 then (m, gpu_kInvalidArgument)
  else match Read packet_address 4 m with
  | None => (m, gpu_kMemoryFault)
  | Some header_bytes =>
      let header := Gpu_Read32 header_bytes 0 in
      let header' := Z.lor (Z.land header (not32 1)) (if predication =? 1 then 1 else 0) in
      let '(m', written) := Write packet_address (Gpu_Write32 header') m in
      (m', if written then gpu_kOk else gpu_kMemoryFault)
  end.

(** ** Appending is exact *)

Implicit Types (m : GuestMemory).

Definition cursor_up m (command_buffer : Z) : Z := Gpu_Read64 (guest_bytes m (command_buffer + 0x10) 8).
Definition cursor_down m (command_buffer : Z) : Z := Gpu_Read64 (guest_bytes m (command_buffer + 0x18) 8).
Definition reserved_dwords m (command_buffer : Z) : Z := Gpu_Read32 (guest_bytes m (command_buffer + 0x30) 4) 0.

(** The words a command processor reads at an address. *)
Definition words_at m (address : Z) (n : nat) : list Z :=
  map (fun i => Gpu_Read32 (guest_bytes m address (Z.of_nat n * 4)) (Z.of_nat i * 4)) (seq 0 n).

(** There is room for [n] words: the fields of the command buffer can be read,
    the space between its cursors holds the packet and the reserved words, and
    the packet and the cursor can be written. *)
Record appendable m (command_buffer n : Z) : Prop := {
  ap_buffer : command_buffer <> 0;
  ap_size : 2 <= n <= kMaximumPm4PacketDwords;
  ap_fields : command_buffer + 0x30 <= u64_max;
  ap_read_up : accessible m (command_buffer + 0x10) 8 kRead;
  ap_read_down : accessible m (command_buffer + 0x18) 8 kRead;
  ap_read_callback : accessible m (command_buffer + 0x20) 8 kRead;
  ap_read_reserved : accessible m (command_buffer + 0x30) 4 kRead;
  ap_cursor : cursor_up m command_buffer <> 0;
  ap_aligned : cursor_up m command_buffer mod 4 = 0 /\ cursor_down m command_buffer mod 4 = 0;
  ap_room : cursor_up m command_buffer + 4 * (n + reserved_dwords m command_buffer) <= cursor_down m command_buffer;
  ap_packet : accessible m (cursor_up m command_buffer) (4 * n) kWrite;
  ap_write_up : accessible m (command_buffer + 0x10) 8 kWrite
}.

Lemma Gpu_Add_spec a b : is_u64 a -> 0 <= b <= u64_max ->
  Gpu_Add a b = if a + b <=? u64_max then Some (a + b) else None.
Proof.
  intros Ha Hb. unfold Gpu_Add. rewrite sub64_small by u64_lia.
  destruct (b >? u64_max - a) eqn:E, (a + b <=? u64_max) eqn:E'; try lia; [done|]. rewrite add64_small by u64_lia. done.
Qed.

Lemma read_some m a n :
  gm_ok m -> is_u64 a -> 0 < n ->
  (accessible m a n kRead /\ Read a n m = Some (guest_bytes m a n)) \/ (~ accessible m a n kRead /\ Read a n m = None).
Proof.
  intros Hm Ha Hn. rewrite Read_spec by (done || lia). pose proof (CanAccessLocked_iff m a n kRead Hm Ha ltac:(lia)) as H.
  rewrite Z.max_r in H by lia. destruct (CanAccessLocked a n kRead m); [left; split; [by apply H|done]|].
  right. split; [|done]. intros Hacc. apply H in Hacc. done.
Qed.

Lemma can_write m a n : gm_ok m -> is_u64 a -> 0 < n -> CanAccessLocked a n kWrite m = true <-> accessible m a n kWrite.
Proof. intros Hm Ha Hn. rewrite CanAccessLocked_iff by (done || lia). by rewrite Z.max_r by lia. Qed.

Lemma land3_mod a : Z.land a 3 = a mod 4.
Proof. change 3 with (Z.ones 2). by rewrite Z.land_ones by lia. Qed.

Lemma fields_words m cb :
  memory_ok m ->
  (accessible m (cb + 0x10) 8 kRead -> is_u64 (cursor_up m cb)) /\
  (accessible m (cb + 0x18) 8 kRead -> is_u64 (cursor_down m cb)) /\
  (accessible m (cb + 0x30) 4 kRead -> is_u32 (reserved_dwords m cb)).
Proof.
  intros [Hm Hb].
  assert (H : forall a n, 0 < n <= 8 -> accessible m a n kRead -> 0 <= le_value (take (Z.to_nat n) (guest_bytes m a n)) < 256 ^ n).
  { intros a n Hn Hacc. rewrite take_ge by (rewrite guest_bytes_length; lia).
    pose proof (le_value_bound (guest_bytes m a n)) as Hv. rewrite guest_bytes_length, Z2Nat.id in Hv by lia. apply Hv.
    apply guest_bytes_are_bytes; [done|]. intros _. apply (accessible_contained m a n kRead); [done|lia|done]. }
  split_and!; intros Hacc; unfold cursor_up, cursor_down, reserved_dwords, Gpu_Read64, Gpu_Read32.
  - pose proof (H _ 8 ltac:(lia) Hacc). change (Z.to_nat 8) with 8%nat in *. change (256 ^ 8) with 18446744073709551616 in *. u64_lia.
  - pose proof (H _ 8 ltac:(lia) Hacc). change (Z.to_nat 8) with 8%nat in *. change (256 ^ 8) with 18446744073709551616 in *. u64_lia.
  - pose proof (H _ 4 ltac:(lia) Hacc). change (Z.to_nat 0) with 0%nat. rewrite drop_0. change (Z.to_nat 4) with 4%nat in *. u32_lia.
Qed.

Definition append_refused (r : GuestMemory * GpuPacketResult) m : Prop :=
  exists status, status <> gpu_kOk /\ r = (m, mkPacketResult status 0).

Lemma refused_with m status : status <> gpu_kOk -> append_refused (m, mkPacketResult status 0) m.
Proof. intros H. by exists status. Qed.

(** The two stores of a packet that fits. *)
Definition append_stores (command_buffer : Z) (packet : list Z) m : GuestMemory * GpuPacketResult :=
  let up := cursor_up m command_buffer in
  let '(m1, stored) := Write up (concat (map Gpu_Write32 packet)) m in
  if negb stored then (m1, mkPacketResult gpu_kMemoryFault 0)
  else
    let '(m2, moved) := Write (command_buffer + 0x10) (Gpu_Write64 (up + 4 * Z.of_nat (length packet))) m1 in
    if negb moved then (m2, mkPacketResult gpu_kMemoryFault 0) else (m2, mkPacketResult gpu_kOk up).

Lemma store_packet_cases m cb packet :
  memory_ok m -> is_u64 cb -> cb <> 0 -> 2 <= Z.of_nat (length packet) <= kMaximumPm4PacketDwords ->
  cb + 0x30 <= u64_max -> accessible m (cb + 0x10) 8 kRead -> accessible m (cb + 0x18) 8 kRead ->
  accessible m (cb + 0x20) 8 kRead -> accessible m (cb + 0x30) 4 kRead ->
  let r := store_packet (cb + 0x10) (mkBufferFields (cursor_up m cb) (cursor_down m cb)
             (Gpu_Read64 (guest_bytes m (cb + 0x20) 8)) (reserved_dwords m cb)) packet m in
  (appendable m cb (Z.of_nat (length packet)) /\ r = append_stores cb packet m) \/
  (~ appendable m cb (Z.of_nat (length packet)) /\ append_refused r m).
Proof.
  intros Hm Hcb Hnz Hn Hf R1 R2 R3 R4. destruct (fields_words m cb Hm) as (W1 & W2 & W3).
  specialize (W1 R1). specialize (W2 R2). specialize (W3 R4). destruct Hm as [Hm Hb].
  assert (Hcan1 : is_u64 (cb + 0x10)) by u64_lia.
  pose proof (can_write m (cursor_up m cb) (Z.of_nat (length packet) * 4) Hm W1 ltac:(lia)) as C1.
  pose proof (can_write m (cb + 0x10) 8 Hm Hcan1 ltac:(lia)) as C2.
  unfold store_packet, kMaximumPm4PacketDwords in *. cbn [bf_cursor_up bf_cursor_down bf_callback bf_reserved_dwords].
  rewrite !land3_mod. set (n := Z.of_nat (length packet)) in *.
  destruct (_ || _ || _ || _) eqn:E1.
  { right. split; [|by apply refused_with]. intros [A1 A2 A3 _ _ _ _ A8 [A9 A10] A11 _ _]. u32_lia. }
  pose proof (Z.mod_pos_bound (cursor_down m cb) 4 ltac:(lia)). pose proof (Z.mod_pos_bound (cursor_up m cb) 4 ltac:(lia)).
  rewrite sub64_small by u64_lia.
  assert (Hdiv : cursor_down m cb - cursor_up m cb = 4 * ((cursor_down m cb - cursor_up m cb) / 4)).
  { apply Z_div_exact_full_2; [lia|]. rewrite Zminus_mod. replace (cursor_down m cb mod 4) with 0 by lia.
    by replace (cursor_up m cb mod 4) with 0 by lia. }
  set (avail := (cursor_down m cb - cursor_up m cb) / 4) in *.
  destruct (n >? _) eqn:E2.
  { right. split; [|apply refused_with; by destruct (Gpu_Read64 _ =? 0)].
    intros [_ _ _ _ _ _ _ _ _ A11 _ _]. destruct (avail >? reserved_dwords m cb) eqn:E3; u32_lia. }
  assert (Hroom : cursor_up m cb + 4 * (n + reserved_dwords m cb) <= cursor_down m cb).
  { destruct (avail >? reserved_dwords m cb) eqn:E3; lia. }
  assert (Hmax : cursor_up m cb + n * 4 <= u64_max) by (unfold is_u64 in *; u32_lia).
  rewrite Gpu_Add_spec by (unfold is_u64 in *; lia). rewrite (proj2 (Z.leb_le _ _) Hmax).
  destruct (CanAccessLocked (cursor_up m cb) (n * 4) kWrite m) eqn:E4; cbn [negb orb];
    [|right; split; [|by apply refused_with]; intros [_ _ _ _ _ _ _ _ _ _ A _]; rewrite Z.mul_comm in A; by apply C1 in A].
  destruct (CanAccessLocked (cb + 0x10) 8 kWrite m) eqn:E5; cbn [negb];
    [|right; split; [|by apply refused_with]; intros [_ _ _ _ _ _ _ _ _ _ _ A]; by apply C2 in A].
  left. split.
  - split; try done; [lia| |rewrite Z.mul_comm; by apply C1|by apply C2]. lia.
  - unfold append_stores. fold n. by rewrite (Z.mul_comm 4 n).
Qed.

Lemma AppendPacket_cases m cb packet :
  memory_ok m -> is_u64 cb ->
  (appendable m cb (Z.of_nat (length packet)) /\ AppendPacket cb packet m = append_stores cb packet m) \/
  (~ appendable m cb (Z.of_nat (length packet)) /\ append_refused (AppendPacket cb packet m) m).
Proof.
  intros Hm Hcb. unfold AppendPacket, kAgcCommandBufferCursorUpOffset, kAgcCommandBufferCursorDownOffset,
    kAgcCommandBufferCallbackOffset, kAgcCommandBufferReservedDwordsOffset.
  destruct (_ || _ || _) eqn:E1; [right; split; [intros [A1 A2]; lia|by apply refused_with]|].
  rewrite !Gpu_Add_spec by u64_lia.
  destruct (cb + 0x30 <=? u64_max) eqn:E2.
  2:{ right. split; [intros [_ _ A3]; lia|]. repeat destruct (_ <=? u64_max); by apply refused_with. }
  replace (cb + 16 <=? u64_max) with true by lia. replace (cb + 24 <=? u64_max) with true by lia.
  replace (cb + 32 <=? u64_max) with true by lia. unfold read_fields. pose proof (proj1 Hm) as Hok.
  destruct (read_some m (cb + 16) 8 Hok ltac:(u64_lia) ltac:(lia)) as [[R1 ->]|[N ->]];
    [|right; split; [by intros []|by apply refused_with]].
  destruct (read_some m (cb + 24) 8 Hok ltac:(u64_lia) ltac:(lia)) as [[R2 ->]|[N ->]];
    [|right; split; [by intros []|by apply refused_with]].
  destruct (read_some m (cb + 32) 8 Hok ltac:(u64_lia) ltac:(lia)) as [[R3 ->]|[N ->]];
    [|right; split; [by intros []|by apply refused_with]].
  destruct (read_some m (cb + 48) 4 Hok ltac:(u64_lia) ltac:(lia)) as [[R4 ->]|[N ->]];
    [|right; split; [by intros []|by apply refused_with]].
  apply (store_packet_cases m cb packet); try done; lia.
Qed.

(** Words stored one after the other are read back. *)
Lemma packet_bytes_length l : length (concat (map Gpu_Write32 l)) = (4 * length l)%nat.
Proof. induction l as [|x l IH]; [done|]. cbn [map concat length]. rewrite length_app, IH. cbn. lia. Qed.

Lemma packet_words_back l :
  Forall is_u32 l -> map (fun i => Gpu_Read32 (concat (map Gpu_Write32 l)) (Z.of_nat i * 4)) (seq 0 (length l)) = l.
Proof.
  induction 1 as [|x l Hx Hl IH]; [done|]. cbn [map concat length seq]. f_equal.
  - rewrite Write32_le. unfold Gpu_Read32. change (Z.to_nat (Z.of_nat 0 * 4)) with 0%nat. rewrite drop_0.
    rewrite take_app_le, take_ge by (rewrite le_bytes_length; lia). apply le_bytes_roundtrip. u32_lia.
  - rewrite <- seq_shift, map_map. rewrite <- IH at 2. apply map_ext. intros i. unfold Gpu_Read32. f_equal. f_equal.
    rewrite drop_app_ge by (rewrite Write32_le, le_bytes_length; lia). f_equal.
    rewrite Write32_le, le_bytes_length. lia.
Qed.

Lemma guest_bytes_stored m m' a (l : list Z) :
  (forall i, 0 <= i < Z.of_nat (length l) -> guest_byte m' (a + i) = source_byte l i) ->
  guest_bytes m' a (Z.of_nat (length l)) = l.
Proof.
  intros H. apply list_eq. intros i. destruct (decide (i < length l)%nat) as [Hi|Hi].
  - rewrite guest_bytes_lookup by lia. rewrite H by lia. unfold source_byte. rewrite Nat2Z.id.
    destruct (l !! i) eqn:E; [done|]. apply lookup_ge_None_1 in E. lia.
  - rewrite !lookup_ge_None_2; [done|lia|rewrite guest_bytes_length; lia].
Qed.

Lemma guest_bytes_same m m' a n :
  (forall x, in_range a n x -> guest_byte m' x = guest_byte m x) -> guest_bytes m' a n = guest_bytes m a n.
Proof.
  intros H. unfold guest_bytes. apply map_ext_in. intros i Hi%list_elem_of_In%elem_of_seq. apply H. unfold in_range. lia.
Qed.

(** C13: Appending a packet is exact.  It succeeds exactly when there is room: the
    fields of the command buffer can be read, its cursors are aligned and have
    the packet and the reserved words between them, and the packet and the
    cursor can be written.  Then no address that denotes a location outside
    the packet and the cursor has changed, whatever memory they lie in.  When the
    cursor's 8 bytes do not alias each other, the cursor has moved behind the
    packet; when the packet's window does not alias itself or the cursor, in
    private or shared memory, the words read back at the returned address are
    those of the packet.  Otherwise the call fails and memory is as it was. *)
Theorem append_packet_exact cb packet m :
  memory_ok m -> is_u64 cb -> Forall is_u32 packet ->
  let n := Z.of_nat (length packet) in
  let up := cursor_up m cb in
  (appendable m cb n ->
     exists m', AppendPacket cb packet m = (m', mkPacketResult gpu_kOk up) /\ memory_ok m' /\ like m m' /\
       (forall x, base_address_ m <= x < gm_end m -> outside m up (4 * n) x -> outside m (cb + 0x10) 8 x ->
          guest_byte m' x = guest_byte m x) /\
       (distinct_locs m (cb + 0x10) 8 -> cursor_up m' cb = up + 4 * n) /\
       (distinct_locs m up (4 * n) ->
        (forall i, 0 <= i < 4 * n -> outside m (cb + 0x10) 8 (up + i)) ->
        words_at m' up (length packet) = packet)) /\
  (~ appendable m cb n -> exists status, status <> gpu_kOk /\ AppendPacket cb packet m = (m, mkPacketResult status 0)).
Proof.
  intros Hm Hcb Hp n up. destruct (AppendPacket_cases m cb packet Hm Hcb) as [[Ha ->]|[Hna Hr]]; [|by split].
  split; [intros _|done]. destruct (fields_words m cb Hm) as (W1 & W2 & W3).
  pose proof (W1 (ap_read_up _ _ _ Ha)) as U1. pose proof (W2 (ap_read_down _ _ _ Ha)) as U2.
  pose proof (W3 (ap_read_reserved _ _ _ Ha)) as U3. pose proof (ap_room _ _ _ Ha) as Hroom.
  pose proof (ap_fields _ _ _ Ha). pose proof (ap_size _ _ _ Ha). fold n up in U1, Hroom.
  assert (Hlen : Z.of_nat (length (concat (map Gpu_Write32 packet))) = 4 * n) by (rewrite packet_bytes_length; lia).
  assert (Hself : like m m) by (split; [apply Hm|done|done]).
  destruct (like_write m m up (concat (map Gpu_Write32 packet)) Hself U1) as (m1 & E1 & L1 & S1).
  { rewrite Hlen, Z.max_r by lia. apply Ha. }
  destruct (like_write m m1 (cb + 0x10) (Gpu_Write64 (up + 4 * n)) L1 ltac:(u64_lia)) as (m2 & E2 & L2 & S2).
  { apply Ha. }
  unfold append_stores. fold n up. rewrite E1. cbn [negb]. rewrite E2. cbn [negb].
  assert (M2 : memory_ok m2).
  { pose proof (memory_write up (concat (map Gpu_Write32 packet)) m Hm U1 (payload_bytes packet)) as M1.
    rewrite E1 in M1. pose proof (memory_write (cb + 0x10) (Gpu_Write64 (up + 4 * n)) m1 M1 ltac:(u64_lia)) as M2.
    rewrite E2 in M2. apply M2. rewrite Write64_le. apply le_bytes_are_bytes. }
  exists m2. split; [done|]. split; [done|]. split; [done|]. rewrite Hlen in S1.
  change (Z.of_nat (length (Gpu_Write64 (up + 4 * n)))) with 8 in S2.
  destruct (like_end m m1 L1) as [B1 B2].
  assert (O1 : forall x, base_address_ m <= x < gm_end m -> outside m (cb + 0x10) 8 x ->
    guest_byte m2 x = guest_byte m1 x).
  { intros x Hx Hout. apply S2; [by rewrite B1, B2|]. intros i Hi. rewrite !(like_loc m m1) by done. by apply Hout. }
  split_and!.
  - intros x Hx H1 H2. rewrite O1 by done. by apply S1.
  - intros Hd. destruct (stored_distinct _ m1 m2 (cb + 0x10) 8 S2) as [I2 _]; [by apply (like_distinct m)|].
    unfold cursor_up. pose proof (guest_bytes_stored m1 m2 (cb + 0x10) (Gpu_Write64 (up + 4 * n)) I2) as Hb.
    change (Z.of_nat (length (Gpu_Write64 (up + 4 * n)))) with 8 in Hb. rewrite Hb. unfold Gpu_Read64.
    rewrite Write64_le, take_ge by (rewrite le_bytes_length; lia). apply le_bytes_roundtrip.
    change (256 ^ Z.of_nat 8) with 18446744073709551616. unfold is_u32 in U3. u64_lia.
  - intros Hd Hapart. destruct (stored_distinct _ m m1 up (4 * n) S1 Hd) as [I1 _].
    destruct (accessible_contained m up (4 * n) kWrite (proj1 Hm) ltac:(lia) (ap_packet _ _ _ Ha)) as [V1 V2].
    unfold words_at. replace (Z.of_nat (length packet) * 4) with (Z.of_nat (length (concat (map Gpu_Write32 packet)))) by lia.
    rewrite (guest_bytes_same m1 m2), (guest_bytes_stored m m1); [by apply packet_words_back| |].
    + intros i Hi. apply I1. lia.
    + intros x Hx. rewrite Hlen in Hx. unfold in_range in Hx. apply O1; [lia|].
      replace x with (up + (x - up)) by lia. apply Hapart. lia.
Qed.

(** ** What was written is decoded *)

(** Fields of words as quotients and remainders. *)
Lemma lor_low a b k : 0 <= k -> 0 <= a < 2 ^ k -> Z.lor (Z.shiftl b k) a = b * 2 ^ k + a.
Proof.
  intros Hk Ha. rewrite <- Z.add_lor_land. rewrite Z.shiftl_mul_pow2 by done.
  replace (Z.land (b * 2 ^ k) a) with 0; [lia|]. symmetry. apply Z.bits_inj'. intros i Hi.
  rewrite Z.land_spec, Z.bits_0. destruct (decide (i < k)) as [H|H].
  - by rewrite Z.mul_pow2_bits_low by done.
  - replace (Z.testbit a i) with false; [apply andb_false_r|]. symmetry.
    rewrite <- (Z.mod_small a (2 ^ k)) by lia. by rewrite Z.mod_pow2_bits_high by lia.
Qed.

Lemma land_field x k s : 0 <= k -> 0 <= s -> Z.land x (Z.shiftl (Z.ones k) s) = x / 2 ^ s mod 2 ^ k * 2 ^ s.
Proof.
  intros Hk Hs. rewrite <- Z.land_ones, <- Z.shiftl_mul_pow2, <- Z.shiftr_div_pow2 by done.
  apply Z.bits_inj'. intros i Hi. rewrite Z.land_spec, !Z.shiftl_spec, Z.land_spec by done.
  destruct (decide (i < s)) as [H|H].
  - by rewrite !(Z.testbit_neg_r _ (i - s)) by lia; rewrite !andb_false_r.
  - rewrite Z.shiftr_spec by lia. by replace (i - s + s) with i by lia.
Qed.

Lemma bits_field x s k : 0 <= k -> 0 <= s -> bits x s (Z.ones k) = x / 2 ^ s mod 2 ^ k.
Proof. intros Hk Hs. unfold bits. by rewrite Z.land_ones, Z.shiftr_div_pow2. Qed.

Lemma header_value n opcode reg :
  2 <= n <= 0x4001 -> 0 <= opcode < 256 -> 0 <= reg < 64 ->
  MakePm4Header n opcode reg = 0xc0000000 + (n - 2) * 65536 + opcode * 256 + reg * 4.
Proof.
  intros Hn Ho Hr. unfold MakePm4Header, kPm4LengthMask, kPm4RegisterMask, kPm4Type3, shl32, sub32.
  change 0x3fff with (Z.ones 14). change 0xff with (Z.ones 8). change 0x3f with (Z.ones 6). rewrite !Z.land_ones by lia.
  rewrite (to_u32_small (n - 2)) by u32_lia. rewrite !Z.mod_small by lia. rewrite !Z.shiftl_mul_pow2 by lia.
  rewrite !to_u32_small by u32_lia. rewrite <- !(Z.shiftl_mul_pow2 _ _) by lia.
  change 3221225472 with (Z.shiftl 3 30).
  rewrite (lor_low (Z.shiftl (n - 2) 16) 3 30) by (rewrite ?Z.shiftl_mul_pow2; lia).
  replace (3 * 2 ^ 30 + Z.shiftl (n - 2) 16) with (Z.shiftl (3 * 2 ^ 14 + (n - 2)) 16) by (rewrite !Z.shiftl_mul_pow2; lia).
  rewrite (lor_low (Z.shiftl opcode 8)) by (rewrite ?Z.shiftl_mul_pow2; lia).
  replace ((3 * 2 ^ 14 + (n - 2)) * 2 ^ 16 + Z.shiftl opcode 8)
    with (Z.shiftl (((3 * 2 ^ 14 + (n - 2)) * 2 ^ 8) + opcode) 8) by (rewrite !Z.shiftl_mul_pow2; lia).
  rewrite lor_low by (rewrite ?Z.shiftl_mul_pow2; lia). rewrite !Z.shiftl_mul_pow2 by lia. lia.
Qed.

Ltac field_lia := Z.to_euclidean_division_equations; u32_lia.

(** The header gives size, opcode and register back; only a NOP of the greatest
    size reads as a filler. *)
Lemma header_fields n opcode reg :
  2 <= n <= 0x4001 -> 0 <= opcode < 256 -> 0 <= reg < 64 -> opcode <> kPm4Nop \/ n <> 0x4001 ->
  let h := MakePm4Header n opcode reg in
  is_u32 h /\ Z.land h kPm4TypeMask = kPm4Type3 /\ packet_size h = n /\ bits h 8 0xff = opcode /\ bits h 2 0x3f = reg.
Proof.
  intros Hn Ho Hr Hne h. unfold h. rewrite header_value by done. unfold packet_size, kPm4TypeMask, kPm4Type3, kPm4Nop in *.
  change 0xc0000000 with (Z.shiftl (Z.ones 2) 30). change 0x3fffff00 with (Z.shiftl (Z.ones 22) 8).
  change 0xff with (Z.ones 8). change 0x3fff with (Z.ones 14). change 0x3f with (Z.ones 6).
  rewrite !land_field, !bits_field by lia. change (Z.shiftl (Z.ones 2) 30) with 3221225472.
  split; [u32_lia|]. split; [field_lia|]. split; [|split; field_lia].
  destruct (_ =? _) eqn:E; field_lia.
Qed.

(** Addresses in two words, rounded down. *)
Lemma low_high a : is_u64 a -> to_u32 a = a mod 2 ^ 32 /\ high32 a = a / 2 ^ 32 /\ is_u32 (high32 a).
Proof.
  intros Ha. unfold high32, to_u32, u32_modulus. rewrite Z.shiftr_div_pow2 by lia.
  assert (H : a / 2 ^ 32 mod 4294967296 = a / 2 ^ 32) by (apply Z.mod_small; Z.to_euclidean_division_equations; u64_lia).
  rewrite H. split; [done|]. split; [done|]. unfold is_u32, u32_max. Z.to_euclidean_division_equations. u64_lia.
Qed.

Lemma wide_whole a : is_u64 a -> wide (to_u32 a) (high32 a) = a.
Proof.
  intros Ha. destruct (low_high a Ha) as (E1 & E2 & _). rewrite wide_add by apply to_u32_range.
  rewrite E1, E2. Z.to_euclidean_division_equations. lia.
Qed.

Lemma wide_aligned a k : is_u64 a -> 0 <= k <= 6 ->
  wide (Z.land (to_u32 a) (Z.shiftl (Z.ones (32 - k)) k)) (high32 a) = 2 ^ k * (a / 2 ^ k).
Proof.
  intros Ha Hk. destruct (low_high a Ha) as (E1 & E2 & _). rewrite land_field by lia.
  assert (k = 0 \/ k = 1 \/ k = 2 \/ k = 3 \/ k = 4 \/ k = 5 \/ k = 6) as Hc by lia.
  rewrite wide_add, E1, E2; repeat destruct Hc as [->|Hc]; try subst k; try (rewrite E1); field_lia.
Qed.

Lemma wide_wait a k : is_u64 a -> 2 <= k <= 3 ->
  wide (Z.land (to_u32 a) (Z.shiftl (Z.ones (32 - k)) k)) (Z.land (high32 a) 0x3ffff) = 2 ^ k * (a mod 2 ^ 50 / 2 ^ k).
Proof.
  intros Ha Hk. destruct (low_high a Ha) as (E1 & E2 & _). rewrite land_field by lia.
  change 0x3ffff with (Z.ones 18). rewrite Z.land_ones by lia.
  assert (k = 2 \/ k = 3) as [-> | ->] by lia; rewrite wide_add, E1, E2 by (rewrite ?E1; field_lia); field_lia.
Qed.

Lemma land_whole x : is_u32 x -> Z.land x u32_max = x.
Proof. intros Hx. change u32_max with (Z.ones 32). rewrite Z.land_ones by lia. apply Z.mod_small. u32_lia. Qed.

(** The calls and the packets they write. *)
Inductive request :=
| Nop (dword_count : Z)
| Dispatch (group_count_x group_count_y group_count_z modifier : Z)
| Agc (type : AgcPacketType) (argument : nat -> Z).

Definition words_of (r : request) m : GpuRuntimeStatus + list Z :=
  match r with
  | Nop dword_count => nop_packet dword_count
  | Dispatch x y z modifier => inr (dispatch_packet x y z modifier)
  | Agc type argument => agc_words type argument m
  end.

(** Arguments of their width. *)
Definition request_typed (r : request) : Prop :=
  match r with
  | Nop _ => True
  | Dispatch x y z modifier => is_u32 x /\ is_u32 y /\ is_u32 z /\ is_u32 modifier
  | Agc _ argument => forall i, is_u64 (argument i)
  end.

(** The header says what was written.  The writers do not see to it in two cases:
    a NOP (data words included) of the greatest size has the header of a filler,
    and the shader type of [kSetBaseIndirectArgs], which is not masked, can set
    bits of the size and of the opcode that are clear there. *)
Definition header_intact (r : request) : Prop :=
  match r with
  | Nop dword_count => dword_count <> kMaximumPm4PacketDwords
  | Agc agc_kSetBaseIndirectArgs argument => Z.land (shl32 (argument 1%nat mod 2 ^ 32) 1) 0x3ffdee00 = 0
  | Agc agc_kWriteData argument => argument 5%nat mod 2 ^ 32 <> 0x3ffd
  | _ => True
  end.

(** Otherwise the decoder sees another packet: a filler of one word, or another
    size or opcode. *)
Definition misread (r : request) (header : Z) : Prop :=
  match r with
  | Agc agc_kSetBaseIndirectArgs _ => packet_size header <> 4 \/ bits header 8 0xff <> kPm4SetBaseOpcode
  | _ => packet_size header = 1
  end.

(** The control words of the packets, from the arguments. *)
Definition initiator_bits (modifier : Z) : Z :=
  if modifier / 2 ^ 32 mod 2 =? 1 then 0 else 32 * (modifier / 2 ^ 8 mod 2).
Definition dispatch_bits (modifier : Z) : Z :=
  0x41 + 2 ^ 3 * (modifier / 2 ^ 3 mod 8) + 2 ^ 13 * (modifier / 2 ^ 13 mod 2) + 2 ^ 15 * (modifier / 2 ^ 15 mod 2).

Section decode.
Context {S : Type} `{!SubmissionSink S}.
Implicit Types (pk : Packet) (c : DecodeContext S).

(** What a packet asks of the command processor, in terms of the arguments of
    the call that wrote it alone: every value, control words included, is a
    quotient or remainder of an argument. *)
Definition agc_meaning (type : AgcPacketType) (a : nat -> Z) m pk (depth : Z) : Decode S GpuCommandStatus :=
  let low i := a i mod 2 ^ 32 in
  let high i := a i / 2 ^ 32 in
  let aligned k i := k * (a i / k) in
  let emit type values := Emit (make_action type pk values) in
  match type with
  | agc_kSetShRegisterDirect => ApplyRegisterWrite space_kShader pk (a 1%nat mod 2 ^ 16) (high 1%nat) 0 0
  | agc_kSetCxRegisterDirect => ApplyRegisterWrite space_kContext pk (a 1%nat mod 2 ^ 16) (high 1%nat) 0 0
  | agc_kSetUcRegisterDirect => ApplyRegisterWrite space_kUserConfig pk (a 1%nat mod 2 ^ 16) (high 1%nat) 0 0
  | agc_kSetIndexSize => ApplyRegisterWrite space_kUserConfig pk kVgtIndexTypeRegister
                           (0x400 + 64 * (a 2%nat mod 4) + a 1%nat mod 4) 0 0
  | agc_kSetIndexBuffer => emit act_kSetIndexBuffer [a 1%nat]
  | agc_kSetIndexCount => emit act_kSetIndexCount [low 1%nat]
  | agc_kSetNumInstances =>
      _ ← modify (set_register space_kUserConfig kSyntheticDrawInstanceCount (Z.max (low 1%nat) 1));
      emit act_kSetNumInstances [Z.max (low 1%nat) 1]
  | agc_kDrawIndex =>
      emit act_kDraw [Z.max (low 1%nat) 1; low 2%nat; high 2%nat; low 1%nat; initiator_bits (a 3%nat)]
  | agc_kDrawIndexMultiInstanced =>
      emit act_kDraw [low 1%nat; low 2%nat; high 2%nat; Z.max (low 4%nat) 1; low 3%nat; high 3%nat; low 4%nat;
                      128 + initiator_bits (a 5%nat)]
  | agc_kDrawIndexAuto => emit act_kDraw [low 1%nat; 2 + initiator_bits (a 2%nat)]
  | agc_kDrawIndexOffset => emit act_kDraw [Z.max (low 2%nat) 1; low 1%nat; low 2%nat; initiator_bits (a 3%nat)]
  | agc_kSetBaseIndirectArgs => emit act_kSetBase [1; aligned 8 2%nat; a 1%nat mod 2]
  | agc_kDispatchIndirect => emit act_kDispatch [low 1%nat; dispatch_bits (low 2%nat); 0]
  | agc_kJump => ProcessIndirectBuffer pk (aligned 4 3%nat) (a 4%nat mod 2 ^ 20)
      (0x0f200000 + 2 ^ 28 * (a 2%nat mod 4) + 2 ^ 20 * (a 1%nat mod 2) + a 4%nat mod 2 ^ 20) depth 0
  | agc_kRewind => emit act_kRewind [2 ^ 31 * (a 1%nat mod 2)]
  | agc_kSetPredication => emit act_kPredication [aligned 16 4%nat;
      2 ^ 8 * (a 1%nat mod 2) + 2 ^ 12 * (a 3%nat mod 2) + 2 ^ 16 * (a 2%nat mod 8)]
  | agc_kWriteData =>
      let data := words_at m (a 4%nat) (Z.to_nat (low 5%nat)) in
      let confirm := if low 1%nat =? 0 then 0 else a 7%nat mod 2 in
      let control := a 1%nat mod 2 ^ 8 + 2 ^ 8 * (a 2%nat mod 2 ^ 8) + 2 ^ 16 * (a 6%nat mod 2 ^ 8) + 2 ^ 24 * confirm in
      Emit (with_payload (make_action act_kWriteData pk
              [aligned 4 3%nat; control; low 5%nat; nth 0 data 0; nth 1 data 0]) data)
  | agc_kReleaseMemory =>
      let data := if low 10%nat =? 4 then 0
                  else if low 6%nat =? 5 then a 8%nat mod 2 ^ 16 + 2 ^ 16 * (a 9%nat mod 2 ^ 16) else a 7%nat in
      let event_index := if low 1%nat >=? 0x2f then 6 else 5 in
      let gcr := low 2%nat + if a 2%nat / 2 ^ 8 mod 4 =? 1 then 2 ^ 9 else 0 in
      emit act_kReleaseMemory [if low 10%nat =? 4 then 0 else aligned 4 5%nat; data;
        a 1%nat mod 2 ^ 6 + 2 ^ 8 * event_index + 2 ^ 12 * (gcr mod 2 ^ 12) + 2 ^ 25 * (a 4%nat mod 4);
        2 ^ 16 * low 3%nat + 2 ^ 24 * low 10%nat + 2 ^ 29 * low 6%nat; a 11%nat mod 2 ^ 27]
  | agc_kEventWrite =>
      let timestamp := (low 1%nat =? 0x38) || (low 1%nat =? 0x39) in
      let partial_flush := (low 1%nat =? 7) || (low 1%nat =? 15) || (low 1%nat =? 16) in
      emit act_kEventWrite [low 1%nat; if timestamp then aligned 8 2%nat else 0;
        if timestamp then 0x100 + low 1%nat else if partial_flush then 0x400 + low 1%nat else low 1%nat]
  | agc_kGetLodStats => emit act_kLodStats [aligned 64 2%nat; low 3%nat;
      2 ^ 28 * (a 1%nat mod 4) + 2 ^ 19 * (a 6%nat mod 2) + 2 ^ 18 * (a 5%nat mod 2) + 2 ^ 10 * (a 4%nat mod 2 ^ 8)
      + 2 ^ 2 * (a 7%nat mod 2 ^ 8)]
  | agc_kWaitRegMem =>
      if low 1%nat =? 0
      then ProcessWait pk (4 * (a 5%nat mod 2 ^ 50 / 4)) (low 7%nat) (low 6%nat)
             (0x10 + low 2%nat + 2 ^ 6 * (low 3%nat / 4) + 2 ^ 8 * (low 3%nat mod 4) + 2 ^ 25 * low 4%nat)
             (Z.min (low 8%nat / 16) 0xffff) false
      else ProcessWait pk (8 * (a 5%nat mod 2 ^ 50 / 8)) (a 7%nat) (a 6%nat)
             (0x10 + low 2%nat + 2 ^ 6 * (low 3%nat / 2) + 2 ^ 8 * (low 3%nat mod 2) + 2 ^ 25 * low 4%nat)
             (Z.min (low 8%nat / 16) 0xffff) true
  end.

Definition meaning (r : request) m pk (depth : Z) : Decode S GpuCommandStatus :=
  match r with
  | Nop _ => Emit (make_action act_kNop pk [])
  | Dispatch x y z modifier => Emit (make_action act_kDispatch pk [x; y; z; dispatch_bits modifier; 0])
  | Agc type argument => agc_meaning type argument m pk depth
  end.

Lemma finish_complete (x : Decode S GpuCommandStatus) c :
  (status ← x; if negb (is_complete status) then mret status else mret cmd_kComplete) c = x c.
Proof.
  unfold mbind, decode_bind. destruct (x c) as [[c' st]|]; [|done]. destruct (is_complete st) eqn:E; [|done].
  apply is_complete_spec in E. by subst st.
Qed.

Lemma decode_direct adr op space h w1 w2 depth c :
  (op, space) ∈ [(kPm4SetShRegister, space_kShader); (kPm4SetContextRegister, space_kContext);
                 (kPm4SetUcRegister, space_kUserConfig); (kPm4SetUcRegisterIndex, space_kUserConfig)] -> is_u32 w1 ->
  let pk := mkPacket adr 3 op 0 [h; w1; w2] in
  process_packet pk h depth c = ApplyRegisterWrite space pk w1 w2 0 0 c.
Proof.
  intros Hop Hw pk. assert (E : ApplyDirectRegisters space pk c = ApplyRegisterWrite space pk w1 w2 0 0 c).
  { rewrite <- (finish_complete (ApplyRegisterWrite space pk w1 w2 0 0)).
    transitivity (direct_loop space pk w1 1 0 c); [reflexivity|]. cbn [direct_loop].
    unfold add32. rewrite Z.add_0_r, to_u32_small by done. reflexivity. }
  rewrite <- E. set_unfold in Hop. destruct Hop as [Hop|[Hop|[Hop|[Hop|[]]]]]; injection Hop as -> ->; reflexivity.
Qed.

(** The packet at an address, as the command processor delimits it. *)
Definition packet_at (adr : Z) (words : list Z) : Packet :=
  let h := nth 0 words 0 in mkPacket adr (packet_size h) (bits h 8 0xff) (bits h 2 0x3f) words.

Definition decodes (words : list Z) (x : Packet -> Z -> Decode S GpuCommandStatus) : Prop := forall adr depth c,
  process_packet (packet_at adr words) (nth 0 words 0) depth c = x (packet_at adr words) depth c.

Lemma low_mod x : to_u32 x = x mod 2 ^ 32.
Proof. done. Qed.

Lemma max_one x : 0 <= x -> (if x =? 0 then 1 else x) = Z.max x 1.
Proof. intros Hx. destruct (x =? 0) eqn:E; lia. Qed.

Lemma word64_whole a : is_u64 a -> wide (Z.land (to_u32 a) u32_max) (high32 a) = a.
Proof. intros Ha. rewrite land_whole by apply to_u32_range. by apply wide_whole. Qed.

Lemma word64_aligned a k mask mask' : is_u64 a -> 0 <= k <= 6 -> mask = Z.shiftl (Z.ones (32 - k)) k ->
  mask' = u32_max \/ mask' = mask -> wide (Z.land (Z.land (to_u32 a) mask) mask') (high32 a) = 2 ^ k * (a / 2 ^ k).
Proof.
  intros Ha Hk -> Hm. rewrite <- wide_aligned by done. f_equal. destruct Hm as [-> | ->].
  - apply land_whole. pose proof (to_u32_range a) as Hr. rewrite (Z.land_comm (to_u32 a)).
    pose proof (land_mask (Z.shiftl (Z.ones (32 - k)) k) (to_u32 a) (proj1 Hr)). u32_lia.
  - by rewrite <- Z.land_assoc, Z.land_diag.
Qed.

Lemma low_field x k : 0 <= k <= 32 -> Z.land (to_u32 x) (Z.ones k) = x mod 2 ^ k.
Proof.
  intros Hk. rewrite Z.land_ones by lia. unfold to_u32, u32_modulus.
  replace 4294967296 with (2 ^ k * 2 ^ (32 - k)) by (rewrite <- Z.pow_add_r by lia; by replace (k + (32 - k)) with 32 by lia).
  rewrite Z.rem_mul_r by (apply Z.pow_nonzero || apply Z.pow_pos_nonneg; lia).
  rewrite Z.mul_comm, Z.mod_add, Z.mod_mod; [done|apply Z.pow_nonzero; lia..].
Qed.

Lemma lor_u32 x y : is_u32 x -> is_u32 y -> is_u32 (Z.lor x y).
Proof.
  intros Hx Hy. assert (H : Z.lor x y = to_u32 (Z.lor x y)); [|rewrite H; apply to_u32_range].
  unfold to_u32, u32_modulus. change 4294967296 with (2 ^ 32). rewrite <- Z.land_ones by lia.
  rewrite Z.land_lor_distr_l, !Z.land_ones by lia. by rewrite !Z.mod_small by u32_lia.
Qed.

(** ** Control words *)

(** A decidable fact about small numbers, by trying them. *)
Lemma small_cases (P : Z -> bool) n x : 0 <= x < n -> forallb P (seqZ 0 n) = true -> P x = true.
Proof. intros Hx H. rewrite forallb_forall in H. apply H, list_elem_of_In, elem_of_seqZ. lia. Qed.

Lemma lor_fields a b k : 0 <= k -> 0 <= a < 2 ^ k -> b mod 2 ^ k = 0 -> Z.lor b a = b + a /\ Z.lor a b = a + b.
Proof.
  intros Hk Ha Hb. assert (E : b = Z.shiftl (b / 2 ^ k) k).
  { rewrite Z.shiftl_mul_pow2 by done. pose proof (Z.div_mod b (2 ^ k) ltac:(apply Z.pow_nonzero; lia)). lia. }
  assert (H : Z.lor b a = b + a).
  { rewrite E at 1. rewrite lor_low by done. pose proof (Z.div_mod b (2 ^ k) ltac:(apply Z.pow_nonzero; lia)). lia. }
  split; [done|]. rewrite Z.lor_comm. lia.
Qed.

Lemma shl_field x k s : 0 <= k -> 0 <= s -> k + s <= 32 ->
  shl32 (Z.land (to_u32 x) (Z.ones k)) s = 2 ^ s * (x mod 2 ^ k).
Proof.
  intros Hk Hs Hks. rewrite low_field by lia. unfold shl32. rewrite Z.shiftl_mul_pow2 by done.
  pose proof (Z.mod_pos_bound x (2 ^ k) ltac:(apply Z.pow_pos_nonneg; lia)).
  assert (2 ^ k * 2 ^ s <= 2 ^ 32) by (rewrite <- Z.pow_add_r by lia; apply Z.pow_le_mono_r; lia).
  assert (0 < 2 ^ s) by (apply Z.pow_pos_nonneg; lia). rewrite to_u32_small by (unfold is_u32, u32_max; nia). lia.
Qed.

(** Remainders become bounded unknowns. *)
Ltac field_bounds := repeat match goal with |- context [?x mod ?n] =>
  let r := fresh "r" in pose proof (Z.mod_pos_bound x n ltac:(lia)); set (r := x mod n) in *; clearbody r end.
(** The innermost disjunction joins fields below and above bit [k]. *)
Ltac join_fields k :=
  match goal with
  | |- context [Z.lor ?a ?b] =>
      lazymatch a with context [Z.lor _ _] => fail | _ => idtac end;
      lazymatch b with context [Z.lor _ _] => fail | _ => idtac end;
      first [rewrite (proj2 (lor_fields a b k ltac:(lia) ltac:(field_lia) ltac:(field_lia)))
            |rewrite (proj1 (lor_fields b a k ltac:(lia) ltac:(field_lia) ltac:(field_lia)))]
  end.

Lemma initiator_value x : is_u64 x ->
  DrawIndexInitiator x = initiator_bits x.
Proof.
  intros Hx. unfold DrawIndexInitiator, initiator_bits. change (Z.shiftl 1 32) with (Z.shiftl (Z.ones 1) 32).
  rewrite land_field by lia. change (2 ^ 1) with 2.
  pose proof (Z.mod_pos_bound (x / 2 ^ 32) 2 ltac:(lia)).
  replace (negb (x / 2 ^ 32 mod 2 * 2 ^ 32 =? 0)) with (x / 2 ^ 32 mod 2 =? 1) by lia.
  destruct (_ =? 1); [done|]. change 32 with (Z.shiftl (Z.ones 1) 5) at 1. rewrite land_field by lia.
  unfold to_u32, u32_modulus. rewrite Z.shiftr_div_pow2 by lia. field_lia.
Qed.

Lemma dispatch_modifier_value x : is_u32 x ->
  ((x & kDirectDispatchModifierMask) ||| kDirectDispatchRequiredBits)%u32
  = dispatch_bits x.
Proof.
  intros Hx. unfold dispatch_bits, kDirectDispatchModifierMask, kDirectDispatchRequiredBits.
  pose proof (Z.add_lor_land (Z.land x 0xa038) 0x41) as Hsum. rewrite <- Z.land_assoc in Hsum.
  change (Z.land 0xa038 0x41) with 0 in Hsum. rewrite Z.land_0_r, Z.add_0_r in Hsum. rewrite Hsum. clear Hsum.
  change 0xa038 with (Z.lor (Z.shiftl (Z.ones 3) 3) (Z.lor (Z.shiftl (Z.ones 1) 13) (Z.shiftl (Z.ones 1) 15))).
  rewrite !Z.land_lor_distr_r, !land_field by lia.
  pose proof (Z.mod_pos_bound (x / 2 ^ 3) (2 ^ 3) ltac:(lia)). pose proof (Z.mod_pos_bound (x / 2 ^ 13) (2 ^ 1) ltac:(lia)).
  pose proof (Z.mod_pos_bound (x / 2 ^ 15) (2 ^ 1) ltac:(lia)). change (2 ^ 3) with 8 in *. change (2 ^ 1) with 2 in *.
  generalize dependent (x / 8 mod 8). generalize dependent (x / 2 ^ 13 mod 2). generalize dependent (x / 2 ^ 15 mod 2).
  intros p Hp q Hq r Hr. join_fields 15. join_fields 13. lia.
Qed.

Lemma jump_control_value x y z :
  (0x0f200000 ||| ((to_u32 x & 0x3) <<< 28) ||| ((to_u32 y & 0x1) <<< 20) ||| (to_u32 z & 0xfffff))%u32
  = 0x0f200000 + 2 ^ 28 * (x mod 4) + 2 ^ 20 * (y mod 2) + z mod 2 ^ 20.
Proof.
  change 0x3 with (Z.ones 2). change 0x1 with (Z.ones 1). change 0xfffff with (Z.ones 20).
  rewrite !shl_field, low_field by lia. change (2 ^ 2) with 4. change (2 ^ 1) with 2. field_bounds.
  join_fields 28. join_fields 21. join_fields 20. lia.
Qed.

Lemma predication_control_value x y z :
  (((to_u32 x & 1) <<< 8) ||| ((to_u32 y & 1) <<< 12) ||| ((to_u32 z & 7) <<< 16))%u32
  = 2 ^ 8 * (x mod 2) + 2 ^ 12 * (y mod 2) + 2 ^ 16 * (z mod 8).
Proof.
  change 1 with (Z.ones 1). change 7 with (Z.ones 3). rewrite !shl_field by lia.
  change (2 ^ 1) with 2. change (2 ^ 3) with 8. field_bounds. join_fields 12. join_fields 16. lia.
Qed.

Lemma write_control_value x y z w :
  ((to_u32 x & 0xff) ||| ((to_u32 y & 0xff) <<< 8) ||| ((to_u32 z & 0xff) <<< 16) ||| ((to_u32 w & 0xff) <<< 24))%u32
  = x mod 2 ^ 8 + 2 ^ 8 * (y mod 2 ^ 8) + 2 ^ 16 * (z mod 2 ^ 8) + 2 ^ 24 * (w mod 2 ^ 8).
Proof.
  change 0xff with (Z.ones 8). rewrite !shl_field, low_field by lia. field_bounds.
  join_fields 8. join_fields 16. join_fields 24. lia.
Qed.

Lemma write_data_control x y z w :
  let confirm := if to_u32 x =? 0 then 0 else Z.land (to_u32 w) 1 in
  ((to_u32 x & 0xff) ||| ((to_u32 y & 0xff) <<< 8) ||| ((to_u32 z & 0xff) <<< 16) ||| ((confirm & 0xff) <<< 24))%u32
  = x mod 2 ^ 8 + 2 ^ 8 * (y mod 2 ^ 8) + 2 ^ 16 * (z mod 2 ^ 8) + 2 ^ 24 * (if x mod 2 ^ 32 =? 0 then 0 else w mod 2).
Proof.
  cbv zeta. change 1 with (Z.ones 1). rewrite low_field by lia. change (2 ^ 1) with 2. rewrite (low_mod x).
  set (confirm := if x mod 2 ^ 32 =? 0 then 0 else w mod 2).
  assert (Hc : 0 <= confirm < 2) by (unfold confirm; destruct (_ =? 0); [lia|apply Z.mod_pos_bound; lia]).
  pose proof (write_control_value x y z confirm) as E. rewrite (to_u32_small confirm) in E by u32_lia.
  rewrite <- low_mod, E. by rewrite (Z.mod_small confirm) by lia.
Qed.

Lemma lod_control_value x y z v w :
  (((to_u32 x & 3) <<< 28) ||| ((to_u32 y & 1) <<< 19) ||| ((to_u32 z & 1) <<< 18)
   ||| ((to_u32 v & 0xff) <<< 10) ||| ((to_u32 w & 0xff) <<< 2))%u32
  = 2 ^ 28 * (x mod 4) + 2 ^ 19 * (y mod 2) + 2 ^ 18 * (z mod 2) + 2 ^ 10 * (v mod 2 ^ 8) + 2 ^ 2 * (w mod 2 ^ 8).
Proof.
  change 3 with (Z.ones 2). change 1 with (Z.ones 1). change 0xff with (Z.ones 8). rewrite !shl_field by lia.
  change (2 ^ 2 * (w mod 2 ^ 8)) with (4 * (w mod 2 ^ 8)). change (2 ^ 2) with 4. change (2 ^ 1) with 2. field_bounds.
  join_fields 28. join_fields 19. join_fields 18. join_fields 10. lia.
Qed.

Lemma release_event_value x e g p : e = 5 \/ e = 6 ->
  ((to_u32 x & 0x3f) ||| (e <<< 8) ||| ((to_u32 g & 0xfff) <<< 12) ||| ((to_u32 p & 3) <<< 25))%u32
  = x mod 2 ^ 6 + 2 ^ 8 * e + 2 ^ 12 * (g mod 2 ^ 12) + 2 ^ 25 * (p mod 4).
Proof.
  intros He. change 0x3f with (Z.ones 6). change 0xfff with (Z.ones 12). change 3 with (Z.ones 2).
  rewrite !shl_field, low_field by lia. change (2 ^ 2) with 4.
  replace (shl32 e 8) with (2 ^ 8 * e) by (by destruct He as [-> | ->]). field_bounds.
  join_fields 8. join_fields 12. join_fields 25. lia.
Qed.

(** Bit 9 joins bit 8 of the cache control. *)
Lemma release_gcr_value g :
  (if Z.land (to_u32 g) 0x300 =? 0x100 then Z.lor (to_u32 g) 0x200 else to_u32 g)
  = to_u32 (g mod 2 ^ 32 + if g / 2 ^ 8 mod 4 =? 1 then 2 ^ 9 else 0).
Proof.
  pose proof (to_u32_range g) as Hr. change 0x300 with (Z.shiftl (Z.ones 2) 8). rewrite land_field by lia.
  change (2 ^ 2) with 4. replace (to_u32 g / 2 ^ 8 mod 4) with (g / 2 ^ 8 mod 4)
    by (unfold to_u32, u32_modulus; field_lia).
  pose proof (Z.mod_pos_bound (g / 2 ^ 8) 4 ltac:(lia)).
  replace (g / 2 ^ 8 mod 4 * 2 ^ 8 =? 0x100) with (g / 2 ^ 8 mod 4 =? 1) by lia.
  destruct (_ =? 1) eqn:E.
  - pose proof (Z.add_lor_land (to_u32 g) 0x200) as Hsum.
    assert (Hz : Z.land (to_u32 g) 0x200 = 0).
    { change 0x200 with (Z.shiftl (Z.ones 1) 9). rewrite land_field by lia. unfold to_u32, u32_modulus. field_lia. }
    rewrite <- low_mod. rewrite (to_u32_small (to_u32 g + 2 ^ 9)); [lia|]. unfold to_u32, u32_modulus, is_u32, u32_max in *. field_lia.
  - rewrite <- low_mod, Z.add_0_r. by rewrite (to_u32_small (to_u32 g)).
Qed.

Lemma wait_control_values f o p : 0 <= f <= 7 -> 0 <= o <= 4 -> 0 <= p <= 3 ->
  Wait32Control f o p = 0x10 + f + 2 ^ 6 * (o / 4) + 2 ^ 8 * (o mod 4) + 2 ^ 25 * p /\
  Wait64Control f o p = 0x10 + f + 2 ^ 6 * (o / 2) + 2 ^ 8 * (o mod 2) + 2 ^ 25 * p.
Proof.
  intros Hf Ho Hp. rewrite <- !Z.eqb_eq, <- andb_true_iff.
  set (P := fun f o p => (Wait32Control f o p =? 0x10 + f + 2 ^ 6 * (o / 4) + 2 ^ 8 * (o mod 4) + 2 ^ 25 * p)
    && (Wait64Control f o p =? 0x10 + f + 2 ^ 6 * (o / 2) + 2 ^ 8 * (o mod 2) + 2 ^ 25 * p)).
  change (P f o p = true).
  apply (small_cases (fun f => P f o p) 8); [lia|].
  apply (small_cases (fun o => forallb (fun f => P f o p) (seqZ 0 8)) 5); [lia|].
  apply (small_cases (fun p => forallb (fun o => forallb (fun f => P f o p) (seqZ 0 8)) (seqZ 0 5)) 4); [lia|].
  by vm_compute.
Qed.

Lemma event_control_value et flags : 0 <= et <= 0x3f -> flags = 0x100 \/ flags = 0x400 -> Z.lor flags et = flags + et.
Proof.
  intros H Hf. apply (lor_fields et flags 6); [lia|lia|by destruct Hf as [-> | ->]].
Qed.

Lemma initiator_with x flag : flag = 0x80 \/ flag = 0x2 -> Z.lor (initiator_bits x) flag = flag + initiator_bits x.
Proof.
  intros Hf. unfold initiator_bits. destruct (_ =? 1); [by destruct Hf as [-> | ->]|].
  pose proof (Z.mod_pos_bound (x / 2 ^ 8) 2 ltac:(lia)).
  assert (x / 2 ^ 8 mod 2 = 0 \/ x / 2 ^ 8 mod 2 = 1) as [-> | ->] by lia; by destruct Hf as [-> | ->].
Qed.

Lemma lor_absorb x y : Z.lor x (Z.land x y) = x.
Proof. apply Z.bits_inj'. intros i Hi. rewrite Z.lor_spec, Z.land_spec. by destruct (Z.testbit x i), (Z.testbit y i). Qed.

(** The header of [kSetBaseIndirectArgs] with its shader type. *)
Definition set_base_header (t : Z) : Z := Z.lor (MakePm4Header 4 kPm4SetBaseOpcode 0) (shl32 t 1).

Lemma set_base_fields t :
  Z.land (shl32 t 1) 0x3ffdee00 = 0 <-> Z.land (set_base_header t) 0x3fffff00 = 0x21100.
Proof.
  unfold set_base_header. change (MakePm4Header 4 kPm4SetBaseOpcode 0) with 0xc0021100. set (s := shl32 t 1).
  assert (E : Z.land (Z.lor 0xc0021100 s) 0x3fffff00 = Z.lor 0x21100 (Z.land s 0x3ffdee00)).
  { rewrite Z.land_lor_distr_l. change (Z.land 0xc0021100 0x3fffff00) with 0x21100.
    change 0x3fffff00 with (Z.lor 0x21100 0x3ffdee00). rewrite Z.land_lor_distr_r, Z.lor_assoc.
    by rewrite (Z.land_comm s 0x21100), lor_absorb. }
  rewrite E. split; [by intros ->|]. intros H. apply (f_equal (fun x => Z.land x 0x3ffdee00)) in H.
  rewrite Z.land_lor_distr_l in H. change (Z.land 0x21100 0x3ffdee00) with 0 in H.
  by rewrite Z.lor_0_l, <- Z.land_assoc, Z.land_diag in H.
Qed.

(** It is read as the packet that was written exactly when those bits are clear. *)
Lemma set_base_readable t :
  Z.land (shl32 t 1) 0x3ffdee00 = 0
  <-> packet_size (set_base_header t) = 4 /\ bits (set_base_header t) 8 0xff = kPm4SetBaseOpcode.
Proof.
  rewrite set_base_fields. unfold packet_size, kPm4SetBaseOpcode. set (h := set_base_header t).
  change 0x3fffff00 with (Z.shiftl (Z.ones 22) 8). change 0xff with (Z.ones 8). change 0x3fff with (Z.ones 14).
  rewrite land_field, !bits_field by lia. split; [|destruct (_ =? _) eqn:E; field_lia].
  intros H. destruct (_ =? _) eqn:E; [lia|]. field_lia.
Qed.

Lemma set_base_type t : is_u32 (set_base_header t) /\ Z.land (set_base_header t) kPm4TypeMask = kPm4Type3.
Proof.
  split; [apply lor_u32; [by vm_compute|apply to_u32_range]|].
  unfold set_base_header. rewrite Z.land_lor_distr_l.
  change (Z.land (MakePm4Header 4 kPm4SetBaseOpcode 0) kPm4TypeMask) with kPm4TypeMask.
  by rewrite Z.land_comm, lor_absorb.
Qed.

Lemma set_base_shader t : bits (set_base_header t) 1 1 = t mod 2.
Proof.
  unfold bits, set_base_header. rewrite Z.shiftr_lor, Z.land_lor_distr_l.
  change (Z.land (Z.shiftr (MakePm4Header 4 kPm4SetBaseOpcode 0) 1) 1) with 0. rewrite Z.lor_0_l.
  change 1 with (Z.ones 1) at 3. rewrite Z.land_ones, Z.shiftr_div_pow2 by lia.
  unfold shl32, to_u32, u32_modulus. rewrite Z.shiftl_mul_pow2 by lia. field_lia.
Qed.

Section agc.
Context (a : nat -> Z) (Ha : forall i, is_u64 (a i)) (m : GuestMemory).

Ltac words_of_type := cbn [agc_words];
  lazymatch goal with |- (if ?b then inl _ else _) = _ -> _ => destruct b; [discriminate|] | _ => idtac end; intros [= <-].

(** The packet is decoded by computation; the values are left to compare. *)
Ltac open_values l :=
  lazymatch l with
  | nil => constr:(@nil Z)
  | cons _ ?l' => let t := open_values l' in open_constr:(cons (_ : Z) t)
  end.
Ltac decode_packet := words_of_type; intros adr depth c; unfold agc_meaning;
  lazymatch goal with
  | |- _ = Emit (make_action ?T ?pk ?vs) ?c =>
      let l := open_values vs in transitivity (Emit (make_action T pk l) c); [reflexivity|f_equal; f_equal]
  end.

Lemma decodes_index_buffer words :
  agc_words agc_kSetIndexBuffer a m = inr words -> decodes words (agc_meaning agc_kSetIndexBuffer a m).
Proof. decode_packet. by rewrite word64_whole. Qed.

Lemma decodes_index_count words :
  agc_words agc_kSetIndexCount a m = inr words -> decodes words (agc_meaning agc_kSetIndexCount a m).
Proof. by decode_packet. Qed.

Lemma decodes_draw_index words :
  agc_words agc_kDrawIndex a m = inr words -> decodes words (agc_meaning agc_kDrawIndex a m).
Proof. decode_packet. rewrite max_one by apply to_u32_range. rewrite initiator_value by apply Ha.
  destruct (low_high _ (Ha 2%nat)) as (_ & -> & _). done. Qed.

Lemma decodes_draw_multi words :
  agc_words agc_kDrawIndexMultiInstanced a m = inr words -> decodes words (agc_meaning agc_kDrawIndexMultiInstanced a m).
Proof. decode_packet. rewrite max_one by apply to_u32_range.
  rewrite initiator_value by apply Ha. rewrite initiator_with by (by left).
  destruct (low_high _ (Ha 2%nat)) as (_ & -> & _), (low_high _ (Ha 3%nat)) as (_ & -> & _). done. Qed.

Lemma decodes_draw_auto words :
  agc_words agc_kDrawIndexAuto a m = inr words -> decodes words (agc_meaning agc_kDrawIndexAuto a m).
Proof. decode_packet. rewrite initiator_value by apply Ha. by rewrite initiator_with by (by right). Qed.

Lemma decodes_draw_offset words :
  agc_words agc_kDrawIndexOffset a m = inr words -> decodes words (agc_meaning agc_kDrawIndexOffset a m).
Proof. decode_packet. rewrite max_one by apply to_u32_range. by rewrite initiator_value by apply Ha. Qed.

Lemma decodes_dispatch_indirect words :
  agc_words agc_kDispatchIndirect a m = inr words -> decodes words (agc_meaning agc_kDispatchIndirect a m).
Proof. decode_packet. by rewrite dispatch_modifier_value by apply to_u32_range. Qed.

Lemma decodes_rewind words :
  agc_words agc_kRewind a m = inr words -> decodes words (agc_meaning agc_kRewind a m).
Proof. decode_packet. change 1 with (Z.ones 1). rewrite low_field by lia. unfold shl32. rewrite Z.shiftl_mul_pow2 by lia.
  rewrite to_u32_small; [f_equal; apply Z.mul_comm|]. pose proof (Z.mod_pos_bound (a 1%nat) (2 ^ 1) ltac:(lia)). u32_lia. Qed.

Lemma decodes_predication words :
  agc_words agc_kSetPredication a m = inr words -> decodes words (agc_meaning agc_kSetPredication a m).
Proof. decode_packet. rewrite predication_control_value.
  rewrite (word64_aligned _ 4); [done|done|lia|reflexivity|by right]. Qed.

Lemma decodes_lod_stats words :
  agc_words agc_kGetLodStats a m = inr words -> decodes words (agc_meaning agc_kGetLodStats a m).
Proof. decode_packet. rewrite lod_control_value.
  rewrite (word64_aligned _ 6); [done|done|lia|reflexivity|by left]. Qed.

Lemma decodes_register adr op space depth c :
  (op, space) ∈ [(kPm4SetShRegister, space_kShader); (kPm4SetContextRegister, space_kContext);
                 (kPm4SetUcRegister, space_kUserConfig); (kPm4SetUcRegisterIndex, space_kUserConfig)] ->
  let pk := mkPacket adr 3 op 0 [MakePm4Header 3 op 0; Z.land (to_u32 (a 1%nat)) 0xffff; high32 (a 1%nat)] in
  process_packet pk (MakePm4Header 3 op 0) depth c
  = ApplyRegisterWrite space pk (a 1%nat mod 2 ^ 16) (a 1%nat / 2 ^ 32) 0 0 c.
Proof.
  intros Hop pk. unfold pk. rewrite (decode_direct adr op space) by (done || apply land_u32; by vm_compute).
  change 0xffff with (Z.ones 16). rewrite low_field by lia. by destruct (low_high _ (Ha 1%nat)) as (_ & -> & _).
Qed.

Lemma index_type_value : ((0x400 ||| (to_u32 (a 1%nat) & 0x3) ||| ((to_u32 (a 2%nat) & 0x3) <<< 6))%u32)
  = 0x400 + 64 * (a 2%nat mod 4) + a 1%nat mod 4.
Proof.
  change 3 with (Z.ones 2). rewrite !low_field by lia. change (2 ^ 2) with 4.
  pose proof (Z.mod_pos_bound (a 1%nat) 4 ltac:(lia)). pose proof (Z.mod_pos_bound (a 2%nat) 4 ltac:(lia)).
  assert (a 1%nat mod 4 = 0 \/ a 1%nat mod 4 = 1 \/ a 1%nat mod 4 = 2 \/ a 1%nat mod 4 = 3) as H1 by lia.
  assert (a 2%nat mod 4 = 0 \/ a 2%nat mod 4 = 1 \/ a 2%nat mod 4 = 2 \/ a 2%nat mod 4 = 3) as H2 by lia.
  by destruct H1 as [-> |[-> |[-> | ->]]], H2 as [-> |[-> |[-> | ->]]].
Qed.

Lemma jump_size : Z.land ((0x0f200000 ||| ((to_u32 (a 2%nat) & 0x3) <<< 28) ||| ((to_u32 (a 1%nat) & 0x1) <<< 20)
    ||| (to_u32 (a 4%nat) & 0xfffff))%u32) 0xfffff = a 4%nat mod 2 ^ 20.
Proof.
  change 0xfffff with (Z.ones 20). rewrite <- (low_field (a 4%nat) 20) by lia. rewrite !Z.land_lor_distr_l.
  assert (Hz : forall x k, 20 <= k <= 32 -> Z.land (shl32 x k) (Z.ones 20) = 0).
  { intros x k Hk. unfold shl32. rewrite low_field by lia. rewrite Z.shiftl_mul_pow2 by lia.
    replace k with (k - 20 + 20) by lia. rewrite Z.pow_add_r, Z.mul_assoc by lia. apply Z.mod_mul. lia. }
  rewrite !Hz by lia. rewrite <- Z.land_assoc, Z.land_diag. done.
Qed.

Lemma decodes_sh words :
  agc_words agc_kSetShRegisterDirect a m = inr words -> decodes words (agc_meaning agc_kSetShRegisterDirect a m).
Proof. words_of_type. intros adr depth c. apply (decodes_register adr kPm4SetShRegister space_kShader). set_solver. Qed.

Lemma decodes_cx words :
  agc_words agc_kSetCxRegisterDirect a m = inr words -> decodes words (agc_meaning agc_kSetCxRegisterDirect a m).
Proof. words_of_type. intros adr depth c. apply (decodes_register adr kPm4SetContextRegister space_kContext). set_solver. Qed.

Lemma decodes_uc words :
  agc_words agc_kSetUcRegisterDirect a m = inr words -> decodes words (agc_meaning agc_kSetUcRegisterDirect a m).
Proof. words_of_type. intros adr depth c. apply (decodes_register adr kPm4SetUcRegister space_kUserConfig). set_solver. Qed.

Lemma decodes_index_size words :
  agc_words agc_kSetIndexSize a m = inr words -> decodes words (agc_meaning agc_kSetIndexSize a m).
Proof. words_of_type. intros adr depth c.
  etransitivity; [apply (decode_direct adr kPm4SetUcRegisterIndex space_kUserConfig); [set_solver|by vm_compute]|].
  unfold agc_meaning. rewrite index_type_value. reflexivity. Qed.

Lemma decodes_num_instances words :
  agc_words agc_kSetNumInstances a m = inr words -> decodes words (agc_meaning agc_kSetNumInstances a m).
Proof. words_of_type. intros adr depth c. reflexivity. Qed.

Lemma decodes_set_base words :
  Z.land (shl32 (a 1%nat mod 2 ^ 32) 1) 0x3ffdee00 = 0 ->
  agc_words agc_kSetBaseIndirectArgs a m = inr words -> decodes words (agc_meaning agc_kSetBaseIndirectArgs a m).
Proof.
  intros Hbits. words_of_type. intros adr depth c. unfold agc_meaning. rewrite <- low_mod in Hbits.
  apply set_base_readable in Hbits as [Fs Fo].
  pose proof (word64_aligned (a 2%nat) 3 (not32 7) u32_max (Ha 2%nat) ltac:(lia) eq_refl (or_introl eq_refl)) as E.
  change (2 ^ 3) with 8 in E. pose proof (set_base_shader (to_u32 (a 1%nat))) as Et.
  replace (to_u32 (a 1%nat) mod 2) with (a 1%nat mod 2) in Et by (unfold to_u32, u32_modulus; field_lia).
  rewrite <- E, <- Et. fold (set_base_header (to_u32 (a 1%nat))). set (h := set_base_header (to_u32 (a 1%nat))) in *.
  unfold packet_at. cbn [nth]. rewrite Fs, Fo. clearbody h. reflexivity.
Qed.

Lemma decodes_jump words :
  agc_words agc_kJump a m = inr words -> decodes words (agc_meaning agc_kJump a m).
Proof. words_of_type. intros adr depth c. unfold agc_meaning.
  pose proof (word64_aligned (a 3%nat) 2 (not32 3) (not32 3) (Ha 3%nat) ltac:(lia) eq_refl (or_intror eq_refl)) as E.
  change (2 ^ 2) with 4 in E. rewrite <- E. rewrite <- jump_control_value. rewrite <- jump_size. reflexivity. Qed.
Lemma event_timestamp et : 0 <= et <= 0x3f -> (Z.land et 0xfe =? 0x38) = (et =? 0x38) || (et =? 0x39).
Proof.
  intros H. apply eqb_prop. apply (small_cases (fun et => Bool.eqb (Z.land et 0xfe =? 0x38) ((et =? 0x38) || (et =? 0x39))) 64);
    [lia|by vm_compute].
Qed.

Lemma event_control et flags : 0 <= et <= 0x3f -> flags = 0 \/ flags = 0x100 \/ flags = 0x400 ->
  Z.land (Z.lor flags et) 0x3f = et.
Proof.
  intros H Hf. apply Z.eqb_eq. destruct Hf as [-> |[-> | ->]];
    [apply (small_cases (fun et => Z.land (Z.lor 0 et) 0x3f =? et) 64)
    |apply (small_cases (fun et => Z.land (Z.lor 0x100 et) 0x3f =? et) 64)
    |apply (small_cases (fun et => Z.land (Z.lor 0x400 et) 0x3f =? et) 64)]; (lia || by vm_compute).
Qed.

Lemma decodes_event words :
  agc_words agc_kEventWrite a m = inr words -> decodes words (agc_meaning agc_kEventWrite a m).
Proof.
  cbn [agc_words]. unfold event_write_packet. pose proof (to_u32_range (a 1%nat)) as Hr. set (et := to_u32 (a 1%nat)) in *.
  destruct (et >? 0x3f) eqn:E1; [discriminate|].
  assert (Het : 0 <= et <= 0x3f) by u32_lia. rewrite event_timestamp by done. destruct (_ || _) eqn:E2.
  - intros [= <-] adr depth c. unfold agc_meaning. rewrite <- low_mod. fold et. rewrite E2.
    pose proof (word64_aligned (a 2%nat) 3 (not32 7) (not32 7) (Ha 2%nat) ltac:(lia) eq_refl (or_intror eq_refl)) as E.
    change (2 ^ 3) with 8 in E. rewrite <- E. pose proof (event_control et 0x100 Het ltac:(by right; left)) as Ec.
    rewrite <- (event_control_value et 0x100) by (done || by left).
    transitivity (Emit (make_action act_kEventWrite (packet_at adr
      [MakePm4Header 4 kPm4EventWriteOpcode 0; Z.lor 0x100 et; Z.land (to_u32 (a 2%nat)) (not32 7); high32 (a 2%nat)])
      [Z.land (Z.lor 0x100 et) 0x3f; wide (Z.land (Z.land (to_u32 (a 2%nat)) (not32 7)) (not32 7)) (high32 (a 2%nat));
       Z.lor 0x100 et]) c); [reflexivity|]. by rewrite Ec.
  - intros [= <-] adr depth c. unfold agc_meaning. rewrite <- low_mod. fold et. rewrite E2.
    rewrite <- (event_control_value et 0x400) by (done || by right).
    set (control := if (et =? 7) || (et =? 15) || (et =? 16) then Z.lor 0x400 et else et).
    assert (Ec : Z.land control 0x3f = et).
    { unfold control. destruct (_ || _ || (et =? 16)); [by apply event_control; [|right; right]|]. by apply (event_control et 0); [|left]. }
    transitivity (Emit (make_action act_kEventWrite (packet_at adr [MakePm4Header 2 kPm4EventWriteOpcode 0; control])
      [Z.land control 0x3f; 0; control]) c); [reflexivity|]. by rewrite Ec.
Qed.

Lemma wait_poll x : WaitPoll (to_u32 x) = Z.min (x mod 2 ^ 32 / 16) 0xffff.
Proof. unfold WaitPoll. rewrite Z.shiftr_div_pow2 by lia. done. Qed.

Lemma wait_address_word x k : is_u64 x -> 2 <= k <= 3 ->
  wide (Z.land (Z.land (to_u32 x) (Z.shiftl (Z.ones (32 - k)) k)) u32_max) (Z.land (high32 x) 0x3ffff)
  = 2 ^ k * (x mod 2 ^ 50 / 2 ^ k).
Proof.
  intros Hx Hk. rewrite <- wide_wait by done. f_equal. apply land_whole. pose proof (to_u32_range x) as Hr.
  rewrite (Z.land_comm (to_u32 x)). pose proof (land_mask (Z.shiftl (Z.ones (32 - k)) k) (to_u32 x) (proj1 Hr)). u32_lia.
Qed.

Lemma decodes_wait words :
  agc_words agc_kWaitRegMem a m = inr words -> decodes words (agc_meaning agc_kWaitRegMem a m).
Proof.
  cbn [agc_words]. unfold wait_packet.
  pose proof (to_u32_range (a 2%nat)). pose proof (to_u32_range (a 3%nat)). pose proof (to_u32_range (a 4%nat)).
  destruct (_ || _ || _ || _) eqn:E0; [discriminate|].
  destruct (wait_control_values (to_u32 (a 2%nat)) (to_u32 (a 3%nat)) (to_u32 (a 4%nat))) as [C1 C2]; [u32_lia..|].
  rewrite wait_poll, (low_mod (a 1%nat)).
  destruct (a 1%nat mod 2 ^ 32 =? 0) eqn:E1; intros [= <-] adr depth c; unfold agc_meaning; rewrite E1.
  - pose proof (wait_address_word (a 5%nat) 2 (Ha 5%nat) ltac:(lia)) as E. change (2 ^ 2) with 4 in E. rewrite <- E.
    rewrite <- !low_mod, <- C1. reflexivity.
  - pose proof (wait_address_word (a 5%nat) 3 (Ha 5%nat) ltac:(lia)) as E. change (2 ^ 3) with 8 in E. rewrite <- E.
    pose proof (word64_whole _ (Ha 7%nat)) as Em. pose proof (word64_whole _ (Ha 6%nat)) as Er.
    rewrite <- !low_mod, <- C2. cbn [nth]. set (pk := packet_at _ _). rewrite <- Em, <- Er. reflexivity.
Qed.

Lemma release_control d i n : 0 <= d <= 1 -> 0 <= i <= 4 -> 0 <= n <= 5 ->
  (((d & 3) <<< 16) ||| ((i & 7) <<< 24) ||| ((n & 7) <<< 29))%u32 = 2 ^ 16 * d + 2 ^ 24 * i + 2 ^ 29 * n.
Proof.
  intros Hd Hi Hn. assert (d = 0 \/ d = 1) as Hd' by lia.
  assert (i = 0 \/ i = 1 \/ i = 2 \/ i = 3 \/ i = 4) as Hi' by lia.
  assert (n = 0 \/ n = 1 \/ n = 2 \/ n = 3 \/ n = 4 \/ n = 5) as Hn' by lia.
  repeat destruct Hd' as [-> |Hd']; repeat destruct Hi' as [-> |Hi']; repeat destruct Hn' as [-> |Hn']; subst; reflexivity.
Qed.

Lemma gds_value x y : Z.lor (Z.land (to_u32 x) 0xffff) (Z.shiftl (Z.land (to_u32 y) 0xffff) 16)
  = x mod 2 ^ 16 + 2 ^ 16 * (y mod 2 ^ 16).
Proof.
  change 0xffff with (Z.ones 16). rewrite !low_field by lia. pose proof (Z.mod_pos_bound x (2 ^ 16) ltac:(lia)).
  rewrite Z.lor_comm, lor_low by lia. lia.
Qed.

Lemma decodes_release words :
  agc_words agc_kReleaseMemory a m = inr words -> decodes words (agc_meaning agc_kReleaseMemory a m).
Proof.
  cbn [agc_words]. unfold release_memory_packet. rewrite gds_value, release_gcr_value.
  pose proof (to_u32_range (a 3%nat)). pose proof (to_u32_range (a 6%nat)). pose proof (to_u32_range (a 10%nat)).
  destruct (_ || _ || _) eqn:E1; [discriminate|]. set (dest := if _ =? 4 then 0 else a 5%nat).
  set (data := if to_u32 (a 10%nat) =? 4 then 0 else _). rewrite release_control by u32_lia.
  rewrite release_event_value by (destruct (_ >=? _); auto).
  assert (Hd : is_u64 dest) by (unfold dest; destruct (_ =? 4); [u64_lia|apply Ha]).
  assert (Hv : is_u64 data).
  { unfold data. destruct (_ =? 4); [u64_lia|]. destruct (_ =? 5); [|apply Ha].
    pose proof (Z.mod_pos_bound (a 8%nat) (2 ^ 16) ltac:(lia)). pose proof (Z.mod_pos_bound (a 9%nat) (2 ^ 16) ltac:(lia)). u64_lia. }
  intros [= <-] adr depth c. unfold agc_meaning. rewrite <- !low_mod. fold data.
  pose proof (word64_aligned dest 2 (not32 3) u32_max Hd ltac:(lia) eq_refl (or_introl eq_refl)) as E.
  change (2 ^ 2) with 4 in E.
  replace (if to_u32 (a 10%nat) =? 4 then 0 else 4 * (a 5%nat / 4)) with (4 * (dest / 4))
    by (unfold dest; by destruct (_ =? 4)).
  pose proof (word64_whole data Hv) as Ev. pose proof (low_field (a 11%nat) 27 ltac:(lia)) as Ec.
  cbn [nth]. set (pk := packet_at _ _). rewrite <- E, <- Ec. rewrite <- Ev at 1. reflexivity.
Qed.

(** The data is read in whole words. *)
Lemma write_data_words words :
  agc_words agc_kWriteData a m = inr words -> memory_ok m ->
  let n := a 5%nat mod 2 ^ 32 in
  let confirm := if a 1%nat mod 2 ^ 32 =? 0 then 0 else a 7%nat mod 2 in
  let control := a 1%nat mod 2 ^ 8 + 2 ^ 8 * (a 2%nat mod 2 ^ 8) + 2 ^ 16 * (a 6%nat mod 2 ^ 8) + 2 ^ 24 * confirm in
  0 <= n <= 0x3ffd /\ exists lo hi,
    words = [MakePm4Header (4 + n) kPm4NopOpcode kPm4WriteDataRegister; control; lo; hi]
            ++ words_at m (a 4%nat) (Z.to_nat n) /\
    is_u32 control /\ is_u32 lo /\ is_u32 hi /\ wide (Z.land lo u32_max) hi = 4 * (a 3%nat / 4) /\
    Forall is_u32 (words_at m (a 4%nat) (Z.to_nat n)).
Proof.
  cbn [agc_words]. unfold write_data_packet. cbv zeta. rewrite write_data_control, !low_mod. pose proof (to_u32_range (a 5%nat)) as Hr.
  rewrite low_mod in Hr. set (n := a 5%nat mod 2 ^ 32) in *. destruct (_ || _) eqn:E1; [discriminate|].
  unfold add32. rewrite to_u32_small by u32_lia. intros E [Hm Hb]. split; [u32_lia|].
  assert (exists data, (if negb (n * 4 =? 0) then Read (a 4%nat) (n * 4) m else Some []) = Some data) as [data Ed]
    by (destruct (if negb _ then _ else _) as [data|]; [by exists data|discriminate]).
  rewrite Ed in E. injection E as <-.
  assert (Hdata : data = guest_bytes m (a 4%nat) (Z.of_nat (Z.to_nat n) * 4) /\ Forall is_byte data).
  { rewrite Z2Nat.id by u32_lia. destruct (n * 4 =? 0) eqn:E2; cbn [negb] in Ed.
    - injection Ed as <-. replace (n * 4) with 0 by lia. split; [done|constructor].
    - destruct (Read_bytes m (a 4%nat) (n * 4) data Hm Hb (Ha _) ltac:(u32_lia) Ed) as [Hbytes _]. split; [|done].
      rewrite Read_spec in Ed by (done || u32_lia || apply Ha). destruct (CanAccessLocked _ _ _ _); [by injection Ed|done]. }
  destruct Hdata as [-> Hbytes]. eexists _, _. split; [reflexivity|].
  split; [|split; [|split; [apply low_high, Ha|split]]].
  - rewrite <- write_data_control. repeat apply lor_u32; [by apply land_u32|apply to_u32_range..].
  - rewrite Z.land_comm. apply land_u32, to_u32_range.
  - apply (word64_aligned (a 3%nat) 2 (not32 3) u32_max (Ha _)); [lia|reflexivity|by left].
  - unfold words_at. apply Forall_map, Forall_forall. intros i Hi. unfold Gpu_Read32. set (b := take _ _).
    assert (Hbb : Forall is_byte b) by (by apply Forall_take, Forall_drop).
    assert (Hl : (length b <= 4)%nat) by (unfold b; rewrite length_take; lia).
    pose proof (le_value_bound b Hbb). assert (256 ^ Z.of_nat (length b) <= 256 ^ 4) by (apply Z.pow_le_mono_r; lia). u32_lia.
Qed.

Lemma word_past_header adr n op reg h w1 w2 w3 data i c :
  (i < length data)%nat ->
  word (S := S) (mkPacket adr n op reg ([h; w1; w2; w3] ++ data)) (4 + Z.of_nat i) c = Some (c, nth i data 0).
Proof.
  intros Hi. unfold word, word_at. replace (4 + Z.of_nat i <? 0) with false by lia.
  replace (Z.to_nat (4 + Z.of_nat i)) with (4 + i)%nat by lia. cbn [pk_words app lookup list_lookup Nat.add].
  change (([h; w1; w2; w3] ++ data) !! (4 + i)%nat) with (data !! i).
  rewrite nth_lookup. destruct (data !! i) eqn:E; [done|]. apply lookup_ge_None in E. lia.
Qed.

Lemma decodes_write_data words :
  a 5%nat mod 2 ^ 32 <> 0x3ffd -> memory_ok m ->
  agc_words agc_kWriteData a m = inr words -> decodes words (agc_meaning agc_kWriteData a m).
Proof.
  intros Hsize Hm Hw adr depth c.
  destruct (write_data_words words Hw Hm) as (Hn & lo & hi & -> & Hc & Hl & Hh & E & Hd).
  unfold agc_meaning. set (control := a 1%nat mod 2 ^ 8 + _ + _ + _) in *.
  set (n := a 5%nat mod 2 ^ 32) in *. set (data := words_at m (a 4%nat) (Z.to_nat n)) in *.
  assert (Hlen : length data = Z.to_nat n) by (unfold data, words_at; by rewrite length_map, length_seq).
  destruct (header_fields (4 + n) kPm4NopOpcode kPm4WriteDataRegister) as (_ & _ & Fs & Fo & Fr);
    [lia|done|done|right; lia|].
  unfold packet_at. cbn [app nth]. rewrite Fs, Fo, Fr. change (_ :: _ :: _ :: _ :: data) with
    ([MakePm4Header (4 + n) kPm4NopOpcode kPm4WriteDataRegister; control; lo; hi] ++ data).
  set (h := MakePm4Header _ _ _). set (pk := mkPacket _ _ _ _ _).
  transitivity (ProcessWriteData pk c); [reflexivity|]. unfold ProcessWriteData.
  replace (pk_dwords pk <? 4) with false by (cbn; lia). replace (pk_dwords pk - 4) with n by (cbn; lia).
  assert (Hfirst : forall i, (i < 2)%nat ->
    (if n >? Z.of_nat i then word pk (4 + Z.of_nat i) else mret 0) c = Some (c, nth i data 0)).
  { intros i Hi. destruct (n >? Z.of_nat i) eqn:En; [apply word_past_header; lia|]. by rewrite nth_overflow by lia. }
  pose proof (Hfirst 0%nat ltac:(lia)) as H0. pose proof (Hfirst 1%nat ltac:(lia)) as H1.
  change (4 + Z.of_nat 0) with 4 in H0. change (4 + Z.of_nat 1) with 5 in H1. 
  change (Z.of_nat 0) with 0 in H0. change (Z.of_nat 1) with 1 in H1.
  rewrite <- E. unfold mbind, decode_bind. change (word64 pk 2 u32_max c) with (Some (c, wide (Z.land lo u32_max) hi)).
  cbn iota. change (word pk 1 c) with (Some (c, control)). cbn iota. rewrite H0. cbn iota. rewrite H1. reflexivity.
Qed.
End agc.

Lemma decodes_nop n m words : n <> kMaximumPm4PacketDwords -> nop_packet n = inr words -> decodes words (meaning (Nop n) m).
Proof.
  unfold nop_packet, kMaximumPm4PacketDwords. intros Hn. destruct (_ || _) eqn:E; [discriminate|]. intros [= <-] adr depth c.
  destruct (Z.to_nat n) as [|k] eqn:Ek; [lia|]. cbn [replicate].
  destruct (header_fields n kPm4NopOpcode 0) as (_ & _ & Fs & Fo & Fr); [lia|done|done|right; lia|].
  unfold packet_at. change (nth 0 (<[0%nat:=MakePm4Header n kPm4NopOpcode 0]> (0 :: replicate k 0)) 0)
    with (MakePm4Header n kPm4NopOpcode 0). rewrite Fs, Fo, Fr. reflexivity.
Qed.

Lemma decodes_dispatch x y z modifier m :
  is_u32 modifier -> decodes (dispatch_packet x y z modifier) (meaning (Dispatch x y z modifier) m).
Proof. intros Hm adr depth c. unfold meaning. rewrite <- dispatch_modifier_value by done. reflexivity. Qed.

Lemma request_decodes r m words :
  memory_ok m -> request_typed r -> header_intact r -> words_of r m = inr words -> decodes words (meaning r m).
Proof.
  intros Hm Ha Hok Hw. destruct r as [n|x y z modifier|type a]; cbn [words_of] in Hw.
  - by eapply decodes_nop.
  - injection Hw as <-. apply decodes_dispatch, Ha.
  - destruct type; revert Hw.
    all: eauto using decodes_sh, decodes_cx, decodes_uc, decodes_index_size, decodes_index_buffer, decodes_index_count,
      decodes_num_instances, decodes_draw_index, decodes_draw_multi, decodes_draw_auto, decodes_draw_offset,
      decodes_set_base, decodes_dispatch_indirect, decodes_jump, decodes_rewind, decodes_predication,
      decodes_write_data, decodes_release, decodes_event, decodes_lod_stats, decodes_wait.
Qed.

(** The words of a packet: of their width, and with a header that tells their
    number. *)
Record packet_words_ok (words : list Z) : Prop := {
  pw_size : 2 <= Z.of_nat (length words) <= kMaximumPm4PacketDwords;
  pw_words : Forall is_u32 words;
  pw_type : Z.land (nth 0 words 0) kPm4TypeMask = kPm4Type3;
  pw_length : packet_size (nth 0 words 0) = Z.of_nat (length words)
}.

Lemma headed_ok n opcode reg rest :
  n = Z.of_nat (length rest) + 1 -> 2 <= n <= 0x4001 -> 0 <= opcode < 256 -> 0 <= reg < 64 ->
  opcode <> kPm4Nop \/ n <> 0x4001 -> Forall is_u32 rest -> packet_words_ok (MakePm4Header n opcode reg :: rest).
Proof.
  intros Hn Hr Ho Hg Hne Hw. destruct (header_fields n opcode reg) as (F1 & F2 & F3 & _); try done.
  split; cbn [length nth]; unfold kMaximumPm4PacketDwords; [lia|by constructor|done|]. rewrite F3. lia.
Qed.

Lemma initiator_u32 x : is_u32 (DrawIndexInitiator x).
Proof. unfold DrawIndexInitiator. destruct (negb _); [by vm_compute|]. apply land_u32. by vm_compute. Qed.
Lemma poll_u32 x : is_u32 x -> is_u32 (WaitPoll x).
Proof.
  intros Hx. unfold WaitPoll. rewrite Z.shiftr_div_pow2 by lia. assert (0 <= x / 2 ^ 4) by (apply Z.div_pos; u32_lia). u32_lia.
Qed.

Ltac u32_word := lazymatch goal with
  | |- is_u32 (Z.lor _ _) => apply lor_u32; u32_word
  | |- is_u32 (Z.land _ _) => apply land_u32; by vm_compute
  | |- is_u32 (shl32 _ _) => apply to_u32_range
  | |- is_u32 (to_u32 _) => apply to_u32_range
  | |- is_u32 (high32 _) => apply to_u32_range
  | |- is_u32 (DrawIndexInitiator _) => apply initiator_u32
  | |- is_u32 (WaitPoll _) => apply poll_u32, to_u32_range
  | |- is_u32 (if _ then _ else _) => case_match; u32_word
  | |- is_u32 ?x => by vm_compute
  end.
Ltac packet_words := first [apply headed_ok; [reflexivity|lia|by vm_compute|by vm_compute|left; by vm_compute|]
    |apply headed_ok; [reflexivity|lia|by vm_compute|by vm_compute|right; by vm_compute|]];
  repeat (constructor; [u32_word|]); constructor.

Lemma agc_words_ok type a m words :
  memory_ok m -> request_typed (Agc type a) -> header_intact (Agc type a) -> agc_words type a m = inr words -> packet_words_ok words.
Proof.
  intros Hm Ha Hok. destruct type; cbn [agc_words]; cbv zeta;
    try (lazymatch goal with |- (if ?b then inl _ else _) = _ -> _ => destruct b; [discriminate|] | _ => idtac end;
         intros [= <-]; packet_words).
  - intros [= <-]. cbn [header_intact] in Hok. rewrite <- low_mod in Hok. apply set_base_readable in Hok as [Fs _].
    fold (set_base_header (to_u32 (a 1%nat))). destruct (set_base_type (to_u32 (a 1%nat))) as [T1 T2].
    split; [by vm_compute| |done|done]. constructor; [done|]. repeat (constructor; [u32_word|]). constructor.
  - intros Hw. destruct (write_data_words a Ha m words Hw Hm) as (Hn & lo & hi & -> & Hc & Hl & Hh & _ & Hd).
    cbn [header_intact] in Hok. cbn [app]. apply headed_ok; [|lia|by vm_compute|by vm_compute|right; lia|by do 3 (constructor; [done|])].
    cbn [length]. unfold words_at. rewrite length_map, length_seq. lia.
  - unfold release_memory_packet. destruct (_ || _ || _); [discriminate|]. intros [= <-]. packet_words.
  - unfold event_write_packet. destruct (_ >? _) eqn:E; [discriminate|]. repeat case_match; intros [= <-]; packet_words.
  - unfold wait_packet, Wait32Control, Wait64Control. destruct (_ || _ || _ || _); [discriminate|].
    destruct (_ =? 0); intros [= <-]; packet_words.
Qed.

Lemma request_words_ok r m words :
  memory_ok m -> request_typed r -> header_intact r -> words_of r m = inr words -> packet_words_ok words.
Proof.
  intros Hm Ht Hok. destruct r as [n|x y z modifier|type a]; cbn [words_of]; [| |by apply agc_words_ok].
  - unfold nop_packet. destruct (_ || _) eqn:E; [discriminate|]. intros [= <-]. destruct (Z.to_nat n) as [|k] eqn:Ek; [lia|].
    cbn [replicate]. change (<[0%nat:=?x]> (0 :: replicate k 0)) with (x :: replicate k 0).
    unfold header_intact, kMaximumPm4PacketDwords in *. apply headed_ok; [rewrite length_replicate; lia|lia|by vm_compute|by vm_compute|right; lia|].
    apply Forall_replicate. by vm_compute.
  - destruct Ht as (Hx & Hy & Hz & Hmod). intros [= <-]. unfold dispatch_packet.
    apply headed_ok; [reflexivity|lia|by vm_compute|by vm_compute|left; by vm_compute|].
    repeat (constructor; [done || u32_word|]). constructor.
Qed.

Lemma process_at_packet frame_index base before words after c (x : Decode S GpuCommandStatus) :
  let all := before ++ words ++ after in
  let n := Z.of_nat (length words) in
  let adr := base + 4 * Z.of_nat (length before) in
  packet_words_ok words -> is_u64 base -> base + 4 * Z.of_nat (length all) <= u64_max -> Z.of_nat (length all) <= u32_max ->
  is_u64 (max_processed_dwords (cc_limits (dc_cursor c))) -> 0 <= cr_processed_dwords (cc_result (dc_cursor c)) ->
  cr_processed_dwords (cc_result (dc_cursor c)) + n <= max_processed_dwords (cc_limits (dc_cursor c)) ->
  (forall c', process_packet (packet_at adr words) (nth 0 words 0) (Z.of_nat frame_index) c' = x c') ->
  process_at frame_index (mkFrame base (Z.of_nat (length all)) (Z.of_nat (length before)) all) c
  = (_ ← count_dwords n; status ← x; if negb (is_complete status) then mret status
     else _ ← advance frame_index n; mret cmd_kComplete) c.
Proof.
  intros all n adr [W1 W2 W3 W4] Hb He Hmax Hlim Hp Hroom Hx. unfold process_at. cbn [fr_address fr_offset fr_words fr_dword_count].
  assert (Hall : Z.of_nat (length all) = Z.of_nat (length before) + n + Z.of_nat (length after))
    by (unfold all, n; rewrite !length_app; lia).
  rewrite Gpu_Add_spec by (unfold is_u64 in *; lia).
  replace (base + Z.of_nat (length before) * 4 <=? u64_max) with true by lia.
  replace (base + Z.of_nat (length before) * 4) with adr by (unfold adr; lia).
  assert (Hword : word_at all (Z.of_nat (length before)) c = Some (c, nth 0 words 0)).
  { unfold word_at. replace (Z.of_nat (length before) <? 0) with false by lia. rewrite Nat2Z.id. unfold all.
    rewrite lookup_app_r, Nat.sub_diag by lia. destruct words; [cbn in W1; lia|done]. }
  unfold mbind, decode_bind at 1. rewrite Hword. cbn iota beta zeta. unfold get at 1.
  unfold mbind, decode_bind at 1. cbn iota beta. rewrite W3, W4.
  replace (kPm4Type3 =? kPm4Type2) with false by reflexivity. replace (kPm4Type3 =? kPm4Type3) with true by reflexivity. cbn [negb].
  fold n in W1 |- *. unfold sub32. rewrite to_u32_small by u32_lia. rewrite sub64_small by u64_lia.
  replace ((n =? 0) || _) with false by lia. replace (n >? _) with false by lia. rewrite !Nat2Z.id.
  assert (Htake : take (Z.to_nat n) (drop (length before) all) = words).
  { unfold all, n. rewrite drop_app_length, Nat2Z.id. by rewrite take_app_length. }
  rewrite Htake. unfold mbind, decode_bind. destruct (count_dwords n c) as [[c1 []]|]; [|done].
  specialize (Hx c1). unfold packet_at in Hx. rewrite W4 in Hx. fold n in Hx. by rewrite Hx.
Qed.

(** The calls whose header is not intact. *)
Lemma request_misread r m words :
  memory_ok m -> request_typed r -> words_of r m = inr words -> ~ header_intact r -> misread r (nth 0 words 0).
Proof.
  intros Hm Ht Hw Hno. destruct r as [n|x y z modifier|type a]; [|done|]; cbn [words_of] in Hw.
  - assert (n = kMaximumPm4PacketDwords) as -> by (cbn in Hno; lia). unfold nop_packet in Hw.
    cbn in Hw. injection Hw as <-. reflexivity.
  - destruct type; try done; cbn [header_intact misread] in *.
    + cbn [agc_words] in Hw. injection Hw as <-. cbn [nth]. rewrite <- low_mod in Hno.
      rewrite set_base_readable in Hno. unfold set_base_header in Hno.
      destruct (decide (packet_size (Z.lor (MakePm4Header 4 kPm4SetBaseOpcode 0) (shl32 (to_u32 (a 1%nat)) 1)) = 4));
        [right|by left]. intros Heq. by apply Hno.
    + destruct (write_data_words a Ht m words Hw Hm) as (Hn & lo & hi & -> & _).
      assert (a 5%nat mod 2 ^ 32 = 0x3ffd) as -> by lia. reflexivity.
Qed.
End decode.

(** C12: What the packet writers write, the command processor reads.  Take any
    call that is not refused, with arguments of their width.  If its header is
    intact ([header_intact]: not a NOP or data packet of 0x4001 words, and no bit of
    the unmasked shader type of the indirect-argument base falls on a clear bit of
    size or opcode), the packet has between 2 and 0x4001 words of 32 bits, its header
    tells their number, and wherever it stands in a frame the command processor
    takes exactly its words and does what the call asked for: writes the register,
    delivers the action with the values and the control words computed from the
    arguments, waits, or enters the buffer.  In the excepted cases, which the
    writers accept, the decoder sees another packet: a filler of one word, or
    another size or opcode. *)
Theorem written_packets_decode {S} `{!SubmissionSink S} r m words frame_index base before after (c : DecodeContext S) :
  let all := before ++ words ++ after in
  let n := Z.of_nat (length words) in
  memory_ok m -> request_typed r -> words_of r m = inr words ->
  is_u64 base -> base + 4 * Z.of_nat (length all) <= u64_max -> Z.of_nat (length all) <= u32_max ->
  is_u64 (max_processed_dwords (cc_limits (dc_cursor c))) -> 0 <= cr_processed_dwords (cc_result (dc_cursor c)) ->
  cr_processed_dwords (cc_result (dc_cursor c)) + n <= max_processed_dwords (cc_limits (dc_cursor c)) ->
  (header_intact r ->
   packet_words_ok words /\
   process_at frame_index (mkFrame base (Z.of_nat (length all)) (Z.of_nat (length before)) all) c
   = (_ ← count_dwords n;
      status ← meaning r m (packet_at (base + 4 * Z.of_nat (length before)) words) (Z.of_nat frame_index);
      if negb (is_complete status) then mret status else _ ← advance frame_index n; mret cmd_kComplete) c) /\
  (~ header_intact r -> misread r (nth 0 words 0)).
Proof.
  intros all n Hm Ht Hw Hb He Hmax Hlim Hp Hroom. split; [|by apply (request_misread r m words)].
  intros Hok. pose proof (request_words_ok r m words Hm Ht Hok Hw) as Hwords.
  split; [done|]. apply process_at_packet; try done. intros c'. by apply request_decodes.
Qed.
