(* ===== verification/GpuActions.v ===== *)
(** What the sinks of the command processor are given and keep: the ring of the
    latest actions, and the render state copied into draws and dispatches
    ([src/gpu/command_processor.cpp]). *)
From S2P Require Import Prelude Words32 CommandProcessor CommandProcessorProps.

(** ** The ring of actions *)

Definition submit_all (l : list GpuAction) (r : GpuActionRing) : GpuActionRing :=
  fold_left (fun r a => (Ring_Submit a r).1) l r.

(** The last [n] elements. *)
Definition latest {A} (n : nat) (l : list A) : list A := drop (length l - n) l.

Lemma latest_snoc_short {A} n (l : list A) a : (length l < n)%nat -> latest n (l ++ [a]) = latest n l ++ [a].
Proof. intros H. unfold latest. rewrite length_app. cbn. replace (length l + 1 - n)%nat with 0%nat by lia.
  by replace (length l - n)%nat with 0%nat by lia.
Qed.

Lemma latest_snoc_full {A} n (l : list A) a :
  (0 < n <= length l)%nat -> latest n (l ++ [a]) = drop 1 (latest n l) ++ [a].
Proof.
  intros H. unfold latest. rewrite length_app, drop_drop. cbn. rewrite drop_app_le by lia. f_equal. f_equal. lia.
Qed.

Lemma latest_length {A} n (l : list A) : length (latest n l) = Nat.min n (length l).
Proof. unfold latest. rewrite length_drop. lia. Qed.

(** The elements of the vector from [next_] on and then those before it are the
    latest actions in order. *)
Record ring_holds (capacity : nat) (l : list GpuAction) (r : GpuActionRing) : Prop := {
  rh_capacity : ri_capacity r = Z.of_nat capacity;
  rh_next : 0 <= ri_next r < Z.of_nat capacity;
  rh_short : (length l < capacity)%nat -> ri_next r = 0;
  rh_order : drop (Z.to_nat (ri_next r)) (ri_actions r) ++ take (Z.to_nat (ri_next r)) (ri_actions r) = latest capacity l;
  rh_dropped : ri_dropped_count r = (Z.of_nat (length l) - Z.of_nat (length (latest capacity l))) mod u64_modulus
}.

Lemma ring_submit capacity l r a :
  (0 < capacity)%nat -> ring_holds capacity l r ->
  (Ring_Submit a r).2 = cmd_kComplete /\ ring_holds capacity (l ++ [a]) (Ring_Submit a r).1.
Proof.
  intros Hc [H1 H2 H3 H4 H5]. pose proof (f_equal length H4) as Hlen.
  rewrite length_app, length_drop, length_take, latest_length in Hlen. unfold Ring_Submit. rewrite H1.
  replace (Z.of_nat capacity =? 0) with false by lia.
  destruct (Z.of_nat (length (ri_actions r)) <? Z.of_nat capacity) eqn:E.
  - assert (length l < capacity)%nat as Hl by lia. rewrite (H3 Hl) in *. change (Z.to_nat 0) with 0%nat in H4.
    rewrite drop_0, take_0, app_nil_r in H4.
    split; [done|]. split; cbn -[latest]; [done|lia|done| |].
    + change (Z.to_nat 0) with 0%nat. rewrite drop_0, take_0, app_nil_r, latest_snoc_short by done. by rewrite H4.
    + rewrite H5, !latest_length, length_app. cbn [length]. f_equal. lia.
  - destruct (ri_actions r !! Z.to_nat (ri_next r)) as [x|] eqn:Ex; [|apply lookup_ge_None in Ex; lia].
    pose proof (take_drop_middle _ _ _ Ex) as Em.
    set (p := Z.to_nat (ri_next r)) in *. set (T := take p (ri_actions r)) in *. set (D := drop (S p) (ri_actions r)) in *.
    assert (Hd : drop p (ri_actions r) = x :: D) by (by apply drop_S).
    assert (HT : length T = p) by (unfold T; rewrite length_take; apply lookup_lt_Some in Ex; lia).
    assert (HA : length (ri_actions r) = (p + S (length D))%nat) by (rewrite <- Em, length_app, HT; done).
    rewrite Hd in H4. assert (Hins : <[p := a]> (ri_actions r) = T ++ a :: D)
      by (apply insert_take_drop; by eapply lookup_lt_Some).
    split; [done|]. split; cbn -[latest]; [done| | | |].
    + apply Z.mod_pos_bound. lia.
    + rewrite length_app. cbn. lia.
    + rewrite Hins, latest_snoc_full, <- H4 by lia. cbn [drop app].
      destruct (decide (S p = capacity)) as [Ep|Ep].
      * replace ((ri_next r + 1) mod Z.of_nat capacity) with 0 by (replace (ri_next r + 1) with (Z.of_nat capacity) by lia; symmetry; apply Z.mod_same; lia).
        assert (D = []) as -> by (apply nil_length_inv; lia). cbn. by rewrite app_nil_r.
      * rewrite Z.mod_small by lia. replace (Z.to_nat (ri_next r + 1)) with (S p) by lia.
        change (T ++ a :: D) with (T ++ [a] ++ D). rewrite app_assoc.
        assert (Hl : length (T ++ [a]) = S p) by (rewrite length_app, HT; cbn; lia).
        rewrite <- Hl at 1 2. rewrite drop_app_length, take_app_length. by rewrite app_assoc.
    + rewrite H5, !latest_length, length_app. unfold add64. rewrite Zplus_mod_idemp_l. f_equal. cbn [length]. lia.
Qed.

Lemma ring_init capacity : (0 < capacity)%nat -> ring_holds capacity [] (GpuActionRing_init (Z.of_nat capacity)).
Proof. intros H. split; cbn; [done|lia|done|done|by rewrite Z.mod_0_l]. Qed.

Lemma ring_holds_all capacity l : forall l0 r,
  (0 < capacity)%nat -> ring_holds capacity l0 r -> ring_holds capacity (l0 ++ l) (submit_all l r).
Proof.
  induction l as [|a l IH]; intros l0 r Hc Hr; cbn [submit_all fold_left]; [by rewrite app_nil_r|].
  replace (l0 ++ a :: l) with ((l0 ++ [a]) ++ l) by (by rewrite <- app_assoc). apply IH; [done|]. by apply ring_submit.
Qed.

(** The element at an index of a vector read from [p] on, around its end. *)
Lemma rotated_lookup {A} (v : list A) p i :
  (p < length v)%nat -> (i < length v)%nat ->
  (drop p v ++ take p v) !! i = v !! ((p + i) mod length v)%nat.
Proof.
  intros Hp Hi. destruct (decide (i < length v - p)%nat).
  - rewrite lookup_app_l, lookup_drop by (rewrite length_drop; lia). by rewrite Nat.mod_small by lia.
  - rewrite lookup_app_r, length_drop by (rewrite length_drop; lia). rewrite lookup_take_lt by lia. f_equal.
    replace (p + i)%nat with (i - (length v - p) + 1 * length v)%nat by lia. rewrite Nat.Div0.mod_add. by rewrite Nat.mod_small by lia.
Qed.

(** C15: The ring keeps the latest actions.  After any sequence of submissions to an
    empty ring, every one of which is accepted, the ring holds exactly the last
    [capacity] of them, [At] gives them in the order of submission and nothing
    beyond, and the count of dropped actions is the number of the others.
    Clearing makes it the empty ring again. *)
Theorem ring_keeps_latest capacity l :
  0 < capacity ->
  let r := submit_all l (GpuActionRing_init capacity) in
  let kept := latest (Z.to_nat capacity) l in
  Ring_size r = Z.of_nat (length kept) /\
  (forall index, 0 <= index -> Ring_At index r = kept !! Z.to_nat index) /\
  ri_dropped_count r = (Z.of_nat (length l) - Z.of_nat (length kept)) mod u64_modulus /\
  (forall a, (Ring_Submit a r).2 = cmd_kComplete) /\
  Ring_Clear r = GpuActionRing_init capacity.
Proof.
  intros Hc r kept. assert (Hn : (0 < Z.to_nat capacity)%nat) by lia.
  pose proof (ring_holds_all (Z.to_nat capacity) l [] _ Hn (ring_init _ Hn)) as Hr. rewrite Z2Nat.id in Hr by lia.
  fold r in Hr. change ([] ++ l) with l in Hr. pose proof Hr as [H1 H2 H3 H4 H5]. fold kept in H4, H5.
  rewrite Z2Nat.id in H1, H2 by lia. pose proof (f_equal length H4) as Hlen.
  rewrite length_app, length_drop, length_take in Hlen. pose proof (latest_length (Z.to_nat capacity) l) as Hk. fold kept in Hk.
  assert (Hsize : length (ri_actions r) = length kept) by lia.
  split_and!; [unfold Ring_size; by rewrite Hsize| |done|intros a; by apply (ring_submit (Z.to_nat capacity) l)|unfold Ring_Clear; by rewrite H1].
  intros index Hi. unfold Ring_At. rewrite Hsize, H1.
  destruct (index >=? Z.of_nat (length kept)) eqn:E; [symmetry; apply lookup_ge_None; lia|].
  destruct (Z.of_nat (length kept) <? capacity) eqn:E2.
  - rewrite <- H4. rewrite (H3 ltac:(lia)). change (Z.to_nat 0) with 0%nat. by rewrite drop_0, take_0, app_nil_r.
  - rewrite <- H4, rotated_lookup by lia. f_equal. rewrite Hsize. replace (length kept) with (Z.to_nat capacity) by lia.
    rewrite <- Z2Nat.inj_add by lia. rewrite Z2Nat.inj_mod by lia. done.
Qed.

(** ** Ready draws and dispatches *)

(** What the execution of a draw relies on. *)
Record draw_ready_ok (s : GpuRenderSnapshot) : Prop := {
  dk_vertices : 1 <= rd_vertex_count s <= u32_max;
  dk_instances : rd_instance_count s <> 0;
  dk_color : rd_color_base s <> 0 /\ rd_color_base s mod 256 = 0;
  dk_color_size : 1 <= rd_color_width s <= 0x4000 /\ 1 <= rd_color_height s <= 0x4000;
  dk_color_pitch : 4 * rd_color_width s <= rd_color_row_pitch_bytes s;
  dk_mask : 0 <= rd_color_write_mask s <= 15;
  dk_primitive : rd_primitive_type s ∈ [1; 2; 3; 4; 6];
  dk_cull : 0 <= rd_cull_mode s <= 2;
  dk_blend : blend_basic (rd_blend_control s) = true;
  dk_scissor_x : 0 <= rd_scissor_left s < rd_scissor_right s /\ rd_scissor_right s <= 0x7fff;
  dk_scissor_y : 0 <= rd_scissor_top s < rd_scissor_bottom s /\ rd_scissor_bottom s <= 0x7fff
}.

Definition depth_registers : list Z := [kDbZInfo; kDbZWriteBase; kDbZWriteBaseHi; kDbDepthSizeXy; kDbDepthSize].

(** The depth attachment of a draw, given the context registers.  A register that
    was never written leaves depth enabled without an attachment. *)
Definition depth_ready_ok (context_registers : RegisterMap) (s : GpuRenderSnapshot) : Prop :=
  rd_depth_enabled s = false \/
  (rd_depth_base s <> 0 /\ rd_depth_base s mod 256 = 0 /\ 1 <= rd_depth_width s <= 0x4000 /\
   1 <= rd_depth_height s <= 0x4000 /\ 4 * rd_depth_width s <= rd_depth_row_pitch_bytes s) \/
  (exists reg, reg ∈ depth_registers /\
     context_registers !! reg = None /\ rd_first_register s = reg /\ rd_depth_base s = 0).

Lemma missing_depth_register context_registers reg :
  read_depth_registers context_registers = inl reg ->
  reg ∈ depth_registers /\ context_registers !! reg = None.
Proof.
  unfold read_depth_registers, read_register, mbind, fetched_bind. intros H.
  repeat case_match; simplify_eq/=; (split; [set_solver|done]).
Qed.

(** Depth enabled and no attachment: what a draw is left with when a depth
    register was never written. *)
Record depth_detached (context_registers : RegisterMap) (s : GpuRenderSnapshot) : Prop := {
  dd_ready : rd_status s = render_kReady;
  dd_enabled : rd_depth_enabled s = true;
  dd_empty : rd_depth_base s = 0 /\ rd_depth_row_pitch_bytes s = 0 /\ rd_depth_width s = 0 /\ rd_depth_height s = 0;
  dd_missing : rd_first_register s ∈ depth_registers /\ context_registers !! rd_first_register s = None
}.

Ltac each_depth_register H := unfold depth_registers in H; repeat (apply elem_of_cons in H as [->|H]); [..|by apply elem_of_nil in H].

Lemma draw_registers_delete context_registers user_config_registers reg :
  reg ∈ depth_registers ->
  read_draw_registers (delete reg context_registers) user_config_registers
  = read_draw_registers context_registers user_config_registers.
Proof.
  intros H. unfold read_draw_registers, read_register, RegisterMap in *. cbv beta zeta. each_depth_register H;
    rewrite !lookup_delete_ne by (vm_compute; discriminate); reflexivity.
Qed.

Lemma check_color_delete context_registers r reg :
  reg ∈ depth_registers -> check_color (delete reg context_registers) r = check_color context_registers r.
Proof.
  intros H. unfold check_color, RegisterMap in *. each_depth_register H; by rewrite lookup_delete_ne by (vm_compute; discriminate).
Qed.

Lemma depth_registers_delete context_registers reg :
  reg ∈ depth_registers -> exists missing, read_depth_registers (delete reg context_registers) = inl missing.
Proof.
  intros H. destruct (read_depth_registers (delete reg context_registers)) as [missing|z] eqn:E; [by exists missing|].
  exfalso. assert (Hnone : delete reg context_registers !! reg = None) by apply lookup_delete_eq.
  unfold read_depth_registers, read_register, mbind, fetched_bind in E.
  each_depth_register H; repeat case_match; simplify_eq/=; congruence.
Qed.

(** A draw with depth enabled that passes the checks stays ready when a depth
    register is missing. *)
Lemma detached_draw context_registers user_config_registers action reg :
  ga_type action = act_kDraw -> reg ∈ depth_registers ->
  let s := SnapshotRenderState context_registers user_config_registers action in
  rd_status s = render_kReady -> rd_depth_enabled s = true ->
  let context_registers' := delete reg context_registers in
  depth_detached context_registers' (SnapshotRenderState context_registers' user_config_registers action).
Proof.
  intros Ht Hreg. unfold SnapshotRenderState. cbv zeta.
  destruct (bool_decide (ga_type action = act_kDispatch) && _ && _ && _ && _ && _ && _ && _ && _) eqn:E1.
  { rewrite !andb_true_iff, bool_decide_eq_true in E1. rewrite Ht in E1. by destruct_and?. }
  destruct (negb _ || _ || _ || _ || _); [done|]. rewrite draw_registers_delete by done.
  destruct (read_draw_registers _ _) as [missing|r]; [done|]. rewrite check_color_delete by done.
  destruct (check_color _ _) as [[? ?]|]; [done|]. destruct (_ || _); [done|]. intros _ Hen. unfold snapshot_depth in *.
  assert (Hf : flag (dr_depth_control r) 1 = true).
  { destruct (flag (dr_depth_control r) 1) eqn:E; [done|]. cbn [negb] in Hen. by rewrite <- Hen. }
  rewrite Hf in *. cbn [negb] in *. destruct (depth_registers_delete context_registers reg Hreg) as (missing & Em).
  rewrite Em. destruct (missing_depth_register _ _ Em) as [M1 M2]. by split.
Qed.

Lemma mask_range x k : 0 <= k -> 0 <= Z.land x (Z.ones k) < 2 ^ k.
Proof. intros Hk. rewrite Z.land_ones by done. apply Z.mod_pos_bound. lia. Qed.

Lemma check_color_passed context_registers r :
  check_color context_registers r = None ->
  Z.land (dr_target_mask r) (not32 0xf) = 0 /\ Z.land (dr_mode r) 3 <> 3 /\ blend_basic (dr_blend r) = true /\
  Z.land (dr_primitive r) 0x3f ∈ [1; 2; 3; 4; 6] /\ dr_base r <> 0 /\ dr_instances r <> 0 /\
  4 * color_width r <= color_row_pitch r.
Proof.
  unfold check_color. cbv zeta. intros H. repeat (match type of H with (if ?b then _ else _) = _ => destruct b eqn:?; [discriminate H|] end).
  rewrite !negb_false_iff in *. split_and!; try lia; try done.
  pose proof (mask_range (dr_primitive r) 6 ltac:(lia)) as Hp. change (Z.ones 6) with 0x3f in Hp.
  assert (Hc : Z.land (dr_primitive r) 0x3f = 1 \/ Z.land (dr_primitive r) 0x3f = 2 \/ Z.land (dr_primitive r) 0x3f = 3
    \/ Z.land (dr_primitive r) 0x3f = 4 \/ Z.land (dr_primitive r) 0x3f = 6) by lia.
  destruct Hc as [-> |[-> |[-> |[-> | ->]]]]; by apply (bool_decide_unpack _).
Qed.

Lemma draw_snapshot_ok context_registers status reg value vertices r depth_enabled depth_write compare base pitch width height :
  check_color context_registers r = None -> 1 <= vertices <= u32_max ->
  Z.land (dr_scissor_tl r) 0x7fff < Z.land (dr_scissor_br r) 0x7fff ->
  bits (dr_scissor_tl r) 16 0x7fff < bits (dr_scissor_br r) 16 0x7fff ->
  draw_ready_ok (draw_snapshot status reg value vertices r depth_enabled depth_write compare base pitch width height).
Proof.
  intros Hc Hv Hx Hy. destruct (check_color_passed _ _ Hc) as (C1 & C2 & C3 & C4 & C5 & C6 & C7). unfold bits in *.
  pose proof (mask_range (dr_scissor_tl r) 15 ltac:(lia)) as M1. pose proof (mask_range (dr_scissor_br r) 15 ltac:(lia)) as M2.
  pose proof (mask_range (Z.shiftr (dr_scissor_tl r) 16) 15 ltac:(lia)) as M3.
  pose proof (mask_range (Z.shiftr (dr_scissor_br r) 16) 15 ltac:(lia)) as M4.
  pose proof (mask_range (Z.shiftr (dr_attrib2 r) 14) 14 ltac:(lia)) as M5.
  pose proof (mask_range (dr_attrib2 r) 14 ltac:(lia)) as M6. pose proof (mask_range (dr_target_mask r) 4 ltac:(lia)) as M7.
  pose proof (mask_range (dr_mode r) 2 ltac:(lia)) as M8. change (Z.ones 15) with 0x7fff in *. change (Z.ones 14) with 0x3fff in *.
  change (Z.ones 4) with 0xf in *. change (Z.ones 2) with 3 in *.
  split; cbn -[Z.land Z.shiftl Z.shiftr blend_basic]; unfold bits, color_width, color_height, bits in *; try done; try lia.
  rewrite Z.shiftl_mul_pow2 by lia. split; [lia|apply Z.mod_mul; lia].
Qed.

Lemma depth_base_ok z : dz_base z <> 0 ->
  let base := Z.lor (Z.shiftl (dz_base z) 8) (Z.shiftl (Z.land (dz_base_hi z) 0xff) 40) in base <> 0 /\ base mod 256 = 0.
Proof.
  intros Hz base. unfold base. split.
  - rewrite Z.lor_eq_0_iff, Z.shiftl_mul_pow2 by lia. lia.
  - replace (Z.shiftl (Z.land (dz_base_hi z) 0xff) 40) with (Z.shiftl (Z.shiftl (Z.land (dz_base_hi z) 0xff) 32) 8)
      by (by rewrite Z.shiftl_shiftl). rewrite <- Z.shiftl_lor, Z.shiftl_mul_pow2 by lia. apply Z.mod_mul. lia.
Qed.

Lemma ready_draw_or_dispatch context_registers user_config_registers action :
  action_ok action ->
  let s := SnapshotRenderState context_registers user_config_registers action in
  rd_status s = render_kReady ->
  (ga_type action = act_kDraw /\ ga_opcode action = kPm4DrawIndexAuto /\ rd_vertex_count s = action_value action 0 /\
   draw_ready_ok s /\ depth_ready_ok context_registers s) \/
  (ga_type action = act_kDispatch /\ ga_opcode action = kPm4DispatchDirect /\
   [rd_group_count_x s; rd_group_count_y s; rd_group_count_z s] = map (action_value action) [0; 1; 2]%nat /\
   Forall (fun n => 1 <= n <= u32_max) (map (action_value action) [0; 1; 2]%nat)).
Proof.
  intros Hok s. unfold s, SnapshotRenderState.
  pose proof (action_value_u64 action 0 Hok) as V0. pose proof (action_value_u64 action 1 Hok) as V1.
  pose proof (action_value_u64 action 2 Hok) as V2. unfold is_u64 in *.
  destruct (bool_decide (ga_type action = act_kDispatch) && _ && _ && _ && _ && _ && _ && _ && _) eqn:E1.
  { intros _. right. rewrite !andb_true_iff, bool_decide_eq_true in E1. split_and!; [tauto|lia|done|].
    repeat constructor; lia. }
  destruct (negb _ || _ || _ || _ || _) eqn:E2; [done|].
  rewrite !orb_false_iff, !negb_false_iff, bool_decide_eq_true in E2. destruct E2 as ((((E2 & E3) & E4) & E5) & E6).
  destruct (read_draw_registers _ _) as [missing|r]; [done|]. destruct (check_color _ _) as [[reg value]|] eqn:Ec; [done|].
  destruct (_ || _) eqn:E7; [done|]. apply orb_false_iff in E7 as [E7 E8]. intros Hready. left.
  split; [done|]. split; [lia|]. unfold snapshot_depth in *.
  destruct (flag (dr_depth_control r) 1) eqn:Ed; cbn [negb] in *;
    [|split; [done|]; split; [by eapply draw_snapshot_ok; [done|lia|lia|lia]|by left]].
  destruct (read_depth_registers _) as [missing|z] eqn:Ez.
  { split; [done|]. split; [by eapply draw_snapshot_ok; [done|lia|lia|lia]|]. right. right. exists missing.
    destruct (missing_depth_register _ _ Ez). done. }
  destruct (_ || (dz_base z =? 0)) eqn:Eb; [done|]. destruct ((Z.land (dz_size z) 0x7ff + 1) * 8 <? _) eqn:Ep; [done|].
  split; [done|]. split; [by eapply draw_snapshot_ok; [done|lia|lia|lia]|]. right. left.
  destruct (depth_base_ok z ltac:(lia)) as [B1 B2]. cbn -[Z.land Z.shiftl Z.lor]. split; [done|]. split; [done|].
  pose proof (mask_range (dz_size_xy z) 14 ltac:(lia)) as M1. pose proof (mask_range (Z.shiftr (dz_size_xy z) 16) 14 ltac:(lia)) as M2.
  change (Z.ones 14) with 0x3fff in *. unfold bits. lia.
Qed.

(** C14: A ready action can be executed, except for its depth attachment.  A draw
    is marked ready only if it is an auto-indexed draw with vertices and instances,
    a colour target whose rows hold its pixels, a known primitive, supported
    culling and blending, and a scissor rectangle that is not empty; with depth
    enabled it has a depth target whose rows hold its pixels, unless a depth
    register was never written.  In that case the draw is ready all the same: take
    any one of the five depth registers away from a ready draw with depth enabled,
    and the draw is still marked ready, with depth enabled and an empty attachment
    (base, size and pitch 0).  A dispatch is marked ready only with positive group
    counts, those of the packet.  Nothing else is marked ready. *)
Theorem ready_render_state context_registers user_config_registers action :
  action_ok action ->
  let s := SnapshotRenderState context_registers user_config_registers action in
  rd_status s = render_kReady ->
  (ga_type action = act_kDraw /\ ga_opcode action = kPm4DrawIndexAuto /\ rd_vertex_count s = action_value action 0 /\
   draw_ready_ok s /\ depth_ready_ok context_registers s /\
   (rd_depth_enabled s = true -> forall reg, reg ∈ depth_registers ->
      let context_registers' := delete reg context_registers in
      depth_detached context_registers' (SnapshotRenderState context_registers' user_config_registers action))) \/
  (ga_type action = act_kDispatch /\ ga_opcode action = kPm4DispatchDirect /\
   [rd_group_count_x s; rd_group_count_y s; rd_group_count_z s] = map (action_value action) [0; 1; 2]%nat /\
   Forall (fun n => 1 <= n <= u32_max) (map (action_value action) [0; 1; 2]%nat)).
Proof.
  intros Hok s Hready. destruct (ready_draw_or_dispatch context_registers user_config_registers action Hok Hready)
    as [(H1 & H2 & H3 & H4 & H5)|H]; [left|by right].
  split_and!; try done. intros Hen reg Hreg. by apply detached_draw.
Qed.
