(* ===== verification/LibcHeap.v ===== *)
(** [kernel::LibcHeapService] ([src/kernel/libc_heap.cpp], [libc_heap.h]).

    The C library heap of the guest: [malloc]-style blocks, each its own
    guest-memory mapping, and mspaces, which carve blocks out of memory the
    guest already owns with a coalescing free list.  A memory object is known by
    its address [id] ([&memory]); every call receives the object it works on.
    [mutex_] makes each public operation one transition.  Allocation failures of
    the C++ containers are not modelled. *)
From S2P Require Import Prelude Ranges OrderedMap FreeList SharedBacking GuestMemory.

Definition kDefaultLibcHeapAlignment : Z := 16.
Definition kMaximumLibcHeapAllocations : Z := 262144.
Definition kMaximumLibcMspaces : Z := 256.
Definition kLibcMspaceMetadataBytes : Z := 64.
Definition kHeapCopyChunkSize : Z := 4096.

Record HeapAllocation := mkHeapAllocation { ha_memory : Z; ha_size : Z; ha_alignment : Z }.

#[export] Instance heap_allocation_sized : Sized HeapAllocation := ha_size.

Record Mspace := mkMspace {
  ms_memory : Z;
  ms_base_address : Z;
  ms_size : Z;
  ms_current_in_use : Z;
  ms_maximum_in_use : Z;
  ms_free_ranges : list (Z * Z);
  ms_allocations : list (Z * HeapAllocation)
}.

Record LibcHeapService := mkLibcHeap {
  lh_allocations_ : list (Z * HeapAllocation);
  lh_mspaces_ : list (Z * Mspace);
  lh_mspace_allocation_count_ : Z
}.

Definition LibcHeapService_init : LibcHeapService := mkLibcHeap [] [] 0.

(** [LibcHeapResult{status, address, size}]. *)
Definition LibcHeapResult : Type := KernelStatus * Z * Z.
Definition heap_error (s : KernelStatus) : LibcHeapResult := (s, 0, 0).

Definition with_lh_allocations h a := mkLibcHeap a (lh_mspaces_ h) (lh_mspace_allocation_count_ h).

Implicit Types (h : LibcHeapService) (ms : Mspace) (m : GuestMemory).

Definition LibcHeap_AlignUp (value alignment : Z) : option Z :=
  if negb (is_power_of_two alignment) then None
  else
    let mask := (alignment - 1)%u64 in
    if value >? (u64_max - mask)%u64 then None else Some (align_up_mask value alignment).

(** ** [malloc] blocks *)

Section heap.
Context `{HostMemory}.

Definition LibcHeap_AllocateLocked (id requested_size alignment : Z) (zero_fill : bool) h m
    : LibcHeapService * GuestMemory * LibcHeapResult :=
  if negb (is_power_of_two alignment) then (h, m, heap_error kInvalidArgument)
  else
    let alignment' := Z.max alignment kDefaultLibcHeapAlignment in
    let size := if requested_size =? 0 then 1 else requested_size in
    if (size >? u64_max) || (Z.of_nat (length (lh_allocations_ h)) >=? kMaximumLibcHeapAllocations)
    then (h, m, heap_error kNoResources)
    else
      let search_start := if base_address_ m =? 0 then alignment' else base_address_ m in
      match FindUnmappedRange search_start size alignment' m with
      | None => (h, m, heap_error kNoResources)
      | Some address =>
          let '(m1, mapped) := Map address size (Z.lor kRead kWrite) m in
          if negb mapped then (h, m1, heap_error kNoResources)
          else
            let '(m2, filled) := if zero_fill then Fill address size 0 m1 else (m1, true) in
            if negb filled then (h, (Unmap address size m2).1, heap_error kInvalidArgument)
            else match om_find address (lh_allocations_ h) with
            | Some _ => (h, (Unmap address size m2).1, heap_error kNoResources)
            | None =>
                (with_lh_allocations h
                   (om_emplace address (mkHeapAllocation id size alignment') (lh_allocations_ h)),
                 m2, (kOk, address, size))
            end
      end.

Definition LibcHeap_Allocate := LibcHeap_AllocateLocked.

Definition LibcHeap_Release (id address : Z) h m : LibcHeapService * GuestMemory * KernelStatus :=
  if address =? 0 then (h, m, kOk)
  else match om_find address (lh_allocations_ h) with
  | None => (h, m, kNotFound)
  | Some found =>
      if negb (ha_memory found =? id) then (h, m, kNotFound)
      else
        let '(m1, ok) := Unmap address (ha_size found) m in
        if negb ok then (h, m1, kInvalidArgument)
        else (with_lh_allocations h (om_erase address (lh_allocations_ h)), m1, kOk)
  end.

(** The chunked copy of a reallocation, through [Read] and [Write]. *)
Fixpoint heap_copy_loop (fuel : nat) (source destination copy_size copied : Z) m
    : GuestMemory * bool :=
  match fuel with
  | O => (m, true)
  | S f =>
      if negb (copied <? copy_size) then (m, true)
      else
        let chunk := Z.min kHeapCopyChunkSize (copy_size - copied) in
        match Read (source + copied)%u64 chunk m with
        | None => (m, false)
        | Some view =>
            let '(m1, ok) := Write (destination + copied)%u64 view m in
            if ok then heap_copy_loop f source destination copy_size (copied + chunk) m1
            else (m1, false)
        end
  end.

(** Every round copies a whole chunk but the last. *)
Definition heap_copy (source destination copy_size : Z) m : GuestMemory * bool :=
  heap_copy_loop (Z.to_nat (copy_size / kHeapCopyChunkSize + 1)) source destination copy_size 0 m.

Definition LibcHeap_Reallocate (id address requested_size : Z) h m
    : LibcHeapService * GuestMemory * LibcHeapResult :=
  if address =? 0 then LibcHeap_Allocate id requested_size kDefaultLibcHeapAlignment false h m
  else if requested_size =? 0 then
    let '(h1, m1, released) := LibcHeap_Release id address h m in (h1, m1, heap_error released)
  else match om_find address (lh_allocations_ h) with
  | None => (h, m, heap_error kNotFound)
  | Some found =>
      if negb (ha_memory found =? id) then (h, m, heap_error kNotFound)
      else
        let old_size := ha_size found in
        let '(h1, m1, resized) :=
          LibcHeap_AllocateLocked id requested_size (ha_alignment found) false h m in
        let '(status, new_address, new_size) := resized in
        if negb (status_eqb status kOk) then (h1, m1, resized)
        else
          let undo m' := (with_lh_allocations h1 (om_erase new_address (lh_allocations_ h1)),
                          (Unmap new_address new_size m').1, heap_error kInvalidArgument) in
          let '(m2, copied) := heap_copy address new_address (Z.min old_size new_size) m1 in
          if negb copied then undo m2
          else
            let '(m3, unmapped) := Unmap address old_size m2 in
            if negb unmapped then undo m3
            else (with_lh_allocations h1 (om_erase address (lh_allocations_ h1)), m3, resized)
  end.
End heap.

(** [UsableSize]: the block's own entry, or that of an mspace of the memory. *)
Fixpoint usable_in (id address : Z) (spaces : list (Z * Mspace)) : option Z :=
  match spaces with
  | [] => None
  | (_, ms) :: rest =>
      if negb (ms_memory ms =? id) then usable_in id address rest
      else match om_find address (ms_allocations ms) with
           | Some al => Some (ha_size al)
           | None => usable_in id address rest
           end
  end.

Definition UsableSize (id address : Z) h : option Z :=
  match om_find address (lh_allocations_ h) with
  | Some al => if ha_memory al =? id then Some (ha_size al)
               else usable_in id address (lh_mspaces_ h)
  | None => usable_in id address (lh_mspaces_ h)
  end.

Definition LibcHeap_allocation_count h : Z :=
  Z.of_nat (length (lh_allocations_ h)) + lh_mspace_allocation_count_ h.

(** ** Mspaces *)

Definition CreateMspace (id base_address size : Z) h m : LibcHeapService * LibcHeapResult :=
  if (base_address =? 0) || (size <=? kLibcMspaceMetadataBytes)
     || (base_address >? (u64_max - size)%u64)
     || negb (CanAccessLocked base_address size (Z.lor kRead kWrite) m)
  then (h, heap_error kInvalidArgument)
  else
    let end_address := (base_address + size)%u64 in
    match LibcHeap_AlignUp (base_address + kLibcMspaceMetadataBytes)%u64 kDefaultLibcHeapAlignment with
    | None => (h, heap_error kInvalidArgument)
    | Some first_address =>
        if first_address >=? end_address then (h, heap_error kInvalidArgument)
        else if (Z.of_nat (length (lh_mspaces_ h)) >=? kMaximumLibcMspaces)
                || bool_decide (is_Some (om_find base_address (lh_mspaces_ h)))
        then (h, heap_error kNoResources)
        else if existsb (fun e => (ms_memory e.2 =? id)
                  && (base_address <? (ms_base_address e.2 + ms_size e.2)%u64)
                  && (ms_base_address e.2 <? end_address)) (lh_mspaces_ h)
        then (h, heap_error kInvalidArgument)
        else
          let ms := mkMspace id base_address size 0 0
                      (om_emplace first_address (end_address - first_address)%u64 []) [] in
          (mkLibcHeap (lh_allocations_ h) (om_emplace base_address ms (lh_mspaces_ h))
             (lh_mspace_allocation_count_ h), (kOk, base_address, size))
    end.

(** The mspace behind a handle, for the caller's memory. *)
Definition find_mspace (id handle : Z) h : option Mspace :=
  match om_find handle (lh_mspaces_ h) with
  | Some ms => if ms_memory ms =? id then Some ms else None
  | None => None
  end.

Definition DestroyMspace (id handle : Z) h : LibcHeapService * KernelStatus :=
  match find_mspace id handle h with
  | None => (h, kNotFound)
  | Some ms =>
      match ms_allocations ms with
      | [] => (mkLibcHeap (lh_allocations_ h) (om_erase handle (lh_mspaces_ h))
                 (lh_mspace_allocation_count_ h), kOk)
      | _ => (h, kBusy)
      end
  end.

Definition with_ms ms current maximum free allocations :=
  mkMspace (ms_memory ms) (ms_base_address ms) (ms_size ms) current maximum free allocations.

Definition Mspace_AddFreeRange (address size : Z) (free : list (Z * Z)) : list (Z * Z) :=
  if size =? 0 then free
  else
    let '(before_, next) := lower_split address free in
    let '(address1, size1, free1) :=
      match last before_ with
      | Some previous =>
          if (previous.1 + previous.2)%u64 =? address
          then (previous.1, (size + previous.2)%u64, om_erase previous.1 free)
          else (address, size, free)
      | None => (address, size, free)
      end in
    let '(size2, free2) :=
      match next with
      | n :: _ => if (address1 + size1)%u64 =? n.1
                  then ((size1 + n.2)%u64, om_erase n.1 free1) else (size1, free1)
      | [] => (size1, free1)
      end in
    om_set address1 size2 free2.

(** The pair is the mspace and [mspace_allocation_count_]. *)
Definition ReleaseMspaceLocked (address : Z) (st : Mspace * Z) : Mspace * Z * KernelStatus :=
  let '(ms, count) := st in
  if address =? 0 then (ms, count, kOk)
  else match om_find address (ms_allocations ms) with
  | None => (ms, count, kNotFound)
  | Some found =>
      (with_ms ms (ms_current_in_use ms - ha_size found)%u64 (ms_maximum_in_use ms)
         (Mspace_AddFreeRange address (ha_size found) (ms_free_ranges ms))
         (om_erase address (ms_allocations ms)), (count - 1)%u64, kOk)
  end.

(** The first range, in address order, that fits, and the aligned address. *)
Fixpoint mspace_search (size alignment : Z) (ranges : list (Z * Z)) : option (Z * Z * Z) :=
  match ranges with
  | [] => None
  | (start, range_size) :: rest =>
      match LibcHeap_AlignUp start alignment with
      | None => mspace_search size alignment rest
      | Some address =>
          if address <? start then mspace_search size alignment rest
          else
            let prefix := (address - start)%u64 in
            if (prefix >? range_size) || (size >? (range_size - prefix)%u64)
            then mspace_search size alignment rest
            else Some (start, range_size, address)
      end
  end.

(** The edit of the free list that takes [size] bytes at [address]. *)
Definition mspace_take (start range_size address size : Z) (free : list (Z * Z)) : list (Z * Z) :=
  let prefix := (address - start)%u64 in
  let suffix_address := (address + size)%u64 in
  let suffix_size := ((range_size - prefix)%u64 - size)%u64 in
  if negb (prefix =? 0) && negb (suffix_size =? 0) then
    om_update start (fun _ => prefix) (om_emplace suffix_address suffix_size free)
  else if negb (prefix =? 0) then om_update start (fun _ => prefix) free
  else if negb (suffix_size =? 0) then om_emplace suffix_address suffix_size (om_erase start free)
  else om_erase start free.

Definition AllocateMspaceLocked (requested_size alignment : Z) (zero_fill : bool) (st : Mspace * Z) m
    : Mspace * Z * GuestMemory * LibcHeapResult :=
  let '(ms, count) := st in
  if negb (is_power_of_two alignment) then (ms, count, m, heap_error kInvalidArgument)
  else
    let alignment' := Z.max alignment kDefaultLibcHeapAlignment in
    let size := if requested_size =? 0 then 1 else requested_size in
    if count >=? kMaximumLibcHeapAllocations then (ms, count, m, heap_error kNoResources)
    else match mspace_search size alignment' (ms_free_ranges ms) with
    | None => (ms, count, m, heap_error kNoResources)
    | Some (start, range_size, address) =>
        match om_find address (ms_allocations ms) with
        | Some _ => (ms, count, m, heap_error kNoResources)
        | None =>
            let current := (ms_current_in_use ms + size)%u64 in
            let ms1 := with_ms ms current (Z.max (ms_maximum_in_use ms) current)
              (mspace_take start range_size address size (ms_free_ranges ms))
              (om_emplace address (mkHeapAllocation (ms_memory ms) size alignment')
                 (ms_allocations ms)) in
            let count1 := (count + 1)%u64 in
            let '(m1, filled) := if zero_fill then Fill address size 0 m else (m, true) in
            if negb filled then
              let '(ms2, count2, _) := ReleaseMspaceLocked address (ms1, count1) in
              (ms2, count2, m1, heap_error kInvalidArgument)
            else (ms1, count1, m1, (kOk, address, size))
        end
    end.

(** Store the mspace back behind its handle. *)
Definition store_mspace (handle : Z) ms (count : Z) h : LibcHeapService :=
  mkLibcHeap (lh_allocations_ h) (om_update handle (fun _ => ms) (lh_mspaces_ h)) count.

Definition AllocateMspace (id handle requested_size alignment : Z) (zero_fill : bool) h m
    : LibcHeapService * GuestMemory * LibcHeapResult :=
  match find_mspace id handle h with
  | None => (h, m, heap_error kNotFound)
  | Some ms =>
      let '(ms1, count, m1, result) := AllocateMspaceLocked requested_size alignment zero_fill
        (ms, lh_mspace_allocation_count_ h) m in
      (store_mspace handle ms1 count h, m1, result)
  end.

Definition ReleaseMspace (id handle address : Z) h : LibcHeapService * KernelStatus :=
  match find_mspace id handle h with
  | None => (h, kNotFound)
  | Some ms =>
      let '(ms1, count, status) :=
        ReleaseMspaceLocked address (ms, lh_mspace_allocation_count_ h) in
      (store_mspace handle ms1 count h, status)
  end.

(** Shrinking in place: the tail goes back to the free list. *)
Definition mspace_shrink (address requested_size alignment old_size : Z) ms : Mspace :=
  let released_size := (old_size - requested_size)%u64 in
  let allocations := om_update address
    (fun al => mkHeapAllocation (ha_memory al) requested_size alignment) (ms_allocations ms) in
  if negb (released_size =? 0)
  then with_ms ms (ms_current_in_use ms - released_size)%u64 (ms_maximum_in_use ms)
         (Mspace_AddFreeRange (address + requested_size)%u64 released_size (ms_free_ranges ms))
         allocations
  else with_ms ms (ms_current_in_use ms) (ms_maximum_in_use ms) (ms_free_ranges ms) allocations.

(** Growing in place over the free range that follows the block, if it is large
    enough. *)
Definition mspace_grow (address requested_size alignment old_size : Z) ms : option Mspace :=
  let growth := if requested_size >? old_size then (requested_size - old_size)%u64 else 0 in
  match om_find (address + old_size)%u64 (ms_free_ranges ms) with
  | Some next_size =>
      if negb (growth =? 0) && (next_size >=? growth) then
        let next := (address + old_size)%u64 in
        let remaining := (next_size - growth)%u64 in
        let free1 := om_erase next (ms_free_ranges ms) in
        let free2 := if negb (remaining =? 0)
                     then om_emplace (next + growth)%u64 remaining free1 else free1 in
        let current := (ms_current_in_use ms + growth)%u64 in
        Some (with_ms ms current (Z.max (ms_maximum_in_use ms) current) free2
          (om_update address
             (fun al => mkHeapAllocation (ha_memory al) requested_size alignment)
             (ms_allocations ms)))
      else None
  | None => None
  end.

(** Moving: allocate, copy, release the old block. *)
Definition mspace_move (address requested_size alignment old_size : Z) (st : Mspace * Z) m
    : Mspace * Z * GuestMemory * LibcHeapResult :=
  let '(ms1, count1, m1, resized) := AllocateMspaceLocked requested_size alignment false st m in
  let '(status, new_address, new_size) := resized in
  if negb (status_eqb status kOk) then (ms1, count1, m1, resized)
  else
    let '(m2, copied) := heap_copy address new_address (Z.min old_size new_size) m1 in
    if negb copied then
      let '(ms2, count2, _) := ReleaseMspaceLocked new_address (ms1, count1) in
      (ms2, count2, m2, heap_error kInvalidArgument)
    else
      let '(ms2, count2, _) := ReleaseMspaceLocked address (ms1, count1) in
      (ms2, count2, m2, resized).

Definition ReallocateMspaceLocked (address requested_size alignment : Z) (st : Mspace * Z) m
    : Mspace * Z * GuestMemory * LibcHeapResult :=
  let '(ms, count) := st in
  if address =? 0 then AllocateMspaceLocked requested_size alignment false st m
  else if requested_size =? 0 then
    let '(ms1, count1, released) := ReleaseMspaceLocked address st in
    (ms1, count1, m, heap_error released)
  else if negb (is_power_of_two alignment) then (ms, count, m, heap_error kInvalidArgument)
  else
    let alignment' := Z.max alignment kDefaultLibcHeapAlignment in
    match om_find address (ms_allocations ms) with
    | None => (ms, count, m, heap_error kNotFound)
    | Some found =>
        let old_size := ha_size found in
        let aligned := address mod alignment' =? 0 in
        if aligned && (requested_size <=? old_size) then
          (mspace_shrink address requested_size alignment' old_size ms, count, m,
           (kOk, address, requested_size))
        else
          match (if aligned && (address <=? (u64_max - old_size)%u64)
                 then mspace_grow address requested_size alignment' old_size ms else None) with
          | Some ms1 => (ms1, count, m, (kOk, address, requested_size))
          | None => mspace_move address requested_size alignment' old_size st m
          end
    end.

Definition ReallocateMspace (id handle address requested_size alignment : Z) h m
    : LibcHeapService * GuestMemory * LibcHeapResult :=
  match find_mspace id handle h with
  | None => (h, m, heap_error kNotFound)
  | Some ms =>
      let '(ms1, count, m1, result) := ReallocateMspaceLocked address requested_size alignment
        (ms, lh_mspace_allocation_count_ h) m in
      (store_mspace handle ms1 count h, m1, result)
  end.

(** [LibcMspaceStats{capacity, current_in_use, maximum_in_use}]. *)
Definition MspaceStats (id handle : Z) h : option (Z * Z * Z) :=
  (fun ms => (ms_size ms, ms_current_in_use ms, ms_maximum_in_use ms)) <$> find_mspace id handle h.

Definition MspaceIsEmpty (id handle : Z) h : option bool :=
  (fun ms => match ms_allocations ms with [] => true | _ => false end) <$> find_mspace id handle h.

Definition mspace_count h : Z := Z.of_nat (length (lh_mspaces_ h)).
