(* ===== verification/LibcHeapProps.v ===== *)
(** The mspace allocator of [kernel::LibcHeapService]: the free list and the
    blocks of every mspace partition its arena, allocation is first fit, and the
    statistics are the true ones; then [malloc]: its blocks over every run, and
    reallocation. *)
From S2P Require Import Prelude Ranges OrderedMap SharedBacking FreeList GuestMemory GuestMemoryMap.
From S2P Require Import GuestMemoryOps GuestMemoryData GuestMemoryWrite GuestMemoryCopy.
From S2P Require Import GuestMemoryInit GuestMemoryRuns GuestBlocks LibcHeap.

Implicit Types (h : LibcHeapService) (ms : Mspace) (m : GuestMemory).

(** ** Sums over ordered maps *)

Section sums.
Context {V : Type} (w : V -> Z).
Implicit Types (l : list (Z * V)).

Definition om_sum l : Z := foldr (fun e acc => w e.2 + acc) 0 l.

Lemma om_sum_app l1 l2 : om_sum (l1 ++ l2) = om_sum l1 + om_sum l2.
Proof. unfold om_sum. induction l1 as [|e l1 IH]; simpl; lia. Qed.

Lemma om_sum_emplace k v l : om_find k l = None -> om_sum (om_emplace k v l) = om_sum l + w v.
Proof.
  intros Hn. unfold om_emplace. rewrite Hn. pose proof (om_split_eq k l) as Happ.
  destruct (split_while _ l) as [b e]. simpl in Happ. subst l. rewrite !om_sum_app. simpl. lia.
Qed.

Lemma om_erase_absent k l : om_find k l = None -> om_erase k l = l.
Proof.
  rewrite om_find_None. intros Hn. unfold om_erase. induction l as [|e l IH]; [done|].
  rewrite filter_cons, decide_True by (apply Hn, list_elem_of_here). f_equal. apply IH.
  intros e' He'. apply Hn, elem_of_cons. by right.
Qed.

Lemma om_update_absent k f l : om_find k l = None -> om_update k f l = l.
Proof.
  rewrite om_find_None. intros Hn. unfold om_update. rewrite <- (list_fmap_id l) at 2.
  apply list_fmap_ext. intros i e He%list_elem_of_lookup_2. specialize (Hn e He).
  by replace (e.1 =? k) with false by lia.
Qed.

(** The rest of a sorted map does not contain the key of its head. *)
Lemma om_sorted_head e l : om_sorted (e :: l) -> om_find e.1 l = None.
Proof.
  intros [_ Hlt]%om_sorted_cons. apply om_find_None. intros e' He'. specialize (Hlt _ He'). lia.
Qed.

Lemma om_sum_erase k v l : om_sorted l -> om_find k l = Some v -> om_sum (om_erase k l) = om_sum l - w v.
Proof.
  induction l as [|e l IH]; [done|]. intros Hs. rewrite om_find_cons. unfold om_erase. rewrite filter_cons.
  destruct (decide (e.1 = k)) as [Heq|Hne].
  - intros [= <-]. rewrite decide_False by naive_solver. subst k.
    change (filter _ l) with (om_erase e.1 l). rewrite om_erase_absent by (by apply om_sorted_head).
    simpl. lia.
  - intros Hf. rewrite decide_True by done. simpl. unfold om_erase in IH. rewrite IH; [lia| |done].
    by apply om_sorted_cons in Hs as [? _].
Qed.

Lemma om_sum_update k f v l :
  om_sorted l -> om_find k l = Some v -> om_sum (om_update k f l) = om_sum l - w v + w (f v).
Proof.
  induction l as [|e l IH]; [done|]. intros Hs. rewrite om_find_cons. unfold om_update. rewrite fmap_cons.
  change ((fun e0 => if e0.1 =? k then (e0.1, f e0.2) else e0) <$> l) with (om_update k f l).
  case_decide as Hk.
  - intros [= <-]. subst k. rewrite om_update_absent by (by apply om_sorted_head).
    rewrite Z.eqb_refl. simpl. lia.
  - intros Hf. replace (e.1 =? k) with false by lia. simpl. rewrite IH; [lia| |done].
    by apply om_sorted_cons in Hs as [? _].
Qed.

Lemma om_sum_nonneg l : (forall e, e ∈ l -> 0 <= w e.2) -> 0 <= om_sum l.
Proof.
  induction l as [|e l IH]; simpl; intros Hp; [done|].
  pose proof (Hp e (list_elem_of_here _ _)).
  assert (0 <= om_sum l) by (apply IH; intros; apply Hp, elem_of_cons; by right).
  unfold om_sum in *. lia.
Qed.
End sums.

Lemma om_update_elem {V} k (v : V) l e :
  e ∈ om_update k (fun _ => v) l <->
  (e ∈ l /\ e.1 <> k) \/ (e = (k, v) /\ exists v0, (k, v0) ∈ l).
Proof.
  unfold om_update. rewrite list_elem_of_fmap. split.
  - intros ([k0 v0] & -> & Hin). simpl. destruct (k0 =? k) eqn:E.
    + assert (k0 = k) as -> by lia. right. eauto.
    + left. split; [done|simpl; lia].
  - intros [[Hin Hne]|[-> (v0 & Hin)]].
    + exists e. split; [by replace (e.1 =? k) with false by lia|done].
    + exists (k, v0). simpl. by rewrite Z.eqb_refl.
Qed.

(** The total size of disjoint ranges fits into their bounds. *)
Lemma fl_sum_bound {V} `{Sized V} lo hi (l : list (Z * V)) :
  lo <= hi -> ranges_ok lo hi l -> 0 <= om_sum size_of l <= hi - lo.
Proof.
  revert lo. induction l as [|e l IH]; intros lo Hle Hok; [simpl; lia|].
  apply ranges_ok_cons in Hok as ((V1 & V2 & V3) & Hok & Hb).
  destruct (IH (iend e)) as [I1 I2]; [lia| |].
  - destruct Hok as [Hs Hv]. split; [done|]. rewrite Forall_forall in *. intros x Hx.
    destruct (Hv x Hx) as (X1 & X2 & X3). specialize (Hb x Hx). unfold before in Hb. by split_and!.
  - unfold iend in *. simpl in *. change (om_sum size_of (e :: l)) with (size_of e.2 + om_sum size_of l).
    lia.
Qed.

(** ** The free list *)

Section freelist.
Context (lo hi : Z) (Hlo : 0 <= lo) (Hhi : hi <= u64_max).
Context (l : list (Z * Z)) (Hok : fl_ok 1 lo hi l).

Lemma mspace_take_spec start range_size address size :
  (start, range_size) ∈ l -> start <= address -> 0 < size -> address + size <= start + range_size ->
  fl_ok 1 lo hi (mspace_take start range_size address size l) /\
  forall a, covered (mspace_take start range_size address size l) a <->
            covered l a /\ ~ address <= a < address + size.
Proof.
  intros Hin Hs Hsz He. set (r := (start, range_size)) in *.
  pose proof (fl_valid _ _ _ _ Hok r Hin) as (V1 & V2 & V3). unfold iend, size_of, Z_sized in V3. simpl in V1, V2, V3.
  unfold size_of, Z_sized in V2, V3.
  destruct (carve_window 1 lo hi l r (fun n => n) address size) as (C1 & C2 & C3); try done; try lia.
  set (l3 := if _ <? _ then _ else _) in *.
  assert (Hfresh : forall x, start < x <= start + range_size -> om_find x l = None).
  { intros x Hx. apply om_find_None. intros e Hel Heq.
    destruct (fl_apart _ _ _ _ e r Hok Hel Hin) as [Hap|Hap];
      pose proof (fl_valid _ _ _ _ Hok e Hel) as (Q1 & Q2 & Q3);
      unfold iend, r in *; simpl in *; unfold size_of, Z_sized in *; lia. }
  assert (Hel : forall e, e ∈ mspace_take start range_size address size l <-> e ∈ l3).
  { intros e. rewrite C3, leftovers_elem. unfold mspace_take.
    rewrite !(sub64_small address start) by lia. rewrite (add64_small address) by lia.
    rewrite !(sub64_small range_size) by lia. rewrite sub64_small by lia.
    unfold r, iend. simpl. unfold size_of, Z_sized.
    replace (range_size - (address - start) - size) with (start + range_size - address - size) by lia.
    destruct (address - start =? 0) eqn:E1, (start + range_size - address - size =? 0) eqn:E2;
      cbn [negb andb]; rewrite ?om_update_elem;
      rewrite ?om_emplace_elem by (rewrite ?om_find_erase; try case_decide; try done; apply Hfresh; lia);
      rewrite ?om_erase_elem; (split; [intros He'|intros He']).
    all: repeat match goal with
      | H : _ \/ _ |- _ => destruct H
      | H : _ /\ _ |- _ => destruct H
      | H : exists _, _ |- _ => destruct H
      end; subst; simpl in *; try lia; try tauto.
    all: try (left; split; [done|lia]).
    all: try (right; left; split; [lia|f_equal; lia]).
    all: try (right; right; split; [lia|f_equal; lia]).
    all: try (right; split; [f_equal; lia|exists range_size; by try right]).
    all: try (left; f_equal; lia).
    all: try (left; split; [by left|simpl; lia]).
    right. split; [done|]. exists range_size. apply om_emplace_elem; [apply Hfresh; lia|by right]. }
  assert (Hsorted : om_sorted (mspace_take start range_size address size l)).
  { unfold mspace_take. repeat split_match;
      repeat first [apply om_update_sorted|apply om_emplace_sorted|apply om_erase_sorted]; apply Hok. }
  split.
  - eapply fl_sub; [exact C1|done|]. intros e. by rewrite Hel.
  - intros a. rewrite <- C2. unfold covered. by setoid_rewrite Hel.
Qed.

(** Returning a window that no free range touches: it is merged with the range
    that ends where it starts and the one that starts where it ends. *)
Section give_back.
Context (address size : Z) (Ha : lo <= address) (Hsz : 0 < size) (He : address + size <= hi).
Context (Hclear : forall e, e ∈ l -> iend e <= address \/ address + size <= istart e).

(** The state of [AddFreeRange] after each of its two merges: the window is now
    [x, x + n), the list [f], and [abs] has been absorbed. *)
Record merging (x n : Z) (f abs : list (Z * Z)) : Prop := {
  mg_sorted : om_sorted f;
  mg_bounds : lo <= x /\ 0 < n /\ x + n <= hi;
  mg_window : forall a, x <= a < x + n <-> address <= a < address + size \/ covered abs a;
  mg_elems : forall e, e ∈ l <-> e ∈ f \/ e ∈ abs;
  mg_left : forall e, e ∈ f -> iend e + 1 <= x \/ address + size <= istart e
}.

Lemma erase_absorbed e0 e : e0 ∈ l -> e ∈ l <-> e ∈ om_erase (istart e0) l \/ e ∈ [e0].
Proof.
  intros H0. rewrite (fl_erase_elem 1 lo hi l e0 e Hok H0), list_elem_of_singleton. split.
  - intros H1. destruct (decide (istart e = istart e0)) as [Heq|]; [right|by left].
    by eapply fl_unique.
  - intros [[? _]| ->]; done.
Qed.

Lemma merge_left :
  let '(b, n) := lower_split address l in
  let '(x, s, f) := match last b with
    | Some previous =>
        if (previous.1 + previous.2)%u64 =? address
        then (previous.1, (size + previous.2)%u64, om_erase previous.1 l) else (address, size, l)
    | None => (address, size, l)
    end in
  exists abs, merging x s f abs /\ x + s = address + size /\ (forall e, e ∈ n -> e ∈ f).
Proof.
  pose proof (fl_split 1 lo hi l address ltac:(lia) Hok) as Hsp.
  destruct (lower_split address l) as [b n] eqn:Els. destruct Hsp as (Happ & Hb & Hn).
  pose proof (fl_ranges_ok 1 lo hi l ltac:(lia) Hok) as Hro.
  assert (Hrb : ranges_ok lo hi b) by (rewrite Happ in Hro; by apply ranges_ok_app in Hro as (? & _ & _)).
  assert (Hnone : (forall e, e ∈ b -> iend e <> address) ->
    exists abs, merging address size l abs /\ address + size = address + size /\
      (forall e, e ∈ n -> e ∈ l)).
  { intros Hno. exists []. split_and!; [split|done|].
    - apply Hok.
    - lia.
    - intros a. split; [by left|]. intros [?|(e & ?%elem_of_nil & _)]; done.
    - intros e. split; [by left|]. intros [?|?%elem_of_nil]; done.
    - intros e Hel. destruct (Hclear e Hel) as [Hle|]; [left|by right].
      pose proof (ro_valid_elem _ _ _ _ Hro Hel) as (V1 & V2 & V3).
      rewrite Happ in Hel. apply elem_of_app in Hel as [Hel|Hel]; [specialize (Hno e Hel); lia|].
      specialize (Hn e Hel). unfold iend in *. lia.
    - intros e Hel. rewrite Happ. apply elem_of_app. by right. }
  destruct (last b) as [p|] eqn:El.
  - pose proof (last_Some_elem_of _ _ El) as Hpb.
    assert (Hp : p ∈ l) by (rewrite Happ; apply elem_of_app; by left).
    pose proof (ro_valid_elem _ _ _ _ Hro Hp) as (V1 & V2 & V3).
    assert (Hie : iend p = p.1 + p.2) by done. simpl in V1, V2.
    unfold size_of, Z_sized in V2. rewrite add64_small by lia. destruct (p.1 + p.2 =? address) eqn:E.
    + rewrite add64_small by lia.
      exists [p]. split_and!; [split| |].
      * apply om_erase_sorted, Hok.
      * lia.
      * intros a. unfold covered. split.
        -- intros Hx. destruct (decide (address <= a < address + size)); [by left|right].
           exists p. split; [apply list_elem_of_here|]. unfold inside. simpl. lia.
        -- intros [Hx|(e & ->%list_elem_of_singleton & Hin)]; [lia|].
           unfold inside in Hin. simpl in Hin. lia.
      * intros e. by apply (erase_absorbed p).
      * intros e [Hne Hel]%om_erase_elem. destruct (Hclear e Hel) as [Hle|]; [left|by right].
        destruct (fl_apart _ _ _ _ e p Hok Hel Hp Hne) as [Hap|Hap]; [exact Hap|].
        apply (ro_valid_elem _ _ _ _ Hro) in Hel as (Q1 & Q2 & Q3). unfold iend in *. simpl in *. lia.
      * lia.
      * intros e Hel. apply om_erase_elem. specialize (Hn e Hel). specialize (Hb p Hpb). simpl in Hn, Hb.
        split; [lia|]. rewrite Happ. apply elem_of_app. by right.
    + apply Hnone. intros e Hel Heq. pose proof (last_nearest _ _ _ _ _ Hrb El Hel).
      destruct (Hclear p Hp) as [|Hcl]; [lia|]. specialize (Hb p Hpb). lia.
  - apply Hnone. apply last_None in El. subst b. by intros e ?%elem_of_nil.
Qed.

(** Storing the merged window. *)
Lemma merging_store x n f abs :
  merging x n f abs -> (forall e, e ∈ f -> iend e + 1 <= x \/ x + n + 1 <= istart e) ->
  fl_ok 1 lo hi (om_set x n f) /\
  forall a, covered (om_set x n f) a <-> covered l a \/ address <= a < address + size.
Proof.
  intros [M1 (M2 & M3 & M4) M5 M6 M7] Hsep.
  assert (Hfresh : om_find x f = None).
  { apply om_find_None. intros e Hel Heq.
    assert (Hell : e ∈ l) by (apply M6; by left).
    pose proof (fl_valid _ _ _ _ Hok e Hell) as (Q1 & Q2 & Q3).
    destruct (Hsep e Hel); unfold iend in *; simpl in *; lia. }
  unfold om_set. rewrite Hfresh.
  destruct (fl_merge 1 lo hi l f abs (x, n) (address, size)) as [F1 F2];
    [lia|done|done|done| |done|done|by split].
  unfold valid_in, iend. simpl. unfold size_of, Z_sized. lia.
Qed.

Lemma Mspace_AddFreeRange_spec :
  fl_ok 1 lo hi (Mspace_AddFreeRange address size l) /\
  forall a, covered (Mspace_AddFreeRange address size l) a <->
            covered l a \/ address <= a < address + size.
Proof.
  unfold Mspace_AddFreeRange. replace (size =? 0) with false by lia.
  pose proof merge_left as Hleft.
  pose proof (fl_split 1 lo hi l address ltac:(lia) Hok) as Hsp.
  destruct (lower_split address l) as [b n] eqn:Els. destruct Hsp as (Happ & Hb & Hn).
  pose proof (fl_ranges_ok 1 lo hi l ltac:(lia) Hok) as Hro.
  assert (Hrn : ranges_ok lo hi n) by (rewrite Happ in Hro; by apply ranges_ok_app in Hro as (_ & ? & _)).
  destruct (match last b with Some _ => _ | None => _ end) as [[x s] f].
  destruct Hleft as (abs & Hmg & Hxs & Hnf). pose proof Hmg as [M1 (M2 & M3 & M4) M5 M6 M7].
  assert (Hnext : forall e, e ∈ l -> istart e = address + size -> e ∈ n).
  { intros e Hel Heq. rewrite Happ in Hel. apply elem_of_app in Hel as [Hel|]; [|done].
    specialize (Hb e Hel). lia. }
  assert (Hkeep : (forall e, e ∈ n -> istart e <> address + size) ->
    forall e, e ∈ f -> iend e + 1 <= x \/ x + s + 1 <= istart e).
  { intros Hno e Hel. destruct (M7 e Hel) as [|Hr]; [by left|right].
    assert (Hell : e ∈ l) by (apply M6; by left).
    destruct (decide (istart e = address + size)) as [Heq|]; [|lia].
    by destruct (Hno e (Hnext e Hell Heq)). }
  destruct n as [|n0 n].
  { apply (merging_store x s f abs Hmg). apply Hkeep. by intros e ?%elem_of_nil. }
  assert (Hn0 : n0 ∈ l) by (rewrite Happ; apply elem_of_app; right; apply list_elem_of_here).
  pose proof (ro_valid_elem _ _ _ _ Hro Hn0) as (V1 & V2 & V3).
  pose proof (Hn n0 (list_elem_of_here _ _)) as Hge. unfold iend in V3. simpl in V1, V2, V3, Hge.
  unfold size_of, Z_sized in V2, V3.
  rewrite (add64_small x s) by lia. destruct (x + s =? n0.1) eqn:E.
  - rewrite add64_small by lia. apply (merging_store x (s + n0.2) (om_erase n0.1 f) (abs ++ [n0])).
    + split; [by apply om_erase_sorted|lia| | |].
      * intros a. split.
        -- intros Hx. destruct (decide (x <= a < x + s)) as [Hin|].
           ++ destruct (proj1 (M5 a) Hin) as [?|(e & He1 & He2)]; [by left|right].
              exists e. split; [apply elem_of_app; by left|done].
           ++ right. exists n0. split; [apply elem_of_app; right; apply list_elem_of_here|].
              unfold inside, iend. simpl. unfold size_of, Z_sized. lia.
        -- intros [Hx|(e & [He1| ->%list_elem_of_singleton]%elem_of_app & He2)].
           ++ assert (x <= a < x + s) by (apply M5; by left). lia.
           ++ assert (x <= a < x + s) by (apply M5; right; by exists e). lia.
           ++ unfold inside, iend in He2. simpl in He2. unfold size_of, Z_sized in He2. lia.
      * intros e. rewrite elem_of_app, list_elem_of_singleton, om_erase_elem, M6. split.
        -- intros [Hf|]; [|by right; left]. destruct (decide (e.1 = n0.1)) as [Heq|]; [|by left].
           right. right. eapply (fl_unique _ _ _ _ _ _ Hok); [apply M6; by left|done|done].
        -- intros [[_ ?]|[?| ->]]; [by left|by right|left]. apply Hnf, list_elem_of_here.
      * intros e [_ Hf]%om_erase_elem. by apply M7.
    + intros e [Hne Hf]%om_erase_elem. destruct (M7 e Hf) as [|Hr]; [by left|right].
      assert (Hell : e ∈ l) by (apply M6; by left).
      pose proof (ro_valid_elem _ _ _ _ Hro Hell) as (Q1 & Q2 & Q3).
      destruct (fl_apart _ _ _ _ e n0 Hok Hell Hn0 Hne) as [Hap|Hap];
        unfold iend in *; simpl in *; unfold size_of, Z_sized in *; lia.
  - apply (merging_store x s f abs Hmg). apply Hkeep. intros e Hen Heq.
    pose proof (head_nearest _ _ _ _ _ Hrn Hen) as Hhd. simpl in Hhd, Heq.
    destruct (Hclear n0 Hn0) as [Hc|Hc]; unfold iend in *; simpl in *; unfold size_of, Z_sized in *; lia.
Qed.
End give_back.
End freelist.

(** ** The search *)

Lemma LibcHeap_AlignUp_eq v k : 0 <= k < 64 -> LibcHeap_AlignUp v (2 ^ k) = align_up (2 ^ k) v.
Proof. intros Hk. unfold LibcHeap_AlignUp. by rewrite is_power_of_two_pow. Qed.

Lemma mspace_search_spec lo hi ranges size k :
  0 <= lo -> hi <= u64_max -> fl_ok 1 lo hi ranges -> 0 < size -> 0 <= k < 64 ->
  let fits e c := c mod 2 ^ k = 0 /\ istart e <= c /\ c + size <= iend e in
  match mspace_search size (2 ^ k) ranges with
  | Some (start, range_size, address) =>
      (start, range_size) ∈ ranges /\ fits (start, range_size) address /\
      forall e c, e ∈ ranges -> fits e c -> address <= c
  | None => forall e c, e ∈ ranges -> ~ fits e c
  end.
Proof.
  intros Hlo Hhi Hok Hsz Hk fits. pose proof (fl_ranges_ok 1 lo hi ranges ltac:(lia) Hok) as Hro.
  clear Hok. induction ranges as [|[start rs] rest IH]; [by intros e c ?%elem_of_nil|].
  apply ranges_ok_cons in Hro as ((V1 & V2 & V3) & Hro & Hb). specialize (IH Hro).
  unfold iend in V3. simpl in V1, V2, V3. unfold size_of, Z_sized in V2, V3.
  cbn [mspace_search]. rewrite LibcHeap_AlignUp_eq by done.
  pose proof (align_up_spec k start Hk ltac:(unfold is_u64; lia)) as Ha.
  (* nothing fits into the first range: go on *)
  assert (Hskip : (forall c, ~ fits (start, rs) c) ->
    match mspace_search size (2 ^ k) rest with
    | Some (s', r', a') => (s', r') ∈ (start, rs) :: rest /\ fits (s', r') a' /\
        forall e c, e ∈ (start, rs) :: rest -> fits e c -> a' <= c
    | None => forall e c, e ∈ (start, rs) :: rest -> ~ fits e c
    end).
  { intros Hno. destruct (mspace_search size (2 ^ k) rest) as [[[s' r'] a']|].
    - destruct IH as (I1 & I2 & I3). split_and!; [apply elem_of_cons; by right|done|].
      intros e c [->|He]%elem_of_cons Hf; [by destruct (Hno c)|by eapply I3].
    - intros e c [->|He]%elem_of_cons Hf; [by destruct (Hno c)|by eapply IH]. }
  destruct (align_up (2 ^ k) start) as [address|].
  - destruct Ha as (A1 & A2 & A3 & A4). replace (address <? start) with false by lia.
    unfold is_u64 in A2. rewrite !(sub64_small address start) by lia.
    destruct ((address - start >? rs) || _) eqn:E.
    + apply Hskip. intros c (Hmod & Hc1 & Hc2). simpl in Hc1. unfold iend in Hc2. simpl in Hc2.
      unfold size_of, Z_sized in Hc2. specialize (A4 c Hc1 Hmod).
      apply orb_true_iff in E as [E|E]; [lia|]. rewrite sub64_small in E by lia. lia.
    + apply orb_false_iff in E as [E1 E2]. rewrite sub64_small in E2 by lia.
      split_and!; [apply list_elem_of_here|split_and!|].
      * done.
      * simpl. lia.
      * unfold iend. simpl. unfold size_of, Z_sized. lia.
      * intros e c [->|He]%elem_of_cons (Hmod & Hc1 & Hc2); [by apply A4|].
        specialize (Hb e He). unfold before, iend in Hb. simpl in Hb, Hc1.
        unfold size_of, Z_sized in Hb. lia.
  - apply Hskip. intros c (Hmod & Hc1 & Hc2). specialize (Ha c Hc1 Hmod).
    unfold iend in Hc2. simpl in Hc2. unfold size_of, Z_sized in Hc2. lia.
Qed.

(** ** The invariant of an mspace *)

Definition ms_first ms : Z := align_up_mask (ms_base_address ms + kLibcMspaceMetadataBytes) 16.
Definition ms_end ms : Z := ms_base_address ms + ms_size ms.

Definition block_ok (e : Z * HeapAllocation) : Prop :=
  0 <= ha_alignment e.2 /\ e.1 mod ha_alignment e.2 = 0.

Record mspace_ok ms : Prop := {
  mo_bounds : 0 < ms_base_address ms /\ ms_base_address ms + kLibcMspaceMetadataBytes <= ms_first ms /\
              ms_first ms < ms_end ms <= u64_max;
  mo_free : fl_ok 1 (ms_first ms) (ms_end ms) (ms_free_ranges ms);
  mo_blocks : fl_ok 0 (ms_first ms) (ms_end ms) (ms_allocations ms);
  mo_partition : forall a, ms_first ms <= a < ms_end ms ->
    (covered (ms_allocations ms) a <-> ~ covered (ms_free_ranges ms) a);
  mo_aligned : forall e, e ∈ ms_allocations ms -> block_ok e;
  mo_use : ms_current_in_use ms = om_sum ha_size (ms_allocations ms);
  mo_maximum : ms_current_in_use ms <= ms_maximum_in_use ms <= u64_max
}.

Lemma ms_first_pos ms : mspace_ok ms -> 0 <= ms_first ms.
Proof.
  intros Hm. destruct (mo_bounds _ Hm) as (? & ? & ?). unfold kLibcMspaceMetadataBytes in *. lia.
Qed.

Lemma use_bound ms : mspace_ok ms -> 0 <= ms_current_in_use ms <= ms_end ms - ms_first ms.
Proof.
  intros Hm. destruct (mo_bounds _ Hm) as (? & ? & ?). rewrite (mo_use _ Hm).
  apply fl_sum_bound; [lia|]. eapply fl_ranges_ok; [|apply Hm]. lia.
Qed.

(** ** Operations on one mspace *)

Section mspace.
Context (ms : Mspace) (Hms : mspace_ok ms).

Lemma with_ms_ok current maximum free blocks :
  fl_ok 1 (ms_first ms) (ms_end ms) free -> fl_ok 0 (ms_first ms) (ms_end ms) blocks ->
  (forall a, ms_first ms <= a < ms_end ms -> (covered blocks a <-> ~ covered free a)) ->
  (forall e, e ∈ blocks -> block_ok e) ->
  current = om_sum ha_size blocks -> current <= maximum <= u64_max ->
  mspace_ok (with_ms ms current maximum free blocks).
Proof. destruct Hms. by split. Qed.

(** A window that is free meets no block, and the other way round. *)
Lemma free_clear_of_blocks x n e :
  0 < n -> ms_first ms <= x -> x + n <= ms_end ms ->
  (forall a, x <= a < x + n -> covered (ms_free_ranges ms) a) -> e ∈ ms_allocations ms ->
  iend e + 0 <= x \/ x + n + 0 <= istart e.
Proof.
  intros Hn Hx Hxn Hcov He. pose proof (fl_valid _ _ _ _ (mo_blocks _ Hms) e He) as (V1 & V2 & V3).
  destruct (decide (iend e <= x)); [left; lia|]. destruct (decide (x + n <= istart e)); [right; lia|exfalso].
  assert (Hb : covered (ms_allocations ms) (Z.max x (istart e))).
  { exists e. split; [done|]. unfold inside, iend in *. lia. }
  apply (mo_partition _ Hms) in Hb; [|unfold iend in *; lia]. apply Hb, Hcov. unfold iend in *. lia.
Qed.

Lemma blocks_clear_of_free x n e :
  0 < n -> ms_first ms <= x -> x + n <= ms_end ms ->
  (forall a, x <= a < x + n -> ~ covered (ms_free_ranges ms) a) -> e ∈ ms_free_ranges ms ->
  iend e <= x \/ x + n <= istart e.
Proof.
  intros Hn Hx Hxn Hcov He. pose proof (fl_valid _ _ _ _ (mo_free _ Hms) e He) as (V1 & V2 & V3).
  destruct (decide (iend e <= x)); [left; lia|]. destruct (decide (x + n <= istart e)); [right; lia|exfalso].
  apply (Hcov (Z.max x (istart e))); [unfold iend in *; lia|].
  exists e. split; [done|]. unfold inside, iend in *. lia.
Qed.

(** Replacing the block at an address by one of another size. *)
Lemma resize_block address old new_size al :
  om_find address (ms_allocations ms) = Some old -> 0 < new_size -> ms_first ms <= address ->
  address + new_size <= ms_end ms ->
  (forall e, e ∈ ms_allocations ms -> istart e <> address ->
     iend e <= address \/ address + new_size <= istart e) ->
  let v := mkHeapAllocation (ha_memory old) new_size al in
  let blocks := om_update address (fun b => mkHeapAllocation (ha_memory b) new_size al)
                  (ms_allocations ms) in
  fl_ok 0 (ms_first ms) (ms_end ms) blocks /\
  om_sum ha_size blocks = ms_current_in_use ms - ha_size old + new_size /\
  (forall e, e ∈ blocks <-> (e ∈ ms_allocations ms /\ istart e <> address) \/ e = (address, v)) /\
  (forall a, covered blocks a <->
     (covered (ms_allocations ms) a /\ ~ address <= a < address + ha_size old) \/
     address <= a < address + new_size).
Proof.
  intros Hf Hn Hlo Hhi Hclear v blocks. pose proof (mo_blocks _ Hms) as Hok.
  pose proof (om_find_elem _ _ _ Hf) as Hin.
  assert (Hel : forall e, e ∈ blocks <-> (e ∈ ms_allocations ms /\ istart e <> address) \/ e = (address, v)).
  { intros e. unfold blocks, om_update. rewrite list_elem_of_fmap. split.
    - intros ([k b] & -> & Hkb). simpl. destruct (k =? address) eqn:E.
      + assert (k = address) as -> by lia. right. unfold v. simpl.
        assert (b = old) as -> by (apply om_elem_find in Hkb; [congruence|apply Hok]). done.
      + left. split; [done|simpl; lia].
    - intros [[He Hne]| ->].
      + exists e. simpl in Hne. by replace (e.1 =? address) with false by lia.
      + exists (address, old). simpl. by rewrite Z.eqb_refl. }
  assert (Herase : fl_ok 0 (ms_first ms) (ms_end ms) (om_erase address (ms_allocations ms))).
  { eapply fl_sub; [exact Hok|apply om_erase_sorted, Hok|]. intros e [_ ?]%om_erase_elem. done. }
  destruct (fl_add 0 (ms_first ms) (ms_end ms) (om_erase address (ms_allocations ms)) ltac:(lia) Herase
    address v) as (A1 & A2 & A3).
  { unfold valid_in, iend, v. simpl. unfold size_of, heap_allocation_sized. simpl. lia. }
  { intros e [Hne He]%om_erase_elem. change (size_of v) with new_size.
    destruct (Hclear e He Hne); [left|right]; lia. }
  split_and!.
  - eapply fl_sub; [exact A1|apply om_update_sorted, Hok|]. intros e He%Hel.
    apply om_emplace_elem; [done|]. rewrite om_erase_elem. simpl in He. tauto.
  - unfold blocks. rewrite (om_sum_update _ _ _ old) by (done || apply Hok). rewrite (mo_use _ Hms). done.
  - done.
  - intros a. unfold covered. split.
    + intros (e & [[He Hne]| ->]%Hel & Ha).
      * left. split; [by exists e|]. intros Hold.
        assert (e = (address, old)) as ->; [|by simpl in Hne].
        apply (fl_same 0 _ _ _ e (address, old) a ltac:(lia) Hok He Hin Ha).
        unfold inside, iend. simpl. unfold size_of, heap_allocation_sized. lia.
      * right. unfold inside, iend in Ha. simpl in Ha. unfold size_of, heap_allocation_sized, v in Ha.
        simpl in Ha. lia.
    + intros [[(e & He & Ha) Hold]|Ha].
      * exists e. split; [|done]. apply Hel. left. split; [done|]. intros Heq.
        assert (e = (address, old)) as -> by (by apply (fl_unique _ _ _ _ _ _ Hok)).
        apply Hold. unfold inside, iend in Ha. simpl in Ha. unfold size_of, heap_allocation_sized in Ha. lia.
      * exists (address, v). split; [apply Hel; by right|].
        unfold inside, iend, v. simpl. unfold size_of, heap_allocation_sized. simpl. lia.
Qed.

Lemma take_block start range_size address size al :
  (start, range_size) ∈ ms_free_ranges ms -> start <= address -> 0 < size ->
  address + size <= start + range_size -> 0 <= al -> address mod al = 0 ->
  let current := (ms_current_in_use ms + size)%u64 in
  om_find address (ms_allocations ms) = None /\
  mspace_ok (with_ms ms current (Z.max (ms_maximum_in_use ms) current)
    (mspace_take start range_size address size (ms_free_ranges ms))
    (om_emplace address (mkHeapAllocation (ms_memory ms) size al) (ms_allocations ms))).
Proof.
  intros Hin Hs Hsz He Hal Hmod current. destruct (mo_bounds _ Hms) as (B1 & B2 & B3 & B4).
  pose proof (ms_first_pos _ Hms) as Hpos.
  pose proof (fl_valid _ _ _ _ (mo_free _ Hms) _ Hin) as (V1 & V2 & V3).
  unfold iend in V3. simpl in V1, V2, V3. unfold size_of, Z_sized in V2, V3.
  destruct (mspace_take_spec (ms_first ms) (ms_end ms) Hpos B4 _ (mo_free _ Hms)
    start range_size address size Hin Hs Hsz He) as [T1 T2].
  assert (Hcov : forall a, address <= a < address + size -> covered (ms_free_ranges ms) a).
  { intros a Ha. exists (start, range_size). split; [done|]. unfold inside, iend. simpl.
    unfold size_of, Z_sized. lia. }
  set (v := mkHeapAllocation (ms_memory ms) size al).
  destruct (fl_add 0 (ms_first ms) (ms_end ms) _ ltac:(lia) (mo_blocks _ Hms) address v) as (A1 & A2 & A3).
  { unfold valid_in, iend, v. simpl. unfold size_of, heap_allocation_sized. simpl. lia. }
  { intros e Hel. change (size_of v) with size. apply (free_clear_of_blocks address size); try done; lia. }
  assert (Hsum : om_sum ha_size (om_emplace address v (ms_allocations ms)) = ms_current_in_use ms + size).
  { rewrite om_sum_emplace by done. by rewrite (mo_use _ Hms). }
  pose proof (fl_sum_bound (ms_first ms) (ms_end ms) _ ltac:(lia)
    (fl_ranges_ok 0 _ _ _ ltac:(lia) A1)) as Hbound.
  change (@size_of HeapAllocation heap_allocation_sized) with ha_size in Hbound. rewrite Hsum in Hbound.
  assert (Hcur : current = ms_current_in_use ms + size) by (apply add64_small; lia).
  split; [done|]. destruct (mo_maximum _ Hms). apply with_ms_ok; try done.
  - intros a Ha. rewrite A3, T2. pose proof (mo_partition _ Hms a Ha) as Hpart.
    assert (Hi : inside (address, v) a <-> address <= a < address + size)
      by (unfold inside, iend, v; simpl; unfold size_of, heap_allocation_sized; simpl; lia).
    rewrite Hi. specialize (Hcov a). destruct (decide (address <= a < address + size)); [tauto|].
    rewrite Hpart. tauto.
  - intros e [->|Hel]%om_emplace_elem; [split; simpl; [lia|done]|by apply (mo_aligned _ Hms)|done].
  - lia.
  - lia.
Qed.

Lemma release_block address count :
  let '(ms', count', status) := ReleaseMspaceLocked address (ms, count) in
  mspace_ok ms' /\ ms_memory ms' = ms_memory ms /\ ms_base_address ms' = ms_base_address ms /\
  ms_size ms' = ms_size ms /\
  match om_find address (ms_allocations ms) with
  | Some b => address <> 0 /\ status = kOk /\ count' = (count - 1)%u64 /\
      ms_allocations ms' = om_erase address (ms_allocations ms)
  | None => ms' = ms /\ count' = count /\ (status = kOk \/ status = kNotFound)
  end.
Proof.
  destruct (mo_bounds _ Hms) as (B1 & B2 & B3 & B4). pose proof (ms_first_pos _ Hms) as Hpos.
  unfold ReleaseMspaceLocked.
  assert (Hzero : om_find 0 (ms_allocations ms) = None).
  { apply om_find_None. intros e Hel Heq. apply (fl_valid _ _ _ _ (mo_blocks _ Hms)) in Hel as (V1 & _).
    unfold kLibcMspaceMetadataBytes in B2. simpl in V1. lia. }
  destruct (address =? 0) eqn:E0.
  { assert (address = 0) as -> by lia. rewrite Hzero. split_and!; try done. by left. }
  destruct (om_find address (ms_allocations ms)) as [b|] eqn:Ef; [|split_and!; try done; by right].
  pose proof (om_find_elem _ _ _ Ef) as Hin.
  pose proof (fl_valid _ _ _ _ (mo_blocks _ Hms) _ Hin) as (V1 & V2 & V3).
  unfold iend in V3. simpl in V1, V2, V3. unfold size_of, heap_allocation_sized in V2, V3.
  assert (Hnf : forall a, address <= a < address + ha_size b -> ~ covered (ms_free_ranges ms) a).
  { intros a Ha. apply (mo_partition _ Hms); [lia|]. exists (address, b). split; [done|].
    unfold inside, iend. simpl. unfold size_of, heap_allocation_sized. lia. }
  destruct (Mspace_AddFreeRange_spec (ms_first ms) (ms_end ms) Hpos B4 _ (mo_free _ Hms) address (ha_size b))
    as [F1 F2]; try done.
  { intros e Hel. by apply (blocks_clear_of_free address (ha_size b)). }
  destruct (fl_carve 0 _ _ _ ltac:(lia) (mo_blocks _ Hms) (address, b) []
    (om_erase address (ms_allocations ms)) Hin) as [C1 C2].
  { apply om_erase_sorted, (mo_blocks _ Hms). }
  { intros e. rewrite om_erase_elem, elem_of_nil. simpl. tauto. }
  { apply fl_nil. }
  pose proof (use_bound _ Hms) as Hub.
  assert (Hsum : om_sum ha_size (om_erase address (ms_allocations ms)) =
                 ms_current_in_use ms - ha_size b).
  { rewrite (om_sum_erase _ _ b) by (done || apply (mo_blocks _ Hms)). by rewrite (mo_use _ Hms). }
  pose proof (fl_sum_bound (ms_first ms) (ms_end ms) _ ltac:(lia)
    (fl_ranges_ok 0 _ _ _ ltac:(lia) C1)) as Hbound.
  change (@size_of HeapAllocation heap_allocation_sized) with ha_size in Hbound. rewrite Hsum in Hbound.
  rewrite (sub64_small (ms_current_in_use ms)) by lia. destruct (mo_maximum _ Hms).
  split_and!; try done; [|lia]. apply with_ms_ok; try done.
  - intros a Ha. rewrite C2, F2. pose proof (mo_partition _ Hms a Ha) as Hpart.
    assert (Hi : inside (address, b) a <-> address <= a < address + ha_size b)
      by (unfold inside, iend; simpl; unfold size_of, heap_allocation_sized; lia).
    assert (Hnil : ~ covered (@nil (Z * HeapAllocation)) a) by (by intros (e & ?%elem_of_nil & _)).
    rewrite Hi, Hpart. tauto.
  - intros e [_ Hel]%om_erase_elem. by apply (mo_aligned _ Hms).
  - lia.
Qed.
End mspace.

(** ** The state of an mspace call: the mspace and the service-wide counter *)

Definition block_count ms : Z := om_sum (fun _ => 1) (ms_allocations ms).

Record state_ok (st : Mspace * Z) : Prop := {
  so_mspace : mspace_ok st.1;
  so_count : block_count st.1 <= st.2 <= kMaximumLibcHeapAllocations
}.

(** A call keeps the state well-formed and counts its blocks. *)
Record mspace_next (st st' : Mspace * Z) : Prop := {
  mn_ok : state_ok st';
  mn_memory : ms_memory st'.1 = ms_memory st.1;
  mn_base : ms_base_address st'.1 = ms_base_address st.1;
  mn_size : ms_size st'.1 = ms_size st.1;
  mn_count : st'.2 - block_count st'.1 = st.2 - block_count st.1
}.

Lemma mspace_next_refl st : state_ok st -> mspace_next st st.
Proof. intros Hst. by split. Qed.

Lemma mspace_next_trans st1 st2 st3 : mspace_next st1 st2 -> mspace_next st2 st3 -> mspace_next st1 st3.
Proof. intros [] []. split; congruence. Qed.

Lemma block_count_nonneg ms : 0 <= block_count ms.
Proof. apply om_sum_nonneg. intros; lia. Qed.

Lemma kMaximumLibcHeapAllocations_small : kMaximumLibcHeapAllocations + 1 <= u64_max.
Proof. rewrite u64_max_eq. unfold kMaximumLibcHeapAllocations. lia. Qed.

Lemma ReleaseMspaceLocked_next address ms count :
  state_ok (ms, count) ->
  let '(ms', count', status) := ReleaseMspaceLocked address (ms, count) in
  mspace_next (ms, count) (ms', count').
Proof.
  intros [Hms Hc]. cbn [fst snd] in Hms, Hc. pose proof (release_block ms Hms address count) as Hr.
  pose proof kMaximumLibcHeapAllocations_small.
  destruct (ReleaseMspaceLocked address (ms, count)) as [[ms' count'] status].
  destruct Hr as (R1 & R2 & R3 & R4 & R5). destruct (om_find address (ms_allocations ms)) as [b|] eqn:Ef.
  - destruct R5 as (_ & _ & -> & Hal). pose proof (block_count_nonneg ms').
    assert (Hn : block_count ms' = block_count ms - 1).
    { unfold block_count. rewrite Hal. by rewrite (om_sum_erase _ _ b) by (done || apply (mo_blocks _ Hms)). }
    rewrite sub64_small by lia. split; simpl; try done; [split; simpl; [done|lia]|lia].
  - destruct R5 as (-> & -> & _). by apply mspace_next_refl.
Qed.

(** The window is inside the arena and free. *)
Definition space_feasible ms size al (c : Z) : Prop :=
  c mod al = 0 /\ forall a, c <= a < c + size -> covered (ms_free_ranges ms) a.

Lemma space_feasible_range ms size al c :
  mspace_ok ms -> 0 < size ->
  space_feasible ms size al c <->
  c mod al = 0 /\ exists e, e ∈ ms_free_ranges ms /\ istart e <= c /\ c + size <= iend e.
Proof.
  intros Hms Hsz. unfold space_feasible. split; intros [Hmod Hc]; (split; [done|]).
  - eapply (fl_window 1); [lia|apply (mo_free _ Hms)|done|done].
  - destruct Hc as (e & He & H1 & H2). intros a Ha. exists e. split; [done|]. unfold inside. lia.
Qed.

(** The alignment used: at least 16, a power of two. *)
Lemma heap_alignment alignment :
  is_u64 alignment -> is_power_of_two alignment = true ->
  exists k, 0 <= k < 64 /\ Z.max alignment kDefaultLibcHeapAlignment = 2 ^ k.
Proof.
  intros Hu Hp. destruct (is_power_of_two_spec _ Hu Hp) as (k & Hk & ->).
  assert (k < 64).
  { apply (Z.pow_lt_mono_r_iff 2); [lia|lia|].
    unfold is_u64 in Hu. rewrite u64_max_eq in Hu. change (2 ^ 64) with 18446744073709551616. lia. }
  change kDefaultLibcHeapAlignment with (2 ^ 4). exists (Z.max k 4). split; [lia|].
  destruct (Z.max_spec k 4) as [[? ->]|[? ->]]; [rewrite Z.max_r|rewrite Z.max_l];
    try done; apply Z.pow_le_mono_r; lia.
Qed.

Lemma AllocateMspaceLocked_spec requested_size alignment zero_fill ms count m :
  state_ok (ms, count) -> is_u64 alignment -> 0 <= requested_size ->
  let '(ms', count', m', (status, address, size)) :=
    AllocateMspaceLocked requested_size alignment zero_fill (ms, count) m in
  mspace_next (ms, count) (ms', count') /\
  let n := if requested_size =? 0 then 1 else requested_size in
  let al := Z.max alignment kDefaultLibcHeapAlignment in
  if status_eqb status kOk then
    size = n /\ is_power_of_two alignment = true /\
    space_feasible ms n al address /\ (forall c, space_feasible ms n al c -> address <= c) /\
    (forall e, e ∈ ms_allocations ms' <->
       e ∈ ms_allocations ms \/ e = (address, mkHeapAllocation (ms_memory ms) n al))
  else
    is_power_of_two alignment = true -> count < kMaximumLibcHeapAllocations ->
    (exists c, zero_fill = true /\ space_feasible ms n al c /\ (Fill c n 0 m).2 = false) \/
    forall c, ~ space_feasible ms n al c.
Proof.
  intros Hst Hal Hreq. pose proof Hst as [Hms Hc]. simpl in Hms, Hc. unfold AllocateMspaceLocked.
  destruct (is_power_of_two alignment) eqn:Epow; cbn [negb];
    [|split; [by apply mspace_next_refl|by simpl]].
  destruct (heap_alignment alignment Hal Epow) as (k & Hk & Hak). rewrite Hak.
  set (n := if requested_size =? 0 then 1 else requested_size).
  assert (Hn : 0 < n) by (unfold n; split_match; lia).
  destruct (count >=? kMaximumLibcHeapAllocations) eqn:Ecount;
    [split; [by apply mspace_next_refl|simpl; intros; lia]|].
  destruct (mo_bounds _ Hms) as (B1 & B2 & B3 & B4). pose proof (ms_first_pos _ Hms) as Hpos.
  pose proof (mspace_search_spec (ms_first ms) (ms_end ms) (ms_free_ranges ms) n k Hpos B4
    (mo_free _ Hms) Hn Hk) as Hsearch. cbn zeta in Hsearch.
  destruct (mspace_search n (2 ^ k) (ms_free_ranges ms)) as [[[start rs] address]|].
  2:{ split; [by apply mspace_next_refl|]. simpl. intros _ _. right.
      intros c (Hmod & e & He & H1 & H2)%space_feasible_range; [|done|done]. by apply (Hsearch e c He). }
  destruct Hsearch as (Hin & (Hmod & Hs1 & Hs2) & Hleast). simpl in Hs1. unfold iend in Hs2. simpl in Hs2.
  unfold size_of, Z_sized in Hs2.
  assert (Hfeas : space_feasible ms n (2 ^ k) address).
  { apply space_feasible_range; [done|done|]. split; [done|]. exists (start, rs).
    split_and!; [done|done|]. unfold iend. simpl. unfold size_of, Z_sized. lia. }
  pose proof (Z.pow_pos_nonneg 2 k ltac:(lia) ltac:(lia)).
  destruct (take_block ms Hms start rs address n (2 ^ k) Hin Hs1 Hn Hs2 ltac:(lia) Hmod) as [Hfresh Htake].
  rewrite Hfresh. cbn zeta in Htake.
  set (ms1 := with_ms ms _ _ _ _) in *. pose proof kMaximumLibcHeapAllocations_small.
  pose proof (block_count_nonneg ms).
  assert (Hcnt : block_count ms1 = block_count ms + 1)
    by (unfold block_count, ms1; simpl; by rewrite om_sum_emplace by done).
  rewrite (add64_small count) by lia.
  assert (Hnext : mspace_next (ms, count) (ms1, count + 1)).
  { split; simpl; try done; [split; simpl; [done|lia]|lia]. }
  destruct (if zero_fill then Fill address n 0 m else (m, true)) as [m1 filled] eqn:Efill.
  destruct filled; cbn [negb].
  - split; [done|]. simpl. split_and!; try done.
    + intros c (Hmodc & e & He & Hc1 & Hc2)%space_feasible_range; [|done|done]. by apply (Hleast e c He).
    + intros e. rewrite om_emplace_elem by done. tauto.
  - pose proof (ReleaseMspaceLocked_next address ms1 (count + 1) (mn_ok _ _ Hnext)) as Hrel.
    destruct (ReleaseMspaceLocked address (ms1, count + 1)) as [[ms2 count2] st2].
    split; [by eapply mspace_next_trans|]. simpl. intros _ _. left. exists address.
    destruct zero_fill; [|done]. split_and!; [done|done|]. by rewrite Efill.
Qed.

(** ** Reallocation *)

Section realloc.
Context (ms : Mspace) (Hms : mspace_ok ms).
Context (address al : Z) (old : HeapAllocation) (Hold : om_find address (ms_allocations ms) = Some old).
Context (Hal : 0 <= al) (Hmod : address mod al = 0).

Lemma block_bounds :
  ms_first ms <= address /\ 0 < ha_size old /\ address + ha_size old <= ms_end ms /\
  (forall a, address <= a < address + ha_size old -> covered (ms_allocations ms) a) /\
  (forall e, e ∈ ms_allocations ms -> istart e <> address ->
     iend e <= address \/ address + ha_size old <= istart e).
Proof.
  pose proof (om_find_elem _ _ _ Hold) as Hin.
  pose proof (fl_valid _ _ _ _ (mo_blocks _ Hms) _ Hin) as (V1 & V2 & V3).
  unfold iend in V3. simpl in V1, V2, V3. unfold size_of, heap_allocation_sized in V2, V3.
  split_and!; [done|done|done| |].
  - intros a Ha. exists (address, old). split; [done|]. unfold inside, iend. simpl.
    unfold size_of, heap_allocation_sized. lia.
  - intros e He Hne.
    destruct (fl_apart _ _ _ _ e (address, old) (mo_blocks _ Hms) He Hin Hne) as [Hap|Hap];
      [left; simpl in Hap; lia|right].
    change (iend (address, old)) with (address + ha_size old) in Hap. lia.
Qed.

Lemma resized_aligned n e :
  e ∈ ms_allocations ms /\ istart e <> address \/ e = (address, mkHeapAllocation (ha_memory old) n al) ->
  block_ok e.
Proof. intros [[He _]| ->]; [by apply (mo_aligned _ Hms)|by split]. Qed.

Lemma mspace_shrink_ok requested_size :
  0 < requested_size <= ha_size old ->
  let ms' := mspace_shrink address requested_size al (ha_size old) ms in
  mspace_ok ms' /\ block_count ms' = block_count ms.
Proof.
  intros Hreq ms'. destruct block_bounds as (B1 & B2 & B3 & B4 & B5).
  destruct (mo_bounds _ Hms) as (C1 & C2 & C3 & C4). pose proof (ms_first_pos _ Hms) as Hpos.
  destruct (resize_block ms Hms address old requested_size al Hold) as (R1 & R2 & R3 & R4); try lia.
  { intros e He Hne. destruct (B5 e He Hne); [by left|right; lia]. }
  pose proof (use_bound _ Hms) as Hub.
  assert (Hcount : forall c mx f, block_count (with_ms ms c mx f
    (om_update address (fun b => mkHeapAllocation (ha_memory b) requested_size al) (ms_allocations ms)))
    = block_count ms).
  { intros. unfold block_count. simpl.
    rewrite (om_sum_update _ _ _ old) by (done || apply (mo_blocks _ Hms)). lia. }
  pose proof (fl_sum_bound (ms_first ms) (ms_end ms) _ ltac:(lia)
    (fl_ranges_ok 0 _ _ _ ltac:(lia) R1)) as Hbound.
  change (@size_of HeapAllocation heap_allocation_sized) with ha_size in Hbound. rewrite R2 in Hbound.
  destruct (mo_maximum _ Hms). unfold ms', mspace_shrink. rewrite (sub64_small (ha_size old)) by lia.
  destruct (ha_size old - requested_size =? 0) eqn:E; cbn [negb]; (split; [|apply Hcount]).
  - assert (Heq : requested_size = ha_size old) by lia.
    apply with_ms_ok; try done; [apply (mo_free _ Hms)| | |lia].
    + intros a Ha. rewrite R4, <- (mo_partition _ Hms a Ha). specialize (B4 a).
      rewrite Heq in *. destruct (decide (address <= a < address + ha_size old)); tauto.
    + intros e He%R3. by eapply resized_aligned.
  - rewrite (add64_small address) by lia. rewrite (sub64_small (ms_current_in_use ms)) by lia.
    destruct (Mspace_AddFreeRange_spec (ms_first ms) (ms_end ms) Hpos C4 _ (mo_free _ Hms)
      (address + requested_size) (ha_size old - requested_size)) as [F1 F2]; try lia.
    { intros e He. apply (blocks_clear_of_free ms Hms); try done; try lia. intros a Ha.
      apply (mo_partition _ Hms); [lia|]. apply B4. lia. }
    apply with_ms_ok; try done; [| |lia|lia].
    + intros a Ha. rewrite R4, F2. pose proof (mo_partition _ Hms a Ha) as Hpart. specialize (B4 a).
      destruct (decide (address <= a < address + requested_size)) as [Hd|Hd].
      * assert (Hnf : ~ covered (ms_free_ranges ms) a) by (apply Hpart, B4; lia).
        split; [|by right]. intros _ [?|?]; [done|lia].
      * destruct (decide (address <= a < address + ha_size old)) as [Hd2|Hd2].
        -- split; [intros [[_ ?]|?]; [done|lia]|]. intros Hn. exfalso. apply Hn. right. lia.
        -- rewrite Hpart. split; [|intros Hn; left; split; [|done]; tauto].
           intros [[? _]|?]; [|lia]. intros [?|?]; [done|lia].
    + intros e He%R3. by eapply resized_aligned.
Qed.

Lemma mspace_grow_ok requested_size ms' :
  0 < requested_size <= u64_max ->
  mspace_grow address requested_size al (ha_size old) ms = Some ms' ->
  mspace_ok ms' /\ block_count ms' = block_count ms /\
  ms_memory ms' = ms_memory ms /\ ms_base_address ms' = ms_base_address ms /\ ms_size ms' = ms_size ms.
Proof.
  intros Hreq. destruct block_bounds as (B1 & B2 & B3 & B4 & B5).
  destruct (mo_bounds _ Hms) as (C1 & C2 & C3 & C4). pose proof (ms_first_pos _ Hms) as Hpos.
  unfold mspace_grow. rewrite (add64_small address) by lia.
  destruct (om_find (address + ha_size old) (ms_free_ranges ms)) as [next_size|] eqn:En; [|done].
  pose proof (om_find_elem _ _ _ En) as Hnin.
  pose proof (fl_valid _ _ _ _ (mo_free _ Hms) _ Hnin) as (V1 & V2 & V3).
  unfold iend in V3. simpl in V1, V2, V3. unfold size_of, Z_sized in V2, V3.
  destruct (requested_size >? ha_size old) eqn:Eg; [|done].
  rewrite (sub64_small requested_size) by lia. set (growth := requested_size - ha_size old).
  replace (growth =? 0) with false by lia. cbn [negb andb].
  destruct (next_size >=? growth) eqn:Efit; [|done]. intros [= <-].
  assert (Hcovf : forall a, address + ha_size old <= a < address + ha_size old + growth ->
            covered (ms_free_ranges ms) a).
  { intros a Ha. exists (address + ha_size old, next_size). split; [done|].
    unfold inside, iend. simpl. unfold size_of, Z_sized. lia. }
  destruct (resize_block ms Hms address old requested_size al Hold) as (R1 & R2 & R3 & R4); try lia.
  { intros e He Hne. destruct (B5 e He Hne) as [|Hr]; [by left|right].
    pose proof (fl_valid _ _ _ _ (mo_blocks _ Hms) e He) as (Q1 & Q2 & Q3).
    destruct (free_clear_of_blocks ms Hms (address + ha_size old) growth e) as [Hq|Hq];
      try done; try lia. unfold iend in *. lia. }
  destruct (mspace_take_spec (ms_first ms) (ms_end ms) Hpos C4 _ (mo_free _ Hms)
    (address + ha_size old) next_size (address + ha_size old) growth Hnin) as [T1 T2]; try lia.
  assert (Htake : mspace_take (address + ha_size old) next_size (address + ha_size old) growth
            (ms_free_ranges ms) =
     if negb ((next_size - growth)%u64 =? 0)
     then om_emplace ((address + ha_size old) + growth)%u64 (next_size - growth)%u64
            (om_erase (address + ha_size old) (ms_free_ranges ms))
     else om_erase (address + ha_size old) (ms_free_ranges ms)).
  { unfold mspace_take. rewrite (sub64_small (address + ha_size old)) by lia.
    rewrite Z.sub_diag. cbn [negb andb Z.eqb]. rewrite (sub64_small next_size 0) by lia.
    by rewrite Z.sub_0_r. }
  rewrite <- Htake. pose proof (use_bound _ Hms) as Hub.
  pose proof (fl_sum_bound (ms_first ms) (ms_end ms) _ ltac:(lia)
    (fl_ranges_ok 0 _ _ _ ltac:(lia) R1)) as Hbound.
  change (@size_of HeapAllocation heap_allocation_sized) with ha_size in Hbound. rewrite R2 in Hbound.
  destruct (mo_maximum _ Hms). rewrite (add64_small (ms_current_in_use ms)) by lia.
  split_and!; try done.
  - apply with_ms_ok; try done; [| |lia|lia].
    + intros a Ha. rewrite R4, T2. pose proof (mo_partition _ Hms a Ha) as Hpart.
      specialize (B4 a). specialize (Hcovf a).
      destruct (decide (address <= a < address + ha_size old)) as [Hd|Hd].
      * assert (Hnf : ~ covered (ms_free_ranges ms) a) by (apply Hpart, B4; lia).
        split; [intros _ [? _]; done|]. intros _. right. lia.
      * destruct (decide (address <= a < address + requested_size)) as [Hd2|Hd2].
        -- split; [intros _ [_ Hn]; apply Hn; lia|by right].
        -- rewrite Hpart. split; [intros [[? _]|?]; [tauto|done]|].
           intros Hn. left. split; [|done]. intros Hcf. apply Hn. split; [done|lia].
    + intros e He%R3. by eapply resized_aligned.
  - unfold block_count. simpl.
    rewrite (om_sum_update _ _ _ old) by (done || apply (mo_blocks _ Hms)). lia.
Qed.
End realloc.

Lemma status_kOk s : status_eqb s kOk = true <-> s = kOk.
Proof. unfold status_eqb. apply bool_decide_eq_true. Qed.

Lemma mspace_move_next address requested_size al old_size ms count m :
  state_ok (ms, count) -> is_u64 al -> 0 <= requested_size ->
  let '(ms', count', m', result) := mspace_move address requested_size al old_size (ms, count) m in
  mspace_next (ms, count) (ms', count').
Proof.
  intros Hst Hal Hreq. unfold mspace_move.
  pose proof (AllocateMspaceLocked_spec requested_size al false ms count m Hst Hal Hreq) as Ha.
  destruct (AllocateMspaceLocked requested_size al false (ms, count) m)
    as [[[ms1 count1] m1] [[status new_address] new_size]].
  destruct Ha as [Hn1 _]. destruct (status_eqb status kOk); cbn [negb]; [|done].
  destruct (heap_copy _ _ _ m1) as [m2 copied].
  assert (Hrel : forall a, let '(ms2, count2, _) := ReleaseMspaceLocked a (ms1, count1) in
            mspace_next (ms, count) (ms2, count2)).
  { intros a. pose proof (ReleaseMspaceLocked_next a ms1 count1 (mn_ok _ _ Hn1)) as Hr.
    destruct (ReleaseMspaceLocked a (ms1, count1)) as [[ms2 count2] st2]. by eapply mspace_next_trans. }
  destruct copied; cbn [negb]; [specialize (Hrel address)|specialize (Hrel new_address)];
    by destruct (ReleaseMspaceLocked _ (ms1, count1)) as [[ms2 count2] st2].
Qed.

Lemma ReallocateMspaceLocked_next address requested_size alignment ms count m :
  state_ok (ms, count) -> is_u64 alignment -> is_u64 requested_size ->
  let '(ms', count', m', result) :=
    ReallocateMspaceLocked address requested_size alignment (ms, count) m in
  mspace_next (ms, count) (ms', count').
Proof.
  intros Hst Hal Hreq. pose proof Hst as [Hms Hc]. cbn [fst snd] in Hms, Hc. destruct Hreq as [Hr0 Hr1].
  unfold ReallocateMspaceLocked. destruct (address =? 0).
  { pose proof (AllocateMspaceLocked_spec requested_size alignment false ms count m Hst Hal Hr0) as Ha.
    destruct (AllocateMspaceLocked _ _ _ _ _) as [[[ms1 count1] m1] [[status new_address] new_size]].
    by destruct Ha. }
  destruct (requested_size =? 0) eqn:E0.
  { pose proof (ReleaseMspaceLocked_next address ms count Hst) as Hr.
    by destruct (ReleaseMspaceLocked address (ms, count)) as [[ms1 count1] released]. }
  destruct (is_power_of_two alignment) eqn:Ep; cbn [negb]; [|by apply mspace_next_refl].
  destruct (heap_alignment alignment Hal Ep) as (k & Hk & Hak). rewrite Hak.
  destruct (pow2_bounds k Hk) as [Hp0 Hp1].
  destruct (om_find address (ms_allocations ms)) as [old|] eqn:Ef; [|by apply mspace_next_refl].
  destruct (block_bounds ms Hms address old Ef) as (_ & B2 & _).
  pose proof (mspace_move_next address requested_size (2 ^ k) (ha_size old) ms count m Hst
    ltac:(unfold is_u64; lia) Hr0) as Hmove.
  destruct (address mod 2 ^ k =? 0) eqn:Em; cbn [andb]; [|done].
  destruct (requested_size <=? ha_size old) eqn:El.
  - destruct (mspace_shrink_ok ms Hms address (2 ^ k) old Ef ltac:(lia) ltac:(lia) requested_size ltac:(lia))
      as [S1 S2].
    split; simpl; try (unfold mspace_shrink; by destruct (negb _)).
    + split; simpl; [done|lia].
    + lia.
  - destruct (address <=? _); [|done].
    destruct (mspace_grow address requested_size (2 ^ k) (ha_size old) ms) as [ms1|] eqn:Eg; [|done].
    destruct (mspace_grow_ok ms Hms address (2 ^ k) old Ef ltac:(lia) ltac:(lia) requested_size ms1
      ltac:(lia) Eg) as (G1 & G2 & G3 & G4 & G5).
    split; simpl; try done; [split; simpl; [done|lia]|lia].
Qed.

(** ** The service *)

Record heap_ok h : Prop := {
  ho_sorted : om_sorted (lh_mspaces_ h);
  ho_mspaces : forall k ms, (k, ms) ∈ lh_mspaces_ h -> mspace_ok ms /\ ms_base_address ms = k;
  ho_disjoint : forall k1 ms1 k2 ms2, (k1, ms1) ∈ lh_mspaces_ h -> (k2, ms2) ∈ lh_mspaces_ h ->
    k1 <> k2 -> ms_memory ms1 = ms_memory ms2 -> ms_end ms1 <= k2 \/ ms_end ms2 <= k1;
  ho_count : lh_mspace_allocation_count_ h = om_sum block_count (lh_mspaces_ h) /\
             lh_mspace_allocation_count_ h <= kMaximumLibcHeapAllocations
}.

Lemma find_mspace_Some id handle h ms :
  find_mspace id handle h = Some ms -> om_find handle (lh_mspaces_ h) = Some ms /\ ms_memory ms = id.
Proof.
  unfold find_mspace. destruct (om_find handle _) as [ms'|]; [|done].
  destruct (ms_memory ms' =? id) eqn:E; [|done]. intros [= <-]. split; [done|lia].
Qed.

Lemma mspace_state_ok h handle ms :
  heap_ok h -> om_find handle (lh_mspaces_ h) = Some ms ->
  state_ok (ms, lh_mspace_allocation_count_ h).
Proof.
  intros [Hs Hm _ [Hc Hmax]] Hf. pose proof (om_find_elem _ _ _ Hf) as Hin.
  split; simpl; [by eapply Hm|]. split; [|done]. rewrite Hc.
  pose proof (om_sum_erase block_count handle ms _ Hs Hf) as He.
  assert (0 <= om_sum block_count (om_erase handle (lh_mspaces_ h)))
    by (apply om_sum_nonneg; intros; apply block_count_nonneg). lia.
Qed.

Lemma store_mspace_ok h handle ms ms' count' :
  heap_ok h -> om_find handle (lh_mspaces_ h) = Some ms ->
  mspace_next (ms, lh_mspace_allocation_count_ h) (ms', count') ->
  heap_ok (store_mspace handle ms' count' h).
Proof.
  intros [Hs Hm Hd [Hc Hmax]] Hf [[N1 [N2 N3]] N4 N5 N6 N7]. simpl in *.
  pose proof (om_find_elem _ _ _ Hf) as Hin.
  assert (Hel : forall k x, (k, x) ∈ om_update handle (fun _ => ms') (lh_mspaces_ h) ->
    exists x0, (k, x0) ∈ lh_mspaces_ h /\ mspace_ok x /\ ms_base_address x = ms_base_address x0 /\
      ms_memory x = ms_memory x0 /\ ms_size x = ms_size x0).
  { intros k x [[Hx _]|[[= -> ->] _]]%om_update_elem; [exists x|exists ms]; split_and!; try done.
    by eapply Hm. }
  split; simpl.
  - by apply om_update_sorted.
  - intros k x (x0 & Hx0 & Hok & Hb & _)%Hel. split; [done|]. rewrite Hb. by eapply Hm.
  - intros k1 x1 k2 x2 (y1 & Hy1 & _ & Hb1 & Hm1 & Hs1)%Hel (y2 & Hy2 & _ & Hb2 & Hm2 & Hs2)%Hel Hne Heq.
    unfold ms_end. rewrite Hb1, Hs1, Hb2, Hs2. apply (Hd k1 y1 k2 y2); congruence.
  - rewrite (om_sum_update _ _ _ ms) by done. lia.
Qed.

Lemma fresh_arena base size first :
  is_u64 base -> is_u64 size -> base <> 0 -> kLibcMspaceMetadataBytes < size -> base + size <= u64_max ->
  LibcHeap_AlignUp (base + kLibcMspaceMetadataBytes)%u64 kDefaultLibcHeapAlignment = Some first ->
  first < base + size ->
  forall id, mspace_ok (mkMspace id base size 0 0 (om_emplace first (base + size - first) []) []).
Proof.
  intros [Hb0 Hb1] [Hs0 Hs1] Hnz Hmeta Hfit Hup Hlt id. unfold kLibcMspaceMetadataBytes in *.
  change kDefaultLibcHeapAlignment with (2 ^ 4) in Hup. rewrite add64_small in Hup by lia.
  pose proof (align_up_spec 4 (base + 64) ltac:(lia) ltac:(unfold is_u64; lia)) as Ha.
  rewrite LibcHeap_AlignUp_eq in Hup by lia. unfold align_up in Hup, Ha.
  destruct (base + 64 >? _); [done|]. injection Hup as Hfirst. rewrite Hfirst in Ha.
  destruct Ha as (A1 & A2 & _). change (2 ^ 4) with 16 in Hfirst.
  assert (Hf : ms_first (mkMspace id base size 0 0 (om_emplace first (base + size - first) []) []) = first)
    by exact Hfirst.
  assert (He : ms_end (mkMspace id base size 0 0 (om_emplace first (base + size - first) []) []) = base + size)
    by done.
  split; rewrite ?Hf, ?He; simpl; try done; unfold kLibcMspaceMetadataBytes.
  - lia.
  - apply fl_single. unfold valid_in, iend. simpl. unfold size_of, Z_sized. lia.
  - apply fl_nil.
  - intros a Ha. split; [by intros (e & ?%elem_of_nil & _)|]. intros Hn. exfalso. apply Hn.
    exists (first, base + size - first). split; [apply list_elem_of_here|].
    unfold inside, iend. simpl. unfold size_of, Z_sized. lia.
  - by intros e ?%elem_of_nil.
Qed.

Lemma CreateMspace_ok id base size h m :
  heap_ok h -> is_u64 base -> is_u64 size -> heap_ok (CreateMspace id base size h m).1.
Proof.
  intros Hh Hb Hs. unfold CreateMspace. destruct (_ || _) eqn:Eg; [done|].
  apply orb_false_iff in Eg as [Eg _]. apply orb_false_iff in Eg as [Eg E3].
  apply orb_false_iff in Eg as [E1 E2]. pose proof Hb as [Hb0 Hb1]. pose proof Hs as [Hs0 Hs1].
  rewrite sub64_small in E3 by lia. rewrite (add64_small base size) by lia.
  destruct (LibcHeap_AlignUp _ _) as [first|] eqn:Eup; [|done].
  destruct (first >=? base + size) eqn:Ef; [done|].
  destruct (_ || bool_decide _) eqn:Ed; [done|]. apply orb_false_iff in Ed as [_ Ed].
  apply bool_decide_eq_false in Ed. apply eq_None_not_Some in Ed.
  destruct (existsb _ _) eqn:Eo; [done|].
  assert (Hf0 : 0 <= first).
  { change kDefaultLibcHeapAlignment with (2 ^ 4) in Eup.
    rewrite LibcHeap_AlignUp_eq in Eup by lia.
    pose proof (align_up_spec 4 (base + kLibcMspaceMetadataBytes)%u64 ltac:(lia) (is_u64_add64 _ _)) as Ha.
    rewrite Eup in Ha. unfold is_u64 in Ha. lia. }
  rewrite (sub64_small (base + size)) by lia. set (ms := mkMspace _ _ _ _ _ _ _).
  assert (Hms : mspace_ok ms) by (apply (fresh_arena base size first); try done; lia).
  destruct Hh as [Hsrt Hm Hd [Hc Hmax]].
  assert (Hsep : forall k x, (k, x) ∈ lh_mspaces_ h -> ms_memory x = id ->
    ms_end x <= base \/ base + size <= k).
  { intros k x Hx Hid. destruct (Hm k x Hx) as [Hxok Hxb]. destruct (mo_bounds _ Hxok) as (X1 & X2 & X3 & X4).
    pose proof (ms_first_pos _ Hxok).
    apply not_true_iff_false in Eo. rewrite existsb_exists in Eo.
    destruct (decide (ms_end x <= base)); [by left|]. destruct (decide (base + size <= k)); [by right|].
    exfalso. apply Eo. exists (k, x). split; [by apply list_elem_of_In|]. simpl.
    unfold ms_end in *. unfold kLibcMspaceMetadataBytes in *. rewrite add64_small by lia.
    rewrite !andb_true_iff. lia. }
  split; simpl.
  - by apply om_emplace_sorted.
  - intros k x [[= -> ->]|Hx]%om_emplace_elem; [done|by apply Hm|done].
  - intros k1 x1 k2 x2 [[= -> ->]|Hx1]%om_emplace_elem [[= -> ->]|Hx2]%om_emplace_elem Hne Heq; try done.
    + destruct (Hsep k2 x2 Hx2); [by rewrite <- Heq|by right|by left].
    + destruct (Hsep k1 x1 Hx1); [by rewrite Heq|by left|by right].
    + by apply (Hd k1 x1 k2 x2).
  - rewrite om_sum_emplace by done. unfold block_count at 2. simpl. lia.
Qed.

Lemma DestroyMspace_ok id handle h : heap_ok h -> heap_ok (DestroyMspace id handle h).1.
Proof.
  intros Hh. unfold DestroyMspace. destruct (find_mspace id handle h) as [ms|] eqn:Ef; [|done].
  apply find_mspace_Some in Ef as [Ef _]. destruct (ms_allocations ms) as [|] eqn:Ea; [|done].
  destruct Hh as [Hsrt Hm Hd [Hc Hmax]]. split; simpl.
  - by apply om_erase_sorted.
  - intros k x [_ Hx]%om_erase_elem. by apply Hm.
  - intros k1 x1 k2 x2 [_ Hx1]%om_erase_elem [_ Hx2]%om_erase_elem. by apply (Hd k1 x1 k2 x2).
  - rewrite (om_sum_erase _ _ ms) by done. unfold block_count at 2. rewrite Ea. simpl. lia.
Qed.

(** One call of the service on mspaces; the guest memory is whatever the caller
    passes at that moment. *)
Inductive heap_step h : LibcHeapService -> Prop :=
| hs_create id base size m : is_u64 base -> is_u64 size -> heap_step h (CreateMspace id base size h m).1
| hs_destroy id handle : heap_step h (DestroyMspace id handle h).1
| hs_allocate id handle n al zero m : is_u64 n -> is_u64 al ->
    heap_step h (AllocateMspace id handle n al zero h m).1.1
| hs_release id handle a : heap_step h (ReleaseMspace id handle a h).1
| hs_reallocate id handle a n al m : is_u64 n -> is_u64 al ->
    heap_step h (ReallocateMspace id handle a n al h m).1.1.

Inductive heap_reachable : LibcHeapService -> Prop :=
| hr_init : heap_reachable LibcHeapService_init
| hr_step h h' : heap_reachable h -> heap_step h h' -> heap_reachable h'.

Lemma heap_step_ok h h' : heap_ok h -> heap_step h h' -> heap_ok h'.
Proof.
  intros Hh. destruct 1 as [id base size m Hb Hs|id handle|id handle n al zero m [Hn _] Hal
    |id handle a|id handle a n al m Hn Hal].
  - by apply CreateMspace_ok.
  - by apply DestroyMspace_ok.
  - unfold AllocateMspace. destruct (find_mspace id handle h) as [ms|] eqn:Ef; [|done].
    apply find_mspace_Some in Ef as [Ef _]. pose proof (mspace_state_ok _ _ _ Hh Ef) as Hst.
    pose proof (AllocateMspaceLocked_spec n al zero ms _ m Hst Hal Hn) as Ha.
    destruct (AllocateMspaceLocked _ _ _ _ _) as [[[ms1 count1] m1] [[st ad] sz]]. simpl.
    by eapply store_mspace_ok; [| |apply Ha].
  - unfold ReleaseMspace. destruct (find_mspace id handle h) as [ms|] eqn:Ef; [|done].
    apply find_mspace_Some in Ef as [Ef _]. pose proof (mspace_state_ok _ _ _ Hh Ef) as Hst.
    pose proof (ReleaseMspaceLocked_next a ms _ Hst) as Ha.
    destruct (ReleaseMspaceLocked _ _) as [[ms1 count1] st]. simpl. by eapply store_mspace_ok.
  - unfold ReallocateMspace. destruct (find_mspace id handle h) as [ms|] eqn:Ef; [|done].
    apply find_mspace_Some in Ef as [Ef _]. pose proof (mspace_state_ok _ _ _ Hh Ef) as Hst.
    pose proof (ReallocateMspaceLocked_next a n al ms _ m Hst Hal Hn) as Ha.
    destruct (ReallocateMspaceLocked _ _ _ _ _) as [[[ms1 count1] m1] r]. simpl. by eapply store_mspace_ok.
Qed.

Lemma heap_init_ok : heap_ok LibcHeapService_init.
Proof.
  split; simpl; [apply om_sorted_nil| | |done].
  - by intros ? ? ?%elem_of_nil.
  - by intros ? ? ? ? ?%elem_of_nil.
Qed.

(** In every state the mspace allocator can reach, each mspace's blocks and
    free ranges partition its arena behind the metadata exactly, free ranges are
    fully coalesced, blocks are aligned as requested, [current_in_use] is the
    total size of the live blocks and never exceeds [maximum_in_use], arenas of
    one memory do not overlap, and the service-wide counter is the number of
    live blocks. *)
Theorem libc_mspace_invariant h : heap_reachable h -> heap_ok h.
Proof.
  induction 1 as [|h h' _ IH Hstep]; [apply heap_init_ok|by eapply heap_step_ok].
Qed.

(** Mspace allocation is a complete first fit.  In a reachable state, with a
    power-of-two alignment and fewer than 262144 live blocks, [AllocateMspace]
    returns the least multiple of the alignment (at least 16) at which the whole
    block is free and records the block there; it fails only when no such place
    exists or when zero-filling the block is refused by the guest memory. *)
Theorem AllocateMspace_first_fit id handle requested_size alignment zero_fill h m ms :
  heap_ok h -> is_u64 requested_size -> is_u64 alignment -> is_power_of_two alignment = true ->
  find_mspace id handle h = Some ms ->
  lh_mspace_allocation_count_ h < kMaximumLibcHeapAllocations ->
  let '(h', m', (status, address, size)) :=
    AllocateMspace id handle requested_size alignment zero_fill h m in
  let n := if requested_size =? 0 then 1 else requested_size in
  let al := Z.max alignment kDefaultLibcHeapAlignment in
  heap_ok h' /\
  if status_eqb status kOk then
    size = n /\ space_feasible ms n al address /\
    (forall c, space_feasible ms n al c -> address <= c) /\
    exists ms', find_mspace id handle h' = Some ms' /\
      forall e, e ∈ ms_allocations ms' <->
        e ∈ ms_allocations ms \/ e = (address, mkHeapAllocation id n al)
  else (exists c, zero_fill = true /\ space_feasible ms n al c /\ (Fill c n 0 m).2 = false) \/
    forall c, ~ space_feasible ms n al c.
Proof.
  intros Hh Hn Hal Hp Ef Hmax. pose proof (hs_allocate h id handle requested_size alignment zero_fill m Hn Hal)
    as Hstep. apply (heap_step_ok _ _ Hh) in Hstep. unfold AllocateMspace in *. rewrite Ef in *.
  pose proof Ef as [Ef' Hid]%find_mspace_Some. pose proof (mspace_state_ok _ _ _ Hh Ef') as Hst.
  pose proof (AllocateMspaceLocked_spec requested_size alignment zero_fill ms _ m Hst Hal (proj1 Hn)) as Ha.
  destruct (AllocateMspaceLocked _ _ _ _ _) as [[[ms1 count1] m1] [[st ad] sz]].
  destruct Ha as [Hnext Hres]. split; [exact Hstep|]. cbn zeta in Hres.
  destruct (status_eqb st kOk).
  - destruct Hres as (H1 & _ & H2 & H3 & H4). split_and!; try done. exists ms1.
    destruct Hnext as [_ N2 _ _ _]. cbn [fst] in N2. split; [|by rewrite <- Hid].
    unfold find_mspace. simpl. rewrite om_find_update, decide_True, Ef' by done. simpl.
    rewrite N2. by replace (ms_memory ms =? id) with true by lia.
  - by apply Hres.
Qed.

(** The [malloc] blocks of [kernel::LibcHeapService]: each block is a private
    readable and writable mapping of its own, blocks never overlap, and a
    reallocation keeps the contents. *)


(** ** The copy of a reallocation *)

(** One round: a chunk read and written elsewhere. *)
Lemma heap_copy_round source destination n m :
  gm_ok m -> 0 < n -> accessible m source n kRead -> accessible m destination n kWrite ->
  (forall x, in_range destination n x -> content (shared_mappings_ m) x = None) ->
  Read source n m = Some (guest_bytes m source n) /\
  let '(m', ok) := Write destination (guest_bytes m source n) m in
  ok = true /\ gm_ok m' /\ same_shape m m' /\ same_tables m m' /\
  (forall i, 0 <= i < n -> guest_byte m' (destination + i) = guest_byte m (source + i)) /\
  (forall x, base_address_ m <= x < gm_end m -> ~ in_range destination n x ->
     guest_byte m' x = guest_byte m x).
Proof.
  intros Hm Hn Hr Hw Hpriv. destruct (go_window m Hm) as (W1 & W2 & W3).
  destruct (accessible_contained m source n kRead Hm Hn Hr) as [R1 R2].
  destruct (accessible_contained m destination n kWrite Hm Hn Hw) as [D1 D2]. split.
  - rewrite Read_spec by (done || unfold is_u64, gm_end in *; lia).
    by rewrite (proj2 (CanAccessLocked_iff m source n kRead Hm
      ltac:(unfold is_u64, gm_end in *; lia) ltac:(lia))) by (by rewrite Z.max_r by lia).
  - set (view := guest_bytes m source n).
    assert (Hlen : Z.of_nat (length view) = n) by (unfold view; rewrite guest_bytes_length; lia).
    destruct (Write_spec destination view m Hm ltac:(unfold is_u64, gm_end in *; lia)) as [Hiff Hres].
    destruct (Write destination view m) as [m1 ok]. cbn [fst snd] in *. rewrite Hlen, Z.max_r in * by lia.
    rewrite (proj2 Hiff Hw) in *. destruct Hres as (G1 & G2 & G3 & _ & Hst & _).
    destruct (stored_private _ _ _ _ _ Hm Hst Hpriv) as [B1 B2]. split_and!; try done.
    intros i Hi. rewrite B1 by done. unfold source_byte, view.
    rewrite guest_bytes_lookup by lia. simpl. f_equal. lia.
Qed.

Lemma heap_copy_loop_spec fuel source destination n copied m :
  gm_ok m -> 0 <= source -> 0 <= destination -> 0 <= copied ->
  n - copied <= 4096 * Z.of_nat fuel ->
  accessible m source n kRead -> accessible m destination n kWrite ->
  (forall x, in_range destination n x -> content (shared_mappings_ m) x = None /\ ~ in_range source n x) ->
  let '(m', ok) := heap_copy_loop fuel source destination n copied m in
  ok = true /\ gm_ok m' /\ same_shape m m' /\ same_tables m m' /\
  (forall i, copied <= i < n -> guest_byte m' (destination + i) = guest_byte m (source + i)) /\
  (forall x, base_address_ m <= x < gm_end m -> ~ in_range (destination + copied) (n - copied) x ->
     guest_byte m' x = guest_byte m x).
Proof.
  intros Hm Hs0 Hd0. revert copied m Hm. induction fuel as [|f IH];
    intros copied m Hm Hc0 Hfuel Hr Hw Hpriv; cbn [heap_copy_loop].
  { split_and!; try done. intros i Hi. lia. }
  destruct (copied <? n) eqn:Ec; cbn [negb].
  2:{ split_and!; try done. intros i Hi. lia. }
  set (chunk := Z.min kHeapCopyChunkSize (n - copied)).
  assert (Hchunk : 0 < chunk /\ chunk <= n - copied /\ (chunk = n - copied \/ chunk = 4096))
    by (unfold chunk, kHeapCopyChunkSize; lia).
  destruct (go_window m Hm) as (W1 & W2 & W3).
  destruct (accessible_contained m source n kRead Hm ltac:(lia) Hr) as [R1 R2].
  destruct (accessible_contained m destination n kWrite Hm ltac:(lia) Hw) as [D1 D2].
  rewrite !add64_small by (unfold gm_end in *; lia).
  destruct (heap_copy_round (source + copied) (destination + copied) chunk m Hm ltac:(lia)) as [-> Hround].
  { eapply accessible_sub; [exact Hr|lia|lia]. }
  { eapply accessible_sub; [exact Hw|lia|lia]. }
  { intros x Hx. apply Hpriv. unfold in_range in *. lia. }
  destruct (Write _ _ m) as [m1 ok]. destruct Hround as (-> & G1 & G2 & G3 & B1 & B2).
  specialize (IH (copied + chunk) m1 G1 ltac:(lia) ltac:(lia) (accessible_tables _ _ _ _ _ G3 Hr)
    (accessible_tables _ _ _ _ _ G3 Hw)).
  destruct (heap_copy_loop f source destination n (copied + chunk) m1) as [m2 ok2].
  destruct IH as (-> & I1 & I2 & I3 & I4 & I5).
  { intros x Hx. rewrite (st_shared _ _ G3). by apply Hpriv. }
  assert (Hend : gm_end m1 = gm_end m /\ base_address_ m1 = base_address_ m).
  { destruct G2 as [Q1 Q2 _ _]. unfold gm_end. by rewrite Q1, Q2. }
  destruct Hend as [He Hb]. split_and!; try done.
  - destruct G2, I2. split; congruence.
  - destruct G3, I3. split; congruence.
  - intros i Hi. destruct (decide (copied + chunk <= i)) as [Hge|Hlt].
    + rewrite I4 by lia. apply B2; [lia|]. intros Hin.
      apply (proj2 (Hpriv (source + i) ltac:(unfold in_range in *; lia))). unfold in_range. lia.
    + rewrite I5 by (unfold in_range; lia).
      replace (destination + i) with (destination + copied + (i - copied)) by lia.
      rewrite B1 by lia. f_equal. lia.
  - intros x Hx Hout. rewrite I5 by (unfold in_range in *; lia). apply B2; [done|].
    unfold in_range in *. lia.
Qed.

Lemma heap_copy_spec source destination n m :
  gm_ok m -> 0 <= source -> 0 <= destination -> 0 <= n ->
  accessible m source n kRead -> accessible m destination n kWrite ->
  (forall x, in_range destination n x -> content (shared_mappings_ m) x = None /\ ~ in_range source n x) ->
  let '(m', ok) := heap_copy source destination n m in
  ok = true /\ gm_ok m' /\ same_shape m m' /\ same_tables m m' /\
  (forall i, 0 <= i < n -> guest_byte m' (destination + i) = guest_byte m (source + i)) /\
  (forall x, base_address_ m <= x < gm_end m -> ~ in_range destination n x ->
     guest_byte m' x = guest_byte m x).
Proof.
  intros Hm Hs Hd Hn Hr Hw Hpriv. unfold heap_copy, kHeapCopyChunkSize.
  pose proof (Z.div_pos n 4096 Hn ltac:(lia)). pose proof (Z.mod_pos_bound n 4096 ltac:(lia)).
  pose proof (Z.div_mod n 4096 ltac:(lia)).
  pose proof (heap_copy_loop_spec (Z.to_nat (n / 4096 + 1)) source destination n 0 m Hm Hs Hd
    ltac:(lia) ltac:(lia) Hr Hw Hpriv) as Hc.
  destruct (heap_copy_loop _ source destination n 0 m) as [m' ok].
  by rewrite Z.add_0_r, Z.sub_0_r in Hc.
Qed.

(** ** Allocation *)

Section allocate.
Context `{HostMemory}.

(** [malloc]: a fresh private block, or nothing. *)
Lemma LibcHeap_AllocateLocked_spec id n al zero_fill h m :
  gm_ok m -> is_u64 n -> is_u64 al ->
  let '(h', m', (st, a, sz)) := LibcHeap_AllocateLocked id n al zero_fill h m in
  let al' := Z.max al kDefaultLibcHeapAlignment in
  keeps m m' /\
  if status_eqb st kOk then
    is_power_of_two al' = true /\ is_u64 al' /\ sz = (if n =? 0 then 1 else n) /\
    0 < a <= u64_max /\ a mod al' = 0 /\ om_find a (lh_allocations_ h) = None /\
    h' = with_lh_allocations h (om_emplace a (mkHeapAllocation id sz al') (lh_allocations_ h)) /\
    (exists l, placed a sz l m m') /\
    (zero_fill = true -> forall x, in_range a sz x -> guest_byte m' x = 0)
  else h' = h.
Proof.
  intros Hm Hn Hal. unfold LibcHeap_AllocateLocked.
  destruct (is_power_of_two al) eqn:Ep; cbn [negb]; [|split; [by apply keeps_refl|done]].
  destruct (heap_alignment al Hal Ep) as (k & Hk & Hk2). set (al' := Z.max al _) in *.
  assert (Hal' : 0 < al' /\ is_u64 al' /\ is_power_of_two al' = true).
  { split_and!; [unfold al', kDefaultLibcHeapAlignment; lia| |rewrite Hk2; by apply is_power_of_two_pow].
    unfold al', is_u64, kDefaultLibcHeapAlignment in *. rewrite u64_max_eq in *. lia. }
  set (sz := if n =? 0 then 1 else n).
  assert (Hsz : is_u64 sz /\ 0 < sz) by (unfold sz; split_match; u64_lia).
  destruct (_ || _); [split; [by apply keeps_refl|done]|].
  set (start := if base_address_ m =? 0 then al' else base_address_ m).
  destruct (go_window m Hm) as (W1 & W2 & W3).
  assert (Hst : is_u64 start /\ 0 < start) by (unfold start, is_u64, gm_end in *; split_match; lia).
  pose proof (FindUnmappedRange_spec m start sz al' Hm ltac:(tauto) ltac:(tauto) ltac:(tauto)
    ltac:(tauto) ltac:(tauto)) as Hfind. cbn zeta in Hfind.
  destruct (FindUnmappedRange start sz al' m) as [a|]; [|split; [by apply keeps_refl|done]].
  destruct Hfind as ((Ha & Hmod & _) & _).
  pose proof (heap_map_spec a sz m Hm ltac:(unfold is_u64; lia) ltac:(tauto) ltac:(tauto)) as Hmap.
  change (Z.lor kRead kWrite) with heap_protection.
  destruct (Map a sz heap_protection m) as [m1 mapped]. destruct mapped; cbn [negb]; [|by split].
  destruct Hmap as (l & Hpl).
  assert (Hfill : let '(m2, filled) := if zero_fill then Fill a sz 0 m1 else (m1, true) in
    filled = true /\ placed a sz l m m2 /\
    (zero_fill = true -> forall x, in_range a sz x -> guest_byte m2 x = 0)).
  { destruct zero_fill; [|by split_and!].
    pose proof (heap_fill_spec a sz l m m1 Hm ltac:(unfold is_u64; lia) Hpl) as Hf.
    destruct (Fill a sz 0 m1) as [m2 ok]. naive_solver. }
  destruct (if zero_fill then _ else _) as [m2 filled]. destruct Hfill as (-> & Hpl2 & Hz). cbn [negb].
  destruct (om_find a (lh_allocations_ h)) eqn:Ef.
  - split; [|done]. apply (heap_undo_spec a sz l); [done|unfold is_u64; lia|tauto|done].
  - split; [apply Hpl2|]. cbn. split_and!; try done; try tauto; try lia. by exists l.
Qed.
End allocate.

(** ** The invariant of the blocks of one memory *)

Record live_block m (a : Z) (al : HeapAllocation) (l : Z) : Prop := {
  lb_address : 0 < a <= u64_max;
  lb_size : 0 < ha_size al <= u64_max;
  lb_alignment : is_u64 (ha_alignment al) /\ is_power_of_two (ha_alignment al) = true /\
    kDefaultLibcHeapAlignment <= ha_alignment al /\ a mod ha_alignment al = 0;
  lb_length : effective_length a (ha_size al) m = Some l;
  lb_mapped : forall x, in_range a l x -> prot_view m x = Some heap_protection
}.

Definition block_at id h (a : Z) (al : HeapAllocation) : Prop :=
  om_find a (lh_allocations_ h) = Some al /\ ha_memory al = id.

Record blocks_ok id h m : Prop := {
  bo_memory : gm_ok m;
  bo_sorted : om_sorted (lh_allocations_ h);
  bo_live : forall a al, block_at id h a al -> exists l, live_block m a al l;
  bo_apart : forall a1 al1 l1 a2 al2 l2, block_at id h a1 al1 -> block_at id h a2 al2 -> a1 <> a2 ->
    live_block m a1 al1 l1 -> live_block m a2 al2 l2 -> a1 + l1 <= a2 \/ a2 + l2 <= a1
}.

Lemma effective_length_shape m m' a n :
  same_shape m m' -> effective_length a n m' = effective_length a n m.
Proof. intros [_ _ S3 S4]. unfold effective_length. by rewrite S3, S4. Qed.

Lemma live_block_lengths m m' a al l l' :
  same_shape m m' -> live_block m a al l -> live_block m' a al l' -> l = l'.
Proof.
  intros Hs [_ _ _ H1 _] [_ _ _ H2 _]. rewrite (effective_length_shape _ _ _ _ Hs) in H2. congruence.
Qed.

Lemma live_block_length m a al l : gm_ok m -> live_block m a al l -> ha_size al <= l.
Proof.
  intros Hm [_ H1 _ H2 _]. by destruct (effective_length_spec m Hm a (ha_size al) l ltac:(unfold is_u64; lia)
    ltac:(lia) H2) as ([? _] & _).
Qed.

(** A block survives everything that keeps what is mapped. *)
Lemma live_block_keep m m' a al l :
  same_shape m m' -> live_block m a al l ->
  (forall x, in_range a l x -> prot_view m' x = prot_view m x) -> live_block m' a al l.
Proof.
  intros Hs [H1 H2 H3 H4 H5] Hp. split; try done.
  - by rewrite (effective_length_shape _ _ _ _ Hs).
  - intros x Hx. by rewrite Hp, H5.
Qed.

Lemma blocks_ok_mono id h h' m m' :
  blocks_ok id h m -> gm_ok m' -> same_shape m m' -> om_sorted (lh_allocations_ h') ->
  (forall a al, block_at id h' a al -> block_at id h a al) ->
  (forall a al l x, block_at id h' a al -> live_block m a al l -> in_range a l x ->
     prot_view m' x = prot_view m x) ->
  blocks_ok id h' m'.
Proof.
  intros [B1 B2 B3 B4] Hm' Hs Hsort Hsub Hp.
  assert (Hl : forall a al, block_at id h' a al -> exists l, live_block m a al l /\ live_block m' a al l).
  { intros a al Hb. destruct (B3 a al (Hsub _ _ Hb)) as (l & Hl). exists l. split; [done|].
    apply (live_block_keep m); [done|done|]. intros x Hx. by eapply Hp. }
  split; [done|done| |].
  - intros a al Hb. destruct (Hl a al Hb) as (l & _ & ?). by exists l.
  - intros a1 al1 l1 a2 al2 l2 Hb1 Hb2 Hne L1 L2.
    destruct (Hl a1 al1 Hb1) as (l1' & M1 & N1), (Hl a2 al2 Hb2) as (l2' & M2 & N2).
    rewrite (live_block_lengths m' m' a1 al1 l1 l1'), (live_block_lengths m' m' a2 al2 l2 l2');
      try done; by eapply B4; eauto.
Qed.

Lemma blocks_ok_keeps id h m m' : blocks_ok id h m -> keeps m m' -> blocks_ok id h m'.
Proof.
  intros Hb [K1 K2 K3 _]. apply (blocks_ok_mono id h h m m'); [done|done|done|apply Hb|done|].
  intros a al l x _ [_ _ _ _ Hm] Hx. by rewrite (Hm x Hx), (K3 x heap_protection (Hm x Hx)).
Qed.

Section blocks.
Context `{HostMemory}.

Lemma place_block id h m m' a n l al :
  blocks_ok id h m -> placed a n l m m' -> om_find a (lh_allocations_ h) = None ->
  0 < a <= u64_max -> is_u64 n -> is_u64 al -> is_power_of_two al = true ->
  kDefaultLibcHeapAlignment <= al -> a mod al = 0 ->
  blocks_ok id (with_lh_allocations h (om_emplace a (mkHeapAllocation id n al) (lh_allocations_ h))) m'.
Proof.
  intros Hb Hpl Hnone Ha Hn Hal Hpow Hmin Hmod. pose proof Hpl as [P1 P2 P3 P4 P5 Hk].
  pose proof (blocks_ok_keeps _ _ _ _ Hb Hk) as [B1 B2 B3 B4]. pose proof (kp_shape _ _ Hk) as Hs.
  set (h' := with_lh_allocations _ _).
  assert (Hat : forall x xl, block_at id h' x xl -> (x = a /\ xl = mkHeapAllocation id n al) \/
    (x <> a /\ block_at id h x xl)).
  { intros x xl [Hf Hid]. simpl in Hf. rewrite om_find_emplace in Hf by done.
    case_decide; [left|right]; split; try done. congruence. }
  assert (Hnew : live_block m' a (mkHeapAllocation id n al) l).
  { split; try done; simpl; [unfold is_u64 in Hn; lia|by rewrite (effective_length_shape _ _ _ _ Hs)|].
    intros x Hx. by rewrite P4, decide_True. }
  (* the blocks that were there lie outside the window *)
  assert (Hold : forall x xl xlen, x <> a -> block_at id h x xl -> live_block m' x xl xlen ->
    a + l <= x \/ x + xlen <= a).
  { intros x xl xlen Hne Hx Hl. destruct (bo_live _ _ _ Hb x xl Hx) as (l0 & H0).
    assert (l0 = xlen) as -> by (by apply (live_block_lengths m m' x xl)).
    destruct (decide (a + l <= x)); [by left|]. destruct (decide (x + xlen <= a)); [by right|exfalso].
    pose proof (live_block_length _ _ _ _ B1 Hl). pose proof (lb_size _ _ _ _ Hl).
    assert (Hin : in_range a l (Z.max a x)) by (unfold in_range; lia).
    apply P3 in Hin. rewrite (lb_mapped _ _ _ _ H0) in Hin; [done|]. unfold in_range. lia. }
  split; [done|by apply om_emplace_sorted| |].
  - intros x xl [[-> ->]|[Hne Hx]]%Hat; [by exists l|by apply B3].
  - intros a1 al1 l1 a2 al2 l2 H1 H2 Hne L1 L2.
    apply Hat in H1 as [[-> ->]|[N1 H1]], H2 as [[-> ->]|[N2 H2]]; [done| | |by eapply (B4 a1 al1 l1 a2 al2 l2)].
    + rewrite (live_block_lengths m' m' a _ l1 l) by done. by apply (Hold a2 al2 l2).
    + rewrite (live_block_lengths m' m' a _ l2 l) by done.
      destruct (Hold a1 al1 l1 N1 H1 L1); [by right|by left].
Qed.

(** Unmapping a block. *)
Lemma unmap_block id h m a al l :
  blocks_ok id h m -> block_at id h a al -> live_block m a al l ->
  let '(m', ok) := Unmap a (ha_size al) m in
  (host_mapped m = false -> ok = true) /\ gm_ok m' /\ same_shape m m' /\
  (forall x, base_address_ m <= x -> ~ in_range a l x -> guest_byte m' x = guest_byte m x) /\
  (forall x, prot_view m' x = if decide (ok = true /\ in_range a l x) then None else prot_view m x) /\
  blocks_ok id (if ok then with_lh_allocations h (om_erase a (lh_allocations_ h)) else h) m'.
Proof.
  intros Hb Hat Hl. pose proof Hl as [L1 L2 L3 L4 L5]. pose proof (bo_memory _ _ _ Hb) as Hm.
  assert (Ha : is_u64 a) by (unfold is_u64; lia). assert (Hn : is_u64 (ha_size al)) by (unfold is_u64; lia).
  pose proof (live_block_length _ _ _ _ Hm Hl) as Hlen.
  pose proof (Unmap_spec a (ha_size al) m Hm Ha Hn) as Hu.
  pose proof (Unmap_bytes a (ha_size al) m Hm Ha Hn) as Hby.
  pose proof (Unmap_result a (ha_size al) m) as Hres.
  destruct (Unmap a (ha_size al) m) as [m' ok]. destruct Hu as (U1 & U2 & _ & _ & U5). cbn [fst] in Hby.
  assert (Hp : forall x, prot_view m' x = if decide (ok = true /\ in_range a l x) then None else prot_view m x).
  { intros x. destruct ok.
    - destruct U5 as (l' & El & _ & _ & _ & -> & _). rewrite L4 in El. injection El as <-.
      repeat case_decide; naive_solver.
    - apply same_tables_views in U5 as [-> _]. by rewrite decide_False by naive_solver. }
  split_and!; try done.
  - intros Hh. rewrite (proj1 (Hres Hh)). apply andb_true_iff. split; [lia|].
    unfold IsMappedLocked. apply CanAccessLocked_iff; [done|done|lia|]. intros x Hx.
    exists heap_protection. rewrite L5; [done|]. unfold in_range. lia.
  - intros x Hx Hout. apply Hby; [done|]. intros l' El. rewrite L4 in El. by injection El as <-.
  - apply (blocks_ok_mono id h _ m m'); [done|done|done| | |].
    + destruct ok; [apply om_erase_sorted|]; apply Hb.
    + intros x xl [Hf Hid]. destruct ok; [|done]. simpl in Hf. rewrite om_find_erase in Hf.
      case_decide; [done|by split].
    + intros x xl xlen y Hx Hxl Hy. rewrite Hp, decide_False; [done|]. intros [-> Hin].
      destruct Hx as [Hf Hid]. simpl in Hf. rewrite om_find_erase in Hf. case_decide as Hne; [done|].
      destruct (bo_apart _ _ _ Hb x xl xlen a al l); [by split|done|done|done|done| |];
        unfold in_range in *; lia.
Qed.

Lemma drop_block id h m a :
  blocks_ok id h m -> blocks_ok id (with_lh_allocations h (om_erase a (lh_allocations_ h))) m.
Proof.
  intros Hb. apply (blocks_ok_mono id h _ m m); [done|apply Hb|done|apply om_erase_sorted, Hb| |done].
  intros x xl [Hf Hid]. simpl in Hf. rewrite om_find_erase in Hf. case_decide; [done|by split].
Qed.

Lemma blocks_ok_tables id h m m' :
  blocks_ok id h m -> gm_ok m' -> same_shape m m' -> same_tables m m' -> blocks_ok id h m'.
Proof.
  intros Hb Hm Hs Ht. apply (blocks_ok_mono id h h m m'); [done|done|done|apply Hb|done|].
  intros a al l x _ _ _. by rewrite (proj1 (same_tables_views _ _ Ht)).
Qed.

Lemma Allocate_blocks id n al zero_fill h m :
  is_u64 n -> is_u64 al -> blocks_ok id h m ->
  let '(h', m', _) := LibcHeap_Allocate id n al zero_fill h m in blocks_ok id h' m'.
Proof.
  intros Hn Hal Hb.
  pose proof (LibcHeap_AllocateLocked_spec id n al zero_fill h m (bo_memory _ _ _ Hb) Hn Hal) as Ha.
  unfold LibcHeap_Allocate. destruct (LibcHeap_AllocateLocked id n al zero_fill h m) as [[h' m'] [[st a] sz]].
  cbn zeta in Ha. destruct Ha as [Hk Hres]. destruct (status_eqb st kOk); [|subst; by eapply blocks_ok_keeps].
  destruct Hres as (A1 & A2 & A3 & A4 & A5 & A6 & -> & (l & Hpl) & _).
  apply (place_block id h m m' a sz l); try done; [|lia].
  subst sz. split_match; [u64_lia|done].
Qed.

Lemma Release_blocks id a h m :
  blocks_ok id h m -> let '(h', m', _) := LibcHeap_Release id a h m in blocks_ok id h' m'.
Proof.
  intros Hb. unfold LibcHeap_Release. destruct (a =? 0); [done|].
  destruct (om_find a (lh_allocations_ h)) as [al|] eqn:Ef; [|done].
  destruct (ha_memory al =? id) eqn:Ei; cbn [negb]; [|done].
  assert (Hat : block_at id h a al) by (split; [done|lia]).
  destruct (bo_live _ _ _ Hb a al Hat) as (l & Hl).
  pose proof (unmap_block id h m a al l Hb Hat Hl) as Hu.
  destruct (Unmap a (ha_size al) m) as [m' ok]. destruct Hu as (_ & _ & _ & _ & _ & Hb').
  by destruct ok.
Qed.

(** The middle of a reallocation: the new block exists and the old contents are
    in it. *)
Lemma move_contents id h m a al l n h1 m1 a' l' :
  blocks_ok id h m -> block_at id h a al -> live_block m a al l ->
  placed a' n l' m m1 -> 0 < a' -> blocks_ok id h1 m1 ->
  let copy_size := Z.min (ha_size al) n in
  let '(m2, copied) := heap_copy a a' copy_size m1 in
  copied = true /\ blocks_ok id h1 m2 /\ same_shape m m2 /\
  (forall x, prot_view m2 x = prot_view m1 x) /\ live_block m2 a al l /\
  (forall i, 0 <= i < copy_size -> guest_byte m2 (a' + i) = guest_byte m (a + i)) /\
  (forall x p, prot_view m x = Some p -> guest_byte m2 x = guest_byte m x).
Proof.
  intros Hb Hat Hl Hpl Ha' Hb1 copy_size. pose proof Hpl as [P1 P2 P3 P4 P5 [K1 K2 K3 K4]].
  pose proof (bo_memory _ _ _ Hb) as Hm. pose proof (live_block_length _ _ _ _ Hm Hl) as Hlen.
  pose proof (lb_size _ _ _ _ Hl) as Hsz. pose proof (lb_address _ _ _ _ Hl) as Had.
  assert (Hold : forall x, in_range a copy_size x -> prot_view m x = Some heap_protection).
  { intros x Hx. apply (lb_mapped _ _ _ _ Hl). unfold in_range, copy_size in *. lia. }
  pose proof (heap_copy_spec a a' copy_size m1 K1 ltac:(lia) ltac:(lia) ltac:(unfold copy_size; lia)) as Hc.
  destruct (heap_copy a a' copy_size m1) as [m2 copied].
  destruct Hc as (-> & C1 & C2 & C3 & C4 & C5).
  { intros x Hx. exists heap_protection. split; [by apply K3, Hold|done]. }
  { eapply accessible_sub; [apply (placed_accessible _ _ _ _ _ kWrite Hpl); by right|lia|unfold copy_size; lia]. }
  { intros x Hx. assert (Hin : in_range a' l' x) by (unfold in_range, copy_size in *; lia).
    split; [by eapply placed_private|]. intros Hs. apply P3 in Hin. by rewrite Hold in Hin. }
  pose proof (same_tables_views _ _ C3) as [Hv _].
  assert (Hs2 : same_shape m m2) by (destruct K2, C2; split; congruence).
  split_and!; try done.
  - by apply (blocks_ok_tables id h1 m1).
  - apply (live_block_keep m); [done|done|]. intros x Hx. rewrite Hv.
    pose proof (lb_mapped _ _ _ _ Hl x Hx) as Hmx. by rewrite (K3 x _ Hmx), Hmx.
  - intros i Hi. rewrite C4 by done. apply (K4 _ heap_protection), Hold. unfold in_range. lia.
  - intros x p Hx. rewrite C5; [by eapply K4| |].
    + apply (prot_view_window m1 x p K1). by apply K3.
    + intros Hin. rewrite P3 in Hx; [done|]. unfold in_range, copy_size in *. lia.
Qed.

(** What a successful reallocation promises about the memory. *)
Record moved_block (id a a' n : Z) (al : HeapAllocation) (l l' : Z) h' m m' : Prop := {
  mb_gone : om_find a (lh_allocations_ h') = None;
  mb_block : block_at id h' a' (mkHeapAllocation id n (ha_alignment al));
  mb_fresh : forall x, in_range a' l' x -> prot_view m x = None;
  mb_contents : forall i, 0 <= i < Z.min (ha_size al) n -> guest_byte m' (a' + i) = guest_byte m (a + i);
  mb_others : forall x p, prot_view m x = Some p -> ~ in_range a l x ->
    prot_view m' x = Some p /\ guest_byte m' x = guest_byte m x
}.

Lemma finish_move id h h1 m m1 m2 m3 a a' n al l l' :
  blocks_ok id h m -> live_block m a al l -> placed a' n l' m m1 -> a' <> a ->
  block_at id h1 a' (mkHeapAllocation id n (ha_alignment al)) -> same_shape m m2 ->
  (forall x, prot_view m2 x = prot_view m1 x) ->
  (forall i, 0 <= i < Z.min (ha_size al) n -> guest_byte m2 (a' + i) = guest_byte m (a + i)) ->
  (forall x p, prot_view m x = Some p -> guest_byte m2 x = guest_byte m x) ->
  (forall x, base_address_ m2 <= x -> ~ in_range a l x -> guest_byte m3 x = guest_byte m2 x) ->
  (forall x, prot_view m3 x = if decide (true = true /\ in_range a l x) then None else prot_view m2 x) ->
  moved_block id a a' n al l l' (with_lh_allocations h1 (om_erase a (lh_allocations_ h1))) m m3.
Proof.
  intros Hb Hl [P1 P2 P3 P4 P5 [K1 K2 K3 K4]] Hne [Hat Hid] S2 V2 C2 O2 U4 U5.
  rewrite (sh_base _ _ S2) in U4. split; simpl.
  - by rewrite om_find_erase, decide_True.
  - split; [|done]. simpl. by rewrite om_find_erase, decide_False.
  - done.
  - intros i Hi. rewrite U4; [by apply C2|lia|]. intros Hin.
    pose proof (lb_mapped _ _ _ _ Hl _ Hin) as Hx. rewrite P3 in Hx; [done|]. unfold in_range. lia.
  - intros x p Hx Hout. rewrite U5, decide_False by (by intros [_ ?]). rewrite V2.
    split; [by apply K3|]. rewrite U4; [by eapply O2| |done].
    apply (prot_view_window m x p (bo_memory _ _ _ Hb) Hx).
Qed.

Lemma Reallocate_moves id a n al l h m :
  blocks_ok id h m -> block_at id h a al -> live_block m a al l -> is_u64 n -> 0 < n ->
  let '(h', m', (st, a', n')) := LibcHeap_Reallocate id a n h m in
  blocks_ok id h' m' /\
  if status_eqb st kOk then n' = n /\ exists l',
    live_block m' a' (mkHeapAllocation id n (ha_alignment al)) l' /\ moved_block id a a' n al l l' h' m m'
  else host_mapped m = false -> h' = h /\ keeps m m'.
Proof.
  intros Hb Hat Hl Hn H0. pose proof Hat as [Hf Hid]. pose proof (bo_memory _ _ _ Hb) as Hm.
  pose proof Hl as [L1 L2 (L3 & L4 & L5 & L6) L7 L8]. unfold LibcHeap_Reallocate.
  replace (a =? 0) with false by lia. replace (n =? 0) with false by lia. rewrite Hf.
  replace (ha_memory al =? id) with true by lia. cbn [negb].
  pose proof (LibcHeap_AllocateLocked_spec id n (ha_alignment al) false h m Hm Hn L3) as Ha.
  destruct (LibcHeap_AllocateLocked id n (ha_alignment al) false h m) as [[h1 m1] [[st a'] n']].
  cbn zeta in Ha. destruct Ha as [Hk Hres]. destruct (status_eqb st kOk) eqn:Est; cbn [negb].
  2:{ subst h1. split; [by eapply blocks_ok_keeps|]. by rewrite Est. }
  rewrite Z.max_l in Hres by lia. replace (n =? 0) with false in Hres by lia.
  destruct Hres as (_ & _ & -> & A4 & A5 & A6 & Hh1 & (l' & Hpl) & _).
  assert (Hb1 : blocks_ok id h1 m1) by (rewrite Hh1; by apply (place_block id h m m1 a' n l')).
  assert (Hne : a' <> a) by congruence.
  assert (Hat1 : block_at id h1 a al).
  { split; [|done]. rewrite Hh1. simpl. rewrite om_find_emplace by (done || apply Hb).
    by rewrite decide_False by done. }
  assert (Hat1' : block_at id h1 a' (mkHeapAllocation id n (ha_alignment al))).
  { split; [|done]. rewrite Hh1. simpl. rewrite om_find_emplace by (done || apply Hb).
    by rewrite decide_True by done. }
  pose proof (move_contents id h m a al l n h1 m1 a' l' Hb Hat Hl Hpl ltac:(lia) Hb1) as Hmove.
  cbn zeta in Hmove. destruct (heap_copy a a' (Z.min (ha_size al) n) m1) as [m2 copied].
  destruct Hmove as (-> & Hb2 & S2 & V2 & Hl2 & C2 & O2). cbn [negb].
  pose proof (unmap_block id h1 m2 a al l Hb2 Hat1 Hl2) as Hu.
  destruct (Unmap a (ha_size al) m2) as [m3 unmapped]. destruct Hu as (U1 & U2 & U3 & U4 & U5 & Hb3).
  destruct unmapped; cbn [negb].
  - split; [done|]. rewrite Est. split; [done|].
    destruct (bo_live _ _ _ Hb3 a' (mkHeapAllocation id n (ha_alignment al))) as (l2 & Hl3).
    { split; [|done]. simpl. rewrite om_find_erase, decide_False by done. apply Hat1'. }
    assert (l2 = l') as ->.
    { pose proof (lb_length _ _ _ _ Hl3) as E3. simpl in E3.
      rewrite (effective_length_shape _ _ _ _ U3), (effective_length_shape _ _ _ _ S2),
        (pl_length _ _ _ _ _ Hpl) in E3. congruence. }
    exists l'. split; [done|]. by apply (finish_move id h h1 m m1 m2).
  - split; [|intros Hh; rewrite <- (sh_host _ _ S2) in Hh; by apply U1 in Hh].
    destruct (bo_live _ _ _ Hb3 _ _ Hat1') as (l2 & Hl3).
    pose proof (unmap_block id h1 m3 a' _ l2 Hb3 Hat1' Hl3) as Hu. cbn [ha_size] in Hu.
    destruct (Unmap a' n m3) as [m4 ok]. destruct Hu as (_ & _ & _ & _ & _ & Hb4). cbn [fst].
    destruct ok; [done|by apply drop_block].
Qed.

Lemma Reallocate_blocks id a n h m :
  is_u64 n -> blocks_ok id h m ->
  let '(h', m', _) := LibcHeap_Reallocate id a n h m in blocks_ok id h' m'.
Proof.
  intros Hn Hb. destruct (om_find a (lh_allocations_ h)) as [al|] eqn:Ef.
  - destruct (decide (ha_memory al = id /\ 0 < n)) as [[Hid H0]|Hno].
    + assert (Hat : block_at id h a al) by done. destruct (bo_live _ _ _ Hb a al Hat) as (l & Hl).
      pose proof (Reallocate_moves id a n al l h m Hb Hat Hl Hn H0) as Hr.
      destruct (LibcHeap_Reallocate id a n h m) as [[h' m'] [[st a'] n']]. apply Hr.
    + unfold LibcHeap_Reallocate. destruct (a =? 0); [by apply Allocate_blocks|].
      destruct (n =? 0) eqn:E0.
      * pose proof (Release_blocks id a h m Hb) as Hr. by destruct (LibcHeap_Release id a h m) as [[h1 m1] st].
      * rewrite Ef. replace (ha_memory al =? id) with false; [done|]. unfold is_u64 in Hn. lia.
  - unfold LibcHeap_Reallocate. destruct (a =? 0); [by apply Allocate_blocks|]. rewrite Ef.
    destruct (n =? 0); [|done].
    pose proof (Release_blocks id a h m Hb) as Hr. by destruct (LibcHeap_Release id a h m) as [[h1 m1] st].
Qed.
End blocks.

(** ** Runs *)

(** The calls for other memories share the table of blocks, keyed by address
    alone; they leave the blocks of this memory alone. *)
Record other_memory id h h' : Prop := {
  om_still_sorted : om_sorted (lh_allocations_ h) -> om_sorted (lh_allocations_ h');
  om_same_blocks : om_sorted (lh_allocations_ h) ->
    forall a al, block_at id h' a al <-> block_at id h a al
}.

Lemma other_memory_refl id h : other_memory id h h.
Proof. by split. Qed.

Lemma other_memory_trans id h h1 h2 :
  other_memory id h h1 -> other_memory id h1 h2 -> other_memory id h h2.
Proof.
  intros [A1 A2] [B1 B2]. split; [auto|]. intros Hs a al. rewrite (B2 (A1 Hs)). by apply A2.
Qed.

Lemma other_erase id h a :
  (forall al, om_find a (lh_allocations_ h) = Some al -> ha_memory al <> id) ->
  other_memory id h (with_lh_allocations h (om_erase a (lh_allocations_ h))).
Proof.
  intros Hother. split; [apply om_erase_sorted|]. intros _ x xl. unfold block_at. simpl.
  rewrite om_find_erase. case_decide as Hx; [|done]. subst x. naive_solver.
Qed.

Section runs.
Context `{HostMemory}.

(** Allocation for another memory adds at most one block of that memory. *)
Lemma Allocate_other id id' n al zero_fill h m :
  id' <> id ->
  let '(h', _, (st, a, _)) := LibcHeap_Allocate id' n al zero_fill h m in
  other_memory id h h' /\
  forall b, om_find a (lh_allocations_ h') = Some b -> status_eqb st kOk = true ->
    om_sorted (lh_allocations_ h) -> ha_memory b <> id.
Proof.
  intros Hne. unfold LibcHeap_Allocate, LibcHeap_AllocateLocked.
  split_match; [split; [apply other_memory_refl|done]|].
  destruct (_ || _); [split; [apply other_memory_refl|done]|].
  destruct (FindUnmappedRange _ _ _ _) as [a|]; [|split; [apply other_memory_refl|done]].
  destruct (Map _ _ _ _) as [m1 mapped]. destruct mapped; cbn [negb]; [|split; [apply other_memory_refl|done]].
  destruct (if zero_fill then _ else _) as [m2 filled].
  destruct filled; cbn [negb]; [|split; [apply other_memory_refl|done]].
  destruct (om_find a (lh_allocations_ h)) as [b|] eqn:Ef; [split; [apply other_memory_refl|done]|].
  split.
  - split; [apply om_emplace_sorted|]. intros Hs x xl. unfold block_at. simpl.
    rewrite om_find_emplace by done. case_decide; [|done]. subst. rewrite Ef. naive_solver.
  - intros b Hb _ Hs. simpl in Hb. rewrite om_find_emplace, decide_True in Hb by done.
    by injection Hb as <-.
Qed.

Lemma Release_other id id' a h m : id' <> id -> other_memory id h (LibcHeap_Release id' a h m).1.1.
Proof.
  intros Hne. unfold LibcHeap_Release. destruct (a =? 0); [apply other_memory_refl|].
  destruct (om_find a (lh_allocations_ h)) as [al|] eqn:Ef; [|apply other_memory_refl].
  destruct (ha_memory al =? id') eqn:Ei; cbn [negb]; [|apply other_memory_refl].
  destruct (Unmap _ _ _) as [m1 ok]. destruct ok; cbn [negb fst]; [|apply other_memory_refl].
  apply other_erase. intros b Hb. assert (b = al) by congruence. subst. lia.
Qed.

Lemma Reallocate_other id id' a n h m :
  id' <> id -> om_sorted (lh_allocations_ h) -> other_memory id h (LibcHeap_Reallocate id' a n h m).1.1.
Proof.
  intros Hne Hs. unfold LibcHeap_Reallocate. destruct (a =? 0).
  { pose proof (Allocate_other id id' n kDefaultLibcHeapAlignment false h m Hne) as Ha.
    destruct (LibcHeap_Allocate _ _ _ _ _ _) as [[h' m'] [[st b] sz]]. apply Ha. }
  destruct (n =? 0).
  { pose proof (Release_other id id' a h m Hne) as Hr.
    by destruct (LibcHeap_Release id' a h m) as [[h1 m1] st]. }
  destruct (om_find a (lh_allocations_ h)) as [al|] eqn:Ef; [|apply other_memory_refl].
  destruct (ha_memory al =? id') eqn:Ei; cbn [negb]; [|apply other_memory_refl].
  pose proof (Allocate_other id id' n (ha_alignment al) false h m Hne) as Ha. unfold LibcHeap_Allocate in Ha.
  destruct (LibcHeap_AllocateLocked _ _ _ _ _ _) as [[h1 m1] [[st b] sz]]. destruct Ha as [Ha Hnew].
  destruct (status_eqb st kOk); cbn [negb fst]; [|done].
  assert (Hundo : other_memory id h (with_lh_allocations h1 (om_erase b (lh_allocations_ h1)))).
  { eapply other_memory_trans; [exact Ha|]. apply other_erase. intros x Hx. by apply (Hnew x). }
  destruct (heap_copy _ _ _ _) as [m2 copied]. destruct copied; cbn [negb fst]; [|done].
  destruct (Unmap _ _ _) as [m3 ok]. destruct ok; cbn [negb fst]; [|done].
  eapply other_memory_trans; [exact Ha|]. apply other_erase. intros x Hx Hid.
  assert (Hat : block_at id h1 a x) by done. apply (om_same_blocks _ _ _ Ha Hs) in Hat as [Hf _].
  assert (x = al) by congruence. subst. lia.
Qed.

(** The guest window [a, a + length), page-rounded, touches no block. *)
Definition clear_of_blocks id h m (a length : Z) : Prop :=
  forall l b al lb x, effective_length a length m = Some l -> block_at id h b al ->
    live_block m b al lb -> in_range a l x -> ~ in_range b lb x.

(** Calls of the heap for this memory and for others, and what the guest may do
    to the memory besides: store, copy or initialize anywhere, map more memory,
    private or shared, and protect or unmap windows that hold no block.  The
    program does not stop the guest from unmapping a block; the condition is the
    guest's side of the contract. *)
Inductive malloc_step id : LibcHeapService * GuestMemory -> LibcHeapService * GuestMemory -> Prop :=
| ml_allocate n al zero h m : is_u64 n -> is_u64 al ->
    malloc_step id (h, m) (LibcHeap_Allocate id n al zero h m).1
| ml_release a h m : malloc_step id (h, m) (LibcHeap_Release id a h m).1
| ml_reallocate a n h m : is_u64 n -> malloc_step id (h, m) (LibcHeap_Reallocate id a n h m).1
| ml_other_allocate id' n al zero h m m2 : id' <> id ->
    malloc_step id (h, m) ((LibcHeap_Allocate id' n al zero h m2).1.1, m)
| ml_other_release id' a h m m2 : id' <> id ->
    malloc_step id (h, m) ((LibcHeap_Release id' a h m2).1.1, m)
| ml_other_reallocate id' a n h m m2 : id' <> id ->
    malloc_step id (h, m) ((LibcHeap_Reallocate id' a n h m2).1.1, m)
| ml_write a source h m : is_u64 a -> malloc_step id (h, m) (h, (Write a source m).1)
| ml_fill a l v h m : is_u64 a -> is_u64 l -> malloc_step id (h, m) (h, (Fill a l v m).1)
| ml_copy dst src l h m : is_u64 dst -> is_u64 src -> is_u64 l ->
    malloc_step id (h, m) (h, (Copy dst src l m).1)
| ml_initialize a source h m : is_u64 a -> malloc_step id (h, m) (h, (Initialize a source m).1)
| ml_initialize_fill a l v h m : is_u64 a -> is_u64 l ->
    malloc_step id (h, m) (h, (InitializeFill a l v m).1)
| ml_attach ref b h m : backings m !! ref = None -> backing_ok b ->
    malloc_step id (h, m) (h, with_backing m ref b)
| ml_map a l p h m : is_u64 a -> is_u64 l -> malloc_step id (h, m) (h, (Map a l p m).1)
| ml_map_shared a l p ref off h m : is_u64 a -> is_u64 l -> is_u64 off ->
    malloc_step id (h, m) (h, (MapShared a l p ref off m).1)
| ml_protect a l p h m : is_u64 a -> is_u64 l -> clear_of_blocks id h m a l ->
    malloc_step id (h, m) (h, (Protect a l p m).1)
| ml_unmap a l h m : is_u64 a -> is_u64 l -> clear_of_blocks id h m a l ->
    malloc_step id (h, m) (h, (Unmap a l m).1).

Lemma other_memory_ok id h h' m : blocks_ok id h m -> other_memory id h h' -> blocks_ok id h' m.
Proof.
  intros Hb [O1 O2]. apply (blocks_ok_mono id h h' m m); [done|apply Hb|done|apply O1, Hb| |done].
  intros a al. apply O2, Hb.
Qed.

(** A guest operation that keeps the protection of every block. *)
Lemma guest_step_ok id h m m' :
  blocks_ok id h m -> gm_ok m' -> same_shape m m' ->
  (forall a al l x, block_at id h a al -> live_block m a al l -> in_range a l x ->
     prot_view m' x = prot_view m x) ->
  blocks_ok id h m'.
Proof. intros Hb Hm Hs Hp. by apply (blocks_ok_mono id h h m m'); [| | |apply Hb| |]. Qed.

Lemma malloc_window_step id h m a length (f : GuestMemory -> GuestMemory * bool) :
  blocks_ok id h m -> clear_of_blocks id h m a length ->
  (let '(m', ok) := f m in gm_ok m' /\ same_shape m m' /\
   if ok then exists l v, effective_length a length m = Some l /\
     (forall x, prot_view m' x = if decide (in_range a l x) then v else prot_view m x)
   else forall x, prot_view m' x = prot_view m x) ->
  blocks_ok id h (f m).1.
Proof.
  intros Hb Hclear Hf. destruct (f m) as [m' ok]. destruct Hf as (F1 & F2 & F3).
  apply (guest_step_ok id h m m' Hb F1 F2). intros b al l x Hat Hl Hx. destruct ok; [|by rewrite F3].
  destruct F3 as (l' & v & El & ->). rewrite decide_False; [done|]. intros Hin.
  by apply (Hclear l' b al l x).
Qed.

Lemma same_store_shape m m' : same_store m m' -> same_shape m m'.
Proof. intros [S1 S2 S3 S4 _ _]. by split. Qed.

(** Mapping more memory: the window was free, so no block is in it. *)
Lemma Map_keeps a length protection m :
  gm_ok m -> is_u64 a -> is_u64 length -> keeps m (Map a length protection m).1.
Proof.
  intros Hm Ha Hl. pose proof (MapLocked_spec a length protection m Hm Ha Hl) as Hmap.
  pose proof (Map_bytes a length protection m Hm Ha Hl) as Hby. unfold Map in *.
  destruct (MapLocked a length protection m) as [m' ok]. cbn [fst] in *.
  destruct Hmap as (Hok & Hst & _ & Hres). split; [done|by apply same_store_shape| |by intros].
  intros x p Hx. destruct ok.
  - destruct Hres as (l & g & _ & _ & _ & Hl0 & Hfree & _ & _ & -> & _).
    apply free_window_iff in Hfree as (_ & _ & Hfree); [|done|done].
    rewrite decide_False; [done|]. intros Hin. by rewrite Hfree in Hx.
  - destruct Hres as [Ht _]. by rewrite (proj1 (same_tables_views _ _ Ht)).
Qed.

Lemma MapShared_blocks id h m a length protection ref off :
  blocks_ok id h m -> is_u64 a -> is_u64 length -> is_u64 off ->
  blocks_ok id h (MapShared a length protection ref off m).1.
Proof.
  intros Hb Ha Hl Ho. pose proof (bo_memory _ _ _ Hb) as Hm.
  pose proof (MapShared_spec a length protection ref off m Hm Ha Hl Ho) as Hmap.
  destruct (MapShared a length protection ref off m) as [m' ok]. cbn [fst].
  destruct Hmap as (Hok & Hst & Hres).
  apply (guest_step_ok id h m m' Hb Hok (same_store_shape _ _ Hst)). intros b al l x _ Hlive Hx.
  destruct ok; [|destruct Hres as [Ht _]; by rewrite (proj1 (same_tables_views _ _ Ht))].
  destruct Hres as (bk & g & _ & _ & Hh & Hl0 & _ & Hcan & _ & _ & -> & _).
  apply CanMapLocked_iff in Hcan as (_ & l' & El & _ & _ & Hfree); [|done|done|done].
  rewrite decide_False; [done|]. intros Hin.
  unfold effective_length in El. rewrite Hh in El. injection El as <-.
  pose proof (lb_mapped _ _ _ _ Hlive x Hx) as Hmx. by rewrite (Hfree x Hin) in Hmx.
Qed.

Lemma initializes_blocks id h m d a length result :
  blocks_ok id h m -> initializes d m a length result -> blocks_ok id h result.1.
Proof.
  intros Hb Hi. unfold initializes in Hi. destruct (IsMappedLocked a length m); [|by subst].
  destruct Hi as (n & _ & _ & _ & G1 & G2 & G3 & _). by apply (blocks_ok_tables id h m).
Qed.

Lemma writes_blocks id h m d a length result :
  blocks_ok id h m -> writes d m a length result -> blocks_ok id h result.1.
Proof.
  intros Hb [_ Hres]. destruct result.2; [|by rewrite Hres].
  destruct Hres as (G1 & G2 & G3 & _). by apply (blocks_ok_tables id h m).
Qed.

Lemma malloc_step_ok id s s' : malloc_step id s s' -> blocks_ok id s.1 s.2 -> blocks_ok id s'.1 s'.2.
Proof.
  destruct 1 as [n al zero h m Hn Hal|a h m|a n h m Hn|id' n al zero h m m2 Hne|id' a h m m2 Hne
    |id' a n h m m2 Hne|a source h m Ha|a l v h m Ha [Hl _]|dst src l h m Hd Hs [Hl _]|a source h m Ha
    |a l v h m Ha [Hl _]|ref b h m Hr Hbk|a l p h m Ha Hl|a l p ref off h m Ha Hl Ho|a l p h m Ha Hl Hc|a l h m Ha Hl Hc]; cbn [fst snd]; intros Hb; pose proof (bo_memory _ _ _ Hb) as Hm.
  - pose proof (Allocate_blocks id n al zero h m Hn Hal Hb) as Hr.
    by destruct (LibcHeap_Allocate id n al zero h m) as [[h' m'] r].
  - pose proof (Release_blocks id a h m Hb) as Hr. by destruct (LibcHeap_Release id a h m) as [[h' m'] r].
  - pose proof (Reallocate_blocks id a n h m Hn Hb) as Hr.
    by destruct (LibcHeap_Reallocate id a n h m) as [[h' m'] r].
  - apply (other_memory_ok id h); [done|]. pose proof (Allocate_other id id' n al zero h m2 Hne) as Hr.
    destruct (LibcHeap_Allocate id' n al zero h m2) as [[h' m'] [[st b] sz]]. apply Hr.
  - apply (other_memory_ok id h); [done|by apply Release_other].
  - apply (other_memory_ok id h); [done|apply Reallocate_other; [done|apply Hb]].
  - by eapply writes_blocks, Write_spec.
  - by eapply writes_blocks, Fill_spec.
  - pose proof (Copy_spec dst src l m Hm Hd Hs Hl) as Hcopy. destruct (Copy dst src l m) as [m' ok].
    destruct Hcopy as (_ & G1 & G2 & G3 & _). by apply (blocks_ok_tables id h m).
  - by eapply initializes_blocks, Initialize_spec.
  - by eapply initializes_blocks, InitializeFill_spec.
  - apply (blocks_ok_tables id h m); [done| |done|done]. by apply (step_spec m); [|apply gs_attach].
  - by eapply blocks_ok_keeps, Map_keeps.
  - by apply MapShared_blocks.
  - apply (malloc_window_step id h m a l (Protect a l p) Hb Hc).
    pose proof (Protect_spec a l p m Hm Ha Hl) as Hp. destruct (Protect a l p m) as [m' ok].
    destruct Hp as (P1 & P2 & _ & _ & _ & Hres). split; [done|]. split; [by apply same_store_shape|].
    destruct ok; [|by apply same_tables_views]. destruct Hres as (l' & El & _ & _ & _ & Hv).
    by exists l', (Some p).
  - apply (malloc_window_step id h m a l (Unmap a l) Hb Hc).
    pose proof (Unmap_spec a l m Hm Ha Hl) as Hu. destruct (Unmap a l m) as [m' ok].
    destruct Hu as (U1 & U2 & _ & _ & Hres). split; [done|]. split; [done|].
    destruct ok; [|by apply same_tables_views]. destruct Hres as (l' & El & _ & _ & _ & Hv & _).
    by exists l', None.
Qed.

(** The guest unmaps (part of) a block that the heap still records. *)
Lemma Unmap_breaks id h m a length l b al lb x :
  gm_ok m -> is_u64 a -> is_u64 length -> (Unmap a length m).2 = true ->
  effective_length a length m = Some l -> in_range a l x ->
  block_at id h b al -> live_block m b al lb -> in_range b lb x ->
  ~ blocks_ok id h (Unmap a length m).1.
Proof.
  intros Hm Ha Hl Hok El Hx Hat Hlive Hxb Hb. pose proof (Unmap_spec a length m Hm Ha Hl) as Hu.
  destruct (Unmap a length m) as [m' ok]. cbn [fst snd] in *. subst ok.
  destruct Hu as (_ & Hs & _ & _ & l' & El' & _ & _ & _ & Hp & _). rewrite El in El'. injection El' as <-.
  destruct (bo_live _ _ _ Hb b al Hat) as (lb' & Hlive').
  assert (lb = lb') as <- by (by apply (live_block_lengths m m' b al)).
  pose proof (lb_mapped _ _ _ _ Hlive' x Hxb) as Hmx. by rewrite Hp, decide_True in Hmx.
Qed.

Lemma blocks_init id m : gm_ok m -> blocks_ok id LibcHeapService_init m.
Proof. intros Hm. split; [done|apply om_sorted_nil|by intros a al [? _]|by intros a1 al1 l1 a2 al2 l2 [? _]]. Qed.

(** C19: the [malloc] heap of a memory keeps its blocks apart and accessible, as
    long as the guest protects and unmaps no window that holds a live block.
    Along every run of heap calls, calls for other memories that share the
    service's table, guest stores, copies and initializations, new private and
    shared mappings, and protections and unmappings of windows without a block:
    every recorded block has a non-zero address that is a multiple of its
    power-of-two alignment, its whole page-rounded window is mapped readable and
    writable, and the windows of two blocks never overlap.  The restriction is
    needed: a guest [Unmap] that succeeds on a window touching a block breaks the
    invariant, since the heap still records the block. *)
Theorem malloc_blocks_invariant id m0 h m :
  gm_created m0 -> rtc (malloc_step id) (LibcHeapService_init, m0) (h, m) ->
  blocks_ok id h m /\
  forall a length l b al lb x, is_u64 a -> is_u64 length -> (Unmap a length m).2 = true ->
    effective_length a length m = Some l -> in_range a l x ->
    block_at id h b al -> live_block m b al lb -> in_range b lb x ->
    ~ blocks_ok id h (Unmap a length m).1.
Proof.
  intros Hc Hr. enough (Hb : blocks_ok id (h, m).1 (h, m).2).
  { split; [done|]. intros a length l b al lb x. apply Unmap_breaks, Hb. }
  assert (Hi : blocks_ok id (LibcHeapService_init, m0).1 (LibcHeapService_init, m0).2)
    by (by apply blocks_init, created_ok).
  revert Hi. induction Hr as [|s1 s2 s3 Hs _ IH]; [done|]. intros Hi. by eapply IH, malloc_step_ok.
Qed.

(** C20: [Reallocate] moves a block without losing data.  On success the old block
    is gone, the new one has the requested size and the old alignment and lies
    in memory that was free, the first bytes (as many as both sizes have) are the
    old contents, and every other mapped address keeps its protection and byte.
    On a memory that is not host mapped a failure leaves the table of blocks and
    everything mapped as it was. *)
Theorem Reallocate_preserves_contents id a n al l h m :
  blocks_ok id h m -> block_at id h a al -> live_block m a al l -> is_u64 n -> 0 < n ->
  let '(h', m', (st, a', n')) := LibcHeap_Reallocate id a n h m in
  blocks_ok id h' m' /\
  if status_eqb st kOk then n' = n /\ exists l',
    live_block m' a' (mkHeapAllocation id n (ha_alignment al)) l' /\ moved_block id a a' n al l l' h' m m'
  else host_mapped m = false -> h' = h /\ keeps m m'.
Proof. apply Reallocate_moves. Qed.
End runs.
