(* ===== verification/Witnesses.v ===== *)
(** Concrete instances of the theorems: for each property with hypotheses, a
    small state of the program at which they all hold and the conclusion the
    property gives there. *)
From S2P Require Import Prelude Ranges OrderedMap WaitKeys HandleTable Objects.
From S2P Require Import Clock Scheduler SchedulerInv SchedulerProps WakeAll SemaphoreService.
From S2P Require Import EventFlagService CxaGuard EventQueues EventQueueProps SharedBacking.
From S2P Require Import FreeList DirectMemory GuestMemory GuestMemoryMap GuestMemoryOps.
From S2P Require Import GuestMemoryData GuestMemoryWrite GuestMemoryCopy GuestMemoryRuns GuestBlocks LibcHeap.
From S2P Require Import LibcHeapProps ResourceCoherence LittleEndian Ampr.

#[local] Existing Instance test_clock.

(** ** Kernel objects *)

Lemma wait_keys_injective_witness :
  key_string (SemaphoreKey 7) <> key_string (EventFlagKey 7).
Proof.
  intros Heq. apply (wait_keys_injective (SemaphoreKey 7) (EventFlagKey 7)) in Heq;
    [done|simpl; u64_lia|simpl; u64_lia].
Defined.

(** Two threads; the first is running. *)
Definition demo_ready : Kernel :=
  (CreateThread "b" 0 0 0 (CreateThread "a" 0 0 0 Kernel_init).1).1.
Definition demo_running : Kernel := (SelectNext demo_ready).1.

Lemma demo_ready_ok : kernel_ok demo_ready.
Proof. apply CreateThread_ok, CreateThread_ok, Kernel_init_ok. Qed.

Lemma demo_running_ok : kernel_ok demo_running.
Proof. apply SelectNext_ok, demo_ready_ok. Qed.

Lemma scheduler_reachable_invariant_witness : kernel_ok (CreateThread "a" 0 0 0 Kernel_init).1.
Proof.
  exact (scheduler_reachable_invariant _ (rtc_once _ _ (StepCreate "a" 0 0 0 Kernel_init))).
Defined.

Lemma round_robin_progress_witness : (SelectNext (round demo_ready)).2 = Some 2.
Proof. exact (round_robin_progress 1 demo_ready 2 demo_ready_ok eq_refl eq_refl). Defined.

(** Both threads blocked on one key, the second with a deadline. *)
Definition demo_blocked : Kernel :=
  (BlockCurrentUntil "key" 5 (SelectNext (BlockCurrent "key" demo_running).1).1).1.

Lemma demo_blocked_ok : kernel_ok demo_blocked.
Proof. apply BlockCurrentLocked_ok, SelectNext_ok, BlockCurrentLocked_ok, demo_running_ok. Qed.

Lemma WakeBlockedThreads_witness : (WakeBlockedThreads "key" 1 demo_blocked).2 <= 1.
Proof.
  pose proof (WakeBlockedThreads_spec "key" 1 demo_blocked demo_blocked_ok ltac:(done) ltac:(lia)) as Hw.
  cbn zeta in Hw. destruct (WakeBlockedThreads "key" 1 demo_blocked) as [k' n].
  exact (proj1 (proj2 Hw)).
Defined.

Lemma SelectNext_timeout_witness :
  exists t', om_find 2 (threads_ (scheduler_ (SelectNext demo_blocked).1)) = Some t' /\
    th_timed_out_wait_key t' = "key".
Proof.
  pose proof (SelectNext_timeout demo_blocked 2 _ demo_blocked_ok eq_refl eq_refl eq_refl) as Hw.
  cbn zeta in Hw. destruct (SelectNext demo_blocked) as [k' picked].
  destruct Hw as (t' & Hf & Hk & _). exists t'. split; [exact Hf|exact Hk].
Defined.

(** The second thread joins the first, which then runs again. *)
Definition demo_join : Kernel :=
  (SelectNext (JoinThread 1 (SelectNext (YieldCurrent demo_running).1).1).1).1.

Lemma demo_join_ok : kernel_ok demo_join.
Proof. apply SelectNext_ok, JoinThread_ok, SelectNext_ok, YieldCurrent_ok, demo_running_ok. Qed.

Lemma exit_join_protocol_witness :
  current_thread_ (scheduler_ demo_join) = Some 1 /\
  in_state (scheduler_ (ExitCurrent 42 demo_join).1) 2 kReady /\
  (JoinThread 1 (ExitCurrent 42 demo_join).1).2 = (kOk, 42).
Proof.
  destruct (exit_join_protocol 42 demo_join 1 demo_join_ok eq_refl) as (_ & Hwake & Hjoin).
  split; [reflexivity|split].
  - eapply Hwake; vm_compute; reflexivity.
  - rewrite (Hjoin _ (rtc_refl _ _)). reflexivity.
Defined.

(** ** Semaphores *)

(** A binary semaphore, handle 3, with no units, and a running thread. *)
Definition demo_sem : Kernel := (Semaphore_Create "s" kSemaphoreThreadFifo 0 1 demo_running).1.

Lemma demo_running_objects :
  objects_ (handles_ demo_running) = <[2 := OThread]> (<[1 := OThread]> ∅).
Proof. vm_compute. reflexivity. Qed.

Lemma demo_sem_ok : sem_kernel_ok demo_sem.
Proof.
  apply Semaphore_Create_ok; [vm_compute; congruence|]. split; [apply demo_running_ok|].
  intros h s. rewrite demo_running_objects, !lookup_insert, lookup_empty. by repeat case_decide.
Qed.

Lemma semaphore_conservation_witness :
  let '(k', log) := sem_run [SemSignal 3 1; SemWait 3 1; SemSignal 3 5; SemYield] demo_sem in
  sem_view k' 3 = Some (1, 0 + net_delta 3 log).
Proof.
  pose proof (semaphore_conservation [SemSignal 3 1; SemWait 3 1; SemSignal 3 5; SemYield] demo_sem
    3 1 0 demo_sem_ok ltac:(by repeat constructor) eq_refl ltac:(repeat constructor; simpl; tauto)) as Hw.
  destruct (sem_run _ _) as [k' log]. exact (proj1 Hw).
Defined.

(** The running thread waits on the semaphore. *)
Definition demo_sem_wait : Kernel := (Semaphore_Wait 3 1 demo_sem).1.

Lemma demo_sem_wait_ok : sem_kernel_ok demo_sem_wait.
Proof. apply Semaphore_Wait_ok, demo_sem_ok. Qed.

Lemma Signal_wakes_all_waiters_witness :
  in_state (scheduler_ (SemaphoreService_Signal 3 1 demo_sem_wait).1) 1 kReady.
Proof.
  pose proof (Signal_wakes_all_waiters 3 1 demo_sem_wait 1 0 demo_sem_wait_ok eq_refl) as Hw.
  cbn zeta in Hw. destruct (SemaphoreService_Signal 3 1 demo_sem_wait) as [k' st].
  destruct Hw as (_ & _ & _ & Hready & _). eapply Hready; vm_compute; reflexivity.
Defined.

Lemma Wait_acquires_or_blocks_witness :
  current_thread_ (scheduler_ (Semaphore_Wait 3 1 demo_sem).1) = None.
Proof.
  pose proof (Wait_acquires_or_blocks 3 1 demo_sem 1 0 demo_sem_ok eq_refl ltac:(lia)) as Hw.
  destruct (Semaphore_Wait 3 1 demo_sem) as [k' [st remaining]].
  destruct Hw as (_ & _ & Hw). exact (proj1 (proj2 Hw)).
Defined.

(** ** Event flags *)

Lemma event_flag_encodings_exact_witness : DecodeWaitMode 0x11 = Some (kWaitAll, kClearAll).
Proof.
  destruct (event_flag_encodings_exact 0x11 ltac:(lia)) as [Hmode _].
  apply (Hmode kWaitAll kClearAll). reflexivity.
Defined.

(** An event flag, handle 3, with bit 0 set, and a running thread. *)
Definition demo_flag : Kernel := (EventFlag_Create "f" kEventFlagThreadFifo 1 demo_running).1.

Lemma demo_flag_ok : kernel_ok demo_flag.
Proof. apply EventFlag_Create_ok, demo_running_ok. Qed.

Lemma EventFlag_Wait_semantics_witness :
  let '(k', (st, observed)) := EventFlagService_Wait 3 2 0x01 demo_flag in observed = 1.
Proof.
  pose proof (EventFlag_Wait_semantics 3 2 0x01 demo_flag 1 kWaitAll kClearNone demo_flag_ok
    eq_refl ltac:(lia) eq_refl) as Hw.
  destruct (EventFlagService_Wait 3 2 0x01 demo_flag) as [k' [st observed]]. exact (proj1 Hw).
Defined.

(** The running thread waits for bit 1. *)
Definition demo_flag_wait : Kernel := (EventFlagService_Wait 3 2 0x01 demo_flag).1.

Lemma EventFlag_Set_wakes_all_witness :
  flag_view (EventFlagService_Set 3 2 demo_flag_wait).1 3 = Some 3 /\
  in_state (scheduler_ (EventFlagService_Set 3 2 demo_flag_wait).1) 1 kReady.
Proof.
  pose proof (EventFlag_Set_wakes_all 3 2 demo_flag_wait 1
    (EventFlagService_Wait_ok 3 2 0x01 demo_flag demo_flag_ok) eq_refl) as Hw.
  cbn zeta in Hw. destruct (EventFlagService_Set 3 2 demo_flag_wait) as [k' st].
  destruct Hw as (_ & Hview & _ & _ & Hready & _). split; [exact Hview|].
  eapply Hready; vm_compute; reflexivity.
Defined.

(** ** Static initialisation guards *)

Definition demo_guards : CxaGuardService := mkCxaGuards [] demo_running.

Lemma demo_guards_ok : cxa_ok demo_guards.
Proof. split; [apply demo_running_ok|apply om_sorted_nil]. Qed.

Lemma cxa_guard_mutual_exclusion_witness :
  let '(g', log) := cxa_run [CxaYield; CxaSelect; CxaAcquire 64 false; CxaSelect]
    (CxaGuard_Acquire 64 false demo_guards).1 in
  om_find 64 (owners_ g') = Some 1.
Proof.
  pose proof (cxa_guard_mutual_exclusion [CxaYield; CxaSelect; CxaAcquire 64 false; CxaSelect]
    demo_guards 64 1 demo_guards_ok eq_refl eq_refl) as Hw.
  vm_compute in Hw. vm_compute. apply Hw.
  repeat constructor; intros [_ [Hop|Hop]]; discriminate Hop.
Defined.

(** The first thread owns guard 64 and the second is running. *)
Definition demo_contended : CxaGuardService :=
  (cxa_step CxaSelect (cxa_step CxaYield (cxa_step (CxaAcquire 64 false) demo_guards).1).1).1.

Lemma demo_contended_ok : cxa_ok demo_contended.
Proof. do 3 apply cxa_step_ok. apply demo_guards_ok. Qed.

Lemma cxa_guard_handover_witness :
  CxaGuard_Complete 64 demo_contended = (demo_contended, kPermissionDenied).
Proof.
  pose proof (cxa_guard_handover demo_contended 64 1 2 demo_contended_ok ltac:(lia) eq_refl eq_refl) as Hw.
  cbn zeta in Hw. destruct (decide (2 = 1)) as [Hd|Hd]; [discriminate Hd|]. exact (proj1 Hw).
Defined.

(** ** Event queues *)

Lemma event_queue_reachable_witness :
  eq_ok (EventQueue_AddUserEvent (EventQueue_init "q") 1 false).1.
Proof.
  exact (proj1 (event_queue_reachable "q" _ (rtc_once _ _ (EqAddUser (EventQueue_init "q") 1 false)))).
Defined.

Definition demo_registered : EventQueue := (EventQueue_AddUserEvent (EventQueue_init "q") 1 false).1.

(** The event of a registration that is then replaced. *)
Lemma stale_events_stay_stale_witness :
  EventQueue_IsCurrent
    (EventQueue_AddUserEvent (EventQueue_DeleteUserEvent demo_registered 1).1 1 false).1
    (mkRegisteredKernelEvent (mkKernelEvent 1 kEventFilterUser 0 0 0 0) 1 false) = false.
Proof.
  assert (Hok : eq_ok (EventQueue_DeleteUserEvent demo_registered 1).1).
  { apply (eq_step_ok demo_registered); [apply EqDeleteUser|].
    apply (eq_step_ok (EventQueue_init "q")); [apply EqAddUser|apply eq_init_ok]. }
  refine (stale_events_stay_stale _ _ _ Hok _ _ (rtc_once _ _ (EqAddUser _ 1 false))).
  - vm_compute. split; [discriminate|reflexivity].
  - vm_compute. reflexivity.
Defined.

Definition demo_service : EventQueueService := with_eqs_kernel EventQueueService_init demo_running.

Lemma demo_service_ok : eqs_ok demo_service.
Proof.
  refine (eqs_step_ok (with_eqs_kernel EventQueueService_init demo_ready) demo_service _ _).
  { exact (SSched demo_running (with_eqs_kernel EventQueueService_init demo_ready) (StepSelect demo_ready)). }
  refine (eqs_step_ok
    (with_eqs_kernel EventQueueService_init (CreateThread "a" 0 0 0 Kernel_init).1) _ _ _).
  { exact (SSched demo_ready (with_eqs_kernel EventQueueService_init (CreateThread "a" 0 0 0 Kernel_init).1)
      (StepCreate "b" 0 0 0 _)). }
  refine (eqs_step_ok EventQueueService_init _ _ EventQueueService_init_ok).
  exact (SSched _ EventQueueService_init (StepCreate "a" 0 0 0 Kernel_init)).
Qed.

Lemma event_queue_service_invariant_witness : eqs_ok (EventQueue_Create "q" EventQueueService_init).1.
Proof.
  exact (event_queue_service_invariant _ (rtc_once _ _ (SCreate "q" EventQueueService_init))).
Defined.

(** A queue, handle 3, with user event 7 registered. *)
Definition demo_queue : EventQueueService :=
  (EQS_AddUserEvent 3 7 true (EventQueue_Create "q" demo_service).1).1.

Lemma demo_queue_ok : eqs_ok demo_queue.
Proof.
  apply (eqs_step_ok (EventQueue_Create "q" demo_service).1); [apply SAddUser|].
  apply (eqs_step_ok demo_service); [apply SCreate|apply demo_service_ok].
Qed.

Lemma Wait_parks_with_deadline_witness :
  current_thread_ (scheduler_ (eqs_kernel (EQS_Wait 3 4 (Some 9) demo_queue).1)) = None.
Proof.
  pose proof (Wait_parks_with_deadline 3 4 (Some 9) 1 demo_queue _ demo_queue_ok eq_refl eq_refl
    eq_refl eq_refl ltac:(lia) ltac:(intros t [= <-]; u64_lia)) as Hw.
  cbn zeta in Hw. destruct (EQS_Wait 3 4 (Some 9) demo_queue) as [s' r].
  destruct (decide (Some 9 = Some 0)) as [Hd|Hd]; [discriminate Hd|].
  exact (proj1 (proj2 (proj2 Hw))).
Defined.

(** The running thread waits on the queue without a deadline. *)
Definition demo_waiting : EventQueueService := (EQS_Wait 3 4 None demo_queue).1.

Lemma demo_waiting_ok : eqs_ok demo_waiting.
Proof. apply EQS_Wait_ok; [lia|apply demo_queue_ok]. Qed.

Lemma trigger_serves_waiters_witness :
  (EQS_TriggerUserEvent 3 7 55 demo_waiting).2 = kOk.
Proof.
  pose proof (trigger_serves_waiters 3 7 55 demo_waiting _ _ demo_waiting_ok eq_refl eq_refl) as Hw.
  cbn zeta in Hw. destruct (EQS_TriggerUserEvent 3 7 55 demo_waiting) as [s' st]. exact (proj1 Hw).
Defined.

Lemma Delete_completes_waiters_witness :
  om_find 1 (waiters_ (EventQueue_Delete 3 demo_waiting).1) = Some (mkWaiter 3 4 None kDeleted []).
Proof.
  pose proof (Delete_completes_waiters 3 demo_waiting _ demo_waiting_ok eq_refl) as Hw.
  destruct (EventQueue_Delete 3 demo_waiting) as [s' st]. destruct Hw as (_ & _ & Hwaiters & _).
  exact (Hwaiters 1 _ eq_refl).
Defined.

(** ** Direct memory *)

Lemma shared_backing_is_flat_array_witness :
  Backing_Read (Backing_Write (Backing_init 0x8000) 0x3fff [1; 2; 3]).1 0x3fff 3 = Some [1; 2; 3].
Proof.
  assert (Hok : backing_ok (Backing_init 0x8000)).
  { split; [simpl; lia|]. by intros i page. }
  pose proof (shared_backing_is_flat_array (Backing_init 0x8000) 0x3fff 3 0 [1; 2; 3] Hok
    ltac:(lia) ltac:(lia) eq_refl) as Hw.
  cbn zeta in Hw. rewrite decide_True in Hw by (simpl; lia). destruct Hw as (_ & Hwrite & _).
  destruct (Backing_Write (Backing_init 0x8000) 0x3fff [1; 2; 3]) as [b' ok].
  destruct Hwrite as (_ & _ & Hread & _). exact Hread.
Defined.

Lemma direct_memory_invariant_witness :
  dm_ok (DirectMemory_Allocate 0 0x100000 0x4000 0x4000 0 DirectMemoryService_init).1.
Proof.
  exact (proj1 (direct_memory_invariant false _ (rtc_once _ _
    (DmAllocate false 0 0x100000 0x4000 0x4000 0 DirectMemoryService_init
       ltac:(lia) ltac:(lia) ltac:(lia))))).
Defined.

(** One allocation of two pages at offset 0. *)
Definition demo_pool : DirectMemoryService :=
  (DirectMemory_Allocate 0 0x100000 0x8000 0x4000 0 DirectMemoryService_init).1.

Lemma demo_pool_ok : dm_ok demo_pool.
Proof. apply Allocate_ok; [lia|lia|lia|apply init_ok]. Qed.

Lemma Allocate_first_fit_witness :
  feasible 0x2000 0x100000 0x4000 0x4000 demo_pool 0x8000 /\
  forall y, feasible 0x2000 0x100000 0x4000 0x4000 demo_pool y -> 0x8000 <= y.
Proof.
  pose proof (Allocate_first_fit demo_pool 0x2000 0x100000 0x4000 0x4000 0 demo_pool_ok
    ltac:(rewrite kDirectMemorySize_eq; lia) ltac:(lia) ltac:(lia) ltac:(vm_compute; reflexivity)) as Hw.
  cbn zeta in Hw.
  assert (Ex : (DirectMemory_Allocate 0x2000 0x100000 0x4000 0x4000 0 demo_pool).2 = (kOk, 0x8000, 0x4000))
    by (vm_compute; reflexivity).
  destruct (DirectMemory_Allocate 0x2000 0x100000 0x4000 0x4000 0 demo_pool) as [d' [[st x] sz]].
  simpl in Ex. injection Ex as -> -> ->. destruct Hw as (_ & Hf & Hleast & _).
  replace (Z.min 0x100000 kDirectMemorySize) with 0x100000 in * by (vm_compute; reflexivity).
  split; [exact Hf|exact Hleast].
Defined.

Lemma Release_exact_witness :
  covered (free_ranges_ (DirectMemory_Release 0x4000 0x4000 demo_pool).1) 0x5000.
Proof.
  pose proof (Release_exact demo_pool 0x4000 0x4000 demo_pool_ok ltac:(lia) ltac:(lia)) as Hw.
  assert (Ex : (DirectMemory_Release 0x4000 0x4000 demo_pool).2 = kOk) by (vm_compute; reflexivity).
  destruct (DirectMemory_Release 0x4000 0x4000 demo_pool) as [d' st]. simpl in Ex. subst st.
  destruct Hw as (r & _ & _ & _ & _ & _ & Hcov & _). apply Hcov. right. lia.
Defined.

Lemma ContainsAllocatedRange_exact_witness : ContainsAllocatedRange 0x4000 0x4001 demo_pool = false.
Proof.
  pose proof (ContainsAllocatedRange_exact demo_pool (0, mkAllocation 0x8000 0) 0x4000 0x4001 demo_pool_ok
    (list_elem_of_here _ _) ltac:(vm_compute; split; [discriminate|reflexivity]) ltac:(lia)
    ltac:(rewrite kDirectMemorySize_eq; lia)) as Hw.
  apply not_true_iff_false. intros Hc%Hw. vm_compute in Hc. by apply Hc.
Defined.

Lemma ContainsAllocatedRange_wraps_witness :
  ContainsAllocatedRange 0xc000 0x4000 demo_pool = true /\ ~ covered (allocations_ demo_pool) 0xc000.
Proof.
  destruct (ContainsAllocatedRange_wraps demo_pool (0, mkAllocation 0x8000 0) 0xc000 0x4000 0x10000
    demo_pool_ok ltac:(vm_compute; reflexivity) ltac:(vm_compute; reflexivity) ltac:(lia)
    ltac:(rewrite kDirectMemorySize_eq; lia) ltac:(lia) ltac:(u64_lia) ltac:(vm_compute; reflexivity))
    as (Hw1 & Hw2 & _).
  split; [exact Hw1|exact Hw2].
Defined.

(** The allocation, mapped at guest address 0x10000. *)
Definition demo_mapped : DirectMemoryService := (RegisterMapping 0x10000 0 0x8000 demo_pool).1.

Lemma demo_mapped_ok : dm_ok demo_mapped.
Proof. apply RegisterMapping_ok; [apply demo_pool_ok|u64_lia|lia|lia]. Qed.

Lemma UnregisterMappings_exact_witness :
  content (mappings_ (UnregisterMappings 0x12000 0x2000 demo_mapped)) 0x13000 = None.
Proof.
  rewrite (UnregisterMappings_exact demo_mapped 0x12000 0x2000 demo_mapped_ok ltac:(lia) ltac:(lia)
    ltac:(u64_lia) 0x13000).
  reflexivity.
Defined.

(** ** Guest memory *)

#[local] Instance demo_host : HostMemory := fun _ => true.

(** A page of readable and writable memory at 0x1000, empty above. *)
Definition demo_memory : GuestMemory :=
  default (blank_memory 0x1000 0x1000 1 false 0) (GuestMemory_create 0x1000 0x1000 3).

Lemma demo_memory_created : gm_created demo_memory.
Proof. by apply (gc_vector 0x1000 0x1000 3). Qed.

Lemma demo_memory_ok : gm_ok demo_memory.
Proof. apply created_ok, demo_memory_created. Qed.

(** The same with a hole at 0x1800. *)
Definition demo_holed : GuestMemory := (Unmap 0x1800 0x100 demo_memory).1.

Lemma demo_holed_run : gm_run demo_memory demo_holed.
Proof. eapply gr_step; [apply gr_refl|]. by apply gs_unmap. Qed.

Lemma guest_memory_invariant_witness : gm_ok demo_holed.
Proof. exact (guest_memory_invariant _ _ demo_memory_created demo_holed_run). Defined.

(** The hole starts at 0x1800 and 0x100 bytes fit there. *)
Lemma FindUnmappedRange_least_witness :
  CanMap 0x1800 0x80 demo_holed = true /\
  forall c, 0x1000 <= c <= u64_max /\ c mod 0x100 = 0 /\ CanMap c 0x80 demo_holed = true -> 0x1800 <= c.
Proof.
  assert (Hok : gm_ok demo_holed) by (by apply (run_spec demo_memory), demo_holed_run; apply demo_memory_ok).
  pose proof (FindUnmappedRange_least demo_holed 0x1000 0x80 0x100 Hok ltac:(u64_lia) ltac:(u64_lia)
    ltac:(lia) ltac:(u64_lia) ltac:(vm_compute; reflexivity)) as Hw.
  cbn zeta in Hw.
  replace (FindUnmappedRange 0x1000 0x80 0x100 demo_holed) with (Some 0x1800) in Hw
    by (vm_compute; reflexivity).
  split; [exact (proj2 (proj2 (proj1 Hw)))|exact (proj2 Hw)].
Defined.

Lemma guest_write_exact_witness :
  gm_ok (Write 0x1100 [1; 2; 3] demo_memory).1 /\ (Write 0x1ffe [1; 2; 3] demo_memory).2 = false.
Proof.
  split.
  - destruct (guest_write_exact 0x1100 [1; 2; 3] 4 9 demo_memory demo_memory_ok ltac:(u64_lia) ltac:(lia))
      as [Hw _].
    assert (Ex : (Write 0x1100 [1; 2; 3] demo_memory).2 = true) by (vm_compute; reflexivity).
    destruct (Write 0x1100 [1; 2; 3] demo_memory) as [m' ok]. simpl in Ex. subst ok.
    exact (proj1 (proj2 Hw)).
  - vm_compute. reflexivity.
Defined.

Lemma guest_write_notifies_witness :
  notified demo_memory (Write 0x1100 [1; 2; 3] demo_memory).1 (denotes_written demo_memory 0x1100 3).
Proof.
  apply (guest_write_notifies 0x1100 [1; 2; 3] 0 0 demo_memory _ demo_memory_ok ltac:(u64_lia) ltac:(lia)).
  assert (Ex : (Write 0x1100 [1; 2; 3] demo_memory).2 = true) by (vm_compute; reflexivity).
  rewrite <- Ex. apply surjective_pairing.
Defined.

Lemma guest_read_exact_witness : guest_bytes demo_memory 0x1100 4 = [0; 0; 0; 0].
Proof.
  symmetry.
  apply (guest_read_exact 0x1100 4 demo_memory demo_memory_ok ltac:(u64_lia) ltac:(lia)).
  vm_compute. reflexivity.
Defined.

(** Bytes 1, 2, 3 moved up by one, over themselves. *)
Lemma Copy_memmove_witness :
  let m := (Write 0x1100 [1; 2; 3] demo_memory).1 in
  guest_byte (Copy 0x1101 0x1100 3 m).1 0x1103 = guest_byte m 0x1102.
Proof.
  cbv zeta.
  assert (Hok : gm_ok (Write 0x1100 [1; 2; 3] demo_memory).1).
  { apply (step_spec demo_memory); [apply demo_memory_ok|]. by apply gs_write. }
  assert (Hsm : shared_mappings_ (Write 0x1100 [1; 2; 3] demo_memory).1 = []) by (vm_compute; reflexivity).
  assert (Ex : (Copy 0x1101 0x1100 3 (Write 0x1100 [1; 2; 3] demo_memory).1).2 = true)
    by (vm_compute; reflexivity).
  pose proof (Copy_memmove 0x1101 0x1100 3 _ Hok ltac:(u64_lia) ltac:(u64_lia) ltac:(lia) ltac:(lia)) as Hw.
  destruct (Copy 0x1101 0x1100 3 (Write 0x1100 [1; 2; 3] demo_memory).1) as [m' ok]. simpl in Ex. subst ok.
  destruct Hw as (_ & _ & _ & _ & _ & Hmove & _). apply (fun H => Hmove H 2 ltac:(lia)).
  intros x y _ _. unfold loc_of. rewrite Hsm. simpl. by intros [= ->].
Defined.

(** A resource over four bytes of the page; the guest writes elsewhere before
    the upload is acknowledged. *)
Definition demo_system : CoherentSystem :=
  mkSystem demo_memory (RegisterResource 0x1100 4 demo_memory GpuResourceCoherence_init).1 [].
Definition demo_written : CoherentSystem :=
  mkSystem (Write 0x1200 [7] demo_memory).1 (cs_coherence demo_system) (events (Write 0x1200 [7] demo_memory).1).

Lemma acknowledged_upload_is_current_witness :
  Forall (fun a => guest_byte (cs_memory demo_written) a = guest_byte (cs_memory demo_system) a)
    [0x1100; 0x1101; 0x1102; 0x1103].
Proof.
  assert (Hok : cs_ok demo_system).
  { apply (step_ok any_ack (mkSystem demo_memory GpuResourceCoherence_init []));
      [apply initial_system_ok, demo_memory_ok|]. by apply (cs_register any_ack (mkSystem _ _ _) 0x1100 4). }
  assert (Hrun : cs_run any_ack demo_system demo_written).
  { eapply cr_step; [apply cr_refl|]. apply (cs_write any_ack demo_system); [by apply gs_write|].
    vm_compute. reflexivity. }
  destruct (Coherence_Query 1 (cs_memory demo_system) (cs_coherence demo_system)) as [q|] eqn:Eq;
    [|vm_compute in Eq; discriminate].
  destruct (AcknowledgeCpuUpload 1 (st_cpu_write_generation q) (cs_memory demo_written) (cs_coherence demo_written))
    as [c ok] eqn:Ea.
  vm_compute in Eq. injection Eq as <-. vm_compute in Ea. injection Ea as <- <-.
  destruct (acknowledged_upload_is_current demo_system demo_written 1 _ _ Hok eq_refl eq_refl Hrun eq_refl)
    as (r & Hr & Hsame & _).
  vm_compute in Hr. injection Hr as <-.
  assert (Hall : forall a, in_range 0x1100 4 a -> guest_byte (cs_memory demo_written) a = guest_byte (cs_memory demo_system) a);
    [|by repeat constructor; apply Hall; unfold in_range; lia].
  intros a Ha. destruct (Hsame a Ha) as [|(ev & Hev & Hc & _)]; [done|].
  vm_compute in Hev. apply list_elem_of_singleton in Hev as ->.
  unfold event_covers, in_range in *. simpl in *. lia.
Defined.

(** A command buffer on the page: a store of a 64-bit word, a file read, an
    event-queue record, and a store that is never made. *)
Definition demo_commands : list ampr_command :=
  [WriteAddress 0x1200 0x1122334455667788; ReadFile; QueueEvent; WriteAddress 0x1200 0].
Definition demo_store (value : Z) : list Z := le_bytes 8 3 ++ le_bytes 8 0x1200 ++ le_bytes 8 value ++ replicate 8 0.
Definition demo_records : list (list Z) :=
  [demo_store 0x1122334455667788; le_bytes 8 1 ++ replicate 40 0; le_bytes 8 2 ++ replicate 40 0; demo_store 0].

Lemma demo_records_encode : Forall2 encodes demo_commands demo_records.
Proof.
  assert (Hz : forall n, Forall is_byte (replicate n 0)) by (intros n; apply Forall_replicate; unfold is_byte; lia).
  repeat (apply Forall2_cons; split; [split; [unfold demo_store; rewrite !Forall_app;
    split_and!; (apply le_bytes_are_bytes || apply Hz)|split_and!; reflexivity]|]). by apply Forall2_nil.
Qed.

Lemma appended_commands_complete_witness :
  let t := (Ampr_SetBuffer 0x1100 0x1800 0x100 demo_memory ∅).1.2 in
  exists m1 t1, append_all 0x1100 demo_records demo_memory t = (m1, t1, ampr_kOk) /\
    Ampr_Complete 0x1100 m1 t1
      = Some ((Write 0x1200 (le_bytes 8 0x1122334455667788) m1).1, t1, ampr_kUnsupportedRecord).
Proof.
  intros t.
  assert (Hacc : forall a n p, is_u64 a -> 0 < n -> CanAccessLocked a n p demo_memory = true ->
    accessible demo_memory a n p).
  { intros a n p Ha Hn E. apply CanAccessLocked_iff in E; [|apply demo_memory_ok|done|lia].
    by rewrite Z.max_r in E by lia. }
  assert (Hsh : shared_mappings_ demo_memory = []) by (vm_compute; reflexivity).
  assert (Ht : t !! 0x1100 = Some (mkAmprState 0x1800 0x100 0 0)) by (vm_compute; reflexivity).
  assert (Hw : forall m1 t1, append_all 0x1100 demo_records demo_memory t = (m1, t1, ampr_kOk) ->
    (Write 0x1200 (le_bytes 8 0x1122334455667788) m1).2 = true).
  { intros m1 t1 E. assert (Em : m1 = (append_all 0x1100 demo_records demo_memory t).1.1) by (by rewrite E).
    rewrite Em. vm_compute. reflexivity. }
  clearbody t.
  destruct (appended_commands_complete 0x1100 0x1800 0x100 demo_commands demo_records demo_memory t)
    as (m1 & t1 & E1 & _ & _ & E2).
  - apply demo_memory_ok.
  - lia.
  - u64_lia.
  - lia.
  - lia.
  - u64_lia.
  - apply Hacc; [u64_lia|lia|vm_compute; reflexivity].
  - apply Hacc; [u64_lia|lia|vm_compute; reflexivity].
  - by apply private_distinct.
  - exact Ht.
  - apply demo_records_encode.
  - vm_compute. congruence.
  - assert (Hout : forall v, apart_from_buffer 0x1800 0x100 demo_memory (WriteAddress 0x1200 v)).
    { intros v _ i Hi j Hj. unfold loc_of. rewrite Hsh. simpl. intros [= Heq]. lia. }
    apply Forall_cons. split; [apply Hout|]. apply Forall_cons. split; [exact I|].
    apply Forall_cons. split; [exact I|]. apply Forall_cons. split; [apply Hout|by apply Forall_nil].
  - exists m1, t1. split; [done|]. specialize (Hw m1 t1 E1). rewrite E2. unfold demo_commands.
    cbn [execute_all execute Z.eqb].
    destruct (Write 0x1200 (le_bytes 8 0x1122334455667788) m1) as [m2 ok]. cbn [snd] in Hw. by subst ok.
Defined.

(** A window of the demonstration page below the hole. *)
Lemma mapping_token_identifies_witness : is_Some (gen_view demo_holed 0x1234).
Proof.
  destruct (CaptureMappingToken 0x1200 0x100 demo_memory) as [[g ex]|] eqn:E1; [|vm_compute in E1; done].
  assert (E2 : CaptureMappingToken 0x1200 0x100 demo_holed = Some (g, ex))
    by (rewrite <- E1; vm_compute; reflexivity).
  exact (proj1 (mapping_token_identifies demo_memory demo_holed demo_holed 0x1200 0x100 g ex ex
    demo_memory_ok ltac:(u64_lia) ltac:(lia) demo_holed_run (gr_refl _) E1 E2 0x1234 ltac:(lia))).
Defined.

Lemma Map_refines_witness :
  let '(m', ok) := Map 0x1800 0x80 1 demo_holed in ok = true /\ prot_view m' 0x1810 = Some 1.
Proof.
  assert (Hok : gm_ok demo_holed) by (by apply (run_spec demo_memory), demo_holed_run; apply demo_memory_ok).
  pose proof (Map_refines 0x1800 0x80 1 demo_holed Hok ltac:(u64_lia) ltac:(u64_lia)) as Hw.
  assert (Ex : (Map 0x1800 0x80 1 demo_holed).2 = true) by (vm_compute; reflexivity).
  destruct (Map 0x1800 0x80 1 demo_holed) as [m' ok]. simpl in Ex. subst ok. split; [reflexivity|].
  destruct Hw as (_ & _ & _ & _ & l' & g & El & _ & _ & Hp & _). rewrite Hp.
  assert (El' : effective_length 0x1800 0x80 demo_holed = Some 0x80) by (vm_compute; reflexivity).
  rewrite El in El'. injection El' as ->. reflexivity.
Defined.

Lemma Protect_Unmap_refine_witness :
  let '(m', ok) := Unmap 0x1800 0x100 demo_memory in ok = true /\ prot_view m' 0x1810 = None.
Proof.
  destruct (Protect_Unmap_refine 0x1800 0x100 1 demo_memory demo_memory_ok ltac:(u64_lia) ltac:(u64_lia))
    as [_ Hw].
  assert (Ex : (Unmap 0x1800 0x100 demo_memory).2 = true) by (vm_compute; reflexivity).
  destruct (Unmap 0x1800 0x100 demo_memory) as [m' ok]. simpl in Ex. subst ok. split; [reflexivity|].
  destruct Hw as (_ & _ & _ & l' & El & _ & _ & Hp & _). rewrite Hp.
  assert (El' : effective_length 0x1800 0x100 demo_memory = Some 0x100) by (vm_compute; reflexivity).
  rewrite El in El'. injection El' as ->. reflexivity.
Defined.

(** ** The libc heap *)

(** An mspace in the first bytes of the demonstration page. *)
Definition demo_heap : LibcHeapService := (CreateMspace 1 0x1000 0x800 LibcHeapService_init demo_memory).1.

Lemma libc_mspace_invariant_witness : heap_ok demo_heap.
Proof.
  refine (libc_mspace_invariant demo_heap (hr_step _ _ hr_init _)).
  by apply (hs_create LibcHeapService_init 1 0x1000 0x800 demo_memory).
Defined.

Lemma AllocateMspace_first_fit_witness :
  exists ms, find_mspace 1 0x1000 demo_heap = Some ms /\
    space_feasible ms 100 64 0x1040 /\ forall c, space_feasible ms 100 64 c -> 0x1040 <= c.
Proof.
  destruct (find_mspace 1 0x1000 demo_heap) as [ms|] eqn:Ef; [|vm_compute in Ef; discriminate Ef].
  exists ms. split; [reflexivity|].
  assert (Hok : heap_ok demo_heap) by (apply CreateMspace_ok; [apply heap_init_ok|u64_lia|u64_lia]).
  pose proof (AllocateMspace_first_fit 1 0x1000 100 64 true demo_heap demo_memory ms Hok ltac:(u64_lia)
    ltac:(u64_lia) ltac:(vm_compute; reflexivity) Ef ltac:(vm_compute; reflexivity)) as Hw.
  assert (Ex : (AllocateMspace 1 0x1000 100 64 true demo_heap demo_memory).2 = (kOk, 0x1040, 100))
    by (vm_compute; reflexivity).
  destruct (AllocateMspace 1 0x1000 100 64 true demo_heap demo_memory) as [[h' m'] [[st ad] sz]].
  simpl in Ex. injection Ex as -> -> ->. destruct Hw as (_ & _ & Hf & Hleast & _).
  split; [exact Hf|exact Hleast].
Defined.

(** An empty memory and a block of 100 bytes in it. *)
Definition demo_empty : GuestMemory :=
  default (blank_memory 0x1000 0x1000 1 false 0) (GuestMemory_create 0x1000 0x1000 0).
Definition demo_malloc : LibcHeapService * GuestMemory :=
  (LibcHeap_Allocate 1 100 16 false LibcHeapService_init demo_empty).1.

Lemma demo_empty_created : gm_created demo_empty.
Proof. by apply (gc_vector 0x1000 0x1000 0). Qed.

Lemma malloc_blocks_invariant_witness : blocks_ok 1 demo_malloc.1 demo_malloc.2.
Proof.
  refine (proj1 (malloc_blocks_invariant 1 demo_empty demo_malloc.1 demo_malloc.2 demo_empty_created _)).
  rewrite <- surjective_pairing. apply rtc_once.
  exact (ml_allocate 1 100 16 false LibcHeapService_init demo_empty ltac:(u64_lia) ltac:(u64_lia)).
Defined.

(** The block holds a byte at its start and is reallocated to 200 bytes. *)
Definition demo_block_memory : GuestMemory := (Write 0x1000 [77] demo_malloc.2).1.

Lemma Reallocate_preserves_contents_witness :
  let '(_, m', (_, a', _)) := LibcHeap_Reallocate 1 0x1000 200 demo_malloc.1 demo_block_memory in
  guest_byte m' a' = 77.
Proof.
  assert (Hb : blocks_ok 1 demo_malloc.1 demo_block_memory).
  { apply (malloc_step_ok 1 demo_malloc (demo_malloc.1, demo_block_memory)).
    - rewrite (surjective_pairing demo_malloc) at 1. by apply ml_write.
    - apply (malloc_step_ok 1 (LibcHeapService_init, demo_empty)).
      + exact (ml_allocate 1 100 16 false LibcHeapService_init demo_empty ltac:(u64_lia) ltac:(u64_lia)).
      + apply blocks_init, created_ok, demo_empty_created. }
  assert (Hat : block_at 1 demo_malloc.1 0x1000 (mkHeapAllocation 1 100 16)) by (vm_compute; by split).
  destruct (bo_live _ _ _ Hb _ _ Hat) as (l & Hl).
  pose proof (Reallocate_preserves_contents 1 0x1000 200 _ l _ _ Hb Hat Hl ltac:(u64_lia) ltac:(lia)) as Hw.
  assert (Ex : (LibcHeap_Reallocate 1 0x1000 200 demo_malloc.1 demo_block_memory).2.1.1 = kOk)
    by (vm_compute; reflexivity).
  destruct (LibcHeap_Reallocate 1 0x1000 200 demo_malloc.1 demo_block_memory) as [[h' m'] [[st a'] n']].
  simpl in Ex. subst st. destruct Hw as (_ & _ & l' & _ & [_ _ _ Hcontents _]).
  specialize (Hcontents 0 ltac:(simpl; lia)). rewrite Z.add_0_r in Hcontents.
  rewrite Hcontents. vm_compute. reflexivity.
Defined.
