(* ===== verification/PthreadWitnesses.v ===== *)
(** Concrete instances of the properties of the POSIX-threads service: a small
    state of the service at which the hypotheses hold and the conclusion the
    property gives there. *)
From S2P Require Import Prelude Ranges OrderedMap WaitKeys HandleTable Objects.
From S2P Require Import Clock Scheduler SchedulerInv SchedulerProps WakeAll SharedBacking.
From S2P Require Import GuestMemory Pthread PthreadLocks PthreadRwlocks.
From S2P Require Import PthreadConditions PthreadInv PthreadObjects PthreadReachable.
From S2P Require Import PthreadProps PthreadSpecs.

#[local] Existing Instance test_clock.
#[local] Instance pt_demo_host : HostMemory := fun _ => true.

(** ** A service with two threads, the first running *)

Definition pt_demo_kernel : Kernel :=
  (SelectNext (CreateThread "b" 0 0 0 (CreateThread "a" 0 0 0 Kernel_init).1).1).1.

Lemma pt_demo_kernel_ok : kernel_ok pt_demo_kernel.
Proof. apply SelectNext_ok, CreateThread_ok, CreateThread_ok, Kernel_init_ok. Qed.

Lemma pt_demo_own_keys : own_keys pt_demo_kernel.
Proof.
  intros t key _ (th & Ht & Hs & _). exfalso. revert Ht Hs.
  set (ts := threads_ (scheduler_ pt_demo_kernel)). vm_compute in ts. subst ts.
  rewrite !om_find_cons. repeat case_decide; simpl; try done; by intros [= <-].
Qed.

(** Two megabytes of readable and writable memory. *)
Definition pt_demo_memory : GuestMemory :=
  default (blank_memory 0x100000 0x200000 1 false 0) (GuestMemory_create 0x100000 0x200000 3).

Definition pt_demo : PthreadService := PthreadService_init pt_demo_kernel pt_demo_memory.
Lemma pt_demo_ok : pthread_ok pt_demo.
Proof. apply PthreadService_init_ok; [apply pt_demo_kernel_ok|apply pt_demo_own_keys]. Qed.

(** The scheduler yields and picks the next thread. *)
Definition pt_next (p : PthreadService) : PthreadService :=
  {| p with pt_kernel := (SelectNext (YieldCurrent (pt_kernel p)).1).1 |}.

Lemma pt_next_ok p : pthread_ok p -> pthread_ok (pt_next p).
Proof.
  intros Hp. pose proof (yield_is_step p Hp) as Hy. pose proof (pthread_step_ok _ _ Hy Hp) as Hp1.
  exact (pthread_step_ok _ _ (select_is_step _ Hp1) Hp1).
Qed.

Lemma pthread_reachable_invariant_witness : pthread_ok (CreateMutex 0 0 pt_demo).1.
Proof.
  exact (pthread_reachable_invariant pt_demo_kernel pt_demo_memory _ pt_demo_kernel_ok pt_demo_own_keys
    (rtc_once _ _ (PsCreateMutex 0 0 pt_demo))).
Defined.

(** ** Mutexes *)

Definition demo_mutex : Z := kSyntheticMutexHandleBase + 1.

(** The first thread owns the mutex; the second waits for it; the first runs. *)
Definition pt_owned : PthreadService := (LockMutex demo_mutex false (CreateMutex 0 0 pt_demo).1).1.
Definition pt_contended : PthreadService :=
  pt_next (LockMutex demo_mutex false (pt_next pt_owned)).1.

Lemma pt_owned_ok : pthread_ok pt_owned.
Proof. apply LockMutex_ok, CreateMutex_ok, pt_demo_ok. Qed.

Lemma pt_contended_ok : pthread_ok pt_contended.
Proof. apply pt_next_ok, LockMutex_ok, pt_next_ok, pt_owned_ok. Qed.

Definition contended_mutex : MutexState :=
  mkMutexState (ma_type PthreadMutexAttribute_default) (ma_protocol PthreadMutexAttribute_default) 1 1 [2] ∅ 0 None.

Lemma mutex_fifo_handover_witness :
  (UnlockMutex demo_mutex pt_contended).2 = kOk /\
  exists mu', om_find demo_mutex (mutexes_ (UnlockMutex demo_mutex pt_contended).1) = Some mu' /\
    mx_owner mu' = 2.
Proof.
  pose proof (mutex_fifo_handover demo_mutex contended_mutex pt_contended 1 pt_contended_ok
    ltac:(vm_compute; reflexivity) ltac:(vm_compute; reflexivity) eq_refl eq_refl) as Hw.
  destruct (UnlockMutex demo_mutex pt_contended) as [p' st].
  destruct Hw as (Hst & (mu' & Hf & Hh) & _). split; [exact Hst|].
  exists mu'. split; [exact Hf|exact (proj1 Hh)].
Defined.

Lemma mutex_mutual_exclusion_witness :
  UnlockMutex demo_mutex (pt_next pt_owned) = (pt_next pt_owned, kPermissionDenied).
Proof.
  set (p := pt_next pt_owned).
  refine (proj2 (proj2 (mutex_mutual_exclusion demo_mutex 1 p p (pt_next_ok _ pt_owned_ok)
    ltac:(vm_compute; reflexivity) ltac:(lia) (without_refl 1 p)) 2 false ltac:(lia) _)).
  vm_compute. reflexivity.
Defined.

Lemma mutex_handle_search_complete_witness :
  exists id, (CreateMutex 0 0 pt_owned).2 = (kOk, kSyntheticMutexHandleBase + id) /\
    mutex_id_free id pt_owned.
Proof.
  pose proof (mutex_handle_search_complete 0 0 pt_owned pt_owned_ok ltac:(by left)
    ltac:(vm_compute; split; congruence)) as Hw.
  assert (E : (CreateMutex 0 0 pt_owned).2.1 = kOk) by (vm_compute; reflexivity).
  destruct (CreateMutex 0 0 pt_owned) as [p' [st h]]. simpl in E. subst st.
  destruct Hw as (id & -> & _ & Hf & _). exists id. split; [reflexivity|exact Hf].
Defined.

(** ** Conditions *)

Definition demo_condition : Z := kSyntheticConditionHandleBase + 1.
Definition pt_with_condition : PthreadService := (CreateCondition pt_owned).1.

Lemma pt_with_condition_ok : pthread_ok pt_with_condition.
Proof. apply CreateCondition_ok, pt_owned_ok. Qed.

Definition owned_mutex : MutexState :=
  mkMutexState (ma_type PthreadMutexAttribute_default) (ma_protocol PthreadMutexAttribute_default) 1 1 [] ∅ 0 None.

Lemma condition_wait_parks_witness :
  (WaitConditionInternal demo_condition demo_mutex None pt_with_condition).2 = kWouldBlock.
Proof.
  pose proof (condition_wait_parks demo_condition demo_mutex None pt_with_condition 1
    (mkConditionState [] 0) owned_mutex pt_with_condition_ok ltac:(vm_compute; split; congruence)
    ltac:(vm_compute; reflexivity) ltac:(vm_compute; reflexivity) ltac:(vm_compute; reflexivity)
    eq_refl eq_refl ltac:(vm_compute; reflexivity) ltac:(vm_compute; reflexivity)) as Hw.
  destruct (WaitConditionInternal _ _ _ _) as [p' st]. exact (proj1 Hw).
Defined.

(** The first thread waits on the condition; the second signals it. *)
Definition pt_waiting : PthreadService :=
  pt_next (WaitConditionInternal demo_condition demo_mutex None pt_with_condition).1.

Lemma pt_waiting_ok : pthread_ok pt_waiting.
Proof. apply pt_next_ok, WaitInternal_ok; [vm_compute; split; congruence|apply pt_with_condition_ok]. Qed.

Lemma condition_signal_releases_witness :
  (SignalCondition demo_condition false pt_waiting).2 = kOk /\
  in_state (scheduler_ (pt_kernel (SignalCondition demo_condition false pt_waiting).1)) 1 kReady.
Proof.
  pose proof (condition_signal_releases demo_condition false pt_waiting
    (mkConditionState [mkConditionWaiter 1 demo_condition demo_mutex None false] 1) pt_waiting_ok
    ltac:(vm_compute; reflexivity) ltac:(apply NoDup_singleton)
    ltac:(repeat constructor; vm_compute; congruence)) as Hw.
  cbn zeta in Hw. destruct (SignalCondition _ _ _) as [p' st].
  destruct Hw as (Hst & _ & Hw). split; [exact Hst|].
  apply (Hw (mkConditionWaiter 1 demo_condition demo_mutex None false)).
  - apply list_elem_of_here.
  - eexists. split_and!; vm_compute; reflexivity.
Defined.

(** The signalled thread runs again. *)
Definition pt_signalled : PthreadService := pt_next (SignalCondition demo_condition false pt_waiting).1.

Lemma pt_signalled_ok : pthread_ok pt_signalled.
Proof. apply pt_next_ok, SignalCondition_ok, pt_waiting_ok. Qed.

Lemma condition_wait_finishes_witness :
  (WaitConditionInternal demo_condition demo_mutex None pt_signalled).2 = kOk.
Proof.
  destruct (condition_wait_finishes demo_condition demo_mutex None pt_signalled 1
    (mkConditionWaiter 1 demo_condition demo_mutex None false) pt_signalled_ok
    ltac:(vm_compute; reflexivity) ltac:(vm_compute; reflexivity) eq_refl eq_refl) as (p0 & Ep0 & Hw).
  assert (El : (LockMutex demo_mutex false p0).2 = kOk) by (subst p0; vm_compute; reflexivity).
  destruct (LockMutex demo_mutex false p0) as [p1 ls]. simpl in El. subst ls.
  destruct (WaitConditionInternal _ _ _ _) as [p' st]. exact (proj1 Hw).
Defined.

(** ** Read-write locks *)

Definition demo_rwlock : Z := 0x100000.
Definition pt_rwlock : PthreadService :=
  (CreateGuestRwlock (ConfigureGuestMutexArena 0x100000 pt_demo).1).1.

(** The first thread reads; the second, a writer, waits; the first runs. *)
Definition pt_reading : PthreadService := (LockRwlock demo_rwlock false false pt_rwlock).1.
Definition pt_writer_waits : PthreadService :=
  pt_next (LockRwlock demo_rwlock true false (pt_next pt_reading)).1.

Lemma pt_reading_ok : pthread_ok pt_reading.
Proof.
  apply LockRwlock_ok, CreateGuestRwlock_ok, ConfigureGuestMutexArena_ok; [|apply pt_demo_ok].
  vm_compute; split; congruence.
Qed.

Lemma pt_writer_waits_ok : pthread_ok pt_writer_waits.
Proof. apply pt_next_ok, LockRwlock_ok, pt_next_ok, pt_reading_ok. Qed.

Lemma rwlock_release_grants_witness :
  (UnlockRwlock demo_rwlock pt_writer_waits).2 = kOk /\
  in_state (scheduler_ (pt_kernel (UnlockRwlock demo_rwlock pt_writer_waits).1)) 2 kReady.
Proof.
  pose proof (rwlock_release_grants demo_rwlock
    (mkRwlockState 0 [(1, 1)] [mkRwlockWaiter 2 true] ∅ None 0) pt_writer_waits 1 pt_writer_waits_ok
    ltac:(vm_compute; reflexivity) ltac:(vm_compute; reflexivity) ltac:(by right)) as Hw.
  destruct (UnlockRwlock _ _) as [p' st]. destruct Hw as (Hst & _ & Hr). split; [exact Hst|].
  apply Hr, list_elem_of_here.
Defined.

Lemma readers_do_not_share_witness : (LockRwlock demo_rwlock false true (pt_next pt_reading)).2 = kBusy.
Proof.
  exact (readers_do_not_share demo_rwlock (mkRwlockState 0 [(1, 1)] [] ∅ None 0) (pt_next pt_reading)
    2 1 1 true (pt_next_ok _ pt_reading_ok) ltac:(vm_compute; reflexivity) ltac:(vm_compute; reflexivity)
    eq_refl eq_refl eq_refl ltac:(lia) (not_elem_of_empty 2)).
Defined.

(** ** Thread-specific data and deadlines *)

Definition pt_key : PthreadService := (CreateKey 0 pt_demo).1.

Lemma pt_key_ok : pthread_ok pt_key.
Proof. apply CreateKey_ok, pt_demo_ok. Qed.

Lemma thread_specific_table_witness : GetSpecific 0 (SetSpecific 0 77 pt_key).1 = (kOk, 77).
Proof.
  destruct (thread_specific_table 0 77 0 pt_key 1 pt_key_ok ltac:(vm_compute; reflexivity) ltac:(lia))
    as (_ & Hs & _).
  assert (El : key_live 0 pt_key = true) by (vm_compute; reflexivity). rewrite El in Hs.
  destruct (SetSpecific 0 77 pt_key) as [p' st]. exact (proj1 (proj2 Hs)).
Defined.

Lemma deadlines_exact_or_saturated_witness : relative_deadline 5 2 = 2005.
Proof.
  destruct (deadlines_exact_or_saturated KernelClockService_init (mkTimespec 1 0) 2
    ltac:(simpl; lia) ltac:(u64_lia)) as [Hr _].
  rewrite (Hr 5) by u64_lia. reflexivity.
Defined.
