(* ===== verification/LoaderWitnesses.v ===== *)
(** The hypotheses of the loader's theorems hold at concrete inputs: a small
    image with relocations, a function array, a thread-local segment and an
    exported symbol. *)
From S2P Require Import Prelude Ranges OrderedMap LittleEndian GuestMemory GuestMemoryMap.
From S2P Require Import GuestMemoryOps.
From S2P Require Import GuestMemoryData GuestMemoryWrite GuestMemoryInit GuestMemoryRuns.
From S2P Require Import GuestBlocks.
From S2P Require Import Elf SceSymbol ModulePlan Launch StaticTls.
From S2P Require Import Relocator ModuleExports.
From S2P Require Import StaticTlsInstance.

#[local] Instance loader_host : HostMemory := fun _ => true.

(** A page at 0x1000, readable, writable and executable. *)
Definition image_memory : GuestMemory :=
  default (blank_memory 0x1000 0x1000 1 false 0) (GuestMemory_create 0x1000 0x1000 7).

Lemma image_memory_ok : gm_ok image_memory.
Proof. apply created_ok. by apply (gc_vector 0x1000 0x1000 7). Qed.

(** ** Launch *)

Definition text_header : ElfProgramHeader := mkProgramHeader 1 5 0 0 0x100 0x100 0x800 0x800 0x10.
Definition image_info : ElfDynamicInfo :=
  mkDynamicInfo kDataNone None None [] None [] [] [] [] [] [] [] (Some 0x140) None None None
    (Some 0x200) (Some 16) None None.
Definition image_metadata : ElfMetadata :=
  mkElfMetadata kElf 0 0 0 0 2 62 1 0x120 [text_header] [] image_info.

Lemma launch_metadata_sound_witness :
  lm_init_array (lr_metadata (AnalyzeLaunchMetadata image_metadata 0x1000)) = Some (mkFunctionArray 0x1200 2) /\
  function_launched image_metadata 0x1000 (Some 0x120)
    (lm_entry_point (lr_metadata (AnalyzeLaunchMetadata image_metadata 0x1000))).
Proof.
  split; [vm_compute; reflexivity|].
  apply (launch_metadata_sound image_metadata 0x1000).
  - split; repeat constructor; simpl; u64_lia.
  - u64_lia.
  - vm_compute. reflexivity.
Defined.

(** An array of one pointer to 0x1100, stored at 0x1200, and the function at 0x1140. *)
Definition array_memory : GuestMemory := (Write 0x1200 (le_bytes 8 0x1100) image_memory).1.
Definition launch_plan : ExecutableLaunchMetadata :=
  mkLaunch None None None (Some 0x1140) None None (Some (mkFunctionArray 0x1200 1)) None.

Lemma lifecycle_plan_equiv_witness :
  cp_initializers (pr_plan (BuildLifecycleCallPlan launch_plan array_memory 0)) = [0x1140; 0x1100].
Proof.
  assert (Hc : counts_ok launch_plan) by (repeat constructor; simpl; lia).
  pose proof (lifecycle_plan_equiv launch_plan array_memory 0 Hc) as Hw. cbv zeta in Hw.
  assert (E : reference_plan launch_plan array_memory 0 = Some (mkCallPlan [] [0x1140; 0x1100] []))
    by (vm_compute; reflexivity).
  rewrite E in Hw. rewrite Hw. reflexivity.
Defined.

(** ** Module plans *)

Definition two_modules : list ModuleDependencyInput :=
  [mkModuleInput "a.prx" None ["B.prx"; "c.prx"] true; mkModuleInput "b.prx" None [] true].

Definition two_plan : ModuleStartPlanResult :=
  default (failed_plan kPlanLimitExceeded) (BuildModuleStartPlan two_modules).

Lemma module_plan_accepts_witness : sp_status two_plan = kPlanOk /\ distinct_names two_modules.
Proof.
  assert (E : BuildModuleStartPlan two_modules = Some two_plan) by (vm_compute; reflexivity).
  assert (Es : sp_status two_plan = kPlanOk) by (vm_compute; reflexivity).
  split; [exact Es|]. apply (proj1 (proj1 (module_plan_accepts two_modules two_plan E)) Es).
Defined.

(** ** Thread-local storage *)

Definition tls_requests : list tls_request := [mkTlsRequest 1 0x10 8 0; mkTlsRequest 2 0x21 0x10 4].

Lemma tls_blocks_disjoint_aligned_witness :
  0 <= total_size_ (register_all tls_requests (StaticTlsLayout_init 0x1000)) <= 0x1000.
Proof.
  apply (tls_blocks_disjoint_aligned 0x1000 tls_requests 0x2000); [u64_lia| |vm_compute; reflexivity].
  repeat constructor; simpl; u64_lia.
Defined.

(** ** Relocation *)

(** [R_X86_64_RELATIVE] at 0x100 with addend 0x20, and [R_X86_64_64] of the
    symbol 1 at 0x108. *)
Definition reloc_info : ElfDynamicInfo :=
  mkDynamicInfo kDataNone None None [] None [] [] [] []
    [mkRela 0x100 8 0x20] [mkRela 0x108 0x100000001 4]
    [mkElfSymbol 0 0 0 0 0 0 EmptyString; mkElfSymbol 0 0x10 0 1 0x40 8 "f"]
    None None None None None None None None.
Definition reloc_metadata : ElfMetadata := mkElfMetadata kElf 0 0 0 0 2 62 1 0 [] [] reloc_info.

Lemma reloc_words : relocation_words reloc_metadata.
Proof.
  split; [repeat constructor; simpl; u64_lia|].
  intros s Hs. cbn in Hs. repeat (apply elem_of_cons in Hs as [->|Hs]; [simpl; u64_lia|]). by apply elem_of_nil in Hs.
Qed.

Definition relocated : GuestMemory * RelocationResult :=
  ApplyRelocationsInternal reloc_metadata None 0x1000 0 0 image_memory.

Lemma relocations_follow_abi_witness :
  rr_applied_count relocated.2 = 2 /\ gm_ok relocated.1 /\ le_value (guest_bytes relocated.1 0x1108 8) = 0x1044.
Proof.
  split; [vm_compute; reflexivity|]. split; [|vm_compute; reflexivity].
  apply (relocations_follow_abi reloc_metadata None 0x1000 0 0 image_memory relocated.1 relocated.2
    image_memory_ok ltac:(u64_lia) reloc_words (surjective_pairing _)).
  vm_compute. reflexivity.
Defined.

(** An image that does not fit: the relocation is refused and nothing changes. *)
Definition refused : GuestMemory * RelocationResult :=
  ApplyRelocationsInternal reloc_metadata None 0x1f00 0 0 image_memory.

Lemma relocation_failure_is_clean_witness : rr_status refused.2 = kTargetNotMapped /\ refused.1 = image_memory.
Proof.
  assert (Es : rr_status refused.2 = kTargetNotMapped) by (vm_compute; reflexivity).
  split; [exact Es|].
  destruct (relocation_failure_is_clean reloc_metadata None 0x1f00 0 0 image_memory refused.1 refused.2
    image_memory_ok ltac:(u64_lia) reloc_words (surjective_pairing _)) as [(Hm & _)|(Hf & _)].
  - rewrite Es. discriminate.
  - exact Hm.
  - rewrite Es in Hf. discriminate.
Defined.

(** ** Exports *)

Definition export_info : ElfDynamicInfo :=
  mkDynamicInfo kDataNone None None [] None [] [mkModuleIdentity 0 1 1 "libm"] [] [mkLibraryIdentity 1 1 "lib"]
    [] [] [mkElfSymbol 0 0x12 0 1 0x40 8 "abc#B#A"] None None None None None None None None.
Definition export_metadata : ElfMetadata := mkElfMetadata kElf 0 0 0 0 2 62 1 0 [] [] export_info.

Lemma export_registry_refines_witness :
  Exports_ResolveImport (register_modules [(export_metadata, 0x1000)] ∅).1 "abc" ["other"; "lib"] = Some 0x1040.
Proof.
  assert (Hw : Forall export_words [(export_metadata, 0x1000)]).
  { constructor; [|constructor]. split; [simpl; u64_lia|]. intros s Hs. cbn in Hs.
    apply list_elem_of_singleton in Hs as ->. simpl. u64_lia. }
  pose proof (export_registry_refines [(export_metadata, 0x1000)] "abc" 0x1040 Hw) as Hx.
  destruct (register_modules [(export_metadata, 0x1000)] ∅) as [registry accepted] eqn:Er.
  cbn [fst]. destruct Hx as (_ & _ & _ & _ & Hlib). apply Hlib; [done|].
  assert (Ea : accepted = [(export_metadata, 0x1000)]).
  { change accepted with ((registry, accepted).2). rewrite <- Er. vm_compute. reflexivity. }
  subst accepted.
  assert (Hex : forall k b, exported [(export_metadata, 0x1000)] k b ->
    k = mkExportKey "lib" 1 "libm" 1 1 "abc" /\ b = 0x1040).
  { intros k b (x & Hx & s & Hs & Hk & ->). apply list_elem_of_singleton in Hx as ->. cbn in Hs.
    apply list_elem_of_singleton in Hs as ->. vm_compute in Hk. injection Hk as <-. split; reflexivity. }
  exists ["other"], "lib", []. split; [reflexivity|]. split.
  - intros l Hl. apply list_elem_of_singleton in Hl as ->. split; [vm_compute; reflexivity|].
    intros k b [-> _]%Hex. discriminate.
  - exists (mkExportKey "lib" 1 "libm" 1 1 "abc"). split; [split; reflexivity|]. split.
    + exists (export_metadata, 0x1000). split; [by apply list_elem_of_singleton|].
      eexists. split; [by apply list_elem_of_singleton|]. split; vm_compute; reflexivity.
    + intros k' a' [-> _]%Hex _. reflexivity.
Defined.

(** ** A thread-local storage instance *)

(** A host mapping of 16 pages of 0x100 bytes with an image page at 0x1000. *)
Definition host_memory : GuestMemory :=
  default (blank_memory 0x1000 0x1000 0x100 true 0) (CreateHostMapped 0x100 (Some 0x1000) 0x1000 kNone).
Definition host_image : GuestMemory := (Write 0x1000 [7; 8; 9] (Map 0x1000 0x100 3 host_memory).1).1.

Lemma host_image_ok : gm_ok host_image.
Proof.
  apply (step_spec (Map 0x1000 0x100 3 host_memory).1); [|by apply gs_write].
  apply (step_spec host_memory); [|by apply gs_map].
  apply created_ok, (gc_host 0x100 (Some 0x1000) 0x1000 kNone); [u64_lia|u64_lia| |done].
  intros base [= <-]. u64_lia.
Qed.

Definition tls_layout : StaticTlsLayout := register_all [mkTlsRequest 1 0x10 8 0] (StaticTlsLayout_init 0x1000).
Definition tls_modules : list StaticTlsTemplateModule := [mkTlsTemplate 1 0x1000 3 0x10 0x10].
Definition tls_created : GuestMemory * (StaticTlsInstanceStatus * StaticTlsInstance) :=
  CreateStaticTlsInstance host_image tls_layout tls_modules 0x1000.

Lemma tls_instance_complete_witness :
  tls_created.2.1 = kInstanceOk /\ keeps host_image tls_created.1 /\
  guest_byte tls_created.1 (ti_thread_pointer tls_created.2.2 - 0x10) = 7.
Proof.
  split; [vm_compute; reflexivity|]. split; [|vm_compute; reflexivity].
  assert (Ht : layout_ok tls_layout).
  { apply register_all_ok; [repeat constructor; simpl; u64_lia|apply StaticTlsLayout_init_ok; u64_lia]. }
  assert (Hu : Forall template_u64 tls_modules) by (repeat constructor; simpl; u64_lia).
  pose proof (tls_instance_complete host_image tls_layout tls_modules 0x1000 host_image_ok Ht Hu ltac:(u64_lia)) as Hw.
  unfold tls_created. destruct (CreateStaticTlsInstance host_image tls_layout tls_modules 0x1000) as [m' [st i]].
  exact (proj1 Hw).
Defined.

(** ** The start plan *)

(** Two modules that need each other, one that needs the first of them, and one
    that needs nothing. *)
Definition cyclic_modules : list ModuleDependencyInput :=
  [mkModuleInput "a.prx" None ["b.prx"%string] true; mkModuleInput "b.prx" None ["a.prx"%string] true;
   mkModuleInput "c.prx" None ["a.prx"%string] true; mkModuleInput "d.prx" None [] true].

(** The last module comes first; the other three are the fallback, also the one
    that is on no cycle itself. *)
Lemma module_start_order_witness :
  exists result, BuildModuleStartPlan cyclic_modules = Some result /\
    sp_start_order result = [3; 0; 1; 2]%nat /\ sp_fallback_start_count result = 3%nat /\
    exists k, rtc (needs cyclic_modules) 2%nat k /\ tc (needs cyclic_modules) k k.
Proof.
  destruct (module_start_order cyclic_modules) as (result & E & Hok). exists result. split; [exact E|].
  vm_compute in E. injection E as <-. destruct (Hok eq_refl) as (planned & fallback & El & Hn & _ & _ & Hf & _).
  split; [reflexivity|]. split; [reflexivity|]. apply (Hf 2%nat). cbn in El, Hn.
  destruct planned as [|x [|y planned]]; cbn in El.
  - subst fallback. discriminate Hn.
  - injection El as _ <-. apply elem_of_cons. right. apply elem_of_cons. right. apply elem_of_cons. left. reflexivity.
  - injection El as _ _ El. apply (f_equal length) in El. rewrite length_app in El. cbn in El. lia.
Defined.
