(* ===== verification/ElfWitnesses.v ===== *)
(** The hypotheses of the executable parser's and loader's theorems hold at a
    concrete image: an object with a load segment, a dynamic section with a
    name, and zeros behind its file part. *)
From S2P Require Import Prelude GuestMemory GuestMemoryMap GuestMemoryOps GuestMemoryData.
From S2P Require Import GuestMemoryRuns GuestBlocks.
From S2P Require Import Elf LittleEndian ElfReader ElfReaderProps ElfParser ElfParserProps.
From S2P Require Import ElfEncode.
From S2P Require Import ElfLoad ElfLoadPlan ElfLoadProps ElfInterfaces.
From S2P Require Launch Relocator ModuleExports.

#[local] Instance elf_host : HostMemory := fun _ => true.

(** The string table, then the dynamic entries. *)
Definition object_body : list Z :=
  [0; 0x6c; 0x69; 0x62; 0; 0; 0; 0] ++
  concat (map (fun '(t, v) => le_bytes 8 t ++ le_bytes 8 v) [(5, 0x10b0); (10, 8); (14, 1); (0, 0)]).
Definition object_headers : list ElfProgramHeader :=
  [mkProgramHeader 1 6 0 0 0x1000 0x1000 248 300 8; mkProgramHeader 2 4 0xb8 0xb8 0x10b8 0x10b8 64 64 8].
Definition object_image : list Z := encode (mkElfFile 9 2 0xfe18 0x1010 object_headers object_body).

Definition is_byteb (b : Z) : bool := (0 <=? b) && (b <? 256).
Lemma image_ok_dec image : forallb is_byteb image = true -> image_size image <= u64_max -> image_ok image.
Proof.
  intros Hb Hs. split; [|done]. apply Forall_forall. intros b Hin. rewrite forallb_forall in Hb.
  apply list_elem_of_In, Hb in Hin. unfold is_byteb, is_byte in *. lia.
Qed.

Lemma object_ok : image_ok object_image.
Proof. apply image_ok_dec; [vm_compute; reflexivity|]. rewrite u64_max_eq. vm_compute. discriminate. Qed.

Definition object_metadata : ElfMetadata :=
  match ParseExecutable64 object_image with returns m => m | _ => ElfMetadata_default end.
Lemma object_parses : ParseExecutable64 object_image = returns object_metadata.
Proof. vm_compute. reflexivity. Qed.

Lemma parse_never_faults_witness :
  ParseExecutable64 object_image <> faults /\ ParseElf64 [0x7f; 0x45] <> faults.
Proof.
  split; [exact (proj1 (parse_never_faults object_image object_ok))|].
  apply (parse_never_faults [0x7f; 0x45]). apply image_ok_dec; [reflexivity|]. rewrite u64_max_eq. vm_compute. discriminate.
Defined.

Lemma parsed_executable_well_formed_witness :
  di_shared_object_name (em_dynamic_info object_metadata) = Some "lib"%string /\ elf_wf object_image object_metadata.
Proof.
  split; [vm_compute; reflexivity|].
  apply (parsed_executable_well_formed object_image object_metadata object_ok object_parses).
Defined.

Lemma parsed_metadata_typed_witness : Launch.metadata_u64 object_metadata.
Proof. apply (parsed_metadata_typed object_image object_metadata 0 object_ok object_parses ltac:(u64_lia)). Defined.

(** ** Round trip *)

Definition plain_file : elf_file :=
  mkElfFile 0 0 2 0x1078 [mkProgramHeader 1 5 0x78 0x78 0x1078 0x1078 4 8 8] [0xb8; 1; 0xc3; 0x90].

Lemma plain_printable : printable plain_file.
Proof.
  assert (Hw : image_size (encode plain_file) = 124) by reflexivity.
  constructor; rewrite ?Hw; cbn [plain_file ef_body ef_headers ef_os_abi ef_abi_version ef_type ef_entry_point length].
  - rewrite !Forall_cons. unfold is_byte. split_and!; try lia. constructor.
  - u64_lia.
  - reflexivity.
  - reflexivity.
  - u64_lia.
  - lia.
  - apply Forall_singleton. constructor; cbn; unfold is_u32; u64_lia.
  - apply Forall_singleton. reflexivity.
  - apply Forall_singleton. intros _. cbn. split_and!; [lia|u64_lia|]. right. exists 3. done.
  - apply Forall_singleton. cbn. lia.
  - constructor; [constructor|constructor].
  - apply Forall_singleton. cbn. split; discriminate.
Qed.

Lemma encoded_executable_parses_witness :
  em_entry_point (metadata_of plain_file) = 0x1078 /\ ParseExecutable64 (encode plain_file) = returns (metadata_of plain_file).
Proof. split; [reflexivity|]. exact (encoded_executable_parses plain_file plain_printable). Defined.

(** ** Loading *)

(** Two kilobytes at 0x11000, nothing mapped. *)
Definition empty_memory : GuestMemory :=
  default (blank_memory 0x11000 0x800 1 false 0) (GuestMemory_create 0x11000 0x800 0).
Lemma empty_memory_ok : gm_ok empty_memory.
Proof. apply created_ok. by apply (gc_vector 0x11000 0x800 0). Qed.

Definition loaded_object : GuestMemory * ElfLoadResult :=
  default (empty_memory, mkLoadResult (Some kImageTooSmall) ElfMetadata_default 0 0 0)
    (LoadExecutable64 object_image empty_memory 0x10000).

Lemma executable_loaded_witness :
  elr_file_bytes loaded_object.2 = 248 /\ guest_byte loaded_object.1 0x110b1 = 0x6c /\
  ParseExecutable64 object_image = returns (elr_metadata loaded_object.2).
Proof.
  split; [vm_compute; reflexivity|]. split; [vm_compute; reflexivity|].
  apply (executable_loaded object_image empty_memory 0x10000 loaded_object.1 loaded_object.2 object_ok empty_memory_ok).
  - unfold empty_memory. vm_compute mapping_granularity_. u64_lia.
  - u64_lia.
  - vm_compute. reflexivity.
  - vm_compute. reflexivity.
Defined.

(** The memory is too small for the same image further up. *)
Definition refused_object : GuestMemory * ElfLoadResult :=
  default (empty_memory, mkLoadResult None ElfMetadata_default 0 0 0)
    (LoadExecutable64 object_image empty_memory 0x10700).

Lemma executable_load_failure_witness :
  elr_error refused_object.2 = Some kGuestRangeOutOfRange /\ keeps empty_memory refused_object.1.
Proof.
  assert (Er : elr_error refused_object.2 = Some kGuestRangeOutOfRange) by (vm_compute; reflexivity).
  split; [exact Er|].
  destruct (executable_load_failure object_image empty_memory 0x10700 object_ok empty_memory_ok) as (m' & r & E & Hk).
  - change (mapping_granularity_ empty_memory) with 1. u64_lia.
  - u64_lia.
  - unfold refused_object in *. rewrite E in *. cbn in *. apply Hk. rewrite Er. discriminate.
Defined.

Lemma load_range_tight_witness :
  erl_error (CalculateElfLoadRange object_metadata) = None /\
  erl_size (CalculateElfLoadRange object_metadata) = 300.
Proof.
  split; [|vm_compute; reflexivity].
  exact (proj1 (load_range_tight object_image object_metadata object_ok object_parses)).
Defined.
