(* ===== verification/GpuWitnesses.v ===== *)
(** The hypotheses of the GPU theorems hold at concrete inputs: a render target,
    a mip chain, a volume and a linear image, a command stream that waits, a queue
    that holds it, packets written to a command buffer, a ring and a draw. *)
From S2P Require Import Prelude LittleEndian Ranges SharedBacking GuestMemory GuestMemoryMap GuestMemoryOps.
From S2P Require Import GuestMemoryData GuestMemoryWrite GuestMemoryRuns GuestBlocks.
From S2P Require Import Words32 Formats TileBlocks TileTextures TileTextureProps.
From S2P Require Import LinearImages TileVolumes ImageLayout Detile ImageLayoutProps.
From S2P Require Import CommandProcessor CommandProcessorProps SubmissionQueue PacketWriter GpuActions.

(** ** Blocks *)

(** The block of render targets with elements of four bytes: 128 by 128. *)
Definition rgba_block : TileBlockLayout := mkTileBlockLayout RenderTarget64KB 4 65536 128 128 1.

Lemma block_addresses_bijective_witness :
  (exists o, TileGetBlockOffset rgba_block 127 127 0 = gives o)
  /\ exists! p : Z * Z * Z, inside rgba_block p.1.1 p.1.2 p.2
       /\ TileGetBlockOffset rgba_block p.1.1 p.1.2 p.2 = gives 4.
Proof.
  destruct (block_addresses_bijective RenderTarget64KB 4 rgba_block) as [H1 H2];
    [vm_compute; split; discriminate|vm_compute; reflexivity|].
  split.
  - destruct (H1 127 127 0) as (o & E & _); [vm_compute; repeat split; discriminate|]. by exists o.
  - apply H2; [vm_compute; split; [discriminate|reflexivity]|reflexivity].
Defined.

(** ** Chains *)

Definition rgba : Z := BufferFormatValue k8_8_8_8UNorm.
Definition rgba_texture_block : TextureBlockLayout := mkTextureBlockLayout 4 1 1 128 128 65536.

Lemma mip_chain_layout_witness :
  exists first, first_tail_level rgba_texture_block 9 256 256 9 first /\
  match TileGetTextureSize rgba 256 256 0 9 9 (Some no_size) (Some (array16 no_level))
          (Some (array16 no_padding)) with
  | gives (total, Some ls, Some ps) =>
      chain_total rgba_texture_block 256 256 9 first <= u32_max
      /\ chain_ok rgba_texture_block 256 256 9 first total ls ps
  | refused => u32_max < chain_total rgba_texture_block 256 256 9 first
  | _ => False
  end.
Proof.
  apply (mip_chain_layout rgba 9 rgba_texture_block 256 256 0 9); first [lia|vm_compute; reflexivity|simpl; lia].
Defined.

Lemma texture_pitch_agrees_witness :
  exists p, ([mkTilePaddedSize 256 128] ++ replicate 15 no_padding) !! 0%nat = Some p
    /\ TileGetTexturePitch rgba 200 1 27 = gives (ps_width p).
Proof.
  apply (texture_pitch_agrees rgba 27 200 100 1 (mkTileSizeAlign 131072 65536)
    (mkTileSizeOffset 131072 0 131072 0 0 0 :: replicate 15 no_level)); [|lia..|vm_compute; reflexivity].
  right. split; [set_solver|]. eexists. vm_compute. reflexivity.
Defined.

Lemma volume_layout_exists_witness :
  exists family block v,
    volume_family 9 = gives family /\ TileGetBlockLayout family (tb_bytes rgba_texture_block) = gives block
    /\ TileGetTextureVolumeLayout rgba 64 64 64 7 9 = gives v
    /\ volume_ok rgba_texture_block family block (ceil_div 64 (tb_texel_width rgba_texture_block))
         (ceil_div 64 (tb_texel_height rgba_texture_block)) 64 7 v.
Proof.
  apply (volume_layout_exists rgba 9 rgba_texture_block 64 64 64 7); first [lia|vm_compute; reflexivity].
Defined.

(** ** Images *)

(** A render target of 3 by 2 texels at 0x10000. *)
Definition target_input : GuestImageLayoutInput :=
  mkGuestImageLayoutInput 0x10000 rgba 3 2 1 1 1 0 0 kColor2D kRenderTarget true.
Definition target_mip : GuestImageMipLayout := mkGuestImageMipLayout 3 2 1 3 2 1 512 1024 1024 0 1024.
Definition target_layout : GuestImageLayout :=
  mkGuestImageLayout kLayoutSuccess "render-target tiled guest layout calculated" rgba rgba 1 false true
    (target_mip :: replicate 15 no_mip) 1024 65536 (mkGuestImageStorageKey 0x10000 65536 rgba).
Definition target_tiled : byte_span := mkSpan 0 (replicate (Z.to_nat 65536) 7).
Definition target_linear : byte_span := mkSpan 0x100000 (replicate 1024 0).

Lemma target_input_typed : input_typed target_input.
Proof. repeat split; vm_compute; discriminate. Qed.

Lemma target_tiled_size : span_size target_tiled = 65536.
Proof. unfold span_size, target_tiled. cbn [span_bytes]. rewrite length_replicate. lia. Qed.
Lemma target_linear_size : span_size target_linear = 1024.
Proof. reflexivity. Qed.

Lemma detile_exact_witness :
  match DetileRenderTarget64KB target_layout target_tiled target_linear with
  | gives (r, bytes) =>
      if result_ok r then
        exists plan, MakePlan target_layout target_tiled target_linear = gives (inr plan)
          /\ plan_ok plan (span_size target_tiled) (span_size target_linear)
          /\ copied plan (span_bytes target_tiled) (texels (dp_width plan) (dp_height plan))
               (span_bytes target_linear) bytes
      else bytes = span_bytes target_linear
  | _ => False
  end.
Proof.
  apply (detile_exact target_layout target_mip). split; [reflexivity|..];
    first [unfold is_u32, u32_max|unfold is_u64; rewrite u64_max_eq]; vm_compute; split; discriminate.
Defined.

Lemma render_target_staging_witness :
  exists plan r bytes, DetileRenderTarget64KB target_layout target_tiled target_linear = gives (r, bytes)
    /\ result_ok r = true
    /\ bytes !! Z.to_nat (linear_address plan 2 1 + 3) = span_bytes target_tiled !! Z.to_nat (tiled_address plan 2 1 + 3).
Proof.
  destruct (render_target_staging target_input target_layout target_tiled target_linear)
    as (plan & r & bytes & _ & E & Hr & _ & Hb & _);
    [apply target_input_typed|vm_compute; reflexivity|reflexivity|reflexivity|apply target_tiled_size
    |apply target_linear_size| |].
  - unfold SpansOverlap. rewrite target_tiled_size, target_linear_size. reflexivity.
  - exists plan, r, bytes. split; [done|]. split; [done|]. apply Hb; vm_compute; split; congruence.
Defined.

(** A linear chain of 5 by 3 texels with two levels. *)
Definition linear_input : GuestImageLayoutInput :=
  mkGuestImageLayoutInput 0x20000 rgba 5 3 1 1 2 0 0 kColor2D kLinear true.

Lemma linear_image_sound_witness :
  exists layout, CalculateGuestImageLayout linear_input = gives layout
    /\ layout_ok layout = true /\ gl_needs_detile layout = false
    /\ exists layers, layers_of_type linear_input = inr layers
       /\ levels_sound linear_input layers 2 (gl_mips layout) (gl_total_bytes layout).
Proof.
  destruct (linear_image_sound linear_input) as (layout & E & H); [repeat split; vm_compute; discriminate|].
  exists layout. assert (E' := E). vm_compute in E'. injection E' as <-.
  split; [exact E|]. split; [reflexivity|]. split; [reflexivity|].
  destruct H as (layers & El & _ & Hs & _); [reflexivity|reflexivity|]. exists layers. split; [exact El|exact Hs].
Defined.

(** ** Command streams *)

#[local] Instance gpu_host : HostMemory := fun _ => true.

Definition gpu_page : GuestMemory :=
  default (blank_memory 0x1000 0x1000 1 false 0) (GuestMemory_create 0x1000 0x1000 3).

Lemma gpu_page_ok : memory_ok gpu_page.
Proof.
  split; [by apply created_ok, (gc_vector 0x1000 0x1000 3)|].
  intros a Ha. assert (E : guest_byte gpu_page a = 0); [|rewrite E; unfold is_byte; lia].
  assert (Eb : bytes_ gpu_page = replicate 4096 0) by (vm_compute; reflexivity).
  assert (Es : shared_mappings_ gpu_page = []) by reflexivity.
  unfold guest_byte, loc_of. rewrite Es. cbn -[gpu_page Z.sub Z.to_nat replicate lookup default]. rewrite Eb.
  destruct (replicate 4096 0 !! Z.to_nat (a - base_address_ gpu_page)) eqn:E; [|done].
  by apply lookup_replicate in E as [-> _].
Qed.

(** A buffer at 0x1100: a NOP, a wait until the word at 0x1200 is 1, and a call
    of the buffer at 0x1180, which holds a NOP. *)
Definition stream_words : list Z :=
  [0xc0001000; 0; 0xc0053c00; 3; 0x1200; 0; 1; 0xffffffff; 4; 0xc0023f00; 0x1180; 0; 2].
Definition words_bytes (l : list Z) : list Z := concat (map (le_bytes 4) l).
Definition stream_memory : GuestMemory :=
  (Write 0x1180 (words_bytes [0xc0001000; 0]) (Write 0x1100 (words_bytes stream_words) gpu_page).1).1.
(** The memory after the guest has stored 1 at 0x1200. *)
Definition released_memory : GuestMemory := (Write 0x1200 (words_bytes [1]) stream_memory).1.

Definition runtime_at (m : GuestMemory) : GpuRuntime := mkGpuRuntime m (mkShaderRuntime ∅ ∅) ∅ ∅ ∅.

Lemma words_bytes_are_bytes l : Forall is_byte (words_bytes l).
Proof. induction l as [|x l IH]; [constructor|]. apply Forall_app_2; [apply le_bytes_are_bytes|exact IH]. Qed.

Lemma stream_memory_ok : memory_ok stream_memory.
Proof. repeat (apply memory_write; [|u64_lia|apply words_bytes_are_bytes]). apply gpu_page_ok. Qed.

Lemma released_memory_ok : memory_ok released_memory.
Proof. apply memory_write; [apply stream_memory_ok|u64_lia|apply words_bytes_are_bytes]. Qed.

Lemma default_limits_ok : limits_ok GpuCommandLimits_init.
Proof. split; vm_compute; split; discriminate. Qed.

Lemma trace_accepts_or_fails : ~ sink_blocks GpuActionTrace.
Proof. intros (a & m & s & H). revert H. unfold Submit, trace_sink, Trace_Submit. by destruct (_ >=? _). Qed.

(** The buffer is blocked at the wait, and ends after the guest's store. *)
Lemma command_stream_safe_witness :
  exists k, BeginCommandBuffer 0x1100 13 GpuCommandLimits_init (runtime_at stream_memory) = Some k /\
  exists g' s' k', ResumeCommandBuffer k (runtime_at stream_memory) (GpuActionTrace_init 8) = Some (g', s', k', cc_result k')
    /\ cr_status (cc_result k') = cmd_kBlocked /\ cc_terminal k' = false.
Proof.
  destruct (command_stream_safe (S := GpuActionTrace) 0x1100 13 GpuCommandLimits_init (runtime_at stream_memory)
    default_limits_ok ltac:(u64_lia) ltac:(by vm_compute) stream_memory_ok) as [[k Hk] Hresume].
  exists k. split; [done|].
  destruct (Hresume k (GpuActionTrace_init 8)) as (g' & s' & k' & E & _ & Hiff & _);
    [by apply (reached_begin _ _ _ (runtime_at stream_memory)); [apply stream_memory_ok|]|].
  exists g', s', k'. split; [done|]. rewrite Hiff.
  assert (Eb : option_map (fun x => cr_status x.2) (ResumeCommandBuffer k (runtime_at stream_memory) (GpuActionTrace_init 8))
    = Some cmd_kBlocked) by (vm_compute in Hk; injection Hk as <-; vm_compute; reflexivity).
  rewrite E in Eb. injection Eb as Eb. by split.
Defined.

(** A sink that gives the answers it is told to and then accepts everything, and
    that writes down its calls. *)
Record ScriptedSink := mkScripted { sc_answers : list GpuCommandStatus; sc_history : history }.

#[local] Instance scripted_sink : SubmissionSink ScriptedSink := fun a m s =>
  let answer := match sc_answers s with [] => cmd_kComplete | st :: _ => st end in
  (m, mkScripted (tail (sc_answers s)) (sc_history s ++ [(a, answer)]), answer).
#[local] Instance scripted_keeps_memory : SinkKeepsMemory ScriptedSink.
Proof. by intros a m s _ Hm. Qed.
Lemma scripted_records : records sc_history.
Proof. by intros a m s. Qed.

(** Resuming with a sink that gives these answers: the cursor and the calls. *)
Definition resumed (k : GpuCommandCursor) (m : GuestMemory) (answers : list GpuCommandStatus)
  : option (GpuCommandCursor * history) :=
  match ResumeCommandBuffer k (runtime_at m) (mkScripted answers []) with
  | Some (_, s, k', _) => Some (k', sc_history s)
  | None => None
  end.

Lemma life_resumed address n limits k l m answers k' l' :
  life sc_history address n limits k l -> memory_ok m -> cc_terminal k = false -> resumed k m answers = Some (k', l') ->
  life sc_history address n limits k' (l ++ l').
Proof.
  unfold resumed. intros Hl Hm Ht. destruct (ResumeCommandBuffer _ _ _) as [[[[g s] k1] r]|] eqn:E; [|done].
  intros [= <- <-]. by apply (life_resume sc_history address n limits k l (runtime_at m) (mkScripted answers []) g s k1 r).
Qed.

(** The stream waits, then the sink blocks the call of the second buffer, and
    accepts it the next time. *)
Definition stream_cursor : option GpuCommandCursor :=
  BeginCommandBuffer 0x1100 13 GpuCommandLimits_init (runtime_at stream_memory).
Definition next_cursor (x : option (GpuCommandCursor * history)) (m : GuestMemory) (answers : list GpuCommandStatus)
  : option (GpuCommandCursor * history) :=
  '(k, l) ← x; '(k', l') ← resumed k m answers; Some (k', l ++ l').
Definition waiting_cursor := next_cursor ((., []) <$> stream_cursor) stream_memory [].
Definition refused_cursor := next_cursor waiting_cursor released_memory [cmd_kBlocked].
Definition ended_cursor := next_cursor refused_cursor released_memory [].

Definition lived (x : option (GpuCommandCursor * history)) : Prop :=
  match x with Some (k, l) => life sc_history 0x1100 13 GpuCommandLimits_init k l | None => False end.
Definition open_cursor (x : option (GpuCommandCursor * history)) : bool :=
  match x with Some (k, _) => negb (cc_terminal k) | None => false end.

Lemma next_lived x m answers :
  lived x -> memory_ok m -> open_cursor x = true -> is_Some (next_cursor x m answers) -> lived (next_cursor x m answers).
Proof.
  destruct x as [[k l]|]; [|done]. cbn. intros Hl Hm Ht%negb_true_iff.
  destruct (resumed k m answers) as [[k' l']|] eqn:E; [intros _|by intros [? ?]].
  by apply (life_resumed _ _ _ k l m answers).
Qed.

Lemma ended_life : lived ended_cursor.
Proof.
  assert (T0 : is_Some stream_cursor) by (vm_compute; by eexists).
  do 3 (apply next_lived; [|first [apply stream_memory_ok|apply released_memory_ok]|vm_compute; reflexivity|vm_compute; by eexists]).
  destruct T0 as [k E]. rewrite E. cbn. by apply (life_begin _ _ _ _ (runtime_at stream_memory)); [apply stream_memory_ok|].
Qed.

(** The 13 dwords of the buffer and the 2 of the one it calls are processed, and
    the 4 of the call a second time. *)
Lemma command_words_processed_once_witness :
  match ended_cursor with
  | Some (k, _) => cr_status (cc_result k) = cmd_kComplete /\ cr_processed_dwords (cc_result k) = 19
  | None => False
  end.
Proof.
  pose proof ended_life as H.
  assert (T : option_map (fun x => (cc_terminal x.1, cr_status (cc_result x.1))) ended_cursor = Some (true, cmd_kComplete))
    by (vm_compute; reflexivity).
  assert (E : option_map (fun x => (entered x.2, repeated x.2)) ended_cursor = Some (2, 4)) by (vm_compute; reflexivity).
  destruct ended_cursor as [[k l]|]; [|destruct H]. injection T as T1 T2. injection E as E1 E2. split; [done|].
  destruct (command_words_processed_once sc_history 0x1100 13 GpuCommandLimits_init k l default_limits_ok
    ltac:(u64_lia) ltac:(by vm_compute) scripted_records H) as [_ Hend].
  destruct (Hend T1 T2) as [-> _]. rewrite E1, E2. reflexivity.
Defined.

(** ** Queues *)

Lemma default_queue_limits_ok : queue_limits_ok GpuQueueLimits_init.
Proof. split; [vm_compute; split; discriminate..|apply default_limits_ok]. Qed.

(** The stream submitted to the graphics queue. *)
Definition one_queued : GpuSubmissionQueue :=
  match EnqueueGraphics 0x1100 13 GpuQueueLimits_init GpuSubmissionQueue_init (runtime_at stream_memory) with
  | Some (sq, _) => sq
  | None => GpuSubmissionQueue_init
  end.

Lemma one_queued_reached : rtc (queue_step (S := GpuActionTrace)) GpuSubmissionQueue_init one_queued.
Proof.
  apply rtc_once. eapply (step_graphics 0x1100 13 GpuQueueLimits_init (runtime_at stream_memory));
    [u64_lia|by vm_compute|apply default_queue_limits_ok|apply stream_memory_ok|vm_compute; reflexivity].
Qed.

Lemma submission_queue_invariant_witness : PendingSubmissionCount one_queued = 1.
Proof.
  destruct (submission_queue_invariant (S := GpuActionTrace) one_queued one_queued_reached) as (_ & -> & _).
  vm_compute. reflexivity.
Defined.

(** Draining blocks at the wait, and a second drain changes nothing. *)
Lemma drain_reaches_quiescence_witness :
  exists sq' g' s', Drain one_queued (runtime_at stream_memory) (GpuActionTrace_init 8)
      = Some (sq', g', s', mkDrainResult 0 0 1 1 None false) /\
    Drain sq' g' s' = Some (sq', g', s', mkDrainResult 0 0 1 1 None false).
Proof.
  assert (Hq : queue_ok (S := GpuActionTrace) one_queued).
  { pose proof one_queued_reached as H. pose proof (queue_init_ok (S := GpuActionTrace)) as H0.
    induction H as [|x y z Hxy Hyz IH]; [done|]. apply IH. by eapply queue_step_ok. }
  destruct (drain_reaches_quiescence one_queued (runtime_at stream_memory) (GpuActionTrace_init 8) Hq stream_memory_ok) as (sq' & g' & s' & r & E & _ & _ & _ & _ & _ & Hagain).
  assert (Er : option_map snd (Drain one_queued (runtime_at stream_memory) (GpuActionTrace_init 8))
    = Some (mkDrainResult 0 0 1 1 None false)) by (vm_compute; reflexivity).
  rewrite E in Er. injection Er as ->. exists sq', g', s'. split; [done|]. apply Hagain; [reflexivity|apply trace_accepts_or_fails].
Defined.

(** ** Packet writers *)

(** A command buffer at 0x1300 with free space from 0x1400 to 0x1800. *)
Definition writer_memory : GuestMemory :=
  (Write 0x1318 (le_bytes 8 0x1800) (Write 0x1310 (le_bytes 8 0x1400) gpu_page).1).1.

Lemma writer_memory_ok : memory_ok writer_memory.
Proof. repeat (apply memory_write; [|u64_lia|apply le_bytes_are_bytes]). apply gpu_page_ok. Qed.

Lemma writer_access a n p :
  is_u64 a -> 0 < n -> CanAccessLocked a n p writer_memory = true -> accessible writer_memory a n p.
Proof.
  intros Ha Hn E. apply CanAccessLocked_iff in E; [|apply writer_memory_ok|done|lia]. by rewrite Z.max_r in E by lia.
Qed.

Lemma writer_private : shared_mappings_ writer_memory = [].
Proof. vm_compute. reflexivity. Qed.

Lemma writer_has_room : appendable writer_memory 0x1300 5.
Proof.
  assert (Eu : cursor_up writer_memory 0x1300 = 0x1400) by (vm_compute; reflexivity).
  assert (Ed : cursor_down writer_memory 0x1300 = 0x1800) by (vm_compute; reflexivity).
  assert (Er : reserved_dwords writer_memory 0x1300 = 0) by (vm_compute; reflexivity).
  split; rewrite ?Eu, ?Ed, ?Er;
    lazymatch goal with
    | |- accessible _ _ _ _ => apply writer_access; [u64_lia|lia|vm_compute; reflexivity]
    | |- _ /\ _ => (split; [reflexivity|reflexivity]) || (split; [lia|by vm_compute])
    | |- _ => u64_lia
    end.
Qed.

Lemma append_packet_exact_witness :
  exists m', AppendPacket 0x1300 (dispatch_packet 2 3 4 0) writer_memory = (m', mkPacketResult gpu_kOk 0x1400) /\
    words_at m' 0x1400 5 = dispatch_packet 2 3 4 0 /\ cursor_up m' 0x1300 = 0x1414.
Proof.
  assert (Hw : Forall is_u32 (dispatch_packet 2 3 4 0)) by (repeat (constructor; [by vm_compute|]); constructor).
  destruct (append_packet_exact 0x1300 (dispatch_packet 2 3 4 0) writer_memory writer_memory_ok ltac:(u64_lia) Hw) as [Hok _].
  assert (Eu : cursor_up writer_memory 0x1300 = 0x1400) by (vm_compute; reflexivity). rewrite Eu in Hok.
  destruct (Hok writer_has_room) as (m' & E & _ & _ & Hrest). exists m'. split; [exact E|].
  destruct Hrest as (_ & W2 & W1). split.
  - apply W1; [apply private_distinct, writer_private|]. intros i Hi j Hj. unfold loc_of. rewrite writer_private.
    simpl in *. intros [= Heq]. lia.
  - apply W2, private_distinct, writer_private.
Defined.

Definition decoding_context : DecodeContext GpuActionTrace :=
  mkContext (runtime_at gpu_page) (GpuActionTrace_init 8)
    (mkCursor GpuCommandLimits_init [] None GpuCommandResult_init false).

(** A jump to 0x1182, rounded to 0x1180, of 2 words, behind a filler. *)
Definition jump_arguments (i : nat) : Z := nth i [0x1300; 0; 0; 0x1182; 2] 0.
Definition jump_words : list Z := [0xc0023f00; 0x1180; 0; 0x0f200002].

Lemma written_packets_decode_witness :
  packet_words_ok jump_words /\
  process_at 0 (mkFrame 0x1100 5 1 ([0x80000000] ++ jump_words)) decoding_context
  = (_ ← count_dwords 4;
     status ← ProcessIndirectBuffer (packet_at 0x1104 jump_words) 0x1180 2 0x0f200002 0 0;
     if negb (is_complete status) then mret status else _ ← advance 0 4; mret cmd_kComplete) decoding_context.
Proof.
  pose proof (written_packets_decode (Agc agc_kJump jump_arguments) gpu_page jump_words 0 0x1100 [0x80000000] []
    decoding_context gpu_page_ok) as Hd.
  cbn [app] in Hd. apply Hd; [|reflexivity|u64_lia|cbn; u64_lia|by vm_compute|cbn; u64_lia|cbn; lia|cbn; lia|exact I].
  intros i. unfold jump_arguments. do 5 (destruct i as [|i]; [cbn; u64_lia|]). cbn. destruct i; u64_lia.
Defined.

(** ** Sinks *)

Lemma ring_keeps_latest_witness :
  let act n := MakeAction act_kNop n 1 0 0 [] in
  let r := submit_all [act 1; act 2; act 3] (GpuActionRing_init 2) in
  Ring_At 0 r = Some (act 2) /\ Ring_At 1 r = Some (act 3) /\ Ring_At 2 r = None /\ ri_dropped_count r = 1.
Proof.
  intros act r. destruct (ring_keeps_latest 2 [act 1; act 2; act 3] ltac:(lia)) as (_ & Hat & Hd & _).
  fold r in Hat, Hd. rewrite !Hat by lia. split; [reflexivity|]. split; [reflexivity|]. split; [reflexivity|].
  rewrite Hd. vm_compute. reflexivity.
Defined.

(** A triangle into a linear target of 64 by 64 pixels, with a depth target of the
    same size. *)
Definition draw_context : RegisterMap := list_to_map
  [(kCbColor0Base, 0x10); (kCbColor0Pitch, 31); (kCbColor0Slice, 0); (kCbColor0View, 0); (kCbColor0Info, 40);
   (kCbColor0Attrib, 0); (kCbColor0Attrib2, 63 * 2 ^ 14 + 63); (kCbColor0Attrib3, 0); (kCbTargetMask, 15);
   (kCbBlend0Control, 0); (kPaSuScModeControl, 0); (kVportScissorTl, 0); (kVportScissorBr, 64 * 2 ^ 16 + 64);
   (kVportXScale, 0); (kVportXScale + 1, 0); (kVportXScale + 2, 0); (kVportXScale + 3, 0); (kVportZMin, 0);
   (kVportZMax, 0); (kDbDepthControl, 2); (kDbZInfo, 3); (kDbZWriteBase, 0x20); (kDbZWriteBaseHi, 0);
   (kDbDepthSizeXy, 63 * 2 ^ 16 + 63); (kDbDepthSize, 31)].
Definition draw_user : RegisterMap := list_to_map [(kVgtPrimitiveType, 4); (kSyntheticDrawInstanceCount, 1)].
Definition draw_action : GpuAction := MakeAction act_kDraw 0x1100 3 kPm4DrawIndexAuto 0 [3; 2].

(** The draw is ready, and stays ready when the base of the depth target was
    never written. *)
Lemma ready_render_state_witness :
  draw_ready_ok (SnapshotRenderState draw_context draw_user draw_action) /\
  depth_detached (delete kDbZWriteBase draw_context)
    (SnapshotRenderState (delete kDbZWriteBase draw_context) draw_user draw_action).
Proof.
  assert (Hok : action_ok draw_action) by (apply MakeAction_ok; repeat constructor; u64_lia).
  destruct (ready_render_state draw_context draw_user draw_action Hok ltac:(vm_compute; reflexivity))
    as [(_ & _ & _ & H & _ & Hd)|(H & _)]; [|discriminate H].
  split; [exact H|]. apply Hd; [vm_compute; reflexivity|]. apply elem_of_cons. right. apply elem_of_cons. left. reflexivity.
Defined.
